(* ===== verification/_CoqProject ===== *)
-Q . S2P
Prelude.v
GoStd.v
Dict.v
QuickList.v
LinkedList.v
LockMap.v
RaftFSM.v
RaftLaws.v
Rebalance.v
Utils.v
Wildcard.v
Border.v
GeoHash.v
SkipList.v
SkipRep.v
SkipShape.v
SortedSet.v
ZSetShape.v
SortedFacts.v
ZSetLaws.v
Bitmap.v
SetDS.v
Protocol.v
Parser.v
DB.v
SlowLog.v
Marshal.v
StringCmds.v
KeyCmds.v
ListCmds.v
HashCmds.v
SetCmds.v
ZSetCmds.v
GeoCmds.v
ClusterHelper.v
Conn.v
PubSub.v
Aof.v
AofLaws.v
Router.v
Exec.v
Tx.v
Server.v
ServerLaws.v
ServerSpec.v
Laws.v
CollLaws.v
AofServer.v
ZCmdLaws.v
Rollback.v
MarshalLaws.v
DumpLaws.v
Cluster.v
ClusterTcc.v
Migration.v
ClusterServer.v
ClusterLaws.v
TccLaws.v
ServerPart.v
ClusterSpec.v
Threads.v
Repl.v
ReplLaws.v
ReplSlave.v
ReplSlaveLaws.v
ReplSpec.v
TimeWheel.v
TimeWheelLaws.v
Expiry.v
ConsistentHash.v
Snowflake.v
Client.v
ClientLaws.v
Pool.v
Handler.v
HandlerLaws.v
Rdb.v
RdbLaws.v
