(* ===== verification/Prelude.v ===== *)
(** * Godis: a verification development

    Godis is a Redis server written in Go.  A client connection (redis/connection)
    sends RESP requests that redis/parser reads; database/server.go hands each
    command line to a logical database (database/database.go), which looks it up in
    the command table (database/router.go), locks the keys it declares, runs its
    handler and unlocks them.  The handlers (database/string.go, keys.go, list.go,
    hash.go, set.go, sortedset.go, geo.go, cluster_helper.go) work on the data
    structures of datastruct/ and hand what they did to the append-only file (aof/).
    MULTI, WATCH and EXEC (database/transaction.go) run several commands under one
    set of locks, with undo logs for rollback (database/tx_utils.go,
    aof/marshal.go).  SUBSCRIBE and PUBLISH go to a hub (pubsub/).  In a cluster
    (cluster/) every node has such a server; which node has which slot is agreed on
    by a state machine behind raft.  Replies are the types of redis/protocol.

    ** The files

    Foundations
    - [Prelude]: outcomes (return, panic, block), the state monad of handlers, the
      width of integers, [utils.ToCmdLine]; [GoStd]: strconv, strings and the other
      parts of Go's library the code computes with; [Utils] (lib/utils).

    Data structures
    - [Dict] (datastruct/dict): [SimpleDict] and [ConcurrentDict] with its shards,
      hash, counter, shard locks ([RWLocks], [RWUnLocks]) and cursor scan.  The
      interface [dict.Dict] is the class [DictOps] with its laws [DictLaws]; both
      dictionaries are instances.
    - [QuickList] and [LinkedList] (datastruct/list): pages and an iterator, nodes
      on a heap; [SetDS] (datastruct/set), over any dictionary; [Bitmap]
      (datastruct/bitmap); [LockMap] (datastruct/lock), with its interleavings.
    - [Border], [SkipList], [SortedSet] (datastruct/sortedset): the borders, the skip
      list on a heap of nodes with levels and spans, and the sorted set.
      [SkipRep], [SkipShape], [ZSetShape], [SortedFacts] hold the representation
      invariant and that every operation keeps it; [ZSetLaws] the theorems.
    - [GeoHash] (lib/geohash): positions as codes; [Wildcard] (lib/wildcard).

    Requests and replies
    - [Protocol] (redis/protocol): replies and their bytes; [Parser]
      (redis/parser): the request parser [ParseV2] and the stream parser [parse0];
      [Conn] (redis/connection/conn.go): the state of a connection.

    One database
    - [DB] (database/database.go): the state of one database and its operations,
      the class [Store] of the operations handlers use, and its two instances: the
      database itself and the specification [View], where data and expiry times
      are finite maps.  [refines] is the simulation between the two.
    - [Marshal] (aof/marshal.go, database/tx_utils.go), [StringCmds], [KeyCmds],
      [ListCmds], [HashCmds], [SetCmds], [ZSetCmds], [GeoCmds], [ClusterHelper]: one
      definition per handler, prepare function and undo function, written over
      [Store], each with its refinement lemma.
    - [Router]: the registrations of the [init] functions, and [cmdTable], those whose
      commands end whatever locks the caller holds; [Exec]: the complete table
      [goTable] and [execNormalCommand]; [Tx]: MULTI, WATCH, EXEC, DISCARD and [Exec].
    - [Laws], [CollLaws], [ZCmdLaws], [Rollback]: what clients can rely on.
      [MarshalLaws]: the command line of a value rebuilds it; [DumpLaws]: so does
      the dump that travels between nodes.

    The server
    - [PubSub] (pubsub), [SlowLog] (database/slowlog.go), [Server]
      (database/server.go, systemcmd.go): the databases, the dispatch of every
      line, the callbacks; [ServerLaws], [ServerSpec]: its theorems.
    - [Aof], [AofLaws] (aof/aof.go, rewrite.go): the persister over any engine of
      the class [DBEngine]; [AofServer]: the server as such an engine.  [Rdb],
      [RdbLaws] (aof/rdb.go, database/persistence.go): RDB files, over the class
      [RdbLib] of the encoder and the decoder, with the laws [RdbLaws].
    - [Threads]: goroutines as resumptions, whose steps a scheduler interleaves.
      [Repl], [ReplSlave] (database/replication_master.go, replication_slave.go):
      both sides of replication as such goroutines; [ReplLaws], [ReplSlaveLaws],
      [ReplSpec]: their theorems.
    - [TimeWheel], [TimeWheelLaws] (lib/timewheel): the wheel whose jobs remove
      expired keys, with its slots and circles; [Expiry]: the job of a key on it.
    - [Handler], [HandlerLaws] (redis/server): from the bytes of any number of
      connections to the bytes sent back, over any engine of the class [Backend].
    - [Client], [ClientLaws] (redis/client): the pipelining client, its goroutines as
      actions of a state machine; [Pool] (lib/pool), as threads; [ConsistentHash]
      (lib/consistenthash); [Snowflake] (lib/idgenerator).

    The cluster
    - [RaftFSM], [RaftLaws] (cluster/raft): the state machine of nodes, slots and
      migrations, its slices on a heap of arrays, snapshots.
    - [Rebalance] (cluster/core/node_manager.go): the plan of a rebalance.
    - Cluster.v, ClusterTcc.v, Migration.v: cluster/core and cluster/commands.  A network is
      a map of nodes; a node has an engine (class [Cluster.Engine]), the raft state machine of
      RaftFSM.v, its slots and transactions.  Routes, relays and the execution of a line;
      PREPARE, COMMIT, ROLLBACK and the commands over several nodes; the migration of
      slots, rebalancing and failover.  The raft library is the class [Migration.RaftLib].
    - ClusterServer.v: the server of Server.v as an engine, and the test cluster of tests.go.
    - TccLaws.v, ServerPart.v, ClusterLaws.v, ClusterSpec.v: a transaction over any engines,
      what a server does in it, and a cluster of servers as a family of finite maps.
    ** What the theorems show

    - Refinement: a session of any commands but KEYS, SCAN, GETVER, RANDOMKEY,
      GEORADIUS, GEORADIUSBYMEMBER, RENAMETO, RENAMENXTO and COPYTO on the real
      database gives the replies and the contents that the same handlers give on
      finite maps, panics included ([session_refines_spec]); so does EXEC
      ([ExecMulti_spec]) and the server with all its databases
      ([server_refines]).  Below it, the sharded dictionary and the sorted set
      refine finite maps, the lists refine a list, the sets refine finite sets, the
      hub a list of pairs, the slices of the raft state machine a map from slots
      to nodes.
    - Safety: every command line but those of RANDOMKEY, GEORADIUS,
      GEORADIUSBYMEMBER, RENAMETO, RENAMENXTO and COPYTO ends with all locks free
      and the invariant kept, and moves exactly the versions it should
      ([execNormalCommand_safe], [rwlocks_roundtrip]); so does EXEC on any queue
      without these, KEYS and SCAN ([ExecMulti_safe]).  The server answers every
      line but those of [may_wait] ([server_always_replies]).  A failed transaction
      of well-formed string commands leaves no trace ([transaction_rolls_back]).  A line that is
      refused changes nothing.  Interleaved lock users exclude each other and do
      not deadlock.
    - End to end: for any interleaving of clients, the bytes each one gets are the
      encoded replies of the server to the lines its bytes encode ([wire_refines]);
      a client gets the reply of its own request as long as it does not reconnect
      ([replies_match]); the wheel runs a job at the tick its delay says, and a
      cancelled one never ([timewheel_refines]).
    - Persistence: what the server wrote is what it has after a restart
      ([restart_restores]), a rewrite keeps the meaning of the log
      ([rewrite_keeps_log]), the dump of a value restores it ([dump_restores]), and
      so does an RDB file, for values of every type and expiry times ([rdb_restores]).
    - Distribution: a slave that connects executes exactly the lines of its master,
      and both count the same offset ([replica_follows]); MSET over several nodes
      does to them together what it does to one map ([mset_over_nodes]).
    - Meaning: SET and GET with expiry, sessions on sorted sets, the operations on
      lists, hashes and sets (in [Laws], [CollLaws], [ZCmdLaws]).
    - Parsing and codes: both parsers invert the encoder; the stream parser ends on
      every input; a position and its code differ by the size of a cell.  A full
      scan with cursors visits every key; a glob matches what it should, line
      feeds excepted.
    - The theorems say in their comments which inputs they leave out; most of these
      are shown to behave otherwise, and the findings of the manifest list them.
    - Behaviour one would not want, each shown on the model: KEYS in a transaction
      that waits for its own lock, a timer that
      comes too early for the expiry of its key, a WATCH that misses a racing write, a closed client that stays subscribed, ranges to infinity that
      are empty, a failover that keeps slots at the old master, an append-only file
      that a password makes unreadable, a rewrite that repeats commands, a second
      RDB file that ends replication, a slave that cannot change its master, a rollback that deletes keys, a RENAME that never returns.

    ** Choices

    - A handler is a function from a state to an outcome and a state: a panic keeps
      the writes made before it.  [Block] is a call that never returns (a mutex
      held by the caller, a loop without end).  Loops that are not structural carry
      fuel and end in [Block] when it is used up; the theorems exclude [Block], so
      the fuel is enough.  The loops over a list carry the list's size, the parsers
      the length of the input, which each step shortens, the walks of the skip
      list the size of its heap.
    - Commands run one at a time: a handler holds the locks of its keys, and the
      locks are modelled so that a command that would wait for itself shows as
      [Block].  Interleavings appear where a claim is about them, as explicit
      sequences of steps.
    - The table has fuel for the draws of RANDOMKEY and for dumps inside dumps; the
      theorems hold for every fuel.
    - [strings.ToLower] is modelled on ASCII: a byte above 127 is left as it is, while
      Go also maps other letters (a Kelvin sign to k) and replaces invalid UTF-8.
      Only names and options of commands with such bytes are affected.
    - INFO, COPY, PSYNC, REPLCONF, and the rewriting and saving commands call
      operations of the class [Services]; no theorem assumes anything of them, and
      those about the server exclude these commands.
    - A byte slice is an option of a string, since nil and empty slices differ in
      replies.  [int64] wraps around explicitly.  Times are nanoseconds in [Z].
      Scores and positions are 64-bit floats of the Standard Library.
    - The clock, the random draws, the order of map iterations, the growth of
      slices, strconv's float conversions, package math's trigonometry and the
      compiler of package regexp are parameters (classes [Env], [GoRuntime] and
      [RegexpLaws]), with what the code relies on as fields.
    - A value is a string, list, hash, set or sorted set.  It is changed in place
      through its entity; no two keys of one database share an entity, since COPY
      is not modelled, so writing the new value back under the key is the same.

    ** Not modelled

    The encoding of RDB files (a library), COPY, the texts of INFO, the
    pools of connections between the nodes of a cluster, the listeners of the
    network layer and the reading of the configuration file. *)

From Stdlib Require Import ZArith Lia Ascii String.
From stdpp Require Import base list gmap strings numbers sorting.

(** ** Scope and notations

    The development writes Go integers as [Z]; the scope below holds its own
    notations, so that a file opens it on purpose. *)

Declare Scope go_scope.
Delimit Scope go_scope with go.

(** ** Outcomes and the state monad of handlers

    A Go call returns, panics, or never returns ([Block]: it waits for a mutex
    that the calling goroutine itself holds, or it loops forever; a loop modelled
    with fuel ends in [Block] when the fuel is used up).  A panic does not undo the writes made before it, so a handler
    is a function from a state to an outcome and the state the call leaves
    behind in every case. *)

Inductive outcome (A : Type) : Type :=
  | Ret (a : A)
  | Panic (msg : string)
  | Block.

Arguments Ret {A} a.
Arguments Panic {A} msg.
Arguments Block {A}.

Definition GoM (S A : Type) : Type := S → outcome A * S.

#[export] Instance gom_ret {S} : MRet (GoM S) := λ A a s, (Ret a, s).

#[export] Instance gom_bind {S} : MBind (GoM S) := λ A B f m s,
  match m s with
  | (Ret a, s') => f a s'
  | (Panic msg, s') => (Panic msg, s')
  | (Block, s') => (Block, s')
  end.

Definition go_panic {S A} (msg : string) : GoM S A := λ s, (Panic msg, s).

Definition go_get {S A} (f : S → A) : GoM S A := λ s, (Ret (f s), s).

Definition go_modify {S} (f : S → S) : GoM S unit := λ s, (Ret tt, f s).

(** [go_lift o] runs a computation that touches no state. *)
Definition go_lift {S A} (o : outcome A) : GoM S A := λ s, (o, s).

(** [go_defer d m] is [defer d(); m]: the deferred call runs on return and on
    panic. *)
Definition go_defer {S A} (d : GoM S unit) (m : GoM S A) : GoM S A := λ s,
  match m s with
  | (Block, s') => (Block, s')
  | (o, s') =>
      match d s' with
      | (Ret _, s'') => (o, s'')
      | (Panic msg, s'') => (Panic msg, s'')
      | (Block, s'') => (Block, s'')
      end
  end.

(** [go_for xs body] is [for _, x := range xs { body(x) }]. *)
Fixpoint go_for {S A} (xs : list A) (body : A → GoM S unit) : GoM S unit :=
  match xs with
  | [] => mret tt
  | x :: xs' => body x ≫= λ _, go_for xs' body
  end.

(** Calls that return an error value.  [let? x := m in k] is
    [x, err := m(); if err != nil { return err }; k] in a function that returns
    the error itself; [let! x := m in k] is the same in a function that returns a
    value and an error. *)
Definition early {S E A} (m : GoM S (E + A)) (k : A → GoM S E) : GoM S E :=
  m ≫= λ r, match r with inl e => mret e | inr a => k a end.

Definition early_err {S E A B} (m : GoM S (E + A)) (k : A → GoM S (E + B)) : GoM S (E + B) :=
  m ≫= λ r, match r with inl e => mret (inl e) | inr a => k a end.

Notation "'let?' x ':=' m 'in' k" := (early m (λ x, k))
  (at level 200, x pattern, m at level 100, k at level 200, right associativity) : go_scope.
Notation "'let!' x ':=' m 'in' k" := (early_err m (λ x, k))
  (at level 200, x pattern, m at level 100, k at level 200, right associativity) : go_scope.

Section run.
Context {S A B : Type}.

Lemma bind_Ret (m : GoM S A) (k : A → GoM S B) s a s' :
  m s = (Ret a, s') → (m ≫= k) s = k a s'.
Proof. intros H. unfold mbind, gom_bind. by rewrite H. Qed.

Lemma bind_inv (m : GoM S A) (k : A → GoM S B) s b s' :
  (m ≫= k) s = (Ret b, s') → ∃ a s1, m s = (Ret a, s1) ∧ k a s1 = (Ret b, s').
Proof. unfold mbind, gom_bind. destruct (m s) as [[a| |] s1]; try done. eauto. Qed.

Lemma bind_Panic (m : GoM S A) (k : A → GoM S B) s msg s' :
  m s = (Panic msg, s') → (m ≫= k) s = (Panic msg, s').
Proof. intros H. unfold mbind, gom_bind. by rewrite H. Qed.

End run.

Section early_exit.
Context {S E A B : Type}.

Lemma early_inr (m : GoM S (E + A)) (k : A → GoM S E) s a s' :
  m s = (Ret (inr a), s') → early m k s = k a s'.
Proof. intros H. unfold early. by rewrite (bind_Ret _ _ _ _ _ H). Qed.

Lemma early_inl (m : GoM S (E + A)) (k : A → GoM S E) s e s' :
  m s = (Ret (inl e), s') → early m k s = (Ret e, s').
Proof. intros H. unfold early. by rewrite (bind_Ret _ _ _ _ _ H). Qed.

Lemma early_err_inr (m : GoM S (E + A)) (k : A → GoM S (E + B)) s a s' :
  m s = (Ret (inr a), s') → early_err m k s = k a s'.
Proof. intros H. unfold early_err. by rewrite (bind_Ret _ _ _ _ _ H). Qed.

Lemma early_err_inl (m : GoM S (E + A)) (k : A → GoM S (E + B)) s e s' :
  m s = (Ret (inl e), s') → early_err m k s = (Ret (inl e), s').
Proof. intros H. unfold early_err. by rewrite (bind_Ret _ _ _ _ _ H). Qed.
End early_exit.

#[export] Instance outcome_ret : MRet outcome := λ A a, Ret a.
#[export] Instance outcome_bind : MBind outcome := λ A B f o,
  match o with Ret a => f a | Panic msg => Panic msg | Block => Block end.

(** The reference for the iteration methods: a left-to-right pass over a list of
    elements numbered from [i], with a consumer that threads the variables its
    closure captures and can stop the pass. *)
Fixpoint fold_until {V S} (consumer : Z → V → S → bool * S) (l : list V) (i : Z) (s : S) : S :=
  match l with
  | [] => s
  | x :: l' => let '(goNext, s') := consumer i x s in
               if (goNext : bool) then fold_until consumer l' (i + 1)%Z s' else s'
  end.

(** ** The Go runtime

    [append] reallocates a slice whose capacity is exceeded; the language only
    promises that the new capacity is large enough. *)
Class GoRuntime := {
  append_cap : nat → nat → nat;
  append_cap_ge : ∀ old needed, needed ≤ append_cap old needed
}.

(** A runtime whose [append] allocates twice what is needed. *)
Definition doubling_runtime : GoRuntime :=
  {| append_cap := λ _ needed, (2 * needed)%nat; append_cap_ge := λ _ n, Nat.le_add_r n _ |}.

(** [make([]T, n)] panics when [n] is negative or the slice exceeds the address
    space the allocator manages (2^48 bytes). *)
Definition make_slice (elem_size n : Z) : outcome unit :=
  if (n <? 0)%Z || (n * elem_size >? 281474976710656)%Z
  then Panic "makeslice: len out of range" else Ret tt.

(** ** Machine integers *)

Definition int64_min : Z := -9223372036854775808.
Definition int64_max : Z := 9223372036854775807.
Definition is_int64 (z : Z) : Prop := (int64_min ≤ z ≤ int64_max)%Z.

(** Two's complement wrap-around of Go's signed 64-bit arithmetic; [int] is
    64 bits wide on the platforms the server is built for. *)
Definition int64 (z : Z) : Z :=
  ((z + 9223372036854775808) mod 18446744073709551616 - 9223372036854775808)%Z.

Definition uint32 (z : Z) : Z := (z mod 4294967296)%Z.
Definition int32 (z : Z) : Z := ((z + 2147483648) mod 4294967296 - 2147483648)%Z.

Lemma int64_id (z : Z) : is_int64 z → int64 z = z.
Proof.
  unfold is_int64, int64, int64_min, int64_max. intros H.
  rewrite Z.mod_small by lia. lia.
Qed.

Lemma int64_range (z : Z) : is_int64 (int64 z).
Proof.
  unfold is_int64, int64, int64_min, int64_max.
  pose proof (Z.mod_pos_bound (z + 9223372036854775808) 18446744073709551616).
  lia.
Qed.

Lemma uint32_range (z : Z) : (0 ≤ uint32 z < 4294967296)%Z.
Proof. unfold uint32. apply Z.mod_pos_bound. lia. Qed.

Lemma int32_id (z : Z) : (-2147483648 ≤ z < 2147483648)%Z → int32 z = z.
Proof. intros H. unfold int32. rewrite Z.mod_small by lia. lia. Qed.

#[export] Instance is_int64_dec (z : Z) : Decision (is_int64 z).
Proof. unfold is_int64. apply _. Defined.

(** ** Automation *)

Create HintDb godis.

#[export] Hint Resolve int64_range : godis.
#[export] Hint Rewrite @length_app @length_insert @length_take @length_drop
  @length_replicate @length_fmap : godis.

(** Case analysis on the first test that blocks the goal. *)
Ltac split_test :=
  match goal with
  | |- context [if ?b then _ else _] => destruct b eqn:?
  | |- context [match ?x with _ => _ end] => destruct x eqn:?
  end.

(** Boolean comparisons on [Z] and [nat], as propositions. *)
Ltac unbool :=
  repeat match goal with
  | H : (_ <? _)%Z = true |- _ => apply Z.ltb_lt in H
  | H : (_ <? _)%Z = false |- _ => apply Z.ltb_ge in H
  | H : (_ <=? _)%Z = true |- _ => apply Z.leb_le in H
  | H : (_ <=? _)%Z = false |- _ => apply Z.leb_gt in H
  | H : (_ =? _)%Z = true |- _ => apply Z.eqb_eq in H
  | H : (_ =? _)%Z = false |- _ => apply Z.eqb_neq in H
  | H : (_ >=? _)%Z = _ |- _ => rewrite Z.geb_leb in H
  | H : (_ >? _)%Z = _ |- _ => rewrite Z.gtb_ltb in H
  | H : (_ =? _)%nat = true |- _ => apply Nat.eqb_eq in H
  | H : (_ =? _)%nat = false |- _ => apply Nat.eqb_neq in H
  | H : (_ <? _)%nat = true |- _ => apply Nat.ltb_lt in H
  | H : (_ <? _)%nat = false |- _ => apply Nat.ltb_ge in H
  | H : (_ <=? _)%nat = true |- _ => apply Nat.leb_le in H
  | H : (_ <=? _)%nat = false |- _ => apply Nat.leb_gt in H
  | H : (_ && _)%bool = true |- _ => apply andb_true_iff in H as [? ?]
  | H : (_ || _)%bool = false |- _ => apply orb_false_iff in H as [? ?]
  | H : negb _ = true |- _ => apply negb_true_iff in H
  | H : negb _ = false |- _ => apply negb_false_iff in H
  end.

Ltac zlia := unbool; try lia; autorewrite with godis in *; try lia.

(** ** Byte slices

    A Go [[]byte] is either nil or points at bytes; the two are told apart by
    the code ([bytes == nil]), so a slice is an optional string. *)

Abbreviation bytes := (option string).

Definition str (b : bytes) : string := default EmptyString b.
Definition blen (b : bytes) : Z := Z.of_nat (String.length (str b)).

Abbreviation CmdLine := (list bytes).

(** [utils.ToCmdLine]: every argument becomes a non-nil slice. *)
Definition ToCmdLine (cmd : list string) : CmdLine := Some <$> cmd.

(** [utils.ToCmdLine2]. *)
Definition ToCmdLine2 (commandName : string) (args : list string) : CmdLine :=
  Some commandName :: (Some <$> args).

(** [utils.ToCmdLine3]. *)
Definition ToCmdLine3 (commandName : string) (args : list bytes) : CmdLine :=
  Some commandName :: args.

(** ** Lists and maps *)

Section lists.
Context {A : Type}.

Lemma lookup_Z_total (l : list A) (i : Z) :
  (0 ≤ i < Z.of_nat (length l))%Z → is_Some (l !! Z.to_nat i).
Proof. intros H. apply lookup_lt_is_Some. lia. Qed.

Lemma take_drop_middle_insert (l : list A) i x :
  i < length l → <[i:=x]> l = take i l ++ x :: drop (S i) l.
Proof.
  revert i. induction l as [|a l IH]; intros [|i] H; simpl in *; try lia; [done|].
  f_equal. apply IH. lia.
Qed.

Lemma drop_lookup_cons (l : list A) i x :
  l !! i = Some x → drop i l = x :: drop (S i) l.
Proof. intros H. by rewrite (drop_S l x i). Qed.
End lists.

Lemma filter_all {A} (P : A → Prop) `{∀ x, Decision (P x)} (l : list A) :
  Forall P l → filter P l = l.
Proof.
  induction 1 as [|x l Hx _ IH]; [done|]. by rewrite filter_cons_True, IH.
Qed.

Lemma map_to_list_disj_union {V} (m1 m2 : gmap string V) :
  m1 ##ₘ m2 → map_to_list (m1 ∪ m2) ≡ₚ map_to_list m1 ++ map_to_list m2.
Proof.
  intros H. apply NoDup_Permutation.
  - apply NoDup_map_to_list.
  - apply NoDup_app. split_and!; try apply NoDup_map_to_list.
    intros [k v] H1 H2. apply elem_of_map_to_list in H1, H2.
    eapply map_disjoint_spec; eauto.
  - intros [k v]. rewrite elem_of_app, !elem_of_map_to_list.
    by apply lookup_union_Some.
Qed.

(** ** Bits *)

Lemma land_le a b : (0 ≤ a → 0 ≤ Z.land a b ≤ a)%Z.
Proof.
  intros Ha. split; [by apply Z.land_nonneg; left|].
  assert (a = Z.land a b + Z.ldiff a b)%Z as Hs.
  { rewrite Z.add_nocarry_lor.
    - apply Z.bits_inj'. intros n Hn. rewrite Z.lor_spec, Z.land_spec, Z.ldiff_spec.
      by destruct (Z.testbit a n), (Z.testbit b n).
    - apply Z.bits_inj'. intros n Hn. rewrite !Z.land_spec, Z.ldiff_spec, Z.bits_0.
      by destruct (Z.testbit a n), (Z.testbit b n). }
  pose proof (proj2 (Z.ldiff_nonneg a b) (or_introl Ha)). lia.
Qed.

(** An exclusive or of numbers below a power of two stays below it. *)
Lemma lxor_lt_pow2 a b n :
  (0 ≤ n → 0 ≤ a < 2 ^ n → 0 ≤ b < 2 ^ n → 0 ≤ Z.lxor a b < 2 ^ n)%Z.
Proof.
  intros Hn Ha Hb. assert (0 ≤ Z.lxor a b)%Z by (apply Z.lxor_nonneg; lia).
  split; [done|].
  assert (Z.lxor a b = Z.lxor a b mod 2 ^ n)%Z as ->; [|apply Z.mod_pos_bound; lia].
  apply Z.bits_inj'. intros i Hi. destruct (decide (i < n)%Z) as [Hl|Hl].
  - by rewrite Z.mod_pow2_bits_low.
  - rewrite Z.mod_pow2_bits_high by lia. rewrite Z.lxor_spec.
    rewrite <-(Z.mod_small a (2 ^ n)), <-(Z.mod_small b (2 ^ n)) by lia.
    by rewrite !Z.mod_pow2_bits_high by lia.
Qed.

(** Testing one bit with a mask. *)
Lemma testbit_flag f i : (0 ≤ f → 0 ≤ i → (Z.land f (Z.shiftl 1 i) >? 0) = Z.testbit f i)%Z.
Proof.
  intros Hf Hi. assert (Z.land f (Z.shiftl 1 i) = Z.b2z (Z.testbit f i) * 2 ^ i)%Z as ->.
  { apply Z.bits_inj'. intros j Hj. rewrite Z.land_spec, Z.shiftl_1_l.
    rewrite <-Z.shiftl_mul_pow2, Z.shiftl_spec by done.
    destruct (decide (j = i)) as [->|Hji].
    - rewrite Z.pow2_bits_true, Z.sub_diag, Z.b2z_bit0 by lia. by destruct (Z.testbit f i).
    - rewrite Z.pow2_bits_false, andb_false_r by lia. destruct (decide (j < i)%Z) as [Hl|Hl].
      + by rewrite Z.testbit_neg_r by lia.
      + destruct (Z.testbit f i); [|by rewrite Z.bits_0].
        change (Z.b2z true) with (2 ^ 0)%Z. by rewrite Z.pow2_bits_false by lia. }
  destruct (Z.testbit f i); [|done]. apply Z.gtb_lt. change (Z.b2z true) with 1%Z. lia.
Qed.
