(* ===== verification/GoStd.v ===== *)
(** * The parts of Go's standard library the server computes with

    [strconv.ParseInt] / [Atoi] / [FormatInt] / [Itoa], [strings.ToLower] /
    [ToUpper], byte-wise string comparison, [strings.Index], and the few
    operations on strings the sources use.  Strings are sequences of bytes, as
    in Go.  Everything here is executable. *)

From Stdlib Require Import ZArith Lia Ascii String.
From stdpp Require Import base gmap strings numbers list.
From S2P Require Import Prelude.

Local Open Scope Z_scope.

(** ** Bytes *)

Definition byte_val (c : ascii) : Z := Z.of_N (N_of_ascii c).
Definition byte_of (z : Z) : ascii := ascii_of_N (Z.to_N (z mod 256)).

Lemma byte_val_range c : 0 ≤ byte_val c < 256.
Proof. unfold byte_val. pose proof (N_ascii_bounded c). lia. Qed.

Lemma byte_of_val c : byte_of (byte_val c) = c.
Proof.
  unfold byte_of. pose proof (byte_val_range c) as H.
  rewrite Z.mod_small by done. unfold byte_val.
  rewrite N2Z.id. apply ascii_N_embedding.
Qed.

Lemma byte_val_of z : byte_val (byte_of z) = z mod 256.
Proof.
  unfold byte_val, byte_of. pose proof (Z.mod_pos_bound z 256).
  rewrite N_ascii_embedding by lia. lia.
Qed.

(** ** strconv *)

Inductive NumError := ErrSyntax | ErrRange.

#[export] Instance NumError_eq_dec : EqDecision NumError.
Proof. solve_decision. Defined.

Definition is_digit (c : ascii) : bool :=
  (48 <=? byte_val c) && (byte_val c <=? 57).

Definition digit_val (c : ascii) : Z := byte_val c - 48.

Definition digit_char (d : Z) : ascii := byte_of (d + 48).

(** The digit loop of [strconv.ParseUint] in base 10 with 64 bits: the value is
    checked against [maxUint64/10+1] before the shift and against the maximum
    after the addition, so that the first failing digit decides the error. *)
Fixpoint parse_uint_loop (s : string) (n : Z) : NumError + Z :=
  match s with
  | EmptyString => inr n
  | String c s' =>
      if negb (is_digit c) then inl ErrSyntax
      else if n >=? 1844674407370955162 then inl ErrRange
      else
        let n1 := n * 10 + digit_val c in
        if n1 >? 18446744073709551615 then inl ErrRange else parse_uint_loop s' n1
  end.

Definition ParseUint (s : string) : NumError + Z :=
  match s with
  | EmptyString => inl ErrSyntax
  | _ => parse_uint_loop s 0
  end.

(** [strconv.ParseInt(s, 10, 64)]. *)
Definition ParseInt (s : string) : NumError + Z :=
  match s with
  | EmptyString => inl ErrSyntax
  | String c s' =>
      let neg := Ascii.eqb c "-" in
      let rest := if Ascii.eqb c "+" || Ascii.eqb c "-" then s' else s in
      match ParseUint rest with
      | inl e => inl e
      | inr un =>
          if negb neg && (un >=? 9223372036854775808) then inl ErrRange
          else if neg && (un >? 9223372036854775808) then inl ErrRange
          else inr (if neg then - un else un)
      end
  end.

(** [strconv.Atoi] agrees with [ParseInt(s, 10, 0)] on a 64-bit platform. *)
Definition Atoi (s : string) : NumError + Z := ParseInt s.

(** The text of a [*strconv.NumError]; [Quote] is the identity on the printable
    arguments without quotes and backslashes. *)
Definition num_error_text (fn s : string) (e : NumError) : string :=
  ("strconv." +:+ fn +:+ ": parsing " +:+ String "034" s +:+ String "034" ": "
   +:+ match e with ErrSyntax => "invalid syntax" | ErrRange => "value out of range" end)%string.

Fixpoint utoa (fuel : nat) (n : Z) (acc : string) : string :=
  match fuel with
  | O => acc
  | S f =>
      let acc' := String (digit_char (n mod 10)) acc in
      if n <? 10 then acc' else utoa f (n / 10) acc'
  end.

(** A decimal representation has at most as many digits as the binary one. *)
Definition utoa_fuel (n : Z) : nat := S (Z.to_nat (Z.log2 n)).

(** [strconv.FormatInt(z, 10)] and [strconv.Itoa(z)]. *)
Definition FormatInt (z : Z) : string :=
  if z <? 0 then String "-" (utoa (utoa_fuel (- z)) (- z) EmptyString)
  else utoa (utoa_fuel z) z EmptyString.

Definition Itoa (z : Z) : string := FormatInt z.

Definition slen (s : string) : Z := Z.of_nat (String.length s).

(** ** strings *)

Definition ascii_lower (c : ascii) : ascii :=
  if (65 <=? byte_val c) && (byte_val c <=? 90) then byte_of (byte_val c + 32) else c.

Definition ascii_upper (c : ascii) : ascii :=
  if (97 <=? byte_val c) && (byte_val c <=? 122) then byte_of (byte_val c - 32) else c.

Fixpoint string_map (f : ascii → ascii) (s : string) : string :=
  match s with
  | EmptyString => EmptyString
  | String c s' => String (f c) (string_map f s')
  end.

(** [strings.ToLower] and [strings.ToUpper] on ASCII text; bytes above 127 are
    left as they are (Go also maps the other letters of Unicode and replaces invalid
    UTF-8). *)
Definition ToLower (s : string) : string := string_map ascii_lower s.
Definition ToUpper (s : string) : string := string_map ascii_upper s.

(** Byte-wise order of Go strings. *)
Fixpoint string_ltb (a b : string) : bool :=
  match a, b with
  | EmptyString, String _ _ => true
  | String x a', String y b' =>
      (byte_val x <? byte_val y) || ((byte_val x =? byte_val y) && string_ltb a' b')
  | _, _ => false
  end.

Definition string_leb (a b : string) : bool := negb (string_ltb b a).

(** [strings.Index(s, c)] for a one-byte [c]; -1 when absent. *)
Fixpoint index_from (s : string) (c : ascii) (i : Z) : Z :=
  match s with
  | EmptyString => -1
  | String x s' => if Ascii.eqb x c then i else index_from s' c (i + 1)
  end.

Definition Index (s : string) (c : ascii) : Z := index_from s c 0.

(** [s[i:j]] for in-range bounds. *)
Definition substr (s : string) (i j : Z) : string :=
  String.substring (Z.to_nat i) (Z.to_nat (j - i)) s.

(** [strings.Split(s, sep)] for a one-byte separator. *)
Fixpoint split_on (c : ascii) (s : string) (cur : string) : list string :=
  match s with
  | EmptyString => [cur]
  | String x s' =>
      if Ascii.eqb x c then cur :: split_on c s' EmptyString
      else split_on c s' (cur +:+ String x EmptyString)
  end.

Definition Split (s : string) (c : ascii) : list string := split_on c s EmptyString.

(** Strings as lists of bytes, for indexed updates. *)
Definition to_bytes (s : string) : list ascii := list_ascii_of_string s.
Definition of_bytes (l : list ascii) : string := string_of_list_ascii l.

(** ** Lemmas *)

Lemma of_to_bytes s : of_bytes (to_bytes s) = s.
Proof. apply string_of_list_ascii_of_string. Qed.

Lemma to_of_bytes l : to_bytes (of_bytes l) = l.
Proof. apply list_ascii_of_string_of_list_ascii. Qed.

Lemma length_to_bytes s : length (to_bytes s) = String.length s.
Proof. induction s as [|c s IH]; simpl; [done|]. by rewrite IH. Qed.

Lemma to_bytes_inj s t : to_bytes s = to_bytes t → s = t.
Proof. intros H. rewrite <-(of_to_bytes s), H. apply of_to_bytes. Qed.

Lemma to_bytes_app s t : to_bytes (s +:+ t) = to_bytes s ++ to_bytes t.
Proof. induction s as [|c s IH]; simpl; [done|]. by rewrite IH. Qed.

Lemma string_app_cons c (a b : string) : (String c a +:+ b = String c (a +:+ b))%string.
Proof. done. Qed.

Lemma string_app_assoc (a b c : string) : ((a +:+ b) +:+ c = a +:+ (b +:+ c))%string.
Proof. induction a as [|x a IH]; [done|]. by rewrite !string_app_cons, IH. Qed.

Lemma string_app_nil_r (a : string) : (a +:+ "" = a)%string.
Proof. induction a as [|x a IH]; [done|]. by rewrite string_app_cons, IH. Qed.

Lemma length_string_app (a b : string) :
  String.length (a +:+ b) = (String.length a + String.length b)%nat.
Proof. induction a as [|x a IH]; simpl; [done|]. by rewrite IH. Qed.

Lemma digit_char_val d : 0 ≤ d < 10 → digit_val (digit_char d) = d.
Proof.
  intros H. unfold digit_val, digit_char. rewrite byte_val_of, Z.mod_small by lia. lia.
Qed.

Lemma digit_char_digit d : 0 ≤ d < 10 → is_digit (digit_char d) = true.
Proof.
  intros H. unfold is_digit, digit_char. rewrite byte_val_of, Z.mod_small by lia.
  apply andb_true_intro. split; apply Z.leb_le; lia.
Qed.

(** Printing consumes its fuel only when the number is exhausted. *)
Lemma utoa_app fuel n acc :
  utoa fuel n acc = (utoa fuel n "" +:+ acc)%string.
Proof.
  revert n acc. induction fuel as [|f IH]; intros n acc; simpl; [done|].
  destruct (n <? 10); [done|].
  rewrite (IH (n / 10) (String _ acc)), (IH (n / 10) (String _ "")).
  by rewrite string_app_assoc.
Qed.

Lemma parse_uint_loop_app s t n m :
  parse_uint_loop s n = inr m → parse_uint_loop (s +:+ t) n = parse_uint_loop t m.
Proof.
  revert n. induction s as [|c s IH]; intros n; simpl; [by intros [= ->]|].
  destruct (negb (is_digit c)); [done|].
  destruct (n >=? _); [done|]. destruct (_ >? _); [done|]. apply IH.
Qed.

Lemma parse_utoa fuel n :
  0 ≤ n ≤ 18446744073709551615 → n < 2 ^ Z.of_nat fuel →
  parse_uint_loop (utoa fuel n "") 0 = inr n.
Proof.
  revert n. induction fuel as [|f IH]; intros n Hn Hf.
  { change (2 ^ Z.of_nat 0) with 1 in Hf. simpl. f_equal. lia. }
  simpl. rewrite Nat2Z.inj_succ, Z.pow_succ_r in Hf by lia.
  pose proof (Z.mod_pos_bound n 10 ltac:(lia)) as Hm.
  pose proof (Z.div_mod n 10 ltac:(lia)) as Hdm.
  destruct (n <? 10) eqn:E; unbool.
  - simpl. rewrite Z.mod_small by lia.
    rewrite digit_char_digit, digit_char_val by lia. simpl.
    destruct (0 * 10 + n >? _) eqn:G; unbool; [lia|]. f_equal; lia.
  - rewrite utoa_app, (parse_uint_loop_app _ _ _ (n / 10)).
    2: { apply IH; [|].
         - split; [apply Z.div_pos; lia|]. apply Z.div_le_upper_bound; lia.
         - apply Z.div_lt_upper_bound; lia. }
    simpl. rewrite digit_char_digit by lia. simpl.
    destruct (n / 10 >=? _) eqn:E1; unbool; [lia|].
    rewrite digit_char_val by lia.
    destruct (_ >? _) eqn:E2; unbool; [lia|].
    f_equal. lia.
Qed.

Lemma log2_fuel n : 0 ≤ n → n < 2 ^ Z.of_nat (utoa_fuel n).
Proof.
  intros H. unfold utoa_fuel. rewrite Nat2Z.inj_succ, Z2Nat.id by apply Z.log2_nonneg.
  destruct (decide (n = 0)) as [->|]; [simpl; lia|].
  apply Z.log2_spec. lia.
Qed.

Lemma utoa_first fuel n : 0 ≤ n → (0 < fuel)%nat →
  ∃ c s, utoa fuel n "" = String c s ∧ is_digit c = true.
Proof.
  revert n. induction fuel as [|f IH]; intros n Hn Hf; [lia|]. simpl.
  pose proof (Z.mod_pos_bound n 10 ltac:(lia)).
  destruct (n <? 10) eqn:E.
  - eexists _, _. split; [done|]. by apply digit_char_digit.
  - rewrite utoa_app. destruct f as [|f].
    + simpl. eexists _, _. split; [done|]. by apply digit_char_digit.
    + destruct (IH (n / 10)) as (c & s & -> & Hc); [apply Z.div_pos; lia|lia|].
      simpl. eauto.
Qed.

Lemma ParseUint_utoa n :
  0 ≤ n ≤ 18446744073709551615 → ParseUint (utoa (utoa_fuel n) n "") = inr n.
Proof.
  intros H. unfold ParseUint.
  destruct (utoa_first (utoa_fuel n) n) as (c & s & E & _); [lia|unfold utoa_fuel; lia|].
  pose proof (parse_utoa (utoa_fuel n) n H (log2_fuel n ltac:(lia))) as P.
  rewrite E in *. done.
Qed.

Lemma digit_not_sign c : is_digit c = true → Ascii.eqb c "+" = false ∧ Ascii.eqb c "-" = false.
Proof.
  intros H. split; apply Ascii.eqb_neq; intros ->; vm_compute in H; discriminate.
Qed.

(** Reading back the decimal text of an [int64] gives the number. *)
Lemma ParseInt_FormatInt z : is_int64 z → ParseInt (FormatInt z) = inr z.
Proof.
  unfold is_int64, int64_min, int64_max, FormatInt, ParseInt. intros Hz.
  destruct (z <? 0) eqn:E; unbool.
  - cbn -[utoa ParseUint utoa_fuel]. rewrite ParseUint_utoa by lia. simpl.
    destruct (- z >? _) eqn:G; unbool; [lia|]. f_equal. lia.
  - destruct (utoa_first (utoa_fuel z) z) as (c & s & Es & Hc); [lia|unfold utoa_fuel; lia|].
    pose proof (ParseUint_utoa z ltac:(lia)) as P. rewrite Es in *.
    destruct (digit_not_sign c Hc) as [-> ->]. cbn -[ParseUint]. rewrite P. simpl.
    destruct (z >=? _) eqn:G; unbool; [lia|]. done.
Qed.

Lemma string_ltb_irrefl s : string_ltb s s = false.
Proof.
  induction s as [|c s IH]; simpl; [done|].
  rewrite Z.ltb_irrefl, IH. by rewrite andb_false_r.
Qed.

Lemma string_ltb_trans a b c : string_ltb a b = true → string_ltb b c = true → string_ltb a c = true.
Proof.
  revert b c. induction a as [|x a IH]; intros [|y b] [|z c] H1 H2; simpl in *; try done.
  apply orb_true_iff in H1, H2. apply orb_true_iff. rewrite !andb_true_iff, !Z.ltb_lt, !Z.eqb_eq in *.
  destruct H1 as [H1|[H1 H1']], H2 as [H2|[H2 H2']]; try (left; lia). right. split; [lia|]. by eapply IH.
Qed.

Lemma string_ltb_total a b : string_ltb a b = false → string_ltb b a = false → a = b.
Proof.
  revert b. induction a as [|x a IH]; intros [|y b] H1 H2; simpl in *; try done.
  apply orb_false_iff in H1 as [H1 H1'], H2 as [H2 H2'].
  assert (byte_val x = byte_val y) as E by (unbool; lia). rewrite E, Z.eqb_refl in *. simpl in *.
  f_equal; [|by apply IH]. rewrite <-(byte_of_val x), <-(byte_of_val y). by f_equal.
Qed.

(** ** Substrings and characters *)

Lemma substring_full (b : string) : String.substring 0 (String.length b) b = b.
Proof. induction b as [|c b IH]; simpl; [done|]. by rewrite IH. Qed.

Lemma substring_app_l (a b : string) : String.substring 0 (String.length a) (a +:+ b) = a.
Proof.
  induction a as [|c a IH]; [by destruct b|]. rewrite string_app_cons. simpl. by rewrite IH.
Qed.

Lemma substring_app_r (a b : string) n :
  String.substring (String.length a) n (a +:+ b) = String.substring 0 n b.
Proof. induction a as [|c a IH]; [done|]. by rewrite string_app_cons. Qed.

Lemma slen_app (a b : string) : slen (a +:+ b) = slen a + slen b.
Proof. unfold slen. rewrite length_string_app. lia. Qed.

Lemma slen_cons c (s : string) : slen (String c s) = 1 + slen s.
Proof. unfold slen. simpl. lia. Qed.

Lemma slen_nonneg (s : string) : 0 ≤ slen s.
Proof. unfold slen. lia. Qed.

(** [(a + b)[:len(a)]] and [(a + b)[len(a):]]. *)
Lemma substr_app_l (a b : string) : substr (a +:+ b) 0 (slen a) = a.
Proof.
  unfold substr, slen. rewrite Z.sub_0_r, Nat2Z.id. apply substring_app_l.
Qed.

Lemma substr_app_r (a b : string) : substr (a +:+ b) (slen a) (slen (a +:+ b)) = b.
Proof.
  unfold substr. rewrite slen_app. replace (slen a + slen b - slen a) with (slen b) by lia.
  unfold slen. rewrite !Nat2Z.id, substring_app_r. apply substring_full.
Qed.

Fixpoint no_char (c : ascii) (s : string) : bool :=
  match s with
  | EmptyString => true
  | String x s' => negb (Ascii.eqb x c) && no_char c s'
  end.

Lemma no_char_app c (a b : string) : no_char c (a +:+ b) = no_char c a && no_char c b.
Proof.
  induction a as [|x a IH]; [done|]. rewrite string_app_cons. simpl. by rewrite IH, andb_assoc.
Qed.

Lemma digit_char_not d c : is_digit c = false → 0 ≤ d < 10 → Ascii.eqb (digit_char d) c = false.
Proof.
  intros Hc Hd. apply Ascii.eqb_neq. intros <-. by rewrite digit_char_digit in Hc.
Qed.

Lemma utoa_no_char fuel n acc c :
  is_digit c = false → 0 ≤ n → no_char c (utoa fuel n acc) = no_char c acc.
Proof.
  intros Hc. revert n acc. induction fuel as [|f IH]; intros n acc Hn; simpl; [done|].
  pose proof (Z.mod_pos_bound n 10 ltac:(lia)).
  assert (no_char c (String (digit_char (n mod 10)) acc) = no_char c acc) as E
    by (simpl; by rewrite digit_char_not by done).
  destruct (n <? 10); [done|]. rewrite IH; [done|]. apply Z.div_pos; lia.
Qed.

(** The text of a number holds digits and a minus sign only. *)
Lemma FormatInt_no_char z c :
  is_digit c = false → Ascii.eqb "-" c = false → no_char c (FormatInt z) = true.
Proof.
  intros Hc Hm. unfold FormatInt. destruct (z <? 0) eqn:E; unbool.
  - cbn [no_char]. rewrite Hm. rewrite utoa_no_char by (done || lia). done.
  - by rewrite utoa_no_char by (done || lia).
Qed.

#[export] Hint Rewrite of_to_bytes to_of_bytes length_to_bytes to_bytes_app
  length_string_app : godis.
#[export] Hint Resolve byte_val_range : godis.

(** ** Calls that end *)

(** What an outcome promises: a call that returns gives a [Q] value, a panic gives
    nothing, and no call waits forever. *)
Definition post {A} (Q : A → Prop) (o : outcome A) : Prop :=
  match o with Ret a => Q a | Panic _ => True | Block => False end.

Lemma post_weaken {A} (P Q : A → Prop) o : (∀ a, P a → Q a) → post P o → post Q o.
Proof. destruct o; simpl; auto. Qed.

Lemma post_bind {A B} (P : A → Prop) (Q : B → Prop) o (k : A → outcome B) :
  post P o → (∀ a, P a → post Q (k a)) → post Q (o ≫= k).
Proof. destruct o; simpl; auto. Qed.

(** Computations without loops end. *)
Ltac post_auto :=
  repeat match goal with
  | |- post _ (mbind _ _) => apply (post_bind (λ _, True)); [|intros ? _]
  | |- post _ (match ?x with _ => _ end) => destruct x
  | |- post _ _ => done
  | |- True => exact I
  end.

Lemma make_slice_post n k : post (λ _, True) (make_slice n k).
Proof. unfold make_slice. post_auto. Qed.

Abbreviation any := (λ _, True).
