(* ===== verification/Dict.v ===== *)
(** * datastruct/dict: [SimpleDict] and [ConcurrentDict]

    [SimpleDict] wraps one Go map; [ConcurrentDict] spreads the keys over a
    table of shards by an FNV hash and keeps a separate key count.  The file
    models both, states the promise of the [dict.Dict] interface as a class
    ([DictLaws]) over finite maps, and proves that both implement it. *)

From Stdlib Require Import ZArith Lia Ascii String.
From stdpp Require Import base list gmap strings numbers sorting.
From S2P Require Import Prelude GoStd.

Local Open Scope Z_scope.

(** The order in which Go ranges over a map is chosen by the runtime.  An
    iteration is given the order as a function from the keys of the map to the
    sequence in which the keys are visited. *)
Definition range_order := list string → list string.

Definition fair_order (ord : range_order) : Prop := ∀ ks, ord ks ≡ₚ ks.

(** [for k, v := range m] as a list of pairs. *)
Definition range_map {V} (ord : range_order) (m : gmap string V) : list (string * V) :=
  omap (λ k, pair k <$> m !! k) (ord (map_to_list m).*1).

(** ** SimpleDict *)

Record SimpleDict (V : Type) := mkSimple { dict_m : gmap string V }.
Arguments mkSimple {V} dict_m.
Arguments dict_m {V} _.

Module Simple.
Section methods.
Context {V : Type}.

Definition MakeSimple : SimpleDict V := mkSimple ∅.

Definition Get (dict : SimpleDict V) (key : string) : option V := dict_m dict !! key.

Definition Len (dict : SimpleDict V) : Z := Z.of_nat (size (dict_m dict)).

Definition Put (dict : SimpleDict V) (key : string) (val : V) : SimpleDict V * Z :=
  let existed := dict_m dict !! key in
  let dict' := mkSimple (<[key := val]> (dict_m dict)) in
  match existed with Some _ => (dict', 0) | None => (dict', 1) end.

Definition PutIfAbsent (dict : SimpleDict V) (key : string) (val : V) : SimpleDict V * Z :=
  match dict_m dict !! key with
  | Some _ => (dict, 0)
  | None => (mkSimple (<[key := val]> (dict_m dict)), 1)
  end.

Definition PutIfExists (dict : SimpleDict V) (key : string) (val : V) : SimpleDict V * Z :=
  match dict_m dict !! key with
  | Some _ => (mkSimple (<[key := val]> (dict_m dict)), 1)
  | None => (dict, 0)
  end.

Definition Remove (dict : SimpleDict V) (key : string) : SimpleDict V * (option V * Z) :=
  let existed := dict_m dict !! key in
  let dict' := mkSimple (delete key (dict_m dict)) in
  match existed with Some v => (dict', (Some v, 1)) | None => (dict', (None, 0)) end.

(** The pairs a [ForEach] whose consumer always continues visits, in order. *)
Definition ForEach (ord : range_order) (dict : SimpleDict V) : list (string * V) :=
  range_map ord (dict_m dict).

Definition Keys (ord : range_order) (dict : SimpleDict V) : list string :=
  (ForEach ord dict).*1.

(** One fresh iteration per requested key, of which the first key is taken; an
    empty map leaves the zero value. *)
Fixpoint RandomKeys (ords : nat → range_order) (dict : SimpleDict V) (limit : nat) : list string :=
  match limit with
  | O => []
  | S n =>
      RandomKeys ords dict n ++
      [match Keys (ords n) dict with [] => EmptyString | k :: _ => k end]
  end.

Definition RandomDistinctKeys (ord : range_order) (dict : SimpleDict V) (limit : nat) : list string :=
  take (Nat.min limit (size (dict_m dict))) (Keys ord dict).

Definition Clear (dict : SimpleDict V) : SimpleDict V := MakeSimple.

End methods.

(** [DictScan] is only used on hashes, whose values are byte slices; [compile]
    stands for [wildcard.CompilePattern]. *)
Definition DictScan (compile : string → option (string → bool)) (ord : range_order)
    (dict : SimpleDict bytes) (cursor count : Z) (pattern : string) : list bytes * Z :=
  match compile pattern with
  | None => ([], -1)
  | Some isMatch =>
      (concat ((λ kv : string * bytes,
         if bool_decide (pattern = "*"%string) || isMatch kv.1
         then [Some kv.1; kv.2] else []) <$> ForEach ord dict), 0)
  end.
End Simple.

(** ** ConcurrentDict *)

(** [sync.RWMutex] as seen by the goroutines that hold it. *)
Record RWMutex := mkMutex { writer : bool; readers : nat }.

Definition free_mutex : RWMutex := mkMutex false 0.

#[export] Instance RWMutex_eq_dec : EqDecision RWMutex.
Proof. solve_decision. Defined.

Definition mu_Lock (mu : RWMutex) : outcome RWMutex :=
  if writer mu || negb (readers mu =? 0)%nat then Block else Ret (mkMutex true (readers mu)).

Definition mu_RLock (mu : RWMutex) : outcome RWMutex :=
  if writer mu then Block else Ret (mkMutex (writer mu) (S (readers mu))).

Definition mu_Unlock (mu : RWMutex) : outcome RWMutex :=
  if writer mu then Ret (mkMutex false (readers mu)) else Panic "sync: Unlock of unlocked RWMutex".

Definition mu_RUnlock (mu : RWMutex) : outcome RWMutex :=
  match readers mu with
  | O => Panic "sync: RUnlock of unlocked RWMutex"
  | S n => Ret (mkMutex (writer mu) n)
  end.

Record shard (V : Type) := mkShard { sm : gmap string V; mutex : RWMutex }.
Arguments mkShard {V} sm mutex.
Arguments sm {V} _.
Arguments mutex {V} _.

Record ConcurrentDict (V : Type) := mkConcurrent {
  table : list (shard V);
  count : Z;
  shardCount : Z
}.
Arguments mkConcurrent {V} table count shardCount.
Arguments table {V} _.
Arguments count {V} _.
Arguments shardCount {V} _.

Definition computeCapacity (param : Z) : Z :=
  if param <=? 16 then 16
  else
    let n := param - 1 in
    let n := Z.lor n (Z.shiftr n 1) in
    let n := Z.lor n (Z.shiftr n 2) in
    let n := Z.lor n (Z.shiftr n 4) in
    let n := Z.lor n (Z.shiftr n 8) in
    let n := Z.lor n (Z.shiftr n 16) in
    if n <? 0 then 2147483647 else n + 1.

Definition prime32 : Z := 16777619.

Fixpoint fnv32_loop (key : string) (hash : Z) : Z :=
  match key with
  | EmptyString => hash
  | String c key' => fnv32_loop key' (Z.lxor (uint32 (hash * prime32)) (byte_val c))
  end.

Definition fnv32 (key : string) : Z := fnv32_loop key 2166136261.

Definition set_nth_shard {V} (d : ConcurrentDict V) (index : Z) (s : shard V) : ConcurrentDict V :=
  mkConcurrent (<[Z.to_nat index := s]> (table d)) (count d) (shardCount d).

Definition set_count {V} (d : ConcurrentDict V) (n : Z) : ConcurrentDict V :=
  mkConcurrent (table d) n (shardCount d).

Module Concurrent.
Section methods.
Context {V : Type}.

Definition emptyShard : shard V := mkShard ∅ free_mutex.

Definition MakeConcurrent (shardCount : Z) : ConcurrentDict V :=
  if shardCount =? 1 then mkConcurrent [emptyShard] 0 shardCount
  else
    let shardCount := computeCapacity shardCount in
    mkConcurrent (replicate (Z.to_nat shardCount) emptyShard) 0 shardCount.

Definition spread (dict : ConcurrentDict V) (key : string) : Z :=
  if (length (table dict) =? 1)%nat then 0
  else
    let hashCode := fnv32 key in
    let tableSize := uint32 (Z.of_nat (length (table dict))) in
    Z.land (uint32 (tableSize - 1)) hashCode.

(** [dict.table[index]]; a table is never indexed out of range (see
    [spread_range]), and the empty shard stands for the panic otherwise. *)
Definition getShard (dict : ConcurrentDict V) (index : Z) : shard V :=
  nth (Z.to_nat index) (table dict) emptyShard.

(** The methods that take the shard's mutex release it before they return, so
    each is one atomic step; [GetWithLock], [PutWithLock], ... run the same body
    under a lock the caller took with [RWLocks]. *)
Definition GetWithLock (dict : ConcurrentDict V) (key : string) : option V :=
  sm (getShard dict (spread dict key)) !! key.

Definition Get (dict : ConcurrentDict V) (key : string) : option V :=
  let index := spread dict key in
  let s := getShard dict index in
  sm s !! key.

Definition Len (dict : ConcurrentDict V) : Z := count dict.

Definition addCount (dict : ConcurrentDict V) : ConcurrentDict V :=
  set_count dict (int32 (count dict + 1)).

Definition decreaseCount (dict : ConcurrentDict V) : ConcurrentDict V :=
  set_count dict (int32 (count dict - 1)).

(** [s.m[key] = val] and [delete(s.m, key)] for the shard of the key. *)
Definition shardPut (dict : ConcurrentDict V) (key : string) (val : V) : ConcurrentDict V :=
  let index := spread dict key in
  let s := getShard dict index in
  set_nth_shard dict index (mkShard (<[key := val]> (sm s)) (mutex s)).

Definition shardDelete (dict : ConcurrentDict V) (key : string) : ConcurrentDict V :=
  let index := spread dict key in
  let s := getShard dict index in
  set_nth_shard dict index (mkShard (delete key (sm s)) (mutex s)).

Definition PutWithLock (dict : ConcurrentDict V) (key : string) (val : V) : ConcurrentDict V * Z :=
  match sm (getShard dict (spread dict key)) !! key with
  | Some _ => (shardPut dict key val, 0)
  | None => (shardPut (addCount dict) key val, 1)
  end.

Definition Put (dict : ConcurrentDict V) (key : string) (val : V) : ConcurrentDict V * Z :=
  match sm (getShard dict (spread dict key)) !! key with
  | Some _ => (shardPut dict key val, 0)
  | None => (shardPut (addCount dict) key val, 1)
  end.

Definition PutIfAbsentWithLock (dict : ConcurrentDict V) (key : string) (val : V) : ConcurrentDict V * Z :=
  match sm (getShard dict (spread dict key)) !! key with
  | Some _ => (dict, 0)
  | None => (addCount (shardPut dict key val), 1)
  end.

Definition PutIfAbsent (dict : ConcurrentDict V) (key : string) (val : V) : ConcurrentDict V * Z :=
  match sm (getShard dict (spread dict key)) !! key with
  | Some _ => (dict, 0)
  | None => (addCount (shardPut dict key val), 1)
  end.

Definition PutIfExistsWithLock (dict : ConcurrentDict V) (key : string) (val : V) : ConcurrentDict V * Z :=
  match sm (getShard dict (spread dict key)) !! key with
  | Some _ => (shardPut dict key val, 1)
  | None => (dict, 0)
  end.

Definition PutIfExists (dict : ConcurrentDict V) (key : string) (val : V) : ConcurrentDict V * Z :=
  match sm (getShard dict (spread dict key)) !! key with
  | Some _ => (shardPut dict key val, 1)
  | None => (dict, 0)
  end.

Definition RemoveWithLock (dict : ConcurrentDict V) (key : string) : ConcurrentDict V * (option V * Z) :=
  match sm (getShard dict (spread dict key)) !! key with
  | Some v => (decreaseCount (shardDelete dict key), (Some v, 1))
  | None => (dict, (None, 0))
  end.

Definition Remove (dict : ConcurrentDict V) (key : string) : ConcurrentDict V * (option V * Z) :=
  match sm (getShard dict (spread dict key)) !! key with
  | Some v => (decreaseCount (shardDelete dict key), (Some v, 1))
  | None => (dict, (None, 0))
  end.

(** [s.mutex.RLock()] of a walk, which gives the lock back: it waits for a writer. *)
Definition rlock (s : shard V) : outcome unit := if writer (mutex s) then Block else Ret tt.

Definition rlock_all (shards : list (shard V)) : outcome unit := if existsb (λ s, writer (mutex s)) shards then Block else Ret tt.

(** The pairs a [ForEach] whose consumer always continues visits, once it got the locks: the
    shards in table order, each in an order chosen by the runtime. *)
Definition ForEach (ord : range_order) (dict : ConcurrentDict V) : list (string * V) :=
  concat ((λ s, range_map ord (sm s)) <$> table dict).

(** [Keys] fills a slice of [Len()] strings and appends what exceeds it; a
    slice longer than the keys keeps empty strings at its end. *)
Definition Keys (ord : range_order) (dict : ConcurrentDict V) : list string :=
  let keys := (ForEach ord dict).*1 in
  keys ++ replicate (Z.to_nat (Len dict) - length keys) EmptyString.

Definition Clear (dict : ConcurrentDict V) : ConcurrentDict V :=
  MakeConcurrent (shardCount dict).

(** The shard indices of the keys without duplicates, sorted. *)
Definition toLockIndices (dict : ConcurrentDict V) (keys : list string) (reverse : bool) : list Z :=
  let indexSet := elements (list_to_set (spread dict <$> keys) : gset Z) in
  if negb reverse then merge_sort Z.le indexSet else merge_sort Z.ge indexSet.

Definition on_mutex (f : RWMutex → outcome RWMutex) (index : Z) (dict : ConcurrentDict V)
    : outcome (ConcurrentDict V) :=
  let s := getShard dict index in
  mu ← f (mutex s); mret (set_nth_shard dict index (mkShard (sm s) mu)).

Fixpoint on_mutexes (wf rf : RWMutex → outcome RWMutex) (writes : gset Z) (indices : list Z)
    (dict : ConcurrentDict V) : outcome (ConcurrentDict V) :=
  match indices with
  | [] => mret dict
  | i :: rest =>
      dict' ← on_mutex (if bool_decide (i ∈ writes) then wf else rf) i dict;
      on_mutexes wf rf writes rest dict'
  end.

Definition writeIndexSet (dict : ConcurrentDict V) (writeKeys : list string) : gset Z :=
  list_to_set (spread dict <$> writeKeys).

Definition RWLocks (dict : ConcurrentDict V) (writeKeys readKeys : list string)
    : outcome (ConcurrentDict V) :=
  on_mutexes mu_Lock mu_RLock (writeIndexSet dict writeKeys)
    (toLockIndices dict (writeKeys ++ readKeys) false) dict.

Definition RWUnLocks (dict : ConcurrentDict V) (writeKeys readKeys : list string)
    : outcome (ConcurrentDict V) :=
  on_mutexes mu_Unlock mu_RUnlock (writeIndexSet dict writeKeys)
    (toLockIndices dict (writeKeys ++ readKeys) true) dict.

Definition stringsToBytes (strSlice : list string) : list bytes := Some <$> strSlice.

(** The shard loop of [DictScan]: [i] is [shardIndex], the list the shards from
    there on. *)
Fixpoint scanLoop (isMatch : string → bool) (pattern : string) (ord : range_order)
    (cursor cnt : Z) (i : Z) (shards : list (shard V)) (result : list bytes) : outcome (list bytes * Z) :=
  match shards with
  | [] => Ret (result, 0)
  | s :: rest =>
      _ ← rlock s;
      if (Z.of_nat (length result) + Z.of_nat (size (sm s)) >? cnt) && (i >? cursor)
      then Ret (result, i)
      else
        let ks := filter (λ k, bool_decide (pattern = "*"%string) || isMatch k = true)
                    (range_map ord (sm s)).*1 in
        scanLoop isMatch pattern ord cursor cnt (i + 1) rest (result ++ (Some <$> ks))
  end.

(** A negative cursor indexes the table out of range. *)
Definition DictScan (compile : string → option (string → bool)) (ord : range_order)
    (dict : ConcurrentDict V) (cursor cnt : Z) (pattern : string) : outcome (list bytes * Z) :=
  let size := Len dict in
  if bool_decide (pattern = "*"%string) && (cnt >=? size)
  then _ ← rlock_all (table dict); Ret (stringsToBytes (Keys ord dict), 0)
  else
    match compile pattern with
    | None => Ret ([], -1)
    | Some isMatch =>
        if cursor <? 0 then Panic "index out of range"
        else
          scanLoop isMatch pattern ord cursor cnt cursor
            (drop (Z.to_nat cursor) (table dict)) []
    end.

End methods.
End Concurrent.

(** ** The promise of the [dict.Dict] interface *)

Class DictOps (D V : Type) := {
  dict_get : D → string → option V;
  dict_len : D → Z;
  dict_put : D → string → V → D * Z;
  dict_put_if_absent : D → string → V → D * Z;
  dict_put_if_exists : D → string → V → D * Z;
  dict_remove : D → string → D * (option V * Z);
  dict_for_each : range_order → D → list (string * V)
}.

(** The number a writing method returns: 1 when [b], else 0. *)
Definition flag (b : bool) : Z := if b then 1 else 0.

Definition present {V} (o : option V) : bool := match o with Some _ => true | None => false end.

Class DictLaws (D V : Type) {ops : DictOps D V} := {
  dict_wf : D → Prop;
  to_map : D → gmap string V;
  law_get d k : dict_wf d → dict_get d k = to_map d !! k;
  law_len d : dict_wf d → Z.of_nat (size (to_map d)) < 2147483648 →
    dict_len d = Z.of_nat (size (to_map d));
  law_put d k v : dict_wf d →
    dict_wf (dict_put d k v).1 ∧
    to_map (dict_put d k v).1 = <[k := v]> (to_map d) ∧
    (dict_put d k v).2 = flag (negb (present (to_map d !! k)));
  law_put_if_absent d k v : dict_wf d →
    dict_wf (dict_put_if_absent d k v).1 ∧
    to_map (dict_put_if_absent d k v).1 =
      (if present (to_map d !! k) then to_map d else <[k := v]> (to_map d)) ∧
    (dict_put_if_absent d k v).2 = flag (negb (present (to_map d !! k)));
  law_put_if_exists d k v : dict_wf d →
    dict_wf (dict_put_if_exists d k v).1 ∧
    to_map (dict_put_if_exists d k v).1 =
      (if present (to_map d !! k) then <[k := v]> (to_map d) else to_map d) ∧
    (dict_put_if_exists d k v).2 = flag (present (to_map d !! k));
  law_remove d k : dict_wf d →
    dict_wf (dict_remove d k).1 ∧
    to_map (dict_remove d k).1 = delete k (to_map d) ∧
    (dict_remove d k).2 = (to_map d !! k, flag (present (to_map d !! k)));
  law_for_each ord d : dict_wf d → fair_order ord →
    dict_for_each ord d ≡ₚ map_to_list (to_map d)
}.

#[export] Instance simple_ops {V} : DictOps (SimpleDict V) V := {|
  dict_get := Simple.Get;
  dict_len := Simple.Len;
  dict_put := Simple.Put;
  dict_put_if_absent := Simple.PutIfAbsent;
  dict_put_if_exists := Simple.PutIfExists;
  dict_remove := Simple.Remove;
  dict_for_each := Simple.ForEach
|}.

#[export] Instance concurrent_ops {V} : DictOps (ConcurrentDict V) V := {|
  dict_get := Concurrent.Get;
  dict_len := Concurrent.Len;
  dict_put := Concurrent.Put;
  dict_put_if_absent := Concurrent.PutIfAbsent;
  dict_put_if_exists := Concurrent.PutIfExists;
  dict_remove := Concurrent.Remove;
  dict_for_each := Concurrent.ForEach
|}.

(** ** Ranging over a map *)

Section range.
Context {V : Type}.
Implicit Types (mp : gmap string V) (l : list (string * V)).

Lemma omap_keys mp l :
  Forall (λ kv, mp !! kv.1 = Some kv.2) l →
  omap (λ k, pair k <$> mp !! k) l.*1 = l.
Proof.
  induction 1 as [|[k v] l H Hl IH]; [done|]. simpl in *. rewrite H. simpl. f_equal. exact IH.
Qed.

Lemma range_map_perm ord mp :
  fair_order ord → range_map ord mp ≡ₚ map_to_list mp.
Proof.
  intros H. unfold range_map. rewrite (H _), omap_keys; [done|].
  apply Forall_forall. intros [k v]. apply elem_of_map_to_list.
Qed.
End range.

(** ** SimpleDict implements the interface *)

#[export] Program Instance simple_laws {V} : DictLaws (SimpleDict V) V := {|
  dict_wf := λ _, True;
  to_map := dict_m
|}.
Next Obligation. done. Qed.
Next Obligation. done. Qed.
Next Obligation. intros V d k v _. simpl. unfold Simple.Put. by destruct (dict_m d !! k). Qed.
Next Obligation. intros V d k v _. simpl. unfold Simple.PutIfAbsent. by destruct (dict_m d !! k). Qed.
Next Obligation. intros V d k v _. simpl. unfold Simple.PutIfExists. by destruct (dict_m d !! k). Qed.
Next Obligation. intros V d k _. simpl. unfold Simple.Remove. by destruct (dict_m d !! k). Qed.
Next Obligation. intros V ord d _ H. by apply range_map_perm. Qed.

(** ** The shard table as one map *)

Section table.
Context {V : Type}.
Implicit Types (l : list (shard V)) (d : ConcurrentDict V) (k : string).

Definition shards_map l : gmap string V := foldr (λ s acc, sm s ∪ acc) ∅ l.

(** A key lives in at most one shard. *)
Definition shards_disjoint l : Prop := ∀ i j si sj k,
  l !! i = Some si → l !! j = Some sj →
  is_Some (sm si !! k) → is_Some (sm sj !! k) → i = j.

Lemma shards_map_None l k :
  (∀ j s, l !! j = Some s → sm s !! k = None) → shards_map l !! k = None.
Proof.
  induction l as [|s l IH]; intros H; simpl; [apply lookup_empty|].
  apply lookup_union_None. split; [by apply (H 0%nat)|].
  apply IH. intros j s' Hj. by apply (H (S j)).
Qed.

Lemma shards_map_lookup l k i s :
  l !! i = Some s →
  (∀ j s', l !! j = Some s' → is_Some (sm s' !! k) → j = i) →
  shards_map l !! k = sm s !! k.
Proof.
  revert i. induction l as [|s0 l IH]; intros i Hi H; [done|].
  destruct i as [|i]; simpl in *.
  - injection Hi as ->. rewrite lookup_union_l; [done|].
    apply shards_map_None. intros j s' Hj. apply eq_None_not_Some. intros Hs.
    by apply (H (S j)) in Hs.
  - rewrite lookup_union_r.
    + apply (IH i); [done|]. intros j s' Hj Hs. apply (H (S j)) in Hs; [lia|done].
    + apply eq_None_not_Some. intros Hs. by apply (H 0%nat s0) in Hs.
Qed.

Lemma shards_disjoint_cons s l :
  shards_disjoint (s :: l) → shards_disjoint l ∧ sm s ##ₘ shards_map l.
Proof.
  intros H. split.
  - intros i j si sj k Hi Hj H1 H2. apply (H (S i) (S j) si sj k) in H1; [lia|done..].
  - apply map_disjoint_alt. intros k. destruct (sm s !! k) eqn:E; [right|by left].
    apply shards_map_None. intros j s' Hj. apply eq_None_not_Some. intros Hs.
    assert (0%nat = S j) by (by eapply (H 0%nat (S j))). done.
Qed.

Lemma shards_for_each_perm ord l :
  fair_order ord → shards_disjoint l →
  concat ((λ s, range_map ord (sm s)) <$> l) ≡ₚ map_to_list (shards_map l).
Proof.
  intros Ho. induction l as [|s l IH]; intros H; simpl.
  - by rewrite map_to_list_empty.
  - apply shards_disjoint_cons in H as [H1 H2].
    by rewrite map_to_list_disj_union, range_map_perm, IH by done.
Qed.

(** The invariant of a [ConcurrentDict]: the table is not empty and can be
    indexed by a [uint32], every key is in the shard its hash selects, and the
    counter holds the number of keys (modulo the width of an [int32]). *)
Definition cd_map d : gmap string V := shards_map (table d).

Record cd_shape d : Prop := {
  wf_size : (0 < length (table d))%nat ∧ Z.of_nat (length (table d)) < 4294967296;
  wf_place : ∀ i s k, table d !! i = Some s → is_Some (sm s !! k) →
    Concurrent.spread d k = Z.of_nat i
}.

Definition cd_wf d : Prop :=
  cd_shape d ∧ count d = int32 (Z.of_nat (size (cd_map d))).

Lemma fnv32_loop_range k h : 0 ≤ h < 4294967296 → 0 ≤ fnv32_loop k h < 4294967296.
Proof.
  revert h. induction k as [|c k IH]; intros h Hh; simpl; [done|]. apply IH.
  pose proof (byte_val_range c). pose proof (uint32_range (h * prime32)).
  apply (lxor_lt_pow2 _ _ 32); change (2 ^ 32) with 4294967296; lia.
Qed.

Lemma fnv32_range k : 0 ≤ fnv32 k < 4294967296.
Proof. apply fnv32_loop_range. lia. Qed.

Lemma spread_bound d k :
  (0 < length (table d))%nat → Z.of_nat (length (table d)) < 4294967296 →
  0 ≤ Concurrent.spread d k < Z.of_nat (length (table d)).
Proof.
  intros H0 H1. unfold Concurrent.spread.
  destruct (length (table d) =? 1)%nat eqn:E; unbool; [lia|].
  unfold uint32. rewrite (Z.mod_small (Z.of_nat _)), Z.mod_small by lia.
  pose proof (land_le (Z.of_nat (length (table d)) - 1) (fnv32 k)). lia.
Qed.

Lemma spread_length d d' k :
  length (table d) = length (table d') → Concurrent.spread d k = Concurrent.spread d' k.
Proof. unfold Concurrent.spread. by intros ->. Qed.

Lemma getShard_lookup d i :
  0 ≤ i < Z.of_nat (length (table d)) →
  table d !! Z.to_nat i = Some (Concurrent.getShard d i).
Proof.
  intros H. unfold Concurrent.getShard. rewrite nth_lookup.
  destruct (lookup_lt_is_Some_2 (table d) (Z.to_nat i)) as [s ->]; [lia|done].
Qed.

Lemma shard_of_key d k :
  cd_shape d → table d !! Z.to_nat (Concurrent.spread d k) =
    Some (Concurrent.getShard d (Concurrent.spread d k)).
Proof. intros [[H0 H1] _]. by apply getShard_lookup, spread_bound. Qed.

(** Looking a key up in the shard its hash selects is looking it up in the whole map. *)
Lemma cd_lookup d k :
  cd_shape d → sm (Concurrent.getShard d (Concurrent.spread d k)) !! k = cd_map d !! k.
Proof.
  intros Hd. symmetry. apply shards_map_lookup with (Z.to_nat (Concurrent.spread d k)).
  - by apply shard_of_key.
  - intros j s Hj Hs. rewrite (wf_place d Hd j s k Hj Hs). lia.
Qed.

Lemma cd_shape_disjoint d : cd_shape d → shards_disjoint (table d).
Proof.
  intros Hd i j si sj k Hi Hj H1 H2.
  pose proof (wf_place d Hd i si k Hi H1). pose proof (wf_place d Hd j sj k Hj H2). lia.
Qed.

(** Replacing the binding of one key in the shard of that key. *)
Section update.
Context (d : ConcurrentDict V) (k : string) (m' : gmap string V).
Let s := Concurrent.getShard d (Concurrent.spread d k).
Let d' := set_nth_shard d (Concurrent.spread d k) (mkShard m' (mutex s)).
Hypothesis Hd : cd_shape d.
Hypothesis Hm' : ∀ k', k' ≠ k → m' !! k' = sm s !! k'.

Lemma update_spread k' : Concurrent.spread d' k' = Concurrent.spread d k'.
Proof using. apply spread_length. unfold d'. simpl. by rewrite length_insert. Qed.

Lemma update_table j :
  table d' !! j = if decide (j = Z.to_nat (Concurrent.spread d k))
                  then Some (mkShard m' (mutex s)) else table d !! j.
Proof using Hd.
  unfold d'. simpl. case_decide as E.
  - subst j. apply list_lookup_insert_eq. eapply lookup_lt_Some. by apply shard_of_key.
  - by rewrite list_lookup_insert_ne.
Qed.

Lemma update_shape : cd_shape d'.
Proof using Hd Hm'.
  split.
  - unfold d'. simpl. rewrite length_insert. apply Hd.
  - intros i si k' Hi Hs. rewrite update_spread. rewrite update_table in Hi.
    case_decide as E; [|by eapply (wf_place d Hd)]. injection Hi as <-. simpl in Hs.
    destruct (wf_size d Hd) as [? ?].
    pose proof (spread_bound d k ltac:(done) ltac:(done)).
    destruct (decide (k' = k)) as [->|Hne]; [lia|].
    rewrite Hm' in Hs by done. subst i. eapply (wf_place d Hd); [|done].
    by apply shard_of_key.
Qed.

Lemma update_lookup k' :
  cd_map d' !! k' = if decide (k' = k) then m' !! k else cd_map d !! k'.
Proof using Hd Hm'.
  rewrite <-cd_lookup by apply update_shape. rewrite update_spread.
  rewrite <-cd_lookup by done.
  pose proof (shard_of_key d' k' update_shape) as E1. rewrite update_spread in E1.
  pose proof (shard_of_key d k' Hd) as E2.
  rewrite update_table in E1.
  destruct (wf_size d Hd) as [? ?].
  pose proof (spread_bound d k ltac:(done) ltac:(done)).
  pose proof (spread_bound d k' ltac:(done) ltac:(done)).
  case_decide as Es.
  - assert (Concurrent.spread d k' = Concurrent.spread d k) as Eq by lia.
    injection E1 as <-. simpl. rewrite Eq. fold s. case_decide; [by subst|by apply Hm'].
  - rewrite E2 in E1. injection E1 as <-. case_decide; [by subst|done].
Qed.
End update.

Lemma shape_count d n : cd_shape d → cd_shape (set_count d n).
Proof. intros [H1 H2]. by split. Qed.

Lemma int32_add z n : int32 (int32 z + n) = int32 (z + n).
Proof.
  unfold int32. f_equal.
  replace ((z + 2147483648) mod 4294967296 - 2147483648 + n + 2147483648)
    with ((z + 2147483648) mod 4294967296 + n) by lia.
  rewrite Zplus_mod_idemp_l. f_equal. lia.
Qed.

Lemma shardPut_spec d k v :
  cd_shape d → cd_shape (Concurrent.shardPut d k v) ∧
  cd_map (Concurrent.shardPut d k v) = <[k := v]> (cd_map d) ∧
  count (Concurrent.shardPut d k v) = count d.
Proof.
  intros Hd. unfold Concurrent.shardPut. split_and!; [| |done].
  - apply update_shape; [done|]. intros k' Hk. by rewrite lookup_insert_ne.
  - apply map_eq. intros k'. rewrite update_lookup; [|done|].
    + case_decide; simplify_map_eq; done.
    + intros j Hj. by rewrite lookup_insert_ne.
Qed.

Lemma shardDelete_spec d k :
  cd_shape d → cd_shape (Concurrent.shardDelete d k) ∧
  cd_map (Concurrent.shardDelete d k) = delete k (cd_map d) ∧
  count (Concurrent.shardDelete d k) = count d.
Proof.
  intros Hd. unfold Concurrent.shardDelete. split_and!; [| |done].
  - apply update_shape; [done|]. intros k' Hk. by rewrite lookup_delete_ne.
  - apply map_eq. intros k'. rewrite update_lookup; [|done|].
    + case_decide; simplify_map_eq; done.
    + intros j Hj. by rewrite lookup_delete_ne.
Qed.

(** Every writing method in one case analysis: the shapes of the result are the
    unchanged dictionary, an overwritten key, a new key and a removed key. *)
Lemma cd_overwrite d k v :
  cd_wf d → is_Some (cd_map d !! k) → cd_wf (Concurrent.shardPut d k v).
Proof.
  intros [Hd Hc] [v' Hk]. destruct (shardPut_spec d k v Hd) as (H1 & H2 & H3).
  split; [done|]. by rewrite H3, H2, map_size_insert_Some.
Qed.

Lemma cd_insert d k v :
  cd_wf d → cd_map d !! k = None →
  cd_wf (Concurrent.shardPut (Concurrent.addCount d) k v) ∧
  cd_wf (Concurrent.addCount (Concurrent.shardPut d k v)) ∧
  cd_map (Concurrent.shardPut (Concurrent.addCount d) k v) = <[k := v]> (cd_map d).
Proof.
  intros [Hd Hc] Hk. destruct (shardPut_spec d k v Hd) as (H1 & H2 & H3).
  destruct (shardPut_spec (Concurrent.addCount d) k v (shape_count d _ Hd)) as (G1 & G2 & G3).
  assert (int32 (count d + 1) = int32 (Z.of_nat (size (<[k := v]> (cd_map d))))) as Hn.
  { rewrite map_size_insert_None, Hc, int32_add by done. f_equal. lia. }
  split_and!; [split..|done].
  - done.
  - rewrite G3, G2. exact Hn.
  - by apply shape_count.
  - change (cd_map (Concurrent.addCount (Concurrent.shardPut d k v)))
      with (cd_map (Concurrent.shardPut d k v)). rewrite H2. exact Hn.
Qed.

Lemma cd_delete d k :
  cd_wf d → is_Some (cd_map d !! k) →
  cd_wf (Concurrent.decreaseCount (Concurrent.shardDelete d k)).
Proof.
  intros [Hd Hc] [v Hk]. destruct (shardDelete_spec d k Hd) as (H1 & H2 & H3).
  split; [by apply shape_count|].
  change (cd_map (Concurrent.decreaseCount (Concurrent.shardDelete d k)))
    with (cd_map (Concurrent.shardDelete d k)).
  unfold Concurrent.decreaseCount. simpl. rewrite H2, Hc.
  assert (size (delete k (cd_map d)) = pred (size (cd_map d))) as Hs
    by (apply map_size_delete_Some; eauto).
  replace (int32 (Z.of_nat (size (cd_map d))) - 1)
    with (int32 (Z.of_nat (size (cd_map d))) + -1) by lia.
  rewrite int32_add. f_equal.
  assert (size (cd_map d) ≠ 0%nat); [|lia].
  intros E. apply map_size_empty_inv in E. rewrite E in Hk. simplify_map_eq.
Qed.

End table.

(** ** ConcurrentDict implements the interface *)

#[export] Program Instance concurrent_laws {V} : DictLaws (ConcurrentDict V) V := {|
  dict_wf := cd_wf;
  to_map := cd_map
|}.
Next Obligation. intros V d k [Hd _]. by apply cd_lookup. Qed.
Next Obligation.
  intros V d [_ Hc] Hs. simpl. unfold Concurrent.Len. rewrite Hc. apply int32_id. lia.
Qed.
Next Obligation.
  intros V d k v Hd. simpl. unfold Concurrent.Put. rewrite cd_lookup by apply Hd.
  destruct (cd_map d !! k) as [v'|] eqn:E; simpl.
  - split_and!; [apply cd_overwrite; rewrite ?E; eauto|by apply shardPut_spec, Hd|done].
  - by destruct (cd_insert d k v Hd E) as (? & _ & ?).
Qed.
Next Obligation.
  intros V d k v Hd. simpl. unfold Concurrent.PutIfAbsent. rewrite cd_lookup by apply Hd.
  destruct (cd_map d !! k) as [v'|] eqn:E; simpl; [done|].
  destruct (cd_insert d k v Hd E) as (_ & ? & _).
  split_and!; [done| |done]. by apply shardPut_spec, Hd.
Qed.
Next Obligation.
  intros V d k v Hd. simpl. unfold Concurrent.PutIfExists. rewrite cd_lookup by apply Hd.
  destruct (cd_map d !! k) as [v'|] eqn:E; simpl; [|done].
  split_and!; [apply cd_overwrite; rewrite ?E; eauto|by apply shardPut_spec, Hd|done].
Qed.
Next Obligation.
  intros V d k Hd. simpl. unfold Concurrent.Remove. rewrite cd_lookup by apply Hd.
  destruct (cd_map d !! k) as [v'|] eqn:E; simpl.
  - split_and!; [apply cd_delete; rewrite ?E; eauto|by apply shardDelete_spec, Hd|done].
  - by rewrite delete_id.
Qed.
Next Obligation.
  intros V ord d [Hd _] Ho. by apply shards_for_each_perm, cd_shape_disjoint.
Qed.

(** ** Capacity *)

(** [smear w n x]: the bits of [x] are those of [n] together with the [w - 1]
    positions below each of them. *)
Definition smear (w n x : Z) : Prop :=
  ∀ i, 0 ≤ i → Z.testbit x i = true ↔ ∃ j, 0 ≤ j < w ∧ Z.testbit n (i + j) = true.

Lemma smear_step w n x : 0 < w → smear w n x → smear (2 * w) n (Z.lor x (Z.shiftr x w)).
Proof.
  intros Hw H i Hi. rewrite Z.lor_spec, Z.shiftr_spec, orb_true_iff by done.
  rewrite (H i), (H (i + w)) by lia. split.
  - intros [(j & ? & Hj)|(j & ? & Hj)]; [exists j|exists (w + j)]; (split; [lia|]); [done|].
    by replace (i + (w + j)) with (i + w + j) by lia.
  - intros (j & ? & Hj). destruct (decide (j < w)); [left; exists j|right; exists (j - w)];
      (split; [lia|]); [done|]. by replace (i + w + (j - w)) with (i + j) by lia.
Qed.

Lemma lor_shiftr_nonneg x w : 0 ≤ x → 0 ≤ Z.lor x (Z.shiftr x w).
Proof. intros H. apply Z.lor_nonneg. split; [done|]. by apply Z.shiftr_nonneg. Qed.

Lemma smear_ones n x :
  0 < n < 2 ^ 32 → smear 32 n x → 0 ≤ x → x = Z.ones (Z.log2 n + 1).
Proof.
  intros Hn H Hx. apply Z.bits_inj'. intros i Hi.
  pose proof (Z.log2_lt_pow2 n 32). pose proof (Z.log2_nonneg n).
  apply eq_true_iff_eq. rewrite (H i Hi). destruct (decide (i ≤ Z.log2 n)) as [Hl|Hl].
  - rewrite Z.ones_spec_low by lia. split; [done|]. intros _.
    exists (Z.log2 n - i). split; [lia|].
    replace (i + (Z.log2 n - i)) with (Z.log2 n) by lia. apply Z.bit_log2. lia.
  - rewrite Z.ones_spec_high by lia. split; [|done]. intros (j & ? & Hj).
    rewrite Z.bits_above_log2 in Hj; [done|lia..].
Qed.

(** The capacity is the least power of two that is at least the parameter, and
    at least 16. *)
Lemma computeCapacity_pow2 param :
  16 < param ≤ 2 ^ 32 →
  computeCapacity param = 2 ^ (Z.log2 (param - 1) + 1) ∧
  param ≤ computeCapacity param < 2 * param.
Proof.
  intros Hp. unfold computeCapacity.
  destruct (param <=? 16) eqn:E; unbool; [lia|].
  set (n := param - 1). assert (0 < n < 2 ^ 32) as Hn by (unfold n; lia).
  assert (smear 1 n n) as S1.
  { intros i Hi. split; [intros H; exists 0; by rewrite Z.add_0_r|].
    intros (j & ? & Hj). by replace (i + j) with i in Hj by lia. }
  cbv zeta. match goal with |- context [if ?y <? 0 then _ else _] => set (x := y) in * end.
  assert (smear 32 n x) as S32.
  { apply (smear_step 16), (smear_step 8), (smear_step 4), (smear_step 2), (smear_step 1);
      done || lia. }
  assert (0 ≤ x) as Hx.
  { unfold x. repeat apply lor_shiftr_nonneg. lia. }
  rewrite (smear_ones n x Hn S32 Hx). rewrite Z.ones_equiv.
  pose proof (Z.log2_spec n ltac:(lia)) as [L1 L2].
  pose proof (Z.log2_nonneg n). rewrite Z.pow_succ_r in L2 by done.
  rewrite Z.pow_add_r by lia. change (2 ^ 1) with 2.
  destruct (Z.pred (2 ^ Z.log2 n * 2) <? 0) eqn:F; unbool; [lia|].
  unfold n in *. lia.
Qed.

(** ** A fresh dictionary *)

Section fresh.
Context {V : Type}.

Lemma empty_table_wf n c :
  (0 < n)%nat → Z.of_nat n < 4294967296 →
  cd_wf (mkConcurrent (replicate n (@Concurrent.emptyShard V)) 0 c) ∧
  cd_map (mkConcurrent (replicate n (@Concurrent.emptyShard V)) 0 c) = ∅.
Proof.
  intros H0 H1.
  assert (cd_map (mkConcurrent (replicate n (@Concurrent.emptyShard V)) 0 c) = ∅) as E.
  { apply map_eq. intros k. rewrite lookup_empty. apply shards_map_None.
    intros j s Hj. simpl in Hj. apply lookup_replicate in Hj as [-> _]. apply lookup_empty. }
  split; [split; [split|]|done].
  - simpl. rewrite length_replicate. done.
  - simpl. intros i s k Hi Hs. apply lookup_replicate in Hi as [-> _].
    simpl in Hs. rewrite lookup_empty in Hs. by destruct Hs.
  - rewrite E, map_size_empty. done.
Qed.

Lemma MakeConcurrent_wf n :
  n ≤ 2147483648 →
  cd_wf (Concurrent.MakeConcurrent (V:=V) n) ∧ cd_map (Concurrent.MakeConcurrent (V:=V) n) = ∅.
Proof.
  intros Hn. unfold Concurrent.MakeConcurrent. destruct (n =? 1).
  { apply (empty_table_wf 1); lia. }
  assert (16 ≤ computeCapacity n < 4294967296) as Hc.
  { destruct (decide (n ≤ 16)) as [Hl|Hl].
    - unfold computeCapacity. destruct (n <=? 16) eqn:E; unbool; lia.
    - destruct (computeCapacity_pow2 n) as [Hp Hb]; [lia|].
      destruct (decide (n = 2147483648)) as [->|]; [by vm_compute|lia]. }
  apply empty_table_wf; lia.
Qed.

Lemma MakeConcurrent_unlocked n i s :
  table (Concurrent.MakeConcurrent (V:=V) n) !! i = Some s → mutex s = free_mutex.
Proof.
  unfold Concurrent.MakeConcurrent. destruct (n =? 1); simpl.
  - destruct i; [by intros [= <-]|done].
  - by intros [-> _]%lookup_replicate.
Qed.
End fresh.

(** ** Traces of operations *)

Inductive dict_op (V : Type) : Type :=
  | OpGet (k : string)
  | OpLen
  | OpPut (k : string) (v : V)
  | OpPutIfAbsent (k : string) (v : V)
  | OpPutIfExists (k : string) (v : V)
  | OpRemove (k : string).
Arguments OpGet {V} k.
Arguments OpLen {V}.
Arguments OpPut {V} k v.
Arguments OpPutIfAbsent {V} k v.
Arguments OpPutIfExists {V} k v.
Arguments OpRemove {V} k.

(** What a call returns to its caller: a value, a number, or both. *)
Abbreviation dict_result V := (option V * Z)%type.

Definition dict_step {D V} `{DictOps D V} (d : D) (op : dict_op V) : D * dict_result V :=
  match op with
  | OpGet k => (d, (dict_get d k, flag (present (dict_get d k))))
  | OpLen => (d, (None, dict_len d))
  | OpPut k v => let r := dict_put d k v in (r.1, (None, r.2))
  | OpPutIfAbsent k v => let r := dict_put_if_absent d k v in (r.1, (None, r.2))
  | OpPutIfExists k v => let r := dict_put_if_exists d k v in (r.1, (None, r.2))
  | OpRemove k => dict_remove d k
  end.

(** The abstract dictionary: a finite map. *)
Definition map_step {V} (mp : gmap string V) (op : dict_op V) : gmap string V * dict_result V :=
  match op with
  | OpGet k => (mp, (mp !! k, flag (present (mp !! k))))
  | OpLen => (mp, (None, Z.of_nat (size mp)))
  | OpPut k v => (<[k := v]> mp, (None, flag (negb (present (mp !! k)))))
  | OpPutIfAbsent k v =>
      (if present (mp !! k) then mp else <[k := v]> mp, (None, flag (negb (present (mp !! k)))))
  | OpPutIfExists k v =>
      (if present (mp !! k) then <[k := v]> mp else mp, (None, flag (present (mp !! k))))
  | OpRemove k => (delete k mp, (mp !! k, flag (present (mp !! k))))
  end.

Fixpoint run_ops {S Op R} (step : S → Op → S * R) (s : S) (ops : list Op) : S * list R :=
  match ops with
  | [] => (s, [])
  | op :: rest =>
      let '(s', r) := step s op in
      let '(s'', rs) := run_ops step s' rest in (s'', r :: rs)
  end.

Section simulation.
Context {D V : Type} {DO : DictOps D V} {DL : DictLaws D V}.

Lemma dict_step_sim (d : D) (op : dict_op V) :
  dict_wf d → Z.of_nat (size (to_map d)) < 2147483648 →
  dict_wf (dict_step d op).1 ∧
  to_map (dict_step d op).1 = (map_step (to_map d) op).1 ∧
  (dict_step d op).2 = (map_step (to_map d) op).2.
Proof.
  intros Hd Hs. destruct op as [k| |k v|k v|k v|k]; simpl.
  - by rewrite law_get.
  - by rewrite law_len.
  - destruct (law_put d k v Hd) as (? & ? & ->). done.
  - destruct (law_put_if_absent d k v Hd) as (? & ? & ->). done.
  - destruct (law_put_if_exists d k v Hd) as (? & ? & ->). done.
  - destruct (law_remove d k Hd) as (? & ? & ->). done.
Qed.

Lemma map_step_size (mp : gmap string V) op :
  (size (map_step mp op).1 ≤ S (size mp))%nat.
Proof.
  assert (∀ k v, (size (<[k := v]> mp) ≤ S (size mp))%nat) as Hi.
  { intros k v. destruct (mp !! k) eqn:E.
    - rewrite map_size_insert_Some by eauto. lia.
    - rewrite map_size_insert_None by done. lia. }
  destruct op as [k| |k v|k v|k v|k]; simpl; auto.
  - destruct (present (mp !! k)); auto.
  - destruct (present (mp !! k)); auto.
  - destruct (mp !! k) eqn:E.
    + rewrite map_size_delete_Some by eauto. lia.
    + rewrite map_size_delete_None by done. lia.
Qed.

Lemma dict_run_sim (ops : list (dict_op V)) (d : D) :
  dict_wf d → Z.of_nat (size (to_map d)) + Z.of_nat (length ops) < 2147483648 →
  dict_wf (run_ops dict_step d ops).1 ∧
  to_map (run_ops dict_step d ops).1 = (run_ops map_step (to_map d) ops).1 ∧
  (run_ops dict_step d ops).2 = (run_ops map_step (to_map d) ops).2.
Proof.
  revert d. induction ops as [|op ops IH]; intros d Hd Hs; [done|].
  destruct (dict_step_sim d op Hd) as (H1 & H2 & H3); [simpl in Hs; lia|].
  pose proof (map_step_size (to_map d) op) as Hsz. rewrite <-H2 in Hsz.
  specialize (IH (dict_step d op).1 H1). rewrite H2 in IH.
  simpl. destruct (dict_step d op) as [d' r']. destruct (map_step (to_map d) op) as [mp r].
  simpl in *. subst. destruct IH as (I0 & I1 & I2); [lia|].
  destruct (run_ops dict_step d' ops), (run_ops map_step (to_map d') ops). simpl in *.
  by subst.
Qed.
End simulation.

Section concrete_laws.
Context {V : Type}.
Implicit Types (d : ConcurrentDict V) (k : string) (v : V).

(** The interface laws, for the concrete methods. *)
Lemma cd_Put d k v : cd_wf d →
  cd_wf (Concurrent.Put d k v).1 ∧ cd_map (Concurrent.Put d k v).1 = <[k := v]> (cd_map d) ∧
  (Concurrent.Put d k v).2 = flag (negb (present (cd_map d !! k))).
Proof. exact (@law_put _ _ _ concurrent_laws d k v). Qed.

Lemma cd_PutIfAbsent d k v : cd_wf d →
  cd_wf (Concurrent.PutIfAbsent d k v).1 ∧
  cd_map (Concurrent.PutIfAbsent d k v).1 = (if present (cd_map d !! k) then cd_map d else <[k := v]> (cd_map d)) ∧
  (Concurrent.PutIfAbsent d k v).2 = flag (negb (present (cd_map d !! k))).
Proof. exact (@law_put_if_absent _ _ _ concurrent_laws d k v). Qed.

Lemma cd_PutIfExists d k v : cd_wf d →
  cd_wf (Concurrent.PutIfExists d k v).1 ∧
  cd_map (Concurrent.PutIfExists d k v).1 = (if present (cd_map d !! k) then <[k := v]> (cd_map d) else cd_map d) ∧
  (Concurrent.PutIfExists d k v).2 = flag (present (cd_map d !! k)).
Proof. exact (@law_put_if_exists _ _ _ concurrent_laws d k v). Qed.

Lemma cd_Remove d k : cd_wf d →
  cd_wf (Concurrent.Remove d k).1 ∧ cd_map (Concurrent.Remove d k).1 = delete k (cd_map d) ∧
  (Concurrent.Remove d k).2 = (cd_map d !! k, flag (present (cd_map d !! k))).
Proof. exact (@law_remove _ _ _ concurrent_laws d k). Qed.

Lemma cd_Get d k : cd_wf d → Concurrent.Get d k = cd_map d !! k.
Proof. exact (@law_get _ _ _ concurrent_laws d k). Qed.
End concrete_laws.

(** ** Multi-key locking *)

Section locks.
Context {V : Type}.
Implicit Types (d : ConcurrentDict V).

#[local] Instance Zge_total : Total Z.ge.
Proof. intros x y. lia. Qed.
#[local] Instance Zge_trans : Transitive Z.ge.
Proof. intros x y z. lia. Qed.

Definition lock_set d (keys : list string) : gset Z :=
  list_to_set (Concurrent.spread d <$> keys).

Lemma toLockIndices_perm d keys rev :
  Concurrent.toLockIndices d keys rev ≡ₚ elements (lock_set d keys).
Proof. unfold Concurrent.toLockIndices. destruct rev; simpl; apply merge_sort_Permutation. Qed.

Lemma toLockIndices_NoDup d keys rev : NoDup (Concurrent.toLockIndices d keys rev).
Proof. rewrite toLockIndices_perm. apply NoDup_elements. Qed.

Lemma elem_of_toLockIndices d keys rev i :
  i ∈ Concurrent.toLockIndices d keys rev ↔ ∃ k, k ∈ keys ∧ i = Concurrent.spread d k.
Proof.
  rewrite toLockIndices_perm, elem_of_elements. unfold lock_set.
  rewrite elem_of_list_to_set, list_elem_of_fmap. naive_solver.
Qed.

Lemma toLockIndices_sorted d keys :
  StronglySorted Z.lt (Concurrent.toLockIndices d keys false).
Proof.
  pose proof (toLockIndices_NoDup d keys false) as Hn.
  assert (StronglySorted Z.le (Concurrent.toLockIndices d keys false)) as Hs
    by (apply (StronglySorted_merge_sort Z.le)).
  induction Hs as [|x l Hs IH Hf]; constructor; apply NoDup_cons in Hn as [Hx Hn]; [by apply IH|].
  apply Forall_forall. intros y Hy. rewrite Forall_forall in Hf. specialize (Hf y Hy).
  assert (x ≠ y) by (by intros ->). lia.
Qed.

Definition with_mutex (mu : RWMutex) (s : shard V) : shard V := mkShard (sm s) mu.

Definition same_maps d d' : Prop :=
  count d' = count d ∧ shardCount d' = shardCount d ∧
  sm <$> table d' = sm <$> table d.

(** One pass over distinct indices changes exactly their mutexes. *)
Lemma on_mutexes_spec wf rf W (g : Z → RWMutex) idx d :
  NoDup idx →
  (∀ i, i ∈ idx → 0 ≤ i < Z.of_nat (length (table d)) ∧
     (if bool_decide (i ∈ W) then wf else rf) (mutex (Concurrent.getShard d i)) = Ret (g i)) →
  ∃ d', Concurrent.on_mutexes wf rf W idx d = Ret d' ∧
    count d' = count d ∧ shardCount d' = shardCount d ∧
    length (table d') = length (table d) ∧
    ∀ j : nat, table d' !! j =
      (if bool_decide (Z.of_nat j ∈ idx) then with_mutex (g (Z.of_nat j)) else id) <$> table d !! j.
Proof.
  revert d. induction idx as [|i idx IH]; intros d Hn H.
  { exists d. split_and!; try done. intros j. by rewrite list_fmap_id || by destruct (_ !! j). }
  apply NoDup_cons in Hn as [Hi Hn].
  destruct (H i) as [Hr Hf]; [by left|].
  set (d1 := set_nth_shard d i (with_mutex (g i) (Concurrent.getShard d i))).
  assert (length (table d1) = length (table d)) as HL by (simpl; by rewrite length_insert).
  assert (∀ j : nat, table d1 !! j =
    (if bool_decide (Z.of_nat j = i) then with_mutex (g i) else id) <$> table d !! j) as HT.
  { intros j. unfold d1. simpl. destruct (decide (Z.of_nat j = i)) as [E|E];
      [rewrite bool_decide_eq_true_2 by done|rewrite bool_decide_eq_false_2 by done].
    - rewrite <-E, Nat2Z.id, list_lookup_insert_eq by lia.
      pose proof (getShard_lookup d (Z.of_nat j) ltac:(lia)) as G.
      rewrite Nat2Z.id in G. by rewrite G.
    - rewrite list_lookup_insert_ne by lia. by destruct (table d !! j). }
  destruct (IH d1 Hn) as (d' & H1 & H2 & H3 & H4 & H5).
  { intros j Hj. destruct (H j) as [Hr' Hf']; [by right|]. rewrite HL. split; [done|].
    assert (Concurrent.getShard d1 j = Concurrent.getShard d j) as ->; [|done].
    assert (j ≠ i) as Hji by (by intros ->).
    apply (inj Some). rewrite <-!getShard_lookup by (rewrite ?HL; done).
    rewrite HT, bool_decide_eq_false_2 by lia. by destruct (table d !! _). }
  exists d'. split_and!.
  - simpl. unfold Concurrent.on_mutex. rewrite Hf. simpl. exact H1.
  - by rewrite H2.
  - by rewrite H3.
  - by rewrite H4.
  - intros j. rewrite H5, HT. destruct (table d !! j) as [s|]; [|done]. simpl. f_equal.
    destruct (decide (Z.of_nat j = i)) as [E|E].
    + rewrite (bool_decide_eq_true_2 (Z.of_nat j = i)) by done.
      rewrite (bool_decide_eq_true_2 (Z.of_nat j ∈ i :: idx)) by (subst; by left).
      rewrite bool_decide_eq_false_2 by (by rewrite E). simpl. by rewrite E.
    + rewrite (bool_decide_eq_false_2 (Z.of_nat j = i)) by done. simpl.
      repeat case_bool_decide; try done; exfalso; set_solver.
Qed.

(** All mutexes of the table are free. *)
Definition unlocked d : Prop := ∀ i s, table d !! i = Some s → mutex s = free_mutex.

Lemma toLockIndices_length d d' keys rev :
  length (table d) = length (table d') →
  Concurrent.toLockIndices d keys rev = Concurrent.toLockIndices d' keys rev.
Proof.
  intros H. unfold Concurrent.toLockIndices.
  assert (Concurrent.spread d <$> keys = Concurrent.spread d' <$> keys) as ->; [|done].
  apply list_fmap_ext. intros. by apply spread_length.
Qed.

Definition locked_state (W : gset Z) (i : Z) : RWMutex :=
  if bool_decide (i ∈ W) then mkMutex true 0 else mkMutex false 1.

Lemma RWLocks_spec d wks rks :
  cd_shape d → unlocked d →
  ∃ d', Concurrent.RWLocks d wks rks = Ret d' ∧
    count d' = count d ∧ shardCount d' = shardCount d ∧
    length (table d') = length (table d) ∧
    ∀ j : nat, table d' !! j =
      (if bool_decide (Z.of_nat j ∈ Concurrent.toLockIndices d (wks ++ rks) false)
       then with_mutex (locked_state (Concurrent.writeIndexSet d wks) (Z.of_nat j))
       else id) <$> table d !! j.
Proof.
  intros Hd Hu. destruct (wf_size d Hd) as [H1 H2].
  apply on_mutexes_spec; [apply toLockIndices_NoDup|].
  intros i (k & _ & ->)%elem_of_toLockIndices.
  pose proof (spread_bound d k H1 H2) as Hb. split; [done|].
  rewrite (Hu _ _ (getShard_lookup d _ Hb)). unfold locked_state. by case_bool_decide.
Qed.

(** The table as [RWLocks] leaves it when it was unlocked: the mutexes of the keys'
    shards are held, the others are free. *)
Definition held d wks rks : Prop := ∀ (j : nat) s, table d !! j = Some s →
  mutex s = if bool_decide (Z.of_nat j ∈ Concurrent.toLockIndices d (wks ++ rks) false)
            then locked_state (Concurrent.writeIndexSet d wks) (Z.of_nat j) else free_mutex.

Lemma writeIndexSet_length d d' keys :
  length (table d) = length (table d') → Concurrent.writeIndexSet d keys = Concurrent.writeIndexSet d' keys.
Proof.
  intros H. unfold Concurrent.writeIndexSet. f_equal. apply list_fmap_ext. intros. by apply spread_length.
Qed.

Lemma RWLocks_held d wks rks :
  cd_shape d → unlocked d →
  ∃ d', Concurrent.RWLocks d wks rks = Ret d' ∧ same_maps d d' ∧ held d' wks rks.
Proof.
  intros Hd Hu. destruct (RWLocks_spec d wks rks Hd Hu) as (d' & He & E1 & E2 & E3 & E4).
  exists d'. split; [done|]. split; [split; [done|split; [done|]]|].
  - apply list_eq. intros j. rewrite !list_lookup_fmap, E4. destruct (table d !! j); [|done].
    simpl. by case_bool_decide.
  - intros j s Hs. rewrite E4 in Hs. destruct (table d !! j) as [s0|] eqn:E0; [|done].
    rewrite (toLockIndices_length d' d), (writeIndexSet_length d' d) by done.
    simpl in Hs. injection Hs as <-. case_bool_decide; [done|]. simpl. by eapply Hu.
Qed.

Lemma held_mutexes d d' wks rks :
  mutex <$> table d' = mutex <$> table d → held d wks rks → held d' wks rks.
Proof.
  intros Hm Hh j s Hs. assert (length (table d') = length (table d)) as HL
    by (rewrite <-(length_fmap mutex (table d')), Hm; apply length_fmap).
  rewrite (toLockIndices_length d' d), (writeIndexSet_length d' d) by done.
  assert ((mutex <$> table d) !! j = Some (mutex s)) as Hj by (by rewrite <-Hm, list_lookup_fmap, Hs).
  rewrite list_lookup_fmap in Hj. destruct (table d !! j) as [s0|] eqn:E; [|done].
  injection Hj as <-. by apply Hh.
Qed.

(** The deferred unlock succeeds on every table with those mutexes, whatever the
    maps hold by then, and frees every mutex. *)
Lemma RWUnLocks_held d wks rks :
  cd_shape d → held d wks rks →
  ∃ d', Concurrent.RWUnLocks d wks rks = Ret d' ∧ same_maps d d' ∧ unlocked d'.
Proof.
  intros Hd Hh. destruct (wf_size d Hd) as [H1 H2].
  assert (∀ i, i ∈ Concurrent.toLockIndices d (wks ++ rks) true ↔
    i ∈ Concurrent.toLockIndices d (wks ++ rks) false) as Hiff by (intros; by rewrite !elem_of_toLockIndices).
  destruct (on_mutexes_spec mu_Unlock mu_RUnlock (Concurrent.writeIndexSet d wks)
    (λ _, free_mutex) (Concurrent.toLockIndices d (wks ++ rks) true) d)
    as (e & He & F1 & F2 & F3 & F4); [apply toLockIndices_NoDup| |].
  { intros i Hi. apply elem_of_toLockIndices in Hi as Hk. destruct Hk as (k & Hk & ->).
    pose proof (spread_bound d k H1 H2) as Hb. split; [done|].
    rewrite (Hh _ _ (getShard_lookup d _ Hb)), Z2Nat.id by lia.
    rewrite (bool_decide_eq_true_2 (_ ∈ Concurrent.toLockIndices _ _ false)) by (by apply Hiff).
    unfold locked_state. by case_bool_decide. }
  exists e. split; [done|]. split; [split; [done|split; [done|]]|].
  - apply list_eq. intros j. rewrite !list_lookup_fmap, F4. destruct (table d !! j); [|done].
    simpl. by case_bool_decide.
  - intros j s Hs. rewrite F4 in Hs. destruct (table d !! j) as [s0|] eqn:E; [|done]. simpl in Hs.
    injection Hs as <-. rewrite (bool_decide_ext _ _ (Hiff (Z.of_nat j))).
    specialize (Hh j s0 E). case_bool_decide; [done|exact Hh].
Qed.

Lemma same_maps_eq d d' :
  same_maps d d' → mutex <$> table d' = mutex <$> table d → d' = d.
Proof.
  intros (H1 & H2 & H3) H4. destruct d as [t c n], d' as [t' c' n']. simpl in *. subst. f_equal.
  revert t' H3 H4. induction t as [|[m mu] t IH]; intros [|[m' mu'] t'] H3 H4; try done.
  simpl in *. injection H3 as -> H3. injection H4 as -> H4. f_equal. by apply IH.
Qed.

Lemma unlocked_mutexes d d' :
  length (table d') = length (table d) → unlocked d → unlocked d' → mutex <$> table d' = mutex <$> table d.
Proof.
  intros HL Hu Hu'. apply list_eq. intros j. rewrite !list_lookup_fmap.
  destruct (table d !! j) as [s|] eqn:E, (table d' !! j) as [s'|] eqn:E'; simpl.
  - by rewrite (Hu _ _ E), (Hu' _ _ E').
  - apply lookup_lt_Some in E. apply lookup_ge_None in E'. lia.
  - apply lookup_lt_Some in E'. apply lookup_ge_None in E. lia.
  - done.
Qed.

Lemma same_maps_length d d' : same_maps d d' → length (table d') = length (table d).
Proof. intros (_ & _ & H). rewrite <-(length_fmap sm (table d')), H. apply length_fmap. Qed.

Lemma same_maps_shards d d' : same_maps d d' → cd_map d' = cd_map d.
Proof.
  intros (_ & _ & H). unfold cd_map. revert H. generalize (table d) as t, (table d') as t'.
  induction t as [|s t IH]; intros [|s' t'] H; try done. simpl in *. injection H as H0 H.
  by rewrite H0, (IH t').
Qed.

Lemma same_maps_shape d d' : same_maps d d' → cd_shape d → cd_shape d'.
Proof.
  intros Hs [Hz Hp]. pose proof (same_maps_length d d' Hs) as HL. destruct Hs as (_ & _ & Hm).
  split; [by rewrite HL|]. intros i s k Hi Hk. rewrite (spread_length d' d) by done.
  assert ((sm <$> table d) !! i = Some (sm s)) as Hj by (by rewrite <-Hm, list_lookup_fmap, Hi).
  rewrite list_lookup_fmap in Hj. destruct (table d !! i) as [s0|] eqn:E; [|done]. injection Hj as Hj.
  apply (Hp i s0); [done|by rewrite Hj].
Qed.

Lemma same_maps_wf d d' : same_maps d d' → cd_wf d → cd_wf d'.
Proof.
  intros Hs [Hd Hc]. split; [by eapply same_maps_shape|]. rewrite (same_maps_shards d d') by done.
  destruct Hs as (-> & _). exact Hc.
Qed.

Lemma same_maps_sym d d' : same_maps d d' → same_maps d' d.
Proof. intros (? & ? & ?). by repeat split. Qed.

Lemma same_maps_trans d1 d2 d3 : same_maps d1 d2 → same_maps d2 d3 → same_maps d1 d3.
Proof. intros (? & ? & ?) (? & ? & ?). repeat split; congruence. Qed.

Lemma RWUnLocks_RWLocks d wks rks d' :
  cd_shape d → unlocked d → Concurrent.RWLocks d wks rks = Ret d' →
  Concurrent.RWUnLocks d' wks rks = Ret d.
Proof.
  intros Hd Hu HL. destruct (RWLocks_held d wks rks Hd Hu) as (e & He & Hs & Hh).
  rewrite He in HL. injection HL as ->.
  destruct (RWUnLocks_held d' wks rks) as (e & -> & Hs' & Hu'); [by eapply same_maps_shape|done|].
  f_equal. assert (same_maps d e) as Hse by (by eapply same_maps_trans).
  apply same_maps_eq; [done|]. apply unlocked_mutexes; [by apply same_maps_length|done..].
Qed.
End locks.

(** [C26] Any sequence of [Get], [Len], [Put], [PutIfAbsent], [PutIfExists] and
    [Remove] calls on a fresh sharded [ConcurrentDict], whatever shard count was
    asked for, returns the results the same calls give on one finite map and
    leaves the same contents. *)
Theorem concurrent_dict_refines_map {V} (shards : Z) (ops : list (dict_op V)) :
  shards ≤ 2147483648 → Z.of_nat (length ops) < 2147483648 →
  let final := run_ops dict_step (Concurrent.MakeConcurrent (V:=V) shards) ops in
  let spec := run_ops map_step ∅ ops in
  final.2 = spec.2 ∧ (∀ k, Concurrent.Get final.1 k = spec.1 !! k).
Proof.
  intros Hs Ho. destruct (MakeConcurrent_wf (V:=V) shards Hs) as [Hwf Hm].
  destruct (dict_run_sim ops (Concurrent.MakeConcurrent shards)) as (H0 & H1 & H2);
    [done|simpl; rewrite Hm, map_size_empty; lia|].
  simpl in *. rewrite Hm in H1, H2. split; [done|].
  intros k. rewrite <-H1. exact (law_get (D:=ConcurrentDict V) _ k H0).
Qed.

Lemma concurrent_dict_refines_map_witness :
  (run_ops dict_step (Concurrent.MakeConcurrent (V:=Z) 1)
     [OpPut "a" 1; OpPut "b" 2; OpRemove "a"; OpLen])%string.2
  = (run_ops map_step (∅ : gmap string Z) [OpPut "a" 1; OpPut "b" 2; OpRemove "a"; OpLen])%string.2.
Proof.
  apply (concurrent_dict_refines_map 1
    [OpPut "a" 1; OpPut "b" 2; OpRemove "a"; OpLen]%string); simpl; lia.
Defined.

(** Locking any keys for writing and reading, duplicates and overlaps
    included, on an unlocked table never waits on itself, and unlocking the same
    keys restores the table exactly. *)
Theorem rwlocks_roundtrip {V} (d : ConcurrentDict V) (wks rks : list string) :
  cd_shape d → unlocked d →
  ∃ d', Concurrent.RWLocks d wks rks = Ret d' ∧
        (∀ k, Concurrent.Get d' k = Concurrent.Get d k) ∧
        Concurrent.RWUnLocks d' wks rks = Ret d.
Proof.
  intros Hd Hu. destruct (RWLocks_spec d wks rks Hd Hu) as (d' & HL & E1 & E2 & E3 & E4).
  exists d'. split_and!; [done| |by eapply RWUnLocks_RWLocks].
  intros k. unfold Concurrent.Get. rewrite (spread_length d' d) by done.
  destruct (wf_size d Hd) as [H1 H2]. pose proof (spread_bound d k H1 H2) as Hb.
  assert (Some (Concurrent.getShard d' (Concurrent.spread d k)) = table d' !! Z.to_nat (Concurrent.spread d k))
    as HS by (rewrite getShard_lookup; [done|by rewrite E3]).
  rewrite E4, getShard_lookup in HS by done. simpl in HS. injection HS as ->.
  by case_bool_decide.
Qed.

Definition demo_dict : ConcurrentDict Z :=
  (Concurrent.Put (Concurrent.MakeConcurrent 1) "a" 7).1.

Lemma demo_dict_shape : cd_shape demo_dict ∧ unlocked demo_dict.
Proof.
  split; [split; [change (length (table demo_dict)) with 1%nat; lia|]|].
  - intros [|i] s k Hi Hs; [done|by destruct i].
  - intros [|i] s Hi; [by injection Hi as <-|by destruct i].
Qed.

Lemma rwlocks_roundtrip_witness :
  ∃ d', Concurrent.RWLocks demo_dict ["a"; "a"]%string ["b"; "a"]%string = Ret d' ∧
        (∀ k, Concurrent.Get d' k = Concurrent.Get demo_dict k) ∧
        Concurrent.RWUnLocks d' ["a"; "a"]%string ["b"; "a"]%string = Ret demo_dict.
Proof. apply rwlocks_roundtrip; apply demo_dict_shape. Defined.

(** ** Scanning *)

Lemma unlocked_writer {V} (d : ConcurrentDict V) : unlocked d → Forall (λ s, writer (mutex s) = false) (table d).
Proof. intros Hu. apply Forall_lookup. intros i s Hs. by rewrite (Hu i s Hs). Qed.

Lemma unlocked_rlock_all {V} (d : ConcurrentDict V) : unlocked d → Concurrent.rlock_all (table d) = Ret tt.
Proof.
  intros Hu%unlocked_writer. unfold Concurrent.rlock_all. destruct (existsb _ _) eqn:E; [|done].
  apply existsb_exists in E as (s & Hin%list_elem_of_In & Hw). rewrite Forall_forall in Hu. by rewrite (Hu s Hin) in Hw.
Qed.

(** A client's SCAN loop: call [DictScan] with the cursor of the previous call
    until the cursor 0 comes back. *)
Fixpoint scan_all {V} (fuel : nat) (compile : string → option (string → bool))
    (ord : range_order) (d : ConcurrentDict V) (cursor cnt : Z) (pattern : string)
    : option (list bytes) :=
  match fuel with
  | O => None
  | S f =>
      match Concurrent.DictScan compile ord d cursor cnt pattern with
      | Ret (res, next) =>
          if next =? 0 then Some res
          else (λ rest, res ++ rest) <$> scan_all f compile ord d next cnt pattern
      | _ => None
      end
  end.

Section scan.
Context {V : Type} (isMatch : string → bool) (pattern : string) (ord : range_order).
Implicit Types (l : list (shard V)).

Definition scan_keep (k : string) : Prop := bool_decide (pattern = "*"%string) || isMatch k = true.
#[global] Instance scan_keep_dec k : Decision (scan_keep k).
Proof. unfold scan_keep. apply _. Defined.

Definition scan_keys l : list bytes :=
  Some <$> concat ((λ s, filter scan_keep (range_map ord (sm s)).*1) <$> l).

Lemma scan_keys_app l1 l2 : scan_keys (l1 ++ l2) = scan_keys l1 ++ scan_keys l2.
Proof. unfold scan_keys. by rewrite fmap_app, concat_app, fmap_app. Qed.

Lemma scanLoop_spec cursor cnt l : Forall (λ s, writer (mutex s) = false) l → ∀ i acc, cursor ≤ i →
  ∃ res next, Concurrent.scanLoop isMatch pattern ord cursor cnt i l acc = Ret (res, next) ∧
  ((next = 0 ∧ res = acc ++ scan_keys l) ∨
  (∃ l1 l2, l = l1 ++ l2 ∧ l2 ≠ [] ∧ (i = cursor → l1 ≠ []) ∧
     next = i + Z.of_nat (length l1) ∧ res = acc ++ scan_keys l1)).
Proof.
  intros Hu. induction Hu as [|s l Hs _ IH]; intros i acc Hi; cbn [Concurrent.scanLoop]; [exists acc, 0; split; [done|left; by rewrite app_nil_r]|].
  unfold Concurrent.rlock. rewrite Hs. cbn [mbind outcome_bind].
  destruct (_ && (i >? cursor)) eqn:E.
  - exists acc, i. split; [done|]. right. exists [], (s :: l). unbool. split_and!; try done; simpl; try lia.
    by rewrite app_nil_r.
  - specialize (IH (i + 1) (acc ++ (Some <$> filter scan_keep (range_map ord (sm s)).*1))).
    destruct (IH ltac:(lia)) as (res & next & Es & Hr). exists res, next. split; [exact Es|].
    unfold scan_keys in *. simpl. rewrite fmap_app, app_assoc.
    destruct Hr as [[-> ->]|(l1 & l2 & -> & H2 & H3 & H4 & H5)]; [by left|].
    right. exists (s :: l1), l2. split_and!; try done.
    + simpl. lia.
    + rewrite H5. simpl. by rewrite fmap_app, app_assoc.
Qed.

Context (compile : string → option (string → bool)) (Hc : compile pattern = Some isMatch).

Lemma scan_all_from (d : ConcurrentDict V) cnt fuel : unlocked d → ∀ c : nat,
  (bool_decide (pattern = "*"%string) && (cnt >=? Concurrent.Len d)) = false →
  (length (drop c (table d)) < fuel)%nat →
  scan_all fuel compile ord d (Z.of_nat c) cnt pattern = Some (scan_keys (drop c (table d))).
Proof.
  intros Hu. induction fuel as [|f IH]; intros c Hq Hf; [lia|]. simpl.
  unfold Concurrent.DictScan. rewrite Hq, Hc.
  destruct (Z.of_nat c <? 0) eqn:E; unbool; [lia|]. rewrite Nat2Z.id.
  destruct (scanLoop_spec (Z.of_nat c) cnt (drop c (table d)) (Forall_drop _ _ _ (unlocked_writer _ Hu)) (Z.of_nat c) [] ltac:(lia))
    as (res & next & -> & Hs). destruct Hs as [[-> ->]|(l1 & l2 & Hl & H2 & H3 & -> & ->)]; [done|].
  destruct l1 as [|s1 l1]; [by specialize (H3 eq_refl)|].
  destruct (_ =? 0) eqn:E0; unbool; [simpl in E0; lia|].
  assert (drop (c + length (s1 :: l1)) (table d) = l2) as Hd2
    by (by rewrite <-drop_drop, Hl, drop_app_length).
  rewrite <-Nat2Z.inj_add, IH; [|done|].
  - rewrite Hd2, Hl, scan_keys_app. done.
  - rewrite Hd2. rewrite Hl, length_app in Hf. simpl in Hf. lia.
Qed.

Lemma scan_keys_perm (d : ConcurrentDict V) :
  cd_shape d → fair_order ord →
  scan_keys (table d) ≡ₚ Some <$> filter scan_keep (map_to_list (cd_map d)).*1.
Proof.
  intros Hd Ho. unfold scan_keys. apply fmap_Permutation.
  rewrite <-(shards_for_each_perm ord (table d)) by (done || by apply cd_shape_disjoint).
  induction (table d) as [|s l IH]; [done|]. simpl.
  by rewrite IH, fmap_app, filter_app.
Qed.
End scan.

(** A SCAN loop started at cursor 0 on a dictionary that does not change and whose locks are free
    ends after at most one call per shard and returns each matching key exactly
    once, whatever count is asked for. *)
Theorem scan_complete {V} (compile : string → option (string → bool)) (ord : range_order)
    (d : ConcurrentDict V) (cnt : Z) (pattern : string) (isMatch : string → bool) :
  cd_wf d → unlocked d → fair_order ord → Z.of_nat (size (cd_map d)) < 2147483648 →
  compile pattern = Some isMatch →
  ∃ res, scan_all (S (length (table d))) compile ord d 0 cnt pattern = Some res ∧
    res ≡ₚ Some <$> filter (scan_keep isMatch pattern) (map_to_list (cd_map d)).*1.
Proof.
  intros Hd Hu Ho Hz Hc.
  destruct (bool_decide (pattern = "*"%string) && (cnt >=? Concurrent.Len d)) eqn:E.
  - assert (pattern = "*"%string) as Hp by (unbool; by eapply bool_decide_eq_true_1).
    exists (Concurrent.stringsToBytes (Concurrent.Keys ord d)).
    split; [simpl; unfold Concurrent.DictScan; by rewrite E, (unlocked_rlock_all _ Hu)|].
    unfold Concurrent.stringsToBytes, Concurrent.Keys. apply fmap_Permutation.
    pose proof (law_for_each (D:=ConcurrentDict V) ord d Hd Ho) as P. simpl in P.
    pose proof (law_len (D:=ConcurrentDict V) d Hd Hz) as L. simpl in L.
    assert (length (Concurrent.ForEach ord d).*1 = size (cd_map d)) as HL
      by (by rewrite length_fmap, P, length_map_to_list).
    rewrite L, Nat2Z.id, HL, Nat.sub_diag, app_nil_r, filter_all; [by rewrite P|].
    apply Forall_forall. intros k _. unfold scan_keep. by rewrite bool_decide_eq_true_2.
  - eexists. split; [by apply (scan_all_from isMatch pattern ord compile Hc d cnt _ Hu 0);
      [done|rewrite length_drop; lia]|].
    rewrite drop_0. by apply scan_keys_perm; [apply Hd|].
Qed.

Lemma scan_complete_witness :
  ∃ res, scan_all 2 (λ _, Some (λ k, String.eqb k "a")) id demo_dict 0 1 "a" = Some res ∧
    res ≡ₚ Some <$> filter (scan_keep (λ k, String.eqb k "a") "a") (map_to_list (cd_map demo_dict)).*1.
Proof.
  apply (scan_complete (λ _, Some (λ k, String.eqb k "a")) id demo_dict 1 "a").
  - split; [apply demo_dict_shape|done].
  - apply demo_dict_shape.
  - intros ks. done.
  - done.
  - done.
Defined.
