(* ===== verification/QuickList.v ===== *)
(** * datastruct/list/quicklist.go: [QuickList]

    A list stored as a linked list of pages.  A page is a Go slice with a length
    and a capacity; [container/list] is a list of pages whose elements are named
    by their position.  The iterator and every method of [QuickList] are
    modelled, and each method is proved to be the corresponding operation on the
    plain list of elements. *)

From Stdlib Require Import ZArith Lia.
From stdpp Require Import base list numbers strings.
From S2P Require Import Prelude.

Local Open Scope Z_scope.

Module QList.

Definition pageSize : nat := 1024.

Record page (V : Type) := mkPage { elems : list V; pcap : nat }.
Arguments mkPage {V} elems pcap.
Arguments elems {V} _.
Arguments pcap {V} _.

Record QuickList (V : Type) := mkQuickList { data : list (page V); size : Z }.
Arguments mkQuickList {V} data size.
Arguments data {V} _.
Arguments size {V} _.

(** [node] is nil when the list became empty under the iterator. *)
Record iterator := mkIter { node : option nat; offset : Z }.

Section quicklist.
Context `{GoRuntime} {V : Type}.
Implicit Types (ql : QuickList V) (p : page V) (it : iterator).

Definition NewQuickList : QuickList V := mkQuickList [] 0.

Definition Len ql : Z := size ql.

(** [append(p, vals...)]. *)
Definition page_append p (vals : list V) : page V :=
  let n := (length (elems p) + length vals)%nat in
  mkPage (elems p ++ vals) (if (n <=? pcap p)%nat then pcap p else append_cap (pcap p) n).

(** [make([]interface{}, 0, pageSize)] followed by one [append]. *)
Definition new_page (val : V) : page V := page_append (mkPage [] pageSize) [val].

Definition back_index (l : list (page V)) : option nat :=
  match l with [] => None | _ => Some (length l - 1)%nat end.

Definition front_index (l : list (page V)) : option nat :=
  match l with [] => None | _ => Some 0%nat end.

Definition Add ql (val : V) : QuickList V :=
  let size' := size ql + 1 in
  match last (data ql) with
  | None => mkQuickList (data ql ++ [new_page val]) size'
  | Some backPage =>
      if (length (elems backPage) =? pcap backPage)%nat then
        mkQuickList (data ql ++ [new_page val]) size'
      else
        mkQuickList (<[(length (data ql) - 1)%nat := page_append backPage [val]]> (data ql)) size'
  end.

(** The two search loops of [find]; the pages are visited from the front or
    from the back, [n] is the position of the first page of the list. *)
Fixpoint find_front (l : list (page V)) (n : nat) (pageBeg index : Z) : outcome (nat * Z) :=
  match l with
  | [] => Panic "nil pointer dereference"
  | p :: l' =>
      if pageBeg + Z.of_nat (length (elems p)) >? index then Ret (n, pageBeg)
      else find_front l' (S n) (pageBeg + Z.of_nat (length (elems p))) index
  end.

Fixpoint find_back (l : list (page V)) (pageBeg index : Z) : outcome (nat * Z) :=
  match l with
  | [] => Panic "nil pointer dereference"
  | p :: l' =>
      let pageBeg' := pageBeg - Z.of_nat (length (elems p)) in
      if pageBeg' <=? index then Ret (length l', pageBeg')
      else find_back l' pageBeg' index
  end.

Definition find ql (index : Z) : outcome iterator :=
  if (index <? 0) || (index >=? size ql) then Panic "index out of bound"
  else
    r ← (if index <? Z.quot (size ql) 2 then find_front (data ql) 0 0 index
         else find_back (rev (data ql)) (size ql) index);
    mret (mkIter (Some r.1) (index - r.2)).

Definition iter_page ql it : outcome (page V) :=
  match node it with
  | None => Panic "nil pointer dereference"
  | Some n => match data ql !! n with Some p => Ret p | None => Panic "nil pointer dereference" end
  end.

(** Slice indexing with Go's bounds check. *)
Definition slice_get (l : list V) (i : Z) : outcome V :=
  if i <? 0 then Panic "index out of range"
  else match l !! Z.to_nat i with Some x => Ret x | None => Panic "index out of range" end.

Definition iter_get ql it : outcome V := p ← iter_page ql it; slice_get (elems p) (offset it).

Definition iter_next ql it : outcome (iterator * bool) :=
  p ← iter_page ql it;
  if offset it <? Z.of_nat (length (elems p)) - 1 then
    Ret (mkIter (node it) (offset it + 1), true)
  else if bool_decide (node it = back_index (data ql)) then
    Ret (mkIter (node it) (Z.of_nat (length (elems p))), false)
  else Ret (mkIter (S <$> node it) 0, true).

Definition iter_prev ql it : outcome (iterator * bool) :=
  if offset it >? 0 then Ret (mkIter (node it) (offset it - 1), true)
  else if bool_decide (node it = front_index (data ql)) then Ret (mkIter (node it) (-1), false)
  else
    let it' := mkIter (pred <$> node it) 0 in
    p ← iter_page ql it';
    Ret (mkIter (node it') (Z.of_nat (length (elems p)) - 1), true).

Definition atEnd ql it : outcome bool :=
  match data ql with
  | [] => Ret true
  | _ =>
      if bool_decide (node it ≠ back_index (data ql)) then Ret false
      else p ← iter_page ql it; Ret (offset it =? Z.of_nat (length (elems p)))
  end.

Definition atBegin ql it : outcome bool :=
  match data ql with
  | [] => Ret true
  | _ =>
      if bool_decide (node it ≠ front_index (data ql)) then Ret false
      else Ret (offset it =? -1)
  end.

Definition Get ql (index : Z) : outcome V := it ← find ql index; iter_get ql it.

Definition set_page ql (n : nat) p : QuickList V := mkQuickList (<[n := p]> (data ql)) (size ql).

Definition iter_set ql it (val : V) : outcome (QuickList V) :=
  p ← iter_page ql it;
  if (offset it <? 0) || (offset it >=? Z.of_nat (length (elems p))) then Panic "index out of range"
  else Ret (set_page ql (default 0%nat (node it))
              (mkPage (<[Z.to_nat (offset it) := val]> (elems p)) (pcap p))).

Definition Set_ ql (index : Z) (val : V) : outcome (QuickList V) :=
  it ← find ql index; iter_set ql it val.

(** [p = append(p[:i+1], p[i:]...); p[i] = val] for an offset inside the page. *)
Definition page_insert p (i : nat) (val : V) : page V :=
  let p' := page_append (mkPage (take (S i) (elems p)) (pcap p)) (drop i (elems p)) in
  mkPage (<[i := val]> (elems p')) (pcap p').

Definition Insert ql (index : Z) (val : V) : outcome (QuickList V) :=
  if index =? size ql then Ret (Add ql val)
  else
    it ← find ql index;
    p ← iter_page ql it;
    let n := default 0%nat (node it) in
    let off := Z.to_nat (offset it) in
    if (length (elems p) <? pageSize)%nat then
      Ret (mkQuickList (<[n := page_insert p off val]> (data ql)) (size ql + 1))
    else
      let nextPage := page_append (mkPage [] 0) (drop (pageSize / 2) (elems p)) in
      let page := mkPage (take (pageSize / 2) (elems p)) (pcap p) in
      let '(page, nextPage) :=
        if (off <? length (elems page))%nat then (page_insert page off val, nextPage)
        else (page, page_insert nextPage (off - pageSize / 2) val) in
      Ret (mkQuickList (take n (data ql) ++ page :: nextPage :: drop (S n) (data ql))
             (size ql + 1)).

(** [iter.remove()]: the list, the iterator and the removed value. *)
Definition iter_remove ql it : outcome (QuickList V * iterator * V) :=
  p ← iter_page ql it;
  val ← slice_get (elems p) (offset it);
  let n := default 0%nat (node it) in
  let off := Z.to_nat (offset it) in
  let page := mkPage (take off (elems p) ++ drop (S off) (elems p)) (pcap p) in
  if (0 <? length (elems page))%nat then
    let ql' := mkQuickList (<[n := page]> (data ql)) (size ql - 1) in
    let it' :=
      if (off =? length (elems page))%nat && bool_decide (node it ≠ back_index (data ql))
      then mkIter (S <$> node it) 0 else it in
    Ret (ql', it', val)
  else
    let data' := take n (data ql) ++ drop (S n) (data ql) in
    let ql' := mkQuickList data' (size ql - 1) in
    if bool_decide (node it = back_index (data ql)) then
      match n with
      | S prev =>
          prevPage ← iter_page ql (mkIter (Some prev) 0);
          Ret (ql', mkIter (Some prev) (Z.of_nat (length (elems prevPage))), val)
      | O => Ret (ql', mkIter None 0, val)
      end
    else Ret (ql', mkIter (Some n) 0, val).

Definition Remove ql (index : Z) : outcome (QuickList V * V) :=
  it ← find ql index;
  r ← iter_remove ql it;
  Ret (r.1.1, r.2).

(** [nil] is returned for an empty list. *)
Definition RemoveLast ql : outcome (QuickList V * option V) :=
  if Len ql =? 0 then Ret (ql, None)
  else
    match last (data ql) with
    | None => Panic "nil pointer dereference"
    | Some lastPage =>
        let n := (length (data ql) - 1)%nat in
        if (length (elems lastPage) =? 1)%nat then
          Ret (mkQuickList (take n (data ql)) (size ql - 1), elems lastPage !! 0%nat)
        else
          match last (elems lastPage) with
          | None => Panic "index out of range"
          | Some val =>
              let page := mkPage (take (length (elems lastPage) - 1) (elems lastPage)) (pcap lastPage) in
              Ret (mkQuickList (<[n := page]> (data ql)) (size ql - 1), Some val)
          end
    end.

(** The removal loops; [stop] is the number of removals after which the loop
    breaks ([None] for never).  The loop of [RemoveAllByVal] and
    [RemoveByVal]: *)
Fixpoint remove_loop (fuel : nat) (expected : V → bool) (stop : option Z)
    ql it (removed : Z) : outcome (QuickList V * Z) :=
  match fuel with
  | O => Block
  | S f =>
      e ← atEnd ql it;
      if (e : bool) then Ret (ql, removed)
      else
        x ← iter_get ql it;
        if expected x then
          r ← iter_remove ql it;
          let removed' := removed + 1 in
          if bool_decide (stop = Some removed') then Ret (r.1.1, removed')
          else remove_loop f expected stop r.1.1 r.1.2 removed'
        else
          r ← iter_next ql it;
          remove_loop f expected stop ql r.1 removed
  end.

(** An upper bound on the iterations of a scan: one per element and the last test. *)
Definition scan_fuel ql : nat := S (Z.to_nat (size ql)).

Definition RemoveAllByVal ql (expected : V → bool) : outcome (QuickList V * Z) :=
  it ← find ql 0; remove_loop (scan_fuel ql) expected None ql it 0.

Definition RemoveByVal ql (expected : V → bool) (count : Z) : outcome (QuickList V * Z) :=
  if size ql =? 0 then Ret (ql, 0)
  else it ← find ql 0; remove_loop (scan_fuel ql) expected (Some count) ql it 0.

Fixpoint reverse_loop (fuel : nat) (expected : V → bool) (count : Z)
    ql it (removed : Z) : outcome (QuickList V * Z) :=
  match fuel with
  | O => Block
  | S f =>
      b ← atBegin ql it;
      if (b : bool) then Ret (ql, removed)
      else
        x ← iter_get ql it;
        if expected x then
          r ← iter_remove ql it;
          let removed' := removed + 1 in
          if removed' =? count then Ret (r.1.1, removed')
          else
            q ← iter_prev r.1.1 r.1.2;
            reverse_loop f expected count r.1.1 q.1 removed'
        else
          q ← iter_prev ql it;
          reverse_loop f expected count ql q.1 removed
  end.

Definition ReverseRemoveByVal ql (expected : V → bool) (count : Z) : outcome (QuickList V * Z) :=
  if size ql =? 0 then Ret (ql, 0)
  else it ← find ql (size ql - 1); reverse_loop (scan_fuel ql) expected count ql it 0.

(** [ForEach] with a consumer that threads the state its closure captures. *)
Fixpoint for_each_loop {S} (fuel : nat) (consumer : Z → V → S → bool * S)
    ql it (i : Z) (s : S) : outcome S :=
  match fuel with
  | O => Block
  | Datatypes.S f =>
      x ← iter_get ql it;
      let '(goNext, s') := consumer i x s in
      if (goNext : bool) then
        r ← iter_next ql it;
        if (r.2 : bool) then for_each_loop f consumer ql r.1 (i + 1) s' else Ret s'
      else Ret s'
  end.

Definition ForEach {S} ql (consumer : Z → V → S → bool * S) (s : S) : outcome S :=
  if Len ql =? 0 then Ret s
  else it ← find ql 0; for_each_loop (scan_fuel ql) consumer ql it 0 s.

Definition Contains ql (expected : V → bool) : outcome bool :=
  ForEach ql (λ _ actual contains, if expected actual then (false, true) else (true, contains)) false.

Fixpoint range_loop (n : nat) ql it (slice : list V) : outcome (list V) :=
  match n with
  | O => Ret slice
  | S n' =>
      x ← iter_get ql it;
      r ← iter_next ql it;
      range_loop n' ql r.1 (slice ++ [x])
  end.

Definition Range ql (start stop : Z) : outcome (list V) :=
  if (start <? 0) || (start >=? Len ql) then Panic "`start` out of range"
  else if (stop <? start) || (stop >? Len ql) then Panic "`stop` out of range"
  else it ← find ql start; range_loop (Z.to_nat (stop - start)) ql it [].

End quicklist.

(** ** The abstract list and the invariant *)

Section facts.
Context `{GoRuntime} {V : Type}.
Implicit Types (ql : QuickList V) (p : page V) (it : iterator) (l : list (page V)).

Definition flat l : list V := concat (elems <$> l).

(** The list a [QuickList] stands for. *)
Definition to_list ql : list V := flat (data ql).

Definition page_ok p : Prop := (0 < length (elems p) ≤ pcap p)%nat.

(** No page is empty, no page exceeds its capacity, and [size] counts the elements. *)
Definition ql_wf ql : Prop :=
  Forall page_ok (data ql) ∧ size ql = Z.of_nat (length (to_list ql)).

Lemma flat_app l1 l2 : flat (l1 ++ l2) = flat l1 ++ flat l2.
Proof. unfold flat. by rewrite fmap_app, concat_app. Qed.

Lemma flat_cons p l : flat (p :: l) = elems p ++ flat l.
Proof. done. Qed.

Lemma flat_nil_inv l : Forall page_ok l → flat l = [] → l = [].
Proof.
  destruct 1 as [|p l [Hp _] _]; [done|]. rewrite flat_cons.
  destruct (elems p); simpl in *; [lia|done].
Qed.

Lemma page_append_elems p vs : elems (page_append p vs) = elems p ++ vs.
Proof. done. Qed.

Lemma page_append_cap p vs :
  (length (elems (page_append p vs)) ≤ pcap (page_append p vs))%nat.
Proof.
  unfold page_append. simpl. rewrite length_app.
  destruct (_ <=? _)%nat eqn:E; unbool; [lia|apply append_cap_ge].
Qed.

(** Position of an iterator inside the list: what is before it, the element it
    is on and what follows. *)
Definition iter_at l it (pre : list V) (x : V) (post : list V) : Prop :=
  ∃ l1 p l2 e1 e2, l = l1 ++ p :: l2 ∧ elems p = e1 ++ x :: e2 ∧
    it = mkIter (Some (length l1)) (Z.of_nat (length e1)) ∧
    pre = flat l1 ++ e1 ∧ post = e2 ++ flat l2.

(** Behind the last element, or anywhere when the list is empty. *)
Definition iter_end l it : Prop :=
  (l = [] ∧ offset it = 0 ∧ node it = None) ∨
  ∃ l1 p, l = l1 ++ [p] ∧ it = mkIter (Some (length l1)) (Z.of_nat (length (elems p))).

Lemma back_index_snoc l1 p : back_index (l1 ++ [p]) = Some (length l1).
Proof.
  unfold back_index. destruct (l1 ++ [p]) eqn:E; [by destruct l1|].
  rewrite <-E, length_app. simpl. f_equal. lia.
Qed.

Lemma back_index_mid l1 p q l2 :
  back_index (l1 ++ p :: q :: l2) = Some (S (length l1) + length l2)%nat.
Proof.
  unfold back_index. destruct (l1 ++ p :: q :: l2) eqn:E; [by destruct l1|].
  rewrite <-E, length_app. simpl. f_equal. lia.
Qed.

Lemma iter_page_mid l1 p l2 sz off :
  iter_page (mkQuickList (l1 ++ p :: l2) sz) (mkIter (Some (length l1)) off) = Ret p.
Proof. unfold iter_page. simpl. by rewrite list_lookup_middle. Qed.

Lemma insert_mid l1 p q l2 : <[length l1 := q]> (l1 ++ p :: l2) = l1 ++ q :: l2.
Proof. by rewrite <-(Nat.add_0_r (length l1)), insert_app_r. Qed.

Lemma take_mid l1 p l2 : take (length l1) (l1 ++ p :: l2) = l1.
Proof. by rewrite take_app_length. Qed.

Lemma drop_mid l1 p l2 : drop (S (length l1)) (l1 ++ p :: l2) = l2.
Proof.
  rewrite drop_app_ge by lia. by replace (S (length l1) - length l1)%nat with 1%nat by lia.
Qed.

(** ** Searching *)

Lemma find_front_spec l n beg idx :
  Forall page_ok l → beg ≤ idx < beg + Z.of_nat (length (flat l)) →
  ∃ l1 p l2, l = l1 ++ p :: l2 ∧
    find_front l n beg idx = Ret ((n + length l1)%nat, beg + Z.of_nat (length (flat l1))) ∧
    beg + Z.of_nat (length (flat l1)) ≤ idx < beg + Z.of_nat (length (flat l1) + length (elems p)).
Proof.
  revert n beg. induction l as [|p l IH]; intros n beg Hl Hi.
  { unfold flat in Hi. simpl in Hi. lia. }
  apply Forall_cons in Hl as [Hp Hl]. rewrite flat_cons, length_app in Hi. simpl.
  destruct (_ >? idx) eqn:E; unbool.
  - exists [], p, l. rewrite Nat.add_0_r, Z.add_0_r. unfold flat. simpl. split_and!; done || lia.
  - destruct (IH (S n) (beg + Z.of_nat (length (elems p)))) as (l1 & q & l2 & -> & Hf & Hb); [done|lia|].
    exists (p :: l1), q, l2. rewrite Hf, flat_cons, length_app. simpl.
    split_and!; [done| |lia..]. f_equal. f_equal; lia.
Qed.

Lemma find_back_spec l idx :
  0 ≤ idx < Z.of_nat (length (flat l)) →
  ∃ l1 p l2, l = l1 ++ p :: l2 ∧
    find_back (rev l) (Z.of_nat (length (flat l))) idx = Ret (length l1, Z.of_nat (length (flat l1))) ∧
    Z.of_nat (length (flat l1)) ≤ idx < Z.of_nat (length (flat l1) + length (elems p)).
Proof.
  induction l as [|p l IH] using rev_ind; intros Hi.
  { unfold flat in Hi. simpl in Hi. lia. }
  rewrite rev_app_distr, flat_app, length_app in *. change (flat [p]) with (elems p ++ []) in *.
  rewrite app_nil_r in *. simpl.
  destruct (_ <=? idx) eqn:E; unbool.
  - exists l, p, []. rewrite rev_length. split_and!; [done| |lia..]. f_equal. f_equal; lia.
  - destruct IH as (l1 & q & l2 & -> & Hf & Hb); [lia|].
    exists l1, q, (l2 ++ [p]). rewrite <-app_assoc. split_and!; [done| |lia..].
    rewrite <-Hf. f_equal. lia.
Qed.

Lemma find_spec ql pre x post :
  ql_wf ql → to_list ql = pre ++ x :: post →
  ∃ it, find ql (Z.of_nat (length pre)) = Ret it ∧ iter_at (data ql) it pre x post.
Proof.
  intros [Hp Hs] Hl. unfold find.
  assert (length (to_list ql) = length pre + S (length post))%nat as HL
    by (by rewrite Hl, length_app).
  destruct ((_ <? 0) || _) eqn:E; [apply orb_true_iff in E as [E|E]; unbool; lia|].
  assert (∃ l1 p l2 n beg, data ql = l1 ++ p :: l2 ∧ n = length l1 ∧
    beg = Z.of_nat (length (flat l1)) ∧ beg ≤ Z.of_nat (length pre) < beg + Z.of_nat (length (elems p)) ∧
    (if Z.of_nat (length pre) <? Z.quot (size ql) 2
     then find_front (data ql) 0 0 (Z.of_nat (length pre))
     else find_back (rev (data ql)) (size ql) (Z.of_nat (length pre))) = Ret (n, beg))
    as (l1 & p & l2 & n & beg & Hd & -> & -> & Hb & ->).
  { destruct (_ <? Z.quot _ _).
    - destruct (find_front_spec (data ql) 0 0 (Z.of_nat (length pre))) as (l1 & p & l2 & Hd & Hf & Hb);
        [done|fold (to_list ql); lia|].
      exists l1, p, l2, (length l1), (Z.of_nat (length (flat l1))). rewrite Hf. split_and!; done || lia.
    - destruct (find_back_spec (data ql) (Z.of_nat (length pre))) as (l1 & p & l2 & Hd & Hf & Hb);
        [fold (to_list ql); lia|].
      exists l1, p, l2, (length l1), (Z.of_nat (length (flat l1))). rewrite Hs. unfold to_list.
      rewrite Hf. split_and!; done || lia. }
  simpl. eexists. split; [done|].
  set (k := (length pre - length (flat l1))%nat).
  destruct (lookup_lt_is_Some_2 (elems p) k) as [y Hy]; [unfold k; lia|].
  pose proof (take_drop_middle (elems p) k y Hy) as Hsplit.
  assert (length (take k (elems p)) = k) as Hk by (rewrite length_take; apply lookup_lt_Some in Hy; lia).
  unfold to_list in Hl. rewrite Hd, flat_app, flat_cons, <-Hsplit in Hl.
  assert (flat l1 ++ take k (elems p) = pre ∧ y :: drop (S k) (elems p) ++ flat l2 = x :: post) as [Hpre Hpost].
  { apply app_inj_1; [rewrite length_app, Hk; unfold k; lia|].
    rewrite <-Hl. by rewrite <-!app_assoc. }
  injection Hpost as -> Hpost.
  exists l1, p, l2, (take k (elems p)), (drop (S k) (elems p)).
  split_and!; try done. f_equal. rewrite Hk. unfold k. lia.
Qed.

Lemma find_first ql x (l : list V) :
  ql_wf ql → to_list ql = x :: l → ∃ it, find ql 0 = Ret it ∧ iter_at (data ql) it [] x l.
Proof. apply (find_spec ql [] x l). Qed.

(** ** Iterator steps *)

Lemma slice_get_mid (e1 e2 : list V) x :
  slice_get (e1 ++ x :: e2) (Z.of_nat (length e1)) = Ret x.
Proof.
  unfold slice_get. destruct (_ <? 0) eqn:E; unbool; [lia|].
  by rewrite Nat2Z.id, list_lookup_middle.
Qed.

Lemma iter_get_at ql it pre x post :
  iter_at (data ql) it pre x post → iter_get ql it = Ret x.
Proof.
  intros (l1 & p & l2 & e1 & e2 & Hd & He & -> & _ & _). destruct ql as [d sz]. simpl in *. subst d.
  unfold iter_get. rewrite iter_page_mid. simpl. rewrite He. apply slice_get_mid.
Qed.

Lemma iter_next_at ql it pre x post :
  Forall page_ok (data ql) → iter_at (data ql) it pre x post →
  ∃ it', match post with
    | y :: post' => iter_next ql it = Ret (it', true) ∧ iter_at (data ql) it' (pre ++ [x]) y post'
    | [] => iter_next ql it = Ret (it', false) ∧ iter_end (data ql) it'
    end.
Proof.
  intros Hp (l1 & p & l2 & e1 & e2 & Hd & He & -> & -> & ->). destruct ql as [d sz]. simpl in *. subst d.
  unfold iter_next. rewrite iter_page_mid. simpl. rewrite He, length_app. simpl.
  destruct e2 as [|y e2]; simpl.
  - destruct (_ <? _) eqn:E; unbool; [lia|].
    destruct l2 as [|q l2]; simpl.
    + rewrite back_index_snoc, bool_decide_eq_true_2 by done.
      eexists. split; [done|]. right. exists l1, p. rewrite He, length_app. done.
    + rewrite back_index_mid, bool_decide_eq_false_2 by (intros [= ?]; lia).
      apply Forall_app in Hp as [_ Hp]. rewrite !Forall_cons in Hp. destruct Hp as (_ & [Hq _] & _).
      destruct (elems q) as [|y e] eqn:Eq; [simpl in Hq; lia|]. rewrite flat_cons, Eq. simpl.
      eexists. split; [done|]. exists (l1 ++ [p]), q, l2, [], e.
      rewrite flat_app, flat_cons, He, length_app, Nat.add_1_r, !app_nil_r. simpl.
      split_and!; try done; by rewrite <-!app_assoc.
  - destruct (_ <? _) eqn:E; unbool; [|lia].
    eexists. split; [done|]. exists l1, p, l2, (e1 ++ [x]), e2.
    rewrite <-!app_assoc, length_app. simpl. split_and!; try done. f_equal. lia.
Qed.

Lemma iter_prev_at ql it pre x post :
  Forall page_ok (data ql) → iter_at (data ql) it pre x post →
  (pre = [] ∧ iter_prev ql it = Ret (mkIter (node it) (-1), false) ∧ node it = front_index (data ql)) ∨
  (∃ pre' y it', pre = pre' ++ [y] ∧ iter_prev ql it = Ret (it', true) ∧
     iter_at (data ql) it' pre' y (x :: post)).
Proof.
  intros Hp (l1 & p & l2 & e1 & e2 & Hd & He & -> & -> & ->). destruct ql as [d sz]. simpl in *. subst d.
  unfold iter_prev. simpl.
  destruct e1 as [|y e1 _] using rev_ind; simpl.
  - destruct l1 as [|q l1 _] using rev_ind; simpl; [by left|].
    right. rewrite bool_decide_eq_false_2.
    2: { unfold front_index. rewrite length_app. destruct ((l1 ++ [q]) ++ p :: l2); [done|].
         simpl. intros [= ?]. lia. }
    rewrite Forall_app, Forall_app, Forall_singleton in Hp. destruct Hp as [[_ [Hq _]] _].
    rewrite length_app. simpl. rewrite Nat.add_1_r. simpl. rewrite <-app_assoc. simpl.
    rewrite iter_page_mid. simpl.
    destruct (elems q) as [|z e _] eqn:Eq using rev_ind; [simpl in Hq; lia|].
    exists (flat l1 ++ e), z. eexists. split; [|split; [done|]].
    + rewrite app_nil_r, flat_app, flat_cons, Eq. unfold flat at 2. simpl.
      by rewrite app_nil_r, app_assoc.
    + exists l1, q, (p :: l2), e, []. rewrite flat_cons, He, length_app. simpl.
      split_and!; try done. f_equal. lia.
  - right. rewrite length_app. simpl. destruct (_ >? 0) eqn:E; unbool; [|lia].
    exists (flat l1 ++ e1), y. eexists. rewrite app_assoc. split_and!; [done..|].
    exists l1, p, l2, e1, (x :: e2). rewrite He, <-app_assoc. split_and!; try done. f_equal. lia.
Qed.

Lemma iter_prev_end ql it pre y :
  Forall page_ok (data ql) → iter_end (data ql) it → to_list ql = pre ++ [y] →
  ∃ it', iter_prev ql it = Ret (it', true) ∧ iter_at (data ql) it' pre y [].
Proof.
  intros Hp He Hl. destruct ql as [d sz]. unfold to_list in Hl. simpl in *.
  destruct He as [(-> & _ & _)|(l1 & p & -> & ->)]; [by destruct pre|].
  rewrite flat_app, flat_cons in Hl. unfold flat at 2 in Hl. simpl in Hl. rewrite app_nil_r in Hl.
  rewrite Forall_app, Forall_singleton in Hp. destruct Hp as [_ [Hq _]].
  destruct (elems p) as [|z e _] eqn:Eq using rev_ind; [simpl in Hq; lia|].
  rewrite app_assoc in Hl. apply app_inj_tail in Hl as [<- ->].
  unfold iter_prev. simpl. rewrite length_app. simpl. destruct (_ >? 0) eqn:E; unbool; [|lia].
  eexists. split; [done|]. exists l1, p, [], e, []. split_and!; try done. f_equal. lia.
Qed.

Lemma atEnd_at ql it pre x post : iter_at (data ql) it pre x post → atEnd ql it = Ret false.
Proof.
  intros (l1 & p & l2 & e1 & e2 & Hd & He & -> & _ & _). unfold atEnd.
  destruct (data ql) as [|q d] eqn:Ed; [by destruct l1|]. rewrite <-Ed in *. simpl.
  case_bool_decide; [done|]. destruct ql as [d' sz]. simpl in *. subst d'.
  rewrite Hd, iter_page_mid. simpl. rewrite He, length_app. simpl.
  f_equal. apply Z.eqb_neq. lia.
Qed.

Lemma atEnd_end ql it : iter_end (data ql) it → atEnd ql it = Ret true.
Proof.
  intros [(Hd & _ & _)|(l1 & p & Hd & ->)]; unfold atEnd; rewrite Hd; [done|].
  rewrite back_index_snoc. destruct (l1 ++ [p]) eqn:E; [by destruct l1|]. rewrite <-E in *.
  simpl. rewrite bool_decide_eq_false_2 by (intros F; by apply F).
  destruct ql as [d' sz]. simpl in *. subst d'. rewrite iter_page_mid. simpl.
  by rewrite Z.eqb_refl.
Qed.

Lemma atBegin_at ql it pre x post : iter_at (data ql) it pre x post → atBegin ql it = Ret false.
Proof.
  intros (l1 & p & l2 & e1 & e2 & Hd & He & -> & _ & _). unfold atBegin. simpl.
  destruct (data ql); [by destruct l1|]. case_bool_decide; [done|]. f_equal. apply Z.eqb_neq. lia.
Qed.

Lemma atBegin_begin ql n : n = front_index (data ql) → atBegin ql (mkIter n (-1)) = Ret true.
Proof.
  intros ->. unfold atBegin. simpl. destruct (data ql) as [|q d]; [done|].
  by rewrite bool_decide_eq_false_2 by (intros F; by apply F).
Qed.

(** ** Removal through an iterator *)

(** The iterator names the element behind [pre], or the end of the list. *)
Definition iter_on l it (pre post : list V) : Prop :=
  match post with y :: post' => iter_at l it pre y post' | [] => iter_end l it end.

(** What is left when the removed element was the only one of its page. *)
Lemma remove_page_spec l1 p l2 sz x :
  Forall page_ok (l1 ++ p :: l2) → elems p = [x] →
  ∃ it', iter_remove (mkQuickList (l1 ++ p :: l2) sz) (mkIter (Some (length l1)) 0)
    = Ret (mkQuickList (l1 ++ l2) (sz - 1), it', x) ∧ iter_on (l1 ++ l2) it' (flat l1) (flat l2).
Proof.
  intros Hp He. unfold iter_remove. rewrite iter_page_mid. simpl. rewrite He. simpl.
  rewrite take_mid, drop_mid. destruct l2 as [|q l2].
  - rewrite back_index_snoc, bool_decide_eq_true_2 by done.
    destruct l1 as [|q l1 _] using rev_ind; simpl.
    { eexists. split; [done|]. by left. }
    rewrite app_nil_r, length_app, Nat.add_1_r, <-app_assoc. simpl. rewrite iter_page_mid. simpl.
    eexists. split; [done|]. right. eauto.
  - rewrite back_index_mid, bool_decide_eq_false_2 by (intros [= ?]; lia).
    eexists. split; [done|]. apply Forall_app in Hp as [_ Hp]. rewrite !Forall_cons in Hp.
    destruct Hp as (_ & [Hq _] & _). rewrite flat_cons.
    destruct (elems q) as [|y e] eqn:Eq; [simpl in Hq; lia|]. simpl.
    exists l1, q, l2, [], e. by rewrite app_nil_r.
Qed.

(** What is left when the page keeps other elements. *)
Lemma remove_elem_spec l1 p l2 sz e1 e2 x :
  Forall page_ok (l1 ++ p :: l2) → elems p = e1 ++ x :: e2 → e1 ++ e2 ≠ [] →
  ∃ it', iter_remove (mkQuickList (l1 ++ p :: l2) sz) (mkIter (Some (length l1)) (Z.of_nat (length e1)))
    = Ret (mkQuickList (l1 ++ mkPage (e1 ++ e2) (pcap p) :: l2) (sz - 1), it', x) ∧
    iter_on (l1 ++ mkPage (e1 ++ e2) (pcap p) :: l2) it' (flat l1 ++ e1) (e2 ++ flat l2).
Proof.
  intros Hp He Hne. unfold iter_remove. rewrite iter_page_mid. simpl. rewrite He, slice_get_mid. simpl.
  rewrite Nat2Z.id, take_app_length, drop_app_ge by lia.
  replace (S (length e1) - length e1)%nat with 1%nat by lia. simpl. rewrite drop_0.
  destruct (0 <? length (e1 ++ e2))%nat eqn:E0; unbool.
  2: { revert Hne E0. destruct (e1 ++ e2); simpl; [done|lia]. }
  rewrite insert_mid. eexists. split; [done|]. rewrite length_app.
  destruct e2 as [|y e2]; simpl.
  - rewrite Nat.add_0_r, Nat.eqb_refl, app_nil_r. simpl. destruct l2 as [|q l2].
    + rewrite back_index_snoc, bool_decide_eq_false_2 by (intros F; by apply F).
      right. by exists l1, (mkPage e1 (pcap p)).
    + rewrite back_index_mid, bool_decide_eq_true_2 by (intros [= ?]; lia).
      apply Forall_app in Hp as [_ Hp]. rewrite !Forall_cons in Hp.
      destruct Hp as (_ & [Hq _] & _). rewrite flat_cons.
      destruct (elems q) as [|y e] eqn:Eq; [simpl in Hq; lia|]. simpl.
      exists (l1 ++ [mkPage e1 (pcap p)]), q, l2, [], e.
      rewrite flat_app, flat_cons, length_app, Nat.add_1_r, !app_nil_r. simpl.
      split_and!; try done; by rewrite <-!app_assoc.
  - destruct (_ =? _)%nat eqn:E; unbool; [lia|]. simpl.
    by exists l1, (mkPage (e1 ++ y :: e2) (pcap p)), l2, e1, e2.
Qed.

Lemma iter_remove_spec ql it pre x post :
  ql_wf ql → iter_at (data ql) it pre x post →
  ∃ ql' it', iter_remove ql it = Ret (ql', it', x) ∧ ql_wf ql' ∧
    to_list ql' = pre ++ post ∧ size ql' = size ql - 1 ∧ iter_on (data ql') it' pre post.
Proof.
  intros [Hp Hs] (l1 & p & l2 & e1 & e2 & Hd & He & -> & -> & ->).
  destruct ql as [d sz]. unfold to_list in *. simpl in *. subst d.
  assert (Forall page_ok l1 ∧ page_ok p ∧ Forall page_ok l2) as (H1 & [_ Hc] & H2).
  { by rewrite Forall_app, Forall_cons in Hp. }
  rewrite flat_app, flat_cons, He, !length_app in Hs. simpl in Hs. rewrite He, length_app in Hc. simpl in Hc.
  destruct (e1 ++ e2) as [|y e] eqn:E12.
  - apply app_eq_nil in E12 as [-> ->]. change (Z.of_nat (length [])) with 0.
    destruct (remove_page_spec l1 p l2 sz x) as (it' & -> & Hon); [done..|].
    eexists _, it'. split; [done|]. unfold ql_wf, to_list. simpl. rewrite flat_app, app_nil_r, length_app.
    split_and!; try done; [by apply Forall_app|simpl in *; lia].
  - destruct (remove_elem_spec l1 p l2 sz e1 e2 x) as (it' & -> & Hon); [done..|by rewrite E12|].
    eexists _, it'. split; [done|]. unfold ql_wf, to_list. simpl.
    rewrite flat_app, flat_cons. simpl. rewrite !length_app.
    split_and!; try done; [|simpl in *; lia|by rewrite <-!app_assoc].
    apply Forall_app; split; [done|]. constructor; [|done].
    unfold page_ok. simpl. rewrite E12. simpl. apply (f_equal length) in E12.
    rewrite length_app in E12. simpl in E12. lia.
Qed.

(** ** Index operations on the plain list *)

(** [l[i]] for an index of any sign. *)
Definition at_index (l : list V) (i : Z) : option V := if i <? 0 then None else l !! Z.to_nat i.

Lemma at_index_Some (l : list V) i x :
  at_index l i = Some x →
  ∃ pre post, l = pre ++ x :: post ∧ i = Z.of_nat (length pre) ∧
    pre = take (Z.to_nat i) l ∧ post = drop (S (Z.to_nat i)) l.
Proof.
  unfold at_index. destruct (i <? 0) eqn:E; [done|]. unbool. intros Hx.
  exists (take (Z.to_nat i) l), (drop (S (Z.to_nat i)) l). split_and!; try done.
  - by rewrite take_drop_middle.
  - apply lookup_lt_Some in Hx. rewrite length_take. lia.
Qed.

Lemma at_index_None (l : list V) i :
  at_index l i = None ↔ i < 0 ∨ Z.of_nat (length l) ≤ i.
Proof.
  unfold at_index. destruct (i <? 0) eqn:E; unbool; [naive_solver lia|].
  rewrite lookup_ge_None. lia.
Qed.

Lemma find_out_of_bound ql i :
  ql_wf ql → at_index (to_list ql) i = None → find ql i = Panic "index out of bound".
Proof.
  intros [_ Hs] Hi. apply at_index_None in Hi. unfold find. rewrite Hs.
  destruct ((i <? 0) || _) eqn:E; [done|]. unbool. lia.
Qed.

(** What every indexed operation does with the position it is given: it panics
    when there is no such element and continues on the iterator otherwise. *)
Lemma find_cases ql i :
  ql_wf ql →
  match at_index (to_list ql) i with
  | None => find ql i = Panic "index out of bound"
  | Some x => ∃ it, find ql i = Ret it ∧
      iter_at (data ql) it (take (Z.to_nat i) (to_list ql)) x (drop (S (Z.to_nat i)) (to_list ql))
  end.
Proof.
  intros Hwf. destruct (at_index _ i) eqn:Hi; [|by apply find_out_of_bound].
  apply at_index_Some in Hi as (pre & post & Hl & -> & Hpre & Hpost).
  rewrite <-Hpre, <-Hpost. by apply find_spec.
Qed.

Lemma NewQuickList_wf : ql_wf NewQuickList ∧ to_list NewQuickList = [].
Proof. split; [split; [constructor|done]|done]. Qed.

Lemma new_page_ok v : page_ok (new_page v).
Proof. unfold page_ok, new_page, page_append, pageSize. simpl. lia. Qed.

Lemma Add_spec ql v : ql_wf ql → ql_wf (Add ql v) ∧ to_list (Add ql v) = to_list ql ++ [v].
Proof.
  intros [Hp Hs]. destruct ql as [d sz]. unfold to_list in *. simpl in *.
  assert (∀ d', Forall page_ok d' → flat d' = flat d ++ [v] →
    ql_wf (mkQuickList d' (sz + 1)) ∧ flat d' = flat d ++ [v]) as Hfin.
  { intros d' Hd' Hf. split; [|done]. split; [done|]. unfold to_list. simpl. rewrite Hf, length_app.
    simpl. lia. }
  assert (Forall page_ok (d ++ [new_page v]) ∧ flat (d ++ [new_page v]) = flat d ++ [v]) as [Hn1 Hn2].
  { split; [apply Forall_app; split; [done|constructor; [apply new_page_ok|done]]|].
    by rewrite flat_app. }
  unfold Add. simpl. destruct d as [|p d _] using rev_ind; [by apply Hfin|].
  rewrite last_snoc. destruct (_ =? _)%nat eqn:E; [by apply Hfin|].
  rewrite length_app, Nat.add_sub, insert_mid. apply Hfin.
  - apply Forall_app in Hp as [Hp _]. apply Forall_app. split; [done|]. constructor; [|done].
    split; [simpl; rewrite length_app; simpl; lia|apply page_append_cap].
  - simpl. rewrite !flat_app, !flat_cons, page_append_elems. change (flat []) with (@nil V).
    by rewrite !app_nil_r, app_assoc.
Qed.

Lemma Get_spec ql i :
  ql_wf ql →
  Get ql i = match at_index (to_list ql) i with
             | Some x => Ret x | None => Panic "index out of bound" end.
Proof.
  intros Hwf. pose proof (find_cases ql i Hwf) as Hf. unfold Get.
  destruct (at_index _ i); [destruct Hf as (it & -> & Hat)|by rewrite Hf].
  by apply (iter_get_at ql) in Hat.
Qed.

Lemma page_set_ok e1 (x v : V) e2 c :
  page_ok (mkPage (e1 ++ x :: e2) c) → page_ok (mkPage (e1 ++ v :: e2) c).
Proof. unfold page_ok. simpl. by rewrite !length_app. Qed.

Lemma Set_spec ql i v :
  ql_wf ql →
  match at_index (to_list ql) i with
  | Some _ => ∃ ql', Set_ ql i v = Ret ql' ∧ ql_wf ql' ∧ to_list ql' = <[Z.to_nat i := v]> (to_list ql)
  | None => Set_ ql i v = Panic "index out of bound"
  end.
Proof.
  intros Hwf. pose proof (find_cases ql i Hwf) as Hf. unfold Set_.
  destruct (at_index _ i) as [x|] eqn:Hi; [destruct Hf as (it & -> & Hat)|by rewrite Hf].
  apply at_index_Some in Hi as (pre & post & Hl & -> & Hpre & Hpost).
  rewrite <-Hpre, <-Hpost in Hat. rewrite Nat2Z.id, Hl, <-(Nat.add_0_r (length pre)), insert_app_r. simpl.
  destruct Hat as (l1 & p & l2 & e1 & e2 & Hd & He & -> & -> & ->). destruct Hwf as [Hp Hs].
  destruct ql as [d sz]. unfold to_list in *. simpl in *. subst d.
  unfold iter_set. rewrite iter_page_mid. simpl.
  assert ((Z.of_nat (length e1) <? 0) || (Z.of_nat (length e1) >=? Z.of_nat (length (elems p))) = false) as ->.
  { rewrite He, length_app. simpl. apply orb_false_iff. rewrite Z.geb_leb.
    split; [apply Z.ltb_ge|apply Z.leb_gt]; lia. }
  rewrite Nat2Z.id, He, <-(Nat.add_0_r (length e1)), insert_app_r. simpl.
  eexists. split; [done|]. unfold set_page, ql_wf, to_list. simpl. rewrite insert_mid, flat_app, flat_cons.
  simpl. rewrite Forall_app, Forall_cons in Hp. destruct Hp as (H1 & H2 & H3).
  split_and!.
  - apply Forall_app. split; [done|]. constructor; [|done].
    destruct p as [ep cp]. simpl in *. subst ep. by eapply page_set_ok.
  - rewrite Hs, Hl, !length_app. simpl. rewrite !length_app. lia.
  - by rewrite <-!app_assoc.
Qed.

Lemma page_insert_spec p e1 e2 v :
  elems p = e1 ++ e2 → e2 ≠ [] →
  elems (page_insert p (length e1) v) = e1 ++ v :: e2 ∧ page_ok (page_insert p (length e1) v).
Proof.
  intros He Hne. destruct e2 as [|x e2]; [done|].
  assert (elems (page_insert p (length e1) v) = e1 ++ v :: x :: e2) as Hi.
  { unfold page_insert. simpl. rewrite He.
    rewrite drop_app_length, (cons_middle x e1 e2), app_assoc, take_app_length' by (rewrite length_app; simpl; lia).
    rewrite <-app_assoc, <-(Nat.add_0_r (length e1)), insert_app_r. done. }
  split; [done|]. split; [rewrite Hi, length_app; simpl; lia|].
  unfold page_insert. cbn -[page_append]. rewrite length_insert. apply page_append_cap.
Qed.

(** A full page is split in two halves; the halves hold the elements of the page
    and the inserted value between them. *)
Lemma split_page_spec p e1 x e2 v :
  (pageSize ≤ length (elems p) ≤ pcap p)%nat → elems p = e1 ++ x :: e2 →
  let h := (pageSize / 2)%nat in
  let nextPage := page_append (mkPage [] 0) (drop h (elems p)) in
  let page := mkPage (take h (elems p)) (pcap p) in
  let r := if (length e1 <? length (elems page))%nat then (page_insert page (length e1) v, nextPage)
           else (page, page_insert nextPage (length e1 - h) v) in
  page_ok r.1 ∧ page_ok r.2 ∧ elems r.1 ++ elems r.2 = e1 ++ v :: x :: e2.
Proof.
  intros Hc He h nextPage page. assert (h = 512%nat) as Hh by done. unfold pageSize in Hc.
  assert (length (elems page) = h) as -> by (unfold page; simpl; rewrite length_take; lia).
  destruct (length e1 <? h)%nat eqn:Eh; unbool; cbn [fst snd].
  - destruct (page_insert_spec page e1 (take (h - length e1) (x :: e2)) v) as [Hi Hok].
    { unfold page. simpl. rewrite He, take_app, take_ge by lia. done. }
    { destruct (h - length e1)%nat eqn:?; [lia|done]. }
    split_and!; [done| |].
    + split; [|apply page_append_cap]. unfold nextPage. simpl. rewrite length_drop. lia.
    + rewrite Hi, <-app_assoc. simpl. do 2 f_equal.
      rewrite He, drop_app, drop_ge by lia. simpl. by rewrite take_drop.
  - destruct (page_insert_spec nextPage (drop h e1) (x :: e2) v) as [Hi Hok].
    { unfold nextPage. simpl. rewrite He, drop_app_le by lia. done. }
    { done. }
    rewrite length_drop in Hi, Hok. split_and!; [|done|].
    + split; simpl; rewrite length_take; lia.
    + rewrite Hi. simpl. rewrite He, take_app_le by lia. by rewrite app_assoc, take_drop.
Qed.

Lemma Insert_at ql it pre x post v :
  ql_wf ql → iter_at (data ql) it pre x post → find ql (Z.of_nat (length pre)) = Ret it →
  Z.of_nat (length pre) ≠ size ql →
  ∃ ql', Insert ql (Z.of_nat (length pre)) v = Ret ql' ∧ ql_wf ql' ∧ to_list ql' = pre ++ v :: x :: post.
Proof.
  intros [Hp Hs] (l1 & p & l2 & e1 & e2 & Hd & He & -> & -> & ->) Hf Hne. unfold Insert.
  rewrite (proj2 (Z.eqb_neq _ _) Hne), Hf. simpl. destruct ql as [d sz]. unfold ql_wf, to_list in *.
  simpl in *. subst d. rewrite iter_page_mid, Nat2Z.id. simpl.
  rewrite Forall_app, Forall_cons in Hp. destruct Hp as (H1 & Hok & H3).
  rewrite flat_app, flat_cons, He, !length_app in Hs. simpl in Hs.
  assert (∀ ps, Forall page_ok ps → flat ps = e1 ++ v :: x :: e2 →
    ∃ ql', Ret (mkQuickList (l1 ++ ps ++ l2) (sz + 1)) = Ret ql' ∧
      (Forall page_ok (data ql') ∧ size ql' = Z.of_nat (length (flat (data ql')))) ∧
      flat (data ql') = (flat l1 ++ e1) ++ v :: x :: e2 ++ flat l2) as Hfin.
  { intros ps Hps Hfl. eexists. split; [done|]. simpl. rewrite !flat_app, Hfl, !length_app. simpl.
    split_and!; [by rewrite !Forall_app|simpl; lia|by rewrite <-!app_assoc]. }
  destruct (length (elems p) <? pageSize)%nat eqn:Esz; unbool.
  - rewrite insert_mid. destruct (page_insert_spec p e1 (x :: e2) v) as [Hi Hok']; [done..|].
    apply (Hfin [page_insert p (length e1) v]); [by constructor|]. unfold flat. cbn -[page_insert]. by rewrite Hi, app_nil_r.
  - rewrite take_mid, drop_mid.
    pose proof (split_page_spec p e1 x e2 v) as Hsp. cbv zeta in Hsp.
    change (pageSize / 2)%nat with 512%nat in Hsp. simpl elems in Hsp.
    destruct Hok as [_ Hc]. specialize (Hsp (conj Esz Hc) He).
    match goal with |- context [if ?c then (?a, ?b) else _] => destruct (if c then (a, b) else _) as [q r] end. simpl in Hsp. destruct Hsp as (Ha & Hb & Hab).
    apply (Hfin [q; r]); [by constructor; [|constructor]|]. unfold flat. simpl. by rewrite app_nil_r.
Qed.

Lemma Insert_spec ql i v :
  ql_wf ql →
  (if (0 <=? i) && (i <=? Z.of_nat (length (to_list ql)))
   then ∃ ql', Insert ql i v = Ret ql' ∧ ql_wf ql' ∧
     to_list ql' = take (Z.to_nat i) (to_list ql) ++ v :: drop (Z.to_nat i) (to_list ql)
   else Insert ql i v = Panic "index out of bound").
Proof.
  intros Hwf. pose proof Hwf as [_ Hs].
  destruct (decide (i = size ql)) as [->|Hne].
  { rewrite Hs, Z.leb_refl, (proj2 (Z.leb_le 0 _)) by lia. simpl.
    unfold Insert. rewrite Hs, Z.eqb_refl. destruct (Add_spec ql v Hwf) as [HA HL].
    eexists. split; [done|]. rewrite Nat2Z.id, take_ge, drop_ge by lia. by rewrite HL. }
  pose proof (find_cases ql i Hwf) as Hf.
  destruct (at_index _ i) as [x|] eqn:Hi.
  - apply at_index_Some in Hi as (pre & post & Hl & -> & Hpre & Hpost).
    destruct Hf as (it & Hf & Hat). rewrite <-Hpre, <-Hpost in Hat.
    rewrite Nat2Z.id, (proj2 (Z.leb_le 0 _)) by lia. simpl.
    rewrite (proj2 (Z.leb_le _ _)) by (rewrite Hl, length_app; simpl; lia).
    rewrite Hl, take_app_length, drop_app_length. by eapply Insert_at.
  - unfold Insert. rewrite (proj2 (Z.eqb_neq _ _) Hne), Hf. simpl. apply at_index_None in Hi.
    destruct ((0 <=? i) && _) eqn:E; [|done]. unbool. lia.
Qed.

Lemma Remove_spec ql i :
  ql_wf ql →
  match at_index (to_list ql) i with
  | Some x => ∃ ql', Remove ql i = Ret (ql', x) ∧ ql_wf ql' ∧
      to_list ql' = take (Z.to_nat i) (to_list ql) ++ drop (S (Z.to_nat i)) (to_list ql)
  | None => Remove ql i = Panic "index out of bound"
  end.
Proof.
  intros Hwf. pose proof (find_cases ql i Hwf) as Hf. unfold Remove.
  destruct (at_index _ i) as [x|]; [destruct Hf as (it & -> & Hat)|by rewrite Hf].
  destruct (iter_remove_spec ql it _ _ _ Hwf Hat) as (ql' & it' & Hr & ? & ? & _). simpl.
  rewrite Hr. simpl. eauto.
Qed.

Lemma RemoveLast_spec ql :
  ql_wf ql →
  ∃ ql', RemoveLast ql = Ret (ql', last (to_list ql)) ∧ ql_wf ql' ∧
    to_list ql' = take (length (to_list ql) - 1) (to_list ql).
Proof.
  intros [Hp Hs]. unfold RemoveLast, Len. rewrite Hs.
  destruct (_ =? 0) eqn:E0; unbool.
  { assert (to_list ql = []) as Hn by (destruct (to_list ql); simpl in *; [done|lia]).
    eexists. rewrite Hn. split; [done|]. split; [|by rewrite Hn]. by split. }
  destruct ql as [d sz]. unfold ql_wf, to_list in *. simpl in *. subst sz.
  destruct d as [|p d _] using rev_ind; [done|].
  rewrite last_snoc. rewrite Forall_app, Forall_singleton in Hp. destruct Hp as [Hd Hok].
  rewrite length_app, Nat.add_sub, take_app_length.
  assert (flat (d ++ [p]) = flat d ++ elems p) as Hfl
    by (rewrite flat_app; unfold flat at 2; simpl; by rewrite app_nil_r).
  rewrite Hfl in *. destruct Hok as [Hok1 Hok2].
  destruct (elems p) as [|x e _] eqn:Ee using rev_ind; [simpl in Hok1; lia|].
  assert (length (flat d ++ e ++ [x]) = S (length (flat d ++ e))) as Hlen
    by (rewrite !length_app; simpl; lia).
  assert (last (flat d ++ e ++ [x]) = Some x) as ->
    by (by rewrite app_assoc, last_snoc).
  assert (take (length (flat d ++ e ++ [x]) - 1) (flat d ++ e ++ [x]) = flat d ++ e) as ->
    by (rewrite Hlen, app_assoc, take_app_length' by lia; done).
  rewrite last_snoc, Hlen, length_app, Nat.add_sub, take_app_length.
  destruct (_ =? 1)%nat eqn:E1; unbool.
  - destruct e; simpl in *; [|lia]. eexists. split; [done|]. simpl. rewrite app_nil_r. split_and!; done || lia.
  - eexists. split; [done|]. simpl. rewrite insert_mid.
    assert (flat (d ++ [mkPage e (pcap p)]) = flat d ++ e) as ->
      by (rewrite flat_app; unfold flat at 2; simpl; by rewrite app_nil_r).
    rewrite length_app in *. simpl in *. split_and!; [|lia|done].
    apply Forall_app. split; [done|]. constructor; [|done]. unfold page_ok. simpl. lia.
Qed.

(** ** Removal by predicate *)

(** The reference: drop the first [n] elements that satisfy [f]. *)
Fixpoint remove_first (n : nat) (f : V → bool) (l : list V) : list V :=
  match n, l with
  | O, _ => l
  | _, [] => []
  | S n', x :: l' => if f x then remove_first n' f l' else x :: remove_first n f l'
  end.

(** How many elements a loop may still remove: [count] is compared with the
    number of removals after each of them, so a count that is already reached
    never stops the loop. *)
Definition budget (stop : option Z) (removed : Z) (len : nat) : nat :=
  match stop with
  | Some c => if removed <? c then Z.to_nat (c - removed) else len
  | None => len
  end.

Lemma remove_first_nil n f : remove_first n f [] = [].
Proof. by destruct n. Qed.

Lemma remove_first_ge n f (l : list V) : (length l ≤ n)%nat → remove_first n f l = filter (λ x, f x = false) l.
Proof.
  revert n. induction l as [|x l IH]; intros [|n] Hn; simpl in *; try done; [lia|].
  rewrite filter_cons. destruct (f x); simpl; [apply IH; lia|]. f_equal. apply (IH (S n)). lia.
Qed.

Lemma remove_first_length n f (l : list V) : (length (remove_first n f l) ≤ length l)%nat.
Proof.
  revert n. induction l as [|x l IH]; intros [|n]; simpl; try lia.
  destruct (f x); simpl; [pose proof (IH n)|pose proof (IH (S n))]; lia.
Qed.

Lemma budget_pos stop removed x (l : list V) : budget stop removed (length (x :: l)) ≠ 0%nat.
Proof. unfold budget. destruct stop as [c|]; simpl; [|lia]. destruct (_ <? _) eqn:E; unbool; lia. Qed.

(** One removal uses up one unit; the last one stops the loop. *)
Lemma budget_step stop removed n f (l : list V) :
  stop ≠ Some (removed + 1) → S n = budget stop removed (S (length l)) →
  remove_first n f l = remove_first (budget stop (removed + 1) (length l)) f l.
Proof.
  unfold budget. intros Hs Hn. destruct stop as [c|]; [|injection Hn as ->; done].
  destruct (removed <? c) eqn:E; unbool.
  - destruct (removed + 1 <? c) eqn:E'; unbool.
    + f_equal. lia.
    + destruct Hs. f_equal. lia.
  - destruct (removed + 1 <? c) eqn:E'; unbool; [lia|]. injection Hn as ->. done.
Qed.

Lemma budget_last removed (l : list V) : budget (Some (removed + 1)) removed (S (length l)) = 1%nat.
Proof. unfold budget. destruct (_ <? _) eqn:E; unbool; lia. Qed.

Lemma budget_mono stop removed f (l : list V) :
  remove_first (budget stop removed (S (length l))) f l = remove_first (budget stop removed (length l)) f l.
Proof.
  unfold budget. destruct stop as [c|]; [destruct (_ <? _)|]; try done; by rewrite !remove_first_ge by lia.
Qed.

Lemma remove_first_cons stop removed f x (l : list V) :
  remove_first (budget stop removed (length (x :: l))) f (x :: l) =
  if f x then (if bool_decide (stop = Some (removed + 1)) then l
               else remove_first (budget stop (removed + 1) (length l)) f l)
  else x :: remove_first (budget stop removed (length l)) f l.
Proof.
  destruct (budget stop removed (length (x :: l))) as [|n] eqn:E; [by apply budget_pos in E|].
  simpl. destruct (f x).
  - case_bool_decide as Hs.
    + subst stop. change (length (x :: l)) with (S (length l)) in E. rewrite budget_last in E. injection E as <-. by destruct l.
    + by apply budget_step.
  - f_equal. rewrite <-E. simpl. apply budget_mono.
Qed.

Lemma remove_loop_spec fuel f stop ql it removed pre post :
  ql_wf ql → to_list ql = pre ++ post → iter_on (data ql) it pre post → (length post < fuel)%nat →
  ∃ ql', remove_loop fuel f stop ql it removed =
      Ret (ql', removed + Z.of_nat (length (to_list ql)) - Z.of_nat (length (to_list ql'))) ∧
    ql_wf ql' ∧ to_list ql' = pre ++ remove_first (budget stop removed (length post)) f post.
Proof.
  revert ql it removed pre post. induction fuel as [|fuel IH]; intros ql it removed pre post Hwf Hl Hon Hfu; [lia|].
  simpl. destruct post as [|x post].
  { rewrite remove_first_nil. simpl in Hon. rewrite atEnd_end by done. simpl. exists ql.
    split; [f_equal; f_equal; lia|]. done. }
  rewrite remove_first_cons. simpl in Hon.
  rewrite (atEnd_at _ _ _ _ _ Hon). simpl. rewrite (iter_get_at _ _ _ _ _ Hon). simpl. destruct (f x).
  - destruct (iter_remove_spec ql it pre x post Hwf Hon) as (ql1 & it1 & Hr & Hwf1 & Hl1 & Hsz & Hon1).
    rewrite Hr. simpl. case_bool_decide.
    + exists ql1. split; [|done]. do 2 f_equal. rewrite Hl, Hl1, !length_app. simpl. lia.
    + destruct (IH ql1 it1 (removed + 1) pre post) as (ql2 & -> & ? & ?); [done..|simpl in Hfu; lia|].
      exists ql2. split; [|done]. do 2 f_equal. rewrite Hl, Hl1, !length_app. simpl. lia.
  - destruct (iter_next_at ql it pre x post) as (it1 & Hn); [apply Hwf|done|].
    assert (∃ b, iter_next ql it = Ret (it1, b) ∧ iter_on (data ql) it1 (pre ++ [x]) post) as (b & -> & Hon1)
      by (destruct post; destruct Hn; eauto).
    simpl. destruct (IH ql it1 removed (pre ++ [x]) post) as (ql2 & -> & ? & Hl2);
      [done|by rewrite <-app_assoc|done|simpl in Hfu; lia|].
    exists ql2. split; [done|]. split; [done|]. by rewrite Hl2, <-app_assoc.
Qed.

(** Stepping back from a position, with the elements before it in reverse order. *)
Definition iter_rev ql it (rpre post : list V) : Prop :=
  match rpre with
  | [] => atBegin ql it = Ret true
  | x :: rpre' => iter_at (data ql) it (rev rpre') x post
  end.

Lemma iter_prev_on ql it rpre post :
  ql_wf ql → to_list ql = rev rpre ++ post → iter_on (data ql) it (rev rpre) post →
  ∃ it' b, iter_prev ql it = Ret (it', b) ∧ iter_rev ql it' rpre post.
Proof.
  intros [Hp Hs] Hl Hon. destruct post as [|y post]; simpl in Hon.
  - rewrite app_nil_r in Hl. destruct rpre as [|x rpre]; simpl in *.
    + assert (data ql = []) as Hd by (by apply flat_nil_inv).
      destruct Hon as [(_ & Ho & Hn)|(l1 & p & Hd' & _)]; [|rewrite Hd in Hd'; by destruct l1].
      unfold iter_prev. rewrite Ho, Hn, Hd. simpl. eexists _, _. split; [done|]. unfold atBegin. by rewrite Hd.
    + destruct (iter_prev_end ql it (rev rpre) x) as (it' & ? & ?); [done..|eauto].
  - destruct (iter_prev_at ql it (rev rpre) y post) as [(Hn & Hpr & Hf)|(pre' & x & it' & Hn & Hpr & Hat)]; [done..| |].
    + destruct rpre; [|simpl in Hn; by apply app_eq_nil in Hn as [_ ?]].
      eexists _, _. split; [done|]. simpl. by apply atBegin_begin.
    + destruct rpre as [|z rpre]; simpl in Hn; [by destruct pre'|].
      apply app_inj_tail in Hn as [<- <-]. eauto.
Qed.

Lemma reverse_loop_spec fuel f count ql it removed rpre post :
  ql_wf ql → to_list ql = rev rpre ++ post → iter_rev ql it rpre post → (length rpre < fuel)%nat →
  ∃ ql', reverse_loop fuel f count ql it removed =
      Ret (ql', removed + Z.of_nat (length (to_list ql)) - Z.of_nat (length (to_list ql'))) ∧
    ql_wf ql' ∧ to_list ql' = rev (remove_first (budget (Some count) removed (length rpre)) f rpre) ++ post.
Proof.
  revert ql it removed rpre post. induction fuel as [|fuel IH]; intros ql it removed rpre post Hwf Hl Hon Hfu; [lia|].
  cbn [reverse_loop]. destruct rpre as [|x rpre].
  { rewrite remove_first_nil. simpl in Hon. rewrite Hon. simpl. exists ql. split; [do 2 f_equal; lia|done]. }
  rewrite remove_first_cons. simpl in Hon.
  rewrite (atBegin_at _ _ _ _ _ Hon). cbn [mbind outcome_bind]. rewrite (iter_get_at _ _ _ _ _ Hon).
  cbn [mbind outcome_bind]. simpl in Hl, Hfu. rewrite <-app_assoc in Hl. simpl in Hl. destruct (f x).
  - destruct (iter_remove_spec ql it _ x post Hwf Hon) as (ql1 & it1 & Hr & Hwf1 & Hl1 & Hsz & Hon1).
    rewrite Hr. simpl. case_bool_decide as Hc.
    + injection Hc as ->. rewrite Z.eqb_refl. exists ql1. split; [|done].
      do 2 f_equal. rewrite Hl, Hl1, !length_app. simpl. lia.
    + rewrite (proj2 (Z.eqb_neq _ _)) by congruence.
      destruct (iter_prev_on ql1 it1 rpre post) as (it2 & b & -> & Hr2); [done..|]. simpl.
      destruct (IH ql1 it2 (removed + 1) rpre post) as (ql2 & -> & ? & ?); [done..|lia|].
      exists ql2. split; [|done]. do 2 f_equal. rewrite Hl, Hl1, !length_app. simpl. lia.
  - destruct (iter_prev_on ql it rpre (x :: post)) as (it2 & b & -> & Hr2); [done..|]. simpl.
    destruct (IH ql it2 removed rpre (x :: post)) as (ql2 & -> & ? & Hl2); [done..|lia|].
    exists ql2. split; [done|]. split; [done|]. simpl. by rewrite Hl2, <-app_assoc.
Qed.

(** ** Iteration *)

Lemma for_each_loop_spec {S} fuel (consumer : Z → V → S → bool * S) ql it i s pre x post :
  Forall page_ok (data ql) → iter_at (data ql) it pre x post → (length post < fuel)%nat →
  for_each_loop fuel consumer ql it i s = Ret (fold_until consumer (x :: post) i s).
Proof.
  intros Hp. revert it i s pre x post. induction fuel as [|fuel IH]; intros it i s pre x post Hat Hfu; [lia|].
  simpl. rewrite (iter_get_at _ _ _ _ _ Hat). simpl. destruct (consumer i x s) as [[|] s']; [|done].
  destruct (iter_next_at ql it pre x post Hp Hat) as (it' & Hn).
  destruct post as [|y post]; destruct Hn as [-> Hn]; simpl; [done|].
  simpl in Hfu. rewrite (IH _ _ _ _ _ _ Hn) by lia. done.
Qed.

Lemma ForEach_spec {S} ql (consumer : Z → V → S → bool * S) (s : S) :
  ql_wf ql → ForEach ql consumer s = Ret (fold_until consumer (to_list ql) 0 s).
Proof.
  intros Hwf. pose proof Hwf as [Hp Hs]. unfold ForEach, Len, scan_fuel. rewrite Hs.
  destruct (to_list ql) as [|x l] eqn:E; [done|].
  destruct (find_first ql x l Hwf E) as (it & -> & Hat).
  change (Z.of_nat (length (x :: l)) =? 0) with false. cbn [mbind outcome_bind].
  apply (for_each_loop_spec _ _ _ _ _ _ _ _ _ Hp Hat). simpl. lia.
Qed.

Lemma Contains_spec ql f : ql_wf ql → Contains ql f = Ret (existsb f (to_list ql)).
Proof.
  intros Hwf. unfold Contains. rewrite ForEach_spec by done. f_equal. generalize 0.
  induction (to_list ql) as [|x l IH]; intros i; simpl; [done|]. destruct (f x); simpl; [done|apply IH].
Qed.

Lemma range_loop_spec n ql it acc pre post :
  Forall page_ok (data ql) → iter_on (data ql) it pre post → (n ≤ length post)%nat →
  range_loop n ql it acc = Ret (acc ++ take n post).
Proof.
  intros Hp. revert it acc pre post. induction n as [|n IH]; intros it acc pre post Hon Hn; simpl.
  { by rewrite app_nil_r. }
  destruct post as [|x post]; simpl in *; [lia|].
  rewrite (iter_get_at _ _ _ _ _ Hon). simpl.
  destruct (iter_next_at ql it pre x post Hp Hon) as (it' & Hx).
  assert (∃ b, iter_next ql it = Ret (it', b) ∧ iter_on (data ql) it' (pre ++ [x]) post) as (b & -> & Hon1)
    by (destruct post; destruct Hx; eauto).
  simpl. rewrite (IH _ _ _ _ Hon1) by lia. by rewrite <-app_assoc.
Qed.

Lemma Range_spec ql start stop :
  ql_wf ql →
  Range ql start stop =
    if (start <? 0) || (start >=? Z.of_nat (length (to_list ql))) then Panic "`start` out of range"
    else if (stop <? start) || (stop >? Z.of_nat (length (to_list ql))) then Panic "`stop` out of range"
    else Ret (take (Z.to_nat (stop - start)) (drop (Z.to_nat start) (to_list ql))).
Proof.
  intros Hwf. pose proof Hwf as [Hp Hs]. unfold Range, Len. rewrite Hs.
  destruct ((start <? 0) || _) eqn:E1; [done|]. destruct ((stop <? start) || _) eqn:E2; [done|]. unbool.
  pose proof (find_cases ql start Hwf) as Hf. destruct (at_index _ start) as [x|] eqn:Hi.
  2: { apply at_index_None in Hi. lia. }
  destruct Hf as (it & -> & Hat). simpl.
  unfold at_index in Hi. destruct (start <? 0); [done|].
  rewrite (drop_lookup_cons _ _ _ Hi).
  rewrite (range_loop_spec _ _ _ _ (take (Z.to_nat start) (to_list ql)) (x :: drop (S (Z.to_nat start)) (to_list ql)) Hp);
    [done|done|]. simpl. rewrite length_drop.
  lia.
Qed.

(** ** Refinement of the plain list by traces of operations *)

Inductive list_op :=
  | OAdd (v : V) | OGet (i : Z) | OSet (i : Z) (v : V) | OInsert (i : Z) (v : V) | ORemove (i : Z)
  | ORemoveLast | ORemoveAll (f : V → bool) | ORemoveBy (f : V → bool) (c : Z)
  | OReverseRemove (f : V → bool) (c : Z) | ORange (a b : Z) | OContains (f : V → bool) | OLen.

Inductive op_result :=
  | RUnit | RVal (v : V) | ROpt (v : option V) | RInt (n : Z) | RBool (b : bool) | RList (l : list V).

Definition ql_step ql (op : list_op) : outcome (QuickList V * op_result) :=
  match op with
  | OAdd v => Ret (Add ql v, RUnit)
  | OGet i => x ← Get ql i; Ret (ql, RVal x)
  | OSet i v => q ← Set_ ql i v; Ret (q, RUnit)
  | OInsert i v => q ← Insert ql i v; Ret (q, RUnit)
  | ORemove i => r ← Remove ql i; Ret (r.1, RVal r.2)
  | ORemoveLast => r ← RemoveLast ql; Ret (r.1, ROpt r.2)
  | ORemoveAll f => r ← RemoveAllByVal ql f; Ret (r.1, RInt r.2)
  | ORemoveBy f c => r ← RemoveByVal ql f c; Ret (r.1, RInt r.2)
  | OReverseRemove f c => r ← ReverseRemoveByVal ql f c; Ret (r.1, RInt r.2)
  | ORange a b => l ← Range ql a b; Ret (ql, RList l)
  | OContains f => b ← Contains ql f; Ret (ql, RBool b)
  | OLen => Ret (ql, RInt (Len ql))
  end.

(** The number of elements a call with this count may remove. *)
Definition max_removals (count : Z) (l : list V) : nat := if 0 <? count then Z.to_nat count else length l.

Definition removed_result (l l' : list V) : outcome (list V * op_result) :=
  Ret (l', RInt (Z.of_nat (length l) - Z.of_nat (length l'))).

Definition list_step (l : list V) (op : list_op) : outcome (list V * op_result) :=
  match op with
  | OAdd v => Ret (l ++ [v], RUnit)
  | OGet i => match at_index l i with Some x => Ret (l, RVal x) | None => Panic "index out of bound" end
  | OSet i v =>
      match at_index l i with
      | Some _ => Ret (<[Z.to_nat i := v]> l, RUnit) | None => Panic "index out of bound" end
  | OInsert i v =>
      if (0 <=? i) && (i <=? Z.of_nat (length l))
      then Ret (take (Z.to_nat i) l ++ v :: drop (Z.to_nat i) l, RUnit) else Panic "index out of bound"
  | ORemove i =>
      match at_index l i with
      | Some x => Ret (take (Z.to_nat i) l ++ drop (S (Z.to_nat i)) l, RVal x)
      | None => Panic "index out of bound" end
  | ORemoveLast => Ret (take (length l - 1) l, ROpt (last l))
  | ORemoveAll f =>
      if bool_decide (l = []) then Panic "index out of bound"
      else removed_result l (filter (λ x, f x = false) l)
  | ORemoveBy f c => removed_result l (remove_first (max_removals c l) f l)
  | OReverseRemove f c => removed_result l (rev (remove_first (max_removals c l) f (rev l)))
  | ORange a b =>
      if (a <? 0) || (a >=? Z.of_nat (length l)) then Panic "`start` out of range"
      else if (b <? a) || (b >? Z.of_nat (length l)) then Panic "`stop` out of range"
      else Ret (l, RList (take (Z.to_nat (b - a)) (drop (Z.to_nat a) l)))
  | OContains f => Ret (l, RBool (existsb f l))
  | OLen => Ret (l, RInt (Z.of_nat (length l)))
  end.

(** A sequence of calls; the first panic ends it. *)
Fixpoint run_ops {St} (step : St → list_op → outcome (St * op_result)) (st : St) (ops : list list_op) :
    outcome (St * list op_result) :=
  match ops with
  | [] => Ret (st, [])
  | op :: ops' =>
      r ← step st op;
      rs ← run_ops step r.1 ops';
      Ret (rs.1, r.2 :: rs.2)
  end.

Lemma RemoveAllByVal_spec ql f :
  ql_wf ql → to_list ql ≠ [] →
  ∃ ql', RemoveAllByVal ql f =
      Ret (ql', Z.of_nat (length (to_list ql)) - Z.of_nat (length (to_list ql'))) ∧
    ql_wf ql' ∧ to_list ql' = filter (λ x, f x = false) (to_list ql).
Proof.
  intros Hwf Hne. pose proof Hwf as [_ Hs]. destruct (to_list ql) as [|x l] eqn:E; [done|].
  unfold RemoveAllByVal, scan_fuel. destruct (find_first ql x l Hwf E) as (it & -> & Hat).
  cbn [mbind outcome_bind].
  destruct (remove_loop_spec (S (Z.to_nat (size ql))) f None ql it 0 [] (x :: l)) as (ql' & Hr & Hw & Hl);
    [done..|rewrite Hs; lia|].
  exists ql'. rewrite Hr, E. split; [do 2 f_equal; lia|]. split; [done|]. rewrite Hl. by apply remove_first_ge.
Qed.

Lemma RemoveByVal_spec ql f c :
  ql_wf ql →
  ∃ ql', RemoveByVal ql f c =
      Ret (ql', Z.of_nat (length (to_list ql)) - Z.of_nat (length (to_list ql'))) ∧
    ql_wf ql' ∧ to_list ql' = remove_first (max_removals c (to_list ql)) f (to_list ql).
Proof.
  intros Hwf. pose proof Hwf as [_ Hs]. unfold RemoveByVal, scan_fuel.
  destruct (to_list ql) as [|x l] eqn:E; rewrite Hs.
  { exists ql. rewrite E, remove_first_nil. done. }
  destruct (_ =? 0) eqn:E0; unbool; [simpl in E0; lia|].
  destruct (find_first ql x l Hwf E) as (it & -> & Hat). cbn [mbind outcome_bind].
  destruct (remove_loop_spec (S (Z.to_nat (size ql))) f (Some c) ql it 0 [] (x :: l)) as (ql' & Hr & Hw & Hl);
    [done..|rewrite Hs; lia|].
  rewrite Hs in Hr. exists ql'. split; [etransitivity; [exact Hr|]; rewrite E; do 2 f_equal; lia|].
  split; [done|]. rewrite Hl. unfold max_removals, budget. by rewrite Z.sub_0_r.
Qed.

Lemma ReverseRemoveByVal_spec ql f c :
  ql_wf ql →
  ∃ ql', ReverseRemoveByVal ql f c =
      Ret (ql', Z.of_nat (length (to_list ql)) - Z.of_nat (length (to_list ql'))) ∧
    ql_wf ql' ∧ to_list ql' = rev (remove_first (max_removals c (to_list ql)) f (rev (to_list ql))).
Proof.
  intros Hwf. pose proof Hwf as [_ Hs]. unfold ReverseRemoveByVal, scan_fuel.
  destruct (to_list ql) as [|x l _] eqn:E using rev_ind; rewrite Hs.
  { exists ql. change (rev []) with (@nil V). rewrite E, remove_first_nil. done. }
  rewrite length_app, Nat.add_1_r. destruct (_ =? 0) eqn:E0; unbool; [lia|].
  destruct (find_spec ql l x [] Hwf E) as (it & Hf & Hat).
  replace (Z.of_nat (S (length l)) - 1) with (Z.of_nat (length l)) by lia. rewrite Hf. cbn [mbind outcome_bind].
  rewrite rev_app_distr. simpl rev at 2. simpl app.
  destruct (reverse_loop_spec (S (Z.to_nat (Z.of_nat (S (length l))))) f c ql it 0 (x :: rev l) [])
    as (ql' & Hr & Hw & Hl); [done|..].
  { rewrite app_nil_r, E. simpl. by rewrite rev_involutive. }
  { simpl. by rewrite rev_involutive. }
  { simpl. rewrite rev_length. lia. }
  exists ql'. rewrite Hr, E, length_app. split; [do 2 f_equal; simpl; lia|]. split; [done|].
  rewrite Hl, app_nil_r. do 2 f_equal. unfold max_removals, budget. rewrite Z.sub_0_r, length_app. simpl.
  by rewrite rev_length, Nat.add_1_r.
Qed.

(** One call: same result or same panic, and the invariant is kept. *)
Lemma ql_step_refines ql op :
  ql_wf ql →
  match ql_step ql op with
  | Ret (ql', r) => ql_wf ql' ∧ list_step (to_list ql) op = Ret (to_list ql', r)
  | Panic m => list_step (to_list ql) op = Panic m
  | Block => False
  end.
Proof.
  intros Hwf. destruct op as [v|i|i v|i v|i| |f|f c|f c|a b|f|]; simpl.
  - destruct (Add_spec ql v Hwf) as [? ->]. done.
  - rewrite Get_spec by done. by destruct (at_index _ i).
  - pose proof (Set_spec ql i v Hwf) as Hx. destruct (at_index _ i); [|by rewrite Hx].
    destruct Hx as (q & -> & ? & Hl). simpl. by rewrite Hl.
  - pose proof (Insert_spec ql i v Hwf) as Hx. destruct (_ && _); [|by rewrite Hx].
    destruct Hx as (q & -> & ? & Hl). simpl. by rewrite Hl.
  - pose proof (Remove_spec ql i Hwf) as Hx. destruct (at_index _ i); [|by rewrite Hx].
    destruct Hx as (q & -> & ? & Hl). simpl. by rewrite Hl.
  - destruct (RemoveLast_spec ql Hwf) as (q & -> & ? & Hl). simpl. by rewrite Hl.
  - case_bool_decide as Hn.
    + unfold RemoveAllByVal. rewrite find_out_of_bound by (done || by rewrite Hn). done.
    + destruct (RemoveAllByVal_spec ql f Hwf Hn) as (q & -> & ? & Hl). simpl. by rewrite <-Hl.
  - destruct (RemoveByVal_spec ql f c Hwf) as (q & -> & ? & Hl). simpl. by rewrite <-Hl.
  - destruct (ReverseRemoveByVal_spec ql f c Hwf) as (q & -> & ? & Hl). simpl. by rewrite <-Hl.
  - rewrite Range_spec by done. destruct (_ || _); [done|]. by destruct (_ || _).
  - rewrite Contains_spec by done. done.
  - split; [done|]. unfold Len. by destruct Hwf as [_ ->].
Qed.

Lemma ql_run_refines ql ops :
  ql_wf ql →
  match run_ops ql_step ql ops with
  | Ret (ql', rs) => ql_wf ql' ∧ run_ops list_step (to_list ql) ops = Ret (to_list ql', rs)
  | Panic m => run_ops list_step (to_list ql) ops = Panic m
  | Block => False
  end.
Proof.
  revert ql. induction ops as [|op ops IH]; intros ql Hwf; simpl; [done|].
  pose proof (ql_step_refines ql op Hwf) as Hst. destruct (ql_step ql op) as [[ql1 r]|m|]; simpl;
    [destruct Hst as [Hwf1 ->]|by rewrite Hst|done]. simpl.
  specialize (IH ql1 Hwf1). destruct (run_ops ql_step ql1 ops) as [[ql2 rs]|m|]; simpl;
    [destruct IH as [? ->]|by rewrite IH|done]. done.
Qed.

(** [C29] Every sequence of [QuickList] calls that starts from [NewQuickList]
    gives the results (values, counts, slices, panics) that the same sequence
    gives on a plain list, whatever capacities [append] chooses: the paged
    representation, its splits, and the iterator that survives removals are not
    observable, no loop fails to end, and the pages stay non-empty and the size
    exact. *)
Theorem quicklist_refines_list (ops : list list_op) :
  match run_ops ql_step NewQuickList ops with
  | Ret (ql, rs) => ql_wf ql ∧ run_ops list_step [] ops = Ret (to_list ql, rs)
  | Panic m => run_ops list_step [] ops = Panic m
  | Block => False
  end.
Proof. apply (ql_run_refines NewQuickList), NewQuickList_wf. Qed.

End facts.

Lemma quicklist_refines_list_witness :
  match run_ops (ql_step (H := doubling_runtime)) NewQuickList [OAdd "a"%string; OInsert 0 "b"%string; ORemove 1; OLen] with
  | Ret (ql, rs) => ql_wf ql ∧ run_ops list_step [] [OAdd "a"%string; OInsert 0 "b"%string; ORemove 1; OLen] = Ret (to_list ql, rs)
  | Panic m => run_ops list_step [] [OAdd "a"%string; OInsert 0 "b"%string; ORemove 1; OLen] = Panic m
  | Block => False
  end.
Proof. apply (quicklist_refines_list (H := doubling_runtime)). Defined.

End QList.
