(* ===== verification/LinkedList.v ===== *)
(** * datastruct/list/linked.go: the doubly linked list

    Nodes live in a heap and are named by numbers; a nil pointer is [None], and
    following one panics.  [lrep] relates the heap to the list of values, and the
    methods are proved against the plain list that also specifies the [QuickList], so
    that the two implementations of the interface [List] can be compared.  Receivers
    are not nil. *)

From Stdlib Require Import ZArith Lia Ascii String.
From stdpp Require Import base gmap strings numbers list.
From S2P Require Import Prelude GoStd QuickList.

Local Open Scope string_scope.
Local Open Scope list_scope.
Local Open Scope Z_scope.
Local Open Scope go_scope.

Module Linked.

Record node (V : Type) := mkNode { val : V; prev : option nat; next : option nat }.
Arguments mkNode {V}.
Arguments val {V}.
Arguments prev {V}.
Arguments next {V}.

Record LinkedList (V : Type) := mkLinkedList {
  nodes : gmap nat (node V);
  first : option nat;
  last_ : option nat;
  size : Z;
  fresh : nat
}.
Arguments mkLinkedList {V}.
Arguments nodes {V}.
Arguments first {V}.
Arguments last_ {V}.
Arguments size {V}.
Arguments fresh {V}.

Section ops.
Context {V : Type}.
Implicit Types (l : LinkedList V) (ns : gmap nat (node V)).

(** ** Pointers *)

Definition nil_deref : string := "invalid memory address or nil pointer dereference".

Definition deref ns (x : option nat) : outcome (nat * node V) :=
  match x with
  | None => Panic nil_deref
  | Some y => match ns !! y with Some n => Ret (y, n) | None => Panic nil_deref end
  end.

(** [x.val = v], [x.prev = p], [x.next = p]. *)
Definition update ns (x : option nat) (f : node V → node V) : outcome (gmap nat (node V)) :=
  y ← deref ns x; Ret (<[y.1 := f y.2]> ns).

Definition set_val (v : V) (n : node V) : node V := mkNode v (prev n) (next n).
Definition set_prev (p : option nat) (n : node V) : node V := mkNode (val n) p (next n).
Definition set_next (p : option nat) (n : node V) : node V := mkNode (val n) (prev n) p.

(** ** Operations *)

Definition empty : LinkedList V := mkLinkedList ∅ None None 0 0.

Definition Add l (v : V) : outcome (LinkedList V) :=
  let n := fresh l in
  match last_ l with
  | None => Ret (mkLinkedList (<[n := mkNode v None None]> (nodes l)) (Some n) (Some n) (size l + 1) (S n))
  | Some t =>
      let ns := <[n := mkNode v (Some t) None]> (nodes l) in
      ns ← update ns (Some t) (set_next (Some n));
      Ret (mkLinkedList ns (first l) (Some n) (size l + 1) (S n))
  end.

(** [n = n.next], or [n = n.prev], [k] times. *)
Fixpoint steps (dir : node V → option nat) (k : nat) ns (x : option nat) : outcome (option nat) :=
  match k with
  | O => Ret x
  | S k' => y ← deref ns x; steps dir k' ns (dir y.2)
  end.

Definition find l (index : Z) : outcome (option nat) :=
  if index <? Z.quot (size l) 2 then steps next (Z.to_nat index) (nodes l) (first l)
  else steps prev (Z.to_nat (size l - 1 - index)) (nodes l) (last_ l).

Definition out_of_bound : string := "index out of bound".

Definition Get l (index : Z) : outcome V :=
  if (index <? 0) || (index >=? size l) then Panic out_of_bound
  else x ← find l index; n ← deref (nodes l) x; Ret (val n.2).

Definition Set_ l (index : Z) (v : V) : outcome (LinkedList V) :=
  if (index <? 0) || (index >? size l) then Panic out_of_bound
  else
    x ← find l index;
    ns ← update (nodes l) x (set_val v);
    Ret (mkLinkedList ns (first l) (last_ l) (size l) (fresh l)).

Definition Insert l (index : Z) (v : V) : outcome (LinkedList V) :=
  if (index <? 0) || (index >? size l) then Panic out_of_bound
  else if index =? size l then Add l v
  else
    x ← find l index;
    pivot ← deref (nodes l) x;
    let n := fresh l in
    let ns := <[n := mkNode v (prev pivot.2) x]> (nodes l) in
    r ← match prev pivot.2 with
        | None => Ret (ns, Some n)
        | Some p => ns ← update ns (Some p) (set_next (Some n)); Ret (ns, first l)
        end;
    ns ← update r.1 x (set_prev (Some n));
    Ret (mkLinkedList ns r.2 (last_ l) (size l + 1) (S n)).

Definition removeNode l (x : option nat) : outcome (LinkedList V * V) :=
  n ← deref (nodes l) x;
  r ← match prev n.2 with
      | None => Ret (nodes l, next n.2)
      | Some p => ns ← update (nodes l) (Some p) (set_next (next n.2)); Ret (ns, first l)
      end;
  q ← match next n.2 with
      | None => Ret (r.1, prev n.2)
      | Some s => ns ← update r.1 (Some s) (set_prev (prev n.2)); Ret (ns, last_ l)
      end;
  ns ← update q.1 x (λ m, mkNode (val m) None None);
  Ret (mkLinkedList ns r.2 q.2 (size l - 1) (fresh l), val n.2).

Definition Remove l (index : Z) : outcome (LinkedList V * V) :=
  if (index <? 0) || (index >=? size l) then Panic out_of_bound
  else x ← find l index; removeNode l x.

(** [nil] is returned for an empty list. *)
Definition RemoveLast l : outcome (LinkedList V * option V) :=
  match last_ l with
  | None => Ret (l, None)
  | Some n => r ← removeNode l (Some n); Ret (r.1, Some r.2)
  end.

(** The removal loops: [dir] is the next node of the scan, [stop] the number of
    removals after which it breaks, compared after every node. *)
Fixpoint remove_loop (fuel : nat) (dir : node V → option nat) (expected : V → bool) (stop : option Z) l
    (x : option nat) (removed : Z) : outcome (LinkedList V * Z) :=
  match fuel with
  | O => Block
  | S f =>
      match x with
      | None => Ret (l, removed)
      | Some _ =>
          n ← deref (nodes l) x;
          r ← (if expected (val n.2) then r ← removeNode l x; Ret (r.1, removed + 1) else Ret (l, removed));
          if bool_decide (stop = Some r.2) then Ret r
          else remove_loop f dir expected stop r.1 (dir n.2) r.2
      end
  end.

Definition scan_fuel l : nat := S (Z.to_nat (size l)).

Definition RemoveAllByVal l (expected : V → bool) : outcome (LinkedList V * Z) :=
  remove_loop (scan_fuel l) next expected None l (first l) 0.

Definition RemoveByVal l (expected : V → bool) (count : Z) : outcome (LinkedList V * Z) :=
  remove_loop (scan_fuel l) next expected (Some count) l (first l) 0.

Definition ReverseRemoveByVal l (expected : V → bool) (count : Z) : outcome (LinkedList V * Z) :=
  remove_loop (scan_fuel l) prev expected (Some count) l (last_ l) 0.

Definition Len l : Z := size l.

Fixpoint for_each_loop {S} (fuel : nat) (consumer : Z → V → S → bool * S) ns (x : option nat) (i : Z) (s : S) : outcome S :=
  match fuel with
  | O => Block
  | Datatypes.S f =>
      match x with
      | None => Ret s
      | Some _ =>
          n ← deref ns x;
          let '(goNext, s') := consumer i (val n.2) s in
          if (goNext : bool) then for_each_loop f consumer ns (next n.2) (i + 1) s' else Ret s'
      end
  end.

Definition ForEach {S} l (consumer : Z → V → S → bool * S) (s : S) : outcome S :=
  for_each_loop (scan_fuel l) consumer (nodes l) (first l) 0 s.

Definition Contains l (expected : V → bool) : outcome bool :=
  ForEach l (λ _ actual contains, if expected actual then (false, true) else (true, contains)) false.

(** The loop of [Range]; a write past the end of the slice would panic. *)
Fixpoint range_loop (fuel : nat) (start stop : Z) ns (x : option nat) (i : Z) (slice : list V) : outcome (list V) :=
  match fuel with
  | O => Block
  | S f =>
      match x with
      | None => Ret slice
      | Some _ =>
          n ← deref ns x;
          if (i >=? start) && (i <? stop) then range_loop f start stop ns (next n.2) (i + 1) (slice ++ [val n.2])
          else if i >=? stop then Ret slice
          else range_loop f start stop ns (next n.2) (i + 1) slice
      end
  end.

Definition Range l (start stop : Z) : outcome (list V) :=
  if (start <? 0) || (start >=? size l) then Panic "`start` out of range"
  else if (stop <? start) || (stop >? size l) then Panic "`stop` out of range"
  else range_loop (scan_fuel l) start stop (nodes l) (first l) 0 [].

Fixpoint add_all l (vals : list V) : outcome (LinkedList V) :=
  match vals with [] => Ret l | v :: vals' => l' ← Add l v; add_all l' vals' end.

Definition Make (vals : list V) : outcome (LinkedList V) := add_all empty vals.
End ops.

(** ** Representation *)

Section facts.
Context {V : Type}.
Abbreviation heap := (gmap nat (node V)).
Abbreviation cells := (list (nat * V)).
Implicit Types (l : LinkedList V) (ns : heap) (a b c cs : cells) (p q x : option nat).

(** Where a walk into [cs] starts, or [q] behind it; where one backwards does. *)
Definition front cs q : option nat := match cs with [] => q | y :: _ => Some y.1 end.
Definition rear cs p : option nat := match last cs with None => p | Some y => Some y.1 end.

(** The nodes [cs] are linked, between [p] and [q]. *)
Fixpoint seg ns p cs q : Prop :=
  match cs with
  | [] => True
  | y :: cs' => ns !! y.1 = Some (mkNode y.2 p (front cs' q)) ∧ seg ns (Some y.1) cs' q
  end.

Lemma front_app a b q : front (a ++ b) q = front a (front b q).
Proof. by destruct a. Qed.

Lemma rear_app a b p : rear (a ++ b) p = rear b (rear a p).
Proof. unfold rear. rewrite last_app. by destruct (last b). Qed.

Lemma rear_cons y a p : rear (y :: a) p = rear a (Some y.1).
Proof. change (y :: a) with ([y] ++ a). by rewrite rear_app. Qed.

Lemma seg_app ns p a b q : seg ns p (a ++ b) q ↔ seg ns p a (front b q) ∧ seg ns (rear a p) b q.
Proof.
  revert p. induction a as [|y a IH]; intros p; simpl; [tauto|]. rewrite front_app, IH, rear_cons. tauto.
Qed.

(** A change of a node outside. *)
Lemma seg_frame ns p cs q (y : nat) n : y ∉ cs.*1 → seg (<[y := n]> ns) p cs q ↔ seg ns p cs q.
Proof.
  revert p. induction cs as [|z cs IH]; intros p; simpl; [done|]. intros Hy. apply not_elem_of_cons in Hy as [Hne Hy].
  rewrite lookup_insert_ne by done. by rewrite IH.
Qed.

(** A new neighbour in front of, or behind, a part of the list. *)
Lemma seg_set_prev ns p p' y cs q : NoDup (y :: cs).*1 → seg ns p (y :: cs) q →
  update ns (Some y.1) (set_prev p') = Ret (<[y.1 := mkNode y.2 p' (front cs q)]> ns) ∧
  seg (<[y.1 := mkNode y.2 p' (front cs q)]> ns) p' (y :: cs) q.
Proof.
  simpl. intros Hn [Hy Hs]. apply NoDup_cons in Hn as [Hn _]. split.
  - unfold update, deref. by rewrite Hy.
  - split; [by rewrite lookup_insert_eq|]. by apply seg_frame.
Qed.

Lemma seg_set_next ns p cs y q q' : NoDup (cs ++ [y]).*1 → seg ns p (cs ++ [y]) q →
  update ns (Some y.1) (set_next q') = Ret (<[y.1 := mkNode y.2 (rear cs p) q']> ns) ∧
  seg (<[y.1 := mkNode y.2 (rear cs p) q']> ns) p (cs ++ [y]) q'.
Proof.
  intros Hn Hs. rewrite fmap_app in Hn. apply NoDup_app in Hn as (_ & Hd & _). apply seg_app in Hs as [Hs [Hy _]]. split.
  - unfold update, deref. by rewrite Hy.
  - apply seg_app. split.
    + apply seg_frame; [|done]. intros Hin. apply (Hd _ Hin). simpl. left.
    + simpl. by rewrite lookup_insert_eq.
Qed.

Record lrep l cs : Prop := {
  lr_seg : seg (nodes l) None cs None;
  lr_ids : NoDup cs.*1;
  lr_fresh : Forall (λ y, y < fresh l)%nat cs.*1;
  lr_first : first l = front cs None;
  lr_last : last_ l = rear cs None;
  lr_size : size l = Z.of_nat (length cs)
}.

Lemma lrep_empty : lrep empty [].
Proof. split; try done; constructor. Qed.

(** Looking at a node of the list. *)
Lemma deref_at ns p a y b q : seg ns p (a ++ y :: b) q →
  deref ns (Some y.1) = Ret (y.1, mkNode y.2 (rear a p) (front b q)).
Proof. intros Hs. apply seg_app in Hs as [_ [Hy _]]. unfold deref. by rewrite Hy. Qed.

Lemma fresh_not_in l cs : lrep l cs → fresh l ∉ cs.*1.
Proof. intros Hr Hin. pose proof (lr_fresh _ _ Hr) as Hf. rewrite Forall_forall in Hf. apply Hf in Hin. lia. Qed.

Lemma fresh_weaken cs (n : nat) : Forall (λ y, y < n)%nat cs.*1 → Forall (λ y, y < S n)%nat cs.*1.
Proof. intros H. eapply Forall_impl; [exact H|]. simpl. lia. Qed.

(** ** Insertion *)

Lemma Add_rep l cs v : lrep l cs → ∃ l', Add l v = Ret l' ∧ lrep l' (cs ++ [(fresh l, v)]).
Proof.
  intros Hr. pose proof (fresh_not_in _ _ Hr) as Hf. destruct Hr as [Hs Hn Hfr H1 H2 H3]. unfold Add. rewrite H2.
  destruct cs as [|y cs _] using rev_ind.
  - eexists. split; [done|]. split; simpl; try done.
    + by rewrite lookup_insert_eq.
    + apply NoDup_singleton.
    + constructor; [lia|constructor].
    + rewrite H3. simpl. lia.
  - unfold rear. rewrite last_snoc. set (ns := <[fresh l := _]> (nodes l)).
    assert (seg ns None (cs ++ [y]) None) as Hs' by (by apply seg_frame).
    destruct (seg_set_next ns None cs y None (Some (fresh l)) Hn Hs') as [-> Hs2]. cbn [mbind outcome_bind].
    eexists. split; [done|]. split; cbn [nodes first last_ size fresh].
    + apply seg_app. split; [exact Hs2|]. simpl. split; [|done]. rewrite lookup_insert_ne.
      * unfold ns. rewrite lookup_insert_eq. unfold rear. by rewrite last_snoc.
      * intros E. apply Hf. rewrite <-E, fmap_app. apply elem_of_app. right. simpl. left.
    + rewrite fmap_app. apply NoDup_app. split_and!; [done| |apply NoDup_singleton]. intros z Hz. simpl.
      rewrite list_elem_of_singleton. by intros ->.
    + rewrite fmap_app. apply Forall_app. split; [by apply fresh_weaken|]. simpl. constructor; [lia|constructor].
    + rewrite H1. by destruct cs.
    + unfold rear. by rewrite last_snoc.
    + rewrite H3, !length_app. simpl. lia.
Qed.

Lemma steps_next ns p a b q k : seg ns p (a ++ b) q → k = length a →
  steps next k ns (front (a ++ b) q) = Ret (front b q).
Proof.
  intros Hs ->. revert p Hs. induction a as [|y a IH]; intros p Hs; [done|]. simpl. simpl in Hs. destruct Hs as [Hy Hs].
  rewrite Hy. cbn [mbind outcome_bind snd next]. by eapply IH.
Qed.

Lemma steps_prev ns p a b q k : seg ns p (a ++ b) q → k = length b →
  steps prev k ns (rear (a ++ b) p) = Ret (rear a p).
Proof.
  intros Hs ->. revert q Hs. induction b as [|y b IH] using rev_ind; intros q Hs; [by rewrite app_nil_r|].
  rewrite app_assoc in *. rewrite length_app, Nat.add_comm. simpl. unfold rear at 1. rewrite last_snoc.
  rewrite (deref_at ns p (a ++ b) y [] q Hs). cbn [mbind outcome_bind snd prev].
  apply seg_app in Hs as [Hs _]. by eapply IH.
Qed.

(** Both directions of the search end at the node. *)
Lemma find_at l a y b : lrep l (a ++ y :: b) → find l (Z.of_nat (length a)) = Ret (Some y.1).
Proof.
  intros [Hs _ _ H1 H2 H3]. unfold find. rewrite H1, H2. destruct (_ <? _).
  - by rewrite (steps_next _ None a (y :: b) None) by (done || lia).
  - replace (a ++ y :: b) with ((a ++ [y]) ++ b) in * by by rewrite <-app_assoc.
    rewrite (steps_prev _ None (a ++ [y]) b None); [|done|].
    + unfold rear. by rewrite last_snoc.
    + rewrite H3, !length_app. simpl. lia.
Qed.

Lemma index_split (vs : list V) i v : QList.at_index vs i = Some v →
  ∃ pre post, vs = pre ++ v :: post ∧ i = Z.of_nat (length pre).
Proof. intros H. apply QList.at_index_Some in H as (pre & post & ? & ? & _). eauto. Qed.

(** The node at an index. *)
Lemma cell_at cs i v : QList.at_index cs.*2 i = Some v →
  ∃ a y b, cs = a ++ y :: b ∧ y.2 = v ∧ i = Z.of_nat (length a).
Proof.
  intros H. apply index_split in H as (pre & post & E & ->). apply fmap_app_inv in E as (a & b' & -> & E & ->).
  destruct b' as [|y b]; [done|]. injection E as E _. exists a, y, b. by rewrite length_fmap.
Qed.

Lemma lrep_bounds l cs i : lrep l cs →
  (i <? 0) || (i >=? size l) = bool_decide (QList.at_index cs.*2 i = None).
Proof.
  intros Hr. rewrite (lr_size _ _ Hr). pose proof (QList.at_index_None cs.*2 i) as Hi. rewrite length_fmap in Hi.
  case_bool_decide as E; [apply Hi in E|]; destruct ((i <? 0) || _) eqn:E'; unbool; try done; [lia|].
  destruct E. apply Hi. lia.
Qed.

Lemma Get_rep l cs i : lrep l cs →
  Get l i = match QList.at_index cs.*2 i with Some v => Ret v | None => Panic out_of_bound end.
Proof.
  intros Hr. unfold Get. rewrite (lrep_bounds _ _ _ Hr). destruct (QList.at_index cs.*2 i) as [v|] eqn:E; [|done].
  apply cell_at in E as (a & y & b & -> & <- & ->). rewrite (find_at _ _ _ _ Hr). cbn [mbind outcome_bind bool_decide].
  by rewrite (deref_at _ _ _ _ _ _ (lr_seg _ _ Hr)).
Qed.

(** A disjunction of bounds that cannot hold. *)
Ltac refute E := apply orb_true_iff in E as [E|E]; unbool; lia.

(** Replacing the value of a node. *)
Lemma seg_set_val ns p a y b q v : NoDup (a ++ y :: b).*1 → seg ns p (a ++ y :: b) q →
  ∃ ns', update ns (Some y.1) (set_val v) = Ret ns' ∧ seg ns' p (a ++ (y.1, v) :: b) q.
Proof.
  intros Hn Hs. unfold update. rewrite (deref_at _ _ _ _ _ _ Hs). cbn [mbind outcome_bind]. eexists. split; [done|].
  unfold set_val. cbn [fst snd prev next]. rewrite fmap_app in Hn. apply NoDup_app in Hn as (_ & Hd & Hn). simpl in Hn.
  apply NoDup_cons in Hn as [Hn _]. apply seg_app in Hs as [Ha [_ Hb]]. apply seg_app. split.
  - apply seg_frame; [|done]. intros Hin. apply (Hd _ Hin). simpl. left.
  - simpl. rewrite lookup_insert_eq. split; [done|]. by apply seg_frame.
Qed.

Lemma Set_rep l a y b v : lrep l (a ++ y :: b) →
  ∃ l', Set_ l (Z.of_nat (length a)) v = Ret l' ∧ lrep l' (a ++ (y.1, v) :: b).
Proof.
  intros Hr. pose proof Hr as [Hs Hn Hf H1 H2 H3]. unfold Set_.
  destruct ((_ <? 0) || _) eqn:E; [rewrite H3, length_app in E; cbn [length] in E; refute E|].
  rewrite (find_at _ _ _ _ Hr). cbn [mbind outcome_bind].
  destruct (seg_set_val _ _ _ _ _ _ v Hn Hs) as (ns & -> & Hs'). cbn [mbind outcome_bind]. eexists. split; [done|].
  split; cbn [nodes first last_ size fresh]; try done.
  - by rewrite fmap_app in *.
  - by rewrite fmap_app in *.
  - rewrite H1. by destruct a.
  - rewrite H2, !rear_app. by rewrite !rear_cons.
  - by rewrite H3, !length_app.
Qed.

(** ** Relinking the two parts around an index *)

Lemma seg_ext ns ns' p cs q : (∀ z, z ∈ cs.*1 → ns' !! z = ns !! z) → seg ns p cs q → seg ns' p cs q.
Proof.
  revert p. induction cs as [|y cs IH]; intros p He; simpl; [done|]. intros [Hy Hs].
  rewrite He by (simpl; left). split; [done|]. apply IH; [|done]. intros z Hz. apply He. simpl. by right.
Qed.

(** The guarded assignment [if p == nil then list.first = q' else p.next = q'] where [p]
    is the end of [a], and its mirror image. *)
Lemma relink_next ns a q q' {X} (x f : X) : NoDup a.*1 → seg ns None a q →
  ∃ ns', match rear a None with
         | None => Ret (ns, x)
         | Some t => m ← update ns (Some t) (set_next q'); Ret (m, f) end
       = Ret (ns', match a with [] => x | _ :: _ => f end) ∧
    seg ns' None a q' ∧ ∀ z, z ∉ a.*1 → ns' !! z = ns !! z.
Proof.
  intros Hn Hs. destruct a as [|y a _] using rev_ind; [by exists ns|]. unfold rear. rewrite last_snoc.
  destruct (seg_set_next ns None a y q q' Hn Hs) as [-> Hs']. cbn [mbind outcome_bind]. eexists.
  split; [by destruct a|]. split; [exact Hs'|]. intros z Hz. apply lookup_insert_ne. intros <-. apply Hz.
  rewrite fmap_app. apply elem_of_app. right. simpl. left.
Qed.

Lemma relink_prev ns p p' b {X} (x f : X) : NoDup b.*1 → seg ns p b None →
  ∃ ns', match front b None with
         | None => Ret (ns, x)
         | Some t => m ← update ns (Some t) (set_prev p'); Ret (m, f) end
       = Ret (ns', match b with [] => x | _ :: _ => f end) ∧
    seg ns' p' b None ∧ ∀ z, z ∉ b.*1 → ns' !! z = ns !! z.
Proof.
  intros Hn Hs. destruct b as [|y b]; [by exists ns|]. cbn [front].
  destruct (seg_set_prev ns p p' y b None Hn Hs) as [-> Hs']. cbn [mbind outcome_bind]. eexists.
  split; [done|]. split; [exact Hs'|]. intros z Hz. apply lookup_insert_ne. intros <-. apply Hz. simpl. left.
Qed.

Lemma front_cases a q x f : f = front a q → match a with [] => x | _ :: _ => f end = front a x.
Proof. by destruct a. Qed.

Lemma rear_cases b p x f : f = rear b p → match b with [] => x | _ :: _ => f end = rear b x.
Proof. destruct b as [|y b _] using rev_ind; [done|]. intros ->. unfold rear. rewrite !last_snoc. by destruct b. Qed.

Lemma ids_split a y b : NoDup (a ++ y :: b).*1 →
  NoDup a.*1 ∧ NoDup b.*1 ∧ y.1 ∉ a.*1 ∧ y.1 ∉ b.*1 ∧ (∀ z, z ∈ b.*1 → z ∉ a.*1) ∧ NoDup (a ++ b).*1.
Proof.
  rewrite !fmap_app. simpl. intros H. apply NoDup_app in H as (Ha & Hd & Hb). apply NoDup_cons in Hb as [Hy Hb].
  split_and!; try done.
  - intros Hin. apply (Hd _ Hin). left.
  - intros z Hz Hin. apply (Hd _ Hin). by right.
  - apply NoDup_app. split_and!; [done| |done]. intros z Hz Hin. apply (Hd _ Hz). by right.
Qed.

Lemma unlink_rep l a y b : lrep l (a ++ y :: b) →
  ∃ l', removeNode l (Some y.1) = Ret (l', y.2) ∧ lrep l' (a ++ b).
Proof.
  intros [Hs Hn Hf H1 H2 H3]. destruct (ids_split _ _ _ Hn) as (Ha & Hb & Hya & Hyb & Hd & Hn').
  unfold removeNode. rewrite (deref_at _ _ _ _ _ _ Hs). cbn [mbind outcome_bind fst snd prev next val].
  apply seg_app in Hs as [Hsa [Hy Hsb]]. cbn [front] in Hsa.
  destruct (relink_next (nodes l) a _ (front b None) (front b None) (first l) Ha Hsa) as (ns1 & E1 & Hs1 & Hx1).
  rewrite E1. cbn [mbind outcome_bind fst snd].
  assert (seg ns1 (Some y.1) b None) as Hsb1. { eapply seg_ext; [|exact Hsb]. intros z Hz. apply Hx1. by apply Hd. }
  destruct (relink_prev ns1 _ (rear a None) b (rear a None) (last_ l) Hb Hsb1) as (ns2 & E2 & Hs2 & Hx2).
  rewrite E2. cbn [mbind outcome_bind fst snd]. unfold update, deref. rewrite Hx2, Hx1, Hy by done. cbn [mbind outcome_bind].
  eexists. split; [done|]. split; cbn [nodes first last_ size fresh].
  - apply seg_frame; [rewrite fmap_app, elem_of_app; tauto|]. apply seg_app. split; [|done].
    eapply seg_ext; [|exact Hs1]. intros z Hz. apply Hx2. intros Hin. by apply (Hd z).
  - done.
  - rewrite fmap_app in *. apply Forall_app in Hf as [? Hf]. apply Forall_app. split; [done|]. by inversion Hf.
  - rewrite front_app. apply (front_cases _ (Some y.1)). by rewrite H1, front_app.
  - rewrite rear_app. apply (rear_cases _ (Some y.1)). by rewrite H2, rear_app, rear_cons.
  - rewrite H3, !length_app. simpl. lia.
Qed.

Lemma Remove_rep l a y b : lrep l (a ++ y :: b) →
  ∃ l', Remove l (Z.of_nat (length a)) = Ret (l', y.2) ∧ lrep l' (a ++ b).
Proof.
  intros Hr. unfold Remove.
  destruct ((_ <? 0) || _) eqn:E; [rewrite (lr_size _ _ Hr), length_app in E; cbn [length] in E; refute E|].
  rewrite (find_at _ _ _ _ Hr). by apply unlink_rep.
Qed.

Lemma Insert_rep l a y b v : lrep l (a ++ y :: b) →
  ∃ l', Insert l (Z.of_nat (length a)) v = Ret l' ∧ lrep l' (a ++ (fresh l, v) :: y :: b).
Proof.
  intros Hr. pose proof (fresh_not_in _ _ Hr) as Hfr. rewrite fmap_app, elem_of_app in Hfr.
  pose proof Hr as [Hs Hn Hf H1 H2 H3]. unfold Insert. rewrite H3, length_app. cbn [length].
  destruct ((_ <? 0) || _) eqn:E; [refute E|]. destruct (_ =? _) eqn:E'; [unbool; lia|]. clear E E'.
  rewrite (find_at _ _ _ _ Hr). cbn [mbind outcome_bind]. rewrite (deref_at _ _ _ _ _ _ Hs).
  cbn [mbind outcome_bind fst snd prev]. set (ns := <[fresh l := _]> (nodes l)).
  rewrite fmap_app in Hn. pose proof Hn as Hn0. apply NoDup_app in Hn as (Ha & Hd & Hb). apply seg_app in Hs as [Hsa Hsb].
  assert (seg ns None a (Some y.1)) as Hsa' by (apply seg_frame; [tauto|done]).
  destruct (relink_next ns a _ (Some (fresh l)) (Some (fresh l)) (first l) Ha Hsa') as (ns1 & E1 & Hs1 & Hx1).
  rewrite E1. cbn [mbind outcome_bind fst snd].
  assert (seg ns1 (rear a None) (y :: b) None) as Hsb1.
  { eapply seg_ext; [intros z Hz; apply Hx1; intros Hin; by apply (Hd z)|]. apply seg_frame; [tauto|done]. }
  destruct (seg_set_prev ns1 _ (Some (fresh l)) y b None Hb Hsb1) as [-> Hs2]. cbn [mbind outcome_bind].
  eexists. split; [done|]. split; cbn [nodes first last_ size fresh].
  - apply seg_app. split.
    + apply seg_frame; [|done]. intros Hin. apply (Hd _ Hin). simpl. left.
    + change (seg (<[y.1 := mkNode y.2 (Some (fresh l)) (front b None)]> ns1) (Some (fresh l)) (y :: b) None) in Hs2.
      split; [|exact Hs2]. simpl. rewrite lookup_insert_ne by (intros Heq; apply Hfr; right; rewrite <-Heq; left).
      rewrite Hx1 by tauto. unfold ns. by rewrite lookup_insert_eq.
  - rewrite fmap_app. apply NoDup_app. split_and!; [done| |].
    + intros z Hz Hin. simpl in Hin. apply elem_of_cons in Hin as [->|Hin]; [tauto|]. by apply (Hd z).
    + simpl. apply NoDup_cons. split; [tauto|done].
  - rewrite fmap_app in *. apply Forall_app in Hf as [? Hf]. apply Forall_app. split; [by apply fresh_weaken|].
    simpl. constructor; [lia|]. by apply (fresh_weaken (y :: b)).
  - rewrite front_app. apply (front_cases _ (Some y.1)). by rewrite H1, front_app.
  - by rewrite H2, !rear_app, !rear_cons.
  - rewrite !length_app. simpl. lia.
Qed.

Lemma RemoveLast_rep l cs : lrep l cs →
  match last cs with
  | None => RemoveLast l = Ret (l, None)
  | Some y => ∃ l', RemoveLast l = Ret (l', Some y.2) ∧ lrep l' (removelast cs)
  end.
Proof.
  intros Hr. unfold RemoveLast. rewrite (lr_last _ _ Hr). destruct cs as [|y cs _] using rev_ind; [done|].
  unfold rear. rewrite last_snoc. destruct (unlink_rep l cs y [] Hr) as (l' & -> & Hr'). cbn [mbind outcome_bind].
  exists l'. rewrite removelast_last. by rewrite app_nil_r in Hr'.
Qed.

(** ** The scans *)

(** The scan from the left removes what the reference drops, until the count is
    reached; it starts before the count is. *)
Lemma remove_forward fuel f stop l removed a b :
  lrep l (a ++ b) → (length b < fuel)%nat → stop ≠ Some removed →
  ∃ l' c, remove_loop fuel next f stop l (front b None) removed =
      Ret (l', removed + (Z.of_nat (length b) - Z.of_nat (length c))) ∧
    lrep l' (a ++ c) ∧ c.*2 = QList.remove_first (QList.budget stop removed (length b)) f b.*2.
Proof.
  revert l removed a b. induction fuel as [|fuel IH]; intros l removed a b Hr Hfu Hst; [lia|].
  destruct b as [|y b].
  { exists l, []. split; [simpl; do 2 f_equal; lia|]. split; [done|]. symmetry. apply QList.remove_first_nil. }
  cbn [remove_loop front]. rewrite (deref_at _ _ _ _ _ _ (lr_seg _ _ Hr)). cbn [mbind outcome_bind fst snd val next].
  cbn [length] in *. pose proof (QList.remove_first_cons stop removed f y.2 b.*2) as Hc. cbn [length] in Hc.
  rewrite length_fmap in Hc. rewrite fmap_cons, Hc. clear Hc.
  destruct (f y.2).
  - destruct (unlink_rep _ _ _ _ Hr) as (l1 & -> & Hr1). cbn [mbind outcome_bind fst snd].
    case_bool_decide as Hs.
    + exists l1, b. split; [do 2 f_equal; simpl; lia|done].
    + destruct (IH l1 (removed + 1) a b Hr1 ltac:(lia) Hs) as (l' & c & -> & ? & ?).
      exists l', c. split; [do 2 f_equal; simpl; lia|done].
  - cbn [mbind outcome_bind fst snd]. rewrite (bool_decide_eq_false_2 _ Hst).
    destruct (IH l removed (a ++ [y]) b) as (l' & c & -> & Hr' & Hc); [by rewrite <-app_assoc|lia|done|].
    exists l', (y :: c). rewrite <-app_assoc in Hr'. split; [do 2 f_equal; simpl; lia|]. split; [done|]. by rewrite fmap_cons, Hc.
Qed.

Lemma remove_backward fuel f stop l removed a b :
  lrep l (rev a ++ b) → (length a < fuel)%nat → stop ≠ Some removed →
  ∃ l' c, remove_loop fuel prev f stop l (rear (rev a) None) removed =
      Ret (l', removed + (Z.of_nat (length a) - Z.of_nat (length c))) ∧
    lrep l' (rev c ++ b) ∧ c.*2 = QList.remove_first (QList.budget stop removed (length a)) f a.*2.
Proof.
  revert l removed a b. induction fuel as [|fuel IH]; intros l removed a b Hr Hfu Hst; [lia|].
  destruct a as [|y a].
  { exists l, []. split; [simpl; do 2 f_equal; lia|]. split; [done|]. symmetry. apply QList.remove_first_nil. }
  simpl rev in *. rewrite <-app_assoc in Hr. simpl in Hr. unfold rear at 1. rewrite last_snoc.
  cbn [remove_loop]. rewrite (deref_at _ _ _ _ _ _ (lr_seg _ _ Hr)). cbn [mbind outcome_bind fst snd val prev].
  cbn [length] in *. pose proof (QList.remove_first_cons stop removed f y.2 a.*2) as Hc. cbn [length] in Hc.
  rewrite length_fmap in Hc. rewrite fmap_cons, Hc. clear Hc.
  destruct (f y.2).
  - destruct (unlink_rep _ _ _ _ Hr) as (l1 & -> & Hr1). cbn [mbind outcome_bind fst snd].
    case_bool_decide as Hs.
    + exists l1, a. split; [do 2 f_equal; simpl; lia|done].
    + destruct (IH l1 (removed + 1) a b Hr1 ltac:(lia) Hs) as (l' & c & -> & ? & ?).
      exists l', c. split; [do 2 f_equal; simpl; lia|done].
  - cbn [mbind outcome_bind fst snd]. rewrite (bool_decide_eq_false_2 _ Hst).
    destruct (IH l removed a (y :: b)) as (l' & c & -> & Hr' & Hc); [done|lia|done|].
    exists l', (y :: c). split; [do 2 f_equal; simpl; lia|]. simpl rev. rewrite <-app_assoc. split; [done|]. by rewrite fmap_cons, Hc.
Qed.

Lemma scan_fuel_rep l cs : lrep l cs → scan_fuel l = S (length cs).
Proof. intros Hr. unfold scan_fuel. rewrite (lr_size _ _ Hr). lia. Qed.


Lemma contains_rep fuel (f : V → bool) ns p b i : seg ns p b None → (length b < fuel)%nat →
  for_each_loop fuel (λ _ actual contains, if f actual then (false, true) else (true, contains)) ns (front b None) i false
  = Ret (existsb f b.*2).
Proof.
  revert p b i. induction fuel as [|fuel IH]; intros p b i Hs Hf; [lia|]. destruct b as [|y b]; [done|].
  cbn [for_each_loop front]. rewrite (deref_at _ _ [] _ _ _ Hs). cbn [mbind outcome_bind fst snd val next].
  simpl. destruct (f y.2); [done|]. cbn [length] in Hf. apply (IH (Some y.1)); [apply Hs|lia].
Qed.

Lemma Contains_rep l cs f : lrep l cs → Contains l f = Ret (existsb f cs.*2).
Proof.
  intros Hr. unfold Contains, ForEach. rewrite (scan_fuel_rep _ _ Hr), (lr_first _ _ Hr).
  apply (contains_rep _ _ _ None); [apply Hr|lia].
Qed.

(** The loop of [Range] at index [i]: what it still appends. *)
Lemma range_rep fuel start stop ns p b i acc :
  seg ns p b None → (length b < fuel)%nat → 0 ≤ i →
  range_loop fuel start stop ns (front b None) i acc =
    Ret (acc ++ drop (Z.to_nat (start - i)) (take (Z.to_nat (stop - i)) b.*2)).
Proof.
  revert p b i acc. induction fuel as [|fuel IH]; intros p b i acc Hs Hf Hi; [lia|]. destruct b as [|y b].
  { simpl. by rewrite take_nil, drop_nil, app_nil_r. }
  cbn [range_loop front]. rewrite (deref_at _ _ [] _ _ _ Hs). cbn [mbind outcome_bind fst snd val next].
  cbn [length] in Hf. destruct Hs as [_ Hs]. rewrite !(IH _ _ _ _ Hs) by lia. rewrite fmap_cons.
  destruct ((i >=? start) && (i <? stop)) eqn:E1; [|destruct (i >=? stop) eqn:E2]; unbool.
  - replace (Z.to_nat (stop - i)) with (S (Z.to_nat (stop - (i + 1)))) by lia.
    replace (Z.to_nat (start - i)) with 0%nat by lia. replace (Z.to_nat (start - (i + 1))) with 0%nat by lia.
    simpl. by rewrite <-app_assoc.
  - replace (Z.to_nat (stop - i)) with 0%nat by lia. simpl. by rewrite drop_nil, app_nil_r.
  - apply andb_false_iff in E1 as [E1|E1]; unbool; [|lia].
    replace (Z.to_nat (stop - i)) with (S (Z.to_nat (stop - (i + 1)))) by lia.
    by replace (Z.to_nat (start - i)) with (S (Z.to_nat (start - (i + 1)))) by lia.
Qed.

Lemma Range_rep l cs start stop : lrep l cs →
  Range l start stop =
    if (start <? 0) || (start >=? Z.of_nat (length cs.*2)) then Panic "`start` out of range"
    else if (stop <? start) || (stop >? Z.of_nat (length cs.*2)) then Panic "`stop` out of range"
    else Ret (take (Z.to_nat (stop - start)) (drop (Z.to_nat start) cs.*2)).
Proof.
  intros Hr. unfold Range. rewrite (lr_size _ _ Hr), length_fmap. destruct ((start <? 0) || _) eqn:E1; [done|].
  destruct ((stop <? start) || _) eqn:E2; [done|]. unbool.
  rewrite (scan_fuel_rep _ _ Hr), (lr_first _ _ Hr), (range_rep _ _ _ _ None) by (apply Hr || lia).
  rewrite !Z.sub_0_r, skipn_firstn_comm, <-Z2Nat.inj_sub by lia. done.
Qed.

(** ** Sequences of calls *)

Definition ll_step l (op : QList.list_op (V := V)) : outcome (LinkedList V * QList.op_result (V := V)) :=
  match op with
  | QList.OAdd v => l' ← Add l v; Ret (l', QList.RUnit)
  | QList.OGet i => x ← Get l i; Ret (l, QList.RVal x)
  | QList.OSet i v => l' ← Set_ l i v; Ret (l', QList.RUnit)
  | QList.OInsert i v => l' ← Insert l i v; Ret (l', QList.RUnit)
  | QList.ORemove i => r ← Remove l i; Ret (r.1, QList.RVal r.2)
  | QList.ORemoveLast => r ← RemoveLast l; Ret (r.1, QList.ROpt r.2)
  | QList.ORemoveAll f => r ← RemoveAllByVal l f; Ret (r.1, QList.RInt r.2)
  | QList.ORemoveBy f c => r ← RemoveByVal l f c; Ret (r.1, QList.RInt r.2)
  | QList.OReverseRemove f c => r ← ReverseRemoveByVal l f c; Ret (r.1, QList.RInt r.2)
  | QList.ORange a b => vs ← Range l a b; Ret (l, QList.RList vs)
  | QList.OContains f => b ← Contains l f; Ret (l, QList.RBool b)
  | QList.OLen => Ret (l, QList.RInt (Len l))
  end.

(** Where the two implementations differ: [Set] at the length, a removal from an empty
    list, a count of zero. *)
Definition plain (vs : list V) (op : QList.list_op (V := V)) : bool :=
  match op with
  | QList.OSet i _ => negb (i =? Z.of_nat (length vs))
  | QList.ORemoveAll _ => match vs with [] => false | _ => true end
  | QList.ORemoveBy _ c | QList.OReverseRemove _ c => negb (c =? 0)
  | _ => true
  end.

Fixpoint plain_run (vs : list V) (ops : list (QList.list_op (V := V))) : bool :=
  match ops with
  | [] => true
  | op :: ops' => plain vs op && match QList.list_step vs op with Ret r => plain_run r.1 ops' | _ => true end
  end.

(** The list with these values. *)
Definition lists l (vs : list V) : Prop := ∃ cs, lrep l cs ∧ cs.*2 = vs.

Definition agrees (r : outcome (LinkedList V * QList.op_result (V := V))) (s : outcome (list V * QList.op_result (V := V))) : Prop :=
  match r with
  | Ret (l', x) => ∃ vs', lists l' vs' ∧ s = Ret (vs', x)
  | Panic m => s = Panic m
  | Block => False
  end.

(** A call at an index: the node is there, or both panic. *)
Lemma Set_agrees l vs i v : lists l vs → plain vs (QList.OSet i v) = true →
  agrees (ll_step l (QList.OSet i v)) (QList.list_step vs (QList.OSet i v)).
Proof.
  intros (cs & Hr & <-) Hp. simpl in *. rewrite length_fmap in Hp. unbool. destruct (QList.at_index cs.*2 i) as [w|] eqn:E.
  - apply cell_at in E as (a & y & b & -> & <- & ->). destruct (Set_rep _ _ _ _ v Hr) as (l' & -> & Hr'). simpl. eexists.
    split; [by eexists|]. by rewrite !fmap_app, Nat2Z.id, <-(length_fmap snd a), insert_app_r_alt, Nat.sub_diag by lia.
  - apply QList.at_index_None in E. rewrite length_fmap in E. unfold Set_. rewrite (lr_size _ _ Hr).
    destruct ((i <? 0) || _) eqn:E2; [done|]. unbool. lia.
Qed.

Lemma Insert_agrees l vs i v : lists l vs → agrees (ll_step l (QList.OInsert i v)) (QList.list_step vs (QList.OInsert i v)).
Proof.
  intros (cs & Hr & <-). simpl in *. rewrite length_fmap. destruct ((0 <=? i) && _) eqn:E1.
  - unbool. destruct (decide (i = Z.of_nat (length cs))) as [->|Hne].
    + unfold Insert. rewrite (lr_size _ _ Hr). destruct ((_ <? 0) || _) eqn:E; [refute E|]. rewrite Z.eqb_refl.
      destruct (Add_rep _ _ v Hr) as (l' & -> & Hr'). simpl. eexists. split; [by eexists|].
      rewrite Nat2Z.id, <-(length_fmap snd cs), take_ge, drop_ge by lia. by rewrite fmap_app.
    + destruct (QList.at_index cs.*2 i) as [w|] eqn:E; [|apply QList.at_index_None in E; rewrite length_fmap in E; lia].
      apply cell_at in E as (a & y & b & -> & <- & ->). destruct (Insert_rep _ _ _ _ v Hr) as (l' & -> & Hr'). simpl.
      eexists. split; [by eexists|].
      by rewrite !fmap_app, Nat2Z.id, <-(length_fmap snd a), take_app_length, drop_app_length.
  - unfold Insert. rewrite (lr_size _ _ Hr). apply andb_false_iff in E1.
    destruct ((i <? 0) || _) eqn:E2; [done|]. destruct E1; unbool; lia.
Qed.

Lemma Remove_agrees l vs i : lists l vs → agrees (ll_step l (QList.ORemove i)) (QList.list_step vs (QList.ORemove i)).
Proof.
  intros (cs & Hr & <-). simpl in *. destruct (QList.at_index cs.*2 i) as [w|] eqn:E.
  - apply cell_at in E as (a & y & b & -> & <- & ->). destruct (Remove_rep _ _ _ _ Hr) as (l' & -> & Hr'). simpl. eexists.
    split; [by eexists|]. rewrite !fmap_app, Nat2Z.id, <-(length_fmap snd a), !fmap_cons, take_app_length.
    by rewrite drop_app_ge, Nat.sub_succ_l, Nat.sub_diag by lia.
  - unfold Remove. by rewrite (lrep_bounds _ _ _ Hr), E.
Qed.

Lemma RemoveLast_agrees l vs : lists l vs → agrees (ll_step l QList.ORemoveLast) (QList.list_step vs QList.ORemoveLast).
Proof.
  intros (cs & Hr & <-). simpl. pose proof (RemoveLast_rep _ _ Hr) as H. destruct cs as [|y cs _] using rev_ind.
  - simpl in H. rewrite H. simpl. eexists. split; [by eexists|done].
  - rewrite last_snoc in H. destruct H as (l' & -> & Hr'). simpl. rewrite removelast_last in Hr'. eexists. split; [by eexists|].
    rewrite fmap_app, fmap_cons, fmap_nil, last_snoc, length_app. by rewrite Nat.add_sub, take_app_length.
Qed.

(** The three removals by value. *)
Lemma removed_agrees l' c n (vs vs' : list V) : lrep l' c → c.*2 = vs' → n = Z.of_nat (length vs) - Z.of_nat (length c) →
  agrees (Ret (l', QList.RInt n)) (QList.removed_result vs vs').
Proof.
  intros Hr <- ->. eexists. split; [by eexists|]. unfold QList.removed_result. by rewrite length_fmap.
Qed.

Lemma RemoveAll_agrees l vs f : lists l vs → plain vs (QList.ORemoveAll f) = true →
  agrees (ll_step l (QList.ORemoveAll f)) (QList.list_step vs (QList.ORemoveAll f)).
Proof.
  intros (cs & Hr & <-) Hp. simpl in *. rewrite bool_decide_eq_false_2 by (by destruct cs).
  unfold RemoveAllByVal. rewrite (scan_fuel_rep _ _ Hr), (lr_first _ _ Hr).
  destruct (remove_forward (S (length cs)) f None l 0 [] cs Hr) as (l' & c & -> & Hr' & Hc); [lia|done|].
  cbn [mbind outcome_bind fst snd]. rewrite app_nil_l in Hr'. eapply removed_agrees; [exact Hr'| |rewrite length_fmap; simpl; lia].
  rewrite Hc. apply QList.remove_first_ge. by rewrite length_fmap.
Qed.

Lemma RemoveBy_agrees l vs f (c : Z) : lists l vs → plain vs (QList.ORemoveBy f c) = true →
  agrees (ll_step l (QList.ORemoveBy f c)) (QList.list_step vs (QList.ORemoveBy f c)).
Proof.
  intros (cs & Hr & <-) Hp. simpl in *. unbool. unfold RemoveByVal. rewrite (scan_fuel_rep _ _ Hr), (lr_first _ _ Hr).
  destruct (remove_forward (S (length cs)) f (Some c) l 0 [] cs Hr) as (l' & d & -> & Hr' & Hd); [lia|congruence|].
  cbn [mbind outcome_bind fst snd]. rewrite app_nil_l in Hr'. eapply removed_agrees; [exact Hr'| |rewrite length_fmap; simpl; lia].
  rewrite Hd. unfold QList.budget, QList.max_removals. by rewrite Z.sub_0_r, length_fmap.
Qed.

Lemma vals_rev (a : cells) : (rev a).*2 = rev a.*2.
Proof. apply map_rev. Qed.

Lemma ReverseRemove_agrees l vs f (c : Z) : lists l vs → plain vs (QList.OReverseRemove f c) = true →
  agrees (ll_step l (QList.OReverseRemove f c)) (QList.list_step vs (QList.OReverseRemove f c)).
Proof.
  intros (cs & Hr & <-) Hp. simpl in *. unbool. unfold ReverseRemoveByVal. rewrite (scan_fuel_rep _ _ Hr), (lr_last _ _ Hr).
  pose proof Hr as Hr0. rewrite <-(rev_involutive cs), <-(app_nil_r (rev (rev cs))) in Hr0. rewrite <-(rev_involutive cs) at 2.
  destruct (remove_backward (S (length cs)) f (Some c) l 0 (rev cs) [] Hr0) as (l' & d & -> & Hr' & Hd);
    [rewrite length_rev; lia|congruence|].
  cbn [mbind outcome_bind fst snd]. rewrite app_nil_r in Hr'.
  eapply removed_agrees; [exact Hr'| |rewrite length_fmap, !length_rev; simpl; lia].
  rewrite vals_rev, Hd, vals_rev. unfold QList.budget, QList.max_removals. by rewrite Z.sub_0_r, length_rev, length_fmap.
Qed.

Lemma ll_step_agrees l vs op : lists l vs → plain vs op = true → agrees (ll_step l op) (QList.list_step vs op).
Proof.
  intros Hl Hp. destruct op as [v|i|i v|i v|i| |f|f c|f c|a b|f|].
  - destruct Hl as (cs & Hr & <-). simpl. destruct (Add_rep _ _ v Hr) as (l' & -> & Hr'). simpl. eexists.
    split; [by eexists|]. by rewrite fmap_app.
  - destruct Hl as (cs & Hr & <-). simpl. rewrite (Get_rep _ _ _ Hr). destruct (QList.at_index cs.*2 i); simpl; [|done].
    eexists. split; [by eexists|done].
  - by apply Set_agrees.
  - by apply Insert_agrees.
  - by apply Remove_agrees.
  - by apply RemoveLast_agrees.
  - by apply RemoveAll_agrees.
  - by apply RemoveBy_agrees.
  - by apply ReverseRemove_agrees.
  - destruct Hl as (cs & Hr & <-). simpl. rewrite (Range_rep _ _ _ _ Hr).
    destruct ((a <? 0) || _); [done|]. destruct ((b <? a) || _); [done|]. simpl. eexists. split; [by eexists|done].
  - destruct Hl as (cs & Hr & <-). simpl. rewrite (Contains_rep _ _ _ Hr). simpl. eexists. split; [by eexists|done].
  - destruct Hl as (cs & Hr & <-). simpl. eexists. split; [by eexists|]. unfold Len. by rewrite (lr_size _ _ Hr), length_fmap.
Qed.

Lemma ll_run_agrees l vs ops : lists l vs → plain_run vs ops = true →
  match QList.run_ops ll_step l ops with
  | Ret (l', rs) => ∃ vs', lists l' vs' ∧ QList.run_ops QList.list_step vs ops = Ret (vs', rs)
  | Panic m => QList.run_ops QList.list_step vs ops = Panic m
  | Block => False
  end.
Proof.
  revert l vs. induction ops as [|op ops IH]; intros l vs Hl Hp; simpl; [eauto|]. simpl in Hp. apply andb_true_iff in Hp as [Hp1 Hp].
  pose proof (ll_step_agrees l vs op Hl Hp1) as Hs. destruct (ll_step l op) as [[l1 r]|m|]; simpl in *; [|by rewrite Hs|done].
  destruct Hs as (vs1 & Hl1 & E). rewrite E in Hp |- *. simpl in *. specialize (IH l1 vs1 Hl1 Hp).
  destruct (QList.run_ops ll_step l1 ops) as [[l2 rs]|m|]; simpl in *; [|by rewrite IH|done].
  destruct IH as (vs2 & Hl2 & ->). simpl. eauto.
Qed.

(** The values in order, as [ForEach] visits them. *)
Definition values l : outcome (list V) := ForEach l (λ _ v acc, (true, acc ++ [v])) [].

Lemma collect_rep fuel ns p b i acc : seg ns p b None → (length b < fuel)%nat →
  for_each_loop fuel (λ _ v acc, (true, acc ++ [v])) ns (front b None) i acc = Ret (acc ++ b.*2).
Proof.
  revert p b i acc. induction fuel as [|fuel IH]; intros p b i acc Hs Hf; [lia|].
  destruct b as [|y b]; [simpl; by rewrite app_nil_r|]. cbn [for_each_loop front]. rewrite (deref_at _ _ [] _ _ _ Hs).
  cbn [mbind outcome_bind fst snd val next]. cbn [length] in Hf. destruct Hs as [_ Hs]. rewrite (IH _ _ _ _ Hs) by lia.
  by rewrite <-app_assoc.
Qed.

Lemma values_lists l vs : lists l vs → values l = Ret vs.
Proof.
  intros (cs & Hr & <-). unfold values, ForEach. rewrite (scan_fuel_rep _ _ Hr), (lr_first _ _ Hr).
  apply (collect_rep _ _ None); [apply Hr|lia].
Qed.

Lemma empty_lists : lists empty [].
Proof. exists []. split; [apply lrep_empty|done]. Qed.

(** [C30] The two implementations of the interface [List] are interchangeable: a sequence
    of calls that avoids the three inputs on which they differ ([Set] at the length, the
    removal of all matching values from an empty list, a count of zero) gives the same
    results, or the same panic at the same call, on a [LinkedList] and on a [QuickList],
    whatever capacities [append] chooses, and leaves the same values in both. *)
Theorem linked_quick_equivalent `{GoRuntime} (ops : list (QList.list_op (V := V))) : plain_run [] ops = true →
  match QList.run_ops ll_step empty ops, QList.run_ops QList.ql_step QList.NewQuickList ops with
  | Ret (l, rs), Ret (ql, rs') => rs = rs' ∧ values l = Ret (QList.to_list ql)
  | Panic m, Panic m' => m = m'
  | _, _ => False
  end.
Proof.
  intros Hp. pose proof (ll_run_agrees empty [] ops empty_lists Hp) as Hl.
  pose proof (QList.ql_run_refines QList.NewQuickList ops (proj1 QList.NewQuickList_wf)) as Hq.
  change (QList.to_list QList.NewQuickList) with (@nil V) in Hq.
  destruct (QList.run_ops ll_step empty ops) as [[l rs]|m|]; [| |done];
    destruct (QList.run_ops QList.ql_step QList.NewQuickList ops) as [[ql rs']|m'|]; try done.
  - destruct Hl as (vs & Hv & E), Hq as [_ E']. rewrite E in E'. injection E' as -> ->. split; [done|]. by apply values_lists.
  - destruct Hl as (vs & _ & E). congruence.
  - destruct Hq as [_ E]. congruence.
  - congruence.
Qed.

(** The inputs that [plain] excludes: [Set] at the length overwrites the last value
    instead of panicking, ... *)
Lemma Set_at_length l (cs : cells) y v : lrep l (cs ++ [y]) →
  ∃ l', Set_ l (Z.of_nat (length (cs ++ [y]))) v = Ret l' ∧ lists l' (cs.*2 ++ [v]).
Proof.
  intros Hr. destruct (Set_rep _ _ _ _ v Hr) as (l' & E & Hr'). exists l'. split; [|exists (cs ++ [(y.1, v)])].
  - rewrite <-E. unfold Set_, find. rewrite (lr_size _ _ Hr), length_app. cbn [length].
    destruct ((_ <? 0) || _) eqn:E1; [refute E1|]. destruct ((Z.of_nat (length cs) <? 0) || _) eqn:E2; [refute E2|].
    assert (Z.of_nat (length cs + 1) `quot` 2 ≤ Z.of_nat (length cs)) by (Z.to_euclidean_division_equations; lia).
    rewrite !(proj2 (Z.ltb_ge _ _)) by lia.
    replace (Z.to_nat (Z.of_nat (length cs + 1) - 1 - Z.of_nat (length cs + 1))) with 0%nat by lia.
    by replace (Z.to_nat (Z.of_nat (length cs + 1) - 1 - Z.of_nat (length cs))) with 0%nat by lia.
  - split; [done|]. by rewrite fmap_app.
Qed.

(** ... an empty list panics there with a nil dereference, ... *)
Lemma Set_on_empty (v : V) : Set_ empty 0 v = Panic nil_deref.
Proof. done. Qed.

(** ... and a count of zero stops the scan at a first value that does not match. *)
Lemma remove_count_zero l y (cs : cells) f : lrep l (y :: cs) → f y.2 = false → RemoveByVal l f 0 = Ret (l, 0).
Proof.
  intros Hr Hf. unfold RemoveByVal. rewrite (scan_fuel_rep _ _ Hr), (lr_first _ _ Hr). cbn [remove_loop front].
  rewrite (deref_at _ _ [] _ _ _ (lr_seg _ _ Hr)). cbn [mbind outcome_bind fst snd val]. by rewrite Hf.
Qed.
End facts.

Lemma linked_quick_equivalent_witness :
  let ops := [QList.OAdd 5; QList.OAdd 7; QList.OInsert 1 6; QList.OSet 0 7; QList.ORemoveBy (Z.eqb 7) 1; QList.OReverseRemove (Z.eqb 7) (-1); QList.OGet 3] in
  match QList.run_ops ll_step empty ops,
        QList.run_ops (QList.ql_step (H := doubling_runtime)) QList.NewQuickList ops with
  | Ret (l, rs), Ret (ql, rs') => rs = rs' ∧ values l = Ret (QList.to_list ql)
  | Panic m, Panic m' => m = m'
  | _, _ => False
  end.
Proof. apply (linked_quick_equivalent (H := doubling_runtime)). reflexivity. Defined.
End Linked.
