(* ===== verification/LockMap.v ===== *)
(** * datastruct/lock/lock_map.go: locks for keys

    A table of read/write mutexes; a key locks the mutex of its hash.  The methods are
    translated for one goroutine, where a mutex that is not free makes the call block.

    The second half lets any number of goroutines interleave, lock operation by lock
    operation: each serves a sequence of calls, and a call locks the indices of its
    keys in ascending order, works, and unlocks them.  Mutual exclusion and the absence
    of deadlock are proved for the lock map and for the shard locks of the concurrent
    dictionary, which follow the same protocol. *)

From Stdlib Require Import ZArith Lia Ascii String.
From stdpp Require Import base gmap strings numbers sorting relations list.
From S2P Require Import Prelude GoStd Dict.

Local Open Scope string_scope.
Local Open Scope list_scope.
Local Open Scope Z_scope.
Local Open Scope go_scope.

Module Lock.

(** The field [table]; the receiver is not nil. *)
Abbreviation Locks := (list RWMutex).

Definition prime32 : Z := 16777619.

Fixpoint fnv32_loop (key : string) (hash : Z) : Z :=
  match key with
  | EmptyString => hash
  | String c key' => fnv32_loop key' (Z.lxor (uint32 (hash * prime32)) (byte_val c))
  end.

Definition fnv32 (key : string) : Z := fnv32_loop key 2166136261.

Definition Make (tableSize : Z) : outcome Locks :=
  if tableSize <? 0 then Panic "makeslice: len out of range" else Ret (replicate (Z.to_nat tableSize) free_mutex).

Definition spread (locks : Locks) (hashCode : Z) : Z :=
  let tableSize := uint32 (Z.of_nat (length locks)) in
  Z.land (uint32 (tableSize - 1)) hashCode.

(** [mu := locks.table[index]; mu.Lock()], and the like. *)
Definition table_op (f : RWMutex → outcome RWMutex) (index : Z) (locks : Locks) : outcome Locks :=
  match locks !! Z.to_nat index with
  | None => Panic "index out of range"
  | Some mu => mu' ← f mu; Ret (<[Z.to_nat index := mu']> locks)
  end.

Definition Lock (locks : Locks) (key : string) : outcome Locks := table_op mu_Lock (spread locks (fnv32 key)) locks.
Definition RLock (locks : Locks) (key : string) : outcome Locks := table_op mu_RLock (spread locks (fnv32 key)) locks.
Definition UnLock (locks : Locks) (key : string) : outcome Locks := table_op mu_Unlock (spread locks (fnv32 key)) locks.
Definition RUnLock (locks : Locks) (key : string) : outcome Locks := table_op mu_RUnlock (spread locks (fnv32 key)) locks.

Definition indexSet (locks : Locks) (keys : list string) : gset Z :=
  list_to_set ((λ key, spread locks (fnv32 key)) <$> keys).

Definition toLockIndices (locks : Locks) (keys : list string) (reverse : bool) : list Z :=
  let indices := elements (indexSet locks keys) in
  if negb reverse then merge_sort Z.le indices else merge_sort Z.ge indices.

(** The loops over the indices. *)
Fixpoint table_ops (f : Z → RWMutex → outcome RWMutex) (indices : list Z) (locks : Locks) : outcome Locks :=
  match indices with
  | [] => Ret locks
  | index :: rest => locks' ← table_op (f index) index locks; table_ops f rest locks'
  end.

Definition Locks_ (locks : Locks) (keys : list string) : outcome Locks :=
  table_ops (λ _, mu_Lock) (toLockIndices locks keys false) locks.
Definition RLocks (locks : Locks) (keys : list string) : outcome Locks :=
  table_ops (λ _, mu_RLock) (toLockIndices locks keys false) locks.
Definition UnLocks (locks : Locks) (keys : list string) : outcome Locks :=
  table_ops (λ _, mu_Unlock) (toLockIndices locks keys true) locks.
Definition RUnLocks (locks : Locks) (keys : list string) : outcome Locks :=
  table_ops (λ _, mu_RUnlock) (toLockIndices locks keys true) locks.

Definition RWLocks (locks : Locks) (writeKeys readKeys : list string) : outcome Locks :=
  let writeIndexSet := indexSet locks writeKeys in
  table_ops (λ index, if bool_decide (index ∈ writeIndexSet) then mu_Lock else mu_RLock)
    (toLockIndices locks (writeKeys ++ readKeys) false) locks.

Definition RWUnLocks (locks : Locks) (writeKeys readKeys : list string) : outcome Locks :=
  let writeIndexSet := indexSet locks writeKeys in
  table_ops (λ index, if bool_decide (index ∈ writeIndexSet) then mu_Unlock else mu_RUnlock)
    (toLockIndices locks (writeKeys ++ readKeys) true) locks.

(** ** Goroutines *)

(** A call: the keys it writes and the keys it reads. *)
Abbreviation call := (list string * list string)%type.

(** [Acquire true] is [Lock], [Acquire false] is [RLock]; [Work] is what the caller does
    between locking and unlocking. *)
Inductive action := Acquire (w : bool) (index : Z) | Work (c : call) | Release (w : bool) (index : Z).

#[local] Instance action_eq_dec : EqDecision action.
Proof. solve_decision. Defined.

Definition perform (a : action) (locks : Locks) : outcome Locks :=
  match a with
  | Acquire w i => table_op (if w then mu_Lock else mu_RLock) i locks
  | Release w i => table_op (if w then mu_Unlock else mu_RUnlock) i locks
  | Work _ => Ret locks
  end.

Fixpoint run (acts : list action) (locks : Locks) : outcome Locks :=
  match acts with [] => Ret locks | a :: acts' => locks' ← perform a locks; run acts' locks' end.

(** The lock table and what every goroutine has still to do. *)
Record state := mkState { tbl : Locks; gs : list (list action) }.

Inductive step : state → state → Prop :=
  | step_perform st g a rest locks :
      gs st !! g = Some (a :: rest) → perform a (tbl st) = Ret locks →
      step st (mkState locks (<[g := rest]> (gs st))).

(** Go's mutex lets a waiting writer pass new readers: an [RLock] is sure to get through
    only when no other goroutine is about to call [Lock] on the same mutex. *)
Definition ready (st : state) (g : nat) : Prop :=
  ∃ a rest, gs st !! g = Some (a :: rest) ∧ (∃ locks, perform a (tbl st) = Ret locks) ∧
    match a with
    | Acquire false i => ∀ h rest', gs st !! h ≠ Some (Acquire true i :: rest')
    | _ => True
    end.

Definition finished (st : state) : Prop := Forall (λ rest, rest = []) (gs st).

(** What a table of [slots] mutexes promises to its callers: sorted indices without
    duplicates, unlocked in the opposite order. *)
Class Indexing := {
  slots : nat;
  index_of : string → Z;
  indices : list string → bool → list Z;
  write_indices : list string → gset Z;
  indices_sorted keys : StronglySorted Z.lt (indices keys false);
  indices_rev keys : indices keys true = rev (indices keys false);
  indices_elem keys i : i ∈ indices keys false ↔ ∃ k, k ∈ keys ∧ i = index_of k;
  write_indices_elem keys i : i ∈ write_indices keys ↔ ∃ k, k ∈ keys ∧ i = index_of k;
  index_bound key : 0 ≤ index_of key < Z.of_nat slots
}.

(** The lock operations of one call, [RWLocks], the work, [RWUnLocks], and of a goroutine
    that serves several. *)
Definition call_actions `{Indexing} (c : call) : list action :=
  let w i := bool_decide (i ∈ write_indices c.1) in
  ((λ i, Acquire (w i) i) <$> indices (c.1 ++ c.2) false) ++ [Work c] ++
  ((λ i, Release (w i) i) <$> indices (c.1 ++ c.2) true).

Definition program `{Indexing} (cs : list call) : list action := concat (call_actions <$> cs).

Definition start `{Indexing} (clients : list (list call)) : state :=
  mkState (replicate slots free_mutex) (program <$> clients).

Section theory.
Context `{Indexing}.

(** ** Shape of a goroutine *)

Abbreviation requests := (list (bool * Z)).
Implicit Types (rs : requests) (rest : list action).

Definition acq (r : bool * Z) : action := Acquire r.1 r.2.
Definition rel (r : bool * Z) : action := Release r.1 r.2.

Definition requests_of (c : call) : requests :=
  (λ i, (bool_decide (i ∈ write_indices c.1), i)) <$> indices (c.1 ++ c.2) false.

Lemma call_actions_eq c :
  call_actions c = (acq <$> requests_of c) ++ Work c :: (rel <$> rev (requests_of c)).
Proof.
  unfold call_actions, requests_of. rewrite indices_rev. rewrite <-list_fmap_compose. simpl. f_equal. f_equal.
  change (λ i, (bool_decide (i ∈ write_indices c.1), i)) with (λ i, (bool_decide (i ∈ write_indices c.1), i)).
  rewrite <-(map_rev (λ i, (bool_decide (i ∈ write_indices c.1), i))).
  change (map ?f ?l) with (f <$> l). by rewrite <-list_fmap_compose.
Qed.

(** What is left of a goroutine: it acquires the rest [rs2] of a call's requests, or it
    has the requests [rs1] left to release. *)
Inductive shape : list action → Prop :=
  | acquiring c rs1 rs2 cs : requests_of c = rs1 ++ rs2 →
      shape ((acq <$> rs2) ++ Work c :: (rel <$> rev (rs1 ++ rs2)) ++ program cs)
  | releasing rs1 cs : NoDup rs1 → Forall (λ r, 0 ≤ r.2 < Z.of_nat slots) rs1 → shape ((rel <$> rev rs1) ++ program cs).

Lemma requests_sorted c : StronglySorted (λ x y : bool * Z, x.2 < y.2) (requests_of c).
Proof.
  unfold requests_of. pose proof (indices_sorted (c.1 ++ c.2)) as Hs. induction Hs as [|i l Hs IH Hf]; simpl; constructor; [done|].
  apply Forall_fmap. eapply Forall_impl; [exact Hf|]. done.
Qed.

Lemma requests_bound c : Forall (λ r, 0 ≤ r.2 < Z.of_nat slots) (requests_of c).
Proof.
  unfold requests_of. apply Forall_fmap, Forall_forall. intros i Hi. apply indices_elem in Hi as (k & _ & ->). apply index_bound.
Qed.

Lemma requests_NoDup c : NoDup (requests_of c).
Proof.
  pose proof (requests_sorted c) as Hs. induction Hs as [|r l Hs IH Hf]; constructor; [|done].
  intros Hin. rewrite Forall_forall in Hf. specialize (Hf _ Hin). lia.
Qed.

Lemma shape_program cs : shape (program cs).
Proof. apply (releasing []); constructor. Qed.

Lemma shape_cases rest : shape rest → rest = [] ∨
  (∃ c rs1 rs2 cs, requests_of c = rs1 ++ rs2 ∧ rest = (acq <$> rs2) ++ Work c :: (rel <$> rev (rs1 ++ rs2)) ++ program cs) ∨
  (∃ rs1 r cs, NoDup (rs1 ++ [r]) ∧ Forall (λ r, 0 ≤ r.2 < Z.of_nat slots) (rs1 ++ [r]) ∧
     rest = rel r :: (rel <$> rev rs1) ++ program cs).
Proof.
  intros [c rs1 rs2 cs E|rs1 cs Hn Hb]; [naive_solver|]. destruct rs1 as [|r rs1 _] using rev_ind.
  - destruct cs as [|c cs]; [by left|]. right. left. exists c, [], (requests_of c), cs. split; [done|].
    simpl. unfold program. simpl. rewrite call_actions_eq. by rewrite <-app_assoc.
  - right. right. exists rs1, r, cs. split_and!; [done..|]. by rewrite rev_app_distr.
Qed.

(** Every step keeps the shape. *)
Lemma shape_step a rest : shape (a :: rest) → shape rest.
Proof.
  intros Hs. apply shape_cases in Hs as [?|[(c & rs1 & rs2 & cs & E & Eq)|(rs1 & r & cs & Hn & Hb & Eq)]]; [done|..].
  - destruct rs2 as [|r rs2].
    + injection Eq as -> ->. rewrite app_nil_r in *. apply releasing; [rewrite <-E; apply requests_NoDup|rewrite <-E; apply requests_bound].
    + injection Eq as -> ->. replace (rs1 ++ r :: rs2) with ((rs1 ++ [r]) ++ rs2) in * by by rewrite <-app_assoc.
      by apply acquiring.
  - injection Eq as -> ->. apply NoDup_app in Hn as (? & _). apply Forall_app in Hb as [? _]. by apply releasing.
Qed.

(** ** Counting the holders *)

(** How often the goroutine holds the mutex [i] in mode [w]: it will release it more
    often than it will acquire it. *)
Fixpoint holds (w : bool) (i : Z) rest : Z :=
  match rest with
  | [] => 0
  | Acquire w' i' :: rest' => holds w i rest' - (if bool_decide (w' = w ∧ i' = i) then 1 else 0)
  | Release w' i' :: rest' => holds w i rest' + (if bool_decide (w' = w ∧ i' = i) then 1 else 0)
  | Work _ :: rest' => holds w i rest'
  end.

Fixpoint holders (w : bool) (i : Z) (l : list (list action)) : Z :=
  match l with [] => 0 | rest :: l' => holds w i rest + holders w i l' end.

(** Membership as a number. *)
Fixpoint occ (w : bool) (i : Z) rs : Z :=
  match rs with [] => 0 | r :: rs' => occ w i rs' + (if bool_decide (r.1 = w ∧ r.2 = i) then 1 else 0) end.

Lemma occ_app w i rs1 rs2 : occ w i (rs1 ++ rs2) = occ w i rs1 + occ w i rs2.
Proof. induction rs1; simpl; lia. Qed.

Lemma occ_rev w i rs : occ w i (rev rs) = occ w i rs.
Proof. induction rs; simpl; [done|]. rewrite occ_app. simpl. lia. Qed.

Lemma occ_nonneg w i rs : 0 ≤ occ w i rs.
Proof. induction rs; simpl; [done|]. case_bool_decide; lia. Qed.

Lemma occ_in w i rs : (w, i) ∈ rs → 1 ≤ occ w i rs.
Proof.
  intros Hin. apply list_elem_of_split in Hin as (l1 & l2 & ->). rewrite occ_app. simpl.
  rewrite bool_decide_eq_true_2 by done. pose proof (occ_nonneg w i l1). pose proof (occ_nonneg w i l2). lia.
Qed.

Lemma occ_fresh w i rs : Forall (λ r, r.2 ≠ i) rs → occ w i rs = 0.
Proof. induction 1; simpl; [done|]. rewrite bool_decide_eq_false_2 by naive_solver. lia. Qed.

Lemma holds_app w i r1 r2 : holds w i (r1 ++ r2) = holds w i r1 + holds w i r2.
Proof. induction r1 as [|[]]; simpl; lia. Qed.

Lemma holds_acq w i rs : holds w i (acq <$> rs) = - occ w i rs.
Proof. induction rs as [|r rs IH]; [done|]. rewrite fmap_cons. cbn [holds acq occ]. rewrite IH. lia. Qed.

Lemma holds_rel w i rs : holds w i (rel <$> rs) = occ w i rs.
Proof. induction rs as [|r rs IH]; [done|]. rewrite fmap_cons. cbn [holds rel occ]. rewrite IH. lia. Qed.

Lemma holds_program w i cs : holds w i (program cs) = 0.
Proof.
  induction cs as [|c cs IH]; [done|]. change (program (c :: cs)) with (call_actions c ++ program cs).
  rewrite holds_app, IH, call_actions_eq, holds_app. cbn [holds]. rewrite holds_acq, holds_rel, occ_rev. lia.
Qed.

Lemma holds_acquiring w i rs1 rs2 c cs :
  holds w i ((acq <$> rs2) ++ Work c :: (rel <$> rev (rs1 ++ rs2)) ++ program cs) = occ w i rs1.
Proof. rewrite holds_app. simpl. rewrite holds_app, holds_acq, holds_rel, occ_rev, occ_app, holds_program. lia. Qed.

Lemma holds_releasing w i rs cs : holds w i ((rel <$> rev rs) ++ program cs) = occ w i rs.
Proof. rewrite holds_app, holds_rel, occ_rev, holds_program. lia. Qed.

Lemma holds_nonneg w i rest : shape rest → 0 ≤ holds w i rest.
Proof. intros [c rs1 rs2 cs E|rs1 cs Hn Hb]; [rewrite holds_acquiring|rewrite holds_releasing]; apply occ_nonneg. Qed.

Lemma holders_nonneg w i l : Forall shape l → 0 ≤ holders w i l.
Proof. induction 1 as [|rest l Hs _ IH]; simpl; [done|]. pose proof (holds_nonneg w i rest Hs). lia. Qed.

Lemma holders_insert w i l (g : nat) rest rest' : l !! g = Some rest →
  holders w i (<[g := rest']> l) = holders w i l - holds w i rest + holds w i rest'.
Proof.
  revert g. induction l as [|r l IH]; intros [|g] Hg; simpl in *; try done; [injection Hg as ->; lia|]. rewrite (IH g Hg). lia.
Qed.

Lemma holders_ge w i l (g : nat) rest : Forall shape l → l !! g = Some rest → holds w i rest ≤ holders w i l.
Proof.
  intros Hl. revert g. induction Hl as [|r l Hs Hl IH]; intros [|g] Hg; simpl in *; try done.
  - injection Hg as ->. pose proof (holders_nonneg w i l Hl). lia.
  - pose proof (holds_nonneg w i r Hs). specialize (IH g Hg). lia.
Qed.

Lemma holders_ge2 w i l (g h : nat) r1 r2 : Forall shape l → g ≠ h → l !! g = Some r1 → l !! h = Some r2 →
  holds w i r1 + holds w i r2 ≤ holders w i l.
Proof.
  intros Hl. revert g h. induction Hl as [|r l Hs Hl IH]; intros [|g] [|h] Hne Hg Hh; simpl in *; try done.
  - injection Hg as ->. pose proof (holders_ge w i l h r2 Hl Hh). lia.
  - injection Hh as ->. pose proof (holders_ge w i l g r1 Hl Hg). lia.
  - pose proof (holds_nonneg w i r Hs). specialize (IH g h ltac:(congruence) Hg Hh). lia.
Qed.

(** ** The invariant *)

(** The mutex says who holds it: at most one writer, and then no reader. *)
Definition tally (mu : RWMutex) (writers reads : Z) : Prop :=
  Z.b2z (writer mu) = writers ∧ Z.of_nat (readers mu) = reads ∧ (writer mu = true → readers mu = 0%nat).

Definition agrees (mu : RWMutex) (i : Z) (l : list (list action)) : Prop :=
  tally mu (holders true i l) (holders false i l).

Lemma acquire_tally (w : bool) mu mu' nw nr : (if w then mu_Lock else mu_RLock) mu = Ret mu' → tally mu nw nr →
  tally mu' (nw + Z.b2z w) (nr + Z.b2z (negb w)).
Proof.
  unfold tally, mu_Lock, mu_RLock. intros Hm (<- & <- & Hx). destruct w, (writer mu), (readers mu) as [|k]; try done;
    injection Hm as <-; simpl; split_and!; try lia; done.
Qed.

Lemma release_tally (w : bool) mu mu' nw nr : (if w then mu_Unlock else mu_RUnlock) mu = Ret mu' → tally mu nw nr →
  tally mu' (nw - Z.b2z w) (nr - Z.b2z (negb w)).
Proof.
  unfold tally, mu_Unlock, mu_RUnlock. intros Hm (<- & <- & Hx). destruct w, (writer mu) eqn:Ew, (readers mu) as [|k]; try done;
    injection Hm as <-; simpl; split_and!; try lia; naive_solver.
Qed.

Lemma tally_eq mu nw nr nw' nr' : tally mu nw nr → nw = nw' → nr = nr' → tally mu nw' nr'.
Proof. by intros ? -> ->. Qed.

(** What an action adds to the count of a mutex. *)
Lemma holds_at (w w' : bool) (i : Z) : (if bool_decide (w = w' ∧ i = i) then 1 else 0) = Z.b2z (if w' then w else negb w).
Proof. destruct w, w'; case_bool_decide; simpl; naive_solver. Qed.

Record inv (st : state) : Prop := {
  inv_shape : Forall shape (gs st);
  inv_len : length (tbl st) = slots;
  inv_tbl : ∀ (i : nat) mu, tbl st !! i = Some mu → agrees mu (Z.of_nat i) (gs st)
}.

Lemma inv_start clients : inv (start clients).
Proof.
  split; simpl.
  - apply Forall_fmap, Forall_true. intros cs. apply shape_program.
  - apply length_replicate.
  - intros i mu Hi. apply lookup_replicate in Hi as [-> _].
    assert (∀ w, holders w (Z.of_nat i) (program <$> clients) = 0) as E.
    { intros w. induction clients as [|cs clients IH]; [done|]. rewrite fmap_cons. cbn [holders]. rewrite IH, holds_program. done. }
    unfold agrees. by rewrite !E.
Qed.

Lemma shape_bound a rest : shape (a :: rest) →
  match a with Acquire _ i | Release _ i => 0 ≤ i < Z.of_nat slots | Work _ => True end.
Proof.
  intros Hs. apply shape_cases in Hs as [?|[(c & rs1 & rs2 & cs & E & Eq)|(rs1 & r & cs & _ & Hb & Eq)]]; [done|..].
  - pose proof (requests_bound c) as Hb. rewrite E in Hb. apply Forall_app in Hb as [_ Hb].
    destruct rs2 as [|r rs2]; injection Eq as -> _; [done|]. by inversion Hb.
  - injection Eq as -> _. apply Forall_app in Hb as [_ Hb]. by inversion Hb.
Qed.

Lemma inv_lookup st g rest : inv st → gs st !! g = Some rest → shape rest.
Proof. intros Hi Hg. pose proof (inv_shape _ Hi) as Hs. rewrite Forall_forall in Hs. apply Hs. by eapply list_elem_of_lookup_2. Qed.

(** The mutex an action works on. *)
Lemma inv_mutex st g a rest i : inv st → gs st !! g = Some (a :: rest) →
  match a with Acquire _ j | Release _ j => j = i | Work _ => False end →
  ∃ mu, tbl st !! Z.to_nat i = Some mu ∧ agrees mu i (gs st) ∧ 0 ≤ i.
Proof.
  intros Hi Hg Ha. pose proof (shape_bound _ _ (inv_lookup _ _ _ Hi Hg)) as Hb.
  assert (0 ≤ i < Z.of_nat slots) as Hr by (destruct a; subst; done || lia).
  destruct (lookup_lt_is_Some_2 (tbl st) (Z.to_nat i)) as [mu Hmu]; [rewrite (inv_len _ Hi); lia|].
  exists mu. split; [done|]. pose proof (inv_tbl _ Hi _ _ Hmu) as Hag. rewrite Z2Nat.id in Hag by lia. split; [done|lia].
Qed.

(** Releasing a mutex the goroutine holds. *)
Lemma release_ok st g w i rest : inv st → gs st !! g = Some (Release w i :: rest) →
  ∃ locks, perform (Release w i) (tbl st) = Ret locks.
Proof.
  intros Hi Hg. destruct (inv_mutex _ _ _ _ i Hi Hg eq_refl) as (mu & Hmu & (Hw & Hr & _) & _). simpl. unfold table_op. rewrite Hmu.
  pose proof (holders_ge w i _ _ _ (inv_shape _ Hi) Hg) as Hge. cbn [holds] in Hge. rewrite bool_decide_eq_true_2 in Hge by done.
  pose proof (holds_nonneg w i rest (shape_step _ _ (inv_lookup _ _ _ Hi Hg))). destruct w; unfold mu_Unlock, mu_RUnlock.
  - destruct (writer mu); [eauto|]. simpl in Hw. lia.
  - destruct (readers mu); [simpl in Hr; lia|]. eauto.
Qed.

(** The mutexes an action does not touch. *)
Lemma agrees_other st g a rest (j : nat) mj : inv st → gs st !! g = Some (a :: rest) → tbl st !! j = Some mj →
  match a with Acquire _ i | Release _ i => i ≠ Z.of_nat j | Work _ => True end →
  agrees mj (Z.of_nat j) (<[g := rest]> (gs st)).
Proof.
  intros Hi Hg Hj Hne. eapply tally_eq; [exact (inv_tbl _ Hi _ _ Hj)|..]; rewrite (holders_insert _ _ _ _ _ _ Hg);
    destruct a; cbn [holds]; rewrite ?bool_decide_eq_false_2 by naive_solver; lia.
Qed.

Lemma inv_step st st' : inv st → step st st' → inv st'.
Proof.
  intros Hi Hst. destruct Hst as [st g a rest locks Hg Hp]. pose proof (inv_lookup _ _ _ Hi Hg) as Hsh.
  assert (Forall shape (<[g := rest]> (gs st))) as Hs by (apply Forall_insert; [apply Hi|by eapply shape_step]).
  destruct a as [w i|c|w i]; simpl in Hp.
  2: { injection Hp as <-. split; simpl; [done|apply Hi|]. intros j mu Hj. by eapply agrees_other. }
  all: destruct (inv_mutex _ _ _ _ i Hi Hg eq_refl) as (mu & Hmu & Hag & Hnn).
  all: unfold table_op in Hp; rewrite Hmu in Hp.
  all: destruct ((if w then _ else _) mu) as [mu'| |] eqn:Em; try done; injection Hp as <-.
  all: split; simpl; [done|rewrite length_insert; apply Hi|]; intros j mj Hj.
  all: destruct (decide (Z.of_nat j = i)) as [E|E]; [|rewrite list_lookup_insert_ne in Hj by lia; by eapply agrees_other].
  all: replace j with (Z.to_nat i) in Hj by lia; rewrite list_lookup_insert_eq in Hj by (by eapply lookup_lt_Some);
    injection Hj as <-; rewrite E.
  1: eapply tally_eq; [exact (acquire_tally _ _ _ _ _ Em Hag)|..].
  3: eapply tally_eq; [exact (release_tally _ _ _ _ _ Em Hag)|..].
  all: rewrite (holders_insert _ _ _ _ _ _ Hg); cbn [holds]; rewrite holds_at; lia.
Qed.

Lemma inv_reachable clients st : rtc step (start clients) st → inv st.
Proof.
  intros Hr. pose proof (inv_start clients) as Hi. induction Hr as [|st1 st2 st3 Hs _ IH]; [done|]. apply IH. by eapply inv_step.
Qed.

(** ** Mutual exclusion *)

Lemma working_holds w i c rest : shape (Work c :: rest) → (w, i) ∈ requests_of c → 1 ≤ holds w i (Work c :: rest).
Proof.
  intros Hs Hin. apply shape_cases in Hs as [?|[(c' & rs1 & rs2 & cs & E & Eq)|(rs1 & r & cs & _ & Hb & Eq)]]; [done| |done].
  rewrite Eq, holds_acquiring. destruct rs2 as [|r rs2]; [|done]. injection Eq as -> _. rewrite app_nil_r in E.
  apply occ_in. by rewrite <-E.
Qed.

Lemma request_of_key c (k : string) : k ∈ c.1 ++ c.2 →
  (bool_decide (index_of k ∈ write_indices c.1), index_of k) ∈ requests_of c.
Proof. intros Hk. unfold requests_of. apply list_elem_of_fmap. exists (index_of k). split; [done|]. apply indices_elem. eauto. Qed.

Lemma exclusion st g h c d r1 r2 (k : string) : inv st → g ≠ h →
  gs st !! g = Some (Work c :: r1) → gs st !! h = Some (Work d :: r2) → k ∈ c.1 → k ∉ d.1 ++ d.2.
Proof.
  intros Hi Hne Hg Hh Hk Hd. pose proof (request_of_key c k ltac:(apply elem_of_app; by left)) as Hc.
  rewrite bool_decide_eq_true_2 in Hc by (apply write_indices_elem; eauto). apply request_of_key in Hd.
  pose proof (inv_lookup _ _ _ Hi Hg) as Hsg. pose proof (inv_lookup _ _ _ Hi Hh) as Hsh.
  pose proof (working_holds _ _ _ _ Hsg Hc) as H1. pose proof (working_holds _ _ _ _ Hsh Hd) as H2.
  pose proof (index_bound k) as Hb.
  destruct (lookup_lt_is_Some_2 (tbl st) (Z.to_nat (index_of k))) as [mu Hmu]; [rewrite (inv_len _ Hi); lia|].
  pose proof (inv_tbl _ Hi _ _ Hmu) as (Hw & Hr & Hx). rewrite Z2Nat.id in Hw, Hr by lia.
  destruct (bool_decide _).
  - pose proof (holders_ge2 true (index_of k) _ _ _ _ _ (inv_shape _ Hi) Hne Hg Hh). destruct (writer mu); simpl in Hw; lia.
  - pose proof (holders_ge true (index_of k) _ _ _ (inv_shape _ Hi) Hg). pose proof (holders_ge false (index_of k) _ _ _ (inv_shape _ Hi) Hh).
    destruct (writer mu); simpl in Hw; [|lia]. rewrite Hx in Hr by done. simpl in Hr. lia.
Qed.

(** ** Progress *)

(** A goroutine that waits for a mutex holds none at or above it. *)
Lemma waiting_holds w i w' m rest : shape (Acquire w i :: rest) → i ≤ m → holds w' m (Acquire w i :: rest) = 0.
Proof.
  intros Hs Hm. apply shape_cases in Hs as [?|[(c & rs1 & rs2 & cs & E & Eq)|(rs1 & r & cs & _ & Hb & Eq)]]; [done| |done].
  rewrite Eq, holds_acquiring. destruct rs2 as [|r rs2]; [done|]. injection Eq as -> -> _.
  pose proof (requests_sorted c) as Hs. rewrite E in Hs. apply occ_fresh.
  clear -Hs Hm. induction rs1 as [|x rs1 IH]; [constructor|]. simpl in Hs. apply StronglySorted_inv in Hs as [Hs Hf].
  constructor; [|by apply IH]. apply Forall_app in Hf as [_ Hf]. inversion Hf. lia.
Qed.

Definition waits (rest : list action) : Prop := match rest with [] | Acquire _ _ :: _ => True | _ => False end.

#[local] Instance waits_dec rest : Decision (waits rest).
Proof. destruct rest as [|[]]; simpl; apply _. Defined.

Definition wait_index (rest : list action) : option Z := match rest with Acquire _ i :: _ => Some i | _ => None end.

(** When all goroutines wait, nobody holds the mutex with the largest index that is
    waited for. *)
Lemma top_free w m l : Forall shape l → Forall waits l → Forall (λ rest, ∀ i, wait_index rest = Some i → i ≤ m) l → holders w m l = 0.
Proof.
  intros Hs Hw Hm. induction l as [|rest l IH]; [done|]. apply Forall_cons in Hs as [Hs ?], Hw as [Hw ?], Hm as [Hm ?].
  cbn [holders]. rewrite IH by done. destruct rest as [|[w' i|c|w' i] rest]; try done.
  rewrite waiting_holds; [done..|]. by apply Hm.
Qed.

Lemma max_exists (l : list (option Z)) : Forall (λ x, x = None) l ∨ ∃ m, Some m ∈ l ∧ Forall (λ x, ∀ i, x = Some i → i ≤ m) l.
Proof.
  induction l as [|x l [IH|(m & Hin & IH)]]; [by left| |].
  - destruct x as [i|]; [|left; by constructor]. right. exists i. split; [left|]. constructor; [naive_solver lia|].
    eapply Forall_impl; [exact IH|]. naive_solver.
  - right. destruct x as [i|].
    + destruct (decide (i ≤ m)); [exists m|exists i]; split; try (by constructor); constructor; try naive_solver lia.
      eapply Forall_impl; [exact IH|]. simpl. intros y Hy j Hj. specialize (Hy j Hj). lia.
    + exists m. split; [by right|]. by constructor.
Qed.

(** The mutex with the largest index is free for everyone that waits for it; a writer
    goes first. *)
Lemma top_ready st m : inv st → Forall waits (gs st) → Some m ∈ (wait_index <$> gs st) →
  Forall (λ rest, ∀ i, wait_index rest = Some i → i ≤ m) (gs st) → ∃ g, ready st g.
Proof.
  intros Hi Hw Hin Hm. pose proof (top_free true m _ (inv_shape _ Hi) Hw Hm) as F1. pose proof (top_free false m _ (inv_shape _ Hi) Hw Hm) as F2.
  assert (∀ g w rest, gs st !! g = Some (Acquire w m :: rest) → ∃ locks, perform (Acquire w m) (tbl st) = Ret locks) as Hfree.
  { intros g w rest Hg. destruct (inv_mutex _ _ _ _ m Hi Hg eq_refl) as (mu & Hmu & (Hw1 & Hr1 & _) & _). rewrite F1, F2 in *.
    simpl. unfold table_op. rewrite Hmu. destruct mu as [[] [|k]]; simpl in *; try done. destruct w; simpl; eauto. }
  destruct (decide (Exists (λ rest, head rest = Some (Acquire true m)) (gs st))) as [He|He].
  { apply Exists_exists in He as ([|a r] & Hr & E); [done|]. injection E as ->. apply list_elem_of_lookup_1 in Hr as (g & Hg).
    exists g, (Acquire true m), r. split_and!; [done|by eapply Hfree|done]. }
  apply list_elem_of_fmap in Hin as (rest & E & Hr). apply list_elem_of_lookup_1 in Hr as (g & Hg).
  destruct rest as [|[w i|c|w i] rest]; try done. injection E as <-. exists g, (Acquire w m), rest. split; [done|]. split; [by eapply Hfree|].
  destruct w; [done|]. intros h rest' Hh. apply He, Exists_exists. eexists. split; [by eapply list_elem_of_lookup_2|done].
Qed.

Lemma progress st : inv st → finished st ∨ ∃ g, ready st g.
Proof.
  intros Hi. destruct (decide (Forall waits (gs st))) as [Hw|Hw].
  - destruct (max_exists (wait_index <$> gs st)) as [Hn|(m & Hin & Hm)].
    + left. unfold finished. apply Forall_fmap in Hn. clear Hi. induction (gs st) as [|rest l IH]; [constructor|].
      apply Forall_cons in Hw as [Hw ?], Hn as [Hn ?]. constructor; [|by apply IH]. by destruct rest as [|[]].
    + right. eapply top_ready; [done..|]. by apply Forall_fmap in Hm.
  - right. apply not_Forall_Exists in Hw; [|apply _]. apply Exists_exists in Hw as (rest & Hr & Hn).
    apply list_elem_of_lookup_1 in Hr as (g & Hg). exists g. destruct rest as [|[w i|c|w i] rest]; simpl in Hn; try tauto.
    + exists (Work c), rest. split; [done|]. split; [simpl; eauto|done].
    + exists (Release w i), rest. split; [done|]. split; [by eapply release_ok|done].
Qed.

(** Every step uses up one action. *)
Definition todo (st : state) : nat := foldr (λ rest n, length rest + n)%nat 0%nat (gs st).

Lemma step_todo st st' : step st st' → todo st = S (todo st').
Proof.
  intros [st1 g a rest locks Hg _]. unfold todo. simpl. clear -Hg. revert g Hg.
  induction (gs st1) as [|r l IH]; intros [|g] Hg; simpl in *; try done; [injection Hg as ->; simpl; lia|].
  specialize (IH g Hg). simpl in IH. lia.
Qed.

Lemma finished_free st : inv st → finished st → tbl st = replicate slots free_mutex.
Proof.
  intros Hi Hf. apply list_eq_same_length with slots; [apply length_replicate|apply Hi|].
  intros i mu mu' Hlt Hm Hm'. apply lookup_replicate in Hm' as [-> _]. pose proof (inv_tbl _ Hi _ _ Hm) as (Hw & Hr & _).
  assert (∀ w, holders w (Z.of_nat i) (gs st) = 0) as E by (intros w; unfold finished in Hf; clear Hi Hm Hw Hr; by induction Hf as [|r l -> _ IH]).
  rewrite !E in *. destruct mu as [[] []]; simpl in *; try done; lia.
Qed.

(** Every schedule can be continued to the end, and then all mutexes are free. *)
Lemma completes st : inv st → ∃ st', rtc step st st' ∧ finished st' ∧ tbl st' = replicate slots free_mutex.
Proof.
  remember (todo st) as n eqn:En. revert st En. induction n as [|n IH]; intros st En Hi.
  all: destruct (progress st Hi) as [Hf|(g & a & rest & Hg & (locks & Hp) & _)].
  1,3: exists st; split_and!; [constructor|done|by apply finished_free].
  all: pose proof (step_perform st g a rest locks Hg Hp) as Hs; pose proof (step_todo _ _ Hs) as Ht; rewrite <-En in Ht; try done.
  injection Ht as Ht. destruct (IH _ Ht (inv_step _ _ Hi Hs)) as (st' & Hr & ?). exists st'. split; [by eapply rtc_l|done].
Qed.

(** No unlock of a mutex that is not locked, no index out of range. *)
Lemma perform_no_panic st g a rest m : inv st → gs st !! g = Some (a :: rest) → perform a (tbl st) ≠ Panic m.
Proof.
  intros Hi Hg. destruct a as [w i|c|w i]; [|done|].
  - destruct (inv_mutex _ _ _ _ i Hi Hg eq_refl) as (mu & Hmu & _). simpl. unfold table_op. rewrite Hmu.
    by destruct w, mu as [[] []].
  - destruct (release_ok _ _ _ _ _ Hi Hg) as (locks & ->). done.
Qed.
End theory.

(** ** The two tables *)

#[local] Instance Zge_total : Total Z.ge.
Proof. intros x y. lia. Qed.
#[local] Instance Zge_trans : Transitive Z.ge.
Proof. intros x y z. lia. Qed.
#[local] Instance Zge_antisymm : AntiSymm (=) Z.ge.
Proof. intros x y. lia. Qed.

Lemma sorted_rev (l : list Z) : StronglySorted Z.le l → StronglySorted Z.ge (rev l).
Proof.
  induction 1 as [|x l Hs IH Hf]; simpl; [constructor|]. apply StronglySorted_app. split_and!; [|done|repeat constructor].
  intros y z Hy Hz. apply list_elem_of_singleton in Hz as ->. rewrite Forall_forall in Hf.
  rewrite <-Permutation_rev in Hy. specialize (Hf y Hy). lia.
Qed.

(** Sorting downwards is sorting upwards and reversing. *)
Lemma merge_sort_rev (l : list Z) : merge_sort Z.ge l = rev (merge_sort Z.le l).
Proof.
  apply (StronglySorted_unique Z.ge); [apply (StronglySorted_merge_sort Z.ge)|apply sorted_rev, (StronglySorted_merge_sort Z.le)|].
  rewrite merge_sort_Permutation, <-(Permutation_rev (merge_sort Z.le l)). by rewrite merge_sort_Permutation.
Qed.

Lemma merge_sort_strict (l : list Z) : NoDup l → StronglySorted Z.lt (merge_sort Z.le l).
Proof.
  intros Hn. rewrite <-(merge_sort_Permutation Z.le l) in Hn.
  pose proof (StronglySorted_merge_sort Z.le l) as Hs. induction Hs as [|x k Hs IH Hf]; [constructor|].
  apply NoDup_cons in Hn as [Hx Hn]. constructor; [by apply IH|]. apply Forall_forall. intros y Hy. rewrite Forall_forall in Hf.
  specialize (Hf y Hy). assert (x ≠ y) by (by intros ->). lia.
Qed.

Lemma lock_spread_bound (locks : Locks) h : (0 < length locks)%nat → Z.of_nat (length locks) < 4294967296 →
  0 ≤ spread locks h < Z.of_nat (length locks).
Proof.
  intros H0 H1. unfold spread, uint32. rewrite (Z.mod_small (Z.of_nat _)), Z.mod_small by lia.
  pose proof (land_le (Z.of_nat (length locks) - 1) h). lia.
Qed.

(** The lock map, as [Make] leaves it or in any later state. *)
Program Definition lockmap_indexing (locks : Locks) (H0 : (0 < length locks)%nat) (H1 : Z.of_nat (length locks) < 4294967296) : Indexing := {|
  slots := length locks;
  index_of k := spread locks (fnv32 k);
  indices := toLockIndices locks;
  write_indices := indexSet locks
|}.
Next Obligation. intros. apply merge_sort_strict, NoDup_elements. Qed.
Next Obligation. intros. apply merge_sort_rev. Qed.
Next Obligation.
  intros. unfold toLockIndices. simpl. rewrite merge_sort_Permutation, elem_of_elements. unfold indexSet.
  rewrite elem_of_list_to_set, list_elem_of_fmap. naive_solver.
Qed.
Next Obligation. intros. unfold indexSet. rewrite elem_of_list_to_set, list_elem_of_fmap. naive_solver. Qed.
Next Obligation. intros. by apply lock_spread_bound. Qed.

(** The shard locks of the concurrent dictionary. *)
Program Definition shard_indexing {V} (d : ConcurrentDict V) (Hd : cd_shape d) : Indexing := {|
  slots := length (table d);
  index_of := Concurrent.spread d;
  indices := Concurrent.toLockIndices d;
  write_indices := Concurrent.writeIndexSet d
|}.
Next Obligation. intros. apply toLockIndices_sorted. Qed.
Next Obligation. intros. apply merge_sort_rev. Qed.
Next Obligation. intros. apply elem_of_toLockIndices. Qed.
Next Obligation. intros. unfold Concurrent.writeIndexSet. rewrite elem_of_list_to_set, list_elem_of_fmap. naive_solver. Qed.
Next Obligation. intros V d Hd k. destruct (wf_size d Hd). by apply Dict.spread_bound. Qed.

(** One goroutine alone: the methods are the runs of their actions. *)
Lemma table_ops_run (f : Z → bool) (lock : bool) idx locks :
  table_ops (λ i, if f i then if lock then mu_Lock else mu_Unlock else if lock then mu_RLock else mu_RUnlock) idx locks =
  run ((λ i, if lock then Acquire (f i) i else Release (f i) i) <$> idx) locks.
Proof.
  revert locks. induction idx as [|i idx IH]; intros locks; [done|]. rewrite fmap_cons. cbn [table_ops run].
  assert (table_op (if f i then if lock then mu_Lock else mu_Unlock else if lock then mu_RLock else mu_RUnlock) i locks =
    perform (if lock then Acquire (f i) i else Release (f i) i) locks) as -> by (by destruct lock, (f i)).
  destruct (perform _ locks); [|done..]. apply IH.
Qed.

Lemma run_app a b locks : run (a ++ b) locks = locks' ← run a locks; run b locks'.
Proof. revert locks. induction a as [|x a IH]; intros locks; [done|]. simpl. destruct (perform x locks); [apply IH|done..]. Qed.

Lemma same_indices (l1 l2 : Locks) : length l1 = length l2 → toLockIndices l1 = toLockIndices l2 ∧ indexSet l1 = indexSet l2.
Proof. intros E. unfold toLockIndices, indexSet, spread. by rewrite E. Qed.

Lemma run_length acts locks locks' : run acts locks = Ret locks' → length locks' = length locks.
Proof.
  revert locks. induction acts as [|a acts IH]; intros locks Hr; simpl in Hr; [by injection Hr as <-|].
  destruct (perform a locks) as [l1| |] eqn:E; try done. simpl in Hr. rewrite (IH _ Hr).
  destruct a as [w i|c|w i]; simpl in E; [|by injection E as <-|]; unfold table_op in E;
    destruct (locks !! _); try done; destruct ((if w then _ else _) _); try done; injection E as <-; apply length_insert.
Qed.

Lemma call_run (locks : Locks) H0 H1 (c : call) :
  run (call_actions (H := lockmap_indexing locks H0 H1) c) locks =
  locks' ← RWLocks locks c.1 c.2; RWUnLocks locks' c.1 c.2.
Proof.
  unfold call_actions. simpl. rewrite run_app. unfold RWLocks.
  rewrite (table_ops_run (λ i, bool_decide (i ∈ indexSet locks c.1)) true).
  destruct (run _ locks) as [l1| |] eqn:E; try done. cbn [mbind outcome_bind run perform]. apply run_length in E.
  destruct (same_indices l1 locks E) as [E1 E2]. unfold RWUnLocks. rewrite E1, E2.
  by rewrite (table_ops_run (λ i, bool_decide (i ∈ indexSet locks c.1)) false).
Qed.

(** A goroutine alone runs its actions in order. *)
Lemma single_run acts locks st : rtc step (mkState locks [acts]) st → finished st → run acts locks = Ret (tbl st).
Proof.
  remember (mkState locks [acts]) as s0 eqn:E. intros Hr. revert acts locks E.
  induction Hr as [s0|s0 s1 s2 Hs _ IH]; intros acts locks -> Hf.
  - apply Forall_singleton in Hf as ->. done.
  - inversion Hs as [? g a rest locks' Hg Hp]; subst. destruct g as [|g]; [|done]. injection Hg as ->. simpl in *.
    rewrite Hp. simpl. by apply IH.
Qed.

Lemma table_ops_ext f g idx locks : (∀ i, i ∈ idx → f i = g i) → table_ops f idx locks = table_ops g idx locks.
Proof.
  revert locks. induction idx as [|i idx IH]; intros locks Hi; [done|]. simpl. rewrite Hi by left.
  destruct (table_op _ _ _); [|done..]. apply IH. intros j Hj. apply Hi. by right.
Qed.

Lemma toLockIndices_in locks keys r i : i ∈ toLockIndices locks keys r ↔ i ∈ indexSet locks keys.
Proof. unfold toLockIndices. destruct r; simpl; by rewrite merge_sort_Permutation, elem_of_elements. Qed.

(** Locking for writing is locking with no read keys. *)
Lemma Locks_RWLocks locks keys : Locks_ locks keys = RWLocks locks keys [].
Proof.
  unfold Locks_, RWLocks. rewrite app_nil_r. apply table_ops_ext. intros i Hi. apply toLockIndices_in in Hi.
  by rewrite bool_decide_eq_true_2.
Qed.

Lemma UnLocks_RWUnLocks locks keys : UnLocks locks keys = RWUnLocks locks keys [].
Proof.
  unfold UnLocks, RWUnLocks. rewrite app_nil_r. apply table_ops_ext. intros i Hi. apply toLockIndices_in in Hi.
  by rewrite bool_decide_eq_true_2.
Qed.

Lemma Lock_Locks locks key : Lock locks key = Locks_ locks [key].
Proof.
  unfold Lock, Locks_, toLockIndices, indexSet. simpl. rewrite union_empty_r_L, elements_singleton. simpl. by destruct (table_op _ _ _).
Qed.

Lemma UnLock_UnLocks locks key : UnLock locks key = UnLocks locks [key].
Proof.
  unfold UnLock, UnLocks, toLockIndices, indexSet. simpl. rewrite union_empty_r_L, elements_singleton. simpl. by destruct (table_op _ _ _).
Qed.

(** A caller alone: the locks are free, it gets them, and unlocking frees them. *)
Lemma RWLocks_free n wks rks : (0 < n)%nat → Z.of_nat n < 4294967296 →
  ∃ l, RWLocks (replicate n free_mutex) wks rks = Ret l ∧ RWUnLocks l wks rks = Ret (replicate n free_mutex).
Proof.
  intros H0 H1. set (locks := replicate n free_mutex).
  assert (length locks = n) as E by apply length_replicate.
  assert (0 < length locks)%nat as H0' by lia. assert (Z.of_nat (length locks) < 4294967296) as H1' by lia.
  pose proof (call_run locks H0' H1' (wks, rks)) as Hc.
  destruct (completes (start (H := lockmap_indexing locks H0' H1') [[(wks, rks)]]) (inv_start _)) as (st & Hr & Hf & Ht).
  unfold start in Hr. cbn [slots lockmap_indexing] in Hr, Ht. rewrite E in Hr, Ht.
  apply single_run in Hr; [|done]. unfold program in Hr. simpl concat in Hr. rewrite app_nil_r in Hr.
  fold locks in Hr, Ht. rewrite Hr, Ht in Hc. simpl in Hc. destruct (RWLocks locks wks rks) as [l| |]; try done. by exists l.
Qed.

Lemma Locks_free n keys : (0 < n)%nat → Z.of_nat n < 4294967296 →
  ∃ l, Locks_ (replicate n free_mutex) keys = Ret l ∧ UnLocks l keys = Ret (replicate n free_mutex).
Proof.
  intros H0 H1. destruct (RWLocks_free n keys [] H0 H1) as (l & E1 & E2). exists l.
  by rewrite Locks_RWLocks, UnLocks_RWUnLocks.
Qed.

(** ** Theorems *)

(** [C28] Mutual exclusion of the lock map: whatever calls any number of goroutines make and
    however their lock operations interleave, while one of them works on a key that it
    locked for writing no other one works with the key among its write or read keys, and no
    goroutine ever unlocks a mutex that is not locked or leaves the table. *)
Theorem lockmap_exclusive (locks : Locks) (H0 : (0 < length locks)%nat) (H1 : Z.of_nat (length locks) < 4294967296)
    (clients : list (list call)) (st : state) :
  rtc step (start (H := lockmap_indexing locks H0 H1) clients) st →
  (∀ g h c d r1 r2 k, g ≠ h → gs st !! g = Some (Work c :: r1) → gs st !! h = Some (Work d :: r2) →
     k ∈ c.1 → k ∉ d.1 ++ d.2) ∧
  (∀ g a rest m, gs st !! g = Some (a :: rest) → perform a (tbl st) ≠ Panic m).
Proof.
  intros Hr. apply inv_reachable in Hr as Hi. split.
  - intros g h c d r1 r2 k. exact (exclusion st g h c d r1 r2 k Hi).
  - intros g a rest m. exact (perform_no_panic st g a rest m Hi).
Qed.

(** [C27] The shard locks of a dictionary never deadlock: with any number of goroutines, each
    serving any sequence of commands with any write and read keys, and in every state
    that some interleaving of their lock operations reaches, either all of them are done
    and all mutexes are free, or one can go on, even though Go lets a waiting writer pass
    new readers; the commands can always be brought to an end, and no schedule takes more
    steps than there are lock operations. *)
Theorem shard_locks_no_deadlock {V} (d : ConcurrentDict V) (Hd : cd_shape d) (clients : list (list call)) (n : nat) (st : state) :
  nsteps step n (start (H := shard_indexing d Hd) clients) st →
  ((finished st ∧ tbl st = replicate (length (table d)) free_mutex) ∨ ∃ g, ready st g) ∧
  (∃ st', rtc step st st' ∧ finished st' ∧ tbl st' = replicate (length (table d)) free_mutex) ∧
  (n + todo st = todo (start (H := shard_indexing d Hd) clients))%nat.
Proof.
  intros Hn. assert (rtc step (start (H := shard_indexing d Hd) clients) st) as Hr by (apply rtc_nsteps; eauto). apply inv_reachable in Hr as Hi. split_and!.
  - destruct (progress st Hi) as [Hf|Hp]; [left|by right]. split; [done|]. exact (finished_free st Hi Hf).
  - exact (completes st Hi).
  - clear -Hn. induction Hn as [|n x y z Hs _ IH]; [done|]. apply step_todo in Hs. lia.
Qed.

Definition demo_locks : Locks := replicate 16 free_mutex.
Definition demo_clients : list (list call) := [[(["a"], ["b"])]; [(["c"], ["b"]); (["a"], [])]].

(** Both goroutines of the example work at the same time, reading one key together. *)
Lemma demo_reaches H0 H1 : ∃ st r1 r2,
  rtc step (start (H := lockmap_indexing demo_locks H0 H1) demo_clients) st ∧
  gs st !! 0%nat = Some (Work (["a"], ["b"]) :: r1) ∧ gs st !! 1%nat = Some (Work (["c"], ["b"]) :: r2).
Proof.
  do 3 eexists. split.
  - eapply rtc_l; [eapply (step_perform _ 0); [reflexivity|vm_compute; reflexivity]|].
    eapply rtc_l; [eapply (step_perform _ 1); [reflexivity|vm_compute; reflexivity]|].
    eapply rtc_l; [eapply (step_perform _ 0); [reflexivity|vm_compute; reflexivity]|].
    eapply rtc_l; [eapply (step_perform _ 1); [reflexivity|vm_compute; reflexivity]|]. apply rtc_refl.
  - split; reflexivity.
Qed.

Lemma lockmap_exclusive_witness : "a" ∉ ["c"] ++ ["b"].
Proof.
  assert (0 < length demo_locks)%nat as H0 by (simpl; lia).
  assert (Z.of_nat (length demo_locks) < 4294967296) as H1 by (simpl; lia).
  destruct (demo_reaches H0 H1) as (st & r1 & r2 & Hr & E1 & E2).
  refine (proj1 (lockmap_exclusive demo_locks H0 H1 demo_clients st Hr) 0%nat 1%nat _ _ r1 r2 "a" _ E1 E2 _); [done|left].
Defined.

Lemma shard_locks_no_deadlock_witness :
  let d := Concurrent.MakeConcurrent (V := unit) 1 in
  ∃ st' : state, tbl st' = replicate (length (table d)) free_mutex ∧ finished st'.
Proof.
  assert (cd_shape (Concurrent.MakeConcurrent (V := unit) 1)) as Hd by (by apply MakeConcurrent_wf).
  destruct (proj1 (proj2 (shard_locks_no_deadlock _ Hd demo_clients 0 _ (nsteps_O _ _)))) as (st' & _ & Hf & Ht). by exists st'.
Defined.
End Lock.
