(* ===== verification/RaftFSM.v ===== *)
(** * cluster/raft: the route table of the cluster

    The nodes of a cluster agree on a log of events through the raft library; every node
    applies the committed entries to its [FSM], which says which node hosts which slot and
    which node replicates which.  [Apply] gets an entry as the library hands it over, after
    [json.Unmarshal]; an entry that does not decode makes it panic.

    [Node2Slot] holds slices.  [append] on a prefix of a slice writes into the array the
    slice points at when its capacity allows it, and [EventFinishFailover] walks over a
    slice whose array is changed under it, so arrays are objects of a heap here and a slice
    is a pointer with a length; all slices of this code start at the beginning of their
    array.  The records of [MasterSlaves] are values: no claim below depends on sharing them.
    The mutex is taken for the whole of every method, so methods do not interleave. *)

From Stdlib Require Import ZArith Lia String.
From stdpp Require Import base gmap strings numbers sorting list.
From S2P Require Import Prelude GoStd.

Local Open Scope string_scope.
Local Open Scope list_scope.
Local Open Scope go_scope.

Module Raft.

Record Slice := mkSlice { ptr : option nat; len : nat }.

Definition nil_slice : Slice := mkSlice None 0.

Record MasterSlave := mkMasterSlave { MasterId : string; Slaves : list string }.

(** In a [LogEntry], and in [Migratings] with its slots in the heap. *)
Record MigratingTask (slots : Type) := mkTask {
  ID : string;
  SrcNode : string;
  TargetNode : string;
  Slots : slots
}.
Arguments mkTask {slots}.
Arguments ID {slots}.
Arguments SrcNode {slots}.
Arguments TargetNode {slots}.
Arguments Slots {slots}.

Record InitTask := mkInit { Leader : string; SlotCount : Z }.
Record FailoverTask := mkFailover { FailoverID : string; OldMasterId : string; NewMasterId : string }.
Record JoinTask := mkJoin { NodeId : string; Master : string }.

Definition EventStartMigrate : Z := 1.
Definition EventFinishMigrate : Z := 2.
Definition EventSeedStart : Z := 3.
Definition EventFinishFailover : Z := 4.
Definition EventJoin : Z := 5.

(** A pointer that is absent from the JSON is nil. *)
Record LogEntry := mkEntry {
  Event : Z;
  entry_MigratingTask : option (MigratingTask (list Z));
  entry_InitTask : option InitTask;
  entry_FailoverTask : option FailoverTask;
  entry_JoinTask : option JoinTask
}.

Record FSM := mkFSM {
  arrays : list (list Z);
  Node2Slot : gmap string Slice;
  Slot2Node : gmap Z string;
  Migratings : gmap string (MigratingTask Slice);
  MasterSlaves : gmap string MasterSlave;
  SlaveMasters : gmap string string;
  Failovers : gmap string FailoverTask
}.

Definition new_FSM : FSM := mkFSM [] ∅ ∅ ∅ ∅ ∅ ∅.

Definition set_arrays (f : FSM) (x : list (list Z)) : FSM :=
  mkFSM x (Node2Slot f) (Slot2Node f) (Migratings f) (MasterSlaves f) (SlaveMasters f) (Failovers f).
Definition set_Node2Slot (f : FSM) (x : gmap string Slice) : FSM :=
  mkFSM (arrays f) x (Slot2Node f) (Migratings f) (MasterSlaves f) (SlaveMasters f) (Failovers f).
Definition set_Slot2Node (f : FSM) (x : gmap Z string) : FSM :=
  mkFSM (arrays f) (Node2Slot f) x (Migratings f) (MasterSlaves f) (SlaveMasters f) (Failovers f).
Definition set_Migratings (f : FSM) (x : gmap string (MigratingTask Slice)) : FSM :=
  mkFSM (arrays f) (Node2Slot f) (Slot2Node f) x (MasterSlaves f) (SlaveMasters f) (Failovers f).
Definition set_MasterSlaves (f : FSM) (x : gmap string MasterSlave) : FSM :=
  mkFSM (arrays f) (Node2Slot f) (Slot2Node f) (Migratings f) x (SlaveMasters f) (Failovers f).
Definition set_SlaveMasters (f : FSM) (x : gmap string string) : FSM :=
  mkFSM (arrays f) (Node2Slot f) (Slot2Node f) (Migratings f) (MasterSlaves f) x (Failovers f).
Definition set_Failovers (f : FSM) (x : gmap string FailoverTask) : FSM :=
  mkFSM (arrays f) (Node2Slot f) (Slot2Node f) (Migratings f) (MasterSlaves f) (SlaveMasters f) x.

(** ** Slices *)

Definition array_of (f : FSM) (s : Slice) : list Z :=
  match ptr s with Some p => default [] (arrays f !! p) | None => [] end.

Definition read (f : FSM) (s : Slice) : list Z := take (len s) (array_of f s).

(** A new array that holds [xs]. *)
Definition alloc (xs : list Z) : GoM FSM Slice := λ f,
  (Ret (mkSlice (Some (length (arrays f))) (length xs)), set_arrays f (arrays f ++ [xs])).

Section runtime.
Context `{GoRuntime}.

(** [append(s, xs...)]: in place when the array is large enough, else in a new array. *)
Definition append_ (s : Slice) (xs : list Z) : GoM FSM Slice := λ f,
  let a := array_of f s in
  let n := (len s + length xs)%nat in
  if (n <=? length a)%nat
  then (Ret (mkSlice (ptr s) n),
        match ptr s with
        | Some p => set_arrays f (<[p := take (len s) a ++ xs ++ drop n a]> (arrays f))
        | None => f
        end)
  else
    let cap := append_cap (length a) n in
    (Ret (mkSlice (Some (length (arrays f))) n),
     set_arrays f (arrays f ++ [take (len s) a ++ xs ++ replicate (cap - n) 0%Z])).

(** [s[:i]], for [i] within the length. *)
Definition prefix (s : Slice) (i : nat) : Slice := mkSlice (ptr s) i.

(** [for _, v := range s { body(v) }]: the length is taken once, an element when its turn
    comes. *)
Fixpoint range (n i : nat) (s : Slice) (body : Z → GoM FSM unit) : GoM FSM unit :=
  match n with
  | O => mret tt
  | S n' =>
      v ← (λ f, match array_of f s !! i with Some v => (Ret v, f) | None => (Panic "index out of range", f) end);
      _ ← body v;
      range n' (S i) s body
  end.

Definition for_range (s : Slice) (body : Z → GoM FSM unit) : GoM FSM unit := range (len s) 0 s body.

(** [sort.Search(n, pred)]. *)
Fixpoint search (fuel i j : nat) (pred : nat → bool) : nat :=
  match fuel with
  | O => i
  | S fuel' =>
      if (i <? j)%nat then
        let h := Nat.div2 (i + j) in
        if negb (pred h) then search fuel' (S h) j pred else search fuel' i h pred
      else i
  end.

Definition Search (n : nat) (pred : nat → bool) : nat := search (S n) 0 n pred.

(** ** fsm_utils.go *)

Definition PickNode (f : FSM) (slot : Z) : string := default "" (Slot2Node f !! slot).

Definition GetMigratingTask (f : FSM) (taskId : string) : option (MigratingTask Slice) := Migratings f !! taskId.

Definition GetMaster (f : FSM) (id : string) : string := default "" (SlaveMasters f !! id).

Definition node_slice (f : FSM) (nodeID : string) : Slice := default nil_slice (Node2Slot f !! nodeID).

(** The index where the slot is, or belongs. *)
Definition slot_index (f : FSM) (nodeID : string) (slotId : Z) : nat :=
  let l := read f (node_slice f nodeID) in
  Search (length l) (λ i, (default 0 (l !! i) >=? slotId)%Z).

Definition set_node_slice (nodeID : string) (s : Slice) : GoM FSM unit :=
  go_modify (λ f, set_Node2Slot f (<[nodeID := s]> (Node2Slot f))).

Definition add_slot (nodeID : string) (slotId : Z) : GoM FSM unit :=
  f ← go_get id;
  let s := node_slice f nodeID in
  let l := read f s in
  let index := slot_index f nodeID slotId in
  _ ← (if bool_decide (l !! index = Some slotId) then mret tt
       else s' ← append_ (prefix s index) (slotId :: drop index l); set_node_slice nodeID s');
  go_modify (λ f, set_Slot2Node f (<[slotId := nodeID]> (Slot2Node f))).

Definition addSlots (nodeID : string) (slots : Slice) : GoM FSM unit := for_range slots (add_slot nodeID).

(** [for index < len && Node2Slot[nodeID][index] == slotId]: every turn shortens the slice. *)
Fixpoint remove_loop (fuel : nat) (nodeID : string) (index : nat) (slotId : Z) : GoM FSM unit :=
  match fuel with
  | O => λ f, (Block, f)
  | S fuel' =>
      f ← go_get id;
      let s := node_slice f nodeID in
      let l := read f s in
      if bool_decide (l !! index = Some slotId) then
        s' ← append_ (prefix s index) (drop (S index) l);
        _ ← set_node_slice nodeID s';
        remove_loop fuel' nodeID index slotId
      else mret tt
  end.

Definition remove_slot (nodeID : string) (slotId : Z) : GoM FSM unit :=
  f ← go_get id;
  let index := slot_index f nodeID slotId in
  _ ← remove_loop (S (len (node_slice f nodeID))) nodeID index slotId;
  go_modify (λ f, if bool_decide (Slot2Node f !! slotId = Some nodeID)
                  then set_Slot2Node f (delete slotId (Slot2Node f)) else f).

Definition removeSlots (nodeID : string) (slots : Slice) : GoM FSM unit := for_range slots (remove_slot nodeID).

Definition nil_deref : string := "invalid memory address or nil pointer dereference".

Definition failover (oldMasterId newMasterId : string) : GoM FSM unit := λ f,
  match MasterSlaves f !! oldMasterId with
  | None => (Panic nil_deref, f)
  | Some ms =>
      let others := filter (λ s, s ≠ newMasterId) (Slaves ms) in
      let sm := foldl (λ m s, <[s := newMasterId]> m) (SlaveMasters f) others in
      let sm := delete newMasterId (<[oldMasterId := newMasterId]> sm) in
      let mss := <[newMasterId := mkMasterSlave newMasterId (others ++ [oldMasterId])]> (delete oldMasterId (MasterSlaves f)) in
      (Ret tt, set_MasterSlaves (set_SlaveMasters f sm) mss)
  end.

(** The result is the error, nil for none. *)
Definition addNode (id masterId : string) : GoM FSM (option string) := λ f,
  if String.eqb masterId "" then
    (Ret None, set_MasterSlaves f (<[id := mkMasterSlave id []]> (MasterSlaves f)))
  else
    match MasterSlaves f !! masterId with
    | None => (Ret (Some "master not found"), f)
    | Some master =>
        let f1 := if bool_decide (id ∈ Slaves master) then f
                  else set_MasterSlaves f
                         (<[masterId := mkMasterSlave (MasterId master) (Slaves master ++ [id])]> (MasterSlaves f)) in
        (Ret None, set_SlaveMasters f1 (<[id := masterId]> (SlaveMasters f1)))
    end.

(** ** fsm.go *)

(** The slots [0 .. n-1] of the first node; [uint32(i)]. *)
Definition seed_slots (n : nat) : list Z := (λ i, uint32 (Z.of_nat i)) <$> seq 0 n.

Definition decode_task (t : MigratingTask (list Z)) : GoM FSM (MigratingTask Slice) :=
  s ← alloc (Slots t); mret (mkTask (ID t) (SrcNode t) (TargetNode t) s).

Definition need {A} (o : option A) : GoM FSM A :=
  match o with Some a => mret a | None => go_panic nil_deref end.

Definition start_migrate (task : MigratingTask Slice) : GoM FSM unit :=
  go_modify (λ f, set_Migratings f (<[ID task := task]> (Migratings f))).

Definition finish_migrate (task : MigratingTask Slice) : GoM FSM unit :=
  _ ← go_modify (λ f, set_Migratings f (delete (ID task) (Migratings f)));
  _ ← addSlots (TargetNode task) (Slots task);
  removeSlots (SrcNode task) (Slots task).

Definition seed_start (t : InitTask) : GoM FSM unit :=
  _ ← go_lift (make_slice 4 (SlotCount t));
  let slots := seed_slots (Z.to_nat (SlotCount t)) in
  _ ← go_modify (λ f, set_Slot2Node f (foldl (λ m i, <[i := Leader t]> m) (Slot2Node f) slots));
  s ← alloc slots;
  _ ← set_node_slice (Leader t) s;
  _ ← addNode (Leader t) "";
  mret tt.

Definition finish_failover (t : FailoverTask) : GoM FSM unit :=
  _ ← failover (OldMasterId t) (NewMasterId t);
  f ← go_get id;
  let slots := node_slice f (OldMasterId t) in
  _ ← addSlots (NewMasterId t) slots;
  _ ← removeSlots (OldMasterId t) slots;
  go_modify (λ f, set_Failovers f (delete (FailoverID t) (Failovers f))).

(** The field [changed] is never set, so no callback follows. *)
Definition Apply (log : option LogEntry) : GoM FSM unit :=
  match log with
  | None => go_panic "json: cannot unmarshal"
  | Some entry =>
      (* the arrays of the entry are made by the decoder, whatever the event *)
      task ← match entry_MigratingTask entry with
             | None => mret None
             | Some t => t' ← decode_task t; mret (Some t')
             end;
      if (Event entry =? EventStartMigrate)%Z then t ← need task; start_migrate t
      else if (Event entry =? EventFinishMigrate)%Z then t ← need task; finish_migrate t
      else if (Event entry =? EventSeedStart)%Z then t ← need (entry_InitTask entry); seed_start t
      else if (Event entry =? EventFinishFailover)%Z then t ← need (entry_FailoverTask entry); finish_failover t
      else if (Event entry =? EventJoin)%Z then t ← need (entry_JoinTask entry); _ ← addNode (NodeId t) (Master t); mret tt
      else mret tt
  end.

(** ** Snapshots *)

Record FSMSnapshot := mkSnapshot {
  snap_Slot2Node : gmap Z string;
  snap_Migratings : gmap string (MigratingTask (list Z));
  snap_MasterSlaves : gmap string MasterSlave
}.

(** What [Snapshot] and [Persist] write, with no event between them. *)
Definition Snapshot (f : FSM) : FSMSnapshot :=
  mkSnapshot (Slot2Node f)
    ((λ t, mkTask (ID t) (SrcNode t) (TargetNode t) (read f (Slots t))) <$> Migratings f)
    (MasterSlaves f).

(** The tasks of a snapshot, decoded into new arrays. *)
Fixpoint decode_tasks (l : list (string * MigratingTask (list Z))) (m : gmap string (MigratingTask Slice)) :
  GoM FSM (gmap string (MigratingTask Slice)) :=
  match l with
  | [] => mret m
  | (id, t) :: l' => t' ← decode_task t; decode_tasks l' (<[id := t']> m)
  end.

(** [for slot, node := range snapshot.Slot2Node], in the order [l] of the iteration. *)
Fixpoint restore_slots (l : list (Z * string)) : GoM FSM unit :=
  match l with
  | [] => mret tt
  | (slot, node) :: l' =>
      f ← go_get id;
      s ← append_ (node_slice f node) [slot];
      _ ← set_node_slice node s;
      restore_slots l'
  end.

Definition restore_masters (l : list (string * MasterSlave)) (sm : gmap string string) : gmap string string :=
  foldl (λ acc '(master, ms), foldl (λ acc s, <[s := master]> acc) acc (Slaves ms)) sm l.

(** [order] and [morder] are the orders in which Go walks over the slots and the masters. *)
Definition Restore (order : list (Z * string)) (morder : list (string * MasterSlave)) (snapshot : option FSMSnapshot) : GoM FSM (option string) :=
  match snapshot with
  | None => mret (Some "json: cannot unmarshal")
  | Some sn =>
      migr ← decode_tasks (map_to_list (snap_Migratings sn)) ∅;
      _ ← go_modify (λ f, mkFSM (arrays f) ∅ (snap_Slot2Node sn) migr (snap_MasterSlaves sn) (SlaveMasters f) (Failovers f));
      _ ← restore_slots order;
      _ ← go_modify (λ f, set_SlaveMasters f (restore_masters morder (SlaveMasters f)));
      mret None
  end.

(** ** raft.go: the watcher *)

(** A node's watcher; [called] lists the masters handed to [onFailover]. *)
Record watcher := mkWatcher { currentMaster : string; onFailover : bool; called : list string }.

Definition watch (self : string) (f : FSM) (w : watcher) : watcher :=
  let newMaster := GetMaster f self in
  if String.eqb newMaster (currentMaster w) then w
  else mkWatcher newMaster (onFailover w) (if onFailover w then called w ++ [newMaster] else called w).

Definition SetOnFailover (self : string) (f : FSM) (w : watcher) : watcher :=
  mkWatcher (GetMaster f self) true (called w).

Definition GetSlaves (f : FSM) (id : string) : option MasterSlave := MasterSlaves f !! id.

(** ** Binary search *)

Lemma Search_spec (pred : nat → bool) fuel i j n :
  (∀ a b, (a ≤ b < n)%nat → pred a = true → pred b = true) →
  (i ≤ j ≤ n)%nat → (j - i < fuel)%nat →
  (∀ a, (a < i)%nat → pred a = false) → (∀ a, (j ≤ a < n)%nat → pred a = true) →
  let r := search fuel i j pred in
  (r ≤ n)%nat ∧ (∀ a, (a < r)%nat → pred a = false) ∧ (∀ a, (r ≤ a < n)%nat → pred a = true).
Proof.
  intros Hm. revert i j. induction fuel as [|fuel IH]; intros i j Hij Hf Hl Hr; [lia|]. cbn [search].
  destruct (Nat.ltb_spec i j) as [Hlt|Hge].
  - set (h := Nat.div2 (i + j)). assert (i ≤ h < j)%nat as Hh.
    { unfold h. rewrite Nat.div2_div. split; [apply Nat.div_le_lower_bound|apply Nat.Div0.div_lt_upper_bound]; lia. }
    destruct (pred h) eqn:Eh; cbn [negb]; apply IH; try lia; try done.
    + intros a Ha. apply (Hm h); [lia|done].
    + intros a Ha. destruct (pred a) eqn:Ea; [|done]. assert (pred h = true) as E by (apply (Hm a); [lia|done]). congruence.
  - cbv zeta. split_and!; [lia|done|]. intros a Ha. apply Hr. lia.
Qed.

Lemma sorted_lookup (l : list Z) a b u v :
  StronglySorted Z.lt l → (a < b)%nat → l !! a = Some u → l !! b = Some v → (u < v)%Z.
Proof.
  intros Hs Hab Hu Hv. rewrite <-(take_drop b l) in Hs. apply (StronglySorted_app_1_elem_of Z.lt _ _ u v Hs).
  - apply list_elem_of_lookup. exists a. by apply lookup_take_Some.
  - apply list_elem_of_lookup. exists 0%nat. by rewrite lookup_drop, Nat.add_0_r.
Qed.

(** Where a sorted list holds a slot, or would. *)
Lemma Search_sorted (l : list Z) (x : Z) : StronglySorted Z.lt l →
  let k := Search (length l) (λ i, (default 0 (l !! i) >=? x)%Z) in
  (k ≤ length l)%nat ∧ (∀ y, y ∈ take k l → (y < x)%Z) ∧ (∀ y, y ∈ drop k l → (x ≤ y)%Z).
Proof.
  intros Hs. unfold Search.
  destruct (Search_spec (λ i, (default 0 (l !! i) >=? x)%Z) (S (length l)) 0 (length l) (length l)) as (H1 & H2 & H3);
    [|lia|lia|lia|lia|].
  { intros a b Hab Ha. destruct (lookup_lt_is_Some_2 l a) as [u Hu]; [lia|]. destruct (lookup_lt_is_Some_2 l b) as [v Hv]; [lia|].
    rewrite Hu in Ha. rewrite Hv. simpl in *. rewrite Z.geb_leb in *. apply Z.leb_le in Ha. apply Z.leb_le.
    destruct (decide (a = b)) as [->|Hne]; [simplify_eq; lia|].
    assert (u < v)%Z; [|lia]. apply (sorted_lookup l a b); auto; lia. }
  cbv zeta. set (k := search _ _ _ _) in *. split_and!; [done| |].
  - intros y Hy. apply list_elem_of_lookup in Hy as [i Hi]. apply lookup_take_Some in Hi as [Hi Hk].
    specialize (H2 i Hk). rewrite Hi in H2. simpl in H2. rewrite Z.geb_leb in H2. apply Z.leb_gt in H2. lia.
  - intros y Hy. apply list_elem_of_lookup in Hy as [i Hi]. rewrite lookup_drop in Hi.
    specialize (H3 (k + i)%nat). rewrite Hi in H3. apply lookup_lt_Some in Hi. simpl in H3. rewrite Z.geb_leb in H3.
    apply Z.leb_le. apply H3. lia.
Qed.

(** ** The heap *)

Definition contents (f : FSM) (node : string) : list Z := read f (node_slice f node).

Definition slice_ok (f : FSM) (s : Slice) : Prop :=
  match ptr s with
  | Some p => ∃ a, arrays f !! p = Some a ∧ (len s ≤ length a)%nat
  | None => len s = 0%nat
  end.

(** Slices lie in their arrays; no two nodes share an array. *)
Record heap_ok (f : FSM) : Prop := {
  heap_slices : ∀ node, slice_ok f (node_slice f node);
  heap_apart : ∀ n1 n2 p, n1 ≠ n2 → ptr (node_slice f n1) = Some p → ptr (node_slice f n2) ≠ Some p
}.

(** What changing the slots of [node] leaves alone. *)
Record moved (node : string) (f f' : FSM) : Prop := {
  mv_ok : heap_ok f';
  mv_arrays : ∀ p, ptr (node_slice f node) ≠ Some p → (p < length (arrays f))%nat → arrays f' !! p = arrays f !! p;
  mv_ptr : ptr (node_slice f' node) = ptr (node_slice f node) ∨
           ∃ q, ptr (node_slice f' node) = Some q ∧ (length (arrays f) ≤ q)%nat;
  mv_length : (length (arrays f) ≤ length (arrays f'))%nat;
  mv_others : ∀ n, n ≠ node → node_slice f' n = node_slice f n;
  mv_rest : (Migratings f', MasterSlaves f', SlaveMasters f', Failovers f') =
            (Migratings f, MasterSlaves f, SlaveMasters f, Failovers f)
}.

Lemma slice_ok_bound f s p : slice_ok f s → ptr s = Some p → (p < length (arrays f))%nat.
Proof. unfold slice_ok. intros Hs E. rewrite E in Hs. destruct Hs as (a & Ha & _). by eapply lookup_lt_Some. Qed.

Lemma moved_refl node f : heap_ok f → moved node f f.
Proof. intros Hf. split; try done; by left. Qed.

Lemma moved_trans node f g h : moved node f g → moved node g h → moved node f h.
Proof.
  intros [A1 A2 A3 A4 A5 A6] [B1 B2 B3 B4 B5 B6]. split; [done| | |lia| |congruence].
  - intros p Hp Hl. rewrite B2; [by apply A2| |lia]. destruct A3 as [->|(q & -> & Hq)]; [done|].
    intros E. simplify_eq. lia.
  - destruct B3 as [->|(q & -> & Hq)]; [done|]. right. exists q. split; [done|lia].
  - intros n Hn. by rewrite B5, A5.
Qed.

(** The arrays that are not [node]'s read the same. *)
Lemma moved_array node f f' s : moved node f f' → slice_ok f s → ptr s ≠ ptr (node_slice f node) ∨ ptr s = None →
  array_of f' s = array_of f s.
Proof.
  intros Hm Hs Hp. unfold array_of, slice_ok in *. destruct (ptr s) as [p|] eqn:E; [|done].
  destruct Hs as (a & Ha & _). rewrite (mv_arrays _ _ _ Hm p); [done| |by eapply lookup_lt_Some].
  destruct Hp; [congruence|done].
Qed.

Lemma contents_others node f f' n : heap_ok f → moved node f f' → n ≠ node → contents f' n = contents f n.
Proof.
  intros Hf Hm Hn. unfold contents, read. rewrite (mv_others _ _ _ Hm n Hn). f_equal.
  apply (moved_array node); [done|apply Hf|]. destruct (ptr (node_slice f n)) as [p|] eqn:E; [left|by right].
  intros E2. by eapply (heap_apart f Hf n node p).
Qed.

Lemma length_read f s : slice_ok f s → length (read f s) = len s.
Proof.
  intros Hs. unfold read, array_of, slice_ok in *. rewrite length_take. destruct (ptr s) as [p|].
  - destruct Hs as (a & -> & Hl). simpl. lia.
  - simpl. lia.
Qed.

Definition put_slice (node : string) (s : Slice) (f : FSM) : FSM := set_Node2Slot f (<[node := s]> (Node2Slot f)).

Lemma put_slice_eq node s f : node_slice (put_slice node s f) node = s.
Proof. unfold node_slice, put_slice. simpl. by rewrite lookup_insert_eq. Qed.

Lemma put_slice_ne node s f n : n ≠ node → node_slice (put_slice node s f) n = node_slice f n.
Proof. intros Hn. unfold node_slice, put_slice. simpl. by rewrite lookup_insert_ne. Qed.

(** A new slice for [node], in its own array or in a new one. *)
Lemma moved_intro node f l s' : heap_ok f →
  let f' := put_slice node s' (set_arrays f l) in
  slice_ok f' s' →
  (ptr s' = ptr (node_slice f node) ∨ ∃ q, ptr s' = Some q ∧ (length (arrays f) ≤ q)%nat) →
  (∀ p, ptr (node_slice f node) ≠ Some p → (p < length (arrays f))%nat → l !! p = arrays f !! p) →
  (length (arrays f) ≤ length l)%nat → moved node f f'.
Proof.
  intros Hf f' Hs Hp Hl Hn.
  assert (node_slice f' node = s') as En by apply put_slice_eq.
  assert (∀ n, n ≠ node → node_slice f' n = node_slice f n) as Ho by (intros n Hne; exact (put_slice_ne node s' (set_arrays f l) n Hne)).
  assert (∀ n q, n ≠ node → ptr (node_slice f n) = Some q → ptr s' ≠ Some q) as Ha.
  { intros n q Hne Hq E. destruct Hp as [Hp|(q' & Hp & Hq')].
    - rewrite Hp in E. by eapply (heap_apart f Hf n node q).
    - pose proof (slice_ok_bound f _ _ (heap_slices f Hf n) Hq). simplify_eq. lia. }
  split; [|done|by rewrite En|done|done|done]. split.
  - intros n. destruct (decide (n = node)) as [->|Hne]; [by rewrite En|]. rewrite Ho by done.
    pose proof (heap_slices f Hf n) as Hsn. unfold slice_ok in *. destruct (ptr (node_slice f n)) as [q|] eqn:Eq; [|done].
    destruct Hsn as (b & Hb & Hbl). exists b. split; [|done]. unfold f'. simpl. rewrite Hl; [done| |by eapply lookup_lt_Some].
    intros E. by eapply (heap_apart f Hf n node q).
  - intros n1 n2 q Hne. destruct (decide (n1 = node)) as [->|H1], (decide (n2 = node)) as [->|H2]; [done|..].
    + rewrite En, Ho by done. intros E1 E2. by eapply Ha.
    + rewrite En, Ho by done. intros E1 E2. by eapply Ha.
    + rewrite !Ho by done. by apply heap_apart.
Qed.

(** [Node2Slot[node] = append(Node2Slot[node][:i], xs...)]. *)
Lemma append_run node i xs f : heap_ok f → (i ≤ len (node_slice f node))%nat →
  ∃ f', (s' ← append_ (prefix (node_slice f node) i) xs; set_node_slice node s') f = (Ret tt, f') ∧
    moved node f f' ∧ contents f' node = take i (contents f node) ++ xs ∧ Slot2Node f' = Slot2Node f ∧
    let a := array_of f (node_slice f node) in
    ((i + length xs ≤ length a)%nat → ptr (node_slice f' node) = ptr (node_slice f node) ∧
       array_of f' (node_slice f node) = take i a ++ xs ++ drop (i + length xs) a).
Proof.
  intros Hf Hi. pose proof (heap_slices f Hf node) as Hs. unfold mbind, gom_bind, append_, set_node_slice, go_modify.
  set (s := node_slice f node) in *. cbn [prefix len ptr]. change (array_of f (prefix s i)) with (array_of f s).
  set (a := array_of f s). set (n := (i + length xs)%nat).
  assert (len s ≤ length a)%nat as Hl.
  { unfold a, slice_ok, array_of in *. destruct (ptr s); [destruct Hs as (b & -> & ?); done|simpl; lia]. }
  assert (take i (contents f node) = take i a) as ->.
  { unfold contents, read. fold s a. rewrite take_take. f_equal. lia. }
  assert (∀ r, take n (take i a ++ xs ++ r) = take i a ++ xs) as Et.
  { intros r. rewrite app_assoc, take_app_le by (rewrite length_app, length_take; lia).
    apply take_ge. rewrite length_app, length_take. lia. }
  destruct (Nat.leb_spec n (length a)) as [Hle|Hgt]; [destruct (ptr s) as [p|] eqn:Ep|].
  - assert (arrays f !! p = Some a) as Ha.
    { unfold slice_ok in Hs. rewrite Ep in Hs. destruct Hs as (b & Hb & _). unfold a, array_of. by rewrite Ep, Hb. }
    eexists. split; [reflexivity|]. apply lookup_lt_Some in Ha as Hlt. split_and!; [|..|done|].
    + apply (moved_intro node f (<[p:=_]> (arrays f)) (mkSlice (Some p) n)); [done|..].
      * unfold slice_ok. simpl. rewrite list_lookup_insert_eq by done. eexists. split; [done|].
        rewrite !length_app, length_take, length_drop. lia.
      * left. by fold s.
      * intros q Hq _. apply list_lookup_insert_ne. fold s in Hq. congruence.
      * by rewrite length_insert.
    + unfold contents. setoid_rewrite put_slice_eq. unfold read, array_of. simpl. rewrite list_lookup_insert_eq by done. apply Et.
    + intros _. setoid_rewrite put_slice_eq. split; [done|]. unfold array_of at 1. rewrite Ep. simpl. by rewrite list_lookup_insert_eq.
  - unfold a, array_of in Hle. rewrite Ep in Hle. simpl in Hle. assert (n = 0%nat) as E0 by lia.
    eexists. split; [reflexivity|]. split_and!; [|..|done|].
    + apply (moved_intro node f (arrays f) (mkSlice None n)); [done..| |done|done]. left. by fold s.
    + unfold contents. setoid_rewrite put_slice_eq. unfold a, read, array_of. rewrite Ep. simpl. rewrite !take_nil.
      unfold n in E0. destruct xs; [done|simpl in E0; lia].
    + intros _. setoid_rewrite put_slice_eq. split; [done|]. unfold a, n in *. unfold array_of. rewrite Ep. simpl.
      destruct xs; [by rewrite take_nil, drop_nil|simpl in E0; lia].
  - eexists. split; [reflexivity|]. split_and!; [|..|done|lia].
    + apply (moved_intro node f (arrays f ++ [_]) (mkSlice (Some (length (arrays f))) n)); [done|..].
      * unfold slice_ok. simpl. rewrite lookup_app_r, Nat.sub_diag by done. eexists. split; [done|].
        rewrite !length_app, length_take. lia.
      * right. by exists (length (arrays f)).
      * intros q _ Hq. by apply lookup_app_l.
      * rewrite length_app. lia.
    + unfold contents. setoid_rewrite put_slice_eq. unfold read, array_of. simpl. rewrite lookup_app_r, Nat.sub_diag by done. apply Et.
Qed.

(** ** Adding and removing a slot *)

Definition ascending (f : FSM) (node : string) : Prop := StronglySorted Z.lt (contents f node).

Lemma moved_routes node f f' m : moved node f f' → moved node f (set_Slot2Node f' m).
Proof. intros [[H1 H2] ? ? ? ? ?]. by split. Qed.

Lemma contents_routes f m node : contents (set_Slot2Node f m) node = contents f node.
Proof. done. Qed.

Lemma sorted_middle (l : list Z) k x : StronglySorted Z.lt l →
  (∀ y, y ∈ take k l → (y < x)%Z) → (∀ y, y ∈ drop k l → (x < y)%Z) → StronglySorted Z.lt (take k l ++ x :: drop k l).
Proof.
  intros Hs H1 H2. rewrite <-(take_drop k l) in Hs. apply StronglySorted_app in Hs as (Ha & Hb & Hc).
  apply StronglySorted_app. split_and!; [|done|].
  - intros y z Hy Hz. apply elem_of_cons in Hz as [->|Hz]; [by apply H1|by apply Ha].
  - constructor; [done|]. apply Forall_forall. intros z Hz. by apply H2.
Qed.

(** Where the loops look. *)
Lemma slot_index_spec f node x : ascending f node →
  let k := slot_index f node x in let l := contents f node in
  (k ≤ length l)%nat ∧ (∀ y, y ∈ take k l → (y < x)%Z) ∧
  (if bool_decide (l !! k = Some x)
   then ∀ y, y ∈ drop (S k) l → (x < y)%Z
   else (∀ y, y ∈ drop k l → (x < y)%Z)).
Proof.
  intros Hs. destruct (Search_sorted (contents f node) x Hs) as (H1 & H2 & H3). fold (slot_index f node x) in *.
  split_and!; [done|done|]. case_bool_decide as E.
  - intros y Hy. apply list_elem_of_lookup in Hy as [i Hi]. rewrite lookup_drop in Hi.
    eapply (sorted_lookup (contents f node) (slot_index f node x)); [done| |done|done]. lia.
  - intros y Hy. apply list_elem_of_lookup in Hy as [i Hi]. rewrite lookup_drop in Hi.
    assert (x ≤ y)%Z by (apply H3; apply list_elem_of_lookup; exists i; by rewrite lookup_drop).
    destruct (decide (x = y)) as [<-|]; [|lia]. exfalso. destruct i; [by rewrite Nat.add_0_r in Hi|].
    destruct (lookup_lt_is_Some_2 (contents f node) (slot_index f node x)) as [z Hz]; [apply lookup_lt_Some in Hi; lia|].
    assert (x ≤ z)%Z by (apply H3; apply list_elem_of_lookup; exists 0%nat; by rewrite lookup_drop, Nat.add_0_r).
    assert (z < x)%Z; [|lia]. eapply sorted_lookup; [done| |done|done]. lia.
Qed.

Lemma add_slot_run node x f : heap_ok f → ascending f node →
  ∃ f', add_slot node x f = (Ret tt, f') ∧ moved node f f' ∧ ascending f' node ∧
    (∀ y, y ∈ contents f' node ↔ y = x ∨ y ∈ contents f node) ∧ Slot2Node f' = <[x := node]> (Slot2Node f).
Proof.
  intros Hf Hs. destruct (slot_index_spec f node x Hs) as (H1 & H2 & H3). unfold add_slot.
  erewrite bind_Ret by reflexivity. unfold id. cbn zeta. fold (contents f node).
  destruct (bool_decide (contents f node !! slot_index f node x = Some x)) eqn:E.
  - erewrite bind_Ret by reflexivity. eexists. split; [reflexivity|]. split_and!; [by apply moved_routes, moved_refl|done| |done].
    intros y. rewrite contents_routes. split; [by right|]. intros [->|]; [|done].
    apply bool_decide_eq_true_1 in E. by eapply list_elem_of_lookup_2.
  - destruct (append_run node (slot_index f node x) (x :: drop (slot_index f node x) (contents f node)) f Hf)
      as (f' & Er & Hm & Hc & Hr & _).
    { rewrite <-(length_read f); [done|apply Hf]. }
    rewrite (bind_Ret _ _ _ _ _ Er). eexists. split; [reflexivity|]. split_and!; [by apply moved_routes| | |simpl; by rewrite Hr].
    + unfold ascending. rewrite contents_routes, Hc. by apply sorted_middle.
    + intros y. rewrite contents_routes, Hc. rewrite <-(take_drop (slot_index f node x) (contents f node)) at 3. set_solver.
Qed.

Lemma remove_loop_run node x f : heap_ok f → ascending f node →
  ∃ g, remove_loop (S (len (node_slice f node))) node (slot_index f node x) x f = (Ret tt, g) ∧ moved node f g ∧
    contents g node = filter (λ y, y ≠ x) (contents f node) ∧ Slot2Node g = Slot2Node f ∧
    ptr (node_slice g node) = ptr (node_slice f node) ∧
    array_of g (node_slice f node) =
      let a := array_of f (node_slice f node) in let n := len (node_slice f node) in
      let k := slot_index f node x in
      if bool_decide (contents f node !! k = Some x) then take k a ++ drop (S k) (take n a) ++ drop (n - 1) a else a.
Proof.
  intros Hf Hs. destruct (slot_index_spec f node x Hs) as (H1 & H2 & H3).
  set (k := slot_index f node x) in *. set (n := len (node_slice f node)). cbn [remove_loop].
  erewrite bind_Ret by reflexivity. unfold id. cbn zeta. fold (contents f node).
  assert (length (contents f node) = n) as Hl by (apply length_read, Hf).
  destruct (bool_decide (contents f node !! k = Some x)) eqn:E.
  - apply bool_decide_eq_true_1 in E. apply lookup_lt_Some in E as Hk.
    destruct (append_run node k (drop (S k) (contents f node)) f Hf) as (g & Er & Hm & Hc & Hr & Ha); [fold n; lia|].
    assert (n ≤ length (array_of f (node_slice f node)))%nat as Hn by (unfold contents, read in Hl; rewrite length_take in Hl; lia).
    destruct Ha as [Hp Ha]; [rewrite length_drop, Hl; lia|]. exists g.
    assert (take k (contents f node) ++ drop (S k) (contents f node) = filter (λ y, y ≠ x) (contents f node)) as Ef.
    { rewrite <-(take_drop_middle _ _ _ E) at 3. rewrite filter_app, filter_cons_False by naive_solver.
      rewrite !filter_all; [done| |]; apply Forall_forall; intros y Hy; [apply H3 in Hy|apply H2 in Hy]; lia. }
    split; [|split_and!; [done|by rewrite Hc|done|done|]].
    + unfold mbind, gom_bind in Er |- *. destruct (append_ _ _ f) as [[s'| |] f1]; [|done..]. injection Er as <-.
      unfold set_node_slice, go_modify in *. destruct n as [|n']; [lia|]. cbn [remove_loop]. unfold mbind, gom_bind, go_get, id.
      rewrite bool_decide_eq_false_2; [done|]. fold (put_slice node s' f1) in Hc |- *. fold (contents (put_slice node s' f1) node).
      rewrite Hc, Ef. intros Hx%list_elem_of_lookup_2. by apply list_elem_of_filter in Hx as [? _].
    + rewrite Ha. cbv zeta. rewrite length_drop, Hl. unfold contents, read. fold n. do 3 f_equal. lia.
  - exists f. split_and!; [done|by apply moved_refl| |done..].
    rewrite filter_all; [done|]. apply Forall_forall. intros y Hy. rewrite <-(take_drop k (contents f node)) in Hy.
    apply elem_of_app in Hy as [Hy|Hy]; [apply H2 in Hy|apply H3 in Hy]; lia.
Qed.

Lemma remove_slot_run node x f : heap_ok f → ascending f node →
  ∃ f', remove_slot node x f = (Ret tt, f') ∧ moved node f f' ∧
    contents f' node = filter (λ y, y ≠ x) (contents f node) ∧
    Slot2Node f' = (if bool_decide (Slot2Node f !! x = Some node) then delete x (Slot2Node f) else Slot2Node f) ∧
    ptr (node_slice f' node) = ptr (node_slice f node) ∧
    array_of f' (node_slice f node) =
      let a := array_of f (node_slice f node) in let n := len (node_slice f node) in
      let k := slot_index f node x in
      if bool_decide (contents f node !! k = Some x) then take k a ++ drop (S k) (take n a) ++ drop (n - 1) a else a.
Proof.
  intros Hf Hs. destruct (remove_loop_run node x f Hf Hs) as (g & Er & Hm & Hc & Hr & Hp & Ha).
  unfold remove_slot. erewrite bind_Ret by reflexivity. unfold id. cbn zeta. rewrite (bind_Ret _ _ _ _ _ Er).
  eexists. split; [reflexivity|]. rewrite Hr.
  destruct (bool_decide (Slot2Node f !! x = Some node)); [|done]. split_and!; try done. by apply moved_routes.
Qed.

(** ** Loops over slots *)

(** The slots lie in an array of their own. *)
Definition apart (f : FSM) (node : string) (t : Slice) : Prop :=
  slice_ok f t ∧ (ptr t = None ∨ ptr t ≠ ptr (node_slice f node)).

Lemma apart_array f f' node t : apart f node t → moved node f f' → array_of f' t = array_of f t.
Proof. intros [Hs Ht] Hm. apply (moved_array node); [done|done|]. destruct Ht; auto. Qed.

Lemma for_range_frozen node t body (J : list Z → FSM → Prop) f :
  heap_ok f → apart f node t → J [] f →
  (∀ pre x g, moved node f g → J pre g → ∃ g', body x g = (Ret tt, g') ∧ moved node g g' ∧ J (pre ++ [x]) g') →
  ∃ f', for_range t body f = (Ret tt, f') ∧ moved node f f' ∧ J (read f t) f'.
Proof.
  intros Hf Ht HJ Hb. unfold for_range.
  assert (∀ n i g, (i + n = len t)%nat → moved node f g → J (take i (array_of f t)) g →
    ∃ f', range n i t body g = (Ret tt, f') ∧ moved node f f' ∧ J (read f t) f') as Hloop; [|].
  { intros n. induction n as [|n IH]; intros i g Hi Hm HJg; cbn [range].
    - exists g. split_and!; [done|done|]. unfold read. by replace (len t) with i by lia.
    - destruct (lookup_lt_is_Some_2 (array_of f t) i) as [x Hx].
      { destruct Ht as [Hs _]. pose proof (length_read f t Hs) as Hl. unfold read in Hl. rewrite length_take in Hl. lia. }
      erewrite bind_Ret by (rewrite (apart_array f g node t Ht Hm), Hx; reflexivity).
      destruct (Hb (take i (array_of f t)) x g Hm HJg) as (g' & Eb & Hm' & HJ'). rewrite (bind_Ret _ _ _ _ _ Eb).
      apply IH; [lia|by eapply moved_trans|]. by rewrite (take_S_r _ _ _ Hx). }
  apply Hloop; [done|by apply moved_refl|done].
Qed.

Lemma moved_heap node f g : moved node f g → heap_ok g.
Proof. intros Hm. apply Hm. Qed.

Lemma addSlots_run node t f : heap_ok f → ascending f node → apart f node t →
  ∃ f', addSlots node t f = (Ret tt, f') ∧ moved node f f' ∧ ascending f' node ∧
    (∀ y, y ∈ contents f' node ↔ y ∈ read f t ∨ y ∈ contents f node) ∧
    Slot2Node f' = foldl (λ m x, <[x := node]> m) (Slot2Node f) (read f t).
Proof.
  intros Hf Hs Ht. apply (for_range_frozen node t (add_slot node) (λ pre g, ascending g node ∧
    (∀ y, y ∈ contents g node ↔ y ∈ pre ∨ y ∈ contents f node) ∧
    Slot2Node g = foldl (λ m x, <[x := node]> m) (Slot2Node f) pre) f Hf Ht).
  { split_and!; [done|set_solver|done]. }
  intros pre x g Hm (Ha & Hc & Hr). destruct (add_slot_run node x g (moved_heap _ _ _ Hm) Ha) as (g' & E & Hm' & Ha' & Hc' & Hr').
  exists g'. split_and!; [done..| |].
  - intros y. rewrite Hc', Hc. set_solver.
  - by rewrite Hr', Hr, foldl_app.
Qed.

Lemma filter_sorted (P : Z → Prop) `{∀ x, Decision (P x)} (l : list Z) : StronglySorted Z.lt l → StronglySorted Z.lt (filter P l).
Proof.
  induction 1 as [|x l Hs IH Hx]; [constructor|]. rewrite filter_cons. case_decide; [|done]. constructor; [done|].
  apply Forall_forall. intros y Hy. apply list_elem_of_filter in Hy as [_ Hy]. by eapply Forall_forall in Hx.
Qed.

(** What [removeSlots] does to the routes. *)
Definition drop_route (node : string) (m : gmap Z string) (x : Z) : gmap Z string :=
  if bool_decide (m !! x = Some node) then delete x m else m.

Lemma removeSlots_run node t f : heap_ok f → ascending f node → apart f node t →
  ∃ f', removeSlots node t f = (Ret tt, f') ∧ moved node f f' ∧
    contents f' node = filter (λ y, y ∉ read f t) (contents f node) ∧
    Slot2Node f' = foldl (drop_route node) (Slot2Node f) (read f t).
Proof.
  intros Hf Hs Ht. destruct (for_range_frozen node t (remove_slot node) (λ pre g, ascending g node ∧
    contents g node = filter (λ y, y ∉ pre) (contents f node) ∧
    Slot2Node g = foldl (drop_route node) (Slot2Node f) pre) f Hf Ht) as (f' & E & Hm & _ & Hc & Hr); [| |by exists f'].
  { split_and!; [done| |done]. rewrite filter_all; [done|]. apply Forall_forall. set_solver. }
  intros pre x g Hm (Ha & Hc & Hr). destruct (remove_slot_run node x g (moved_heap _ _ _ Hm) Ha) as (g' & E & Hm' & Hc' & Hr' & _).
  exists g'. split_and!; [done..| | |].
  - unfold ascending. rewrite Hc'. by apply filter_sorted.
  - rewrite Hc', Hc, list_filter_filter. apply list_filter_iff. intros y. set_solver.
  - rewrite Hr', Hr, foldl_app. done.
Qed.

(** ** The specification

    A route table without slices: who hosts which slot, and the migrations that run. *)

Record Routes := mkRoutes { r_slot : gmap Z string; r_tasks : gmap string (MigratingTask (list Z)) }.

Definition assign (slots : list Z) (node : string) (m : gmap Z string) : gmap Z string :=
  foldl (λ m x, <[x := node]> m) m slots.

Definition spec_event (e : LogEntry) (r : Routes) : Routes :=
  match entry_MigratingTask e, entry_InitTask e with
  | Some t, _ =>
      if (Event e =? EventStartMigrate)%Z then mkRoutes (r_slot r) (<[ID t := t]> (r_tasks r))
      else if (Event e =? EventFinishMigrate)%Z then mkRoutes (assign (Slots t) (TargetNode t) (r_slot r)) (delete (ID t) (r_tasks r))
      else r
  | None, Some t =>
      if (Event e =? EventSeedStart)%Z then mkRoutes (assign (seqZ 0 (SlotCount t)) (Leader t) (r_slot r)) (r_tasks r) else r
  | None, None => r
  end.

(** The entries the cluster proposes: a seed starts an empty table; a migration ends with
    slots its source hosts, at another node. *)
Definition valid_event (e : LogEntry) (r : Routes) : Prop :=
  match entry_MigratingTask e, entry_InitTask e, entry_FailoverTask e, entry_JoinTask e with
  | Some t, None, None, None =>
      Event e = EventStartMigrate ∨
      Event e = EventFinishMigrate ∧ SrcNode t ≠ TargetNode t ∧ Forall (λ x, r_slot r !! x = Some (SrcNode t)) (Slots t)
  | None, Some t, None, None => Event e = EventSeedStart ∧ r_slot r = ∅ ∧ (0 ≤ SlotCount t ≤ 4294967296)%Z
  | None, None, None, Some _ => Event e = EventJoin
  | _, _, _, _ => False
  end.

Fixpoint valid_log (log : list LogEntry) (r : Routes) : Prop :=
  match log with
  | [] => True
  | e :: log' => valid_event e r ∧ valid_log log' (spec_event e r)
  end.

Definition spec_log (log : list LogEntry) (r : Routes) : Routes := foldl (λ r e, spec_event e r) r log.

Fixpoint apply_log (log : list LogEntry) : GoM FSM unit :=
  match log with [] => mret tt | e :: log' => _ ← Apply (Some e); apply_log log' end.

Definition read_task (f : FSM) (t : MigratingTask Slice) : MigratingTask (list Z) :=
  mkTask (ID t) (SrcNode t) (TargetNode t) (read f (Slots t)).

Definition task_ok (f : FSM) (t : MigratingTask Slice) : Prop := ∀ node, apart f node (Slots t).

(** The two tables agree and every node's slots are in ascending order; the slots of a
    running migration are its own copy. *)
Record fsm_ok (f : FSM) : Prop := {
  ok_heap : heap_ok f;
  ok_ascending : ∀ node, ascending f node;
  ok_routes : ∀ x node, Slot2Node f !! x = Some node ↔ x ∈ contents f node;
  ok_tasks : ∀ id t, Migratings f !! id = Some t → task_ok f t
}.

Definition represents (f : FSM) (r : Routes) : Prop :=
  fsm_ok f ∧ Slot2Node f = r_slot r ∧ read_task f <$> Migratings f = r_tasks r.

Lemma lookup_assign slots node m x : assign slots node m !! x = if decide (x ∈ slots) then Some node else m !! x.
Proof.
  revert m. induction slots as [|y slots IH]; intros m; cbn [assign foldl]; [by rewrite decide_False by set_solver|].
  fold (assign slots node (<[y := node]> m)). rewrite IH. destruct (decide (x ∈ slots)) as [|Hx]; [by rewrite decide_True by set_solver|].
  destruct (decide (x = y)) as [->|Hne]; [by rewrite lookup_insert_eq, decide_True by set_solver|].
  by rewrite lookup_insert_ne, decide_False by set_solver.
Qed.

Lemma drop_routes_id node m slots : (∀ x, x ∈ slots → m !! x ≠ Some node) → foldl (drop_route node) m slots = m.
Proof.
  revert m. induction slots as [|y slots IH]; intros m Hx; [done|]. cbn [foldl]. unfold drop_route at 2.
  rewrite bool_decide_eq_false_2 by set_solver. apply IH. set_solver.
Qed.

Lemma moved_task node f g t : task_ok f t → moved node f g → task_ok g t ∧ read_task g t = read_task f t.
Proof.
  intros Ht Hm. split.
  - intros n. destruct (Ht node) as [Hs Hp]. destruct (Ht n) as [_ Hpn]. split.
    + unfold slice_ok in *. destruct (ptr (Slots t)) as [p|] eqn:E; [|done]. destruct Hs as (a & Ha & Hl).
      exists a. split; [|done]. rewrite (mv_arrays _ _ _ Hm); [done| |by eapply lookup_lt_Some]. destruct Hp; congruence.
    + destruct (decide (n = node)) as [->|Hn]; [|by rewrite (mv_others _ _ _ Hm)].
      destruct (mv_ptr _ _ _ Hm) as [->|(q & -> & Hq)]; [done|]. destruct (ptr (Slots t)) as [p|] eqn:E; [right|by left].
      pose proof (slice_ok_bound f _ _ Hs E). intros ?. simplify_eq. lia.
  - unfold read_task, read. by rewrite (apart_array f g node _ (Ht node) Hm).
Qed.

(** The decoder's new array. *)
Lemma decode_run t f : fsm_ok f →
  ∃ f' t', decode_task t f = (Ret t', f') ∧ task_ok f' t' ∧ read_task f' t' = t ∧ fsm_ok f' ∧
    read_task f' <$> Migratings f' = read_task f <$> Migratings f ∧
    (Migratings f', Slot2Node f', Node2Slot f', MasterSlaves f', SlaveMasters f') = (Migratings f, Slot2Node f, Node2Slot f, MasterSlaves f, SlaveMasters f).
Proof.
  intros [Hh Ha Hr Ht]. unfold decode_task. eexists _, _. split; [reflexivity|].
  set (f' := set_arrays f (arrays f ++ [Slots t])).
  assert (∀ s, slice_ok f s → slice_ok f' s ∧ array_of f' s = array_of f s) as Hs.
  { intros s Hs. unfold slice_ok, array_of in *. destruct (ptr s) as [p|]; [|done]. destruct Hs as (a & Hp & Hl).
    simpl. rewrite (lookup_app_l_Some _ _ _ _ Hp), Hp. split; [by exists a|done]. }
  assert (∀ node, contents f' node = contents f node) as Hc.
  { intros node. unfold contents, read. f_equal. apply Hs, Hh. }
  assert (arrays f' !! length (arrays f) = Some (Slots t)) as Hnew.
  { simpl. rewrite lookup_app_r, Nat.sub_diag by done. done. }
  split_and!; [| | | |done].
  - intros node. split; simpl; [exists (Slots t); by split|]. right. intros E.
    pose proof (slice_ok_bound f (node_slice f node) _ (heap_slices f Hh node) (eq_sym E)). lia.
  - unfold read_task, read, array_of. cbn [ID SrcNode TargetNode Slots ptr len]. rewrite Hnew. simpl. rewrite take_ge by lia. by destruct t.
  - split.
    + split; [intros node; apply Hs, Hh|apply Hh].
    + intros node. unfold ascending. rewrite Hc. apply Ha.
    + intros x node. rewrite Hc. apply Hr.
    + intros id t0 E node. destruct (Ht id t0 E node) as [H1 H2]. split; [by apply Hs|done].
  - apply map_fmap_ext. intros id t0 E. unfold read_task, read. destruct (Ht id t0 E "") as [H1 _].
    by rewrite (proj2 (Hs _ H1)).
Qed.

Lemma moved_tasks node f g : fsm_ok f → moved node f g →
  (∀ id t, Migratings g !! id = Some t → task_ok g t) ∧ read_task g <$> Migratings g = read_task f <$> Migratings f.
Proof.
  intros Hf Hm. pose proof (mv_rest _ _ _ Hm) as E. injection E as E _ _ _. rewrite E. split.
  - intros id t Ht. by eapply (moved_task node f g), Hm; eapply Hf.
  - apply map_fmap_ext. intros id t Ht. eapply (moved_task node f g), Hm. by eapply Hf.
Qed.

(** A migration ends. *)
Lemma finish_migrate_run f r t : represents f r → task_ok f t → SrcNode t ≠ TargetNode t →
  Forall (λ x, r_slot r !! x = Some (SrcNode t)) (read f (Slots t)) →
  ∃ f', finish_migrate t f = (Ret tt, f') ∧
    represents f' (mkRoutes (assign (read f (Slots t)) (TargetNode t) (r_slot r)) (delete (ID t) (r_tasks r))).
Proof.
  intros (Hf & Hr & Htk) Ht Hne Hsrc. set (slots := read f (Slots t)) in *. rewrite Forall_forall in Hsrc.
  set (f0 := set_Migratings f (delete (ID t) (Migratings f))).
  assert (fsm_ok f0) as Hf0.
  { destruct Hf as [[A1 A2] B C D]. split; [by split|done|done|]. intros id t0 E. cbn in E. apply lookup_delete_Some in E as [_ E].
    intros node. destruct (D id t0 E node). by split. }
  assert (task_ok f0 t) as Ht0 by (intros node; destruct (Ht node); by split).
  assert (read f0 (Slots t) = slots) as Hslots by done.
  destruct (addSlots_run (TargetNode t) (Slots t) f0) as (f1 & E1 & M1 & A1 & C1 & R1); [apply Hf0|apply Hf0|apply Ht0|].
  destruct (moved_task _ _ _ _ Ht0 M1) as [Ht1 Hrd1]. assert (read f1 (Slots t) = slots) as Hs1 by (by injection Hrd1).
  assert (∀ node, node ≠ TargetNode t → contents f1 node = contents f node) as O1.
  { intros node Hn. by rewrite (contents_others (TargetNode t) f0 f1) by (done || apply Hf0). }
  destruct (removeSlots_run (SrcNode t) (Slots t) f1) as (f2 & E2 & M2 & C2 & R2); [apply M1| |apply Ht1|].
  { unfold ascending. rewrite O1 by done. apply Hf. }
  rewrite Hs1 in C2, R2. rewrite Hslots in C1, R1. fold (assign slots (TargetNode t) (Slot2Node f0)) in R1.
  change (Slot2Node f0) with (Slot2Node f) in R1. rewrite R1, drop_routes_id in R2.
  2:{ intros x Hx. rewrite lookup_assign, decide_True by done. congruence. }
  assert (∀ node, node ≠ SrcNode t → contents f2 node = contents f1 node) as O2.
  { intros node Hn. by rewrite (contents_others (SrcNode t) f1 f2) by (done || apply M1). }
  destruct (moved_tasks _ _ _ Hf0 M1) as [T1 D1].
  exists f2. split.
  { unfold finish_migrate. erewrite bind_Ret by reflexivity. fold f0. by rewrite (bind_Ret _ _ _ _ _ E1). }
  assert (∀ node x, x ∈ contents f2 node ↔ assign slots (TargetNode t) (Slot2Node f) !! x = Some node) as Hiff.
  { intros node x. rewrite lookup_assign. destruct (decide (node = SrcNode t)) as [->|Hsn].
    - rewrite C2, list_elem_of_filter, O1 by done. rewrite <-(ok_routes f Hf). case_decide; naive_solver.
    - rewrite O2 by done. destruct (decide (node = TargetNode t)) as [->|Htn].
      + rewrite C1. change (contents f0 (TargetNode t)) with (contents f (TargetNode t)). rewrite <-(ok_routes f Hf). case_decide; naive_solver.
      + rewrite O1 by done. rewrite <-(ok_routes f Hf). case_decide as Hx; [|done]. rewrite Hr. specialize (Hsrc x Hx). naive_solver. }
  assert (∀ id t0, Migratings f2 !! id = Some t0 → Migratings f1 !! id = Some t0) as Hmig.
  { intros id t0. pose proof (mv_rest _ _ _ M2) as E. injection E as -> _ _ _. done. }
  split_and!; [split| |].
  - apply M2.
  - intros node. unfold ascending. destruct (decide (node = SrcNode t)) as [->|Hsn].
    + rewrite C2. apply filter_sorted. rewrite O1 by done. apply Hf.
    + rewrite O2 by done. destruct (decide (node = TargetNode t)) as [->|Htn]; [done|]. rewrite O1 by done. apply Hf.
  - intros x node. by rewrite Hiff, R2.
  - intros id t0 E. eapply (moved_task (SrcNode t) f1 f2), M2. by eapply T1, Hmig.
  - by rewrite R2, Hr.
  - cbn [r_tasks]. rewrite <-Htk, <-fmap_delete. etransitivity; [|exact D1].
    pose proof (mv_rest _ _ _ M2) as E. injection E as E _ _ _. rewrite E. apply map_fmap_ext. intros id t0 H0.
    eapply (moved_task (SrcNode t) f1 f2), M2. by eapply T1.
Qed.

Lemma seed_slots_seqZ n : (0 ≤ n ≤ 4294967296)%Z → seed_slots (Z.to_nat n) = seqZ 0 n.
Proof.
  intros Hn. unfold seed_slots, seqZ. apply list_fmap_ext. intros i x Hx. apply lookup_seq in Hx as [-> Hx]. unfold uint32.
  rewrite Z.mod_small; lia.
Qed.

Lemma seqZ_sorted m n : StronglySorted Z.lt (seqZ m n).
Proof.
  destruct (Z.le_gt_cases 0 n) as [Hn|Hn]; [|rewrite seqZ_nil by lia; constructor].
  revert m. pattern n. apply natlike_ind; [intros; rewrite seqZ_nil by lia; constructor| |done].
  intros x Hx IH m. rewrite seqZ_cons by lia. rewrite Z.pred_succ. constructor; [apply IH|].
  apply Forall_forall. intros y Hy. apply elem_of_seqZ in Hy. lia.
Qed.

(** The first node gets all slots. *)
Lemma seed_start_run f r t : represents f r → r_slot r = ∅ → (0 ≤ SlotCount t ≤ 4294967296)%Z →
  ∃ f', seed_start t f = (Ret tt, f') ∧
    represents f' (mkRoutes (assign (seqZ 0 (SlotCount t)) (Leader t) (r_slot r)) (r_tasks r)).
Proof.
  intros (Hf & Hr & Htk) He Hn. unfold seed_start, make_slice.
  rewrite (proj2 (Z.ltb_ge _ _)) by lia. rewrite Z.gtb_ltb, (proj2 (Z.ltb_ge _ _)) by lia. cbn [orb].
  erewrite bind_Ret by reflexivity. cbv zeta. rewrite seed_slots_seqZ by done. set (slots := seqZ 0 (SlotCount t)).
  erewrite bind_Ret by reflexivity. erewrite bind_Ret by reflexivity. erewrite bind_Ret by reflexivity.
  set (f0 := set_Slot2Node f (assign slots (Leader t) (Slot2Node f))).
  set (s := mkSlice (Some (length (arrays f))) (length slots)).
  set (f1 := put_slice (Leader t) s (set_arrays f0 (arrays f ++ [slots]))).
  assert (heap_ok f0) as Hh by (destruct (ok_heap f Hf); by split).
  assert (arrays f1 !! length (arrays f) = Some slots) as Hnew.
  { simpl. rewrite lookup_app_r, Nat.sub_diag by done. done. }
  assert (moved (Leader t) f0 f1) as Hm.
  { apply moved_intro; [done|..].
    - exists slots. by split.
    - right. by exists (length (arrays f)).
    - intros p _ Hp. by apply lookup_app_l.
    - simpl. rewrite length_app. lia. }
  assert (contents f1 (Leader t) = slots) as Hc.
  { unfold contents. replace (node_slice f1 (Leader t)) with s by (symmetry; apply put_slice_eq). unfold read, array_of. cbn [ptr len s]. rewrite Hnew. simpl. by rewrite take_ge. }
  assert (∀ node, contents f node = []) as Hempty.
  { intros node. destruct (contents f node) as [|x l] eqn:E; [done|]. assert (x ∈ contents f node) as Hx by (rewrite E; set_solver).
    apply (ok_routes f Hf) in Hx. by rewrite Hr, He, lookup_empty in Hx. }
  assert (∀ node, node ≠ Leader t → contents f1 node = []) as Ho.
  { intros node Hne. rewrite (contents_others (Leader t) f0 f1) by done. apply Hempty. }
  eexists. split; [reflexivity|]. unfold addNode. simpl String.eqb. cbv iota. split_and!; [split| |].
  - destruct (mv_ok _ _ _ Hm). by split.
  - intros node. change (ascending _ node) with (ascending f1 node). unfold ascending.
    destruct (decide (node = Leader t)) as [->|Hne]; [rewrite Hc; apply seqZ_sorted|rewrite Ho by done; constructor].
  - intros x node. change (contents _ node) with (contents f1 node). change (Slot2Node _ !! x) with (assign slots (Leader t) (Slot2Node f) !! x). rewrite lookup_assign, Hr, He, lookup_empty.
    destruct (decide (node = Leader t)) as [->|Hne]; [rewrite Hc|rewrite Ho by done]; case_decide; set_solver.
  - intros id t0 E node. simpl in E. destruct (moved_task (Leader t) f0 f1 t0) as [H1 _]; [|done|].
    + intros n. destruct (ok_tasks f Hf id t0 E n). by split.
    + destruct (H1 node). by split.
  - simpl. by rewrite Hr.
  - simpl. rewrite <-Htk. apply map_fmap_ext. intros id t0 E.
    destruct (moved_task (Leader t) f0 f1 t0) as [_ H2]; [|done|exact H2]. intros n. destruct (ok_tasks f Hf id t0 E n). by split.
Qed.

Lemma Apply_refines e f r : represents f r → valid_event e r →
  ∃ f', Apply (Some e) f = (Ret tt, f') ∧ represents f' (spec_event e r).
Proof.
  intros Hf Hv. unfold Apply, spec_event, valid_event in *.
  destruct e as [ev [t|] [ti|] [tf|] [tj|]]; cbn [Event entry_MigratingTask entry_InitTask entry_FailoverTask entry_JoinTask] in *; try done.
  - destruct (decode_run t f (proj1 Hf)) as (f1 & t1 & E1 & Ht1 & Hrd & Hf1 & Htk & Hsame). injection Hsame as _ Hs2 _ _ _.
    assert (represents f1 r) as Hr1 by (destruct Hf as (_ & Hr & Hk); split_and!; [done|by rewrite Hs2|by rewrite Htk]).
    erewrite bind_Ret by (by rewrite (bind_Ret _ _ _ _ _ E1)). destruct Hv as [->|(-> & Hne & Hall)]; simpl.
    + eexists. split; [reflexivity|]. destruct Hr1 as (Hok & Hr & Hk). rewrite <-Hrd. cbn [read_task ID].
      split_and!; [|done|].
      * destruct Hok as [[A1 A2] B C D]. split; [by split|done|done|]. intros id t0 E. simpl in E.
        apply lookup_insert_Some in E as [[<- <-]|[_ E]]; intros node; [destruct (Ht1 node)|destruct (D id t0 E node)]; by split.
      * simpl. rewrite fmap_insert, <-Hk. done.
    + destruct (finish_migrate_run f1 r t1 Hr1 Ht1) as (f2 & E2 & H2).
      * rewrite <-Hrd in Hne. exact Hne.
      * rewrite <-Hrd in Hall. exact Hall.
      * exists f2. rewrite <-Hrd. by split.
  - destruct Hv as (-> & He & Hn). erewrite bind_Ret by reflexivity. simpl. by apply seed_start_run.
  - subst ev. erewrite bind_Ret by reflexivity. simpl. unfold addNode, mbind, gom_bind, mret, gom_ret.
    destruct Hf as ([[A1 A2] B C D] & Hr & Hk).
    assert (∀ m m', represents (set_SlaveMasters (set_MasterSlaves f m) m') r) as Hset.
    { intros m m'. split_and!; [split; [by split|done|done|]|done|done]. intros id t0 E node. destruct (D id t0 E node). by split. }
    destruct (String.eqb (Master tj) "").
    + eexists. split; [reflexivity|]. apply (Hset _ (SlaveMasters f)).
    + destruct (MasterSlaves f !! Master tj) as [ms|].
      * eexists. split; [reflexivity|]. case_bool_decide; [apply (Hset (MasterSlaves f))|apply Hset].
      * eexists. split; [reflexivity|]. destruct f. apply (Hset _ _).
Qed.

Lemma apply_log_ok (log : list LogEntry) : valid_log log (mkRoutes ∅ ∅) →
  ∃ f, apply_log log new_FSM = (Ret tt, f) ∧ represents f (spec_log log (mkRoutes ∅ ∅)).
Proof.
  intros Hv. assert (∀ r f, represents f r → valid_log log r →
    ∃ f', apply_log log f = (Ret tt, f') ∧ represents f' (spec_log log r)) as Hrun.
  { clear Hv. induction log as [|e log IH]; intros r f Hf Hv; [by exists f|]. destruct Hv as [He Hv].
    destruct (Apply_refines e f r Hf He) as (f1 & E1 & H1). destruct (IH _ _ H1 Hv) as (f2 & E2 & H2).
    exists f2. cbn [apply_log]. rewrite (bind_Ret _ _ _ _ _ E1). by split. }
  apply Hrun; [|done]. split_and!; [split|done|apply fmap_empty].
  - split; [intros node; done|intros n1 n2 p _; by cbn].
  - intros node. constructor.
  - intros x node. split; [cbn; by rewrite lookup_empty|]. set_solver.
  - intros id t. cbn; by rewrite lookup_empty.
Qed.


(** [C19] The state machine applies any log of seeds, joins, starts and ends of migrations in which
    every entry is valid at its place: a seed comes to a table without slots and assigns at
    most 2^32; a migration that ends has a source other than its target, and its source
    hosts its slots then (a second seed, a migration to itself, [migrate_to_itself], and
    failovers are outside, the code checks none of this).  Applying such a log from a new state
    never fails, and the route table is that of the specification: every slot
    is routed to the node it was last assigned to, the slots listed for a node are exactly
    those routed to it, in ascending order and without repetition, and a running migration
    can be read back as it was proposed, though lists are edited in place. *)
Theorem fsm_refines (log : list LogEntry) : valid_log log (mkRoutes ∅ ∅) →
  ∃ f, apply_log log new_FSM = (Ret tt, f) ∧
    let r := spec_log log (mkRoutes ∅ ∅) in
    (∀ x, PickNode f x = default "" (r_slot r !! x)) ∧
    (∀ x node, x ∈ contents f node ↔ r_slot r !! x = Some node) ∧
    (∀ node, StronglySorted Z.lt (contents f node)) ∧
    (∀ id, read_task f <$> GetMigratingTask f id = r_tasks r !! id).
Proof.
  intros Hv. destruct (apply_log_ok log Hv) as (f & E & Hok & Hr & Hk).
  exists f. split; [done|]. cbv zeta. split_and!.
  - intros x. unfold PickNode. by rewrite Hr.
  - intros x node. by rewrite <-Hr, (ok_routes f Hok).
  - intros node. apply Hok.
  - intros id. unfold GetMigratingTask. by rewrite <-Hk, lookup_fmap.
Qed.
End runtime.

#[local] Existing Instance doubling_runtime.

Definition seed (leader : string) (n : Z) : LogEntry := mkEntry EventSeedStart None (Some (mkInit leader n)) None None.
Definition join (id master : string) : LogEntry := mkEntry EventJoin None None None (Some (mkJoin id master)).
Definition start (t : MigratingTask (list Z)) : LogEntry := mkEntry EventStartMigrate (Some t) None None None.
Definition finish (t : MigratingTask (list Z)) : LogEntry := mkEntry EventFinishMigrate (Some t) None None None.

Lemma fsm_refines_witness :
  let t := mkTask "t1" "a" "b" [1; 3]%Z in
  let log := [seed "a" 6; join "b" ""; start t; finish t] in
  ∃ f, apply_log log new_FSM = (Ret tt, f) ∧ (∀ x, PickNode f x = default "" (r_slot (spec_log log (mkRoutes ∅ ∅)) !! x)).
Proof.
  intros t log. refine (match fsm_refines log _ with ex_intro _ f P => ex_intro _ f (conj (proj1 P) (proj1 (proj2 P))) end).
  split; [split_and!; [reflexivity|reflexivity|cbn; lia|cbn; lia]|]. split; [reflexivity|]. split; [by left|]. split; [|done]. right.
  split; [done|]. split; [done|]. by repeat constructor.
Defined.
End Raft.
