(* ===== verification/RaftLaws.v ===== *)
(** * cluster/raft: failover and snapshots

    [EventFinishFailover] hands the slots of the old master to the new one.  The routes are
    right afterwards, but the walk that removes the slots from the old master reads the list
    it shortens, so the old master keeps about half of them in [Node2Slot].  A snapshot keeps
    the routes; the lists that [Restore] rebuilds come in the order of a map iteration. *)

From Stdlib Require Import ZArith Lia String.
From stdpp Require Import base gmap strings numbers sorting list.
From S2P Require Import Prelude GoStd RaftFSM.
Import Raft.

Local Open Scope string_scope.
Local Open Scope list_scope.
Local Open Scope go_scope.

(** What the walk leaves of a list: every second slot, and one less when their number is even. *)
Fixpoint leftover (kept rest : list Z) : list Z :=
  match rest with
  | [] => removelast kept
  | [_] => kept
  | _ :: y :: rest' => leftover (kept ++ [y]) rest'
  end.

Section failover.
Context `{GoRuntime}.

(** The cells the walk reads. *)
Definition cells (f : FSM) (s : Slice) : list Z := take (len s) (array_of f s).

(** During the walk over [s0]: the list of [node] now, then what the shifts left behind. *)
Record walking (node : string) (s0 : Slice) (g : FSM) (l stale : list Z) : Prop := {
  wk_heap : heap_ok g;
  wk_ptr : ptr (node_slice g node) = ptr s0;
  wk_contents : contents g node = l;
  wk_cells : cells g s0 = l ++ stale;
  wk_length : (length l + length stale = len s0)%nat;
  wk_sorted : StronglySorted Z.lt l;
  wk_routes : ∀ y, y ∈ l ++ stale → Slot2Node g !! y ≠ Some node
}.

Lemma array_ptr g s s' : ptr s = ptr s' → array_of g s = array_of g s'.
Proof. unfold array_of. by intros ->. Qed.

Lemma sorted_split (p q : list Z) x : StronglySorted Z.lt (p ++ x :: q) →
  (∀ y, y ∈ p → (y < x)%Z) ∧ (∀ y, y ∈ q → (x < y)%Z) ∧ StronglySorted Z.lt (p ++ q).
Proof.
  intros Hs. apply StronglySorted_app in Hs as (H1 & H2 & H3). apply StronglySorted_inv in H3 as [H3 H4].
  rewrite Forall_forall in H4. split_and!; [set_solver|done|]. apply StronglySorted_app. split_and!; [set_solver|done|done].
Qed.

Lemma sorted_index g node p x q : heap_ok g → contents g node = p ++ x :: q → StronglySorted Z.lt (p ++ x :: q) →
  slot_index g node x = length p.
Proof.
  intros Hh Hc Hs. assert (ascending g node) as Ha by (unfold ascending; by rewrite Hc).
  destruct (slot_index_spec g node x Ha) as (H1 & H2 & H3). rewrite Hc in *. set (k := slot_index g node x) in *.
  destruct (sorted_split _ _ _ Hs) as (Hp & Hq & _).
  destruct (lt_eq_lt_dec k (length p)) as [[Hlt|]|Hgt]; [|done|].
  - destruct (lookup_lt_is_Some_2 p k Hlt) as [y Hy]. assert (y < x)%Z by (by eapply Hp, list_elem_of_lookup_2).
    assert (x ∈ drop (S k) (p ++ x :: q)) as Hx by (rewrite drop_app_le by lia; set_solver).
    rewrite bool_decide_eq_false_2 in H3; [|rewrite lookup_app_l by lia; naive_solver lia].
    assert (x < y)%Z; [|lia]. apply H3. rewrite drop_app_le by lia. rewrite (drop_S _ _ _ Hy). set_solver.
  - assert (x < x)%Z; [|lia]. apply H2. rewrite take_app_ge by lia. destruct (k - length p)%nat eqn:E; [lia|]. cbn. set_solver.
Qed.

(** A slot that is in the list is cut out; the last cell stays where it was. *)
Lemma walk_hit node s0 g p x q stale : walking node s0 g (p ++ x :: q) stale →
  ∃ g', remove_slot node x g = (Ret tt, g') ∧ walking node s0 g' (p ++ q) (default 0%Z (last (x :: q)) :: stale) ∧
    moved node g g' ∧ Slot2Node g' = Slot2Node g.
Proof.
  intros [Hh Hptr Hc Hcl Hlen Hso Hrt].
  destruct (remove_slot_run node x g Hh) as (g' & Er & Hm & Hc' & Hr & Hp & Ha); [unfold ascending; by rewrite Hc|].
  rewrite bool_decide_eq_false_2 in Hr by (apply Hrt; set_solver).
  exists g'. split; [done|]. split; [|done]. destruct (sorted_split _ _ _ Hso) as (H1 & H2 & H3).
  assert (len (node_slice g node) = length (p ++ x :: q)) as Hn by (rewrite <-Hc; symmetry; apply length_read, Hh).
  cbv zeta in Ha. rewrite (sorted_index g node p x q), Hc, Hn in Ha by done. rewrite bool_decide_eq_true_2 in Ha by (by rewrite lookup_app_r, Nat.sub_diag).
  rewrite !(array_ptr _ (node_slice g node) s0) in Ha by done.
  assert (∃ tl, array_of g s0 = (p ++ x :: q) ++ stale ++ tl) as [tl Ea].
  { exists (drop (len s0) (array_of g s0)). rewrite app_assoc, <-Hcl. unfold cells. by rewrite take_drop. }
  split; [apply Hm|by rewrite Hp| | | |done|].
  - rewrite Hc', Hc, filter_app, filter_cons_False by naive_solver. rewrite !filter_all; [done| |];
      apply Forall_forall; intros y Hy; [apply H2 in Hy|apply H1 in Hy]; lia.
  - unfold cells. rewrite Ha. destruct (exists_last (l := x :: q)) as (q' & z & Ez); [done|]. assert (last (x :: q) = Some z) as -> by (by rewrite Ez, last_snoc). cbn [default].
    assert (take (length p) (array_of g s0) = p) as -> by (by rewrite Ea, <-app_assoc, take_app_length).
    assert (drop (S (length p)) (take (length (p ++ x :: q)) (array_of g s0)) = q) as ->.
    { rewrite Ea, take_app_length, drop_app_ge, Nat.sub_succ_l, Nat.sub_diag by lia. done. }
    assert (drop (length (p ++ x :: q) - 1) (array_of g s0) = z :: stale ++ tl) as Hd.
    { rewrite Ea, Ez, (app_assoc p), length_app. cbn [length]. rewrite Nat.add_sub, <-app_assoc, drop_app_length. done. }
    rewrite Hd. rewrite !app_assoc. rewrite (app_comm_cons _ _ z), app_assoc, take_app_length'; [done|].
    rewrite !length_app in *. cbn [length] in *. lia.
  - rewrite length_app in *. simpl in *. lia.
  - rewrite Hr. intros y Hy. apply Hrt. assert (default 0%Z (last (x :: q)) ∈ x :: q) as Hlast.
    { destruct (last (x :: q)) as [z|] eqn:Ez; [by apply last_Some_elem_of in Ez|by apply last_None in Ez]. }
    set_solver.
Qed.

Lemma walk_miss node s0 g x l stale : walking node s0 g l stale → x ∈ stale → x ∉ l →
  ∃ g', remove_slot node x g = (Ret tt, g') ∧ walking node s0 g' l stale ∧ moved node g g' ∧ Slot2Node g' = Slot2Node g.
Proof.
  intros [Hh Hptr Hc Hcl Hlen Hso Hrt] Hx Hnx.
  destruct (remove_slot_run node x g Hh) as (g' & Er & Hm & Hc' & Hr & Hp & Ha); [unfold ascending; by rewrite Hc|].
  rewrite bool_decide_eq_false_2 in Hr by (apply Hrt; set_solver). cbv zeta in Ha.
  rewrite bool_decide_eq_false_2 in Ha by (rewrite Hc; by intros ?%list_elem_of_lookup_2).
  rewrite !(array_ptr _ (node_slice g node) s0) in Ha by done.
  exists g'. split; [done|]. split; [|done]. split; [apply Hm|by rewrite Hp| |unfold cells; by rewrite Ha|done|done|by rewrite Hr].
  rewrite Hc', Hc. apply filter_all, Forall_forall. intros y Hy. congruence.
Qed.

(** The element the walk reads. *)
Lemma walk_read node s0 g l stale i x : walking node s0 g l stale → (l ++ stale) !! i = Some x →
  (λ f, match array_of f s0 !! i with Some v => (Ret v, f) | None => (Panic "index out of range", f) end) g = (Ret x, g).
Proof.
  intros Hw Hi. rewrite <-(wk_cells _ _ _ _ _ Hw) in Hi. unfold cells in Hi. apply lookup_take_Some in Hi as [Hi _].
  by rewrite Hi.
Qed.

(** Past the end of the list. *)
Lemma walk_tail node s0 z l k n i g : walking node s0 g l (replicate k z) → z ∉ l →
  (length l ≤ i)%nat → (i + n = len s0)%nat →
  ∃ g', range n i s0 (remove_slot node) g = (Ret tt, g') ∧ moved node g g' ∧ contents g' node = l ∧ Slot2Node g' = Slot2Node g.
Proof.
  intros Hw Hz. revert i g Hw. induction n as [|n IH]; intros i g Hw Hi Hn; cbn [range].
  { exists g. split_and!; [done|apply moved_refl, Hw|apply Hw|done]. }
  pose proof (wk_length _ _ _ _ _ Hw) as Hl. rewrite length_replicate in Hl.
  rewrite (bind_Ret _ _ g z g).
  2:{ eapply walk_read; [done|]. rewrite lookup_app_r by lia. apply lookup_replicate. split; [done|lia]. }
  destruct (walk_miss node s0 g z l _ Hw) as (g1 & E1 & Hw1 & Hm1 & Hr1); [|done|].
  { apply elem_of_replicate. split; [done|lia]. }
  rewrite (bind_Ret _ _ _ _ _ E1). destruct (IH (S i) g1 Hw1) as (g2 & E2 & Hm2 & Hc2 & Hr2); [lia|lia|].
  exists g2. split_and!; [done|by eapply moved_trans|done|congruence].
Qed.

Lemma walk_run node s0 z rest : ∀ kept n g, walking node s0 g (kept ++ rest) (replicate (length kept) z) →
  (length kept + n = len s0)%nat → (rest ≠ [] → last rest = Some z) → (kept ≠ [] → rest = [] → last kept = Some z) →
  ∃ g', range n (length kept) s0 (remove_slot node) g = (Ret tt, g') ∧ moved node g g' ∧
    contents g' node = leftover kept rest ∧ Slot2Node g' = Slot2Node g.
Proof.
  induction rest as [rest IH] using (induction_ltof1 _ length). unfold ltof in IH.
  intros kept n g Hw Hn Hr Hk. pose proof (wk_length _ _ _ _ _ Hw) as Hl. rewrite length_app, length_replicate in Hl.
  pose proof (wk_sorted _ _ _ _ _ Hw) as Hs.
  destruct rest as [|x [|y rest]].
  - rewrite app_nil_r in *. destruct kept as [|k0 kept'] eqn:Ek.
    { destruct n; [|simpl in *; lia]. exists g. split_and!; [done|apply moved_refl, Hw|by rewrite (wk_contents _ _ _ _ _ Hw)|done]. }
    rewrite <-Ek in *. assert (last kept = Some z) as Hz by (apply Hk; [by rewrite Ek|done]).
    apply last_Some in Hz as [p Ep]. assert (n = S (n - 1)) as -> by (rewrite Ek in *; simpl in *; lia). cbn [range].
    rewrite (bind_Ret _ _ g z g).
    2:{ eapply walk_read; [done|]. rewrite lookup_app_r, Nat.sub_diag by lia. apply lookup_replicate. split; [done|]. simpl in *. rewrite Ek; simpl; lia. }
    rewrite Ep in Hw at 1. destruct (walk_hit node s0 g p z [] _ Hw) as (g1 & E1 & Hw1 & Hm1 & Hr1). rewrite app_nil_r in Hw1.
    rewrite (bind_Ret _ _ _ _ _ E1).
    destruct (walk_tail node s0 z p (S (length kept)) (n - 1) (S (length kept)) g1 Hw1) as (g2 & E2 & Hm2 & Hc2 & Hr2).
    { rewrite Ep in Hs. destruct (sorted_split p [] z Hs) as (Hlt & _). intros Hin. specialize (Hlt z Hin). lia. }
    { rewrite Ep, length_app. lia. }
    { rewrite Ek in *. simpl in *. lia. }
    exists g2. split_and!; [done|by eapply moved_trans| |congruence]. cbn [leftover]. by rewrite Hc2, Ep, removelast_last.
  - assert (x = z) as -> by (by injection (Hr ltac:(done))). simpl in Hl.
    assert (n = S (n - 1)) as -> by lia. cbn [range]. rewrite (bind_Ret _ _ g z g).
    2:{ eapply walk_read; [done|]. rewrite <-app_assoc, lookup_app_r, Nat.sub_diag by lia. done. }
    destruct (walk_hit node s0 g kept z [] _ Hw) as (g1 & E1 & Hw1 & Hm1 & Hr1). rewrite app_nil_r in Hw1.
    rewrite (bind_Ret _ _ _ _ _ E1).
    destruct (walk_tail node s0 z kept (S (length kept)) (n - 1) (S (length kept)) g1 Hw1) as (g2 & E2 & Hm2 & Hc2 & Hr2); [|lia|lia|].
    { destruct (sorted_split kept [] z Hs) as (Hlt & _). intros Hin. specialize (Hlt z Hin). lia. }
    exists g2. split_and!; [done|by eapply moved_trans|done|congruence].
  - simpl in Hl. assert (n = S (n - 1)) as -> by lia. cbn [range]. rewrite (bind_Ret _ _ g x g).
    2:{ eapply walk_read; [done|]. rewrite <-app_assoc, lookup_app_r, Nat.sub_diag by lia. done. }
    destruct (walk_hit node s0 g kept x (y :: rest) _ Hw) as (g1 & E1 & Hw1 & Hm1 & Hr1). rewrite (bind_Ret _ _ _ _ _ E1).
    assert (last (y :: rest) = Some z) as Hz by (by apply Hr).
    assert (default 0%Z (last (x :: y :: rest)) = z) as Ez by (by cbn [last] in *; rewrite Hz).
    rewrite Ez in Hw1. change (z :: replicate (length kept) z) with (replicate (S (length kept)) z) in Hw1.
    replace (S (length kept)) with (length (kept ++ [y])) in Hw1 |- * by (rewrite length_app; simpl; lia).
    replace (kept ++ y :: rest) with ((kept ++ [y]) ++ rest) in Hw1 by (by rewrite <-app_assoc).
    destruct (IH rest ltac:(simpl; lia) (kept ++ [y]) (n - 1)%nat g1 Hw1) as (g2 & E2 & Hm2 & Hc2 & Hr2).
    + rewrite length_app. simpl. lia.
    + intros Hne. destruct rest; [done|exact Hz].
    + intros _ ->. rewrite last_snoc. exact Hz.
    + exists g2. split_and!; [done|by eapply moved_trans|done|congruence].
Qed.

Lemma removeSlots_alias node f : heap_ok f → ascending f node → (∀ y, y ∈ contents f node → Slot2Node f !! y ≠ Some node) →
  ∃ f', removeSlots node (node_slice f node) f = (Ret tt, f') ∧ moved node f f' ∧
    contents f' node = leftover [] (contents f node) ∧ Slot2Node f' = Slot2Node f.
Proof.
  intros Hh Ha Hr. set (z := default 0%Z (last (contents f node))).
  apply (walk_run node (node_slice f node) z (contents f node) [] (len (node_slice f node))); [|done| |done].
  - cbn [app length replicate]. split; [done|done|done|by rewrite app_nil_r| |done|by rewrite app_nil_r].
    rewrite Nat.add_0_r. apply length_read, Hh.
  - intros Hne. unfold z. destruct (last (contents f node)) eqn:E; [done|]. by apply last_None in E.
Qed.

(** A failover moves the routes and nothing else of them: afterwards every slot of the old
    master is routed to the new one, and listed for it in order; the old master is the new
    one's replica.  But the old master's own list is not emptied: it keeps every second of its
    slots, because the loop that removes them walks over the very list it shortens. *)
Theorem failover_keeps_slots (f : FSM) (t : FailoverTask) (ms : MasterSlave) :
  fsm_ok f → MasterSlaves f !! OldMasterId t = Some ms → NewMasterId t ≠ OldMasterId t →
  let old := OldMasterId t in let new := NewMasterId t in
  ∃ f', Apply (Some (mkEntry EventFinishFailover None None (Some t) None)) f = (Ret tt, f') ∧
    (∀ x, Slot2Node f' !! x = if decide (Slot2Node f !! x = Some old) then Some new else Slot2Node f !! x) ∧
    (∀ x, x ∈ contents f' new ↔ Slot2Node f' !! x = Some new) ∧ StronglySorted Z.lt (contents f' new) ∧
    (GetMaster f' old = new ∧ GetMaster f' new = "" ∧ MasterSlaves f' !! old = None) ∧
    contents f' old = leftover [] (contents f old).
Proof.
  intros Hok Hms Hne old new. destruct Hok as [Hh Ha Hr _]. 
  assert (Apply (Some (mkEntry EventFinishFailover None None (Some t) None)) f = finish_failover t f) as -> by reflexivity.
  unfold finish_failover, failover. fold old new. unfold mbind at 1, gom_bind at 1. fold old in Hms. rewrite Hms. cbv zeta.
  set (f1 := set_MasterSlaves _ _). assert (heap_ok f1) as Hh1 by (destruct Hh; by split).
  erewrite bind_Ret by reflexivity. unfold id. cbv zeta.
  destruct (addSlots_run new (node_slice f1 old) f1) as (f2 & E2 & M2 & A2 & C2 & R2); [done|apply Ha| |].
  { split; [apply Hh1|]. destruct (ptr (node_slice f1 old)) as [p|] eqn:Ep; [right|by left]. intros E.
    by eapply (heap_apart f1 Hh1 old new p). }
  rewrite (bind_Ret _ _ _ _ _ E2). change (read f1 (node_slice f1 old)) with (contents f old) in *.
  fold (assign (contents f old) new (Slot2Node f1)) in R2. change (Slot2Node f1) with (Slot2Node f) in R2.
  assert (contents f2 old = contents f old) as Co by (by rewrite (contents_others new f1 f2)).
  assert (node_slice f2 old = node_slice f1 old) as No by (by apply (mv_others _ _ _ M2)).
  destruct (removeSlots_alias old f2) as (f3 & E3 & M3 & C3 & R3); [apply M2| | |].
  { unfold ascending. rewrite Co. apply Ha. }
  { intros y. rewrite Co, R2, lookup_assign. intros Hy. rewrite decide_True by done. intros [= Eq]. by apply Hne. }
  rewrite <-No. rewrite (bind_Ret _ _ _ _ _ E3). eexists. split; [reflexivity|].
  assert (∀ x, Slot2Node f3 !! x = if decide (Slot2Node f !! x = Some old) then Some new else Slot2Node f !! x) as Hx.
  { intros x. rewrite R3, R2, lookup_assign. specialize (Hr x old). repeat case_decide; naive_solver. }
  assert (contents f3 new = contents f2 new) as Cn by (apply (contents_others old); [apply M2|done|done]).
  pose proof (mv_rest _ _ _ M2) as Q2. pose proof (mv_rest _ _ _ M3) as Q3. injection Q2 as _ Q2 Q2' _. injection Q3 as _ Q3 Q3' _.
  assert (∀ n m, contents (set_Failovers f3 m) n = contents f3 n) as Cf by done.
  split_and!; [exact Hx| | | | | |].
  - intros x. rewrite Cf. change (Slot2Node _ !! x) with (Slot2Node f3 !! x).
    rewrite Cn, C2, Hx. change (contents f1 new) with (contents f new). rewrite <-!Hr. case_decide; naive_solver.
  - by rewrite Cf, Cn.
  - unfold GetMaster. simpl. rewrite Q3', Q2'. simpl. by rewrite lookup_delete_ne, lookup_insert_eq.
  - unfold GetMaster. simpl. rewrite Q3', Q2'. simpl. by rewrite lookup_delete_eq.
  - simpl. rewrite Q3, Q2. simpl. by rewrite lookup_insert_ne, lookup_delete_eq.
  - by rewrite Cf, C3, Co.
Qed.
End failover.

(** ** Snapshots *)

Section snapshot.
Context `{GoRuntime}.

Lemma prefix_all s : prefix s (len s) = s.
Proof. by destruct s. Qed.

(** The slots an iteration visits for a node, in its order. *)
Definition visited (order : list (Z * string)) (node : string) : list Z := (filter (λ p, p.2 = node) order).*1.

Definition all_tasks_ok (f : FSM) : Prop := ∀ id t, Migratings f !! id = Some t → task_ok f t.

Lemma restore_slots_run order g : heap_ok g → all_tasks_ok g →
  ∃ g', restore_slots order g = (Ret tt, g') ∧ heap_ok g' ∧ all_tasks_ok g' ∧
    (∀ node, contents g' node = contents g node ++ visited order node) ∧
    read_task g' <$> Migratings g' = read_task g <$> Migratings g ∧
    (Slot2Node g', MasterSlaves g', SlaveMasters g') = (Slot2Node g, MasterSlaves g, SlaveMasters g).
Proof.
  revert g. induction order as [|[x n] order IH]; intros g Hh Ht; cbn [restore_slots].
  { exists g. split_and!; try done. intros node. unfold visited. simpl. by rewrite app_nil_r. }
  erewrite bind_Ret by reflexivity. unfold id.
  destruct (append_run n (len (node_slice g n)) [x] g Hh) as (g1 & E1 & M1 & C1 & R1 & _); [done|].
  assert (take (len (node_slice g n)) (contents g n) = contents g n) as Et.
  { apply take_ge. unfold contents. rewrite length_read; [done|apply Hh]. }
  rewrite Et in C1. rewrite prefix_all in E1.
  pose proof (mv_rest _ _ _ M1) as E. injection E as Q1 Q2 Q3 _.
  assert (all_tasks_ok g1) as Ht1.
  { intros id t Hid. rewrite Q1 in Hid. by eapply (moved_task n g g1), M1; eapply Ht. }
  destruct (IH g1 (mv_ok _ _ _ M1) Ht1) as (g2 & E2 & Hh2 & Ht2 & C2 & K2 & R2). exists g2. split_and!; [|done|done| | |].
  - unfold mbind, gom_bind in E1 |- *. destruct (append_ _ _ g) as [[s'| |] h]; [|done..]. by rewrite E1.
  - intros node. rewrite C2. unfold visited. rewrite filter_cons. destruct (decide (n = node)) as [->|Hne]; simpl.
    + rewrite decide_True by done. rewrite C1. simpl. by rewrite <-app_assoc.
    + rewrite decide_False by done. f_equal. apply (contents_others n); [done|done|congruence].
  - rewrite K2, Q1. apply map_fmap_ext. intros id t Hid. eapply (moved_task n g g1), M1. by eapply Ht.
  - injection R2 as -> -> ->. by rewrite R1, Q2, Q3.
Qed.

(** The decoder fills one new array per task. *)
Lemma decode_tasks_run l m g :
  (∀ id t, m !! id = Some t → slice_ok g (Slots t)) →
  ∃ g' m', decode_tasks l m g = (Ret m', g') ∧ (∀ id t, m' !! id = Some t → slice_ok g' (Slots t)) ∧
    read_task g' <$> m' = foldl (λ acc '(id, t), <[id := t]> acc) (read_task g <$> m) l ∧
    (MasterSlaves g', SlaveMasters g', Failovers g') = (MasterSlaves g, SlaveMasters g, Failovers g).
Proof.
  revert m g. induction l as [|[id t] l IH]; intros m g Hm; cbn [decode_tasks]; [by exists g, m|].
  set (g1 := set_arrays g (arrays g ++ [Slots t])).
  set (t1 := mkTask (ID t) (SrcNode t) (TargetNode t) (mkSlice (Some (length (arrays g))) (length (Slots t)))).
  rewrite (bind_Ret (decode_task t) _ g t1 g1) by reflexivity.
  assert (∀ s, slice_ok g s → slice_ok g1 s ∧ read g1 s = read g s) as Hs.
  { intros s Hs. unfold slice_ok, read, array_of in *. destruct (ptr s) as [p|]; [|done]. destruct Hs as (a & Hp & Hl).
    simpl. rewrite (lookup_app_l_Some _ _ _ _ Hp), Hp. split; [by exists a|done]. }
  assert (slice_ok g1 (Slots t1) ∧ read_task g1 t1 = t) as [Hn Hrd].
  { assert (arrays g1 !! length (arrays g) = Some (Slots t)) as Hnew by (simpl; by rewrite lookup_app_r, Nat.sub_diag).
    split; [exists (Slots t); by split|]. unfold read_task, read, array_of. cbn [t1 Slots ptr len ID SrcNode TargetNode]. rewrite Hnew.
    simpl. rewrite take_ge by lia. by destruct t. }
  destruct (IH (<[id := t1]> m) g1) as (g2 & m2 & E2 & H2 & R2 & Q2).
  { intros id0 t0 Hid. apply lookup_insert_Some in Hid as [[_ <-]|[_ Hid]]; [done|]. by eapply Hs, Hm. }
  exists g2, m2. split_and!; [exact E2|done| |exact Q2]. rewrite R2. cbn [foldl]. f_equal. rewrite fmap_insert, Hrd. f_equal.
  apply map_fmap_ext. intros id0 t0 Hid. unfold read_task. f_equal. eapply Hs, Hm, Hid.
Qed.

Lemma foldl_insert_list_to_map (l : list (string * MigratingTask (list Z))) (m : gmap string (MigratingTask (list Z))) : NoDup l.*1 →
  foldl (λ acc '(id, t), <[id := t]> acc) m l = list_to_map l ∪ m.
Proof.
  revert m. induction l as [|[id t] l IH]; intros m Hd; cbn [foldl]; [by rewrite left_id_L by apply _|].
  apply NoDup_cons in Hd as [Hid Hd]. rewrite IH by done. simpl. rewrite <-insert_union_l. symmetry. apply insert_union_r.
  by apply not_elem_of_list_to_map_1.
Qed.

Lemma sorted_NoDup l : StronglySorted Z.lt l → NoDup l.
Proof.
  induction 1 as [|x l _ IH Hx]; [constructor|]. constructor; [|done]. intros Hin. eapply Forall_forall in Hx; [|done]. lia.
Qed.

Lemma elem_of_visited order node x : x ∈ visited order node ↔ (x, node) ∈ order.
Proof.
  unfold visited. rewrite list_elem_of_fmap. setoid_rewrite list_elem_of_filter. split.
  - by intros ([y n] & -> & <- & Hin).
  - intros Hin. by exists (x, node).
Qed.

Lemma NoDup_visited order node : NoDup order.*1 → NoDup (visited order node).
Proof.
  unfold visited. induction order as [|[x n] order IH]; simpl; intros Hd; [done|]. apply NoDup_cons in Hd as [Hx Hd].
  rewrite filter_cons. case_decide; [|by apply IH]. simpl. constructor; [|by apply IH].
  intros Hin. apply Hx. fold (visited order node) in Hin. apply elem_of_visited in Hin. by apply (list_elem_of_fmap_2 fst) in Hin.
Qed.

(** Two state machines that say the same: the route of every slot, the tasks, the masters, and
    the slots of every node up to their order. *)
Definition same_table (f g : FSM) : Prop :=
  (∀ x, PickNode g x = PickNode f x) ∧
  (∀ id, read_task g <$> GetMigratingTask g id = read_task f <$> GetMigratingTask f id) ∧
  MasterSlaves g = MasterSlaves f ∧ (∀ node, contents g node ≡ₚ contents f node).

(** [C20] A snapshot keeps the table: let the two tables of a node agree and its lists be ascending
    (as after every valid log; after a failover, [failover_keeps_slots], or a migration that
    ends behind a restore, [restore_breaks_order], they are not).  A node that restores its
    snapshot, in whatever state it is itself and in whatever order Go walks over the maps,
    routes every slot as the first one does, knows the same running migrations, has the same
    slaves under every master, and lists the same slots for every node, though not in the
    same order.  (The map from slaves to masters is not in the snapshot and not compared.) *)
Theorem snapshot_roundtrip (f g : FSM) (order : list (Z * string)) (morder : list (string * MasterSlave)) :
  fsm_ok f → order ≡ₚ map_to_list (Slot2Node f) →
  ∃ g', Restore order morder (Some (Snapshot f)) g = (Ret None, g') ∧ same_table f g'.
Proof.
  intros Hok Hord. unfold Restore, Snapshot. cbn [snap_Migratings snap_Slot2Node snap_MasterSlaves].
  set (l := map_to_list _). destruct (decode_tasks_run l ∅ g) as (g1 & m1 & E1 & H1 & R1 & _); [intros id t; by rewrite lookup_empty|].
  rewrite (bind_Ret _ _ _ _ _ E1). erewrite bind_Ret by reflexivity.
  rewrite fmap_empty, foldl_insert_list_to_map, right_id_L in R1 by (unfold l; apply NoDup_fst_map_to_list || apply _).
  unfold l in R1. rewrite list_to_map_to_list in R1.
  set (g2 := mkFSM _ _ _ _ _ _ _). assert (∀ node, node_slice g2 node = nil_slice) as Hnil by done.
  destruct (restore_slots_run order g2) as (g3 & E3 & H3 & T3 & C3 & K3 & Q3).
  { split; [intros node; by rewrite Hnil|intros n1 n2 p _; by rewrite Hnil]. }
  { intros id t Hid node. split; [by eapply H1|]. rewrite Hnil. destruct (ptr (Slots t)); [by right|by left]. }
  rewrite (bind_Ret _ _ _ _ _ E3). erewrite bind_Ret by reflexivity. eexists. split; [reflexivity|].
  injection Q3 as Q1 Q2 _. split_and!.
  - intros x. unfold PickNode. simpl. by rewrite Q1.
  - intros id. unfold GetMigratingTask. rewrite <-!lookup_fmap. f_equal. simpl. etransitivity; [exact K3|]. exact R1.
  - simpl. by rewrite Q2.
  - intros node. transitivity (contents g3 node); [done|]. rewrite C3. unfold contents at 1. rewrite Hnil.
    change (read g2 nil_slice) with (@nil Z). cbn [app].
    apply NoDup_Permutation; [|apply sorted_NoDup, Hok|].
    + apply NoDup_visited. rewrite Hord. apply NoDup_fst_map_to_list.
    + intros x. rewrite elem_of_visited, Hord, elem_of_map_to_list. apply Hok.
Qed.
End snapshot.

#[local] Existing Instance doubling_runtime.

Lemma failover_keeps_slots_witness :
  let t := mkFailover "x" "a" "b" in
  ∃ f f', apply_log [seed "a" 5; join "b" "a"] new_FSM = (Ret tt, f) ∧
    Apply (Some (mkEntry EventFinishFailover None None (Some t) None)) f = (Ret tt, f') ∧
    contents f' "a" = leftover [] (contents f "a") ∧ leftover [] (contents f "a") = [1; 3]%Z.
Proof.
  intros t. destruct (apply_log_ok [seed "a" 5; join "b" "a"]) as (f & E & Hok & _).
  { split; [split_and!; [reflexivity|reflexivity|cbn; lia|cbn; lia]|]. by split. }
  exists f. assert (leftover [] (contents f "a") = [1; 3]%Z ∧ MasterSlaves f !! "a" = Some (mkMasterSlave "a" ["b"])) as [H1 H2].
  { vm_compute in E. injection E as <-. split; reflexivity. }
  refine (match failover_keeps_slots f t _ Hok H2 ltac:(done) with
          | ex_intro _ f' P => ex_intro _ f' (conj E (conj (proj1 P) (conj _ H1))) end).
  apply P.
Defined.

Lemma snapshot_roundtrip_witness :
  let t := mkTask "t1" "a" "b" [1]%Z in
  ∃ f g', apply_log [seed "a" 3; join "b" ""; start t] new_FSM = (Ret tt, f) ∧
    Restore [(2, "a"); (0, "a"); (1, "a")]%Z [] (Some (Snapshot f)) new_FSM = (Ret None, g') ∧ same_table f g'.
Proof.
  intros t. destruct (apply_log_ok [seed "a" 3; join "b" ""; start t]) as (f & E & Hok & _).
  { split; [split_and!; [reflexivity|reflexivity|cbn; lia|cbn; lia]|]. split; [reflexivity|]. split; [by left|done]. }
  exists f. assert ([(2, "a"); (0, "a"); (1, "a")]%Z ≡ₚ map_to_list (Slot2Node f)) as H2.
  { vm_compute in E. injection E as <-. apply (bool_decide_eq_true_1 (_ ≡ₚ _)). vm_compute. reflexivity. }
  refine (match snapshot_roundtrip f new_FSM [(2, "a"); (0, "a"); (1, "a")]%Z [] Hok H2 with
          | ex_intro _ f' P => ex_intro _ f' (conj E P) end).
Defined.

(** After a restore the lists need not be in order, and the binary search misses: a migration
    that ends then leaves its slot in the list of its source. *)
Lemma restore_breaks_order :
  let t := mkTask "t1" "a" "b" [2]%Z in
  ∃ f g g', apply_log [seed "a" 3; join "b" ""; start t] new_FSM = (Ret tt, f) ∧
    Restore [(2, "a"); (1, "a"); (0, "a")]%Z [] (Some (Snapshot f)) new_FSM = (Ret None, g) ∧
    apply_log [finish t] g = (Ret tt, g') ∧
    contents g "a" = [2; 1; 0]%Z ∧ PickNode g' 2 = "b" ∧ contents g' "a" = [2; 1; 0]%Z ∧ contents g' "b" = [2]%Z.
Proof.
  eexists _, _, _. split; [vm_compute; reflexivity|]. split; [vm_compute; reflexivity|]. split; [vm_compute; reflexivity|].
  split_and!; vm_compute; reflexivity.
Qed.

(** A migration whose source and target are the same node loses its slots. *)
Lemma migrate_to_itself :
  let t := mkTask "t1" "a" "a" [1]%Z in
  ∃ f, apply_log [seed "a" 3; finish t] new_FSM = (Ret tt, f) ∧ PickNode f 1 = "" ∧ contents f "a" = [0; 2]%Z.
Proof. eexists. split; [vm_compute; reflexivity|]. split; vm_compute; reflexivity. Qed.
