(* ===== verification/Rebalance.v ===== *)
(** * cluster/core/node_manager.go: the plan of a rebalance

    The leader compares the slots of every master with the average and plans migrations
    from the nodes that host too many to the nodes that host too few.  The plan reads the
    route table only; the order of the iteration over the masters and the random task
    names are arguments.

    [math.Ceil(float64(SlotCount) / float64(n))] is the rounded-up quotient: a double has
    enough digits for it when [n] is a number of nodes.  Without masters there is no plan,
    whatever the quotient is. *)

From Stdlib Require Import ZArith Lia String.
From stdpp Require Import base gmap strings numbers sorting list.
From S2P Require Import Prelude GoStd RaftFSM.
Import Raft.

Local Open Scope string_scope.
Local Open Scope list_scope.
Local Open Scope Z_scope.
Local Open Scope go_scope.

Module Rebalance.

Definition ClusterSlots : Z := 1024.

Definition avgSlot (masters : nat) : Z := (ClusterSlots + Z.of_nat masters - 1) / Z.of_nat masters.

Abbreviation Task := (MigratingTask (list Z)).

Section plan.
(** The slots of every node, the average, and the names [utils.RandString(20)] gives. *)
Context (slots : string → list Z) (avg : Z) (names : nat → string).

Definition exporting (nodes : list string) : list string :=
  filter (λ n, avg + 1 < Z.of_nat (length (slots n))) nodes.

Definition importing (nodes : list string) : list string :=
  filter (λ n, Z.of_nat (length (slots n)) < avg - 1) nodes.

(** [s[0:n]] panics when [n] is out of range. *)
Definition take_slots (l : list Z) (n : Z) : outcome (list Z) :=
  if (0 <=? n) && (n <=? Z.of_nat (length l)) then Ret (take (Z.to_nat n) l) else Panic "slice bounds out of range".

(** The loop over the two indices, as the two lists behind them; [tasks] tasks are made. *)
Fixpoint plan_loop (fuel tasks : nat) (exports imports : list string) (exportSlots : list Z) : outcome (list Task) :=
  match fuel with
  | O => Block
  | S fuel' =>
      match exports, imports with
      | exportNode :: exports', importNode :: imports' =>
          exportSlots ← (if (length exportSlots =? 0)%nat
                         then take_slots (slots exportNode) (Z.of_nat (length (slots exportNode)) - avg)
                         else Ret exportSlots);
          let requirements := avg - Z.of_nat (length (slots importNode)) in
          let task l := mkTask (names tasks) exportNode importNode l in
          if requirements <=? Z.of_nat (length exportSlots) then
            l ← take_slots exportSlots requirements;
            rest ← plan_loop fuel' (S tasks) exports imports' (drop (Z.to_nat requirements) exportSlots);
            Ret (task l :: rest)
          else
            rest ← plan_loop fuel' (S tasks) exports' imports [];
            Ret (task exportSlots :: rest)
      | _, _ => Ret []
      end
  end.

(** Every turn moves one of the two indices. *)
Definition plan (nodes : list string) : outcome (list Task) :=
  plan_loop (S (length (exporting nodes) + length (importing nodes))) 0 (exporting nodes) (importing nodes) [].
End plan.

(** [order] is the order in which Go walks over [MasterSlaves]. *)
Definition makeRebalancePlan (names : nat → string) (order : list (string * MasterSlave)) (f : FSM) : outcome (list Task) :=
  plan (contents f) (avgSlot (size (MasterSlaves f))) names ((λ p, MasterId p.2) <$> order).

(** ** Facts *)

Section facts.
Context (slots : string → list Z) (avg : Z) (names : nat → string).

Definition surplus (n : string) : Z := Z.of_nat (length (slots n)) - avg.
Definition need (n : string) : Z := avg - Z.of_nat (length (slots n)).

Definition task_sound (es ims : list string) (t : Task) : Prop :=
  SrcNode t ∈ es ∧ TargetNode t ∈ ims ∧ Slots t ⊆ slots (SrcNode t) ∧ Slots t ≠ [] ∧
  Z.of_nat (length (Slots t)) ≤ need (TargetNode t).

Lemma take_slots_ok l n : 0 ≤ n ≤ Z.of_nat (length l) → take_slots l n = Ret (take (Z.to_nat n) l).
Proof. intros Hn. unfold take_slots. by rewrite !(proj2 (Z.leb_le _ _)) by lia. Qed.

Lemma plan_loop_sound fuel tasks es ims cur :
  (length es + length ims < fuel)%nat →
  Forall (λ n, 1 < surplus n) es → Forall (λ n, 1 < need n) ims → 0 ≤ avg →
  (∀ e es', es = e :: es' → cur ⊆ slots e) →
  ∃ ts, plan_loop slots avg names fuel tasks es ims cur = Ret ts ∧ Forall (task_sound es ims) ts ∧
    (length ts ≤ length es + length ims)%nat.
Proof.
  revert tasks es ims cur. induction fuel as [|fuel IH]; intros tasks es ims cur Hf He Hi Ha Hcur; [lia|].
  destruct es as [|e es]; [exists []; by split_and!; [| |simpl; lia]|].
  destruct ims as [|i ims]; [exists []; by split_and!; [| |simpl; lia]|]. cbn [plan_loop].
  pose proof He as He'. pose proof Hi as Hi'. inversion He as [|? ? He1 He2]; subst. inversion Hi as [|? ? Hi1 Hi2]; subst.
  set (cur' := if (length cur =? 0)%nat then take (Z.to_nat (surplus e)) (slots e) else cur).
  assert ((if (length cur =? 0)%nat then take_slots (slots e) (Z.of_nat (length (slots e)) - avg) else Ret cur) = Ret cur') as ->.
  { unfold cur'. destruct (_ =? _)%nat; [|done]. fold (surplus e). apply take_slots_ok. unfold surplus in *. lia. }
  assert (cur' ⊆ slots e) as Hsub.
  { unfold cur'. destruct (_ =? _)%nat; [|by eapply Hcur]. intros x Hx. by eapply elem_of_take in Hx as (? & ? & _); eapply list_elem_of_lookup_2. }
  assert (cur' ≠ []) as Hne.
  { unfold cur'. destruct (Nat.eqb_spec (length cur) 0) as [Hz|Hz]; [|by intros ->].
    intros E. apply (f_equal length) in E. rewrite length_take in E. unfold surplus in *. simpl in E. lia. }
  cbn [mbind outcome_bind]. cbv zeta. fold (need i). destruct (Z.leb_spec (need i) (Z.of_nat (length cur'))) as [Hle|Hgt].
  - rewrite take_slots_ok by lia. cbn [mbind outcome_bind].
    destruct (IH (S tasks) (e :: es) ims (drop (Z.to_nat (need i)) cur')) as (ts & -> & Hts & Hl); [simpl in *; lia|done|done|done| |].
    { intros e0 es0 [= <- _] x Hx. apply Hsub. rewrite <-(take_drop (Z.to_nat (need i)) cur'). set_solver. }
    exists (mkTask (names tasks) e i (take (Z.to_nat (need i)) cur') :: ts). split; [done|]. split; [|simpl in *; lia].
    constructor.
    + split_and!; simpl; [set_solver|set_solver| | |].
      * intros x Hx. apply Hsub. rewrite <-(take_drop (Z.to_nat (need i)) cur'). set_solver.
      * intros E. apply (f_equal length) in E. rewrite length_take in E. simpl in E. lia.
      * rewrite length_take. lia.
    + eapply Forall_impl; [exact Hts|]. intros t (H1 & H2 & H3). split_and!; [done|set_solver|apply H3..].
  - destruct (IH (S tasks) es (i :: ims) []) as (ts & -> & Hts & Hl); [simpl in *; lia|done|done|done| |].
    { intros e0 es0 _ x Hx. set_solver. }
    exists (mkTask (names tasks) e i cur' :: ts). split; [done|]. split; [|simpl in *; lia]. constructor.
    + split_and!; simpl; [set_solver|set_solver|done|done|lia].
    + eapply Forall_impl; [exact Hts|]. intros t (H1 & H2 & H3). split_and!; [set_solver|done|apply H3..].
Qed.

(** A first export that one importer uses up is planned a second time. *)
Lemma plan_loop_twice fuel tasks e es i j ims : (2 ≤ fuel)%nat → 1 < surplus e → 0 ≤ avg → 1 < need j →
  need i = surplus e → ∀ ts, plan_loop slots avg names fuel tasks (e :: es) (i :: j :: ims) [] = Ret ts →
  ∃ t1 t2 rest x, ts = t1 :: t2 :: rest ∧ TargetNode t1 = i ∧ TargetNode t2 = j ∧ x ∈ Slots t1 ∧ x ∈ Slots t2.
Proof.
  intros Hf Hs Ha Hj Hi ts. destruct fuel as [|[|fuel]]; [lia|lia|]. cbn [plan_loop].
  set (cur := take (Z.to_nat (surplus e)) (slots e)).
  assert (take_slots (slots e) (Z.of_nat (length (slots e)) - avg) = Ret cur) as Ecur.
  { fold (surplus e). apply take_slots_ok. unfold surplus in *. lia. }
  assert (Z.of_nat (length cur) = surplus e) as Hlen by (unfold cur, surplus in *; rewrite length_take; lia).
  assert (∃ x cur', cur = x :: cur') as (x & cur' & Ex).
  { destruct cur as [|x cur'] eqn:E; [|by exists x, cur']. simpl in Hlen. lia. }
  cbn [length Nat.eqb]. rewrite Ecur. cbn [mbind outcome_bind]. cbv zeta. fold (need i) (need j).
  rewrite (proj2 (Z.leb_le (need i) _)) by lia. rewrite take_slots_ok by lia. cbn [mbind outcome_bind].
  rewrite drop_ge by lia. cbn [length Nat.eqb]. cbn [mbind outcome_bind].
  rewrite (take_ge cur) by lia.
  destruct (Z.leb_spec (need j) (Z.of_nat (length cur))) as [Hle|Hgt].
  - rewrite take_slots_ok by lia. cbn [mbind outcome_bind]. intros E.
    destruct (plan_loop _ _ _ _ _ _ _ _) as [rest| |]; [|done..]. injection E as <-.
    exists (mkTask (names tasks) e i cur), (mkTask (names (S tasks)) e j (take (Z.to_nat (need j)) cur)), rest, x. split_and!; [done..| |].
    + simpl. rewrite Ex. set_solver.
    + simpl. rewrite Ex. destruct (Z.to_nat (need j)) eqn:En; [lia|]. simpl. set_solver.
  - intros E. destruct (plan_loop _ _ _ _ _ _ _ _) as [rest| |]; [|done..]. injection E as <-.
    exists (mkTask (names tasks) e i cur), (mkTask (names (S tasks)) e j cur), rest, x. split_and!; [done..| |]; simpl; rewrite Ex; set_solver.
Qed.

(** The plan takes a node's surplus twice: when the first node with too many slots has
    exactly what the first node with too few needs, and a second node needs slots too, the
    plan has two migrations of the same slot, to two different nodes. *)
Theorem rebalance_repeats_slots (nodes : list string) (e i j : string) (es ims : list string) :
  0 ≤ avg → exporting slots avg nodes = e :: es → importing slots avg nodes = i :: j :: ims → need i = surplus e →
  ∃ t1 t2 rest x, plan slots avg names nodes = Ret (t1 :: t2 :: rest) ∧
    TargetNode t1 = i ∧ TargetNode t2 = j ∧ x ∈ Slots t1 ∧ x ∈ Slots t2.
Proof.
  intros Ha He Hi Heq. unfold plan. rewrite He, Hi.
  assert (Forall (λ n, 1 < surplus n) (e :: es)) as Fe.
  { rewrite <-He. apply Forall_forall. intros n Hn. apply list_elem_of_filter in Hn as [Hn _]. unfold surplus. lia. }
  assert (Forall (λ n, 1 < need n) (i :: j :: ims)) as Fi.
  { rewrite <-Hi. apply Forall_forall. intros n Hn. apply list_elem_of_filter in Hn as [Hn _]. unfold need. lia. }
  destruct (plan_loop_sound (S (length (e :: es) + length (i :: j :: ims))) 0 (e :: es) (i :: j :: ims) []) as (ts & E & _ & _);
    [lia|done|done|done|set_solver|].
  destruct (plan_loop_twice (S (length (e :: es) + length (i :: j :: ims))) 0 e es i j ims) with (ts := ts) as (t1 & t2 & rest & x & -> & H1);
    [simpl; lia|by inversion Fe|done|by inversion Fi as [|? ? _ Fi']; inversion Fi'|done|done|].
  exists t1, t2, rest, x. by split.
Qed.
End facts.

Lemma filter_exclusive {A} (P Q : A → Prop) `{∀ x, Decision (P x)} `{∀ x, Decision (Q x)} (l : list A) :
  (∀ x, P x → Q x → False) → (length (filter P l) + length (filter Q l) ≤ length l)%nat.
Proof.
  intros Hx. induction l as [|x l IH]; [done|]. rewrite !filter_cons. specialize (Hx x).
  repeat case_decide; simpl; [by exfalso; apply Hx|lia..].
Qed.

(** [C21] For every route table whose two maps agree and whose lists are ascending ([fsm_ok], as after
    every valid log; a restored or failed-over table may list slots its node does not host), and
    whatever the order of the walk, a plan is made (no index runs out
    of range, and the loop ends after at most one migration per node), and every migration
    moves slots that its source hosts, at least one, to another node, and never more than that
    node is short of the average. *)
Theorem rebalance_plan_sound (names : nat → string) (order : list (string * MasterSlave)) (f : FSM) :
  fsm_ok f →
  let avg := avgSlot (size (MasterSlaves f)) in
  ∃ ts, makeRebalancePlan names order f = Ret ts ∧ (length ts ≤ length order)%nat ∧
    Forall (λ t, SrcNode t ≠ TargetNode t ∧ Slots t ≠ [] ∧
      (∀ x, x ∈ Slots t → PickNode f x = SrcNode t) ∧
      Z.of_nat (length (contents f (TargetNode t)) + length (Slots t)) ≤ avg) ts.
Proof.
  intros Hok avg. unfold makeRebalancePlan. fold avg. set (nodes := (λ p, MasterId p.2) <$> order). unfold plan.
  assert (0 ≤ avg) as Ha.
  { unfold avg, avgSlot. destruct (size (MasterSlaves f)) as [|n]; [by compute|]. apply Z.div_pos; unfold ClusterSlots; lia. }
  set (es := exporting _ _ nodes). set (ims := importing _ _ nodes).
  destruct (plan_loop_sound (contents f) avg names (S (length es + length ims)) 0 es ims []) as (ts & -> & Hts & Hl); [lia| | |done|set_solver|].
  { apply Forall_forall. intros n Hn. apply list_elem_of_filter in Hn as [Hn _]. unfold surplus. lia. }
  { apply Forall_forall. intros n Hn. apply list_elem_of_filter in Hn as [Hn _]. unfold need. lia. }
  exists ts. split; [done|]. split.
  { assert (length es + length ims ≤ length nodes)%nat by (apply filter_exclusive; intros n; lia).
    unfold nodes in *. rewrite length_fmap in *. lia. }
  eapply Forall_impl; [exact Hts|]. intros t (H1 & H2 & H3 & H4 & H5). unfold es in H1. unfold ims in H2.
  apply list_elem_of_filter in H1 as [H1 _]. apply list_elem_of_filter in H2 as [H2 _]. split_and!.
  - intros E. rewrite E in H1. lia.
  - done.
  - intros x Hx. apply H3, (ok_routes f Hok) in Hx. unfold PickNode. by rewrite Hx.
  - unfold need in H5. lia.
Qed.

#[local] Existing Instance doubling_runtime.

(** Two nodes share all slots, two more have joined. *)
Definition four_nodes (n : string) : list Z :=
  if String.eqb n "a" then seqZ 0 512 else if String.eqb n "b" then seqZ 512 512 else [].

Lemma rebalance_repeats_slots_witness :
  ∃ t1 t2 rest x, plan four_nodes (avgSlot 4) (λ _, "task") ["a"; "b"; "c"; "d"] = Ret (t1 :: t2 :: rest) ∧
    TargetNode t1 = "c" ∧ TargetNode t2 = "d" ∧ x ∈ Slots t1 ∧ x ∈ Slots t2.
Proof.
  apply (rebalance_repeats_slots four_nodes (avgSlot 4) (λ _, "task") ["a"; "b"; "c"; "d"] "a" "c" "d" ["b"] []);
    [done|vm_compute; reflexivity..].
Defined.

Lemma rebalance_plan_sound_witness :
  ∃ f ts, apply_log [seed "a" 1024; join "b" ""] new_FSM = (Ret tt, f) ∧
    makeRebalancePlan (λ _, "task") [("a", mkMasterSlave "a" []); ("b", mkMasterSlave "b" [])] f = Ret ts ∧ (length ts ≤ 2)%nat.
Proof.
  destruct (apply_log_ok [seed "a" 1024; join "b" ""]) as (f & E & Hok & _).
  { split; [split_and!; [reflexivity|reflexivity|cbn; lia|cbn; lia]|]. by split. }
  exists f. refine (match rebalance_plan_sound (λ _, "task") [("a", mkMasterSlave "a" []); ("b", mkMasterSlave "b" [])] f Hok with
          | ex_intro _ ts P => ex_intro _ ts (conj E (conj (proj1 P) (proj1 (proj2 P)))) end).
Defined.
End Rebalance.
