(* ===== verification/Utils.v ===== *)
(** * lib/utils: byte comparison, ranges, duplicates *)

From Stdlib Require Import ZArith Lia Ascii String.
From stdpp Require Import base gmap strings numbers list.
From S2P Require Import Prelude GoStd.

Local Open Scope Z_scope.

(** The comparison loop of [BytesEquals]. *)
Fixpoint bytes_eq_loop (a b : list ascii) : bool :=
  match a, b with
  | x :: a', y :: b' => if negb (Ascii.eqb x y) then false else bytes_eq_loop a' b'
  | _, _ => true
  end.

Definition BytesEquals (a b : bytes) : bool :=
  if (bool_decide (a = None) && negb (bool_decide (b = None)))
     || (negb (bool_decide (a = None)) && bool_decide (b = None)) then false
  else if negb (blen a =? blen b) then false
  else bytes_eq_loop (to_bytes (str a)) (to_bytes (str b)).

(** [Equals] on the values the server compares, which are byte slices. *)
Definition Equals (a b : bytes) : bool := BytesEquals a b.

Definition ConvertRange (start stop size : Z) : Z * Z :=
  if start <? int64 (- size) then (-1, -1)
  else if (0 <=? start) && (start >=? size) then (-1, -1)
  else
    let start := if start <? 0 then int64 (size + start) else start in
    if stop <? int64 (- size) then (-1, -1)
    else
      let stop := if stop <? 0 then int64 (int64 (size + stop) + 1) else if stop <? size then int64 (stop + 1) else size in
      if start >? stop then (-1, -1) else (start, stop).

(** [uniqueMap] is the set of the strings seen so far. *)
Fixpoint remove_dup_loop (input : list bytes) (uniqueMap : gset string) (result : list bytes) : list bytes :=
  match input with
  | [] => result
  | item :: input' =>
      if decide (str item ∈ uniqueMap) then remove_dup_loop input' uniqueMap result
      else remove_dup_loop input' ({[str item]} ∪ uniqueMap) (result ++ [item])
  end.

Definition RemoveDuplicates (input : list bytes) : list bytes := remove_dup_loop input ∅ [].

(** ** Lemmas *)

Lemma bytes_eq_loop_spec a b : length a = length b → bytes_eq_loop a b = bool_decide (a = b).
Proof.
  revert b. induction a as [|x a IH]; intros [|y b] Hl; simpl in *; try done.
  destruct (Ascii.eqb x y) eqn:E; simpl.
  - apply Ascii.eqb_eq in E as ->. rewrite IH by lia. by case_bool_decide; case_bool_decide; simplify_eq.
  - apply Ascii.eqb_neq in E. by rewrite bool_decide_eq_false_2 by congruence.
Qed.

(** Two slices are equal when both are nil or both hold the same bytes. *)
Lemma BytesEquals_spec a b : BytesEquals a b = bool_decide (a = b).
Proof.
  unfold BytesEquals, blen. destruct a as [a|], b as [b|]; simpl; try done.
  destruct (_ =? _) eqn:E; unbool; simpl.
  - rewrite bytes_eq_loop_spec by (rewrite !length_to_bytes; lia).
    apply bool_decide_ext. split; [intros ->%to_bytes_inj; done|by intros [= ->]].
  - rewrite bool_decide_eq_false_2; [done|]. intros [= ->]. done.
Qed.

(** [C39] For 64-bit ends and a length [size], [ConvertRange] turns an inclusive Redis range into the
    half-open slice range of the same positions: the result is the out-of-range marker or a pair
    that can index a slice of [size] elements, and a position is selected exactly
    when it lies between the two ends once negative ends are counted from the
    back; the marker is returned only when no position is selected or one of the
    ends lies before the first element.  (So [0, 10] gives [0, 11), not [0, 9) as the comment
    above the function says.) *)
Theorem ConvertRange_spec (start stop size : Z) : is_int64 start → is_int64 stop → 0 ≤ size ≤ int64_max →
  let from_end i := if i <? 0 then size + i else i in
  match ConvertRange start stop size with
  | (b, e) =>
      (b = -1 ∧ e = -1 ∧
        (start < - size ∨ stop < - size ∨ ∀ i, 0 ≤ i < size → ¬ (from_end start ≤ i ≤ from_end stop))) ∨
      (0 ≤ b ≤ e ∧ b < size ∧ e ≤ size ∧
        ∀ i, b ≤ i < e ↔ (0 ≤ i < size ∧ from_end start ≤ i ≤ from_end stop))
  end.
Proof.
  intros [Hs1 Hs2] [Ht1 Ht2] Hsize. cbv zeta. unfold ConvertRange. unfold int64_min, int64_max in *.
  rewrite (int64_id (- size)) by (unfold is_int64, int64_min, int64_max; lia).
  replace (if start <? 0 then int64 (size + start) else start) with (if start <? 0 then size + start else start)
    by (destruct (start <? 0) eqn:E; unbool; [rewrite int64_id by (unfold is_int64, int64_min, int64_max; lia)|]; done).
  replace (if stop <? 0 then int64 (int64 (size + stop) + 1) else if stop <? size then int64 (stop + 1) else size)
    with (if stop <? 0 then size + stop + 1 else if stop <? size then stop + 1 else size)
    by (destruct (stop <? 0) eqn:E, (stop <? size) eqn:E'; unbool; rewrite ?int64_id by (rewrite ?int64_id; unfold is_int64, int64_min, int64_max; lia); done).
  destruct (start <? - size) eqn:E1, (start <? 0) eqn:E2, (0 <=? start) eqn:E3, (start >=? size) eqn:E4,
    (stop <? - size) eqn:E5, (stop <? 0) eqn:E6, (stop <? size) eqn:E7; simpl;
    try (destruct (_ >? _) eqn:E8); unbool;
    first [lia | left; split_and!; [lia..|]; lia | right; split_and!; lia
          | left; split_and!; [lia..|]; right; right; intros i Hi [H1 H2]; lia].
Qed.

Lemma ConvertRange_spec_witness :
  ConvertRange 0 10 20 = (0, 11) ∧ ∀ i, 0 ≤ i < 11 ↔ 0 ≤ i < 20 ∧ 0 ≤ i ≤ 10.
Proof.
  assert (is_int64 0 ∧ is_int64 10 ∧ 0 ≤ 20 ≤ int64_max) as (H1 & H2 & H3) by (unfold is_int64, int64_min, int64_max; lia).
  split; [reflexivity|]. destruct (ConvertRange_spec 0 10 20 H1 H2 H3) as [[E _]|(_ & _ & _ & E)]; [done|exact E].
Defined.

Lemma remove_dup_loop_spec input seen acc :
  (∀ x, x ∈ seen ↔ x ∈ str <$> acc) → NoDup (str <$> acc) →
  let r := remove_dup_loop input seen acc in
  NoDup (str <$> r) ∧ acc `prefix_of` r ∧ (∀ x, x ∈ str <$> r ↔ x ∈ str <$> (acc ++ input)) ∧
  sublist r (acc ++ input).
Proof.
  revert seen acc. induction input as [|a input IH]; intros seen acc Hseen Hnd; simpl.
  { rewrite app_nil_r. split_and!; done. }
  case_decide as Hin.
  - destruct (IH seen acc Hseen Hnd) as (H1 & H2 & H3 & H4). split_and!; [done..| |].
    + intros x. rewrite H3, !fmap_app, fmap_cons. apply Hseen in Hin. set_solver.
    + etransitivity; [done|]. apply sublist_app; [done|]. by constructor.
  - destruct (IH ({[str a]} ∪ seen) (acc ++ [a])) as (H1 & H2 & H3 & H4).
    + intros x. rewrite fmap_app. simpl. set_solver.
    + rewrite fmap_app. apply list.NoDup_app. split_and!; [done| |apply NoDup_singleton].
      intros x Hx ->%list_elem_of_singleton. apply Hin. by apply Hseen.
    + split_and!; [done| | |].
      * etransitivity; [|done]. by apply prefix_app_r.
      * intros x. rewrite H3. by rewrite <-app_assoc.
      * by rewrite <-app_assoc in H4.
Qed.

Lemma RemoveDuplicates_spec input :
  NoDup (str <$> RemoveDuplicates input) ∧ sublist (RemoveDuplicates input) input ∧
  ∀ x, x ∈ str <$> RemoveDuplicates input ↔ x ∈ str <$> input.
Proof.
  destruct (remove_dup_loop_spec input ∅ []) as (H1 & _ & H3 & H4); [set_solver|constructor|done].
Qed.
