(* ===== verification/Wildcard.v ===== *)
(** * lib/wildcard: glob patterns

    [CompilePattern] rewrites a glob as a regular expression and hands it to Go's
    regexp package, a parameter here.  What is documented of that package on the
    expressions of interest is the class [RegexpLaws]; with it, the matcher of a
    glob of characters, escapes, [?] and [*] is the glob's own meaning, except that
    [?] and [*] never match a line feed. *)

From Stdlib Require Import ZArith Lia Ascii String.
From stdpp Require Import base gmap strings numbers list.
From S2P Require Import Prelude GoStd.

Local Open Scope string_scope.
Local Open Scope list_scope.

Module Wildcard.

(** ** wildcard.go *)

Definition replaceMap (ch : ascii) : option string :=
  match ch with
  | "+"%char => Some "\+"
  | ")"%char => Some "\)"
  | "$"%char => Some "\$"
  | "."%char => Some "\."
  | "{"%char => Some "\{"
  | "}"%char => Some "\}"
  | "|"%char => Some "\|"
  | "*"%char => Some ".*"
  | "?"%char => Some "."
  | _ => None
  end.

(** What a caret becomes: [prev1] and [prev2] are the two bytes before it. *)
Definition caret (prev2 prev1 : option ascii) : string :=
  match prev1 with
  | None => "\^"
  | Some c1 =>
      match prev2 with
      | None => if Ascii.eqb c1 "[" then "^" else "\^"
      | Some c2 => if Ascii.eqb c1 "[" && negb (Ascii.eqb c2 "\") then "^" else "\^"
      end
  end.

(** The loop of [CompilePattern]; [None]: the pattern ends with an escape. *)
Fixpoint regex_loop (prev2 prev1 : option ascii) (rest : list ascii) : option string :=
  match rest with
  | [] => Some ""
  | ch :: rest' =>
      if Ascii.eqb ch "\" then
        match rest' with
        | [] => None
        | c :: rest'' => tail ← regex_loop (Some ch) (Some c) rest''; Some (String ch (String c tail))
        end
      else if Ascii.eqb ch "^" then
        tail ← regex_loop prev1 (Some ch) rest'; Some (caret prev2 prev1 +:+ tail)
      else
        match replaceMap ch with
        | Some escaped => tail ← regex_loop prev1 (Some ch) rest'; Some (escaped +:+ tail)
        | None => tail ← regex_loop prev1 (Some ch) rest'; Some (String ch tail)
        end
  end.

(** [regexp.Compile]: the matcher of an expression, or [None] on an error. *)
Abbreviation Compiler := (string → option (string → bool)).

Definition CompilePattern (Compile : Compiler) (src : string) : option (string → bool) :=
  body ← regex_loop None None (to_bytes src);
  Compile (String "^" (body +:+ "$")).

Definition IsMatch (exp : string → bool) (s : string) : bool := exp s.

(** ** What is documented of package regexp *)

(** The atoms [CompilePattern] writes: a byte as itself, a byte behind a backslash,
    [.] and [.*]. *)
Inductive atom := Byte (c : ascii) | Escaped (c : ascii) | Dot | DotStar.

Definition show_atom (a : atom) : string :=
  match a with
  | Byte c => String c ""
  | Escaped c => String "\" (String c "")
  | Dot => "."
  | DotStar => ".*"
  end.

Definition show (r : list atom) : string := foldr (λ a s, show_atom a +:+ s) "" r.

Definition ascii7 (c : ascii) : bool := (nat_of_ascii c <? 128)%nat.

Definition is_meta (c : ascii) : bool :=
  existsb (Ascii.eqb c) ["\"; "."; "+"; "*"; "?"; "("; ")"; "|"; "["; "]"; "{"; "}"; "^"; "$"]%char.

Definition is_word (c : ascii) : bool :=
  let n := nat_of_ascii c in
  (48 <=? n)%nat && (n <=? 57)%nat || (65 <=? n)%nat && (n <=? 90)%nat ||
  (97 <=? n)%nat && (n <=? 122)%nat || (n =? 95)%nat.

(** A byte stands for itself unless it is a metacharacter; a backslash makes
    punctuation literal and gives letters and digits other meanings. *)
Definition atom_ok (a : atom) : bool :=
  match a with
  | Byte c => ascii7 c && negb (is_meta c)
  | Escaped c => ascii7 c && negb (is_word c)
  | Dot | DotStar => true
  end.

Definition not_newline (c : ascii) : bool := negb (Ascii.eqb c "010").

(** Matching of the whole subject. *)
Fixpoint matches (r : list atom) (s : list ascii) : bool :=
  match r with
  | [] => match s with [] => true | _ => false end
  | Byte c :: r' | Escaped c :: r' => match s with x :: s' => Ascii.eqb c x && matches r' s' | [] => false end
  | Dot :: r' => match s with x :: s' => not_newline x && matches r' s' | [] => false end
  | DotStar :: r' =>
      (fix star s := matches r' s || match s with x :: s' => not_newline x && star s' | [] => false end) s
  end.

Class RegexpLaws (Compile : Compiler) : Prop := {
  compile_atoms r : forallb atom_ok r = true →
    ∃ m, Compile (String "^" (show r +:+ "$")) = Some m ∧
      ∀ s, forallb ascii7 (to_bytes s) = true → m s = matches r (to_bytes s)
}.

(** ** Globs *)

Inductive token := Char (c : ascii) | Question | Star.

(** The tokens of a glob without brackets and opening parentheses; an escape makes
    one punctuation character literal. *)
Fixpoint glob (rest : list ascii) : option (list token) :=
  match rest with
  | [] => Some []
  | ch :: rest' =>
      if negb (ascii7 ch) then None
      else if Ascii.eqb ch "\" then
        match rest' with
        | c :: rest'' => if ascii7 c && negb (is_word c) then (Char c ::.) <$> glob rest'' else None
        | [] => None
        end
      else if Ascii.eqb ch "*" then (Star ::.) <$> glob rest'
      else if Ascii.eqb ch "?" then (Question ::.) <$> glob rest'
      else if existsb (Ascii.eqb ch) ["["; "]"; "("]%char then None
      else (Char ch ::.) <$> glob rest'
  end.

Fixpoint glob_match (ts : list token) (s : list ascii) : bool :=
  match ts with
  | [] => match s with [] => true | _ => false end
  | Char c :: ts' => match s with x :: s' => Ascii.eqb c x && glob_match ts' s' | [] => false end
  | Question :: ts' => match s with x :: s' => not_newline x && glob_match ts' s' | [] => false end
  | Star :: ts' =>
      (fix star s := glob_match ts' s || match s with x :: s' => not_newline x && star s' | [] => false end) s
  end.

(** ** Proofs *)

Definition token_of (a : atom) : token :=
  match a with Byte c | Escaped c => Char c | Dot => Question | DotStar => Star end.

Lemma matches_tokens r s : matches r s = glob_match (token_of <$> r) s.
Proof.
  revert s. induction r as [|a r IH]; intros s; [done|].
  destruct a; cbn [matches glob_match fmap list_fmap token_of]; [by destruct s; rewrite ?IH..|].
  induction s as [|x s IHs]; [by rewrite IH|]. by rewrite IH, IHs.
Qed.

(** The atom of a character that is neither an escape nor a wildcard. *)
Definition char_atom (ch : ascii) : atom :=
  if Ascii.eqb ch "^" then Escaped ch
  else match replaceMap ch with Some _ => Escaped ch | None => Byte ch end.

(** A character of a glob: what the loop writes for it. *)
Lemma plain_char ch :
  ascii7 ch = true → Ascii.eqb ch "\" = false → Ascii.eqb ch "*" = false → Ascii.eqb ch "?" = false →
  existsb (Ascii.eqb ch) ["["; "]"; "("]%char = false →
  atom_ok (char_atom ch) = true ∧ token_of (char_atom ch) = Char ch ∧
  (ch ≠ "^"%char → match replaceMap ch with Some e => e | None => String ch "" end = show_atom (char_atom ch)).
Proof.
  intros H7 H1 H2 H3 H4. destruct ch as [[] [] [] [] [] [] [] []]; try discriminate; by split_and!.
Qed.

(** A bracket in a glob always has its backslash in front. *)
Definition bracket_escaped (prev2 prev1 : option ascii) : Prop := prev1 = Some "["%char → prev2 = Some "\"%char.

Lemma caret_literal prev2 prev1 : bracket_escaped prev2 prev1 → caret prev2 prev1 = "\^".
Proof.
  intros Hb. unfold caret. destruct prev1 as [c1|]; [|done]. destruct (Ascii.eqb_spec c1 "[") as [->|].
  - by rewrite Hb.
  - by destruct prev2.
Qed.

Lemma regex_loop_glob n rest prev2 prev1 ts :
  (length rest ≤ n)%nat → bracket_escaped prev2 prev1 → glob rest = Some ts →
  ∃ r, regex_loop prev2 prev1 rest = Some (show r) ∧ forallb atom_ok r = true ∧ token_of <$> r = ts.
Proof.
  revert rest prev2 prev1 ts. induction n as [|n IH]; intros rest prev2 prev1 ts Hn Hb Hg;
    (destruct rest as [|ch rest]; simpl in Hn; [injection Hg as <-; by exists []|]); [lia|].
  assert (∀ ts', glob rest = Some ts' → ch ≠ "["%char →
    ∃ r, regex_loop prev1 (Some ch) rest = Some (show r) ∧ forallb atom_ok r = true ∧ token_of <$> r = ts') as Hstep.
  { intros ts' Hg' Hch. apply IH; [lia| |done]. intros [=]. done. }
  cbn [glob] in Hg. destruct (ascii7 ch) eqn:E7; [|done]. cbn [negb] in Hg. cbn [regex_loop].
  destruct (Ascii.eqb ch "\") eqn:E1.
  { apply Ascii.eqb_eq in E1 as ->. destruct rest as [|c rest]; [done|].
    destruct (ascii7 c && negb (is_word c)) eqn:Ec; [|done]. apply fmap_Some in Hg as (ts' & Hg & ->).
    destruct (IH rest (Some "\"%char) (Some c) ts') as (r & -> & Hr & <-); [simpl in Hn; lia|done|done|].
    exists (Escaped c :: r). split_and!; [done| |done]. cbn [forallb atom_ok]. by rewrite Ec. }
  destruct (Ascii.eqb ch "*") eqn:E2.
  { apply Ascii.eqb_eq in E2 as ->. apply fmap_Some in Hg as (ts' & Hg & ->).
    destruct (Hstep ts' Hg) as (r & E & Hr & <-); [done|]. simpl in *. rewrite E. by exists (DotStar :: r). }
  destruct (Ascii.eqb ch "?") eqn:E3.
  { apply Ascii.eqb_eq in E3 as ->. apply fmap_Some in Hg as (ts' & Hg & ->).
    destruct (Hstep ts' Hg) as (r & E & Hr & <-); [done|]. simpl in *. rewrite E. by exists (Dot :: r). }
  destruct (existsb _ _) eqn:E4; [done|]. apply fmap_Some in Hg as (ts' & Hg & ->).
  destruct (Hstep ts' Hg) as (r & E & Hr & <-).
  { intros ->. done. }
  destruct (plain_char ch E7 E1 E2 E3 E4) as (Ha & Ht & Hs). exists (char_atom ch :: r).
  cbn [forallb fmap list_fmap]. rewrite Ha, Ht, E. split_and!; [|done..]. cbn [show foldr].
  destruct (Ascii.eqb_spec ch "^") as [->|Hne].
  - by rewrite (caret_literal _ _ Hb).
  - rewrite <-(Hs Hne). by destruct (replaceMap ch).
Qed.

(** [C40] For a glob of ASCII characters other than brackets and opening parentheses, in which a
    backslash stands before an ASCII character that is no letter, digit or underscore (these may
    be brackets and parentheses), [?] and [*], [CompilePattern] succeeds, and the matcher accepts
    an ASCII string exactly when the glob describes it: [?] stands for one character and [*] for
    any run of characters, line feeds excepted.  (A bare opening parenthesis is handed on to the
    regular expression.) *)
Theorem CompilePattern_glob (Compile : Compiler) (src : string) (ts : list token) :
  RegexpLaws Compile → glob (to_bytes src) = Some ts →
  ∃ m, CompilePattern Compile src = Some m ∧
    ∀ s, forallb ascii7 (to_bytes s) = true → IsMatch m s = glob_match ts (to_bytes s).
Proof.
  intros Hc Hg. destruct (regex_loop_glob _ _ None None ts (le_n _) ltac:(done) Hg) as (r & E & Hr & <-).
  unfold CompilePattern. rewrite E. destruct (compile_atoms r Hr) as (m & Hm & Hs). exists m.
  split; [exact Hm|]. intros s Hascii. unfold IsMatch. rewrite (Hs s Hascii). apply matches_tokens.
Qed.

(** ** A small regular expression package *)

(** The atoms of an expression up to the dollar at its end. *)
Fixpoint parse_atoms (l : list ascii) : option (list atom) :=
  match l with
  | [] => None
  | c :: l' =>
      if Ascii.eqb c "$" then match l' with [] => Some [] | _ => None end
      else if Ascii.eqb c "\" then
        match l' with
        | d :: l'' => if ascii7 d && negb (is_word d) then (Escaped d ::.) <$> parse_atoms l'' else None
        | [] => None
        end
      else if Ascii.eqb c "." then
        match l' with
        | d :: l'' => if Ascii.eqb d "*" then (DotStar ::.) <$> parse_atoms l'' else (Dot ::.) <$> parse_atoms l'
        | [] => None
        end
      else if ascii7 c && negb (is_meta c) then (Byte c ::.) <$> parse_atoms l' else None
  end.

Definition small_regexp : Compiler := λ src,
  match to_bytes src with
  | c :: l => if Ascii.eqb c "^" then (λ r s, matches r (to_bytes s)) <$> parse_atoms l else None
  | [] => None
  end.

Lemma parse_atoms_show r : forallb atom_ok r = true → parse_atoms (to_bytes (show r +:+ "$")) = Some r.
Proof.
  induction r as [|a r IH]; [done|]. intros Ha. cbn [forallb] in Ha. apply andb_true_iff in Ha as [Ha Hr].
  specialize (IH Hr). destruct a as [c|c| |].
  - cbn [atom_ok] in Ha. simpl in *. rewrite Ha.
    assert (Ascii.eqb c "$" = false ∧ Ascii.eqb c "\" = false ∧ Ascii.eqb c "." = false) as (-> & -> & ->).
    { apply andb_true_iff in Ha as [_ Ha]. by destruct c as [[] [] [] [] [] [] [] []]. }
    change ("" +:+ show r) with (show r). by rewrite IH.
  - cbn [atom_ok] in Ha. simpl in *. change ("" +:+ show r) with (show r). by rewrite Ha, IH.
  - simpl in *. change ("" +:+ show r) with (show r). destruct (to_bytes (show r +:+ "$")) as [|d l] eqn:E; [done|].
    destruct (Ascii.eqb d "*") eqn:Ed; [|by rewrite IH]. apply Ascii.eqb_eq in Ed as ->. by simpl in IH.
  - simpl in *. change ("" +:+ show r) with (show r). by rewrite IH.
Qed.

#[export] Instance small_regexp_laws : RegexpLaws small_regexp.
Proof.
  split. intros r Hr. eexists. split; [|done]. unfold small_regexp. simpl. by rewrite (parse_atoms_show r Hr).
Qed.

(** The patterns of the tests, and a key with a line feed that a star does not match. *)
Lemma CompilePattern_glob_witness :
  ∃ m, CompilePattern small_regexp "a?c*" = Some m ∧
    IsMatch m "abcde" = true ∧ IsMatch m "ac" = false ∧ IsMatch m (String.append "abc" (String "010" "")) = false.
Proof.
  destruct (CompilePattern_glob small_regexp "a?c*" [Char "a"; Question; Char "c"; Star] _ eq_refl) as (m & Hm & Hs).
  exists m. split; [exact Hm|]. by rewrite !Hs.
Defined.
End Wildcard.
