(* ===== verification/Border.v ===== *)
(** * datastruct/sortedset/border.go: elements, scores and range borders

    A score is a [float64], written with the Standard Library's [spec_float]: its
    comparisons are those of the language, NaN and the two zeros included.  Away
    from NaN they are a total preorder, which [score_key] makes visible.  Reading a
    number from text is [strconv.ParseFloat], a parameter. *)

From Stdlib Require Import ZArith Lia Ascii String.
From Stdlib Require Import Floats.SpecFloat.
From stdpp Require Import base gmap strings numbers list.
From S2P Require Import Prelude GoStd.

Local Open Scope string_scope.
Local Open Scope list_scope.
Local Open Scope Z_scope.
Local Open Scope go_scope.

(** ** Scores *)

Abbreviation float64 := spec_float.

Definition is_nan (f : float64) : bool := match f with S754_nan => true | _ => false end.

(** Where a number stands: its class, its exponent and its mantissa, in this order. *)
Definition score_key (f : float64) : Z * Z * Z :=
  match f with
  | S754_infinity true => (-2, 0, 0)
  | S754_finite true m e => (-1, - e, Z.neg m)
  | S754_zero _ | S754_nan => (0, 0, 0)
  | S754_finite false m e => (1, e, Z.pos m)
  | S754_infinity false => (2, 0, 0)
  end.

Definition key_lt (a b : Z * Z * Z) : Prop :=
  a.1.1 < b.1.1 ∨ a.1.1 = b.1.1 ∧ (a.1.2 < b.1.2 ∨ a.1.2 = b.1.2 ∧ a.2 < b.2).

Lemma pos_compare_cases m n :
  match Pos.compare_cont Eq m n with
  | Lt => (m < n)%positive | Eq => m = n | Gt => (n < m)%positive
  end.
Proof.
  change (Pos.compare_cont Eq m n) with (m ?= n)%positive. destruct (m ?= n)%positive eqn:E.
  - by apply Pos.compare_eq.
  - done.
  - by apply Pos.gt_lt.
Qed.

Lemma SFcompare_key a b :
  is_nan a = false → is_nan b = false →
  match SFcompare a b with
  | Some Lt => key_lt (score_key a) (score_key b)
  | Some Eq => score_key a = score_key b
  | Some Gt => key_lt (score_key b) (score_key a)
  | None => False
  end.
Proof.
  destruct a as [s1|s1| |s1 m1 e1], b as [s2|s2| |s2 m2 e2]; intros Ha Hb; try done.
  all: destruct s1; try destruct s2; simpl; unfold key_lt; simpl; try lia; try done.
  all: destruct (Z.compare_spec e1 e2) as [->| |]; [|lia..]; pose proof (pos_compare_cases m1 m2) as Hc;
    destruct (Pos.compare_cont Eq m1 m2); simpl; subst; try lia; done.
Qed.

Lemma SFltb_key a b : is_nan a = false → is_nan b = false →
  SFltb a b = true ↔ key_lt (score_key a) (score_key b).
Proof.
  intros Ha Hb. pose proof (SFcompare_key a b Ha Hb) as Hc. unfold SFltb, key_lt in *.
  destruct (SFcompare a b) as [[]|]; [rewrite Hc| | |]; split; try done; intros; lia.
Qed.

Lemma SFeqb_key a b : is_nan a = false → is_nan b = false →
  SFeqb a b = true ↔ score_key a = score_key b.
Proof.
  intros Ha Hb. pose proof (SFcompare_key a b Ha Hb) as Hc. unfold SFeqb, key_lt in *.
  destruct (SFcompare a b) as [[]|]; try done; split; try done; intros E; rewrite E in Hc; lia.
Qed.

Lemma SFleb_key a b : is_nan a = false → is_nan b = false →
  SFleb a b = true ↔ ¬ key_lt (score_key b) (score_key a).
Proof.
  intros Ha Hb. pose proof (SFcompare_key a b Ha Hb) as Hc. unfold SFleb, key_lt in *.
  destruct (SFcompare a b) as [[]|]; [rewrite Hc| | |]; split; try done; intros; try lia.
Qed.

(** ** Elements *)

Record Element := mkElement { Member : string; Score : float64 }.

(** The order of a skip list: by score, then by member. *)
Definition before (e : Element) (score : float64) (member : string) : bool :=
  SFltb (Score e) score || (SFeqb (Score e) score && string_ltb (Member e) member).

(** The test of [getRank], which also passes the element itself. *)
Definition not_after (e : Element) (score : float64) (member : string) : bool :=
  SFltb (Score e) score || (SFeqb (Score e) score && string_leb (Member e) member).

(** [e] stands before [f]. *)
Definition elt_lt (e f : Element) : Prop := before e (Score f) (Member f) = true.

#[export] Instance elt_lt_dec e f : Decision (elt_lt e f).
Proof. unfold elt_lt. apply _. Defined.

Definition real (e : Element) : Prop := is_nan (Score e) = false.

Lemma before_key e s m : real e → is_nan s = false →
  before e s m = true ↔
  key_lt (score_key (Score e)) (score_key s) ∨ score_key (Score e) = score_key s ∧ string_ltb (Member e) m = true.
Proof.
  intros He Hs. unfold before. rewrite orb_true_iff, andb_true_iff, SFltb_key, SFeqb_key by done. done.
Qed.

Lemma not_after_key e s m : real e → is_nan s = false →
  not_after e s m = true ↔
  key_lt (score_key (Score e)) (score_key s) ∨ score_key (Score e) = score_key s ∧ string_leb (Member e) m = true.
Proof.
  intros He Hs. unfold not_after. rewrite orb_true_iff, andb_true_iff, SFltb_key, SFeqb_key by done. done.
Qed.

Lemma key_lt_trans a b c : key_lt a b → key_lt b c → key_lt a c.
Proof. unfold key_lt. lia. Qed.

Lemma key_lt_irrefl a : ¬ key_lt a a.
Proof. unfold key_lt. lia. Qed.

Lemma key_total a b : key_lt a b ∨ a = b ∨ key_lt b a.
Proof. destruct a as [[a1 a2] a3], b as [[b1 b2] b3]. unfold key_lt. simpl. destruct (decide ((a1, a2, a3) = (b1, b2, b3))); [auto|].
  assert (a1 ≠ b1 ∨ a2 ≠ b2 ∨ a3 ≠ b3); [|lia]. destruct (decide (a1 = b1)), (decide (a2 = b2)), (decide (a3 = b3)); naive_solver.
Qed.

Lemma elt_lt_trans e f g : real e → real f → real g → elt_lt e f → elt_lt f g → elt_lt e g.
Proof.
  unfold elt_lt. intros He Hf Hg. rewrite !before_key by done.
  intros [H1|[H1 H1']] [H2|[H2 H2']].
  - left. by eapply key_lt_trans.
  - left. by rewrite <-H2.
  - left. by rewrite H1.
  - right. split; [congruence|]. by eapply string_ltb_trans.
Qed.

Lemma elt_lt_irrefl e : real e → ¬ elt_lt e e.
Proof.
  unfold elt_lt. intros He. rewrite before_key by done. rewrite string_ltb_irrefl.
  intros [H|[_ H]]; [by apply key_lt_irrefl in H|done].
Qed.

(** Two elements of which none stands before the other have equal scores and the
    same member. *)
Lemma elt_total e s m : real e → is_nan s = false →
  before e s m = true ∨ (SFeqb s (Score e) = true ∧ Member e = m) ∨ elt_lt (mkElement m s) e.
Proof.
  intros He Hs. unfold elt_lt. rewrite !before_key, SFeqb_key by done. simpl.
  destruct (key_total (score_key (Score e)) (score_key s)) as [?|[E|?]]; [by auto| |by auto].
  destruct (string_ltb (Member e) m) eqn:E1; [by auto|]. destruct (string_ltb m (Member e)) eqn:E2; [by auto 6|].
  right. left. split; [done|]. by apply string_ltb_total.
Qed.

(** ** Borders *)

(** [Inf] is an int8 in Go: -1, 0, 1 for scores, the codes of minus and plus, and 0,
    for strings. *)
Definition scoreNegativeInf : Z := -1.
Definition scorePositiveInf : Z := 1.
Definition lexNegativeInf : Z := 45.
Definition lexPositiveInf : Z := 43.

Record ScoreBorder := mkScoreBorder { sb_Inf : Z; sb_Value : float64; sb_Exclude : bool }.
Record LexBorder := mkLexBorder { lb_Inf : Z; lb_Value : string; lb_Exclude : bool }.

Inductive Border := ScoreB (b : ScoreBorder) | LexB (b : LexBorder).

Definition float_zero : float64 := S754_zero false.

(** The sum of two float64 numbers. *)
Definition float_add (a b : float64) : float64 := SFadd 53 1024 a b.

Definition scorePositiveInfBorder : Border := ScoreB (mkScoreBorder scorePositiveInf float_zero false).
Definition scoreNegativeInfBorder : Border := ScoreB (mkScoreBorder scoreNegativeInf float_zero false).
Definition lexPositiveInfBorder : Border := LexB (mkLexBorder lexPositiveInf "" false).
Definition lexNegativeInfBorder : Border := LexB (mkLexBorder lexNegativeInf "" false).

(** The element is within the upper border. *)
Definition score_greater (b : ScoreBorder) (element : Element) : bool :=
  if sb_Inf b =? scoreNegativeInf then false
  else if sb_Inf b =? scorePositiveInf then true
  else if sb_Exclude b then SFltb (Score element) (sb_Value b)
  else SFleb (Score element) (sb_Value b).

Definition lex_greater (b : LexBorder) (element : Element) : bool :=
  if lb_Inf b =? lexNegativeInf then false
  else if lb_Inf b =? lexPositiveInf then true
  else if lb_Exclude b then string_ltb (Member element) (lb_Value b)
  else string_leb (Member element) (lb_Value b).

Definition greater (border : Border) (element : Element) : bool :=
  match border with ScoreB b => score_greater b element | LexB b => lex_greater b element end.

(** The element is within the lower border. *)
Definition score_less (b : ScoreBorder) (element : Element) : bool :=
  if sb_Inf b =? scoreNegativeInf then true
  else if sb_Inf b =? scorePositiveInf then false
  else if sb_Exclude b then SFltb (sb_Value b) (Score element)
  else SFleb (sb_Value b) (Score element).

Definition lex_less (b : LexBorder) (element : Element) : bool :=
  if lb_Inf b =? lexNegativeInf then true
  else if lb_Inf b =? lexPositiveInf then false
  else if lb_Exclude b then string_ltb (lb_Value b) (Member element)
  else string_leb (lb_Value b) (Member element).

Definition less (border : Border) (element : Element) : bool :=
  match border with ScoreB b => score_less b element | LexB b => lex_less b element end.

(** The borders leave no room between them. *)
Definition score_isIntersected (b m : ScoreBorder) : bool :=
  SFltb (sb_Value m) (sb_Value b) || (SFeqb (sb_Value b) (sb_Value m) && (sb_Exclude b || sb_Exclude m)).

Definition lex_isIntersected (b m : LexBorder) : bool :=
  (lb_Inf b =? lexPositiveInf) || string_ltb (lb_Value m) (lb_Value b) ||
  (String.eqb (lb_Value b) (lb_Value m) && (lb_Exclude b || lb_Exclude m)).

(** The type assertion on [max] panics for a border of the other kind. *)
Definition isIntersected (border max : Border) : outcome bool :=
  match border, max with
  | ScoreB b, ScoreB m => Ret (score_isIntersected b m)
  | LexB b, LexB m => Ret (lex_isIntersected b m)
  | _, _ => Panic "interface conversion"
  end.

Section parse.
Context (ParseFloat : string → option float64).

Definition err_float : string := "ERR min or max is not a float".
Definition err_lex : string := "ERR min or max not valid string range item".

(** [s[0]] panics for the empty string. *)
Definition ParseScoreBorder (s : string) : outcome (string + Border) :=
  if String.eqb s "inf" || String.eqb s "+inf" then Ret (inr scorePositiveInfBorder)
  else if String.eqb s "-inf" then Ret (inr scoreNegativeInfBorder)
  else
    match s with
    | EmptyString => Panic "index out of range"
    | String c rest =>
        if Ascii.eqb c "(" then
          match ParseFloat rest with
          | None => Ret (inl err_float)
          | Some value => Ret (inr (ScoreB (mkScoreBorder 0 value true)))
          end
        else
          match ParseFloat s with
          | None => Ret (inl err_float)
          | Some value => Ret (inr (ScoreB (mkScoreBorder 0 value false)))
          end
    end.

Definition ParseLexBorder (s : string) : outcome (string + Border) :=
  if String.eqb s "+" then Ret (inr lexPositiveInfBorder)
  else if String.eqb s "-" then Ret (inr lexNegativeInfBorder)
  else
    match s with
    | EmptyString => Panic "index out of range"
    | String c rest =>
        if Ascii.eqb c "(" then Ret (inr (LexB (mkLexBorder 0 rest true)))
        else if Ascii.eqb c "[" then Ret (inr (LexB (mkLexBorder 0 rest false)))
        else Ret (inl err_lex)
    end.
End parse.
