(* ===== verification/GeoHash.v ===== *)
(** * lib/geohash: positions as 64-bit codes

    A position is narrowed down by halving the intervals of longitude and latitude in turn;
    the choices are the bits of the code.  Arithmetic is that of 64-bit floating point
    numbers.  The functions of package math that the distance needs are arguments. *)

From Stdlib Require Import ZArith Lia Ascii String Bool.
From Stdlib Require Import Floats.SpecFloat.
From stdpp Require Import base strings numbers list.
From S2P Require Import Prelude GoStd Border.

Local Open Scope string_scope.
Local Open Scope list_scope.
Local Open Scope Z_scope.
Local Open Scope go_scope.

Module GeoHash.

(** ** Floating point *)

Definition f64 (z : Z) : float64 := binary_normalize 53 1024 z 0 false.
Definition fadd (a b : float64) : float64 := SFadd 53 1024 a b.
Definition fsub (a b : float64) : float64 := SFsub 53 1024 a b.
Definition fmul (a b : float64) : float64 := SFmul 53 1024 a b.
Definition fdiv (a b : float64) : float64 := SFdiv 53 1024 a b.
Definition fneg (a : float64) : float64 := SFopp a.

(** ** geohash.go *)

Definition defaultBitSize : nat := 64.

Abbreviation interval := (float64 * float64)%type.

(** The intervals of longitude and latitude. *)
Abbreviation Box := (interval * interval)%type.

Definition world_box : Box := ((f64 (-180), f64 180), (f64 (-90), f64 90)).

Definition mid (i : interval) : float64 := fdiv (fadd i.1 i.2) (f64 2).

(** Direction 0 is the longitude. *)
Definition side (direction : nat) (b : Box) : interval := if (direction =? 0)%nat then b.1 else b.2.

(** [box[direction][0] = mid] for a 1, [box[direction][1] = mid] for a 0. *)
Definition narrow (direction : nat) (one : bool) (b : Box) : Box :=
  let i := side direction b in
  let i' := if one then (mid i, i.2) else (i.1, mid i) in
  if (direction =? 0)%nat then (i', b.2) else (b.1, i').

(** [hash[precision>>3] |= 1 << (7 - precision&7)]. *)
Definition set_bit (hash : list Z) (precision : nat) : list Z :=
  let i := (precision / 8)%nat in
  <[i := Z.lor (default 0 (hash !! i)) (Z.shiftl 1 (7 - Z.of_nat (precision mod 8)))]> hash.

(** [n] more bits; the inner loop over the two directions starts at even precisions. *)
Fixpoint encode_loop (n precision : nat) (pos : float64 * float64) (box : Box) (hash : list Z) : list Z * Box :=
  match n with
  | O => (hash, box)
  | S n' =>
      let direction := (precision mod 2)%nat in
      let val := if (direction =? 0)%nat then pos.1 else pos.2 in
      let one := negb (SFltb val (mid (side direction box))) in
      encode_loop n' (S precision) pos (narrow direction one box) (if one then set_bit hash precision else hash)
  end.

Definition encode0 (latitude longitude : float64) (bitSize : nat) : list Z * Box :=
  let hashLen := (bitSize / 8 + if (0 <? bitSize mod 8)%nat then 1 else 0)%nat in
  encode_loop bitSize 0 (longitude, latitude) world_box (replicate hashLen 0).

(** [binary.BigEndian]. *)
Definition Uint64 (buf : list Z) : Z := foldl (λ acc b, Z.lor (Z.shiftl acc 8) b) 0 (take 8 buf).

Definition PutUint64 (code : Z) : list Z := (λ i, Z.land (Z.shiftr code (8 * (7 - i))) 255) <$> seqZ 0 8.

Definition Encode (latitude longitude : float64) : Z := Uint64 (encode0 latitude longitude defaultBitSize).1.

Definition bits : list Z := [128; 64; 32; 16; 8; 4; 2; 1].

Fixpoint decode_byte (masks : list Z) (code : Z) (direction : nat) (box : Box) : nat * Box :=
  match masks with
  | [] => (direction, box)
  | mask :: masks' =>
      decode_byte masks' code ((direction + 1) mod 2)%nat (narrow direction (Z.land mask code >? 0) box)
  end.

Fixpoint decode_loop (hash : list Z) (direction : nat) (box : Box) : Box :=
  match hash with
  | [] => box
  | code :: hash' => let '(d, b) := decode_byte bits code direction box in decode_loop hash' d b
  end.

Definition decode0 (hash : list Z) : Box := decode_loop hash 0 world_box.

(** Latitude and longitude. *)
Definition Decode (code : Z) : float64 * float64 :=
  let box := decode0 (PutUint64 code) in (mid box.2, mid box.1).

(** [base32] with the alphabet of geohashes and no padding: five bits a character. *)
Definition alphabet : string := "0123456789bcdefghjkmnpqrstuvwxyz".

Definition bits_of_byte (b : Z) : list bool := (λ i, Z.testbit b (7 - i)) <$> seqZ 0 8.

Definition char_of (group : list bool) : ascii :=
  default "0"%char (String.get (Z.to_nat (foldl (λ acc (b : bool), 2 * acc + (if b then 1 else 0)) 0 (take 5 (group ++ replicate 5 false)))) alphabet).

Fixpoint base32_loop (fuel : nat) (l : list bool) : string :=
  match fuel, l with
  | S fuel', _ :: _ => String (char_of l) (base32_loop fuel' (drop 5 l))
  | _, _ => EmptyString
  end.

Definition ToString (buf : list Z) : string :=
  let l := concat (bits_of_byte <$> buf) in base32_loop (length l) l.

Definition ToInt (buf : list Z) : Z :=
  if (length buf <? 8)%nat then Uint64 (buf ++ replicate (8 - length buf) 0) else Uint64 buf.

Definition FromInt (code : Z) : list Z := PutUint64 code.

(** ** neighbor.go *)

(** [math.Pi / 180.0], [6372797.560856] and [20037726.37] as the compiler rounds them. *)
Definition dr : float64 := S754_finite false 5030569068109113 (-58).
Definition earthRadius : float64 := S754_finite false 6842739276976272 (-30).
Definition mercatorMax : float64 := S754_finite false 5378836215334175 (-28).

Definition degRad (ang : float64) : float64 := fmul ang dr.
Definition radDeg (ang : float64) : float64 := fdiv ang dr.

(** [for radiusMeters < mercatorMax]: [Block] when the fuel is used up. *)
Fixpoint radius_loop (fuel : nat) (radiusMeters : float64) (precision : Z) : outcome Z :=
  match fuel with
  | O => Block
  | S fuel' =>
      if SFltb radiusMeters mercatorMax
      then radius_loop fuel' (fmul radiusMeters (f64 2)) (precision + 1)
      else Ret precision
  end.

Definition uint64 (z : Z) : Z := z mod 18446744073709551616.

(** A [uint]: subtraction wraps around. *)
Definition fit_precision (precision : Z) (latitude : float64) : Z :=
  let p := uint64 (precision - 2) in
  let beyond d := SFltb (f64 d) latitude || SFltb latitude (f64 (- d)) in
  let p := if beyond 66 then (let p := uint64 (p - 1) in if beyond 80 then uint64 (p - 1) else p) else p in
  let p := if p <? 1 then 1 else p in
  let p := if p >? 32 then 32 else p in
  p * 2 - 1.

(** A positive double doubles past [mercatorMax] within 1100 turns. *)
Definition estimatePrecisionByRadius (radiusMeters latitude : float64) : outcome Z :=
  if SFeqb radiusMeters (f64 0) then Ret 63
  else p ← radius_loop 1200 radiusMeters 1; Ret (fit_precision p latitude).

Section math.
Context (Sin Cos Asin Sqrt : float64 → float64) (Pow : float64 → float64 → float64).

Definition Distance (latitude1 longitude1 latitude2 longitude2 : float64) : float64 :=
  let radLat1 := degRad latitude1 in
  let radLat2 := degRad latitude2 in
  let a := fsub radLat1 radLat2 in
  let b := fsub (degRad longitude1) (degRad longitude2) in
  fmul (fmul (f64 2) earthRadius)
    (Asin (Sqrt (fadd (Pow (Sin (fdiv a (f64 2))) (f64 2))
                      (fmul (fmul (Cos radLat1) (Cos radLat2)) (Pow (Sin (fdiv b (f64 2))) (f64 2)))))).
End math.

(** [lower + radius] wraps around. *)
Definition toRange (scope : list Z) (precision : Z) : Z * Z :=
  let lower := ToInt scope in
  let radius := Z.shiftl 1 (64 - precision) in
  (lower, uint64 (lower + radius)).

Definition ensureValidLat (lat : float64) : float64 :=
  if SFltb (f64 90) lat then f64 90 else if SFltb lat (f64 (-90)) then f64 (-90) else lat.

Definition ensureValidLng (lng : float64) : float64 :=
  if SFltb (f64 180) lng then fadd (f64 (-360)) lng
  else if SFltb lng (f64 (-180)) then fadd (f64 360) lng else lng.

Definition GetNeighbours (latitude longitude radiusMeters : float64) : outcome (list (Z * Z)) :=
  precision ← estimatePrecisionByRadius radiusMeters latitude;
  let '(center, box) := encode0 latitude longitude (Z.to_nat precision) in
  let width := fsub box.1.2 box.1.1 in
  let height := fsub box.2.2 box.2.1 in
  let centerLng := fdiv (fadd box.1.2 box.1.1) (f64 2) in
  let centerLat := fdiv (fadd box.2.2 box.2.1) (f64 2) in
  let maxLat := ensureValidLat (fadd centerLat height) in
  let minLat := ensureValidLat (fsub centerLat height) in
  let maxLng := ensureValidLng (fadd centerLng width) in
  let minLng := ensureValidLng (fsub centerLng width) in
  let area lat lng := toRange (encode0 lat lng (Z.to_nat precision)).1 precision in
  Ret [area maxLat minLng; area maxLat centerLng; area maxLat maxLng;
       area centerLat minLng; toRange center precision; area centerLat maxLng;
       area minLat minLng; area minLat centerLng; area minLat maxLng].

(** ** Examples *)

(** The position of lib/geohash/geohash_test.go: 48.669, -4.32913. *)
Definition brest : float64 * float64 :=
  (S754_finite false 6849552820765458 (-47), S754_finite true 4874167063709609 (-50)).

Example brest_hash : ToString (FromInt (Encode brest.1 brest.2)) = "gbsuv7zt7zntw".
Proof. vm_compute. reflexivity. Qed.


Example test_range : toRange [0; 0; 0; 0; 224; 0; 0; 0] 36 = (ToInt [0; 0; 0; 0; 224; 0; 0; 0], ToInt [0; 0; 0; 0; 240; 0; 0; 0]).
Proof. vm_compute. reflexivity. Qed.

(** ** Codes as bits *)

(** Bit [i] of a hash, the first one first. *)
Definition hash_bit (hash : list Z) (i : nat) : bool := Z.testbit (default 0 (hash !! (i / 8)%nat)) (7 - Z.of_nat (i mod 8)).

(** Narrowing by the bits [p .. p + n - 1]. *)
Fixpoint walk (hash : list Z) (p n : nat) (box : Box) : Box :=
  match n with O => box | S n' => walk hash (S p) n' (narrow (p mod 2) (hash_bit hash p) box) end.

Abbreviation is_bytes := (Forall (λ b, 0 ≤ b < 256)).

Lemma hash_bit_set hash p i : (p / 8 < length hash)%nat → hash_bit (set_bit hash p) i = (i =? p)%nat || hash_bit hash i.
Proof.
  intros Hp. unfold hash_bit, set_bit. destruct (decide (i / 8 = p / 8)%nat) as [E|E].
  - rewrite E, list_lookup_insert_eq by done. cbn [from_option]. unfold id at 1. rewrite Z.lor_spec, Z.shiftl_1_l, orb_comm. f_equal.
    pose proof (Nat.mod_upper_bound i 8 ltac:(done)). pose proof (Nat.mod_upper_bound p 8 ltac:(done)).
    pose proof (Nat.div_mod i 8 ltac:(done)). pose proof (Nat.div_mod p 8 ltac:(done)).
    destruct (Nat.eqb_spec i p) as [->|Hne]; [by rewrite Z.pow2_bits_true by lia|]. rewrite Z.pow2_bits_false; [done|]. lia.
  - rewrite list_lookup_insert_ne by done. destruct (Nat.eqb_spec i p) as [->|]; [done|]. done.
Qed.

Lemma set_bit_bytes hash p : is_bytes hash → is_bytes (set_bit hash p).
Proof.
  intros Hb. unfold set_bit. apply Forall_insert; [done|].
  assert (0 ≤ default 0 (hash !! (p / 8)%nat) < 256) as Hd.
  { destruct (hash !! (p / 8)%nat) as [b|] eqn:E; [|done]. by eapply Forall_lookup_1 in Hb. }
  pose proof (Nat.mod_upper_bound p 8 ltac:(done)). rewrite Z.shiftl_1_l.
  assert (0 ≤ 2 ^ (7 - Z.of_nat (p mod 8)) < 2 ^ 8).
  { split; [apply Z.pow_nonneg; lia|]. apply Z.pow_lt_mono_r; lia. }
  split; [apply Z.lor_nonneg; lia|]. apply (Z.log2_lt_cancel _ (2 ^ 8)). rewrite Z.log2_lor by lia. change (Z.log2 (2 ^ 8)) with 8.
  assert (∀ x, 0 ≤ x < 2 ^ 8 → Z.log2 x < 8) as Hlog.
  { intros x Hx. destruct (Z.eq_dec x 0) as [->|]; [by compute|]. apply Z.log2_lt_pow2; lia. }
  apply Z.max_lub_lt; apply Hlog; lia.
Qed.

Lemma encode_loop_spec n p pos box hash :
  (p + n ≤ 8 * length hash)%nat → (∀ i, (p ≤ i)%nat → hash_bit hash i = false) → is_bytes hash →
  let r := encode_loop n p pos box hash in
  length r.1 = length hash ∧ is_bytes r.1 ∧ (∀ i, (i < p)%nat → hash_bit r.1 i = hash_bit hash i) ∧ r.2 = walk r.1 p n box.
Proof.
  revert p box hash. induction n as [|n IH]; intros p box hash Hn Hz Hb; [done|]. cbn [encode_loop walk]. cbv zeta.
  set (one := negb _). set (hash1 := if one then set_bit hash p else hash).
  assert (p / 8 < length hash)%nat as Hp by (apply Nat.Div0.div_lt_upper_bound; lia).
  assert (length hash1 = length hash) as Hl1 by (unfold hash1, set_bit; destruct one; [apply length_insert|done]).
  assert (is_bytes hash1) as Hb1 by (unfold hash1; destruct one; [by apply set_bit_bytes|done]).
  assert (∀ i, hash_bit hash1 i = ((i =? p)%nat && one) || hash_bit hash i) as Hh.
  { intros i. unfold hash1. destruct one; [by rewrite hash_bit_set, andb_true_r|by rewrite andb_false_r]. }
  destruct (IH (S p) (narrow (p mod 2) one box) hash1) as (H1 & H2 & H3 & H4); [lia| |done|].
  { intros i Hi. rewrite Hh, Hz by lia. rewrite (proj2 (Nat.eqb_neq i p)) by lia. done. }
  set (r := encode_loop n (S p) _ _ _) in *. split_and!; [congruence|done| |].
  - intros i Hi. rewrite H3, Hh by lia. by rewrite (proj2 (Nat.eqb_neq i p)) by lia.
  - rewrite H4. f_equal. rewrite H3, Hh, Hz, Nat.eqb_refl, orb_false_r by lia. done.
Qed.

(** Decoding reads the same bits. *)
Lemma walk_app hash p n m box : walk hash p (n + m) box = walk hash (p + n) m (walk hash p n box).
Proof.
  revert p box. induction n as [|n IH]; intros p box; cbn [walk Nat.add]; [by rewrite Nat.add_0_r|]. rewrite IH. f_equal. lia.
Qed.

Lemma mask_bit code i : 0 ≤ code → 0 ≤ i < 8 → (Z.land (Z.shiftl 1 (7 - i)) code >? 0) = Z.testbit code (7 - i).
Proof. intros Hc Hi. rewrite Z.land_comm. apply testbit_flag; lia. Qed.

Lemma decode_byte_walk hash k code m j box : 0 ≤ code → hash !! k = Some code → (j + m = 8)%nat →
  decode_byte ((λ j, Z.shiftl 1 (7 - Z.of_nat j)) <$> seq j m) code ((8 * k + j) mod 2) box =
    (((8 * k + 8) mod 2)%nat, walk hash (8 * k + j) m box).
Proof.
  intros Hc Hk. revert j box. induction m as [|m IH]; intros j box Hj; cbn [seq fmap list_fmap decode_byte walk].
  { by replace j with 8%nat by lia. }
  rewrite Nat.Div0.add_mod_idemp_l. replace (8 * k + j + 1)%nat with (8 * k + S j)%nat by lia. rewrite IH by lia.
  replace (S (8 * k + j)) with (8 * k + S j)%nat by lia. do 3 f_equal.
  unfold hash_bit. rewrite mask_bit by lia. rewrite (Nat.add_comm (8 * k)), (Nat.mul_comm 8), Nat.div_add, Nat.Div0.mod_add by done.
  rewrite Nat.div_small, Nat.mod_small, Nat.add_0_l, Hk by lia. done.
Qed.

Lemma decode_loop_walk hash k box : is_bytes hash →
  decode_loop (drop k hash) ((8 * k) mod 2) box = walk hash (8 * k) (8 * (length hash - k)) box.
Proof.
  intros Hb. remember (length hash - k)%nat as n eqn:En. revert k box En. induction n as [|n IH]; intros k box En.
  { by rewrite drop_ge by lia. }
  destruct (lookup_lt_is_Some_2 hash k) as [code Hk]; [lia|]. rewrite (drop_S _ _ _ Hk). cbn [decode_loop].
  pose proof (decode_byte_walk hash k code 8 0 box) as Hd. rewrite Nat.add_0_r in Hd.
  change ((λ j, Z.shiftl 1 (7 - Z.of_nat j)) <$> seq 0 8) with bits in Hd. rewrite Hd; [|by eapply Forall_lookup_1 in Hb; [|done]; lia|done|done].
  replace (8 * k + 8)%nat with (8 * S k)%nat by lia. rewrite IH by lia. replace (8 * S n)%nat with (8 + 8 * n)%nat by lia.
  rewrite walk_app. f_equal. lia.
Qed.

(** ** Big-endian bytes *)

Lemma byte_of_lor acc b k : 0 ≤ acc → 0 ≤ b < 256 → 0 ≤ k →
  Z.land (Z.shiftr (Z.lor (Z.shiftl acc 8) b) (8 * k)) 255 = if k =? 0 then b else Z.land (Z.shiftr acc (8 * (k - 1))) 255.
Proof.
  intros Ha Hb Hk. apply Z.bits_inj'. intros i Hi.
  assert (∀ j, 8 ≤ j → Z.testbit b j = false) as Hhi.
  { intros j Hj. apply Z.bits_above_log2; [lia|]. destruct (Z.eq_dec b 0) as [->|]; [simpl; lia|]. apply Z.log2_lt_pow2; [lia|].
    assert (2 ^ 8 ≤ 2 ^ j) by (apply Z.pow_le_mono_r; lia). lia. }
  change 255 with (Z.ones 8). rewrite Z.land_spec, Z.shiftr_spec, Z.lor_spec by lia.
  destruct (Z.eqb_spec k 0) as [->|Hne].
  - rewrite Z.mul_0_r, Z.add_0_r. destruct (Z.lt_ge_cases i 8) as [Hlt|Hge].
    + by rewrite Z.shiftl_spec_low, Z.ones_spec_low, orb_false_l, andb_true_r by lia.
    + by rewrite Z.ones_spec_high, andb_false_r, Hhi by lia.
  - rewrite (Hhi (i + 8 * k)), orb_false_r, Z.shiftl_spec, Z.land_spec, Z.shiftr_spec by lia. do 2 f_equal. lia.
Qed.

Lemma foldl_bytes_nonneg l acc : 0 ≤ acc → is_bytes l → 0 ≤ foldl (λ acc b, Z.lor (Z.shiftl acc 8) b) acc l.
Proof.
  intros Ha Hl. revert acc Ha. induction Hl as [|b l Hb _ IH]; intros acc Ha; [done|]. cbn [foldl]. apply IH.
  apply Z.lor_nonneg. split; [by apply Z.shiftl_nonneg|lia].
Qed.

Lemma byte_of_fold l k : is_bytes l → (k < length l)%nat →
  Z.land (Z.shiftr (foldl (λ acc b, Z.lor (Z.shiftl acc 8) b) 0 l) (8 * Z.of_nat k)) 255 = default 0 (l !! (length l - 1 - k)%nat).
Proof.
  intros Hl. revert k. induction l as [|b l IH] using rev_ind; intros k Hk; [simpl in Hk; lia|].
  apply Forall_app in Hl as [Hl Hb]. inversion Hb as [|? ? Hb1 _]; subst. rewrite foldl_app. cbn [foldl].
  rewrite byte_of_lor by (lia || by apply foldl_bytes_nonneg). rewrite length_app in *. cbn [length] in *.
  destruct (Z.eqb_spec (Z.of_nat k) 0) as [E|E].
  - replace (length l + 1 - 1 - k)%nat with (length l) by lia. by rewrite lookup_app_r, Nat.sub_diag by lia.
  - replace (Z.of_nat k - 1) with (Z.of_nat (k - 1)) by lia. rewrite IH by (done || lia). rewrite lookup_app_l by lia. do 2 f_equal. lia.
Qed.

Lemma PutUint64_Uint64 l : length l = 8%nat → is_bytes l → PutUint64 (Uint64 l) = l.
Proof.
  intros Hl Hb. unfold PutUint64, Uint64. rewrite take_ge by lia. apply list_eq. intros i.
  rewrite list_lookup_fmap. destruct (decide (i < 8)%nat) as [Hi|Hi].
  - rewrite lookup_seqZ_lt by lia. cbn [fmap option_fmap option_map]. pose proof (byte_of_fold l (7 - i) Hb) as H1.
    replace (8 * (7 - (0 + Z.of_nat i))) with (8 * Z.of_nat (7 - i)) by lia. rewrite H1 by lia. rewrite Hl.
    replace (8 - 1 - (7 - i))%nat with i by lia. destruct (lookup_lt_is_Some_2 l i) as [b Hib]; [lia|]. by rewrite Hib.
  - rewrite lookup_seqZ_ge by lia. symmetry. apply lookup_ge_None_2. lia.
Qed.

(** ** The box of a code *)

(** The value lies in the interval: not below it, and below its end unless that is the end
    of the world. *)
Definition inside (v : float64) (i : interval) (top : float64) : Prop :=
  SFltb v i.1 = false ∧ (SFltb v i.2 = true ∨ i.2 = top).

Lemma encode_loop_inside n p pos box hash lng_top lat_top :
  inside pos.1 box.1 lng_top → inside pos.2 box.2 lat_top →
  let r := encode_loop n p pos box hash in inside pos.1 r.2.1 lng_top ∧ inside pos.2 r.2.2 lat_top.
Proof.
  revert p box hash. induction n as [|n IH]; intros p box hash H1 H2; [done|]. cbn [encode_loop]. cbv zeta. apply IH.
  all: unfold narrow, side; destruct (p mod 2 =? 0)%nat; cbn [fst snd]; try done.
  all: destruct (SFltb _ (mid _)) eqn:E; cbn [negb]; unfold inside; cbn [fst snd]; unfold inside in *; try tauto.
Qed.

(** [C22] A position survives its code: decoding the 64-bit code of a position gives the centre
    of the very box the encoder narrowed the position down to, and the position lies in that
    box, whatever rounding the floating point arithmetic did on the way. *)
Theorem geohash_roundtrip (latitude longitude : float64) :
  SFltb latitude (f64 (-90)) = false → SFltb longitude (f64 (-180)) = false →
  let box := (encode0 latitude longitude defaultBitSize).2 in
  decode0 (FromInt (Encode latitude longitude)) = box ∧
  Decode (Encode latitude longitude) = (mid box.2, mid box.1) ∧
  inside longitude box.1 (f64 180) ∧ inside latitude box.2 (f64 90).
Proof.
  intros Hlat Hlng box. unfold box, Decode, FromInt, Encode, encode0, defaultBitSize. change (64 / 8 + _)%nat with 8%nat.
  destruct (encode_loop_spec 64 0 (longitude, latitude) world_box (replicate 8 0)) as (H1 & H2 & _ & H4).
  { done. }
  { intros i _. unfold hash_bit. destruct (replicate 8 0 !! _) as [b|] eqn:E; [|apply Z.bits_0].
    apply lookup_replicate in E as [-> _]. apply Z.bits_0. }
  { by repeat constructor. }
  set (r := encode_loop 64 0 _ _ _) in *. rewrite PutUint64_Uint64 by done.
  assert (decode0 r.1 = r.2) as Hd.
  { unfold decode0. pose proof (decode_loop_walk r.1 0 world_box H2) as Hw. rewrite drop_0, H1 in Hw. rewrite H4. exact Hw. }
  rewrite Hd. split_and!; [done|done|..].
  all: destruct (encode_loop_inside 64 0 (longitude, latitude) world_box (replicate 8 0) (f64 180) (f64 90)) as [? ?];
    [split; [done|by right]|split; [done|by right]|done].
Qed.

Lemma geohash_roundtrip_witness :
  Decode (Encode brest.1 brest.2) =
    let box := (encode0 brest.1 brest.2 defaultBitSize).2 in (mid box.2, mid box.1).
Proof. refine (proj1 (proj2 (geohash_roundtrip brest.1 brest.2 _ _))); reflexivity. Defined.

(** ** Radius *)

Definition negative (f : float64) : Prop :=
  match f with S754_zero b | S754_infinity b => b = true | S754_finite b _ _ => b = true | S754_nan => False end.

Lemma shr_1_nonneg r : 0 ≤ shr_m r → 0 ≤ shr_m (shr_1 r).
Proof. destruct r as [[|[p|p|]|p] b c]; simpl; lia. Qed.

Lemma iter_shr_nonneg p r : 0 ≤ shr_m r → 0 ≤ shr_m (SpecFloat.iter_pos shr_1 p r).
Proof. revert r. induction p as [p IH|p IH|]; intros r Hr; cbn [SpecFloat.iter_pos]; auto using shr_1_nonneg. Qed.

Lemma shr_fexp_nonneg m e l : 0 ≤ m → 0 ≤ shr_m (shr_fexp 53 1024 m e l).1.
Proof.
  intros Hm. unfold shr_fexp, shr. assert (0 ≤ shr_m (shr_record_of_loc m l)) by (by destruct l as [|[]]).
  destruct (fexp _ _ _ - e); simpl; try done. by apply iter_shr_nonneg.
Qed.

(** Rounding keeps the sign. *)
Lemma round_negative m e l : 0 ≤ m → negative (binary_round_aux 53 1024 true m e l).
Proof.
  intros Hm. unfold binary_round_aux. pose proof (shr_fexp_nonneg m e l Hm) as H1. destruct (shr_fexp 53 1024 m e l) as [r1 e1].
  assert (0 ≤ round_nearest_even (shr_m r1) (loc_of_shr_record r1)) as H2.
  { simpl in H1. unfold round_nearest_even. destruct (loc_of_shr_record r1) as [|[]]; try lia. destruct (Z.even _); lia. }
  pose proof (shr_fexp_nonneg _ e1 loc_Exact H2) as H3. destruct (shr_fexp 53 1024 (round_nearest_even _ _) e1 loc_Exact) as [r2 e2]. simpl in H3.
  destruct (shr_m r2); [done| |lia]. by destruct (_ <=? _).
Qed.

Lemma double_negative f : negative f → negative (fmul f (f64 2)).
Proof.
  assert (f64 2 = S754_finite false 4503599627370496 (-51)) as -> by reflexivity. unfold fmul, SFmul.
  destruct f as [b|b| |b m e]; simpl; intros Hf; try done; subst; [done|done|]. by apply round_negative.
Qed.

Lemma radius_loop_negative fuel f p : negative f → radius_loop fuel f p = Block.
Proof.
  revert f p. induction fuel as [|fuel IH]; intros f p Hf; [done|]. cbn [radius_loop].
  assert (SFltb f mercatorMax = true) as ->; [|by apply IH, double_negative].
  unfold SFltb, SFcompare, mercatorMax. destruct f as [b|b| |b m e]; simpl in Hf; try done; by subst.
Qed.

(** A radius that reaches around the world gives the finest blocks, not the coarsest: the
    subtraction from 1 wraps around. *)
Lemma huge_radius_is_finest : estimatePrecisionByRadius (f64 30000000) (f64 0) = Ret 63.
Proof. vm_compute. reflexivity. Qed.

(** The last block of the code range ends at 0. *)
Lemma last_block_is_empty : toRange (encode0 (f64 90) (f64 180) 10).1 10 = (18428729675200069632, 0).
Proof. vm_compute. reflexivity. Qed.

End GeoHash.
