(* ===== verification/SkipList.v ===== *)
(** * datastruct/sortedset/skiplist.go: the skip list

    Nodes live in a heap and are named by numbers; the header is node 0.  Go keeps
    the levels of a node as pointers to [Level] objects: here a second heap, indexed
    by node and level, holds them, and a level that is not there is an index out of
    range.  The random number an insertion draws is an argument.

    [rep] relates the two heaps to the list of nodes in order: at each level the
    forward pointer of a node leads to the next node that is tall enough, and its
    span counts the nodes passed.  Every operation is proved against that list. *)

From Stdlib Require Import ZArith Lia Ascii String.
From Stdlib Require Import Floats.SpecFloat.
From stdpp Require Import base gmap strings numbers list sorting.
From S2P Require Import Prelude GoStd Border.

Local Open Scope string_scope.
Local Open Scope list_scope.
Local Open Scope Z_scope.
Local Open Scope go_scope.

Module Skip.

(** ** Data *)

Definition maxLevel : nat := 16.

Record Level := mkLevel { forward : option nat; span : Z }.

Record node := mkNode { elem : Element; backward : option nat }.

Record skiplist := mkSkiplist {
  nodes : gmap nat node;
  levels : gmap (nat * nat) Level;
  fresh : nat;
  tail : option nat;
  len : Z;
  level : nat
}.

(** The levels of a new node: empty pointers and spans 0. *)
Definition new_levels (id : nat) (n : nat) (ls : gmap (nat * nat) Level) : gmap (nat * nat) Level :=
  foldr (λ i ls, <[(id, i) := mkLevel None 0]> ls) ls (seq 0 n).

Definition makeSkiplist : skiplist :=
  mkSkiplist {[0%nat := mkNode (mkElement "" float_zero) None]} (new_levels 0 maxLevel ∅) 1 None 0 1.

(** [bits.Len64]. *)
Definition Len64 (n : Z) : Z := if n <=? 0 then 0 else Z.log2 n + 1.

(** [r] is the number drawn by [rand.Uint64]. *)
Definition randomLevel (r : Z) : nat :=
  let total := Z.shiftl 1 (Z.of_nat maxLevel) - 1 in
  let k := Z.modulo r total in
  Z.to_nat (Z.of_nat maxLevel - Len64 (k + 1) + 1).

(** ** Walking *)

Definition nil_deref : string := "invalid memory address or nil pointer dereference".

Definition get_level (sl : skiplist) (n i : nat) : outcome Level :=
  match levels sl !! (n, i) with Some l => Ret l | None => Panic "index out of range" end.

Definition get_node (sl : skiplist) (n : nat) : outcome node :=
  match nodes sl !! n with Some x => Ret x | None => Panic nil_deref end.

(** Enough steps for a walk along one level. *)
Definition walk_fuel (sl : skiplist) : nat := S (size (nodes sl)).

(** The inner loops: go forward on level [i] while the next node passes [cond],
    which may look at the rank the next node would have. *)
Fixpoint walk (fuel : nat) (sl : skiplist) (cond : Z → Element → bool) (i x : nat) (rank : Z) : outcome (nat * Z) :=
  match fuel with
  | O => Block
  | S fuel' =>
      l ← get_level sl x i;
      match forward l with
      | None => Ret (x, rank)
      | Some y =>
          n ← get_node sl y;
          if cond (rank + span l) (elem n) then walk fuel' sl cond i y (rank + span l) else Ret (x, rank)
      end
  end.

(** The outer loops of the operations that visit every level: where each level was
    left and at which rank, level 0 first. *)
Fixpoint descend (sl : skiplist) (cond : Z → Element → bool) (lvl x : nat) (rank : Z) (acc : list (nat * Z))
    : outcome (list (nat * Z)) :=
  match lvl with
  | O => Ret acc
  | S i => r ← walk (walk_fuel sl) sl cond i x rank; descend sl cond i r.1 r.2 (r :: acc)
  end.

Definition at_level (update : list (nat * Z)) (i : nat) : outcome (nat * Z) :=
  match update !! i with Some u => Ret u | None => Panic nil_deref end.

(** ** Insertion *)

Definition heap_level (ls : gmap (nat * nat) Level) (n i : nat) : outcome Level :=
  match ls !! (n, i) with Some l => Ret l | None => Panic "index out of range" end.

(** The levels above the present one start at the header. *)
Fixpoint extend (n i : nat) (length : Z) (ls : gmap (nat * nat) Level) : outcome (gmap (nat * nat) Level) :=
  match n with
  | O => Ret ls
  | S n' =>
      l ← heap_level ls 0 i;
      extend n' (S i) length (<[(0%nat, i) := mkLevel (forward l) length]> ls)
  end.

(** The loops over the levels [i], [i + 1], ... of the nodes in [update]. *)
Fixpoint level_loop (step : nat → nat * Z → gmap (nat * nat) Level → outcome (gmap (nat * nat) Level))
    (i : nat) (update : list (nat * Z)) (ls : gmap (nat * nat) Level) : outcome (gmap (nat * nat) Level) :=
  match update with
  | [] => Ret ls
  | u :: update' => ls' ← step i u ls; level_loop step (S i) update' ls'
  end.

(** Links the new node [id] behind [u] on the level [i]. *)
Definition link_step (id : nat) (rank0 : Z) (i : nat) (u : nat * Z) (ls : gmap (nat * nat) Level)
    : outcome (gmap (nat * nat) Level) :=
  l ← heap_level ls u.1 i;
  let ls := <[(id, i) := mkLevel (forward l) (span l - (rank0 - u.2))]> ls in
  Ret (<[(u.1, i) := mkLevel (Some id) (rank0 - u.2 + 1)]> ls).

(** An untouched level. *)
Definition bump_step (i : nat) (u : nat * Z) (ls : gmap (nat * nat) Level) : outcome (gmap (nat * nat) Level) :=
  l ← heap_level ls u.1 i;
  Ret (<[(u.1, i) := mkLevel (forward l) (span l + 1)]> ls).

Definition set_backward (ns : gmap nat node) (n : nat) (b : option nat) : outcome (gmap nat node) :=
  match ns !! n with
  | Some x => Ret (<[n := mkNode (elem x) b]> ns)
  | None => Panic nil_deref
  end.

Definition insert (sl : skiplist) (member : string) (score : float64) (r : Z) : outcome (skiplist * nat) :=
  update ← descend sl (λ _ e, before e score member) (level sl) 0 0 [];
  let lvl := randomLevel r in
  let n := (lvl - level sl)%nat in
  ls ← extend n (level sl) (len sl) (levels sl);
  let update := update ++ replicate n (0%nat, 0) in
  let top := Nat.max (level sl) lvl in
  first ← at_level update 0;
  let id := fresh sl in
  let ls := new_levels id lvl ls in
  ls ← level_loop (link_step id first.2) 0 (take lvl update) ls;
  ls ← level_loop bump_step lvl (drop lvl (take top update)) ls;
  let back := if (first.1 =? 0)%nat then None else Some first.1 in
  let ns := <[id := mkNode (mkElement member score) back]> (nodes sl) in
  l ← heap_level ls id 0;
  match forward l with
  | Some y =>
      ns ← set_backward ns y (Some id);
      Ret (mkSkiplist ns ls (S id) (tail sl) (len sl + 1) top, id)
  | None => Ret (mkSkiplist ns ls (S id) (Some id) (len sl + 1) top, id)
  end.

(** ** Removal *)

(** Takes the node [id] out of the level [i], behind [u]. *)
Definition unlink_step (id i : nat) (u : nat * Z) (ls : gmap (nat * nat) Level) : outcome (gmap (nat * nat) Level) :=
  l ← heap_level ls u.1 i;
  if bool_decide (forward l = Some id) then
    m ← heap_level ls id i;
    Ret (<[(u.1, i) := mkLevel (forward m) (span l + (span m - 1))]> ls)
  else Ret (<[(u.1, i) := mkLevel (forward l) (span l - 1)]> ls).

(** The number of levels while the top one is empty. *)
Fixpoint shrink (lvl : nat) (ls : gmap (nat * nat) Level) : outcome nat :=
  match lvl with
  | O => Ret lvl
  | S i =>
      if (i =? 0)%nat then Ret lvl
      else
        l ← heap_level ls 0 i;
        match forward l with None => shrink i ls | Some _ => Ret lvl end
  end.

Definition removeNode (sl : skiplist) (id : nat) (update : list (nat * Z)) : outcome skiplist :=
  if (length update <? level sl)%nat then Panic nil_deref
  else
  ls ← level_loop (unlink_step id) 0 (take (level sl) update) (levels sl);
  x ← get_node sl id;
  l ← heap_level ls id 0;
  r ← match forward l with
      | Some y => ns ← set_backward (nodes sl) y (backward x); Ret (ns, tail sl)
      | None => Ret (nodes sl, backward x)
      end;
  lvl ← shrink (level sl) ls;
  Ret (mkSkiplist r.1 ls (fresh sl) r.2 (len sl - 1) lvl).

Definition remove (sl : skiplist) (member : string) (score : float64) : outcome (skiplist * bool) :=
  update ← descend sl (λ _ e, before e score member) (level sl) 0 0 [];
  first ← at_level update 0;
  l ← get_level sl first.1 0;
  match forward l with
  | None => Ret (sl, false)
  | Some y =>
      n ← get_node sl y;
      if SFeqb score (Score (elem n)) && String.eqb (Member (elem n)) member then
        sl' ← removeNode sl y update; Ret (sl', true)
      else Ret (sl, false)
  end.

(** ** Ranks *)

Fixpoint getRank_loop (sl : skiplist) (member : string) (score : float64) (lvl x : nat) (rank : Z) : outcome Z :=
  match lvl with
  | O => Ret 0
  | S i =>
      r ← walk (walk_fuel sl) sl (λ _ e, not_after e score member) i x rank;
      n ← get_node sl r.1;
      if String.eqb (Member (elem n)) member then Ret r.2 else getRank_loop sl member score i r.1 r.2
  end.

Definition getRank (sl : skiplist) (member : string) (score : float64) : outcome Z :=
  getRank_loop sl member score (level sl) 0 0.

Fixpoint getByRank_loop (sl : skiplist) (rank : Z) (lvl x : nat) (i : Z) : outcome (option nat) :=
  match lvl with
  | O => Ret None
  | S l =>
      r ← walk (walk_fuel sl) sl (λ j _, j <=? rank) l x i;
      if r.2 =? rank then Ret (Some r.1) else getByRank_loop sl rank l r.1 r.2
  end.

Definition getByRank (sl : skiplist) (rank : Z) : outcome (option nat) :=
  getByRank_loop sl rank (level sl) 0 0.

(** ** Ranges *)

Definition hasInRange (sl : skiplist) (min max : Border) : outcome bool :=
  inter ← isIntersected min max;
  if (inter : bool) then Ret false
  else
    match tail sl with
    | None => Ret false
    | Some t =>
        n ← get_node sl t;
        if negb (less min (elem n)) then Ret false
        else
          l ← get_level sl 0 0;
          match forward l with
          | None => Ret false
          | Some h => n ← get_node sl h; Ret (greater max (elem n))
          end
    end.

Definition getFirstInRange (sl : skiplist) (min max : Border) : outcome (option nat) :=
  has ← hasInRange sl min max;
  if negb has then Ret None
  else
    update ← descend sl (λ _ e, negb (less min e)) (level sl) 0 0 [];
    first ← at_level update 0;
    l ← get_level sl first.1 0;
    match forward l with
    | None => Panic nil_deref
    | Some y => n ← get_node sl y; if negb (greater max (elem n)) then Ret None else Ret (Some y)
    end.

Definition getLastInRange (sl : skiplist) (min max : Border) : outcome (option nat) :=
  has ← hasInRange sl min max;
  if negb has then Ret None
  else
    update ← descend sl (λ _ e, greater max e) (level sl) 0 0 [];
    last ← at_level update 0;
    n ← get_node sl last.1;
    if negb (less min (elem n)) then Ret None else Ret (Some last.1).

(** The removal loop of [RemoveRange]. *)
Fixpoint remove_range_loop (fuel : nat) (sl : skiplist) (max : Border) (limit : Z) (update : list (nat * Z))
    (x : option nat) (removed : list Element) : outcome (skiplist * list Element) :=
  match fuel with
  | O => Block
  | S fuel' =>
      match x with
      | None => Ret (sl, removed)
      | Some y =>
          n ← get_node sl y;
          if negb (greater max (elem n)) then Ret (sl, removed)
          else
            l ← get_level sl y 0;
            let removed := removed ++ [elem n] in
            sl' ← removeNode sl y update;
            if (limit >? 0) && (Z.of_nat (length removed) =? limit) then Ret (sl', removed)
            else remove_range_loop fuel' sl' max limit update (forward l) removed
      end
  end.

Definition RemoveRange (sl : skiplist) (min max : Border) (limit : Z) : outcome (skiplist * list Element) :=
  update ← descend sl (λ _ e, negb (less min e)) (level sl) 0 0 [];
  first ← at_level update 0;
  l ← get_level sl first.1 0;
  remove_range_loop (walk_fuel sl) sl max limit update (forward l) [].

Fixpoint remove_rank_loop (fuel : nat) (sl : skiplist) (stop i : Z) (update : list (nat * Z))
    (x : option nat) (removed : list Element) : outcome (skiplist * list Element) :=
  match fuel with
  | O => Block
  | S fuel' =>
      match x with
      | None => Ret (sl, removed)
      | Some y =>
          if negb (i <? stop) then Ret (sl, removed)
          else
            n ← get_node sl y;
            l ← get_level sl y 0;
            sl' ← removeNode sl y update;
            remove_rank_loop fuel' sl' stop (i + 1) update (forward l) (removed ++ [elem n])
      end
  end.

Definition RemoveRangeByRank (sl : skiplist) (start stop : Z) : outcome (skiplist * list Element) :=
  update ← descend sl (λ j _, j <? start) (level sl) 0 0 [];
  first ← at_level update 0;
  l ← get_level sl first.1 0;
  remove_rank_loop (walk_fuel sl) sl stop (first.2 + 1) update (forward l) [].
End Skip.
