(* ===== verification/SkipRep.v ===== *)
(** * The skip list as a list of nodes

    [rep sl ns] says that the skip list [sl] holds the nodes [ns], in this order.
    It speaks of a place in the list as a prefix [a] with the rest behind it: the
    level [i] of the last node of [a] (of the header if [a] is empty) is [link i] of
    the rest.  The searches stop behind a prefix that the caller's test describes;
    insertion and removal change the list there and nowhere else. *)

From Stdlib Require Import ZArith Lia Ascii String.
From Stdlib Require Import Floats.SpecFloat.
From stdpp Require Import base gmap strings numbers list sorting.
From S2P Require Import Prelude GoStd Border SkipList.

Local Open Scope string_scope.
Local Open Scope list_scope.
Local Open Scope Z_scope.
Local Open Scope go_scope.

Import Skip.

(** ** Cells and links *)

Record cell := mkCell { c_id : nat; c_height : nat; c_elem : Element }.

Definition tall (i : nat) (c : cell) : bool := (i <? c_height c)%nat.

Definition short (i : nat) (l : list cell) : Prop := Forall (λ c, tall i c = false) l.

(** What the level [i] in front of [l] holds. *)
Fixpoint link (i : nat) (l : list cell) : Level :=
  match l with
  | [] => mkLevel None 0
  | c :: l' =>
      if tall i c then mkLevel (Some (c_id c)) 1
      else mkLevel (forward (link i l')) (span (link i l') + 1)
  end.

Definition end_id (a : list cell) : nat := match last a with Some c => c_id c | None => 0%nat end.

(** The last node of [a] has the level [i]; the header has all of them. *)
Definition tall_end (i : nat) (a : list cell) : Prop :=
  match last a with Some c => tall i c = true | None => True end.

Definition back (a : list cell) : option nat := c_id <$> last a.

Lemma link_app i a b :
  link i (a ++ b) =
  if existsb (tall i) a then link i a
  else mkLevel (forward (link i b)) (span (link i b) + Z.of_nat (length a)).
Proof.
  induction a as [|c a IH]; simpl.
  { destruct (link i b). simpl. by rewrite Z.add_0_r. }
  destruct (tall i c); simpl; [done|]. rewrite IH. destruct (existsb (tall i) a); [done|].
  simpl. f_equal. lia.
Qed.

Lemma short_existsb i l : existsb (tall i) l = false ↔ short i l.
Proof.
  unfold short. induction l as [|c l IH]; simpl; [by split|].
  rewrite orb_false_iff, Forall_cons, IH. done.
Qed.

Lemma link_short i l : short i l → link i l = mkLevel None (Z.of_nat (length l)).
Proof.
  induction 1 as [|c l Hc _ IH]; simpl; [done|]. rewrite Hc, IH. simpl. f_equal. lia.
Qed.

Lemma link_short_app i a b : short i a →
  link i (a ++ b) = mkLevel (forward (link i b)) (span (link i b) + Z.of_nat (length a)).
Proof. intros Hs. rewrite link_app. by rewrite (proj2 (short_existsb i a) Hs). Qed.

(** The first tall node of a list. *)
Lemma first_tall i l :
  short i l ∨ ∃ a c b, l = a ++ c :: b ∧ short i a ∧ tall i c = true.
Proof.
  induction l as [|c l IH]; [by left; constructor|]. destruct (tall i c) eqn:E.
  - right. exists [], c, l. split_and!; [done|constructor|done].
  - destruct IH as [IH|(a & c' & b & -> & Ha & Hc)].
    + left. by constructor.
    + right. exists (c :: a), c', b. split_and!; [done|by constructor|done].
Qed.

Lemma link_first i a c b : short i a → tall i c = true →
  link i (a ++ c :: b) = mkLevel (Some (c_id c)) (Z.of_nat (length a) + 1).
Proof. intros Ha Hc. rewrite link_short_app by done. simpl. rewrite Hc. simpl. f_equal. lia. Qed.

Lemma end_id_snoc a c : end_id (a ++ [c]) = c_id c.
Proof. unfold end_id. by rewrite last_snoc. Qed.

Lemma tall_end_snoc i a c : tall i c = true → tall_end i (a ++ [c]).
Proof. unfold tall_end. by rewrite last_snoc. Qed.

Lemma last_app_cons {A} (a b : list A) x : last (a ++ x :: b) = last (x :: b).
Proof. rewrite last_app. destruct (last (x :: b)) eqn:E; [done|]. by apply last_None in E. Qed.

(** ** The representation *)

Definition ids (ns : list cell) : list nat := c_id <$> ns.

Record rep (sl : skiplist) (ns : list cell) : Prop := {
  rep_level : (1 ≤ level sl ≤ maxLevel)%nat;
  rep_heights : Forall (λ c, (1 ≤ c_height c ≤ level sl)%nat) ns;
  rep_links : ∀ a b i, ns = a ++ b → tall_end i a → (i < level sl)%nat →
    levels sl !! (end_id a, i) = Some (link i b);
  rep_above : ∀ i, (level sl ≤ i < maxLevel)%nat → ∃ s, levels sl !! (0%nat, i) = Some (mkLevel None s);
  rep_header : nodes sl !! 0%nat = Some (mkNode (mkElement "" float_zero) None);
  rep_nodes : ∀ a c b, ns = a ++ c :: b → nodes sl !! c_id c = Some (mkNode (c_elem c) (back a));
  rep_ids : NoDup (0%nat :: ids ns);
  rep_fresh : Forall (λ n, (n < fresh sl)%nat) (0%nat :: ids ns);
  rep_tail : tail sl = back ns;
  rep_len : len sl = Z.of_nat (length ns)
}.

Lemma elem_of_ids c ns : c ∈ ns → c_id c ∈ ids ns.
Proof. intros Hc. unfold ids. by apply list_elem_of_fmap_2. Qed.

Lemma end_id_in a : a ≠ [] → end_id a ∈ ids a.
Proof.
  intros Ha. unfold end_id. destruct (last a) as [c|] eqn:E; [|by apply last_None in E].
  apply elem_of_ids. by apply last_Some_elem_of.
Qed.

(** A prefix is known by the node at its end. *)
Lemma end_id_inj ns a b a' b' :
  NoDup (0%nat :: ids ns) → ns = a ++ b → ns = a' ++ b' → end_id a = end_id a' → a = a'.
Proof.
  intros Hnd Hab Hab'. apply NoDup_cons in Hnd as [H0 Hnd].
  assert (∀ x y, ns = x ++ y → x ≠ [] → end_id x ≠ 0%nat) as Hz.
  { intros x y -> Hx E. apply H0. rewrite <-E. unfold ids. rewrite fmap_app. apply elem_of_app. left. by apply end_id_in. }
  destruct a as [|c a _] using rev_ind; destruct a' as [|c' a' _] using rev_ind.
  - done.
  - intros E. exfalso. eapply Hz; [exact Hab'|by destruct a'|]. by rewrite <-E.
  - intros E. exfalso. eapply Hz; [exact Hab|by destruct a|]. by rewrite E.
  - rewrite !end_id_snoc. intros E.
    assert (length a = length a') as Hl.
    { eapply (NoDup_lookup (ids ns)); [done| |]; unfold ids.
      - rewrite Hab, <-app_assoc, fmap_app, lookup_app_r by (by rewrite length_fmap).
        rewrite length_fmap, Nat.sub_diag. simpl. reflexivity.
      - rewrite Hab', <-app_assoc, fmap_app, lookup_app_r by (by rewrite length_fmap).
        rewrite length_fmap, Nat.sub_diag. simpl. by rewrite E. }
    rewrite Hab in Hab'. apply app_inj_1 in Hab' as [-> _]; [done|]. rewrite !length_app. simpl. lia.
Qed.

Lemma rep_size sl ns : rep sl ns → (length ns < size (nodes sl))%nat.
Proof.
  intros Hr. change (S (length ns) ≤ size (nodes sl))%nat.
  assert (list_to_set (0%nat :: ids ns) ⊆@{gset nat} dom (nodes sl)) as Hsub.
  { intros n Hn. apply elem_of_list_to_set, elem_of_cons in Hn as [->|Hn].
    - apply elem_of_dom. rewrite (rep_header _ _ Hr). done.
    - apply list_elem_of_fmap in Hn as (c & -> & Hc). apply list_elem_of_split in Hc as (a & b & E).
      apply elem_of_dom. rewrite (rep_nodes _ _ Hr _ _ _ E). done. }
  apply subseteq_size in Hsub. rewrite size_list_to_set in Hsub by apply Hr.
  rewrite size_dom in Hsub. simpl in Hsub. unfold ids in Hsub. by rewrite length_fmap in Hsub.
Qed.

(** ** Searches *)

(** The test passes on [pre] and fails on [post]; it sees ranks from 1 on. *)
Record cut (cond : Z → Element → bool) (pre post : list cell) : Prop := {
  cut_pre a c b : pre = a ++ c :: b → cond (Z.of_nat (length a) + 1) (c_elem c) = true;
  cut_post a c b : post = a ++ c :: b → cond (Z.of_nat (length pre + length a) + 1) (c_elem c) = false
}.

(** Where a search leaves the level [i]: behind the last tall node of [pre]. *)
Definition left_at (pre : list cell) (i : nat) (u : nat * Z) : Prop :=
  ∃ a b, pre = a ++ b ∧ tall_end i a ∧ short i b ∧ u = (end_id a, Z.of_nat (length a)).

Lemma walk_spec sl ns pre post cond i a b fuel :
  rep sl ns → ns = pre ++ post → cut cond pre post → (i < level sl)%nat →
  pre = a ++ b → tall_end i a → (length b < fuel)%nat →
  ∃ a' b', pre = a' ++ b' ∧ tall_end i a' ∧ short i b' ∧
    walk fuel sl cond i (end_id a) (Z.of_nat (length a)) = Ret (end_id a', Z.of_nat (length a')).
Proof.
  intros Hr Hns Hcut Hi. revert a b. induction fuel as [|fuel IH]; intros a b Hab Ha Hf; [lia|].
  cbn [walk]. unfold get_level. rewrite (rep_links _ _ Hr a (b ++ post) i) by (by rewrite ?Hns, ?Hab, <-?app_assoc).
  cbn [mbind outcome_bind].
  destruct (first_tall i b) as [Hs|(b1 & c & b2 & -> & Hs & Hc)].
  - exists a, b. split_and!; [done..|]. rewrite link_short_app by done. cbn [forward span].
    destruct (first_tall i post) as [Hp|(p1 & c & p2 & Hp & Hs' & Hc)]; [by rewrite (link_short i post Hp)|].
    rewrite Hp, link_first by done. cbn [forward span]. unfold get_node.
    rewrite (rep_nodes _ _ Hr (pre ++ p1) c p2) by (by rewrite Hns, Hp, <-app_assoc).
    cbn [mbind outcome_bind elem].
    assert (cond (Z.of_nat (length a) + (Z.of_nat (length p1) + 1 + Z.of_nat (length b))) (c_elem c) = false) as ->; [|done].
    rewrite <-(cut_post _ _ _ Hcut _ _ _ Hp). f_equal. rewrite Hab, length_app. lia.
  - rewrite <-app_assoc. cbn [app]. rewrite link_first by done. cbn [forward span]. unfold get_node.
    rewrite (rep_nodes _ _ Hr (a ++ b1) c (b2 ++ post)) by (by rewrite Hns, Hab, <-!app_assoc).
    cbn [mbind outcome_bind elem].
    assert (cond (Z.of_nat (length a) + (Z.of_nat (length b1) + 1)) (c_elem c) = true) as ->.
    { rewrite <-(cut_pre _ _ _ Hcut (a ++ b1) c b2) by (by rewrite Hab, <-app_assoc).
      f_equal. rewrite length_app. lia. }
    destruct (IH (a ++ b1 ++ [c]) b2) as (a' & b' & H1 & H2 & H3 & H4).
    + by rewrite Hab, <-!app_assoc.
    + rewrite app_assoc. by apply tall_end_snoc.
    + rewrite length_app in Hf. simpl in Hf. lia.
    + exists a', b'. split_and!; [done..|]. rewrite <-H4. f_equal.
      * by rewrite app_assoc, end_id_snoc.
      * rewrite !length_app. simpl. lia.
Qed.

Lemma descend_spec sl ns pre post cond lvl a b acc :
  rep sl ns → ns = pre ++ post → cut cond pre post → (lvl ≤ level sl)%nat →
  pre = a ++ b → (∀ i, (i < lvl)%nat → tall_end i a) →
  ∃ us, descend sl cond lvl (end_id a) (Z.of_nat (length a)) acc = Ret (us ++ acc) ∧
    length us = lvl ∧ ∀ i u, us !! i = Some u → left_at pre i u.
Proof.
  intros Hr Hns Hcut. revert a b acc. induction lvl as [|i IH]; intros a b acc Hl Hab Ha; cbn [descend].
  { by exists []. }
  destruct (walk_spec sl ns pre post cond i a b (walk_fuel sl)) as (a' & b' & Hab' & Ht & Hs & ->);
    [done..|by apply Ha; lia| |].
  { pose proof (rep_size _ _ Hr) as Hsz. unfold walk_fuel. rewrite Hns, Hab, !length_app in Hsz. lia. }
  cbn [mbind outcome_bind fst snd].
  destruct (IH a' b' ((end_id a', Z.of_nat (length a')) :: acc)) as (us & -> & Hlen & Hus); [lia|done| |].
  { intros j Hj. unfold tall_end in *. destruct (last a'); [|done]. unfold tall in *. zlia. apply Nat.ltb_lt. lia. }
  exists (us ++ [(end_id a', Z.of_nat (length a'))]). split_and!; [by rewrite <-app_assoc|rewrite length_app; simpl; lia|].
  intros j u. rewrite lookup_app. destruct (us !! j) as [v|] eqn:E; [intros [= <-]; by apply Hus|].
  intros Hu. apply list_lookup_singleton_Some in Hu as [Hj <-]. apply lookup_ge_None in E.
  assert (j = i) as -> by lia. by exists a', b'.
Qed.

Definition left_all (pre : list cell) (n : nat) (us : list (nat * Z)) : Prop :=
  length us = n ∧ ∀ i u, us !! i = Some u → left_at pre i u.

(** At the bottom a search is left right behind [pre]. *)
Lemma left_bottom sl ns pre post u :
  rep sl ns → ns = pre ++ post → left_at pre 0 u → u = (end_id pre, Z.of_nat (length pre)).
Proof.
  intros Hr Hns (a & b & -> & _ & Hs & ->). destruct b as [|c b]; [by rewrite app_nil_r|].
  apply Forall_cons in Hs as [Hc _]. pose proof (rep_heights _ _ Hr) as Hh.
  rewrite Hns, <-app_assoc, Forall_app in Hh. destruct Hh as [_ Hh]. apply Forall_cons in Hh as [Hh _].
  unfold tall in Hc. zlia.
Qed.

Lemma search_spec sl ns pre post cond :
  rep sl ns → ns = pre ++ post → cut cond pre post →
  ∃ us, descend sl cond (level sl) 0 0 [] = Ret us ∧ left_all pre (level sl) us ∧
    at_level us 0 = Ret (end_id pre, Z.of_nat (length pre)).
Proof.
  intros Hr Hns Hcut.
  destruct (descend_spec sl ns pre post cond (level sl) [] pre [] Hr Hns Hcut) as (us & E & Hlen & Hus); [done..|].
  exists us. rewrite app_nil_r in E. split_and!; [done..|]. unfold at_level.
  destruct (us !! 0%nat) as [u|] eqn:E0.
  - f_equal. apply (left_bottom sl ns pre post u Hr Hns). by apply Hus.
  - apply lookup_ge_None in E0. pose proof (rep_level _ _ Hr). lia.
Qed.

(** Two places where a level can be left are the same. *)
Lemma left_unique pre i a b u :
  left_at pre i u → pre = a ++ b → tall_end i a → short i b → u = (end_id a, Z.of_nat (length a)).
Proof.
  intros (a' & b' & Hab' & Ht' & Hs' & ->) Hab Ht Hs. rewrite Hab in Hab'.
  assert (∀ x y z w, x ++ y = z ++ w → tall_end i z → short i y → (length x < length z)%nat → False) as Hno.
  { intros x y z w E Hz Hy Hlt. destruct z as [|c z _] using rev_ind; [simpl in Hlt; lia|].
    unfold tall_end in Hz. rewrite last_snoc in Hz. rewrite length_app in Hlt. simpl in Hlt.
    assert (c ∈ y) as Hc.
    { apply list_elem_of_lookup. exists (length z - length x)%nat.
      rewrite <-(lookup_app_r x y) by lia. rewrite E, <-app_assoc, lookup_app_r by lia.
      by rewrite Nat.sub_diag. }
    unfold short in Hy. rewrite Forall_forall in Hy. rewrite (Hy c Hc) in Hz. done. }
  destruct (Nat.lt_trichotomy (length a) (length a')) as [Hlt|[Heq|Hlt]].
  - exfalso. by eapply (Hno a b a' b').
  - by apply app_inj_1 in Hab' as [-> _].
  - exfalso. by eapply (Hno a' b' a b).
Qed.

(** ** More levels *)

Definition set_levels (sl : skiplist) (ls : gmap (nat * nat) Level) (lvl : nat) : skiplist :=
  mkSkiplist (nodes sl) ls (fresh sl) (tail sl) (len sl) lvl.

Lemma extend_run n i length ls :
  (∀ j, (i ≤ j < i + n)%nat → ∃ s, ls !! (0%nat, j) = Some (mkLevel None s)) →
  ∃ ls', extend n i length ls = Ret ls' ∧
    ∀ x j, ls' !! (x, j) =
      if decide (x = 0 ∧ i ≤ j < i + n)%nat then Some (mkLevel None length) else ls !! (x, j).
Proof.
  revert i ls. induction n as [|n IH]; intros i ls Hls; cbn [extend].
  { exists ls. split; [done|]. intros x j. rewrite decide_False by lia. done. }
  destruct (Hls i ltac:(lia)) as [s Hs]. unfold heap_level. rewrite Hs. cbn [mbind outcome_bind forward].
  destruct (IH (S i) (<[(0%nat, i) := mkLevel None length]> ls)) as (ls' & -> & Hl).
  { intros j Hj. rewrite lookup_insert_ne by (intros [=]; lia). apply Hls. lia. }
  exists ls'. split; [done|]. intros x j. rewrite Hl. clear Hl.
  destruct (decide (x = 0 ∧ S i ≤ j < S i + n)%nat) as [Hd|Hd].
  - rewrite decide_True by lia. done.
  - destruct (decide ((x, j) = (0%nat, i))) as [[= -> ->]|Hne].
    + rewrite lookup_insert_eq, decide_True by lia. done.
    + rewrite lookup_insert_ne by done. rewrite decide_False; [done|]. intros [-> Hj]. apply Hne. f_equal. lia.
Qed.

Lemma short_above sl ns i l : rep sl ns → (∀ c, c ∈ l → c ∈ ns) → (level sl ≤ i)%nat → short i l.
Proof.
  intros Hr Hin Hi. apply Forall_forall. intros c Hc. pose proof (rep_heights _ _ Hr) as Hh.
  rewrite Forall_forall in Hh. specialize (Hh c (Hin c Hc)). simpl in Hh. unfold tall. apply Nat.ltb_ge. lia.
Qed.

Lemma end_id_cases a b ns : ns = a ++ b → NoDup (0%nat :: ids ns) → end_id a = 0%nat → a = [].
Proof.
  intros Hns Hnd E. symmetry. eapply (end_id_inj ns [] ns a b); [done..|]. by rewrite E.
Qed.

Lemma extend_rep sl ns lvl : rep sl ns → (lvl ≤ maxLevel)%nat →
  ∃ ls, extend (lvl - level sl) (level sl) (len sl) (levels sl) = Ret ls ∧
    rep (set_levels sl ls (Nat.max (level sl) lvl)) ns.
Proof.
  intros Hr Hl.
  destruct (extend_run (lvl - level sl) (level sl) (len sl) (levels sl)) as (ls & E & Hls).
  { intros j Hj. apply (rep_above _ _ Hr). lia. }
  exists ls. split; [done|]. pose proof (rep_level _ _ Hr). destruct Hr as [Hlev Hh Hlk Hab Hhd Hnd Hid Hf Ht Hn].
  split; simpl; try done; [lia| | |].
  - eapply Forall_impl; [exact Hh|]. simpl. intros c. lia.
  - intros a b i Hns Ha Hi. rewrite Hls. destruct (decide (i < level sl)%nat) as [Hlt|Hge].
    + rewrite decide_False by lia. by apply Hlk.
    + assert (a = []) as ->.
      { unfold tall_end in Ha. destruct (last a) as [c|] eqn:E'; [|by apply last_None in E'].
        rewrite Forall_forall in Hh. specialize (Hh c). unfold tall in Ha. zlia.
        assert (c ∈ ns) as Hc by (rewrite Hns; apply elem_of_app; left; by apply last_Some_elem_of).
        specialize (Hh Hc). simpl in Hh. lia. }
      cbn [end_id last]. rewrite decide_True by (unfold end_id; simpl; lia). f_equal. simpl in Hns. subst b. rewrite Hn.
      symmetry. apply link_short. apply Forall_forall. intros c Hc. rewrite Forall_forall in Hh. specialize (Hh c Hc).
      simpl in Hh. unfold tall. apply Nat.ltb_ge. lia.
  - intros i Hi. rewrite Hls, decide_False by lia. apply Hab. lia.
Qed.

(** ** The loops over the levels

    Each step of these loops touches its own level only. *)

Lemma new_levels_ne id n ls x j : x ≠ id → new_levels id n ls !! (x, j) = ls !! (x, j).
Proof.
  intros Hx. unfold new_levels. induction (seq 0 n) as [|k l IH]; simpl; [done|].
  rewrite lookup_insert_ne by congruence. exact IH.
Qed.

Abbreviation heap := (gmap (nat * nat) Level).

(** Two heaps that agree on one level. *)
Definition same_level (i : nat) (ls ls' : heap) : Prop := ∀ x, ls' !! (x, i) = ls !! (x, i).

(** A loop whose step reads and writes its own level only: [P] is what the step
    needs of the level, [Q] what it does to it. *)
Lemma level_loop_run (step : nat → nat * Z → heap → outcome heap) (P : nat → nat * Z → heap → Prop) (Q : nat → nat * Z → heap → heap → Prop) i us ls :
  (∀ j u ls, P j u ls → ∃ ls', step j u ls = Ret ls' ∧ (∀ k, k ≠ j → same_level k ls ls') ∧ Q j u ls ls') →
  (∀ j u ls ls', same_level j ls ls' → P j u ls → P j u ls') →
  (∀ j u ls1 ls2 ls1' ls2', same_level j ls1 ls1' → same_level j ls2 ls2' → Q j u ls1 ls2 → Q j u ls1' ls2') →
  (∀ j u, us !! j = Some u → P (i + j)%nat u ls) →
  ∃ ls', level_loop step i us ls = Ret ls' ∧
    (∀ j, (j < i ∨ i + length us ≤ j)%nat → same_level j ls ls') ∧
    (∀ j u, us !! j = Some u → Q (i + j)%nat u ls ls').
Proof.
  intros Hstep HP HQ. revert i ls. induction us as [|u us IH]; intros i ls Hus; cbn [level_loop].
  { by exists ls. }
  destruct (Hstep i u ls) as (ls1 & E & Hne & Hq); [by rewrite <-(Nat.add_0_r i); apply Hus|].
  rewrite E. cbn [mbind outcome_bind]. destruct (IH (S i) ls1) as (ls' & E' & Hout & Hin).
  { intros j v Hj. eapply HP; [apply Hne; lia|]. replace (S i + j)%nat with (i + S j)%nat by lia. by apply Hus. }
  exists ls'. split_and!; [exact E'| |].
  - intros j Hj x. simpl in Hj. rewrite (Hout j) by lia. apply Hne. lia.
  - intros [|j] v Hj; simpl in Hj.
    + injection Hj as <-. rewrite Nat.add_0_r. eapply HQ; [done| |exact Hq]. apply Hout. lia.
    + replace (i + S j)%nat with (S i + j)%nat by lia. eapply HQ; [|done|by apply Hin].
      intros x. symmetry. apply Hne. lia.
Qed.

Lemma link_loop_run id rank0 us ls :
  (∀ j u, us !! j = Some u → u.1 ≠ id ∧ is_Some (ls !! (u.1, j))) →
  ∃ ls', level_loop (link_step id rank0) 0 us ls = Ret ls' ∧
    (∀ j, (length us ≤ j)%nat → same_level j ls ls') ∧
    (∀ j u, us !! j = Some u → ∃ l, ls !! (u.1, j) = Some l ∧
      ls' !! (id, j) = Some (mkLevel (forward l) (span l - (rank0 - u.2))) ∧
      ls' !! (u.1, j) = Some (mkLevel (Some id) (rank0 - u.2 + 1)) ∧
      ∀ x, x ≠ id → x ≠ u.1 → ls' !! (x, j) = ls !! (x, j)).
Proof.
  intros Hus. destruct (level_loop_run (link_step id rank0)
    (λ j u ls, u.1 ≠ id ∧ is_Some (ls !! (u.1, j)))
    (λ j u ls ls', ∃ l, ls !! (u.1, j) = Some l ∧
      ls' !! (id, j) = Some (mkLevel (forward l) (span l - (rank0 - u.2))) ∧
      ls' !! (u.1, j) = Some (mkLevel (Some id) (rank0 - u.2 + 1)) ∧
      ∀ x, x ≠ id → x ≠ u.1 → ls' !! (x, j) = ls !! (x, j)) 0 us ls) as (ls' & E & Hout & Hin).
  - intros j u h [Hu [l Hl]]. unfold link_step, heap_level. rewrite Hl. eexists. split_and!; [reflexivity| |].
    + intros k Hk x. by rewrite !lookup_insert_ne by congruence.
    + exists l. split_and!; [done| | |].
      * rewrite lookup_insert_ne by congruence. by rewrite lookup_insert_eq.
      * by rewrite lookup_insert_eq.
      * intros x Hx1 Hx2. by rewrite !lookup_insert_ne by congruence.
  - intros j u h h' Hs. by rewrite Hs.
  - intros j u h1 h2 h1' h2' Hs1 Hs2 (l & Hl & H1 & H2 & H3). exists l. rewrite Hs1, !Hs2. split_and!; [done..|].
    intros x. rewrite Hs1, Hs2. apply H3.
  - exact Hus.
  - exists ls'. split_and!; [exact E| |exact Hin]. intros j Hj. apply Hout. lia.
Qed.

Lemma bump_loop_run i us ls :
  (∀ j u, us !! j = Some u → is_Some (ls !! (u.1, i + j)%nat)) →
  ∃ ls', level_loop bump_step i us ls = Ret ls' ∧
    (∀ j, (j < i ∨ i + length us ≤ j)%nat → same_level j ls ls') ∧
    (∀ j u, us !! j = Some u → ∃ l, ls !! (u.1, i + j)%nat = Some l ∧
      ls' !! (u.1, i + j)%nat = Some (mkLevel (forward l) (span l + 1)) ∧
      ∀ x, x ≠ u.1 → ls' !! (x, i + j)%nat = ls !! (x, i + j)%nat).
Proof.
  intros Hus. apply (level_loop_run bump_step
    (λ j u ls, is_Some (ls !! (u.1, j)))
    (λ j u ls ls', ∃ l, ls !! (u.1, j) = Some l ∧
      ls' !! (u.1, j) = Some (mkLevel (forward l) (span l + 1)) ∧
      ∀ x, x ≠ u.1 → ls' !! (x, j) = ls !! (x, j)) i us ls); [| | |exact Hus].
  - intros j u h [l Hl]. unfold bump_step, heap_level. rewrite Hl. eexists. split_and!; [reflexivity| |].
    + intros k Hk x. by rewrite !lookup_insert_ne by congruence.
    + exists l. split_and!; [done|by rewrite lookup_insert_eq|].
      intros x Hx. by rewrite !lookup_insert_ne by congruence.
  - intros j u h h' Hs. by rewrite Hs.
  - intros j u h1 h2 h1' h2' Hs1 Hs2 (l & Hl & H1 & H2). exists l. rewrite Hs1, !Hs2. split_and!; [done..|].
    intros x. rewrite Hs1, Hs2. apply H2.
Qed.

(** ** Insertion *)

Lemma end_id_fresh id ns a b : id ∉ 0%nat :: ids ns → ns = a ++ b → end_id a ≠ id.
Proof.
  intros Hid -> <-. apply Hid. destruct a as [|x a]; [left|right].
  unfold ids. rewrite fmap_app. apply elem_of_app. left. by apply end_id_in.
Qed.

(** The levels a search was left at hold the links to the rest. *)
Lemma left_link sl pre post us i u :
  rep sl (pre ++ post) → left_all pre (level sl) us → us !! i = Some u →
  ∃ a b, pre = a ++ b ∧ tall_end i a ∧ short i b ∧ u = (end_id a, Z.of_nat (length a)) ∧
    levels sl !! (end_id a, i) = Some (link i (b ++ post)).
Proof.
  intros Hr [Hlen Hus] Hi. destruct (Hus i u Hi) as (a & b & -> & Ht & Hs & ->). exists a, b. split_and!; [done..|].
  apply (rep_links _ _ Hr); [by rewrite <-app_assoc|done|]. apply lookup_lt_Some in Hi. lia.
Qed.

(** What the two loops of [insert] make of a level. *)
Lemma insert_level sl pre post us id h e :
  rep sl (pre ++ post) → left_all pre (level sl) us → (h ≤ level sl)%nat → id ∉ 0%nat :: ids (pre ++ post) →
  ∃ ls1 ls2, level_loop (link_step id (Z.of_nat (length pre))) 0 (take h us) (new_levels id h (levels sl)) = Ret ls1 ∧
    level_loop bump_step h (drop h us) ls1 = Ret ls2 ∧
    (∀ i x, (level sl ≤ i)%nat → x ≠ id → ls2 !! (x, i) = levels sl !! (x, i)) ∧
    ∀ i, (i < level sl)%nat → ∃ a b, pre = a ++ b ∧ tall_end i a ∧ short i b ∧
      ls2 !! (end_id a, i) = Some (link i (b ++ mkCell id h e :: post)) ∧
      ((i < h)%nat → ls2 !! (id, i) = Some (link i post)) ∧
      ∀ x, x ≠ id → x ≠ end_id a → ls2 !! (x, i) = levels sl !! (x, i).
Proof.
  intros Hr Hleft Hh Hid. pose proof Hleft as [Hlen _].
  assert (∀ i u, us !! i = Some u → u.1 ≠ id) as Hne.
  { intros i u Hi. destruct (left_link _ _ _ _ _ _ Hr Hleft Hi) as (a & b & -> & _ & _ & -> & _).
    apply (end_id_fresh id ((a ++ b) ++ post) a (b ++ post)); [done|by rewrite <-app_assoc]. }
  destruct (link_loop_run id (Z.of_nat (length pre)) (take h us) (new_levels id h (levels sl))) as (ls1 & E1 & Hout1 & Hin1).
  { intros j u Hj. apply lookup_take_Some in Hj as [Hj _]. split; [by eapply Hne|].
    rewrite new_levels_ne by (by eapply Hne).
    destruct (left_link _ _ _ _ _ _ Hr Hleft Hj) as (a & b & _ & _ & _ & -> & Hl).
    cbn [fst]. by rewrite Hl. }
  rewrite length_take, Nat.min_l in Hout1 by lia.
  destruct (bump_loop_run h (drop h us) ls1) as (ls2 & E2 & Hout2 & Hin2).
  { intros j u Hj. rewrite lookup_drop in Hj. rewrite Hout1 by lia. rewrite new_levels_ne by (by eapply Hne).
    destruct (left_link _ _ _ _ _ _ Hr Hleft Hj) as (a & b & _ & _ & _ & -> & Hl).
    cbn [fst]. by rewrite Hl. }
  rewrite length_drop in Hout2.
  exists ls1, ls2. split_and!; [done..| |].
  { intros i x Hi Hx. rewrite Hout2, Hout1 by lia. by apply new_levels_ne. }
  intros i Hi. destruct (lookup_lt_is_Some_2 us i) as [u Hu]; [lia|].
  destruct (left_link _ _ _ _ _ _ Hr Hleft Hu) as (a & b & Hab & Ht & Hs & -> & Hl).
  exists a, b. split_and!; [done..| | |]; pose proof (Hne i _ Hu) as Hnid; simpl in Hnid.
  all: destruct (decide (i < h)%nat) as [Hlt|Hge].
  all: try (destruct (Hin1 i (end_id a, Z.of_nat (length a))) as (l & Hl' & H1 & H2 & H3); [by rewrite lookup_take_lt|];
    cbn [fst snd] in *; rewrite new_levels_ne, Hl in Hl' by done; injection Hl' as <-).
  all: try (destruct (Hin2 (i - h)%nat (end_id a, Z.of_nat (length a))) as (l & Hl' & H1 & H2);
    [rewrite lookup_drop; by replace (h + (i - h))%nat with i by lia|];
    cbn [fst snd] in *; replace (h + (i - h))%nat with i in * by lia;
    rewrite (Hout1 i), new_levels_ne, Hl in Hl' by (done || lia); injection Hl' as <-).
  - rewrite (Hout2 i) by lia. rewrite H2. f_equal. rewrite link_first by (done || (unfold tall; simpl; by apply Nat.ltb_lt)).
    simpl. f_equal. rewrite Hab, length_app. lia.
  - rewrite H1. f_equal. rewrite !link_short_app by done. cbn [forward span link].
    unfold tall. cbn [c_height]. replace (i <? h)%nat with false by (symmetry; apply Nat.ltb_ge; lia). simpl. f_equal. lia.
  - intros _. rewrite (Hout2 i) by lia. rewrite H1. f_equal. rewrite link_short_app by done. simpl.
    destruct (link i post). simpl. f_equal. rewrite Hab, length_app. lia.
  - lia.
  - intros x Hx1 Hx2. rewrite (Hout2 i) by lia. rewrite H3 by done. by apply new_levels_ne.
  - intros x Hx1 Hx2. rewrite H2 by done. rewrite (Hout1 i) by lia. by apply new_levels_ne.
Qed.

Lemma randomLevel_range r : (1 ≤ randomLevel r ≤ maxLevel)%nat.
Proof.
  unfold randomLevel, Len64, maxLevel. change (Z.shiftl 1 (Z.of_nat 16) - 1) with 65535.
  pose proof (Z.mod_pos_bound r 65535 ltac:(lia)) as Hk. set (k := r mod 65535) in *.
  destruct (k + 1 <=? 0) eqn:E; [zlia|].
  assert (0 ≤ Z.log2 (k + 1) < 16); [|lia].
  split; [apply Z.log2_nonneg|]. apply Z.log2_lt_pow2; lia.
Qed.

Lemma link_bottom sl ns a b : rep sl ns → ns = a ++ b →
  link 0 b = mkLevel (c_id <$> head b) (Z.of_nat (Nat.min 1 (length b))).
Proof.
  intros Hr ->. destruct b as [|c b]; [done|]. simpl.
  pose proof (rep_heights _ _ Hr) as Hh. rewrite Forall_app in Hh. destruct Hh as [_ Hh].
  apply Forall_cons in Hh as [Hh _]. unfold tall.
  replace (0 <? c_height c)%nat with true by (symmetry; apply Nat.ltb_lt; lia). done.
Qed.

(** Splitting a list around a new element. *)
Lemma split_insert {A} (pre post a b : list A) x :
  pre ++ x :: post = a ++ b →
  (∃ p, pre = a ++ p ∧ b = p ++ x :: post) ∨ (∃ q, a = pre ++ x :: q ∧ post = q ++ b).
Proof.
  intros E. apply app_eq_inv in E as [(p & -> & ->)|(q & -> & E)]; [left; by exists p|].
  destruct q as [|z q]; simpl in E.
  - left. exists []. rewrite !app_nil_r. by split.
  - right. injection E as <- ->. by exists q.
Qed.

Lemma app_self {A} (l k : list A) : l ++ k = l → k = [].
Proof. intros E. apply (f_equal length) in E. rewrite length_app in E. destruct k; [done|simpl in E; lia]. Qed.

(** A node is known by its number. *)
Lemma id_inj ns a c b a' c' b' :
  NoDup (ids ns) → ns = a ++ c :: b → ns = a' ++ c' :: b' → c_id c = c_id c' → a = a' ∧ c = c' ∧ b = b'.
Proof.
  intros Hnd E E' Hc.
  assert (ns !! length a = Some c ∧ ns !! length a' = Some c') as [Hl Hl'].
  { split; [rewrite E|rewrite E']; by rewrite list_lookup_middle. }
  assert (length a = length a') as Hlen.
  { unfold ids in Hnd. eapply (NoDup_lookup (c_id <$> ns)); [done|..]; rewrite list_lookup_fmap.
    - rewrite Hl. reflexivity.
    - rewrite Hl'. simpl. by rewrite Hc. }
  rewrite E in E'. apply app_inj_1 in E' as [-> [= -> ->]]; done.
Qed.

Lemma insert_nodes (ns : gmap nat node) pre post id e :
  (∀ a c b, pre ++ post = a ++ c :: b → ns !! c_id c = Some (mkNode (c_elem c) (back a))) →
  NoDup (ids (pre ++ post)) → id ∉ ids (pre ++ post) →
  ∃ ns2, match head post with
         | Some y => set_backward (<[id := mkNode e (back pre)]> ns) (c_id y) (Some id)
         | None => Ret (<[id := mkNode e (back pre)]> ns)
         end = Ret ns2 ∧
    (∀ x, x ∉ id :: ids post → ns2 !! x = ns !! x) ∧
    ∀ h a c b, pre ++ mkCell id h e :: post = a ++ c :: b → ns2 !! c_id c = Some (mkNode (c_elem c) (back a)).
Proof.
  intros Hns Hnd Hid.
  assert (∀ a c b, pre ++ post = a ++ c :: b → id ≠ c_id c) as Hne.
  { intros a c b E ->. apply Hid, elem_of_ids. rewrite E. apply elem_of_app. right. left. }
  assert (∃ ns2, match head post with
         | Some y => set_backward (<[id := mkNode e (back pre)]> ns) (c_id y) (Some id)
         | None => Ret (<[id := mkNode e (back pre)]> ns)
         end = Ret ns2 ∧ (∀ x, x ∉ id :: ids post → ns2 !! x = ns !! x) ∧
      ns2 !! id = Some (mkNode e (back pre)) ∧
      (∀ y q, post = y :: q → ns2 !! c_id y = Some (mkNode (c_elem y) (Some id))) ∧
      ∀ a c b, pre ++ post = a ++ c :: b → a ≠ pre → ns2 !! c_id c = ns !! c_id c) as (ns2 & E & Hout & Hnew & Hhd & Hold).
  { destruct post as [|y post]; simpl.
    - eexists. split_and!; [done|intros x Hx; apply lookup_insert_ne; set_solver|by rewrite lookup_insert_eq|done|].
      intros a c b E _. apply lookup_insert_ne. by eapply Hne.
    - pose proof (Hne pre y post eq_refl). unfold set_backward. rewrite lookup_insert_ne, (Hns pre y post eq_refl) by done.
      eexists. split_and!; [done| | | |].
      + intros x Hx. rewrite !lookup_insert_ne; [done|set_solver..].
      + by rewrite lookup_insert_ne, lookup_insert_eq.
      + intros y' q [= <- <-]. by rewrite lookup_insert_eq.
      + intros a c b E Ha. rewrite !lookup_insert_ne; [done|by eapply Hne|]. intros Hc. apply Ha.
        by destruct (id_inj _ _ _ _ _ _ _ Hnd eq_refl E Hc). }
  exists ns2. split_and!; [done..|]. intros h a c b Ens.
  apply split_insert in Ens as [(p & Hp & Ep)|(q & -> & Eq)].
  - destruct p as [|z p]; simpl in Ep; injection Ep as -> ->; [by rewrite app_nil_r in Hp; subst pre|].
    assert (pre ++ post = a ++ z :: p ++ post) as E' by (by rewrite Hp, <-app_assoc).
    rewrite (Hold _ _ _ E'); [by eapply Hns|]. intros ->. symmetry in Hp. by apply app_self in Hp.
  - destruct q as [|z q]; simpl in Eq.
    + rewrite (Hhd _ _ Eq). unfold back. by rewrite last_snoc.
    + assert (pre ++ post = (pre ++ z :: q) ++ c :: b) as E' by (by rewrite Eq, <-app_assoc).
      rewrite (Hold _ _ _ E'), (Hns _ _ _ E'); [unfold back; by rewrite !last_app_cons|].
      intros Hx. by apply app_self in Hx.
Qed.

Lemma left_extend sl ns pre post us n :
  rep sl ns → ns = pre ++ post → left_all pre (level sl) us →
  left_all pre (level sl + n) (us ++ replicate n (0%nat, 0)).
Proof.
  intros Hr -> [Hlen Hus]. split; [by rewrite length_app, length_replicate, Hlen|].
  intros i u Hi. apply lookup_app_Some in Hi as [Hi|[Hge Hi]]; [by apply Hus|].
  apply lookup_replicate in Hi as [-> _]. exists [], pre. split_and!; [done..| |done].
  eapply short_above; [exact Hr| |lia]. intros c Hc. apply elem_of_app. by left.
Qed.

Lemma end_id_back a b : NoDup (0%nat :: ids (a ++ b)) →
  (if (end_id a =? 0)%nat then None else Some (end_id a)) = back a.
Proof.
  intros Hnd. destruct (Nat.eqb_spec (end_id a) 0) as [E|E].
  - by rewrite (end_id_cases a b _ eq_refl Hnd E).
  - unfold end_id, back in *. by destruct (last a).
Qed.

(** A place in [pre] is the one where level [i] was left, or there is a tall node
    behind it. *)
Lemma place_cases ns pre rest i a' b' a p :
  NoDup (0%nat :: ids ns) → ns = pre ++ rest → pre = a' ++ b' → tall_end i a' → short i b' →
  pre = a ++ p → tall_end i a → a = a' ∧ p = b' ∨ end_id a ≠ end_id a' ∧ existsb (tall i) p = true.
Proof.
  intros Hnd Hns Hp' Ht' Hs' Hp Ha. destruct (decide (end_id a = end_id a')) as [Heq|Hne].
  - left. assert (a = a') as ->.
    { eapply (end_id_inj ns a (p ++ rest) a' (b' ++ rest)); [done|..|done];
        [by rewrite Hns, Hp, <-app_assoc|by rewrite Hns, Hp', <-app_assoc]. }
    split; [done|]. rewrite Hp in Hp'. by apply app_inv_head in Hp'.
  - right. split; [done|]. destruct (existsb (tall i) p) eqn:Ep; [done|]. exfalso. apply Hne.
    apply short_existsb in Ep. assert (left_at pre i (end_id a', Z.of_nat (length a'))) as Hl by (by exists a', b').
    by injection (left_unique pre i a p _ Hl Hp Ha Ep) as ->.
Qed.

(** A place behind more than [pre] is none of those. *)
Lemma place_beyond ns pre rest a' b' x q b :
  NoDup (0%nat :: ids ns) → ns = pre ++ rest → pre = a' ++ b' → ns = (pre ++ x :: q) ++ b →
  end_id (pre ++ x :: q) ≠ end_id a'.
Proof.
  intros Hnd Hns Hp' E Heq. assert (pre ++ x :: q = a') as Hx.
  { eapply (end_id_inj ns _ b a' (b' ++ rest)); [done|done| |done]. by rewrite Hns, Hp', <-app_assoc. }
  apply (f_equal length) in Hx, Hp'. rewrite length_app in Hx, Hp'. simpl in Hx. lia.
Qed.

(** The heaps that [insert] builds represent the longer list. *)
Lemma insert_assemble sl pre post id h e ls ns :
  rep sl (pre ++ post) → (1 ≤ h ≤ level sl)%nat → id ∉ 0%nat :: ids (pre ++ post) → id = fresh sl →
  (∀ i x, (level sl ≤ i)%nat → x ≠ id → ls !! (x, i) = levels sl !! (x, i)) →
  (∀ i, (i < level sl)%nat → ∃ a b, pre = a ++ b ∧ tall_end i a ∧ short i b ∧
     ls !! (end_id a, i) = Some (link i (b ++ mkCell id h e :: post)) ∧
     ((i < h)%nat → ls !! (id, i) = Some (link i post)) ∧
     ∀ x, x ≠ id → x ≠ end_id a → ls !! (x, i) = levels sl !! (x, i)) →
  (∀ x, x ∉ id :: ids post → ns !! x = nodes sl !! x) →
  (∀ h a c b, pre ++ mkCell id h e :: post = a ++ c :: b → ns !! c_id c = Some (mkNode (c_elem c) (back a))) →
  rep (mkSkiplist ns ls (S id) (back (pre ++ mkCell id h e :: post)) (len sl + 1) (level sl))
    (pre ++ mkCell id h e :: post).
Proof.
  intros Hr Hh Hid Hf Hout Hlv Hns0 Hns. pose proof (rep_ids _ _ Hr) as Hnd.
  split; simpl; [apply Hr| | | | | | | |done|].
  - pose proof (rep_heights _ _ Hr) as Hhs. rewrite Forall_app in Hhs. destruct Hhs as [Hh1 Hh2].
    apply Forall_app. split; [exact Hh1|]. by constructor.
  - intros a b i E Ha Hi. destruct (Hlv i Hi) as (a' & b' & Hp' & Ht' & Hs' & H1 & H2 & H3).
    apply split_insert in E as [(p & Hp & ->)|(q & -> & Hq)].
    + destruct (place_cases _ _ post i a' b' a p Hnd eq_refl Hp' Ht' Hs' Hp Ha) as [[-> ->]|[Hne Ep]]; [done|].
      rewrite H3; [|eapply (end_id_fresh _ (pre ++ post) a (p ++ post)); [done|by rewrite Hp, <-app_assoc]|done].
      rewrite (rep_links _ _ Hr a (p ++ post) i) by (by rewrite ?Hp, <-?app_assoc). by rewrite !link_app, Ep.
    + destruct q as [|z q].
      * simpl in Hq. subst b. unfold tall_end in Ha. rewrite last_snoc in Ha. rewrite end_id_snoc. apply H2.
        unfold tall in Ha. simpl in Ha. by apply Nat.ltb_lt.
      * assert (pre ++ post = (pre ++ z :: q) ++ b) as E by (by rewrite Hq, <-app_assoc).
        assert (end_id (pre ++ mkCell id h e :: z :: q) = end_id (pre ++ z :: q) ∧
                tall_end i (pre ++ z :: q)) as [-> Ht].
        { unfold tall_end, end_id in *. rewrite !last_app_cons in *. done. }
        rewrite H3; [by apply (rep_links _ _ Hr)|by eapply end_id_fresh|by eapply place_beyond].
  - intros i Hi. rewrite Hout; [by apply (rep_above _ _ Hr)|lia|]. intros <-. set_solver.
  - rewrite Hns0; [by apply Hr|]. apply NoDup_cons in Hnd as [Hnd _]. unfold ids in *. rewrite fmap_app in *. set_solver.
  - intros a c b. apply Hns.
  - unfold ids in *. rewrite fmap_app in *. simpl. rewrite <-Permutation_middle, Permutation_swap.
    apply NoDup_cons. split; [set_solver|done].
  - pose proof (rep_fresh _ _ Hr) as Hfr. rewrite Forall_forall in Hfr |- *. intros n Hn.
    assert (n = id ∨ n ∈ 0%nat :: ids (pre ++ post)) as [->|Hn'].
    { unfold ids in *. rewrite fmap_app in *. set_solver. }
    + lia.
    + specialize (Hfr n Hn'). simpl in Hfr. lia.
  - rewrite (rep_len _ _ Hr), !length_app. simpl. lia.
Qed.

(** Insertion puts the new node behind the nodes that stand before it. *)
Lemma insert_rep sl pre post member score r :
  rep sl (pre ++ post) → cut (λ _ e, before e score member) pre post →
  ∃ sl', insert sl member score r = Ret (sl', fresh sl) ∧
    rep sl' (pre ++ mkCell (fresh sl) (randomLevel r) (mkElement member score) :: post).
Proof.
  intros Hr Hcut. set (lvl := randomLevel r). pose proof (randomLevel_range r) as Hlvl. fold lvl in Hlvl.
  destruct (search_spec sl _ pre post _ Hr eq_refl Hcut) as (us & E & Hleft & Hat).
  destruct (extend_rep sl _ lvl Hr) as (ls & Eext & Hr1); [lia|]. set (sl1 := set_levels sl ls _) in Hr1.
  pose proof (left_extend sl _ pre post us (lvl - level sl) Hr eq_refl Hleft) as Hleft1.
  set (us1 := us ++ _) in Hleft1. replace (level sl + (lvl - level sl))%nat with (level sl1) in Hleft1 by (simpl; lia).
  assert (fresh sl ∉ 0%nat :: ids (pre ++ post)) as Hid.
  { intros Hin. pose proof (rep_fresh _ _ Hr) as Hf. rewrite Forall_forall in Hf. specialize (Hf _ Hin). simpl in Hf. lia. }
  destruct (insert_level sl1 pre post us1 (fresh sl) lvl (mkElement member score) Hr1 Hleft1)
    as (ls1 & ls2 & E1 & E2 & Hout & Hlv); [simpl; lia|done|].
  destruct (insert_nodes (nodes sl) pre post (fresh sl) (mkElement member score) (rep_nodes _ _ Hr))
    as (ns2 & En & Hns0 & Hns); [apply (NoDup_cons_1_2 _ _ (rep_ids _ _ Hr))|set_solver|].
  assert (ls2 !! (fresh sl, 0%nat) = Some (link 0 post)) as H0.
  { destruct (Hlv 0%nat) as (a & b & _ & _ & _ & _ & H0 & _); [apply Hr1|]. apply H0. lia. }
  pose proof (insert_assemble sl1 pre post (fresh sl) lvl (mkElement member score) ls2 ns2 Hr1
    ltac:(simpl; lia) Hid eq_refl Hout Hlv Hns0 Hns) as Hfin.
  eexists. split; [|exact Hfin]. unfold insert. rewrite E. cbn [mbind outcome_bind]. fold lvl. rewrite Eext.
  cbn [mbind outcome_bind]. fold us1.
  assert (at_level us1 0 = Ret (end_id pre, Z.of_nat (length pre))) as ->.
  { unfold at_level in *. unfold us1. rewrite lookup_app. by destruct (us !! 0%nat). }
  cbn [mbind outcome_bind fst snd]. change ls with (levels sl1). rewrite E1. cbn [mbind outcome_bind].
  rewrite (take_ge us1) by (destruct Hleft1 as [-> _]; simpl; lia). rewrite E2. cbn [mbind outcome_bind].
  unfold heap_level. rewrite H0. cbn [mbind outcome_bind]. rewrite (end_id_back pre post) by apply Hr.
  rewrite (link_bottom _ _ pre post Hr eq_refl). cbn [forward].
  destruct post as [|y post].
  - simpl in En |- *. injection En as ->. unfold back. by rewrite last_snoc.
  - simpl in En |- *. rewrite En. cbn [mbind outcome_bind]. rewrite (rep_tail _ _ Hr). unfold back. by rewrite !last_app_cons.
Qed.

(** ** Removal *)

Lemma unlink_loop_run id us ls :
  (∀ j u, us !! j = Some u → ∃ l, ls !! (u.1, j) = Some l ∧ (forward l = Some id → is_Some (ls !! (id, j)))) →
  ∃ ls', level_loop (unlink_step id) 0 us ls = Ret ls' ∧
    (∀ j, (length us ≤ j)%nat → same_level j ls ls') ∧
    (∀ j u, us !! j = Some u → ∃ l, ls !! (u.1, j) = Some l ∧ (∀ x, x ≠ u.1 → ls' !! (x, j) = ls !! (x, j)) ∧
      (if bool_decide (forward l = Some id)
       then ∃ m, ls !! (id, j) = Some m ∧ ls' !! (u.1, j) = Some (mkLevel (forward m) (span l + (span m - 1)))
       else ls' !! (u.1, j) = Some (mkLevel (forward l) (span l - 1)))).
Proof.
  intros Hus. destruct (level_loop_run (unlink_step id)
    (λ j u ls, ∃ l, ls !! (u.1, j) = Some l ∧ (forward l = Some id → is_Some (ls !! (id, j))))
    (λ j u ls ls', ∃ l, ls !! (u.1, j) = Some l ∧ (∀ x, x ≠ u.1 → ls' !! (x, j) = ls !! (x, j)) ∧
      (if bool_decide (forward l = Some id)
       then ∃ m, ls !! (id, j) = Some m ∧ ls' !! (u.1, j) = Some (mkLevel (forward m) (span l + (span m - 1)))
       else ls' !! (u.1, j) = Some (mkLevel (forward l) (span l - 1)))) 0 us ls) as (ls' & E & Hout & Hin).
  - intros j u h (l & Hl & Hid). unfold unlink_step, heap_level. rewrite Hl. cbn [mbind outcome_bind].
    assert (∀ v k, k ≠ j → same_level k h (<[(u.1, j) := v]> h)) as Hne
      by (intros v k Hk x; by rewrite lookup_insert_ne by congruence).
    assert (∀ v x, x ≠ u.1 → (<[(u.1, j) := v]> h) !! (x, j) = h !! (x, j)) as Hx
      by (intros v x Hx; by rewrite lookup_insert_ne by congruence).
    case_bool_decide as Hf.
    + destruct (Hid Hf) as [m Hm]. rewrite Hm. eexists. split_and!; [done|by apply Hne|]. exists l.
      rewrite bool_decide_true by done. split_and!; [done|by apply Hx|]. exists m. by rewrite lookup_insert_eq.
    + eexists. split_and!; [done|by apply Hne|]. exists l.
      rewrite bool_decide_false by done. split_and!; [done|by apply Hx|]. by rewrite lookup_insert_eq.
  - intros j u h h' Hs (l & Hl & Hid). exists l. by rewrite !Hs.
  - intros j u h1 h2 h1' h2' Hs1 Hs2 (l & Hl & Hx & Hb). exists l. rewrite Hs1. split_and!; [done|..].
    + intros x. rewrite Hs1, Hs2. apply Hx.
    + destruct (bool_decide _); [destruct Hb as (m & Hm & Hb); exists m|]; by rewrite ?Hs1, ?Hs2.
  - exact Hus.
  - exists ls'. split_and!; [exact E| |exact Hin]. intros j Hj. apply Hout. lia.
Qed.

Lemma link_forward_in i l y : forward (link i l) = Some y → y ∈ ids l.
Proof.
  induction l as [|c l IH]; simpl; [done|]. destruct (tall i c); simpl.
  - intros [= <-]. left.
  - intros Hy. right. by apply IH.
Qed.

(** What the loop of [removeNode] makes of a level. *)
Lemma remove_level sl pre post us c :
  rep sl (pre ++ c :: post) → (∀ i u, us !! i = Some u → left_at pre i u) → length us = level sl →
  ∃ ls, level_loop (unlink_step (c_id c)) 0 us (levels sl) = Ret ls ∧
    (∀ i x, (level sl ≤ i)%nat → ls !! (x, i) = levels sl !! (x, i)) ∧
    ∀ i, (i < level sl)%nat → ∃ a b, pre = a ++ b ∧ tall_end i a ∧ short i b ∧
      ls !! (end_id a, i) = Some (link i (b ++ post)) ∧
      ∀ x, x ≠ end_id a → ls !! (x, i) = levels sl !! (x, i).
Proof.
  intros Hr Hus Hlen. pose proof (conj Hlen Hus : left_all pre (level sl) us) as Hleft.
  pose proof (NoDup_cons_1_2 _ _ (rep_ids _ _ Hr)) as Hnd. unfold ids in Hnd. rewrite fmap_app in Hnd.
  apply NoDup_app in Hnd as (_ & _ & Hnd). apply NoDup_cons in Hnd as [Hnc _].
  assert (∀ i, (i < level sl)%nat → tall i c = true → levels sl !! (c_id c, i) = Some (link i post)) as Hc.
  { intros i Hi Ht. rewrite <-(end_id_snoc pre c).
    apply (rep_links _ _ Hr); [by rewrite <-app_assoc|by apply tall_end_snoc|done]. }
  assert (∀ i b, short i b → forward (link i (b ++ c :: post)) = Some (c_id c) ↔ tall i c = true) as Hfw.
  { intros i b Hs. rewrite link_short_app by done. simpl. destruct (tall i c); simpl; [done|].
    split; [|done]. intros Hf. exfalso. apply Hnc. by apply link_forward_in in Hf. }
  destruct (unlink_loop_run (c_id c) us (levels sl)) as (ls & E & Hout & Hin).
  { intros i u Hu. destruct (left_link _ _ _ _ _ _ Hr Hleft Hu) as (a & b & _ & _ & Hs & -> & Hl).
    exists (link i (b ++ c :: post)). split; [done|]. intros Hf. apply Hfw in Hf; [|done].
    rewrite Hc; [done| |done]. apply lookup_lt_Some in Hu. lia. }
  exists ls. split_and!; [done|intros i x Hi; apply Hout; lia|]. intros i Hi.
  destruct (lookup_lt_is_Some_2 us i) as [u Hu]; [lia|].
  destruct (left_link _ _ _ _ _ _ Hr Hleft Hu) as (a & b & Hab & Ht & Hs & -> & Hl).
  exists a, b. destruct (Hin i _ Hu) as (l & Hl' & Hx & Hb). cbn [fst snd] in *. rewrite Hl in Hl'. injection Hl' as <-.
  split_and!; [done..| |done]. rewrite link_short_app by done. case_bool_decide as Hf.
  - apply Hfw in Hf; [|done]. destruct Hb as (m & Hm & ->). rewrite (Hc i Hi Hf) in Hm. injection Hm as <-.
    rewrite link_first by done. simpl. do 2 f_equal. lia.
  - rewrite Hfw in Hf by done. apply not_true_iff_false in Hf. rewrite Hb, link_short_app by done. simpl. rewrite Hf. simpl.
    do 2 f_equal. lia.
Qed.

Lemma shrink_spec ls ns lvl :
  (1 ≤ lvl)%nat → Forall (λ c, (c_height c ≤ lvl)%nat) ns →
  (∀ i, (i < lvl)%nat → ls !! (0%nat, i) = Some (link i ns)) →
  ∃ lvl', shrink lvl ls = Ret lvl' ∧ (1 ≤ lvl' ≤ lvl)%nat ∧ Forall (λ c, (c_height c ≤ lvl')%nat) ns ∧
    ∀ i, (lvl' ≤ i < lvl)%nat → ∃ s, ls !! (0%nat, i) = Some (mkLevel None s).
Proof.
  induction lvl as [|k IH]; intros Hl Hh Hls; [lia|]. cbn [shrink].
  destruct (Nat.eqb_spec k 0) as [->|Hk].
  { exists 1%nat. split_and!; [done|lia..|done|]. intros i Hi. lia. }
  unfold heap_level. rewrite Hls by lia. cbn [mbind outcome_bind].
  destruct (first_tall k ns) as [Hs|(a & c & b & -> & Hs & Hc)].
  - rewrite link_short by done. cbn [forward]. destruct IH as (lvl' & E & Hr & Hf & Hn); [lia|..].
    + eapply Forall_impl; [exact Hs|]. intros c Hc. unfold tall in Hc. zlia.
    + intros i Hi. apply Hls. lia.
    + exists lvl'. split_and!; [done|lia..|done|]. intros i Hi. destruct (decide (i = k)) as [->|Hne].
      * rewrite Hls, link_short by (done || lia). by eexists.
      * apply Hn. lia.
  - rewrite link_first by done. cbn [forward]. exists (S k). split_and!; [done|lia..|done|]. intros i Hi. lia.
Qed.

Lemma remove_nodes (ns : gmap nat node) pre post c :
  (∀ a c' b, pre ++ c :: post = a ++ c' :: b → ns !! c_id c' = Some (mkNode (c_elem c') (back a))) →
  NoDup (ids (pre ++ c :: post)) →
  ∃ ns2, match head post with
         | Some y => set_backward ns (c_id y) (back pre)
         | None => Ret ns
         end = Ret ns2 ∧
    (∀ x, x ∉ ids post → ns2 !! x = ns !! x) ∧
    ∀ a c' b, pre ++ post = a ++ c' :: b → ns2 !! c_id c' = Some (mkNode (c_elem c') (back a)).
Proof.
  intros Hns Hnd.
  assert (∃ ns2, match head post with
         | Some y => set_backward ns (c_id y) (back pre)
         | None => Ret ns
         end = Ret ns2 ∧ (∀ x, x ∉ ids post → ns2 !! x = ns !! x) ∧
      (∀ y q, post = y :: q → ns2 !! c_id y = Some (mkNode (c_elem y) (back pre))) ∧
      ∀ a c' b, pre ++ c :: post = a ++ c' :: b → a ≠ pre ++ [c] → ns2 !! c_id c' = ns !! c_id c')
    as (ns2 & E & Hout & Hhd & Hold).
  { destruct post as [|y post]; simpl; [by exists ns|].
    assert (pre ++ c :: y :: post = (pre ++ [c]) ++ y :: post) as Ey by (by rewrite <-app_assoc).
    unfold set_backward. rewrite (Hns _ _ _ Ey). eexists. split_and!; [done| | |].
    - intros x Hx. apply lookup_insert_ne. set_solver.
    - intros y' q [= <- <-]. by rewrite lookup_insert_eq.
    - intros a c' b E' Ha. apply lookup_insert_ne. intros Hc. apply Ha.
      by destruct (id_inj _ _ _ _ _ _ _ Hnd Ey E' Hc) as [-> _]. }
  exists ns2. split_and!; [done..|]. intros a c' b Ens.
  assert ((∃ p, pre = a ++ c' :: p) ∨ ∃ q, a = pre ++ q ∧ post = q ++ c' :: b) as [[p Hp]|(q & -> & Hq)].
  { apply app_eq_inv in Ens as [(p & -> & Hp)|(q & -> & Hq)]; [|right; by exists q].
    destruct p as [|z p]; simpl in Hp; [right; exists []; by rewrite !app_nil_r|].
    injection Hp as -> ->. left. by exists p. }
  - assert (pre ++ c :: post = a ++ c' :: p ++ c :: post) as E' by (by rewrite Hp, <-app_assoc).
    rewrite (Hold _ _ _ E'); [by eapply Hns|]. intros Ha. rewrite Hp in Ha. apply (f_equal length) in Ha.
    rewrite !length_app in Ha. simpl in Ha. lia.
  - destruct q as [|z q]; [by rewrite app_nil_r, (Hhd _ _ Hq)|].
    assert (pre ++ c :: post = (pre ++ c :: z :: q) ++ c' :: b) as E' by (by rewrite Hq, <-app_assoc).
    rewrite (Hold _ _ _ E'), (Hns _ _ _ E'); [unfold back; by rewrite !last_app_cons|].
    intros Hx. apply (f_equal length) in Hx. rewrite !length_app in Hx. simpl in Hx. lia.
Qed.

Lemma remove_links (sl : skiplist) (pre post : list cell) (c : cell) (ls : heap) (i : nat) (a b : list cell) :
  rep sl (pre ++ c :: post) → (i < level sl)%nat →
  (∃ a b, pre = a ++ b ∧ tall_end i a ∧ short i b ∧ ls !! (end_id a, i) = Some (link i (b ++ post)) ∧
    ∀ x, x ≠ end_id a → ls !! (x, i) = levels sl !! (x, i)) →
  pre ++ post = a ++ b → tall_end i a → ls !! (end_id a, i) = Some (link i b).
Proof.
  intros Hr Hi (a' & b' & Hp' & Ht' & Hs' & H1 & H2) Ens Ha. pose proof (rep_ids _ _ Hr) as Hnd.
  assert (∀ p, pre = a ++ p → ls !! (end_id a, i) = Some (link i (p ++ post))) as Hin.
  { intros p Hp. destruct (place_cases _ _ (c :: post) i a' b' a p Hnd eq_refl Hp' Ht' Hs' Hp Ha) as [[-> ->]|[Hne Ep]]; [done|].
    rewrite H2 by done. rewrite (rep_links _ _ Hr a (p ++ c :: post) i) by (by rewrite ?Hp, <-?app_assoc).
    by rewrite !link_app, Ep. }
  apply app_eq_inv in Ens as [(p & Hp & ->)|(q & -> & Hq)]; [by apply Hin|]. destruct q as [|z q].
  - simpl in Hq. subst b. apply (Hin []). by rewrite !app_nil_r.
  - assert (pre ++ c :: post = (pre ++ c :: z :: q) ++ b) as E' by (by rewrite Hq, <-app_assoc).
    assert (end_id (pre ++ z :: q) = end_id (pre ++ c :: z :: q) ∧ tall_end i (pre ++ c :: z :: q)) as [-> Ht].
    { unfold tall_end, end_id in *. rewrite !last_app_cons in *. done. }
    rewrite H2; [by apply (rep_links _ _ Hr)|]. by eapply place_beyond.
Qed.

(** [removeNode] takes the node behind [pre] out. *)
Lemma removeNode_rep sl pre post us c :
  rep sl (pre ++ c :: post) → (∀ i u, us !! i = Some u → left_at pre i u) → (level sl ≤ length us)%nat →
  ∃ sl', removeNode sl (c_id c) us = Ret sl' ∧ rep sl' (pre ++ post) ∧ (level sl' ≤ level sl)%nat.
Proof.
  intros Hr Hus Hlen. pose proof (rep_ids _ _ Hr) as Hnd0. apply NoDup_cons in Hnd0 as [H0 Hnd].
  destruct (remove_level sl pre post (take (level sl) us) c Hr) as (ls & E & Hout & Hlv).
  { intros i u Hu. apply lookup_take_Some in Hu as [Hu _]. by apply Hus. }
  { rewrite length_take. lia. }
  destruct (remove_nodes (nodes sl) pre post c (rep_nodes _ _ Hr) Hnd) as (ns & En & Hns0 & Hns).
  assert (∀ i a b, pre ++ post = a ++ b → tall_end i a → (i < level sl)%nat → ls !! (end_id a, i) = Some (link i b)) as Hlk.
  { intros i a b Ens Ha Hi. by eapply remove_links; [..|apply Hlv|exact Ens|]. }
  assert (Forall (λ c, (1 ≤ c_height c ≤ level sl)%nat) (pre ++ post)) as Hh.
  { pose proof (rep_heights _ _ Hr) as Hh. rewrite Forall_app, Forall_cons in Hh. apply Forall_app. tauto. }
  destruct (shrink_spec ls (pre ++ post) (level sl)) as (lvl & Es & Hl & Hhl & Habove).
  { apply Hr. }
  { eapply Forall_impl; [exact Hh|]. simpl. intros. lia. }
  { intros i Hi. by apply (Hlk i [] (pre ++ post)). }
  assert (ls !! (c_id c, 0%nat) = Some (link 0 post)) as Hc0.
  { destruct (Hlv 0%nat) as (a & b & Hab & _ & _ & _ & Hx); [apply Hr|].
    pose proof (place_beyond _ pre (c :: post) a b c [] post (rep_ids _ _ Hr) eq_refl Hab) as Hne.
    rewrite end_id_snoc in Hne. rewrite Hx by (apply Hne; by rewrite <-app_assoc).
    pose proof (rep_heights _ _ Hr) as Hh'. rewrite Forall_app, Forall_cons in Hh'. destruct Hh' as (_ & Hc & _).
    rewrite <-(end_id_snoc pre c). apply (rep_links _ _ Hr); [by rewrite <-app_assoc| |lia].
    apply tall_end_snoc. unfold tall. apply Nat.ltb_lt. lia. }
  assert (link 0 post = mkLevel (c_id <$> head post) (Z.of_nat (Nat.min 1 (length post)))) as Hbot
    by (apply (link_bottom _ _ (pre ++ [c]) post Hr); by rewrite <-app_assoc).
  exists (mkSkiplist ns ls (fresh sl) (back (pre ++ post)) (len sl - 1) lvl). split_and!; [| |simpl; lia].
  - unfold removeNode. replace (length us <? level sl)%nat with false by (symmetry; apply Nat.ltb_ge; lia).
    rewrite E. cbn [mbind outcome_bind]. unfold get_node. rewrite (rep_nodes _ _ Hr pre c post eq_refl).
    unfold heap_level. rewrite Hc0, Hbot. cbn [mbind outcome_bind forward backward]. rewrite Es.
    destruct post as [|y post]; simpl in En |- *.
    + injection En as ->. by rewrite app_nil_r.
    + rewrite En. cbn [mbind outcome_bind fst snd]. rewrite (rep_tail _ _ Hr). unfold back. by rewrite !last_app_cons.
  - split; simpl; try done.
    + pose proof (rep_level _ _ Hr). lia.
    + rewrite Forall_forall in Hh, Hhl |- *. intros x Hx. specialize (Hh x Hx). specialize (Hhl x Hx). simpl in *. lia.
    + intros a b i Ens Ha Hi. apply Hlk; [done..|lia].
    + intros i Hi. destruct (decide (i < level sl)%nat); [apply Habove; lia|]. rewrite Hout by lia. apply (rep_above _ _ Hr). lia.
    + rewrite Hns0; [apply Hr|]. unfold ids in *. rewrite fmap_app in H0. set_solver.
    + unfold ids in *. rewrite fmap_app in *. simpl in Hnd. rewrite <-Permutation_middle in Hnd.
      apply NoDup_cons in Hnd as [_ Hnd]. apply NoDup_cons. split; [set_solver|done].
    + pose proof (rep_fresh _ _ Hr) as Hf. rewrite Forall_forall in Hf |- *. intros n Hn. apply Hf.
      unfold ids in *. rewrite fmap_app in *. set_solver.
    + rewrite (rep_len _ _ Hr), !length_app. simpl. lia.
Qed.

(** ** Elements *)

Definition elems (ns : list cell) : list Element := c_elem <$> ns.

Lemma head_elems ns : head (c_elem <$> ns) = c_elem <$> head ns.
Proof. by destruct ns. Qed.

(** A test that passes on a first part of the list only. *)
Definition falling (P : Element → bool) (l : list Element) : Prop :=
  StronglySorted (λ x y, P y = true → P x = true) l.

Lemma falling_split P ns : falling P (elems ns) →
  ∃ pre post, ns = pre ++ post ∧ Forall (λ c, P (c_elem c) = true) pre ∧ Forall (λ c, P (c_elem c) = false) post.
Proof.
  induction ns as [|c ns IH]; intros Hf; [by exists [], []|].
  unfold falling, elems in Hf. rewrite fmap_cons in Hf. apply StronglySorted_cons in Hf as [Hc Hf].
  destruct (P (c_elem c)) eqn:E.
  - destruct (IH Hf) as (pre & post & -> & H1 & H2). exists (c :: pre), post. split_and!; [done|by constructor|done].
  - exists [], (c :: ns). split_and!; [done|constructor|]. constructor; [done|].
    rewrite Forall_fmap in Hc. eapply Forall_impl; [exact Hc|]. simpl. intros x Hx.
    destruct (P (c_elem x)); [by rewrite Hx|done].
Qed.

Lemma cut_of P pre post :
  Forall (λ c, P (c_elem c) = true) pre → Forall (λ c, P (c_elem c) = false) post → cut (λ _ e, P e) pre post.
Proof.
  intros H1 H2. rewrite Forall_forall in H1, H2. split; intros a c b ->; [apply H1|apply H2]; apply elem_of_app; right; left.
Qed.

Lemma cut_rank (f : Z → bool) pre post :
  (∀ i, 1 ≤ i ≤ Z.of_nat (length pre) → f i = true) →
  (∀ i, Z.of_nat (length pre) < i ≤ Z.of_nat (length (pre ++ post)) → f i = false) → cut (λ i _, f i) pre post.
Proof.
  intros H1 H2. split; intros a c b E; [apply H1; rewrite E|apply H2; rewrite E]; rewrite !length_app; simpl; lia.
Qed.

(** The element behind [pre]. *)
Lemma next_spec sl ns pre post : rep sl ns → ns = pre ++ post →
  get_level sl (end_id pre) 0 = Ret (mkLevel (c_id <$> head post) (Z.of_nat (Nat.min 1 (length post)))).
Proof.
  intros Hr Hns. unfold get_level. rewrite (rep_links _ _ Hr pre post 0).
  - by rewrite (link_bottom _ _ pre post Hr Hns).
  - done.
  - unfold tall_end. destruct (last pre) as [c|] eqn:E; [|done]. pose proof (rep_heights _ _ Hr) as Hh.
    rewrite Forall_forall in Hh. specialize (Hh c). simpl in Hh. unfold tall. apply Nat.ltb_lt.
    destruct Hh as [? _]; [rewrite Hns; apply elem_of_app; left; by apply last_Some_elem_of|lia].
  - pose proof (rep_level _ _ Hr). lia.
Qed.

Lemma node_spec sl a c b : rep sl (a ++ c :: b) → get_node sl (c_id c) = Ret (mkNode (c_elem c) (back a)).
Proof. intros Hr. unfold get_node. by rewrite (rep_nodes _ _ Hr a c b eq_refl). Qed.

Definition header_node : node := mkNode (mkElement "" float_zero) None.

Lemma end_node sl pre post : rep sl (pre ++ post) →
  get_node sl (end_id pre) = Ret (match last pre with
                                  | Some c => mkNode (c_elem c) (back (removelast pre))
                                  | None => header_node
                                  end).
Proof.
  intros Hr. destruct pre as [|c pre _] using rev_ind.
  - unfold get_node, end_id. simpl. by rewrite (rep_header _ _ Hr).
  - rewrite end_id_snoc, last_snoc, removelast_last. rewrite <-app_assoc in Hr. by apply node_spec in Hr.
Qed.

Lemma rep_empty : rep makeSkiplist [].
Proof.
  split; cbn [level nodes fresh tail len makeSkiplist]; [|constructor| | |done| | | |done|done].
  - unfold maxLevel. lia.
  - intros [|] [|] i; try done. intros _ _ Hi. destruct i; [|lia]. done.
  - intros i Hi. unfold maxLevel in Hi. do 16 (destruct i as [|i]; [by eexists|]). lia.
  - intros a c b E. by destruct a.
  - apply NoDup_singleton.
  - constructor; [lia|constructor].
Qed.

(** ** The operations on the elements *)

Lemma insert_elems sl ns member score r :
  rep sl ns → falling (λ e, before e score member) (elems ns) →
  ∃ sl' id pre post ns', insert sl member score r = Ret (sl', id) ∧ rep sl' ns' ∧
    elems ns = pre ++ post ∧ elems ns' = pre ++ mkElement member score :: post ∧
    Forall (λ e, before e score member = true) pre ∧ Forall (λ e, before e score member = false) post.
Proof.
  intros Hr Hf. destruct (falling_split _ _ Hf) as (pre & post & -> & H1 & H2).
  destruct (insert_rep sl pre post member score r Hr) as (sl' & E & Hr'); [by apply cut_of|].
  eexists sl', _, (elems pre), (elems post), _. split_and!; [exact E|exact Hr'|by apply fmap_app| |by apply Forall_fmap..].
  unfold elems. by rewrite fmap_app.
Qed.

Lemma remove_elems sl ns member score :
  rep sl ns → falling (λ e, before e score member) (elems ns) →
  ∃ pre post sl' ns', elems ns = pre ++ post ∧
    Forall (λ e, before e score member = true) pre ∧ Forall (λ e, before e score member = false) post ∧
    let hit := match head post with
               | Some e => SFeqb score (Score e) && String.eqb (Member e) member
               | None => false
               end in
    remove sl member score = Ret (sl', hit) ∧ rep sl' ns' ∧
    elems ns' = if hit then pre ++ drop 1 post else pre ++ post.
Proof.
  intros Hr Hf. destruct (falling_split _ _ Hf) as (pre & post & -> & H1 & H2).
  destruct (search_spec sl _ pre post _ Hr eq_refl (cut_of (λ e, before e score member) _ _ H1 H2)) as (us & E & [Hlen Hleft] & Hat).
  assert (Forall (λ e, before e score member = true) (elems pre)) as F1 by (by apply Forall_fmap).
  assert (Forall (λ e, before e score member = false) (elems post)) as F2 by (by apply Forall_fmap).
  exists (elems pre), (elems post). unfold remove. rewrite E. cbn [mbind outcome_bind]. rewrite Hat.
  cbn [mbind outcome_bind fst]. rewrite (next_spec sl _ pre post Hr eq_refl). cbn [mbind outcome_bind forward].
  destruct post as [|c post]; simpl.
  { exists sl, pre. rewrite !app_nil_r in *. by split_and!. }
  rewrite (node_spec sl pre c post Hr). cbn [mbind outcome_bind elem].
  destruct (SFeqb score (Score (c_elem c)) && String.eqb (Member (c_elem c)) member).
  - destruct (removeNode_rep sl pre post us c Hr Hleft) as (sl' & -> & Hr' & _); [lia|].
    exists sl', (pre ++ post). cbn [mbind outcome_bind]. unfold elems. rewrite !fmap_app, drop_0.
    by split_and!.
  - exists sl, (pre ++ c :: post). unfold elems. rewrite !fmap_app. by split_and!.
Qed.

(** ** Ranks *)

Lemma walk_from sl pre post cond i a b :
  rep sl (pre ++ post) → cut cond pre post → (i < level sl)%nat → pre = a ++ b → tall_end i a →
  ∃ a' b', pre = a' ++ b' ∧ tall_end i a' ∧ short i b' ∧
    walk (walk_fuel sl) sl cond i (end_id a) (Z.of_nat (length a)) = Ret (end_id a', Z.of_nat (length a')).
Proof.
  intros Hr Hcut Hi Hab Ha. apply (walk_spec sl _ pre post cond i a b (walk_fuel sl) Hr eq_refl Hcut Hi Hab Ha).
  pose proof (rep_size _ _ Hr) as Hsz. unfold walk_fuel. rewrite Hab, !length_app in Hsz. lia.
Qed.

Lemma tall_end_lower i j a : (j ≤ i)%nat → tall_end i a → tall_end j a.
Proof.
  unfold tall_end. destruct (last a); [|done]. unfold tall. intros Hj Hi. apply Nat.ltb_lt in Hi. apply Nat.ltb_lt. lia.
Qed.

(** At the bottom the whole of [pre] is passed. *)
Lemma bottom_place sl pre post a b : rep sl (pre ++ post) → pre = a ++ b → short 0 b → a = pre.
Proof.
  intros Hr -> Hs. destruct b as [|c b]; [by rewrite app_nil_r|]. apply Forall_cons in Hs as [Hc _].
  pose proof (rep_heights _ _ Hr) as Hh. rewrite <-app_assoc, Forall_app in Hh. destruct Hh as [_ Hh].
  apply Forall_cons in Hh as [Hh _]. unfold tall in Hc. zlia.
Qed.

Lemma getRank_spec sl pre c post member score :
  rep sl (pre ++ c :: post) → cut (λ _ e, not_after e score member) (pre ++ [c]) post →
  Member (c_elem c) = member → member ≠ "" → Forall (λ x, Member (c_elem x) ≠ member) pre →
  getRank sl member score = Ret (Z.of_nat (length pre) + 1).
Proof.
  intros Hr Hcut Hc Hne Hpre.
  assert (rep sl ((pre ++ [c]) ++ post)) as Hr' by (by rewrite <-app_assoc).
  enough (∀ lvl a b, (1 ≤ lvl ≤ level sl)%nat → pre ++ [c] = a ++ b → tall_end (lvl - 1) a →
    getRank_loop sl member score lvl (end_id a) (Z.of_nat (length a)) = Ret (Z.of_nat (length pre) + 1)) as Hloop.
  { apply (Hloop (level sl) [] (pre ++ [c])); [pose proof (rep_level _ _ Hr); lia|done..]. }
  intros lvl. induction lvl as [|i IH]; intros a b Hl Hab Ha; [lia|]. cbn [getRank_loop].
  replace (S i - 1)%nat with i in Ha by lia.
  destruct (walk_from sl (pre ++ [c]) post _ i a b Hr' Hcut ltac:(lia) Hab Ha) as (a' & b' & Hab' & Ha' & Hs & ->).
  cbn [mbind outcome_bind fst snd].
  rewrite (end_node sl a' (b' ++ post)) by (by rewrite app_assoc, <-Hab'). cbn [mbind outcome_bind].
  destruct a' as [|x a' _] using rev_ind.
  - cbn [last header_node elem Member]. destruct (String.eqb_spec "" member) as [<-|_]; [done|]. simpl in Hab'.
    assert (i ≠ 0%nat) as Hi.
    { intros ->. pose proof (bottom_place sl _ post [] b' Hr' Hab' Hs) as Hx. by destruct pre. }
    apply (IH [] b'); [lia|done..].
  - rewrite last_snoc. cbn [elem]. destruct b' as [|y b' _] using rev_ind.
    + rewrite app_nil_r in Hab'. apply app_inj_tail in Hab' as [-> ->]. rewrite Hc, String.eqb_refl.
      f_equal. rewrite length_app. simpl. lia.
    + rewrite !app_assoc in Hab'. apply app_inj_tail in Hab' as [-> ->].
      rewrite Forall_app in Hpre. destruct Hpre as [Hx _]. rewrite Forall_app in Hx. destruct Hx as [_ Hx].
      apply Forall_cons in Hx as [Hx _]. destruct (String.eqb_spec (Member (c_elem x)) member) as [|_]; [done|].
      assert (i ≠ 0%nat) as Hi.
      { intros ->. rewrite <-app_assoc in Hr'. apply Forall_app in Hs as [_ Hs]. apply Forall_cons in Hs as [Hs _].
        pose proof (rep_heights _ _ Hr) as Hh. rewrite Forall_app in Hh. destruct Hh as [_ Hh].
        apply Forall_cons in Hh as [Hh _]. unfold tall in Hs. zlia. }
      apply (IH (a' ++ [x]) (b' ++ [y])); [lia|by rewrite !app_assoc|]. eapply tall_end_lower; [|exact Ha']. lia.
Qed.

Lemma getByRank_spec sl pre c post :
  rep sl (pre ++ c :: post) → getByRank sl (Z.of_nat (length pre) + 1) = Ret (Some (c_id c)).
Proof.
  intros Hr. set (rank := Z.of_nat (length pre) + 1).
  assert (rep sl ((pre ++ [c]) ++ post)) as Hr' by (by rewrite <-app_assoc).
  assert (cut (λ j _, j <=? rank) (pre ++ [c]) post) as Hcut.
  { apply (cut_rank (λ j, j <=? rank)); intros i Hi; rewrite length_app in Hi; simpl in Hi; unfold rank;
      [apply Z.leb_le|apply Z.leb_gt]; lia. }
  enough (∀ lvl a b, (1 ≤ lvl ≤ level sl)%nat → pre ++ [c] = a ++ b → tall_end (lvl - 1) a →
    getByRank_loop sl rank lvl (end_id a) (Z.of_nat (length a)) = Ret (Some (c_id c))) as Hloop.
  { apply (Hloop (level sl) [] (pre ++ [c])); [pose proof (rep_level _ _ Hr); lia|done..]. }
  intros lvl. induction lvl as [|i IH]; intros a b Hl Hab Ha; [lia|]. cbn [getByRank_loop].
  replace (S i - 1)%nat with i in Ha by lia.
  destruct (walk_from sl (pre ++ [c]) post _ i a b Hr' Hcut ltac:(lia) Hab Ha) as (a' & b' & Hab' & Ha' & Hs & ->).
  cbn [mbind outcome_bind fst snd]. destruct (Z.eqb_spec (Z.of_nat (length a')) rank) as [E|E].
  - assert (a' = pre ++ [c]) as ->; [|by rewrite end_id_snoc].
    apply (f_equal length) in Hab' as Hlen. rewrite !length_app in Hlen. simpl in Hlen.
    assert (b' = []) as -> by (destruct b'; [done|simpl in Hlen; unfold rank in E; lia]). by rewrite app_nil_r in Hab'.
  - assert (i ≠ 0%nat) as Hi.
    { intros ->. apply E. rewrite (bottom_place sl _ post a' b' Hr' Hab' Hs), length_app. simpl. unfold rank. lia. }
    apply (IH a' b'); [lia|done|]. eapply tall_end_lower; [|exact Ha']. lia.
Qed.

(** ** Ranges *)

Definition has_range (min max : Border) (l : list Element) : bool :=
  match last l, head l with Some t, Some h => less min t && greater max h | _, _ => false end.

Lemma hasInRange_spec sl ns min max inter :
  rep sl ns → isIntersected min max = Ret inter →
  hasInRange sl min max = Ret (negb inter && has_range min max (elems ns)).
Proof.
  intros Hr Hi. unfold hasInRange. rewrite Hi. cbn [mbind outcome_bind]. destruct inter; [done|]. simpl.
  rewrite (rep_tail _ _ Hr). unfold back, has_range, elems. rewrite fmap_last, head_elems.
  destruct (last ns) as [t|] eqn:Et; simpl; [|done].
  apply last_Some in Et as [a ->]. rewrite (node_spec sl a t []) by done. cbn [mbind outcome_bind elem].
  destruct (less min (c_elem t)); simpl; [|by destruct (head (a ++ [t]))].
  pose proof (next_spec sl (a ++ [t]) [] (a ++ [t]) Hr eq_refl) as Hn. unfold end_id in Hn. simpl in Hn. rewrite Hn.
  cbn [mbind outcome_bind forward]. destruct (a ++ [t]) as [|c l] eqn:El; [by destruct a|]. simpl.
  by rewrite (node_spec sl [] c l).
Qed.

(** The first element that [min] lets through, if [max] lets it through as well. *)
Lemma getFirstInRange_spec sl ns min max inter :
  rep sl ns → isIntersected min max = Ret inter →
  falling (λ e, negb (less min e)) (elems ns) → falling (greater max) (elems ns) →
  ∃ pre post, ns = pre ++ post ∧
    Forall (λ c, less min (c_elem c) = false) pre ∧ Forall (λ c, less min (c_elem c) = true) post ∧
    getFirstInRange sl min max =
      Ret (if inter then None
           else match head post with
                | Some c => if greater max (c_elem c) then Some (c_id c) else None
                | None => None
                end).
Proof.
  intros Hr Hi Hmin Hmax. destruct (falling_split _ _ Hmin) as (pre & post & -> & H1 & H2).
  assert (Forall (λ c, less min (c_elem c) = false) pre) as F1
    by (eapply Forall_impl; [exact H1|]; simpl; intros x; apply negb_true_iff).
  assert (Forall (λ c, less min (c_elem c) = true) post) as F2
    by (eapply Forall_impl; [exact H2|]; simpl; intros x; apply negb_false_iff).
  exists pre, post. split_and!; [done..|]. unfold getFirstInRange. rewrite (hasInRange_spec _ _ _ _ _ Hr Hi).
  cbn [mbind outcome_bind]. destruct inter; [done|]. simpl.
  destruct (has_range min max (elems (pre ++ post))) eqn:Eh; simpl.
  - destruct (search_spec sl _ pre post _ Hr eq_refl (cut_of (λ e, negb (less min e)) _ _ H1 H2)) as (us & -> & _ & Hat).
    cbn [mbind outcome_bind]. rewrite Hat. cbn [mbind outcome_bind fst].
    rewrite (next_spec sl _ pre post Hr eq_refl). cbn [mbind outcome_bind forward].
    destruct post as [|c post]; simpl.
    + exfalso. unfold has_range, elems in Eh. rewrite app_nil_r, fmap_last in Eh. destruct (last pre) as [t|] eqn:Et; [|done].
      simpl in Eh. destruct (head _); [|done]. rewrite Forall_forall in F1. apply last_Some_elem_of in Et.
      by rewrite (F1 t Et) in Eh.
    + rewrite (node_spec sl pre c post Hr). cbn [mbind outcome_bind elem]. by destruct (greater max (c_elem c)).
  - destruct post as [|c post]; [done|]. simpl. destruct (greater max (c_elem c)) eqn:Eg; [|done]. exfalso.
    unfold has_range, elems in Eh. rewrite fmap_last, last_app_cons in Eh.
    destruct (last (c :: post)) as [t|] eqn:Et; [|by apply last_None in Et]. simpl in Eh.
    apply last_Some_elem_of in Et. rewrite Forall_forall in F2. rewrite (F2 t Et) in Eh. simpl in Eh.
    rewrite head_elems in Eh. destruct pre as [|x pre]; simpl in Eh; [by rewrite Eg in Eh|].
    unfold falling, elems in Hmax. rewrite fmap_app in Hmax. simpl in Hmax.
    apply StronglySorted_cons in Hmax as [Hx _]. rewrite Forall_forall in Hx. rewrite (Hx (c_elem c)) in Eh; [done| |done].
    apply elem_of_app. right. left.
Qed.

(** The last element that [max] lets through, if [min] lets it through as well. *)
Lemma getLastInRange_spec sl ns min max inter :
  rep sl ns → isIntersected min max = Ret inter →
  falling (λ e, negb (less min e)) (elems ns) → falling (greater max) (elems ns) →
  ∃ pre post, ns = pre ++ post ∧
    Forall (λ c, greater max (c_elem c) = true) pre ∧ Forall (λ c, greater max (c_elem c) = false) post ∧
    getLastInRange sl min max =
      Ret (if inter then None
           else match last pre with
                | Some c => if less min (c_elem c) then Some (c_id c) else None
                | None => None
                end).
Proof.
  intros Hr Hi Hmin Hmax. destruct (falling_split _ _ Hmax) as (pre & post & -> & H1 & H2).
  exists pre, post. split_and!; [done..|]. unfold getLastInRange. rewrite (hasInRange_spec _ _ _ _ _ Hr Hi).
  cbn [mbind outcome_bind]. destruct inter; [done|]. simpl.
  destruct (has_range min max (elems (pre ++ post))) eqn:Eh; simpl.
  - destruct (search_spec sl _ pre post _ Hr eq_refl (cut_of (greater max) _ _ H1 H2)) as (us & -> & _ & Hat).
    cbn [mbind outcome_bind]. rewrite Hat. cbn [mbind outcome_bind fst].
    rewrite (end_node sl pre post Hr). cbn [mbind outcome_bind].
    destruct (last pre) as [c|] eqn:El.
    + cbn [elem]. unfold end_id. rewrite El. by destruct (less min (c_elem c)).
    + exfalso. apply last_None in El as ->. unfold has_range in Eh. simpl in Eh. destruct (last (elems post)); [|done].
      unfold elems in Eh. rewrite head_elems in Eh. destruct post as [|c post]; simpl in Eh; [done|].
      apply Forall_cons in H2 as [H2 _]. by rewrite H2, andb_false_r in Eh.
  - destruct (last pre) as [c|] eqn:El; [|done]. destruct (less min (c_elem c)) eqn:Em; [|done]. exfalso.
    apply last_Some in El as [a ->]. rewrite <-app_assoc in *. unfold has_range, elems in Eh. rewrite head_elems in Eh.
    assert (∃ t, last (c_elem <$> a ++ [c] ++ post) = Some t ∧ less min t = true) as (t & Et & Ht).
    { rewrite fmap_last. simpl. rewrite last_app_cons. destruct (last (c :: post)) as [t|] eqn:Et; [|by apply last_None in Et].
      exists (c_elem t). split; [done|]. apply last_Some_elem_of, elem_of_cons in Et as [->|Ht]; [done|].
      unfold falling, elems in Hmin. rewrite fmap_app in Hmin. simpl in Hmin.
      apply StronglySorted_app in Hmin as (_ & _ & Hmin). apply StronglySorted_cons in Hmin as [Hx _].
      rewrite Forall_forall in Hx. destruct (less min (c_elem t)) eqn:E; [done|].
      specialize (Hx (c_elem t) (list_elem_of_fmap_2 _ _ _ Ht)). rewrite E, Em in Hx. by specialize (Hx eq_refl). }
    rewrite Et, Ht in Eh. apply Forall_app in H1 as [H1 H1']. destruct a as [|x a]; simpl in Eh.
    + apply Forall_cons in H1' as [H1' _]. by rewrite H1' in Eh.
    + apply Forall_cons in H1 as [H1 _]. by rewrite H1 in Eh.
Qed.

(** ** Removing ranges *)

(** How many elements at the front pass the test. *)
Fixpoint run_length (P : Element → bool) (l : list Element) : nat :=
  match l with [] => 0 | e :: l' => if P e then S (run_length P l') else 0 end.

(** How many of [n] elements a removal with this limit takes. *)
Definition within_limit (limit : Z) (n : nat) : nat := if limit >? 0 then Nat.min (Z.to_nat limit) n else n.

Lemma remove_range_loop_spec fuel sl pre post us max limit removed :
  rep sl (pre ++ post) → (∀ i u, us !! i = Some u → left_at pre i u) → (level sl ≤ length us)%nat →
  (length post < fuel)%nat → (limit > 0 → Z.of_nat (length removed) < limit) →
  ∃ sl' k, remove_range_loop fuel sl max limit us (c_id <$> head post) removed =
      Ret (sl', removed ++ elems (take k post)) ∧ rep sl' (pre ++ drop k post) ∧
    k = within_limit (if limit >? 0 then limit - Z.of_nat (length removed) else limit) (run_length (greater max) (elems post)).
Proof.
  revert sl post removed. induction fuel as [|fuel IH]; intros sl post removed Hr Hus Hl Hf Hlim; [lia|].
  cbn [remove_range_loop]. destruct post as [|c post]; simpl.
  { exists sl, 0%nat. split_and!; [by rewrite app_nil_r|done|]. unfold within_limit. destruct (limit >? 0), (_ >? 0); simpl; lia. }
  rewrite (node_spec sl pre c post Hr). cbn [mbind outcome_bind elem].
  destruct (greater max (c_elem c)) eqn:Eg; simpl.
  2: { exists sl, 0%nat. split_and!; [by rewrite app_nil_r|done|]. unfold within_limit. destruct (limit >? 0), (_ >? 0); simpl; lia. }
  assert (get_level sl (c_id c) 0 = Ret (mkLevel (c_id <$> head post) (Z.of_nat (Nat.min 1 (length post))))) as ->.
  { rewrite <-(end_id_snoc pre c). apply (next_spec sl (pre ++ c :: post)); [done|by rewrite <-app_assoc]. }
  cbn [mbind outcome_bind forward].
  destruct (removeNode_rep sl pre post us c Hr Hus Hl) as (sl' & -> & Hr' & Hl'). cbn [mbind outcome_bind].
  destruct ((limit >? 0) && (Z.of_nat (length (removed ++ [c_elem c])) =? limit)) eqn:El.
  - apply andb_true_iff in El as [E1 E2]. rewrite E1. rewrite length_app in E2. simpl in E2.
    apply Z.eqb_eq in E2. exists sl', 1%nat. split_and!; [done|done|].
    unfold within_limit. replace (limit - Z.of_nat (length removed)) with 1 by lia. simpl. lia.
  - destruct (IH sl' post (removed ++ [c_elem c])) as (sl'' & k & E & Hr'' & Hk); [done..|lia|simpl in Hf; lia| |].
    { intros Hpos. apply andb_false_iff in El. rewrite length_app in *. simpl in *. specialize (Hlim Hpos).
      destruct El as [El|El]; zlia. }
    exists sl'', (S k). rewrite E. split_and!; [by rewrite <-app_assoc|done|].
    rewrite Hk. unfold within_limit. rewrite length_app. simpl.
    destruct (limit >? 0) eqn:Ep; [|by rewrite Ep]. apply Z.gtb_lt in Ep. apply andb_false_iff in El as [El|El]; [done|].
    rewrite length_app in El. simpl in El. apply Z.eqb_neq in El. specialize (Hlim ltac:(lia)).
    assert ((limit - Z.of_nat (length removed + 1) >? 0) = true ∧ (limit - Z.of_nat (length removed) >? 0) = true) as [-> ->]
      by (split; apply Z.gtb_lt; lia). lia.
Qed.

Lemma RemoveRange_elems sl ns min max limit :
  rep sl ns → falling (λ e, negb (less min e)) (elems ns) →
  ∃ pre post sl' ns' k, elems ns = pre ++ post ∧
    Forall (λ e, less min e = false) pre ∧ Forall (λ e, less min e = true) post ∧
    k = within_limit limit (run_length (greater max) post) ∧
    RemoveRange sl min max limit = Ret (sl', take k post) ∧ rep sl' ns' ∧ elems ns' = pre ++ drop k post.
Proof.
  intros Hr Hf. destruct (falling_split _ _ Hf) as (pre & post & -> & H1 & H2).
  destruct (search_spec sl _ pre post _ Hr eq_refl (cut_of (λ e, negb (less min e)) _ _ H1 H2))
    as (us & E & [Hlen Hleft] & Hat).
  destruct (remove_range_loop_spec (walk_fuel sl) sl pre post us max limit [] Hr Hleft) as (sl' & k & El & Hr' & Hk);
    [lia| |simpl; lia|].
  { pose proof (rep_size _ _ Hr) as Hsz. unfold walk_fuel. rewrite length_app in Hsz. lia. }
  exists (elems pre), (elems post), sl', (pre ++ drop k post), k. unfold RemoveRange. rewrite E. cbn [mbind outcome_bind].
  rewrite Hat. cbn [mbind outcome_bind fst]. rewrite (next_spec sl _ pre post Hr eq_refl). cbn [mbind outcome_bind forward].
  rewrite El. unfold elems in *. rewrite !fmap_app, fmap_take, fmap_drop.
  split_and!; try done.
  - apply Forall_fmap. eapply Forall_impl; [exact H1|]. simpl. intros x. apply negb_true_iff.
  - apply Forall_fmap. eapply Forall_impl; [exact H2|]. simpl. intros x. apply negb_false_iff.
  - rewrite Hk. f_equal. simpl. destruct (limit >? 0); lia.
Qed.

Lemma remove_rank_loop_spec fuel sl pre post us stop i removed :
  rep sl (pre ++ post) → (∀ i u, us !! i = Some u → left_at pre i u) → (level sl ≤ length us)%nat →
  (length post < fuel)%nat →
  ∃ sl', remove_rank_loop fuel sl stop i us (c_id <$> head post) removed =
      Ret (sl', removed ++ elems (take (Z.to_nat (stop - i)) post)) ∧ rep sl' (pre ++ drop (Z.to_nat (stop - i)) post).
Proof.
  revert sl post i removed. induction fuel as [|fuel IH]; intros sl post i removed Hr Hus Hl Hf; [lia|].
  cbn [remove_rank_loop]. destruct post as [|c post]; simpl.
  { exists sl. rewrite take_nil, drop_nil. split; [by rewrite app_nil_r|done]. }
  destruct (i <? stop) eqn:Ei; simpl.
  2: { exists sl. zlia. replace (Z.to_nat (stop - i)) with 0%nat by lia. split; [by rewrite app_nil_r|done]. }
  rewrite (node_spec sl pre c post Hr). cbn [mbind outcome_bind elem].
  assert (get_level sl (c_id c) 0 = Ret (mkLevel (c_id <$> head post) (Z.of_nat (Nat.min 1 (length post))))) as ->.
  { rewrite <-(end_id_snoc pre c). apply (next_spec sl (pre ++ c :: post)); [done|by rewrite <-app_assoc]. }
  cbn [mbind outcome_bind forward].
  destruct (removeNode_rep sl pre post us c Hr Hus Hl) as (sl' & -> & Hr' & Hl'). cbn [mbind outcome_bind].
  destruct (IH sl' post (i + 1) (removed ++ [c_elem c])) as (sl'' & E & Hr''); [done..|lia|simpl in Hf; lia|].
  exists sl''. zlia. replace (Z.to_nat (stop - i)) with (S (Z.to_nat (stop - (i + 1)))) by lia. rewrite E. simpl.
  by rewrite <-app_assoc.
Qed.

(** The elements of rank [start] (at least 1) up to but not including [stop]. *)
Lemma RemoveRangeByRank_elems sl ns start stop :
  rep sl ns → 1 ≤ start →
  let a := take (Z.to_nat (start - 1)) (elems ns) in
  let b := drop (Z.to_nat (start - 1)) (elems ns) in
  let k := Z.to_nat (stop - (Z.of_nat (length a) + 1)) in
  ∃ sl' ns', RemoveRangeByRank sl start stop = Ret (sl', take k b) ∧ rep sl' ns' ∧ elems ns' = a ++ drop k b.
Proof.
  intros Hr Hs a b k. set (n := Z.to_nat (start - 1)) in *.
  rewrite <-(take_drop n ns) in Hr. set (pre := take n ns) in *. set (post := drop n ns) in *.
  assert (a = elems pre ∧ b = elems post) as [Ha Hb] by (unfold a, b, pre, post, elems; by rewrite fmap_take, fmap_drop).
  assert (length a = length pre) as Hlen by (rewrite Ha; unfold elems; by rewrite length_fmap).
  assert (cut (λ j _, j <? start) pre post) as Hcut.
  { apply (cut_rank (λ j, j <? start)); intros i Hi; unfold pre, post in *.
    - rewrite length_take in Hi. apply Z.ltb_lt. lia.
    - rewrite take_drop, length_take in Hi. apply Z.ltb_ge. lia. }
  destruct (search_spec sl _ pre post _ Hr eq_refl Hcut) as (us & E & [Hus Hleft] & Hat).
  destruct (remove_rank_loop_spec (walk_fuel sl) sl pre post us stop (Z.of_nat (length pre) + 1) [] Hr Hleft)
    as (sl' & El & Hr'); [lia| |].
  { pose proof (rep_size _ _ Hr) as Hsz. unfold walk_fuel. rewrite length_app in Hsz. lia. }
  unfold k. rewrite Hlen. set (j := Z.to_nat (stop - (Z.of_nat (length pre) + 1))) in *. exists sl', (pre ++ drop j post). split_and!; [|done|].
  - unfold RemoveRangeByRank. rewrite E. cbn [mbind outcome_bind]. rewrite Hat. cbn [mbind outcome_bind fst snd].
    rewrite (next_spec sl _ pre post Hr eq_refl). cbn [mbind outcome_bind forward]. rewrite El. simpl.
    rewrite Hb. unfold elems. by rewrite fmap_take.
  - rewrite Ha, Hb. unfold elems. by rewrite fmap_app, fmap_drop.
Qed.
