(* ===== verification/SkipShape.v ===== *)
(** * What every skip list keeps, ordered or not

    Scores may be NaN, and string borders may be used on members of different
    scores; then the searches of the levels disagree and the list is no longer the
    one of [rep].  What remains is that no pointer is dangling and that the pointers
    of each level have no cycle: [shape], with one order of the nodes per level.
    It is kept by everything that changes a list, those operations never panic, and
    no operation runs forever. *)

From Stdlib Require Import ZArith Lia Ascii String.
From Stdlib Require Import Floats.SpecFloat.
From stdpp Require Import base gmap strings numbers list sorting.
From S2P Require Import Prelude GoStd Border SkipList SkipRep.

Local Open Scope string_scope.
Local Open Scope list_scope.
Local Open Scope Z_scope.
Local Open Scope go_scope.

Import Skip.

(** ** The levels *)

Abbreviation orders := (nat → nat → nat → Prop).

Abbreviation has ls x i := (is_Some (ls !! (x : nat, i : nat))).

(** [R i x y]: on the level [i] the node [x] comes before [y]. *)
Record lshape (ls : heap) (R : orders) : Prop := {
  ls_header : ∀ i, (i < maxLevel)%nat → has ls 0%nat i;
  ls_column : ∀ x i j, has ls x i → (j ≤ i)%nat → has ls x j;
  ls_edge : ∀ x i l y, ls !! (x, i) = Some l → forward l = Some y → has ls y i ∧ R i x y;
  ls_irrefl : ∀ i x, ¬ R i x x;
  ls_trans : ∀ i x y z, R i x y → R i y z → R i x z
}.

(** The same levels are there. *)
Definition same_dom (ls ls' : heap) : Prop := ∀ k, is_Some (ls !! k) ↔ is_Some (ls' !! k).

Lemma same_dom_insert (ls : heap) k l : is_Some (ls !! k) → same_dom ls (<[k := l]> ls).
Proof.
  intros Hk k'. destruct (decide (k' = k)) as [->|Hne]; [by rewrite lookup_insert_eq|by rewrite lookup_insert_ne].
Qed.

Lemma same_dom_trans (a b c : heap) : same_dom a b → same_dom b c → same_dom a c.
Proof. intros H1 H2 k. by rewrite (H1 k). Qed.

Lemma heap_level_has ls x i : has ls x i → ∃ l, heap_level ls x i = Ret l ∧ ls !! (x, i) = Some l.
Proof. intros [l Hl]. exists l. unfold heap_level. by rewrite Hl. Qed.

(** A new pointer that goes with the order. *)
Lemma lshape_set ls R x i l : lshape ls R → has ls x i →
  (∀ y, forward l = Some y → has ls y i ∧ R i x y) → lshape (<[(x, i) := l]> ls) R.
Proof.
  intros [Hh Hc He Hi Ht] Hx Hl. pose proof (same_dom_insert ls (x, i) l Hx) as Hd. split; try done.
  - intros j Hj. by apply Hd, Hh.
  - intros y j k Hy Hk. apply Hd. by eapply Hc; [apply Hd|].
  - intros y j l' z. destruct (decide ((y, j) = (x, i))) as [[= -> ->]|Hne].
    + rewrite lookup_insert_eq. intros [= <-] Hz. destruct (Hl z Hz) as [H1 H2]. split; [by apply Hd|done].
    + rewrite lookup_insert_ne by done. intros Hy Hz. destruct (He y j l' z Hy Hz) as [H1 H2]. split; [by apply Hd|done].
Qed.

(** Changes of spans. *)
Lemma lshape_span ls R x i l s : lshape ls R → ls !! (x, i) = Some l → lshape (<[(x, i) := mkLevel (forward l) s]> ls) R.
Proof.
  intros Hs Hl. apply lshape_set; [done|by eexists|]. simpl. intros y Hy. by apply (ls_edge _ _ Hs x i l y).
Qed.

(** A node [n] put behind [u] in one order. *)
Definition put_after (R : nat → nat → Prop) (u n : nat) (a b : nat) : Prop :=
  R a b ∨ (b = n ∧ (a = u ∨ R a u)) ∨ (a = n ∧ R u b).

Definition order_at (R : orders) (i u n : nat) : orders := λ j, if (j =? i)%nat then put_after (R i) u n else R j.

Lemma lshape_order (ls : heap) (R : orders) (i u n : nat) : lshape ls R → (∀ x, ¬ R i x n ∧ ¬ R i n x) → u ≠ n → lshape ls (order_at R i u n).
Proof.
  intros [Hh Hc He Hi Ht] Hn Hu. split; try done; unfold order_at, put_after.
  - intros x j l y Hl Hy. destruct (He x j l y Hl Hy) as [H1 H2]. split; [done|].
    destruct (Nat.eqb_spec j i) as [->|]; [by left|done].
  - intros j x. destruct (Nat.eqb_spec j i) as [->|]; [|apply Hi].
    intros [H|[[-> [->|H]]|[-> H]]]; [by apply (Hi i x)|done|by destruct (Hn u)|by destruct (Hn u)].
  - intros j x y z. destruct (Nat.eqb_spec j i) as [->|]; [|apply Ht]. pose proof (Ht i) as Hti.
    intros [H1|[[E1 H1]|[E1 H1]]] [H2|[[E2 H2]|[E2 H2]]]; subst; try (by destruct (Hn x)); try (by destruct (Hn z)).
    + left. eauto.
    + right. left. split; [done|]. right. destruct H2 as [->|H2]; eauto.
    + right. left. split; [done|]. destruct H2 as [H2|H2]; [done|by destruct (Hn u)].
    + left. destruct H1 as [->|H1]; eauto.
    + right. right. split; [done|]. eauto.
    + destruct (Hi i u). destruct H2 as [->|H2]; eauto.
    + by destruct (Hn u).
Qed.

(** ** The loops of an insertion *)

(** What the searches leave behind: a node of its level for each level. *)
Definition places (ls : heap) (us : list (nat * Z)) : Prop := ∀ i u, us !! i = Some u → has ls u.1 i.

Lemma places_dom ls ls' us : same_dom ls ls' → places ls us → places ls' us.
Proof. intros Hd Hp i u Hu. by apply Hd, Hp. Qed.

(** A loop over the levels that keeps the shape step by step. *)
Lemma level_loop_shape (step : nat → nat * Z → heap → outcome heap) (I : nat → heap → Prop) (i : nat) us ls :
  I i ls →
  (∀ k u ls, us !! k = Some u → I (i + k)%nat ls → ∃ ls', step (i + k)%nat u ls = Ret ls' ∧ I (S (i + k)) ls') →
  ∃ ls', level_loop step i us ls = Ret ls' ∧ I (i + length us)%nat ls'.
Proof.
  revert i ls. induction us as [|u us IH]; intros i ls HI Hstep; simpl.
  { exists ls. by rewrite Nat.add_0_r. }
  destruct (Hstep 0%nat u ls eq_refl) as (ls1 & E & HI1); [by rewrite Nat.add_0_r|].
  rewrite Nat.add_0_r in E, HI1. rewrite E. cbn [mbind outcome_bind].
  destruct (IH (S i) ls1 HI1) as (ls2 & E2 & HI2).
  { intros k u' ls' Hk HI'. replace (S i + k)%nat with (i + S k)%nat in * by lia. by apply Hstep. }
  exists ls2. split; [done|]. by replace (i + S (length us))%nat with (S i + length us)%nat by lia.
Qed.

Lemma extend_shape (n i : nat) (len : Z) (ls : heap) (R : orders) : lshape ls R → (i + n ≤ maxLevel)%nat →
  ∃ ls', extend n i len ls = Ret ls' ∧ lshape ls' R ∧ same_dom ls ls'.
Proof.
  revert i ls. induction n as [|n IH]; intros i ls Hs Hi; simpl; [by exists ls|].
  destruct (heap_level_has ls 0 i) as (l & E & Hl); [apply (ls_header _ _ Hs); lia|]. rewrite E. cbn [mbind outcome_bind].
  destruct (IH (S i) (<[(0%nat, i) := mkLevel (forward l) len]> ls)) as (ls' & E' & Hs' & Hd'); [by apply lshape_span|lia|].
  exists ls'. split_and!; [done..|]. eapply same_dom_trans; [|exact Hd']. apply same_dom_insert. by eexists.
Qed.

Lemma new_levels_eq (id n : nat) (ls : heap) (i : nat) : (i < n)%nat → new_levels id n ls !! (id, i) = Some (mkLevel None 0).
Proof.
  intros Hi. unfold new_levels. assert (i ∈ seq 0 n) as Hin by (apply elem_of_seq; lia).
  induction (seq 0 n) as [|k l IH]; [by apply not_elem_of_nil in Hin|]. simpl.
  destruct (decide (k = i)) as [->|Hne]; [by rewrite lookup_insert_eq|]. rewrite lookup_insert_ne by congruence.
  apply IH. by apply elem_of_cons in Hin as [->|Hin].
Qed.

Lemma new_levels_none (id n : nat) (ls : heap) (i : nat) : ls !! (id, i) = None → (n ≤ i)%nat → new_levels id n ls !! (id, i) = None.
Proof.
  intros Hn Hi. unfold new_levels. assert (i ∉ seq 0 n) as Hin by (rewrite elem_of_seq; lia).
  induction (seq 0 n) as [|k l IH]; [done|]. simpl. apply not_elem_of_cons in Hin as [Hne Hin].
  rewrite lookup_insert_ne by congruence. by apply IH.
Qed.

Lemma new_levels_shape (id n : nat) (ls : heap) (R : orders) : lshape ls R → (∀ i, ls !! (id, i) = None) → lshape (new_levels id n ls) R.
Proof.
  intros [Hh Hc He Hi Ht] Hn.
  assert (id ≠ 0%nat) as H0 by (intros ->; destruct (Hh 0%nat) as [l Hl]; [unfold maxLevel; lia|by rewrite Hn in Hl]).
  assert (∀ y i, has ls y i → y ≠ id) as Hne by (intros y i [l Hl] ->; by rewrite Hn in Hl).
  split; try done.
  - intros i Hlt. rewrite new_levels_ne by done. by apply Hh.
  - intros x i j. destruct (decide (x = id)) as [->|Hx].
    + intros Hx Hj. destruct (decide (i < n)%nat); [rewrite new_levels_eq by lia; by eexists|].
      rewrite new_levels_none in Hx by (done || lia). by destruct Hx.
    + rewrite !new_levels_ne by done. apply Hc.
  - intros x i l y. destruct (decide (x = id)) as [->|Hx].
    + destruct (decide (i < n)%nat); [rewrite new_levels_eq by lia; by intros [= <-]|].
      by rewrite new_levels_none by (done || lia).
    + rewrite new_levels_ne by done. intros Hl Hy. destruct (He x i l y Hl Hy) as [H1 H2].
      rewrite new_levels_ne by (by eapply Hne). done.
Qed.

Lemma link_step_shape (id : nat) (rank0 : Z) (i : nat) (u : nat * Z) (ls : heap) (R : orders) : lshape ls R → has ls u.1 i → has ls id i → u.1 ≠ id →
  (∀ x, ¬ R i x id ∧ ¬ R i id x) →
  ∃ l ls', link_step id rank0 i u ls = Ret ls' ∧ lshape ls' (order_at R i u.1 id) ∧ same_dom ls ls' ∧
    ls !! (u.1, i) = Some l ∧ forward <$> ls' !! (id, i) = Some (forward l).
Proof.
  intros Hs Hu Hid Hne Hn. destruct (heap_level_has _ _ _ Hu) as (l & E & Hl). exists l. unfold link_step. rewrite E.
  cbn [mbind outcome_bind]. eexists. split; [done|].
  pose proof (lshape_order ls R i u.1 id Hs Hn Hne) as Hs'.
  assert (order_at R i u.1 id i = put_after (R i) u.1 id) as Ho by (unfold order_at; by rewrite Nat.eqb_refl).
  set (ls1 := <[(id, i) := mkLevel (forward l) (span l - (rank0 - u.2))]> ls).
  assert (same_dom ls ls1) as Hd1 by (by apply same_dom_insert).
  assert (lshape ls1 (order_at R i u.1 id)) as Hs1.
  { apply lshape_set; [done..|]. simpl. intros y Hy. destruct (ls_edge _ _ Hs _ _ _ _ Hl Hy) as [H1 H2].
    split; [done|]. rewrite Ho. right. right. done. }
  split_and!.
  - apply lshape_set; [done|by apply Hd1|]. simpl. intros y [= <-]. split; [by apply Hd1|]. rewrite Ho. right. left. auto.
  - eapply same_dom_trans; [exact Hd1|]. apply same_dom_insert. by apply Hd1.
  - done.
  - rewrite lookup_insert_ne by congruence. unfold ls1. by rewrite lookup_insert_eq.
Qed.

Lemma bump_step_shape (i : nat) (u : nat * Z) (ls : heap) (R : orders) : lshape ls R → has ls u.1 i →
  ∃ ls', bump_step i u ls = Ret ls' ∧ lshape ls' R ∧ same_dom ls ls' ∧
    ∀ x j, forward <$> ls' !! (x, j) = forward <$> ls !! (x, j).
Proof.
  intros Hs Hu. destruct (heap_level_has _ _ _ Hu) as (l & E & Hl). unfold bump_step. rewrite E. cbn [mbind outcome_bind].
  eexists. split_and!; [done|by apply lshape_span|by apply same_dom_insert|]. intros x j.
  destruct (decide ((x, j) = (u.1, i))) as [[= -> ->]|Hne]; [by rewrite lookup_insert_eq, Hl|by rewrite lookup_insert_ne].
Qed.

(** ** Whole lists *)

Record shape (sl : skiplist) (R : orders) : Prop := {
  sh_levels : lshape (levels sl) R;
  sh_level : (1 ≤ level sl ≤ maxLevel)%nat;
  sh_nodes : ∀ x i, has (levels sl) x i → is_Some (nodes sl !! x);
  sh_back : ∀ y n x, nodes sl !! y = Some n → backward n = Some x → has (levels sl) x 0%nat ∧ R 0%nat x y;
  sh_fresh : ∀ x, is_Some (nodes sl !! x) → (x < fresh sl)%nat;
  sh_orders : ∀ i x y, R i x y → (x < fresh sl)%nat ∧ (y < fresh sl)%nat;
  sh_tail : ∀ t, tail sl = Some t → has (levels sl) t 0%nat
}.

Definition shaped (sl : skiplist) : Prop := ∃ R, shape sl R.

Lemma shaped_empty : shaped makeSkiplist.
Proof.
  exists (λ _ _ _, False). split; [|unfold maxLevel; simpl; lia| | | |done|done].
  - assert (∀ x i, has (levels makeSkiplist) x i → x = 0%nat) as H0.
    { intros x i [l Hl]. cbn [levels makeSkiplist] in Hl. destruct (decide (x = 0%nat)) as [->|Hx]; [done|]. by rewrite new_levels_ne in Hl. }
    assert (∀ i, (i < maxLevel)%nat → levels makeSkiplist !! (0%nat, i) = Some (mkLevel None 0)) as H1
      by (intros i Hi; by apply new_levels_eq).
    assert (∀ i, has (levels makeSkiplist) 0%nat i → (i < maxLevel)%nat) as H2.
    { intros i [l Hl]. destruct (decide (i < maxLevel)%nat); [done|]. cbn [levels makeSkiplist] in Hl. by rewrite new_levels_none in Hl by (done || lia). }
    split; try done.
    + intros i Hi. rewrite H1 by done. by eexists.
    + intros x i j Hx Hj. pose proof (H0 x i Hx) as ->. apply H2 in Hx. rewrite H1 by lia. by eexists.
    + intros x i l y Hl Hy. assert (has (levels makeSkiplist) x i) as Hx by (by eexists). pose proof (H0 _ _ Hx) as ->.
      rewrite H1 in Hl by (by apply H2). by injection Hl as <-.
    + intros _ _ [].
  - intros x i [l Hl]. cbn [levels makeSkiplist] in Hl. destruct (decide (x = 0%nat)) as [->|Hx]; [by eexists|]. by rewrite new_levels_ne in Hl.
  - intros y n x. cbn [nodes makeSkiplist]. rewrite lookup_singleton_Some. by intros [_ <-].
  - intros x [n Hn]. cbn [nodes makeSkiplist] in Hn. apply lookup_singleton_Some in Hn as [<- _]. simpl. lia.
Qed.

Section reads.
Context (sl : skiplist) (R : orders) (Hsh : shape sl R).

Lemma shape_get_level x i : has (levels sl) x i → ∃ l, get_level sl x i = Ret l ∧ levels sl !! (x, i) = Some l.
Proof. intros [l Hl]. exists l. unfold get_level. by rewrite Hl. Qed.

Lemma shape_get_node x i : has (levels sl) x i → ∃ n, get_node sl x = Ret n ∧ nodes sl !! x = Some n.
Proof. intros Hx. destruct (sh_nodes _ _ Hsh _ _ Hx) as [n Hn]. exists n. unfold get_node. by rewrite Hn. Qed.

(** A chain of nodes, each before the next in an order without cycles, is no longer
    than the heap: [V] holds those visited. *)
Definition visits (O : nat → nat → Prop) (V : gset nat) (x : nat) : Prop :=
  V ⊆ dom (nodes sl) ∧ x ∈ V ∧ ∀ v, v ∈ V → v = x ∨ O v x.

Lemma visits_start (O : nat → nat → Prop) x : is_Some (nodes sl !! x) → visits O {[x]} x.
Proof. intros Hx. unfold visits. split_and!; [|set_solver..]. intros y ->%elem_of_singleton. by apply elem_of_dom. Qed.

Lemma visits_step (O : nat → nat → Prop) V x y :
  (∀ a, ¬ O a a) → (∀ a b c, O a b → O b c → O a c) → visits O V x → O x y → is_Some (nodes sl !! y) →
  visits O ({[y]} ∪ V) y ∧ size ({[y]} ∪ V) = S (size V).
Proof.
  intros Hi Ht (Hd & Hx & HV) Hy Hn. assert (y ∉ V) as Hnin.
  { intros HyV. destruct (HV y HyV) as [->|H]; [by apply (Hi x)|]. apply (Hi x). eauto. }
  split; [|rewrite size_union, size_singleton by set_solver; lia]. unfold visits. split_and!.
  - apply union_subseteq. split; [|done]. intros z ->%elem_of_singleton. by apply elem_of_dom.
  - set_solver.
  - intros v [->%elem_of_singleton|Hv]%elem_of_union; [by left|]. right. destruct (HV v Hv) as [->|H]; eauto.
Qed.

Lemma visits_size (O : nat → nat → Prop) V x : visits O V x → (size V ≤ size (nodes sl))%nat.
Proof. intros (Hd & _). rewrite <-size_dom. by apply subseteq_size. Qed.

Lemma walk_shape cond i x rank : has (levels sl) x i →
  ∃ r, walk (walk_fuel sl) sl cond i x rank = Ret r ∧ has (levels sl) r.1 i.
Proof.
  intros Hx. pose proof (sh_levels _ _ Hsh) as Hl.
  enough (∀ fuel V x rank, has (levels sl) x i → visits (R i) V x → (size (nodes sl) < size V + fuel)%nat →
    ∃ r, walk fuel sl cond i x rank = Ret r ∧ has (levels sl) r.1 i) as H.
  { apply (H _ {[x]}); [done|apply visits_start; by eapply sh_nodes|]. rewrite size_singleton. unfold walk_fuel. lia. }
  clear x rank Hx. induction fuel as [|fuel IH]; intros V x rank Hx HV Hf; [pose proof (visits_size _ _ _ HV); lia|].
  cbn [walk]. destruct (shape_get_level x i Hx) as (l & -> & El). cbn [mbind outcome_bind].
  destruct (forward l) as [y|] eqn:Ey; [|by exists (x, rank)].
  destruct (ls_edge _ _ Hl _ _ _ _ El Ey) as [Hy HR]. destruct (shape_get_node y i Hy) as (n & -> & _). cbn [mbind outcome_bind].
  destruct (cond _ _); [|by exists (x, rank)].
  destruct (visits_step (R i) V x y) as [HV' Hsz]; [apply Hl|apply Hl|done|done|by eapply sh_nodes|].
  apply (IH _ y _ Hy HV'). rewrite Hsz. lia.
Qed.

Lemma descend_shape cond lvl x rank acc : (∀ i, (i < lvl)%nat → has (levels sl) x i) →
  ∃ us, descend sl cond lvl x rank acc = Ret (us ++ acc) ∧ length us = lvl ∧ places (levels sl) us.
Proof.
  revert x rank acc. induction lvl as [|i IH]; intros x rank acc Hx; [by exists []|]. cbn [descend].
  destruct (walk_shape cond i x rank) as (r & -> & Hr); [apply Hx; lia|]. cbn [mbind outcome_bind].
  destruct (IH r.1 r.2 (r :: acc)) as (us & -> & Hlen & Hus).
  { intros j Hj. apply (ls_column _ _ (sh_levels _ _ Hsh) _ i); [done|lia]. }
  exists (us ++ [r]). split_and!; [by rewrite <-app_assoc|rewrite length_app; simpl; lia|].
  intros j u Hj. apply lookup_app_Some in Hj as [Hj|[Hj1 Hj2]]; [by apply Hus|].
  apply list_lookup_singleton_Some in Hj2 as [Hj2 <-]. by replace j with i by lia.
Qed.

(** The searches from the header. *)
Lemma search_shape cond :
  ∃ us first, descend sl cond (level sl) 0 0 [] = Ret us ∧ length us = level sl ∧ places (levels sl) us ∧
    at_level us 0 = Ret first ∧ us !! 0%nat = Some first ∧ has (levels sl) first.1 0%nat.
Proof.
  pose proof (sh_level _ _ Hsh) as Hlv.
  destruct (descend_shape cond (level sl) 0 0 []) as (us & E & Hlen & Hus).
  { intros i Hi. apply (ls_header _ _ (sh_levels _ _ Hsh)). lia. }
  rewrite app_nil_r in E. destruct (lookup_lt_is_Some_2 us 0) as [first Hf]; [lia|].
  exists us, first. split_and!; try done; [unfold at_level; by rewrite Hf|by apply Hus].
Qed.
End reads.

(** ** Insertion *)

Lemma shape_fresh sl R : shape sl R → ∀ i, levels sl !! (fresh sl, i) = None.
Proof.
  intros Hs i. destruct (levels sl !! (fresh sl, i)) eqn:E; [|done]. exfalso.
  assert (has (levels sl) (fresh sl) i) as H by (by eexists). apply (sh_nodes _ _ Hs), (sh_fresh _ _ Hs) in H. lia.
Qed.

(** The levels of a new node, linked one by one. *)
Lemma link_loop_shape id rank0 us ls R (fr : nat) :
  lshape ls R → places ls us → (∀ i, (i < length us)%nat → has ls id i) → (∀ i u, us !! i = Some u → u.1 ≠ id) →
  (∀ i x, ¬ R i x id ∧ ¬ R i id x) → (∀ i x y, R i x y → x < fr ∧ y < fr)%nat → (id < fr)%nat →
  (∀ i u, us !! i = Some u → (u.1 < fr)%nat) → (0 < length us)%nat →
  ∃ ls' R', level_loop (link_step id rank0) 0 us ls = Ret ls' ∧ lshape ls' R' ∧ same_dom ls ls' ∧
    (∀ i x y, R i x y → R' i x y) ∧ (∀ i x y, R' i x y → x < fr ∧ y < fr)%nat ∧
    (∀ u, us !! 0%nat = Some u → R' 0%nat u.1 id) ∧
    (∀ y, forward <$> ls' !! (id, 0%nat) = Some (Some y) → R' 0%nat id y).
Proof.
  intros Hs Hp Hid Hne Hn Hfr Hidf Huf Hpos.
  destruct (level_loop_shape (link_step id rank0) (λ i ls', ∃ R', lshape ls' R' ∧ same_dom ls ls' ∧
    (∀ j, (i ≤ j)%nat → ∀ x, ¬ R' j x id ∧ ¬ R' j id x) ∧ (∀ j x y, R j x y → R' j x y) ∧
    (∀ j x y, R' j x y → x < fr ∧ y < fr)%nat ∧
    ((0 < i)%nat → ∀ u, us !! 0%nat = Some u → R' 0%nat u.1 id)) 0 us ls) as (ls' & E & R' & H1 & H2 & H3 & H4 & H5 & H6).
  - exists R. split_and!; try done. lia.
  - simpl. intros i u ls1 Hu (R1 & H1 & H2 & H3 & H4 & H5 & H6).
    destruct (link_step_shape id rank0 i u ls1 R1) as (l & ls2 & E & Hs2 & Hd2 & Hl & _);
      [done|by apply H2, Hp|apply H2, Hid; by eapply lookup_lt_Some|by eapply Hne|apply H3; lia|].
    exists ls2. split; [done|]. exists (order_at R1 i u.1 id). unfold order_at, put_after. split_and!.
    + done.
    + by eapply same_dom_trans.
    + intros j Hj x. destruct (Nat.eqb_spec j i); [lia|]. apply H3. lia.
    + intros j x y Hxy. destruct (Nat.eqb_spec j i) as [->|]; [left|]; by apply H4.
    + intros j x y. destruct (Nat.eqb_spec j i) as [->|]; [|apply H5]. pose proof (Huf i u Hu) as Hlt.
      intros [Hxy|[[-> [->|Hxy]]|[-> Hxy]]]; [by apply H5 in Hxy|done|by apply H5 in Hxy as [? _]|by apply H5 in Hxy as [_ ?]].
    + intros _ u0 Hu0. destruct (Nat.eqb_spec 0 i) as [<-|Hi].
      * rewrite Hu in Hu0. injection Hu0 as ->. right. left. auto.
      * apply H6; [lia|done].
  - exists ls', R'. split_and!; try done; [by apply H6|]. intros y Hy.
    destruct (ls' !! (id, 0%nat)) as [l|] eqn:El; [|done]. injection Hy as Hy. by apply (ls_edge _ _ H1 _ _ _ _ El Hy).
Qed.

Lemma bump_loop_shape i us ls R : lshape ls R → (∀ k u, us !! k = Some u → has ls u.1 (i + k)%nat) →
  ∃ ls', level_loop bump_step i us ls = Ret ls' ∧ lshape ls' R ∧ same_dom ls ls' ∧
    ∀ x j, forward <$> ls' !! (x, j) = forward <$> ls !! (x, j).
Proof.
  intros Hs Hp.
  destruct (level_loop_shape bump_step (λ _ ls', lshape ls' R ∧ same_dom ls ls' ∧
    ∀ x j, forward <$> ls' !! (x, j) = forward <$> ls !! (x, j)) i us ls) as (ls' & E & H); [done| |by exists ls'].
  intros k u ls1 Hu (H1 & H2 & H3). destruct (bump_step_shape (i + k) u ls1 R H1) as (ls2 & E & H4 & H5 & H6).
  { by apply H2, Hp. }
  exists ls2. split_and!; [done|done|by eapply same_dom_trans|]. intros x j. by rewrite H6.
Qed.

Lemma set_backward_has ns y b : is_Some (ns !! y) →
  ∃ n, ns !! y = Some n ∧ set_backward ns y b = Ret (<[y := mkNode (elem n) b]> ns).
Proof. intros [n Hn]. exists n. unfold set_backward. by rewrite Hn. Qed.

(** The nodes after an insertion, or a removal: one node [y] gets a new backward
    pointer to a node before it. *)
Lemma back_insert (ns : gmap nat node) (P : nat → nat → Prop) y n b :
  (∀ z m x, ns !! z = Some m → backward m = Some x → P x z) → (∀ x, b = Some x → P x y) →
  ∀ z m x, <[y := mkNode (elem n) b]> ns !! z = Some m → backward m = Some x → P x z.
Proof.
  intros Hold Hb z m x. rewrite lookup_insert_Some. intros [[<- <-]|[Hne Hz]]; [apply Hb|by apply Hold].
Qed.

(** The heaps of an insertion are put together. *)
Lemma insert_finish (sl : skiplist) (R R' : orders) (id : nat) (ls : heap) (first : nat * Z) (member : string) (score : float64) (lvl t : nat) :
  shape sl R → id = fresh sl → lshape ls R' → same_dom (new_levels id lvl (levels sl)) ls → (0 < lvl)%nat →
  (∀ i x y, R i x y → R' i x y) → (∀ i x y, R' i x y → x < S id ∧ y < S id)%nat →
  has (levels sl) first.1 0%nat → R' 0%nat first.1 id → (1 ≤ t ≤ maxLevel)%nat →
  let back := if (first.1 =? 0)%nat then None else Some first.1 in
  let ns := <[id := mkNode (mkElement member score) back]> (nodes sl) in
  ∃ sl', (l ← heap_level ls id 0;
    match forward l with
    | Some y =>
        ns ← set_backward ns y (Some id);
        Ret (mkSkiplist ns ls (S id) (tail sl) (len sl + 1) t, id)
    | None => Ret (mkSkiplist ns ls (S id) (Some id) (len sl + 1) t, id)
    end) = Ret (sl', id) ∧ shape sl' R'.
Proof.
  intros Hs Hid Hl Hd Hlvl HR Hfr Hu Hu' Ht back ns.
  assert (∀ x i, has ls x i ↔ has (new_levels id lvl (levels sl)) x i) as Hdom by (intros; symmetry; apply Hd).
  assert (∀ x i, has (levels sl) x i → has ls x i) as Hkeep.
  { intros x i Hx. apply Hdom. rewrite new_levels_ne; [done|]. intros ->. destruct Hx as [l Hx].
    by rewrite Hid, (shape_fresh _ _ Hs) in Hx. }
  assert (has ls id 0%nat) as Hid0 by (apply Hdom; rewrite new_levels_eq by done; by eexists).
  assert (∀ x i, has ls x i → is_Some (ns !! x)) as Hns.
  { intros x i Hx. unfold ns. destruct (decide (x = id)) as [->|Hne]; [by rewrite lookup_insert_eq|].
    rewrite lookup_insert_ne by done. apply Hdom in Hx. rewrite new_levels_ne in Hx by done. by apply (sh_nodes _ _ Hs) in Hx. }
  assert (∀ z m x, ns !! z = Some m → backward m = Some x → has ls x 0%nat ∧ R' 0%nat x z) as Hback.
  { intros z m x. unfold ns. rewrite lookup_insert_Some. intros [[<- <-]|[Hne Hz]] Hx.
    - unfold back in Hx. simpl in Hx. destruct (first.1 =? 0)%nat; [done|]. injection Hx as <-. split; [by apply Hkeep|done].
    - destruct (sh_back _ _ Hs _ _ _ Hz Hx) as [H1 H2]. split; [by apply Hkeep|by apply HR]. }
  assert (∀ x, is_Some (ns !! x) → (x < S id)%nat) as Hfresh.
  { intros x. unfold ns. rewrite lookup_insert_is_Some. intros [<-|[_ Hx]]; [lia|]. apply (sh_fresh _ _ Hs) in Hx. lia. }
  destruct (heap_level_has _ _ _ Hid0) as (l & -> & El). cbn [mbind outcome_bind]. destruct (forward l) as [y|] eqn:Ey.
  - destruct (ls_edge _ _ Hl _ _ _ _ El Ey) as [Hy HRy].
    destruct (set_backward_has ns y (Some id) (Hns _ _ Hy)) as (n & Hn & ->). cbn [mbind outcome_bind].
    eexists. split; [done|]. split; cbn [levels level nodes fresh tail]; try done.
    + intros x i Hx. rewrite lookup_insert_is_Some. destruct (decide (y = x)); [by left|right; split; [done|by eapply Hns]].
    + apply (back_insert ns (λ x z, has ls x 0%nat ∧ R' 0%nat x z) y n (Some id)); [done|]. by intros x [= <-].
    + intros x. rewrite lookup_insert_is_Some. intros [<-|[_ Hx]]; apply Hfresh; [by eexists|done].
    + intros t' Ht'. by apply Hkeep, (sh_tail _ _ Hs).
  - eexists. split; [done|]. split; cbn [levels level nodes fresh tail]; try done. by intros ? [= <-].
Qed.

(** An insertion returns, whatever the scores are, and leaves a list of this shape. *)
Lemma insert_shape sl member score r : shaped sl →
  ∃ sl' id, insert sl member score r = Ret (sl', id) ∧ shaped sl'.
Proof.
  intros [R Hs]. set (lvl := randomLevel r). pose proof (randomLevel_range r) as Hlvl. fold lvl in Hlvl.
  pose proof (sh_level _ _ Hs) as Hlev. set (n := (lvl - level sl)%nat).
  destruct (search_shape sl R Hs (λ _ e, before e score member)) as (us & first & E & Hlen & Hp & Hat & Hfst & Hf0).
  unfold insert. rewrite E. cbn [mbind outcome_bind]. fold lvl. cbv zeta. fold n.
  destruct (extend_shape n (level sl) (len sl) (levels sl) R) as (ls1 & -> & Hl1 & Hd1); [apply Hs|lia|].
  cbn [mbind outcome_bind]. set (id := fresh sl). set (us' := us ++ replicate n (0%nat, 0)).
  assert (us' !! 0%nat = Some first) as Hfirst by (unfold us'; rewrite lookup_app_l by lia; exact Hfst).
  assert (at_level us' 0 = Ret first) as -> by (unfold at_level; by rewrite Hfirst). cbn [mbind outcome_bind].
  assert (places (levels sl) us' ∧ length us' = Nat.max (level sl) lvl) as [Hp' Hlen'].
  { split; [|unfold us'; rewrite length_app, length_replicate; lia]. intros i u Hu. unfold us' in Hu.
    pose proof (lookup_lt_Some _ _ _ Hu) as Hi. rewrite length_app, length_replicate in Hi.
    apply lookup_app_Some in Hu as [Hu|[_ Hu]]; [by apply Hp|]. apply lookup_replicate in Hu as [-> _].
    apply (ls_header _ _ (sh_levels _ _ Hs)). lia. }
  assert (∀ i, ls1 !! (id, i) = None) as Hfree.
  { intros i. destruct (ls1 !! (id, i)) eqn:Ei; [|done]. assert (has (levels sl) id i) as [l0 Hl] by (apply Hd1; by eexists).
    by rewrite (shape_fresh _ _ Hs) in Hl. }
  pose proof (new_levels_shape id lvl ls1 R Hl1 Hfree) as Hl2. set (ls2 := new_levels id lvl ls1) in *.
  assert (∀ x i, has (levels sl) x i → has ls2 x i ∧ x ≠ id ∧ (x < S id)%nat) as Hkeep.
  { intros x i Hx. assert (x < id)%nat as Hlt by (apply (sh_fresh _ _ Hs), (sh_nodes _ _ Hs _ _ Hx)).
    split_and!; [|lia|lia]. unfold ls2. rewrite new_levels_ne by lia. by apply Hd1. }
  assert (∀ i x y, R i x y → (x < S id ∧ y < S id)%nat) as HRf.
  { intros i x y Hxy. apply (sh_orders _ _ Hs) in Hxy. unfold id. lia. }
  destruct (link_loop_shape id first.2 (take lvl us') ls2 R (S id)) as (ls3 & R' & -> & Hl3 & Hd3 & HR & HR' & Hu & _).
  { done. }
  { intros i u Hi. apply lookup_take_Some in Hi as [Hi _]. by apply Hkeep, Hp'. }
  { intros i Hi. rewrite length_take in Hi. unfold ls2. rewrite new_levels_eq by lia. by eexists. }
  { intros i u Hi. apply lookup_take_Some in Hi as [Hi _]. by apply (Hkeep _ i), Hp'. }
  { intros i x. split; intros Hx; apply (sh_orders _ _ Hs) in Hx; unfold id in *; lia. }
  { done. }
  { lia. }
  { intros i u Hi. apply lookup_take_Some in Hi as [Hi _]. by apply (Hkeep _ i), Hp'. }
  { rewrite length_take. lia. }
  cbn [mbind outcome_bind].
  destruct (bump_loop_shape lvl (drop lvl (take (Nat.max (level sl) lvl) us')) ls3 R' Hl3) as (ls4 & -> & Hl4 & Hd4 & _).
  { intros k u Hk. rewrite lookup_drop in Hk. apply lookup_take_Some in Hk as [Hk _]. by apply Hd3, Hkeep, Hp'. }
  cbn [mbind outcome_bind].
  destruct (insert_finish sl R R' id ls4 first member score lvl (Nat.max (level sl) lvl) Hs eq_refl Hl4) as (sl' & E' & Hs').
  - apply (same_dom_trans _ ls3); [|done]. apply (same_dom_trans _ ls2); [|done]. intros [x i]. unfold ls2.
    destruct (decide (x = id)) as [->|Hx]; [|rewrite !new_levels_ne by done; apply Hd1].
    destruct (decide (i < lvl)%nat); [by rewrite !new_levels_eq|].
    rewrite !new_levels_none by (lia || apply Hfree || apply (shape_fresh _ _ Hs)). done.
  - lia.
  - done.
  - done.
  - done.
  - apply Hu. rewrite lookup_take_lt by lia. done.
  - lia.
  - exists sl', id. split; [exact E'|by exists R'].
Qed.

(** ** Removal *)

Lemma unlink_step_shape (id i : nat) (u : nat * Z) (ls : heap) (R : orders) : lshape ls R → has ls u.1 i →
  ∃ ls', unlink_step id i u ls = Ret ls' ∧ lshape ls' R ∧ same_dom ls ls'.
Proof.
  intros Hs Hu. destruct (heap_level_has _ _ _ Hu) as (l & E & Hl). unfold unlink_step. rewrite E. cbn [mbind outcome_bind].
  case_bool_decide as Hf.
  - destruct (ls_edge _ _ Hs _ _ _ _ Hl Hf) as [Hid HR]. destruct (heap_level_has _ _ _ Hid) as (m & -> & Hm).
    cbn [mbind outcome_bind]. eexists. split_and!; [done| |by apply same_dom_insert]. apply lshape_set; [done..|]. simpl.
    intros y Hy. destruct (ls_edge _ _ Hs _ _ _ _ Hm Hy) as [Hy' HRy]. split; [done|]. by eapply ls_trans.
  - eexists. split_and!; [done|by apply lshape_span|by apply same_dom_insert].
Qed.

Lemma shrink_shape (lvl : nat) (ls : heap) (R : orders) : lshape ls R → (1 ≤ lvl ≤ maxLevel)%nat →
  ∃ k, shrink lvl ls = Ret k ∧ (1 ≤ k ≤ lvl)%nat.
Proof.
  intros Hs. induction lvl as [|i IH]; intros Hi; [lia|]. cbn [shrink]. destruct (Nat.eqb_spec i 0) as [->|Hne]; [exists 1%nat; split; [done|lia]|].
  destruct (heap_level_has ls 0 i) as (l & -> & _); [apply (ls_header _ _ Hs); lia|]. cbn [mbind outcome_bind].
  destruct (forward l); [exists (S i); split; [done|lia]|]. destruct IH as (k & -> & Hk); [lia|]. exists k. split; [done|lia].
Qed.

(** What a removal needs, and keeps for the next one. *)
Lemma removeNode_shape (sl : skiplist) (R : orders) (id : nat) (us : list (nat * Z)) :
  shape sl R → places (levels sl) us → (level sl ≤ length us)%nat → has (levels sl) id 0%nat →
  ∃ sl', removeNode sl id us = Ret sl' ∧ shape sl' R ∧ same_dom (levels sl) (levels sl') ∧
    (level sl' ≤ level sl)%nat ∧ dom (nodes sl') = dom (nodes sl).
Proof.
  intros Hs Hp Hlen Hid. unfold removeNode. rewrite (proj2 (Nat.ltb_ge _ _) Hlen).
  destruct (level_loop_shape (unlink_step id) (λ _ ls', lshape ls' R ∧ same_dom (levels sl) ls') 0 (take (level sl) us) (levels sl))
    as (ls & -> & Hl & Hd); [by split; [apply Hs|]| |].
  { simpl. intros i u ls1 Hu [H1 H2]. apply lookup_take_Some in Hu as [Hu _].
    destruct (unlink_step_shape id i u ls1 R H1) as (ls2 & E & H3 & H4); [by apply H2, Hp|].
    exists ls2. split_and!; [done..|]. by eapply same_dom_trans. }
  cbn [mbind outcome_bind]. destruct (shape_get_node sl R Hs id 0 Hid) as (x & -> & Hx). cbn [mbind outcome_bind].
  destruct (heap_level_has ls id 0) as (l & -> & El); [by apply Hd|]. cbn [mbind outcome_bind].
  destruct (shrink_shape (level sl) ls R Hl (sh_level _ _ Hs)) as (k & Ek & Hk). pose proof (sh_level _ _ Hs) as Hlev.
  assert (∀ y i, has ls y i → is_Some (nodes sl !! y)) as Hns by (intros y i Hy; by apply Hd, (sh_nodes _ _ Hs) in Hy).
  assert (∀ z m y, nodes sl !! z = Some m → backward m = Some y → has ls y 0%nat ∧ R 0%nat y z) as Hback.
  { intros z m y Hz Hy. destruct (sh_back _ _ Hs _ _ _ Hz Hy) as [H1 H2]. split; [by apply Hd|done]. }
  destruct (forward l) as [y|] eqn:Ey.
  - destruct (ls_edge _ _ Hl _ _ _ _ El Ey) as [Hy HRy].
    destruct (set_backward_has (nodes sl) y (backward x) (Hns _ _ Hy)) as (n & Hn & ->). cbn [mbind outcome_bind fst snd].
    rewrite Ek. cbn [mbind outcome_bind]. eexists. split; [done|].
    split_and!; cbn [levels level nodes]; [|done|lia|apply dom_insert_lookup_L; by eexists].
    split; cbn [levels level nodes fresh tail]; try apply Hs; try done; [lia|..].
    + intros z i Hz. rewrite lookup_insert_is_Some. destruct (decide (y = z)); [by left|right; split; [done|by eapply Hns]].
    + apply (back_insert (nodes sl) (λ y z, has ls y 0%nat ∧ R 0%nat y z) y n (backward x)); [done|].
      intros z Hz. destruct (Hback _ _ _ Hx Hz) as [H1 H2]. split; [done|]. by eapply ls_trans.
    + intros z. rewrite lookup_insert_is_Some. intros [<-|[_ Hz]]; apply (sh_fresh _ _ Hs); [by eexists|done].
    + intros t Ht. by apply Hd, (sh_tail _ _ Hs).
  - cbn [mbind outcome_bind fst snd]. rewrite Ek. cbn [mbind outcome_bind]. eexists. split; [done|].
    split_and!; cbn [levels level nodes]; [|done|lia|done].
    split; cbn [levels level nodes fresh tail]; try apply Hs; try done; [lia|].
    intros t Ht. by apply (Hback _ _ _ Hx Ht).
Qed.

Lemma remove_shape sl member score : shaped sl →
  ∃ sl' found, remove sl member score = Ret (sl', found) ∧ shaped sl'.
Proof.
  intros [R Hs]. destruct (search_shape sl R Hs (λ _ e, before e score member)) as (us & first & E & Hlen & Hp & Hat & _ & Hf0).
  unfold remove. rewrite E. cbn [mbind outcome_bind]. rewrite Hat. cbn [mbind outcome_bind].
  destruct (shape_get_level sl _ _ Hf0) as (l & -> & El). cbn [mbind outcome_bind].
  destruct (forward l) as [y|] eqn:Ey; [|exists sl, false; split; [done|by exists R]].
  destruct (ls_edge _ _ (sh_levels _ _ Hs) _ _ _ _ El Ey) as [Hy _].
  destruct (shape_get_node sl R Hs y 0 Hy) as (n & -> & _). cbn [mbind outcome_bind].
  destruct (_ && _); [|exists sl, false; split; [done|by exists R]].
  destruct (removeNode_shape sl R y us Hs Hp) as (sl' & -> & Hs' & _); [lia|done|].
  exists sl', true. split; [done|by exists R].
Qed.

(** The cursor of a loop along the lowest level that starts with this much fuel:
    enough for the nodes not visited. *)
Definition cursor_ok (sl : skiplist) (O : nat → nat → Prop) (V : gset nat) (fuel : nat) (x : option nat) : Prop :=
  match x with
  | Some y => has (levels sl) y 0%nat ∧ visits sl O V y ∧ (S (size (nodes sl)) < size V + fuel)%nat
  | None => (0 < fuel)%nat
  end.

Lemma cursor_fuel sl R O V fuel x : shape sl R → cursor_ok sl O V fuel x → (0 < fuel)%nat.
Proof. intros Hs. destruct x as [y|]; [|done]. intros (_ & HV & Hf). pose proof (visits_size sl _ _ _ HV). lia. Qed.

Lemma cursor_next sl R (O : nat → nat → Prop) V fuel y x :
  shape sl R → (∀ a, ¬ O a a) → (∀ a b c, O a b → O b c → O a c) → cursor_ok sl O V (S fuel) (Some y) →
  (∀ z, x = Some z → has (levels sl) z 0%nat ∧ O y z) → ∃ V', cursor_ok sl O V' fuel x.
Proof.
  intros Hs Hi Ht (Hy & HV & Hf) Hx. destruct x as [z|].
  - destruct (Hx z eq_refl) as [Hz Hyz].
    destruct (visits_step sl R Hs O V y z) as [HV' Hsz]; [done..|by eapply sh_nodes|].
    exists ({[z]} ∪ V). split_and!; [done..|lia].
  - exists V. simpl. pose proof (visits_size sl _ _ _ HV). lia.
Qed.

Lemma cursor_dom sl sl' O V fuel x : same_dom (levels sl) (levels sl') → dom (nodes sl') = dom (nodes sl) →
  cursor_ok sl O V fuel x → cursor_ok sl' O V fuel x.
Proof.
  intros Hd Hn. destruct x as [y|]; [|done]. intros (Hy & HV & Hf). split_and!; [by apply Hd|by unfold visits; rewrite Hn|].
  by rewrite <-size_dom, Hn, size_dom.
Qed.

(** The cursor behind a place found by a search. *)
Lemma cursor_start sl R u : shape sl R → has (levels sl) u 0%nat →
  ∃ l V, get_level sl u 0 = Ret l ∧ cursor_ok sl (R 0%nat) V (walk_fuel sl) (forward l).
Proof.
  intros Hs Hu. destruct (shape_get_level sl _ _ Hu) as (l & E & El). exists l. unfold walk_fuel.
  destruct (forward l) as [y|] eqn:Ey; [|exists ∅; split; [done|simpl; lia]].
  destruct (ls_edge _ _ (sh_levels _ _ Hs) _ _ _ _ El Ey) as [Hy _]. exists {[y]}. split; [done|]. cbn [cursor_ok]. split_and!; [done| |].
  - apply (visits_start sl R Hs). by eapply sh_nodes.
  - rewrite size_singleton. lia.
Qed.

(** One node taken out, and the cursor on the next one. *)
Lemma remove_next (sl : skiplist) (R : orders) (us : list (nat * Z)) (V : gset nat) (fuel y : nat) :
  shape sl R → places (levels sl) us → (level sl ≤ length us)%nat → cursor_ok sl (R 0%nat) V (S fuel) (Some y) →
  ∃ n l sl' V', get_node sl y = Ret n ∧ get_level sl y 0 = Ret l ∧ removeNode sl y us = Ret sl' ∧
    shape sl' R ∧ places (levels sl') us ∧ (level sl' ≤ length us)%nat ∧ cursor_ok sl' (R 0%nat) V' fuel (forward l).
Proof.
  intros Hs Hp Hlen Hc. pose proof Hc as (Hy & _). pose proof (sh_levels _ _ Hs) as Hl.
  destruct (removeNode_shape sl R y us Hs Hp Hlen Hy) as (sl' & E & Hs' & Hd & Hlev & Hn).
  destruct (shape_get_node sl R Hs y 0 Hy) as (n & En & _), (shape_get_level sl _ _ Hy) as (l & Eg & El).
  destruct (cursor_next sl R (R 0%nat) V fuel y (forward l)) as [V' HV']; [done|apply Hl|apply Hl|done| |].
  { intros z Hz. by apply (ls_edge _ _ Hl y 0%nat l z). }
  exists n, l, sl', V'. split_and!; [done..|by eapply places_dom|lia|by eapply cursor_dom].
Qed.

Lemma remove_range_loop_shape fuel sl R us V max limit x removed :
  shape sl R → places (levels sl) us → (level sl ≤ length us)%nat → cursor_ok sl (R 0%nat) V fuel x →
  ∃ sl' l, remove_range_loop fuel sl max limit us x removed = Ret (sl', l) ∧ shape sl' R.
Proof.
  revert sl V x removed. induction fuel as [|fuel IH]; intros sl V x removed Hs Hp Hlen Hx.
  { pose proof (cursor_fuel _ _ _ _ _ _ Hs Hx). lia. }
  cbn [remove_range_loop]. destruct x as [y|]; [|by exists sl, removed].
  destruct (remove_next sl R us V fuel y Hs Hp Hlen Hx) as (n & l & sl' & V' & -> & -> & -> & Hs' & Hp' & Hlen' & Hx').
  cbn [mbind outcome_bind]. destruct (negb _); [by exists sl, removed|].
  destruct (_ && _); [by eexists sl', _|]. by eapply (IH sl' V').
Qed.

Lemma remove_rank_loop_shape fuel sl R us V stop i x removed :
  shape sl R → places (levels sl) us → (level sl ≤ length us)%nat → cursor_ok sl (R 0%nat) V fuel x →
  ∃ sl' l, remove_rank_loop fuel sl stop i us x removed = Ret (sl', l) ∧ shape sl' R.
Proof.
  revert sl V i x removed. induction fuel as [|fuel IH]; intros sl V i x removed Hs Hp Hlen Hx.
  { pose proof (cursor_fuel _ _ _ _ _ _ Hs Hx). lia. }
  cbn [remove_rank_loop]. destruct x as [y|]; [|by exists sl, removed].
  destruct (remove_next sl R us V fuel y Hs Hp Hlen Hx) as (n & l & sl' & V' & -> & -> & -> & Hs' & Hp' & Hlen' & Hx').
  cbn [mbind outcome_bind]. destruct (negb _); [by exists sl, removed|]. by eapply (IH sl' V').
Qed.

Lemma RemoveRange_shape sl min max limit : shaped sl →
  ∃ sl' l, RemoveRange sl min max limit = Ret (sl', l) ∧ shaped sl'.
Proof.
  intros [R Hs]. destruct (search_shape sl R Hs (λ _ e, negb (less min e))) as (us & first & E & Hlen & Hp & Hat & _ & Hf0).
  unfold RemoveRange. rewrite E. cbn [mbind outcome_bind]. rewrite Hat. cbn [mbind outcome_bind].
  destruct (cursor_start sl R first.1 Hs Hf0) as (l & V & -> & Hc). cbn [mbind outcome_bind].
  destruct (remove_range_loop_shape (walk_fuel sl) sl R us V max limit (forward l) []) as (sl' & rs & E' & Hs'); [done|done|lia|done|].
  exists sl', rs. split; [done|by exists R].
Qed.

Lemma RemoveRangeByRank_shape sl start stop : shaped sl →
  ∃ sl' l, RemoveRangeByRank sl start stop = Ret (sl', l) ∧ shaped sl'.
Proof.
  intros [R Hs]. destruct (search_shape sl R Hs (λ j _, j <? start)) as (us & first & E & Hlen & Hp & Hat & _ & Hf0).
  unfold RemoveRangeByRank. rewrite E. cbn [mbind outcome_bind]. rewrite Hat. cbn [mbind outcome_bind].
  destruct (cursor_start sl R first.1 Hs Hf0) as (l & V & -> & Hc). cbn [mbind outcome_bind].
  destruct (remove_rank_loop_shape (walk_fuel sl) sl R us V stop (first.2 + 1) (forward l) []) as (sl' & rs & E' & Hs'); [done|done|lia|done|].
  exists sl', rs. split; [done|by exists R].
Qed.

(** ** The searches end *)

(** A cursor that a search returns. *)
Definition at_node (sl : skiplist) (x : option nat) : Prop := ∀ y, x = Some y → has (levels sl) y 0%nat.

Section ends.
Context (sl : skiplist) (Hsl : shaped sl).

Lemma get_node_post x : post any (get_node sl x).
Proof. unfold get_node. post_auto. Qed.

Lemma getRank_post member score : post any (getRank sl member score).
Proof.
  destruct Hsl as [R Hs]. unfold getRank. pose proof (sh_level _ _ Hs) as Hlev.
  assert (∀ i, (i < level sl)%nat → has (levels sl) 0%nat i) as Hx by (intros i Hi; apply (ls_header _ _ (sh_levels _ _ Hs)); lia).
  revert Hx. clear Hlev. generalize 0%nat as x, 0 as rank. induction (level sl) as [|i IH]; intros x rank Hx; [done|].
  cbn [getRank_loop]. destruct (walk_shape sl R Hs (λ _ e, not_after e score member) i x rank) as (r & -> & Hr); [apply Hx; lia|].
  cbn [mbind outcome_bind]. apply (post_bind any); [apply get_node_post|]. intros n _. destruct (String.eqb _ _); [done|].
  apply IH. intros j Hj. apply (ls_column _ _ (sh_levels _ _ Hs) _ i); [done|lia].
Qed.

Lemma getByRank_post rank : post (at_node sl) (getByRank sl rank).
Proof.
  destruct Hsl as [R Hs]. unfold getByRank. pose proof (sh_level _ _ Hs) as Hlev.
  assert (∀ i, (i < level sl)%nat → has (levels sl) 0%nat i) as Hx by (intros i Hi; apply (ls_header _ _ (sh_levels _ _ Hs)); lia).
  revert Hx. clear Hlev. generalize 0%nat as x, 0 as k. induction (level sl) as [|i IH]; intros x k Hx; [done|].
  cbn [getByRank_loop]. destruct (walk_shape sl R Hs (λ j _, j <=? rank) i x k) as (r & -> & Hr); [apply Hx; lia|].
  assert (∀ j, (j ≤ i)%nat → has (levels sl) r.1 j) as Hr' by (intros j Hj; by apply (ls_column _ _ (sh_levels _ _ Hs) _ i)).
  cbn [mbind outcome_bind]. destruct (r.2 =? rank).
  - intros y [= <-]. apply Hr'. lia.
  - apply IH. intros j Hj. apply Hr'. lia.
Qed.

Lemma get_level_post x i : post any (get_level sl x i).
Proof. unfold get_level. post_auto. Qed.

Lemma hasInRange_post min max : post any (hasInRange sl min max).
Proof.
  unfold hasInRange. apply (post_bind any); [by destruct min, max|]. intros b _. destruct b; [done|].
  destruct (tail sl) as [t|]; [|done]. apply (post_bind any); [apply get_node_post|]. intros n _. destruct (negb _); [done|].
  apply (post_bind any); [apply get_level_post|]. intros l _. destruct (forward l); [|done].
  apply (post_bind any); [apply get_node_post|]. by intros.
Qed.

Lemma getFirstInRange_post min max : post (at_node sl) (getFirstInRange sl min max).
Proof.
  unfold getFirstInRange. apply (post_bind any); [apply hasInRange_post|]. intros b _. destruct (negb b); [done|].
  destruct Hsl as [R Hs].
  destruct (search_shape sl R Hs (λ _ e, negb (less min e))) as (us & first & -> & _ & _ & Hat & _ & Hf0).
  cbn [mbind outcome_bind]. rewrite Hat. cbn [mbind outcome_bind].
  destruct (shape_get_level sl _ _ Hf0) as (l & -> & El). cbn [mbind outcome_bind]. destruct (forward l) as [y|] eqn:Ey; [|done].
  apply (post_bind any); [apply get_node_post|]. intros n _. destruct (negb _); [done|]. intros z [= <-].
  by apply (ls_edge _ _ (sh_levels _ _ Hs) _ _ _ _ El Ey).
Qed.

Lemma getLastInRange_post min max : post (at_node sl) (getLastInRange sl min max).
Proof.
  unfold getLastInRange. apply (post_bind any); [apply hasInRange_post|]. intros b _. destruct (negb b); [done|].
  destruct Hsl as [R Hs].
  destruct (search_shape sl R Hs (λ _ e, greater max e)) as (us & last & -> & _ & _ & Hat & _ & Hf0).
  cbn [mbind outcome_bind]. rewrite Hat. cbn [mbind outcome_bind].
  apply (post_bind any); [apply get_node_post|]. intros n _. destruct (negb _); [done|]. by intros z [= <-].
Qed.
End ends.
