(* ===== verification/ZSetShape.v ===== *)
(** * Sorted sets of any scores

    The consequences of [shape] for the methods of sortedset.go: those that change a
    set return and keep the shape, and those that read it end, with a value or a
    panic, whatever scores (NaN included) and borders they are given. *)

From Stdlib Require Import ZArith Lia Ascii String.
From Stdlib Require Import Floats.SpecFloat.
From stdpp Require Import base gmap strings numbers list sorting.
From S2P Require Import Prelude GoStd Dict Border SkipList SkipRep SkipShape SortedSet.

Local Open Scope string_scope.
Local Open Scope list_scope.
Local Open Scope Z_scope.
Local Open Scope go_scope.

Import Skip.

(** ** Changes *)

Definition zset_shaped (ss : SortedSet) : Prop := shaped (zsl ss).

Lemma Make_shape : zset_shaped ZSet.Make.
Proof. apply shaped_empty. Qed.

Lemma Add_shape ss k s r : zset_shaped ss → ∃ ss' b, ZSet.Add ss k s r = Ret (ss', b) ∧ zset_shaped ss'.
Proof.
  intros Hs. unfold ZSet.Add. destruct (dict ss !! k) as [e|].
  - destruct (negb _); [|by eexists _, false].
    destruct (remove_shape (zsl ss) k (Score e) Hs) as (sl1 & b & -> & H1). cbn [mbind outcome_bind fst].
    destruct (insert_shape sl1 k s r H1) as (sl2 & id & -> & H2). by eexists _, false.
  - destruct (insert_shape (zsl ss) k s r Hs) as (sl2 & id & -> & H2). by eexists _, true.
Qed.

Lemma Remove_shape ss k : zset_shaped ss → ∃ ss' b, ZSet.Remove ss k = Ret (ss', b) ∧ zset_shaped ss'.
Proof.
  intros Hs. unfold ZSet.Remove. destruct (dict ss !! k) as [e|]; [|by exists ss, false].
  destruct (remove_shape (zsl ss) k (Score e) Hs) as (sl1 & b & -> & H1). by eexists _, true.
Qed.

Lemma zset_RemoveRange_shape ss min max : zset_shaped ss → ∃ ss' n, ZSet.RemoveRange ss min max = Ret (ss', n) ∧ zset_shaped ss'.
Proof.
  intros Hs. unfold ZSet.RemoveRange. destruct (RemoveRange_shape (zsl ss) min max 0 Hs) as (sl' & l & -> & H').
  by eexists _, _.
Qed.

Lemma RemoveByRank_shape ss start stop : zset_shaped ss → ∃ ss' n, ZSet.RemoveByRank ss start stop = Ret (ss', n) ∧ zset_shaped ss'.
Proof.
  intros Hs. unfold ZSet.RemoveByRank. destruct (RemoveRangeByRank_shape (zsl ss) (start + 1) (stop + 1) Hs) as (sl' & l & -> & H').
  by eexists _, _.
Qed.

(** [PopMin] may panic in its search for the lowest element, before any change. *)
Lemma PopMin_post ss count : zset_shaped ss → post (λ r, zset_shaped r.1) (ZSet.PopMin ss count).
Proof.
  intros Hs. unfold ZSet.PopMin. eapply post_bind; [by apply getFirstInRange_post|]. intros [y|] _; [|done].
  apply (post_bind any); [apply get_node_post|]. intros n _.
  destruct (RemoveRange_shape (zsl ss) (ScoreB (mkScoreBorder 0 (Score (elem n)) false)) scorePositiveInfBorder count Hs)
    as (sl' & l & -> & H'). done.
Qed.

(** ** Visits *)

Section visits.
Context {S : Type} (consumer : Element → S → bool * S) (sl : skiplist).

Lemma step_node_post desc y n : post any (ZSet.step_node sl desc y n).
Proof. unfold ZSet.step_node. destruct desc; [done|]. apply (post_bind any); [apply get_level_post|]. by intros. Qed.

Lemma rank_loop_post desc n x s : post any (ZSet.rank_loop consumer sl desc n x s).
Proof.
  revert x s. induction n as [|n IH]; intros x s; [done|]. cbn [ZSet.rank_loop]. destruct x as [y|]; [|done].
  apply (post_bind any); [apply get_node_post|]. intros nd _. destruct (consumer _ _) as [[] s']; simpl; [|done].
  apply (post_bind any); [apply step_node_post|]. intros z _. apply IH.
Qed.

(** The order in which a visit goes through the nodes. *)
Definition visit_order (R : orders) (desc : bool) : nat → nat → Prop := if desc then flip (R 0%nat) else R 0%nat.

Lemma step_node_next R desc y n :
  shape sl R → has (levels sl) y 0%nat → get_node sl y = Ret n →
  ∃ x, ZSet.step_node sl desc y n = Ret x ∧ ∀ z, x = Some z → has (levels sl) z 0%nat ∧ visit_order R desc y z.
Proof.
  intros Hs Hy Hn. unfold ZSet.step_node, get_node in *. destruct desc.
  - exists (backward n). split; [done|]. intros z Hz. destruct (nodes sl !! y) as [m|] eqn:Em; [|done].
    injection Hn as ->. by apply (sh_back _ _ Hs _ _ _ Em Hz).
  - destruct (shape_get_level sl _ _ Hy) as (l & -> & El). exists (forward l). split; [done|].
    intros z Hz. by apply (ls_edge _ _ (sh_levels _ _ Hs) _ _ _ _ El Hz).
Qed.

Lemma skip_loop_post desc k x : shaped sl → at_node sl x → post (at_node sl) (ZSet.skip_loop sl desc k x).
Proof.
  intros [R Hs]. revert x. induction k as [|k IH]; intros [y|] Hx; try done. cbn [ZSet.skip_loop].
  destruct (shape_get_node sl R Hs y 0 (Hx y eq_refl)) as (n & En & _). rewrite En. cbn [mbind outcome_bind].
  destruct (step_node_next R desc y n Hs (Hx y eq_refl) En) as (x' & -> & Hx'). cbn [mbind outcome_bind].
  apply IH. intros z Hz. by apply Hx'.
Qed.

Lemma border_loop_post fuel R V min max limit desc i x s :
  shape sl R → cursor_ok sl (visit_order R desc) V fuel x →
  post any (ZSet.border_loop consumer fuel sl min max limit desc i x s).
Proof.
  intros Hs. revert V i x s. induction fuel as [|fuel IH]; intros V i x s Hc; [apply cursor_fuel with (R := R) in Hc; [lia|done]|].
  cbn [ZSet.border_loop]. destruct (negb _); [done|]. destruct x as [y|]; [|done]. pose proof Hc as (Hy & _).
  destruct (shape_get_node sl R Hs y 0 Hy) as (n & En & _). rewrite En. cbn [mbind outcome_bind].
  destruct (consumer _ _) as [[] s']; simpl; [|done].
  destruct (step_node_next R desc y n Hs Hy En) as (x' & -> & Hx'). cbn [mbind outcome_bind].
  destruct (cursor_next sl R (visit_order R desc) V fuel y x') as [V' HV']; [done|..|done|done|].
  { intros a. unfold visit_order. pose proof (ls_irrefl _ _ (sh_levels _ _ Hs) 0%nat a). by destruct desc. }
  { intros a b c. unfold visit_order. pose proof (ls_trans _ _ (sh_levels _ _ Hs) 0%nat) as Ht. destruct desc; unfold flip; eauto. }
  destruct x' as [z|]; [|done]. apply (post_bind any); [apply get_node_post|]. intros nz _. destruct (_ || _); [done|]. by eapply IH.
Qed.
End visits.

Lemma ForEachByRank_post {S} (consumer : Element → S → bool * S) ss start stop desc s :
  zset_shaped ss → post any (ZSet.ForEachByRank consumer ss start stop desc s).
Proof.
  intros Hs. unfold ZSet.ForEachByRank. destruct (_ || _); [done|]. destruct (_ || _); [done|].
  apply (post_bind any); [|intros; apply rank_loop_post].
  destruct desc, (start >? 0); try done; try (eapply post_weaken; [|by apply getByRank_post]; done).
  apply (post_bind any); [apply get_level_post|]. by intros.
Qed.

Lemma ForEach_post {S} (consumer : Element → S → bool * S) ss min max offset limit desc s :
  zset_shaped ss → post any (ZSet.ForEach consumer ss min max offset limit desc s).
Proof.
  intros Hs. unfold ZSet.ForEach. apply (post_bind (at_node (zsl ss))).
  { destruct desc; [by apply getLastInRange_post|by apply getFirstInRange_post]. }
  intros x Hx. eapply post_bind; [by apply skip_loop_post|]. clear x Hx. intros x Hx. destruct Hs as [R Hs].
  destruct x as [y|].
  - apply (border_loop_post consumer (zsl ss) _ R {[y]}); [done|]. specialize (Hx y eq_refl). split_and!; [done| |].
    + apply (visits_start (zsl ss) R Hs). by eapply sh_nodes.
    + rewrite size_singleton. unfold walk_fuel. lia.
  - apply (border_loop_post consumer (zsl ss) _ R ∅); [done|]. unfold cursor_ok, walk_fuel. lia.
Qed.

Lemma RangeByRank_post ss start stop desc : zset_shaped ss → post any (ZSet.RangeByRank ss start stop desc).
Proof.
  intros Hs. unfold ZSet.RangeByRank. apply (post_bind any); [apply make_slice_post|]. intros _ _. by apply ForEachByRank_post.
Qed.

Lemma RangeCount_post ss min max : zset_shaped ss → post any (ZSet.RangeCount ss min max).
Proof. intros Hs. by apply ForEachByRank_post. Qed.

Lemma zset_Range_post ss min max offset limit desc : zset_shaped ss → post any (ZSet.Range ss min max offset limit desc).
Proof. intros Hs. unfold ZSet.Range. destruct (_ || _); [done|]. by apply ForEach_post. Qed.

Lemma GetRank_post ss k desc : zset_shaped ss → post any (ZSet.GetRank ss k desc).
Proof.
  intros Hs. unfold ZSet.GetRank. destruct (dict ss !! k); [|done]. apply (post_bind any); [by apply getRank_post|]. by intros.
Qed.

(** The changes as outcomes. *)
Lemma Remove_post ss k : zset_shaped ss → post (λ r, zset_shaped r.1) (ZSet.Remove ss k).
Proof. intros Hs. by destruct (Remove_shape ss k Hs) as (ss' & b & -> & H'). Qed.

Lemma RemoveRange_post ss min max : zset_shaped ss → post (λ r, zset_shaped r.1) (ZSet.RemoveRange ss min max).
Proof. intros Hs. by destruct (zset_RemoveRange_shape ss min max Hs) as (ss' & n & -> & H'). Qed.

Lemma RemoveByRank_post ss start stop : zset_shaped ss → post (λ r, zset_shaped r.1) (ZSet.RemoveByRank ss start stop).
Proof. intros Hs. by destruct (RemoveByRank_shape ss start stop Hs) as (ss' & n & -> & H'). Qed.
