(* ===== verification/SortedFacts.v ===== *)
(** * The sorted set as a finite map

    The specification of a sorted set is a map from members to scores; [zsorted]
    lists it by score, then member.  [zset_ok] relates the two halves of a
    [SortedSet] to it, and every operation is proved to be the one on the map.
    Scores are numbers other than NaN, which has no place in the order, and
    negative zero, which is equal to zero without being the same. *)

From Stdlib Require Import ZArith Lia Ascii String.
From Stdlib Require Import Floats.SpecFloat.
From stdpp Require Import base gmap strings numbers list sorting.
From S2P Require Import Prelude GoStd Dict Border SkipList SkipRep SortedSet.

Local Open Scope string_scope.
Local Open Scope list_scope.
Local Open Scope Z_scope.
Local Open Scope go_scope.

Import Skip.

(** ** The order of elements *)

Definition ele (e f : Element) : Prop :=
  key_lt (score_key (Score e)) (score_key (Score f)) ∨
  score_key (Score e) = score_key (Score f) ∧ string_leb (Member e) (Member f) = true.

#[export] Instance ele_dec : RelDecision ele.
Proof. intros e f. unfold ele, key_lt. apply _. Defined.

#[export] Instance ele_trans : Transitive ele.
Proof.
  intros e f g [H1|[H1 H1']] [H2|[H2 H2']]; unfold ele.
  - left. by eapply key_lt_trans.
  - left. by rewrite <-H2.
  - left. by rewrite H1.
  - right. split; [congruence|]. unfold string_leb in *. apply negb_true_iff in H1', H2'. apply negb_true_iff.
    destruct (string_ltb (Member g) (Member e)) eqn:E; [|done].
    destruct (string_ltb (Member f) (Member e)) eqn:E1; [done|].
    destruct (string_ltb (Member e) (Member f)) eqn:E2.
    + by rewrite (string_ltb_trans _ _ _ E E2) in H2'.
    + rewrite (string_ltb_total _ _ E2 E1) in E. by rewrite E in H2'.
Qed.

#[export] Instance ele_total : Total ele.
Proof.
  intros e f. unfold ele.
  destruct (key_total (score_key (Score e)) (score_key (Score f))) as [?|[E|?]]; [by auto| |by auto].
  unfold string_leb. destruct (string_ltb (Member f) (Member e)) eqn:E1; [|by auto].
  destruct (string_ltb (Member e) (Member f)) eqn:E2; [|by auto].
  pose proof (string_ltb_trans _ _ _ E1 E2) as E3. by rewrite string_ltb_irrefl in E3.
Qed.

(** A score the order can place. *)
Definition proper (s : float64) : Prop := is_nan s = false ∧ s ≠ S754_zero true.

#[export] Instance proper_dec s : Decision (proper s).
Proof. destruct s as [[]|[]| |[] m e]; first [by left|by right; intros []]. Defined.

Lemma score_key_inj a b : proper a → proper b → score_key a = score_key b → a = b.
Proof.
  intros [Ha Ha'] [Hb Hb']. destruct a as [[]|[]| |[] m e], b as [[]|[]| |[] m' e']; simpl; try done; intros [= ].
  - f_equal; lia.
  - f_equal; lia.
Qed.

Lemma SFeqb_eq a b : proper a → proper b → SFeqb a b = true ↔ a = b.
Proof.
  intros Ha Hb. rewrite SFeqb_key by (apply Ha || apply Hb). split; [by apply score_key_inj|by intros ->].
Qed.

Definition proper_elt (e : Element) : Prop := proper (Score e).

Lemma proper_real e : proper_elt e → real e.
Proof. intros [H _]. exact H. Qed.

Lemma elt_lt_ele e f : proper_elt e → proper_elt f → elt_lt e f → ele e f.
Proof.
  intros He Hf. unfold elt_lt. rewrite before_key by (by apply proper_real). intros [H|[H1 H2]]; [by left|right].
  split; [done|]. unfold string_leb. apply negb_true_iff. destruct (string_ltb (Member f) (Member e)) eqn:E; [|done].
  pose proof (string_ltb_trans _ _ _ H2 E) as H3. by rewrite string_ltb_irrefl in H3.
Qed.

Lemma ele_elt_lt e f : proper_elt e → proper_elt f → Member e ≠ Member f → ele e f → elt_lt e f.
Proof.
  intros He Hf Hne. unfold elt_lt. rewrite before_key by (by apply proper_real). intros [H|[H1 H2]]; [by left|right].
  split; [done|]. unfold string_leb in H2. apply negb_true_iff in H2.
  destruct (string_ltb (Member e) (Member f)) eqn:E; [done|]. by destruct Hne; apply string_ltb_total.
Qed.

(** ** The listing of a map *)

Definition to_elems (m : gmap string float64) : list Element := (λ kv, mkElement kv.1 kv.2) <$> map_to_list m.

Definition zsorted (m : gmap string float64) : list Element := merge_sort ele (to_elems m).

Definition proper_map (m : gmap string float64) : Prop := map_Forall (λ _ s, proper s) m.

Lemma elem_of_to_elems m e : e ∈ to_elems m ↔ m !! Member e = Some (Score e).
Proof.
  unfold to_elems. rewrite list_elem_of_fmap. split.
  - intros ([k s] & -> & H). by apply elem_of_map_to_list in H.
  - intros H. exists (Member e, Score e). destruct e. split; [done|]. by apply elem_of_map_to_list.
Qed.

Lemma elem_of_zsorted m e : e ∈ zsorted m ↔ m !! Member e = Some (Score e).
Proof. unfold zsorted. by rewrite merge_sort_Permutation, elem_of_to_elems. Qed.

Lemma members_NoDup m : NoDup (Member <$> to_elems m).
Proof.
  unfold to_elems. rewrite <-list_fmap_compose. simpl. apply (NoDup_fst_map_to_list m).
Qed.

Lemma zsorted_length m : length (zsorted m) = size m.
Proof.
  unfold zsorted. rewrite merge_sort_Permutation. unfold to_elems. rewrite length_fmap. apply length_map_to_list.
Qed.

Lemma zsorted_proper m : proper_map m → Forall proper_elt (zsorted m).
Proof. intros Hm. apply Forall_forall. intros e He. apply elem_of_zsorted in He. by apply Hm in He. Qed.

Lemma zsorted_lt m : proper_map m → StronglySorted elt_lt (zsorted m).
Proof.
  intros Hm. pose proof (Sorted_StronglySorted ele _ (Sorted_merge_sort ele (to_elems m))) as Hs. fold (zsorted m) in Hs.
  pose proof (zsorted_proper m Hm) as Hp.
  assert (NoDup (Member <$> zsorted m)) as Hnd by (unfold zsorted; rewrite merge_sort_Permutation; apply members_NoDup).
  induction (zsorted m) as [|e l IH]; [constructor|]. apply StronglySorted_cons in Hs as [He Hs].
  apply Forall_cons in Hp as [Hpe Hp]. rewrite fmap_cons in Hnd. apply NoDup_cons in Hnd as [Hne Hnd].
  apply StronglySorted_cons. split; [|by apply IH]. rewrite Forall_forall in He, Hp |- *. intros f Hf.
  apply ele_elt_lt; [done|by apply Hp| |by apply He]. intros E. apply Hne. rewrite E. by apply list_elem_of_fmap_2.
Qed.

(** The sorted list of the elements of a map is its listing. *)
Lemma zsorted_unique m l : proper_map m → StronglySorted elt_lt l → l ≡ₚ to_elems m → l = zsorted m.
Proof.
  intros Hm Hs Hl.
  assert (∀ e, e ∈ l → proper_elt e) as Hp.
  { intros e He. rewrite Hl in He. apply elem_of_to_elems in He. by apply Hm in He. }
  apply (StronglySorted_unique_strong elt_lt); [|done|by apply zsorted_lt|].
  - intros x y Hx Hy H1 H2. exfalso. assert (proper_elt y) as Hy' by (apply (Forall_forall proper_elt (zsorted m)); [by apply zsorted_proper|done]).
    pose proof (elt_lt_trans x y x (proper_real _ (Hp _ Hx)) (proper_real _ Hy') (proper_real _ (Hp _ Hx)) H1 H2) as H3.
    by apply elt_lt_irrefl in H3; [|by apply proper_real, Hp].
  - rewrite Hl. symmetry. apply merge_sort_Permutation.
Qed.

Lemma to_elems_insert m k s : m !! k = None → to_elems (<[k := s]> m) ≡ₚ mkElement k s :: to_elems m.
Proof. intros Hk. unfold to_elems. by rewrite map_to_list_insert. Qed.

Lemma to_elems_delete m k s : m !! k = Some s → to_elems m ≡ₚ mkElement k s :: to_elems (delete k m).
Proof. intros Hk. unfold to_elems. by rewrite <-(map_to_list_delete m k s Hk). Qed.

(** ** Tests that fall along a listing *)

Lemma falling_of P l : Forall proper_elt l → StronglySorted elt_lt l →
  (∀ e f, proper_elt e → proper_elt f → elt_lt e f → P f = true → P e = true) → falling P l.
Proof.
  intros Hp Hs HP. unfold falling. induction Hs as [|e l _ IH He]; [constructor|].
  apply Forall_cons in Hp as [Hpe Hp]. apply StronglySorted_cons. split; [|by apply IH].
  rewrite Forall_forall in He, Hp |- *. intros f Hf. apply HP; [done|by apply Hp|by apply He].
Qed.

Lemma falling_before s k l : proper s → Forall proper_elt l → StronglySorted elt_lt l → falling (λ e, before e s k) l.
Proof.
  intros Hs Hp Hl. apply falling_of; [done..|]. intros e f He Hf Hef Hb.
  by apply (elt_lt_trans e f (mkElement k s)); [apply proper_real|apply proper_real|apply Hs|..].
Qed.

(** ** The relation *)

Record zset_ok (ss : SortedSet) (m : gmap string float64) : Prop := {
  ok_proper : proper_map m;
  ok_dict k : dict ss !! k = mkElement k <$> m !! k;
  ok_list : ∃ ns, rep (zsl ss) ns ∧ elems ns = zsorted m
}.

Lemma Make_ok : zset_ok ZSet.Make ∅.
Proof.
  split; [apply map_Forall_empty| |].
  - intros k. simpl. by rewrite !lookup_empty.
  - exists []. split; [apply rep_empty|]. reflexivity.
Qed.

(** Scores placed by the skip list and by the map agree after an insertion. *)
Lemma insert_ok sl m k s r :
  proper_map m → proper s → m !! k = None → (∃ ns, rep sl ns ∧ elems ns = zsorted m) →
  ∃ sl' id, insert sl k s r = Ret (sl', id) ∧ ∃ ns, rep sl' ns ∧ elems ns = zsorted (<[k := s]> m).
Proof.
  intros Hm Hs Hk (ns & Hr & He). pose proof (zsorted_lt m Hm) as Hl. pose proof (zsorted_proper m Hm) as Hp.
  destruct (insert_elems sl ns k s r Hr) as (sl' & id & pre & post & ns' & E & Hr' & Ens & Ens' & H1 & H2).
  { rewrite He. by apply falling_before. }
  exists sl', id. split; [done|]. exists ns'. split; [done|]. rewrite Ens'. rewrite He in Ens.
  assert (∀ e, e ∈ pre ++ post → proper_elt e ∧ Member e ≠ k) as Hin.
  { intros e Hin. rewrite <-Ens in Hin. split; [by rewrite Forall_forall in Hp; apply Hp|].
    apply elem_of_zsorted in Hin. intros <-. by rewrite Hk in Hin. }
  apply zsorted_unique.
  - by apply map_Forall_insert_2.
  - rewrite Ens in Hl. apply StronglySorted_app in Hl as (Hx & Hl1 & Hl2). apply StronglySorted_app. split_and!.
    + intros e f He1 Hf. apply elem_of_cons in Hf as [->|Hf]; [|by apply Hx].
      rewrite Forall_forall in H1. by apply H1.
    + done.
    + apply StronglySorted_cons. split; [|done]. rewrite Forall_forall in H2 |- *. intros f Hf.
      destruct (Hin f) as [Hpf Hmf]; [apply elem_of_app; by right|].
      destruct (elt_total f s k (proper_real _ Hpf)) as [Hb|[[_ Hb]|Hb]]; [apply Hs|by rewrite H2 in Hb|done|done].
  - rewrite <-Permutation_middle, <-Ens, to_elems_insert by done. constructor. apply merge_sort_Permutation.
Qed.

(** What a removal leaves, and that it finds its element. *)
Lemma remove_ok sl m k s :
  proper_map m → m !! k = Some s → (∃ ns, rep sl ns ∧ elems ns = zsorted m) →
  ∃ sl', remove sl k s = Ret (sl', true) ∧ ∃ ns, rep sl' ns ∧ elems ns = zsorted (delete k m).
Proof.
  intros Hm Hk (ns & Hr & He). pose proof (zsorted_lt m Hm) as Hl. pose proof (zsorted_proper m Hm) as Hp.
  pose proof (Hm _ _ Hk : proper s) as Hs. set (x := mkElement k s).
  destruct (remove_elems sl ns k s Hr) as (pre & post & sl' & ns' & Ens & H1 & H2 & Hrem).
  { rewrite He. by apply falling_before. }
  rewrite He in Ens. rewrite Forall_forall in H1, H2, Hp.
  assert (x ∈ post) as Hx.
  { assert (x ∈ zsorted m) as Hx by (by apply elem_of_zsorted). rewrite Ens in Hx.
    apply elem_of_app in Hx as [Hx|Hx]; [|done]. exfalso. apply (elt_lt_irrefl x); [apply Hs|]. by apply H1. }
  rewrite Ens in Hl, Hp. destruct post as [|y post]; [by apply not_elem_of_nil in Hx|].
  assert (y = x) as ->.
  { apply elem_of_cons in Hx as [->|Hx]; [done|]. exfalso.
    apply StronglySorted_app in Hl as (_ & _ & Hl). apply StronglySorted_cons in Hl as [Hy _].
    rewrite Forall_forall in Hy. specialize (Hy x Hx). unfold elt_lt in Hy. simpl in Hy.
    rewrite H2 in Hy; [done|left]. }
  simpl in Hrem. rewrite String.eqb_refl, (proj2 (SFeqb_eq s s Hs Hs) eq_refl) in Hrem. destruct Hrem as (E & Hr' & Ens').
  exists sl'. split; [done|]. exists ns'. split; [done|]. simpl in Ens'. rewrite drop_0 in Ens'. rewrite Ens'.
  apply zsorted_unique.
  - by apply map_Forall_delete.
  - apply StronglySorted_app in Hl as (Hxy & Hl1 & Hl2). apply StronglySorted_cons in Hl2 as [_ Hl2].
    apply StronglySorted_app. split_and!; [|done..]. intros e f He1 Hf. apply Hxy; [done|by right].
  - apply (Permutation_cons_inv (a := x)). transitivity (to_elems m); [|by apply to_elems_delete].
    rewrite Permutation_middle, <-Ens. apply merge_sort_Permutation.
Qed.

Lemma Add_ok ss m k s r : zset_ok ss m → proper s →
  ∃ ss', ZSet.Add ss k s r = Ret (ss', bool_decide (m !! k = None)) ∧ zset_ok ss' (<[k := s]> m).
Proof.
  intros [Hm Hd Hl] Hs. unfold ZSet.Add. rewrite Hd.
  assert (∀ sl, (∃ ns, rep sl ns ∧ elems ns = zsorted (<[k := s]> m)) →
    zset_ok (mkSortedSet (<[k := mkElement k s]> (dict ss)) sl) (<[k := s]> m)) as Hok.
  { intros sl Hsl. split; [by apply map_Forall_insert_2| |done]. intros k'. simpl.
    destruct (decide (k' = k)) as [->|Hne]; [by rewrite !lookup_insert_eq|]. rewrite !lookup_insert_ne by done. apply Hd. }
  destruct (m !! k) as [s0|] eqn:Ek.
  - rewrite bool_decide_false by done. simpl. pose proof (Hm _ _ Ek : proper s0) as Hs0.
    destruct (SFeqb s s0) eqn:Eq; simpl.
    + apply SFeqb_eq in Eq as <-; [|done..]. eexists. split; [done|]. apply Hok. by rewrite insert_id.
    + destruct (remove_ok (zsl ss) m k s0 Hm Ek Hl) as (sl1 & -> & Hl1). cbn [mbind outcome_bind fst].
      destruct (insert_ok sl1 (delete k m) k s r) as (sl2 & id & -> & Hl2); [by apply map_Forall_delete|done|by rewrite lookup_delete_eq|done|].
      cbn [mbind outcome_bind fst]. eexists. split; [done|]. apply Hok. by rewrite insert_delete_eq in Hl2.
  - rewrite bool_decide_true by done. simpl. destruct (insert_ok (zsl ss) m k s r Hm Hs Ek Hl) as (sl2 & id & -> & Hl2).
    cbn [mbind outcome_bind fst]. eexists. split; [done|]. by apply Hok.
Qed.

Lemma Remove_ok ss m k : zset_ok ss m →
  ∃ ss', ZSet.Remove ss k = Ret (ss', bool_decide (is_Some (m !! k))) ∧ zset_ok ss' (delete k m).
Proof.
  intros [Hm Hd Hl]. unfold ZSet.Remove. rewrite Hd. destruct (m !! k) as [s0|] eqn:Ek; simpl.
  - destruct (remove_ok (zsl ss) m k s0 Hm Ek Hl) as (sl1 & -> & Hl1). cbn [mbind outcome_bind fst].
    eexists. split; [done|]. split; [by apply map_Forall_delete| |done]. intros k'. simpl.
    destruct (decide (k' = k)) as [->|Hne]; [by rewrite !lookup_delete_eq|]. rewrite !lookup_delete_ne by done. apply Hd.
  - exists ss. split; [done|]. rewrite delete_id by done. by split.
Qed.

(** ** Visits *)

(** One pass over a list with a consumer that can end it. *)
Fixpoint pass {S} (consumer : Element → S → bool * S) (l : list Element) (s : S) : S :=
  match l with
  | [] => s
  | e :: l' => let '(goNext, s') := consumer e s in if goNext : bool then pass consumer l' s' else s'
  end.

Lemma pass_collect l acc : pass (λ e acc, (true, acc ++ [e])) l acc = acc ++ l.
Proof.
  revert acc. induction l as [|e l IH]; intros acc; simpl; [by rewrite app_nil_r|]. by rewrite IH, <-app_assoc.
Qed.

(** The nodes [l], visited forwards or backwards up to the end. *)
Definition path (ns : list cell) (desc : bool) (l : list cell) : Prop :=
  if desc then ∃ post, ns = reverse l ++ post else ∃ pre, ns = pre ++ l.

Lemma path_step sl ns desc c l : rep sl ns → path ns desc (c :: l) →
  ∃ nd, get_node sl (c_id c) = Ret nd ∧ elem nd = c_elem c ∧
    ZSet.step_node sl desc (c_id c) nd = Ret (c_id <$> head l) ∧ path ns desc l.
Proof.
  intros Hr. destruct desc; simpl.
  - intros [post ->]. rewrite reverse_cons, <-app_assoc in *. simpl in *.
    eexists. split_and!; [by apply (node_spec sl (reverse l) c post)|done| |by eexists].
    unfold back. simpl. by rewrite last_reverse.
  - intros [pre ->]. eexists. split_and!; [by apply (node_spec sl pre c l)|done| |].
    + pose proof (next_spec sl _ (pre ++ [c]) l Hr) as Hn. rewrite <-app_assoc, end_id_snoc in Hn.
      rewrite Hn by done. done.
    + exists (pre ++ [c]). by rewrite <-app_assoc.
Qed.

Section loops.
Context {S : Type} (consumer : Element → S → bool * S).

Lemma rank_loop_spec sl ns desc n l s : rep sl ns → path ns desc l → (n ≤ length l)%nat →
  ZSet.rank_loop consumer sl desc n (c_id <$> head l) s = Ret (pass consumer (elems (take n l)) s).
Proof.
  intros Hr. revert l s. induction n as [|n IH]; intros l s Hp Hn; [done|].
  destruct l as [|c l]; [simpl in Hn; lia|]. destruct (path_step _ _ _ _ _ Hr Hp) as (nd & E1 & E2 & E3 & Hp').
  cbn [ZSet.rank_loop head fmap option_fmap option_map]. rewrite E1. cbn [mbind outcome_bind]. rewrite E2. simpl.
  destruct (consumer (c_elem c) s) as [[] s']; simpl; [|done]. rewrite E3. cbn [mbind outcome_bind].
  apply IH; [done|]. simpl in Hn. lia.
Qed.

Lemma skip_loop_spec sl ns desc k l : rep sl ns → path ns desc l →
  ZSet.skip_loop sl desc k (c_id <$> head l) = Ret (c_id <$> head (drop k l)) ∧ path ns desc (drop k l).
Proof.
  intros Hr. revert l. induction k as [|k IH]; intros l Hp; [by rewrite drop_0; destruct l|].
  destruct l as [|c l]; [done|]. destruct (path_step _ _ _ _ _ Hr Hp) as (nd & E1 & E2 & E3 & Hp').
  cbn [ZSet.skip_loop head fmap option_fmap option_map drop]. rewrite E1. cbn [mbind outcome_bind]. rewrite E3.
  cbn [mbind outcome_bind]. by apply IH.
Qed.

Definition in_range (min max : Border) (e : Element) : bool := less min e && greater max e.

(** What the last loop of [ForEach] visits of the elements in front of it: the
    first one without a look at the borders, then as long as they hold. *)
Definition visited (min max : Border) (limit : Z) (l : list Element) : list Element :=
  let run := match l with [] => [] | e :: l' => e :: take (run_length (in_range min max) l') l' end in
  if limit <? 0 then run else take (Z.to_nat limit) run.

Lemma visited_nil min max limit : visited min max limit [] = [].
Proof. unfold visited. destruct (limit <? 0); [done|apply take_nil]. Qed.

(** One more step of a visit. *)
Lemma visited_cons min max limit e l :
  limit ≠ 0 →
  visited min max limit (e :: l) =
  e :: match l with
       | f :: _ => if in_range min max f then visited min max (if limit <? 0 then limit else limit - 1) l else []
       | [] => []
       end.
Proof.
  intros Hl. unfold visited. destruct l as [|f l]; simpl.
  - destruct (limit <? 0) eqn:E; [done|]. zlia. destruct (Z.to_nat limit) as [|n] eqn:En; [lia|]. simpl. by rewrite take_nil.
  - destruct (in_range min max f); simpl; (destruct (limit <? 0) eqn:E; [by rewrite ?E|]); zlia;
      (destruct (Z.to_nat limit) as [|n] eqn:En; [lia|]); simpl; [|by rewrite take_nil].
    replace (limit - 1 <? 0) with false by (symmetry; apply Z.ltb_ge; lia).
    by replace (Z.to_nat (limit - 1)) with n by lia.
Qed.

Lemma border_loop_spec fuel sl ns min max limit desc i l s :
  rep sl ns → path ns desc l → (length l < fuel)%nat → (limit <? 0 = false → i ≤ limit) →
  ZSet.border_loop consumer fuel sl min max limit desc i (c_id <$> head l) s =
  Ret (pass consumer (visited min max (if limit <? 0 then limit else limit - i) (elems l)) s).
Proof.
  intros Hr. revert l i s. induction fuel as [|fuel IH]; intros l i s Hp Hf Hi; [lia|]. cbn [ZSet.border_loop].
  destruct (negb ((i <? limit) || (limit <? 0))) eqn:E.
  { apply negb_true_iff, orb_false_iff in E as [E1 E2]. rewrite E2 in *. specialize (Hi eq_refl). zlia.
    replace (limit - i) with 0 by lia. done. }
  destruct l as [|c l]; [by rewrite visited_nil|].
  destruct (path_step _ _ _ _ _ Hr Hp) as (nd & E1 & E2 & E3 & Hp').
  change (c_id <$> head (c :: l)) with (Some (c_id c)). cbn beta iota. rewrite E1. cbn [mbind outcome_bind]. rewrite E2.
  change (elems (c :: l)) with (c_elem c :: elems l).
  assert (limit <? 0 = false → i < limit) as Hlt.
  { intros El. rewrite El, orb_false_r in E. apply negb_false_iff in E. zlia. }
  rewrite visited_cons.
  2: { destruct (limit <? 0) eqn:El; [|specialize (Hlt eq_refl)]; zlia. }
  cbn [pass]. destruct (consumer (c_elem c) s) as [[] s']; cbn [negb]; [|done].
  rewrite E3. cbn [mbind outcome_bind]. destruct l as [|f l]; [done|].
  change (c_id <$> head (f :: l)) with (Some (c_id f)). cbn beta iota.
  destruct (path_step _ _ _ _ _ Hr Hp') as (nf & F1 & F2 & _ & _). rewrite F1. cbn [mbind outcome_bind]. rewrite F2.
  rewrite <-negb_andb. change (elems (f :: l)) with (c_elem f :: elems l).
  unfold in_range at 1. destruct (less min (c_elem f) && greater max (c_elem f)); cbn [negb]; [|done].
  etransitivity; [apply (IH (f :: l) (i + 1) s' Hp'); [simpl in *; lia|intros El; specialize (Hlt El); lia]|].
  do 3 f_equal. destruct (limit <? 0) eqn:El; [by rewrite El|]. specialize (Hlt eq_refl).
  replace (limit - i <? 0) with false by (symmetry; apply Z.ltb_ge; lia). lia.
Qed.
End loops.

(** ** The operations *)

Definition listed (desc : bool) (m : gmap string float64) : list Element :=
  if desc then reverse (zsorted m) else zsorted m.

Lemma Len_ok ss m : zset_ok ss m → ZSet.Len ss = Z.of_nat (size m).
Proof.
  intros [_ Hd _]. unfold ZSet.Len. f_equal.
  rewrite <-(size_dom (D := gset string) (dict ss)), <-(size_dom (D := gset string) m). f_equal. apply set_eq. intros k.
  rewrite !elem_of_dom, Hd. destruct (m !! k) as [s|]; simpl; split; intros [x Hx]; done || eauto.
Qed.

Lemma path_from (ns : list cell) (desc : bool) start : (start ≤ length ns)%nat →
  path ns desc (drop start (if desc then reverse ns else ns)).
Proof.
  intros Hs. destruct desc; simpl.
  - exists (drop (length ns - start) ns). rewrite drop_reverse, reverse_involutive. by rewrite take_drop.
  - exists (take start ns). by rewrite take_drop.
Qed.

Lemma elems_listed (ns : list cell) m (desc : bool) : elems ns = zsorted m → elems (if desc then reverse ns else ns) = listed desc m.
Proof. unfold listed. intros <-. unfold elems. destruct desc; [by rewrite fmap_reverse|done]. Qed.

(** The cursor in front of the element of this rank. *)
Lemma start_node ss m (ns : list cell) start (desc : bool) : rep (zsl ss) ns → elems ns = zsorted m → zset_ok ss m →
  0 ≤ start < Z.of_nat (size m) →
  (if desc then
     if start >? 0 then getByRank (zsl ss) (ZSet.Len ss - start) else Ret (tail (zsl ss))
   else
     if start >? 0 then getByRank (zsl ss) (start + 1)
     else l ← get_level (zsl ss) 0 0; Ret (forward l)) =
  Ret (c_id <$> head (drop (Z.to_nat start) (if desc then reverse ns else ns))).
Proof.
  intros Hr He Hok Hs.
  assert (length ns = size m) as Hlen by (rewrite <-zsorted_length, <-He; unfold elems; by rewrite length_fmap).
  assert (∀ i c, ns !! i = Some c → getByRank (zsl ss) (Z.of_nat i + 1) = Ret (Some (c_id c))) as Hget.
  { intros i c Hi. pose proof (lookup_lt_Some _ _ _ Hi). rewrite <-(take_drop_middle _ _ _ Hi) in Hr.
    pose proof (getByRank_spec _ _ _ _ Hr) as Hg. rewrite length_take in Hg. by rewrite Nat.min_l in Hg by lia. }
  destruct desc, (start >? 0) eqn:E; zlia.
  - rewrite (Len_ok _ _ Hok). destruct (lookup_lt_is_Some_2 ns (size m - Z.to_nat start - 1)) as [c Hc]; [lia|].
    replace (Z.of_nat (size m) - start) with (Z.of_nat (size m - Z.to_nat start - 1) + 1) by lia.
    rewrite (Hget _ _ Hc). do 2 f_equal. rewrite drop_reverse, head_reverse, Hlen.
    replace (size m - Z.to_nat start)%nat with (S (size m - Z.to_nat start - 1)) by lia.
    by rewrite (take_S_r _ _ _ Hc), last_snoc.
  - replace start with 0 by lia. rewrite drop_0, head_reverse, (rep_tail _ _ Hr). done.
  - destruct (lookup_lt_is_Some_2 ns (Z.to_nat start)) as [c Hc]; [lia|].
    replace (start + 1) with (Z.of_nat (Z.to_nat start) + 1) by lia. rewrite (Hget _ _ Hc).
    by rewrite (drop_S _ _ _ Hc).
  - replace start with 0 by lia. rewrite drop_0. pose proof (next_spec _ _ [] ns Hr eq_refl) as Hn.
    unfold end_id in Hn. simpl in Hn. by rewrite Hn.
Qed.

Lemma ForEachByRank_ok {S} (consumer : Element → S → bool * S) ss m start stop (desc : bool) s :
  zset_ok ss m → 0 ≤ start < Z.of_nat (size m) → start ≤ stop ≤ Z.of_nat (size m) →
  ZSet.ForEachByRank consumer ss start stop desc s =
  Ret (pass consumer (take (Z.to_nat (stop - start)) (drop (Z.to_nat start) (listed desc m))) s).
Proof.
  intros Hok Hs He. pose proof (ok_list _ _ Hok) as (ns & Hr & Hel). unfold ZSet.ForEachByRank. cbv zeta.
  assert (length ns = size m) as Hlen by (rewrite <-zsorted_length, <-Hel; unfold elems; by rewrite length_fmap).
  rewrite (start_node ss m ns start desc Hr Hel Hok Hs), (Len_ok _ _ Hok).
  replace ((start <? 0) || (start >=? Z.of_nat (size m))) with false.
  2: { symmetry. apply orb_false_iff. rewrite Z.geb_leb. split; [apply Z.ltb_ge|apply Z.leb_gt]; lia. }
  replace ((stop <? start) || (stop >? Z.of_nat (size m))) with false.
  2: { symmetry. apply orb_false_iff. rewrite Z.gtb_ltb. split; apply Z.ltb_ge; lia. }
  cbn [mbind outcome_bind]. rewrite (rank_loop_spec consumer _ ns).
  - f_equal. f_equal. rewrite <-(elems_listed ns m desc Hel). unfold elems. by rewrite fmap_take, fmap_drop.
  - done.
  - apply path_from. lia.
  - rewrite length_drop. destruct desc; rewrite ?length_reverse; lia.
Qed.

Lemma RangeByRank_ok ss m start stop (desc : bool) :
  zset_ok ss m → 0 ≤ start < Z.of_nat (size m) → start ≤ stop ≤ Z.of_nat (size m) →
  Z.of_nat (size m) ≤ 2 ^ 32 →
  ZSet.RangeByRank ss start stop desc = Ret (take (Z.to_nat (stop - start)) (drop (Z.to_nat start) (listed desc m))).
Proof.
  intros Hok Hs He Hsz. unfold ZSet.RangeByRank, make_slice.
  replace ((stop - start <? 0) || ((stop - start) * 8 >? 281474976710656)) with false.
  2: { symmetry. apply orb_false_iff. rewrite Z.gtb_ltb. split; apply Z.ltb_ge; lia. }
  cbn [mbind outcome_bind]. rewrite (ForEachByRank_ok _ _ m) by done. by rewrite pass_collect.
Qed.

(** The rank of a member other than the empty one. *)
Lemma GetRank_ok ss m k s (desc : bool) : zset_ok ss m → m !! k = Some s → k ≠ "" →
  ∃ i, zsorted m !! i = Some (mkElement k s) ∧
    ZSet.GetRank ss k desc = Ret (if desc then Z.of_nat (size m) - (Z.of_nat i + 1) else Z.of_nat i).
Proof.
  intros Hok Hk Hne. pose proof (ok_list _ _ Hok) as (ns & Hr & Hel). pose proof (ok_proper _ _ Hok) as Hm.
  pose proof (zsorted_lt m Hm) as Hl. pose proof (zsorted_proper m Hm) as Hp.
  assert (mkElement k s ∈ zsorted m) as Hin by (by apply elem_of_zsorted).
  apply list_elem_of_lookup in Hin as [i Hi]. exists i. split; [done|].
  assert (length ns = size m) as Hlen by (rewrite <-zsorted_length, <-Hel; unfold elems; by rewrite length_fmap).
  rewrite <-Hel in Hi. unfold elems in Hi. apply list_lookup_fmap_Some in Hi as (c & Hx & Hc).
  pose proof (lookup_lt_Some _ _ _ Hc) as Hlt.
  rewrite <-(take_drop_middle _ _ _ Hc) in Hr, Hel. set (pre := take i ns) in *. set (post := drop (S i) ns) in *.
  unfold elems in Hel. rewrite fmap_app, fmap_cons, <-Hx in Hel. rewrite <-Hel in Hl, Hp.
  apply StronglySorted_app in Hl as (Hpre & _ & Hl). apply StronglySorted_cons in Hl as [Hpost _].
  rewrite Forall_app, Forall_cons in Hp. destruct Hp as (Hp1 & Hp2 & Hp3). rewrite Forall_forall in Hpost, Hp1, Hp3.
  unfold ZSet.GetRank. rewrite (ok_dict _ _ Hok), Hk. cbn [fmap option_fmap option_map Score].
  assert (∀ e, e ∈ c_elem <$> pre → elt_lt e (mkElement k s)) as Hb by (intros e Hin; apply Hpre; [done|left]).
  rewrite (getRank_spec (zsl ss) pre c post k s Hr).
  - cbn [mbind outcome_bind]. f_equal. rewrite (rep_len _ _ Hr). unfold pre, post in *.
    rewrite take_drop_middle by done. rewrite length_take, Hlen. destruct desc; lia.
  - apply (cut_of (λ e, not_after e s k)).
    + apply Forall_app. split.
      * apply Forall_forall. intros x Hx'. specialize (Hb (c_elem x) (list_elem_of_fmap_2 _ _ _ Hx')).
        unfold elt_lt in Hb. simpl in Hb. specialize (Hp1 (c_elem x) (list_elem_of_fmap_2 _ _ _ Hx')).
        rewrite before_key in Hb by (by apply proper_real || apply Hp2).
        apply not_after_key; [by apply proper_real|apply Hp2|]. destruct Hb as [Hb|[Hb1 Hb2]]; [by left|right; split; [done|]].
        unfold string_leb. apply negb_true_iff. destruct (string_ltb k (Member (c_elem x))) eqn:E; [|done].
        pose proof (string_ltb_trans _ _ _ Hb2 E) as H3. by rewrite string_ltb_irrefl in H3.
      * constructor; [|constructor]. rewrite <-Hx. apply not_after_key; [apply Hp2|apply Hp2|]. right. split; [done|].
        unfold string_leb. simpl. by rewrite string_ltb_irrefl.
    + apply Forall_forall. intros x Hx'. specialize (Hpost (c_elem x) (list_elem_of_fmap_2 _ _ _ Hx')).
      specialize (Hp3 (c_elem x) (list_elem_of_fmap_2 _ _ _ Hx')). unfold elt_lt in Hpost.
      rewrite before_key in Hpost by (by apply proper_real || apply Hp3 || apply Hp2). simpl in Hpost.
      apply not_true_iff_false. rewrite not_after_key by (by apply proper_real || apply Hp2).
      intros [H1|[H1 H2]]; destruct Hpost as [H3|[H3 H4]].
      * by pose proof (key_lt_irrefl _ (key_lt_trans _ _ _ H1 H3)).
      * rewrite H3 in H1. by apply key_lt_irrefl in H1.
      * rewrite H1 in H3. by apply key_lt_irrefl in H3.
      * unfold string_leb in H2. by rewrite H4 in H2.
  - by rewrite <-Hx.
  - done.
  - apply Forall_forall. intros x Hx' E. specialize (Hb (c_elem x) (list_elem_of_fmap_2 _ _ _ Hx')).
    assert (c_elem x ∈ zsorted m) as Hz by (rewrite <-Hel; apply elem_of_app; left; by apply list_elem_of_fmap_2).
    apply elem_of_zsorted in Hz. rewrite E, Hk in Hz. injection Hz as Hz.
    apply (elt_lt_irrefl (mkElement k s)); [apply Hp2|]. destruct (c_elem x). simpl in *. by subst.
Qed.

(** ** Ranges between borders *)

(** A border of strings orders the elements only while they have one score. *)
Definition border_ok (b : Border) (m : gmap string float64) : Prop :=
  match b with
  | ScoreB _ => True
  | LexB _ => ∀ k k' s s', m !! k = Some s → m !! k' = Some s' → s = s'
  end.

Lemma SFcompare_nan_r a : SFcompare a S754_nan = None.
Proof. by destruct a as [[]|[]| |[]]. Qed.

(** Comparisons with a number go with the order, whatever the number is. *)
Lemma score_falls v e f : real e → real f → elt_lt e f →
  (SFltb (Score f) v = true → SFltb (Score e) v = true) ∧
  (SFleb (Score f) v = true → SFleb (Score e) v = true) ∧
  (SFltb v (Score f) = false → SFltb v (Score e) = false) ∧
  (SFleb v (Score f) = false → SFleb v (Score e) = false).
Proof.
  unfold real. intros He Hf Hef. unfold elt_lt in Hef. rewrite before_key in Hef by done.
  destruct (is_nan v) eqn:Hv.
  { destruct v; try done. unfold SFltb, SFleb. by rewrite !SFcompare_nan_r. }
  assert (¬ key_lt (score_key (Score f)) (score_key (Score e))) as Hle.
  { intros H. destruct Hef as [H'|[H' _]]; [by pose proof (key_lt_irrefl _ (key_lt_trans _ _ _ H H'))|].
    rewrite H' in H. by apply key_lt_irrefl in H. }
  rewrite <-!not_true_iff_false, !SFltb_key, !SFleb_key by done.
  destruct (key_total (score_key (Score e)) (score_key (Score f))) as [H|[H|H]]; [|by rewrite H|done].
  split_and!; intros H1; [by eapply key_lt_trans|intros H2|intros H2|intros H2].
  - by apply H1; eapply key_lt_trans.
  - by apply H1; eapply key_lt_trans.
  - apply H1. intros H3. apply H2. by eapply key_lt_trans.
Qed.

(** So do comparisons of members, among elements of one score. *)
Lemma member_falls v e f : proper_elt e → proper_elt f → Score e = Score f → elt_lt e f →
  (string_ltb (Member f) v = true → string_ltb (Member e) v = true) ∧
  (string_leb (Member f) v = true → string_leb (Member e) v = true) ∧
  (string_ltb v (Member f) = false → string_ltb v (Member e) = false) ∧
  (string_leb v (Member f) = false → string_leb v (Member e) = false).
Proof.
  intros [He _] [Hf _] Hs Hef. unfold elt_lt in Hef. rewrite before_key in Hef by done. rewrite Hs in Hef.
  destruct Hef as [H|[_ H]]; [by apply key_lt_irrefl in H|]. unfold string_leb.
  rewrite !negb_true_iff, !negb_false_iff, <-!not_true_iff_false.
  split_and!; intros H1; [|intros H2; apply H1|intros H2; apply H1|]; by eapply string_ltb_trans.
Qed.

Lemma border_falls b m : proper_map m → border_ok b m →
  falling (greater b) (zsorted m) ∧ falling (λ e, negb (less b e)) (zsorted m).
Proof.
  intros Hm Hb.
  assert (∀ P, (∀ e f, e ∈ zsorted m → f ∈ zsorted m → elt_lt e f → P f = true → P e = true) → falling P (zsorted m)) as Hgen.
  { intros P HP. pose proof (zsorted_lt m Hm) as Hs. unfold falling.
    assert (∀ e, e ∈ zsorted m → e ∈ zsorted m) as Hin by done. revert Hs Hin. generalize (zsorted m) at 1 2 4 as l.
    induction l as [|e l IH]; intros Hs Hin; [constructor|]. apply StronglySorted_cons in Hs as [He Hs].
    apply StronglySorted_cons. split; [|apply IH; [done|]; intros; apply Hin; by right].
    rewrite Forall_forall in He |- *. intros f Hf. apply HP; [apply Hin; by left|apply Hin; by right|by apply He]. }
  pose proof (zsorted_proper m Hm) as Hp. rewrite Forall_forall in Hp.
  split; apply Hgen; intros e f He Hf Hef; destruct b as [b|b]; cbn [greater less]; unfold score_greater, lex_greater, score_less, lex_less;
    (destruct (_ =? _); [done|]); (destruct (_ =? _); [done|]).
  - destruct (score_falls (sb_Value b) e f) as (H1 & H2 & _); [by apply proper_real, Hp..|done|]. by destruct (sb_Exclude b).
  - assert (Score e = Score f) as Hs by (apply elem_of_zsorted in He, Hf; by eapply Hb).
    destruct (member_falls (lb_Value b) e f) as (H1 & H2 & _); [auto..|]. by destruct (lb_Exclude b).
  - destruct (score_falls (sb_Value b) e f) as (_ & _ & H1 & H2); [by apply proper_real, Hp..|done|]. rewrite !negb_true_iff. by destruct (sb_Exclude b).
  - assert (Score e = Score f) as Hs by (apply elem_of_zsorted in He, Hf; by eapply Hb).
    destruct (member_falls (lb_Value b) e f) as (_ & _ & H1 & H2); [auto..|]. rewrite !negb_true_iff. by destruct (lb_Exclude b).
Qed.

(** The elements between two borders, in listing order. *)
Definition between (min max : Border) (l : list Element) : list Element := filter (λ e, in_range min max e = true) l.

Lemma run_length_app P a b : Forall (λ e, P e = true) a →
  run_length P (a ++ b) = (length a + run_length P b)%nat.
Proof. induction 1 as [|e a He Ha IH]; simpl; [done|]. by rewrite He, IH. Qed.

Lemma run_length_stop P l : (∀ e, head l = Some e → P e = false) → run_length P l = 0%nat.
Proof. destruct l as [|e l]; simpl; [done|]. intros H. by rewrite H. Qed.

Lemma filter_none {A} (P : A → Prop) `{!∀ x, Decision (P x)} l : Forall (λ x, ¬ P x) l → filter P l = [].
Proof. induction 1 as [|x l Hx _ IH]; [done|]. by rewrite filter_cons_False. Qed.

Lemma filter_reverse {A} (P : A → Prop) `{!∀ x, Decision (P x)} l : filter P (reverse l) = reverse (filter P l).
Proof.
  induction l as [|x l IH]; [done|]. rewrite reverse_cons, filter_app, IH.
  destruct (decide (P x)); [rewrite !filter_cons_True by done|rewrite !filter_cons_False by done]; simpl.
  - by rewrite reverse_cons.
  - by rewrite app_nil_r.
Qed.

(** A test that falls along a listing cuts it in two. *)
Lemma falling_cut P l : falling P l →
  ∃ pre post, l = pre ++ post ∧ Forall (λ e, P e = true) pre ∧ Forall (λ e, P e = false) post.
Proof.
  unfold falling. induction 1 as [|e l _ IH He]; [by exists [], []|]. destruct IH as (pre & post & -> & H1 & H2).
  destruct (P e) eqn:E; [exists (e :: pre), post; split_and!; [done|by constructor|done]|].
  exists [], (e :: pre ++ post). split_and!; [done|constructor|]. constructor; [done|].
  eapply Forall_impl; [exact He|]. simpl. intros f Hf. destruct (P f); [|done]. by specialize (Hf eq_refl).
Qed.

Lemma falling_sub P a b c : falling P (a ++ b ++ c) → falling P b.
Proof. unfold falling. intros H. apply StronglySorted_app in H as (_ & _ & H). by apply StronglySorted_app in H as (_ & H & _). Qed.

(** The elements between the borders follow those below the lower one. *)
Lemma between_up min max l :
  falling (greater max) l → falling (λ e, negb (less min e)) l →
  ∃ a c, l = a ++ between min max l ++ c ∧ Forall (λ e, less min e = false) a ∧
    Forall (λ e, less min e = true) (between min max l ++ c) ∧ Forall (λ e, greater max e = false) c.
Proof.
  intros Hmax Hmin. destruct (falling_cut _ _ Hmin) as (a & post & -> & H1 & H2).
  rewrite <-(app_nil_r post) in Hmax. apply falling_sub in Hmax.
  destruct (falling_cut _ _ Hmax) as (M & c & -> & H3 & H4).
  assert (between min max (a ++ M ++ c) = M) as ->.
  { unfold between. rewrite !filter_app, (filter_none _ a), (filter_all _ M), (filter_none _ c); [simpl; by rewrite app_nil_r|..].
    - eapply Forall_impl; [exact H4|]. unfold in_range. intros e ->. by rewrite andb_false_r.
    - rewrite Forall_app in H2. destruct H2 as [H2 _]. rewrite Forall_forall in H2, H3 |- *. intros e He.
      unfold in_range. rewrite (H3 e He), andb_true_r. by apply negb_false_iff, H2.
    - eapply Forall_impl; [exact H1|]. unfold in_range. intros e E. apply negb_true_iff in E. by rewrite E. }
  exists a, c. split_and!; [done| | |done].
  - eapply Forall_impl; [exact H1|]. intros e. apply negb_true_iff.
  - eapply Forall_impl; [exact H2|]. intros e. apply negb_false_iff.
Qed.

(** They come last among those under the upper one. *)
Lemma between_down min max l :
  falling (greater max) l → falling (λ e, negb (less min e)) l →
  ∃ a c, l = a ++ between min max l ++ c ∧ Forall (λ e, less min e = false) a ∧
    Forall (λ e, greater max e = true) (a ++ between min max l) ∧ Forall (λ e, greater max e = false) c.
Proof.
  intros Hmax Hmin. destruct (falling_cut _ _ Hmax) as (pre & c & -> & H1 & H2).
  apply (falling_sub _ []) in Hmin. destruct (falling_cut _ _ Hmin) as (a & M & -> & H3 & H4). rewrite <-app_assoc.
  assert (between min max (a ++ M ++ c) = M) as ->.
  { unfold between. rewrite !filter_app, (filter_none _ a), (filter_all _ M), (filter_none _ c); [simpl; by rewrite app_nil_r|..].
    - eapply Forall_impl; [exact H2|]. unfold in_range. intros e ->. by rewrite andb_false_r.
    - rewrite Forall_app in H1. destruct H1 as [_ H1]. rewrite Forall_forall in H1, H4 |- *. intros e He.
      unfold in_range. rewrite (H1 e He), andb_true_r. by apply negb_false_iff, H4.
    - eapply Forall_impl; [exact H3|]. unfold in_range. intros e E. apply negb_true_iff in E. by rewrite E. }
  exists a, c. split_and!; [done| |done|done].
  eapply Forall_impl; [exact H3|]. intros e. apply negb_true_iff.
Qed.

(** The visit that starts inside a run of elements between the borders. *)
Lemma visited_run min max limit F c k :
  Forall (λ e, in_range min max e = true) F → (∀ e, head c = Some e → in_range min max e = false) → (k < length F)%nat →
  visited min max limit (drop k (F ++ c)) = if limit <? 0 then drop k F else take (Z.to_nat limit) (drop k F).
Proof.
  intros HF Hc Hk. rewrite drop_app_le by lia. pose proof (Forall_drop _ k _ HF) as HD.
  assert (drop k F ≠ []) as Hne by (intros E; apply (f_equal length) in E; rewrite length_drop in E; simpl in E; lia).
  destruct (drop k F) as [|e D]; [done|]. apply Forall_cons in HD as [_ HD]. unfold visited. simpl.
  by rewrite run_length_app, (run_length_stop _ c), Nat.add_0_r, take_app_length by done.
Qed.

Lemma cut_unique (P : Element → bool) v a b a' b' :
  a ++ b = a' ++ b' →
  Forall (λ e, P e = v) a → Forall (λ e, P e = negb v) b →
  Forall (λ e, P e = v) a' → Forall (λ e, P e = negb v) b' → a = a' ∧ b = b'.
Proof.
  revert a'. induction a as [|e a IH]; intros [|e' a'] E Ha Hb Ha' Hb'; simpl in E; [done|..].
  - subst b. apply Forall_cons in Hb as [Hb _], Ha' as [Ha' _]. rewrite Ha' in Hb. by destruct v.
  - subst b'. apply Forall_cons in Ha as [Ha _], Hb' as [Hb' _]. rewrite Ha in Hb'. by destruct v.
  - injection E as -> E. apply Forall_cons in Ha as [_ Ha], Ha' as [_ Ha'].
    destruct (IH a' E Ha Hb Ha' Hb') as [-> ->]. done.
Qed.

Lemma between_in_range min max l : Forall (λ e, in_range min max e = true) (between min max l).
Proof. apply Forall_forall. intros e He. by apply list_elem_of_filter in He as [He _]. Qed.

(** Both borders of a range fit the set. *)
Definition borders_ok (min max : Border) (m : gmap string float64) : Prop := border_ok min m ∧ border_ok max m.

(** The cursor of [ForEach]: in front of it are the elements between the borders
    and what follows them. *)
Lemma first_node ss m ns min max inter (desc : bool) :
  zset_ok ss m → rep (zsl ss) ns → elems ns = zsorted m → borders_ok min max m → isIntersected min max = Ret inter →
  ∃ front c, path ns desc front ∧ elems front = between min max (listed desc m) ++ c ∧
    (∀ e, head c = Some e → in_range min max e = false) ∧
    (if desc then getLastInRange (zsl ss) min max else getFirstInRange (zsl ss) min max) =
      Ret (if inter || bool_decide (between min max (listed desc m) = []) then None else c_id <$> head front).
Proof.
  intros Hok Hr He [Hb1 Hb2] Hi. pose proof (ok_proper _ _ Hok) as Hm.
  destruct (border_falls _ _ Hm Hb1) as [_ Hmin], (border_falls _ _ Hm Hb2) as [Hmax _].
  rewrite <-He in Hmin, Hmax.
  assert (∀ c : list Element, Forall (λ e, in_range min max e = false) c → ∀ e, head c = Some e → in_range min max e = false) as Hhd.
  { intros [|x c] Hc e; simpl; [done|]. intros [= <-]. by apply Forall_cons in Hc as [Hc _]. }
  destruct desc; simpl.
  - destruct (getLastInRange_spec _ _ _ _ _ Hr Hi Hmin Hmax) as (pre & post & Ens & H1 & H2 & ->).
    destruct (between_down _ _ _ Hmax Hmin) as (a & c & El & H3 & H4 & H5). rewrite He in El, H4. set (F := between _ _ _) in *.
    unfold between. rewrite filter_reverse. fold (between min max (zsorted m)). fold F.
    assert (elems pre = a ++ F) as Epre.
    { apply (cut_unique (greater max) true (elems pre) (elems post) (a ++ F) c); [|by apply Forall_fmap..|done|done].
      rewrite <-app_assoc, <-El, <-He, Ens. unfold elems. by rewrite fmap_app. }
    exists (reverse pre), (reverse a). split_and!.
    + exists post. by rewrite reverse_involutive.
    + unfold elems in *. by rewrite fmap_reverse, Epre, reverse_app.
    + apply Hhd, Forall_reverse. eapply Forall_impl; [exact H3|]. unfold in_range. by intros e ->.
    + f_equal. destruct inter; [done|]. simpl. rewrite head_reverse. destruct F as [|f F' _] eqn:EF using rev_ind.
      * rewrite bool_decide_true by done. destruct (last pre) as [x|] eqn:Ex; [|done]. rewrite app_nil_r in Epre.
        apply last_Some_elem_of in Ex. assert (c_elem x ∈ a) as Hin by (rewrite <-Epre; by apply list_elem_of_fmap_2).
        rewrite Forall_forall in H3. by rewrite H3.
      * rewrite bool_decide_false by (rewrite reverse_snoc; done).
        destruct pre as [|x pre _] using rev_ind; [by destruct a, F'|]. rewrite last_snoc.
        unfold elems in Epre. rewrite fmap_app, app_assoc in Epre. simpl in Epre. apply app_inj_tail in Epre as [_ ->].
        pose proof (between_in_range min max (zsorted m)) as HF. fold F in HF. rewrite EF, Forall_app in HF. destruct HF as [_ HF].
        apply Forall_cons in HF as [HF _]. apply andb_true_iff in HF as [-> _]. done.
  - destruct (getFirstInRange_spec _ _ _ _ _ Hr Hi Hmin Hmax) as (pre & post & Ens & H1 & H2 & ->).
    destruct (between_up _ _ _ Hmax Hmin) as (a & c & El & H3 & H4 & H5). rewrite He in El, H4. set (F := between _ _ _) in *.
    assert (elems post = F ++ c) as Epost.
    { apply (cut_unique (less min) false (elems pre) (elems post) a (F ++ c)); [|by apply Forall_fmap..|done|done].
      rewrite <-El, <-He, Ens. unfold elems. by rewrite fmap_app. }
    exists post, c. split_and!; [by exists pre|done| |].
    + apply Hhd. eapply Forall_impl; [exact H5|]. unfold in_range. intros e ->. apply andb_false_r.
    + f_equal. destruct inter; [done|]. simpl. destruct F as [|f F'] eqn:EF.
      * rewrite bool_decide_true by done. destruct post as [|x post]; [done|]. simpl. simpl in Epost. subst c.
        apply Forall_cons in H5 as [H5 _]. by rewrite H5.
      * rewrite bool_decide_false by done. destruct post as [|x post]; [done|]. simpl. injection Epost as -> _.
        pose proof (between_in_range min max (zsorted m)) as HF. fold F in HF. rewrite EF in HF.
        apply Forall_cons in HF as [HF _]. apply andb_true_iff in HF as [_ ->]. done.
Qed.

(** Every range, exactly. *)
Lemma Range_exact ss m min max inter offset limit (desc : bool) :
  zset_ok ss m → borders_ok min max m → isIntersected min max = Ret inter → limit ≠ 0 → 0 ≤ offset →
  ∃ c, (∀ e, head c = Some e → in_range min max e = false) ∧
    (∃ a, listed desc m = a ++ between min max (listed desc m) ++ c) ∧
    ZSet.Range ss min max offset limit desc =
      Ret (if inter || bool_decide (between min max (listed desc m) = []) then []
           else visited min max limit (drop (Z.to_nat offset) (between min max (listed desc m) ++ c))).
Proof.
  intros Hok Hb Hi Hl Ho. pose proof (ok_list _ _ Hok) as (ns & Hr & He).
  destruct (first_node ss m ns min max inter desc Hok Hr He Hb Hi) as (front & c & Hp & Ef & Hc & Hfirst).
  exists c. split_and!; [done| |].
  { rewrite <-Ef. rewrite <-(elems_listed ns m desc He). destruct desc; simpl in Hp; destruct Hp as [x ->].
    - exists (elems (reverse x)). unfold elems. rewrite reverse_app, reverse_involutive. by rewrite fmap_app.
    - exists (elems x). unfold elems. by rewrite fmap_app. }
  unfold ZSet.Range, ZSet.ForEach. replace ((limit =? 0) || (offset <? 0)) with false.
  2: { symmetry. apply orb_false_iff. split; [by apply Z.eqb_neq|apply Z.ltb_ge; lia]. }
  rewrite Hfirst. cbn [mbind outcome_bind].
  assert (∀ l s, path ns desc l → ZSet.border_loop (λ e acc, (true, acc ++ [e])) (walk_fuel (zsl ss)) (zsl ss) min max limit desc 0
      (c_id <$> head l) s = Ret (s ++ visited min max limit (elems l))) as Hloop.
  { intros l s Hpl. rewrite (border_loop_spec _ _ _ ns) by
      (done || (intros E; zlia) || (unfold walk_fuel; pose proof (rep_size _ _ Hr); destruct desc; destruct Hpl as [x ->];
        rewrite ?length_app, ?length_reverse in *; lia)).
    rewrite pass_collect. do 2 f_equal. destruct (limit <? 0); [done|]. by rewrite Z.sub_0_r. }
  destruct (inter || _).
  - change None with (c_id <$> head ([] : list cell)).
    assert (path ns desc []) as Hnil.
    { destruct desc; [by exists ns|by exists ns; rewrite app_nil_r]. }
    destruct (skip_loop_spec (zsl ss) ns desc (Z.to_nat offset) [] Hr Hnil) as [-> _].
    rewrite drop_nil. cbn [mbind outcome_bind]. by rewrite Hloop, visited_nil.
  - destruct (skip_loop_spec (zsl ss) ns desc (Z.to_nat offset) front Hr Hp) as [-> Hp'].
    cbn [mbind outcome_bind]. rewrite Hloop by done. unfold elems in *. by rewrite fmap_drop, Ef.
Qed.

(** The elements [offset], [offset + 1], ... of a list, at most [limit] of them if
    [limit] is not negative. *)
Definition window (offset limit : Z) (l : list Element) : list Element :=
  let l := drop (Z.to_nat offset) l in if limit <? 0 then l else take (Z.to_nat limit) l.

(** Borders that [isIntersected] judges by their values. *)
Definition plain (b : Border) : bool :=
  match b with ScoreB b => (sb_Inf b =? 0) && negb (is_nan (sb_Value b)) | LexB b => lb_Inf b =? 0 end.

Definition fitting (min max : Border) : bool :=
  match isIntersected min max with
  | Ret inter => negb inter || (plain min && plain max)
  | _ => false
  end.

Lemma intersected_empty min max e :
  isIntersected min max = Ret true → plain min = true → plain max = true → is_nan (Score e) = false →
  in_range min max e = false.
Proof.
  destruct min as [[i v x]|[i v x]], max as [[j w y]|[j w y]]; simpl; try done; intros [= H] Hmin Hmax He;
    unfold score_isIntersected, lex_isIntersected in H; simpl in H.
  - apply andb_true_iff in Hmin as [->%Z.eqb_eq Hv%negb_true_iff], Hmax as [->%Z.eqb_eq Hw%negb_true_iff].
    unfold in_range, less, greater, score_less, score_greater, lex_less, lex_greater. simpl. apply not_true_iff_false. rewrite andb_true_iff. intros [H1 H2].
    apply orb_true_iff in H as [H|H].
    + apply SFltb_key in H; [|done..].
      destruct x, y; rewrite ?SFltb_key, ?SFleb_key in H1 by done; rewrite ?SFltb_key, ?SFleb_key in H2 by done;
        unfold key_lt in *; lia.
    + apply andb_true_iff in H as [H Hx]. apply SFeqb_key in H; [|done..].
      destruct x, y; rewrite ?SFltb_key, ?SFleb_key in H1 by done; rewrite ?SFltb_key, ?SFleb_key in H2 by done;
        rewrite H in *; unfold key_lt in *; try lia; done.
  - apply Z.eqb_eq in Hmin as ->, Hmax as ->. simpl in H. unfold in_range, less, greater, score_less, score_greater, lex_less, lex_greater. simpl. apply not_true_iff_false.
    rewrite andb_true_iff. intros [H1 H2]. set (k := Member e) in *.
    assert (x = true ∨ y = true → string_ltb v w = true) as Hexc.
    { unfold string_leb in *. intros [->| ->]; [destruct y|destruct x]; rewrite ?negb_true_iff in *;
        try (by eapply string_ltb_trans).
      - destruct (string_ltb k w) eqn:E; [by eapply string_ltb_trans|]. by rewrite <-(string_ltb_total _ _ E H2).
      - destruct (string_ltb v k) eqn:E; [by eapply string_ltb_trans|]. by rewrite (string_ltb_total _ _ E H1). }
    apply orb_true_iff in H as [H|H].
    + destruct x, y; try (specialize (Hexc ltac:(auto)); pose proof (string_ltb_trans _ _ _ H Hexc) as E;
        by rewrite string_ltb_irrefl in E).
      unfold string_leb in *. rewrite !negb_true_iff in *.
      destruct (string_ltb k v) eqn:E1; [done|]. destruct (string_ltb v k) eqn:E2.
      * by rewrite (string_ltb_trans _ _ _ H E2) in H2.
      * rewrite (string_ltb_total _ _ E2 E1) in H. by rewrite H in H2.
    + apply andb_true_iff in H as [->%String.eqb_eq H]. apply orb_true_iff in H. rewrite string_ltb_irrefl in Hexc.
      by specialize (Hexc H).
Qed.

Lemma listed_proper m e desc : proper_map m → e ∈ listed desc m → proper_elt e.
Proof.
  intros Hm He. pose proof (zsorted_proper m Hm) as Hp. rewrite Forall_forall in Hp. apply Hp.
  unfold listed in He. destruct desc; [by apply elem_of_reverse|done].
Qed.

(** The range one expects: between borders that fit each other, from an offset
    within the range. *)
Lemma Range_ok ss m min max offset limit (desc : bool) :
  zset_ok ss m → borders_ok min max m → fitting min max = true → 0 ≤ offset →
  (offset < Z.of_nat (length (between min max (listed desc m))) ∨ between min max (listed desc m) = []) →
  ZSet.Range ss min max offset limit desc = Ret (window offset limit (between min max (listed desc m))).
Proof.
  intros Hok Hb Hf Ho Hlen. destruct (decide (limit = 0)) as [->|Hl]; [done|]. unfold fitting in Hf.
  destruct (isIntersected min max) as [inter| |] eqn:Hi; try done.
  destruct (Range_exact ss m min max inter offset limit desc Hok Hb Hi Hl Ho) as (c & Hc & _ & ->). f_equal.
  assert (inter = true → between min max (listed desc m) = []) as Hint.
  { intros ->. simpl in Hf. apply andb_true_iff in Hf as [Hp1 Hp2]. apply filter_none, Forall_forall. intros e He.
    rewrite (intersected_empty min max e Hi Hp1 Hp2); [done|]. apply (listed_proper m e desc); [apply Hok|done]. }
  unfold window. case_bool_decide as E.
  - rewrite orb_true_r, E, drop_nil, take_nil. by destruct (limit <? 0).
  - destruct inter; [by rewrite Hint in E|]. simpl. destruct Hlen as [Hlen|Hlen]; [|done].
    apply visited_run; [apply between_in_range|done|lia].
Qed.

Lemma RangeCount_ok ss m min max :
  zset_ok ss m → borders_ok min max m → m ≠ ∅ →
  ZSet.RangeCount ss min max = Ret (Z.of_nat (length (between min max (zsorted m)))).
Proof.
  intros Hok [Hb1 Hb2] Hne. pose proof (ok_proper _ _ Hok) as Hm. unfold ZSet.RangeCount.
  assert (size m ≠ 0%nat) as Hsz by (intros E; apply Hne; by apply map_size_empty_inv).
  rewrite (Len_ok _ _ Hok), (ForEachByRank_ok _ ss m) by (done || lia). f_equal. simpl. rewrite drop_0.
  rewrite take_ge by (rewrite zsorted_length; lia).
  destruct (border_falls _ _ Hm Hb1) as [_ Hmin], (border_falls _ _ Hm Hb2) as [Hmax _].
  destruct (between_up _ _ _ Hmax Hmin) as (a & c & El & H1 & H2 & H3). rewrite El at 1.
  pose proof (between_in_range min max (zsorted m)) as HF. revert HF H2. generalize (between min max (zsorted m)) as F. intros F HF H2.
  clear El. induction H1 as [|e a He Ha IH]; simpl; [|by rewrite He].
  enough (∀ i, pass (λ e i, if negb (less min e) then (true, i) else if negb (greater max e) then (false, i) else (true, i + 1))
    (F ++ c) i = i + Z.of_nat (length F)) as -> by lia.
  induction HF as [|e F He HF IH]; intros i; simpl.
  - destruct H3 as [|e c He _]; [simpl; lia|]. simpl in H2. apply Forall_cons in H2 as [H2 _]. simpl. rewrite H2, He. simpl. lia.
  - apply andb_true_iff in He as [-> ->]. simpl. rewrite IH; [lia|]. by apply Forall_cons in H2 as [_ H2].
Qed.

(** ** Removing ranges *)

(** A map without the members of some elements. *)
Definition without (removed : list Element) (m : gmap string float64) : gmap string float64 :=
  foldl (λ m e, delete (Member e) m) m removed.

Lemma zsorted_delete m a e c : proper_map m → zsorted m = a ++ e :: c → zsorted (delete (Member e) m) = a ++ c.
Proof.
  intros Hm El. symmetry. pose proof (zsorted_lt m Hm) as Hl. rewrite El in Hl.
  assert (m !! Member e = Some (Score e)) as He by (apply elem_of_zsorted; rewrite El; apply elem_of_app; right; left).
  apply zsorted_unique; [by apply map_Forall_delete| |].
  - apply StronglySorted_app in Hl as (Hxy & Hl1 & Hl2). apply StronglySorted_cons in Hl2 as [_ Hl2].
    apply StronglySorted_app. split_and!; [|done..]. intros x y Hx Hy. apply Hxy; [done|by right].
  - apply (Permutation_cons_inv (a := e)). rewrite Permutation_middle, <-El. transitivity (to_elems m); [apply merge_sort_Permutation|].
    rewrite (to_elems_delete _ _ _ He). by destruct e.
Qed.

Lemma zsorted_without m a r c : proper_map m → zsorted m = a ++ r ++ c → zsorted (without r m) = a ++ c.
Proof.
  revert m. induction r as [|e r IH]; intros m Hm El; [done|]. unfold without. simpl.
  apply IH; [by apply map_Forall_delete|by apply zsorted_delete].
Qed.

Lemma size_without m a r c : proper_map m → zsorted m = a ++ r ++ c →
  Z.of_nat (length r) = Z.of_nat (size m) - Z.of_nat (size (without r m)).
Proof.
  intros Hm El. rewrite <-!zsorted_length, (zsorted_without m a r c Hm El), El, !length_app. lia.
Qed.

(** A run of elements taken out of the listing, on both halves. *)
Lemma without_ok ss sl m a r c ns :
  zset_ok ss m → zsorted m = a ++ r ++ c → rep sl ns → elems ns = a ++ c →
  zset_ok (mkSortedSet (ZSet.forget (dict ss) r) sl) (without r m).
Proof.
  intros Hok El Hr Hns.
  enough (∀ d m, proper_map m → (∀ k, d !! k = mkElement k <$> m !! k) → zsorted m = a ++ r ++ c →
    proper_map (without r m) ∧ (∀ k, ZSet.forget d r !! k = mkElement k <$> without r m !! k)) as H.
  { destruct (H (dict ss) m) as (H1 & H2); [apply Hok|apply Hok|done|]. split; [done|done|]. simpl. exists ns.
    by rewrite (zsorted_without m a r c (ok_proper _ _ Hok) El). }
  clear. induction r as [|e r IH]; intros d m Hm Hd El; [done|]. unfold without, ZSet.forget. simpl.
  apply IH; [by apply map_Forall_delete| |by apply zsorted_delete]. intros k.
  destruct (decide (k = Member e)) as [->|Hne]; [by rewrite !lookup_delete_eq|]. by rewrite !lookup_delete_ne.
Qed.

Lemma RemoveRange_ok ss m min max :
  zset_ok ss m → borders_ok min max m →
  let removed := between min max (zsorted m) in
  ∃ ss', ZSet.RemoveRange ss min max = Ret (ss', Z.of_nat (length removed)) ∧ zset_ok ss' (without removed m).
Proof.
  intros Hok [Hb1 Hb2]. cbv zeta. pose proof (ok_proper _ _ Hok) as Hm. pose proof (ok_list _ _ Hok) as (ns & Hr & He).
  destruct (border_falls _ _ Hm Hb1) as [_ Hmin], (border_falls _ _ Hm Hb2) as [Hmax _].
  destruct (between_up _ _ _ Hmax Hmin) as (a & c & El & H1 & H2 & H3).
  pose proof (between_in_range min max (zsorted m)) as HF. set (F := between min max (zsorted m)) in *.
  destruct (RemoveRange_elems (zsl ss) ns min max 0 Hr) as (pre & post & sl' & ns' & k & Ens & H4 & H5 & Hk & E & Hr' & Ens').
  { by rewrite He. }
  assert (pre = a ∧ post = F ++ c) as [-> ->] by (apply (cut_unique (less min) false); [congruence|done..]).
  rewrite run_length_app, (run_length_stop _ c) in Hk.
  2: { destruct H3; [done|]. simpl. by intros ? [= <-]. }
  2: { eapply Forall_impl; [exact HF|]. simpl. intros e. unfold in_range. rewrite andb_true_iff. by intros [_ ?]. }
  assert (k = length F) as -> by (rewrite Hk; unfold within_limit; simpl; lia).
  rewrite take_app_length in E. rewrite drop_app_length in Ens'.
  unfold ZSet.RemoveRange. rewrite E. cbn [mbind outcome_bind fst snd].
  eexists. split; [done|]. by eapply without_ok.
Qed.

Lemma RemoveByRank_ok ss m start stop :
  zset_ok ss m → 0 ≤ start ≤ Z.of_nat (size m) →
  let removed := take (Z.to_nat (stop - start)) (drop (Z.to_nat start) (zsorted m)) in
  ∃ ss', ZSet.RemoveByRank ss start stop = Ret (ss', Z.of_nat (length removed)) ∧ zset_ok ss' (without removed m).
Proof.
  intros Hok Hs. cbv zeta. pose proof (ok_list _ _ Hok) as (ns & Hr & He).
  destruct (RemoveRangeByRank_elems (zsl ss) ns (start + 1) (stop + 1) Hr) as (sl' & ns' & E & Hr' & Ens'); [lia|].
  rewrite He, Z.add_simpl_r in E, Ens'.
  replace (Z.to_nat (stop + 1 - (Z.of_nat (length (take (Z.to_nat start) (zsorted m))) + 1))) with (Z.to_nat (stop - start)) in E, Ens'
    by (rewrite length_take, zsorted_length; lia).
  unfold ZSet.RemoveByRank. rewrite E. cbn [mbind outcome_bind fst snd]. eexists. split; [done|].
  eapply without_ok; [done| |done|exact Ens']. by rewrite !take_drop.
Qed.

Lemma PopMin_ok ss m count :
  zset_ok ss m → 0 < count →
  let removed := take (Z.to_nat count) (zsorted m) in
  ∃ ss', ZSet.PopMin ss count = Ret (ss', removed) ∧ zset_ok ss' (without removed m).
Proof.
  intros Hok Hc. cbv zeta. pose proof (ok_proper _ _ Hok) as Hm. pose proof (ok_list _ _ Hok) as (ns & Hr & He).
  set (all := between scoreNegativeInfBorder scorePositiveInfBorder).
  assert (∀ l, all l = l) as Hall by (intros l; apply filter_all, Forall_forall; by intros e _).
  destruct (first_node ss m ns scoreNegativeInfBorder scorePositiveInfBorder false false) as (front & c & Hp & Ef & _ & E); try done.
  simpl in E. fold all in E, Ef. rewrite Hall in E, Ef. simpl in Ef. unfold ZSet.PopMin. rewrite E. cbn [mbind outcome_bind].
  case_bool_decide as Hz.
  { unfold listed in Hz. rewrite Hz, take_nil. by exists ss. }
  pose proof Hp as [pre Epre]. assert (pre = []) as ->.
  { apply (f_equal length) in Ef. rewrite <-He in Ef. unfold elems in Ef. rewrite length_app, !length_fmap, Epre, length_app in Ef.
    destruct pre; [done|simpl in Ef; lia]. }
  simpl in Epre. subst front. destruct ns as [|x ns]; [by rewrite <-He in Hz|].
  change (c_id <$> head (x :: ns)) with (Some (c_id x)). cbn beta iota.
  rewrite (node_spec (zsl ss) [] x ns Hr). cbn [mbind outcome_bind elem]. set (b := ScoreB _).
  assert (proper_elt (c_elem x)) as Hx by (apply (listed_proper m _ false Hm); simpl; rewrite <-He; left).
  destruct (border_falls b m Hm I) as [_ Hmin].
  destruct (RemoveRange_elems (zsl ss) (x :: ns) b scorePositiveInfBorder count Hr) as (pre & post & sl' & ns' & k & Ens & H4 & H5 & Hk & E' & Hr' & Ens').
  { by rewrite He. }
  assert (pre = []) as ->.
  { destruct pre as [|e pre]; [done|]. injection Ens as Ee _. apply Forall_cons in H4 as [H4 _]. rewrite <-Ee in H4.
    unfold b in H4. simpl in H4. apply not_true_iff_false in H4. destruct H4. apply SFleb_key; [apply Hx..|]. apply key_lt_irrefl. }
  rewrite app_nil_l in Ens, Ens'. subst post.
  assert (run_length (greater scorePositiveInfBorder) (elems (x :: ns)) = length (elems (x :: ns))) as Hrun.
  { rewrite <-(app_nil_r (elems (x :: ns))) at 1. rewrite run_length_app; [simpl; lia|]. by apply Forall_forall. }
  rewrite Hrun in Hk. rewrite E'. cbn [mbind outcome_bind fst snd].
  assert (take k (elems (x :: ns)) = take (Z.to_nat count) (zsorted m)) as Htake.
  { rewrite He in *. rewrite Hk. unfold within_limit. replace (count >? 0) with true by (symmetry; apply Z.gtb_lt; lia).
    rewrite <-take_take. by rewrite (take_ge _ (length _)). }
  rewrite Htake. eexists. split; [done|]. rewrite <-Htake. eapply (without_ok _ _ _ []); [done| |done|exact Ens'].
  rewrite app_nil_l, take_drop. by symmetry.
Qed.
