(* ===== verification/ZSetLaws.v ===== *)
(** * What sorted sets promise

    The skip list as a state machine: [skip_step] has one rule for each method of
    skiplist.go that changes it, and the layout and the order are an invariant of
    its runs.  The sorted set as an abstract data type: [zspec] gives every method
    as one on a finite map, and the methods of sortedset.go refine it along every
    sequence of calls.  Ranges for which the two disagree follow as theorems on
    concrete sets. *)

From Stdlib Require Import ZArith Lia Ascii String.
From Stdlib Require Import Floats.SpecFloat.
From stdpp Require Import base gmap strings numbers list sorting.
From S2P Require Import Prelude GoStd Dict Border SkipList SkipRep SkipShape SortedSet ZSetShape SortedFacts.

Local Open Scope string_scope.
Local Open Scope list_scope.
Local Open Scope Z_scope.
Local Open Scope go_scope.

Import Skip.

(** ** The skip list as a state machine *)

(** A member is inserted only when it is not there with this score, as
    [SortedSet.Add] does it. *)
Inductive skip_step (sl : skiplist) : skiplist → Prop :=
  | step_insert member score r sl' id :
      is_nan score = false → remove sl member score = Ret (sl, false) →
      insert sl member score r = Ret (sl', id) → skip_step sl sl'
  | step_remove member score sl' found :
      is_nan score = false → remove sl member score = Ret (sl', found) → skip_step sl sl'
  | step_remove_range min max limit sl' removed :
      RemoveRange sl (ScoreB min) max limit = Ret (sl', removed) → skip_step sl sl'
  | step_remove_rank start stop sl' removed :
      1 ≤ start → RemoveRangeByRank sl start stop = Ret (sl', removed) → skip_step sl sl'.

(** The layout of the two heaps, and the elements in order. *)
Definition skip_inv (sl : skiplist) : Prop :=
  ∃ ns, rep sl ns ∧ StronglySorted elt_lt (elems ns) ∧ Forall real (elems ns).

Lemma sorted_part a b c : StronglySorted elt_lt (a ++ b ++ c) → Forall real (a ++ b ++ c) →
  StronglySorted elt_lt (a ++ c) ∧ Forall real (a ++ c).
Proof.
  rewrite !Forall_app, !StronglySorted_app. intros (H1 & H2 & H3 & H4 & H5) (H6 & _ & H7). split_and!; try done.
  intros x y Hx Hy. apply H1; [done|]. apply elem_of_app. by right.
Qed.

Lemma real_falling (P : Element → bool) l : Forall real l → StronglySorted elt_lt l →
  (∀ e f, real e → real f → elt_lt e f → P f = true → P e = true) → falling P l.
Proof.
  intros Hp Hs HP. unfold falling. induction Hs as [|e l _ IH He]; [constructor|].
  apply Forall_cons in Hp as [Hpe Hp]. apply StronglySorted_cons. split; [|by apply IH].
  rewrite Forall_forall in He, Hp |- *. intros f Hf. apply HP; [done|by apply Hp|by apply He].
Qed.

Lemma real_before s k l : is_nan s = false → Forall real l → StronglySorted elt_lt l → falling (λ e, before e s k) l.
Proof.
  intros Hs Hp Hl. apply real_falling; [done..|]. intros e f He Hf Hef Hb. by apply (elt_lt_trans e f (mkElement k s)).
Qed.

(** An insertion keeps the order. *)
Lemma insert_inv sl k s r sl' id :
  skip_inv sl → is_nan s = false → remove sl k s = Ret (sl, false) → insert sl k s r = Ret (sl', id) → skip_inv sl'.
Proof.
  intros (ns & Hr & Hs & Hn) Hk Hfree E. pose proof (real_before s k _ Hk Hn Hs) as Hf.
  destruct (remove_elems sl ns k s Hr Hf) as (pre & post & sl1 & ns1 & Ens & F1 & F2 & Hrem & _). rewrite Hfree in Hrem.
  destruct (insert_elems sl ns k s r Hr Hf) as (sl2 & id2 & pre' & post' & ns' & E' & Hr' & Ens' & Hns' & F1' & F2').
  rewrite E in E'. injection E' as <- <-.
  assert (pre = pre' ∧ post = post') as [<- <-] by (apply (cut_unique (λ e, before e s k) true); [congruence|done..]).
  exists ns'. rewrite Hns'. rewrite Ens in Hs, Hn. split; [done|]. rewrite Forall_app in Hn. destruct Hn as [Hn1 Hn2].
  apply StronglySorted_app in Hs as (Hx & Hs1 & Hs2). rewrite Forall_forall in F1. split.
  - apply StronglySorted_app. split_and!; [|done|].
    + intros e f He Hfe. apply elem_of_cons in Hfe as [->|Hfe]; [by apply F1|by apply Hx].
    + apply StronglySorted_cons. split; [|done]. destruct post as [|e post]; [constructor|]. simpl in Hrem.
      apply Forall_cons in F2 as [Fe _], Hn2 as [Hne Hn2]. injection Hrem as _ Hhit.
      assert (elt_lt (mkElement k s) e) as Hke.
      { destruct (elt_total e s k Hne Hk) as [Hb|[[Hb1 Hb2]|Hb]]; [by rewrite Fe in Hb| |done].
        by rewrite Hb1, Hb2, String.eqb_refl in Hhit. }
      constructor; [done|]. apply StronglySorted_cons in Hs2 as [He _]. rewrite Forall_forall in He, Hn2 |- *.
      intros f Hfp. apply (elt_lt_trans _ e); [done|done|by apply Hn2|done|by apply He].
  - apply Forall_app. split; [done|]. by constructor.
Qed.

Lemma step_inv sl sl' : skip_inv sl → skip_step sl sl' → skip_inv sl'.
Proof.
  intros Hinv. destruct 1 as [k s r sl' id Hk Hfree E|k s sl' found Hk E|min max limit sl' removed E|start stop sl' removed H1 E];
    [by eapply insert_inv|destruct Hinv as (ns & Hr & Hs & Hn)..].
  - destruct (remove_elems sl ns k s Hr (real_before s k _ Hk Hn Hs)) as (pre & post & sl1 & ns1 & Ens & _ & _ & Hrem & Hr1 & Ens1).
    rewrite E in Hrem. injection Hrem as <- _. exists ns1. rewrite Ens1. split; [done|]. rewrite Ens in Hs, Hn.
    destruct (match head post with Some _ => _ | None => _ end); [|done].
    rewrite <-(take_drop 1 post) in Hs, Hn. by apply sorted_part in Hs.
  - destruct (RemoveRange_elems sl ns (ScoreB min) max limit Hr) as (pre & post & sl1 & ns1 & k & Ens & _ & _ & _ & E' & Hr1 & Ens1).
    { apply real_falling; [done..|]. intros e f He Hf Hef. rewrite !negb_true_iff. cbn [less]. unfold score_less.
      destruct (_ =? _); [done|]. destruct (_ =? _); [done|].
      destruct (score_falls (sb_Value min) e f He Hf Hef) as (_ & _ & F1 & F2). by destruct (sb_Exclude min). }
    rewrite E in E'. injection E' as <- _. exists ns1. rewrite Ens1. split; [done|]. rewrite Ens in Hs, Hn.
    rewrite <-(take_drop k post) in Hs, Hn. by apply sorted_part in Hs.
  - destruct (RemoveRangeByRank_elems sl ns start stop Hr H1) as (sl1 & ns1 & E' & Hr1 & Ens1).
    rewrite E in E'. injection E' as <- _. exists ns1. rewrite Ens1. split; [done|].
    rewrite <-(take_drop (Z.to_nat (start - 1)) (elems ns)) in Hs, Hn at 1. set (b := drop _ (elems ns)) in *.
    set (k := Z.to_nat (stop - _)) in *. rewrite <-(take_drop k b) in Hs, Hn. by apply sorted_part in Hs.
Qed.

Lemma steps_inv sl sl' : rtc skip_step sl sl' → skip_inv sl → skip_inv sl'.
Proof. induction 1; eauto using step_inv. Qed.

(** [C32] In every skip list that is built from the empty one by insertions (of any level) of scores
    other than NaN whose pair of member and score is not in the list, removals of scores
    other than NaN, removals by score range and removals by rank from a start of at least 1 (the
    first rank), the forward pointers, the spans, the backward pointers, the tail, the length and
    the number of levels fit one list of nodes, which is strictly ordered by score and member;
    and the next insertion or removal of a score other than NaN does not panic.  (The sorted set
    above it passes NaN on, and then the order is lost.) *)
Theorem skiplist_invariant sl :
  rtc skip_step makeSkiplist sl →
  skip_inv sl ∧
  ∀ member score r, is_nan score = false →
    (∃ sl' id, insert sl member score r = Ret (sl', id)) ∧ (∃ sl' found, remove sl member score = Ret (sl', found)).
Proof.
  intros Hrun. assert (skip_inv sl) as Hinv.
  { apply (steps_inv _ _ Hrun). exists []. split_and!; [apply rep_empty|constructor..]. }
  split; [done|]. intros k s r Hk. destruct Hinv as (ns & Hr & Hs & Hn). pose proof (real_before s k _ Hk Hn Hs) as Hf. split.
  - destruct (insert_elems sl ns k s r Hr Hf) as (sl' & id & _ & _ & _ & E & _). eauto.
  - destruct (remove_elems sl ns k s Hr Hf) as (_ & post & sl' & _ & _ & _ & _ & E & _). eauto.
Qed.

(** The skip list of two members, [b] above [a], as the code builds it. *)
Definition list_ab : skiplist :=
  match insert makeSkiplist "b" (S754_finite false 1 0) 0 with
  | Ret (sl, _) => match insert sl "a" float_zero 77 with Ret (sl', _) => sl' | _ => sl end
  | _ => makeSkiplist
  end.

Lemma skiplist_invariant_witness :
  rtc skip_step makeSkiplist list_ab ∧ skip_inv list_ab ∧ tail list_ab = Some 1%nat ∧ len list_ab = 2.
Proof.
  assert (rtc skip_step makeSkiplist list_ab) as H.
  { eapply rtc_l; [apply (step_insert makeSkiplist "b" (S754_finite false 1 0) 0 _ 1); vm_compute; reflexivity|].
    apply rtc_once. apply (step_insert _ "a" float_zero 77 _ 2); vm_compute; reflexivity. }
  split; [exact H|]. split; [apply (skiplist_invariant list_ab H)|]. split; vm_compute; reflexivity.
Defined.

(** ** The sorted set as an abstract data type *)

Inductive zop :=
  | OpAdd (member : string) (score : float64) (r : Z)
  | OpRemove (member : string)
  | OpGet (member : string)
  | OpLen
  | OpRank (member : string) (desc : bool)
  | OpRangeByRank (start stop : Z) (desc : bool)
  | OpCount (min max : Border)
  | OpRange (min max : Border) (offset limit : Z) (desc : bool)
  | OpRemoveRange (min max : Border)
  | OpPopMin (count : Z)
  | OpRemoveByRank (start stop : Z).

Inductive zanswer := AnsBool (b : bool) | AnsInt (n : Z) | AnsElem (e : option Element) | AnsElems (l : list Element).

(** The method of sortedset.go. *)
Definition zexec (op : zop) (ss : SortedSet) : outcome (SortedSet * zanswer) :=
  match op with
  | OpAdd k s r => x ← ZSet.Add ss k s r; Ret (x.1, AnsBool x.2)
  | OpRemove k => x ← ZSet.Remove ss k; Ret (x.1, AnsBool x.2)
  | OpGet k => Ret (ss, AnsElem (ZSet.Get ss k))
  | OpLen => Ret (ss, AnsInt (ZSet.Len ss))
  | OpRank k desc => n ← ZSet.GetRank ss k desc; Ret (ss, AnsInt n)
  | OpRangeByRank start stop desc => l ← ZSet.RangeByRank ss start stop desc; Ret (ss, AnsElems l)
  | OpCount min max => n ← ZSet.RangeCount ss min max; Ret (ss, AnsInt n)
  | OpRange min max offset limit desc => l ← ZSet.Range ss min max offset limit desc; Ret (ss, AnsElems l)
  | OpRemoveRange min max => x ← ZSet.RemoveRange ss min max; Ret (x.1, AnsInt x.2)
  | OpPopMin count => x ← ZSet.PopMin ss count; Ret (x.1, AnsElems x.2)
  | OpRemoveByRank start stop => x ← ZSet.RemoveByRank ss start stop; Ret (x.1, AnsInt x.2)
  end.

(** Where a member stands in a listing, -1 if it does not. *)
Definition place (k : string) (l : list Element) : Z :=
  match list_find (λ e, Member e = k) l with Some (i, _) => Z.of_nat i | None => -1 end.

(** The same on a map from members to scores. *)
Definition zspec (op : zop) (m : gmap string float64) : gmap string float64 * zanswer :=
  match op with
  | OpAdd k s _ => (<[k := s]> m, AnsBool (bool_decide (m !! k = None)))
  | OpRemove k => (delete k m, AnsBool (bool_decide (is_Some (m !! k))))
  | OpGet k => (m, AnsElem (mkElement k <$> m !! k))
  | OpLen => (m, AnsInt (Z.of_nat (size m)))
  | OpRank k desc => (m, AnsInt (place k (listed desc m)))
  | OpRangeByRank start stop desc =>
      (m, AnsElems (take (Z.to_nat (stop - start)) (drop (Z.to_nat start) (listed desc m))))
  | OpCount min max => (m, AnsInt (Z.of_nat (length (between min max (zsorted m)))))
  | OpRange min max offset limit desc => (m, AnsElems (window offset limit (between min max (listed desc m))))
  | OpRemoveRange min max =>
      let removed := between min max (zsorted m) in (without removed m, AnsInt (Z.of_nat (length removed)))
  | OpPopMin count =>
      let removed := take (Z.to_nat count) (zsorted m) in (without removed m, AnsElems removed)
  | OpRemoveByRank start stop =>
      let removed := take (Z.to_nat (stop - start)) (drop (Z.to_nat start) (zsorted m)) in
      (without removed m, AnsInt (Z.of_nat (length removed)))
  end.

(** When a call is one of the map. *)
Definition zop_ok (op : zop) (m : gmap string float64) : Prop :=
  match op with
  | OpAdd _ s _ => proper s
  | OpRemove _ | OpGet _ | OpLen => True
  | OpRank k _ => k ≠ ""
  | OpRangeByRank start stop _ =>
      0 ≤ start < Z.of_nat (size m) ∧ start ≤ stop ≤ Z.of_nat (size m) ∧ Z.of_nat (size m) ≤ 2 ^ 32
  | OpCount min max => borders_ok min max m ∧ m ≠ ∅
  | OpRange min max offset limit desc =>
      borders_ok min max m ∧ fitting min max = true ∧ 0 ≤ offset ∧
      (offset < Z.of_nat (length (between min max (listed desc m))) ∨ between min max (listed desc m) = [])
  | OpRemoveRange min max => borders_ok min max m
  | OpPopMin count => 0 < count
  | OpRemoveByRank start _ => 0 ≤ start ≤ Z.of_nat (size m)
  end.

Lemma place_at k s m (desc : bool) i : proper_map m → listed desc m !! i = Some (mkElement k s) →
  place k (listed desc m) = Z.of_nat i.
Proof.
  intros Hm Hi. unfold place. replace (list_find _ _) with (Some (i, mkElement k s)); [done|]. symmetry.
  apply list_find_Some. split_and!; [done|done|]. intros j e Hj Hlt Ek.
  assert (NoDup (Member <$> listed desc m)) as Hnd.
  { unfold listed. destruct desc; rewrite ?fmap_reverse, ?reverse_Permutation; unfold zsorted;
      rewrite merge_sort_Permutation; apply members_NoDup. }
  assert (j = i) as ->; [|lia]. eapply (NoDup_lookup _ _ _ k Hnd); rewrite list_lookup_fmap; [by rewrite Hj; simpl; rewrite Ek|by rewrite Hi].
Qed.

Lemma place_none k m (desc : bool) : m !! k = None → place k (listed desc m) = -1.
Proof.
  intros Hk. unfold place. rewrite (proj2 (list_find_None _ _)); [done|]. apply Forall_forall. intros e He Ek.
  assert (e ∈ zsorted m) as Hz by (unfold listed in He; destruct desc; [by apply elem_of_reverse|done]).
  apply elem_of_zsorted in Hz. by rewrite Ek, Hk in Hz.
Qed.

Lemma rank_refines ss m k (desc : bool) : zset_ok ss m → k ≠ "" →
  ZSet.GetRank ss k desc = Ret (place k (listed desc m)).
Proof.
  intros Hok Hk. pose proof (ok_proper _ _ Hok) as Hm. destruct (m !! k) as [s|] eqn:Es.
  - destruct (GetRank_ok ss m k s desc Hok Es Hk) as (i & Hi & ->). f_equal. pose proof (lookup_lt_Some _ _ _ Hi) as Hlt.
    rewrite zsorted_length in Hlt. destruct desc.
    + rewrite (place_at k s m true (size m - S i)); [lia|done|]. simpl.
      rewrite reverse_lookup by (rewrite zsorted_length; lia). rewrite zsorted_length.
      by replace (size m - S (size m - S i))%nat with i by lia.
    + by rewrite (place_at k s m false i).
  - rewrite place_none by done. unfold ZSet.GetRank. by rewrite (ok_dict _ _ Hok), Es.
Qed.

Lemma zexec_refines op ss m : zset_ok ss m → zop_ok op m →
  ∃ ss', zexec op ss = Ret (ss', (zspec op m).2) ∧ zset_ok ss' (zspec op m).1.
Proof.
  intros Hok. destruct op as [k s r|k|k| |k desc|start stop desc|min max|min max offset limit desc|min max|count|start stop];
    cbn [zop_ok zexec zspec fst snd].
  - intros Hs. destruct (Add_ok ss m k s r Hok Hs) as (ss' & -> & H). by exists ss'.
  - intros _. destruct (Remove_ok ss m k Hok) as (ss' & -> & H). by exists ss'.
  - intros _. exists ss. split; [|done]. unfold ZSet.Get. by rewrite (ok_dict _ _ Hok).
  - intros _. exists ss. by rewrite (Len_ok _ _ Hok).
  - intros Hk. exists ss. by rewrite (rank_refines _ _ _ _ Hok Hk).
  - intros (H1 & H2 & H3). exists ss. by rewrite (RangeByRank_ok ss m).
  - intros [Hb Hne]. exists ss. by rewrite (RangeCount_ok ss m).
  - intros (H1 & H2 & H3 & H4). exists ss. by rewrite (Range_ok ss m).
  - intros Hb. destruct (RemoveRange_ok ss m min max Hok Hb) as (ss' & -> & H). by exists ss'.
  - intros Hc. destruct (PopMin_ok ss m count Hok Hc) as (ss' & -> & H). by exists ss'.
  - intros Hs. destruct (RemoveByRank_ok ss m start stop Hok Hs) as (ss' & -> & H). by exists ss'.
Qed.

(** Sequences of calls. *)
Fixpoint zexec_all (ops : list zop) (ss : SortedSet) : outcome (SortedSet * list zanswer) :=
  match ops with
  | [] => Ret (ss, [])
  | op :: ops' => x ← zexec op ss; y ← zexec_all ops' x.1; Ret (y.1, x.2 :: y.2)
  end.

Fixpoint zspec_all (ops : list zop) (m : gmap string float64) : gmap string float64 * list zanswer :=
  match ops with
  | [] => (m, [])
  | op :: ops' => let x := zspec op m in let y := zspec_all ops' x.1 in (y.1, x.2 :: y.2)
  end.

Fixpoint zops_ok (ops : list zop) (m : gmap string float64) : Prop :=
  match ops with [] => True | op :: ops' => zop_ok op m ∧ zops_ok ops' (zspec op m).1 end.

Lemma zexec_all_refines ops ss m : zset_ok ss m → zops_ok ops m →
  ∃ ss', zexec_all ops ss = Ret (ss', (zspec_all ops m).2) ∧ zset_ok ss' (zspec_all ops m).1.
Proof.
  revert ss m. induction ops as [|op ops IH]; intros ss m Hok Hops; cbn [zexec_all zspec_all fst snd]; [by exists ss|].
  destruct Hops as [Hop Hops]. destruct (zexec_refines op ss m Hok Hop) as (ss1 & -> & Hok1).
  destruct (IH _ _ Hok1 Hops) as (ss2 & E & Hok2). cbn [mbind outcome_bind fst snd]. rewrite E. by exists ss2.
Qed.

(** [C31] Along every sequence of the calls that [zops_ok] admits, a sorted set is one finite map from
    members to scores, listed by score and then by member, for every random level: adding,
    removing, scores, sizes, ranks in both directions, ranges by rank and between borders with
    offset and limit, counts, and the removals by range, by rank and of the lowest members
    return what they return on the map and keep skip list and dictionary in step.  Admitted are:
    scores other than NaN and -0; ranks of members that are not empty; ranges by rank with
    0 <= start < size, start <= stop <= size <= 2^32; counts on sets that are not empty; ranges
    whose borders the disjointness test judges rightly (it drops ranges to infinity), with an
    offset of at least 0 that stays inside a range that is not empty; string borders only when all
    scores are equal; PopMin of at least 1; removals by rank with 0 <= start <= size.  Others
    panic or differ ([range_to_infinity_empty], [count_empty_panics], ...). *)
Theorem sortedset_refines_map ops :
  zops_ok ops ∅ →
  ∃ ss, zexec_all ops ZSet.Make = Ret (ss, (zspec_all ops ∅).2) ∧ zset_ok ss (zspec_all ops ∅).1.
Proof.
  apply zexec_all_refines, Make_ok.
Qed.

(** ** Any scores and borders *)

(** The sets that calls build, whatever their arguments are. *)
Inductive zreachable : SortedSet → Prop :=
  | zreach_make : zreachable ZSet.Make
  | zreach_step ss op ss' answer : zreachable ss → zexec op ss = Ret (ss', answer) → zreachable ss'.

(** The calls that add or remove members they are told of. *)
Definition writes (op : zop) : bool :=
  match op with OpAdd _ _ _ | OpRemove _ | OpRemoveRange _ _ | OpRemoveByRank _ _ => true | _ => false end.

Lemma zexec_total op ss : zset_shaped ss →
  post (λ x, zset_shaped x.1) (zexec op ss) ∧ (writes op = true → ∃ x, zexec op ss = Ret x).
Proof.
  intros Hs. destruct op as [k s r|k|k| |k desc|start stop desc|min max|min max offset limit desc|min max|count|start stop];
    cbn [zexec writes].
  - destruct (Add_shape ss k s r Hs) as (ss' & b & -> & H'). split; [done|by eexists].
  - destruct (Remove_shape ss k Hs) as (ss' & b & -> & H'). split; [done|by eexists].
  - by split.
  - by split.
  - split; [|done]. eapply post_bind; [by apply GetRank_post|]. by intros.
  - split; [|done]. eapply post_bind; [by apply RangeByRank_post|]. by intros.
  - split; [|done]. eapply post_bind; [by apply RangeCount_post|]. by intros.
  - split; [|done]. eapply post_bind; [by apply zset_Range_post|]. by intros.
  - destruct (zset_RemoveRange_shape ss min max Hs) as (ss' & b & -> & H'). split; [done|by eexists].
  - split; [|done]. eapply post_bind; [by apply PopMin_post|]. by intros x Hx.
  - destruct (RemoveByRank_shape ss start stop Hs) as (ss' & b & -> & H'). split; [done|by eexists].
Qed.

Lemma zreach_all ops ss ss' answers : zreachable ss → zexec_all ops ss = Ret (ss', answers) → zreachable ss'.
Proof.
  revert ss answers. induction ops as [|op ops IH]; intros ss answers Hr; simpl; [by intros [= <- _]|].
  destruct (zexec op ss) as [[ss1 a]| |] eqn:E; [|done..]. simpl.
  destruct (zexec_all ops ss1) as [[ss2 l]| |] eqn:E2; [|done..]. intros [= <- _]. eapply IH; [|exact E2]. by eapply zreach_step.
Qed.

Lemma zreachable_shaped ss : zreachable ss → zset_shaped ss.
Proof.
  induction 1 as [|ss op ss' a _ IH E]; [apply Make_shape|].
  destruct (zexec_total op ss IH) as [H _]. by rewrite E in H.
Qed.

(** [C33] Whatever scores (NaN and infinities included), borders, offsets and ranks the
    calls are given, in any order: every call on a sorted set ends, and a call that
    adds a member, removes a member, or removes a range by borders or by rank returns
    normally.  With NaN the members may be out of order, but no pointer is left
    dangling and no level gets a cycle. *)
Theorem sortedset_total ss :
  zreachable ss → ∀ op, zexec op ss ≠ Block ∧ (writes op = true → ∃ ss' answer, zexec op ss = Ret (ss', answer)).
Proof.
  intros Hr op. destruct (zexec_total op ss (zreachable_shaped ss Hr)) as [H1 H2]. split.
  - intros E. by rewrite E in H1.
  - intros Hw. destruct (H2 Hw) as [[ss' a] E]. eauto.
Qed.

(** A set with a NaN score between two numbers. *)
Definition nan_ops : list zop := [OpAdd "b" float_zero 0; OpAdd "n" S754_nan 7; OpAdd "a" (S754_infinity true) 65534].

Definition nan_set : SortedSet := match zexec_all nan_ops ZSet.Make with Ret (ss, _) => ss | _ => ZSet.Make end.

Lemma sortedset_total_witness :
  zreachable nan_set ∧ ∃ ss' answer, zexec (OpRemoveRange scoreNegativeInfBorder scorePositiveInfBorder) nan_set = Ret (ss', answer).
Proof.
  assert (zreachable nan_set) as H.
  { apply (zreach_all nan_ops ZSet.Make _ [AnsBool true; AnsBool true; AnsBool true] zreach_make). vm_compute. reflexivity. }
  split; [exact H|]. exact (proj2 (sortedset_total nan_set H (OpRemoveRange scoreNegativeInfBorder scorePositiveInfBorder)) eq_refl).
Defined.

Definition num (z : Z) : float64 := binary_normalize 53 1024 z 0 false.

(** A border at a number. *)
Definition at_score (v : float64) (exclude : bool) : Border := ScoreB (mkScoreBorder 0 v exclude).

Definition score_border (z : Z) (exclude : bool) : Border := at_score (num z) exclude.

Definition sample_ops : list zop :=
  [OpAdd "b" (num 2) 5; OpAdd "a" (num 1) 900; OpAdd "d" (num 2) 40000; OpAdd "c" (num (-3)) 65534; OpAdd "a" (num 7) 3;
   OpRank "d" false; OpRank "c" true; OpRangeByRank 1 3 false; OpCount (score_border 2 false) (score_border 7 true);
   OpRange (score_border (-3) true) (score_border 9 false) 1 (-1) true; OpRemoveRange (score_border 7 false) (score_border 7 false);
   OpRemoveByRank 1 2; OpPopMin 1; OpGet "d"; OpLen; OpRemove "d"].

Lemma sortedset_refines_map_witness :
  zops_ok sample_ops ∅ ∧ ∃ ss, zexec_all sample_ops ZSet.Make = Ret (ss, (zspec_all sample_ops ∅).2) ∧
    (zspec_all sample_ops ∅).2 =
      [AnsBool true; AnsBool true; AnsBool true; AnsBool true; AnsBool false; AnsInt 2; AnsInt 3;
       AnsElems [mkElement "b" (num 2); mkElement "d" (num 2)]; AnsInt 2;
       AnsElems [mkElement "d" (num 2); mkElement "b" (num 2)]; AnsInt 1; AnsInt 1; AnsElems [mkElement "c" (num (-3))];
       AnsElem (Some (mkElement "d" (num 2))); AnsInt 1; AnsBool true].
Proof.
  assert (zops_ok sample_ops ∅) as H.
  { repeat (split; [vm_compute; repeat split; (reflexivity || discriminate || (left; reflexivity))|]). exact I. }
  split; [exact H|]. destruct (sortedset_refines_map sample_ops H) as (ss & E & _).
  exists ss. split; [exact E|]. vm_compute. reflexivity.
Defined.

(** ** Ranges that differ from those of the map *)

(** A range from a positive score up to infinity is always empty, although the
    elements above the score are there and are counted: the infinite border keeps
    the value 0, and the test for disjoint borders looks at the values alone. *)
Theorem range_to_infinity_empty ss m v exclude offset limit desc :
  zset_ok ss m → m ≠ ∅ → SFltb float_zero v = true →
  let min := at_score v exclude in
  ZSet.Range ss min scorePositiveInfBorder offset limit desc = Ret [] ∧
  ZSet.RangeCount ss min scorePositiveInfBorder = Ret (Z.of_nat (length (filter (λ e, less min e = true) (zsorted m)))).
Proof.
  intros Hok Hne Hv min. split.
  - unfold ZSet.Range. destruct ((limit =? 0) || (offset <? 0)) eqn:E; [done|].
    apply orb_false_iff in E as [E1 E2]. zlia.
    destruct (Range_exact ss m min scorePositiveInfBorder true offset limit desc Hok) as (c & _ & _ & E);
      [done|by simpl; unfold score_isIntersected; simpl; rewrite Hv|done|done|].
    unfold ZSet.Range in E. replace ((limit =? 0) || (offset <? 0)) with false in E; [done|].
    symmetry. apply orb_false_iff. split; [by apply Z.eqb_neq|by apply Z.ltb_ge].
  - rewrite (RangeCount_ok ss m) by done. do 3 f_equal. unfold between. apply list_filter_iff. intros e.
    unfold in_range. simpl (greater _ _). by rewrite andb_true_r.
Qed.

(** The sets of the examples. *)
Definition zset_of (l : list (string * Z)) : SortedSet :=
  match zexec_all ((λ kv, OpAdd kv.1 (num kv.2) 0) <$> l) ZSet.Make with Ret (ss, _) => ss | _ => ZSet.Make end.

Lemma range_to_infinity_empty_witness :
  let ss := zset_of [("a", 10)] in
  ZSet.Range ss (score_border 5 false) scorePositiveInfBorder 0 (-1) false = Ret [] ∧
  ZSet.RangeCount ss (score_border 5 false) scorePositiveInfBorder = Ret 1.
Proof.
  destruct (zexec_all_refines [OpAdd "a" (num 10) 0] ZSet.Make ∅ Make_ok) as (ss & E & Hok); [by vm_compute|].
  assert (zset_of [("a", 10)] = ss) as Hss.
  { unfold zset_of. change (fmap _ _) with [OpAdd "a" (num 10) 0]. by rewrite E. }
  cbv zeta. rewrite Hss. destruct (range_to_infinity_empty ss {["a" := num 10]} (num 5) false 0 (-1) false Hok) as [H1 H2];
    [done|reflexivity|]. split; [exact H1|]. etransitivity; [exact H2|]. vm_compute. reflexivity.
Defined.

(** An offset behind the last element between the borders does not give an empty
    range: the element it leads to is returned whatever its score. *)
Lemma range_offset_escapes :
  ZSet.Range (zset_of [("a", 1); ("b", 5)]) (score_border 0 false) (score_border 2 false) 1 (-1) false =
  Ret [mkElement "b" (num 5)].
Proof. vm_compute. reflexivity. Qed.

(** The same disjointness test for strings: nothing lies from [b] up to the end. *)
Lemma lex_range_to_end_empty :
  ZSet.Range (zset_of [("a", 0); ("b", 0); ("c", 0)]) (LexB (mkLexBorder 0 "b" false)) lexPositiveInfBorder 0 (-1) false = Ret [].
Proof. vm_compute. reflexivity. Qed.

(** The empty member is taken for the header of the list, which stands before every
    rank, as soon as a higher level passes over it. *)
Lemma empty_member_rank :
  zexec_all [OpAdd "x" (num 1) 65534; OpAdd "" (num 5) 65534; OpAdd "z" (num 9) 0; OpRank "" false] ZSet.Make =
  zexec_all [OpAdd "x" (num 1) 65534; OpAdd "" (num 5) 65534; OpAdd "z" (num 9) 0; OpRank "y" false] ZSet.Make.
Proof. vm_compute. reflexivity. Qed.

(** Counting in an empty set panics. *)
Lemma count_empty_panics min max : ZSet.RangeCount ZSet.Make min max = Panic "illegal start 0".
Proof. reflexivity. Qed.
