(* ===== verification/Bitmap.v ===== *)
(** * datastruct/bitmap

    A bitmap is the byte slice it wraps; bit [i] is bit [i % 8] of byte [i / 8],
    counted from the least significant bit. *)

From Stdlib Require Import ZArith Lia Ascii String.
From stdpp Require Import base list strings numbers.
From S2P Require Import Prelude GoStd.

Local Open Scope Z_scope.

Module Bitmap.

(** [type BitMap []byte]; [FromBytes] and [ToBytes] only change the Go type. *)
Abbreviation BitMap := (option string).

Definition FromBytes (b : bytes) : BitMap := b.
Definition ToBytes (bm : BitMap) : bytes := bm.

(** Go's division and remainder truncate towards zero. *)
Definition toByteSize (bitSize : Z) : Z :=
  if Z.rem bitSize 8 =? 0 then Z.quot bitSize 8 else Z.quot bitSize 8 + 1.

Definition zeros (n : Z) : string := of_bytes (replicate (Z.to_nat n) "000"%char).

Definition grow (bm : BitMap) (bitSize : Z) : outcome BitMap :=
  let byteSize := toByteSize bitSize in
  let gap := byteSize - blen bm in
  if gap <=? 0 then Ret bm
  else _ ← make_slice 1 gap; Ret (Some (str bm +:+ zeros gap)).

Definition BitSize (bm : BitMap) : Z := blen bm * 8.

(** Indexing the slice, with its bounds check. *)
Definition byte_get (bm : BitMap) (i : Z) : outcome Z :=
  if i <? 0 then Panic "index out of range"
  else match to_bytes (str bm) !! Z.to_nat i with
       | Some c => Ret (byte_val c)
       | None => Panic "index out of range"
       end.

Definition byte_set (bm : BitMap) (i : Z) (v : Z) : outcome BitMap :=
  _ ← byte_get bm i;
  Ret (Some (of_bytes (<[Z.to_nat i := byte_of v]> (to_bytes (str bm))))).

(** A shift by a negative amount panics. *)
Definition shift_amount (n : Z) : outcome Z :=
  if n <? 0 then Panic "negative shift amount" else Ret n.

Definition SetBit (bm : BitMap) (offset : Z) (val : Z) : outcome BitMap :=
  let byteIndex := Z.quot offset 8 in
  bitOffset ← shift_amount (Z.rem offset 8);
  let mask := Z.shiftl 1 bitOffset in
  bm ← grow bm (int64 (offset + 1));
  b ← byte_get bm byteIndex;
  if val >? 0 then byte_set bm byteIndex (Z.lor b mask)
  else byte_set bm byteIndex (Z.ldiff b mask).

Definition GetBit (bm : BitMap) (offset : Z) : outcome Z :=
  let byteIndex := Z.quot offset 8 in
  let bitOffset := Z.rem offset 8 in
  if byteIndex >=? blen bm then Ret 0
  else
    b ← byte_get bm byteIndex;
    n ← shift_amount bitOffset;
    Ret (Z.land (Z.shiftr b n) 1).

Section iteration.
Context {S : Type} (cb : Z → Z → S → bool * S).

(** The inner loop of [ForEachBit] over the bits of one byte; the boolean tells
    whether the callback ended the whole iteration. *)
Fixpoint bit_loop (n : nat) (b bitOffset offset stop : Z) (s : S) : bool * Z * S :=
  match n with
  | O => (false, offset, s)
  | Datatypes.S n' =>
      let bit := Z.land (Z.shiftr b bitOffset) 1 in
      let '(goNext, s') := cb offset bit s in
      if negb goNext then (true, offset, s')
      else if (offset + 1 >=? stop) && negb (stop =? 0) then (false, offset + 1, s')
      else bit_loop n' b (bitOffset + 1) (offset + 1) stop s'
  end.

Fixpoint byte_loop (rest : list ascii) (bitOffset offset stop : Z) (s : S) : S :=
  match rest with
  | [] => s
  | c :: rest' =>
      let '(done, offset', s') :=
        bit_loop (Z.to_nat (8 - bitOffset)) (byte_val c) bitOffset offset stop s in
      if (done : bool) then s'
      else if (stop >? 0) && (offset' >=? stop) then s'
      else byte_loop rest' 0 offset' stop s'
  end.

(** The callers pass a start that is not negative. *)
Definition ForEachBit (bm : BitMap) (begin stop : Z) (s : S) : S :=
  byte_loop (drop (Z.to_nat (Z.quot begin 8)) (to_bytes (str bm))) (Z.rem begin 8) begin stop s.

Definition ForEachByte (bm : BitMap) (begin stop : Z) (s : S) : S :=
  let stop := if stop =? 0 then blen bm else if stop >? blen bm then blen bm else stop in
  fold_until (λ i c, cb i (byte_val c))
    (take (Z.to_nat (stop - begin)) (drop (Z.to_nat begin) (to_bytes (str bm)))) begin s.
End iteration.

(** ** The sequence of bits *)

(** The bits of a byte, least significant first. *)
Definition byte_bits (c : ascii) : list Z :=
  (λ i : nat, Z.land (Z.shiftr (byte_val c) (Z.of_nat i)) 1) <$> seq 0 8.

(** The bits of a bitmap in the order of their offsets. *)
Definition bits (bm : BitMap) : list Z := concat (byte_bits <$> to_bytes (str bm)).

Lemma length_byte_bits c : length (byte_bits c) = 8%nat.
Proof. done. Qed.

Lemma length_bits_list (l : list ascii) : length (concat (byte_bits <$> l)) = (8 * length l)%nat.
Proof.
  induction l as [|c l IH]; [done|]. rewrite fmap_cons. cbn [concat]. rewrite length_app, IH, length_byte_bits.
  simpl. lia.
Qed.

Lemma length_bits bm : Z.of_nat (length (bits bm)) = BitSize bm.
Proof. unfold bits, BitSize, blen. rewrite length_bits_list, length_to_bytes. lia. Qed.

Lemma bits_lookup_list (l : list ascii) i c :
  l !! (i / 8)%nat = Some c →
  concat (byte_bits <$> l) !! i = Some (Z.land (Z.shiftr (byte_val c) (Z.of_nat (i mod 8))) 1).
Proof.
  revert i. induction l as [|c' l IH]; intros i Hc; [done|]. rewrite fmap_cons. cbn [concat].
  destruct (decide (i < 8)%nat) as [Hi|Hi].
  - rewrite Nat.div_small in Hc by done. injection Hc as ->. rewrite Nat.mod_small by done.
    rewrite lookup_app_l by (rewrite length_byte_bits; lia). unfold byte_bits.
    rewrite list_lookup_fmap, lookup_seq_lt by lia. done.
  - rewrite lookup_app_r by (rewrite length_byte_bits; lia). rewrite length_byte_bits.
    replace (i / 8)%nat with (S ((i - 8) / 8)) in Hc.
    2: { replace i with ((i - 8) + 1 * 8)%nat at 2 by lia. rewrite Nat.div_add by lia. lia. }
    rewrite IH by done. do 3 f_equal. replace i with ((i - 8) + 1 * 8)%nat at 2 by lia.
    by rewrite Nat.Div0.mod_add.
Qed.

Lemma byte_get_Some bm i c :
  0 ≤ i → to_bytes (str bm) !! Z.to_nat i = Some c → byte_get bm i = Ret (byte_val c).
Proof. intros Hi Hc. unfold byte_get. by rewrite (proj2 (Z.ltb_ge _ _) Hi), Hc. Qed.

(** [GetBit] reads the sequence of bits and zeros behind its end. *)
Lemma GetBit_spec bm i : 0 ≤ i → GetBit bm i = Ret (default 0 (bits bm !! Z.to_nat i)).
Proof.
  intros Hi. unfold GetBit. rewrite Z.quot_div_nonneg, Z.rem_mod_nonneg by lia.
  destruct (_ >=? _) eqn:E; unbool.
  - rewrite lookup_ge_None_2; [done|]. pose proof (length_bits bm) as Hl. unfold BitSize in Hl.
    pose proof (Z.div_mod i 8). pose proof (Z.mod_pos_bound i 8). lia.
  - destruct (lookup_lt_is_Some_2 (to_bytes (str bm)) (Z.to_nat (i / 8))) as [c Hc].
    { rewrite length_to_bytes. unfold blen in E. pose proof (Z.div_pos i 8). lia. }
    rewrite (byte_get_Some bm _ c) by (done || apply Z.div_pos; lia). simpl.
    unfold shift_amount. pose proof (Z.mod_pos_bound i 8).
    rewrite (proj2 (Z.ltb_ge _ _)) by lia. simpl. unfold bits.
    assert (Z.to_nat i / 8 = Z.to_nat (i / 8))%nat as Hd by (rewrite Z2Nat.inj_div by lia; done).
    rewrite (bits_lookup_list _ _ c) by (by rewrite Hd). cbn [from_option id]. do 3 f_equal.
    rewrite Nat2Z.inj_mod. rewrite Z2Nat.id by lia. done.
Qed.

(** ** Writing a bit *)

Lemma to_bytes_zeros n : to_bytes (zeros n) = replicate (Z.to_nat n) "000"%char.
Proof. apply to_of_bytes. Qed.

Lemma bits_zeros n : concat (byte_bits <$> replicate n "000"%char) = replicate (8 * n) 0.
Proof.
  induction n as [|n IH]; [done|]. rewrite replicate_S, fmap_cons. cbn [concat]. rewrite IH.
  replace (8 * S n)%nat with (8 + 8 * n)%nat by lia. by rewrite replicate_add.
Qed.

(** Growing appends zero bits only. *)
Lemma grow_spec bm n :
  0 ≤ n → toByteSize n ≤ 281474976710656 →
  ∃ bm', grow bm n = Ret bm' ∧ blen bm' = Z.max (blen bm) (toByteSize n) ∧
    bits bm' = bits bm ++ replicate (8 * Z.to_nat (toByteSize n - blen bm)) 0.
Proof.
  intros Hn Hmax. unfold grow. destruct (_ <=? 0) eqn:E; unbool.
  - exists bm. split; [done|]. split; [lia|].
    replace (Z.to_nat _) with 0%nat by lia. by rewrite app_nil_r.
  - unfold make_slice. assert (0 ≤ blen bm) by (unfold blen; lia).
    destruct (_ || _) eqn:E2; [apply orb_true_iff in E2 as [E2|E2]; unbool; lia|]. simpl.
    eexists. split; [done|]. split.
    + unfold blen in *. simpl. rewrite length_string_app, <-(length_to_bytes (zeros _)), to_bytes_zeros, length_replicate. lia.
    + unfold bits. simpl. rewrite to_bytes_app, fmap_app, concat_app, to_bytes_zeros, bits_zeros. done.
Qed.

Lemma land1_testbit x i : 0 ≤ i → Z.land (Z.shiftr x i) 1 = Z.b2z (Z.testbit x i).
Proof.
  intros Hi. change 1 with (Z.ones 1). rewrite Z.land_ones by lia. change (2 ^ 1) with 2.
  rewrite <-Z.bit0_mod, Z.shiftr_spec by lia. f_equal.
Qed.

Lemma byte_write_bits b j (val : Z) :
  0 ≤ b < 256 → 0 ≤ j < 8 →
  let b' := if val >? 0 then Z.lor b (Z.shiftl 1 j) else Z.ldiff b (Z.shiftl 1 j) in
  ∀ i, 0 ≤ i < 8 →
    Z.testbit (byte_val (byte_of b')) i = if i =? j then val >? 0 else Z.testbit b i.
Proof.
  intros Hb Hj b' i Hi. rewrite byte_val_of. change 256 with (2 ^ 8). rewrite Z.mod_pow2_bits_low by lia.
  unfold b'. assert (Z.testbit (Z.shiftl 1 j) i = (i =? j)) as Hm.
  { rewrite Z.shiftl_spec by lia. destruct (i =? j) eqn:E; unbool.
    - subst i. by rewrite Z.sub_diag.
    - destruct (decide (i < j)); [by rewrite Z.testbit_neg_r by lia|]. rewrite Z.testbit_odd.
      rewrite Z.shiftr_div_pow2 by lia. rewrite Z.div_small; [done|].
      split; [lia|]. apply Z.pow_gt_1; lia. }
  destruct (val >? 0); [rewrite Z.lor_spec|rewrite Z.ldiff_spec]; rewrite Hm; destruct (i =? j);
    [by rewrite orb_true_r|by rewrite orb_false_r|by rewrite andb_false_r|by rewrite andb_true_r].
Qed.

(** Replacing a byte replaces its eight bits. *)
Lemma bits_update l i c c' j :
  l !! i = Some c → (j / 8)%nat ≠ i →
  concat (byte_bits <$> <[i := c']> l) !! j = concat (byte_bits <$> l) !! j.
Proof.
  intros Hc Hj. destruct (l !! (j / 8)%nat) as [d|] eqn:Hd.
  - rewrite (bits_lookup_list l j d Hd), (bits_lookup_list _ j d); [done|].
    by rewrite list_lookup_insert_ne.
  - rewrite !lookup_ge_None_2; [done| |].
    + rewrite length_bits_list. apply lookup_ge_None in Hd. pose proof (Nat.div_mod_eq j 8). lia.
    + rewrite length_bits_list, length_insert. apply lookup_ge_None in Hd. pose proof (Nat.div_mod_eq j 8). lia.
Qed.

Lemma toByteSize_succ off : 0 ≤ off → toByteSize (off + 1) = off / 8 + 1.
Proof.
  intros Ho. unfold toByteSize. rewrite Z.quot_div_nonneg, Z.rem_mod_nonneg by lia.
  destruct (_ =? 0) eqn:E; unbool; Z.div_mod_to_equations; lia.
Qed.

(** The largest offset whose byte can be allocated. *)
Definition max_offset : Z := 8 * 281474976710656 - 1.

Lemma SetBit_spec bm off v :
  0 ≤ off ≤ max_offset →
  ∃ bm', SetBit bm off v = Ret bm' ∧ blen bm' = Z.max (blen bm) (off / 8 + 1) ∧
    ∀ i, 0 ≤ i → default 0 (bits bm' !! Z.to_nat i) =
      if i =? off then Z.b2z (v >? 0) else default 0 (bits bm !! Z.to_nat i).
Proof.
  intros Ho. unfold max_offset in Ho. unfold SetBit. rewrite Z.quot_div_nonneg, Z.rem_mod_nonneg by lia.
  pose proof (Z.mod_pos_bound off 8 ltac:(lia)) as Hm. pose proof (Z.div_mod off 8 ltac:(lia)) as Hdm.
  unfold shift_amount. rewrite (proj2 (Z.ltb_ge _ _)) by lia. cbn [mbind outcome_bind].
  rewrite int64_id by (unfold is_int64, int64_min, int64_max; lia).
  destruct (grow_spec bm (off + 1)) as (bm1 & -> & Hlen & Hbits); [lia|rewrite toByteSize_succ by lia; lia|].
  rewrite toByteSize_succ in Hlen, Hbits by lia. cbn [mbind outcome_bind].
  set (k := Z.to_nat (off / 8)). assert (Z.of_nat k = off / 8) as Hk by (unfold k; lia).
  destruct (lookup_lt_is_Some_2 (to_bytes (str bm1)) k) as [c Hc].
  { rewrite length_to_bytes. unfold blen in Hlen. lia. }
  rewrite (byte_get_Some bm1 _ c) by (done || lia). cbn [mbind outcome_bind].
  set (b' := if v >? 0 then Z.lor (byte_val c) (Z.shiftl 1 (off mod 8)) else Z.ldiff (byte_val c) (Z.shiftl 1 (off mod 8))).
  assert ((if v >? 0 then byte_set bm1 (off / 8) (Z.lor (byte_val c) (Z.shiftl 1 (off mod 8)))
           else byte_set bm1 (off / 8) (Z.ldiff (byte_val c) (Z.shiftl 1 (off mod 8)))) =
          Ret (Some (of_bytes (<[k := byte_of b']> (to_bytes (str bm1)))))) as ->.
  { unfold byte_set, b'. rewrite (byte_get_Some bm1 _ c) by (done || lia). by destruct (v >? 0). }
  eexists. split; [done|]. split.
  { unfold blen in *. simpl. rewrite <-length_to_bytes, to_of_bytes, length_insert, length_to_bytes. done. }
  intros i Hi. unfold bits at 1. simpl. rewrite to_of_bytes.
  assert (default 0 (bits bm1 !! Z.to_nat i) = default 0 (bits bm !! Z.to_nat i)) as Hgrow.
  { rewrite Hbits. destruct (decide (Z.to_nat i < length (bits bm))%nat) as [Hl|Hl].
    - by rewrite lookup_app_l.
    - rewrite lookup_app_r, (lookup_ge_None_2 (bits bm)) by lia.
      destruct (replicate _ 0 !! _) as [z|] eqn:Ez; [|done]. by apply lookup_replicate in Ez as [-> _]. }
  destruct (decide ((Z.to_nat i / 8)%nat = k)) as [Hik|Hik].
  - rewrite (bits_lookup_list _ _ (byte_of b')).
    2: { rewrite Hik, list_lookup_insert_eq; [done|]. by eapply lookup_lt_Some. }
    rewrite <-Hgrow. unfold bits at 1. rewrite (bits_lookup_list _ _ c) by (by rewrite Hik).
    cbn [from_option id]. pose proof (Nat.mod_upper_bound (Z.to_nat i) 8 ltac:(lia)).
    rewrite !land1_testbit by lia. unfold b'.
    rewrite byte_write_bits by (lia || apply byte_val_range).
    assert ((Z.of_nat (Z.to_nat i mod 8) =? off mod 8) = (i =? off)) as ->; [|by destruct (i =? off)].
    pose proof (Nat.div_mod_eq (Z.to_nat i) 8). apply eq_true_iff_eq. rewrite !Z.eqb_eq. lia.
  - rewrite (bits_update _ _ c) by done. fold (bits bm1). rewrite Hgrow.
    destruct (i =? off) eqn:E; unbool; [|done]. subst i. destruct Hik.
    unfold k. rewrite Z2Nat.inj_div by lia. done.
Qed.

(** ** Iteration *)

Section iter_facts.
Context {S : Type} (cb : Z → Z → S → bool * S).

(** [fold_until] that also tells whether the consumer stopped it. *)
Fixpoint fold_flag (l : list Z) (i : Z) (s : S) : bool * S :=
  match l with
  | [] => (false, s)
  | x :: l' => let '(goNext, s') := cb i x s in
               if (goNext : bool) then fold_flag l' (i + 1) s' else (true, s')
  end.

Lemma fold_flag_until l i s : (fold_flag l i s).2 = fold_until cb l i s.
Proof.
  revert i s. induction l as [|x l IH]; intros i s; simpl; [done|]. destruct (cb i x s) as [[|] s']; [apply IH|done].
Qed.

Lemma fold_flag_app l1 l2 i s :
  fold_flag (l1 ++ l2) i s =
    let r := fold_flag l1 i s in if r.1 then r else fold_flag l2 (i + Z.of_nat (length l1)) r.2.
Proof.
  revert i s. induction l1 as [|x l1 IH]; intros i s; simpl; [by rewrite Z.add_0_r|].
  destruct (cb i x s) as [[|] s']; [|done]. rewrite IH. simpl.
  by replace (i + 1 + Z.of_nat (length l1)) with (i + Z.of_nat (Datatypes.S (length l1))) by lia.
Qed.

(** How many of [n] positions from [off] lie before the end. *)
Definition upto (stop off : Z) (n : nat) : nat := if stop =? 0 then n else Nat.min n (Z.to_nat (stop - off)).

Lemma bit_loop_spec n c bo off stop s :
  (stop = 0 ∨ off < stop) → 0 ≤ bo → bo + Z.of_nat n ≤ 8 →
  let r := fold_flag (take (upto stop off n) (drop (Z.to_nat bo) (byte_bits c))) off s in
  ∃ off', bit_loop cb n (byte_val c) bo off stop s = (r.1, off', r.2) ∧
    (r.1 = false → off' = off + Z.of_nat (upto stop off n)).
Proof.
  revert bo off s. induction n as [|n IH]; intros bo off s Hst Hbo Hn r.
  { unfold r, upto. destruct (stop =? 0); simpl; eexists; (split; [done|]); intros _; lia. }
  assert (byte_bits c !! Z.to_nat bo = Some (Z.land (Z.shiftr (byte_val c) bo) 1)) as Hb.
  { unfold byte_bits. rewrite list_lookup_fmap, lookup_seq_lt by lia. simpl. by rewrite Z2Nat.id by lia. }
  assert (∃ u, upto stop off (Datatypes.S n) = Datatypes.S u ∧
    (if (off + 1 >=? stop) && negb (stop =? 0) then u = 0%nat else u = upto stop (off + 1) n)) as (u & Hu & Hu').
  { unfold upto. destruct (stop =? 0) eqn:E; unbool; cbn [negb].
    - eexists. split; [done|]. by rewrite andb_false_r.
    - exists (Nat.min n (Z.to_nat (stop - (off + 1)))). split; [lia|].
      rewrite andb_true_r. destruct (_ >=? _) eqn:E2; unbool; lia. }
  unfold r. rewrite Hu, (drop_lookup_cons _ _ _ Hb). simpl.
  destruct (cb off _ s) as [[|] s']; simpl; [|eexists; split; done].
  destruct ((off + 1 >=? stop) && negb (stop =? 0)) eqn:E.
  - subst u. simpl. eexists. split; [done|]. intros _. lia.
  - subst u. destruct (IH (bo + 1) (off + 1) s') as (off' & Hl & Ho); [|lia..|].
    { apply andb_false_iff in E as [E|E]; unbool; lia. }
    replace (Z.to_nat (bo + 1)) with (Datatypes.S (Z.to_nat bo)) in Hl, Ho by lia.
    exists off'. split; [done|]. intros Hf. rewrite Ho by done. lia.
Qed.

Lemma byte_loop_spec l bo off stop s :
  (stop = 0 ∨ off < stop) → 0 ≤ off → 0 ≤ bo < 8 →
  byte_loop cb l bo off stop s =
    (fold_flag (take (upto stop off (8 * length l)) (drop (Z.to_nat bo) (concat (byte_bits <$> l)))) off s).2.
Proof.
  revert bo off s. induction l as [|c l IH]; intros bo off s Hst Hoff Hbo.
  { simpl. by rewrite drop_nil, take_nil. }
  rewrite fmap_cons. cbn [concat byte_loop]. rewrite drop_app_le by (rewrite length_byte_bits; lia).
  destruct (bit_loop_spec (Z.to_nat (8 - bo)) c bo off stop s) as (off' & Hl & Ho); [done|lia..|].
  set (n := Z.to_nat (8 - bo)) in *. rewrite Hl.
  assert (length (drop (Z.to_nat bo) (byte_bits c)) = n) as Hn
    by (rewrite length_drop, length_byte_bits; unfold n; lia).
  destruct (fold_flag (take (upto stop off n) _) off s) as [st s'] eqn:Ef. simpl in Hl, Ho.
  set (m := upto stop off (8 * length (c :: l))).
  rewrite take_app, fold_flag_app.
  destruct (decide (stop = 0)) as [->|Hs0].
  - assert (upto 0 off n = n) as Hun by done. rewrite Hun in *.
    rewrite (take_ge _ m) by (rewrite Hn; unfold m, upto; simpl; lia).
    rewrite (take_ge _ n) in Ef by lia. rewrite Ef. simpl. destruct st; [done|].
    simpl. rewrite IH by lia. rewrite Hn, (Ho eq_refl). simpl. do 2 f_equal.
    change (drop (Z.to_nat 0) (concat (byte_bits <$> l))) with (concat (byte_bits <$> l)).
    rewrite !take_ge by (rewrite length_bits_list; unfold m, upto, n; simpl; lia). done.
  - destruct Hst as [|Hst]; [done|].
    assert (upto stop off n = Nat.min n (Z.to_nat (stop - off))) as Hun
      by (unfold upto; by rewrite (proj2 (Z.eqb_neq _ _) Hs0)).
    assert (n ≤ 8)%nat as Hn8 by (unfold n; lia).
    assert (m = Nat.min (8 * Datatypes.S (length l)) (Z.to_nat (stop - off))) as Hm
      by (unfold m, upto; by rewrite (proj2 (Z.eqb_neq _ _) Hs0)).
    assert (take m (drop (Z.to_nat bo) (byte_bits c)) = take (upto stop off n) (drop (Z.to_nat bo) (byte_bits c))) as ->.
    { rewrite Hun, Hm. destruct (decide (Z.to_nat (stop - off) ≤ n)%nat).
      - f_equal. lia.
      - rewrite !take_ge; [done|rewrite Hn; lia..]. }
    rewrite Ef. simpl. destruct st; [done|]. rewrite (Ho eq_refl), Hn.
    rewrite (proj2 (Z.gtb_lt _ _)) by lia. simpl. rewrite length_take, Hn.
    destruct (_ >=? _) eqn:E; unbool.
    + replace (m - n)%nat with 0%nat by lia. done.
    + rewrite IH by lia. rewrite Hun in *. replace (Nat.min (Nat.min n (Z.to_nat (stop - off))) n) with n by lia.
      replace (Nat.min n (Z.to_nat (stop - off))) with n by lia. do 2 f_equal.
      change (drop (Z.to_nat 0) (concat (byte_bits <$> l))) with (concat (byte_bits <$> l)).
      unfold upto. rewrite (proj2 (Z.eqb_neq _ _) Hs0), Hm.
      destruct (decide (Z.to_nat (stop - (off + Z.of_nat n)) ≤ 8 * length l)%nat); [f_equal; lia|].
      rewrite !take_ge by (rewrite length_bits_list; lia). done.
Qed.
End iter_facts.

(** [SetBit] writes exactly one bit: within the addressable range it
    succeeds, the bitmap becomes just large enough, the bit at the offset reads
    back as the value written, and every other bit, inside or behind the bitmap,
    reads as before. *)
Theorem SetBit_GetBit (bm : BitMap) (offset v : Z) :
  0 ≤ offset ≤ max_offset →
  ∃ bm', SetBit bm offset v = Ret bm' ∧
    blen bm' = Z.max (blen bm) (offset / 8 + 1) ∧
    ∀ i, 0 ≤ i → GetBit bm' i = if i =? offset then Ret (Z.b2z (v >? 0)) else GetBit bm i.
Proof.
  intros Ho. destruct (SetBit_spec bm offset v Ho) as (bm' & Hs & Hl & Hb).
  exists bm'. split_and!; [done..|]. intros i Hi. rewrite !GetBit_spec, Hb by done. by destruct (i =? offset).
Qed.

Lemma SetBit_GetBit_witness :
  ∃ bm', SetBit (Some "a"%string) 10 1 = Ret bm' ∧ blen bm' = 2 ∧
    ∀ i, 0 ≤ i → GetBit bm' i = if i =? 10 then Ret 1 else GetBit (Some "a"%string) i.
Proof. apply (SetBit_GetBit (Some "a"%string) 10 1). unfold max_offset. lia. Defined.

(** [ForEachBit] visits the bits from [begin] up to [stop] (to the end of the
    bitmap when [stop] is 0), in order, each with its offset, until the callback
    stops it; the nested byte and bit loops are not observable.  The range must
    not be empty: the loop calls the callback before it looks at [stop]. *)
Theorem ForEachBit_spec {S} (cb : Z → Z → S → bool * S) (bm : BitMap) (begin stop : Z) (s : S) :
  0 ≤ begin → stop = 0 ∨ begin < stop →
  ForEachBit cb bm begin stop s =
    fold_until cb (take (if stop =? 0 then length (bits bm) else Z.to_nat (stop - begin))
                     (drop (Z.to_nat begin) (bits bm))) begin s.
Proof.
  intros Hb Hst. unfold ForEachBit. rewrite Z.quot_div_nonneg, Z.rem_mod_nonneg by lia.
  pose proof (Z.mod_pos_bound begin 8 ltac:(lia)). pose proof (Z.div_mod begin 8 ltac:(lia)).
  rewrite byte_loop_spec by (done || lia). rewrite fold_flag_until. f_equal.
  assert (drop (Z.to_nat (begin mod 8)) (concat (byte_bits <$> drop (Z.to_nat (begin / 8)) (to_bytes (str bm)))) =
          drop (Z.to_nat begin) (bits bm)) as Hd.
  { unfold bits. replace (Z.to_nat begin) with (8 * Z.to_nat (begin / 8) + Z.to_nat (begin mod 8))%nat by lia.
    rewrite <-drop_drop. f_equal. generalize (Z.to_nat (begin / 8)) as k. generalize (to_bytes (str bm)) as l.
    induction l as [|c l IH]; intros [|k]; [done|by rewrite !drop_nil|done|].
    rewrite fmap_cons. cbn [concat]. replace (8 * Datatypes.S k)%nat with (8 + 8 * k)%nat by lia.
    rewrite <-drop_drop, drop_app_ge by (rewrite length_byte_bits; lia). simpl drop at 1.
    rewrite length_byte_bits. apply IH. }
  rewrite Hd. set (l := drop (Z.to_nat begin) (bits bm)).
  assert (length l ≤ 8 * length (drop (Z.to_nat (begin / 8)) (to_bytes (str bm))))%nat as Hl.
  { unfold l. rewrite <-Hd, length_drop, length_bits_list. lia. }
  unfold upto. destruct (stop =? 0) eqn:E.
  - rewrite !take_ge; [done|unfold l; rewrite length_drop; lia|lia].
  - destruct (decide (Z.to_nat (stop - begin) ≤ length l)%nat); [f_equal; lia|]. by rewrite !take_ge by lia.
Qed.

Lemma ForEachBit_spec_witness :
  ForEachBit (λ i b s, (true, s ++ [(i, b)])) (Some "ab"%string) 5 9 [] = [(5, 1); (6, 1); (7, 0); (8, 0)].
Proof.
  rewrite (ForEachBit_spec (λ i b s, (true, s ++ [(i, b)])) (Some "ab"%string) 5 9 []); [reflexivity|lia|lia].
Defined.

End Bitmap.
