(* ===== verification/SetDS.v ===== *)
(** * datastruct/set: [Set] over the [dict.Dict] interface

    A set stores its members as the keys of a dictionary.  The methods are
    written against the interface class of [Dict], so every theorem holds for
    sets over [SimpleDict] and over [ConcurrentDict]. *)

From Stdlib Require Import ZArith Lia String.
From stdpp Require Import base gmap strings numbers list.
From S2P Require Import Prelude GoStd Dict.

Local Open Scope Z_scope.

(** The stored values are nil interfaces: [unit]. *)
Record Set_ (D : Type) := mkSet { set_dict : D }.
Arguments mkSet {D} set_dict.
Arguments set_dict {D} _.

Module Sets.
Section methods.
Context {D : Type} `{DO : DictOps D unit}.

Definition Add (set : Set_ D) (val : string) : Set_ D * Z :=
  let '(d, n) := dict_put (set_dict set) val tt in (mkSet d, n).

Definition Remove (set : Set_ D) (val : string) : Set_ D * Z :=
  let '(d, (_, n)) := dict_remove (set_dict set) val in (mkSet d, n).

(** The methods below accept a nil receiver: [None]. *)
Definition Has (set : option (Set_ D)) (val : string) : bool :=
  match set with None => false | Some s => present (dict_get (set_dict s) val) end.

Definition Len (set : option (Set_ D)) : Z :=
  match set with None => 0 | Some s => dict_len (set_dict s) end.

(** The members a [ForEach] whose consumer always continues visits. *)
Definition ForEach (ord : range_order) (set : option (Set_ D)) : list string :=
  match set with None => [] | Some s => (dict_for_each ord (set_dict s)).*1 end.

(** A slice of [Len()] strings is filled and extended where needed. *)
Definition ToSlice (ord : range_order) (set : Set_ D) : list string :=
  let keys := ForEach ord (Some set) in
  keys ++ replicate (Z.to_nat (Len (Some set)) - length keys) EmptyString.

Definition SetScan (compile : string → option (string → bool)) (ord : range_order)
    (set : Set_ D) (cursor cnt : Z) (pattern : string) : list bytes * Z :=
  match compile pattern with
  | None => ([], -1)
  | Some isMatch =>
      (Some <$> filter (λ k, bool_decide (pattern = "*"%string) || isMatch k = true)
                  (ForEach ord (Some set)), 0)
  end.

Definition add_all (s : Set_ D) (members : list string) : Set_ D :=
  foldl (λ acc m, (Add acc m).1) s members.

Definition remove_all (s : Set_ D) (members : list string) : Set_ D :=
  foldl (λ acc m, (Remove acc m).1) s members.
End methods.

(** [Make] builds a set over a [SimpleDict]; so do the three operations below,
    whatever their arguments are built on. *)
Abbreviation SimpleSet := (Set_ (SimpleDict unit)).

Definition Make (members : list string) : SimpleSet := add_all (mkSet Simple.MakeSimple) members.

Definition MakeConcurrentSafe (members : list string) : Set_ (ConcurrentDict unit) :=
  add_all (mkSet (Concurrent.MakeConcurrent 1)) members.

Section operations.
Context {D : Type} `{DO : DictOps D unit} (ord : range_order).

Definition ShallowCopy (set : option (Set_ D)) : SimpleSet := add_all (Make []) (ForEach ord set).

(** [countMap[member]++]. *)
Definition count_member (m : gmap string Z) (member : string) : gmap string Z :=
  <[member := default 0 (m !! member) + 1]> m.

Definition count_members (sets : list (option (Set_ D))) : gmap string Z :=
  foldl (λ m set, foldl count_member m (ForEach ord set)) ∅ sets.

Definition Intersect (sets : list (option (Set_ D))) : SimpleSet :=
  match sets with
  | [] => Make []
  | _ =>
      add_all (Make [])
        (filter (λ k, count_members sets !! k = Some (Z.of_nat (length sets)))
           (range_map ord (count_members sets)).*1)
  end.

Definition Union (sets : list (option (Set_ D))) : SimpleSet :=
  foldl (λ result set, add_all result (ForEach ord set)) (Make []) sets.

Fixpoint diff_loop (result : SimpleSet) (sets : list (option (Set_ D))) : SimpleSet :=
  match sets with
  | [] => result
  | set :: sets' =>
      let result' := remove_all result (ForEach ord set) in
      if Len (Some result') =? 0 then result' else diff_loop result' sets'
  end.

Definition Diff (sets : list (option (Set_ D))) : SimpleSet :=
  match sets with
  | [] => Make []
  | set :: sets' => diff_loop (ShallowCopy set) sets'
  end.
End operations.

(** ** The mathematical set *)

Section facts.
Context {D : Type} `{DL : DictLaws D unit}.

Definition set_wf (s : Set_ D) : Prop := dict_wf (set_dict s).

Definition members (s : Set_ D) : gset string := dom (to_map (set_dict s)).

Lemma present_dom (m : gmap string unit) k : present (m !! k) = bool_decide (k ∈ dom m).
Proof.
  destruct (m !! k) eqn:E; simpl.
  - rewrite bool_decide_eq_true_2; [done|]. by eapply elem_of_dom_2.
  - rewrite bool_decide_eq_false_2; [done|]. by apply not_elem_of_dom.
Qed.

Lemma set_Add_spec s v : set_wf s →
  set_wf (Add s v).1 ∧ members (Add s v).1 = {[v]} ∪ members s ∧
  (Add s v).2 = flag (bool_decide (v ∉ members s)).
Proof.
  intros Hwf. unfold Add, set_wf, members in *.
  pose proof (law_put (set_dict s) v tt Hwf) as (H1 & H2 & H3).
  destruct (dict_put (set_dict s) v tt) as [d n]. simpl in *. split_and!; [done| |].
  - by rewrite H2, dom_insert_L.
  - rewrite H3, present_dom. f_equal. by case_bool_decide; case_bool_decide.
Qed.

Lemma set_Remove_spec s v : set_wf s →
  set_wf (Remove s v).1 ∧ members (Remove s v).1 = members s ∖ {[v]} ∧
  (Remove s v).2 = flag (bool_decide (v ∈ members s)).
Proof.
  intros Hwf. unfold Remove, set_wf, members in *.
  pose proof (law_remove (set_dict s) v Hwf) as (H1 & H2 & H3).
  destruct (dict_remove (set_dict s) v) as [d [o n]]. simpl in *. split_and!; [done| |].
  - by rewrite H2, dom_delete_L.
  - injection H3 as _ ->. by rewrite present_dom.
Qed.

Lemma Has_spec s v : set_wf s → Has (Some s) v = bool_decide (v ∈ members s).
Proof. intros Hwf. unfold Has. rewrite law_get by done. apply present_dom. Qed.

Lemma Len_spec s : set_wf s → Z.of_nat (size (members s)) < 2147483648 →
  Len (Some s) = Z.of_nat (size (members s)).
Proof. intros Hwf Hb. unfold Len, members in *. rewrite size_dom in *. by rewrite law_len. Qed.

(** The members of an optional set; nil is the empty set. *)
Definition omembers (o : option (Set_ D)) : gset string :=
  match o with Some s => members s | None => ∅ end.

Definition owf (o : option (Set_ D)) : Prop := match o with Some s => set_wf s | None => True end.

Lemma ForEach_perm ord s : fair_order ord → owf s → ForEach ord s ≡ₚ elements (omembers s).
Proof.
  intros Ho Hwf. destruct s as [s|]; simpl in *; [|by rewrite elements_empty].
  rewrite law_for_each by done. unfold members. apply NoDup_Permutation.
  - apply NoDup_fst_map_to_list.
  - apply NoDup_elements.
  - intros k. rewrite elem_of_elements, elem_of_dom, list_elem_of_fmap. split.
    + intros ([k' v] & -> & Hk). apply elem_of_map_to_list in Hk. eauto.
    + intros [v Hv]. exists (k, v). split; [done|]. by apply elem_of_map_to_list.
Qed.

Lemma elem_of_ForEach ord s k : fair_order ord → owf s → k ∈ ForEach ord s ↔ k ∈ omembers s.
Proof. intros Ho Hwf. rewrite (ForEach_perm ord s Ho Hwf). apply elem_of_elements. Qed.

Lemma add_all_spec s l : set_wf s →
  set_wf (add_all s l) ∧ members (add_all s l) = list_to_set l ∪ members s.
Proof.
  revert s. induction l as [|v l IH]; intros s Hwf; simpl; [split; [done|set_solver]|].
  destruct (set_Add_spec s v Hwf) as (H1 & H2 & _). destruct (IH _ H1) as [H3 H4].
  split; [exact H3|]. etransitivity; [exact H4|]. rewrite H2. set_solver.
Qed.

Lemma remove_all_spec s l : set_wf s →
  set_wf (remove_all s l) ∧ members (remove_all s l) = members s ∖ list_to_set l.
Proof.
  revert s. induction l as [|v l IH]; intros s Hwf; simpl; [split; [done|set_solver]|].
  destruct (set_Remove_spec s v Hwf) as (H1 & H2 & _). destruct (IH _ H1) as [H3 H4].
  split; [exact H3|]. etransitivity; [exact H4|]. rewrite H2. set_solver.
Qed.
End facts.

Section algebra.
Context {D : Type} `{DL : DictLaws D unit} (ord : range_order) (Hord : fair_order ord).
Implicit Types (sets : list (option (Set_ D))).

Lemma Make_nil_spec : set_wf (Make []) ∧ members (Make []) = ∅.
Proof. split; [done|]. unfold members. simpl. by rewrite dom_empty_L. Qed.

Lemma ShallowCopy_spec (s : option (Set_ D)) : owf s →
  set_wf (ShallowCopy ord s) ∧ members (ShallowCopy ord s) = omembers s.
Proof.
  intros Hs. unfold ShallowCopy. destruct (add_all_spec (Make []) (ForEach ord s)) as [H1 H2]; [done|].
  split; [done|]. rewrite H2. apply set_eq. intros k. rewrite elem_of_union, elem_of_list_to_set.
  rewrite elem_of_ForEach by done. destruct Make_nil_spec as [_ ->]. set_solver.
Qed.

Lemma Union_loop acc sets k :
  Forall owf sets →
  k ∈ members (foldl (λ result (set : option (Set_ D)), add_all result (ForEach ord set)) acc sets : SimpleSet) ↔
  k ∈ members acc ∨ ∃ s, s ∈ sets ∧ k ∈ omembers s.
Proof.
  intros Hw. revert acc. induction Hw as [|s sets Hs _ IH]; intros acc; simpl; [set_solver|].
  rewrite IH. destruct (add_all_spec acc (ForEach ord s)) as [_ ->]; [done|].
  rewrite elem_of_union, elem_of_list_to_set, elem_of_ForEach by done. set_solver.
Qed.

Lemma Union_spec sets k :
  Forall owf sets → k ∈ members (Union ord sets) ↔ ∃ s, s ∈ sets ∧ k ∈ omembers s.
Proof. intros Hw. unfold Union. rewrite Union_loop by done. destruct Make_nil_spec as [_ ->]. set_solver. Qed.

Lemma count_member_foldl (m : gmap string Z) l k : NoDup l →
  default 0 (foldl count_member m l !! k) = default 0 (m !! k) + Z.b2z (bool_decide (k ∈ l)).
Proof.
  intros Hl. revert m. induction Hl as [|v l Hv _ IH]; intros m; simpl; [lia|].
  rewrite IH. unfold count_member at 1. destruct (decide (k = v)) as [->|Hne].
  - rewrite lookup_insert_eq. simpl. rewrite bool_decide_eq_false_2 by done.
    rewrite bool_decide_eq_true_2 by set_solver. simpl. lia.
  - rewrite lookup_insert_ne by done. f_equal. f_equal. apply bool_decide_ext. set_solver.
Qed.

Lemma count_members_spec (m : gmap string Z) sets k : Forall owf sets →
  default 0 (foldl (λ m set, foldl count_member m (ForEach ord set)) m sets !! k) =
  default 0 (m !! k) + Z.of_nat (length (filter (λ s, k ∈ omembers s) sets)).
Proof.
  intros Hw. revert m. induction Hw as [|s sets Hs _ IH]; intros m; simpl; [lia|].
  rewrite IH, count_member_foldl.
  2: { rewrite (ForEach_perm ord s Hord Hs). apply NoDup_elements. }
  rewrite filter_cons. case_decide as Hk.
  - rewrite bool_decide_eq_true_2 by (by apply elem_of_ForEach). simpl. lia.
  - rewrite bool_decide_eq_false_2 by (by rewrite elem_of_ForEach). simpl. lia.
Qed.

Lemma Intersect_spec sets k :
  Forall owf sets →
  k ∈ members (Intersect ord sets) ↔ sets ≠ [] ∧ ∀ s, s ∈ sets → k ∈ omembers s.
Proof.
  intros Hw. destruct sets as [|s0 sets0] eqn:Es.
  { simpl. destruct Make_nil_spec as [_ ->]. set_solver. }
  rewrite <-Es in *. assert (sets ≠ []) as Hne by (by rewrite Es).
  assert (members (Intersect ord sets) = list_to_set (filter (λ k, count_members ord sets !! k = Some (Z.of_nat (length sets)))
    (range_map ord (count_members ord sets)).*1) ∪ members (Make [])) as ->.
  { unfold Intersect. rewrite Es. by apply add_all_spec. }
  destruct Make_nil_spec as [_ ->]. rewrite union_empty_r_L, elem_of_list_to_set, list_elem_of_filter.
  pose proof (count_members_spec ∅ sets k Hw) as Hc. rewrite lookup_empty in Hc. simpl in Hc. fold (count_members ord sets) in Hc.
  assert (k ∈ (range_map ord (count_members ord sets)).*1 ↔ is_Some (count_members ord sets !! k)) as ->.
  { rewrite range_map_perm by done. rewrite list_elem_of_fmap. split.
    - intros ([k' v] & -> & Hk). apply elem_of_map_to_list in Hk. by eexists.
    - intros [v Hv]. exists (k, v). split; [done|]. by apply elem_of_map_to_list. }
  assert (count_members ord sets !! k = Some (Z.of_nat (length sets)) ↔
    length (filter (λ s, k ∈ omembers s) sets) = length sets) as Hiff.
  { destruct (count_members ord sets !! k) as [c|]; simpl in Hc; split.
    - intros [= ->]. lia.
    - intros E. f_equal. lia.
    - done.
    - rewrite Es in *. simpl in *. lia. }
  rewrite Hiff. split.
  - intros [HL _]. split; [done|]. intros s Hs. apply list_elem_of_split in Hs as (l1 & l2 & ->).
    rewrite list.filter_app, filter_cons, !length_app in HL. simpl in HL.
    pose proof (length_filter (λ s, k ∈ omembers s) l1). pose proof (length_filter (λ s, k ∈ omembers s) l2).
    destruct (decide (k ∈ omembers s)) as [|Hn]; [done|]. simpl in HL. lia.
  - intros [_ Ha]. assert (length (filter (λ s, k ∈ omembers s) sets) = length sets) as HL.
    { f_equal. apply filter_all, list.Forall_forall. exact Ha. }
    split; [done|]. apply Hiff in HL. by eexists.
Qed.

Lemma simple_set_len (s : SimpleSet) : Len (Some s) = Z.of_nat (size (members s)).
Proof. unfold members. by rewrite size_dom. Qed.

Lemma diff_loop_spec (result : SimpleSet) sets k :
  Forall owf sets →
  k ∈ members (diff_loop ord result sets) ↔ k ∈ members result ∧ ∀ s, s ∈ sets → k ∉ omembers s.
Proof.
  intros Hw. revert result. induction Hw as [|s sets Hs _ IH]; intros result; cbn [diff_loop]; [set_solver|].
  destruct (remove_all_spec result (ForEach ord s)) as [_ Hm]; [done|].
  assert (∀ x, x ∈ members (remove_all result (ForEach ord s)) ↔ x ∈ members result ∧ x ∉ omembers s) as Hx.
  { intros x. rewrite Hm, elem_of_difference, elem_of_list_to_set, elem_of_ForEach by done. done. }
  destruct (_ =? 0) eqn:E; unbool.
  - rewrite simple_set_len in E. assert (members (remove_all result (ForEach ord s)) = ∅) as He
      by (apply leibniz_equiv, size_empty_iff; lia).
    specialize (Hx k). rewrite He in *. split; [set_solver|]. intros [H1 H2]. apply Hx. set_solver.
  - rewrite IH, Hx. set_solver.
Qed.

(** The set operations are the mathematical ones, for sets over either
    dictionary, with nil standing for the empty set and whatever order the
    runtime iterates in: a key is in [Union] when it is in some argument, in
    [Intersect] when it is in every argument (and there is one), and in [Diff]
    when it is in the first and in no other. *)
Theorem set_operations_spec sets (k : string) :
  Forall owf sets →
  (k ∈ members (Union ord sets) ↔ ∃ s, s ∈ sets ∧ k ∈ omembers s) ∧
  (k ∈ members (Intersect ord sets) ↔ sets ≠ [] ∧ ∀ s, s ∈ sets → k ∈ omembers s) ∧
  (k ∈ members (Diff ord sets) ↔
     ∃ s0 rest, sets = s0 :: rest ∧ k ∈ omembers s0 ∧ ∀ s, s ∈ rest → k ∉ omembers s).
Proof using Hord.
  intros Hw. split_and!; [by apply Union_spec|by apply Intersect_spec|].
  destruct sets as [|s0 sets]; simpl Diff.
  - destruct Make_nil_spec as [_ ->]. split; [set_solver|]. intros (? & ? & ? & _). done.
  - apply list.Forall_cons in Hw as [Hs0 Hw]. rewrite diff_loop_spec by done.
    destruct (ShallowCopy_spec s0 Hs0) as [_ ->]. split; [naive_solver|].
    intros (s & r & [= <- <-] & ?). done.
Qed.
End algebra.

Lemma set_operations_spec_witness :
  "b"%string ∈ members (Intersect id [Some (Make ["a"; "b"]); Some (Make ["b"])]%string).
Proof.
  destruct (set_operations_spec (D := SimpleDict unit) id (λ ks, Permutation_refl ks)
    [Some (Make ["a"; "b"]); Some (Make ["b"])]%string "b") as (_ & Hi & _); [|apply Hi].
  - repeat constructor.
  - split; [discriminate|]. intros s Hs.
    assert (s = Some (Make ["a"; "b"]%string) ∨ s = Some (Make ["b"]%string)) as [-> | ->] by set_solver;
      apply (bool_decide_unpack _); vm_compute; exact I.
Defined.

End Sets.
