(* ===== verification/Protocol.v ===== *)
(** * redis/protocol: replies and their wire format

    [Reply] has one constructor per reply type of redis/protocol; [ToBytes] is
    the RESP encoding of each. *)

From Stdlib Require Import ZArith Lia Ascii String.
From stdpp Require Import base list strings numbers.
From S2P Require Import Prelude GoStd.

Local Open Scope string_scope.
Local Open Scope list_scope.
Local Open Scope Z_scope.

Inductive Reply :=
  | BulkReply (Arg : bytes)
  | MultiBulkReply (Args : list bytes)
  | MultiRawReply (Replies : list Reply)
  | StatusReply (Status : string)
  | IntReply (Code : Z)
  | StandardErrReply (Status : string)
  | PongReply
  | OkReply
  | NullBulkReply
  | EmptyMultiBulkReply
  | NoReply
  | QueuedReply
  | UnknownErrReply
  | ArgNumErrReply (Cmd : string)
  | SyntaxErrReply
  | WrongTypeErrReply
  | ProtocolErrReply (Msg : string).

Definition LF : ascii := "010".
Definition CR : ascii := "013".
Definition CRLF : string := String CR (String LF "").

(** The loop body of [MultiBulkReply.ToBytes]; a [BulkReply] has the same form. *)
Definition bulk_bytes (arg : bytes) : string :=
  match arg with
  | None => "$-1" +:+ CRLF
  | Some s => "$" +:+ Itoa (slen s) +:+ CRLF +:+ s +:+ CRLF
  end.

Definition concat_strings (l : list string) : string := foldr String.append "" l.

Lemma concat_strings_cons x l : concat_strings (x :: l) = x +:+ concat_strings l.
Proof. done. Qed.

Fixpoint ToBytes (r : Reply) : string :=
  match r with
  | BulkReply Arg => bulk_bytes Arg
  | MultiBulkReply Args =>
      "*" +:+ Itoa (Z.of_nat (length Args)) +:+ CRLF +:+ concat_strings (bulk_bytes <$> Args)
  | MultiRawReply Replies =>
      "*" +:+ Itoa (Z.of_nat (length Replies)) +:+ CRLF +:+ concat_strings (map ToBytes Replies)
  | StatusReply Status => "+" +:+ Status +:+ CRLF
  | IntReply Code => ":" +:+ FormatInt Code +:+ CRLF
  | StandardErrReply Status => "-" +:+ Status +:+ CRLF
  | PongReply => "+PONG" +:+ CRLF
  | OkReply => "+OK" +:+ CRLF
  | NullBulkReply => "$-1" +:+ CRLF
  | EmptyMultiBulkReply => "*0" +:+ CRLF
  | NoReply => ""
  | QueuedReply => "+QUEUED" +:+ CRLF
  | UnknownErrReply => "-Err unknown" +:+ CRLF
  | ArgNumErrReply Cmd => "-ERR wrong number of arguments for '" +:+ Cmd +:+ "' command" +:+ CRLF
  | SyntaxErrReply => "-Err syntax error" +:+ CRLF
  | WrongTypeErrReply =>
      "-WRONGTYPE Operation against a key holding the wrong kind of value" +:+ CRLF
  | ProtocolErrReply Msg => "-ERR Protocol error: '" +:+ Msg +:+ "'" +:+ CRLF
  end.

Definition IsOKReply (r : Reply) : bool := String.eqb (ToBytes r) ("+OK" +:+ CRLF).

(** [reply.ToBytes()[0] == '-']; the empty encoding of [NoReply] has no first byte. *)
Definition IsErrorReply (r : Reply) : outcome bool :=
  match ToBytes r with
  | EmptyString => Panic "index out of range"
  | String c _ => Ret (Ascii.eqb c "-")
  end.

Definition IsEmptyMultiBulkReply (r : Reply) : bool := String.eqb (ToBytes r) ("*0" +:+ CRLF).

(** [Try2ErrorReply]: the error text of an error reply, [None] for the others. *)
Definition Try2ErrorReply (r : Reply) : option string :=
  match ToBytes r with
  | EmptyString => Some "empty reply"
  | String c s => if Ascii.eqb c "-" then Some s else None
  end.

(** The [Error()] text of the replies that implement [ErrorReply]. *)
Definition Error (r : Reply) : option string :=
  match r with
  | StandardErrReply Status => Some Status
  | UnknownErrReply => Some "Err unknown"
  | ArgNumErrReply Cmd => Some ("ERR wrong number of arguments for '" +:+ Cmd +:+ "' command")
  | SyntaxErrReply => Some "Err syntax error"
  | WrongTypeErrReply => Some "WRONGTYPE Operation against a key holding the wrong kind of value"
  | ProtocolErrReply Msg => Some ("ERR Protocol error '" +:+ Msg +:+ "' command")
  | _ => None
  end.
