(* ===== verification/Parser.v ===== *)
(** * redis/parser: reading RESP from a stream

    A reader is the bytes it has still to deliver; the end of the string is the
    end of the stream.  [ParseV2] (the request parser of the server) and [parse0]
    (the streaming parser of the client, the replica and the AOF loader) are
    modelled whole, and both are proved to invert the encoder. *)

From Stdlib Require Import ZArith Lia Ascii String.
From stdpp Require Import base list strings numbers.
From S2P Require Import Prelude GoStd Protocol.

Local Open Scope go_scope.
Local Open Scope string_scope.
Local Open Scope list_scope.
Local Open Scope Z_scope.

(** The errors of [io] and the ones the parsers make. *)
Inductive ReadErr := EOF | ErrUnexpectedEOF | ErrText (msg : string).

Abbreviation Reader := string.

(** [io.ReadFull(r, buf)] for a buffer of [n] bytes. *)
Definition ReadFull (n : Z) : GoM Reader (ReadErr + string) := λ r,
  if n =? 0 then (Ret (inr ""), r)
  else if slen r =? 0 then (Ret (inl EOF), r)
  else if slen r <? n then (Ret (inl ErrUnexpectedEOF), "")
  else (Ret (inr (substr r 0 n)), substr r n (slen r)).

(** ** parserv2.go *)

Fixpoint readLine_loop (r : Reader) (line : string) : (ReadErr + string) * Reader :=
  match r with
  | EmptyString => (inl EOF, "")
  | String c r' =>
      if Ascii.eqb c CR then
        match r' with
        | EmptyString => (inl (ErrText "unexpected EOF after \r"), "")
        | String c' r'' =>
            if Ascii.eqb c' LF then (inr line, r'') else (inl (ErrText "expected \n after \r"), r'')
        end
      else readLine_loop r' (line +:+ String c "")
  end.

Definition readLine : GoM Reader (ReadErr + string) := λ r,
  let '(res, r') := readLine_loop r "" in (Ret res, r').

Definition readInteger : GoM Reader (ReadErr + Z) :=
  let! line := readLine in
  match Atoi line with
  | inl e => mret (inl (ErrText (num_error_text "Atoi" line e)))
  | inr n => mret (inr n)
  end.

(** One argument of the request: [result[i]]. *)
Definition readArg : GoM Reader (ReadErr + bytes) :=
  let! buf := ReadFull 1 in
  if String.eqb buf "$" then
    let! strLen := readInteger in
    if strLen <? 0 then mret (inr None)
    else
      go_lift (make_slice 1 (int64 (strLen + 2))) ≫= λ _,
      let! data := ReadFull (strLen + 2) in
      mret (inr (Some (substr data 0 strLen)))
  else mret (inl (ErrText "unsupported RESP type")).

Fixpoint readArgs (count : nat) (result : list bytes) : GoM Reader (ReadErr + list bytes) :=
  match count with
  | O => mret (inr result)
  | S n => let! arg := readArg in readArgs n (result ++ [arg])
  end.

Definition ParseV2 : GoM Reader (ReadErr + list bytes) :=
  let! buf := ReadFull 1 in
  if negb (String.eqb buf "*") then
    let! buf2 := readLine in
    mret (inr (Some <$> Split (buf +:+ buf2) " "))
  else
    let! count := readInteger in
    if count <? 0 then mret (inr [])
    else
      go_lift (make_slice 24 count) ≫= λ _,
      readArgs (Z.to_nat count) [].

(** ** parser.go *)

Inductive Payload := PData (Data : Reply) | PErr (Err : ReadErr).

(** How a helper of [parse0] ends: it returns, with the rest of the input and an
    optional error, or it panics. *)
Inductive sub_result := SOk (r : Reader) | SErr (e : ReadErr) | SPanic.

Definition protocolError (msg : string) : Payload := PErr (ErrText ("protocol error: " +:+ msg)).

(** [reader.ReadBytes('\n')]: the line with its delimiter, [None] for [io.EOF]. *)
Fixpoint ReadBytes (r : Reader) : option (string * Reader) :=
  match r with
  | EmptyString => None
  | String c r' =>
      if Ascii.eqb c LF then Some (String c "", r')
      else match ReadBytes r' with
           | Some (line, rest) => Some (String c line, rest)
           | None => None
           end
  end.

Definition byte_at (s : string) (i : Z) : ascii := default "000"%char (String.get (Z.to_nat i) s).

(** [bytes.TrimSuffix(line, "\r\n")]. *)
Definition TrimCRLF (s : string) : string :=
  if (2 <=? slen s) && String.eqb (substr s (slen s - 2) (slen s)) CRLF
  then substr s 0 (slen s - 2) else s.

Definition tail_from (s : string) (i : Z) : string := substr s i (slen s).

(** [body := make([]byte, n); io.ReadFull(reader, body)]. *)
Definition read_body (n : Z) (r : Reader) : outcome (ReadErr + string) * Reader :=
  match make_slice 1 n with
  | Ret _ => ReadFull n r
  | Panic m => (Panic m, r)
  | Block => (Block, r)
  end.

Definition parseBulkString (header : string) (r : Reader) : list Payload * sub_result :=
  match ParseInt (tail_from header 1) with
  | inl _ => ([protocolError ("illegal bulk string header: " +:+ header)], SOk r)
  | inr strLen =>
      if strLen <? -1 then ([protocolError ("illegal bulk string header: " +:+ header)], SOk r)
      else if strLen =? -1 then ([PData NullBulkReply], SOk r)
      else
        match read_body (int64 (strLen + 2)) r with
        | (Ret (inr body), r') => ([PData (BulkReply (Some (substr body 0 strLen)))], SOk r')
        | (Ret (inl e), _) => ([], SErr e)
        | _ => ([], SPanic)
        end
  end.

Definition parseRDBBulkString (r : Reader) : list Payload * sub_result :=
  match ReadBytes r with
  | None => ([], SErr (ErrText "failed to read bytes"))
  | Some (line, r') =>
      let header := TrimCRLF line in
      if slen header =? 0 then ([], SErr (ErrText "empty header"))
      else
        let illegal := ([], SErr (ErrText ("illegal bulk header: " +:+ header))) in
        match ParseInt (tail_from header 1) with
        | inl _ => illegal
        | inr strLen =>
            if strLen <=? 0 then illegal
            else
              match read_body strLen r' with
              | (Ret (inr body), r'') => ([PData (BulkReply (Some body))], SOk r'')
              | (Ret (inl e), _) => ([], SErr e)
              | _ => ([], SPanic)
              end
        end
  end.

(** The loop of [parseArray]; a [break] still sends the strings read so far. *)
Fixpoint parseArray_loop (n : nat) (r : Reader) (lines : list bytes) : list Payload * sub_result :=
  match n with
  | O => ([PData (MultiBulkReply lines)], SOk r)
  | S n' =>
      match ReadBytes r with
      | None => ([], SErr EOF)
      | Some (line, r') =>
          let length := slen line in
          if (length <? 4) || negb (Ascii.eqb (byte_at line (length - 2)) CR)
             || negb (Ascii.eqb (byte_at line 0) "$")
          then ([protocolError ("illegal bulk string header " +:+ line);
                 PData (MultiBulkReply lines)], SOk r')
          else
            let illegal := ([protocolError ("illegal bulk string length " +:+ line);
                             PData (MultiBulkReply lines)], SOk r') in
            match ParseInt (substr line 1 (length - 2)) with
            | inl _ => illegal
            | inr strLen =>
                if strLen <? -1 then illegal
                else if strLen =? -1 then parseArray_loop n' r' (lines ++ [Some ""])
                else
                  match read_body (int64 (strLen + 2)) r' with
                  | (Ret (inr body), r'') =>
                      parseArray_loop n' r'' (lines ++ [Some (substr body 0 strLen)])
                  | (Ret (inl e), _) => ([], SErr e)
                  | _ => ([], SPanic)
                  end
            end
      end
  end.

Definition parseArray (header : string) (r : Reader) : list Payload * sub_result :=
  match ParseInt (tail_from header 1) with
  | inl _ => ([protocolError ("illegal array header " +:+ tail_from header 1)], SOk r)
  | inr nStrs =>
      if nStrs <? 0 then ([protocolError ("illegal array header " +:+ tail_from header 1)], SOk r)
      else if nStrs =? 0 then ([PData EmptyMultiBulkReply], SOk r)
      else
        match make_slice 24 nStrs with
        | Ret _ => parseArray_loop (Z.to_nat nStrs) r []
        | _ => ([], SPanic)
        end
  end.

Definition HasPrefix (s prefix : string) : bool := String.prefix prefix s.

(** The switch on the first byte of a line without its CRLF. *)
Definition parse_line (line : string) (r : Reader) : list Payload * sub_result :=
  let c := byte_at line 0 in
  let content := tail_from line 1 in
  if Ascii.eqb c "+" then
    if HasPrefix content "FULLRESYNC" then
      let '(ps, res) := parseRDBBulkString r in (PData (StatusReply content) :: ps, res)
    else ([PData (StatusReply content)], SOk r)
  else if Ascii.eqb c "-" then ([PData (StandardErrReply content)], SOk r)
  else if Ascii.eqb c ":" then
    match ParseInt content with
    | inl _ => ([protocolError ("illegal number " +:+ content)], SOk r)
    | inr value => ([PData (IntReply value)], SOk r)
    end
  else if Ascii.eqb c "$" then parseBulkString line r
  else if Ascii.eqb c "*" then parseArray line r
  else ([PData (MultiBulkReply (Some <$> Split line " "))], SOk r).

(** The channel of [parse0]: closed after an error, or left open by a panic that
    the deferred [recover] swallowed. *)
Inductive channel_end := ChanClosed | ChanOpen.

Fixpoint parse0_loop (fuel : nat) (r : Reader) : outcome (list Payload * channel_end) :=
  match fuel with
  | O => Block
  | S f =>
      match ReadBytes r with
      | None => Ret ([PErr EOF], ChanClosed)
      | Some (line, r') =>
          let length := slen line in
          if (length <=? 2) || negb (Ascii.eqb (byte_at line (length - 2)) CR)
          then parse0_loop f r'
          else
            let '(ps, res) := parse_line (TrimCRLF line) r' in
            match res with
            | SOk r'' => q ← parse0_loop f r''; Ret (ps ++ q.1, q.2)
            | SErr e => Ret (ps ++ [PErr e], ChanClosed)
            | SPanic => Ret (ps, ChanOpen)
            end
      end
  end.

(** Every iteration reads at least one byte. *)
Definition parse0 (r : Reader) : outcome (list Payload * channel_end) :=
  parse0_loop (S (String.length r)) r.

(** [ParseBytes]: the loop over the channel; a channel that stays open blocks it. *)
Fixpoint collect (ps : list Payload) (fin : channel_end) (results : list Reply)
    : outcome (ReadErr + list Reply) :=
  match ps with
  | [] => match fin with ChanClosed => Ret (inr results) | ChanOpen => Block end
  | PErr EOF :: _ => Ret (inr results)
  | PErr e :: _ => Ret (inl e)
  | PData d :: ps' => collect ps' fin (results ++ [d])
  end.

Definition ParseBytes (data : string) : outcome (ReadErr + list Reply) :=
  r ← parse0 data; collect r.1 r.2 [].

(** [ParseOne]: the first payload. *)
Definition ParseOne (data : string) : outcome (ReadErr + Reply) :=
  r ← parse0 data;
  match r.1 with
  | PData d :: _ => Ret (inr d)
  | PErr e :: _ => Ret (inl e)
  | [] => match r.2 with ChanClosed => Ret (inl (ErrText "no protocol")) | ChanOpen => Block end
  end.

(** ** Reading back one request *)

Lemma readLine_loop_spec s acc rest :
  no_char CR s = true → readLine_loop (s +:+ CRLF +:+ rest) acc = (inr (acc +:+ s), rest).
Proof.
  revert acc. induction s as [|c s IH]; intros acc Hs; [simpl; by rewrite string_app_nil_r|].
  simpl in Hs. unbool. rewrite string_app_cons. cbn [readLine_loop].
  rewrite H, IH by done. by rewrite string_app_assoc.
Qed.

Lemma ReadFull_app s rest : s ≠ "" → ReadFull (slen s) (s +:+ rest) = (Ret (inr s), rest).
Proof.
  intros Hs. unfold ReadFull. rewrite slen_app. pose proof (slen_nonneg rest).
  assert (0 < slen s) by (destruct s; [done|rewrite slen_cons; pose proof (slen_nonneg s); lia]).
  rewrite !(proj2 (Z.eqb_neq _ _)) by lia. rewrite (proj2 (Z.ltb_ge _ _)) by lia.
  by rewrite substr_app_l, <-slen_app, substr_app_r.
Qed.

Definition max_alloc : Z := 281474976710656.

Lemma make_slice_ok e n : 0 ≤ n → n * e ≤ max_alloc → make_slice e n = Ret tt.
Proof.
  intros Hn He. unfold make_slice. unfold max_alloc in He.
  destruct (_ || _) eqn:E; [|done]. apply orb_true_iff in E as [E|E]; unbool; lia.
Qed.

Lemma readInteger_spec z rest :
  is_int64 z → readInteger (FormatInt z +:+ CRLF +:+ rest) = (Ret (inr z), rest).
Proof.
  intros Hz. unfold readInteger. erewrite early_err_inr.
  2: { unfold readLine. by rewrite readLine_loop_spec by (by apply FormatInt_no_char). }
  change ("" +:+ FormatInt z) with (FormatInt z). unfold Atoi. by rewrite ParseInt_FormatInt.
Qed.

(** A string that [make] can allocate with its line end. *)
Definition arg_ok (a : bytes) : Prop := slen (str a) + 2 ≤ max_alloc.

Lemma int64_small n : 0 ≤ n ≤ max_alloc → is_int64 n.
Proof. unfold is_int64, int64_min, int64_max, max_alloc. lia. Qed.

Lemma readArg_spec a rest : arg_ok a → readArg (bulk_bytes a +:+ rest) = (Ret (inr a), rest).
Proof.
  intros Ha. unfold arg_ok in Ha. unfold readArg.
  destruct a as [s|]; unfold bulk_bytes; rewrite !string_app_assoc.
  - simpl in Ha. pose proof (slen_nonneg s).
    erewrite early_err_inr by (by apply (ReadFull_app "$")). simpl.
    erewrite early_err_inr by (apply readInteger_spec, int64_small; lia). simpl.
    rewrite (proj2 (Z.ltb_ge _ _)) by done.
    rewrite int64_id by (apply int64_small; lia).
    erewrite bind_Ret by (unfold go_lift; by rewrite make_slice_ok by lia). simpl.
    replace (slen s + 2) with (slen (s +:+ CRLF)) by (by rewrite slen_app).
    rewrite <-(string_app_assoc s CRLF rest).
    erewrite early_err_inr by (apply ReadFull_app; by destruct s). by rewrite substr_app_l.
  - change ("$-1" +:+ CRLF +:+ rest) with ("$" +:+ FormatInt (-1) +:+ CRLF +:+ rest).
    erewrite early_err_inr by (by apply (ReadFull_app "$")). simpl.
    by erewrite early_err_inr by (by apply readInteger_spec).
Qed.

Lemma readArgs_spec args acc rest :
  Forall arg_ok args →
  readArgs (length args) acc (concat_strings (bulk_bytes <$> args) +:+ rest) = (Ret (inr (acc ++ args)), rest).
Proof.
  intros Ha. revert acc. induction Ha as [|a args Ha _ IH]; intros acc; simpl; [by rewrite app_nil_r|].
  rewrite string_app_assoc. erewrite early_err_inr by (by apply readArg_spec).
  by rewrite IH, <-app_assoc.
Qed.

(** [C35] The request parser inverts the encoder: from a stream that begins with
    an encoded request, [ParseV2] returns exactly the arguments of the request,
    nil arguments included and whatever bytes they hold, and leaves exactly the
    rest of the stream for the next request. *)
Theorem ParseV2_roundtrip (args : list bytes) (rest : string) :
  Forall arg_ok args → Z.of_nat (length args) * 24 ≤ max_alloc →
  ParseV2 (ToBytes (MultiBulkReply args) +:+ rest) = (Ret (inr args), rest).
Proof.
  intros Ha Hn. unfold ParseV2, ToBytes. rewrite !string_app_assoc.
  erewrite early_err_inr by (by apply (ReadFull_app "*")). simpl.
  erewrite early_err_inr by (apply readInteger_spec, int64_small; unfold max_alloc in *; lia).
  rewrite (proj2 (Z.ltb_ge _ _)) by lia.
  erewrite bind_Ret by (unfold go_lift; by rewrite make_slice_ok by lia).
  rewrite Nat2Z.id. by apply readArgs_spec.
Qed.

Lemma ParseV2_roundtrip_witness :
  ParseV2 (ToBytes (MultiBulkReply [Some "SET"; Some CRLF; None; Some ""]) +:+ "*1") =
    (Ret (inr [Some "SET"; Some CRLF; None; Some ""]), "*1").
Proof.
  apply ParseV2_roundtrip.
  - repeat constructor; vm_compute; discriminate.
  - vm_compute; discriminate.
Defined.

(** ** Reading back a stream of replies *)

Lemma ReadBytes_spec s rest :
  no_char LF s = true → ReadBytes (s +:+ CRLF +:+ rest) = Some (s +:+ CRLF, rest).
Proof.
  induction s as [|c s IH]; intros Hs; [done|]. simpl in Hs. unbool.
  rewrite !string_app_cons. cbn [ReadBytes]. by rewrite H, IH by done.
Qed.

Lemma byte_at_app_l c s : byte_at (String c s) 0 = c.
Proof. done. Qed.

Lemma get_app_r a b i : String.get (String.length a + i) (a +:+ b) = String.get i b.
Proof. induction a as [|c a IH]; [done|]. by rewrite string_app_cons. Qed.

Lemma byte_at_cr s : byte_at (s +:+ CRLF) (slen (s +:+ CRLF) - 2) = CR.
Proof.
  unfold byte_at. replace (Z.to_nat _) with (String.length s + 0)%nat.
  - by rewrite get_app_r.
  - rewrite slen_app. change (slen CRLF) with 2. unfold slen. lia.
Qed.

Lemma TrimCRLF_spec s : TrimCRLF (s +:+ CRLF) = s.
Proof.
  unfold TrimCRLF. rewrite slen_app. change (slen CRLF) with 2. pose proof (slen_nonneg s).
  rewrite (proj2 (Z.leb_le _ _)) by lia. replace (slen s + 2 - 2) with (slen s) by lia.
  replace (slen s + 2) with (slen (s +:+ CRLF)) by (by rewrite slen_app).
  by rewrite substr_app_r, substr_app_l, String.eqb_refl.
Qed.

Lemma tail_from_cons c s : tail_from (String c s) 1 = s.
Proof. apply (substr_app_r (String c "") s). Qed.

(** One iteration on a line that is not skipped. *)
Lemma parse0_header f s t :
  no_char LF s = true → s ≠ "" →
  parse0_loop (S f) (s +:+ CRLF +:+ t) =
    match parse_line s t with
    | (ps, SOk r) => q ← parse0_loop f r; Ret (ps ++ q.1, q.2)
    | (ps, SErr e) => Ret (ps ++ [PErr e], ChanClosed)
    | (ps, SPanic) => Ret (ps, ChanOpen)
    end.
Proof.
  intros Hs Hne. cbn [parse0_loop]. rewrite ReadBytes_spec by done.
  assert (0 < slen s) by (destruct s; [done|rewrite slen_cons; pose proof (slen_nonneg s); lia]).
  rewrite byte_at_cr, TrimCRLF_spec, slen_app. change (slen CRLF) with 2.
  rewrite (proj2 (Z.leb_gt _ _)) by lia. simpl. by destruct (parse_line s t) as [ps []].
Qed.

(** What a receiver gets for a reply.  The fixed replies arrive as the status or
    error they spell out, an empty array as [EmptyMultiBulkReply], and a nil
    string inside an array as an empty string. *)
Definition as_received (r : Reply) : list Reply :=
  match r with
  | BulkReply None | NullBulkReply => [NullBulkReply]
  | BulkReply (Some s) => [BulkReply (Some s)]
  | MultiBulkReply [] | EmptyMultiBulkReply => [EmptyMultiBulkReply]
  | MultiBulkReply args => [MultiBulkReply ((λ a, Some (str a)) <$> args)]
  | StatusReply s => [StatusReply s]
  | IntReply n => [IntReply n]
  | PongReply => [StatusReply "PONG"]
  | OkReply => [StatusReply "OK"]
  | QueuedReply => [StatusReply "QUEUED"]
  | NoReply => []
  | StandardErrReply s => [StandardErrReply s]
  | UnknownErrReply => [StandardErrReply "Err unknown"]
  | ArgNumErrReply c => [StandardErrReply ("ERR wrong number of arguments for '" +:+ c +:+ "' command")]
  | SyntaxErrReply => [StandardErrReply "Err syntax error"]
  | WrongTypeErrReply =>
      [StandardErrReply "WRONGTYPE Operation against a key holding the wrong kind of value"]
  | ProtocolErrReply m => [StandardErrReply ("ERR Protocol error: '" +:+ m +:+ "'")]
  | MultiRawReply _ => []
  end.

(** The replies that can be framed: no line feed inside a line, numbers that are
    [int64], strings that can be allocated.  A status that announces an RDB file
    and the nested [MultiRawReply] are outside. *)
Definition sendable (r : Reply) : Prop :=
  match r with
  | BulkReply a => arg_ok a
  | MultiBulkReply args => Forall arg_ok args ∧ Z.of_nat (length args) * 24 ≤ max_alloc
  | MultiRawReply _ => False
  | StatusReply s => no_char LF s = true ∧ HasPrefix s "FULLRESYNC" = false
  | IntReply n => is_int64 n
  | StandardErrReply s | ArgNumErrReply s | ProtocolErrReply s => no_char LF s = true
  | _ => True
  end.

Lemma read_body_spec s rest :
  slen s + 2 ≤ max_alloc → read_body (int64 (slen s + 2)) (s +:+ CRLF +:+ rest) = (Ret (inr (s +:+ CRLF)), rest).
Proof.
  intros Hs. pose proof (slen_nonneg s). rewrite int64_id by (apply int64_small; lia).
  unfold read_body. rewrite make_slice_ok by lia.
  replace (slen s + 2) with (slen (s +:+ CRLF)) by (by rewrite slen_app).
  rewrite <-string_app_assoc. apply ReadFull_app. by destruct s.
Qed.

Lemma parseBulkString_spec s rest :
  slen s + 2 ≤ max_alloc →
  parseBulkString ("$" +:+ Itoa (slen s)) (s +:+ CRLF +:+ rest) = ([PData (BulkReply (Some s))], SOk rest).
Proof.
  intros Hs. pose proof (slen_nonneg s). unfold parseBulkString, Itoa.
  change ("$" +:+ FormatInt (slen s)) with (String "$" (FormatInt (slen s))).
  rewrite tail_from_cons, ParseInt_FormatInt by (apply int64_small; lia).
  rewrite (proj2 (Z.ltb_ge _ _)), (proj2 (Z.eqb_neq _ _)) by lia.
  by rewrite read_body_spec, substr_app_l.
Qed.

Lemma FormatInt_nonempty z : FormatInt z ≠ "".
Proof.
  unfold FormatInt. destruct (z <? 0) eqn:E; unbool; [done|].
  destruct (utoa_first (utoa_fuel z) z) as (c & s & -> & _); [done|unfold utoa_fuel; lia|done].
Qed.

(** A bulk header line passes the checks of [parseArray] and its length is read back. *)
Lemma bulk_header_ok z (A : Type) (bad good : A) (k : NumError + Z → A) :
  is_int64 z →
  (let line := String "$" (FormatInt z) +:+ CRLF in
   if (slen line <? 4) || negb (Ascii.eqb (byte_at line (slen line - 2)) CR)
      || negb (Ascii.eqb (byte_at line 0) "$")
   then bad else k (ParseInt (substr line 1 (slen line - 2)))) = k (inr z).
Proof.
  intros Hz. cbv zeta. rewrite byte_at_cr, string_app_cons, byte_at_app_l. simpl negb.
  rewrite !orb_false_r.
  assert (0 < slen (FormatInt z)) as Hp.
  { pose proof (FormatInt_nonempty z). destruct (FormatInt z); [done|].
    rewrite slen_cons. pose proof (slen_nonneg s). lia. }
  rewrite slen_cons, slen_app. change (slen CRLF) with 2. rewrite (proj2 (Z.ltb_ge _ _)) by lia.
  replace (1 + (slen (FormatInt z) + 2) - 2) with (1 + slen (FormatInt z)) by lia.
  assert (substr (String "$" (FormatInt z +:+ CRLF)) 1 (1 + slen (FormatInt z)) = FormatInt z) as ->.
  { unfold substr. replace (1 + slen (FormatInt z) - 1) with (slen (FormatInt z)) by lia.
    unfold slen. rewrite Nat2Z.id. apply substring_app_l. }
  by rewrite ParseInt_FormatInt.
Qed.

Lemma parseArray_loop_spec args acc rest :
  Forall arg_ok args →
  parseArray_loop (length args) (concat_strings (bulk_bytes <$> args) +:+ rest) acc =
    ([PData (MultiBulkReply (acc ++ ((λ a, Some (str a)) <$> args)))], SOk rest).
Proof.
  intros Ha. revert acc. induction Ha as [|a args Ha _ IH]; intros acc; [by rewrite app_nil_r|].
  unfold arg_ok in Ha. cbn [length parseArray_loop]. rewrite !fmap_cons, concat_strings_cons.
  set (z := match a with Some s => slen s | None => -1 end).
  set (body := match a with Some s => s +:+ CRLF | None => "" end).
  set (more := concat_strings (bulk_bytes <$> args) +:+ rest) in *.
  assert ((bulk_bytes a +:+ concat_strings (bulk_bytes <$> args)) +:+ rest =
    String "$" (FormatInt z) +:+ CRLF +:+ body +:+ more) as ->.
  { unfold bulk_bytes, z, body, more. destruct a; by rewrite !string_app_assoc. }
  pose proof (slen_nonneg (str a)).
  assert (is_int64 z) as Hz by (unfold z; destruct a; simpl in *; [apply int64_small; lia|done]).
  rewrite ReadBytes_spec by (cbn [no_char]; rewrite FormatInt_no_char by done; done).
  pose proof (bulk_header_ok z (list Payload * sub_result)) as Hh. cbv zeta in Hh |- *.
  rewrite (Hh _ ([], SPanic) (λ q, match q with inl _ => _ | inr _ => _ end)) by done.
  unfold z, body. destruct a as [s|]; simpl in Ha.
  - rewrite (proj2 (Z.ltb_ge _ _)), (proj2 (Z.eqb_neq _ _)) by (simpl in *; lia).
    rewrite string_app_assoc, read_body_spec, substr_app_l, IH by done. by rewrite <-app_assoc.
  - simpl. rewrite IH. by rewrite <-app_assoc.
Qed.

(** The first line of an encoded reply, its end, and what the parser makes of it. *)
Lemma reply_step r rest :
  sendable r → r ≠ NoReply →
  ∃ s t, (ToBytes r +:+ rest = s +:+ CRLF +:+ t) ∧ no_char LF s = true ∧ s ≠ "" ∧
    parse_line s t = (PData <$> as_received r, SOk rest).
Proof.
  assert (∀ c m, Ascii.eqb c LF = false → no_char LF m = true → no_char LF (String c m) = true) as Hcons
    by (intros c m Hc Hm; simpl; by rewrite Hc, Hm).
  assert (∀ m, no_char LF m = true → parse_line (String "-" m) rest = ([PData (StandardErrReply m)], SOk rest)) as Herr
    by (intros m _; unfold parse_line; rewrite byte_at_app_l, tail_from_cons; done).
  assert (∀ a, arg_ok a → ∃ s t, (bulk_bytes a +:+ rest = s +:+ CRLF +:+ t) ∧ no_char LF s = true ∧ s ≠ "" ∧
    parse_line s t = (PData <$> as_received (BulkReply a), SOk rest)) as Hbulk.
  { intros [s|] Ha.
    - exists (String "$" (FormatInt (slen s))), (s +:+ CRLF +:+ rest). unfold bulk_bytes, Itoa.
      rewrite !string_app_assoc. split_and!; [done|by apply Hcons, FormatInt_no_char|done|].
      by apply parseBulkString_spec.
    - by exists "$-1", rest. }
  destruct r as [a|args| |s|n|s| | | | | | | |s| | |s]; intros Hs Hn; simpl in Hs; try done.
  - by apply Hbulk.
  - destruct Hs as [Ha Hl]. exists (String "*" (FormatInt (Z.of_nat (length args)))), (concat_strings (bulk_bytes <$> args) +:+ rest).
    unfold ToBytes, Itoa. rewrite !string_app_assoc. split_and!; [done|by apply Hcons, FormatInt_no_char|done|].
    unfold parse_line. rewrite byte_at_app_l. cbn. unfold parseArray.
    rewrite tail_from_cons, ParseInt_FormatInt by (apply int64_small; unfold max_alloc in *; lia).
    rewrite (proj2 (Z.ltb_ge _ _)) by lia. destruct args as [|a args]; [done|].
    rewrite (proj2 (Z.eqb_neq _ _)) by (simpl; lia). rewrite make_slice_ok, Nat2Z.id by lia.
    by rewrite parseArray_loop_spec.
  - destruct Hs as [Hs1 Hs2]. exists (String "+" s), rest. unfold ToBytes. rewrite !string_app_assoc.
    split_and!; [done|by apply Hcons|done|].
    unfold parse_line. rewrite byte_at_app_l, tail_from_cons. cbn. by rewrite Hs2.
  - exists (String ":" (FormatInt n)), rest. unfold ToBytes. rewrite !string_app_assoc.
    split_and!; [done|by apply Hcons, FormatInt_no_char|done|].
    unfold parse_line. rewrite byte_at_app_l, tail_from_cons. cbn. by rewrite ParseInt_FormatInt.
  - exists (String "-" s), rest. unfold ToBytes. rewrite !string_app_assoc. split_and!; eauto.
  - by exists "+PONG", rest.
  - by exists "+OK", rest.
  - by exists "$-1", rest.
  - by exists "*0", rest.
  - by exists "+QUEUED", rest.
  - by exists "-Err unknown", rest.
  - exists ("-ERR wrong number of arguments for '" +:+ s +:+ "' command"), rest.
    unfold ToBytes. rewrite !string_app_assoc. split_and!; [done| |done|].
    + rewrite !no_char_app, Hs. done.
    + apply (Herr ("ERR wrong number of arguments for '" +:+ s +:+ "' command")).
      rewrite !no_char_app, Hs. done.
  - by exists "-Err syntax error", rest.
  - by exists "-WRONGTYPE Operation against a key holding the wrong kind of value", rest.
  - exists ("-ERR Protocol error: '" +:+ s +:+ "'"), rest.
    unfold ToBytes. rewrite !string_app_assoc. split_and!; [done| |done|].
    + rewrite !no_char_app, Hs. done.
    + apply (Herr ("ERR Protocol error: '" +:+ s +:+ "'")). rewrite !no_char_app, Hs. done.
Qed.

(** A command line arrives as it was sent. *)
Lemma as_received_line line : line ≠ [] → Forall is_Some line → as_received (MultiBulkReply line) = [MultiBulkReply line].
Proof.
  intros Hne Hs. destruct line as [|a line]; [done|]. cbn [as_received]. do 2 f_equal.
  rewrite <-(list_fmap_id (a :: line)) at 2. apply list_fmap_ext. intros i x Hx.
  by apply (Forall_lookup_1 _ _ _ _ Hs) in Hx as [s ->].
Qed.

Definition encode_all (rs : list Reply) : string := concat_strings (ToBytes <$> rs).

Lemma parse0_loop_replies rs fuel :
  Forall sendable rs → (String.length (encode_all rs) < fuel)%nat →
  parse0_loop fuel (encode_all rs) = Ret ((PData <$> (rs ≫= as_received)) ++ [PErr EOF], ChanClosed).
Proof.
  intros Hs. revert fuel. induction Hs as [|r rs Hr Hrs IH]; intros fuel Hf; [destruct fuel; [lia|done]|].
  unfold encode_all in *. rewrite fmap_cons, concat_strings_cons in *.
  assert (r = NoReply ∨ r ≠ NoReply) as [->|Hne] by (destruct r; auto; by right); [by apply IH|].
  destruct (reply_step r (concat_strings (ToBytes <$> rs)) Hr Hne) as (s & t & E & Hs & Hs' & Hp).
  destruct fuel as [|fuel]; [lia|]. rewrite E, parse0_header, Hp by done.
  rewrite IH; [|]; last first.
  { rewrite E in Hf. assert (String.length (ToBytes r) ≠ 0)%nat as H0.
    { destruct (ToBytes r) eqn:Er; [|done]. destruct r as [[?|]| | | | | | | | | | | | | | | |]; done. }
    rewrite <-E, length_string_app in Hf. lia. }
  simpl. by rewrite fmap_app, <-app_assoc.
Qed.

(** A nil element of an array arrives as an empty string. *)
Lemma nil_element_lost :
  parse0 (ToBytes (MultiBulkReply [Some "a"; None])) = Ret ([PData (MultiBulkReply [Some "a"; Some ""]); PErr EOF], ChanClosed).
Proof. vm_compute. reflexivity. Qed.

(** [C36] The streaming parser takes the encodings of replies apart again: from the concatenation of
    the encodings of any framable replies (no line feed inside a line, numbers of 64 bits,
    strings that can be allocated, no status that announces an RDB file, no nested arrays) it
    delivers, in order, one payload per reply, except none for the empty NoReply, and then the end
    of the stream, on which it closes the channel; [ParseBytes] returns the same list.  The
    payload is the reply itself, with these differences ([as_received]): fixed answers come as the
    status, error or null reply with their bytes, and a nil element of an array comes as an empty
    string, since [parseArray] does not keep it apart ([nil_element_lost]). *)
Theorem parse0_roundtrip (rs : list Reply) :
  Forall sendable rs →
  parse0 (encode_all rs) = Ret ((PData <$> (rs ≫= as_received)) ++ [PErr EOF], ChanClosed) ∧
  ParseBytes (encode_all rs) = Ret (inr (rs ≫= as_received)).
Proof.
  intros Hs. assert (parse0 (encode_all rs) = Ret ((PData <$> (rs ≫= as_received)) ++ [PErr EOF], ChanClosed)) as E
    by (apply parse0_loop_replies; [done|lia]).
  split; [done|]. unfold ParseBytes. rewrite E. simpl. clear E Hs.
  assert (∀ ds acc, collect ((PData <$> ds) ++ [PErr EOF]) ChanClosed acc = Ret (inr (acc ++ ds))) as Hc.
  { induction ds as [|d ds IH]; intros acc; simpl; [by rewrite app_nil_r|]. by rewrite IH, <-app_assoc. }
  apply (Hc _ []).
Qed.

Lemma parse0_roundtrip_witness :
  parse0 (encode_all [MultiBulkReply [Some CRLF; None]; IntReply (-7); OkReply; BulkReply None]) =
    Ret ([PData (MultiBulkReply [Some CRLF; Some ""]); PData (IntReply (-7));
          PData (StatusReply "OK"); PData NullBulkReply; PErr EOF], ChanClosed) ∧
  ParseBytes (encode_all [MultiBulkReply [Some CRLF; None]; IntReply (-7); OkReply; BulkReply None]) =
    Ret (inr [MultiBulkReply [Some CRLF; Some ""]; IntReply (-7); StatusReply "OK"; NullBulkReply]).
Proof.
  apply parse0_roundtrip. repeat constructor; vm_compute; discriminate.
Defined.

(** ** Termination on arbitrary input *)

Lemma ReadBytes_shorter r line r' : ReadBytes r = Some (line, r') → (String.length r' < String.length r)%nat.
Proof.
  revert line. induction r as [|c r IH]; intros line; simpl; [done|].
  destruct (Ascii.eqb c LF); [intros [= _ ->]; lia|].
  destruct (ReadBytes r) as [[l r1]|]; [|done]. intros [= _ ->]. specialize (IH l eq_refl). lia.
Qed.

Lemma substring_length_le n m s : (String.length (String.substring n m s) ≤ String.length s)%nat.
Proof.
  revert n m. induction s as [|c s IH]; intros [|n] [|m]; simpl; try lia.
  - specialize (IH 0%nat m). lia.
  - specialize (IH n 0%nat). lia.
  - specialize (IH n (S m)). lia.
Qed.

Lemma read_body_shorter n r o r' : read_body n r = (o, r') → (String.length r' ≤ String.length r)%nat.
Proof.
  unfold read_body, ReadFull. intros E.
  repeat (destruct (make_slice _ _) || case_match); simplify_eq; simpl; try lia.
  unfold substr. apply substring_length_le.
Qed.

(** The rest of the input after a helper returned. *)
Definition shrinks (r : Reader) (res : list Payload * sub_result) : Prop :=
  match res.2 with SOk r' => (String.length r' ≤ String.length r)%nat | _ => True end.

Lemma parseBulkString_shrinks h r : shrinks r (parseBulkString h r).
Proof.
  unfold parseBulkString, shrinks. repeat case_match; simplify_eq; simpl in *; simplify_eq; try lia.
  by eapply read_body_shorter.
Qed.

Lemma parseRDBBulkString_shrinks r : shrinks r (parseRDBBulkString r).
Proof.
  unfold parseRDBBulkString, shrinks. repeat case_match; simplify_eq; simpl in *; simplify_eq; try done.
  match goal with H : read_body _ _ = _ |- _ => apply read_body_shorter in H end.
  match goal with H : ReadBytes _ = _ |- _ => apply ReadBytes_shorter in H end. lia.
Qed.

Lemma parseArray_loop_shrinks n r acc : shrinks r (parseArray_loop n r acc).
Proof.
  revert r acc. induction n as [|n IH]; intros r acc; simpl; [unfold shrinks; simpl; lia|].
  destruct (ReadBytes r) as [[line r1]|] eqn:E; [|done]. apply ReadBytes_shorter in E.
  destruct (_ || _); [unfold shrinks; simpl; lia|].
  destruct (ParseInt _) as [|len]; [unfold shrinks; simpl; lia|].
  destruct (len <? -1); [unfold shrinks; simpl; lia|].
  assert (∀ r2 a, (String.length r2 ≤ String.length r1)%nat → shrinks r (parseArray_loop n r2 a)) as Hsh.
  { intros r2 a Hr. specialize (IH r2 a). unfold shrinks in *. destruct (parseArray_loop n r2 a).2; try done. lia. }
  destruct (len =? -1); [apply Hsh; lia|].
  destruct (read_body _ r1) as [[[e|body]| |] r2] eqn:Eb; try done.
  apply Hsh. by eapply read_body_shorter.
Qed.

Lemma parse_line_shrinks line r : shrinks r (parse_line line r).
Proof.
  unfold parse_line.
  destruct (Ascii.eqb _ "+").
  { destruct (HasPrefix _ _); [|unfold shrinks; simpl; lia].
    pose proof (parseRDBBulkString_shrinks r) as Hs. by destruct (parseRDBBulkString r). }
  destruct (Ascii.eqb _ "-"); [unfold shrinks; simpl; lia|].
  destruct (Ascii.eqb _ ":"); [destruct (ParseInt _); unfold shrinks; simpl; lia|].
  destruct (Ascii.eqb _ "$"); [apply parseBulkString_shrinks|].
  destruct (Ascii.eqb _ "*"); [|unfold shrinks; simpl; lia].
  unfold parseArray. repeat case_match; try (unfold shrinks; simpl; lia). apply parseArray_loop_shrinks.
Qed.

Lemma parse0_loop_total fuel r : (String.length r < fuel)%nat → parse0_loop fuel r ≠ Block.
Proof.
  revert r. induction fuel as [|f IH]; intros r Hf; [lia|]. cbn [parse0_loop].
  destruct (ReadBytes r) as [[line r1]|] eqn:E; [|done]. apply ReadBytes_shorter in E.
  destruct (_ || _); [apply IH; lia|].
  pose proof (parse_line_shrinks (TrimCRLF line) r1) as Hs. unfold shrinks in Hs.
  destruct (parse_line _ r1) as [ps [r2|e|]]; try done. simpl in Hs.
  specialize (IH r2 ltac:(lia)). by destruct (parse0_loop f r2).
Qed.

Lemma parse0_loop_no_panic fuel r m : parse0_loop fuel r ≠ Panic m.
Proof.
  revert r. induction fuel as [|f IH]; intros r; cbn [parse0_loop]; [done|].
  destruct (ReadBytes r) as [[line r1]|]; [|done]. destruct (_ || _); [apply IH|].
  destruct (parse_line _ r1) as [ps [r2|e|]]; try done.
  specialize (IH r2). by destruct (parse0_loop f r2).
Qed.

(** [C37] The streaming parser reads every finite stream to an end, whatever bytes
    it holds: each iteration consumes input, so the loop delivers its payloads
    and stops. *)
Theorem parse0_terminates (r : Reader) : ∃ ps fin, parse0 r = Ret (ps, fin).
Proof.
  pose proof (parse0_loop_total (S (String.length r)) r ltac:(lia)) as Ht.
  pose proof (parse0_loop_no_panic (S (String.length r)) r) as Hp.
  unfold parse0. destruct (parse0_loop _ r) as [[ps fin]|m|]; [eauto|by destruct (Hp m)|done].
Qed.

(** A bulk length near the largest [int64] makes the allocation panic; the
    deferred [recover] swallows the panic and the channel is never closed, so a
    caller that ranges over it ([ParseBytes]) waits forever. *)
Theorem huge_bulk_length_hangs :
  parse0 ("$9223372036854775805" +:+ CRLF) = Ret ([], ChanOpen) ∧
  ParseBytes ("$9223372036854775805" +:+ CRLF) = Block.
Proof. split; vm_compute; reflexivity. Qed.
