(* ===== verification/DB.v ===== *)
(** * database/database.go: one logical database

    [DB] keeps three concurrent dictionaries (values, expiry times, versions),
    and the traces it leaves outside: the command lines handed to [addAof], the
    key events handed to the callbacks, and the expiry tasks registered with the
    time wheel.  A handler is a [GoM DB] computation.  Readings of the clock and
    orders of map iterations are drawn from the environment, one per draw.

    The commands reach the database through the operations of [DB] only; the class
    [Store] names these operations, so that the handlers are written once and run
    both on the real database and on its specification, [View], where the three
    dictionaries are finite maps.  [refines] relates the two, and every handler is
    proved to refine its specification run.

    A list, hash, set or sorted set is mutated in place by the commands; the model names the
    object by the key that holds it and writes the new value back under the key
    ([mutate]), which is the same as long as no two keys share an object. *)

From Stdlib Require Import ZArith Lia Ascii String.
From Stdlib Require Import Floats.SpecFloat.
From stdpp Require Import base gmap strings numbers list.
From S2P Require Import Prelude GoStd Wildcard Dict QuickList SetDS Protocol Border SortedSet ZSetShape.

Local Open Scope string_scope.
Local Open Scope list_scope.
Local Open Scope Z_scope.
Local Open Scope go_scope.

(** ** The environment *)

(** Times are nanoseconds since the Unix epoch.  [time_now n] is the [n]-th reading
    of the clock, [map_order n] the order of the [n]-th iteration over a Go map,
    [rand_Uint64 n] the [n]-th random number, [regexp_Compile] the compiler of Go's
    regexp package, [ParseFloat] and [FormatFloat] those of strconv: [FormatFloat]
    with the least digits that are read back as the same number, [FormatFloat10]
    with ten decimals; [math_...] are functions of package math, and [float_uint64] is the
    conversion of a float to uint64, which the language leaves open out of range. *)
Class Env := {
  env_runtime :: GoRuntime;
  time_now : nat → Z;
  map_order : nat → range_order;
  rand_Uint64 : nat → Z;
  regexp_Compile : string → option (string → bool);
  ParseFloat : string → option float64;
  FormatFloat : float64 → string;
  FormatFloat10 : float64 → string;
  math_Sin : float64 → float64;
  math_Cos : float64 → float64;
  math_Asin : float64 → float64;
  math_Sqrt : float64 → float64;
  math_Pow : float64 → float64 → float64;
  float_uint64 : float64 → Z
}.

Definition CompilePattern `{Env} : string → option (string → bool) := Wildcard.CompilePattern regexp_Compile.

(** Whole numbers as text. *)
Definition small_ParseFloat (s : string) : option float64 :=
  match ParseInt s with inr z => Some (binary_normalize 53 1024 z 0 false) | inl _ => None end.

Definition small_FormatFloat (f : float64) : string :=
  match f with
  | S754_finite sign m e =>
      let v := Z.shiftl (Z.pos m) e in FormatInt (if sign then - v else v)
  | S754_zero _ => "0"
  | S754_infinity false => "+Inf"
  | S754_infinity true => "-Inf"
  | S754_nan => "NaN"
  end.

(** Truncation, within the range. *)
Definition small_float_uint64 (f : float64) : Z :=
  match f with S754_finite false m e => Z.shiftl (Z.pos m) e | _ => 0 end.

(** An environment for examples: a clock that advances by one second per reading,
    maps iterated in the order of their representation, one random number, the small
    regular expression package, and whole numbers as scores. *)
Definition demo_env : Env := {|
  env_runtime := doubling_runtime;
  time_now := λ n, Z.of_nat n * 1000000000;
  map_order := λ _ ks, ks;
  rand_Uint64 := λ _, 4;
  regexp_Compile := Wildcard.small_regexp;
  ParseFloat := small_ParseFloat;
  FormatFloat := small_FormatFloat;
  FormatFloat10 := λ f, small_FormatFloat f +:+ ".0000000000";
  math_Sin := id;
  math_Cos := id;
  math_Asin := id;
  math_Sqrt := SFsqrt 53 1024;
  math_Pow := λ x _, SFmul 53 1024 x x;
  float_uint64 := small_float_uint64
|}.

(** ** Data *)

Inductive Data :=
  | DString (b : bytes)
  | DList (l : QList.QuickList bytes)
  | DHash (d : SimpleDict bytes)
  | DSet (s : Set_ (SimpleDict unit))
  | DZSet (z : SortedSet).

(** [type DataEntity struct { Data interface{} }]. *)
Abbreviation DataEntity := Data.

Inductive KeyEvent :=
  | KeyInserted (dbIndex : Z) (key : string) (entity : DataEntity)
  | KeyDeleted (dbIndex : Z) (key : string) (entity : option DataEntity).

Record DB := mkDB {
  index : Z;
  data : ConcurrentDict DataEntity;
  ttlMap : ConcurrentDict Z;
  versionMap : ConcurrentDict Z;
  aof : list CmdLine;
  insertCallback : bool;
  deleteCallback : bool;
  events : list KeyEvent;
  timers : gmap string Z;
  draws : nat
}.

Definition set_data (db : DB) (d : ConcurrentDict DataEntity) : DB :=
  mkDB (index db) d (ttlMap db) (versionMap db) (aof db) (insertCallback db) (deleteCallback db)
    (events db) (timers db) (draws db).
Definition set_ttlMap (db : DB) (d : ConcurrentDict Z) : DB :=
  mkDB (index db) (data db) d (versionMap db) (aof db) (insertCallback db) (deleteCallback db)
    (events db) (timers db) (draws db).
Definition set_versionMap (db : DB) (d : ConcurrentDict Z) : DB :=
  mkDB (index db) (data db) (ttlMap db) d (aof db) (insertCallback db) (deleteCallback db)
    (events db) (timers db) (draws db).
Definition set_aof (db : DB) (l : list CmdLine) : DB :=
  mkDB (index db) (data db) (ttlMap db) (versionMap db) l (insertCallback db) (deleteCallback db)
    (events db) (timers db) (draws db).
Definition set_events (db : DB) (l : list KeyEvent) : DB :=
  mkDB (index db) (data db) (ttlMap db) (versionMap db) (aof db) (insertCallback db) (deleteCallback db)
    l (timers db) (draws db).
Definition set_timers (db : DB) (m : gmap string Z) : DB :=
  mkDB (index db) (data db) (ttlMap db) (versionMap db) (aof db) (insertCallback db) (deleteCallback db)
    (events db) m (draws db).
Definition set_draws (db : DB) (n : nat) : DB :=
  mkDB (index db) (data db) (ttlMap db) (versionMap db) (aof db) (insertCallback db) (deleteCallback db)
    (events db) (timers db) n.

Definition dataDictSize : Z := Z.shiftl 1 16.
Definition ttlDictSize : Z := Z.shiftl 1 10.

(** A database whose dictionaries have the given numbers of shards. *)
Definition make_db (dataSize ttlSize : Z) : DB :=
  mkDB 0 (Concurrent.MakeConcurrent dataSize) (Concurrent.MakeConcurrent ttlSize)
    (Concurrent.MakeConcurrent dataSize) [] false false [] ∅ 0.

Definition makeDB : DB := make_db dataDictSize ttlDictSize.
Definition makeBasicDB : DB := make_db dataDictSize ttlDictSize.

(** ** The operations the commands use *)

Class Store (S : Type) := {
  GetEntity : string → GoM S (option DataEntity);
  PutEntity : string → DataEntity → GoM S Z;
  PutIfExists : string → DataEntity → GoM S Z;
  PutIfAbsent : string → DataEntity → GoM S Z;
  mutate : string → DataEntity → GoM S unit;
  Remove : string → GoM S unit;
  Removes : list string → GoM S Z;
  GetTTL : string → GoM S (option Z);
  Expire : string → Z → GoM S unit;
  Persist : string → GoM S unit;
  addAof : CmdLine → GoM S unit;
  Now : GoM S Z;
  Order : GoM S range_order;
  Rand : GoM S Z
}.

Module DBOps.
Section DB.
Context `{Env}.

(** [time.Now()]. *)
Definition Now : GoM DB Z := λ db, (Ret (time_now (draws db)), set_draws db (S (draws db))).

(** The order of one iteration over a Go map. *)
Definition Order : GoM DB range_order := λ db, (Ret (map_order (draws db)), set_draws db (S (draws db))).

(** [rand.Uint64()]. *)
Definition Rand : GoM DB Z := λ db, (Ret (rand_Uint64 (draws db)), set_draws db (S (draws db))).

Definition addAof (line : CmdLine) : GoM DB unit := go_modify (λ db, set_aof db (aof db ++ [line])).

(** ** Expiry *)

Definition genExpireTask (key : string) : string := "expire:" +:+ key.

(** [timewheel.Cancel] and [timewheel.At] on the tasks of this database. *)
Definition timewheel_Cancel (task : string) : GoM DB unit :=
  go_modify (λ db, set_timers db (delete task (timers db))).

Definition timewheel_At (at_ : Z) (task : string) : GoM DB unit :=
  go_modify (λ db, set_timers db (<[task := at_]> (timers db))).

Definition Remove (key : string) : GoM DB unit :=
  db ← go_get id;
  let '(d, (raw, deleted)) := Concurrent.RemoveWithLock (data db) key in
  _ ← go_modify (λ db, set_data db d);
  _ ← go_modify (λ db, set_ttlMap db (Concurrent.Remove (ttlMap db) key).1);
  _ ← timewheel_Cancel (genExpireTask key);
  if deleteCallback db then
    let entity := if deleted >? 0 then raw else None in
    go_modify (λ db, set_events db (events db ++ [KeyDeleted (index db) key entity]))
  else mret tt.

Definition IsExpired (key : string) : GoM DB bool :=
  rawExpireTime ← go_get (λ db, Concurrent.Get (ttlMap db) key);
  match rawExpireTime with
  | None => mret false
  | Some expireTime =>
      now ← Now;
      if now >? expireTime then _ ← Remove key; mret true else mret false
  end.

Definition Expire (key : string) (expireTime : Z) : GoM DB unit :=
  _ ← go_modify (λ db, set_ttlMap db (Concurrent.Put (ttlMap db) key expireTime).1);
  timewheel_At expireTime (genExpireTask key).

Definition Persist (key : string) : GoM DB unit :=
  _ ← go_modify (λ db, set_ttlMap db (Concurrent.Remove (ttlMap db) key).1);
  timewheel_Cancel (genExpireTask key).

(** ** Data access *)

Definition GetEntity (key : string) : GoM DB (option DataEntity) :=
  raw ← go_get (λ db, Concurrent.GetWithLock (data db) key);
  match raw with
  | None => mret None
  | Some entity => expired ← IsExpired key; mret (if (expired : bool) then None else Some entity)
  end.

(** The insertion callback of [PutEntity] and [PutIfAbsent]. *)
Definition inserted (ret : Z) (key : string) (entity : DataEntity) : GoM DB unit :=
  db ← go_get id;
  if (ret >? 0) && insertCallback db
  then go_modify (λ db, set_events db (events db ++ [KeyInserted (index db) key entity]))
  else mret tt.

Definition PutEntity (key : string) (entity : DataEntity) : GoM DB Z :=
  db ← go_get id;
  let '(d, ret) := Concurrent.PutWithLock (data db) key entity in
  _ ← go_modify (λ db, set_data db d);
  _ ← inserted ret key entity;
  mret ret.

Definition PutIfExists (key : string) (entity : DataEntity) : GoM DB Z :=
  db ← go_get id;
  let '(d, ret) := Concurrent.PutIfExistsWithLock (data db) key entity in
  _ ← go_modify (λ db, set_data db d);
  mret ret.

Definition PutIfAbsent (key : string) (entity : DataEntity) : GoM DB Z :=
  db ← go_get id;
  let '(d, ret) := Concurrent.PutIfAbsentWithLock (data db) key entity in
  _ ← go_modify (λ db, set_data db d);
  _ ← inserted ret key entity;
  mret ret.

(** In-place mutation of the object stored under [key]. *)
Definition mutate (key : string) (entity : DataEntity) : GoM DB unit :=
  go_modify (λ db, set_data db (Concurrent.PutIfExistsWithLock (data db) key entity).1).

Fixpoint Removes_loop (keys : list string) (deleted : Z) : GoM DB Z :=
  match keys with
  | [] => mret deleted
  | key :: keys' =>
      exists_ ← go_get (λ db, Concurrent.GetWithLock (data db) key);
      match exists_ with
      | Some _ => _ ← Remove key; Removes_loop keys' (deleted + 1)
      | None => Removes_loop keys' deleted
      end
  end.

Definition Removes (keys : list string) : GoM DB Z := Removes_loop keys 0.

Definition Flush : GoM DB unit :=
  _ ← go_modify (λ db, set_data db (Concurrent.Clear (data db)));
  go_modify (λ db, set_ttlMap db (Concurrent.Clear (ttlMap db))).

(** ** Locks and versions *)

Definition RWLocks (writeKeys readKeys : list string) : GoM DB unit := λ db,
  match Concurrent.RWLocks (data db) writeKeys readKeys with
  | Ret d => (Ret tt, set_data db d)
  | Panic m => (Panic m, db)
  | Block => (Block, db)
  end.

Definition RWUnLocks (writeKeys readKeys : list string) : GoM DB unit := λ db,
  match Concurrent.RWUnLocks (data db) writeKeys readKeys with
  | Ret d => (Ret tt, set_data db d)
  | Panic m => (Panic m, db)
  | Block => (Block, db)
  end.

(** The closure that [Expire] hands to the time wheel. *)
Definition expireTask (key : string) : GoM DB unit :=
  _ ← RWLocks [key] [];
  go_defer (RWUnLocks [key] [])
    (rawExpireTime ← go_get (λ db, Concurrent.Get (ttlMap db) key);
     match rawExpireTime with
     | None => mret tt
     | Some expireTime =>
         now ← Now;
         if now >? expireTime then Remove key else mret tt
     end).

Definition GetVersion (key : string) : GoM DB Z :=
  entity ← go_get (λ db, Concurrent.Get (versionMap db) key);
  mret (default 0 entity).

Fixpoint addVersion (keys : list string) : GoM DB unit :=
  match keys with
  | [] => mret tt
  | key :: keys' =>
      versionCode ← GetVersion key;
      _ ← go_modify (λ db, set_versionMap db
             (Concurrent.Put (versionMap db) key (uint32 (versionCode + 1))).1);
      addVersion keys'
  end.

(** [db.ForEach] with a callback that always continues: every key with its
    value and expiration, in the order of the iteration. *)
Definition ForEach : GoM DB (list (string * DataEntity * option Z)) :=
  ord ← Order;
  db ← go_get id;
  mret ((λ kv, (kv, Concurrent.Get (ttlMap db) kv.1)) <$> Concurrent.ForEach ord (data db)).

(** [db.ttlMap.Get(key)]. *)
Definition GetTTL (key : string) : GoM DB (option Z) :=
  go_get (λ db, Concurrent.Get (ttlMap db) key).

End DB.
End DBOps.

#[export] Instance db_store `{Env} : Store DB := {|
  GetEntity := DBOps.GetEntity;
  PutEntity := DBOps.PutEntity;
  PutIfExists := DBOps.PutIfExists;
  PutIfAbsent := DBOps.PutIfAbsent;
  mutate := DBOps.mutate;
  Remove := DBOps.Remove;
  Removes := DBOps.Removes;
  GetTTL := DBOps.GetTTL;
  Expire := DBOps.Expire;
  Persist := DBOps.Persist;
  addAof := DBOps.addAof;
  Now := DBOps.Now;
  Order := DBOps.Order;
  Rand := DBOps.Rand
|}.

(** [args[i]] with its bounds check, in a function of the arguments alone and in a
    handler. *)
Definition arg_at (args : list bytes) (i : nat) : outcome bytes :=
  match args !! i with Some a => Ret a | None => Panic "index out of range" end.

Definition arg {S} (args : list bytes) (i : nat) : GoM S bytes :=
  match args !! i with Some a => mret a | None => go_panic "index out of range" end.

(** ** The specification *)

(** A key is bound to a value and possibly an expiry time. *)
Record View := mkView {
  v_store : gmap string DataEntity;
  v_ttl : gmap string Z;
  v_aof : list CmdLine;
  v_draws : nat
}.

Module ViewOps.
Section View.
Context `{Env}.

Definition Now : GoM View Z := λ v,
  (Ret (time_now (v_draws v)), mkView (v_store v) (v_ttl v) (v_aof v) (S (v_draws v))).

Definition Order : GoM View range_order := λ v,
  (Ret (map_order (v_draws v)), mkView (v_store v) (v_ttl v) (v_aof v) (S (v_draws v))).

Definition Rand : GoM View Z := λ v,
  (Ret (rand_Uint64 (v_draws v)), mkView (v_store v) (v_ttl v) (v_aof v) (S (v_draws v))).

Definition on_store (f : gmap string DataEntity → gmap string DataEntity) : GoM View unit :=
  go_modify (λ v, mkView (f (v_store v)) (v_ttl v) (v_aof v) (v_draws v)).

Definition on_ttl (f : gmap string Z → gmap string Z) : GoM View unit :=
  go_modify (λ v, mkView (v_store v) (f (v_ttl v)) (v_aof v) (v_draws v)).

Definition addAof (line : CmdLine) : GoM View unit :=
  go_modify (λ v, mkView (v_store v) (v_ttl v) (v_aof v ++ [line]) (v_draws v)).

Definition Remove (key : string) : GoM View unit :=
  _ ← on_store (delete key); on_ttl (delete key).

Definition Persist (key : string) : GoM View unit := on_ttl (delete key).

Definition Expire (key : string) (expireTime : Z) : GoM View unit := on_ttl (insert key expireTime).

Definition GetTTL (key : string) : GoM View (option Z) := go_get (λ v, v_ttl v !! key).

(** A key whose time is over is removed when it is looked up. *)
Definition GetEntity (key : string) : GoM View (option DataEntity) := λ v,
  match v_store v !! key with
  | None => (Ret None, v)
  | Some entity =>
      match v_ttl v !! key with
      | None => (Ret (Some entity), v)
      | Some t =>
          let '(_, v') := Now v in
          if time_now (v_draws v) >? t then (Ret None, (Remove key v').2) else (Ret (Some entity), v')
      end
  end.

Definition PutEntity (key : string) (entity : DataEntity) : GoM View Z := λ v,
  (Ret (flag (negb (present (v_store v !! key)))), (on_store (insert key entity) v).2).

Definition PutIfExists (key : string) (entity : DataEntity) : GoM View Z := λ v,
  (Ret (flag (present (v_store v !! key))),
   (on_store (λ m, if present (m !! key) then <[key := entity]> m else m) v).2).

Definition PutIfAbsent (key : string) (entity : DataEntity) : GoM View Z := λ v,
  (Ret (flag (negb (present (v_store v !! key)))),
   (on_store (λ m, if present (m !! key) then m else <[key := entity]> m) v).2).

Definition mutate (key : string) (entity : DataEntity) : GoM View unit :=
  on_store (λ m, if present (m !! key) then <[key := entity]> m else m).

Fixpoint Removes_loop (keys : list string) (deleted : Z) : GoM View Z :=
  match keys with
  | [] => mret deleted
  | key :: keys' =>
      exists_ ← go_get (λ v, v_store v !! key);
      match exists_ with
      | Some _ => _ ← Remove key; Removes_loop keys' (deleted + 1)
      | None => Removes_loop keys' deleted
      end
  end.

Definition Removes (keys : list string) : GoM View Z := Removes_loop keys 0.
End View.
End ViewOps.

#[export] Instance view_store `{Env} : Store View := {|
  GetEntity := ViewOps.GetEntity;
  PutEntity := ViewOps.PutEntity;
  PutIfExists := ViewOps.PutIfExists;
  PutIfAbsent := ViewOps.PutIfAbsent;
  mutate := ViewOps.mutate;
  Remove := ViewOps.Remove;
  Removes := ViewOps.Removes;
  GetTTL := ViewOps.GetTTL;
  Expire := ViewOps.Expire;
  Persist := ViewOps.Persist;
  addAof := ViewOps.addAof;
  Now := ViewOps.Now;
  Order := ViewOps.Order;
  Rand := ViewOps.Rand
|}.

(** ** Refinement *)

(** Stored lists satisfy the invariant of [QuickList], sorted sets the one that holds
    for all scores. *)
Definition entity_ok (e : DataEntity) : Prop :=
  match e with DList l => QList.ql_wf l | DZSet z => zset_shaped z | _ => True end.

Record db_ok (db : DB) : Prop := {
  ok_data : cd_wf (data db);
  ok_ttl : cd_wf (ttlMap db);
  ok_version : cd_wf (versionMap db);
  ok_entities : ∀ k e, cd_map (data db) !! k = Some e → entity_ok e
}.

(** What the commands can observe of a database. *)
Definition view (db : DB) : View :=
  mkView (cd_map (data db)) (cd_map (ttlMap db)) (aof db) (draws db).

(** What the commands never touch: the locks of the data shards and the versions. *)
Definition kept (db : DB) : list RWMutex * ConcurrentDict Z :=
  (mutex <$> table (data db), versionMap db).

(** [m] gives the outcome of [m'], leaves the state [m'] specifies, keeps the
    invariant, the locks and the versions; the call ends, and a returned value
    satisfies [Q]. *)
Definition refines {A} (Q : A → Prop) (m : GoM DB A) (m' : GoM View A) : Prop :=
  ∀ db, db_ok db →
    (m db).1 = (m' (view db)).1 ∧ view (m db).2 = (m' (view db)).2 ∧
    db_ok (m db).2 ∧ kept (m db).2 = kept db ∧ post Q (m db).1.

Section rules.
Context {A B E : Type}.

Lemma refines_weaken (P Q : A → Prop) m m' : (∀ a, P a → Q a) → refines P m m' → refines Q m m'.
Proof. intros HPQ Hr db Hok. destruct (Hr db Hok) as (? & ? & ? & ? & HP). split_and!; eauto using post_weaken. Qed.

Lemma refines_ret (Q : A → Prop) a : Q a → refines Q (mret a) (mret a).
Proof. intros Ha db Hok. by split_and!. Qed.

Lemma refines_panic (Q : A → Prop) msg : refines Q (go_panic msg) (go_panic msg).
Proof. intros db Hok. split_and!; done. Qed.

Lemma refines_lift (Q : A → Prop) o : post Q o → refines Q (go_lift o) (go_lift o).
Proof. intros Ha db Hok. split_and!; try done. Qed.

Lemma refines_bind (P : A → Prop) (Q : B → Prop) m m' k k' :
  refines P m m' → (∀ a, P a → refines Q (k a) (k' a)) → refines Q (m ≫= k) (m' ≫= k').
Proof.
  intros Hm Hk db Hok. destruct (Hm db Hok) as (Ho & Hv & Hok' & Hl & HP).
  unfold mbind, gom_bind. destruct (m db) as [o db'], (m' (view db)) as [o' v']. simpl in *. subst o' v'.
  destruct o as [a|msg|]; [|done..].
  destruct (Hk a HP db' Hok') as (? & ? & ? & Hl' & ?). rewrite Hl in Hl'. by split_and!.
Qed.

Lemma refines_if (Q : A → Prop) (b : bool) m1 m1' m2 m2' :
  refines Q m1 m1' → refines Q m2 m2' → refines Q (if b then m1 else m2) (if b then m1' else m2').
Proof. by destruct b. Qed.
End rules.

Section early_rules.
Context {A B E : Type}.

(** The value of a call without error. *)
Definition val_ok (P : A → Prop) (r : E + A) : Prop := match r with inl _ => True | inr a => P a end.

Lemma refines_early (P : A → Prop) m m' (k : A → GoM DB E) k' :
  refines (val_ok P) m m' → (∀ a, P a → refines any (k a) (k' a)) → refines any (early m k) (early m' k').
Proof.
  intros Hm Hk. eapply refines_bind; [done|]. intros [e|a] Ha; [by apply refines_ret|by apply Hk].
Qed.

Lemma refines_early_err (P : A → Prop) (Q : B → Prop) m m' (k : A → GoM DB (E + B)) k' :
  refines (val_ok P) m m' →
  (∀ a, P a → refines (λ r : E + B, match r with inl _ => True | inr b => Q b end) (k a) (k' a)) →
  refines (λ r : E + B, match r with inl _ => True | inr b => Q b end) (early_err m k) (early_err m' k').
Proof.
  intros Hm Hk. eapply refines_bind; [done|]. intros [e|a] Ha; [by apply refines_ret|by apply Hk].
Qed.
End early_rules.

Lemma refines_for {A} (xs : list A) (f : A → GoM DB unit) f' :
  (∀ x, refines any (f x) (f' x)) → refines any (go_for xs f) (go_for xs f').
Proof.
  intros Hf. induction xs as [|x xs IH]; simpl; [by apply refines_ret|].
  eapply refines_bind; [apply Hf|]. intros _ _. apply IH.
Qed.

Lemma refines_arg args i : refines any (arg args i) (arg args i).
Proof. unfold arg. destruct (args !! i); [by apply refines_ret|apply refines_panic]. Qed.

(** ** The operations refine their specifications *)

Section mutexes.
Context {V : Type}.
Implicit Types (d : ConcurrentDict V).

Lemma set_shard_mutexes d i m :
  mutex <$> table (set_nth_shard d i (mkShard m (mutex (Concurrent.getShard d i)))) = mutex <$> table d.
Proof.
  unfold set_nth_shard. simpl. rewrite list_fmap_insert. simpl. unfold Concurrent.getShard.
  destruct (decide (Z.to_nat i < length (table d))%nat) as [Hi|Hi].
  - apply list_insert_id. rewrite list_lookup_fmap. destruct (lookup_lt_is_Some_2 _ _ Hi) as [s Hs].
    rewrite (nth_lookup_Some _ _ _ _ Hs), Hs. done.
  - apply list_insert_ge. rewrite length_fmap. lia.
Qed.

Lemma shardPut_mutexes d k v : mutex <$> table (Concurrent.shardPut d k v) = mutex <$> table d.
Proof. apply set_shard_mutexes. Qed.

Lemma Put_mutexes d k v : mutex <$> table (Concurrent.Put d k v).1 = mutex <$> table d.
Proof. unfold Concurrent.Put. case_match; [apply shardPut_mutexes|apply (shardPut_mutexes (Concurrent.addCount d))]. Qed.

Lemma PutIfAbsent_mutexes d k v : mutex <$> table (Concurrent.PutIfAbsent d k v).1 = mutex <$> table d.
Proof. unfold Concurrent.PutIfAbsent. case_match; [done|apply shardPut_mutexes]. Qed.

Lemma PutIfExists_mutexes d k v : mutex <$> table (Concurrent.PutIfExists d k v).1 = mutex <$> table d.
Proof. unfold Concurrent.PutIfExists. case_match; [apply shardPut_mutexes|done]. Qed.

Lemma Remove_mutexes d k : mutex <$> table (Concurrent.Remove d k).1 = mutex <$> table d.
Proof. unfold Concurrent.Remove. case_match; [apply set_shard_mutexes|done]. Qed.
End mutexes.

Section operations.
Context `{Env}.

Lemma refines_Now : refines any Now Now.
Proof. intros [] [? ? ? ?]. by split_and!. Qed.

Lemma refines_Order : refines any Order Order.
Proof. intros [] [? ? ? ?]. by split_and!. Qed.

Lemma refines_Rand : refines any Rand Rand.
Proof. intros [] [? ? ? ?]. by split_and!. Qed.

Lemma refines_addAof line : refines any (addAof line) (addAof line).
Proof. intros [] [? ? ? ?]. by split_and!. Qed.

Lemma refines_GetTTL key : refines any (GetTTL key) (GetTTL key).
Proof.
  intros db Hok. split_and!; try done. simpl. f_equal. apply cd_Get, Hok.
Qed.

Lemma refines_Expire key t : refines any (Expire key t) (Expire key t).
Proof.
  intros db [Hd Ht Hv He]. destruct (cd_Put (ttlMap db) key t Ht) as (H1 & H2 & _).
  split_and!; try done. simpl. unfold view. simpl. f_equal. exact H2.
Qed.

Lemma refines_Persist key : refines any (Persist key) (Persist key).
Proof.
  intros db [Hd Ht Hv He]. destruct (cd_Remove (ttlMap db) key Ht) as (H1 & H2 & _).
  split_and!; try done. simpl. unfold view. simpl. f_equal. exact H2.
Qed.

(** The operations that write the data dictionary. *)
Lemma ok_insert db e d :
  db_ok db → cd_wf d → entity_ok e →
  (∀ k x, cd_map d !! k = Some x → x = e ∨ cd_map (data db) !! k = Some x) → db_ok (set_data db d).
Proof.
  intros [Hd Ht Hv He] Hd' Hok Hin. split; try done. simpl. intros k x Hx.
  destruct (Hin k x Hx) as [->|Hx']; [done|by eapply He].
Qed.

Lemma Remove_run key db :
  db_ok db →
  ∃ evs, DBOps.Remove key db =
    (Ret tt, set_events (set_timers (set_ttlMap (set_data db (Concurrent.Remove (data db) key).1)
       (Concurrent.Remove (ttlMap db) key).1) (delete (DBOps.genExpireTask key) (timers db))) evs).
Proof.
  intros _. unfold DBOps.Remove, mbind, gom_bind, go_get, go_modify, DBOps.timewheel_Cancel, id.
  change (Concurrent.RemoveWithLock (data db) key) with (Concurrent.Remove (data db) key).
  destruct (Concurrent.Remove (data db) key) as [d [raw n]]. simpl.
  destruct (deleteCallback db); eexists; by destruct db.
Qed.

Lemma refines_Remove key : refines any (Remove key) (Remove key).
Proof.
  intros db Hok. destruct (Remove_run key db Hok) as [evs Hr]. destruct Hok as [Hd Ht Hv He].
  change (Remove (S := DB) key) with (DBOps.Remove key). rewrite Hr.
  destruct (cd_Remove (data db) key Hd) as (H1 & H2 & _), (cd_Remove (ttlMap db) key Ht) as (H3 & H4 & _).
  split_and!; try done.
  - unfold view. simpl. f_equal; [exact H2|exact H4].
  - split; try done. simpl. intros k x Hx. apply (He k). eapply lookup_delete_Some.
    etransitivity; [|exact Hx]. by rewrite <-H2.
  - unfold kept. simpl. by rewrite Remove_mutexes.
Qed.

Lemma refines_GetEntity key : refines (from_option entity_ok True) (GetEntity key) (GetEntity key).
Proof.
  intros db Hok. pose proof Hok as [Hd Ht Hv He].
  change (GetEntity (S := DB) key) with (DBOps.GetEntity key).
  change (GetEntity (S := View) key) with (ViewOps.GetEntity key).
  unfold DBOps.GetEntity, ViewOps.GetEntity, DBOps.IsExpired, DBOps.Now, mbind, gom_bind, go_get.
  change (Concurrent.GetWithLock (data db) key) with (Concurrent.Get (data db) key).
  rewrite (cd_Get _ _ Hd). simpl.
  destruct (cd_map (data db) !! key) as [e|] eqn:Ee; [|by split_and!].
  specialize (He key e Ee). rewrite (cd_Get _ _ Ht).
  destruct (cd_map (ttlMap db) !! key) as [t|] eqn:Et; [|by split_and!].
  destruct (refines_Now db Hok) as (_ & HvN & HokN & HkN & _). simpl in HvN, HokN, HkN.
  destruct (time_now (draws db) >? t) eqn:E; simpl; [|by split_and!].
  destruct (refines_Remove key _ HokN) as (HoR & HvR & HokR & HkR & _).
  change (Remove (S := DB) key) with (DBOps.Remove key) in HoR, HvR, HokR, HkR.
  destruct (DBOps.Remove key _) as [[?|?|] db2]; done.
Qed.

Lemma inserted_run ret key e db :
  ∃ evs, DBOps.inserted ret key e db = (Ret tt, set_events db evs).
Proof.
  unfold DBOps.inserted, mbind, gom_bind, go_get, go_modify, id. destruct db. simpl.
  destruct (_ && _); eexists; done.
Qed.

Lemma refines_PutEntity key e : entity_ok e → refines any (PutEntity key e) (PutEntity key e).
Proof.
  intros Hok_e db Hok. pose proof Hok as [Hd Ht Hv He].
  change (PutEntity (S := DB) key e) with (DBOps.PutEntity key e).
  unfold DBOps.PutEntity, mbind, gom_bind, go_get, go_modify, id.
  change (Concurrent.PutWithLock (data db) key e) with (Concurrent.Put (data db) key e).
  destruct (cd_Put (data db) key e Hd) as (H1 & H2 & H3). pose proof (Put_mutexes (data db) key e) as H4.
  destruct (Concurrent.Put (data db) key e) as [d n]. simpl in *.
  destruct (inserted_run n key e (set_data db d)) as [evs ->].
  split_and!; [by rewrite H3|by unfold view; simpl; rewrite H2| |by unfold kept; simpl; rewrite H4|done].
  apply (ok_insert (set_events db evs) e); [done..|]. simpl. intros k x. rewrite H2, lookup_insert_Some. naive_solver.
Qed.

Lemma refines_PutIfAbsent key e : entity_ok e → refines any (PutIfAbsent key e) (PutIfAbsent key e).
Proof.
  intros Hok_e db Hok. pose proof Hok as [Hd Ht Hv He].
  change (PutIfAbsent (S := DB) key e) with (DBOps.PutIfAbsent key e).
  unfold DBOps.PutIfAbsent, mbind, gom_bind, go_get, go_modify, id.
  change (Concurrent.PutIfAbsentWithLock (data db) key e) with (Concurrent.PutIfAbsent (data db) key e).
  destruct (cd_PutIfAbsent (data db) key e Hd) as (H1 & H2 & H3).
  pose proof (PutIfAbsent_mutexes (data db) key e) as H4.
  destruct (Concurrent.PutIfAbsent (data db) key e) as [d n]. simpl in *.
  destruct (inserted_run n key e (set_data db d)) as [evs ->].
  split_and!; [by rewrite H3|by unfold view; simpl; rewrite H2| |by unfold kept; simpl; rewrite H4|done].
  apply (ok_insert (set_events db evs) e); [done..|]. simpl. intros k x. rewrite H2.
  destruct (present _); [naive_solver|]. rewrite lookup_insert_Some. naive_solver.
Qed.

Lemma refines_PutIfExists key e : entity_ok e → refines any (PutIfExists key e) (PutIfExists key e).
Proof.
  intros Hok_e db Hok. pose proof Hok as [Hd Ht Hv He].
  change (PutIfExists (S := DB) key e) with (DBOps.PutIfExists key e).
  unfold DBOps.PutIfExists, mbind, gom_bind, go_get, go_modify, id.
  change (Concurrent.PutIfExistsWithLock (data db) key e) with (Concurrent.PutIfExists (data db) key e).
  destruct (cd_PutIfExists (data db) key e Hd) as (H1 & H2 & H3).
  pose proof (PutIfExists_mutexes (data db) key e) as H4.
  destruct (Concurrent.PutIfExists (data db) key e) as [d n]. simpl in *.
  split_and!; [by rewrite H3|by unfold view; simpl; rewrite H2| |by unfold kept; simpl; rewrite H4|done].
  apply (ok_insert db e); [done..|]. intros k x. rewrite H2.
  destruct (present _); [rewrite lookup_insert_Some|]; naive_solver.
Qed.

Lemma refines_mutate key e : entity_ok e → refines any (mutate key e) (mutate key e).
Proof.
  intros Hok_e db Hok. destruct (refines_PutIfExists key e Hok_e db Hok) as (_ & Hv & Ho & Hk & _).
  assert (((mutate (S := DB) key e) db).2 = (PutIfExists (S := DB) key e db).2) as E.
  { simpl. unfold DBOps.PutIfExists, mbind, gom_bind, go_get, go_modify, id.
    by destruct (Concurrent.PutIfExistsWithLock _ _ _). }
  rewrite E. by split_and!.
Qed.

Lemma refines_Removes keys : refines any (Removes keys) (Removes keys).
Proof.
  change (refines any (DBOps.Removes_loop keys 0) (ViewOps.Removes_loop keys 0)). generalize 0.
  induction keys as [|key keys IH]; intros n; [by apply refines_ret|]. cbn [DBOps.Removes_loop ViewOps.Removes_loop].
  apply (refines_bind any).
  - intros db Hok. split_and!; try done. simpl. f_equal. apply (cd_Get (data db)), Hok.
  - intros [e|] _; [|apply IH]. apply (refines_bind any); [apply refines_Remove|]. intros _ _. apply IH.
Qed.
End operations.

(** Side conditions about values, and the rules for the syntax of handlers. *)
#[export] Hint Resolve refines_Now refines_Order refines_Rand refines_addAof refines_GetTTL refines_Expire refines_Persist
  refines_Remove refines_Removes refines_GetEntity refines_arg : refines.
#[export] Hint Resolve refines_PutEntity refines_PutIfAbsent refines_PutIfExists refines_mutate : refines.

#[export] Hint Resolve refines_lift make_slice_post : refines.

#[export] Hint Extern 1 (entity_ok _) => (exact I || (cbn; eauto with refines)) : refines.

(** One step of a refinement proof, by the shape of the handler. *)
Ltac refines_step :=
  match goal with
  | |- refines _ (mret _) (mret _) => apply refines_ret; eauto with refines; try done
  | |- refines _ (go_panic _) _ => apply refines_panic
  | |- refines _ (match ?x with _ => _ end) _ => destruct x eqn:?; cbn [from_option val_ok] in *
  | |- refines _ _ _ => solve [eauto with refines]
  | |- refines _ (early _ _) (early _ _) =>
      first [eapply refines_early; [solve [eauto with refines]|intros ? ?]
            |apply (refines_early any); [|intros ? _]]
  | |- refines _ (go_for _ _) _ => apply refines_for; intros ?
  | |- refines _ (mbind _ _) (mbind _ _) =>
      first [eapply refines_bind; [solve [eauto with refines]|intros ? ?]
            |apply (refines_bind any); [|intros ? _]]
  | |- refines _ (go_lift _) _ => apply refines_lift; try done; try (by case_match)
  end.

Ltac refines_auto := repeat refines_step; try done.
