(* ===== verification/SlowLog.v ===== *)
(** * database/slowlog.go: the slow log

    A ring of the last [maxEntries] slow commands.  The specification is the list of all
    slow commands since the last reset, newest first, of which the ring shows a prefix.
    Times are nanoseconds since the epoch.  The mutex is held for the whole of every
    method, so each is one step. *)

From Stdlib Require Import ZArith Lia Ascii String.
From stdpp Require Import base gmap strings numbers list.
From S2P Require Import Prelude GoStd Protocol DB.

Local Open Scope string_scope.
Local Open Scope list_scope.
Local Open Scope Z_scope.
Local Open Scope go_scope.

Module SlowLog.

Record SlowLogEntry := mkEntry { ID : Z; Timestamp : Z; Duration : Z; Command : CmdLine; PeerId : string }.

Record SlowLogger := mkLogger {
  entries : list (option SlowLogEntry);
  count : Z;
  nextIdx : Z;
  maxEntries : Z;
  threshold : Z;
  nextID : Z
}.

Definition NewSlowLogger (maxEntries threshold : Z) : outcome SlowLogger :=
  if maxEntries <? 0 then Panic "makeslice: len out of range"
  else Ret (mkLogger (replicate (Z.to_nat maxEntries) None) 0 0 maxEntries threshold 1).

(** [time.Since(start)] reads the clock at [now]. *)
Definition Record_ (sl : SlowLogger) (start now : Z) (args : CmdLine) (client : string) : outcome SlowLogger :=
  if (length (entries sl) =? 0)%nat then Ret sl
  else
    let micros := Z.quot (now - start) 1000 in
    if micros <? threshold sl then Ret sl
    else
      let entry := mkEntry (nextID sl) start micros args client in
      if (0 <=? nextIdx sl) && (nextIdx sl <? Z.of_nat (length (entries sl))) then
        Ret (mkLogger (<[Z.to_nat (nextIdx sl) := Some entry]> (entries sl))
               (if count sl <? maxEntries sl then count sl + 1 else count sl)
               (Z.rem (nextIdx sl + 1) (maxEntries sl)) (maxEntries sl) (threshold sl) (nextID sl + 1))
      else Panic "index out of range".

(** [sl.entries[idx]]. *)
Definition entry_at (sl : SlowLogger) (idx : Z) : outcome (option SlowLogEntry) :=
  if idx <? 0 then Panic "index out of range"
  else match entries sl !! Z.to_nat idx with Some e => Ret e | None => Panic "index out of range" end.

Fixpoint entries_loop (sl : SlowLogger) (startIdx i : Z) (n : nat) : outcome (list (option SlowLogEntry)) :=
  match n with
  | O => Ret []
  | S n' =>
      e ← entry_at sl (Z.rem (startIdx - i + maxEntries sl) (maxEntries sl));
      rest ← entries_loop sl startIdx (i + 1) n';
      Ret (e :: rest)
  end.

Definition GetEntries (sl : SlowLogger) (cnt : Z) : outcome (list (option SlowLogEntry)) :=
  if (cnt <=? 0) || (count sl =? 0) then Ret []
  else
    let cnt := if cnt >? count sl then count sl else cnt in
    let startIdx := Z.rem (nextIdx sl - 1 + maxEntries sl) (maxEntries sl) in
    entries_loop sl startIdx 0 (Z.to_nat cnt).

Definition Len (sl : SlowLogger) : Z := count sl.

Definition Reset (sl : SlowLogger) : SlowLogger :=
  mkLogger (replicate (Z.to_nat (maxEntries sl)) None) 0 0 (maxEntries sl) (threshold sl) 1.

(** [t.Unix()]. *)
Definition Unix (t : Z) : Z := t / 1000000000.

Fixpoint formatSlowlogEntries_loop (l : list (option SlowLogEntry)) : outcome (list Reply) :=
  match l with
  | [] => Ret []
  | None :: _ => Panic "invalid memory address or nil pointer dereference"
  | Some log :: l' =>
      rest ← formatSlowlogEntries_loop l';
      Ret (MultiRawReply [IntReply (ID log); IntReply (Unix (Timestamp log)); IntReply (Duration log);
             MultiBulkReply (Command log); BulkReply (Some (PeerId log))] :: rest)
  end.

Definition formatSlowlogEntries (l : list (option SlowLogEntry)) : outcome Reply :=
  result ← formatSlowlogEntries_loop l; Ret (MultiRawReply result).

Definition err_args : Reply := StandardErrReply "ERR wrong number of arguments for 'SLOWLOG' command".
Definition err_int : Reply := StandardErrReply "ERR value is not an integer or out of range".

(** The count of SLOWLOG GET, or the reply that ends the command. *)
Definition get_count (args : CmdLine) : Reply + Z :=
  match args with
  | [_; _; a2] =>
      match Atoi (str a2) with
      | inl _ => inl err_int
      | inr n => if n <? 0 then inl EmptyMultiBulkReply else inr n
      end
  | _ => inr 10
  end.

Definition HandleSlowlogCommand (sl : SlowLogger) (args : CmdLine) : outcome (SlowLogger * Reply) :=
  let argsLen := length args in
  if (argsLen <=? 1)%nat || (3 <? argsLen)%nat then Ret (sl, err_args)
  else
    a1 ← arg_at args 1;
    let subCmd := ToLower (str a1) in
    if String.eqb subCmd "get" then
      match get_count args with
      | inl e => Ret (sl, e)
      | inr cnt => l ← GetEntries sl cnt; r ← formatSlowlogEntries l; Ret (sl, r)
      end
    else if String.eqb subCmd "len" then Ret (sl, IntReply (Len sl))
    else if String.eqb subCmd "reset" then Ret (Reset sl, OkReply)
    else Ret (sl, StandardErrReply ("ERR Unknown subcommand or wrong number of arguments for  '" +:+ subCmd +:+ "'")).

(** ** Specification *)

(** The slow commands since the last reset, newest first. *)
Abbreviation history := (list SlowLogEntry).
Implicit Types (h : history).

Definition shown (max : Z) h : history := take (Z.to_nat max) h.

Definition entry_reply (log : SlowLogEntry) : Reply :=
  MultiRawReply [IntReply (ID log); IntReply (Unix (Timestamp log)); IntReply (Duration log);
    MultiBulkReply (Command log); BulkReply (Some (PeerId log))].

Inductive event := ERecord (start now : Z) (args : CmdLine) (client : string) | ECommand (args : CmdLine).

Definition spec_record (max thr : Z) h (start now : Z) (args : CmdLine) (client : string) : history :=
  let micros := Z.quot (now - start) 1000 in
  if (max =? 0) || (micros <? thr) then h
  else mkEntry (1 + Z.of_nat (length h)) start micros args client :: h.

Definition spec_command (max : Z) h (args : CmdLine) : history * Reply :=
  match args with
  | [_; a1] | [_; a1; _] =>
      let subCmd := ToLower (str a1) in
      if String.eqb subCmd "get" then
        match get_count args with
        | inl e => (h, e)
        | inr cnt => (h, MultiRawReply (entry_reply <$> take (Z.to_nat cnt) (shown max h)))
        end
      else if String.eqb subCmd "len" then (h, IntReply (Z.of_nat (length (shown max h))))
      else if String.eqb subCmd "reset" then ([], OkReply)
      else (h, StandardErrReply ("ERR Unknown subcommand or wrong number of arguments for  '" +:+ subCmd +:+ "'"))
  | _ => (h, err_args)
  end.

Definition step (sl : SlowLogger) (e : event) : outcome (SlowLogger * option Reply) :=
  match e with
  | ERecord start now args client => sl' ← Record_ sl start now args client; Ret (sl', None)
  | ECommand args => r ← HandleSlowlogCommand sl args; Ret (r.1, Some r.2)
  end.

Definition spec_step (max thr : Z) h (e : event) : history * option Reply :=
  match e with
  | ERecord start now args client => (spec_record max thr h start now args client, None)
  | ECommand args => let r := spec_command max h args in (r.1, Some r.2)
  end.

Fixpoint run (sl : SlowLogger) (es : list event) : outcome (list (option Reply)) :=
  match es with
  | [] => Ret []
  | e :: es' => r ← step sl e; rs ← run r.1 es'; Ret (r.2 :: rs)
  end.

Fixpoint spec_run (max thr : Z) h (es : list event) : list (option Reply) :=
  match es with
  | [] => []
  | e :: es' => let r := spec_step max thr h e in r.2 :: spec_run max thr r.1 es'
  end.

(** ** Representation *)

(** The slot of the [i]-th newest entry. *)
Definition slot (m len i : Z) : Z := (len - 1 - i) mod m.

Record rep (max thr : Z) (sl : SlowLogger) h : Prop := {
  rep_max : maxEntries sl = max;
  rep_thr : threshold sl = thr;
  rep_nonneg : 0 ≤ max;
  rep_len : Z.of_nat (length (entries sl)) = max;
  rep_count : count sl = Z.min (Z.of_nat (length h)) max;
  rep_id : nextID sl = 1 + Z.of_nat (length h);
  rep_next : 0 < max → nextIdx sl = Z.of_nat (length h) mod max;
  rep_slots : ∀ (i : nat) e, Z.of_nat i < max → h !! i = Some e →
    entries sl !! Z.to_nat (slot max (Z.of_nat (length h)) (Z.of_nat i)) = Some (Some e)
}.

Lemma new_rep max thr : 0 ≤ max → ∃ sl, NewSlowLogger max thr = Ret sl ∧ rep max thr sl [].
Proof.
  intros Hm. unfold NewSlowLogger. destruct (max <? 0) eqn:E; unbool; [lia|]. eexists. split; [done|].
  split; simpl; rewrite ?length_replicate; done || lia.
Qed.

Lemma reset_rep max thr sl h : rep max thr sl h → rep max thr (Reset sl) [].
Proof.
  intros [H1 H2 H3 H4 H5 H6 H7 H8]. split; simpl; rewrite ?length_replicate; done || lia.
Qed.

Lemma slot_range m len i : 0 < m → 0 ≤ slot m len i < m.
Proof. intros Hm. by apply Z.mod_pos_bound. Qed.

Lemma slot_newest m len : 0 < m → 0 ≤ len → slot m (len + 1) 0 = len mod m.
Proof. intros. unfold slot. f_equal. lia. Qed.

Lemma slot_shift m len i : slot m (len + 1) (i + 1) = slot m len i.
Proof. unfold slot. f_equal. lia. Qed.

(** Older entries are not where the next one goes. *)
Lemma slot_older m len i : 0 < m → 0 ≤ i → i + 1 < m → slot m len i ≠ len mod m.
Proof.
  intros Hm Hi Hlt E. unfold slot in E. assert ((len - (len - 1 - i)) mod m = 0) as H.
  { rewrite Zminus_mod, E, Z.sub_diag. apply Zmod_0_l. }
  replace (len - (len - 1 - i)) with (i + 1) in H by lia. rewrite Z.mod_small in H by lia. lia.
Qed.

(** The index that [GetEntries] computes. *)
Lemma slot_rem m len i : 0 < m → 0 ≤ len → 0 ≤ i < m → Z.rem (Z.rem (len mod m - 1 + m) m - i + m) m = slot m len i.
Proof.
  intros Hm Hl Hi. pose proof (Z.mod_pos_bound len m Hm). rewrite (Z.rem_mod_nonneg (_ - 1 + _)) by lia.
  pose proof (Z.mod_pos_bound (len mod m - 1 + m) m Hm). rewrite Z.rem_mod_nonneg by lia. unfold slot.
  replace ((len mod m - 1 + m) mod m - i + m) with ((len mod m - 1 + m) mod m + (m - i)) by lia. rewrite Zplus_mod_idemp_l.
  replace (len mod m - 1 + m + (m - i)) with (len mod m + (m + m - 1 - i)) by lia. rewrite Zplus_mod_idemp_l.
  replace (len + (m + m - 1 - i)) with (len - 1 - i + 2 * m) by lia. apply Z_mod_plus_full.
Qed.

Lemma record_rep max thr sl h start now args client : rep max thr sl h →
  ∃ sl', Record_ sl start now args client = Ret sl' ∧ rep max thr sl' (spec_record max thr h start now args client).
Proof.
  intros Hr. pose proof Hr as [H1 H2 H3 H4 H5 H6 H7 H8]. unfold Record_, spec_record.
  destruct (max =? 0) eqn:E0; unbool.
  { simpl. replace (length (entries sl)) with 0%nat by lia. by exists sl. }
  destruct (length (entries sl) =? 0)%nat eqn:E1; unbool; [lia|]. rewrite H2. destruct (_ <? thr); [by exists sl|]. simpl.
  specialize (H7 ltac:(lia)). pose proof (Z.mod_pos_bound (Z.of_nat (length h)) max ltac:(lia)).
  destruct ((0 <=? nextIdx sl) && _) eqn:E2; [|apply andb_false_iff in E2 as [E2|E2]; unbool; lia]. clear E2.
  eexists. split; [done|]. split; simpl; try done.
  - by rewrite length_insert.
  - rewrite H1, H5. destruct (_ <? max) eqn:E2; unbool; lia.
  - rewrite H6. lia.
  - intros _. rewrite H1, Z.rem_mod_nonneg by lia. rewrite H7, Zplus_mod_idemp_l. f_equal. lia.
  - intros [|i] e Hi He; simpl in He.
    + injection He as <-. rewrite Nat2Z.inj_succ, <-Z.add_1_r. change (Z.of_nat 0) with 0. rewrite slot_newest by lia.
      rewrite H7, list_lookup_insert_eq by lia. by rewrite H6.
    + rewrite !Nat2Z.inj_succ, <-!Z.add_1_r, slot_shift. rewrite list_lookup_insert_ne; [by apply H8; [lia|]|].
      pose proof (slot_range max (Z.of_nat (length h)) (Z.of_nat i) ltac:(lia)). rewrite H7.
      pose proof (slot_older max (Z.of_nat (length h)) (Z.of_nat i) ltac:(lia) ltac:(lia) ltac:(lia)). lia.
Qed.

Lemma entries_loop_rep max thr sl h (i n : nat) : rep max thr sl h → (0 < max) → Z.of_nat i + Z.of_nat n ≤ max → (i + n ≤ length h)%nat →
  entries_loop sl (Z.rem (nextIdx sl - 1 + max) max) (Z.of_nat i) n = Ret (Some <$> take n (drop i h)).
Proof.
  intros Hr Hm. pose proof Hr as [H1 H2 H3 H4 H5 H6 H7 H8]. specialize (H7 Hm). revert i. induction n as [|n IH]; intros i Hi Hl; [done|].
  cbn [entries_loop]. destruct (lookup_lt_is_Some_2 h i ltac:(lia)) as [e He]. rewrite (drop_S _ _ _ He). cbn [take fmap list_fmap].
  pose proof (Z.mod_pos_bound (Z.of_nat (length h)) max Hm) as Hb.
  assert (Z.rem (Z.rem (nextIdx sl - 1 + max) max - Z.of_nat i + maxEntries sl) (maxEntries sl) = slot max (Z.of_nat (length h)) (Z.of_nat i)) as ->.
  { rewrite H1, H7. apply slot_rem; lia. }
  unfold entry_at. pose proof (slot_range max (Z.of_nat (length h)) (Z.of_nat i) Hm). destruct (_ <? 0) eqn:E; unbool; [lia|].
  rewrite (H8 i e ltac:(lia) He). cbn [mbind outcome_bind].
  replace (Z.of_nat i + 1) with (Z.of_nat (S i)) by lia. rewrite IH by lia. done.
Qed.

Lemma get_rep max thr sl h cnt : rep max thr sl h → GetEntries sl cnt = Ret (Some <$> take (Z.to_nat cnt) (shown max h)).
Proof.
  intros Hr. pose proof Hr as [H1 H2 H3 H4 H5 H6 H7 H8]. unfold GetEntries, shown. rewrite H5, take_take.
  destruct ((cnt <=? 0) || _) eqn:E.
  - assert (take (Nat.min (Z.to_nat cnt) (Z.to_nat max)) h = []) as ->; [|done].
    apply orb_true_iff in E as [E|E]; unbool; [by replace (Nat.min _ _) with 0%nat by lia|].
    destruct h as [|e h]; [by rewrite take_nil|]. cbn [length] in E. by replace (Nat.min _ _) with 0%nat by lia.
  - unbool. rewrite H1. set (n := if cnt >? _ then _ else _).
    change 0 with (Z.of_nat 0) at 1; rewrite (entries_loop_rep max thr sl h 0 (Z.to_nat n) Hr); [|lia|unfold n; destruct (_ >? _) eqn:E'; unbool; lia..].
    rewrite drop_0. do 2 f_equal. unfold n. destruct (_ >? _) eqn:E'; unbool; [|f_equal; lia].
    destruct (decide (Z.of_nat (length h) ≤ max)); [by rewrite !take_ge by lia|f_equal; lia].
Qed.

Lemma format_entries (l : history) : formatSlowlogEntries (Some <$> l) = Ret (MultiRawReply (entry_reply <$> l)).
Proof.
  unfold formatSlowlogEntries. assert (formatSlowlogEntries_loop (Some <$> l) = Ret (entry_reply <$> l)) as ->; [|done].
  induction l as [|e l IH]; [done|]. rewrite !fmap_cons. cbn [formatSlowlogEntries_loop]. by rewrite IH.
Qed.

Lemma len_rep max thr sl h : rep max thr sl h → Len sl = Z.of_nat (length (shown max h)).
Proof. intros [H1 H2 H3 H4 H5 H6 H7 H8]. unfold Len, shown. rewrite H5, length_take. lia. Qed.

Lemma command_rep max thr sl h args : rep max thr sl h →
  ∃ sl', HandleSlowlogCommand sl args = Ret (sl', (spec_command max h args).2) ∧ rep max thr sl' (spec_command max h args).1.
Proof.
  intros Hr. unfold HandleSlowlogCommand, spec_command.
  destruct args as [|a0 [|a1 [|a2 [|a3 args]]]]; try by exists sl.
  all: cbn [length Nat.leb Nat.ltb orb arg_at lookup list_lookup mbind outcome_bind].
  all: destruct (String.eqb (ToLower (str a1)) "get").
  1,3: match goal with |- context [get_count ?l] => destruct (get_count l) as [e|cnt] end; [by exists sl|];
    rewrite (get_rep _ _ _ _ _ Hr); cbn [mbind outcome_bind]; rewrite format_entries; by exists sl.
  all: destruct (String.eqb _ "len"); [exists sl; split; [|done]|].
  1,3: by rewrite (len_rep _ _ _ _ Hr).
  all: destruct (String.eqb _ "reset"); [|by exists sl].
  all: eexists; split; [done|by eapply reset_rep].
Qed.

Lemma step_rep max thr sl h e : rep max thr sl h →
  ∃ sl', step sl e = Ret (sl', (spec_step max thr h e).2) ∧ rep max thr sl' (spec_step max thr h e).1.
Proof.
  intros Hr. destruct e as [start now args client|args]; simpl.
  - destruct (record_rep max thr sl h start now args client Hr) as (sl' & -> & Hr'). by exists sl'.
  - destruct (command_rep max thr sl h args Hr) as (sl' & -> & Hr'). by exists sl'.
Qed.

(** The ring of the slow log shows what a list of all slow commands would: for every
    capacity that is not negative, every threshold and every sequence of recorded commands
    and SLOWLOG calls, nothing panics, SLOWLOG GET returns the newest entries first, as many
    as asked for and as the capacity keeps, with consecutive ids since the last reset, and
    SLOWLOG LEN counts them. *)
Theorem slowlog_refines (max thr : Z) (es : list event) : 0 ≤ max →
  (sl ← NewSlowLogger max thr; run sl es) = Ret (spec_run max thr [] es).
Proof.
  intros Hm. destruct (new_rep max thr Hm) as (sl & -> & Hr). cbn [mbind outcome_bind]. revert sl Hr. generalize (@nil SlowLogEntry).
  induction es as [|e es IH]; intros h sl Hr; [done|]. cbn [run spec_run].
  destruct (step_rep max thr sl h e Hr) as (sl' & -> & Hr'). cbn [mbind outcome_bind fst snd]. by rewrite (IH _ _ Hr').
Qed.

Lemma slowlog_refines_witness :
  let es := [ERecord 0 5000 [Some "get"] "p"; ERecord 10 50 [Some "ping"] "p"; ERecord 20 9020 [Some "set"] "q";
             ERecord 30 4000030 [Some "del"] "q"; ECommand [Some "slowlog"; Some "GET"]; ECommand [Some "slowlog"; Some "len"]] in
  (sl ← NewSlowLogger 2 1; run sl es) = Ret (spec_run 2 1 [] es).
Proof. apply slowlog_refines. lia. Defined.
End SlowLog.
