(* ===== verification/Marshal.v ===== *)
(** * aof/marshal.go and database/tx_utils.go: commands that rebuild values

    [EntityToCmd] writes a value as the command that creates it; the rollback
    helpers of transactions are built from it.  The key lists that the commands
    declare before they run are here too. *)

From Stdlib Require Import ZArith Lia Ascii String.
From stdpp Require Import base gmap strings numbers list.
From S2P Require Import Prelude GoStd Dict QuickList SetDS Protocol Border SortedSet ZSetShape DB.

Local Open Scope string_scope.
Local Open Scope list_scope.
Local Open Scope Z_scope.
Local Open Scope go_scope.

(** ** aof/marshal.go *)

Definition stringToCmd (key : string) (b : bytes) : CmdLine := [Some "SET"; Some key; b].

(** [list.ForEach] fills the slots behind the key. *)
Definition listToCmd `{GoRuntime} (key : string) (l : QList.QuickList bytes) : outcome CmdLine :=
  vals ← QList.ForEach l (λ _ v acc, (true, acc ++ [v])) [];
  Ret (Some "RPUSH" :: Some key :: vals).

Definition setToCmd (ord : range_order) (key : string) (s : Set_ (SimpleDict unit)) : CmdLine :=
  Some "SADD" :: Some key :: (Some <$> Sets.ForEach ord (Some s)).

Definition hashToCmd (ord : range_order) (key : string) (h : SimpleDict bytes) : CmdLine :=
  Some "HMSET" :: Some key :: concat ((λ kv : string * bytes, [Some kv.1; kv.2]) <$> Simple.ForEach ord h).

(** Every member, highest score first; the visit panics for an empty set. *)
Definition zSetToCmd `{Env} (key : string) (zset : SortedSet) : outcome CmdLine :=
  args ← ZSet.ForEachByRank (λ e acc, (true, acc ++ [Some (FormatFloat (Score e)); Some (Member e)]))
           zset 0 (ZSet.Len zset) true [];
  Ret (Some "ZADD" :: Some key :: args).

(** Milliseconds since the epoch, as [UnixNano()/1e6]. *)
Definition unix_millis (t : Z) : Z := Z.quot (int64 t) 1000000.

Definition MakeExpireCmd (key : string) (expireAt : Z) : CmdLine :=
  [Some "PEXPIREAT"; Some key; Some (FormatInt (unix_millis expireAt))].

(** ** tx_utils.go: the keys a command declares *)

Abbreviation key_lists := (list string * list string)%type.

Definition readFirstKey (args : list bytes) : outcome key_lists :=
  a ← arg_at args 0; Ret ([], [str a]).

Definition writeFirstKey (args : list bytes) : outcome key_lists :=
  a ← arg_at args 0; Ret ([str a], []).

Definition writeAllKeys (args : list bytes) : outcome key_lists := Ret (str <$> args, []).

Definition readAllKeys (args : list bytes) : outcome key_lists := Ret ([], str <$> args).

Definition noPrepare (args : list bytes) : outcome key_lists := Ret ([], []).

Definition prepareSetCalculate (args : list bytes) : outcome key_lists := Ret ([], str <$> args).

Definition prepareSetCalculateStore (args : list bytes) : outcome key_lists :=
  dest ← arg_at args 0; Ret ([str dest], str <$> drop 1 args).

Section store.
Context `{Env} {S : Type} `{Store S}.

Definition EntityToCmd (key : string) (entity : DataEntity) : GoM S CmdLine :=
  match entity with
  | DString b => mret (stringToCmd key b)
  | DList l => go_lift (listToCmd key l)
  | DSet s => ord ← Order; mret (setToCmd ord key s)
  | DHash h => ord ← Order; mret (hashToCmd ord key h)
  | DZSet z => go_lift (zSetToCmd key z)
  end.

Definition toTTLCmd (key : string) : GoM S CmdLine :=
  raw ← GetTTL key;
  match raw with
  | None => mret (ToCmdLine ["PERSIST"; key])
  | Some expireTime =>
      let timestamp := FormatInt (Z.quot (Z.quot (int64 expireTime) 1000) 1000) in
      mret (ToCmdLine ["PEXPIREAT"; key; timestamp])
  end.

(** ** tx_utils.go: rollback *)

Fixpoint rollbackGivenKeys (keys : list string) : GoM S (list CmdLine) :=
  match keys with
  | [] => mret []
  | key :: keys' =>
      entity ← GetEntity key;
      cmds ← match entity with
             | None => mret [ToCmdLine ["DEL"; key]]
             | Some e =>
                 cmd ← EntityToCmd key e;
                 ttl ← toTTLCmd key;
                 mret [ToCmdLine ["DEL"; key]; cmd; ttl]
             end;
      rest ← rollbackGivenKeys keys';
      mret (cmds ++ rest)
  end.

Definition rollbackFirstKey (args : list bytes) : GoM S (list CmdLine) :=
  a ← arg args 0; rollbackGivenKeys [str a].
End store.

(** ** Refinement *)

(** The name a command line is looked up with. *)
Definition command_name (cmdLine : CmdLine) : string := ToLower (str (default None (cmdLine !! 0%nat))).

(** The commands whose handlers may loop or wait for ever: those that execute the line of a
    dump, the searches around a position, and the draw of a key. *)
Definition unending : list string :=
  ["renameto"; "renamenxto"; "copyto"; "georadius"; "georadiusbymember"; "randomkey"].

(** With the walks over the shards, which wait for a shard that their own transaction
    locked for writing. *)
Definition unbounded : list string := unending ++ ["keys"; "scan"].

(** The commands that are specified on [View]: all but these and GETVER, which looks at the
    versions. *)
Definition specified (n : string) : bool :=
  negb (existsb (String.eqb n) unbounded || String.eqb n "getver").

Lemma specified_bounded n : specified n = true → n ∉ unbounded.
Proof.
  unfold specified. rewrite negb_true_iff, orb_false_iff. intros [Hn _] Hin. apply not_true_iff_false in Hn. apply Hn, existsb_exists.
  exists n. split; [by apply list_elem_of_In|apply String.eqb_refl].
Qed.

(** Undo logs use specified commands only. *)
Abbreviation log_line := (λ line : CmdLine, specified (command_name line) = true).
Abbreviation log_ok := (Forall log_line).

Lemma log_replicate n line : log_line line → log_ok (replicate n line).
Proof. apply Forall_replicate. Qed.

Lemma log_fmap {A} (f : A → CmdLine) l : (∀ x, log_line (f x)) → log_ok (f <$> l).
Proof. intros Hf. apply Forall_fmap, Forall_true, Hf. Qed.

#[export] Hint Extern 1 (Forall log_line _) =>
  first [by repeat constructor | apply log_replicate; done | apply log_fmap; intros ?] : refines.

Section facts.
Context `{Env}.

Lemma fold_until_collect {V} (l acc : list V) i :
  fold_until (λ _ v acc, (true, acc ++ [v])) l i acc = acc ++ l.
Proof.
  revert i acc. induction l as [|x l IH]; intros i acc; simpl; [by rewrite app_nil_r|].
  by rewrite IH, <-app_assoc.
Qed.

Lemma listToCmd_spec key (l : QList.QuickList bytes) : QList.ql_wf l →
  listToCmd key l = Ret (Some "RPUSH" :: Some key :: QList.to_list l).
Proof.
  intros Hl. unfold listToCmd. rewrite QList.ForEach_spec by done. cbn [mbind outcome_bind].
  by rewrite fold_until_collect.
Qed.

Lemma refines_EntityToCmd key e : entity_ok e → refines log_line (EntityToCmd key e) (EntityToCmd key e).
Proof.
  intros He. destruct e as [b|l|h|s|z]; unfold EntityToCmd.
  - by apply refines_ret.
  - apply refines_lift. by rewrite listToCmd_spec.
  - apply (refines_bind any); [apply refines_Order|]. intros ord _. by apply refines_ret.
  - apply (refines_bind any); [apply refines_Order|]. intros ord _. by apply refines_ret.
  - apply refines_lift. apply (post_bind any); [by apply ForEachByRank_post|]. by intros.
Qed.

Lemma refines_toTTLCmd key : refines log_line (toTTLCmd key) (toTTLCmd key).
Proof.
  apply (refines_bind any); [apply refines_GetTTL|]. intros [t|] _; by apply refines_ret.
Qed.

Lemma refines_rollbackGivenKeys keys : refines log_ok (rollbackGivenKeys keys) (rollbackGivenKeys keys).
Proof.
  induction keys as [|key keys IH]; cbn [rollbackGivenKeys]; [apply refines_ret; constructor|].
  eapply refines_bind; [apply refines_GetEntity|]. intros o Ho.
  apply (refines_bind log_ok).
  - destruct o as [e|]; [|apply refines_ret; by repeat constructor].
    eapply refines_bind; [by apply refines_EntityToCmd|]. intros cmd Hc.
    eapply refines_bind; [apply refines_toTTLCmd|]. intros ttl Ht. apply refines_ret. by repeat constructor.
  - intros cmds Hc. eapply refines_bind; [apply IH|]. intros rest Hr. apply refines_ret. by apply Forall_app.
Qed.

Lemma refines_rollbackFirstKey args : refines log_ok (rollbackFirstKey args) (rollbackFirstKey args).
Proof.
  apply (refines_bind any); [apply refines_arg|]. intros a _. apply refines_rollbackGivenKeys.
Qed.
End facts.

#[export] Hint Resolve refines_toTTLCmd refines_rollbackGivenKeys refines_rollbackFirstKey : refines.
