(* ===== verification/StringCmds.v ===== *)
(** * database/string.go: string commands

    Every executor of string.go except [execIncrByFloat] (floating point) and
    [getRandomKey], written over the operations of [Store]; and the proofs that
    each refines its specification. *)

From Stdlib Require Import ZArith Lia Ascii String.
From stdpp Require Import base gmap strings numbers list.
From S2P Require Import Prelude GoStd Dict QuickList SetDS Utils Bitmap Protocol Border DB Marshal.

Local Open Scope string_scope.
Local Open Scope list_scope.
Local Open Scope Z_scope.
Local Open Scope go_scope.

Definition MakeErrReply (status : string) : Reply := StandardErrReply status.

Definition err_not_int : Reply := MakeErrReply "ERR value is not an integer or out of range".
Definition err_float_value : Reply := MakeErrReply "ERR value is not a valid float".

Inductive policy := upsertPolicy | insertPolicy | updatePolicy.

#[export] Instance policy_eq_dec : EqDecision policy.
Proof. solve_decision. Defined.

Definition unlimitedTTL : Z := 0.

(** [time.Duration(ttl) * time.Millisecond]. *)
Definition millis (ttl : Z) : Z := int64 (ttl * 1000000).

(** [append(a, b...)]: a nil slice stays nil when nothing is appended. *)
Definition append_bytes (a b : bytes) : bytes :=
  match a with
  | None => if String.eqb (str b) "" then None else Some (str b)
  | Some s => Some (s +:+ str b)
  end.

(** The pairs of an even argument list. *)
Fixpoint arg_pairs (args : list bytes) : list (string * bytes) :=
  match args with
  | k :: v :: args' => (str k, v) :: arg_pairs args'
  | _ => []
  end.

Definition OnesCount8 (b : Z) : Z :=
  foldr (λ i acc, Z.b2z (Z.testbit b i) + acc) 0 [0; 1; 2; 3; 4; 5; 6; 7].

Section commands.
Context `{Env} {S : Type} `{Store S}.
Implicit Types (args : list bytes).

Definition getAsString (key : string) : GoM S (Reply + bytes) :=
  entity ← GetEntity key;
  match entity with
  | None => mret (inr None)
  | Some (DString b) => mret (inr b)
  | Some _ => mret (inl WrongTypeErrReply)
  end.

Definition execGet args : GoM S Reply :=
  a0 ← arg args 0;
  let? b := getAsString (str a0) in
  match b with
  | None => mret NullBulkReply
  | Some _ => mret (BulkReply b)
  end.

(** The option loop of [execGetEX] from the options [rest] on. *)
Fixpoint getex_options (key : string) (rest : list bytes) (ttl : Z) : GoM S (Reply + Z) :=
  match rest with
  | [] => mret (inr ttl)
  | a :: rest' =>
      let opt := ToUpper (str a) in
      if String.eqb opt "EX" then
        if negb (ttl =? unlimitedTTL) then mret (inl SyntaxErrReply)
        else
          match rest' with
          | [] => mret (inl SyntaxErrReply)
          | v :: rest'' =>
              match ParseInt (str v) with
              | inl _ => mret (inl SyntaxErrReply)
              | inr ttlArg =>
                  if ttlArg <=? 0 then mret (inl (MakeErrReply "ERR invalid expire time in getex"))
                  else getex_options key rest'' (int64 (ttlArg * 1000))
              end
          end
      else if String.eqb opt "PX" then
        if negb (ttl =? unlimitedTTL) then mret (inl SyntaxErrReply)
        else
          match rest' with
          | [] => mret (inl SyntaxErrReply)
          | v :: rest'' =>
              match ParseInt (str v) with
              | inl _ => mret (inl SyntaxErrReply)
              | inr ttlArg =>
                  if ttlArg <=? 0 then mret (inl (MakeErrReply "ERR invalid expire time in getex"))
                  else getex_options key rest'' ttlArg
              end
          end
      else if String.eqb opt "PERSIST" then
        if negb (ttl =? unlimitedTTL) then mret (inl SyntaxErrReply)
        else _ ← Persist key; getex_options key rest' ttl
      else getex_options key rest' ttl
  end.

Definition execGetEX args : GoM S Reply :=
  a0 ← arg args 0;
  let key := str a0 in
  let? b := getAsString key in
  match b with
  | None => mret NullBulkReply
  | Some _ =>
      let? ttl := getex_options key (drop 1 args) unlimitedTTL in
      _ ← (if (1 <? length args)%nat then
             if negb (ttl =? unlimitedTTL) then
               now ← Now;
               let expireTime := now + millis ttl in
               _ ← Expire key expireTime;
               addAof (MakeExpireCmd key expireTime)
             else
               _ ← Persist key;
               addAof (ToCmdLine3 "persist" [a0])
           else mret tt);
      mret (BulkReply b)
  end.

(** The option loop of [execSet]. *)
Fixpoint set_options (rest : list bytes) (pol : policy) (ttl : Z) : Reply + (policy * Z) :=
  match rest with
  | [] => inr (pol, ttl)
  | a :: rest' =>
      let opt := ToUpper (str a) in
      if String.eqb opt "NX" then
        if bool_decide (pol = updatePolicy) then inl SyntaxErrReply else set_options rest' insertPolicy ttl
      else if String.eqb opt "XX" then
        if bool_decide (pol = insertPolicy) then inl SyntaxErrReply else set_options rest' updatePolicy ttl
      else if String.eqb opt "EX" then
        if negb (ttl =? unlimitedTTL) then inl SyntaxErrReply
        else
          match rest' with
          | [] => inl SyntaxErrReply
          | v :: rest'' =>
              match ParseInt (str v) with
              | inl _ => inl SyntaxErrReply
              | inr ttlArg =>
                  if ttlArg <=? 0 then inl (MakeErrReply "ERR invalid expire time in set")
                  else set_options rest'' pol (int64 (ttlArg * 1000))
              end
          end
      else if String.eqb opt "PX" then
        if negb (ttl =? unlimitedTTL) then inl SyntaxErrReply
        else
          match rest' with
          | [] => inl SyntaxErrReply
          | v :: rest'' =>
              match ParseInt (str v) with
              | inl _ => inl SyntaxErrReply
              | inr ttlArg =>
                  if ttlArg <=? 0 then inl (MakeErrReply "ERR invalid expire time in set")
                  else set_options rest'' pol ttlArg
              end
          end
      else inl SyntaxErrReply
  end.

Definition execSet args : GoM S Reply :=
  a0 ← arg args 0;
  value ← arg args 1;
  let key := str a0 in
  match set_options (drop 2 args) upsertPolicy unlimitedTTL with
  | inl e => mret e
  | inr (pol, ttl) =>
      let entity := DString value in
      result ← (match pol with
                | upsertPolicy => _ ← PutEntity key entity; mret 1
                | insertPolicy => PutIfAbsent key entity
                | updatePolicy => PutIfExists key entity
                end);
      if result >? 0 then
        _ ← (if negb (ttl =? unlimitedTTL) then
               now ← Now;
               let expireTime := now + millis ttl in
               _ ← Expire key expireTime;
               _ ← addAof [Some "SET"; a0; value];
               addAof (MakeExpireCmd key expireTime)
             else
               _ ← Persist key;
               addAof (ToCmdLine3 "set" args));
        mret OkReply
      else mret NullBulkReply
  end.

Definition execSetNX args : GoM S Reply :=
  a0 ← arg args 0;
  value ← arg args 1;
  result ← PutIfAbsent (str a0) (DString value);
  _ ← addAof (ToCmdLine3 "setnx" args);
  mret (IntReply result).

Definition execSetEX args : GoM S Reply :=
  a0 ← arg args 0;
  value ← arg args 2;
  a1 ← arg args 1;
  let key := str a0 in
  match ParseInt (str a1) with
  | inl _ => mret SyntaxErrReply
  | inr ttlArg =>
      if ttlArg <=? 0 then mret (MakeErrReply "ERR invalid expire time in setex")
      else
        let ttl := int64 (ttlArg * 1000) in
        _ ← PutEntity key (DString value);
        now ← Now;
        let expireTime := now + millis ttl in
        _ ← Expire key expireTime;
        _ ← addAof (ToCmdLine3 "setex" args);
        _ ← addAof (MakeExpireCmd key expireTime);
        mret OkReply
  end.

Definition execPSetEX args : GoM S Reply :=
  a0 ← arg args 0;
  value ← arg args 2;
  a1 ← arg args 1;
  let key := str a0 in
  match ParseInt (str a1) with
  | inl _ => mret SyntaxErrReply
  | inr ttlArg =>
      if ttlArg <=? 0 then mret (MakeErrReply "ERR invalid expire time in setex")
      else
        _ ← PutEntity key (DString value);
        now ← Now;
        let expireTime := now + millis ttlArg in
        _ ← Expire key expireTime;
        _ ← addAof (ToCmdLine3 "setex" args);
        _ ← addAof (MakeExpireCmd key expireTime);
        mret OkReply
  end.

Definition prepareMSet args : outcome key_lists := Ret ((arg_pairs args).*1, []).

Definition undoMSet args : GoM S (list CmdLine) :=
  keys ← go_lift (prepareMSet args); rollbackGivenKeys keys.1.

(** [db.PutEntity(key, &DataEntity{Data: value})] as a statement. *)
Definition put_string (kv : string * bytes) : GoM S unit :=
  _ ← PutEntity kv.1 (DString kv.2); mret tt.

Definition execMSet args : GoM S Reply :=
  if negb (Nat.even (length args)) then mret SyntaxErrReply
  else
    _ ← go_for (arg_pairs args) put_string;
    _ ← addAof (ToCmdLine3 "mset" args);
    mret OkReply.

Definition prepareMGet args : outcome key_lists := Ret ([], str <$> args).

Fixpoint mget_loop (keys : list string) (result : list bytes) : GoM S Reply :=
  match keys with
  | [] => mret (MultiBulkReply result)
  | key :: keys' =>
      r ← getAsString key;
      match r with
      | inl WrongTypeErrReply => mget_loop keys' (result ++ [None])
      | inl err => mret err
      | inr b => mget_loop keys' (result ++ [b])
      end
  end.

Definition execMGet args : GoM S Reply := mget_loop (str <$> args) [].

(** The first loop of [execMSetNX]: does one of the keys exist? *)
Fixpoint any_exists (keys : list string) : GoM S bool :=
  match keys with
  | [] => mret false
  | key :: keys' =>
      entity ← GetEntity key;
      match entity with Some _ => mret true | None => any_exists keys' end
  end.

Definition execMSetNX args : GoM S Reply :=
  if negb (Nat.even (length args)) then mret SyntaxErrReply
  else
    found ← any_exists (arg_pairs args).*1;
    if (found : bool) then mret (IntReply 0)
    else
      _ ← go_for (arg_pairs args) put_string;
      _ ← addAof (ToCmdLine3 "msetnx" args);
      mret (IntReply 1).

Definition execGetSet args : GoM S Reply :=
  a0 ← arg args 0;
  value ← arg args 1;
  let key := str a0 in
  let? old := getAsString key in
  _ ← PutEntity key (DString value);
  _ ← Persist key;
  _ ← addAof (ToCmdLine3 "set" args);
  match old with
  | None => mret NullBulkReply
  | Some _ => mret (BulkReply old)
  end.

Definition execGetDel args : GoM S Reply :=
  a0 ← arg args 0;
  let key := str a0 in
  let? old := getAsString key in
  match old with
  | None => mret NullBulkReply
  | Some _ =>
      _ ← Remove key;
      _ ← addAof (ToCmdLine3 "del" args);
      mret (BulkReply old)
  end.

(** The common tail of the four integer commands: the value becomes [n]. *)
Definition store_int (name : string) args (key : string) (n : Z) : GoM S Reply :=
  _ ← PutEntity key (DString (Some (FormatInt n)));
  _ ← addAof (ToCmdLine3 name args);
  mret (IntReply n).

Definition execIncr args : GoM S Reply :=
  a0 ← arg args 0;
  let key := str a0 in
  let? b := getAsString key in
  match b with
  | Some s =>
      match ParseInt s with
      | inl _ => mret err_not_int
      | inr val => store_int "incr" args key (int64 (val + 1))
      end
  | None => store_int "incr" args key 1
  end.

Definition execIncrBy args : GoM S Reply :=
  a0 ← arg args 0;
  a1 ← arg args 1;
  let key := str a0 in
  match ParseInt (str a1) with
  | inl _ => mret err_not_int
  | inr delta =>
      let? b := getAsString key in
      match b with
      | Some s =>
          match ParseInt s with
          | inl _ => mret err_not_int
          | inr val => store_int "incrby" args key (int64 (val + delta))
          end
      | None =>
          _ ← PutEntity key (DString a1);
          _ ← addAof (ToCmdLine3 "incrby" args);
          mret (IntReply delta)
      end
  end.

Definition execIncrByFloat args : GoM S Reply :=
  a0 ← arg args 0;
  a1 ← arg args 1;
  let key := str a0 in
  match ParseFloat (str a1) with
  | None => mret err_float_value
  | Some delta =>
      let? b := getAsString key in
      match b with
      | Some s =>
          match ParseFloat s with
          | None => mret err_float_value
          | Some val =>
              let resultBytes := Some (FormatFloat (float_add val delta)) in
              _ ← PutEntity key (DString resultBytes);
              _ ← addAof (ToCmdLine3 "incrbyfloat" args);
              mret (BulkReply resultBytes)
          end
      | None =>
          _ ← PutEntity key (DString a1);
          _ ← addAof (ToCmdLine3 "incrbyfloat" args);
          mret (BulkReply a1)
      end
  end.

Definition execDecr args : GoM S Reply :=
  a0 ← arg args 0;
  let key := str a0 in
  let? b := getAsString key in
  match b with
  | Some s =>
      match ParseInt s with
      | inl _ => mret err_not_int
      | inr val => store_int "decr" args key (int64 (val - 1))
      end
  | None => store_int "decr" args key (-1)
  end.

Definition execDecrBy args : GoM S Reply :=
  a0 ← arg args 0;
  a1 ← arg args 1;
  let key := str a0 in
  match ParseInt (str a1) with
  | inl _ => mret err_not_int
  | inr delta =>
      let? b := getAsString key in
      match b with
      | Some s =>
          match ParseInt s with
          | inl _ => mret err_not_int
          | inr val => store_int "decrby" args key (int64 (val - delta))
          end
      | None => store_int "decrby" args key (int64 (- delta))
      end
  end.

Definition execStrLen args : GoM S Reply :=
  a0 ← arg args 0;
  let? b := getAsString (str a0) in
  match b with
  | None => mret (IntReply 0)
  | Some s => mret (IntReply (slen s))
  end.

Definition execAppend args : GoM S Reply :=
  a0 ← arg args 0;
  let? b := getAsString (str a0) in
  a1 ← arg args 1;
  let b' := append_bytes b a1 in
  _ ← PutEntity (str a0) (DString b');
  _ ← addAof (ToCmdLine3 "append" args);
  mret (IntReply (blen b')).

(** The byte loop of [execSetRange]: [idx] is [offset + i]. *)
Fixpoint setrange_loop (value : list ascii) (idx bytesLen : Z) (buf : list ascii) : outcome (list ascii) :=
  match value with
  | [] => Ret buf
  | c :: value' =>
      if idx >=? bytesLen then setrange_loop value' (idx + 1) bytesLen (buf ++ [c])
      else if idx <? 0 then Panic "index out of range"
      else setrange_loop value' (idx + 1) bytesLen (<[Z.to_nat idx := c]> buf)
  end.

(** A slice that was nil and got no byte is still nil. *)
Definition slice_of (old : bytes) (buf : list ascii) : bytes :=
  match old, buf with None, [] => None | _, _ => Some (of_bytes buf) end.

Definition setrange_bytes (b : bytes) (offset : Z) (value : bytes) : outcome bytes :=
  let bytesLen := blen b in
  buf ← (if bytesLen <? offset then
           _ ← make_slice 1 (offset - bytesLen);
           Ret (to_bytes (str b) ++ replicate (Z.to_nat (offset - bytesLen)) "000"%char)
         else Ret (to_bytes (str b)));
  buf' ← setrange_loop (to_bytes (str value)) offset (Z.of_nat (length buf)) buf;
  Ret (slice_of b buf').

Definition execSetRange args : GoM S Reply :=
  a0 ← arg args 0;
  a1 ← arg args 1;
  match ParseInt (str a1) with
  | inl e => mret (MakeErrReply (num_error_text "ParseInt" (str a1) e))
  | inr offset =>
      value ← arg args 2;
      let? b := getAsString (str a0) in
      b' ← go_lift (setrange_bytes b offset value);
      _ ← PutEntity (str a0) (DString b');
      _ ← addAof (ToCmdLine3 "setRange" args);
      mret (IntReply (blen b'))
  end.

Definition execGetRange args : GoM S Reply :=
  a0 ← arg args 0;
  a1 ← arg args 1;
  match ParseInt (str a1) with
  | inl _ => mret err_not_int
  | inr startIdx =>
      a2 ← arg args 2;
      match ParseInt (str a2) with
      | inl _ => mret err_not_int
      | inr endIdx =>
          let? bs := getAsString (str a0) in
          match bs with
          | None => mret NullBulkReply
          | Some s =>
              let '(beg, stop) := ConvertRange startIdx endIdx (slen s) in
              if beg <? 0 then mret NullBulkReply
              else mret (BulkReply (Some (substr s beg stop)))
          end
      end
  end.

(** "0" and "1". *)
Definition parse_bit (s : string) : option Z :=
  if String.eqb s "1" then Some 1 else if String.eqb s "0" then Some 0 else None.

Definition err_bit : Reply := MakeErrReply "ERR bit is not an integer or out of range".
Definition err_bit_offset : Reply := MakeErrReply "ERR bit offset is not an integer or out of range".

Definition execSetBit args : GoM S Reply :=
  a0 ← arg args 0;
  a1 ← arg args 1;
  match ParseInt (str a1) with
  | inl _ => mret err_bit_offset
  | inr offset =>
      a2 ← arg args 2;
      match parse_bit (str a2) with
      | None => mret err_bit
      | Some v =>
          let? bs := getAsString (str a0) in
          let bm := Bitmap.FromBytes bs in
          former ← go_lift (Bitmap.GetBit bm offset);
          bm' ← go_lift (Bitmap.SetBit bm offset v);
          _ ← PutEntity (str a0) (DString (Bitmap.ToBytes bm'));
          _ ← addAof (ToCmdLine3 "setBit" args);
          mret (IntReply former)
      end
  end.

Definition execGetBit args : GoM S Reply :=
  a0 ← arg args 0;
  a1 ← arg args 1;
  match ParseInt (str a1) with
  | inl _ => mret err_bit_offset
  | inr offset =>
      let? bs := getAsString (str a0) in
      match bs with
      | None => mret (IntReply 0)
      | Some _ =>
          bit ← go_lift (Bitmap.GetBit (Bitmap.FromBytes bs) offset);
          mret (IntReply bit)
      end
  end.

(** The optional unit argument at position [i]: true for bytes. *)
Definition byte_mode args (i : nat) : option bool :=
  match args !! i with
  | None => Some true
  | Some a =>
      let mode := ToLower (str a) in
      if String.eqb mode "bit" then Some false
      else if String.eqb mode "byte" then Some true else None
  end.

(** The optional range at the positions [i] and [i+1]. *)
Definition bit_range args (i : nat) (size : Z) : GoM S (Reply + (Z * Z)) :=
  if (i <? length args)%nat then
    a ← arg args i;
    match ParseInt (str a) with
    | inl _ => mret (inl err_not_int)
    | inr startIdx =>
        b ← arg args (i + 1);
        match ParseInt (str b) with
        | inl _ => mret (inl err_not_int)
        | inr endIdx =>
            let '(beg, stop) := ConvertRange startIdx endIdx size in
            if beg <? 0 then mret (inl (IntReply 0)) else mret (inr (beg, stop))
        end
    end
  else mret (inr (0, 0)).

Definition execBitCount args : GoM S Reply :=
  a0 ← arg args 0;
  let? bs := getAsString (str a0) in
  match bs with
  | None => mret (IntReply 0)
  | Some _ =>
      match byte_mode args 3 with
      | None => mret (MakeErrReply "ERR syntax error")
      | Some byteMode =>
          let bm := Bitmap.FromBytes bs in
          let size := if byteMode then blen bm else Bitmap.BitSize bm in
          let? r := bit_range args 1 size in
          let '(beg, stop) := r in
          let count :=
            if byteMode then Bitmap.ForEachByte (λ _ val n, (true, n + OnesCount8 val)) bm beg stop 0
            else Bitmap.ForEachBit (λ _ val n, (true, if val >? 0 then n + 1 else n)) bm beg stop 0 in
          mret (IntReply count)
      end
  end.

Definition execBitPos args : GoM S Reply :=
  a0 ← arg args 0;
  let? bs := getAsString (str a0) in
  match bs with
  | None => mret (IntReply (-1))
  | Some _ =>
      a1 ← arg args 1;
      match parse_bit (str a1) with
      | None => mret err_bit
      | Some v =>
          match byte_mode args 4 with
          | None => mret (MakeErrReply "ERR syntax error")
          | Some byteMode =>
              let bm := Bitmap.FromBytes bs in
              let size := if byteMode then blen bm else Bitmap.BitSize bm in
              let? r := bit_range args 2 size in
              let '(beg, stop) := r in
              let '(beg, stop) := if byteMode then (beg * 8, stop * 8) else (beg, stop) in
              let offset :=
                Bitmap.ForEachBit (λ o val off, if val =? v then (false, o) else (true, off)) bm beg stop (-1) in
              mret (IntReply offset)
          end
      end
  end.
End commands.

(** ** Refinement *)

Section refinement.
Context `{Env}.
Implicit Types (args : list bytes).

Lemma refines_getAsString key : refines (val_ok (λ _ : bytes, True)) (getAsString key) (getAsString key).
Proof. unfold getAsString. refines_auto. Qed.
#[local] Hint Resolve refines_getAsString : refines.

Lemma refines_execGet args : refines any (execGet args) (execGet args).
Proof. unfold execGet. refines_auto. Qed.

Lemma refines_getex_options key rest ttl :
  refines (val_ok (λ _ : Z, True)) (getex_options key rest ttl) (getex_options key rest ttl).
Proof.
  assert (∀ n rest ttl, (length rest ≤ n)%nat →
    refines (val_ok (λ _ : Z, True)) (getex_options key rest ttl) (getex_options key rest ttl)) as Hn;
    [|by apply (Hn (length rest))].
  clear rest ttl. induction n as [|n IH]; intros [|a rest] ttl Hl; simpl in Hl; try lia; [by apply refines_ret..|].
  cbn [getex_options]. destruct rest as [|v rest]; simpl in Hl;
    repeat first [apply IH; simpl; lia | refines_step].
Qed.
#[local] Hint Resolve refines_getex_options : refines.

Lemma refines_execGetEX args : refines any (execGetEX args) (execGetEX args).
Proof. unfold execGetEX. refines_auto. Qed.

Lemma refines_execSet args : refines any (execSet args) (execSet args).
Proof. unfold execSet. refines_auto. Qed.

Lemma refines_execSetNX args : refines any (execSetNX args) (execSetNX args).
Proof. unfold execSetNX. refines_auto. Qed.

Lemma refines_execSetEX args : refines any (execSetEX args) (execSetEX args).
Proof. unfold execSetEX. refines_auto. Qed.

Lemma refines_execPSetEX args : refines any (execPSetEX args) (execPSetEX args).
Proof. unfold execPSetEX. refines_auto. Qed.

Lemma refines_put_string kv : refines any (put_string kv) (put_string kv).
Proof. unfold put_string. refines_auto. Qed.
#[local] Hint Resolve refines_put_string : refines.

Lemma refines_execMSet args : refines any (execMSet args) (execMSet args).
Proof. unfold execMSet. refines_auto. Qed.

Lemma refines_mget_loop keys result : refines any (mget_loop keys result) (mget_loop keys result).
Proof.
  revert result. induction keys as [|key keys IH]; intros result; cbn [mget_loop]; [by apply refines_ret|].
  eapply refines_bind; [apply refines_getAsString|]. intros [r|b] _; [destruct r|]; try apply IH; by apply refines_ret.
Qed.
#[local] Hint Resolve refines_mget_loop : refines.

Lemma refines_execMGet args : refines any (execMGet args) (execMGet args).
Proof. unfold execMGet. refines_auto. Qed.

Lemma refines_any_exists keys : refines any (any_exists keys) (any_exists keys).
Proof. induction keys as [|key keys IH]; cbn [any_exists]; refines_auto. Qed.
#[local] Hint Resolve refines_any_exists : refines.

Lemma refines_execMSetNX args : refines any (execMSetNX args) (execMSetNX args).
Proof. unfold execMSetNX. refines_auto. Qed.

Lemma refines_store_int name args key n : refines any (store_int name args key n) (store_int name args key n).
Proof. unfold store_int. refines_auto. Qed.
#[local] Hint Resolve refines_store_int : refines.

Lemma refines_execGetSet args : refines any (execGetSet args) (execGetSet args).
Proof. unfold execGetSet. refines_auto. Qed.

Lemma refines_execGetDel args : refines any (execGetDel args) (execGetDel args).
Proof. unfold execGetDel. refines_auto. Qed.

Lemma refines_execIncr args : refines any (execIncr args) (execIncr args).
Proof. unfold execIncr. refines_auto. Qed.

Lemma refines_execIncrBy args : refines any (execIncrBy args) (execIncrBy args).
Proof. unfold execIncrBy. refines_auto. Qed.

Lemma refines_execIncrByFloat args : refines any (execIncrByFloat args) (execIncrByFloat args).
Proof. unfold execIncrByFloat. refines_auto. Qed.

Lemma refines_execDecr args : refines any (execDecr args) (execDecr args).
Proof. unfold execDecr. refines_auto. Qed.

Lemma refines_execDecrBy args : refines any (execDecrBy args) (execDecrBy args).
Proof. unfold execDecrBy. refines_auto. Qed.

Lemma refines_execStrLen args : refines any (execStrLen args) (execStrLen args).
Proof. unfold execStrLen. refines_auto. Qed.

Lemma refines_execAppend args : refines any (execAppend args) (execAppend args).
Proof. unfold execAppend. refines_auto. Qed.

Lemma setrange_bytes_post b offset value : post any (setrange_bytes b offset value).
Proof.
  unfold setrange_bytes. apply (post_bind any); [unfold make_slice; post_auto|]. intros buf _.
  apply (post_bind any); [|done]. generalize (Z.of_nat (length buf)) as n.
  revert offset buf. induction (to_bytes (str value)) as [|v vs IH]; intros offset buf n; simpl; [done|].
  post_auto; apply IH.
Qed.

Lemma GetBit_post bm i : post any (Bitmap.GetBit bm i).
Proof. unfold Bitmap.GetBit, Bitmap.byte_get, Bitmap.shift_amount. post_auto. Qed.

Lemma SetBit_post bm i v : post any (Bitmap.SetBit bm i v).
Proof.
  unfold Bitmap.SetBit, Bitmap.byte_set, Bitmap.byte_get, Bitmap.grow, Bitmap.shift_amount, make_slice. post_auto.
Qed.
#[local] Hint Resolve setrange_bytes_post GetBit_post SetBit_post : refines.

Lemma refines_execSetRange args : refines any (execSetRange args) (execSetRange args).
Proof. unfold execSetRange. refines_auto. Qed.

Lemma refines_execGetRange args : refines any (execGetRange args) (execGetRange args).
Proof. unfold execGetRange. refines_auto. Qed.

Lemma refines_execSetBit args : refines any (execSetBit args) (execSetBit args).
Proof. unfold execSetBit. refines_auto. Qed.

Lemma refines_execGetBit args : refines any (execGetBit args) (execGetBit args).
Proof. unfold execGetBit. refines_auto. Qed.

Lemma refines_bit_range args i size :
  refines (val_ok (λ _ : Z * Z, True)) (bit_range args i size) (bit_range args i size).
Proof. unfold bit_range. refines_auto. Qed.
#[local] Hint Resolve refines_bit_range : refines.

Lemma refines_execBitCount args : refines any (execBitCount args) (execBitCount args).
Proof. unfold execBitCount. refines_auto. Qed.

Lemma refines_execBitPos args : refines any (execBitPos args) (execBitPos args).
Proof. unfold execBitPos. refines_auto. Qed.

Lemma refines_undoMSet args : refines log_ok (undoMSet args) (undoMSet args).
Proof. unfold undoMSet. refines_auto. Qed.

End refinement.
