(* ===== verification/KeyCmds.v ===== *)
(** * database/keys.go: commands on keys and expiry times

    All executors of keys.go but [execCopy] (two databases) and [execFlushDB]
    (deprecated).  [execKeys] and [execScan] walk the shards of the real
    dictionary and are defined on [DB]; the others are written over [Store]. *)

From Stdlib Require Import ZArith Lia Ascii String.
From stdpp Require Import base gmap strings numbers list.
From S2P Require Import Prelude GoStd Dict QuickList SetDS Protocol DB Marshal StringCmds.

Local Open Scope string_scope.
Local Open Scope list_scope.
Local Open Scope Z_scope.
Local Open Scope go_scope.

(** [time.Time] arithmetic: a reading plus a duration, the difference of two times
    (saturating at the range of a duration), and the Unix seconds and
    milliseconds. *)
Definition time_sub (t u : Z) : Z := Z.max int64_min (Z.min int64_max (t - u)).
Definition Unix (t : Z) : Z := t / 1000000000.
Definition UnixMilli (t : Z) : Z := t / 1000000.

(** [int64(math.Round(d.Seconds()))]: to the nearest second, halves away from zero
    (for durations of less than 2^22 seconds, where the float64 quotient separates
    nanoseconds). *)
Definition round_seconds (d : Z) : Z :=
  if d <? 0 then - ((- d + 500000000) / 1000000000) else (d + 500000000) / 1000000000.

Section commands.
Context `{Env} {S : Type} `{Store S}.
Implicit Types (args : list bytes).

Definition execDel args : GoM S Reply :=
  deleted ← Removes (str <$> args);
  _ ← (if deleted >? 0 then addAof (ToCmdLine3 "del" args) else mret tt);
  mret (IntReply deleted).

Definition undoDel args : GoM S (list CmdLine) := rollbackGivenKeys (str <$> args).

Fixpoint exists_loop (keys : list string) (result : Z) : GoM S Z :=
  match keys with
  | [] => mret result
  | key :: keys' =>
      entity ← GetEntity key;
      exists_loop keys' (match entity with Some _ => result + 1 | None => result end)
  end.

Definition execExists args : GoM S Reply :=
  result ← exists_loop (str <$> args) 0;
  mret (IntReply result).

Definition getType (key : string) : GoM S string :=
  entity ← GetEntity key;
  mret (match entity with
        | None => "none"
        | Some (DString _) => "string"
        | Some (DList _) => "list"
        | Some (DHash _) => "hash"
        | Some (DSet _) => "set"
        | Some (DZSet _) => "zset"
        end).

Definition execType args : GoM S Reply :=
  a0 ← arg args 0;
  result ← getType (str a0);
  if slen result >? 0 then mret (StatusReply result) else mret UnknownErrReply.

Definition prepareRename args : outcome key_lists :=
  src ← arg_at args 0;
  dest ← arg_at args 1;
  Ret ([str dest], [str src]).

(** [db.Persist(src); db.Persist(dest); db.Expire(dest, expireTime)] when the
    source had an expiry time. *)
Definition move_ttl (src dest : string) (rawTTL : option Z) : GoM S unit :=
  match rawTTL with
  | None => mret tt
  | Some expireTime =>
      _ ← Persist src;
      _ ← Persist dest;
      Expire dest expireTime
  end.

Definition execRename args : GoM S Reply :=
  if negb (length args =? 2)%nat
  then mret (MakeErrReply "ERR wrong number of arguments for 'rename' command")
  else
    a0 ← arg args 0;
    a1 ← arg args 1;
    let src := str a0 in
    let dest := str a1 in
    entity ← GetEntity src;
    match entity with
    | None => mret (MakeErrReply "no such key")
    | Some e =>
        rawTTL ← GetTTL src;
        _ ← PutEntity dest e;
        _ ← Remove src;
        _ ← move_ttl src dest rawTTL;
        _ ← addAof (ToCmdLine3 "rename" args);
        mret OkReply
    end.

Definition undoRename args : GoM S (list CmdLine) :=
  src ← arg args 0;
  dest ← arg args 1;
  rollbackGivenKeys [str src; str dest].

Definition execRenameNx args : GoM S Reply :=
  a0 ← arg args 0;
  a1 ← arg args 1;
  let src := str a0 in
  let dest := str a1 in
  old ← GetEntity dest;
  match old with
  | Some _ => mret (IntReply 0)
  | None =>
      entity ← GetEntity src;
      match entity with
      | None => mret (MakeErrReply "no such key")
      | Some e =>
          rawTTL ← GetTTL src;
          _ ← Removes [src; dest];
          _ ← PutEntity dest e;
          _ ← move_ttl src dest rawTTL;
          _ ← addAof (ToCmdLine3 "renamenx" args);
          mret (IntReply 1)
      end
  end.

(** The common tail of the four EXPIRE commands; [expireAt] is computed after the
    lookup. *)
Definition expire_at (key : string) (expireAt : GoM S Z) : GoM S Reply :=
  entity ← GetEntity key;
  match entity with
  | None => mret (IntReply 0)
  | Some _ =>
      t ← expireAt;
      _ ← Expire key t;
      _ ← addAof (MakeExpireCmd key t);
      mret (IntReply 1)
  end.

Definition execExpire args : GoM S Reply :=
  a0 ← arg args 0;
  a1 ← arg args 1;
  match ParseInt (str a1) with
  | inl _ => mret err_not_int
  | inr ttlArg =>
      let ttl := int64 (ttlArg * 1000000000) in
      expire_at (str a0) (now ← Now; mret (now + ttl))
  end.

Definition execExpireAt args : GoM S Reply :=
  a0 ← arg args 0;
  a1 ← arg args 1;
  match ParseInt (str a1) with
  | inl _ => mret err_not_int
  | inr raw => expire_at (str a0) (mret (raw * 1000000000))
  end.

Definition execPExpire args : GoM S Reply :=
  a0 ← arg args 0;
  a1 ← arg args 1;
  match ParseInt (str a1) with
  | inl _ => mret err_not_int
  | inr ttlArg => expire_at (str a0) (now ← Now; mret (now + millis ttlArg))
  end.

Definition execPExpireAt args : GoM S Reply :=
  a0 ← arg args 0;
  a1 ← arg args 1;
  match ParseInt (str a1) with
  | inl _ => mret err_not_int
  | inr raw => expire_at (str a0) (mret (int64 (raw * 1000000)))
  end.

(** The lookups of the four commands that report an expiry time: [-2] without the
    key, [-1] without a time. *)
Definition report_ttl (key : string) (f : Z → GoM S Z) : GoM S Reply :=
  entity ← GetEntity key;
  match entity with
  | None => mret (IntReply (-2))
  | Some _ =>
      raw ← GetTTL key;
      match raw with
      | None => mret (IntReply (-1))
      | Some expireTime => n ← f expireTime; mret (IntReply n)
      end
  end.

Definition execExpireTime args : GoM S Reply :=
  a0 ← arg args 0; report_ttl (str a0) (λ t, mret (Unix t)).

Definition execPExpireTime args : GoM S Reply :=
  a0 ← arg args 0; report_ttl (str a0) (λ t, mret (UnixMilli t)).

Definition execTTL args : GoM S Reply :=
  a0 ← arg args 0;
  report_ttl (str a0) (λ t, now ← Now; mret (round_seconds (time_sub t now))).

Definition execPTTL args : GoM S Reply :=
  a0 ← arg args 0;
  report_ttl (str a0) (λ t, now ← Now; mret (Z.quot (time_sub t now) 1000000)).

Definition execPersist args : GoM S Reply :=
  a0 ← arg args 0;
  let key := str a0 in
  entity ← GetEntity key;
  match entity with
  | None => mret (IntReply 0)
  | Some _ =>
      raw ← GetTTL key;
      match raw with
      | None => mret (IntReply 0)
      | Some _ =>
          _ ← Persist key;
          _ ← addAof (ToCmdLine3 "persist" args);
          mret (IntReply 1)
      end
  end.

Definition undoExpire args : GoM S (list CmdLine) :=
  a0 ← arg args 0;
  cmd ← toTTLCmd (str a0);
  mret [cmd].
End commands.

(** ** Walks over the whole dictionary *)

Section scans.
Context `{Env}.
Implicit Types (args : list bytes).

(** The callback of [execKeys] on the keys still to visit. *)
Fixpoint keys_loop (isMatch : string → bool) (keys : list string) (result : list bytes) : GoM DB (list bytes) :=
  match keys with
  | [] => mret result
  | key :: keys' =>
      if negb (isMatch key) then keys_loop isMatch keys' result
      else
        expired ← DBOps.IsExpired key;
        keys_loop isMatch keys' (if (expired : bool) then result else result ++ [Some key])
  end.

(** The shards are locked one after the other.  A key that the loop removes is the one being
    visited, so the iteration visits the keys that were there when it began. *)
Fixpoint keys_shards (isMatch : string → bool) (ord : range_order) (shards : list (shard DataEntity)) (result : list bytes) : GoM DB (list bytes) :=
  match shards with
  | [] => mret result
  | s :: rest =>
      _ ← go_lift (Concurrent.rlock s);
      result' ← keys_loop isMatch (range_map ord (sm s)).*1 result;
      keys_shards isMatch ord rest result'
  end.

Definition execKeys args : GoM DB Reply :=
  a0 ← arg args 0;
  match CompilePattern (str a0) with
  | None => mret (MakeErrReply "ERR illegal wildcard")
  | Some isMatch =>
      ord ← Order;
      shards ← go_get (λ db, table (data db));
      result ← keys_shards isMatch ord shards [];
      mret (MultiBulkReply result)
  end.

Record scan_opts := mkScan { scan_count : Z; scan_pattern : string; scan_type : string }.

(** An option without its value indexes the arguments out of range. *)
Fixpoint scan_options (rest : list bytes) (o : scan_opts) : GoM DB (Reply + scan_opts) :=
  match rest with
  | [] => mret (inr o)
  | a :: rest' =>
      let opt := ToLower (str a) in
      if String.eqb opt "count" then
        match rest' with
        | [] => go_panic "index out of range"
        | v :: rest'' =>
            match Atoi (str v) with
            | inl _ => mret (inl SyntaxErrReply)
            | inr n => scan_options rest'' (mkScan n (scan_pattern o) (scan_type o))
            end
        end
      else if String.eqb opt "match" then
        match rest' with
        | [] => go_panic "index out of range"
        | v :: rest'' => scan_options rest'' (mkScan (scan_count o) (str v) (scan_type o))
        end
      else if String.eqb opt "type" then
        match rest' with
        | [] => go_panic "index out of range"
        | v :: rest'' => scan_options rest'' (mkScan (scan_count o) (scan_pattern o) (ToLower (str v)))
        end
      else mret (inl SyntaxErrReply)
  end.

(** The filter by type removes the other keys from the slice. *)
Fixpoint filter_type (scanType : string) (keys : list bytes) : GoM DB (list bytes) :=
  match keys with
  | [] => mret []
  | k :: keys' =>
      t ← getType (str k);
      rest ← filter_type scanType keys';
      mret (if String.eqb t scanType then k :: rest else rest)
  end.

Definition execScan args : GoM DB Reply :=
  let? o := scan_options (drop 1 args) (mkScan 10 "*" "") in
  a0 ← arg args 0;
  match Atoi (str a0) with
  | inl _ => mret (MakeErrReply "ERR invalid cursor")
  | inr cursor =>
      ord ← Order;
      db ← go_get id;
      r ← go_lift (Concurrent.DictScan CompilePattern ord (data db) cursor (scan_count o) (scan_pattern o));
      let '(keysReply, nextCursor) := r in
      if nextCursor <? 0 then mret (MakeErrReply "Invalid argument")
      else
        keysReply ← (if negb (slen (scan_type o) =? 0) then filter_type (scan_type o) keysReply
                     else mret keysReply);
        mret (MultiRawReply [BulkReply (Some (FormatInt nextCursor)); MultiBulkReply keysReply])
  end.
End scans.

(** ** Refinement *)

Section refinement.
Context `{Env}.
Implicit Types (args : list bytes).

Lemma refines_execDel args : refines any (execDel args) (execDel args).
Proof. unfold execDel. refines_auto. Qed.

Lemma refines_exists_loop keys n : refines any (exists_loop keys n) (exists_loop keys n).
Proof. revert n. induction keys as [|key keys IH]; intros n; cbn [exists_loop]; refines_auto. Qed.
#[local] Hint Resolve refines_exists_loop : refines.

Lemma refines_execExists args : refines any (execExists args) (execExists args).
Proof. unfold execExists. refines_auto. Qed.

Lemma refines_getType key : refines any (getType key) (getType key).
Proof. unfold getType. refines_auto. Qed.
#[local] Hint Resolve refines_getType : refines.

Lemma refines_execType args : refines any (execType args) (execType args).
Proof. unfold execType. refines_auto. Qed.

Lemma refines_move_ttl src dest t : refines any (move_ttl src dest t) (move_ttl src dest t).
Proof. unfold move_ttl. refines_auto. Qed.
#[local] Hint Resolve refines_move_ttl : refines.

Lemma refines_execRename args : refines any (execRename args) (execRename args).
Proof. unfold execRename. refines_auto. Qed.

Lemma refines_execRenameNx args : refines any (execRenameNx args) (execRenameNx args).
Proof. unfold execRenameNx. refines_auto. Qed.

Lemma refines_expire_at key t t' : refines any t t' → refines any (expire_at key t) (expire_at key t').
Proof. intros Ht. unfold expire_at. refines_auto. Qed.
#[local] Hint Resolve refines_expire_at : refines.

Lemma refines_now_plus n : refines any (now ← Now; mret (now + n)) (now ← Now; mret (now + n)).
Proof. refines_auto. Qed.
#[local] Hint Resolve refines_now_plus : refines.

Lemma refines_ret_any {A} (a : A) : refines any (mret a) (mret a).
Proof. by apply refines_ret. Qed.
#[local] Hint Resolve refines_ret_any : refines.

Lemma refines_execExpire args : refines any (execExpire args) (execExpire args).
Proof. unfold execExpire. refines_auto. Qed.

Lemma refines_execExpireAt args : refines any (execExpireAt args) (execExpireAt args).
Proof. unfold execExpireAt. refines_auto. Qed.

Lemma refines_execPExpire args : refines any (execPExpire args) (execPExpire args).
Proof. unfold execPExpire. refines_auto. Qed.

Lemma refines_execPExpireAt args : refines any (execPExpireAt args) (execPExpireAt args).
Proof. unfold execPExpireAt. refines_auto. Qed.

Lemma refines_report_ttl key f f' :
  (∀ t, refines any (f t) (f' t)) → refines any (report_ttl key f) (report_ttl key f').
Proof. intros Hf. unfold report_ttl. refines_auto. Qed.

Lemma refines_execExpireTime args : refines any (execExpireTime args) (execExpireTime args).
Proof. unfold execExpireTime. refines_step. apply refines_report_ttl. intros t. refines_auto. Qed.

Lemma refines_execPExpireTime args : refines any (execPExpireTime args) (execPExpireTime args).
Proof. unfold execPExpireTime. refines_step. apply refines_report_ttl. intros t. refines_auto. Qed.

Lemma refines_execTTL args : refines any (execTTL args) (execTTL args).
Proof. unfold execTTL. refines_step. apply refines_report_ttl. intros t. refines_auto. Qed.

Lemma refines_execPTTL args : refines any (execPTTL args) (execPTTL args).
Proof. unfold execPTTL. refines_step. apply refines_report_ttl. intros t. refines_auto. Qed.

Lemma refines_execPersist args : refines any (execPersist args) (execPersist args).
Proof. unfold execPersist. refines_auto. Qed.
Lemma refines_undoDel args : refines log_ok (undoDel args) (undoDel args).
Proof. unfold undoDel. refines_auto. Qed.

Lemma refines_undoRename args : refines log_ok (undoRename args) (undoRename args).
Proof. unfold undoRename. refines_auto. Qed.

Lemma refines_undoExpire args : refines log_ok (undoExpire args) (undoExpire args).
Proof. unfold undoExpire. refines_auto. Qed.

End refinement.
