(* ===== verification/ListCmds.v ===== *)
(** * database/list.go: list commands

    Every executor and undo function of list.go, over [Store] and [QuickList]. *)

From Stdlib Require Import ZArith Lia Ascii String.
From stdpp Require Import base gmap strings numbers list.
From S2P Require Import Prelude GoStd Dict QuickList SetDS Utils Protocol DB Marshal StringCmds.

Local Open Scope string_scope.
Local Open Scope list_scope.
Local Open Scope Z_scope.
Local Open Scope go_scope.

Abbreviation BList := (QList.QuickList bytes).

Section commands.
Context `{Env} {S : Type} `{Store S}.
Implicit Types (args : list bytes) (l : BList).

Definition getAsList (key : string) : GoM S (Reply + option BList) :=
  entity ← GetEntity key;
  match entity with
  | None => mret (inr None)
  | Some (DList l) => mret (inr (Some l))
  | Some _ => mret (inl WrongTypeErrReply)
  end.

Definition getOrInitList (key : string) : GoM S (Reply + BList) :=
  let! o := getAsList key in
  match o with
  | Some l => mret (inr l)
  | None =>
      let l := QList.NewQuickList in
      _ ← PutEntity key (DList l);
      mret (inr l)
  end.

(** [int(index64)] against the size: [None] when it is out of range. *)
Definition norm_index (index size : Z) : option Z :=
  if index <? - size then None
  else if index <? 0 then Some (size + index)
  else if index >=? size then None
  else Some index.

Definition execLIndex args : GoM S Reply :=
  a0 ← arg args 0;
  a1 ← arg args 1;
  match ParseInt (str a1) with
  | inl _ => mret err_not_int
  | inr index =>
      let? o := getAsList (str a0) in
      match o with
      | None => mret NullBulkReply
      | Some l =>
          match norm_index index (QList.Len l) with
          | None => mret NullBulkReply
          | Some i => val ← go_lift (QList.Get l i); mret (BulkReply val)
          end
      end
  end.

Definition execLLen args : GoM S Reply :=
  a0 ← arg args 0;
  let? o := getAsList (str a0) in
  match o with
  | None => mret (IntReply 0)
  | Some l => mret (IntReply (QList.Len l))
  end.

(** [for i := 0; i < n; i++ { vals[i] = list.Remove(0).([]byte) }]. *)
Fixpoint lpop_loop (n : nat) l (vals : list bytes) : outcome (BList * list bytes) :=
  match n with
  | O => Ret (l, vals)
  | Datatypes.S n' => r ← QList.Remove l 0; lpop_loop n' r.1 (vals ++ [r.2])
  end.

Fixpoint rpop_loop (n : nat) l (vals : list bytes) : outcome (BList * list bytes) :=
  match n with
  | O => Ret (l, vals)
  | Datatypes.S n' =>
      r ← QList.RemoveLast l;
      match r.2 with
      | Some v => rpop_loop n' r.1 (vals ++ [v])
      | None => Panic "interface conversion: interface {} is nil, not []uint8"
      end
  end.

(** The end of the pop commands: the object is updated, an emptied list is deleted. *)
Definition store_popped (name : string) args (key : string) l (reply : Reply) : GoM S Reply :=
  _ ← mutate key (DList l);
  _ ← (if QList.Len l =? 0 then Remove key else mret tt);
  _ ← addAof (ToCmdLine3 name args);
  mret reply.

(** The optional count argument of LPOP and RPOP. *)
Definition pop_count args l : GoM S (Reply + option Z) :=
  match args with
  | [_; a1] =>
      match ParseInt (str a1) with
      | inl _ => mret (inl err_not_int)
      | inr count =>
          let count := if count >? QList.Len l then QList.Len l else count in
          _ ← go_lift (make_slice 24 count);
          mret (inr (Some count))
      end
  | _ => mret (inr None)
  end.

Definition execLPop args : GoM S Reply :=
  a0 ← arg args 0;
  let key := str a0 in
  let? o := getAsList key in
  match o with
  | None => mret NullBulkReply
  | Some l =>
      let? c := pop_count args l in
      match c with
      | Some count =>
          r ← go_lift (lpop_loop (Z.to_nat count) l []);
          store_popped "lpop" args key r.1 (MultiBulkReply r.2)
      | None =>
          r ← go_lift (QList.Remove l 0);
          store_popped "lpop" args key r.1 (BulkReply r.2)
      end
  end.

(** The count of an undo function: no undo log on a bad number. *)
Definition undo_pop_count args l : GoM S (option (option Z)) :=
  r ← pop_count args l; mret (match r with inl _ => None | inr c => Some c end).

Definition undoLPop args : GoM S (list CmdLine) :=
  a0 ← arg args 0;
  r ← getAsList (str a0);
  match r with
  | inl _ | inr None => mret []
  | inr (Some l) =>
      if QList.Len l =? 0 then mret []
      else
        c ← undo_pop_count args l;
        match c with
        | None => mret []
        | Some (Some count) =>
            vals ← go_lift (QList.Range l 0 count);
            mret [Some "LPUSH" :: a0 :: rev vals]
        | Some None =>
            element ← go_lift (QList.Get l 0);
            mret [[Some "LPUSH"; a0; element]]
        end
  end.

(** [for _, value := range values { list.Insert(0, value) }]. *)
Fixpoint lpush_loop l (values : list bytes) : outcome BList :=
  match values with
  | [] => Ret l
  | v :: values' => l' ← QList.Insert l 0 v; lpush_loop l' values'
  end.

Definition rpush_loop l (values : list bytes) : BList := foldl QList.Add l values.

Definition execLPush args : GoM S Reply :=
  a0 ← arg args 0;
  let key := str a0 in
  let? l := getOrInitList key in
  l' ← go_lift (lpush_loop l (drop 1 args));
  _ ← mutate key (DList l');
  _ ← addAof (ToCmdLine3 "lpush" args);
  mret (IntReply (QList.Len l')).

Definition undoLPush args : GoM S (list CmdLine) :=
  a0 ← arg args 0;
  mret (replicate (length args - 1) (ToCmdLine ["LPOP"; str a0])).

Definition execLPushX args : GoM S Reply :=
  a0 ← arg args 0;
  let key := str a0 in
  let? o := getAsList key in
  match o with
  | None => mret (IntReply 0)
  | Some l =>
      l' ← go_lift (lpush_loop l (drop 1 args));
      _ ← mutate key (DList l');
      _ ← addAof (ToCmdLine3 "lpushx" args);
      mret (IntReply (QList.Len l'))
  end.

(** The bounds of LRANGE: [None] when the start is behind the list. *)
Definition lrange_bounds (start stop size : Z) : option (Z * Z) :=
  if (0 <=? start) && (start >=? size) then None
  else
    let start := if start <? - size then 0 else if start <? 0 then size + start else start in
    let stop :=
      if stop <? - size then 0
      else if stop <? 0 then size + stop + 1
      else if stop <? size then stop + 1
      else size in
    let stop := if stop <? start then start else stop in
    Some (start, stop).

Definition execLRange args : GoM S Reply :=
  a0 ← arg args 0;
  a1 ← arg args 1;
  match ParseInt (str a1) with
  | inl _ => mret err_not_int
  | inr start =>
      a2 ← arg args 2;
      match ParseInt (str a2) with
      | inl _ => mret err_not_int
      | inr stop =>
          let? o := getAsList (str a0) in
          match o with
          | None => mret EmptyMultiBulkReply
          | Some l =>
              match lrange_bounds start stop (QList.Len l) with
              | None => mret EmptyMultiBulkReply
              | Some (b, e) => vals ← go_lift (QList.Range l b e); mret (MultiBulkReply vals)
              end
          end
      end
  end.

Definition execLRem args : GoM S Reply :=
  a0 ← arg args 0;
  a1 ← arg args 1;
  match ParseInt (str a1) with
  | inl _ => mret err_not_int
  | inr count =>
      value ← arg args 2;
      let key := str a0 in
      let? o := getAsList key in
      match o with
      | None => mret (IntReply 0)
      | Some l =>
          let expected := λ a, Equals a value in
          r ← go_lift (if count =? 0 then QList.RemoveAllByVal l expected
                       else if count >? 0 then QList.RemoveByVal l expected count
                       else QList.ReverseRemoveByVal l expected (int64 (- count)));
          let '(l', removed) := r in
          _ ← mutate key (DList l');
          _ ← (if QList.Len l' =? 0 then Remove key else mret tt);
          _ ← (if removed >? 0 then addAof (ToCmdLine3 "lrem" args) else mret tt);
          mret (IntReply removed)
      end
  end.

Definition execLSet args : GoM S Reply :=
  a0 ← arg args 0;
  a1 ← arg args 1;
  match ParseInt (str a1) with
  | inl _ => mret err_not_int
  | inr index =>
      value ← arg args 2;
      let key := str a0 in
      let? o := getAsList key in
      match o with
      | None => mret (MakeErrReply "ERR no such key")
      | Some l =>
          match norm_index index (QList.Len l) with
          | None => mret (MakeErrReply "ERR index out of range")
          | Some i =>
              l' ← go_lift (QList.Set_ l i value);
              _ ← mutate key (DList l');
              _ ← addAof (ToCmdLine3 "lset" args);
              mret OkReply
          end
      end
  end.

Definition undoLSet args : GoM S (list CmdLine) :=
  a0 ← arg args 0;
  a1 ← arg args 1;
  match ParseInt (str a1) with
  | inl _ => mret []
  | inr index =>
      r ← getAsList (str a0);
      match r with
      | inl _ | inr None => mret []
      | inr (Some l) =>
          match norm_index index (QList.Len l) with
          | None => mret []
          | Some i =>
              value ← go_lift (QList.Get l i);
              mret [[Some "LSET"; a0; a1; value]]
          end
      end
  end.

(** [val, _ := list.RemoveLast().([]byte)]: nil for an empty list. *)
Definition execRPop args : GoM S Reply :=
  a0 ← arg args 0;
  let key := str a0 in
  let? o := getAsList key in
  match o with
  | None => mret NullBulkReply
  | Some l =>
      let? c := pop_count args l in
      match c with
      | Some count =>
          r ← go_lift (rpop_loop (Z.to_nat count) l []);
          store_popped "rpop" args key r.1 (MultiBulkReply r.2)
      | None =>
          r ← go_lift (QList.RemoveLast l);
          store_popped "rpop" args key r.1 (BulkReply (default None r.2))
      end
  end.

Definition undoRPop args : GoM S (list CmdLine) :=
  a0 ← arg args 0;
  r ← getAsList (str a0);
  match r with
  | inl _ | inr None => mret []
  | inr (Some l) =>
      if QList.Len l =? 0 then mret []
      else
        c ← undo_pop_count args l;
        match c with
        | None => mret []
        | Some (Some count) =>
            vals ← go_lift (QList.Range l (QList.Len l - count) (QList.Len l));
            mret [Some "RPUSH" :: a0 :: vals]
        | Some None =>
            element ← go_lift (QList.Get l (QList.Len l - 1));
            mret [[Some "RPUSH"; a0; element]]
        end
  end.

Definition prepareRPopLPush args : outcome key_lists :=
  a0 ← arg_at args 0;
  a1 ← arg_at args 1;
  Ret ([str a0; str a1], []).

(** The two lists are one object when the keys are equal: the destination is read
    again after the pop. *)
Definition execRPopLPush args : GoM S Reply :=
  a0 ← arg args 0;
  a1 ← arg args 1;
  let sourceKey := str a0 in
  let destKey := str a1 in
  let? o := getAsList sourceKey in
  match o with
  | None => mret NullBulkReply
  | Some sourceList =>
      let? destList := getOrInitList destKey in
      r ← go_lift (QList.RemoveLast sourceList);
      let val := default None r.2 in
      _ ← mutate sourceKey (DList r.1);
      let destList := if String.eqb sourceKey destKey then r.1 else destList in
      destList' ← go_lift (QList.Insert destList 0 val);
      _ ← mutate destKey (DList destList');
      let sourceList := if String.eqb sourceKey destKey then destList' else r.1 in
      _ ← (if QList.Len sourceList =? 0 then Remove sourceKey else mret tt);
      _ ← addAof (ToCmdLine3 "rpoplpush" args);
      mret (BulkReply val)
  end.

Definition undoRPopLPush args : GoM S (list CmdLine) :=
  a0 ← arg args 0;
  r ← getAsList (str a0);
  match r with
  | inl _ | inr None => mret []
  | inr (Some l) =>
      if QList.Len l =? 0 then mret []
      else
        element ← go_lift (QList.Get l (QList.Len l - 1));
        a1 ← arg args 1;
        mret [[Some "RPUSH"; a0; element]; [Some "LPOP"; a1]]
  end.

Definition execRPush args : GoM S Reply :=
  a0 ← arg args 0;
  let key := str a0 in
  let? l := getOrInitList key in
  let l' := rpush_loop l (drop 1 args) in
  _ ← mutate key (DList l');
  _ ← addAof (ToCmdLine3 "rpush" args);
  mret (IntReply (QList.Len l')).

Definition undoRPush args : GoM S (list CmdLine) :=
  a0 ← arg args 0;
  mret (replicate (length args - 1) (ToCmdLine ["RPOP"; str a0])).

Definition execRPushX args : GoM S Reply :=
  if (length args <? 2)%nat
  then mret (MakeErrReply "ERR wrong number of arguments for 'rpush' command")
  else
    a0 ← arg args 0;
    let key := str a0 in
    let? o := getAsList key in
    match o with
    | None => mret (IntReply 0)
    | Some l =>
        let l' := rpush_loop l (drop 1 args) in
        _ ← mutate key (DList l');
        _ ← addAof (ToCmdLine3 "rpushx" args);
        mret (IntReply (QList.Len l'))
    end.

(** [for i := 0; i < leftCount && list.Len() > 0; i++ { list.Remove(0) }]; the fuel
    is the length of the list, which each iteration reduces by one. *)
Fixpoint trim_left (fuel : nat) (i leftCount : Z) l : outcome BList :=
  match fuel with
  | O => Ret l
  | Datatypes.S f =>
      if (i <? leftCount) && (QList.Len l >? 0) then
        r ← QList.Remove l 0; trim_left f (i + 1) leftCount r.1
      else Ret l
  end.

Fixpoint trim_right (fuel : nat) (i rightCount : Z) l : outcome BList :=
  match fuel with
  | O => Ret l
  | Datatypes.S f =>
      if (i <? rightCount) && (QList.Len l >? 0) then
        r ← QList.RemoveLast l; trim_right f (i + 1) rightCount r.1
      else Ret l
  end.

Definition ltrim_list (start stop : Z) l : outcome BList :=
  let length := QList.Len l in
  let start := if start <? 0 then start + length else start in
  let stop := if stop <? 0 then stop + length else stop in
  let leftCount := start in
  let rightCount := int64 (int64 (length - stop) - 1) in
  l' ← trim_left (Z.to_nat length) 0 leftCount l;
  trim_right (Z.to_nat (QList.Len l')) 0 rightCount l'.

Definition execLTrim args : GoM S Reply :=
  let n := length args in
  if negb (n =? 3)%nat
  then mret (MakeErrReply ("ERR wrong number of arguments (given " +:+ Itoa (Z.of_nat n) +:+ ", expected 3)"))
  else
    a0 ← arg args 0;
    a1 ← arg args 1;
    match Atoi (str a1) with
    | inl _ => mret err_not_int
    | inr start =>
        a2 ← arg args 2;
        match Atoi (str a2) with
        | inl _ => mret err_not_int
        | inr stop =>
            let key := str a0 in
            let? o := getAsList key in
            match o with
            | None => mret OkReply
            | Some l =>
                l' ← go_lift (ltrim_list start stop l);
                _ ← mutate key (DList l');
                _ ← addAof (ToCmdLine3 "ltrim" args);
                mret OkReply
            end
        end
    end.

(** The position of the pivot, [-1] when it is absent. *)
Definition pivot_index l (pivot : string) : outcome Z :=
  QList.ForEach l (λ i v index, if String.eqb (str v) pivot then (false, i) else (true, index)) (-1).

Definition execLInsert args : GoM S Reply :=
  if negb (length args =? 4)%nat
  then mret (MakeErrReply "ERR wrong number of arguments for 'linsert' command")
  else
    a0 ← arg args 0;
    let key := str a0 in
    let? o := getAsList key in
    match o with
    | None => mret (IntReply 0)
    | Some l =>
        a1 ← arg args 1;
        let dir := ToLower (str a1) in
        if negb (String.eqb dir "before") && negb (String.eqb dir "after")
        then mret (MakeErrReply "ERR syntax error")
        else
          a2 ← arg args 2;
          index ← go_lift (pivot_index l (str a2));
          if index =? -1 then mret (IntReply (-1))
          else
            val ← arg args 3;
            l' ← go_lift (QList.Insert l (if String.eqb dir "before" then index else index + 1) val);
            _ ← mutate key (DList l');
            _ ← addAof (ToCmdLine3 "linsert" args);
            mret (IntReply (QList.Len l'))
    end.
End commands.

(** ** The loops keep the list well formed *)

Section lists.
Context `{Env}.
Implicit Types (l : BList).

Lemma Remove_wf l i : QList.ql_wf l → post (λ r, QList.ql_wf r.1) (QList.Remove l i).
Proof.
  intros Hl. pose proof (QList.Remove_spec l i Hl) as Hs. destruct (QList.at_index _ i); [|by rewrite Hs].
  by destruct Hs as (l' & -> & ? & _).
Qed.

Lemma RemoveLast_wf l : QList.ql_wf l → post (λ r, QList.ql_wf r.1) (QList.RemoveLast l).
Proof. intros Hl. by destruct (QList.RemoveLast_spec l Hl) as (l' & -> & ? & _). Qed.

Lemma Insert_wf l i v : QList.ql_wf l → post QList.ql_wf (QList.Insert l i v).
Proof.
  intros Hl. pose proof (QList.Insert_spec l i v Hl) as Hs. destruct (_ && _); [|by rewrite Hs].
  by destruct Hs as (l' & -> & ? & _).
Qed.

Lemma Set_wf l i v : QList.ql_wf l → post QList.ql_wf (QList.Set_ l i v).
Proof.
  intros Hl. pose proof (QList.Set_spec l i v Hl) as Hs. destruct (QList.at_index _ i); [|by rewrite Hs].
  by destruct Hs as (l' & -> & ? & _).
Qed.

Lemma Get_post l i : QList.ql_wf l → post any (QList.Get l i).
Proof. intros Hl. rewrite QList.Get_spec by done. by destruct (QList.at_index _ i). Qed.

Lemma Range_post l a b : QList.ql_wf l → post any (QList.Range l a b).
Proof. intros Hl. rewrite QList.Range_spec by done. destruct (_ || _); [done|]. by destruct (_ || _). Qed.

Lemma lpush_loop_spec vs l : QList.ql_wf l →
  ∃ l', lpush_loop l vs = Ret l' ∧ QList.ql_wf l' ∧ QList.to_list l' = rev vs ++ QList.to_list l.
Proof.
  revert l. induction vs as [|v vs IH]; intros l Hl; simpl; [by exists l|].
  pose proof (QList.Insert_spec l 0 v Hl) as Hs.
  destruct (_ && _) eqn:Eb; [|apply andb_false_iff in Eb as [Eb|Eb]; unbool; lia].
  destruct Hs as (l1 & -> & Hl1 & E1). simpl.
  destruct (IH l1 Hl1) as (l' & -> & Hl' & E'). exists l'. split_and!; [done..|].
  by rewrite E', E1, <-app_assoc.
Qed.

Lemma rpush_loop_spec vs l : QList.ql_wf l →
  QList.ql_wf (rpush_loop l vs) ∧ QList.to_list (rpush_loop l vs) = QList.to_list l ++ vs.
Proof.
  revert l. induction vs as [|v vs IH]; intros l Hl; simpl; [by rewrite app_nil_r|].
  destruct (QList.Add_spec l v Hl) as [Hl1 E1]. destruct (IH _ Hl1) as [Hl' E']. split; [exact Hl'|].
  etransitivity; [exact E'|]. by rewrite E1, <-app_assoc.
Qed.

Lemma Remove_head l : QList.ql_wf l →
  match QList.to_list l with
  | [] => QList.Remove l 0 = Panic "index out of bound"
  | x :: xs => ∃ l', QList.Remove l 0 = Ret (l', x) ∧ QList.ql_wf l' ∧ QList.to_list l' = xs
  end.
Proof.
  intros Hl. pose proof (QList.Remove_spec l 0 Hl) as Hs. unfold QList.at_index in Hs. simpl in Hs.
  destruct (QList.to_list l) as [|x xs]; [done|]. simpl in Hs. destruct Hs as (l' & -> & ? & ?). eauto.
Qed.

Lemma lpop_loop_spec n l acc : QList.ql_wf l → (n ≤ length (QList.to_list l))%nat →
  ∃ l', lpop_loop n l acc = Ret (l', acc ++ take n (QList.to_list l)) ∧ QList.ql_wf l' ∧
    QList.to_list l' = drop n (QList.to_list l).
Proof.
  revert l acc. induction n as [|n IH]; intros l acc Hl Hn; simpl.
  { exists l. by rewrite app_nil_r. }
  pose proof (Remove_head l Hl) as Hh. destruct (QList.to_list l) as [|x xs] eqn:E; [simpl in Hn; lia|].
  destruct Hh as (l1 & -> & Hl1 & E1). simpl in *.
  destruct (IH l1 (acc ++ [x]) Hl1) as (l' & -> & ? & ?); [rewrite E1; lia|].
  exists l'. rewrite E1 in *. rewrite <-app_assoc. done.
Qed.

Lemma rpop_loop_wf n l acc : QList.ql_wf l → post (λ r, QList.ql_wf r.1) (rpop_loop n l acc).
Proof.
  revert l acc. induction n as [|n IH]; intros l acc Hl; simpl; [done|].
  eapply post_bind; [by apply RemoveLast_wf|]. intros [l1 [v|]] Hl1; simpl in *; [by apply IH|done].
Qed.

Lemma lpop_loop_wf n l acc : QList.ql_wf l → post (λ r, QList.ql_wf r.1) (lpop_loop n l acc).
Proof.
  revert l acc. induction n as [|n IH]; intros l acc Hl; simpl; [done|].
  eapply post_bind; [by apply Remove_wf|]. intros [l1 v] Hl1. by apply IH.
Qed.

(** Trimming drops elements from the ends only. *)
Lemma trim_left_spec fuel i k l : QList.ql_wf l → (length (QList.to_list l) ≤ fuel)%nat →
  ∃ l', trim_left fuel i k l = Ret l' ∧ QList.ql_wf l' ∧
    QList.to_list l' = drop (Z.to_nat (k - i)) (QList.to_list l).
Proof.
  revert i l. induction fuel as [|f IH]; intros i l Hl Hf; simpl.
  { exists l. destruct (QList.to_list l); [by rewrite drop_nil|simpl in Hf; lia]. }
  pose proof Hl as [_ Hs]. unfold QList.Len. destruct (i <? k) eqn:Ei; unbool; simpl.
  2: { exists l. replace (Z.to_nat (k - i)) with 0%nat by lia. done. }
  pose proof (Remove_head l Hl) as Hh. rewrite Hs. destruct (QList.to_list l) as [|x xs] eqn:E; simpl.
  { exists l. by rewrite drop_nil, E. }
  destruct Hh as (l1 & -> & Hl1 & E1). simpl.
  destruct (IH (i + 1) l1 Hl1) as (l' & -> & ? & E'); [rewrite E1; simpl in Hf; lia|].
  exists l'. split_and!; [done..|]. rewrite E', E1. by replace (Z.to_nat (k - i)) with (S (Z.to_nat (k - (i + 1)))) by lia.
Qed.

Lemma trim_right_spec fuel i k l : QList.ql_wf l → (length (QList.to_list l) ≤ fuel)%nat →
  ∃ l', trim_right fuel i k l = Ret l' ∧ QList.ql_wf l' ∧
    QList.to_list l' = take (length (QList.to_list l) - Z.to_nat (k - i)) (QList.to_list l).
Proof.
  revert i l. induction fuel as [|f IH]; intros i l Hl Hf; simpl.
  { exists l. split_and!; [done..|]. by destruct (QList.to_list l); [rewrite take_nil|simpl in Hf; lia]. }
  pose proof Hl as [_ Hs]. unfold QList.Len. destruct (i <? k) eqn:Ei; unbool; simpl.
  2: { exists l. split_and!; [done..|]. rewrite take_ge by lia. done. }
  rewrite Hs. destruct (length (QList.to_list l)) as [|n] eqn:El; simpl.
  { exists l. split_and!; [done..|]. by destruct (QList.to_list l). }
  destruct (QList.RemoveLast_spec l Hl) as (l1 & -> & Hl1 & E1). simpl.
  destruct (IH (i + 1) l1 Hl1) as (l' & -> & ? & E').
  { rewrite E1, length_take, El. simpl in *. lia. }
  exists l'. split_and!; [done..|]. rewrite E', E1, length_take, El, take_take. f_equal. lia.
Qed.

Lemma ltrim_list_spec start stop l : QList.ql_wf l →
  ∃ l', ltrim_list start stop l = Ret l' ∧ QList.ql_wf l' ∧
    let n := Z.of_nat (length (QList.to_list l)) in
    let s := if start <? 0 then start + n else start in
    let e := if stop <? 0 then stop + n else stop in
    let kept := drop (Z.to_nat s) (QList.to_list l) in
    QList.to_list l' = take (length kept - Z.to_nat (int64 (int64 (n - e) - 1))) kept.
Proof.
  intros Hl. pose proof Hl as [_ Hs]. unfold ltrim_list, QList.Len. rewrite Hs.
  set (s := if start <? 0 then _ else _). set (e := if stop <? 0 then _ else _).
  destruct (trim_left_spec (Z.to_nat (Z.of_nat (length (QList.to_list l)))) 0 s l Hl) as (l1 & -> & Hl1 & E1); [lia|].
  rewrite Z.sub_0_r in E1. simpl. pose proof Hl1 as [_ Hs1]. rewrite Hs1.
  destruct (trim_right_spec (Z.to_nat (Z.of_nat (length (QList.to_list l1)))) 0
    (int64 (int64 (Z.of_nat (length (QList.to_list l)) - e) - 1)) l1 Hl1) as (l' & -> & Hl' & E'); [lia|].
  exists l'. split_and!; [done..|]. by rewrite E', Z.sub_0_r, E1.
Qed.
End lists.

(** ** Refinement *)

Section refinement.
Context `{Env}.
Implicit Types (args : list bytes) (l : BList).

Lemma refines_getAsList key :
  refines (val_ok (from_option QList.ql_wf True)) (getAsList key) (getAsList key).
Proof. unfold getAsList. refines_auto. Qed.
#[local] Hint Resolve refines_getAsList : refines.

Lemma refines_getOrInitList key : refines (val_ok QList.ql_wf) (getOrInitList key) (getOrInitList key).
Proof.
  unfold getOrInitList. eapply refines_early_err; [apply refines_getAsList|]. intros [l|] Hl.
  - by apply refines_ret.
  - eapply refines_bind; [apply refines_PutEntity, QList.NewQuickList_wf|]. intros _ _.
    apply refines_ret. apply QList.NewQuickList_wf.
Qed.
#[local] Hint Resolve refines_getOrInitList : refines.

(** The list operations of the handlers end and keep the list well formed. *)
Lemma lpush_loop_wf l vs : QList.ql_wf l → post QList.ql_wf (lpush_loop l vs).
Proof. intros Hl. by destruct (lpush_loop_spec vs l Hl) as (l' & -> & ? & _). Qed.

Lemma ltrim_list_wf s e l : QList.ql_wf l → post QList.ql_wf (ltrim_list s e l).
Proof. intros Hl. by destruct (ltrim_list_spec s e l Hl) as (l' & -> & ? & _). Qed.

Lemma rpush_loop_wf l vs : QList.ql_wf l → QList.ql_wf (rpush_loop l vs).
Proof. intros Hl. by apply rpush_loop_spec. Qed.

Lemma ql_wf_if (b : bool) l1 l2 : QList.ql_wf l1 → QList.ql_wf l2 → QList.ql_wf (if b then l1 else l2).
Proof. by destruct b. Qed.

Lemma lrem_wf l f count : QList.ql_wf l →
  post (λ r, QList.ql_wf r.1)
    (if count =? 0 then QList.RemoveAllByVal l f
     else if count >? 0 then QList.RemoveByVal l f count
     else QList.ReverseRemoveByVal l f (int64 (- count))).
Proof.
  intros Hl. destruct (count =? 0); [|destruct (count >? 0)].
  - destruct (QList.to_list l) eqn:E.
    + unfold QList.RemoveAllByVal. rewrite QList.find_out_of_bound by (done || by rewrite E). done.
    + by destruct (QList.RemoveAllByVal_spec l f Hl) as (l' & -> & ? & _); [by rewrite E|].
  - by destruct (QList.RemoveByVal_spec l f count Hl) as (l' & -> & ? & _).
  - by destruct (QList.ReverseRemoveByVal_spec l f (int64 (- count)) Hl) as (l' & -> & ? & _).
Qed.
#[local] Hint Resolve Remove_wf RemoveLast_wf Insert_wf Set_wf Get_post Range_post lpop_loop_wf
  rpop_loop_wf lpush_loop_wf ltrim_list_wf rpush_loop_wf lrem_wf ql_wf_if : refines.

Lemma refines_store_popped name args key l reply :
  QList.ql_wf l → refines any (store_popped name args key l reply) (store_popped name args key l reply).
Proof. intros Hl. unfold store_popped. refines_auto. Qed.
#[local] Hint Resolve refines_store_popped : refines.

Lemma refines_pop_count args l :
  refines (val_ok (λ _ : option Z, True)) (pop_count args l) (pop_count args l).
Proof. unfold pop_count. refines_auto. Qed.
#[local] Hint Resolve refines_pop_count : refines.

Lemma refines_execLIndex args : refines any (execLIndex args) (execLIndex args).
Proof. unfold execLIndex. refines_auto. Qed.

Lemma refines_execLLen args : refines any (execLLen args) (execLLen args).
Proof. unfold execLLen. refines_auto. Qed.

Lemma refines_execLPop args : refines any (execLPop args) (execLPop args).
Proof. unfold execLPop. refines_auto. Qed.

Lemma refines_execLPush args : refines any (execLPush args) (execLPush args).
Proof. unfold execLPush. refines_auto. Qed.

Lemma refines_execLPushX args : refines any (execLPushX args) (execLPushX args).
Proof. unfold execLPushX. refines_auto. Qed.

Lemma refines_execLRange args : refines any (execLRange args) (execLRange args).
Proof. unfold execLRange. refines_auto. Qed.

Lemma refines_execLRem args : refines any (execLRem args) (execLRem args).
Proof. unfold execLRem. refines_auto. Qed.

Lemma refines_execLSet args : refines any (execLSet args) (execLSet args).
Proof. unfold execLSet. refines_auto. Qed.

Lemma refines_execRPop args : refines any (execRPop args) (execRPop args).
Proof. unfold execRPop. refines_auto. Qed.

Lemma refines_execRPopLPush args : refines any (execRPopLPush args) (execRPopLPush args).
Proof. unfold execRPopLPush. refines_auto. Qed.

Lemma refines_execRPush args : refines any (execRPush args) (execRPush args).
Proof. unfold execRPush. refines_auto. Qed.

Lemma refines_execRPushX args : refines any (execRPushX args) (execRPushX args).
Proof. unfold execRPushX. refines_auto. Qed.

Lemma refines_execLTrim args : refines any (execLTrim args) (execLTrim args).
Proof. unfold execLTrim. refines_auto. Qed.

Lemma pivot_index_post l pivot : QList.ql_wf l → post any (pivot_index l pivot).
Proof. intros Hl. unfold pivot_index. by rewrite QList.ForEach_spec. Qed.
#[local] Hint Resolve pivot_index_post : refines.

Lemma refines_execLInsert args : refines any (execLInsert args) (execLInsert args).
Proof. unfold execLInsert. refines_auto. Qed.
Lemma refines_undo_pop_count args l :
  refines any (undo_pop_count args l) (undo_pop_count args l).
Proof. unfold undo_pop_count. refines_auto. Qed.
#[local] Hint Resolve refines_undo_pop_count : refines.

Lemma refines_undoLPop args : refines log_ok (undoLPop args) (undoLPop args).
Proof. unfold undoLPop. refines_auto. Qed.

Lemma refines_undoLPush args : refines log_ok (undoLPush args) (undoLPush args).
Proof. unfold undoLPush. refines_auto. Qed.

Lemma refines_undoLSet args : refines log_ok (undoLSet args) (undoLSet args).
Proof. unfold undoLSet. refines_auto. Qed.

Lemma refines_undoRPop args : refines log_ok (undoRPop args) (undoRPop args).
Proof. unfold undoRPop. refines_auto. Qed.

Lemma refines_undoRPopLPush args : refines log_ok (undoRPopLPush args) (undoRPopLPush args).
Proof. unfold undoRPopLPush. refines_auto. Qed.

Lemma refines_undoRPush args : refines log_ok (undoRPush args) (undoRPush args).
Proof. unfold undoRPush. refines_auto. Qed.

End refinement.
