(* ===== verification/HashCmds.v ===== *)
(** * database/hash.go: hash commands

    Every executor of hash.go except [execHIncrByFloat] (floating point), its undo
    functions, and [rollbackHashFields] of tx_utils.go.  A hash is a [SimpleDict]
    of byte slices. *)

From Stdlib Require Import ZArith Lia Ascii String.
From stdpp Require Import base gmap strings numbers list.
From S2P Require Import Prelude GoStd Dict QuickList SetDS Protocol Border DB Marshal StringCmds.

Local Open Scope string_scope.
Local Open Scope list_scope.
Local Open Scope Z_scope.
Local Open Scope go_scope.

Abbreviation Hash := (SimpleDict bytes).

Section commands.
Context `{Env} {S : Type} `{Store S}.
Implicit Types (args : list bytes) (d : Hash).

Definition getAsDict (key : string) : GoM S (Reply + option Hash) :=
  entity ← GetEntity key;
  match entity with
  | None => mret (inr None)
  | Some (DHash d) => mret (inr (Some d))
  | Some _ => mret (inl WrongTypeErrReply)
  end.

Definition getOrInitDict (key : string) : GoM S (Reply + Hash) :=
  let! o := getAsDict key in
  match o with
  | Some d => mret (inr d)
  | None =>
      let d := Simple.MakeSimple in
      _ ← PutEntity key (DHash d);
      mret (inr d)
  end.

Definition execHSet args : GoM S Reply :=
  a0 ← arg args 0;
  a1 ← arg args 1;
  value ← arg args 2;
  let key := str a0 in
  let? d := getOrInitDict key in
  let '(d', result) := Simple.Put d (str a1) value in
  _ ← mutate key (DHash d');
  _ ← addAof (ToCmdLine3 "hset" args);
  mret (IntReply result).

Definition execHSetNX args : GoM S Reply :=
  a0 ← arg args 0;
  a1 ← arg args 1;
  value ← arg args 2;
  let key := str a0 in
  let? d := getOrInitDict key in
  let '(d', result) := Simple.PutIfAbsent d (str a1) value in
  _ ← mutate key (DHash d');
  _ ← (if result >? 0 then addAof (ToCmdLine3 "hsetnx" args) else mret tt);
  mret (IntReply result).

Definition execHGet args : GoM S Reply :=
  a0 ← arg args 0;
  a1 ← arg args 1;
  let? o := getAsDict (str a0) in
  match o with
  | None => mret NullBulkReply
  | Some d =>
      match Simple.Get d (str a1) with
      | None => mret NullBulkReply
      | Some value => mret (BulkReply value)
      end
  end.

Definition execHExists args : GoM S Reply :=
  a0 ← arg args 0;
  a1 ← arg args 1;
  let? o := getAsDict (str a0) in
  match o with
  | None => mret (IntReply 0)
  | Some d => mret (IntReply (match Simple.Get d (str a1) with Some _ => 1 | None => 0 end))
  end.

(** [for _, field := range fields { _, result := dict.Remove(field); deleted += result }]. *)
Definition hdel_loop d (fields : list string) : Hash * Z :=
  foldl (λ acc field, let '(d', (_, result)) := Simple.Remove acc.1 field in (d', acc.2 + result)) (d, 0) fields.

Definition execHDel args : GoM S Reply :=
  a0 ← arg args 0;
  let key := str a0 in
  let? o := getAsDict key in
  match o with
  | None => mret (IntReply 0)
  | Some d =>
      let '(d', deleted) := hdel_loop d (str <$> drop 1 args) in
      _ ← mutate key (DHash d');
      _ ← (if Simple.Len d' =? 0 then Remove key else mret tt);
      _ ← (if deleted >? 0 then addAof (ToCmdLine3 "hdel" args) else mret tt);
      mret (IntReply deleted)
  end.

Definition execHLen args : GoM S Reply :=
  a0 ← arg args 0;
  let? o := getAsDict (str a0) in
  match o with
  | None => mret (IntReply 0)
  | Some d => mret (IntReply (Simple.Len d))
  end.

Definition execHStrlen args : GoM S Reply :=
  a0 ← arg args 0;
  a1 ← arg args 1;
  let? o := getAsDict (str a0) in
  match o with
  | None => mret (IntReply 0)
  | Some d =>
      match Simple.Get d (str a1) with
      | Some value => mret (IntReply (blen value))
      | None => mret (IntReply 0)
      end
  end.

Definition hmset_loop d (pairs : list (string * bytes)) : Hash :=
  foldl (λ acc kv, (Simple.Put acc kv.1 kv.2).1) d pairs.

Definition execHMSet args : GoM S Reply :=
  if Nat.even (length args) then mret SyntaxErrReply
  else
    a0 ← arg args 0;
    let key := str a0 in
    let? d := getOrInitDict key in
    _ ← mutate key (DHash (hmset_loop d (arg_pairs (drop 1 args))));
    _ ← addAof (ToCmdLine3 "hmset" args);
    mret OkReply.

Definition execHMGet args : GoM S Reply :=
  a0 ← arg args 0;
  let fields := str <$> drop 1 args in
  let? o := getAsDict (str a0) in
  match o with
  | None => mret (MultiBulkReply (replicate (length fields) None))
  | Some d => mret (MultiBulkReply ((λ f, default None (Simple.Get d f)) <$> fields))
  end.

(** The replies of HKEYS, HVALS and HGETALL list the pairs in one iteration. *)
Definition hash_reply (key : string) (f : list (string * bytes) → list bytes) : GoM S Reply :=
  let? o := getAsDict key in
  match o with
  | None => mret EmptyMultiBulkReply
  | Some d =>
      ord ← Order;
      mret (MultiBulkReply (f (Simple.ForEach ord d)))
  end.

Definition execHKeys args : GoM S Reply :=
  a0 ← arg args 0; hash_reply (str a0) (λ kvs, Some <$> kvs.*1).

Definition execHVals args : GoM S Reply :=
  a0 ← arg args 0; hash_reply (str a0) (λ kvs, kvs.*2).

Definition execHGetAll args : GoM S Reply :=
  a0 ← arg args 0;
  hash_reply (str a0) (λ kvs, concat ((λ kv : string * bytes, [Some kv.1; kv.2]) <$> kvs)).

Definition execHIncrBy args : GoM S Reply :=
  a0 ← arg args 0;
  a1 ← arg args 1;
  a2 ← arg args 2;
  match ParseInt (str a2) with
  | inl _ => mret err_not_int
  | inr delta =>
      let key := str a0 in
      let field := str a1 in
      let? d := getOrInitDict key in
      match Simple.Get d field with
      | None =>
          _ ← mutate key (DHash (Simple.Put d field a2).1);
          _ ← addAof (ToCmdLine3 "hincrby" args);
          mret (BulkReply a2)
      | Some value =>
          match ParseInt (str value) with
          | inl _ => mret (MakeErrReply "ERR hash value is not an integer")
          | inr val =>
              let b := Some (FormatInt (int64 (val + delta))) in
              _ ← mutate key (DHash (Simple.Put d field b).1);
              _ ← addAof (ToCmdLine3 "hincrby" args);
              mret (BulkReply b)
          end
      end
  end.

Definition execHIncrByFloat args : GoM S Reply :=
  a0 ← arg args 0;
  a1 ← arg args 1;
  a2 ← arg args 2;
  match ParseFloat (str a2) with
  | None => mret err_float_value
  | Some delta =>
      let key := str a0 in
      let field := str a1 in
      let? d := getOrInitDict key in
      match Simple.Get d field with
      | None =>
          _ ← mutate key (DHash (Simple.Put d field a2).1);
          _ ← addAof (ToCmdLine3 "hincrbyfloat" args);
          mret (BulkReply a2)
      | Some value =>
          match ParseFloat (str value) with
          | None => mret (MakeErrReply "ERR hash value is not a float")
          | Some val =>
              let resultBytes := Some (FormatFloat (float_add val delta)) in
              _ ← mutate key (DHash (Simple.Put d field resultBytes).1);
              _ ← addAof (ToCmdLine3 "hincrbyfloat" args);
              mret (BulkReply resultBytes)
          end
      end
  end.

(** [n] iterations over a map, each in its own order. *)
Fixpoint draw_orders (n : nat) : GoM S (list range_order) :=
  match n with
  | O => mret []
  | Datatypes.S n' => ord ← Order; rest ← draw_orders n'; mret (ord :: rest)
  end.

(** [raw.([]byte)] panics for a field that is not in the hash. *)
Fixpoint with_values d (fields : list string) : outcome (list bytes) :=
  match fields with
  | [] => Ret []
  | f :: fields' =>
      match Simple.Get d f with
      | None => Panic "interface conversion: interface {} is nil, not []uint8"
      | Some v => rest ← with_values d fields'; Ret (Some f :: v :: rest)
      end
  end.

Definition rand_reply d (fields : list string) (withvalues : bool) : GoM S Reply :=
  if withvalues then r ← go_lift (with_values d fields); mret (MultiBulkReply r)
  else mret (MultiBulkReply (Some <$> fields)).

(** The arguments behind the key: the count and WITHVALUES. *)
Definition hrand_options args : Reply + (Z * bool) :=
  if (3 <? length args)%nat then inl (MakeErrReply "ERR wrong number of arguments for 'hrandfield' command")
  else
    match args !! 2%nat with
    | Some a2 =>
        if negb (String.eqb (ToLower (str a2)) "withvalues") then inl SyntaxErrReply
        else match args !! 1%nat with
             | Some a1 => match ParseInt (str a1) with inl _ => inl err_not_int | inr n => inr (n, true) end
             | None => inr (1, true)
             end
    | None =>
        match args !! 1%nat with
        | Some a1 => match ParseInt (str a1) with inl _ => inl err_not_int | inr n => inr (n, false) end
        | None => inr (1, false)
        end
    end.

Definition execHRandField args : GoM S Reply :=
  a0 ← arg args 0;
  match hrand_options args with
  | inl e => mret e
  | inr (count, withvalues) =>
      let? o := getAsDict (str a0) in
      match o with
      | None => mret EmptyMultiBulkReply
      | Some d =>
          if count >? 0 then
            ord ← Order;
            rand_reply d (Simple.RandomDistinctKeys ord d (Z.to_nat count)) withvalues
          else if count <? 0 then
            let limit := int64 (- count) in
            _ ← go_lift (make_slice 16 limit);
            orders ← draw_orders (Z.to_nat limit);
            rand_reply d (Simple.RandomKeys (λ i, nth i orders (λ ks, ks)) d (Z.to_nat limit)) withvalues
          else mret EmptyMultiBulkReply
      end
  end.

(** The options COUNT and MATCH of HSCAN and SSCAN; an option without its value
    indexes the arguments out of range. *)
Fixpoint match_options (rest : list bytes) (cnt : Z) (pattern : string) : GoM S (Reply + (Z * string)) :=
  match rest with
  | [] => mret (inr (cnt, pattern))
  | a :: rest' =>
      let opt := ToLower (str a) in
      if String.eqb opt "count" then
        match rest' with
        | [] => go_panic "index out of range"
        | v :: rest'' =>
            match Atoi (str v) with
            | inl _ => mret (inl SyntaxErrReply)
            | inr n => match_options rest'' n pattern
            end
        end
      else if String.eqb opt "match" then
        match rest' with
        | [] => go_panic "index out of range"
        | v :: rest'' => match_options rest'' cnt (str v)
        end
      else mret (inl SyntaxErrReply)
  end.

Definition scan_reply (keysReply : list bytes) (nextCursor : Z) : Reply :=
  if nextCursor <? 0 then MakeErrReply "Invalid argument"
  else MultiRawReply [BulkReply (Some (FormatInt nextCursor)); MultiBulkReply keysReply].

Definition execHScan args : GoM S Reply :=
  let? o := match_options (drop 2 args) 10 "*" in
  if (length args <? 2)%nat then mret SyntaxErrReply
  else
    a0 ← arg args 0;
    let? od := getAsDict (str a0) in
    match od with
    | None => mret NullBulkReply
    | Some d =>
        a1 ← arg args 1;
        match Atoi (str a1) with
        | inl _ => mret (MakeErrReply "ERR invalid cursor")
        | inr cursor =>
            ord ← Order;
            let '(keysReply, nextCursor) := Simple.DictScan CompilePattern ord d cursor o.1 o.2 in
            mret (scan_reply keysReply nextCursor)
        end
    end.

(** ** Undo logs *)

Definition rollback_field (key : string) d (field : string) : CmdLine :=
  match Simple.Get d field with
  | None => ToCmdLine ["HDEL"; key; field]
  | Some value => ToCmdLine ["HSET"; key; field; str value]
  end.

Definition rollbackHashFields (key : string) (fields : list string) : GoM S (list CmdLine) :=
  r ← getAsDict key;
  match r with
  | inl _ => mret []
  | inr None => mret [ToCmdLine ["DEL"; key]]
  | inr (Some d) => mret (rollback_field key d <$> fields)
  end.

Definition undoHSet args : GoM S (list CmdLine) :=
  a0 ← arg args 0;
  a1 ← arg args 1;
  rollbackHashFields (str a0) [str a1].

Definition undoHIncr args : GoM S (list CmdLine) := undoHSet args.

Definition undoHDel args : GoM S (list CmdLine) :=
  a0 ← arg args 0;
  rollbackHashFields (str a0) (str <$> drop 1 args).

Definition undoHMSet args : GoM S (list CmdLine) :=
  a0 ← arg args 0;
  rollbackHashFields (str a0) (arg_pairs (drop 1 args)).*1.
End commands.

(** ** Refinement *)

Section refinement.
Context `{Env}.
Implicit Types (args : list bytes).

Lemma refines_getAsDict key : refines (val_ok (λ _ : option Hash, True)) (getAsDict key) (getAsDict key).
Proof. unfold getAsDict. refines_auto. Qed.
#[local] Hint Resolve refines_getAsDict : refines.

Lemma refines_getOrInitDict key : refines (val_ok (λ _ : Hash, True)) (getOrInitDict key) (getOrInitDict key).
Proof.
  unfold getOrInitDict. eapply refines_early_err; [apply refines_getAsDict|]. intros [d|] _; refines_auto.
Qed.
#[local] Hint Resolve refines_getOrInitDict : refines.

Lemma refines_hash_reply key f : refines any (hash_reply key f) (hash_reply key f).
Proof. unfold hash_reply. refines_auto. Qed.
#[local] Hint Resolve refines_hash_reply : refines.

Lemma refines_draw_orders n : refines any (draw_orders n) (draw_orders n).
Proof. induction n as [|n IH]; cbn [draw_orders]; refines_auto. Qed.
#[local] Hint Resolve refines_draw_orders : refines.

Lemma with_values_post d fields : post any (with_values d fields).
Proof. induction fields as [|f fields IH]; simpl; post_auto. Qed.
#[local] Hint Resolve with_values_post : refines.

Lemma refines_rand_reply d fs b : refines any (rand_reply d fs b) (rand_reply d fs b).
Proof. unfold rand_reply. refines_auto. Qed.
#[local] Hint Resolve refines_rand_reply : refines.

Lemma refines_match_options rest cnt pat :
  refines (val_ok (λ _ : Z * string, True)) (match_options rest cnt pat) (match_options rest cnt pat).
Proof.
  assert (∀ n rest cnt pat, (length rest ≤ n)%nat →
    refines (val_ok (λ _ : Z * string, True)) (match_options rest cnt pat) (match_options rest cnt pat)) as Hn;
    [|by apply (Hn (length rest))].
  clear rest cnt pat. induction n as [|n IH]; intros [|a rest] cnt pat Hl; simpl in Hl; try lia; [by apply refines_ret..|].
  cbn [match_options]. destruct rest as [|v rest]; simpl in Hl;
    repeat first [apply IH; simpl; lia | refines_step].
Qed.

Lemma refines_execHSet args : refines any (execHSet args) (execHSet args).
Proof. unfold execHSet. refines_auto. Qed.

Lemma refines_execHSetNX args : refines any (execHSetNX args) (execHSetNX args).
Proof. unfold execHSetNX. refines_auto. Qed.

Lemma refines_execHGet args : refines any (execHGet args) (execHGet args).
Proof. unfold execHGet. refines_auto. Qed.

Lemma refines_execHExists args : refines any (execHExists args) (execHExists args).
Proof. unfold execHExists. refines_auto. Qed.

Lemma refines_execHDel args : refines any (execHDel args) (execHDel args).
Proof. unfold execHDel. refines_auto. Qed.

Lemma refines_execHLen args : refines any (execHLen args) (execHLen args).
Proof. unfold execHLen. refines_auto. Qed.

Lemma refines_execHStrlen args : refines any (execHStrlen args) (execHStrlen args).
Proof. unfold execHStrlen. refines_auto. Qed.

Lemma refines_execHMSet args : refines any (execHMSet args) (execHMSet args).
Proof. unfold execHMSet. refines_auto. Qed.

Lemma refines_execHMGet args : refines any (execHMGet args) (execHMGet args).
Proof. unfold execHMGet. refines_auto. Qed.

Lemma refines_execHKeys args : refines any (execHKeys args) (execHKeys args).
Proof. unfold execHKeys. refines_auto. Qed.

Lemma refines_execHVals args : refines any (execHVals args) (execHVals args).
Proof. unfold execHVals. refines_auto. Qed.

Lemma refines_execHGetAll args : refines any (execHGetAll args) (execHGetAll args).
Proof. unfold execHGetAll. refines_auto. Qed.

Lemma refines_execHIncrBy args : refines any (execHIncrBy args) (execHIncrBy args).
Proof. unfold execHIncrBy. refines_auto. Qed.

Lemma refines_execHIncrByFloat args : refines any (execHIncrByFloat args) (execHIncrByFloat args).
Proof. unfold execHIncrByFloat. refines_auto. Qed.

Lemma refines_execHRandField args : refines any (execHRandField args) (execHRandField args).
Proof. unfold execHRandField. refines_auto. Qed.

Lemma refines_execHScan args : refines any (execHScan args) (execHScan args).
Proof. unfold execHScan. eapply refines_early; [apply refines_match_options|]. intros o _. refines_auto. Qed.
Lemma refines_rollbackHashFields key fields :
  refines log_ok (rollbackHashFields key fields) (rollbackHashFields key fields).
Proof.
  unfold rollbackHashFields. refines_auto. apply log_fmap. intros f. unfold rollback_field. by case_match.
Qed.
#[local] Hint Resolve refines_rollbackHashFields : refines.

Lemma refines_undoHSet args : refines log_ok (undoHSet args) (undoHSet args).
Proof. unfold undoHSet. refines_auto. Qed.

Lemma refines_undoHDel args : refines log_ok (undoHDel args) (undoHDel args).
Proof. unfold undoHDel. refines_auto. Qed.

Lemma refines_undoHMSet args : refines log_ok (undoHMSet args) (undoHMSet args).
Proof. unfold undoHMSet. refines_auto. Qed.

End refinement.
