(* ===== verification/SetCmds.v ===== *)
(** * database/set.go: set commands

    Every executor of set.go, and the undo functions of tx_utils.go for sets.  A
    set is a [Set_] over a [SimpleDict].  [Intersect], [Union] and [Diff] return
    the same set for every iteration order, so one draw stands for the orders of
    their loops. *)

From Stdlib Require Import ZArith Lia Ascii String.
From stdpp Require Import base gmap strings numbers list.
From S2P Require Import Prelude GoStd Dict QuickList SetDS Protocol DB Marshal StringCmds HashCmds.

Local Open Scope string_scope.
Local Open Scope list_scope.
Local Open Scope Z_scope.
Local Open Scope go_scope.

Abbreviation HashSet := (Set_ (SimpleDict unit)).

Section commands.
Context `{Env} {S : Type} `{Store S}.
Implicit Types (args : list bytes) (s : HashSet).

Definition getAsSet (key : string) : GoM S (Reply + option HashSet) :=
  entity ← GetEntity key;
  match entity with
  | None => mret (inr None)
  | Some (DSet s) => mret (inr (Some s))
  | Some _ => mret (inl WrongTypeErrReply)
  end.

Definition getOrInitSet (key : string) : GoM S (Reply + HashSet) :=
  let! o := getAsSet key in
  match o with
  | Some s => mret (inr s)
  | None =>
      let s := Sets.Make [] in
      _ ← PutEntity key (DSet s);
      mret (inr s)
  end.

(** [for _, member := range members { counter += set.Add(string(member)) }]. *)
Definition sadd_loop s (members : list string) : HashSet * Z :=
  foldl (λ acc m, let '(s', n) := Sets.Add acc.1 m in (s', acc.2 + n)) (s, 0) members.

Definition srem_loop s (members : list string) : HashSet * Z :=
  foldl (λ acc m, let '(s', n) := Sets.Remove acc.1 m in (s', acc.2 + n)) (s, 0) members.

Definition execSAdd args : GoM S Reply :=
  a0 ← arg args 0;
  let key := str a0 in
  let? s := getOrInitSet key in
  let '(s', counter) := sadd_loop s (str <$> drop 1 args) in
  _ ← mutate key (DSet s');
  _ ← addAof (ToCmdLine3 "sadd" args);
  mret (IntReply counter).

Definition execSIsMember args : GoM S Reply :=
  a0 ← arg args 0;
  a1 ← arg args 1;
  let? o := getAsSet (str a0) in
  match o with
  | None => mret (IntReply 0)
  | Some s => mret (IntReply (if Sets.Has (Some s) (str a1) then 1 else 0))
  end.

Definition execSRem args : GoM S Reply :=
  a0 ← arg args 0;
  let key := str a0 in
  let? o := getAsSet key in
  match o with
  | None => mret (IntReply 0)
  | Some s =>
      let '(s', counter) := srem_loop s (str <$> drop 1 args) in
      _ ← mutate key (DSet s');
      _ ← (if Sets.Len (Some s') =? 0 then Remove key else mret tt);
      _ ← (if counter >? 0 then addAof (ToCmdLine3 "srem" args) else mret tt);
      mret (IntReply counter)
  end.

(** The optional count of SPOP: one by default, positive when it is given. *)
Definition spop_count args : option Z :=
  match args with
  | [_; a1] => match ParseInt (str a1) with
               | inl _ => None
               | inr n => if n <=? 0 then None else Some n
               end
  | _ => Some 1
  end.

Definition execSPop args : GoM S Reply :=
  if negb (length args =? 1)%nat && negb (length args =? 2)%nat
  then mret (MakeErrReply "ERR wrong number of arguments for 'spop' command")
  else
    a0 ← arg args 0;
    let key := str a0 in
    let? o := getAsSet key in
    match o with
    | None => mret NullBulkReply
    | Some s =>
        match spop_count args with
        | None => mret (MakeErrReply "ERR value is out of range, must be positive")
        | Some count =>
            let count := if count >? Sets.Len (Some s) then Sets.Len (Some s) else count in
            ord ← Order;
            let members := Simple.RandomDistinctKeys ord (set_dict s) (Z.to_nat count) in
            _ ← mutate key (DSet (srem_loop s members).1);
            _ ← (if count >? 0 then addAof (ToCmdLine3 "spop" args) else mret tt);
            mret (MultiBulkReply (Some <$> members))
        end
    end.

Definition execSCard args : GoM S Reply :=
  a0 ← arg args 0;
  let? o := getAsSet (str a0) in
  match o with
  | None => mret (IntReply 0)
  | Some s => mret (IntReply (Sets.Len (Some s)))
  end.

(** The members in the order of one iteration. *)
Definition set2reply s : GoM S Reply :=
  ord ← Order; mret (MultiBulkReply (Some <$> Sets.ForEach ord (Some s))).

Definition execSMembers args : GoM S Reply :=
  a0 ← arg args 0;
  let? o := getAsSet (str a0) in
  match o with
  | None => mret EmptyMultiBulkReply
  | Some s => set2reply s
  end.

(** The loop that collects the operands.  SINTER stops at the first empty or
    missing operand: [Some None]. *)
Fixpoint collect_sets (stop_if_empty : bool) (keys : list string) (sets : list (option HashSet))
    : GoM S (Reply + option (list (option HashSet))) :=
  match keys with
  | [] => mret (inr (Some sets))
  | key :: keys' =>
      let! o := getAsSet key in
      if stop_if_empty && (Sets.Len o =? 0) then mret (inr None)
      else collect_sets stop_if_empty keys' (sets ++ [o])
  end.

Definition execSInter args : GoM S Reply :=
  let? o := collect_sets true (str <$> args) [] in
  match o with
  | None => mret EmptyMultiBulkReply
  | Some sets => ord ← Order; set2reply (Sets.Intersect ord sets)
  end.

Definition execSInterStore args : GoM S Reply :=
  a0 ← arg args 0;
  let? o := collect_sets true (str <$> drop 1 args) [] in
  match o with
  | None => mret (IntReply 0)
  | Some sets =>
      ord ← Order;
      let result := Sets.Intersect ord sets in
      _ ← PutEntity (str a0) (DSet result);
      _ ← addAof (ToCmdLine3 "sinterstore" args);
      mret (IntReply (Sets.Len (Some result)))
  end.

Definition execSUnion args : GoM S Reply :=
  let? o := collect_sets false (str <$> args) [] in
  ord ← Order;
  set2reply (Sets.Union ord (default [] o)).

(** The end of SUNIONSTORE and SDIFFSTORE. *)
Definition store_result (name : string) args (dest : string) (result : HashSet) : GoM S Reply :=
  _ ← Remove dest;
  if Sets.Len (Some result) =? 0 then mret (IntReply 0)
  else
    _ ← PutEntity dest (DSet result);
    _ ← addAof (ToCmdLine3 name args);
    mret (IntReply (Sets.Len (Some result))).

Definition execSUnionStore args : GoM S Reply :=
  a0 ← arg args 0;
  let? o := collect_sets false (str <$> drop 1 args) [] in
  ord ← Order;
  store_result "sunionstore" args (str a0) (Sets.Union ord (default [] o)).

Definition execSDiff args : GoM S Reply :=
  let? o := collect_sets false (str <$> args) [] in
  ord ← Order;
  set2reply (Sets.Diff ord (default [] o)).

Definition execSDiffStore args : GoM S Reply :=
  a0 ← arg args 0;
  let? o := collect_sets false (str <$> drop 1 args) [] in
  ord ← Order;
  store_result "sdiffstore" args (str a0) (Sets.Diff ord (default [] o)).

(** [set.RandomMembers(limit)]. *)
Definition random_members s (limit : Z) : GoM S (list string) :=
  _ ← go_lift (make_slice 16 limit);
  orders ← draw_orders (Z.to_nat limit);
  mret (Simple.RandomKeys (λ i, nth i orders (λ ks, ks)) (set_dict s) (Z.to_nat limit)).

Definition execSRandMember args : GoM S Reply :=
  if negb (length args =? 1)%nat && negb (length args =? 2)%nat
  then mret (MakeErrReply "ERR wrong number of arguments for 'srandmember' command")
  else
    a0 ← arg args 0;
    let? o := getAsSet (str a0) in
    match o with
    | None => mret NullBulkReply
    | Some s =>
        match args with
        | [_] =>
            members ← random_members s 1;
            m ← arg (Some <$> members) 0;
            mret (BulkReply m)
        | _ =>
            a1 ← arg args 1;
            match ParseInt (str a1) with
            | inl _ => mret err_not_int
            | inr count =>
                if count >? 0 then
                  ord ← Order;
                  mret (MultiBulkReply (Some <$> Simple.RandomDistinctKeys ord (set_dict s) (Z.to_nat count)))
                else if count <? 0 then
                  members ← random_members s (int64 (- count));
                  mret (MultiBulkReply (Some <$> members))
                else mret EmptyMultiBulkReply
            end
        end
    end.

Definition execSScan args : GoM S Reply :=
  let? o := match_options (drop 2 args) 10 "*" in
  a0 ← arg args 0;
  let? os := getAsSet (str a0) in
  match os with
  | None => mret EmptyMultiBulkReply
  | Some s =>
      a1 ← arg args 1;
      match Atoi (str a1) with
      | inl _ => mret (MakeErrReply "ERR invalid cursor")
      | inr cursor =>
          ord ← Order;
          let '(keysReply, nextCursor) := Sets.SetScan CompilePattern ord s cursor o.1 o.2 in
          mret (scan_reply keysReply nextCursor)
      end
  end.

(** ** Undo logs *)

Definition rollback_member (key : string) s (member : string) : CmdLine :=
  if Sets.Has (Some s) member then ToCmdLine ["SADD"; key; member] else ToCmdLine ["SREM"; key; member].

Definition rollbackSetMembers (key : string) (members : list string) : GoM S (list CmdLine) :=
  r ← getAsSet key;
  match r with
  | inl _ => mret []
  | inr None => mret [ToCmdLine ["DEL"; key]]
  | inr (Some s) => mret (rollback_member key s <$> members)
  end.

Definition undoSetChange args : GoM S (list CmdLine) :=
  a0 ← arg args 0;
  rollbackSetMembers (str a0) (str <$> drop 1 args).
End commands.

(** ** Refinement *)

Section refinement.
Context `{Env}.
Implicit Types (args : list bytes).

Lemma refines_getAsSet key : refines (val_ok (λ _ : option HashSet, True)) (getAsSet key) (getAsSet key).
Proof. unfold getAsSet. refines_auto. Qed.
#[local] Hint Resolve refines_getAsSet : refines.

Lemma refines_getOrInitSet key : refines (val_ok (λ _ : HashSet, True)) (getOrInitSet key) (getOrInitSet key).
Proof.
  unfold getOrInitSet. eapply refines_early_err; [apply refines_getAsSet|]. intros [d|] _; refines_auto.
Qed.

Lemma refines_set2reply s : refines any (set2reply s) (set2reply s).
Proof. unfold set2reply. refines_auto. Qed.

Lemma refines_collect_sets b keys sets :
  refines (val_ok (λ _ : option (list (option HashSet)), True)) (collect_sets b keys sets) (collect_sets b keys sets).
Proof.
  revert sets. induction keys as [|key keys IH]; intros sets; cbn [collect_sets]; [by apply refines_ret|].
  eapply refines_early_err; [apply refines_getAsSet|]. intros o _.
  apply refines_if; [by apply refines_ret|apply IH].
Qed.

Lemma refines_store_result name args dest s :
  refines any (store_result name args dest s) (store_result name args dest s).
Proof. unfold store_result. refines_auto. Qed.

Lemma refines_random_members s n : refines any (random_members s n) (random_members s n).
Proof.
  pose proof refines_draw_orders. unfold random_members. refines_auto.
Qed.
#[local] Hint Resolve refines_getOrInitSet refines_set2reply refines_collect_sets refines_store_result
  refines_random_members refines_match_options : refines.

Lemma refines_execSAdd args : refines any (execSAdd args) (execSAdd args).
Proof. unfold execSAdd. refines_auto. Qed.

Lemma refines_execSIsMember args : refines any (execSIsMember args) (execSIsMember args).
Proof. unfold execSIsMember. refines_auto. Qed.

Lemma refines_execSRem args : refines any (execSRem args) (execSRem args).
Proof. unfold execSRem. refines_auto. Qed.

Lemma refines_execSPop args : refines any (execSPop args) (execSPop args).
Proof. unfold execSPop. refines_auto. Qed.

Lemma refines_execSCard args : refines any (execSCard args) (execSCard args).
Proof. unfold execSCard. refines_auto. Qed.

Lemma refines_execSMembers args : refines any (execSMembers args) (execSMembers args).
Proof. unfold execSMembers. refines_auto. Qed.

Lemma refines_execSInter args : refines any (execSInter args) (execSInter args).
Proof. unfold execSInter. refines_auto. Qed.

Lemma refines_execSInterStore args : refines any (execSInterStore args) (execSInterStore args).
Proof. unfold execSInterStore. refines_auto. Qed.

Lemma refines_execSUnion args : refines any (execSUnion args) (execSUnion args).
Proof. unfold execSUnion. refines_auto. Qed.

Lemma refines_execSUnionStore args : refines any (execSUnionStore args) (execSUnionStore args).
Proof. unfold execSUnionStore. refines_auto. Qed.

Lemma refines_execSDiff args : refines any (execSDiff args) (execSDiff args).
Proof. unfold execSDiff. refines_auto. Qed.

Lemma refines_execSDiffStore args : refines any (execSDiffStore args) (execSDiffStore args).
Proof. unfold execSDiffStore. refines_auto. Qed.

Lemma refines_execSRandMember args : refines any (execSRandMember args) (execSRandMember args).
Proof. unfold execSRandMember. refines_auto. Qed.

Lemma refines_execSScan args : refines any (execSScan args) (execSScan args).
Proof. unfold execSScan. refines_auto. Qed.
Lemma refines_rollbackSetMembers key members :
  refines log_ok (rollbackSetMembers key members) (rollbackSetMembers key members).
Proof.
  unfold rollbackSetMembers. refines_auto. apply log_fmap. intros m. unfold rollback_member. by case_match.
Qed.
#[local] Hint Resolve refines_rollbackSetMembers : refines.

Lemma refines_undoSetChange args : refines log_ok (undoSetChange args) (undoSetChange args).
Proof. unfold undoSetChange. refines_auto. Qed.

End refinement.
