(* ===== verification/ZSetCmds.v ===== *)
(** * database/sortedset.go: sorted set commands

    Every executor of sortedset.go, its undo functions, and [rollbackZSetFields] of
    tx_utils.go.  Scores are read and written by [ParseFloat] and [FormatFloat] of the
    environment, and every insertion into the skip list draws a random number. *)

From Stdlib Require Import ZArith Lia Ascii String.
From Stdlib Require Import Floats.SpecFloat.
From stdpp Require Import base gmap strings numbers list.
From S2P Require Import Prelude GoStd Dict QuickList SetDS Protocol Border SkipList SkipShape SortedSet ZSetShape DB Marshal StringCmds HashCmds.

Local Open Scope string_scope.
Local Open Scope list_scope.
Local Open Scope Z_scope.
Local Open Scope go_scope.

Definition err_integer : Reply := MakeErrReply "ERR value is not an integer or out of range".
Definition err_syntax : Reply := MakeErrReply "ERR syntax error".

(** The index computation of [range0] and [execZRemRangeByRank]; [None] for a start
    behind the end. *)
Definition rank_bounds (size start stop : Z) : option (Z * Z) :=
  let start' :=
    if start <? -1 * size then Some 0
    else if start <? 0 then Some (size + start)
    else if start >=? size then None
    else Some start in
  match start' with
  | None => None
  | Some start =>
      let stop :=
        if stop <? -1 * size then 0
        else if stop <? 0 then size + stop + 1
        else if stop <? size then stop + 1
        else size in
      Some (start, if stop <? start then start else stop)
  end.

Section commands.
Context `{Env} {S : Type} `{Store S}.
Implicit Types (args : list bytes).

Definition getAsSortedSet (key : string) : GoM S (Reply + option SortedSet) :=
  entity ← GetEntity key;
  match entity with
  | None => mret (inr None)
  | Some (DZSet z) => mret (inr (Some z))
  | Some _ => mret (inl WrongTypeErrReply)
  end.

Definition getOrInitSortedSet (key : string) : GoM S (Reply + SortedSet) :=
  let! o := getAsSortedSet key in
  match o with
  | Some z => mret (inr z)
  | None => _ ← PutEntity key (DZSet ZSet.Make); mret (inr ZSet.Make)
  end.

(** [sortedSet.Add], on the set stored under [key]. *)
Definition zadd (key : string) (z : SortedSet) (member : string) (score : float64) : GoM S (SortedSet * bool) :=
  r ← Rand;
  x ← go_lift (ZSet.Add z member score r);
  _ ← mutate key (DZSet x.1);
  mret x.

(** ** ZADD *)

(** The pairs of a score and a member. *)
Fixpoint parse_elements (l : list bytes) : Reply + list Element :=
  match l with
  | scoreValue :: member :: l' =>
      match ParseFloat (str scoreValue) with
      | None => inl err_float_value
      | Some score =>
          match parse_elements l' with
          | inl e => inl e
          | inr elements => inr (mkElement (str member) score :: elements)
          end
      end
  | _ => inr []
  end.

Fixpoint zadd_loop (key : string) (elements : list Element) (z : SortedSet) (i : Z) : GoM S Z :=
  match elements with
  | [] => mret i
  | e :: elements' =>
      x ← zadd key z (Member e) (Score e);
      zadd_loop key elements' x.1 (if (x.2 : bool) then i + 1 else i)
  end.

Definition execZAdd args : GoM S Reply :=
  if negb (Z.of_nat (length args) mod 2 =? 1) then mret SyntaxErrReply
  else
    a0 ← arg args 0;
    let key := str a0 in
    match parse_elements (drop 1 args) with
    | inl e => mret e
    | inr elements =>
        let? z := getOrInitSortedSet key in
        i ← zadd_loop key elements z 0;
        _ ← addAof (ToCmdLine3 "zadd" args);
        mret (IntReply i)
    end.

(** ** Reading one member *)

(** The set under the first argument, or the reply for a missing one. *)
Definition with_zset (key : string) (missing : Reply) (f : SortedSet → GoM S Reply) : GoM S Reply :=
  let? o := getAsSortedSet key in
  match o with None => mret missing | Some z => f z end.

Definition execZScore args : GoM S Reply :=
  a0 ← arg args 0;
  a1 ← arg args 1;
  with_zset (str a0) NullBulkReply (λ z,
    mret (match ZSet.Get z (str a1) with
          | None => NullBulkReply
          | Some element => BulkReply (Some (FormatFloat (Score element)))
          end)).

Definition rank_reply args (desc : bool) : GoM S Reply :=
  a0 ← arg args 0;
  a1 ← arg args 1;
  with_zset (str a0) NullBulkReply (λ z,
    rank ← go_lift (ZSet.GetRank z (str a1) desc);
    mret (if rank <? 0 then NullBulkReply else IntReply rank)).

Definition execZRank args : GoM S Reply := rank_reply args false.

Definition execZRevRank args : GoM S Reply := rank_reply args true.

Definition execZCard args : GoM S Reply :=
  a0 ← arg args 0;
  with_zset (str a0) (IntReply 0) (λ z, mret (IntReply (ZSet.Len z))).

(** ** Ranges *)

Definition elements_reply (withScores : bool) (slice : list Element) : Reply :=
  MultiBulkReply (concat ((λ e,
    if withScores then [Some (Member e); Some (FormatFloat (Score e))] else [Some (Member e)]) <$> slice)).

Definition range0 (key : string) (start stop : Z) (withScores desc : bool) : GoM S Reply :=
  with_zset key EmptyMultiBulkReply (λ z,
    match rank_bounds (ZSet.Len z) start stop with
    | None => mret EmptyMultiBulkReply
    | Some (start, stop) =>
        slice ← go_lift (ZSet.RangeByRank z start stop desc);
        mret (elements_reply withScores slice)
    end).

(** [is_withscores] is the test of the fourth argument. *)
Definition zrange (name : string) (is_withscores : string → bool) (desc : bool) args : GoM S Reply :=
  if negb ((length args =? 3)%nat || (length args =? 4)%nat)
  then mret (MakeErrReply ("ERR wrong number of arguments for '" +:+ name +:+ "' command"))
  else if (length args =? 4)%nat && negb (is_withscores (str (default None (args !! 3%nat))))
  then mret (MakeErrReply "syntax error")
  else
    a0 ← arg args 0;
    a1 ← arg args 1;
    a2 ← arg args 2;
    match ParseInt (str a1) with
    | inl _ => mret err_integer
    | inr start =>
        match ParseInt (str a2) with
        | inl _ => mret err_integer
        | inr stop => range0 (str a0) start stop (length args =? 4)%nat desc
        end
    end.

Definition execZRange args : GoM S Reply := zrange "zrange" (λ s, String.eqb (ToUpper s) "WITHSCORES") false args.

Definition execZRevRange args : GoM S Reply := zrange "zrevrange" (λ s, String.eqb s "WITHSCORES") true args.

(** A border, or the error reply. *)
Definition border (p : outcome (string + Border)) : GoM S (Reply + Border) :=
  r ← go_lift p;
  mret (match r with inl e => inl (MakeErrReply e) | inr b => inr b end).

Definition score_range (a b : bytes) : GoM S (Reply + (Border * Border)) :=
  let! min := border (ParseScoreBorder ParseFloat (str a)) in
  let! max := border (ParseScoreBorder ParseFloat (str b)) in
  mret (inr (min, max)).

Definition execZCount args : GoM S Reply :=
  a0 ← arg args 0;
  a1 ← arg args 1;
  a2 ← arg args 2;
  let? r := score_range a1 a2 in
  with_zset (str a0) (IntReply 0) (λ z, n ← go_lift (ZSet.RangeCount z r.1 r.2); mret (IntReply n)).

Definition rangeByScore0 (key : string) (min max : Border) (offset limit : Z) (withScores desc : bool) : GoM S Reply :=
  with_zset key EmptyMultiBulkReply (λ z,
    slice ← go_lift (ZSet.Range z min max offset limit desc);
    mret (elements_reply withScores slice)).

(** The options behind the borders: with scores, offset, limit. *)
Fixpoint score_options (rest : list bytes) (withScores : bool) (offset limit : Z) : Reply + (bool * Z * Z) :=
  match rest with
  | [] => inr (withScores, offset, limit)
  | s :: rest' =>
      if String.eqb (ToUpper (str s)) "WITHSCORES" then score_options rest' true offset limit
      else if String.eqb (ToUpper (str s)) "LIMIT" then
        match rest' with
        | o :: l :: rest'' =>
            match ParseInt (str o) with
            | inl _ => inl err_integer
            | inr offset =>
                match ParseInt (str l) with
                | inl _ => inl err_integer
                | inr limit => score_options rest'' withScores offset limit
                end
            end
        | _ => inl err_syntax
        end
      else inl err_syntax
  end.

(** The borders are the arguments [imin] and [imax]. *)
Definition zrangebyscore (imin imax : nat) (desc : bool) args : GoM S Reply :=
  if (length args <? 3)%nat then mret (MakeErrReply "ERR wrong number of arguments for 'zrangebyscore' command")
  else
    a0 ← arg args 0;
    amin ← arg args imin;
    amax ← arg args imax;
    let? r := score_range amin amax in
    match score_options (drop 3 args) false 0 (-1) with
    | inl e => mret e
    | inr (withScores, offset, limit) => rangeByScore0 (str a0) r.1 r.2 offset limit withScores desc
    end.

Definition execZRangeByScore args : GoM S Reply := zrangebyscore 1 2 false args.

Definition execZRevRangeByScore args : GoM S Reply := zrangebyscore 2 1 true args.

(** ** Removals *)

(** The line goes to the log when something was removed. *)
Definition log_removed (removed : Z) (name : string) args : GoM S unit :=
  if removed >? 0 then addAof (ToCmdLine3 name args) else mret tt.

Definition execZRemRangeByScore args : GoM S Reply :=
  if negb (length args =? 3)%nat then mret (MakeErrReply "ERR wrong number of arguments for 'zremrangebyscore' command")
  else
    a0 ← arg args 0;
    a1 ← arg args 1;
    a2 ← arg args 2;
    let? r := score_range a1 a2 in
    with_zset (str a0) EmptyMultiBulkReply (λ z,
      x ← go_lift (ZSet.RemoveRange z r.1 r.2);
      _ ← mutate (str a0) (DZSet x.1);
      _ ← log_removed x.2 "zremrangebyscore" args;
      mret (IntReply x.2)).

Definition execZRemRangeByRank args : GoM S Reply :=
  a0 ← arg args 0;
  a1 ← arg args 1;
  a2 ← arg args 2;
  match ParseInt (str a1) with
  | inl _ => mret err_integer
  | inr start =>
      match ParseInt (str a2) with
      | inl _ => mret err_integer
      | inr stop =>
          with_zset (str a0) (IntReply 0) (λ z,
            match rank_bounds (ZSet.Len z) start stop with
            | None => mret (IntReply 0)
            | Some (start, stop) =>
                x ← go_lift (ZSet.RemoveByRank z start stop);
                _ ← mutate (str a0) (DZSet x.1);
                _ ← log_removed x.2 "zremrangebyrank" args;
                mret (IntReply x.2)
            end)
      end
  end.

(** The count of ZPOPMIN, 1 without the argument. *)
Definition pop_count args : Reply + Z :=
  match args with
  | _ :: c :: _ => match Atoi (str c) with inl _ => inl err_integer | inr n => inr n end
  | _ => inr 1
  end.

Definition execZPopMin args : GoM S Reply :=
  a0 ← arg args 0;
  match pop_count args with
  | inl e => mret e
  | inr count =>
      with_zset (str a0) EmptyMultiBulkReply (λ z,
        x ← go_lift (ZSet.PopMin z count);
        _ ← mutate (str a0) (DZSet x.1);
        _ ← log_removed (Z.of_nat (length x.2)) "zpopmin" args;
        mret (elements_reply true x.2))
  end.

Fixpoint zrem_loop (key : string) (fields : list string) (z : SortedSet) (deleted : Z) : GoM S Z :=
  match fields with
  | [] => mret deleted
  | field :: fields' =>
      x ← go_lift (ZSet.Remove z field);
      _ ← mutate key (DZSet x.1);
      zrem_loop key fields' x.1 (if (x.2 : bool) then deleted + 1 else deleted)
  end.

Definition execZRem args : GoM S Reply :=
  a0 ← arg args 0;
  with_zset (str a0) (IntReply 0) (λ z,
    deleted ← zrem_loop (str a0) (str <$> drop 1 args) z 0;
    _ ← log_removed deleted "zrem" args;
    mret (IntReply deleted)).

(** ** ZINCRBY *)

Definition execZIncrBy args : GoM S Reply :=
  a0 ← arg args 0;
  rawDelta ← arg args 1;
  a2 ← arg args 2;
  let key := str a0 in
  let field := str a2 in
  match ParseFloat (str rawDelta) with
  | None => mret err_float_value
  | Some delta =>
      let? z := getOrInitSortedSet key in
      match ZSet.Get z field with
      | None =>
          _ ← zadd key z field delta;
          _ ← addAof (ToCmdLine3 "zincrby" args);
          mret (BulkReply rawDelta)
      | Some element =>
          let score := float_add (Score element) delta in
          _ ← zadd key z field score;
          _ ← addAof (ToCmdLine3 "zincrby" args);
          mret (BulkReply (Some (FormatFloat score)))
      end
  end.

(** ** Ranges of strings *)

Definition lex_range (a b : bytes) : GoM S (Reply + (Border * Border)) :=
  let! min := border (ParseLexBorder (str a)) in
  let! max := border (ParseLexBorder (str b)) in
  mret (inr (min, max)).

Definition execZLexCount args : GoM S Reply :=
  a0 ← arg args 0;
  a1 ← arg args 1;
  a2 ← arg args 2;
  with_zset (str a0) (IntReply 0) (λ z,
    let? r := lex_range a1 a2 in
    n ← go_lift (ZSet.RangeCount z r.1 r.2);
    mret (IntReply n)).

(** The offset and the count behind LIMIT; the reply for a negative offset is an
    empty list. *)
Definition lex_limit (offset count : bytes) : Reply + (Z * Z) :=
  match ParseInt (str offset) with
  | inl _ => inl err_integer
  | inr offset =>
      if offset <? 0 then inl EmptyMultiBulkReply
      else
        match ParseInt (str count) with
        | inl _ => inl err_integer
        | inr count => inr (offset, if count >=? 0 then count else int64_max)
        end
  end.

Definition lex_reply (elements : list Element) : Reply :=
  match elements with
  | [] => EmptyMultiBulkReply
  | _ => MultiBulkReply ((λ e, Some (Member e)) <$> elements)
  end.

Definition zrangebylex (imin imax : nat) (desc : bool) args : GoM S Reply :=
  let n := length args in
  if (3 <? n)%nat && negb (String.eqb (ToLower (str (default None (args !! 3%nat)))) "limit") then mret err_syntax
  else if negb ((n =? 3)%nat || (n =? 6)%nat)
  then mret (MakeErrReply "ERR wrong number of arguments for 'zrangebylex' command")
  else
    a0 ← arg args 0;
    amin ← arg args imin;
    amax ← arg args imax;
    with_zset (str a0) (IntReply 0) (λ z,
      let? r := lex_range amin amax in
      match (if (3 <? n)%nat
             then lex_limit (default None (args !! 4%nat)) (default None (args !! 5%nat))
             else inr (0, int64_max)) with
      | inl e => mret e
      | inr (offset, limitCnt) =>
          elements ← go_lift (ZSet.Range z r.1 r.2 offset limitCnt desc);
          mret (lex_reply elements)
      end).

Definition execZRangeByLex args : GoM S Reply := zrangebylex 1 2 false args.

Definition execZRevRangeByLex args : GoM S Reply := zrangebylex 2 1 true args.

(** Nothing is written to the log. *)
Definition execZRemRangeByLex args : GoM S Reply :=
  if negb (length args =? 3)%nat then mret (MakeErrReply "ERR wrong number of arguments for 'zremrangebylex' command")
  else
    a0 ← arg args 0;
    a1 ← arg args 1;
    a2 ← arg args 2;
    with_zset (str a0) (IntReply 0) (λ z,
      let? r := lex_range a1 a2 in
      x ← go_lift (ZSet.RemoveRange z r.1 r.2);
      _ ← mutate (str a0) (DZSet x.1);
      mret (IntReply x.2)).

Definition execZScan args : GoM S Reply :=
  let? o := match_options (drop 2 args) 10 "*" in
  a0 ← arg args 0;
  with_zset (str a0) EmptyMultiBulkReply (λ z,
    a1 ← arg args 1;
    match Atoi (str a1) with
    | inl _ => mret (MakeErrReply "ERR invalid cursor")
    | inr cursor =>
        ord ← Order;
        let '(keysReply, nextCursor) := ZSet.ZSetScan CompilePattern FormatFloat10 ord z cursor o.1 o.2 in
        mret (scan_reply keysReply nextCursor)
    end).

(** ** Undo logs *)

Definition rollback_zfield (key : string) (z : SortedSet) (field : string) : CmdLine :=
  match ZSet.Get z field with
  | None => ToCmdLine ["ZREM"; key; field]
  | Some elem => ToCmdLine ["ZADD"; key; FormatFloat (Score elem); field]
  end.

(** A value of another type has no undo log. *)
Definition rollbackZSetFields (key : string) (fields : list string) : GoM S (list CmdLine) :=
  o ← getAsSortedSet key;
  mret (match o with
        | inl _ => []
        | inr None => [ToCmdLine ["DEL"; key]]
        | inr (Some z) => rollback_zfield key z <$> fields
        end).

(** The members of the pairs of a score and a member. *)
Fixpoint pair_members (l : list bytes) : list string :=
  match l with _ :: member :: l' => str member :: pair_members l' | _ => [] end.

Definition undoZAdd args : GoM S (list CmdLine) :=
  a0 ← arg args 0;
  rollbackZSetFields (str a0) (pair_members (drop 1 args)).

Definition undoZRem args : GoM S (list CmdLine) :=
  a0 ← arg args 0;
  rollbackZSetFields (str a0) (str <$> drop 1 args).

Definition undoZIncr args : GoM S (list CmdLine) :=
  a0 ← arg args 0;
  a2 ← arg args 2;
  rollbackZSetFields (str a0) [str a2].
End commands.

(** ** Refinement *)

#[export] Hint Resolve GetRank_post RangeByRank_post RangeCount_post zset_Range_post PopMin_post Remove_post RemoveRange_post
  RemoveByRank_post Make_shape : refines.

Section refinement.
Context `{Env}.
Implicit Types (args : list bytes).

Abbreviation some_shaped := (from_option zset_shaped True).

Lemma refines_getAsSortedSet key : refines (val_ok some_shaped) (getAsSortedSet key) (getAsSortedSet key).
Proof. unfold getAsSortedSet. refines_auto. Qed.
#[local] Hint Resolve refines_getAsSortedSet : refines.

Lemma refines_getOrInitSortedSet key : refines (val_ok zset_shaped) (getOrInitSortedSet key) (getOrInitSortedSet key).
Proof.
  unfold getOrInitSortedSet. eapply refines_early_err; [apply refines_getAsSortedSet|]. intros [z|] Hz; refines_auto.
Qed.
#[local] Hint Resolve refines_getOrInitSortedSet : refines.

Lemma refines_with_zset key missing f f' :
  (∀ z, zset_shaped z → refines any (f z) (f' z)) → refines any (with_zset key missing f) (with_zset key missing f').
Proof.
  intros Hf. unfold with_zset. eapply refines_early; [apply refines_getAsSortedSet|]. intros [z|] Hz; [by apply Hf|by apply refines_ret].
Qed.

Lemma refines_zadd key z member score : zset_shaped z →
  refines (λ x, zset_shaped x.1) (zadd key z member score) (zadd key z member score).
Proof.
  intros Hz. unfold zadd. apply (refines_bind any); [apply refines_Rand|]. intros r _.
  destruct (Add_shape z member score r Hz) as (z' & b & -> & Hz').
  eapply refines_bind; [by apply (refines_lift (λ x, zset_shaped x.1))|]. intros x Hx.
  apply (refines_bind any); [by apply refines_mutate|]. intros _ _. by apply refines_ret.
Qed.
#[local] Hint Resolve refines_zadd : refines.

Lemma refines_zadd_loop key es z i : zset_shaped z → refines any (zadd_loop key es z i) (zadd_loop key es z i).
Proof.
  revert z i. induction es as [|e es IH]; intros z i Hz; cbn [zadd_loop]; [by apply refines_ret|].
  eapply refines_bind; [by apply refines_zadd|]. intros x Hx. by apply IH.
Qed.
#[local] Hint Resolve refines_zadd_loop : refines.

Lemma refines_zrem_loop key fs z i : zset_shaped z → refines any (zrem_loop key fs z i) (zrem_loop key fs z i).
Proof.
  revert z i. induction fs as [|f fs IH]; intros z i Hz; cbn [zrem_loop]; [by apply refines_ret|].
  eapply refines_bind; [apply refines_lift; by apply Remove_post|]. intros x Hx.
  apply (refines_bind any); [by apply refines_mutate|]. intros _ _. by apply IH.
Qed.
#[local] Hint Resolve refines_zrem_loop : refines.

Lemma refines_log_removed n name args : refines any (log_removed n name args) (log_removed n name args).
Proof. unfold log_removed. refines_auto. Qed.
#[local] Hint Resolve refines_log_removed : refines.

Lemma border_post (p : outcome (string + Border)) : post any p → refines (val_ok any) (border p) (border p).
Proof.
  intros Hp. unfold border. eapply refines_bind; [by apply refines_lift|]. intros [e|b] _; by apply refines_ret.
Qed.

Lemma refines_score_range a b : refines (val_ok any) (score_range a b) (score_range a b).
Proof.
  assert (∀ s, post any (ParseScoreBorder ParseFloat s)) as Hp by (intros s; unfold ParseScoreBorder; post_auto).
  unfold score_range. eapply refines_early_err; [apply border_post, Hp|]. intros min _.
  eapply refines_early_err; [apply border_post, Hp|]. intros max _. by apply refines_ret.
Qed.
#[local] Hint Resolve refines_score_range : refines.

Lemma refines_lex_range a b : refines (val_ok any) (lex_range a b) (lex_range a b).
Proof.
  assert (∀ s, post any (ParseLexBorder s)) as Hp by (intros s; unfold ParseLexBorder; post_auto).
  unfold lex_range. eapply refines_early_err; [apply border_post, Hp|]. intros min _.
  eapply refines_early_err; [apply border_post, Hp|]. intros max _. by apply refines_ret.
Qed.
#[local] Hint Resolve refines_lex_range : refines.

Ltac zset_auto := repeat first [apply refines_with_zset; intros ? ? | refines_step]; try done.

Lemma refines_execZAdd args : refines any (execZAdd args) (execZAdd args).
Proof. unfold execZAdd. zset_auto. Qed.

Lemma refines_execZScore args : refines any (execZScore args) (execZScore args).
Proof. unfold execZScore. zset_auto. Qed.

Lemma refines_rank_reply args desc : refines any (rank_reply args desc) (rank_reply args desc).
Proof. unfold rank_reply. zset_auto. Qed.

Lemma refines_execZRank args : refines any (execZRank args) (execZRank args).
Proof. apply refines_rank_reply. Qed.

Lemma refines_execZRevRank args : refines any (execZRevRank args) (execZRevRank args).
Proof. apply refines_rank_reply. Qed.

Lemma refines_execZCard args : refines any (execZCard args) (execZCard args).
Proof. unfold execZCard. zset_auto. Qed.

Lemma refines_zrange name t desc args : refines any (zrange name t desc args) (zrange name t desc args).
Proof. unfold zrange, range0. zset_auto. Qed.

Lemma refines_execZRange args : refines any (execZRange args) (execZRange args).
Proof. apply refines_zrange. Qed.

Lemma refines_execZRevRange args : refines any (execZRevRange args) (execZRevRange args).
Proof. apply refines_zrange. Qed.

Lemma refines_execZCount args : refines any (execZCount args) (execZCount args).
Proof. unfold execZCount. zset_auto. Qed.

Lemma refines_zrangebyscore i j desc args : refines any (zrangebyscore i j desc args) (zrangebyscore i j desc args).
Proof. unfold zrangebyscore, rangeByScore0. zset_auto. Qed.

Lemma refines_execZRangeByScore args : refines any (execZRangeByScore args) (execZRangeByScore args).
Proof. apply refines_zrangebyscore. Qed.

Lemma refines_execZRevRangeByScore args : refines any (execZRevRangeByScore args) (execZRevRangeByScore args).
Proof. apply refines_zrangebyscore. Qed.

Lemma refines_execZRemRangeByScore args : refines any (execZRemRangeByScore args) (execZRemRangeByScore args).
Proof. unfold execZRemRangeByScore. zset_auto. Qed.

Lemma refines_execZRemRangeByRank args : refines any (execZRemRangeByRank args) (execZRemRangeByRank args).
Proof. unfold execZRemRangeByRank. zset_auto. Qed.

Lemma refines_execZPopMin args : refines any (execZPopMin args) (execZPopMin args).
Proof. unfold execZPopMin. zset_auto. Qed.

Lemma refines_execZRem args : refines any (execZRem args) (execZRem args).
Proof. unfold execZRem. zset_auto. Qed.

Lemma refines_execZIncrBy args : refines any (execZIncrBy args) (execZIncrBy args).
Proof. unfold execZIncrBy. zset_auto. Qed.

Lemma refines_execZLexCount args : refines any (execZLexCount args) (execZLexCount args).
Proof. unfold execZLexCount. zset_auto. Qed.

Lemma refines_zrangebylex i j desc args : refines any (zrangebylex i j desc args) (zrangebylex i j desc args).
Proof. unfold zrangebylex. zset_auto. Qed.

Lemma refines_execZRangeByLex args : refines any (execZRangeByLex args) (execZRangeByLex args).
Proof. apply refines_zrangebylex. Qed.

Lemma refines_execZRevRangeByLex args : refines any (execZRevRangeByLex args) (execZRevRangeByLex args).
Proof. apply refines_zrangebylex. Qed.

Lemma refines_execZRemRangeByLex args : refines any (execZRemRangeByLex args) (execZRemRangeByLex args).
Proof. unfold execZRemRangeByLex. zset_auto. Qed.

Lemma refines_execZScan args : refines any (execZScan args) (execZScan args).
Proof. unfold execZScan. eapply refines_early; [apply refines_match_options|]. intros o _. zset_auto. Qed.

Lemma refines_rollbackZSetFields key fields :
  refines log_ok (rollbackZSetFields key fields) (rollbackZSetFields key fields).
Proof.
  unfold rollbackZSetFields. eapply refines_bind; [apply refines_getAsSortedSet|]. intros [e|[z|]] _; apply refines_ret;
    [constructor| |by repeat constructor].
  apply log_fmap. intros f. unfold rollback_zfield. by case_match.
Qed.
#[local] Hint Resolve refines_rollbackZSetFields : refines.

Lemma refines_undoZAdd args : refines log_ok (undoZAdd args) (undoZAdd args).
Proof. unfold undoZAdd. refines_auto. Qed.

Lemma refines_undoZRem args : refines log_ok (undoZRem args) (undoZRem args).
Proof. unfold undoZRem. refines_auto. Qed.

Lemma refines_undoZIncr args : refines log_ok (undoZIncr args) (undoZIncr args).
Proof. unfold undoZIncr. refines_auto. Qed.
End refinement.
