(* ===== verification/GeoCmds.v ===== *)
(** * database/geo.go: the geo commands

    Positions are scores of a sorted set.  GEORADIUS and GEORADIUSBYMEMBER may run without
    end (a negative radius), so they are not entries of the table of commands that always
    answer; they are here with that behaviour. *)

From Stdlib Require Import ZArith Lia Ascii String.
From Stdlib Require Import Floats.SpecFloat.
From stdpp Require Import base gmap strings numbers list.
From S2P Require Import Prelude GoStd Dict QuickList SetDS Protocol Border GeoHash SkipList SkipShape SortedSet ZSetShape DB Marshal StringCmds HashCmds ZSetCmds.
Import GeoHash.

Local Open Scope string_scope.
Local Open Scope list_scope.
Local Open Scope Z_scope.
Local Open Scope go_scope.

Section commands.
Context `{Env} {S : Type} `{Store S}.
Implicit Types (args : list bytes).

Definition geo_arity (name : string) : Reply := MakeErrReply ("ERR wrong number of arguments for '" +:+ name +:+ "' command").

(** The triples of longitude, latitude and member. *)
Fixpoint parse_positions (l : list bytes) : Reply + list Element :=
  match l with
  | lngStr :: latStr :: member :: l' =>
      match ParseFloat (str lngStr) with
      | None => inl err_float_value
      | Some lng =>
          match ParseFloat (str latStr) with
          | None => inl err_float_value
          | Some lat =>
              if SFltb lat (f64 (-90)) || SFltb (f64 90) lat || SFltb lng (f64 (-180)) || SFltb (f64 180) lng
              then inl (MakeErrReply ("ERR invalid longitude,latitude pair " +:+ str latStr +:+ "," +:+ str lngStr))
              else
                match parse_positions l' with
                | inl e => inl e
                | inr elements => inr (mkElement (str member) (f64 (Encode lat lng)) :: elements)
                end
          end
      end
  | _ => inr []
  end.

Definition execGeoAdd args : GoM S Reply :=
  if (length args <? 4)%nat || negb (length args mod 3 =? 1)%nat then mret (geo_arity "geoadd")
  else
    a0 ← arg args 0;
    let key := str a0 in
    match parse_positions (drop 1 args) with
    | inl e => mret e
    | inr elements =>
        let? z := getOrInitSortedSet key in
        i ← zadd_loop key elements z 0;
        _ ← addAof (ToCmdLine3 "geoadd" args);
        mret (IntReply i)
    end.

Fixpoint triple_members (l : list bytes) : list string :=
  match l with _ :: _ :: m :: l' => str m :: triple_members l' | _ => [] end.

Definition undoGeoAdd args : GoM S (list CmdLine) :=
  a0 ← arg args 0;
  rollbackZSetFields (str a0) (triple_members (drop 1 args)).

(** [geohash.Decode(uint64(elem.Score))]: latitude and longitude. *)
Definition position (e : Element) : float64 * float64 := Decode (float_uint64 (Score e)).

Definition execGeoPos args : GoM S Reply :=
  if (length args <? 1)%nat then mret (geo_arity "geopos")
  else
    a0 ← arg args 0;
    with_zset (str a0) NullBulkReply (λ z,
      mret (MultiRawReply ((λ m, match ZSet.Get z (str m) with
                                 | None => EmptyMultiBulkReply
                                 | Some elem =>
                                     let '(lat, lng) := position elem in
                                     MultiBulkReply [Some (FormatFloat lng); Some (FormatFloat lat)]
                                 end) <$> drop 1 args))).

Definition distance (p q : float64 * float64) : float64 :=
  Distance math_Sin math_Cos math_Asin math_Sqrt math_Pow p.1 p.2 q.1 q.2.

Definition err_unit : Reply := MakeErrReply "ERR unsupported unit provided. please use m, km".

Definition execGeoDist args : GoM S Reply :=
  if negb (length args =? 3)%nat && negb (length args =? 4)%nat then mret (geo_arity "geodist")
  else
    a0 ← arg args 0;
    with_zset (str a0) NullBulkReply (λ z,
      a1 ← arg args 1;
      a2 ← arg args 2;
      match ZSet.Get z (str a1) with
      | None => mret NullBulkReply
      | Some e1 =>
          match ZSet.Get z (str a2) with
          | None => mret NullBulkReply
          | Some e2 =>
              let unit := match args !! 3%nat with Some u => ToLower (str u) | None => "m" end in
              let dis := distance (position e1) (position e2) in
              if String.eqb unit "m" then mret (BulkReply (Some (FormatFloat dis)))
              else if String.eqb unit "km" then mret (BulkReply (Some (FormatFloat (fdiv dis (f64 1000)))))
              else mret err_unit
          end
      end).

Definition execGeoHash args : GoM S Reply :=
  if (length args <? 1)%nat then mret (geo_arity "geohash")
  else
    a0 ← arg args 0;
    with_zset (str a0) NullBulkReply (λ z,
      mret (MultiBulkReply ((λ m, match ZSet.Get z (str m) with
                                  | None => Some (ToBytes EmptyMultiBulkReply)
                                  | Some elem => Some (ToString (FromInt (float_uint64 (Score elem))))
                                  end) <$> drop 1 args))).

(** ** Radius *)

Fixpoint areas_loop (z : SortedSet) (areas : list (Z * Z)) (members : list bytes) : outcome (list bytes) :=
  match areas with
  | [] => Ret members
  | area :: areas' =>
      let lower := ScoreB (mkScoreBorder 0 (f64 area.1) false) in
      let upper := ScoreB (mkScoreBorder 0 (f64 area.2) false) in
      elements ← ZSet.Range z lower upper 0 (-1) true;
      areas_loop z areas' (members ++ ((λ e, Some (Member e)) <$> elements))
  end.

Definition geoRadius0 (z : SortedSet) (lat lng radius : float64) : outcome Reply :=
  areas ← GetNeighbours lat lng radius;
  members ← areas_loop z areas [];
  Ret (MultiBulkReply members).

(** The radius in metres. *)
Definition radius_in (unit : string) (radius : float64) : option float64 :=
  if String.eqb unit "m" then Some radius
  else if String.eqb unit "km" then Some (fmul radius (f64 1000)) else None.

Definition execGeoRadius args : GoM S Reply :=
  if (length args <? 5)%nat then mret (geo_arity "georadius")
  else
    a0 ← arg args 0;
    with_zset (str a0) NullBulkReply (λ z,
      a1 ← arg args 1; a2 ← arg args 2; a3 ← arg args 3; a4 ← arg args 4;
      match ParseFloat (str a1) with
      | None => mret err_float_value
      | Some lng =>
          match ParseFloat (str a2) with
          | None => mret err_float_value
          | Some lat =>
              match ParseFloat (str a3) with
              | None => mret err_float_value
              | Some radius =>
                  match radius_in (ToLower (str a4)) radius with
                  | None => mret err_unit
                  | Some radius => go_lift (geoRadius0 z lat lng radius)
                  end
              end
          end
      end).

Definition execGeoRadiusByMember args : GoM S Reply :=
  if (length args <? 3)%nat then mret (geo_arity "georadiusbymember")
  else
    a0 ← arg args 0;
    with_zset (str a0) NullBulkReply (λ z,
      a1 ← arg args 1; a2 ← arg args 2;
      match ZSet.Get z (str a1) with
      | None => mret NullBulkReply
      | Some elem =>
          let '(lat, lng) := position elem in
          match ParseFloat (str a2) with
          | None => mret err_float_value
          | Some radius =>
              match match args !! 3%nat with None => Some radius | Some u => radius_in (ToLower (str u)) radius end with
              | None => mret err_unit
              | Some radius => go_lift (geoRadius0 z lat lng radius)
              end
          end
      end).
End commands.

(** ** Refinement *)

Section refinement.
Context `{Env}.

#[local] Hint Resolve refines_getOrInitSortedSet refines_zadd_loop refines_rollbackZSetFields : refines.

Ltac geo_auto := repeat first [apply refines_with_zset; intros ? ? | refines_step]; try done.

Lemma refines_execGeoAdd args : refines any (execGeoAdd args) (execGeoAdd args).
Proof. unfold execGeoAdd. geo_auto. Qed.

Lemma refines_execGeoPos args : refines any (execGeoPos args) (execGeoPos args).
Proof. unfold execGeoPos. geo_auto. Qed.

Lemma refines_execGeoDist args : refines any (execGeoDist args) (execGeoDist args).
Proof. unfold execGeoDist. geo_auto. Qed.

Lemma refines_execGeoHash args : refines any (execGeoHash args) (execGeoHash args).
Proof. unfold execGeoHash. geo_auto. Qed.

Lemma refines_undoGeoAdd args : refines log_ok (undoGeoAdd args) (undoGeoAdd args).
Proof. unfold undoGeoAdd. refines_auto. Qed.
End refinement.
