(* ===== verification/ClusterHelper.v ===== *)
(** * database/cluster_helper.go: commands the cluster sends to its nodes

    DUMPKEY writes a value as two command lines; RENAMETO, RENAMENXTO and COPYTO parse such
    lines and execute them under the lock of their own key, so they take the executor as an
    argument.  A dump that the parser does not finish reading makes them wait for ever, so
    they are not entries of the table of commands that always answer. *)

From Stdlib Require Import ZArith Lia Ascii String.
From stdpp Require Import base gmap strings numbers list.
From S2P Require Import Prelude GoStd Dict QuickList SetDS Protocol Parser Border SortedSet ZSetShape DB Marshal StringCmds.

Local Open Scope string_scope.
Local Open Scope list_scope.
Local Open Scope Z_scope.
Local Open Scope go_scope.

(** [err.Error()]. *)
Definition read_err_text (e : ReadErr) : string :=
  match e with EOF => "EOF" | ErrUnexpectedEOF => "unexpected EOF" | ErrText msg => msg end.

Section commands.
Context `{Env} {S : Type} `{Store S}.
Implicit Types (args : list bytes).

Fixpoint exist_in_loop (keys : list string) : GoM S (list bytes) :=
  match keys with
  | [] => mret []
  | key :: keys' =>
      entity ← GetEntity key;
      rest ← exist_in_loop keys';
      mret (match entity with Some _ => Some key :: rest | None => rest end)
  end.

Definition execExistIn args : GoM S Reply :=
  result ← exist_in_loop (str <$> args);
  mret (match result with [] => EmptyMultiBulkReply | _ => MultiBulkReply result end).

Definition execDumpKey args : GoM S Reply :=
  a0 ← arg args 0;
  let key := str a0 in
  entity ← GetEntity key;
  match entity with
  | None => mret EmptyMultiBulkReply
  | Some e =>
      dumpCmd ← EntityToCmd key e;
      ttlCmd ← toTTLCmd key;
      mret (MultiBulkReply [Some (ToBytes (MultiBulkReply dumpCmd)); Some (ToBytes (MultiBulkReply ttlCmd))])
  end.

Definition execRenameFrom args : GoM S Reply :=
  a0 ← arg args 0;
  _ ← Remove (str a0);
  mret OkReply.

Definition execCopyFrom args : GoM S Reply := mret OkReply.

(** [Args[1] = key] of a parsed line, with its early returns. *)
Definition parse_dump (what : string) (data key : bytes) : GoM S (Reply + CmdLine) :=
  r ← go_lift (ParseOne (str data));
  match r with
  | inl e => mret (inl (MakeErrReply ("illegal " +:+ what +:+ " cmd: " +:+ read_err_text e)))
  | inr (MultiBulkReply Args) =>
      if (1 <? length Args)%nat then mret (inr (<[1%nat := key]> Args)) else go_panic "index out of range"
  | inr _ => mret (inl (MakeErrReply (what +:+ " cmd is not multi bulk reply")))
  end.

Section nested.
Context (execWithLock : CmdLine → GoM S Reply).

Definition execRenameTo args : GoM S Reply :=
  key ← arg args 0;
  a1 ← arg args 1;
  let? dumpCmd := parse_dump "dump" a1 key in
  a2 ← arg args 2;
  let? ttlCmd := parse_dump "ttl" a2 key in
  _ ← Remove (str key);
  dumpResult ← execWithLock dumpCmd;
  isErr ← go_lift (IsErrorReply dumpResult);
  if (isErr : bool) then mret dumpResult
  else
    ttlResult ← execWithLock ttlCmd;
    isErr ← go_lift (IsErrorReply ttlResult);
    if (isErr : bool) then mret ttlResult else mret OkReply.

Definition execCopyTo args : GoM S Reply := execRenameTo args.
End nested.
End commands.

(** ** Refinement *)

Section refinement.
Context `{Env}.

#[local] Hint Resolve refines_EntityToCmd : refines.

Lemma refines_exist_in_loop keys : refines any (exist_in_loop keys) (exist_in_loop keys).
Proof. induction keys as [|key keys IH]; cbn [exist_in_loop]; refines_auto. Qed.
#[local] Hint Resolve refines_exist_in_loop : refines.

Lemma refines_execExistIn args : refines any (execExistIn args) (execExistIn args).
Proof. unfold execExistIn. refines_auto. Qed.

Lemma refines_execDumpKey args : refines any (execDumpKey args) (execDumpKey args).
Proof.
  unfold execDumpKey. apply (refines_bind any); [apply refines_arg|]. intros a _. cbv zeta.
  eapply refines_bind; [apply refines_GetEntity|]. intros [e|] He; [|by apply refines_ret].
  eapply refines_bind; [by apply refines_EntityToCmd|]. intros dump _.
  eapply refines_bind; [apply refines_toTTLCmd|]. intros ttl _. by apply refines_ret.
Qed.

Lemma refines_execRenameFrom args : refines any (execRenameFrom args) (execRenameFrom args).
Proof. unfold execRenameFrom. refines_auto. Qed.

Lemma refines_execCopyFrom args : refines any (execCopyFrom args) (execCopyFrom args).
Proof. by apply refines_ret. Qed.
End refinement.
