(* ===== verification/Conn.v ===== *)
(** * redis/connection/conn.go: the state of a client connection

    The record keeps every field of [Connection] that commands read or write; the
    socket, its mutex and the send counter are left out.  A nil map or slice
    behaves as an empty one in all the code that uses these fields. *)

From Stdlib Require Import ZArith Lia Ascii String.
From stdpp Require Import base gmap strings numbers list.
From S2P Require Import Prelude GoStd Dict Protocol.

Local Open Scope string_scope.
Local Open Scope list_scope.
Local Open Scope Z_scope.

Module Conn.

Record Connection := mkConn {
  flags : Z;
  subs : gset string;
  password : string;
  queue : list CmdLine;
  watching : gmap string Z;
  txErrors : list Reply;
  selectedDB : Z
}.

Definition flagSlave : Z := Z.shiftl 1 0.
Definition flagMaster : Z := Z.shiftl 1 1.
Definition flagMulti : Z := Z.shiftl 1 2.

Definition set_flags (c : Connection) (f : Z) : Connection :=
  mkConn f (subs c) (password c) (queue c) (watching c) (txErrors c) (selectedDB c).

(** A new connection of the pool, [&Connection{}]. *)
Definition zero_conn : Connection := mkConn 0 ∅ "" [] ∅ [] 0.

Definition InMultiState (c : Connection) : bool := Z.land (flags c) flagMulti >? 0.

Definition SetMultiState (c : Connection) (state : bool) : Connection :=
  if negb state
  then mkConn (Z.ldiff (flags c) flagMulti) (subs c) (password c) [] ∅ (txErrors c) (selectedDB c)
  else set_flags c (Z.lor (flags c) flagMulti).

Definition GetQueuedCmdLine (c : Connection) : list CmdLine := queue c.

Definition EnqueueCmd (c : Connection) (cmdLine : CmdLine) : Connection :=
  mkConn (flags c) (subs c) (password c) (queue c ++ [cmdLine]) (watching c) (txErrors c) (selectedDB c).

Definition ClearQueuedCmds (c : Connection) : Connection :=
  mkConn (flags c) (subs c) (password c) [] (watching c) (txErrors c) (selectedDB c).

Definition AddTxError (c : Connection) (err : Reply) : Connection :=
  mkConn (flags c) (subs c) (password c) (queue c) (watching c) (txErrors c ++ [err]) (selectedDB c).

Definition GetTxErrors (c : Connection) : list Reply := txErrors c.

Definition GetWatching (c : Connection) : gmap string Z := watching c.

(** [c.GetWatching()[key] = ver]. *)
Definition watch_key (c : Connection) (key : string) (ver : Z) : Connection :=
  mkConn (flags c) (subs c) (password c) (queue c) (<[key := ver]> (watching c)) (txErrors c) (selectedDB c).

Definition SelectDB (c : Connection) (dbNum : Z) : Connection :=
  mkConn (flags c) (subs c) (password c) (queue c) (watching c) (txErrors c) dbNum.

Definition SetPassword (c : Connection) (pw : string) : Connection :=
  mkConn (flags c) (subs c) pw (queue c) (watching c) (txErrors c) (selectedDB c).

Definition Subscribe (c : Connection) (channel : string) : Connection :=
  mkConn (flags c) ({[channel]} ∪ subs c) (password c) (queue c) (watching c) (txErrors c) (selectedDB c).

Definition UnSubscribe (c : Connection) (channel : string) : Connection :=
  mkConn (flags c) (subs c ∖ {[channel]}) (password c) (queue c) (watching c) (txErrors c) (selectedDB c).

Definition SubsCount (c : Connection) : Z := Z.of_nat (size (subs c)).

(** In the order of one iteration over the map. *)
Definition GetChannels (ord : range_order) (c : Connection) : list string := ord (elements (subs c)).

Definition SetSlave (c : Connection) : Connection := set_flags c (Z.lor (flags c) flagSlave).
Definition IsSlave (c : Connection) : bool := Z.land (flags c) flagSlave >? 0.
Definition SetMaster (c : Connection) : Connection := set_flags c (Z.lor (flags c) flagMaster).
Definition IsMaster (c : Connection) : bool := Z.land (flags c) flagMaster >? 0.

(** [Close] resets the fields below and returns the object to the pool. *)
Definition Close (c : Connection) : Connection := mkConn (flags c) ∅ "" [] ∅ [] 0.

(** [NewConn] takes an object from the pool ([None]: the pool makes a new one). *)
Definition NewConn (pooled : option Connection) : Connection := default zero_conn pooled.

(** ** Facts *)

(** Flags are a [uint64]. *)
Definition conn_ok (c : Connection) : Prop := 0 ≤ flags c.

Lemma InMultiState_set c b : conn_ok c → InMultiState (SetMultiState c b) = b ∧ conn_ok (SetMultiState c b).
Proof.
  unfold InMultiState, SetMultiState, conn_ok, flagMulti. intros Hc. destruct b; cbn [negb flags set_flags].
  - assert (0 ≤ Z.lor (flags c) (Z.shiftl 1 2)) by (by apply Z.lor_nonneg).
    split; [|done]. by rewrite testbit_flag, Z.lor_spec, orb_true_r by done.
  - assert (0 ≤ Z.ldiff (flags c) (Z.shiftl 1 2)) by (apply Z.ldiff_nonneg; by left).
    split; [|done]. by rewrite testbit_flag, Z.ldiff_spec, andb_false_r by done.
Qed.

(** A connection object that is closed inside MULTI goes back to the pool with
    its flags: the next client that gets the object starts in MULTI state (with an
    empty queue), and so do the slave and master marks survive. *)
Theorem pooled_connection_keeps_flags (c : Connection) :
  conn_ok c →
  InMultiState (NewConn (Some (Close (SetMultiState c true)))) = true ∧
  flags (NewConn (Some (Close c))) = flags c ∧
  queue (NewConn (Some (Close c))) = [] ∧ txErrors (NewConn (Some (Close c))) = [].
Proof.
  intros Hc. split_and!; try done. exact (proj1 (InMultiState_set c true Hc)).
Qed.

Lemma pooled_connection_keeps_flags_witness :
  InMultiState (NewConn (Some (Close (SetMultiState zero_conn true)))) = true.
Proof. apply (pooled_connection_keeps_flags zero_conn). by unfold conn_ok. Defined.

End Conn.
