(* ===== verification/PubSub.v ===== *)
(** * pubsub: the hub and the subscription commands

    [hub.go] and [pubsub.go], on the concurrent dictionary, the linked list and the lock
    map.  A connection is named by a number; what is written to connections is kept as one
    sequence of (connection, bytes).  The list of a channel is one object in the
    dictionary: changing it in place is writing it back under the channel.

    The specification is one list of (channel, client) pairs in the order of the
    subscriptions. *)

From Stdlib Require Import ZArith Lia Ascii String.
From stdpp Require Import base gmap strings numbers list.
From S2P Require Import Prelude GoStd Dict QuickList LinkedList LockMap Protocol Conn.

Local Open Scope string_scope.
Local Open Scope list_scope.
Local Open Scope Z_scope.
Local Open Scope go_scope.

Module PubSub.
Import Linked.

Record Hub := mkHub { subs : ConcurrentDict (LinkedList nat); subsLocker : list RWMutex }.

Definition MakeHub : outcome Hub :=
  locks ← Lock.Make 16; Ret (mkHub (Concurrent.MakeConcurrent 4) locks).

(** The hub, the connections and what was written to them. *)
Record World := mkWorld { hub : Hub; conns : gmap nat Conn.Connection; sent : list (nat * string) }.

Definition conn_of (w : World) (c : nat) : Conn.Connection := default Conn.zero_conn (conns w !! c).

Definition upd_conn (c : nat) (f : Conn.Connection → Conn.Connection) : GoM World unit :=
  go_modify (λ w, mkWorld (hub w) (<[c := f (conn_of w c)]> (conns w)) (sent w)).

Definition upd_subs (f : ConcurrentDict (LinkedList nat) → ConcurrentDict (LinkedList nat)) : GoM World unit :=
  go_modify (λ w, mkWorld (mkHub (f (subs (hub w))) (subsLocker (hub w))) (conns w) (sent w)).

Definition set_locker (w : World) (l : list RWMutex) : World := mkWorld (mkHub (subs (hub w)) l) (conns w) (sent w).

(** A call of a method of [hub.subsLocker]. *)
Definition on_locker (f : list RWMutex → outcome (list RWMutex)) : GoM World unit := λ w,
  match f (subsLocker (hub w)) with
  | Ret l => (Ret tt, set_locker w l)
  | Panic m => (Panic m, w)
  | Block => (Block, w)
  end.

(** [client.Write(b)]. *)
Definition Write (c : nat) (b : string) : GoM World unit :=
  if String.eqb b "" then mret tt else go_modify (λ w, mkWorld (hub w) (conns w) (sent w ++ [(c, b)])).

Definition _subscribe : string := "subscribe".
Definition _unsubscribe : string := "unsubscribe".
Definition messageBytes : bytes := Some "message".
Definition LF : string := String (ascii_of_nat 10) EmptyString.
Definition unSubscribeNothing : string :=
  "*3" +:+ CRLF +:+ "$11" +:+ CRLF +:+ "unsubscribe" +:+ CRLF +:+ "$-1" +:+ LF +:+ ":0" +:+ CRLF.

Definition makeMsg (t channel : string) (code : Z) : string :=
  "*3" +:+ CRLF +:+ "$" +:+ FormatInt (Z.of_nat (String.length t)) +:+ CRLF +:+ t +:+ CRLF +:+
  "$" +:+ FormatInt (Z.of_nat (String.length channel)) +:+ CRLF +:+ channel +:+ CRLF +:+
  ":" +:+ FormatInt code +:+ CRLF.

Definition subscribe0 (channel : string) (client : nat) : GoM World bool :=
  _ ← upd_conn client (λ c, Conn.Subscribe c channel);
  raw ← go_get (λ w, Concurrent.Get (subs (hub w)) channel);
  subscribers ← match raw with
                | Some l => mret l
                | None => _ ← upd_subs (λ d, (Concurrent.Put d channel empty).1); mret empty
                end;
  found ← go_lift (Contains subscribers (λ a, Nat.eqb a client));
  if (found : bool) then mret false
  else
    l ← go_lift (Add subscribers client);
    _ ← upd_subs (λ d, (Concurrent.PutIfExistsWithLock d channel l).1);
    mret true.

Definition unsubscribe0 (channel : string) (client : nat) : GoM World bool :=
  _ ← upd_conn client (λ c, Conn.UnSubscribe c channel);
  raw ← go_get (λ w, Concurrent.Get (subs (hub w)) channel);
  match raw with
  | Some subscribers =>
      r ← go_lift (RemoveAllByVal subscribers (λ a, Nat.eqb a client));
      _ ← upd_subs (λ d, (Concurrent.PutIfExistsWithLock d channel r.1).1);
      _ ← (if Len r.1 =? 0 then upd_subs (λ d, (Concurrent.Remove d channel).1) else mret tt);
      mret true
  | None => mret false
  end.

(** [hub.subsLocker.Locks(channels...); defer hub.subsLocker.UnLocks(channels...); m]. *)
Definition with_channels {A} (channels : list string) (m : GoM World A) : GoM World A :=
  _ ← on_locker (λ l, Lock.Locks_ l channels);
  go_defer (on_locker (λ l, Lock.UnLocks l channels)) m.

Definition Subscribe (c : nat) (args : list bytes) : GoM World Reply :=
  let channels := str <$> args in
  with_channels channels (
    _ ← go_for channels (λ channel,
      new ← subscribe0 channel c;
      if (new : bool) then n ← go_get (λ w, Conn.SubsCount (conn_of w c)); Write c (makeMsg _subscribe channel n) else mret tt);
    mret NoReply).

(** [ord] is the order of the iteration over the channels of the connection. *)
Definition UnsubscribeAll (ord : range_order) (c : nat) : GoM World unit :=
  channels ← go_get (λ w, Conn.GetChannels ord (conn_of w c));
  with_channels channels (go_for channels (λ channel, _ ← unsubscribe0 channel c; mret tt)).

Definition UnSubscribe (ord : range_order) (c : nat) (args : list bytes) : GoM World Reply :=
  channels ← (if (0 <? length args)%nat then mret (str <$> args) else go_get (λ w, Conn.GetChannels ord (conn_of w c)));
  with_channels channels (
    if (length channels =? 0)%nat then _ ← Write c unSubscribeNothing; mret NoReply
    else
      _ ← go_for channels (λ channel,
        done ← unsubscribe0 channel c;
        if (done : bool) then n ← go_get (λ w, Conn.SubsCount (conn_of w c)); Write c (makeMsg _unsubscribe channel n) else mret tt);
      mret NoReply).

(** [list.ForEach] with a consumer that changes the world and always continues. *)
Definition for_each (l : LinkedList nat) (consumer : nat → GoM World unit) : GoM World unit := λ w,
  match ForEach l (λ _ c w, (true, (consumer c w).2)) w with
  | Ret w' => (Ret tt, w')
  | Panic m => (Panic m, w)
  | Block => (Block, w)
  end.

Definition Publish (args : list bytes) : GoM World Reply :=
  match args with
  | [a0; message] =>
      let channel := str a0 in
      _ ← on_locker (λ l, Lock.Lock l channel);
      go_defer (on_locker (λ l, Lock.UnLock l channel)) (
        raw ← go_get (λ w, Concurrent.Get (subs (hub w)) channel);
        match raw with
        | None => mret (IntReply 0)
        | Some subscribers =>
            _ ← for_each subscribers (λ client,
              Write client (ToBytes (MultiBulkReply [messageBytes; Some channel; message])));
            mret (IntReply (Len subscribers))
        end)
  | _ => mret (ArgNumErrReply "publish")
  end.

(** [closeClient] of redis/server/std: the connection is closed first. *)
Definition closeClient (ord : range_order) (client : nat) : GoM World unit :=
  _ ← upd_conn client Conn.Close;
  UnsubscribeAll ord client.

(** ** Specification *)

(** Who subscribes to what, oldest first. *)
Abbreviation subscriptions := (list (string * nat)).
Implicit Types (S T : subscriptions).

Definition subscribers (S : subscriptions) (ch : string) : list nat := (filter (λ p, p.1 = ch) S).*2.
Definition channels (S : subscriptions) (c : nat) : gset string := list_to_set (filter (λ p, p.2 = c) S).*1.
Definition channel_count (S : subscriptions) (c : nat) : Z := Z.of_nat (base.size (channels S c)).

Definition spec_subscribe (c : nat) (out : list (nat * string)) (S : subscriptions) (ch : string) : subscriptions * list (nat * string) :=
  if bool_decide ((ch, c) ∈ S) then (S, out)
  else let S' := S ++ [(ch, c)] in (S', out ++ [(c, makeMsg _subscribe ch (channel_count S' c))]).

Definition spec_leave (S : subscriptions) (ch : string) (c : nat) : subscriptions := filter (λ p, p ≠ (ch, c)) S.

Fixpoint spec_subscribes (c : nat) (chs : list string) (r : subscriptions * list (nat * string)) :=
  match chs with [] => r | ch :: chs' => spec_subscribes c chs' (spec_subscribe c r.2 r.1 ch) end.

(** Leaving a channel is answered when the channel has a subscriber, be it another one. *)
Fixpoint spec_unsubscribes (answer : bool) (c : nat) (chs : list string) (r : subscriptions * list (nat * string)) :=
  match chs with
  | [] => r
  | ch :: chs' =>
      let S' := spec_leave r.1 ch c in
      let out := if bool_decide (subscribers r.1 ch = []) || negb answer then r.2
                 else r.2 ++ [(c, makeMsg _unsubscribe ch (channel_count S' c))] in
      spec_unsubscribes answer c chs' (S', out)
  end.

Inductive op :=
  | OSubscribe (c : nat) (args : list bytes)
  | OUnSubscribe (ord : range_order) (c : nat) (args : list bytes)
  | OUnsubscribeAll (ord : range_order) (c : nat)
  | OPublish (args : list bytes).

Definition exec (o : op) : GoM World Reply :=
  match o with
  | OSubscribe c args => Subscribe c args
  | OUnSubscribe ord c args => UnSubscribe ord c args
  | OUnsubscribeAll ord c => _ ← UnsubscribeAll ord c; mret NoReply
  | OPublish args => Publish args
  end.

Definition spec_exec (o : op) (r : subscriptions * list (nat * string)) : (subscriptions * list (nat * string)) * Reply :=
  match o with
  | OSubscribe c args => (spec_subscribes c (str <$> args) r, NoReply)
  | OUnSubscribe ord c args =>
      let chs := if (0 <? length args)%nat then str <$> args else ord (elements (channels r.1 c)) in
      (if (length chs =? 0)%nat then (r.1, r.2 ++ [(c, unSubscribeNothing)]) else spec_unsubscribes true c chs r, NoReply)
  | OUnsubscribeAll ord c => (spec_unsubscribes false c (ord (elements (channels r.1 c))) r, NoReply)
  | OPublish [a0; message] =>
      let to := subscribers r.1 (str a0) in
      ((r.1, r.2 ++ ((λ c, (c, ToBytes (MultiBulkReply [messageBytes; Some (str a0); message]))) <$> to)),
       IntReply (Z.of_nat (length to)))
  | OPublish _ => (r, ArgNumErrReply "publish")
  end.

Fixpoint run (ops : list op) : GoM World (list Reply) :=
  match ops with [] => mret [] | o :: ops' => r ← exec o; rs ← run ops'; mret (r :: rs) end.

Fixpoint spec_run (ops : list op) (r : subscriptions * list (nat * string)) : (subscriptions * list (nat * string)) * list Reply :=
  match ops with [] => (r, []) | o :: ops' => let q := spec_exec o r in let z := spec_run ops' q.1 in (z.1, q.2 :: z.2) end.

(** ** Representation *)

(** The channel's list in the dictionary holds its subscribers; a channel without
    subscribers has no entry. *)
Definition entry_ok (x : option (LinkedList nat)) (cs : list nat) : Prop :=
  match x with Some l => lists l cs ∧ cs ≠ [] | None => cs = [] end.

Record rep (w : World) (S : subscriptions) : Prop := {
  rep_dict : cd_wf (subs (hub w));
  rep_lists : ∀ ch, entry_ok (cd_map (subs (hub w)) !! ch) (subscribers S ch);
  rep_conns : ∀ c, Conn.subs (conn_of w c) = channels S c;
  rep_nodup : NoDup S
}.

Lemma elem_of_subscribers S ch c : c ∈ subscribers S ch ↔ (ch, c) ∈ S.
Proof.
  unfold subscribers. rewrite list_elem_of_fmap. setoid_rewrite list_elem_of_filter. split.
  - intros ([ch' c'] & -> & <- & H). done.
  - intros H. by exists (ch, c).
Qed.

Lemma elem_of_channels S ch c : ch ∈ channels S c ↔ (ch, c) ∈ S.
Proof.
  unfold channels. rewrite elem_of_list_to_set, list_elem_of_fmap. setoid_rewrite list_elem_of_filter. split.
  - intros ([ch' c'] & -> & <- & H). done.
  - intros H. by exists (ch, c).
Qed.

Lemma subscribers_snoc S ch c ch' : subscribers (S ++ [(ch, c)]) ch' = subscribers S ch' ++ (if bool_decide (ch = ch') then [c] else []).
Proof. unfold subscribers. rewrite filter_app, fmap_app. f_equal. rewrite filter_cons, filter_nil. simpl. by repeat case_decide; case_bool_decide. Qed.

Lemma subscribers_leave S ch c ch' :
  subscribers (spec_leave S ch c) ch' = if bool_decide (ch = ch') then filter (λ x, Nat.eqb x c = false) (subscribers S ch') else subscribers S ch'.
Proof.
  unfold subscribers, spec_leave. induction S as [|[a b] S IH]; [by case_bool_decide|].
  rewrite filter_cons. destruct (decide (a = ch')) as [->|Ha].
  - rewrite (filter_cons_True _ (ch', b)) by done. rewrite fmap_cons, filter_cons. simpl.
    destruct (decide ((ch', b) ≠ (ch, c))) as [Hp|Hp].
    + rewrite filter_cons_True, fmap_cons, IH by done. case_bool_decide as Hc; [|done]. subst.
      rewrite decide_True; [done|]. apply Nat.eqb_neq. congruence.
    + apply dec_stable in Hp. injection Hp as -> ->. rewrite IH, bool_decide_eq_true_2 by done.
      rewrite decide_False; [done|]. by rewrite Nat.eqb_refl.
  - rewrite (filter_cons_False _ (a, b)) by done. rewrite <-IH.
    destruct (decide _); [by rewrite filter_cons_False|done].
Qed.

Lemma channels_snoc S ch c c' : channels (S ++ [(ch, c)]) c' = if bool_decide (c = c') then {[ch]} ∪ channels S c' else channels S c'.
Proof.
  apply set_eq. intros x. rewrite elem_of_channels, elem_of_app, list_elem_of_singleton.
  case_bool_decide; rewrite ?elem_of_union, ?elem_of_singleton, elem_of_channels; naive_solver.
Qed.

Lemma channels_leave S ch c c' : channels (spec_leave S ch c) c' = if bool_decide (c = c') then channels S c' ∖ {[ch]} else channels S c'.
Proof.
  apply set_eq. intros x. rewrite elem_of_channels. unfold spec_leave. rewrite list_elem_of_filter.
  case_bool_decide; rewrite ?elem_of_difference, ?elem_of_singleton, elem_of_channels; naive_solver.
Qed.


(** ** One channel *)

Definition locker (w : World) : list RWMutex := subsLocker (hub w).

Lemma conn_of_insert h w s c x c' : conn_of (mkWorld h (<[c := x]> (conns w)) s) c' = if bool_decide (c = c') then x else conn_of w c'.
Proof. unfold conn_of. simpl. case_bool_decide; subst; [by rewrite lookup_insert_eq|by rewrite lookup_insert_ne]. Qed.

Lemma existsb_eqb (l : list nat) c : existsb (λ a, Nat.eqb a c) l = bool_decide (c ∈ l).
Proof.
  induction l as [|x l IH]; [done|]. simpl. rewrite IH. destruct (Nat.eqb_spec x c) as [->|Hne]; simpl.
  - symmetry. apply bool_decide_eq_true_2. left.
  - apply bool_decide_ext. rewrite elem_of_cons. naive_solver.
Qed.

Lemma Contains_lists (l : LinkedList nat) cs f : lists l cs → Contains l f = Ret (existsb f cs).
Proof. intros (ns & Hr & <-). by apply Contains_rep. Qed.

Lemma Add_lists (l : LinkedList nat) cs x : lists l cs → ∃ l', Add l x = Ret l' ∧ lists l' (cs ++ [x]).
Proof. intros (ns & Hr & <-). destruct (Add_rep l ns x Hr) as (l' & -> & Hr'). exists l'. split; [done|]. eexists. split; [done|]. by rewrite fmap_app. Qed.

Lemma Len_lists (l : LinkedList nat) cs : lists l cs → Len l = Z.of_nat (length cs).
Proof. intros (ns & Hr & <-). unfold Len. by rewrite (lr_size _ _ Hr), length_fmap. Qed.

Lemma RemoveAll_lists (l : LinkedList nat) cs f : lists l cs → cs ≠ [] →
  ∃ l' n, RemoveAllByVal l f = Ret (l', n) ∧ lists l' (filter (λ x, f x = false) cs).
Proof.
  intros Hl Hne. pose proof (RemoveAll_agrees l cs f Hl ltac:(by destruct cs)) as Ha. simpl in Ha.
  rewrite bool_decide_eq_false_2 in Ha by done. destruct (RemoveAllByVal l f) as [[l' n]| |]; try done.
  destruct Ha as (vs & Hv & E). injection E as <- _. eauto.
Qed.

(** The entry of one channel changes. *)
Lemma rep_entry w S T ch (d : ConcurrentDict (LinkedList nat)) x cns out :
  rep w S → cd_wf d → cd_map d = partial_alter (λ _, x) ch (cd_map (subs (hub w))) → entry_ok x (subscribers T ch) →
  (∀ ch', ch' ≠ ch → subscribers T ch' = subscribers S ch') → NoDup T →
  (∀ c, Conn.subs (conn_of (mkWorld (hub w) cns out) c) = channels T c) →
  rep (mkWorld (mkHub d (locker w)) cns out) T.
Proof.
  intros Hr Hd Hm Hx Ho Hn Hc. split; simpl; [done| |exact Hc|done]. intros ch'. rewrite Hm.
  destruct (decide (ch' = ch)) as [->|Hne]; [by rewrite lookup_partial_alter_eq|].
  rewrite lookup_partial_alter_ne, Ho by done. apply Hr.
Qed.

Lemma insert_alter {A} (m : gmap string A) k x : <[k := x]> m = partial_alter (λ _, Some x) k m.
Proof. done. Qed.

Lemma delete_alter {A} (m : gmap string A) k : delete k m = partial_alter (λ _, None) k m.
Proof. done. Qed.

Lemma insert_insert_alter {A} (m : gmap string A) k x y : <[k := x]> (<[k := y]> m) = partial_alter (λ _, Some x) k m.
Proof. by rewrite insert_insert_eq. Qed.

(** The connection remembers the channel. *)
Lemma conns_snoc w S c ch : rep w S → (ch, c) ∉ S → ∀ c',
  Conn.subs (conn_of (mkWorld (hub w) (<[c := Conn.Subscribe (conn_of w c) ch]> (conns w)) (sent w)) c') = channels (S ++ [(ch, c)]) c'.
Proof.
  intros Hr Hin c'. rewrite conn_of_insert, channels_snoc. case_bool_decide; subst; simpl; by rewrite (rep_conns _ _ Hr).
Qed.

Lemma subscribe0_spec w S ch c : rep w S →
  ∃ w', subscribe0 ch c w = (Ret (negb (bool_decide ((ch, c) ∈ S))), w') ∧
    rep w' (if bool_decide ((ch, c) ∈ S) then S else S ++ [(ch, c)]) ∧ locker w' = locker w ∧ sent w' = sent w.
Proof.
  intros Hr. pose proof (rep_lists _ _ Hr ch) as He. unfold subscribe0, upd_conn, upd_subs.
  unfold mbind, gom_bind, go_modify, go_get. simpl. rewrite cd_Get by apply Hr.
  destruct (cd_map (subs (hub w)) !! ch) as [l|] eqn:El; simpl in *.
  - destruct He as [Hl Hne]. unfold go_lift. rewrite (Contains_lists _ _ _ Hl), existsb_eqb.
    rewrite (bool_decide_ext _ _ (elem_of_subscribers S ch c)). case_bool_decide as Hin; simpl.
    + eexists. split; [done|]. split; [|done]. split; simpl; [apply Hr|apply Hr| |apply Hr].
      intros c'. rewrite conn_of_insert. case_bool_decide; subst; [|apply Hr]. simpl. rewrite (rep_conns _ _ Hr).
      apply elem_of_channels in Hin. set_solver.
    + destruct (Add_lists _ _ c Hl) as (l' & -> & Hl'). simpl. eexists. split; [done|]. split; [|done].
      destruct (cd_PutIfExists (subs (hub w)) ch l') as (Hw & Hm & _); [apply Hr|]. rewrite El in Hm. simpl in Hm.
      eapply rep_entry; [done|exact Hw|etransitivity; [exact Hm|apply insert_alter]|..].
      * rewrite subscribers_snoc, bool_decide_eq_true_2 by done. split; [done|]. by destruct (subscribers S ch).
      * intros ch' Hne'. rewrite subscribers_snoc, bool_decide_eq_false_2 by done. by rewrite app_nil_r.
      * apply NoDup_app. split_and!; [apply Hr| |apply NoDup_singleton]. intros x Hx Hy. apply list_elem_of_singleton in Hy as ->. done.
      * by apply conns_snoc.
  - assert ((ch, c) ∉ S) as Hin by (rewrite <-elem_of_subscribers, He; apply not_elem_of_nil).
    rewrite bool_decide_eq_false_2 by done. destruct (Add_lists _ _ c empty_lists) as (l' & E & Hl').
    cbn in E. injection E as E. rewrite E. eexists. split; [done|]. split; [|done].
    destruct (cd_Put (subs (hub w)) ch empty) as (Hw1 & Hm1 & _); [apply Hr|].
    destruct (cd_PutIfExists (Concurrent.Put (subs (hub w)) ch empty).1 ch l' Hw1) as (Hw & Hm & _).
    rewrite Hm1, lookup_insert_eq in Hm. simpl in Hm.
    eapply rep_entry; [done|exact Hw|etransitivity; [exact Hm|apply insert_insert_alter]|..].
    + rewrite subscribers_snoc, bool_decide_eq_true_2, He by done. done.
    + intros ch' Hne'. rewrite subscribers_snoc, bool_decide_eq_false_2 by done. by rewrite app_nil_r.
    + apply NoDup_app. split_and!; [apply Hr| |apply NoDup_singleton]. intros x Hx Hy. apply list_elem_of_singleton in Hy as ->. done.
    + by apply conns_snoc.
Qed.

Lemma leave_nodup S ch c : NoDup S → NoDup (spec_leave S ch c).
Proof. intros Hn. by apply NoDup_filter. Qed.

Lemma conns_leave w S c ch : rep w S → ∀ c',
  Conn.subs (conn_of (mkWorld (hub w) (<[c := Conn.UnSubscribe (conn_of w c) ch]> (conns w)) (sent w)) c') = channels (spec_leave S ch c) c'.
Proof.
  intros Hr c'. rewrite conn_of_insert, channels_leave. case_bool_decide; subst; simpl; by rewrite (rep_conns _ _ Hr).
Qed.

Lemma unsubscribe0_spec w S ch c : rep w S →
  ∃ w', unsubscribe0 ch c w = (Ret (negb (bool_decide (subscribers S ch = []))), w') ∧
    rep w' (spec_leave S ch c) ∧ locker w' = locker w ∧ sent w' = sent w.
Proof.
  intros Hr. pose proof (rep_lists _ _ Hr ch) as He. pose proof (leave_nodup S ch c (rep_nodup _ _ Hr)) as Hn.
  assert (∀ ch', ch' ≠ ch → subscribers (spec_leave S ch c) ch' = subscribers S ch') as Ho
    by (intros ch' Hne; by rewrite subscribers_leave, bool_decide_eq_false_2).
  assert (subscribers (spec_leave S ch c) ch = filter (λ x, Nat.eqb x c = false) (subscribers S ch)) as Hch
    by (by rewrite subscribers_leave, bool_decide_eq_true_2).
  unfold unsubscribe0, upd_conn, upd_subs, mbind, gom_bind, go_modify, go_get. simpl. rewrite cd_Get by apply Hr.
  destruct (cd_map (subs (hub w)) !! ch) as [l|] eqn:El; simpl in He.
  - destruct He as [Hl Hne]. destruct (RemoveAll_lists _ _ (λ a, Nat.eqb a c) Hl Hne) as (l' & n & E & Hl').
    unfold go_lift. rewrite E. cbn [fst snd]. rewrite (Len_lists _ _ Hl'), bool_decide_eq_false_2 by done.
    destruct (cd_PutIfExists (subs (hub w)) ch l') as (Hw & Hm & _); [apply Hr|]. rewrite El in Hm. simpl in Hm.
    rewrite <-Hch in *. destruct (_ =? 0) eqn:E0; unbool; simpl.
    + eexists. split; [done|]. split; [|done]. destruct (cd_Remove _ ch Hw) as (Hw2 & Hm2 & _).
      eapply rep_entry; [done|exact Hw2|etransitivity; [exact Hm2|]; rewrite Hm, delete_insert_eq; apply delete_alter|..];
        [|done|done|by apply conns_leave]. simpl. by destruct (subscribers (spec_leave S ch c) ch).
    + eexists. split; [done|]. split; [|done].
      eapply rep_entry; [done|exact Hw|etransitivity; [exact Hm|apply insert_alter]|..]; [|done|done|by apply conns_leave].
      split; [done|]. intros Heq. by rewrite Heq in E0.
  - eexists. rewrite He. split; [done|]. split; [|done]. split; simpl; [apply Hr| |by apply conns_leave|done].
    intros ch'. destruct (decide (ch' = ch)) as [->|Hne]; [|rewrite Ho by done; apply Hr]. rewrite Hch, El, He. done.
Qed.

(** ** The commands *)

Lemma Write_spec c b w : b ≠ "" → Write c b w = (Ret tt, mkWorld (hub w) (conns w) (sent w ++ [(c, b)])).
Proof. intros Hb. unfold Write. by rewrite (proj2 (String.eqb_neq b "")). Qed.

Lemma rep_sent w S out : rep w S → rep (mkWorld (hub w) (conns w) out) S.
Proof. intros [H1 H2 H3 H4]. by split. Qed.

Lemma rep_locker w S l : rep w S → rep (set_locker w l) S.
Proof. intros [H1 H2 H3 H4]. by split. Qed.

(** What a command does to the world: the subscriptions and the messages of [r], and the
    locks as they were. *)
Definition does {A} (m : GoM World A) (w : World) (a : A) (r : subscriptions * list (nat * string)) : Prop :=
  ∃ w', m w = (Ret a, w') ∧ rep w' r.1 ∧ locker w' = locker w ∧ sent w' = r.2.

Lemma does_bind {A B} (m : GoM World A) (k : A → GoM World B) w a b r r' :
  does m w a r → (∀ w', rep w' r.1 → sent w' = r.2 → does (k a) w' b r') → does (m ≫= k) w b r'.
Proof.
  intros (w1 & E & Hr & Hl & Hs) Hk. destruct (Hk w1 Hr Hs) as (w2 & E2 & Hr2 & Hl2 & Hs2). exists w2.
  erewrite bind_Ret by exact E. split; [done|]. split; [done|]. split; [congruence|done].
Qed.

Lemma does_ret {A} (a : A) w r : rep w r.1 → sent w = r.2 → does (mret a) w a r.
Proof. intros Hr Hs. by exists w. Qed.

Lemma does_get {A} (f : World → A) w r a : rep w r.1 → sent w = r.2 → f w = a → does (go_get f) w a r.
Proof. intros Hr Hs <-. by exists w. Qed.

Lemma does_Write c b w S out : rep w S → sent w = out → b ≠ "" → does (Write c b) w tt (S, out ++ [(c, b)]).
Proof.
  intros Hr Hs Hb. eexists. rewrite Write_spec by done. split; [done|]. split; [by apply rep_sent|]. simpl. by rewrite Hs.
Qed.

(** Iterating a step of the specification. *)
Lemma does_for {A} (xs : list A) (body : A → GoM World unit) (f : A → subscriptions * list (nat * string) → _) w r :
  (∀ x w' r', rep w' r'.1 → sent w' = r'.2 → does (body x) w' tt (f x r')) → rep w r.1 → sent w = r.2 →
  does (go_for xs body) w tt (foldl (λ r x, f x r) r xs).
Proof.
  intros Hb. revert w r. induction xs as [|x xs IH]; intros w r Hr Hs; [by apply does_ret|]. cbn [go_for foldl].
  eapply does_bind; [by apply Hb|]. intros w' Hr' Hs'. by apply IH.
Qed.

Lemma makeMsg_nonempty t ch n : makeMsg t ch n ≠ "".
Proof. done. Qed.

Lemma SubsCount_spec w S c : rep w S → Conn.SubsCount (conn_of w c) = channel_count S c.
Proof. intros Hr. unfold Conn.SubsCount, channel_count. by rewrite (rep_conns _ _ Hr). Qed.

Lemma subscribe_loop c chs w S out : rep w S → sent w = out →
  does (go_for chs (λ channel,
      new ← subscribe0 channel c;
      if (new : bool) then n ← go_get (λ w, Conn.SubsCount (conn_of w c)); Write c (makeMsg _subscribe channel n) else mret tt)) w tt
    (spec_subscribes c chs (S, out)).
Proof.
  intros Hr Hs. replace (spec_subscribes c chs (S, out)) with (foldl (λ r ch, spec_subscribe c r.2 r.1 ch) (S, out) chs).
  2: { clear. generalize (S, out). induction chs as [|ch chs IH]; intros r; [done|]. simpl. by rewrite IH. }
  apply (does_for _ _ (λ ch r, spec_subscribe c r.2 r.1 ch)); [|done..]. clear. intros ch w [S out] Hr Hs. simpl in *.
  eapply (does_bind _ _ _ _ _ (if bool_decide ((ch, c) ∈ S) then S else S ++ [(ch, c)], out)).
  { destruct (subscribe0_spec w S ch c Hr) as (w1 & E & Hr1 & Hl1 & Hs1). exists w1. rewrite Hs1, Hs. done. }
  unfold spec_subscribe. case_bool_decide; simpl; intros w1 Hr1 Hs1; [by apply does_ret|].
  eapply (does_bind _ _ _ _ _ (_, _)); [by apply does_get|]. intros w2 Hr2 Hs2. rewrite (SubsCount_spec _ _ _ Hr1).
  by apply does_Write.
Qed.

Lemma unsubscribe_loop (answer : bool) c chs w S out : rep w S → sent w = out →
  does (go_for chs (λ channel,
      done ← unsubscribe0 channel c;
      if (done : bool) && answer then n ← go_get (λ w, Conn.SubsCount (conn_of w c)); Write c (makeMsg _unsubscribe channel n) else mret tt)) w tt
    (spec_unsubscribes answer c chs (S, out)).
Proof.
  intros Hr Hs. set (f := λ ch (r : subscriptions * list (nat * string)), (spec_leave r.1 ch c,
    if bool_decide (subscribers r.1 ch = []) || negb answer then r.2
    else r.2 ++ [(c, makeMsg _unsubscribe ch (channel_count (spec_leave r.1 ch c) c))])).
  replace (spec_unsubscribes answer c chs (S, out)) with (foldl (λ r ch, f ch r) (S, out) chs).
  2: { clear. generalize (S, out). induction chs as [|ch chs IH]; intros r; [done|]. simpl. by rewrite IH. }
  apply (does_for _ _ f); [|done..]. clear. intros ch w [S out] Hr Hs. simpl in *.
  eapply (does_bind _ _ _ _ _ (spec_leave S ch c, out)).
  { destruct (unsubscribe0_spec w S ch c Hr) as (w1 & E & Hr1 & Hl1 & Hs1). exists w1. rewrite Hs1, Hs. done. }
  unfold f. simpl. intros w1 Hr1 Hs1. case_bool_decide; simpl; [by apply does_ret|]. destruct answer; [|by apply does_ret].
  eapply (does_bind _ _ _ _ _ (_, _)); [by apply does_get|]. intros w2 Hr2 Hs2. rewrite (SubsCount_spec _ _ _ Hr1).
  by apply does_Write.
Qed.

(** The locks of the channels are taken and given back. *)
Definition free_locks : list RWMutex := replicate 16 free_mutex.

Lemma with_channels_spec {A} chs (m : GoM World A) w a r : locker w = free_locks → (∀ l, does m (set_locker w l) a r) →
  does (with_channels chs m) w a r.
Proof.
  intros Hl Hm. destruct (Lock.Locks_free 16 chs ltac:(lia) ltac:(lia)) as (l & E1 & E2).
  destruct (Hm l) as (w' & E & Hr & Hl' & Hs). exists (set_locker w' free_locks). unfold with_channels, on_locker.
  unfold locker in *. erewrite bind_Ret by (rewrite Hl; unfold free_locks; by rewrite E1).
  unfold go_defer. rewrite E, Hl'. cbn [hub set_locker subsLocker]. rewrite E2. split; [done|]. split; [by apply rep_locker|done].
Qed.

Lemma go_for_same {A} (xs : list A) (b1 b2 : A → GoM World unit) w : (∀ x w, b1 x w = b2 x w) → go_for xs b1 w = go_for xs b2 w.
Proof.
  intros He. revert w. induction xs as [|x xs IH]; intros w; [done|]. simpl. unfold mbind, gom_bind. rewrite He.
  by destruct (b2 x w) as [[] w'].
Qed.

Lemma does_same {A} (m m' : GoM World A) w a r : m w = m' w → does m' w a r → does m w a r.
Proof. intros E (w' & H & ?). exists w'. by rewrite E. Qed.

Lemma unsubscribe_answered c chs w S out : rep w S → sent w = out →
  does (go_for chs (λ channel,
      done ← unsubscribe0 channel c;
      if (done : bool) then n ← go_get (λ w, Conn.SubsCount (conn_of w c)); Write c (makeMsg _unsubscribe channel n) else mret tt)) w tt
    (spec_unsubscribes true c chs (S, out)).
Proof.
  intros Hr Hs. eapply does_same; [|by apply unsubscribe_loop]. apply go_for_same. intros ch w'. unfold mbind, gom_bind.
  by destruct (unsubscribe0 ch c w') as [[[]| |] w1].
Qed.

Lemma unsubscribe_silent c chs w S out : rep w S → sent w = out →
  does (go_for chs (λ channel, _ ← unsubscribe0 channel c; mret tt)) w tt (spec_unsubscribes false c chs (S, out)).
Proof.
  intros Hr Hs. eapply does_same; [|by apply (unsubscribe_loop false)]. apply go_for_same. intros ch w'. unfold mbind, gom_bind.
  destruct (unsubscribe0 ch c w') as [[[]| |] w1]; done.
Qed.

(** Every subscriber gets the message. *)
Lemma for_each_spec (l : LinkedList nat) cs b w S out : lists l cs → rep w S → sent w = out → b ≠ "" →
  does (for_each l (λ client, Write client b)) w tt (S, out ++ ((λ c, (c, b)) <$> cs)).
Proof.
  intros (ns & Hl & <-) Hr Hs Hb. unfold for_each, ForEach, does. rewrite (scan_fuel_rep _ _ Hl), (lr_first _ _ Hl).
  assert (∀ fuel p rest i w out, (length rest < fuel)%nat → seg (nodes l) p rest None → rep w S → sent w = out → ∃ w',
    for_each_loop fuel (λ _ c w, (true, (Write c b w).2)) (nodes l) (front rest None) i w = Ret w' ∧
    rep w' S ∧ locker w' = locker w ∧ sent w' = out ++ ((λ c, (c, b)) <$> rest.*2)) as Hgen.
  { clear -Hb. induction fuel as [|fuel IH]; intros p rest i w out Hf Hg Hr Hs; [lia|].
    destruct rest as [|y rest]; [exists w; simpl; by rewrite app_nil_r|]. cbn [for_each_loop front length] in *.
    rewrite (deref_at _ _ [] _ _ _ Hg). cbn [mbind outcome_bind fst snd val next]. rewrite Write_spec by done. cbn [snd].
    destruct Hg as [_ Hg]. destruct (IH _ rest (i + 1) _ _ ltac:(lia) Hg (rep_sent w S (sent w ++ [(y.2, b)]) Hr) eq_refl) as (w' & -> & Hr' & Hl' & Hs').
    exists w'. split; [done|]. split; [done|]. split; [done|]. rewrite Hs'. simpl. by rewrite Hs, <-app_assoc. }
  destruct (Hgen (Datatypes.S (length ns)) None ns 0 w out ltac:(lia) (lr_seg _ _ Hl) Hr Hs) as (w' & -> & ?). by exists w'.
Qed.

Lemma on_locker_ext f g w : (∀ l, f l = g l) → on_locker f w = on_locker g w.
Proof. intros E. unfold on_locker. by rewrite E. Qed.

Lemma single_channel {A} ch (m : GoM World A) w :
  (_ ← on_locker (λ l, Lock.Lock l ch); go_defer (on_locker (λ l, Lock.UnLock l ch)) m) w = with_channels [ch] m w.
Proof.
  unfold with_channels, mbind, gom_bind. rewrite (on_locker_ext _ _ w (λ l, Lock.Lock_Locks l ch)).
  destruct (on_locker _ w) as [[] w0]; try done. unfold go_defer. destruct (m w0) as [[] w1]; try done;
    by rewrite (on_locker_ext _ _ _ (λ l, Lock.UnLock_UnLocks l ch)).
Qed.

Lemma exec_spec o w r : rep w r.1 → sent w = r.2 → locker w = free_locks → does (exec o) w (spec_exec o r).2 (spec_exec o r).1.
Proof.
  destruct r as [S out]. intros Hr Hs Hl. destruct o as [c args|ord c args|ord c|args]; cbn [exec spec_exec fst snd] in *.
  - unfold Subscribe. apply with_channels_spec; [done|]. intros l. eapply does_bind; [|intros; by apply does_ret].
    apply subscribe_loop; [by apply rep_locker|done].
  - unfold UnSubscribe. set (chs := if (0 <? length args)%nat then str <$> args else ord (elements (channels S c))).
    eapply does_same; [erewrite (bind_Ret _ _ _ chs w); [reflexivity|]|].
    { unfold chs. destruct (0 <? length args)%nat; [done|]. unfold go_get, Conn.GetChannels. by rewrite (rep_conns _ _ Hr). }
    apply with_channels_spec; [done|]. intros l. destruct (length chs =? 0)%nat; eapply does_bind; try (intros; by apply does_ret).
    + apply does_Write; [by apply rep_locker|done..].
    + apply unsubscribe_answered; [by apply rep_locker|done].
  - eapply does_bind; [|intros; by apply does_ret]. unfold UnsubscribeAll.
    eapply does_same; [erewrite (bind_Ret _ _ _ (ord (elements (channels S c))) w); [reflexivity|]|].
    { unfold go_get, Conn.GetChannels. by rewrite (rep_conns _ _ Hr). }
    apply with_channels_spec; [done|]. intros l. apply unsubscribe_silent; [by apply rep_locker|done].
  - destruct args as [|a0 [|message [|]]]; try by apply does_ret. cbn [Publish fst snd].
    eapply does_same; [apply single_channel|].
    apply with_channels_spec; [done|]. intros l. apply (rep_locker _ _ l) in Hr. pose proof (rep_lists _ _ Hr (str a0)) as He.
    eapply does_same; [erewrite bind_Ret by reflexivity; reflexivity|]. rewrite cd_Get by apply Hr.
    destruct (cd_map _ !! str a0) as [ls|]; simpl in He.
    + destruct He as [Hls _]. eapply does_bind; [by apply for_each_spec|]. intros w1 Hr1 Hs1.
      rewrite (Len_lists _ _ Hls). by apply does_ret.
    + rewrite He. apply does_ret; [done|]. simpl. by rewrite app_nil_r.
Qed.

Lemma run_spec ops w r : rep w r.1 → sent w = r.2 → locker w = free_locks → does (run ops) w (spec_run ops r).2 (spec_run ops r).1.
Proof.
  revert w r. induction ops as [|o ops IH]; intros w r Hr Hs Hl; [by apply does_ret|]. cbn [run spec_run].
  destruct (exec_spec o w r Hr Hs Hl) as (w1 & E & Hr1 & Hl1 & Hs1). eapply does_same; [erewrite bind_Ret by exact E; reflexivity|].
  destruct (IH w1 _ Hr1 Hs1 ltac:(congruence)) as (w2 & E2 & Hr2 & Hl2 & Hs2). exists w2. erewrite bind_Ret by exact E2.
  split; [done|]. split; [done|]. split; [congruence|done].
Qed.

(** ** Theorems *)

Definition start (h : Hub) : World := mkWorld h ∅ [].

Lemma MakeHub_spec : ∃ h, MakeHub = Ret h ∧ rep (start h) [] ∧ locker (start h) = free_locks.
Proof.
  eexists. split; [reflexivity|]. split; [|done]. destruct (MakeConcurrent_wf (V := LinkedList nat) 4) as [Hw Hm]; [lia|].
  split; simpl; [done| |done|constructor]. intros ch. by rewrite Hm.
Qed.

(** [C38] Publish/subscribe does what one list of (channel, client) pairs says: any sequence
    of SUBSCRIBE, UNSUBSCRIBE, PUBLISH and [UnsubscribeAll] (what OnClose of the gnet server calls
    for a client that has gone; the other server closes the connection first, which loses its
    channels, [closed_client_still_subscribed]), from a new hub, ends without
    panic or deadlock, with exactly the replies and the messages to every client that the
    list gives (each subscriber of the channel gets each message once, in the order of the
    subscriptions; the counts in the answers are those of the client's channels; UNSUBSCRIBE is
    confirmed whenever the channel has any subscriber, as pubsub.go:54 does), all
    channel locks are free again, and every connection knows exactly its subscriptions. *)
Theorem pubsub_refines (ops : list op) :
  match MakeHub with
  | Ret h =>
      let s := spec_run ops ([], []) in
      ∃ w, run ops (start h) = (Ret s.2, w) ∧ sent w = s.1.2 ∧ subsLocker (hub w) = subsLocker h ∧
        ∀ c ch, ch ∈ Conn.subs (conn_of w c) ↔ (ch, c) ∈ s.1.1
  | _ => False
  end.
Proof.
  destruct MakeHub_spec as (h & -> & Hr & Hl). destruct (run_spec ops (start h) ([], []) Hr eq_refl Hl) as (w & E & Hr' & Hl' & Hs).
  exists w. split_and!; [done..|]. intros c ch. by rewrite (rep_conns _ _ Hr'), elem_of_channels.
Qed.

(** PUBLISH looks at the hub only. *)
Definition set_conns (w : World) (cns : gmap nat Conn.Connection) : World := mkWorld (hub w) cns (sent w).

Lemma for_each_conns fuel b ns x i w cns :
  for_each_loop fuel (λ _ c w, (true, (Write c b w).2)) ns x i (set_conns w cns) =
  match for_each_loop fuel (λ _ c w, (true, (Write c b w).2)) ns x i w with
  | Ret w' => Ret (set_conns w' cns) | Panic m => Panic m | Block => Block
  end.
Proof.
  revert x i w. induction fuel as [|fuel IH]; intros x i w; [done|]. destruct x as [y|]; [|done]. cbn [for_each_loop].
  destruct (deref ns (Some y)) as [n| |]; try done. cbn [mbind outcome_bind].
  replace ((Write (val n.2) b (set_conns w cns)).2) with (set_conns (Write (val n.2) b w).2 cns); [apply IH|].
  unfold Write. by destruct (b =? "")%string.
Qed.

Definition blind {A} (m : GoM World A) : Prop := ∀ w cns, m (set_conns w cns) = ((m w).1, set_conns (m w).2 cns).

Lemma blind_bind {A B} (m : GoM World A) (k : A → GoM World B) : blind m → (∀ a, blind (k a)) → blind (m ≫= k).
Proof.
  intros Hm Hk w cns. unfold mbind, gom_bind. rewrite Hm. destruct (m w) as [[a| |] w1]; simpl; try done. apply Hk.
Qed.

Lemma blind_defer {A} d (m : GoM World A) : blind d → blind m → blind (go_defer d m).
Proof.
  intros Hd Hm w cns. unfold go_defer. rewrite Hm. destruct (m w) as [[a| |] w1]; simpl; try done;
    rewrite Hd; by destruct (d w1) as [[] w2].
Qed.

Lemma blind_locker f : blind (on_locker f).
Proof. intros w cns. unfold on_locker. simpl. by destruct (f _). Qed.

Lemma blind_for_each l b : blind (for_each l (λ client, Write client b)).
Proof. intros w cns. unfold for_each, ForEach. rewrite for_each_conns. by destruct (for_each_loop _ _ _ _ _ w). Qed.

Lemma Publish_blind args : blind (Publish args).
Proof.
  destruct args as [|a0 [|message [|]]]; try (by intros w cns). cbn [Publish]. apply blind_bind; [apply blind_locker|intros _].
  apply blind_defer; [apply blind_locker|]. apply blind_bind; [by intros w cns|]. intros [ls|]; [|by intros w cns].
  apply blind_bind; [apply blind_for_each|by intros _ w cns].
Qed.

(** A client that disconnects without unsubscribing stays in the hub: [closeClient]
    resets the connection before it asks it for its channels, so nothing is removed, and a
    later PUBLISH still counts the client and writes to its connection object, which the
    pool hands to the next client. *)
Theorem closed_client_still_subscribed (ord : range_order) (c : nat) (a0 message : bytes) :
  fair_order ord →
  match MakeHub with
  | Ret h =>
      ∃ w, (_ ← Subscribe c [a0]; _ ← closeClient ord c; Publish [a0; message]) (start h) = (Ret (IntReply 1), w) ∧
        Conn.subs (conn_of w c) = ∅ ∧
        last (sent w) = Some (c, ToBytes (MultiBulkReply [messageBytes; Some (str a0); message]))
  | _ => False
  end.
Proof.
  intros Hord. destruct MakeHub_spec as (h & -> & Hr & Hl).
  destruct (exec_spec (OSubscribe c [a0]) (start h) ([], []) Hr eq_refl Hl) as (w1 & E1 & Hr1 & Hl1 & Hs1).
  erewrite bind_Ret by exact E1. set (w2 := set_conns w1 (<[c := Conn.Close (conn_of w1 c)]> (conns w1))).
  assert (closeClient ord c w1 = (Ret tt, w2)) as E2.
  { unfold closeClient. erewrite bind_Ret by reflexivity. fold (set_conns w1 (<[c := Conn.Close (conn_of w1 c)]> (conns w1))). fold w2.
    unfold UnsubscribeAll. erewrite bind_Ret by reflexivity.
    replace (Conn.GetChannels ord (conn_of w2 c)) with (@nil string); [by destruct w1 as [[]]|].
    unfold w2, set_conns. rewrite conn_of_insert, bool_decide_eq_true_2 by done. unfold Conn.GetChannels. simpl.
    rewrite elements_empty. symmetry. apply Permutation_nil_r, Hord. }
  erewrite bind_Ret by exact E2. unfold w2. rewrite Publish_blind.
  destruct (exec_spec (OPublish [a0; message]) w1 _ Hr1 Hs1 ltac:(congruence)) as (w3 & E3 & Hr3 & Hl3 & Hs3).
  cbn [exec] in E3. rewrite E3.
  assert (∃ x, (spec_exec (OSubscribe c [a0]) ([], [])).1 = ([(str a0, c)], [x])) as (x & Ex) by (eexists; reflexivity).
  rewrite Ex in *. cbn [spec_exec fst snd] in *.
  assert (subscribers [(str a0, c)] (str a0) = [c]) as Esub by (unfold subscribers; by rewrite filter_cons_True).
  rewrite Esub in *. eexists. split; [done|]. split; [|simpl; by rewrite Hs3].
  unfold set_conns, conn_of. simpl. by rewrite lookup_insert_eq.
Qed.

Lemma closed_client_still_subscribed_witness :
  match MakeHub with
  | Ret h => ∃ w, (_ ← Subscribe 7 [Some "news"]; _ ← closeClient id 7; Publish [Some "news"; Some "hi"]) (start h) = (Ret (IntReply 1), w)
  | _ => False
  end.
Proof.
  refine (match closed_client_still_subscribed id 7 (Some "news") (Some "hi") _ with ex_intro _ w H => ex_intro _ w (proj1 H) end).
  intros ks. done.
Defined.
End PubSub.
