(* ===== verification/Aof.v ===== *)
(** * aof/aof.go and aof/rewrite.go: the append-only file

    The persister receives command lines with the index of their database, writes them to
    the file (with a SELECT when the database changes), calls its listeners, reads the file
    back at start, and rewrites it from the contents it describes.

    The engine behind the persister is a class: the server is one instance.  The mutex
    [pausingAof] makes [writeAof], [StartRewrite] and [FinishRewrite] atomic, so each is one
    step here; [generateAof] runs outside of it, on the file as it is at that moment.

    The file is its contents; a file that does not exist reads as an empty one.  [disk] says
    how the n-th write ends: complete, or with an error after so many bytes. *)

From Stdlib Require Import ZArith Lia Ascii String.
From stdpp Require Import base gmap strings numbers list.
From S2P Require Import Prelude GoStd Dict Protocol Parser DB Marshal.

Local Open Scope string_scope.
Local Open Scope list_scope.
Local Open Scope Z_scope.
Local Open Scope go_scope.

(** interface/database: what the persister asks of a database engine.  [LoadRDB] is given
    the bytes of the file and returns how many it read, or an error. *)
Class DBEngine (E : Type) := {
  engine_Exec : nat → CmdLine → GoM E Reply;
  engine_LoadRDB : string → GoM E (option Z);
  engine_GetDBSize : Z → GoM E (Z * Z);
  engine_ForEach : Z → GoM E (list (string * DataEntity * option Z))
}.

Module Aof.

Definition aofQueueSize : Z := Z.shiftl 1 20.
Definition FsyncAlways : string := "always".
Definition FsyncEverySec : string := "everysec".
Definition FsyncNo : string := "no".

Record payload := mkPayload { p_cmdLine : CmdLine; p_dbIndex : Z }.

(** A channel: nil, open or closed, with the payloads that wait in it. *)
Inductive channel :=
  | NilChan
  | OpenChan (queue : list payload)
  | ClosedChan (queue : list payload).

Record Persister := mkPersister {
  aofChan : channel;
  aofFile : string;
  aofFsync : string;
  currentDB : Z;
  listeners : list nat;
  buffer : list CmdLine;
  callbacks : list (nat * list CmdLine);
  writes : nat
}.

Definition set_aofChan (p : Persister) (c : channel) : Persister :=
  mkPersister c (aofFile p) (aofFsync p) (currentDB p) (listeners p) (buffer p) (callbacks p) (writes p).
Definition set_aofFile (p : Persister) (s : string) (n : nat) : Persister :=
  mkPersister (aofChan p) s (aofFsync p) (currentDB p) (listeners p) (buffer p) (callbacks p) n.
Definition set_currentDB (p : Persister) (i : Z) : Persister :=
  mkPersister (aofChan p) (aofFile p) (aofFsync p) i (listeners p) (buffer p) (callbacks p) (writes p).
Definition set_listeners (p : Persister) (l : list nat) : Persister :=
  mkPersister (aofChan p) (aofFile p) (aofFsync p) (currentDB p) l (buffer p) (callbacks p) (writes p).
Definition set_buffer (p : Persister) (b : list CmdLine) : Persister :=
  mkPersister (aofChan p) (aofFile p) (aofFsync p) (currentDB p) (listeners p) b (callbacks p) (writes p).
Definition call_listeners (p : Persister) : Persister :=
  mkPersister (aofChan p) (aofFile p) (aofFsync p) (currentDB p) (listeners p) (buffer p)
    (callbacks p ++ ((λ l, (l, buffer p)) <$> listeners p)) (writes p).

Definition selectCmd (dbIndex : Z) : CmdLine := ToCmdLine ["SELECT"; Itoa dbIndex].

Definition line_bytes (cmdLine : CmdLine) : string := ToBytes (MultiBulkReply cmdLine).

Section persister.
Context (disk : nat → option nat).

(** What a file holds behind the n-th write, and whether it was complete. *)
Definition append_file (n : nat) (file data : string) : string * bool :=
  match disk n with
  | None => (file +:+ data, true)
  | Some k => (file +:+ String.substring 0 k data, false)
  end.

Definition Write (data : string) : GoM Persister bool := λ p,
  let '(f, ok) := append_file (writes p) (aofFile p) data in (Ret ok, set_aofFile p f (S (writes p))).

Definition writeAof (x : payload) : GoM Persister unit :=
  _ ← go_modify (λ p, set_buffer p []);
  current ← go_get currentDB;
  ok ← (if negb (p_dbIndex x =? current) then
          _ ← go_modify (λ p, set_buffer p (buffer p ++ [selectCmd (p_dbIndex x)]));
          ok ← Write (line_bytes (selectCmd (p_dbIndex x)));
          if (ok : bool) then _ ← go_modify (λ p, set_currentDB p (p_dbIndex x)); mret true else mret false
        else mret true);
  if negb ok then mret tt
  else
    _ ← go_modify (λ p, set_buffer p (buffer p ++ [p_cmdLine x]));
    _ ← Write (line_bytes (p_cmdLine x));
    go_modify call_listeners.

(** A full channel makes the sender wait; sending on a closed one panics. *)
Definition SaveCmdLine (dbIndex : Z) (cmdLine : CmdLine) : GoM Persister unit :=
  p ← go_get id;
  match aofChan p with
  | NilChan => mret tt
  | c =>
      if String.eqb (aofFsync p) FsyncAlways then writeAof (mkPayload cmdLine dbIndex)
      else
        match c with
        | OpenChan q =>
            if Z.of_nat (length q) <? aofQueueSize
            then go_modify (λ p, set_aofChan p (OpenChan (q ++ [mkPayload cmdLine dbIndex])))
            else go_lift Block
        | _ => go_panic "send on closed channel"
        end
  end.

(** The goroutine's loop over the payloads that wait: [n] of them. *)
Fixpoint listen_loop (n : nat) : GoM Persister unit :=
  match n with
  | O => mret tt
  | S n' =>
      p ← go_get id;
      match aofChan p with
      | OpenChan (x :: q) => _ ← go_modify (λ p, set_aofChan p (OpenChan q)); _ ← writeAof x; listen_loop n'
      | ClosedChan (x :: q) => _ ← go_modify (λ p, set_aofChan p (ClosedChan q)); _ ← writeAof x; listen_loop n'
      | _ => mret tt
      end
  end.

Definition waiting (p : Persister) : list payload :=
  match aofChan p with NilChan => [] | OpenChan q | ClosedChan q => q end.

Definition listenCmd : GoM Persister unit := n ← go_get (λ p, length (waiting p)); listen_loop n.

(** [close(aofChan)], and the wait for the goroutine. *)
Definition Close : GoM Persister unit :=
  p ← go_get id;
  match aofChan p with
  | NilChan => go_panic "close of nil channel"
  | ClosedChan _ => go_panic "close of closed channel"
  | OpenChan q => _ ← go_modify (λ p, set_aofChan p (ClosedChan q)); listenCmd
  end.

Definition RemoveListener (l : nat) : GoM Persister unit :=
  go_modify (λ p, set_listeners p (filter (λ x, x ≠ l) (listeners p))).

(** ** Loading *)

Section engine.
Context {E : Type} `{DBEngine E}.

Abbreviation World := (Persister * E)%type.

Definition on_engine {A} (m : GoM E A) : GoM World A := λ w, let '(o, e) := m w.2 in (o, (w.1, e)).
Definition on_persister {A} (m : GoM Persister A) : GoM World A := λ w, let '(o, p) := m w.1 in (o, (p, w.2)).

(** One line of the file; [c] is the fake connection. *)
Definition load_line (c : nat) (Args : CmdLine) : GoM World unit :=
  ret ← on_engine (engine_Exec c Args);
  _ ← go_lift (IsErrorReply ret);
  a0 ← go_lift (arg_at Args 0);
  if String.eqb (ToLower (str a0)) "select" then
    a1 ← go_lift (arg_at Args 1);
    match Atoi (str a1) with
    | inl _ => mret tt
    | inr dbIndex => on_persister (go_modify (λ p, set_currentDB p dbIndex))
    end
  else mret tt.

(** The loop over the parser's channel. *)
Fixpoint load_loop (c : nat) (ps : list Payload) (fin : channel_end) : GoM World unit :=
  match ps with
  | [] => match fin with ChanClosed => mret tt | ChanOpen => go_lift Block end
  | PErr EOF :: _ => mret tt
  | PErr _ :: ps' => load_loop c ps' fin
  | PData (MultiBulkReply Args) :: ps' => _ ← load_line c Args; load_loop c ps' fin
  | PData _ :: ps' => load_loop c ps' fin
  end.

(** The bytes behind the RDB preamble, if there is one, up to the limit. *)
Definition reader (file : string) (preamble : option Z) (maxBytes : Z) : string :=
  let '(rest, maxBytes) := match preamble with
                           | None => (file, maxBytes)
                           | Some n => (substr file (n + 1) (slen file), maxBytes - n)
                           end in
  if maxBytes >? 0 then substr rest 0 maxBytes else rest.

Definition LoadAof (c : nat) (maxBytes : Z) : GoM World unit :=
  chan ← on_persister (go_get aofChan);
  _ ← on_persister (go_modify (λ p, set_aofChan p NilChan));
  go_defer (on_persister (go_modify (λ p, set_aofChan p chan)))
    (file ← on_persister (go_get aofFile);
     preamble ← on_engine (engine_LoadRDB file);
     r ← go_lift (parse0 (reader file preamble maxBytes));
     load_loop c r.1 r.2).

(** [aofFsync] is the setting in lower case; the channel is made after the load. *)
Definition NewPersister (c : nat) (load : bool) (fsync file : string) (e : E) : outcome unit * World :=
  (_ ← (if load then LoadAof c 0 else mret tt);
   on_persister (go_modify (λ p, set_aofChan p (OpenChan []))))
  (mkPersister NilChan file (ToLower fsync) 0 [] [] [] 0, e).

(** ** Rewriting *)

Record RewriteCtx := mkCtx { tmpFile : string; fileSize : Z; dbIdx : Z }.

(** A file that is written in parts. *)
Abbreviation Out := (string * nat)%type.

Definition emit (data : string) (o : Out) : Out * bool :=
  let '(f, ok) := append_file o.2 o.1 data in ((f, S o.2), ok).

(** [Sync] and [CreateTemp] may fail. *)
Definition StartRewrite (syncErr createErr : option string) : GoM Persister (string + RewriteCtx) :=
  match syncErr, createErr with
  | Some e, _ => mret (inl e)
  | None, Some e => mret (inl e)
  | None, None => p ← go_get id; mret (inr (mkCtx "" (slen (aofFile p)) (currentDB p)))
  end.

Context `{Env}.

(** The lines of one key; their write errors are ignored. *)
Definition dump_key (draws : nat) (x : string * DataEntity * option Z) : outcome (list CmdLine) :=
  cmd ← (EntityToCmd x.1.1 x.1.2 (mkView ∅ ∅ [] draws)).1;
  Ret (cmd :: match x.2 with None => [] | Some t => [MakeExpireCmd x.1.1 t] end).

Fixpoint dump_keys (draws : nat) (l : list (string * DataEntity * option Z)) (o : Out) : outcome Out :=
  match l with
  | [] => Ret o
  | x :: l' =>
      lines ← dump_key draws x;
      dump_keys (S draws) l' (foldl (λ o line, (emit (line_bytes line) o).1) o lines)
  end.

(** [n] databases from [i] on; a write error of a SELECT ends the loop. *)
Fixpoint dump_dbs (draws n : nat) (i : Z) (e : E) (o : Out) : outcome (Out * bool) :=
  match n with
  | O => Ret (o, true)
  | S n' =>
      let '(o, ok) := emit (line_bytes (selectCmd i)) o in
      if negb ok then Ret (o, false)
      else
        let '(r, e) := engine_ForEach i e in
        l ← r;
        o ← dump_keys draws l o;
        dump_dbs (draws + length l) n' (i + 1) e o
  end.

(** [newRewriteHandler]: a persister on the same file, over an engine of its own. *)
Definition newRewriteHandler (p : Persister) : Persister :=
  mkPersister NilChan (aofFile p) "" 0 [] [] [] (writes p).

Definition generateAof (c draws databases : nat) (tmpDB : E) (ctx : RewriteCtx) (p : Persister) : outcome (RewriteCtx * bool * nat) :=
  let '(r, (tmpAof, e)) := LoadAof c (fileSize ctx) (newRewriteHandler p, tmpDB) in
  _ ← r;
  o ← dump_dbs draws databases 0 e (tmpFile ctx, writes tmpAof);
  Ret (mkCtx o.1.1 (fileSize ctx) (dbIdx ctx), o.2, o.1.2).

(** The temporary file gets the lines written since [StartRewrite] and becomes the file;
    the last write panics when it fails. *)
Definition FinishRewrite (ctx : RewriteCtx) : GoM Persister unit :=
  p ← go_get id;
  let '(o, ok) := emit (line_bytes (selectCmd (dbIdx ctx))) (tmpFile ctx, writes p) in
  if negb ok then go_modify (λ p, set_aofFile p (aofFile p) o.2)
  else
    let '(o, ok) := emit (substr (aofFile p) (fileSize ctx) (slen (aofFile p))) o in
    if negb ok then go_modify (λ p, set_aofFile p (aofFile p) o.2)
    else
      _ ← go_modify (λ p, set_aofFile p o.1 o.2);
      ok ← Write (line_bytes (selectCmd (currentDB p)));
      if (ok : bool) then mret tt else go_panic "write error".

(** config.Properties.AofUseRdbPreamble chooses the RDB encoder instead, an argument here. *)
Definition DoRewrite (c draws databases : nat) (tmpDB : E) (useRdbPreamble : bool)
    (generateRDB : RewriteCtx → Persister → outcome (RewriteCtx * bool * nat))
    (ctx : RewriteCtx) (p : Persister) : outcome (RewriteCtx * bool * nat) :=
  if useRdbPreamble then generateRDB ctx p else generateAof c draws databases tmpDB ctx p.
End engine.
End persister.
End Aof.
