(* ===== verification/AofLaws.v ===== *)
(** * What the append-only file holds

    The lines of the file are the payloads, in order, with a SELECT wherever the database
    changes; loading the file executes exactly these lines; and a rewrite replaces the
    lines up to its start by a dump of what they describe and keeps the rest. *)

From Stdlib Require Import ZArith Lia Ascii String.
From stdpp Require Import base gmap strings numbers list.
From S2P Require Import Prelude GoStd Dict Protocol Parser DB Marshal Aof.

Local Open Scope string_scope.
Local Open Scope list_scope.
Local Open Scope Z_scope.
Local Open Scope go_scope.

Import Aof.

(** The lines that are written for the payloads when [cur] is selected. *)
Fixpoint with_selects (cur : Z) (ps : list payload) : list CmdLine :=
  match ps with
  | [] => []
  | x :: ps' =>
      (if p_dbIndex x =? cur then [p_cmdLine x] else [selectCmd (p_dbIndex x); p_cmdLine x]) ++ with_selects (p_dbIndex x) ps'
  end.

Definition last_db (cur : Z) (ps : list payload) : Z := default cur (p_dbIndex <$> last ps).

Definition file_of (lines : list CmdLine) : string := encode_all (MultiBulkReply <$> lines).

Lemma file_of_app l1 l2 : file_of (l1 ++ l2) = file_of l1 +:+ file_of l2.
Proof.
  unfold file_of, encode_all. rewrite !fmap_app. induction l1 as [|a l1 IH]; [done|].
  rewrite !fmap_cons, <-app_comm_cons, !concat_strings_cons, IH. by rewrite string_app_assoc.
Qed.

Lemma file_of_one line : file_of [line] = line_bytes line.
Proof. unfold file_of, encode_all. simpl. apply string_app_nil_r. Qed.

Lemma last_db_cons cur x ps : last_db cur (x :: ps) = last_db (p_dbIndex x) ps.
Proof. unfold last_db. destruct ps as [|y ps]; [done|]. rewrite last_cons_cons. by destruct (last (y :: ps)) eqn:E; [|apply last_None in E]. Qed.

Lemma with_selects_app cur ps qs : with_selects cur (ps ++ qs) = with_selects cur ps ++ with_selects (last_db cur ps) qs.
Proof.
  revert cur. induction ps as [|x ps IH]; intros cur; [done|]. cbn [app with_selects]. rewrite IH, last_db_cons. by rewrite app_assoc.
Qed.

(** ** Writing *)

(** A persister that differs from [p] by the lines of [ps]. *)
Definition written (p : Persister) (ps : list payload) (p' : Persister) : Prop :=
  aofFile p' = aofFile p +:+ file_of (with_selects (currentDB p) ps) ∧ currentDB p' = last_db (currentDB p) ps ∧
  aofFsync p' = aofFsync p ∧ listeners p' = listeners p ∧
  ∀ l, l ∈ listeners p → NoDup (listeners p) →
    concat (snd <$> filter (λ x, x.1 = l) (callbacks p')) =
    concat (snd <$> filter (λ x, x.1 = l) (callbacks p)) ++ with_selects (currentDB p) ps.

Lemma written_refl p : written p [] p.
Proof. split_and!; try done; simpl; [by rewrite string_app_nil_r|]. intros. by rewrite app_nil_r. Qed.

Lemma written_trans p1 p2 p3 ps qs : written p1 ps p2 → written p2 qs p3 → written p1 (ps ++ qs) p3.
Proof.
  intros (H1 & H2 & H3 & H4 & H5) (G1 & G2 & G3 & G4 & G5). rewrite H1, H2 in G1. split_and!.
  - rewrite G1, with_selects_app, file_of_app. by rewrite string_app_assoc.
  - rewrite G2, H2. unfold last_db. rewrite last_app. destruct (last qs); [done|]. done.
  - by rewrite G3.
  - by rewrite G4.
  - intros l Hl Hn. rewrite G5 by (by rewrite H4). by rewrite H5, H2, with_selects_app, app_assoc.
Qed.

(** The calls that one write makes. *)
Lemma calls_of l ls (b : list CmdLine) : NoDup ls → l ∈ ls →
  concat (snd <$> filter (λ x : nat * list CmdLine, x.1 = l) ((λ l, (l, b)) <$> ls)) = b.
Proof.
  intros Hn Hl. induction Hn as [|y ls Hy Hn IH]; [by apply elem_of_nil in Hl|]. rewrite fmap_cons, filter_cons. simpl.
  apply elem_of_cons in Hl as [->|Hl].
  - rewrite decide_True by done. rewrite fmap_cons. cbn [concat snd].
    assert (filter (λ x : nat * list CmdLine, x.1 = y) ((λ l, (l, b)) <$> ls) = []) as ->; [|by rewrite app_nil_r].
    clear IH Hn. induction ls as [|u ls IH]; [done|]. rewrite fmap_cons, filter_cons. simpl.
    rewrite decide_False by (intros ->; set_solver). apply IH. set_solver.
  - rewrite decide_False by (intros ->; done). by apply IH.
Qed.

Ltac pers := cbn [aofChan aofFile aofFsync currentDB listeners buffer callbacks writes set_aofChan set_aofFile set_currentDB set_listeners set_buffer call_listeners with_selects app].

Section laws.
Context (disk : nat → option nat).
Hypothesis disk_ok : ∀ n, disk n = None.

Lemma Write_run data p : Write disk data p = (Ret true, set_aofFile p (aofFile p +:+ data) (S (writes p))).
Proof. unfold Write, append_file. by rewrite disk_ok. Qed.

Lemma writeAof_run x p : ∃ p', writeAof disk x p = (Ret tt, p') ∧ written p [x] p' ∧ aofChan p' = aofChan p.
Proof.
  unfold writeAof. erewrite bind_Ret by reflexivity. erewrite bind_Ret by reflexivity.
  cbn [currentDB set_buffer]. destruct (Z.eqb_spec (p_dbIndex x) (currentDB p)) as [E|E]; cbn [negb].
  - erewrite bind_Ret by reflexivity. cbn [negb]. erewrite bind_Ret by reflexivity.
    rewrite (bind_Ret _ _ _ _ _ (Write_run _ _)). eexists. split; [reflexivity|]. split; [|done]. split_and!; pers; rewrite ?app_nil_r.
    + rewrite (proj2 (Z.eqb_eq _ _) E). by rewrite file_of_one.
    + unfold last_db. simpl. by rewrite E.
    + done.
    + done.
    + intros l Hl Hn. rewrite filter_app, fmap_app, concat_app, (calls_of l) by done; rewrite ?app_nil_r. by rewrite (proj2 (Z.eqb_eq _ _) E).
  - erewrite bind_Ret by (erewrite bind_Ret by reflexivity; rewrite (bind_Ret _ _ _ _ _ (Write_run _ _)); reflexivity).
    cbn [negb]. erewrite bind_Ret by reflexivity. rewrite (bind_Ret _ _ _ _ _ (Write_run _ _)). eexists. split; [reflexivity|].
    split; [|done]. split_and!; pers; rewrite ?app_nil_r.
    + rewrite (proj2 (Z.eqb_neq _ _) E). change [?a; ?b] with ([a] ++ [b]). rewrite file_of_app, !file_of_one. by rewrite string_app_assoc.
    + done.
    + done.
    + done.
    + intros l Hl Hn. rewrite filter_app, fmap_app, concat_app, (calls_of l) by done; rewrite ?app_nil_r. by rewrite (proj2 (Z.eqb_neq _ _) E).
Qed.

Definition write_all (ps : list payload) : GoM Persister unit := go_for ps (writeAof disk).

Lemma write_all_run ps p : ∃ p', write_all ps p = (Ret tt, p') ∧ written p ps p' ∧ aofChan p' = aofChan p.
Proof.
  revert p. induction ps as [|x ps IH]; intros p; [exists p; split_and!; [done|apply written_refl|done]|].
  destruct (writeAof_run x p) as (p1 & E1 & H1 & C1). destruct (IH p1) as (p2 & E2 & H2 & C2).
  exists p2. unfold write_all. cbn [go_for]. rewrite (bind_Ret _ _ _ _ _ E1). split_and!; [exact E2|by apply (written_trans _ _ _ [x] ps H1)|by rewrite C2].
Qed.

(** The payloads of a client. *)
Definition save_all (ps : list payload) : GoM Persister unit := go_for ps (λ x, SaveCmdLine disk (p_dbIndex x) (p_cmdLine x)).

Lemma mkPayload_eta x : mkPayload (p_cmdLine x) (p_dbIndex x) = x.
Proof. by destruct x. Qed.

(** With fsync after every command the lines go to the file at once. *)
Lemma save_always ps p q : aofChan p = OpenChan q → aofFsync p = FsyncAlways → save_all ps p = write_all ps p.
Proof.
  revert p. induction ps as [|x ps IH]; intros p Hc Hf; [done|]. unfold save_all, write_all. cbn [go_for].
  destruct (writeAof_run x p) as (p1 & E1 & (_ & _ & F1 & _) & C1).
  assert (SaveCmdLine disk (p_dbIndex x) (p_cmdLine x) p = writeAof disk x p) as E.
  { unfold SaveCmdLine. erewrite bind_Ret by reflexivity. unfold id. rewrite Hc, Hf. cbn [String.eqb]. by rewrite mkPayload_eta. }
  rewrite (bind_Ret _ _ _ _ _ (eq_trans E E1)), (bind_Ret _ _ _ _ _ E1). apply IH; [by rewrite C1|by rewrite F1].
Qed.

(** Otherwise they wait in the channel, in order. *)
Lemma save_queued ps p q : aofChan p = OpenChan q → aofFsync p ≠ FsyncAlways → Z.of_nat (length q + length ps) ≤ aofQueueSize →
  save_all ps p = (Ret tt, set_aofChan p (OpenChan (q ++ ps))).
Proof.
  revert p q. induction ps as [|x ps IH]; intros p q Hc Hf Hl.
  { rewrite app_nil_r, <-Hc. by destruct p. }
  unfold save_all. cbn [go_for]. cbn [length] in Hl.
  assert (SaveCmdLine disk (p_dbIndex x) (p_cmdLine x) p = (Ret tt, set_aofChan p (OpenChan (q ++ [x])))) as E.
  { unfold SaveCmdLine. erewrite bind_Ret by reflexivity. unfold id. rewrite Hc, (proj2 (String.eqb_neq _ _) Hf).
    rewrite (proj2 (Z.ltb_lt _ _)) by lia. by rewrite mkPayload_eta. }
  rewrite (bind_Ret _ _ _ _ _ E). change (save_all ps (set_aofChan p (OpenChan (q ++ [x]))) = (Ret tt, set_aofChan p (OpenChan (q ++ x :: ps)))).
  rewrite (IH _ (q ++ [x])); [|done..|]; [by rewrite <-app_assoc|]. rewrite length_app. simpl. lia.
Qed.

Lemma listen_closed q p : aofChan p = ClosedChan q →
  ∃ p', listen_loop disk (length q) p = (Ret tt, p') ∧ written p q p' ∧ aofChan p' = ClosedChan [].
Proof.
  revert p. induction q as [|x q IH]; intros p Hc; [exists p; split_and!; [done|apply written_refl|done]|].
  cbn [length listen_loop]. erewrite bind_Ret by reflexivity. unfold id. rewrite Hc. erewrite bind_Ret by reflexivity.
  destruct (writeAof_run x (set_aofChan p (ClosedChan q))) as (p1 & E1 & H1 & C1). rewrite (bind_Ret _ _ _ _ _ E1).
  destruct (IH p1) as (p2 & E2 & H2 & C2); [by rewrite C1|]. exists p2. split_and!; [done| |done].
  by apply (written_trans _ _ _ [x] q H1).
Qed.

(** Whatever the fsync setting, when the persister is closed everything is in the file. *)
Lemma save_and_close ps p : aofChan p = OpenChan [] → Z.of_nat (length ps) ≤ aofQueueSize →
  ∃ p', (_ ← save_all ps; Close disk) p = (Ret tt, p') ∧ written p ps p'.
Proof.
  intros Hc Hl. destruct (decide (aofFsync p = FsyncAlways)) as [Hf|Hf].
  - destruct (write_all_run ps p) as (p1 & E1 & H1 & C1). exists (set_aofChan p1 (ClosedChan [])). split; [|exact H1].
    rewrite (bind_Ret _ _ _ tt p1); [|by rewrite (save_always _ _ [])]. unfold Close. erewrite bind_Ret by reflexivity.
    unfold id. rewrite C1, Hc. by erewrite bind_Ret by reflexivity.
  - rewrite (bind_Ret _ _ _ _ _ (save_queued ps p [] Hc Hf Hl)). unfold Close. erewrite bind_Ret by reflexivity.
    unfold id. cbn [aofChan set_aofChan app]. erewrite bind_Ret by reflexivity. unfold listenCmd. erewrite bind_Ret by reflexivity.
    cbn [waiting aofChan set_aofChan]. destruct (listen_closed ps (set_aofChan (set_aofChan p (OpenChan ps)) (ClosedChan ps)) eq_refl) as (p2 & E2 & H2 & _).
    exists p2. by split.
Qed.
End laws.

(** ** Loading *)

(** A line that the file can carry. *)
Definition storable (line : CmdLine) : Prop := line ≠ [] ∧ Forall is_Some line ∧ sendable (MultiBulkReply line).

Lemma parse_file lines : Forall storable lines →
  parse0 (file_of lines) = Ret ((PData <$> (MultiBulkReply <$> lines)) ++ [PErr EOF], ChanClosed).
Proof.
  intros Hl. unfold parse0, file_of. rewrite parse0_loop_replies; [| |lia].
  - do 4 f_equal. induction Hl as [|line lines (H1 & H2 & _) _ IH]; [done|]. rewrite fmap_cons, bind_cons, IH, as_received_line by done. done.
  - apply Forall_fmap. eapply Forall_impl; [exact Hl|]. by intros line (_ & _ & ?).
Qed.

Lemma file_no_rdb lines : HasPrefix (file_of lines) "REDIS" = false.
Proof. unfold file_of, encode_all. by destruct lines. Qed.

Lemma utoa_length fuel n acc : (String.length (utoa fuel n acc) ≤ fuel + String.length acc)%nat.
Proof.
  revert n acc. induction fuel as [|fuel IH]; intros n acc; cbn [utoa]; [lia|]. destruct (n <? 10); [simpl; lia|].
  etransitivity; [apply IH|]. simpl. lia.
Qed.

Lemma FormatInt_length z : is_int64 z → slen (FormatInt z) ≤ 66.
Proof.
  intros Hz. assert (∀ n, 0 ≤ n ≤ 2 ^ 63 → (utoa_fuel n ≤ 64)%nat) as Hf.
  { intros n Hn. unfold utoa_fuel. pose proof (Z.log2_le_mono n (2 ^ 63) ltac:(lia)) as Hl. rewrite Z.log2_pow2 in Hl by lia. lia. }
  unfold is_int64, int64_min, int64_max in Hz. unfold slen, FormatInt. destruct (Z.ltb_spec z 0).
  - cbn [String.length]. pose proof (utoa_length (utoa_fuel (- z)) (- z) ""). pose proof (Hf (- z) ltac:(lia)). cbn [String.length] in *. lia.
  - pose proof (utoa_length (utoa_fuel z) z ""). pose proof (Hf z ltac:(lia)). cbn [String.length] in *. lia.
Qed.

Lemma storable_select i : is_int64 i → storable (selectCmd i).
Proof.
  intros Hi. pose proof (FormatInt_length i Hi). split_and!; [done|by repeat constructor|split; [|done]].
  repeat (apply Forall_cons_2; [unfold arg_ok, max_alloc; simpl; try lia|]); [done| |apply Forall_nil_2]. unfold Itoa. lia.
Qed.

Section load.
Context {E : Type} `{DBEngine E}.
Hypothesis no_rdb : ∀ s e, HasPrefix s "REDIS" = false → engine_LoadRDB s e = (Ret None, e).

Definition exec_lines (c : nat) (lines : list CmdLine) : GoM (Persister * E) unit := go_for lines (load_line c).

Lemma load_loop_lines c lines w :
  load_loop c ((PData <$> (MultiBulkReply <$> lines)) ++ [PErr EOF]) ChanClosed w = exec_lines c lines w.
Proof.
  revert w. induction lines as [|line lines IH]; intros w; [done|]. rewrite !fmap_cons. cbn [app load_loop]. unfold exec_lines. cbn [go_for].
  unfold mbind, gom_bind. destruct (load_line c line w) as [[]]; [apply IH|done..].
Qed.

(** The load runs the lines with the channel taken away, and gives it back. *)
Lemma LoadAof_run c maxBytes lines p e : reader (aofFile p) None maxBytes = file_of lines → HasPrefix (aofFile p) "REDIS" = false →
  Forall storable lines →
  LoadAof c maxBytes (p, e) =
  go_defer (on_persister (go_modify (λ q, set_aofChan q (aofChan p)))) (exec_lines c lines) (set_aofChan p NilChan, e).
Proof.
  intros Hr Hp Hl. unfold LoadAof. erewrite bind_Ret by reflexivity. erewrite bind_Ret by reflexivity. cbn [fst snd]. unfold go_defer.
  assert (∀ A (m : string → GoM (Persister * E) A) w, (file ← on_persister (go_get aofFile); m file) w = m (aofFile w.1) w) as Hfile.
  { intros A m w. by destruct w. }
  rewrite Hfile. cbn [fst aofFile set_aofChan].
  rewrite (bind_Ret (on_engine (engine_LoadRDB (aofFile p))) _ _ None (set_aofChan p NilChan, e)); [|by unfold on_engine; simpl; rewrite no_rdb].
  rewrite Hr, (bind_Ret (go_lift (parse0 (file_of lines))) _ _ ((PData <$> (MultiBulkReply <$> lines)) ++ [PErr EOF], ChanClosed) (set_aofChan p NilChan, e)).
  - cbn [fst snd]. by rewrite load_loop_lines.
  - unfold go_lift. by rewrite parse_file.
Qed.
End load.

(** ** Rewriting *)

Section rewrite.
Context `{Env} (disk : nat → option nat) {E : Type} `{DBEngine E}.
Hypothesis disk_ok : ∀ n, disk n = None.
Hypothesis no_rdb : ∀ s e, HasPrefix s "REDIS" = false → engine_LoadRDB s e = (Ret None, e).

Lemma emit_run data o : emit disk data o = ((o.1 +:+ data, S o.2), true).
Proof. unfold emit, append_file. by rewrite disk_ok. Qed.

(** The lines of a dump. *)
Fixpoint dump_keys_lines (draws : nat) (l : list (string * DataEntity * option Z)) : outcome (list CmdLine) :=
  match l with
  | [] => Ret []
  | x :: l' => lines ← dump_key draws x; rest ← dump_keys_lines (S draws) l'; Ret (lines ++ rest)
  end.

Fixpoint dump_lines (draws n : nat) (i : Z) (e : E) : outcome (list CmdLine) :=
  match n with
  | O => Ret []
  | S n' =>
      let '(r, e) := engine_ForEach i e in
      l ← r;
      lines ← dump_keys_lines draws l;
      rest ← dump_lines (draws + length l) n' (i + 1) e;
      Ret (selectCmd i :: lines ++ rest)
  end.

Lemma emit_lines lines o : ∃ n, foldl (λ o line, (emit disk (line_bytes line) o).1) o lines = (o.1 +:+ file_of lines, n).
Proof.
  revert o. induction lines as [|line lines IH]; intros o; [exists o.2; simpl; rewrite string_app_nil_r; by destruct o|].
  cbn [foldl]. rewrite emit_run. cbn [fst]. destruct (IH (o.1 +:+ line_bytes line, S o.2)) as [n ->]. exists n.
  change (line :: lines) with ([line] ++ lines). rewrite file_of_app, file_of_one. cbn [fst]. by rewrite string_app_assoc.
Qed.

Lemma dump_keys_run draws l lines o : dump_keys_lines draws l = Ret lines →
  ∃ n, dump_keys disk draws l o = Ret (o.1 +:+ file_of lines, n).
Proof.
  revert draws lines o. induction l as [|x l IH]; intros draws lines o; cbn [dump_keys_lines dump_keys].
  { intros [= <-]. exists o.2. simpl. rewrite string_app_nil_r. by destruct o. }
  destruct (dump_key draws x) as [ls| |]; [|done..]. cbn [mbind outcome_bind].
  destruct (dump_keys_lines (S draws) l) as [rest| |] eqn:Er; [|done..]. intros [= <-].
  destruct (emit_lines ls o) as [n ->]. destruct (IH _ _ (o.1 +:+ file_of ls, n) Er) as [n' ->]. exists n'.
  rewrite file_of_app. simpl. by rewrite string_app_assoc.
Qed.

Lemma dump_dbs_run draws n i e lines o : dump_lines draws n i e = Ret lines →
  ∃ k, dump_dbs disk draws n i e o = Ret ((o.1 +:+ file_of lines, k), true).
Proof.
  revert draws i e lines o. induction n as [|n IH]; intros draws i e lines o; cbn [dump_lines dump_dbs].
  { intros [= <-]. exists o.2. simpl. rewrite string_app_nil_r. by destruct o. }
  rewrite emit_run. cbn [negb]. destruct (engine_ForEach i e) as [[l| |] e']; [|done..]. cbn [mbind outcome_bind].
  destruct (dump_keys_lines draws l) as [ls| |] eqn:El; [|done..]. cbn [mbind outcome_bind].
  destruct (dump_lines (draws + length l) n (i + 1) e') as [rest| |] eqn:Er; [|done..]. intros [= <-].
  destruct (dump_keys_run _ _ _ (o.1 +:+ line_bytes (selectCmd i), S o.2) El) as [k ->]. cbn [mbind outcome_bind fst].
  destruct (IH _ _ _ _ ((o.1 +:+ line_bytes (selectCmd i)) +:+ file_of ls, k) Er) as [k' ->]. exists k'.
  change (selectCmd i :: ls ++ rest) with ([selectCmd i] ++ ls ++ rest). rewrite !file_of_app, file_of_one. simpl. by rewrite !string_app_assoc.
Qed.

(** What [generateAof] reads: the file up to its size at the start, or all of it when it was empty. *)
Lemma generateAof_run c draws databases tmpDB ctx p lines q e1 dl :
  tmpFile ctx = "" → reader (aofFile p) None (fileSize ctx) = file_of lines → HasPrefix (aofFile p) "REDIS" = false →
  Forall storable lines → exec_lines c lines (newRewriteHandler p, tmpDB) = (Ret tt, (q, e1)) →
  dump_lines draws databases 0 e1 = Ret dl →
  ∃ n, generateAof disk c draws databases tmpDB ctx p = Ret (mkCtx (file_of dl) (fileSize ctx) (dbIdx ctx), true, n).
Proof.
  intros Ht Hr Hp Hl He Hd. unfold generateAof. rewrite (LoadAof_run no_rdb c _ lines) by done.
  unfold go_defer. change (set_aofChan (newRewriteHandler p) NilChan) with (newRewriteHandler p). rewrite He. cbn.
  destruct (dump_dbs_run draws databases 0 e1 dl (tmpFile ctx, writes q) Hd) as [n En]. simpl in En. rewrite En. cbn [mbind outcome_bind fst snd].
  exists n. by rewrite Ht.
Qed.

Lemma FinishRewrite_run ctx p rest : aofFile p = rest.1 +:+ rest.2 → fileSize ctx = slen rest.1 →
  ∃ p', FinishRewrite disk ctx p = (Ret tt, p') ∧ currentDB p' = currentDB p ∧
    aofFile p' = tmpFile ctx +:+ line_bytes (selectCmd (dbIdx ctx)) +:+ rest.2 +:+ line_bytes (selectCmd (currentDB p)).
Proof.
  intros Hf Hs. unfold FinishRewrite. erewrite bind_Ret by reflexivity. unfold id. rewrite emit_run. cbn [negb].
  rewrite emit_run. cbn [negb fst snd]. erewrite bind_Ret by reflexivity. rewrite (bind_Ret _ _ _ _ _ (Write_run disk disk_ok _ _)).
  eexists. split; [reflexivity|]. split; [done|]. cbn [aofFile set_aofFile].
  rewrite Hf, Hs, substr_app_r. by rewrite !string_app_assoc.
Qed.

(** A payload that the file can carry. *)
Definition payload_ok (x : payload) : Prop := storable (p_cmdLine x) ∧ storable (selectCmd (p_dbIndex x)).

Lemma with_selects_storable cur ps : Forall payload_ok ps → Forall storable (with_selects cur ps).
Proof.
  intros Hp. revert cur. induction Hp as [|x ps [H1 H2] _ IH]; intros cur; [constructor|]. cbn [with_selects].
  apply Forall_app. split; [|apply IH]. destruct (_ =? _); repeat (apply Forall_cons_2; [done|]); apply Forall_nil_2.
Qed.

Lemma file_of_nonempty lines : lines ≠ [] → 0 < slen (file_of lines).
Proof.
  intros Hl. destruct lines as [|line lines]; [done|]. change (line :: lines) with ([line] ++ lines).
  rewrite file_of_app, file_of_one, slen_app. unfold line_bytes, ToBytes, slen. simpl. lia.
Qed.

Lemma reader_prefix (a b : string) : 0 < slen a → reader (a +:+ b) None (slen a) = a.
Proof. intros Hs. unfold reader. rewrite Z.gtb_ltb, (proj2 (Z.ltb_lt _ _)) by done. apply substr_app_l. Qed.

(** The steps of a rewrite: payloads that are written before it starts, between the start and
    the dump, and between the dump and the end. *)
Definition rewrite_steps (c draws databases : nat) (tmpDB : E) (ps1 ps2 ps3 : list payload) (p0 p4 : Persister) : Prop :=
  ∃ p1 ctx p2 ctx' n p3,
    write_all disk ps1 p0 = (Ret tt, p1) ∧ StartRewrite None None p1 = (Ret (inr ctx), p1) ∧
    write_all disk ps2 p1 = (Ret tt, p2) ∧ generateAof disk c draws databases tmpDB ctx p2 = Ret (ctx', true, n) ∧
    write_all disk ps3 p2 = (Ret tt, p3) ∧ FinishRewrite disk ctx' p3 = (Ret tt, p4).

Lemma rewrite_steps_run c draws databases tmpDB e1 ps1 ps2 ps3 dumped dl p0 :
  aofFile p0 = "" → currentDB p0 = 0 → Forall payload_ok (ps1 ++ ps2) →
  dumped = (if decide (ps1 = []) then with_selects 0 ps2 else with_selects 0 ps1) →
  (∀ p, ∃ q, exec_lines c dumped (p, tmpDB) = (Ret tt, (q, e1))) → dump_lines draws databases 0 e1 = Ret dl →
  ∃ p4, rewrite_steps c draws databases tmpDB ps1 ps2 ps3 p0 p4 ∧ currentDB p4 = last_db 0 (ps1 ++ ps2 ++ ps3) ∧
    aofFile p4 = file_of (dl ++ [selectCmd (last_db 0 ps1)] ++ with_selects (last_db 0 ps1) (ps2 ++ ps3) ++
                          [selectCmd (last_db 0 (ps1 ++ ps2 ++ ps3))]).
Proof.
  intros Hf Hc Hok Hdump He Hd.
  destruct (write_all_run disk disk_ok ps1 p0) as (p1 & E1 & H1 & _). destruct (write_all_run disk disk_ok ps2 p1) as (p2 & E2 & H2 & _).
  destruct (write_all_run disk disk_ok ps3 p2) as (p3 & E3 & H3 & _).
  pose proof (written_trans _ _ _ _ _ H1 H2) as H12. pose proof (written_trans _ _ _ _ _ H2 H3) as H23.
  pose proof (written_trans _ _ _ _ _ H1 H23) as H123.
  destruct H1 as (F1 & D1 & _). destruct H12 as (F12 & _ & _). destruct H23 as (F23 & _ & _). destruct H123 as (F123 & D123 & _).
  rewrite Hf, Hc in *. change (("" +:+ ?x)%string) with x in F1, F12, F123. rewrite D1 in F23.
  set (ctx := mkCtx "" (slen (aofFile p1)) (currentDB p1)).
  destruct (He (newRewriteHandler p2)) as [q Eq].
  destruct (generateAof_run c draws databases tmpDB ctx p2 dumped q e1 dl) as [n En]; [done| | | |done|done|].
  { cbn [fileSize ctx]. rewrite F12, F1, with_selects_app, file_of_app, Hdump. case_decide as Hnil.
    - subst. done.
    - apply reader_prefix, file_of_nonempty. destruct ps1 as [|x ps1]; [done|]. cbn. by destruct (_ =? _). }
  { rewrite F12. apply file_no_rdb. }
  { apply Forall_app in Hok as [G1 G2]. rewrite Hdump. case_decide; by apply with_selects_storable. }
  set (ctx' := mkCtx _ _ _) in En.
  destruct (FinishRewrite_run ctx' p3 (aofFile p1, file_of (with_selects (last_db 0 ps1) (ps2 ++ ps3))) F23 eq_refl) as (p4 & E4 & D4 & F4).
  exists p4. split; [by exists p1, ctx, p2, ctx', n, p3|]. split; [by rewrite D4|].
  rewrite F4. cbn [tmpFile dbIdx ctx' ctx fst snd]. rewrite D123, D1, <-!file_of_one. by rewrite <-!file_of_app.
Qed.

(** [C12] A rewrite loses nothing: with commands written before it, while it dumps and up to its
    end, in whatever databases, the new file is a dump of exactly the commands before the
    start, the database that was selected then, and every later command, in order and in its
    own database; and what is appended next goes to the database it belongs to.  The file had
    at least one line when the rewrite started. *)
Theorem rewrite_keeps_log c draws databases tmpDB e1 ps1 ps2 ps3 dl p0 :
  aofFile p0 = "" → currentDB p0 = 0 → Forall payload_ok (ps1 ++ ps2) → ps1 ≠ [] →
  (∀ p, ∃ q, exec_lines c (with_selects 0 ps1) (p, tmpDB) = (Ret tt, (q, e1))) → dump_lines draws databases 0 e1 = Ret dl →
  ∃ p4, rewrite_steps c draws databases tmpDB ps1 ps2 ps3 p0 p4 ∧ currentDB p4 = last_db 0 (ps1 ++ ps2 ++ ps3) ∧
    aofFile p4 = file_of (dl ++ [selectCmd (last_db 0 ps1)] ++ with_selects (last_db 0 ps1) (ps2 ++ ps3) ++
                          [selectCmd (last_db 0 (ps1 ++ ps2 ++ ps3))]).
Proof. intros ? ? ? Hne ? ?. eapply rewrite_steps_run; eauto. by rewrite decide_False. Qed.

(** A rewrite that starts on an empty file writes the commands of its own duration twice:
    a size of 0 means no limit to [LoadAof], so the dump already has the commands that were
    written between the start and the dump, and the end of the rewrite copies the same
    commands behind it. *)
Theorem rewrite_of_empty_file_repeats c draws databases tmpDB e2 ps2 ps3 dl p0 :
  aofFile p0 = "" → currentDB p0 = 0 → Forall payload_ok ps2 →
  (∀ p, ∃ q, exec_lines c (with_selects 0 ps2) (p, tmpDB) = (Ret tt, (q, e2))) → dump_lines draws databases 0 e2 = Ret dl →
  ∃ p4, rewrite_steps c draws databases tmpDB [] ps2 ps3 p0 p4 ∧
    aofFile p4 = file_of (dl ++ [selectCmd 0] ++ with_selects 0 (ps2 ++ ps3) ++ [selectCmd (last_db 0 (ps2 ++ ps3))]).
Proof.
  intros Hf Hc Hok He Hd. destruct (rewrite_steps_run c draws databases tmpDB e2 [] ps2 ps3 (with_selects 0 ps2) dl p0) as (p4 & H1 & _ & H2);
    [done..|by rewrite decide_True|done|done|]. by exists p4.
Qed.
End rewrite.

(** ** Examples *)

(** An engine that remembers the lines it executed; its only key holds their number. *)
#[local] Instance counting_engine : DBEngine (list CmdLine) := {|
  engine_Exec := λ _ line e, (Ret OkReply, e ++ [line]);
  engine_LoadRDB := λ _ e, (Ret None, e);
  engine_GetDBSize := λ i e, (Ret (if i =? 0 then (1, 0) else (0, 0)), e);
  engine_ForEach := λ i e, (Ret (if i =? 0 then [("n", DString (Some (FormatInt (Z.of_nat (length e)))), None)] else []), e)
|}.

Definition demo_persister : Persister := mkPersister (OpenChan []) "" "always" 0 [] [] [] 0.

Definition push (i : Z) (v : string) : payload := mkPayload (ToCmdLine ["RPUSH"; "l"; v]) i.

Lemma payload_ok_push i v : arg_ok (Some v) → arg_ok (Some (Itoa i)) → payload_ok (push i v).
Proof.
  intros Hv Hi. unfold payload_ok, storable. cbn [push p_cmdLine p_dbIndex].
  split_and!; try done; first [by repeat constructor | split; [repeat (apply Forall_cons_2; [done|]); apply Forall_nil_2|done]].
Qed.

#[local] Existing Instance demo_env.

Lemma rewrite_keeps_log_witness :
  ∃ p4, rewrite_steps (λ _, None) 9 0 1 [] [push 0 "a"; push 2 "b"] [push 1 "x"] [push 1 "y"] demo_persister p4 ∧ currentDB p4 = 1 ∧
    aofFile p4 = file_of [selectCmd 0; ToCmdLine ["SET"; "n"; "3"]; selectCmd 2; selectCmd 1; p_cmdLine (push 1 "x");
                          p_cmdLine (push 1 "y"); selectCmd 1].
Proof.
  apply (rewrite_keeps_log (λ _, None) ltac:(done) ltac:(done) 9 0 1 [] [p_cmdLine (push 0 "a"); selectCmd 2; p_cmdLine (push 2 "b")]
           [push 0 "a"; push 2 "b"] [push 1 "x"] [push 1 "y"] [selectCmd 0; ToCmdLine ["SET"; "n"; "3"]]); [done|done| |done| |reflexivity].
  - repeat (apply Forall_cons_2; [by apply payload_ok_push|]). apply Forall_nil_2.
  - intros p. eexists. reflexivity.
Defined.

(** One RPUSH is counted by the dump and is in the file as well. *)
Lemma rewrite_of_empty_file_repeats_witness :
  ∃ p4, rewrite_steps (λ _, None) 9 0 1 [] [] [push 0 "x"] [] demo_persister p4 ∧
    aofFile p4 = file_of [selectCmd 0; ToCmdLine ["SET"; "n"; "1"]; selectCmd 0; p_cmdLine (push 0 "x"); selectCmd 0].
Proof.
  apply (rewrite_of_empty_file_repeats (λ _, None) ltac:(done) ltac:(done) 9 0 1 [] [p_cmdLine (push 0 "x")]
           [push 0 "x"] [] [selectCmd 0; ToCmdLine ["SET"; "n"; "1"]]); [done|done| | |reflexivity].
  - repeat (apply Forall_cons_2; [by apply payload_ok_push|]). apply Forall_nil_2.
  - intros p. eexists. reflexivity.
Defined.
