(* ===== verification/Router.v ===== *)
(** * database/router.go and database/commandinfo.go: the command table

    [init_<file>] lists the registrations of each file's [init] function, in source
    order; Go runs the [init] functions in the order of the file names and a later
    registration of a name replaces an earlier one.

    [storeTable] is written over [Store]; [cmdTable] at [DB] also has GETVER, which looks
    at the versions.  KEYS and SCAN, which wait for a shard that their caller has locked for
    writing, RANDOMKEY, and the commands whose handlers can loop for ever are registered on
    top of it in Exec.v: [goTable] has every command of the code.  [handler_refines] says that
    every handler of the table runs on the database as it does on the
    specification. *)

From Stdlib Require Import ZArith Lia Ascii String.
From stdpp Require Import base gmap strings numbers list.
From S2P Require Import Prelude GoStd Dict QuickList SetDS Protocol DB Marshal StringCmds KeyCmds ListCmds HashCmds SetCmds ZSetCmds GeoCmds ClusterHelper.

Local Open Scope string_scope.
Local Open Scope list_scope.
Local Open Scope Z_scope.
Local Open Scope go_scope.

(** ** Entries *)

Record commandExtra := mkExtra {
  signs : list string;
  firstKey : Z;
  lastKey : Z;
  keyStep : Z
}.

(** A nil function is [None]. *)
Record command (S : Type) := mkCommand {
  name : string;
  executor : option (list bytes → GoM S Reply);
  prepare : option (list bytes → outcome key_lists);
  undo : option (list bytes → GoM S (list CmdLine));
  arity : Z;
  flags : Z;
  extra : option commandExtra
}.
Arguments mkCommand {S}.
Arguments name {S}.
Arguments executor {S}.
Arguments prepare {S}.
Arguments undo {S}.
Arguments arity {S}.
Arguments flags {S}.
Arguments extra {S}.

Definition flagWrite : Z := 0.
Definition flagReadOnly : Z := Z.shiftl 1 0.
Definition flagSpecial : Z := Z.shiftl 1 1.

Section entries.
Context {S : Type}.

(** The entry that [registerCommand] puts under its name. *)
Definition registerCommand (name : string) (executor : list bytes → GoM S Reply)
    (prepare : list bytes → outcome key_lists) (rollback : option (list bytes → GoM S (list CmdLine)))
    (arity flags : Z) : command S :=
  mkCommand (ToLower name) (Some executor) (Some prepare) rollback arity flags None.

Definition registerSpecialCommand (name : string) (arity flags : Z) : command S :=
  mkCommand (ToLower name) None None None arity (Z.lor flags flagSpecial) None.

Definition attachCommandExtra (cmd : command S) (signs : list string) (firstKey lastKey keyStep : Z) : command S :=
  mkCommand (name cmd) (executor cmd) (prepare cmd) (undo cmd) (arity cmd) (flags cmd)
    (Some (mkExtra signs firstKey lastKey keyStep)).

Abbreviation Table := (gmap string (command S)).

(** [cmdTable[name] = cmd], for the registrations in order. *)
Definition register (table : Table) (cmds : list (command S)) : Table :=
  foldl (λ t c, <[name c := c]> t) table cmds.

Definition isReadOnlyCommand (table : Table) (name : string) : bool :=
  match table !! ToLower name with
  | None => false
  | Some cmd => Z.land (flags cmd) flagReadOnly >? 0
  end.

Definition toDescReply (cmd : command S) : Reply :=
  MultiRawReply
    ([BulkReply (Some (name cmd)); IntReply (arity cmd)] ++
     match extra cmd with
     | None => []
     | Some e => [MultiBulkReply (Some <$> signs e); IntReply (firstKey e); IntReply (lastKey e); IntReply (keyStep e)]
     end).

Definition validateArity (arity : Z) (cmdArgs : list bytes) : bool :=
  let argNum := Z.of_nat (length cmdArgs) in
  if arity >=? 0 then argNum =? arity else argNum >=? - arity.

(** ** The COMMAND command *)

Definition getKeys (table : Table) (args : list bytes) : outcome Reply :=
  a0 ← arg_at args 0;
  let cmdName := str a0 in
  match table !! cmdName with
  | None => Ret (MakeErrReply "Invalid command specified")
  | Some cmd =>
      if negb (validateArity (arity cmd) (drop 1 args)) then Ret (ArgNumErrReply cmdName)
      else
        match prepare cmd with
        | None => Ret (MakeErrReply "The command has no key arguments")
        | Some f =>
            keys ← f (drop 1 args);
            Ret (MultiBulkReply (Some <$> keys.1 ++ keys.2))
        end
  end.

Definition getCommands (table : Table) (args : list bytes) : Reply :=
  MultiRawReply ((λ v, match table !! str v with
                       | Some cmd => toDescReply cmd
                       | None => NullBulkReply
                       end) <$> args).

(** The table in the order [ord] of one map iteration. *)
Definition getAllGodisCommandReply (ord : range_order) (table : Table) : Reply :=
  MultiRawReply (omap (λ k, toDescReply <$> table !! k) (ord (map_to_list table).*1)).

Definition execCommand (ord : range_order) (table : Table) (args : list bytes) : outcome Reply :=
  match args with
  | [] => Ret (getAllGodisCommandReply ord table)
  | a0 :: rest =>
      let subCommand := ToLower (str a0) in
      if String.eqb subCommand "info" then Ret (getCommands table rest)
      else if String.eqb subCommand "count" then Ret (IntReply (Z.of_nat (size table)))
      else if String.eqb subCommand "getkeys" then
        if (length args <? 2)%nat
        then Ret (MakeErrReply ("wrong number of arguments for 'command|" +:+ subCommand +:+ "'"))
        else getKeys table rest
      else Ret (MakeErrReply ("Unknown subcommand '" +:+ subCommand +:+ "'"))
  end.
End entries.

Abbreviation Table S := (gmap string (command S)).

(** ** Registrations *)

Definition redisFlagWrite := "write".
Definition redisFlagReadonly := "readonly".
Definition redisFlagDenyOOM := "denyoom".
Definition redisFlagAdmin := "admin".
Definition redisFlagPubSub := "pubsub".
Definition redisFlagNoScript := "noscript".
Definition redisFlagRandom := "random".
Definition redisFlagSortForScript := "sortforscript".
Definition redisFlagLoading := "loading".
Definition redisFlagStale := "stale".
Definition redisFlagSkipMonitor := "skip_monitor".
Definition redisFlagFast := "fast".
Definition redisFlagMovableKeys := "movablekeys".

Section registrations.
Context `{Env} {S : Type} `{Store S}.

Definition init_cluster_helper : list (command S) := [
  registerCommand "DumpKey" execDumpKey writeAllKeys (Some undoDel) 2 flagReadOnly;
  registerCommand "ExistIn" execExistIn readAllKeys None (-1) flagReadOnly;
  registerCommand "RenameFrom" execRenameFrom readFirstKey None 2 flagWrite;
  registerCommand "CopyFrom" execCopyFrom readFirstKey None 2 flagReadOnly
].

Definition init_commandinfo : list (command S) := [
  attachCommandExtra (registerSpecialCommand "Command" 0 0)
    [redisFlagRandom; redisFlagLoading; redisFlagStale] 0 0 0;
  attachCommandExtra (registerSpecialCommand "Keys" 2 0)
    [redisFlagReadonly; redisFlagSortForScript] 0 0 0;
  attachCommandExtra (registerSpecialCommand "Auth" 2 0)
    [redisFlagNoScript; redisFlagLoading; redisFlagStale; redisFlagSkipMonitor; redisFlagFast] 0 0 0;
  attachCommandExtra (registerSpecialCommand "Info" (-1) 0)
    [redisFlagRandom; redisFlagLoading; redisFlagStale] 0 0 0;
  attachCommandExtra (registerSpecialCommand "SlaveOf" 3 0)
    [redisFlagAdmin; redisFlagNoScript; redisFlagStale] 0 0 0;
  attachCommandExtra (registerSpecialCommand "Subscribe" (-2) 0)
    [redisFlagPubSub; redisFlagNoScript; redisFlagLoading; redisFlagStale] 0 0 0;
  attachCommandExtra (registerSpecialCommand "Publish" 3 0)
    [redisFlagPubSub; redisFlagNoScript; redisFlagLoading; redisFlagFast] 0 0 0;
  attachCommandExtra (registerSpecialCommand "FlushAll" (-1) 0)
    [redisFlagWrite] 0 0 0;
  attachCommandExtra (registerSpecialCommand "FlushDB" (-1) 0)
    [redisFlagWrite] 0 0 0;
  attachCommandExtra (registerSpecialCommand "Save" (-1) 0)
    [redisFlagAdmin; redisFlagNoScript] 0 0 0;
  attachCommandExtra (registerSpecialCommand "BgSave" 1 0)
    [redisFlagAdmin; redisFlagNoScript] 0 0 0;
  attachCommandExtra (registerSpecialCommand "Select" 2 0)
    [redisFlagLoading; redisFlagFast] 0 0 0;
  attachCommandExtra (registerSpecialCommand "ReplConf" (-1) 0)
    [redisFlagAdmin; redisFlagNoScript; redisFlagLoading; redisFlagStale] 0 0 0;
  attachCommandExtra (registerSpecialCommand "Multi" 1 0)
    [redisFlagNoScript; redisFlagFast] 0 0 0;
  attachCommandExtra (registerSpecialCommand "Discard" 1 0)
    [redisFlagNoScript; redisFlagFast] 0 0 0;
  attachCommandExtra (registerSpecialCommand "Exec" 1 0)
    [redisFlagNoScript; redisFlagSkipMonitor] 0 0 0;
  attachCommandExtra (registerSpecialCommand "Watch" 1 0)
    [redisFlagNoScript; redisFlagFast] 1 (-1) 1
].

Definition init_geo : list (command S) := [
  attachCommandExtra (registerCommand "GeoAdd" execGeoAdd writeFirstKey (Some undoGeoAdd) (-5) flagWrite)
    [redisFlagWrite; redisFlagDenyOOM] 1 1 1;
  attachCommandExtra (registerCommand "GeoPos" execGeoPos readFirstKey None (-2) flagReadOnly)
    [redisFlagReadonly] 1 1 1;
  attachCommandExtra (registerCommand "GeoDist" execGeoDist readFirstKey None (-4) flagReadOnly)
    [redisFlagReadonly] 1 1 1;
  attachCommandExtra (registerCommand "GeoHash" execGeoHash readFirstKey None (-2) flagReadOnly)
    [redisFlagReadonly] 1 1 1
].

Definition init_hash : list (command S) := [
  attachCommandExtra (registerCommand "HSet" execHSet writeFirstKey (Some undoHSet) 4 flagWrite)
    [redisFlagWrite; redisFlagDenyOOM; redisFlagFast] 1 1 1;
  attachCommandExtra (registerCommand "HSetNX" execHSetNX writeFirstKey (Some undoHSet) 4 flagWrite)
    [redisFlagWrite; redisFlagDenyOOM; redisFlagFast] 1 1 1;
  attachCommandExtra (registerCommand "HGet" execHGet readFirstKey None 3 flagReadOnly)
    [redisFlagReadonly; redisFlagFast] 1 1 1;
  attachCommandExtra (registerCommand "HExists" execHExists readFirstKey None 3 flagReadOnly)
    [redisFlagReadonly; redisFlagFast] 1 1 1;
  attachCommandExtra (registerCommand "HDel" execHDel writeFirstKey (Some undoHDel) (-3) flagWrite)
    [redisFlagWrite; redisFlagFast] 1 1 1;
  attachCommandExtra (registerCommand "HLen" execHLen readFirstKey None 2 flagReadOnly)
    [redisFlagReadonly; redisFlagFast] 1 1 1;
  attachCommandExtra (registerCommand "HStrlen" execHStrlen readFirstKey None 3 flagReadOnly)
    [redisFlagReadonly; redisFlagFast] 1 1 1;
  attachCommandExtra (registerCommand "HMSet" execHMSet writeFirstKey (Some undoHMSet) (-4) flagWrite)
    [redisFlagWrite; redisFlagDenyOOM; redisFlagFast] 1 1 1;
  attachCommandExtra (registerCommand "HMGet" execHMGet readFirstKey None (-3) flagReadOnly)
    [redisFlagReadonly; redisFlagFast] 1 1 1;
  attachCommandExtra (registerCommand "HGet" execHGet readFirstKey None (-3) flagReadOnly)
    [redisFlagReadonly; redisFlagFast] 1 1 1;
  attachCommandExtra (registerCommand "HKeys" execHKeys readFirstKey None 2 flagReadOnly)
    [redisFlagReadonly; redisFlagSortForScript] 1 1 1;
  attachCommandExtra (registerCommand "HVals" execHVals readFirstKey None 2 flagReadOnly)
    [redisFlagReadonly; redisFlagSortForScript] 1 1 1;
  attachCommandExtra (registerCommand "HGetAll" execHGetAll readFirstKey None 2 flagReadOnly)
    [redisFlagReadonly; redisFlagRandom] 1 1 1;
  attachCommandExtra (registerCommand "HIncrBy" execHIncrBy writeFirstKey (Some undoHIncr) 4 flagWrite)
    [redisFlagWrite; redisFlagDenyOOM; redisFlagFast] 1 1 1;
  attachCommandExtra (registerCommand "HIncrByFloat" execHIncrByFloat writeFirstKey (Some undoHIncr) 4 flagWrite)
    [redisFlagWrite; redisFlagDenyOOM; redisFlagFast] 1 1 1;
  attachCommandExtra (registerCommand "HRandField" execHRandField readFirstKey None (-2) flagReadOnly)
    [redisFlagRandom; redisFlagReadonly] 1 1 1;
  attachCommandExtra (registerCommand "HScan" execHScan readFirstKey None (-2) flagReadOnly)
    [redisFlagReadonly; redisFlagSortForScript] 1 1 1
].

Definition init_keys : list (command S) := [
  attachCommandExtra (registerCommand "Del" execDel writeAllKeys (Some undoDel) (-2) flagWrite)
    [redisFlagWrite] 1 (-1) 1;
  attachCommandExtra (registerCommand "Expire" execExpire writeFirstKey (Some undoExpire) 3 flagWrite)
    [redisFlagWrite; redisFlagFast] 1 1 1;
  attachCommandExtra (registerCommand "ExpireAt" execExpireAt writeFirstKey (Some undoExpire) 3 flagWrite)
    [redisFlagWrite; redisFlagFast] 1 1 1;
  attachCommandExtra (registerCommand "ExpireTime" execExpireTime readFirstKey None 2 flagReadOnly)
    [redisFlagWrite; redisFlagFast] 1 1 1;
  attachCommandExtra (registerCommand "PExpire" execPExpire writeFirstKey (Some undoExpire) 3 flagWrite)
    [redisFlagWrite; redisFlagFast] 1 1 1;
  attachCommandExtra (registerCommand "PExpireAt" execPExpireAt writeFirstKey (Some undoExpire) 3 flagWrite)
    [redisFlagWrite; redisFlagFast] 1 1 1;
  attachCommandExtra (registerCommand "PExpireTime" execPExpireTime readFirstKey None 2 flagReadOnly)
    [redisFlagWrite; redisFlagFast] 1 1 1;
  attachCommandExtra (registerCommand "TTL" execTTL readFirstKey None 2 flagReadOnly)
    [redisFlagReadonly; redisFlagRandom; redisFlagFast] 1 1 1;
  attachCommandExtra (registerCommand "PTTL" execPTTL readFirstKey None 2 flagReadOnly)
    [redisFlagReadonly; redisFlagRandom; redisFlagFast] 1 1 1;
  attachCommandExtra (registerCommand "Persist" execPersist writeFirstKey (Some undoExpire) 2 flagWrite)
    [redisFlagWrite; redisFlagFast] 1 1 1;
  attachCommandExtra (registerCommand "Exists" execExists readAllKeys None (-2) flagReadOnly)
    [redisFlagReadonly; redisFlagFast] 1 1 1;
  attachCommandExtra (registerCommand "Type" execType readFirstKey None 2 flagReadOnly)
    [redisFlagReadonly; redisFlagFast] 1 1 1;
  attachCommandExtra (registerCommand "Rename" execRename prepareRename (Some undoRename) 3 flagReadOnly)
    [redisFlagWrite] 1 1 1;
  attachCommandExtra (registerCommand "RenameNx" execRenameNx prepareRename (Some undoRename) 3 flagReadOnly)
    [redisFlagWrite; redisFlagFast] 1 1 1
].

Definition init_list : list (command S) := [
  attachCommandExtra (registerCommand "LPush" execLPush writeFirstKey (Some undoLPush) (-3) flagWrite)
    [redisFlagWrite; redisFlagDenyOOM; redisFlagFast] 1 1 1;
  attachCommandExtra (registerCommand "LPushX" execLPushX writeFirstKey (Some undoLPush) (-3) flagWrite)
    [redisFlagWrite; redisFlagDenyOOM; redisFlagFast] 1 1 1;
  attachCommandExtra (registerCommand "RPush" execRPush writeFirstKey (Some undoRPush) (-3) flagWrite)
    [redisFlagWrite; redisFlagDenyOOM; redisFlagFast] 1 1 1;
  attachCommandExtra (registerCommand "RPushX" execRPushX writeFirstKey (Some undoRPush) (-3) flagWrite)
    [redisFlagWrite; redisFlagDenyOOM; redisFlagFast] 1 1 1;
  attachCommandExtra (registerCommand "LPop" execLPop writeFirstKey (Some undoLPop) (-2) flagWrite)
    [redisFlagWrite; redisFlagFast] 1 1 1;
  attachCommandExtra (registerCommand "RPop" execRPop writeFirstKey (Some undoRPop) (-2) flagWrite)
    [redisFlagWrite; redisFlagFast] 1 1 1;
  attachCommandExtra (registerCommand "RPopLPush" execRPopLPush prepareRPopLPush (Some undoRPopLPush) 3 flagWrite)
    [redisFlagWrite; redisFlagDenyOOM] 1 1 1;
  attachCommandExtra (registerCommand "LRem" execLRem writeFirstKey (Some rollbackFirstKey) 4 flagWrite)
    [redisFlagWrite] 1 1 1;
  attachCommandExtra (registerCommand "LLen" execLLen readFirstKey None 2 flagReadOnly)
    [redisFlagReadonly; redisFlagFast] 1 1 1;
  attachCommandExtra (registerCommand "LIndex" execLIndex readFirstKey None 3 flagReadOnly)
    [redisFlagReadonly] 1 1 1;
  attachCommandExtra (registerCommand "LSet" execLSet writeFirstKey (Some undoLSet) 4 flagWrite)
    [redisFlagWrite; redisFlagDenyOOM] 1 1 1;
  attachCommandExtra (registerCommand "LRange" execLRange readFirstKey None 4 flagReadOnly)
    [redisFlagReadonly] 1 1 1;
  attachCommandExtra (registerCommand "LTrim" execLTrim writeFirstKey (Some rollbackFirstKey) 4 flagWrite)
    [redisFlagWrite] 1 1 1;
  attachCommandExtra (registerCommand "LInsert" execLInsert writeFirstKey (Some rollbackFirstKey) 5 flagWrite)
    [redisFlagWrite; redisFlagDenyOOM] 1 1 1
].

Definition init_set : list (command S) := [
  attachCommandExtra (registerCommand "SAdd" execSAdd writeFirstKey (Some undoSetChange) (-3) flagWrite)
    [redisFlagWrite; redisFlagDenyOOM; redisFlagFast] 1 1 1;
  attachCommandExtra (registerCommand "SIsMember" execSIsMember readFirstKey None 3 flagReadOnly)
    [redisFlagReadonly; redisFlagFast] 1 1 1;
  attachCommandExtra (registerCommand "SRem" execSRem writeFirstKey (Some undoSetChange) (-3) flagWrite)
    [redisFlagWrite; redisFlagFast] 1 1 1;
  attachCommandExtra (registerCommand "SPop" execSPop writeFirstKey (Some undoSetChange) (-2) flagWrite)
    [redisFlagWrite; redisFlagRandom; redisFlagFast] 1 1 1;
  attachCommandExtra (registerCommand "SCard" execSCard readFirstKey None 2 flagReadOnly)
    [redisFlagReadonly; redisFlagFast] 1 1 1;
  attachCommandExtra (registerCommand "SMembers" execSMembers readFirstKey None 2 flagReadOnly)
    [redisFlagReadonly; redisFlagSortForScript] 1 1 1;
  attachCommandExtra (registerCommand "SInter" execSInter prepareSetCalculate None (-2) flagReadOnly)
    [redisFlagReadonly; redisFlagSortForScript] 1 (-1) 1;
  attachCommandExtra (registerCommand "SInterStore" execSInterStore prepareSetCalculateStore (Some rollbackFirstKey) (-3) flagWrite)
    [redisFlagWrite; redisFlagDenyOOM] 1 (-1) 1;
  attachCommandExtra (registerCommand "SUnion" execSUnion prepareSetCalculate None (-2) flagReadOnly)
    [redisFlagReadonly; redisFlagSortForScript] 1 (-1) 1;
  attachCommandExtra (registerCommand "SUnionStore" execSUnionStore prepareSetCalculateStore (Some rollbackFirstKey) (-3) flagWrite)
    [redisFlagWrite; redisFlagDenyOOM] 1 (-1) 1;
  attachCommandExtra (registerCommand "SDiff" execSDiff prepareSetCalculate None (-2) flagReadOnly)
    [redisFlagReadonly; redisFlagSortForScript] 1 1 1;
  attachCommandExtra (registerCommand "SDiffStore" execSDiffStore prepareSetCalculateStore (Some rollbackFirstKey) (-3) flagWrite)
    [redisFlagWrite; redisFlagDenyOOM] 1 1 1;
  attachCommandExtra (registerCommand "SRandMember" execSRandMember readFirstKey None (-2) flagReadOnly)
    [redisFlagReadonly; redisFlagRandom] 1 1 1;
  attachCommandExtra (registerCommand "SScan" execSScan readFirstKey None (-2) flagReadOnly)
    [redisFlagReadonly; redisFlagSortForScript] 1 1 1
].

Definition init_sortedset : list (command S) := [
  attachCommandExtra (registerCommand "ZAdd" execZAdd writeFirstKey (Some undoZAdd) (-4) flagWrite)
    [redisFlagWrite; redisFlagDenyOOM; redisFlagFast] 1 1 1;
  attachCommandExtra (registerCommand "ZScore" execZScore readFirstKey None 3 flagReadOnly)
    [redisFlagReadonly; redisFlagFast] 1 1 1;
  attachCommandExtra (registerCommand "ZIncrBy" execZIncrBy writeFirstKey (Some undoZIncr) 4 flagWrite)
    [redisFlagWrite; redisFlagDenyOOM; redisFlagFast] 1 1 1;
  attachCommandExtra (registerCommand "ZRank" execZRank readFirstKey None 3 flagReadOnly)
    [redisFlagReadonly; redisFlagFast] 1 1 1;
  attachCommandExtra (registerCommand "ZCount" execZCount readFirstKey None 4 flagReadOnly)
    [redisFlagReadonly; redisFlagFast] 1 1 1;
  attachCommandExtra (registerCommand "ZRevRank" execZRevRank readFirstKey None 3 flagReadOnly)
    [redisFlagReadonly; redisFlagFast] 1 1 1;
  attachCommandExtra (registerCommand "ZCard" execZCard readFirstKey None 2 flagReadOnly)
    [redisFlagReadonly; redisFlagFast] 1 1 1;
  attachCommandExtra (registerCommand "ZRange" execZRange readFirstKey None (-4) flagReadOnly)
    [redisFlagReadonly] 1 1 1;
  attachCommandExtra (registerCommand "ZRangeByScore" execZRangeByScore readFirstKey None (-4) flagReadOnly)
    [redisFlagReadonly] 1 1 1;
  attachCommandExtra (registerCommand "ZRevRange" execZRevRange readFirstKey None (-4) flagReadOnly)
    [redisFlagReadonly] 1 1 1;
  attachCommandExtra (registerCommand "ZRevRangeByScore" execZRevRangeByScore readFirstKey None (-4) flagReadOnly)
    [redisFlagReadonly] 1 1 1;
  attachCommandExtra (registerCommand "ZPopMin" execZPopMin writeFirstKey (Some rollbackFirstKey) (-2) flagWrite)
    [redisFlagWrite; redisFlagFast] 1 1 1;
  attachCommandExtra (registerCommand "ZRem" execZRem writeFirstKey (Some undoZRem) (-3) flagWrite)
    [redisFlagWrite; redisFlagFast] 1 1 1;
  attachCommandExtra (registerCommand "ZRemRangeByScore" execZRemRangeByScore writeFirstKey (Some rollbackFirstKey) 4 flagWrite)
    [redisFlagWrite] 1 1 1;
  attachCommandExtra (registerCommand "ZRemRangeByRank" execZRemRangeByRank writeFirstKey (Some rollbackFirstKey) 4 flagWrite)
    [redisFlagWrite] 1 1 1;
  attachCommandExtra (registerCommand "ZLexCount" execZLexCount readFirstKey None 4 flagReadOnly)
    [redisFlagReadonly] 1 1 1;
  attachCommandExtra (registerCommand "ZRangeByLex" execZRangeByLex readFirstKey None (-4) flagReadOnly)
    [redisFlagReadonly] 1 1 1;
  attachCommandExtra (registerCommand "ZRemRangeByLex" execZRemRangeByLex writeFirstKey (Some rollbackFirstKey) 4 flagWrite)
    [redisFlagWrite] 1 1 1;
  attachCommandExtra (registerCommand "ZRevRangeByLex" execZRevRangeByLex readFirstKey None (-4) flagReadOnly)
    [redisFlagReadonly] 1 1 1;
  attachCommandExtra (registerCommand "ZScan" execZScan readFirstKey None (-2) flagReadOnly)
    [redisFlagReadonly] 1 1 1
].

Definition init_string : list (command S) := [
  attachCommandExtra (registerCommand "Set" execSet writeFirstKey (Some rollbackFirstKey) (-3) flagWrite)
    [redisFlagWrite; redisFlagDenyOOM] 1 1 1;
  attachCommandExtra (registerCommand "SetNx" execSetNX writeFirstKey (Some rollbackFirstKey) 3 flagWrite)
    [redisFlagWrite; redisFlagDenyOOM; redisFlagFast] 1 1 1;
  attachCommandExtra (registerCommand "SetEX" execSetEX writeFirstKey (Some rollbackFirstKey) 4 flagWrite)
    [redisFlagWrite; redisFlagDenyOOM] 1 1 1;
  attachCommandExtra (registerCommand "PSetEX" execPSetEX writeFirstKey (Some rollbackFirstKey) 4 flagWrite)
    [redisFlagWrite; redisFlagDenyOOM] 1 1 1;
  attachCommandExtra (registerCommand "MSet" execMSet prepareMSet (Some undoMSet) (-3) flagWrite)
    [redisFlagWrite; redisFlagDenyOOM] 1 (-1) 2;
  attachCommandExtra (registerCommand "MGet" execMGet prepareMGet None (-2) flagReadOnly)
    [redisFlagReadonly; redisFlagFast] 1 1 1;
  attachCommandExtra (registerCommand "MSetNX" execMSetNX prepareMSet (Some undoMSet) (-3) flagWrite)
    [redisFlagWrite; redisFlagDenyOOM] 1 1 1;
  attachCommandExtra (registerCommand "Get" execGet readFirstKey None 2 flagReadOnly)
    [redisFlagReadonly; redisFlagFast] 1 1 1;
  attachCommandExtra (registerCommand "GetEX" execGetEX writeFirstKey (Some rollbackFirstKey) (-2) flagReadOnly)
    [redisFlagReadonly; redisFlagFast] 1 1 1;
  attachCommandExtra (registerCommand "GetSet" execGetSet writeFirstKey (Some rollbackFirstKey) 3 flagWrite)
    [redisFlagWrite; redisFlagDenyOOM] 1 1 1;
  attachCommandExtra (registerCommand "GetDel" execGetDel writeFirstKey (Some rollbackFirstKey) 2 flagWrite)
    [redisFlagWrite; redisFlagDenyOOM] 1 1 1;
  attachCommandExtra (registerCommand "Incr" execIncr writeFirstKey (Some rollbackFirstKey) 2 flagWrite)
    [redisFlagWrite; redisFlagDenyOOM; redisFlagFast] 1 1 1;
  attachCommandExtra (registerCommand "IncrBy" execIncrBy writeFirstKey (Some rollbackFirstKey) 3 flagWrite)
    [redisFlagWrite; redisFlagDenyOOM] 1 1 1;
  attachCommandExtra (registerCommand "IncrByFloat" execIncrByFloat writeFirstKey (Some rollbackFirstKey) 3 flagWrite)
    [redisFlagWrite; redisFlagDenyOOM] 1 1 1;
  attachCommandExtra (registerCommand "Decr" execDecr writeFirstKey (Some rollbackFirstKey) 2 flagWrite)
    [redisFlagWrite; redisFlagDenyOOM] 1 1 1;
  attachCommandExtra (registerCommand "DecrBy" execDecrBy writeFirstKey (Some rollbackFirstKey) 3 flagWrite)
    [redisFlagWrite; redisFlagDenyOOM] 1 1 1;
  attachCommandExtra (registerCommand "StrLen" execStrLen readFirstKey None 2 flagReadOnly)
    [redisFlagReadonly; redisFlagFast] 1 1 1;
  attachCommandExtra (registerCommand "Append" execAppend writeFirstKey (Some rollbackFirstKey) 3 flagWrite)
    [redisFlagWrite; redisFlagDenyOOM] 1 1 1;
  attachCommandExtra (registerCommand "SetRange" execSetRange writeFirstKey (Some rollbackFirstKey) 4 flagWrite)
    [redisFlagWrite; redisFlagDenyOOM] 1 1 1;
  attachCommandExtra (registerCommand "GetRange" execGetRange readFirstKey None 4 flagReadOnly)
    [redisFlagReadonly] 1 1 1;
  attachCommandExtra (registerCommand "SetBit" execSetBit writeFirstKey (Some rollbackFirstKey) 4 flagWrite)
    [redisFlagWrite; redisFlagDenyOOM] 1 1 1;
  attachCommandExtra (registerCommand "GetBit" execGetBit readFirstKey None 3 flagReadOnly)
    [redisFlagReadonly; redisFlagFast] 1 1 1;
  attachCommandExtra (registerCommand "BitCount" execBitCount readFirstKey None (-2) flagReadOnly)
    [redisFlagReadonly] 1 1 1;
  attachCommandExtra (registerCommand "BitPos" execBitPos readFirstKey None (-3) flagReadOnly)
    [redisFlagReadonly] 1 1 1
].

(** The registrations that every store has, in the order Go runs them. *)
Definition init_all : list (command S) :=
  init_cluster_helper ++ init_commandinfo ++ init_geo ++ init_hash ++ init_keys ++ init_list ++ init_set ++
  init_sortedset ++ init_string.

Definition storeTable : Table S := register ∅ init_all.
End registrations.

(** ** The database's own table *)

Section database.
Context `{Env}.

Definition init_scans : list (command DB) := [
  attachCommandExtra (registerCommand "Keys" execKeys noPrepare None 2 flagReadOnly)
    [redisFlagReadonly; redisFlagSortForScript] 1 1 1;
  attachCommandExtra (registerCommand "Scan" execScan noPrepare None (-2) flagReadOnly)
    [redisFlagReadonly; redisFlagSortForScript] 1 1 1
].

Definition execGetVersion (args : list bytes) : GoM DB Reply :=
  a0 ← arg args 0;
  ver ← DBOps.GetVersion (str a0);
  mret (IntReply ver).

Definition init_transaction : list (command DB) := [
  registerCommand "GetVer" execGetVersion readAllKeys None 2 flagReadOnly
].

(** The commands that end whatever locks the caller holds. *)
Definition cmdTable : Table DB := register storeTable init_transaction.

(** [ConcurrentDict.RandomKeys] on the data: shards are drawn until enough of them gave a key;
    a shard whose lock the caller holds for writing makes the call wait. *)
Fixpoint random_keys (fuel : nat) (limit : nat) : GoM DB (list string) :=
  match limit with
  | O => mret []
  | S limit' =>
      match fuel with
      | O => go_lift Block
      | S fuel' =>
          r ← DBOps.Rand;
          s ← go_get (λ db, Concurrent.getShard (data db) (r mod Z.of_nat (length (table (data db)))));
          _ ← go_lift (Concurrent.rlock s);
          ord ← DBOps.Order;
          match (range_map ord (sm s)).*1 with
          | [] => random_keys fuel' limit
          | key :: _ =>
              if String.eqb key "" then random_keys fuel' limit
              else keys ← random_keys fuel' limit'; mret (key :: keys)
          end
      end
  end.

Definition RandomKeys (fuel limit : nat) : GoM DB (list string) :=
  db ← go_get id;
  if Z.of_nat limit >=? Concurrent.Len (data db) then
    _ ← go_lift (Concurrent.rlock_all (table (data db)));
    ord ← DBOps.Order;
    mret (Concurrent.Keys ord (data db))
  else _ ← DBOps.Now; random_keys fuel limit.

Definition getRandomKey (fuel : nat) (args : list bytes) : GoM DB Reply :=
  k ← RandomKeys fuel 1;
  match k with
  | [] => mret NullBulkReply
  | key :: _ => mret (BulkReply (Some key))
  end.

Definition init_random (fuel : nat) : list (command DB) := [
  attachCommandExtra (registerCommand "Randomkey" (getRandomKey fuel) readAllKeys None 1 flagReadOnly)
    [redisFlagReadonly; redisFlagRandom] 1 1 1
].
End database.

(** ** Every handler of the table *)

(** [m] ends, keeps the invariant, the locks and the versions. *)
Definition safe {A} (m : GoM DB A) : Prop :=
  ∀ db, db_ok db → db_ok (m db).2 ∧ kept (m db).2 = kept db ∧ post any (m db).1.

Lemma refines_safe {A} (Q : A → Prop) m m' : refines Q m m' → safe m.
Proof.
  intros Hr db Hok. destruct (Hr db Hok) as (_ & _ & ? & ? & Hp). split_and!; try done.
  by eapply post_weaken; [|exact Hp].
Qed.

Lemma safe_ret {A} (a : A) : safe (mret a).
Proof. by intros db Hok. Qed.

Lemma safe_bind {A B} (m : GoM DB A) (k : A → GoM DB B) :
  safe m → (∀ a, safe (k a)) → safe (m ≫= k).
Proof.
  intros Hm Hk db Hok. destruct (Hm db Hok) as (Hok' & Hl & Hp). unfold mbind, gom_bind.
  destruct (m db) as [[a|msg|] db']; simpl in *; try done.
  destruct (Hk a db' Hok') as (? & Hl' & ?). rewrite Hl in Hl'. by split_and!.
Qed.

Lemma safe_lift {A} (o : outcome A) : post any o → safe (go_lift o).
Proof. by intros Hp db Hok. Qed.

Lemma safe_get {A} (f : DB → A) : safe (go_get f).
Proof. by intros db Hok. Qed.

(** How an entry of the database's table relates to one of the specification's. *)
Record handler_refines (c : command DB) (c' : command View) : Prop := {
  hr_name : name c = name c';
  hr_arity : arity c = arity c';
  hr_flags : flags c = flags c';
  hr_prepare : prepare c = prepare c';
  hr_prepare_ends : match prepare c with Some f => ∀ args, post any (f args) | None => True end;
  hr_executor : match executor c, executor c' with
                | Some f, Some f' => ∀ args, refines any (f args) (f' args)
                | None, None => True
                | _, _ => False
                end;
  hr_undo : match undo c, undo c' with
            | Some u, Some u' => ∀ args, refines log_ok (u args) (u' args)
            | None, None => True
            | _, _ => False
            end
}.

Definition handler_safe (c : command DB) : Prop :=
  match executor c with Some f => ∀ args, safe (f args) | None => True end ∧
  match prepare c with Some f => ∀ args, post any (f args) | None => True end ∧
  match undo c with Some u => ∀ args, safe (u args) | None => True end.

Section facts.
Context `{Env}.

Lemma safe_Now : safe DBOps.Now.
Proof. exact (refines_safe _ _ _ refines_Now). Qed.

Lemma safe_IsExpired key : safe (DBOps.IsExpired key).
Proof.
  apply safe_bind; [apply safe_get|]. intros [t|]; [|apply safe_ret].
  apply safe_bind; [apply safe_Now|]. intros now. destruct (now >? t); [|apply safe_ret].
  apply safe_bind; [exact (refines_safe _ _ _ (refines_Remove key))|]. intros _. apply safe_ret.
Qed.

Lemma safe_keys_loop isMatch keys result : safe (keys_loop isMatch keys result).
Proof.
  revert result. induction keys as [|key keys IH]; intros result; cbn [keys_loop]; [apply safe_ret|].
  destruct (negb (isMatch key)); [apply IH|]. apply safe_bind; [apply safe_IsExpired|].
  intros expired. apply IH.
Qed.

Lemma safe_arg args i : safe (arg (S := DB) args i).
Proof. exact (refines_safe _ _ _ (refines_arg args i)). Qed.

(** The walks, from a state whose locks are free. *)
Definition safe_free {A} (m : GoM DB A) : Prop := ∀ db, db_ok db → unlocked (data db) →
  db_ok (m db).2 ∧ kept (m db).2 = kept db ∧ post any (m db).1.

Lemma kept_unlocked db db' : kept db' = kept db → unlocked (data db) → unlocked (data db').
Proof.
  intros E Hu i s Hs. injection E as E _. assert ((mutex <$> table (data db')) !! i = Some (mutex s)) as Hi by (by rewrite list_lookup_fmap, Hs).
  rewrite E, list_lookup_fmap in Hi. destruct (table (data db) !! i) as [s0|] eqn:E0; [|done]. injection Hi as <-. by eapply Hu.
Qed.

Lemma safe_safe_free {A} (m : GoM DB A) : safe m → safe_free m.
Proof. intros Hm db Hok _. by apply Hm. Qed.

Lemma safe_free_bind {A B} (m : GoM DB A) (k : A → GoM DB B) : safe m → (∀ a, safe_free (k a)) → safe_free (m ≫= k).
Proof.
  intros Hm Hk db Hok Hu. destruct (Hm db Hok) as (H1 & H2 & H3). unfold mbind, gom_bind.
  destruct (m db) as [[a| |] db1]; simpl in *; [|done..]. destruct (Hk a db1 H1) as (K1 & K2 & K3); [by eapply kept_unlocked|].
  split_and!; [done|congruence|done].
Qed.

Lemma safe_keys_shards isMatch ord shards result : Forall (λ s, writer (mutex s) = false) shards → safe (keys_shards isMatch ord shards result).
Proof.
  intros Hs. revert result. induction Hs as [|s shards Hs _ IH]; intros result; cbn [keys_shards]; [apply safe_ret|].
  apply safe_bind; [apply safe_lift; unfold Concurrent.rlock; by rewrite Hs|]. intros _.
  apply safe_bind; [apply safe_keys_loop|]. intros result'. apply IH.
Qed.

Lemma safe_execKeys args : safe_free (execKeys args).
Proof.
  apply safe_free_bind; [apply safe_arg|]. intros a. destruct (CompilePattern _); [|apply safe_safe_free, safe_ret].
  apply safe_free_bind; [exact (refines_safe _ _ _ refines_Order)|]. intros ord db Hok Hu. unfold mbind at 1, gom_bind, go_get.
  refine (safe_bind _ _ (safe_keys_shards _ _ _ _ _) _ db Hok); [by apply unlocked_writer|]. intros result. apply safe_ret.
Qed.

Lemma safe_scanLoop isMatch pattern ord cursor cnt i (shards : list (shard DataEntity)) result :
  Forall (λ s, writer (mutex s) = false) shards → post any (Concurrent.scanLoop isMatch pattern ord cursor cnt i shards result).
Proof.
  intros Hs. revert i result. induction Hs as [|s shards Hs _ IH]; intros i result; cbn [Concurrent.scanLoop]; [done|].
  unfold Concurrent.rlock. rewrite Hs. cbn [mbind outcome_bind]. by destruct (_ && _).
Qed.

Lemma safe_scan_options rest o : safe (scan_options rest o).
Proof.
  assert (∀ n rest, (length rest ≤ n)%nat → ∀ o, safe (scan_options rest o)) as Hn; [|by eapply Hn].
  clear rest o. induction n as [|n IH]; intros rest Hl o.
  { destruct rest; [apply safe_ret|simpl in Hl; lia]. }
  destruct rest as [|a [|v rest]]; cbn [scan_options]; [apply safe_ret|..]; simpl in Hl.
  - repeat case_match; try apply safe_ret; by intros db Hok.
  - repeat case_match; try apply safe_ret; apply IH; lia.
Qed.

Lemma safe_filter_type t keys : safe (filter_type t keys).
Proof.
  induction keys as [|k keys IH]; cbn [filter_type]; [apply safe_ret|].
  apply safe_bind; [exact (refines_safe _ _ _ (refines_getType (str k)))|]. intros ty.
  apply safe_bind; [apply IH|]. intros rest. apply safe_ret.
Qed.

Lemma safe_DictScan ord (d : ConcurrentDict DataEntity) cursor cnt pattern : unlocked d →
  post any (Concurrent.DictScan CompilePattern ord d cursor cnt pattern).
Proof.
  intros Hu. unfold Concurrent.DictScan. cbv zeta. destruct (_ && _); [by rewrite (unlocked_rlock_all _ Hu)|].
  destruct (CompilePattern _); [|done]. destruct (_ <? _); [done|]. by apply safe_scanLoop, Forall_drop, unlocked_writer.
Qed.

Lemma safe_execScan args : safe_free (execScan args).
Proof.
  unfold execScan, early. apply safe_free_bind; [apply safe_scan_options|]. intros [e|o]; [apply safe_safe_free, safe_ret|].
  apply safe_free_bind; [apply safe_arg|]. intros a. destruct (Atoi (str a)); [apply safe_safe_free, safe_ret|].
  apply safe_free_bind; [exact (refines_safe _ _ _ refines_Order)|]. intros ord db Hok Hu. unfold mbind at 1, gom_bind, go_get, id.
  refine (safe_bind _ _ (safe_lift _ (safe_DictScan _ _ _ _ _ Hu)) _ db Hok).
  intros [ks next]. destruct (next <? 0); [apply safe_ret|].
  apply safe_bind; [destruct (negb _); [apply safe_filter_type|apply safe_ret]|]. intros ks'. apply safe_ret.
Qed.

Lemma safe_execGetVersion args : safe (execGetVersion args).
Proof.
  apply safe_bind; [apply safe_arg|]. intros a. apply safe_bind; [|intros v; apply safe_ret].
  apply safe_bind; [apply safe_get|]. intros v. apply safe_ret.
Qed.

#[local] Create HintDb handlers.
#[local] Hint Resolve refines_execAppend refines_execBitCount refines_execBitPos refines_execDecr
  refines_execDecrBy refines_execDel refines_execExists refines_execExpire
  refines_execExpireAt refines_execExpireTime refines_execGet refines_execGetBit
  refines_execGetDel refines_execGetEX refines_execGetRange refines_execGetSet
  refines_execHDel refines_execHExists refines_execHGet refines_execHGetAll
  refines_execHIncrBy refines_execHIncrByFloat refines_execIncrByFloat refines_execHKeys refines_execHLen refines_execHMGet
  refines_execHMSet refines_execHRandField refines_execHScan refines_execHSet
  refines_execHSetNX refines_execHStrlen refines_execHVals refines_execIncr
  refines_execIncrBy refines_execLIndex refines_execLInsert refines_execLLen
  refines_execLPop refines_execLPush refines_execLPushX refines_execLRange refines_execLRem
  refines_execLSet refines_execLTrim refines_execMGet refines_execMSet refines_execMSetNX
  refines_execPExpire refines_execPExpireAt refines_execPExpireTime refines_execPSetEX
  refines_execPTTL refines_execPersist refines_execRPop refines_execRPopLPush
  refines_execRPush refines_execRPushX refines_execRename refines_execRenameNx
  refines_execSAdd refines_execSCard refines_execSDiff refines_execSDiffStore
  refines_execSInter refines_execSInterStore refines_execSIsMember refines_execSMembers
  refines_execSPop refines_execSRandMember refines_execSRem refines_execSScan
  refines_execSUnion refines_execSUnionStore refines_execSet refines_execSetBit
  refines_execSetEX refines_execSetNX refines_execSetRange refines_execStrLen
  refines_execTTL refines_execType : handlers.
#[local] Hint Resolve refines_execZAdd refines_execZCard refines_execZCount refines_execZIncrBy
  refines_execZLexCount refines_execZPopMin refines_execZRange refines_execZRangeByLex
  refines_execZRangeByScore refines_execZRank refines_execZRem refines_execZRemRangeByLex
  refines_execZRemRangeByRank refines_execZRemRangeByScore refines_execZRevRange refines_execZRevRangeByLex
  refines_execZRevRangeByScore refines_execZRevRank refines_execZScan refines_execZScore : handlers.
#[local] Hint Resolve refines_execGeoAdd refines_execGeoPos refines_execGeoDist refines_execGeoHash refines_undoGeoAdd
  refines_execDumpKey refines_execExistIn refines_execRenameFrom refines_execCopyFrom : handlers.
#[local] Hint Resolve refines_undoZAdd refines_undoZRem refines_undoZIncr : handlers.
#[local] Hint Resolve refines_undoDel refines_undoExpire refines_undoHDel refines_undoHMSet refines_undoHSet
  refines_undoLPop refines_undoLPush refines_undoLSet refines_undoMSet refines_undoRPop
  refines_undoRPopLPush refines_undoRPush refines_undoRename refines_undoSetChange : handlers.

Lemma refines_undoHIncr args : refines log_ok (undoHIncr args) (undoHIncr args).
Proof. apply refines_undoHSet. Qed.
#[local] Hint Resolve refines_undoHIncr refines_rollbackFirstKey : handlers.

Lemma prepare_ends args :
  post any (readFirstKey args) ∧ post any (writeFirstKey args) ∧ post any (writeAllKeys args) ∧
  post any (readAllKeys args) ∧ post any (noPrepare args) ∧ post any (prepareSetCalculate args) ∧
  post any (prepareSetCalculateStore args) ∧ post any (prepareRename args) ∧ post any (prepareRPopLPush args) ∧
  post any (prepareMSet args) ∧ post any (prepareMGet args).
Proof.
  unfold readFirstKey, writeFirstKey, prepareSetCalculateStore, prepareRename, prepareRPopLPush, arg_at.
  split_and!; post_auto.
Qed.
#[local] Hint Extern 1 (post any _) => apply prepare_ends : handlers.

Lemma plain_refines n f f' p (u : option (list bytes → GoM DB (list CmdLine))) u' a fl :
  (∀ args, refines any (f args) (f' args)) → (∀ args, post any (p args)) →
  match u, u' with
  | Some u, Some u' => ∀ args, refines log_ok (u args) (u' args) | None, None => True | _, _ => False
  end →
  handler_refines (registerCommand n f p u a fl) (registerCommand n f' p u' a fl).
Proof. by intros Hf Hp Hu. Qed.

Lemma normal_refines n f f' p (u : option (list bytes → GoM DB (list CmdLine))) u' a fl sg i j k :
  (∀ args, refines any (f args) (f' args)) → (∀ args, post any (p args)) →
  match u, u' with
  | Some u, Some u' => ∀ args, refines log_ok (u args) (u' args) | None, None => True | _, _ => False
  end →
  handler_refines (attachCommandExtra (registerCommand n f p u a fl) sg i j k)
    (attachCommandExtra (registerCommand n f' p u' a fl) sg i j k).
Proof. by intros Hf Hp Hu. Qed.

Lemma special_refines n a fl sg i j k :
  handler_refines (attachCommandExtra (registerSpecialCommand n a fl) sg i j k)
    (attachCommandExtra (registerSpecialCommand n a fl) sg i j k).
Proof. done. Qed.

Ltac entries_refine :=
  repeat (apply Forall2_cons; split; [first [apply special_refines | (apply normal_refines || apply plain_refines); [auto with handlers|intros args; auto with handlers|first [exact I|auto with handlers]]]|]);
  try apply Forall2_nil_2.

Lemma init_refines : Forall2 handler_refines init_all init_all.
Proof. unfold init_all. repeat apply Forall2_app; entries_refine. Qed.

Lemma register_refines cs cs' (t : Table DB) (t' : Table View) :
  Forall2 handler_refines cs cs' →
  (∀ n, option_Forall2 handler_refines (t !! n) (t' !! n)) →
  ∀ n, option_Forall2 handler_refines (register t cs !! n) (register t' cs' !! n).
Proof.
  intros Hc. revert t t'. induction Hc as [|c c' cs cs' Hh _ IH]; intros t t' Ht n; [apply Ht|].
  apply IH. clear n. intros n. rewrite <-(hr_name _ _ Hh). destruct (decide (name c = n)) as [<-|Hn].
  - rewrite !lookup_insert_eq. by constructor.
  - by rewrite !lookup_insert_ne.
Qed.

Lemma storeTable_refines n : option_Forall2 handler_refines (storeTable !! n) (storeTable !! n).
Proof.
  apply register_refines; [apply init_refines|]. intros m. rewrite !lookup_empty. constructor.
Qed.

Lemma handler_refines_safe c c' : handler_refines c c' → handler_safe c.
Proof.
  intros [_ _ _ _ Hp He Hu]. split; [|split; [done|]].
  - destruct (executor c), (executor c'); try done. intros args. by eapply refines_safe.
  - destruct (undo c), (undo c'); try done. intros args. by eapply refines_safe.
Qed.

(** Every command of the database's table ends, panics included, with the
    invariant kept and the locks as it found them. *)
Lemma cmdTable_safe n c : cmdTable !! n = Some c → handler_safe c.
Proof.
  unfold cmdTable, register, init_transaction. cbn [foldl].
  repeat (rewrite lookup_insert_Some; intros [[_ <-]|[_ H1]]; [|revert H1]).
  - split; [exact safe_execGetVersion|split; [intros args; apply (prepare_ends args)|exact I]].
  - intros Hc. pose proof (storeTable_refines n) as Hr. rewrite Hc in Hr.
    revert Hr. generalize (storeTable (S := View) !! n). intros o Hr. inversion Hr. subst.
    by eapply handler_refines_safe.
Qed.

Lemma cmdTable_refines n :
  specified n = true → option_Forall2 handler_refines (cmdTable !! n) (storeTable !! n).
Proof.
  intros Hn. assert (cmdTable !! n = storeTable !! n) as ->; [|apply storeTable_refines].
  unfold specified in Hn. apply negb_true_iff in Hn. apply orb_false_iff in Hn as [_ Hn]. rewrite String.eqb_neq in Hn.
  unfold cmdTable, register, init_transaction. cbn [foldl]. rewrite lookup_insert_ne; [done|]. by apply not_eq_sym.
Qed.

Lemma getver_entry : ∃ c, cmdTable !! "getver" = Some c ∧ undo c = None.
Proof. unfold cmdTable, register, init_transaction. cbn [foldl]. eexists. split; [apply lookup_insert_eq|done]. Qed.
End facts.
