(* ===== verification/Exec.v ===== *)
(** * database/database.go: executing one command

    [execNormalCommand] looks a command up, bumps the versions of the keys it
    declares for writing, locks the shards of its keys, runs it and unlocks them
    on return and on panic.  [Command] is the same run on the specification,
    where there are no locks and no versions.  The theorems say what every command
    line does to the locks, the versions and the stored data, and that a session
    of commands gives exactly the replies of the specification. *)

From Stdlib Require Import ZArith Lia Ascii String.
From stdpp Require Import base gmap strings numbers list.
From S2P Require Import Prelude GoStd Dict QuickList SetDS Protocol DB Marshal StringCmds KeyCmds ListCmds HashCmds SetCmds GeoCmds ClusterHelper Router.

Local Open Scope string_scope.
Local Open Scope list_scope.
Local Open Scope Z_scope.
Local Open Scope go_scope.

(** Calling a nil function value. *)
Definition nil_call : string := "invalid memory address or nil pointer dereference".

Definition unknown_command (cmdName : string) : Reply :=
  MakeErrReply ("ERR unknown command '" +:+ cmdName +:+ "'").

Section lookup.
Context {S : Type} (table : Table S).

(** The lookup and the arity check that [execNormalCommand] and [execWithLock]
    begin with: the reply of a rejected line, or the command. *)
Definition find_command (cmdLine : CmdLine) : outcome (Reply + command S) :=
  a0 ← arg_at cmdLine 0;
  let cmdName := ToLower (str a0) in
  match table !! cmdName with
  | None => Ret (inl (unknown_command cmdName))
  | Some cmd =>
      if negb (validateArity (arity cmd) cmdLine) then Ret (inl (ArgNumErrReply cmdName))
      else Ret (inr cmd)
  end.

(** [fun(db, cmdLine[1:])]. *)
Definition call_executor (cmd : command S) (cmdLine : CmdLine) : GoM S Reply :=
  match executor cmd with
  | None => go_panic nil_call
  | Some fun_ => fun_ (drop 1 cmdLine)
  end.

Definition call_prepare (cmd : command S) (cmdLine : CmdLine) : outcome key_lists :=
  match prepare cmd with
  | None => Panic nil_call
  | Some f => f (drop 1 cmdLine)
  end.

(** Executes a command under locks that the caller holds. *)
Definition execWithLock (cmdLine : CmdLine) : GoM S Reply :=
  let? cmd := go_lift (find_command cmdLine) in
  call_executor cmd cmdLine.

(** What a client command does, apart from locks and versions. *)
Definition Command (cmdLine : CmdLine) : GoM S Reply :=
  let? cmd := go_lift (find_command cmdLine) in
  _ ← go_lift (call_prepare cmd cmdLine);
  call_executor cmd cmdLine.

(** The deferred [recover] of [Server.Exec]. *)
Definition recovered (m : GoM S Reply) : GoM S Reply := λ s,
  match m s with
  | (Panic _, s') => (Ret UnknownErrReply, s')
  | r => r
  end.

(** One client's commands one after the other, with the replies it gets. *)
Fixpoint session (exec : CmdLine → GoM S Reply) (cmds : list CmdLine) : GoM S (list Reply) :=
  match cmds with
  | [] => mret []
  | cmd :: cmds' =>
      r ← recovered (exec cmd);
      rs ← session exec cmds';
      mret (r :: rs)
  end.
End lookup.

Section exec.
Context `{Env} (table : Table DB).

(** [db.RWLocks(write, read); defer db.RWUnLocks(write, read); m]. *)
Definition with_locks {A} (write read : list string) (m : GoM DB A) : GoM DB A :=
  _ ← DBOps.RWLocks write read;
  go_defer (DBOps.RWUnLocks write read) m.

Definition execNormalCommand (cmdLine : CmdLine) : GoM DB Reply :=
  let? cmd := go_lift (find_command table cmdLine) in
  keys ← go_lift (call_prepare cmd cmdLine);
  let '(write, read) := keys in
  _ ← DBOps.addVersion write;
  with_locks write read (call_executor cmd cmdLine).
End exec.

(** ** The commands that execute other commands *)

Section nested.
Context `{Env} {S : Type} `{Store S} (base : Table S).

(** The registrations of cluster_helper.go and geo.go that [base] leaves out. *)
Definition init_nested (run : CmdLine → GoM S Reply) : list (command S) := [
  registerCommand "RenameTo" (execRenameTo run) writeFirstKey (Some rollbackFirstKey) 4 flagWrite;
  registerCommand "RenameNxTo" (execRenameTo run) writeFirstKey (Some rollbackFirstKey) 4 flagWrite;
  registerCommand "CopyTo" (execCopyTo run) writeFirstKey (Some rollbackFirstKey) 5 flagWrite;
  attachCommandExtra (registerCommand "GeoRadius" execGeoRadius readFirstKey None (-6) flagReadOnly)
    [redisFlagWrite; redisFlagMovableKeys] 1 1 1;
  attachCommandExtra (registerCommand "GeoRadiusByMember" execGeoRadiusByMember readFirstKey None (-5) flagReadOnly)
    [redisFlagWrite; redisFlagMovableKeys] 1 1 1
].

(** A dump may hold a RENAMETO again, whose dump is shorter: as much fuel as the line has
    bytes is enough. *)
Fixpoint fullTable (fuel : nat) : Table S :=
  register base (init_nested (match fuel with
                              | O => λ _ s, (Block, s)
                              | Datatypes.S fuel' => execWithLock (fullTable fuel')
                              end)).
End nested.

(** The table of the code: every registration of every file.  [fuel] bounds the draws of
    RANDOMKEY and the dumps inside dumps. *)
Definition goTable `{Env} (fuel : nat) : Table DB := fullTable (register cmdTable (init_scans ++ init_random fuel)) fuel.

#[local] Opaque cmdTable storeTable.

(** ** Locks and versions *)

(** The versions after [addVersion]. *)
Definition bump (keys : list string) (m : gmap string Z) : gmap string Z :=
  foldl (λ m k, <[k := uint32 (default 0 (m !! k) + 1)]> m) m keys.

Section facts.
Context `{Env}.

Lemma same_maps_ok db d : same_maps (data db) d → db_ok db → db_ok (set_data db d).
Proof.
  intros Hs [Hd Ht Hv He]. split; try done; simpl; [by eapply same_maps_wf|].
  by rewrite (same_maps_shards (data db) d).
Qed.

Lemma same_maps_view db d : same_maps (data db) d → view (set_data db d) = view db.
Proof. intros Hs. unfold view. simpl. by rewrite (same_maps_shards (data db) d). Qed.

(** A locked section always gets its locks and always frees them. *)
Lemma with_locks_spec {A} write read (m : GoM DB A) db :
  db_ok db → unlocked (data db) →
  ∃ dl, same_maps (data db) dl ∧
    let r := m (set_data db dl) in
    (r.1 ≠ Block → db_ok r.2 → mutex <$> table (data r.2) = mutex <$> table dl →
     ∃ d2, with_locks write read m db = (r.1, set_data r.2 d2) ∧ same_maps (data r.2) d2 ∧ unlocked d2).
Proof.
  intros Hok Hu. destruct (RWLocks_held (data db) write read) as (dl & HL & Hs & Hh); [apply Hok|done|].
  exists dl. split; [done|]. intros r Hb Hok1 Hm. unfold with_locks, mbind, gom_bind, DBOps.RWLocks.
  rewrite HL. unfold go_defer. fold r. destruct (RWUnLocks_held (data r.2) write read) as (d2 & HU & Hs2 & Hu2).
  { apply Hok1. }
  { by eapply held_mutexes. }
  exists d2. split; [|done]. subst r. destruct (m (set_data db dl)) as [[a|msg|] db1]; [..|done]; simpl in *;
    unfold DBOps.RWUnLocks; by rewrite HU.
Qed.

Lemma addVersion_spec keys db : db_ok db →
  ∃ vm, DBOps.addVersion keys db = (Ret tt, set_versionMap db vm) ∧ cd_wf vm ∧
    cd_map vm = bump keys (cd_map (versionMap db)).
Proof.
  revert db. induction keys as [|key keys IH]; intros db Hok; simpl.
  { exists (versionMap db). split_and!; [by destruct db|apply Hok|done]. }
  unfold DBOps.GetVersion, mbind, gom_bind, go_get, go_modify. simpl.
  set (v := uint32 _). set (db1 := set_versionMap db _).
  destruct (cd_Put (versionMap db) key v) as (Hw & Hm & _); [apply Hok|].
  destruct (IH db1) as (vm & HA & Hvm & Hbump); [destruct Hok; by split|].
  exists vm. rewrite HA. split_and!; [done..|]. rewrite Hbump. unfold bump. simpl. f_equal.
  unfold db1. simpl. etransitivity; [exact Hm|]. unfold v. by rewrite cd_Get by apply Hok.
Qed.

(** The version map is the only thing [addVersion] writes. *)
Lemma set_versionMap_ok db vm : cd_wf vm → db_ok db → db_ok (set_versionMap db vm).
Proof. intros Hw [Hd Ht Hv He]. by split. Qed.

Lemma find_command_refines cmdLine :
  specified (command_name cmdLine) = true →
  match find_command cmdTable cmdLine, find_command storeTable cmdLine with
  | Ret (inr c), Ret (inr c') => handler_refines c c'
  | Ret (inl e), Ret (inl e') => e = e'
  | Panic m, Panic m' => m = m'
  | _, _ => False
  end.
Proof.
  unfold command_name, find_command, arg_at. destruct (cmdLine !! 0%nat) as [a|]; [|done]. simpl.
  intros Hn. pose proof (cmdTable_refines _ Hn) as Hr.
  destruct (cmdTable !! _) as [c|], (storeTable !! _) as [c'|]; inversion Hr as [? ? Hr'|]; subst; [|done].
  rewrite (hr_arity _ _ Hr'). by destruct (negb _).
Qed.

Lemma find_command_safe cmdLine :
  match find_command cmdTable cmdLine with
  | Ret (inr c) => handler_safe c
  | Block => False
  | _ => True
  end.
Proof.
  unfold find_command, arg_at. destruct (cmdLine !! 0%nat) as [a|]; [|done]. simpl.
  destruct (cmdTable !! _) as [c|] eqn:Ec; [|done]. destruct (negb _); [done|]. by eapply cmdTable_safe.
Qed.

Lemma call_executor_safe c cmdLine : handler_safe c → safe (call_executor c cmdLine).
Proof.
  intros (He & _). unfold call_executor. destruct (executor c); [by apply He|by intros db Hok].
Qed.

Lemma call_executor_refines c c' cmdLine :
  handler_refines c c' → refines any (call_executor c cmdLine) (call_executor c' cmdLine).
Proof.
  intros [_ _ _ _ _ He _]. unfold call_executor. by destruct (executor c), (executor c').
Qed.

(** The keys a command line writes: what [prepare] declares, if the line is
    accepted. *)
Definition write_keys (t : Table DB) (cmdLine : CmdLine) : list string :=
  match find_command t cmdLine with
  | Ret (inr c) => match call_prepare c cmdLine with Ret keys => keys.1 | _ => [] end
  | _ => []
  end.

Lemma call_prepare_post c cmdLine : handler_safe c → post any (call_prepare c cmdLine).
Proof. intros (_ & Hp & _). unfold call_prepare. destruct (prepare c); [by apply Hp|done]. Qed.

Lemma call_prepare_refines c c' cmdLine :
  handler_refines c c' → call_prepare c cmdLine = call_prepare c' cmdLine.
Proof. intros Hr. unfold call_prepare. by rewrite (hr_prepare _ _ Hr). Qed.

(** A handler run under its locks: it sees the database as it was, and nothing but
    its own changes is left behind. *)
Lemma with_locks_safe {A} write read (m : GoM DB A) db :
  db_ok db → unlocked (data db) → safe m →
  ∃ dbl, db_ok dbl ∧ view dbl = view db ∧
    let r := with_locks write read m db in
    r.1 = (m dbl).1 ∧ view r.2 = view (m dbl).2 ∧ db_ok r.2 ∧ unlocked (data r.2) ∧ versionMap r.2 = versionMap db.
Proof.
  intros Hok Hu Hm. destruct (with_locks_spec write read m db Hok Hu) as (dl & Hs & Hr).
  exists (set_data db dl). split_and!; [by apply same_maps_ok|by apply same_maps_view|].
  destruct (Hm (set_data db dl)) as (Hok1 & Hk & Hp); [by apply same_maps_ok|].
  unfold kept in Hk. injection Hk as Hk Hv.
  destruct Hr as (d2 & -> & Hs2 & Hu2); [by intros E; rewrite E in Hp|done..|]. simpl.
  split_and!; [done|by apply same_maps_view|by apply same_maps_ok|done|done].
Qed.

(** A run with versions and locks. *)
Lemma locked_effect {A} (m : GoM DB A) write read db :
  db_ok db → unlocked (data db) → safe m →
  ∃ dbl, db_ok dbl ∧ view dbl = view db ∧
    let r := (_ ← DBOps.addVersion write; with_locks write read m) db in
    let q := m dbl in
    r.1 = q.1 ∧ view r.2 = view q.2 ∧ db_ok r.2 ∧ unlocked (data r.2) ∧ post any r.1 ∧
    cd_map (versionMap r.2) = bump write (cd_map (versionMap db)).
Proof.
  intros Hok Hu Hm. destruct (addVersion_spec write db Hok) as (vm & HA & Hvm & Hb).
  destruct (with_locks_safe write read _ (set_versionMap db vm) (set_versionMap_ok _ _ Hvm Hok) Hu Hm)
    as (dbl & Hokl & Hvl & H1 & H2 & H3 & H4 & H5).
  exists dbl. split; [done|]. split; [by rewrite Hvl|]. unfold mbind at 1, gom_bind. rewrite HA. simpl.
  split_and!; try done.
  - rewrite H1. by destruct (Hm dbl Hokl) as (_ & _ & ?).
  - by rewrite H5.
Qed.

(** A command that passed the checks. *)
Lemma locked_command c cmdLine write read db :
  db_ok db → unlocked (data db) → handler_safe c →
  ∃ dbl, db_ok dbl ∧ view dbl = view db ∧
    let r := (_ ← DBOps.addVersion write; with_locks write read (call_executor c cmdLine)) db in
    let q := call_executor c cmdLine dbl in
    r.1 = q.1 ∧ view r.2 = view q.2 ∧ db_ok r.2 ∧ unlocked (data r.2) ∧ post any r.1 ∧
    cd_map (versionMap r.2) = bump write (cd_map (versionMap db)).
Proof. intros Hok Hu Hc. apply locked_effect; [done..|]. by apply call_executor_safe. Qed.

(** The command line's fate before its handler runs. *)
Lemma execNormalCommand_eq t cmdLine db :
  execNormalCommand t cmdLine db =
  match find_command t cmdLine with
  | Ret (inl e) => (Ret e, db)
  | Ret (inr c) =>
      match call_prepare c cmdLine with
      | Ret keys => (_ ← DBOps.addVersion keys.1; with_locks keys.1 keys.2 (call_executor c cmdLine)) db
      | Panic m => (Panic m, db)
      | Block => (Block, db)
      end
  | Panic m => (Panic m, db)
  | Block => (Block, db)
  end.
Proof.
  unfold execNormalCommand, early, go_lift, mbind, gom_bind.
  destruct (find_command t cmdLine) as [[e|c]| |]; try done. by destruct (call_prepare c cmdLine) as [[]| |].
Qed.

Lemma Command_eq {S} (t : Table S) cmdLine s :
  Command t cmdLine s =
  match find_command t cmdLine with
  | Ret (inl e) => (Ret e, s)
  | Ret (inr c) =>
      match call_prepare c cmdLine with
      | Ret keys => call_executor c cmdLine s
      | Panic m => (Panic m, s)
      | Block => (Block, s)
      end
  | Panic m => (Panic m, s)
  | Block => (Block, s)
  end.
Proof.
  unfold Command, early, go_lift, mbind, gom_bind.
  by destruct (find_command t cmdLine) as [[e|c]| |].
Qed.

(** Whatever command line a client sends. *)
Lemma execNormalCommand_ok (cmdLine : CmdLine) (db : DB) :
  db_ok db → unlocked (data db) →
  let r := execNormalCommand cmdTable cmdLine db in
  r.1 ≠ Block ∧ db_ok r.2 ∧ unlocked (data r.2) ∧
  cd_map (versionMap r.2) = bump (write_keys cmdTable cmdLine) (cd_map (versionMap db)).
Proof.
  intros Hok Hu. rewrite execNormalCommand_eq. unfold write_keys. pose proof (find_command_safe cmdLine) as Hf.
  destruct (find_command cmdTable cmdLine) as [[e|c]| |]; [by split_and!| |by split_and!|done].
  pose proof (call_prepare_post c cmdLine Hf) as Hp.
  destruct (call_prepare c cmdLine) as [keys| |]; [|by split_and!|done].
  destruct (locked_command c cmdLine keys.1 keys.2 db Hok Hu Hf) as (dbl & _ & _ & H1 & H2 & H3 & H4 & H5 & H6).
  split_and!; try done. intros E. by rewrite E in H5.
Qed.

(** ** The table of the code *)

Lemma goTable_lookup fuel n : n ∉ unbounded → goTable fuel !! n = cmdTable !! n.
Proof.
  intros Hn. unfold unbounded, unending in Hn. cbn [app] in Hn. rewrite !not_elem_of_cons in Hn.
  destruct Hn as (H1 & H2 & H3 & H4 & H5 & H6 & H7 & H8 & _).
  assert (∀ base : Table DB, fullTable base fuel !! n = base !! n) as E.
  { intros base. destruct fuel; cbn [fullTable]; unfold register, init_nested; cbn [foldl]; rewrite !lookup_insert_ne; done || by apply not_eq_sym. }
  unfold goTable. rewrite E. unfold register, init_scans, init_random. cbn [app foldl]. rewrite !lookup_insert_ne; done || by apply not_eq_sym.
Qed.

Lemma find_command_go fuel line : command_name line ∉ unbounded → find_command (goTable fuel) line = find_command cmdTable line.
Proof.
  intros Hn. unfold find_command, arg_at. unfold command_name in Hn. destruct (line !! 0%nat); [|done]. cbn [mbind outcome_bind]. by rewrite goTable_lookup.
Qed.

Lemma execNormalCommand_go fuel line : command_name line ∉ unbounded →
  execNormalCommand (goTable fuel) line = execNormalCommand cmdTable line.
Proof. intros Hn. unfold execNormalCommand. by rewrite find_command_go. Qed.

Lemma execWithLock_go fuel line : command_name line ∉ unbounded → execWithLock (goTable fuel) line = execWithLock cmdTable line.
Proof. intros Hn. unfold execWithLock. by rewrite find_command_go. Qed.

Lemma session_ext (f g : CmdLine → GoM DB Reply) cmds : Forall (λ c, f c = g c) cmds → session f cmds = session g cmds.
Proof. intros Hc. induction Hc as [|c cmds E _ IH]; [done|]. cbn [session]. by rewrite E, IH. Qed.

(** Every [prepare] of the table ends. *)
Lemma goTable_prepare fuel n c f args : goTable fuel !! n = Some c → prepare c = Some f → f args ≠ Block.
Proof.
  assert (∀ o : outcome key_lists, post any o → o ≠ Block) as Hb by (by intros [| |]).
  unfold goTable. destruct fuel; cbn [fullTable]; unfold register, init_nested, init_scans, init_random; cbn [app foldl].
  all: repeat (rewrite lookup_insert_Some; intros [[_ <-]|[_ H1]]; [intros [= <-]; apply Hb, (prepare_ends args)|revert H1]).
  all: intros Hc Hf; destruct (cmdTable_safe _ _ Hc) as (_ & Hp & _); rewrite Hf in Hp; by apply Hb.
Qed.

(** KEYS and SCAN, which take no lock before they walk. *)
Lemma goTable_walk fuel n : n ∈ ["keys"; "scan"] →
  ∃ c f, goTable fuel !! n = Some c ∧ prepare c = Some noPrepare ∧ executor c = Some f ∧ ∀ args, safe_free (f args).
Proof.
  rewrite !elem_of_cons, elem_of_nil. intros Hn.
  assert (∃ c f, init_scans !! (if String.eqb n "keys" then 0 else 1)%nat = Some c ∧ name c = n ∧ prepare c = Some noPrepare ∧ executor c = Some f ∧
    ∀ args, safe_free (f args)) as (c & f & Hi & En & Hp & He & Hf).
  { destruct Hn as [->|[->|[]]]; do 2 eexists; (split_and!; [reflexivity..|]); [exact safe_execKeys|exact safe_execScan]. }
  exists c, f. split_and!; try done. clear Hp He Hf. unfold goTable.
  destruct Hn as [->|[->|[]]]; injection Hi as <-; destruct fuel; cbn [fullTable]; unfold register, init_nested, init_scans, init_random;
    cbn [app foldl]; repeat (rewrite lookup_insert_ne by done); apply lookup_insert_eq.
Qed.

Lemma RWLocks_nil db : DBOps.RWLocks [] [] db = (Ret tt, db) ∧ DBOps.RWUnLocks [] [] db = (Ret tt, db).
Proof. by destruct db. Qed.

Lemma no_locks {A} (m : GoM DB A) db : (m db).1 ≠ Block → with_locks [] [] m db = m db.
Proof.
  intros Hb. unfold with_locks. erewrite bind_Ret by apply RWLocks_nil. unfold go_defer.
  destruct (m db) as [[a|msg|] db1]; [..|done]; by rewrite (proj2 (RWLocks_nil db1)).
Qed.

Lemma walk_ok fuel line db : command_name line ∈ ["keys"; "scan"] → db_ok db → unlocked (data db) →
  let r := execNormalCommand (goTable fuel) line db in
  r.1 ≠ Block ∧ db_ok r.2 ∧ unlocked (data r.2) ∧ cd_map (versionMap r.2) = bump (write_keys (goTable fuel) line) (cd_map (versionMap db)).
Proof.
  intros Hn Hok Hu. destruct (goTable_walk fuel _ Hn) as (c & f & Ec & Hp & He & Hf). rewrite execNormalCommand_eq. unfold write_keys, find_command, arg_at.
  unfold command_name in *. destruct (line !! 0%nat) as [a|]; [|by split_and!]. cbn [mbind outcome_bind]. simpl in Ec. rewrite Ec.
  destruct (negb _); [by split_and!|]. unfold call_prepare. rewrite Hp. unfold noPrepare. destruct (Hf (drop 1 line) db Hok Hu) as (H1 & H2 & H3).
  assert (call_executor c line = f (drop 1 line)) as Ex by (unfold call_executor; by rewrite He).
  assert ((f (drop 1 line) db).1 ≠ Block) as Hb by (intros E; by rewrite E in H3).
  cbn [fst snd]. assert ((_ ← DBOps.addVersion []; with_locks [] [] (call_executor c line)) db = f (drop 1 line) db) as ->.
  { unfold mbind, gom_bind. cbn. rewrite Ex. by apply no_locks. }
  cbv zeta. split_and!; [done..|by eapply kept_unlocked|]. injection H2 as _ E. by rewrite E.
Qed.

(** [C2] A command line is given to a database that has its invariant and no lock held, and its
    name is none of RENAMETO, RENAMENXTO, COPYTO, GEORADIUS, GEORADIUSBYMEMBER and RANDOMKEY
    (which may loop for ever): any other registered name, an unknown name, any
    arguments, even an empty line.  The call then ends (it never waits for a lock it holds
    itself), with a reply or a panic; all locks are free again; the invariant holds;
    and exactly the keys the command declares for writing have a new version. *)
Theorem execNormalCommand_safe (fuel : nat) (cmdLine : CmdLine) (db : DB) :
  command_name cmdLine ∉ unending → db_ok db → unlocked (data db) →
  let r := execNormalCommand (goTable fuel) cmdLine db in
  r.1 ≠ Block ∧ db_ok r.2 ∧ unlocked (data r.2) ∧
  cd_map (versionMap r.2) = bump (write_keys (goTable fuel) cmdLine) (cd_map (versionMap db)).
Proof.
  intros Hn. destruct (decide (command_name cmdLine ∈ ["keys"; "scan"])) as [Hw|Hw]; [by apply walk_ok|].
  assert (command_name cmdLine ∉ unbounded) as Hb by (unfold unbounded; rewrite elem_of_app; tauto).
  rewrite execNormalCommand_go by done. unfold write_keys. rewrite find_command_go by done. exact (execNormalCommand_ok cmdLine db).
Qed.

(** One command gives the outcome and the contents of the specification. *)
Lemma execNormalCommand_refines cmdLine db :
  specified (command_name cmdLine) = true → db_ok db → unlocked (data db) →
  let r := execNormalCommand cmdTable cmdLine db in
  let r' := Command storeTable cmdLine (view db) in
  r.1 = r'.1 ∧ view r.2 = r'.2 ∧ db_ok r.2 ∧ unlocked (data r.2) ∧ r.1 ≠ Block.
Proof.
  intros Hn Hok Hu. rewrite execNormalCommand_eq, Command_eq. pose proof (find_command_refines cmdLine Hn) as Hf.
  destruct (find_command cmdTable cmdLine) as [[e|c]| |], (find_command storeTable cmdLine) as [[e'|c']| |];
    try done; [subst; by split_and!| |subst; by split_and!].
  rewrite <-(call_prepare_refines c c' cmdLine Hf).
  pose proof (handler_refines_safe _ _ Hf) as Hs. pose proof (call_prepare_post c cmdLine Hs) as Hp.
  destruct (call_prepare c cmdLine) as [keys| |]; [|by split_and!|done].
  destruct (locked_command c cmdLine keys.1 keys.2 db Hok Hu Hs) as (dbl & Hokl & Hvl & H1 & H2 & H3 & H4 & H5 & _).
  destruct (call_executor_refines c c' cmdLine Hf dbl Hokl) as (E1 & E2 & _). rewrite Hvl in E1, E2.
  cbv zeta. split_and!; [by rewrite H1|by rewrite H2|done..|]. intros E. by rewrite E in H5.
Qed.

Lemma session_refines cmds db :
  Forall (λ c, specified (command_name c) = true) cmds → db_ok db → unlocked (data db) →
  (session (execNormalCommand cmdTable) cmds db).1 = (session (Command storeTable) cmds (view db)).1 ∧
  view (session (execNormalCommand cmdTable) cmds db).2 = (session (Command storeTable) cmds (view db)).2 ∧
  post any (session (execNormalCommand cmdTable) cmds db).1.
Proof.
  intros Hc. revert db. induction Hc as [|c cmds Hc _ IH]; intros db Hok Hu; [done|]. cbn [session].
  destruct (execNormalCommand_refines c db Hc Hok Hu) as (H1 & H2 & H3 & H4 & H5).
  unfold recovered, mbind, gom_bind. destruct (execNormalCommand cmdTable c db) as [o db1].
  destruct (Command storeTable c (view db)) as [o' v1]. simpl in *. subst o' v1.
  destruct (IH db1 H3 H4) as (E1 & E2 & E3). destruct o; simpl; [..|done].
  all: destruct (session (execNormalCommand cmdTable) cmds db1) as [[rs| |] db2],
    (session (Command storeTable) cmds (view db1)) as [[rs'| |] v2]; simpl in *; try done.
  all: injection E1 as ->; by split_and!.
Qed.

Lemma make_db_ok n m : n ≤ 2147483648 → m ≤ 2147483648 →
  db_ok (make_db n m) ∧ unlocked (data (make_db n m)) ∧ view (make_db n m) = mkView ∅ ∅ [] 0.
Proof.
  intros Hn Hm. unfold make_db.
  destruct (MakeConcurrent_wf (V := DataEntity) n) as [H1 E1]; [done|].
  destruct (MakeConcurrent_wf (V := Z) m) as [H2 E2]; [done|].
  destruct (MakeConcurrent_wf (V := Z) n) as [H3 E3]; [done|].
  split_and!.
  - split; try done. simpl. intros k e Hk. by rewrite E1, lookup_empty in Hk.
  - intros i s Hs. by eapply MakeConcurrent_unlocked.
  - unfold view. simpl. by rewrite E1, E2.
Qed.

(** [C1] A client starts from the empty database and sends any sequence of command lines, well
    formed or not, with registered names or not, except KEYS, SCAN and GETVER (which look at
    shards and versions) and RENAMETO, RENAMENXTO, COPYTO, GEORADIUS, GEORADIUSBYMEMBER
    and RANDOMKEY (which may not return).  It gets reply for reply what the same handlers
    give on a pair of finite maps (values, expiry times) without shards, locks, versions
    and callbacks, the error reply of a recovered panic included, and the database ends with
    the contents of the maps: the concurrent dictionary, the locking, the versions and the
    callbacks are not observable. *)
Theorem session_refines_spec (fuel : nat) (cmds : list CmdLine) :
  Forall (λ c, specified (command_name c) = true) cmds →
  let r := session (execNormalCommand (goTable fuel)) cmds makeDB in
  let r' := session (Command storeTable) cmds (mkView ∅ ∅ [] 0) in
  r.1 = r'.1 ∧ view r.2 = r'.2 ∧ r.1 ≠ Block.
Proof.
  intros Hc. destruct (make_db_ok dataDictSize ttlDictSize) as (Hok & Hu & Hv); [by compute..|].
  fold makeDB in Hok, Hu, Hv. destruct (session_refines cmds makeDB Hc Hok Hu) as (H1 & H2 & H3).
  rewrite Hv in H1, H2. rewrite (session_ext _ (execNormalCommand cmdTable)).
  - split_and!; [done..|]. intros E. by rewrite E in H3.
  - eapply Forall_impl; [exact Hc|]. intros c Hn. by apply execNormalCommand_go, specified_bounded.
Qed.
End facts.

#[local] Existing Instance demo_env.

Lemma execNormalCommand_safe_witness :
  let r := execNormalCommand (goTable 5) (ToCmdLine ["SET"; "k"; "v"]) (make_db 1 1) in
  r.1 ≠ Block ∧ db_ok r.2 ∧ unlocked (data r.2) ∧
  cd_map (versionMap r.2) =
    bump (write_keys (goTable 5) (ToCmdLine ["SET"; "k"; "v"])) (cd_map (versionMap (make_db 1 1))).
Proof.
  apply (execNormalCommand_safe 5); [apply (bool_decide_eq_true_1 (_ ∉ _)); reflexivity|apply (make_db_ok 1 1); lia..].
Defined.

Lemma session_refines_spec_witness :
  let cmds := [ToCmdLine ["SET"; "k"; "1"]; ToCmdLine ["INCR"; "k"]; ToCmdLine ["LPUSH"; "k"; "x"]; ToCmdLine ["nope"]] in
  (session (execNormalCommand (goTable 5)) cmds makeDB).1 =
  (session (Command storeTable) cmds (mkView ∅ ∅ [] 0)).1.
Proof. apply (session_refines_spec 5). repeat constructor. Defined.
