(* ===== verification/Tx.v ===== *)
(** * database/transaction.go: MULTI, EXEC, WATCH and DISCARD

    [ExecMulti] runs the queued commands under the locks of all their keys,
    collects the undo log of each before it runs, and on an error reply runs the
    undo logs backwards.  [Transaction] is the same on the specification, without
    locks, versions and WATCH.  The connection is part of the state of the
    commands that queue or run a transaction. *)

From Stdlib Require Import ZArith Lia Ascii String.
From stdpp Require Import base gmap strings numbers list.
From S2P Require Import Prelude GoStd Dict QuickList SetDS Protocol DB Marshal StringCmds KeyCmds ListCmds HashCmds SetCmds Conn Router Exec.

Local Open Scope string_scope.
Local Open Scope list_scope.
Local Open Scope Z_scope.
Local Open Scope go_scope.

Import Conn (Connection).

(** ** The queued commands *)

Section transaction.
Context {S : Type} (table : Table S).

Definition GetUndoLogs (cmdLine : CmdLine) : GoM S (list CmdLine) :=
  a0 ← arg cmdLine 0;
  match table !! ToLower (str a0) with
  | None => mret []
  | Some cmd =>
      match undo cmd with
      | None => mret []
      | Some f => f (drop 1 cmdLine)
      end
  end.

Definition GetRelatedKeys (cmdLine : CmdLine) : outcome key_lists :=
  a0 ← arg_at cmdLine 0;
  match table !! ToLower (str a0) with
  | None => Ret ([], [])
  | Some cmd =>
      match prepare cmd with
      | None => Ret ([], [])
      | Some f => f (drop 1 cmdLine)
      end
  end.

(** The keys of all queued commands; a name without an entry is a nil pointer. *)
Fixpoint collect_keys (cmdLines : list CmdLine) (writeKeys readKeys : list string) : outcome key_lists :=
  match cmdLines with
  | [] => Ret (writeKeys, readKeys)
  | cmdLine :: rest =>
      a0 ← arg_at cmdLine 0;
      match table !! ToLower (str a0) with
      | None => Panic nil_call
      | Some cmd =>
          keys ← call_prepare cmd cmdLine;
          collect_keys rest (writeKeys ++ keys.1) (readKeys ++ keys.2)
      end
  end.

(** The execution loop: whether it was aborted, the results and the undo logs of
    the commands that succeeded. *)
Fixpoint exec_loop (cmdLines : list CmdLine) (results : list Reply) (undoCmdLines : list (list CmdLine))
    : GoM S (bool * list Reply * list (list CmdLine)) :=
  match cmdLines with
  | [] => mret (false, results, undoCmdLines)
  | cmdLine :: rest =>
      undoLogs ← GetUndoLogs cmdLine;
      result ← execWithLock table cmdLine;
      isErr ← go_lift (IsErrorReply result);
      if (isErr : bool) then mret (true, results, undoCmdLines)
      else exec_loop rest (results ++ [result]) (undoCmdLines ++ [undoLogs])
  end.

Definition run_lines (cmdLines : list CmdLine) : GoM S unit :=
  go_for cmdLines (λ cmdLine, _ ← execWithLock table cmdLine; mret tt).

(** The undo logs, last command first. *)
Definition undo_loop (undoCmdLines : list (list CmdLine)) : GoM S unit :=
  go_for (rev undoCmdLines) run_lines.

Definition execAborted : Reply :=
  MakeErrReply "EXECABORT Transaction discarded because of previous errors.".

(** [onSuccess] is what a transaction does after its last command. *)
Definition run_queue (onSuccess : GoM S unit) (cmdLines : list CmdLine) : GoM S Reply :=
  r ← exec_loop cmdLines [] [];
  let '(aborted, results, undoCmdLines) := r in
  if negb aborted then _ ← onSuccess; mret (MultiRawReply results)
  else _ ← undo_loop undoCmdLines; mret execAborted.

(** What a transaction does, apart from locks, versions and WATCH. *)
Definition Transaction (cmdLines : list CmdLine) : GoM S Reply := run_queue (mret tt) cmdLines.
End transaction.

(** ** WATCH and EXEC on one database *)

Section exec.
Context (table : Table DB).

(** Any order of the iteration over the watched keys gives the same answer. *)
Fixpoint isWatchingChanged (watching : list (string * Z)) : GoM DB bool :=
  match watching with
  | [] => mret false
  | (key, ver) :: rest =>
      currentVersion ← DBOps.GetVersion key;
      if negb (ver =? currentVersion) then mret true else isWatchingChanged rest
  end.

Definition ExecMulti (watching : gmap string Z) (cmdLines : list CmdLine) : GoM DB Reply :=
  keys ← go_lift (collect_keys table cmdLines [] []);
  let '(writeKeys, readKeys) := keys in
  let watchingKeys := (map_to_list watching).*1 in
  with_locks writeKeys (readKeys ++ watchingKeys)
    (changed ← isWatchingChanged (map_to_list watching);
     if (changed : bool) then mret EmptyMultiBulkReply
     else run_queue table (DBOps.addVersion writeKeys) cmdLines).
End exec.

(** ** The transaction commands of a connection *)

Record Client := mkClient { cl_db : DB; cl_conn : Connection }.

Definition on_db {A} (m : GoM DB A) : GoM Client A := λ s,
  let '(o, db) := m (cl_db s) in (o, mkClient db (cl_conn s)).

Definition on_conn (f : Connection → Connection) : GoM Client unit :=
  go_modify (λ s, mkClient (cl_db s) (f (cl_conn s))).

Definition conn_get {A} (f : Connection → A) : GoM Client A := go_get (λ s, f (cl_conn s)).

Section client.
Context (table : Table DB).

Definition Watch (args : list bytes) : GoM Client Reply :=
  _ ← go_for args (λ bkey,
    ver ← on_db (DBOps.GetVersion (str bkey));
    on_conn (λ c, Conn.watch_key c (str bkey) ver));
  mret OkReply.

Definition StartMulti : GoM Client Reply :=
  multi ← conn_get Conn.InMultiState;
  if (multi : bool) then mret (MakeErrReply "ERR MULTI calls can not be nested")
  else _ ← on_conn (λ c, Conn.SetMultiState c true); mret OkReply.

Definition tx_error (err : Reply) : GoM Client Reply :=
  _ ← on_conn (λ c, Conn.AddTxError c err); mret err.

Definition EnqueueCmd (cmdLine : CmdLine) : GoM Client Reply :=
  a0 ← arg cmdLine 0;
  let cmdName := ToLower (str a0) in
  match table !! cmdName with
  | None => tx_error (unknown_command cmdName)
  | Some cmd =>
      match prepare cmd with
      | None => tx_error (MakeErrReply ("ERR command '" +:+ cmdName +:+ "' cannot be used in MULTI"))
      | Some _ =>
          if negb (validateArity (arity cmd) cmdLine) then tx_error (ArgNumErrReply cmdName)
          else _ ← on_conn (λ c, Conn.EnqueueCmd c cmdLine); mret QueuedReply
      end
  end.

Definition execMulti : GoM Client Reply :=
  multi ← conn_get Conn.InMultiState;
  if negb multi then mret (MakeErrReply "ERR EXEC without MULTI")
  else
    go_defer (on_conn (λ c, Conn.SetMultiState c false))
      (errs ← conn_get Conn.GetTxErrors;
       if (0 <? length errs)%nat then mret execAborted
       else
         cmdLines ← conn_get Conn.GetQueuedCmdLine;
         watching ← conn_get Conn.GetWatching;
         on_db (ExecMulti table watching cmdLines)).

Definition DiscardMulti : GoM Client Reply :=
  multi ← conn_get Conn.InMultiState;
  if negb multi then mret (MakeErrReply "ERR DISCARD without MULTI")
  else
    _ ← on_conn Conn.ClearQueuedCmds;
    _ ← on_conn (λ c, Conn.SetMultiState c false);
    mret OkReply.

(** [db.Exec]: one command line of a connection on its database. *)
Definition Exec (cmdLine : CmdLine) : GoM Client Reply :=
  a0 ← arg cmdLine 0;
  let cmdName := ToLower (str a0) in
  let alone (m : GoM Client Reply) : GoM Client Reply :=
    if negb (length cmdLine =? 1)%nat then mret (ArgNumErrReply cmdName) else m in
  if String.eqb cmdName "multi" then alone StartMulti
  else if String.eqb cmdName "discard" then alone DiscardMulti
  else if String.eqb cmdName "exec" then alone execMulti
  else if String.eqb cmdName "watch" then
    if negb (validateArity (-2) cmdLine) then mret (ArgNumErrReply cmdName)
    else Watch (drop 1 cmdLine)
  else
    multi ← conn_get Conn.InMultiState;
    if (multi : bool) then EnqueueCmd cmdLine
    else on_db (execNormalCommand table cmdLine).
End client.

(** ** Facts *)

#[local] Opaque cmdTable storeTable.

Section facts.
Context `{Env}.

Lemma cmdTable_entry n : specified n = true →
  match cmdTable !! n, storeTable !! n with
  | Some c, Some c' => handler_refines c c'
  | None, None => True
  | _, _ => False
  end.
Proof.
  intros Hn. pose proof (cmdTable_refines n Hn) as Hr.
  destruct (cmdTable !! n), (storeTable !! n); by inversion Hr.
Qed.

Lemma GetUndoLogs_refines line :
  log_line line → refines log_ok (GetUndoLogs cmdTable line) (GetUndoLogs storeTable line).
Proof.
  intros Hl. unfold GetUndoLogs. unfold arg, command_name in *. destruct (line !! 0%nat) as [a|]; simpl in Hl.
  2: { intros db Hok. by split_and!. }
  apply (refines_bind (eq a)); [by apply refines_ret|]. intros ? <-. pose proof (cmdTable_entry _ Hl) as Hr.
  destruct (cmdTable !! _) as [c|], (storeTable !! _) as [c'|]; try done; [|apply refines_ret; constructor].
  pose proof (hr_undo _ _ Hr) as Hu. destruct (undo c), (undo c'); try done. apply refines_ret. constructor.
Qed.

Lemma execWithLock_refines line :
  log_line line → refines any (execWithLock cmdTable line) (execWithLock storeTable line).
Proof.
  intros Hl db Hok. unfold execWithLock, early, go_lift, mbind, gom_bind.
  pose proof (find_command_refines line Hl) as Hf.
  destruct (find_command cmdTable line) as [[e|c]| |], (find_command storeTable line) as [[e'|c']| |];
    try done; [by subst| |by subst]. by apply call_executor_refines.
Qed.

Lemma IsErrorReply_post r : post any (IsErrorReply r).
Proof. unfold IsErrorReply. by destruct (ToBytes r). Qed.
#[local] Hint Resolve GetUndoLogs_refines execWithLock_refines IsErrorReply_post : refines.

Lemma exec_loop_refines lines results undos :
  log_ok lines → Forall log_ok undos →
  refines (λ r, Forall log_ok r.2) (exec_loop cmdTable lines results undos) (exec_loop storeTable lines results undos).
Proof.
  intros Hl. revert results undos. induction Hl as [|line lines Hl _ IH]; intros results undos Hu; cbn [exec_loop].
  { by apply refines_ret. }
  eapply refines_bind; [by apply GetUndoLogs_refines|]. intros logs Hlogs.
  eapply refines_bind; [by apply execWithLock_refines|]. intros result _.
  eapply refines_bind; [apply refines_lift, IsErrorReply_post|]. intros [] _; [by apply refines_ret|].
  apply IH. apply Forall_app. split; [done|]. by constructor.
Qed.

Lemma go_for_refines {A} (P : A → Prop) xs (f : A → GoM DB unit) f' :
  Forall P xs → (∀ x, P x → refines any (f x) (f' x)) → refines any (go_for xs f) (go_for xs f').
Proof.
  intros Hx Hf. induction Hx as [|x xs Hx _ IH]; simpl; [by apply refines_ret|].
  eapply refines_bind; [by apply Hf|]. intros _ _. apply IH.
Qed.

Lemma undo_loop_refines undos :
  Forall log_ok undos → refines any (undo_loop cmdTable undos) (undo_loop storeTable undos).
Proof.
  intros Hu. apply (go_for_refines log_ok); [by apply Forall_rev|]. intros lines Hl.
  apply (go_for_refines log_line); [done|]. intros line Hline.
  eapply refines_bind; [by apply execWithLock_refines|]. intros _ _. by apply refines_ret.
Qed.

(** ** Any queue *)

Lemma execWithLock_safe line : safe (execWithLock cmdTable line).
Proof.
  intros db Hok. unfold execWithLock, early, go_lift, mbind, gom_bind.
  pose proof (find_command_safe line) as Hf. destruct (find_command cmdTable line) as [[e|c]| |]; try done.
  by apply call_executor_safe.
Qed.

Lemma GetUndoLogs_safe line : safe (GetUndoLogs cmdTable line).
Proof.
  apply safe_bind; [apply safe_arg|]. intros a. destruct (cmdTable !! _) as [c|] eqn:Ec; [|apply safe_ret].
  pose proof (cmdTable_safe _ _ Ec) as (_ & _ & Hu). destruct (undo c); [by apply Hu|apply safe_ret].
Qed.

Lemma exec_loop_safe lines results undos : safe (exec_loop cmdTable lines results undos).
Proof.
  revert results undos. induction lines as [|line lines IH]; intros results undos; cbn [exec_loop]; [apply safe_ret|].
  apply safe_bind; [apply GetUndoLogs_safe|]. intros logs.
  apply safe_bind; [apply execWithLock_safe|]. intros result.
  apply safe_bind; [apply safe_lift, IsErrorReply_post|]. intros []; [apply safe_ret|apply IH].
Qed.

Lemma go_for_safe {A} (xs : list A) (f : A → GoM DB unit) : (∀ x, safe (f x)) → safe (go_for xs f).
Proof.
  intros Hf. induction xs as [|x xs IH]; simpl; [apply safe_ret|]. apply safe_bind; [apply Hf|]. intros _. apply IH.
Qed.

Lemma undo_loop_safe undos : safe (undo_loop cmdTable undos).
Proof.
  apply go_for_safe. intros lines. apply go_for_safe. intros line.
  apply safe_bind; [apply execWithLock_safe|]. intros _. apply safe_ret.
Qed.

Lemma collect_keys_post lines ws rs : post any (collect_keys cmdTable lines ws rs).
Proof.
  revert ws rs. induction lines as [|line lines IH]; intros ws rs; cbn [collect_keys]; [done|].
  apply (post_bind any); [unfold arg_at; post_auto|]. intros a _.
  destruct (cmdTable !! _) as [c|] eqn:Ec; [|done].
  apply (post_bind any); [|intros keys _; apply IH]. apply call_prepare_post. by eapply cmdTable_safe.
Qed.

(** ** EXEC *)

Definition version (db : DB) (k : string) : Z := default 0 (cd_map (versionMap db) !! k).

(** No watched key has another version than when it was watched. *)
Definition watch_holds (db : DB) (watching : gmap string Z) : Prop :=
  map_Forall (λ k ver, version db k = ver) watching.

#[export] Instance watch_holds_dec db watching : Decision (watch_holds db watching).
Proof. apply _. Defined.

Lemma isWatchingChanged_list ws db : db_ok db →
  isWatchingChanged ws db = (Ret (existsb (λ kv, negb (kv.2 =? version db kv.1)) ws), db).
Proof.
  intros Hok. induction ws as [|[k ver] ws IH]; cbn [isWatchingChanged existsb]; [done|].
  unfold DBOps.GetVersion, mbind, gom_bind, go_get in *. rewrite (cd_Get _ _ (ok_version _ Hok)).
  simpl. fold (version db k). destruct (negb (ver =? version db k)); [done|exact IH].
Qed.

Lemma isWatchingChanged_spec watching db : db_ok db →
  isWatchingChanged (map_to_list watching) db = (Ret (negb (bool_decide (watch_holds db watching))), db).
Proof.
  intros Hok. rewrite (isWatchingChanged_list _ _ Hok). do 2 f_equal. case_bool_decide as Hw; simpl.
  - apply not_true_iff_false. rewrite existsb_exists. intros ([k ver] & Hin & Hv). simpl in Hv. unbool.
    apply list_elem_of_In, elem_of_map_to_list in Hin. apply Hv. symmetry. by apply Hw.
  - apply existsb_exists. apply map_not_Forall in Hw as (k & ver & Hk & Hne); [|apply _].
    exists (k, ver). split; [by apply list_elem_of_In, elem_of_map_to_list|]. simpl.
    apply negb_true_iff, Z.eqb_neq. congruence.
Qed.

(** The queue of a transaction under its locks. *)
Lemma run_queue_safe keys lines db : db_ok db →
  let r := run_queue cmdTable (DBOps.addVersion keys) lines db in
  post any r.1 ∧ db_ok r.2 ∧ mutex <$> table (data r.2) = mutex <$> table (data db) ∧
  match r.1 with
  | Ret (MultiRawReply _) => cd_map (versionMap r.2) = bump keys (cd_map (versionMap db))
  | _ => versionMap r.2 = versionMap db
  end.
Proof.
  intros Hok. unfold run_queue, mbind, gom_bind.
  destruct (exec_loop_safe lines [] [] db Hok) as (Hok1 & Hk1 & Hp1).
  destruct (exec_loop cmdTable lines [] [] db) as [[[[aborted results] undos]| |] db1]; simpl in *; [|by injection Hk1|done].
  injection Hk1 as Hm1 Hv1. destruct aborted; simpl.
  - destruct (undo_loop_safe undos db1 Hok1) as (Hok2 & Hk2 & Hp2).
    injection Hk2 as Hm2 Hv2. destruct (undo_loop cmdTable undos db1) as [[[]| |] db2]; simpl in *; [..|done];
      (split_and!; [done..|congruence|congruence]).
  - destruct (addVersion_spec keys db1 Hok1) as (vm & HA & Hvm & Hb). rewrite HA. simpl.
    split_and!; [done|by apply set_versionMap_ok|done|congruence].
Qed.

Lemma locked_queue watching keys lines db : db_ok db →
  let m := changed ← isWatchingChanged (map_to_list watching);
           if (changed : bool) then mret EmptyMultiBulkReply
           else run_queue cmdTable (DBOps.addVersion keys) lines in
  m db = if bool_decide (watch_holds db watching) then run_queue cmdTable (DBOps.addVersion keys) lines db
         else (Ret EmptyMultiBulkReply, db).
Proof.
  intros Hok m. unfold m, mbind, gom_bind. rewrite (isWatchingChanged_spec _ _ Hok). by case_bool_decide.
Qed.

Lemma ExecMulti_eq t watching lines db :
  ExecMulti t watching lines db =
  match collect_keys t lines [] [] with
  | Ret keys =>
      with_locks keys.1 (keys.2 ++ (map_to_list watching).*1)
        (changed ← isWatchingChanged (map_to_list watching);
         if (changed : bool) then mret EmptyMultiBulkReply
         else run_queue t (DBOps.addVersion keys.1) lines) db
  | Panic m => (Panic m, db)
  | Block => (Block, db)
  end.
Proof. unfold ExecMulti, go_lift, mbind at 1, gom_bind. by destruct (collect_keys t lines [] []) as [[]| |]. Qed.

(** Under the locks the queue sees the database as it was before. *)
Lemma locked_run watching ws rs lines db :
  db_ok db → unlocked (data db) →
  ∃ dbl, db_ok dbl ∧ view dbl = view db ∧ versionMap dbl = versionMap db ∧
    let r := with_locks ws rs
      (changed ← isWatchingChanged (map_to_list watching);
       if (changed : bool) then mret EmptyMultiBulkReply
       else run_queue cmdTable (DBOps.addVersion ws) lines) db in
    let q := if bool_decide (watch_holds db watching) then run_queue cmdTable (DBOps.addVersion ws) lines dbl
             else (Ret EmptyMultiBulkReply, dbl) in
    r.1 = q.1 ∧ view r.2 = view q.2 ∧ versionMap r.2 = versionMap q.2 ∧ db_ok r.2 ∧ unlocked (data r.2).
Proof.
  intros Hok Hu.
  destruct (with_locks_spec ws rs (changed ← isWatchingChanged (map_to_list watching);
       if (changed : bool) then mret EmptyMultiBulkReply
       else run_queue cmdTable (DBOps.addVersion ws) lines) db Hok Hu) as (dl & Hs & Hr).
  exists (set_data db dl). assert (db_ok (set_data db dl)) as Hokl by (by apply same_maps_ok).
  split_and!; [done|by apply same_maps_view|done|]. revert Hr. cbv zeta. rewrite locked_queue by done.
  change (watch_holds (set_data db dl) watching) with (watch_holds db watching).
  destruct (run_queue_safe ws lines _ Hokl) as (Hp & Hok1 & Hm & _).
  destruct (bool_decide _); intros Hr.
  - destruct Hr as (d2 & -> & Hs2 & Hu2); [intros E; by rewrite E in Hp|done..|].
    split_and!; [done|by apply same_maps_view|done|by apply same_maps_ok|done].
  - destruct Hr as (d2 & -> & Hs2 & Hu2); [done..|].
    split_and!; [done|by apply same_maps_view|done|by apply same_maps_ok|done].
Qed.

(** EXEC on any queue. *)
Lemma ExecMulti_ok (watching : gmap string Z) (lines : list CmdLine) (db : DB) :
  db_ok db → unlocked (data db) →
  let r := ExecMulti cmdTable watching lines db in
  r.1 ≠ Block ∧ db_ok r.2 ∧ unlocked (data r.2) ∧
  match r.1, collect_keys cmdTable lines [] [] with
  | Ret (MultiRawReply _), Ret keys => cd_map (versionMap r.2) = bump keys.1 (cd_map (versionMap db))
  | _, _ => versionMap r.2 = versionMap db
  end.
Proof.
  intros Hok Hu. rewrite ExecMulti_eq. pose proof (collect_keys_post lines [] []) as Hc.
  destruct (collect_keys cmdTable lines [] []) as [keys| |]; [|by split_and!|done].
  destruct (locked_run watching keys.1 (keys.2 ++ (map_to_list watching).*1) lines db Hok Hu)
    as (dbl & Hokl & Hvl & Hver & H1 & _ & H3 & H4 & H5). cbv zeta. rewrite H1, H3.
  destruct (bool_decide _); [|by rewrite <-Hver; split_and!].
  destruct (run_queue_safe keys.1 lines dbl Hokl) as (Hp & _ & _ & Hm). rewrite <-Hver.
  split_and!; [intros E; by rewrite E in Hp|done..].
Qed.

(** ** The table of the code *)

Definition bounded (line : CmdLine) : Prop := command_name line ∉ unbounded.

Lemma table_go fuel line (a : bytes) : bounded line → line !! 0%nat = Some a → goTable fuel !! ToLower (str a) = cmdTable !! ToLower (str a).
Proof. unfold bounded, command_name. intros Hb E. rewrite E in Hb. by apply goTable_lookup. Qed.

Lemma collect_keys_go fuel lines : Forall bounded lines → ∀ ws rs, collect_keys (goTable fuel) lines ws rs = collect_keys cmdTable lines ws rs.
Proof.
  intros Hl. induction Hl as [|line lines Hb _ IH]; intros ws rs; cbn [collect_keys]; [done|]. unfold arg_at.
  destruct (line !! 0%nat) as [a|] eqn:E; [|done]. cbn [mbind outcome_bind]. rewrite (table_go fuel line a Hb E).
  destruct (cmdTable !! _) as [c|]; [|done]. destruct (call_prepare c line); [|done..]. apply IH.
Qed.

Lemma GetUndoLogs_go fuel line db : bounded line → GetUndoLogs (goTable fuel) line db = GetUndoLogs cmdTable line db.
Proof.
  intros Hb. unfold GetUndoLogs, arg. destruct (line !! 0%nat) as [a|] eqn:E; [|done]. unfold mbind, gom_bind. cbn. by rewrite (table_go fuel line a Hb E).
Qed.

(** The undo log of a command that ends has such commands only. *)
Lemma undo_logs_ok line db logs db' : bounded line → db_ok db → GetUndoLogs cmdTable line db = (Ret logs, db') → log_ok logs.
Proof.
  intros Hb Hok E. destruct (specified (command_name line)) eqn:Es.
  { destruct (GetUndoLogs_refines line Es db Hok) as (_ & _ & _ & _ & Hp). by rewrite E in Hp. }
  assert (command_name line = "getver") as Hn.
  { unfold specified in Es. apply negb_false_iff, orb_true_iff in Es as [Hu|Hg]; [|by apply String.eqb_eq].
    apply existsb_exists in Hu as (n & Hin%list_elem_of_In & En%String.eqb_eq). destruct Hb. by rewrite En. }
  revert E. unfold GetUndoLogs, arg. unfold command_name in Hn. destruct (line !! 0%nat) as [a|]; [|done]. simpl in Hn. unfold mbind, gom_bind. cbn. rewrite Hn.
  assert (∃ c, cmdTable !! "getver" = Some c ∧ undo c = None) as (c & -> & ->) by exact getver_entry. intros [= <- <-]. constructor.
Qed.

Lemma go_for_ext {A} (xs : list A) (f g : A → GoM DB unit) : Forall (λ x, f x = g x) xs → go_for xs f = go_for xs g.
Proof. intros Hx. induction Hx as [|x xs E _ IH]; [done|]. cbn [go_for]. by rewrite E, IH. Qed.

Lemma log_bounded lines : log_ok lines → Forall bounded lines.
Proof. intros Hl. eapply Forall_impl; [exact Hl|]. intros line Hs. by apply specified_bounded. Qed.

Lemma undo_loop_go fuel undos : Forall log_ok undos → undo_loop (goTable fuel) undos = undo_loop cmdTable undos.
Proof.
  intros Hu. apply go_for_ext. apply Forall_rev in Hu. eapply Forall_impl; [exact Hu|]. intros lines Hl. apply go_for_ext.
  eapply Forall_impl; [exact (log_bounded _ Hl)|]. intros line Hb. simpl. by rewrite execWithLock_go.
Qed.

Lemma exec_loop_go fuel lines : Forall bounded lines → ∀ results undos db, db_ok db → Forall log_ok undos →
  exec_loop (goTable fuel) lines results undos db = exec_loop cmdTable lines results undos db ∧
  match (exec_loop cmdTable lines results undos db).1 with Ret r => Forall log_ok r.2 | _ => True end.
Proof.
  intros Hl. induction Hl as [|line lines Hb _ IH]; intros results undos db Hok Hu; cbn [exec_loop]; [done|].
  unfold mbind, gom_bind. rewrite (GetUndoLogs_go fuel line db Hb), (execWithLock_go fuel line Hb).
  destruct (GetUndoLogs_safe line db Hok) as (Hok1 & _). destruct (GetUndoLogs cmdTable line db) as [[logs| |] db1] eqn:El; [|done..].
  pose proof (undo_logs_ok _ _ _ _ Hb Hok El) as Hlogs. simpl in Hok1.
  destruct (execWithLock_safe line db1 Hok1) as (Hok2 & _). destruct (execWithLock cmdTable line db1) as [[result| |] db2]; [|done..].
  unfold go_lift. destruct (IsErrorReply result) as [[]| |]; [done| |done..]. apply IH; [done|]. apply Forall_app. split; [done|by constructor].
Qed.

Lemma run_queue_go fuel keys lines db : Forall bounded lines → db_ok db →
  run_queue (goTable fuel) (DBOps.addVersion keys) lines db = run_queue cmdTable (DBOps.addVersion keys) lines db.
Proof.
  intros Hl Hok. destruct (exec_loop_go fuel lines Hl [] [] db Hok (Forall_nil_2 _)) as [E Hu]. unfold run_queue, mbind, gom_bind. rewrite E.
  destruct (exec_loop cmdTable lines [] [] db) as [[[[aborted results] undos]| |] db1]; [|done..]. simpl in Hu. rewrite (undo_loop_go fuel undos Hu). by destruct aborted.
Qed.

Lemma with_locks_ext {A} ws rs (m m' : GoM DB A) db : db_ok db → unlocked (data db) → (∀ db, db_ok db → m db = m' db) → with_locks ws rs m db = with_locks ws rs m' db.
Proof.
  intros Hok Hu Hm. destruct (RWLocks_held (data db) ws rs) as (dl & HL & Hs & _); [apply Hok|done|].
  unfold with_locks, mbind, gom_bind, DBOps.RWLocks. rewrite HL. unfold go_defer. by rewrite (Hm _ (same_maps_ok _ _ Hs Hok)).
Qed.

Lemma ExecMulti_go fuel watching lines db : Forall bounded lines → db_ok db → unlocked (data db) →
  ExecMulti (goTable fuel) watching lines db = ExecMulti cmdTable watching lines db.
Proof.
  intros Hl Hok Hu. rewrite !ExecMulti_eq, collect_keys_go by done. destruct (collect_keys cmdTable lines [] []) as [keys| |]; [|done..].
  apply with_locks_ext; [done..|]. intros db1 Hok1. unfold mbind, gom_bind. rewrite (isWatchingChanged_spec _ _ Hok1).
  destruct (negb _); [done|]. by apply run_queue_go.
Qed.

(** EXEC on any queue without the commands of [unbounded], with any watched keys, ends with a reply or a panic,
    all locks free again and the invariant kept; the versions of the keys the
    queue writes move exactly when the whole queue succeeded. *)
Theorem ExecMulti_safe (fuel : nat) (watching : gmap string Z) (lines : list CmdLine) (db : DB) :
  Forall bounded lines → db_ok db → unlocked (data db) →
  let r := ExecMulti (goTable fuel) watching lines db in
  r.1 ≠ Block ∧ db_ok r.2 ∧ unlocked (data r.2) ∧
  match r.1, collect_keys (goTable fuel) lines [] [] with
  | Ret (MultiRawReply _), Ret keys => cd_map (versionMap r.2) = bump keys.1 (cd_map (versionMap db))
  | _, _ => versionMap r.2 = versionMap db
  end.
Proof. intros Hl Hok Hu. rewrite ExecMulti_go, collect_keys_go by done. by apply ExecMulti_ok. Qed.

(** The queue of a transaction gives what it gives on the specification. *)
Lemma run_queue_refines keys lines db : log_ok lines → db_ok db →
  let r := run_queue cmdTable (DBOps.addVersion keys) lines db in
  let r' := Transaction storeTable lines (view db) in
  r.1 = r'.1 ∧ view r.2 = r'.2.
Proof.
  intros Hl Hok. unfold Transaction, run_queue, mbind, gom_bind.
  destruct (exec_loop_refines lines [] [] Hl (Forall_nil_2 _) db Hok) as (E1 & E2 & Hok1 & _ & Hp).
  destruct (exec_loop cmdTable lines [] [] db) as [o db1].
  destruct (exec_loop storeTable lines [] [] (view db)) as [o' v1]. simpl in *. subst o' v1.
  destruct o as [[[aborted results] undos]| |]; [|done..]. destruct aborted; simpl.
  - destruct (undo_loop_refines undos Hp db1 Hok1) as (F1 & F2 & _).
    destruct (undo_loop cmdTable undos db1) as [o db2].
    destruct (undo_loop storeTable undos (view db1)) as [o' v2]. simpl in *. subst o' v2. by destruct o.
  - destruct (addVersion_spec keys db1 Hok1) as (vm & -> & _). done.
Qed.


(** ** Sessions of a connection *)

Section sessions.
Context (t : Table DB).

(** The lines that MULTI queues instead of running. *)
Definition queueable (line : CmdLine) : bool :=
  match line with
  | [] => false
  | a0 :: _ =>
      let n := ToLower (str a0) in
      negb (String.eqb n "multi" || String.eqb n "discard" || String.eqb n "exec" || String.eqb n "watch") &&
      match t !! n with
      | Some c => match prepare c with Some _ => validateArity (arity c) line | None => false end
      | None => false
      end
  end.

Lemma Exec_enqueue line cl :
  queueable line = true → Conn.InMultiState (cl_conn cl) = true →
  Exec t line cl = (Ret QueuedReply, mkClient (cl_db cl) (Conn.EnqueueCmd (cl_conn cl) line)).
Proof.
  unfold queueable. destruct line as [|a0 args]; [done|]. intros Hq Hm.
  apply andb_true_iff in Hq as [Hn Hc]. apply negb_true_iff in Hn. rewrite !orb_false_iff in Hn.
  destruct Hn as [[[H1 H2] H3] H4]. unfold Exec, mbind, gom_bind, arg. simpl.
  rewrite H1, H2, H3, H4. unfold conn_get, go_get. rewrite Hm. unfold EnqueueCmd, mbind, gom_bind, arg. simpl.
  destruct (t !! _) as [c|]; [|done]. destruct (prepare c); [|done]. by rewrite Hc.
Qed.

Fixpoint exec_all (lines : list CmdLine) : GoM Client (list Reply) :=
  match lines with
  | [] => mret []
  | line :: lines' => r ← Exec t line; rs ← exec_all lines'; mret (r :: rs)
  end.

Lemma enqueue_all lines cl :
  Forall (λ l, queueable l = true) lines → Conn.InMultiState (cl_conn cl) = true →
  ∃ c, exec_all lines cl = (Ret (replicate (length lines) QueuedReply), mkClient (cl_db cl) c) ∧
    Conn.queue c = Conn.queue (cl_conn cl) ++ lines ∧ Conn.InMultiState c = true ∧
    Conn.watching c = Conn.watching (cl_conn cl) ∧ Conn.txErrors c = Conn.txErrors (cl_conn cl) ∧
    Conn.flags c = Conn.flags (cl_conn cl).
Proof.
  intros Hq. revert cl. induction Hq as [|line lines Hl _ IH]; intros cl Hm; cbn [exec_all].
  { exists (cl_conn cl). rewrite app_nil_r. by destruct cl. }
  unfold mbind at 1, gom_bind. rewrite (Exec_enqueue line cl Hl Hm).
  destruct (IH (mkClient (cl_db cl) (Conn.EnqueueCmd (cl_conn cl) line)) Hm) as (c & E & Hc).
  exists c. unfold mbind, gom_bind. rewrite E. cbn [cl_db cl_conn] in *. simpl Conn.queue in Hc. by rewrite <-app_assoc in Hc.
Qed.

End sessions.

(** [C5] A connection that is outside MULTI, with an empty queue and without a recorded error
    (a command that was ever rejected inside MULTI leaves one, [tx_errors_stay]), sends MULTI, any
    commands that may be queued, and EXEC: it reads OK, QUEUED for each command, and then the outcome of EXEC on
    exactly these commands, in order, with the keys it watched; afterwards it is
    out of MULTI with an empty queue and nothing watched. *)
Theorem multi_exec_session (fuel : nat) (lines : list CmdLine) (db : DB) (c : Connection) :
  Conn.conn_ok c → Conn.InMultiState c = false → Conn.queue c = [] → Conn.txErrors c = [] →
  let t := goTable fuel in
  Forall (λ l, queueable t l = true) lines →
  let s1 := exec_all t (ToCmdLine ["MULTI"] :: lines) (mkClient db c) in
  let s2 := Exec t (ToCmdLine ["EXEC"]) s1.2 in
  s1.1 = Ret (OkReply :: replicate (length lines) QueuedReply) ∧ cl_db s1.2 = db ∧
  s2.1 = (ExecMulti t (Conn.watching c) lines db).1 ∧
  cl_db s2.2 = (ExecMulti t (Conn.watching c) lines db).2 ∧
  ((ExecMulti t (Conn.watching c) lines db).1 ≠ Block →
   Conn.InMultiState (cl_conn s2.2) = false ∧ Conn.queue (cl_conn s2.2) = [] ∧ Conn.watching (cl_conn s2.2) = ∅).
Proof.
  intros Hc Hm Hq Ht. cbv zeta. generalize (goTable fuel). intros t Hl. set (s1 := exec_all t _ _). set (s2 := Exec t _ _).
  destruct (Conn.InMultiState_set c true Hc) as [Hm1 Hc1].
  destruct (enqueue_all t lines (mkClient db (Conn.SetMultiState c true)) Hl Hm1)
    as (c1 & E & Hq1 & Hm2 & Hw & Ht1 & Hf). simpl in Hq1, Hw, Ht1, Hf.
  assert (s1 = (Ret (OkReply :: replicate (length lines) QueuedReply), mkClient db c1)) as Hs1.
  { unfold s1. cbn [exec_all]. unfold mbind at 1, gom_bind.
    assert (Exec t (ToCmdLine ["MULTI"]) (mkClient db c) =
      (Ret OkReply, mkClient db (Conn.SetMultiState c true))) as ->.
    { unfold Exec, mbind, gom_bind. simpl. unfold StartMulti, mbind, gom_bind, conn_get, go_get. simpl. by rewrite Hm. }
    unfold mbind, gom_bind. by rewrite E. }
  assert (s2 = let r := ExecMulti t (Conn.watching c) lines db in
    (r.1, mkClient r.2 (match r.1 with Block => c1 | _ => Conn.SetMultiState c1 false end))) as ->.
  { unfold s2. rewrite Hs1. unfold Exec, mbind, gom_bind. simpl.
    unfold execMulti, go_defer, mbind, gom_bind, conn_get, go_get, on_db. simpl.
    rewrite Hm2. simpl. unfold Conn.GetTxErrors, Conn.GetQueuedCmdLine, Conn.GetWatching.
    rewrite Ht1, Ht. simpl. rewrite Hq1, Hq, Hw. simpl.
    destruct (ExecMulti t (Conn.watching c) lines db) as [[r| |] db2]; done. }
  rewrite Hs1. split_and!; try done. intros Hb. cbv zeta. simpl.
  assert (Conn.conn_ok c1) as Hc2 by (unfold Conn.conn_ok; rewrite Hf; exact Hc1).
  destruct (Conn.InMultiState_set c1 false Hc2) as [Hm3 _].
  destruct (ExecMulti t (Conn.watching c) lines db).1; simpl; try done.
Qed.

(** One rejected command inside MULTI blocks every later transaction of the
    connection: EXEC and DISCARD leave the recorded errors in place, so that each
    EXEC that follows, on any queue, is answered with EXECABORT and runs nothing. *)
Theorem tx_errors_stay (t : Table DB) (db : DB) (c : Connection) (e : Reply) :
  Conn.conn_ok c → Conn.InMultiState c = true → e ∈ Conn.txErrors c →
  let s1 := Exec t (ToCmdLine ["EXEC"]) (mkClient db c) in
  let s2 := Exec t (ToCmdLine ["DISCARD"]) (mkClient db c) in
  s1.1 = Ret execAborted ∧ cl_db s1.2 = db ∧ e ∈ Conn.txErrors (cl_conn s1.2) ∧
  s2.1 = Ret OkReply ∧ e ∈ Conn.txErrors (cl_conn s2.2) ∧
  e ∈ Conn.txErrors (Conn.SetMultiState (cl_conn s1.2) true).
Proof.
  intros Hc Hm He s1 s2.
  assert (s1 = (Ret execAborted, mkClient db (Conn.SetMultiState c false))) as ->.
  { unfold s1, Exec, mbind, gom_bind. simpl. unfold execMulti, go_defer, mbind, gom_bind, conn_get, go_get. simpl.
    rewrite Hm. simpl. unfold Conn.GetTxErrors. by destruct (Conn.txErrors c); [set_solver|]. }
  assert (s2 = (Ret OkReply, mkClient db (Conn.SetMultiState (Conn.ClearQueuedCmds c) false))) as ->.
  { unfold s2, Exec, mbind, gom_bind. simpl. unfold DiscardMulti, mbind, gom_bind, conn_get, go_get. simpl.
    by rewrite Hm. }
  by split_and!.
Qed.
End facts.

(** ** Examples *)

#[local] Existing Instance demo_env.

(** SET k v, then a command that fails on a string. *)
Definition demo_queue : list CmdLine := [ToCmdLine ["SET"; "k"; "v"]; ToCmdLine ["LPUSH"; "k"; "x"]].

Lemma ExecMulti_safe_witness :
  let r := ExecMulti (goTable 5) {["k" := 0]} demo_queue (make_db 1 1) in
  r.1 ≠ Block ∧ db_ok r.2 ∧ unlocked (data r.2).
Proof.
  destruct (ExecMulti_safe 5 {["k" := 0]} demo_queue (make_db 1 1)) as (? & ? & ? & _);
    [apply log_bounded; by repeat constructor|apply (make_db_ok 1 1); lia..|]. by split_and!.
Defined.


Lemma multi_exec_session_witness :
  let s1 := exec_all (goTable 5) (ToCmdLine ["MULTI"] :: demo_queue) (mkClient (make_db 1 1) Conn.zero_conn) in
  s1.1 = Ret [OkReply; QueuedReply; QueuedReply] ∧
  (Exec (goTable 5) (ToCmdLine ["EXEC"]) s1.2).1 = (ExecMulti (goTable 5) ∅ demo_queue (make_db 1 1)).1.
Proof.
  destruct (multi_exec_session 5 demo_queue (make_db 1 1) Conn.zero_conn) as (H1 & _ & H2 & _);
    [by unfold Conn.conn_ok|done..| |by split].
  repeat constructor; vm_compute; reflexivity.
Defined.

Lemma tx_errors_stay_witness :
  let c := Conn.AddTxError (Conn.SetMultiState Conn.zero_conn true) SyntaxErrReply in
  (Exec cmdTable (ToCmdLine ["EXEC"]) (mkClient (make_db 1 1) c)).1 = Ret execAborted.
Proof.
  destruct (tx_errors_stay cmdTable (make_db 1 1) (Conn.AddTxError (Conn.SetMultiState Conn.zero_conn true) SyntaxErrReply)
    SyntaxErrReply) as [E _]; [by unfold Conn.conn_ok|done|by left|]. exact E.
Defined.

(** KEYS (SCAN and RANDOMKEY likewise) takes the read lock of every shard.  Queued together with a
    command that writes, it waits for a lock that its own transaction holds: EXEC never
    returns, and the locks stay taken. *)
Theorem keys_in_transaction_waits (fuel : nat) :
  let lines := [ToCmdLine ["SET"; "k"; "v"]; ToCmdLine ["KEYS"; "*"]] in
  Forall (λ l, queueable (goTable fuel) l = true) lines ∧
  (ExecMulti (goTable fuel) ∅ lines (make_db 1 1)).1 = Block.
Proof.
  split; [repeat constructor; destruct fuel; vm_compute; reflexivity|]. destruct fuel; vm_compute; reflexivity.
Qed.

(** The version of a key moves before the command that writes it has its lock.
    If another client watches and reads the key in between, the write is not seen
    as a change: here SET k v bumps the version to 1, the other client watches k at
    version 1 and reads nothing, SET gets its lock and writes, and the EXEC of the
    other client runs its queue although k changed under its WATCH. *)
Theorem watch_misses_racing_write :
  let set := ToCmdLine ["SET"; "k"; "v"] in
  let get := ToCmdLine ["GET"; "k"] in
  let db0 := make_db 1 1 in
  let db1 := (DBOps.addVersion ["k"] db0).2 in
  let db2 := (with_locks ["k"] [] (execSet (drop 1 set)) db1).2 in
  execNormalCommand cmdTable set db0 = (Ret OkReply, db2) ∧
  DBOps.GetVersion "k" db1 = (Ret 1, db1) ∧
  (execNormalCommand cmdTable get db1).1 = Ret NullBulkReply ∧
  (ExecMulti cmdTable {["k" := 1]} [get] db2).1 = Ret (MultiRawReply [BulkReply (Some "v")]).
Proof. vm_compute. by split_and!. Qed.
