(* ===== verification/Server.v ===== *)
(** * database/server.go, systemcmd.go: the server

    A server keeps a set of databases, the publish/subscribe hub with the connections, the
    append-only log, its replication role and the slow log.  [Exec] is the entry of every
    command line: authentication, the commands that are not bound to one database, and the
    hand-over to the selected database.

    A database draws its readings of the clock and its random choices from the environment
    by a counter; the server passes one counter on, so that no draw is used twice.  The
    lines a database hands to [addAof] reach the log under its index when a persister is
    bound and the configuration says so.

    Parts that are not modelled here (INFO's texts, the RDB and AOF files, the replication
    protocol, COPY, whose two keys share one object) are the operations of the class
    [Services].  They may do anything, wait for ever too: no theorem assumes anything of
    them.  The connection is not nil. *)

From Stdlib Require Import ZArith Lia Ascii String.
From stdpp Require Import base gmap strings numbers list.
From S2P Require Import Prelude GoStd Dict QuickList LinkedList LockMap Protocol DB SlowLog StringCmds Conn PubSub Router Exec Tx.

Local Open Scope string_scope.
Local Open Scope list_scope.
Local Open Scope Z_scope.
Local Open Scope go_scope.

Module Server.

(** The fields of config.Properties that the code below reads. *)
Record Config := mkConfig {
  RequirePass : string;
  AppendOnly : bool;
  Databases : Z;
  RDBFilename : string;
  SlowLogMaxLen : Z;
  SlowLogSlowerThan : Z
}.

Definition masterRole : Z := 0.
Definition slaveRole : Z := 1.

(** What SLAVEOF writes of the replication state; [setups] counts the goroutines that run
    [setupMaster]. *)
Record slaveStatus := mkSlave {
  masterHost : string;
  masterPort : Z;
  replId : string;
  replOffset : Z;
  configVersion : Z;
  setups : nat
}.

Record Server := mkServer {
  dbSet : list DB;
  world : PubSub.World;
  persister : option (list (Z * CmdLine));
  role : Z;
  slave : slaveStatus;
  slogLogger : SlowLog.SlowLogger;
  ticks : nat
}.

Definition set_dbSet (s : Server) (l : list DB) : Server :=
  mkServer l (world s) (persister s) (role s) (slave s) (slogLogger s) (ticks s).
Definition set_world (s : Server) (w : PubSub.World) : Server :=
  mkServer (dbSet s) w (persister s) (role s) (slave s) (slogLogger s) (ticks s).
Definition set_persister (s : Server) (p : option (list (Z * CmdLine))) : Server :=
  mkServer (dbSet s) (world s) p (role s) (slave s) (slogLogger s) (ticks s).
Definition set_role (s : Server) (r : Z) (st : slaveStatus) : Server :=
  mkServer (dbSet s) (world s) (persister s) r st (slogLogger s) (ticks s).
Definition set_slog (s : Server) (l : SlowLog.SlowLogger) : Server :=
  mkServer (dbSet s) (world s) (persister s) (role s) (slave s) l (ticks s).
Definition set_ticks (s : Server) (n : nat) : Server :=
  mkServer (dbSet s) (world s) (persister s) (role s) (slave s) (slogLogger s) n.

(** Operations of the parts that are not modelled, on the client that calls them. *)
Class Services := {
  GenGodisInfoString : string → GoM Server string;
  Rewrite : GoM Server (option string);
  GenerateRDB : string → GoM Server (option string);
  execCopy : nat → list bytes → GoM Server Reply;
  execReplConf : nat → list bytes → GoM Server Reply;
  execPSync : nat → list bytes → GoM Server Reply;
  peer_Name : nat → string
}.

Section server.
(** The command table: [goTable] with some fuel. *)
Context `{Env} (tbl : Table DB) (cfg : Config).

(** A computation of the publish/subscribe part. *)
Definition on_world {A} (m : GoM PubSub.World A) : GoM Server A := λ s,
  let '(o, w) := m (world s) in (o, set_world s w).

Definition conn (c : nat) : GoM Server Conn.Connection := go_get (λ s, PubSub.conn_of (world s) c).
Definition upd_conn (c : nat) (f : Conn.Connection → Conn.Connection) : GoM Server unit := on_world (PubSub.upd_conn c f).

(** [time.Now()] and the order of an iteration over a map. *)
Definition Now : GoM Server Z := λ s, (Ret (time_now (ticks s)), set_ticks s (S (ticks s))).
Definition Order : GoM Server range_order := λ s, (Ret (map_order (ticks s)), set_ticks s (S (ticks s))).

(** [server.persister.SaveCmdLine(dbIndex, cmdLine)]. *)
Definition SaveCmdLine (dbIndex : Z) (lines : list CmdLine) : GoM Server unit :=
  go_modify (λ s, match persister s with
                  | None => s
                  | Some log => set_persister s (Some (log ++ ((λ l, (dbIndex, l)) <$> lines)))
                  end).

Definition AddAof (dbIndex : Z) (cmdLine : CmdLine) : GoM Server unit := SaveCmdLine dbIndex [cmdLine].

(** ** The databases *)

Definition out_of_range : Reply := MakeErrReply "ERR DB index is out of range".

Definition in_range (s : Server) (dbIndex : Z) : bool :=
  negb ((dbIndex >=? Z.of_nat (length (dbSet s))) || (dbIndex <? 0)).

Definition selectDB (dbIndex : Z) : GoM Server (Reply + DB) := λ s,
  if in_range s dbIndex
  then match dbSet s !! Z.to_nat dbIndex with Some db => (Ret (inr db), s) | None => (Panic "index out of range", s) end
  else (Ret (inl out_of_range), s).

Definition mustSelectDB (dbIndex : Z) : GoM Server DB :=
  r ← selectDB dbIndex;
  match r with inl _ => go_panic "ERR DB index is out of range" | inr db => mret db end.

(** A computation of the database at [dbIndex] starts with the server's counter; what it
    leaves goes back to the set, and its lines to the log, under the index the closure
    [addAof] was bound with. *)
Definition take_db (db : DB) (s : Server) : DB := set_aof (set_draws db (ticks s)) [].

Definition put_db (dbIndex : Z) (db : DB) (s : Server) : Server :=
  let s' := set_ticks (set_dbSet s (<[Z.to_nat dbIndex := set_aof db []]> (dbSet s))) (draws db) in
  if AppendOnly cfg then (SaveCmdLine dbIndex (aof db) s').2 else s'.

Definition on_db {A} (dbIndex : Z) (db : DB) (m : GoM DB A) : GoM Server A := λ s,
  let '(o, db') := m (take_db db s) in (o, put_db dbIndex db' s).

Definition set_index (db : DB) (i : Z) : DB :=
  mkDB i (data db) (ttlMap db) (versionMap db) (aof db) (insertCallback db) (deleteCallback db) (events db) (timers db) (draws db).

Definition loadDB (dbIndex : Z) (newDB : DB) : GoM Server Reply :=
  s ← go_get id;
  if negb (in_range s dbIndex) then mret out_of_range
  else
    _ ← mustSelectDB dbIndex;
    _ ← go_modify (λ s, set_dbSet s (<[Z.to_nat dbIndex := set_index newDB dbIndex]> (dbSet s)));
    mret OkReply.

Definition flushDB (dbIndex : Z) : GoM Server Reply :=
  s ← go_get id;
  if negb (in_range s dbIndex) then mret out_of_range
  else _ ← loadDB dbIndex makeDB; mret OkReply.

Definition execFlushDB (dbIndex : Z) : GoM Server Reply :=
  _ ← SaveCmdLine dbIndex [ToCmdLine ["FlushDB"]];
  flushDB dbIndex.

Fixpoint flush_loop (n : nat) (i : Z) : GoM Server unit :=
  match n with O => mret tt | S n' => _ ← flushDB i; flush_loop n' (i + 1) end.

Definition flushAll : GoM Server Reply :=
  n ← go_get (λ s, length (dbSet s));
  _ ← flush_loop n 0;
  _ ← SaveCmdLine 0 [ToCmdLine ["FlushAll"]];
  mret OkReply.

Definition execSelect (c : nat) (args : list bytes) : GoM Server Reply :=
  a0 ← arg args 0;
  match Atoi (str a0) with
  | inl _ => mret (MakeErrReply "ERR invalid DB index")
  | inr dbIndex =>
      s ← go_get id;
      if in_range s dbIndex then _ ← upd_conn c (λ x, Conn.SelectDB x dbIndex); mret OkReply
      else mret out_of_range
  end.

Definition GetDBSize (dbIndex : Z) : GoM Server (Z * Z) :=
  db ← mustSelectDB dbIndex;
  mret (Concurrent.Len (data db), Concurrent.Len (ttlMap db)).

Definition GetExpiration (dbIndex : Z) (key : string) : GoM Server (option Z) :=
  db ← mustSelectDB dbIndex;
  mret (Concurrent.Get (ttlMap db) key).

Definition GetEntity_ (dbIndex : Z) (key : string) : GoM Server (option DataEntity) :=
  db ← mustSelectDB dbIndex; on_db dbIndex db (DBOps.GetEntity key).

Definition RWLocks (dbIndex : Z) (writeKeys readKeys : list string) : GoM Server unit :=
  db ← mustSelectDB dbIndex; on_db dbIndex db (DBOps.RWLocks writeKeys readKeys).

Definition RWUnLocks (dbIndex : Z) (writeKeys readKeys : list string) : GoM Server unit :=
  db ← mustSelectDB dbIndex; on_db dbIndex db (DBOps.RWUnLocks writeKeys readKeys).

Definition GetUndoLogs_ (dbIndex : Z) (cmdLine : CmdLine) : GoM Server (list CmdLine) :=
  db ← mustSelectDB dbIndex; on_db dbIndex db (GetUndoLogs tbl cmdLine).

Definition ExecWithLock (c : nat) (cmdLine : CmdLine) : GoM Server Reply :=
  x ← conn c;
  let? db := selectDB (Conn.selectedDB x) in
  on_db (Conn.selectedDB x) db (execWithLock tbl cmdLine).

Definition ExecMulti_ (c : nat) (watching : gmap string Z) (cmdLines : list CmdLine) : GoM Server Reply :=
  x ← conn c;
  let? db := selectDB (Conn.selectedDB x) in
  on_db (Conn.selectedDB x) db (ExecMulti tbl watching cmdLines).

(** The callbacks of all databases. *)
Fixpoint callback_loop (n : nat) (i : Z) (f : DB → DB) : GoM Server unit :=
  match n with
  | O => mret tt
  | S n' =>
      db ← mustSelectDB i;
      _ ← go_modify (λ s, set_dbSet s (<[Z.to_nat i := f db]> (dbSet s)));
      callback_loop n' (i + 1) f
  end.

Definition set_insertCallback (b : bool) (db : DB) : DB :=
  mkDB (index db) (data db) (ttlMap db) (versionMap db) (aof db) b (deleteCallback db) (events db) (timers db) (draws db).
Definition set_deleteCallback (b : bool) (db : DB) : DB :=
  mkDB (index db) (data db) (ttlMap db) (versionMap db) (aof db) (insertCallback db) b (events db) (timers db) (draws db).

Definition SetKeyInsertedCallback : GoM Server unit :=
  n ← go_get (λ s, length (dbSet s)); callback_loop n 0 (set_insertCallback true).
Definition SetKeyDeletedCallback : GoM Server unit :=
  n ← go_get (λ s, length (dbSet s)); callback_loop n 0 (set_deleteCallback true).

(** ** Commands on no database *)

Definition Ping (args : list bytes) : Reply :=
  match args with
  | [] => PongReply
  | [a0] => StatusReply (str a0)
  | _ => MakeErrReply "ERR wrong number of arguments for 'ping' command"
  end.

Definition Auth (c : nat) (args : list bytes) : GoM Server Reply :=
  match args with
  | [a0] =>
      if String.eqb (RequirePass cfg) "" then mret (MakeErrReply "ERR Client sent AUTH, but no password is set")
      else
        let passwd := str a0 in
        _ ← upd_conn c (λ x, Conn.SetPassword x passwd);
        if String.eqb (RequirePass cfg) passwd then mret OkReply else mret (MakeErrReply "ERR invalid password")
  | _ => mret (MakeErrReply "ERR wrong number of arguments for 'auth' command")
  end.

Definition isAuthenticated (x : Conn.Connection) : bool :=
  String.eqb (RequirePass cfg) "" || String.eqb (Conn.password x) (RequirePass cfg).

Definition DbSize (c : nat) : GoM Server Reply :=
  x ← conn c;
  n ← GetDBSize (Conn.selectedDB x);
  mret (IntReply n.1).

Definition slaveOfNone : GoM Server unit :=
  go_modify (λ s, set_role s masterRole
    (mkSlave "" 0 "" (-1) (int32 (configVersion (slave s) + 1)) (setups (slave s)))).

Definition execSlaveOf (args : list bytes) : GoM Server Reply :=
  a0 ← arg args 0;
  a1 ← arg args 1;
  if String.eqb (ToLower (str a0)) "no" && String.eqb (ToLower (str a1)) "one" then _ ← slaveOfNone; mret OkReply
  else
    match Atoi (str a1) with
    | inl _ => mret (MakeErrReply "ERR value is not an integer or out of range")
    | inr port =>
        _ ← go_modify (λ s, set_role s slaveRole
          (mkSlave (str a0) port (replId (slave s)) (replOffset (slave s)) (int32 (configVersion (slave s) + 1)) (S (setups (slave s)))));
        mret OkReply
    end.

Definition on_slowlog (cmdLine : CmdLine) : GoM Server Reply := λ s,
  match SlowLog.HandleSlowlogCommand (slogLogger s) cmdLine with
  | Ret (l, r) => (Ret r, set_slog s l)
  | Panic m => (Panic m, s)
  | Block => (Block, s)
  end.

(** [server.slogLogger.Record(start, cmdLine, c.Name())]. *)
Definition slow_entry (start now : Z) (cmdLine : CmdLine) (name : string) : GoM Server unit := λ s,
  match SlowLog.Record_ (slogLogger s) start now cmdLine name with
  | Ret l => (Ret tt, set_slog s l)
  | Panic m => (Panic m, s)
  | Block => (Block, s)
  end.

Definition record_slow (start : Z) (cmdLine : CmdLine) (name : string) : GoM Server unit :=
  now ← Now; slow_entry start now cmdLine name.

Section services.
Context `{Services}.

Definition Info (args : list bytes) : GoM Server Reply :=
  match args with
  | [] =>
      a ← GenGodisInfoString "server"; b ← GenGodisInfoString "client";
      d ← GenGodisInfoString "cluster"; e ← GenGodisInfoString "keyspace";
      mret (BulkReply (Some (a +:+ b +:+ d +:+ e)))
  | [a0] =>
      let section := ToLower (str a0) in
      if bool_decide (section ∈ ["server"; "client"; "cluster"; "keyspace"])
      then r ← GenGodisInfoString section; mret (BulkReply (Some r))
      else mret (MakeErrReply "Invalid section for 'info' command")
  | _ => mret (ArgNumErrReply "info")
  end.

(** The rewriting goroutine starts from the state the command leaves. *)
Definition BGRewriteAOF : GoM Server Reply := mret (StatusReply "Background append only file rewriting started").

Definition RewriteAOF : GoM Server Reply :=
  err ← Rewrite;
  mret (match err with Some e => MakeErrReply e | None => OkReply end).

Definition rdb_name : string := if String.eqb (RDBFilename cfg) "" then "dump.rdb" else RDBFilename cfg.

Definition SaveRDB : GoM Server Reply :=
  p ← go_get persister;
  match p with
  | None => mret (MakeErrReply "please enable aof before using save")
  | Some _ => err ← GenerateRDB rdb_name; mret (match err with Some e => MakeErrReply e | None => OkReply end)
  end.

Definition BGSaveRDB : GoM Server Reply :=
  p ← go_get persister;
  match p with
  | None => mret (MakeErrReply "please enable aof before using save")
  | Some _ => mret (StatusReply "Background saving started")
  end.

(** ** Exec *)

(** [selectedDB.Exec(c, cmdLine)]: the connection and its database. *)
Definition db_Exec (c : nat) (dbIndex : Z) (db : DB) (cmdLine : CmdLine) : GoM Server Reply := λ s,
  let '(o, cl) := Exec tbl cmdLine (mkClient (take_db db s) (PubSub.conn_of (world s) c)) in
  (o, (upd_conn c (λ _, cl_conn cl) (put_db dbIndex (cl_db cl) s)).2).

Definition normal (c : nat) (start : Z) (cmdLine : CmdLine) : GoM Server Reply :=
  x ← conn c;
  let dbIndex := Conn.selectedDB x in
  let? db := selectDB dbIndex in
  r ← db_Exec c dbIndex db cmdLine;
  _ ← record_slow start cmdLine (peer_Name c);
  mret r.

Definition need_aof (m : GoM Server Reply) : GoM Server Reply :=
  if AppendOnly cfg then m else mret (MakeErrReply "AppendOnly is false, you can't rewrite aof file").

(** The commands behind the check of a read-only replica. *)
Definition dispatch (c : nat) (start : Z) (cmdName : string) (cmdLine : CmdLine) : GoM Server Reply :=
  let args := drop 1 cmdLine in
  let named n := String.eqb cmdName n in
  x ← conn c;
  let multi := Conn.InMultiState x in
  if named "subscribe" then
    if (length cmdLine <? 2)%nat then mret (ArgNumErrReply "subscribe") else on_world (PubSub.Subscribe c args)
  else if named "publish" then on_world (PubSub.Publish args)
  else if named "unsubscribe" then ord ← Order; on_world (PubSub.UnSubscribe ord c args)
  else if named "bgrewriteaof" then need_aof BGRewriteAOF
  else if named "rewriteaof" then need_aof RewriteAOF
  else if named "flushall" then flushAll
  else if named "flushdb" then
    if negb (validateArity 1 cmdLine) then mret (ArgNumErrReply cmdName)
    else if multi then mret (MakeErrReply "ERR command 'FlushDB' cannot be used in MULTI")
    else execFlushDB (Conn.selectedDB x)
  else if named "save" then SaveRDB
  else if named "bgsave" then BGSaveRDB
  else if named "select" then
    if multi then mret (MakeErrReply "cannot select database within multi")
    else if negb (length cmdLine =? 2)%nat then mret (ArgNumErrReply "select")
    else execSelect c args
  else if named "copy" then
    if (length cmdLine <? 3)%nat then mret (ArgNumErrReply "copy") else execCopy c args
  else if named "replconf" then execReplConf c args
  else if named "psync" then execPSync c args
  else normal c start cmdLine.

Definition exec_body (c : nat) (cmdLine : CmdLine) : GoM Server Reply :=
  start ← Now;
  a0 ← arg cmdLine 0;
  let cmdName := ToLower (str a0) in
  let args := drop 1 cmdLine in
  let named n := String.eqb cmdName n in
  if named "ping" then mret (Ping args)
  else if named "auth" then Auth c args
  else
    x ← conn c;
    if negb (isAuthenticated x) then mret (MakeErrReply "NOAUTH Authentication required")
    else if named "info" then Info args
    else if named "slowlog" then on_slowlog cmdLine
    else if named "dbsize" then DbSize c
    else if named "slaveof" then
      if Conn.InMultiState x then mret (MakeErrReply "cannot use slave of database within multi")
      else if negb (length cmdLine =? 3)%nat then mret (ArgNumErrReply "SLAVEOF")
      else execSlaveOf args
    else if named "command" then ord ← Order; go_lift (execCommand ord tbl args)
    else
      r ← go_get role;
      if (r =? slaveRole) && negb (Conn.IsMaster x) && negb (isReadOnlyCommand tbl cmdName)
      then mret (MakeErrReply "READONLY You can't write against a read only slave.")
      else dispatch c start cmdName cmdLine.

(** With the deferred [recover]. *)
Definition Exec_ (c : nat) (cmdLine : CmdLine) : GoM Server Reply := recovered (exec_body c cmdLine).

Definition AfterClientClose (ord : range_order) (c : nat) : GoM Server unit := on_world (PubSub.UnsubscribeAll ord c).
End services.

(** ** Start *)

Fixpoint make_dbs (n : nat) (i : Z) : list DB :=
  match n with O => [] | S n' => set_index makeDB i :: make_dbs n' (i + 1) end.

Definition databases : Z := if Databases cfg =? 0 then 16 else Databases cfg.

(** Without files to load. *)
Definition NewStandaloneServer : outcome Server :=
  if databases <? 0 then Panic "makeslice: len out of range"
  else
    h ← PubSub.MakeHub;
    sl ← SlowLog.NewSlowLogger (SlowLogMaxLen cfg) (SlowLogSlowerThan cfg);
    Ret (mkServer (make_dbs (Z.to_nat databases) 0) (PubSub.start h)
           (if AppendOnly cfg then Some [] else None) masterRole (mkSlave "" 0 "" 0 0 0) sl 0).
End server.
End Server.
