(* ===== verification/ServerLaws.v ===== *)
(** * The server: invariant and specification

    Whatever the clients send, in whatever order, apart from the commands of [may_wait], every
    command line gets a reply and the server keeps its invariant ([server_ok]). *)

From Stdlib Require Import ZArith Lia Ascii String.
From stdpp Require Import base gmap strings numbers list.
From S2P Require Import Prelude GoStd Dict QuickList LinkedList LockMap Protocol DB Marshal SlowLog StringCmds Conn PubSub Router Exec Tx Server.

Local Open Scope string_scope.
Local Open Scope list_scope.
Local Open Scope Z_scope.
Local Open Scope go_scope.

#[local] Opaque cmdTable storeTable goTable.

Import Server.

Section client.
Context `{Env}.

(** ** Commands on one database *)

(** What the database commands leave of a connection: its channels and its database; no
    command of [unbounded] is queued. *)
Definition same_conn (x y : Conn.Connection) : Prop :=
  Conn.subs y = Conn.subs x ∧ Conn.selectedDB y = Conn.selectedDB x ∧
  (Forall bounded (Conn.queue x) → Forall bounded (Conn.queue y)).

Definition db_fine (db : DB) : Prop := db_ok db ∧ unlocked (data db).

Definition csafe {A} (m : GoM Client A) : Prop := ∀ cl, db_fine (cl_db cl) →
  (m cl).1 ≠ Block ∧ db_fine (cl_db (m cl).2) ∧ same_conn (cl_conn cl) (cl_conn (m cl).2).

Lemma csafe_bind {A B} (m : GoM Client A) (k : A → GoM Client B) : csafe m → (∀ a, csafe (k a)) → csafe (m ≫= k).
Proof.
  intros Hm Hk cl Hcl. destruct (Hm cl Hcl) as (H1 & H2 & H3). unfold mbind, gom_bind.
  destruct (m cl) as [[a|msg|] cl1]; simpl in *; [|by split_and!|done].
  destruct (Hk a cl1 H2) as (K1 & K2 & K3 & K4 & K5). split_and!; [done..|]. destruct H3 as (E1 & E2 & E3). split_and!; [congruence..|auto].
Qed.

Lemma csafe_ret {A} (a : A) : csafe (mret a).
Proof. intros cl Hcl. by split_and!. Qed.

Lemma csafe_panic {A} msg : csafe (go_panic msg : GoM Client A).
Proof. intros cl Hcl. by split_and!. Qed.

Lemma csafe_get {A} (f : Client → A) : csafe (go_get f).
Proof. intros cl Hcl. by split_and!. Qed.

Lemma csafe_arg args i : csafe (arg args i).
Proof. unfold arg. destruct (args !! i); [apply csafe_ret|apply csafe_panic]. Qed.

Lemma csafe_conn f : (∀ x, same_conn x (f x)) → csafe (on_conn f).
Proof. intros Hf cl Hcl. split_and!; [done..|apply Hf]. Qed.

Lemma csafe_db {A} (m : GoM DB A) : (∀ db, db_fine db → (m db).1 ≠ Block ∧ db_fine (m db).2) → csafe (Tx.on_db m).
Proof. intros Hm cl Hcl. destruct (Hm _ Hcl) as [H1 H2]. unfold Tx.on_db. by destruct (m (cl_db cl)) as [o db]. Qed.

Lemma csafe_for {A} (xs : list A) f : (∀ x, csafe (f x)) → csafe (go_for xs f).
Proof. intros Hf. induction xs as [|x xs IH]; [apply csafe_ret|]. apply csafe_bind; [apply Hf|done]. Qed.

Lemma csafe_defer {A} d (m : GoM Client A) : csafe d → csafe m → csafe (go_defer d m).
Proof.
  intros Hd Hm cl Hcl. destruct (Hm cl Hcl) as (H1 & H2 & E1 & E2 & E3). unfold go_defer.
  destruct (m cl) as [[a|msg|] cl1]; simpl in *; [..|done].
  all: destruct (Hd cl1 H2) as (K1 & K2 & K3 & K4 & K5); destruct (d cl1) as [[u|msg'|] cl2]; simpl in *; try done;
    (split_and!; [done..|split_and!; [congruence..|auto]]).
Qed.

Create HintDb csafe.
#[local] Hint Resolve csafe_ret csafe_panic csafe_get csafe_arg : csafe.

Lemma execNormal_fine line db : db_fine db →
  (execNormalCommand cmdTable line db).1 ≠ Block ∧ db_fine (execNormalCommand cmdTable line db).2.
Proof. intros [H1 H2]. destruct (execNormalCommand_ok line db H1 H2) as (? & ? & ? & _). done. Qed.

Lemma ExecMulti_fine watching lines db : db_fine db →
  (ExecMulti cmdTable watching lines db).1 ≠ Block ∧ db_fine (ExecMulti cmdTable watching lines db).2.
Proof. intros [H1 H2]. destruct (ExecMulti_ok watching lines db H1 H2) as (? & ? & ? & _). done. Qed.

Ltac conn_same := apply csafe_conn; intros ?; split_and!; [done..|intros ?; first [done|by constructor]].

Lemma Exec_csafe line : bounded line → csafe (Tx.Exec cmdTable line).
Proof.
  intros Hline. assert (∀ err, csafe (tx_error err)) as Herr by (intros err; apply csafe_bind; [conn_same|eauto with csafe]).
  unfold Tx.Exec. apply csafe_bind; [eauto with csafe|intros a0]. cbv zeta.
  repeat match goal with |- csafe (if ?b then _ else _) => destruct b end; eauto with csafe.
  - apply csafe_bind; [apply csafe_get|intros multi]. destruct multi; eauto with csafe.
    apply csafe_bind; [conn_same|eauto with csafe].
  - apply csafe_bind; [apply csafe_get|intros multi]. destruct multi; simpl; eauto with csafe.
    do 2 (apply csafe_bind; [conn_same|intros _]). eauto with csafe.
  - apply csafe_bind; [apply csafe_get|intros multi]. destruct multi; simpl; eauto with csafe.
    apply csafe_defer; [conn_same|]. apply csafe_bind; [apply csafe_get|intros errs]. destruct (_ <? _)%nat; eauto with csafe.
    do 2 (apply csafe_bind; [apply csafe_get|intros ?]). apply csafe_db. intros db. apply ExecMulti_fine.
  - apply csafe_bind; [|eauto with csafe]. apply csafe_for. intros k. apply csafe_bind; [|intros v; conn_same].
    apply csafe_db. intros db Hdb. done.
  - apply csafe_bind; [apply csafe_get|intros multi]. destruct multi.
    + unfold Tx.EnqueueCmd. apply csafe_bind; [eauto with csafe|intros a]. cbv zeta. destruct (cmdTable !! _) as [cmd|]; eauto.
      destruct (prepare cmd); eauto. destruct (negb _); eauto. apply csafe_bind; [|eauto with csafe].
      apply csafe_conn. intros x. split_and!; [done..|]. intros Hq. apply Forall_app. split; [done|by constructor].
    + apply csafe_db. intros db. apply execNormal_fine.
Qed.

(** With the table of the code the same happens. *)
Lemma Exec_go fuel line cl : bounded line → db_fine (cl_db cl) → Forall bounded (Conn.queue (cl_conn cl)) →
  Tx.Exec (goTable fuel) line cl = Tx.Exec cmdTable line cl.
Proof.
  intros Hb [Hok Hu] Hq. unfold Tx.Exec, arg. destruct (line !! 0%nat) as [a|] eqn:E; [|done].
  rewrite !(bind_Ret _ _ cl a cl) by reflexivity. cbv zeta.
  repeat match goal with |- context [if String.eqb ?x ?y then _ else _] => destruct (String.eqb x y) end; try done.
  - destruct (negb _); [done|]. unfold execMulti, go_defer, conn_get, go_get, Tx.on_db, mbind, gom_bind. destruct (negb _); [done|].
    destruct (0 <? _)%nat; [done|]. by rewrite ExecMulti_go.
  - unfold mbind, gom_bind, conn_get, go_get. cbn. destruct (Conn.InMultiState _).
    + unfold EnqueueCmd, arg. rewrite E. rewrite !(bind_Ret _ _ cl a cl) by reflexivity. by rewrite (table_go fuel line a Hb E).
    + by rewrite execNormalCommand_go.
Qed.
End client.

(** ** Publish/subscribe keeps the selected databases and the queues *)

Section keeps.
Import PubSub.

Definition state_of (x : Conn.Connection) : Z * list CmdLine := (Conn.selectedDB x, Conn.queue x).

Definition keeps {A} (m : GoM World A) : Prop := ∀ w c, state_of (conn_of (m w).2 c) = state_of (conn_of w c).

Lemma keeps_bind {A B} (m : GoM World A) (k : A → GoM World B) : keeps m → (∀ a, keeps (k a)) → keeps (m ≫= k).
Proof.
  intros Hm Hk w c. unfold mbind, gom_bind. pose proof (Hm w c) as E. destruct (m w) as [[a| |] w1]; simpl in *; try done.
  by rewrite Hk.
Qed.

Lemma keeps_defer {A} d (m : GoM World A) : keeps d → keeps m → keeps (go_defer d m).
Proof.
  intros Hd Hm w c. unfold go_defer. pose proof (Hm w c) as E. destruct (m w) as [[a| |] w1]; simpl in *; try done;
    pose proof (Hd w1 c) as E'; destruct (d w1) as [[] w2]; simpl in *; congruence.
Qed.

Lemma keeps_ret {A} (a : A) : keeps (mret a).
Proof. done. Qed.

Lemma keeps_get {A} (f : World → A) : keeps (go_get f).
Proof. done. Qed.

Lemma keeps_lift {A} (o : outcome A) : keeps (go_lift o).
Proof. done. Qed.

Lemma keeps_subs f : keeps (upd_subs f).
Proof. done. Qed.

Lemma keeps_locker f : keeps (on_locker f).
Proof. intros w c. unfold on_locker. by destruct (f _). Qed.

Lemma keeps_conn c f : (∀ x, state_of (f x) = state_of x) → keeps (upd_conn c f).
Proof. intros Hf w c'. simpl. rewrite conn_of_insert. case_bool_decide; subst; [apply Hf|done]. Qed.

Lemma keeps_Write c b : keeps (Write c b).
Proof. unfold Write. destruct (String.eqb b ""); done. Qed.

Lemma keeps_for {A} (xs : list A) f : (∀ x, keeps (f x)) → keeps (go_for xs f).
Proof. intros Hf. induction xs as [|x xs IH]; [done|]. apply keeps_bind; [apply Hf|done]. Qed.

Lemma keeps_for_each l b : keeps (for_each l (λ client, Write client b)).
Proof.
  intros w c. unfold for_each, Linked.ForEach. generalize (Linked.scan_fuel l), (Linked.first l), 0. intros fuel. revert w.
  induction fuel as [|fuel IH]; intros w x i; [done|]. destruct x as [y|]; [|done]. cbn [Linked.for_each_loop].
  destruct (Linked.deref _ _) as [n| |]; try done. cbn [mbind outcome_bind]. specialize (IH (Write (Linked.val n.2) b w).2 (Linked.next n.2) (i + 1)).
  rewrite (keeps_Write _ _ _ c) in IH. destruct (Linked.for_each_loop fuel _ _ _ _ _); simpl in *; done.
Qed.

Create HintDb keeps.
#[local] Hint Resolve keeps_ret keeps_get keeps_lift keeps_subs keeps_locker keeps_Write keeps_for_each : keeps.

Ltac keep := repeat first [apply keeps_bind; [|intros ?] | apply keeps_defer | apply keeps_for; intros ?
  | progress eauto with keeps | by apply keeps_conn | case_match].

Lemma subscribe0_keeps ch c : keeps (subscribe0 ch c).
Proof. unfold subscribe0. keep. Qed.

Lemma unsubscribe0_keeps ch c : keeps (unsubscribe0 ch c).
Proof. unfold unsubscribe0. keep. Qed.

#[local] Hint Resolve subscribe0_keeps unsubscribe0_keeps : keeps.

Lemma exec_keeps o : keeps (exec o).
Proof.
  destruct o as [c args|ord c args|ord c|args]; simpl; unfold Subscribe, UnSubscribe, UnsubscribeAll, Publish, with_channels; keep.
Qed.
End keeps.

(** ** The invariant of the server *)

Record server_ok (s : Server) : Prop := {
  so_dbs : Forall db_fine (dbSet s);
  so_pubsub : ∃ S, PubSub.rep (world s) S;
  so_locks : PubSub.locker (world s) = PubSub.free_locks;
  so_slow : ∃ max thr h, SlowLog.rep max thr (slogLogger s) h;
  so_sel : ∀ c, 0 ≤ Conn.selectedDB (PubSub.conn_of (world s) c) < Z.of_nat (length (dbSet s));
  so_queue : ∀ c, Forall bounded (Conn.queue (PubSub.conn_of (world s) c))
}.

(** The call ends and keeps the invariant and the number of databases. *)
Definition ssafe {A} (m : GoM Server A) : Prop := ∀ s, server_ok s →
  (m s).1 ≠ Block ∧ server_ok (m s).2 ∧ length (dbSet (m s).2) = length (dbSet s).

(** The commands that may wait for ever, or whose work is left to the parts that the server
    only calls. *)
Definition may_wait : list string :=
  unbounded ++ ["info"; "slaveof"; "rewriteaof"; "save"; "copy"; "replconf"; "psync"].

Lemma may_wait_bounded line : command_name line ∉ may_wait → bounded line.
Proof. unfold may_wait, bounded. rewrite elem_of_app. tauto. Qed.

(** The same from one state. *)
Definition sat {A} (m : GoM Server A) (s : Server) : Prop :=
  (m s).1 ≠ Block ∧ server_ok (m s).2 ∧ length (dbSet (m s).2) = length (dbSet s).

Lemma sat_bind {A B} (m : GoM Server A) (k : A → GoM Server B) s : sat m s → (∀ a, ssafe (k a)) → sat (m ≫= k) s.
Proof.
  intros (G1 & G2 & G3) Hk. unfold sat, mbind, gom_bind.
  destruct (m s) as [[a|msg|] s1]; simpl in *; [|by split_and!|done]. destruct (Hk a s1 G2) as (K1 & K2 & K3). split_and!; [done..|congruence].
Qed.

Lemma ssafe_bind {A B} (m : GoM Server A) (k : A → GoM Server B) : ssafe m → (∀ a, ssafe (k a)) → ssafe (m ≫= k).
Proof. intros Hm Hk s Hs. apply sat_bind; [by apply Hm|done]. Qed.

Lemma ssafe_ret {A} (a : A) : ssafe (mret a).
Proof. intros s Hs. by split_and!. Qed.

Lemma ssafe_panic {A} msg : ssafe (go_panic msg : GoM Server A).
Proof. intros s Hs. by split_and!. Qed.

Lemma ssafe_get {A} (f : Server → A) : ssafe (go_get f).
Proof. intros s Hs. by split_and!. Qed.

Lemma ssafe_lift {A} (o : outcome A) : o ≠ Block → ssafe (go_lift o).
Proof. intros Ho s Hs. by split_and!. Qed.

Lemma ssafe_arg args i : ssafe (arg args i).
Proof. unfold arg. destruct (args !! i); [apply ssafe_ret|apply ssafe_panic]. Qed.

Lemma ssafe_modify f : (∀ s, server_ok s → server_ok (f s) ∧ length (dbSet (f s)) = length (dbSet s)) → ssafe (go_modify f).
Proof. intros Hf s Hs. destruct (Hf s Hs). by split_and!. Qed.

Lemma ssafe_early {A} (m : GoM Server (Reply + A)) (k : A → GoM Server Reply) : ssafe m → (∀ a, ssafe (k a)) → ssafe (early m k).
Proof. intros Hm Hk. apply ssafe_bind; [done|]. intros [e|a]; [apply ssafe_ret|apply Hk]. Qed.

Create HintDb ssafe.
#[export] Hint Resolve ssafe_ret ssafe_panic ssafe_get ssafe_arg : ssafe.

Section server.
Context `{Env} (cfg : Config).

Lemma ssafe_Now : ssafe Now.
Proof. intros s [H1 H2 H3 H4 H5 H6]. by split_and!. Qed.

Lemma ssafe_Order : ssafe Order.
Proof. intros s [H1 H2 H3 H4 H5 H6]. by split_and!. Qed.

Lemma SaveCmdLine_ok i lines s : server_ok s → server_ok (SaveCmdLine i lines s).2 ∧ dbSet (SaveCmdLine i lines s).2 = dbSet s.
Proof. intros [H1 H2 H3 H4 H5 H6]. unfold SaveCmdLine. simpl. destruct (persister s); split; try done; by split. Qed.

Lemma ssafe_Save i lines : ssafe (SaveCmdLine i lines).
Proof. intros s Hs. destruct (SaveCmdLine_ok i lines s Hs) as [H1 H2]. split_and!; [done..|]. by rewrite H2. Qed.

(** A connection keeps its channels. *)
Lemma rep_conn w S c x : PubSub.rep w S → Conn.subs x = Conn.subs (PubSub.conn_of w c) →
  PubSub.rep (PubSub.mkWorld (PubSub.hub w) (<[c := x]> (PubSub.conns w)) (PubSub.sent w)) S.
Proof.
  intros [H1 H2 H3 H4] Hx. split; simpl; try done. intros c'. rewrite PubSub.conn_of_insert. case_bool_decide; [|done]. subst. by rewrite Hx.
Qed.

Lemma conn_ok_upd c x s : server_ok s → Conn.subs x = Conn.subs (PubSub.conn_of (world s) c) →
  0 ≤ Conn.selectedDB x < Z.of_nat (length (dbSet s)) → Forall bounded (Conn.queue x) → server_ok (upd_conn c (λ _, x) s).2.
Proof.
  intros [H1 [S H2] H3 H4 H5 H6] Hx Hsel Hq. split; simpl; try done; [exists S; by apply rep_conn|..]; intros c';
    rewrite PubSub.conn_of_insert; case_bool_decide; [done|apply H5|done|apply H6].
Qed.

Lemma ssafe_conn c f : (∀ x, same_conn x (f x)) → ssafe (upd_conn c f).
Proof.
  intros Hf s Hs. set (x := PubSub.conn_of (world s) c). destruct (Hf x) as (E1 & E2 & E3). change (upd_conn c f s) with (upd_conn c (λ _, f x) s).
  split_and!; [done| |done]. apply conn_ok_upd; [done..| |apply E3, Hs]. rewrite E2. apply Hs.
Qed.

Lemma ssafe_pubsub o : ssafe (on_world (PubSub.exec o)).
Proof.
  intros s [H1 [S H2] H3 H4 H5 H6]. destruct (PubSub.exec_spec o (world s) (S, PubSub.sent (world s)) H2 eq_refl H3) as (w & E & Hr & Hl & _).
  pose proof (exec_keeps o (world s)) as Hk. unfold on_world. rewrite E in Hk |- *. split_and!; [done| |done].
  split; simpl; [done|eauto|congruence|done|..]; intros c; simpl in Hk; injection (Hk c) as E1 E2; [by rewrite E1|by rewrite E2].
Qed.

(** ** The set of databases *)

Lemma selectDB_ok i s : server_ok s → 
  match (selectDB i s).1 with Ret (inr db) => db_fine db ∧ dbSet s !! Z.to_nat i = Some db | Block => False | _ => True end ∧ (selectDB i s).2 = s.
Proof.
  intros Hs. unfold selectDB. destruct (in_range s i); [|done]. destruct (dbSet s !! Z.to_nat i) as [db|] eqn:E; [|done].
  simpl. split; [|done]. split; [|done]. pose proof (so_dbs _ Hs) as Hd. rewrite Forall_lookup in Hd. by eapply Hd.
Qed.

(** A computation of a selected database. *)
Lemma ssafe_select {B} i (k : DB → GoM Server B) (e : Reply → GoM Server B) :
  (∀ db s, server_ok s → db_fine db → sat (k db) s) →
  (∀ r, ssafe (e r)) → ssafe (r ← selectDB i; match r with inl x => e x | inr db => k db end).
Proof.
  intros Hk He s Hs. destruct (selectDB_ok i s Hs) as [H1 H2]. unfold mbind, gom_bind. destruct (selectDB i s) as [[[x|db]| |] s1]; simpl in *; subst; try done.
  - by apply He.
  - apply Hk; [done|apply H1].
Qed.

Lemma put_db_ok i db s : server_ok s → db_fine db → server_ok (put_db cfg i db s) ∧ length (dbSet (put_db cfg i db s)) = length (dbSet s).
Proof.
  intros [H1 H2 H3 H4 H5 H6] Hdb. unfold put_db. set (s' := set_ticks _ _).
  assert (server_ok s' ∧ length (dbSet s') = length (dbSet s)) as [Hs' Hl].
  { subst s'. simpl. rewrite length_insert. split; [|done]. split; simpl; try done; [|by rewrite length_insert].
    apply Forall_insert; [done|]. destruct Hdb as [[? ? ? ?] ?]. by split. }
  destruct (AppendOnly cfg); [|done]. destruct (SaveCmdLine_ok i (aof db) s' Hs') as [? E]. split; [done|]. by rewrite E.
Qed.

Lemma take_db_fine db s : db_fine db → db_fine (take_db db s).
Proof. intros [[? ? ? ?] ?]. by split. Qed.
End server.

Section commands.
Context `{Env} (fuel : nat) (cfg : Config).

#[local] Hint Resolve ssafe_Now ssafe_Order ssafe_Save : ssafe.

Lemma set_index_fine db i : db_fine db → db_fine (set_index db i).
Proof. intros [[? ? ? ?] ?]. by split. Qed.

Lemma makeDB_fine i : db_fine (set_index makeDB i).
Proof. apply set_index_fine. destruct (make_db_ok dataDictSize ttlDictSize) as (Hok & Hu & _); [by compute..|]. exact (conj Hok Hu). Qed.

#[local] Opaque makeDB.

Lemma ssafe_mustSelect i : ssafe (mustSelectDB i).
Proof. unfold mustSelectDB. apply ssafe_select; [|intros; apply ssafe_panic]. intros db s Hs Hd. by split_and!. Qed.

Lemma ssafe_loadDB i db : db_fine (set_index db i) → ssafe (loadDB i db).
Proof.
  intros Hdb. unfold loadDB. apply ssafe_bind; [apply ssafe_get|intros s0]. destruct (negb _); eauto with ssafe.
  apply ssafe_bind; [apply ssafe_mustSelect|intros _]. apply ssafe_bind; [|eauto with ssafe]. apply ssafe_modify.
  intros s [H1 H2 H3 H4 H5 H6]. simpl. rewrite length_insert. split; [|done]. split; simpl; try done; [by apply Forall_insert|]. by rewrite length_insert.
Qed.

Lemma ssafe_flushDB i : ssafe (flushDB i).
Proof.
  unfold flushDB. apply ssafe_bind; [apply ssafe_get|intros s0]. destruct (negb _); eauto with ssafe.
  apply ssafe_bind; [apply ssafe_loadDB, makeDB_fine|eauto with ssafe].
Qed.

Lemma ssafe_flush_loop n i : ssafe (flush_loop n i).
Proof. revert i. induction n as [|n IH]; intros i; simpl; [apply ssafe_ret|]. apply ssafe_bind; [apply ssafe_flushDB|done]. Qed.

Lemma ssafe_flushAll : ssafe flushAll.
Proof.
  unfold flushAll. apply ssafe_bind; [apply ssafe_get|intros n]. apply ssafe_bind; [apply ssafe_flush_loop|intros _].
  apply ssafe_bind; [apply ssafe_Save|]. eauto with ssafe.
Qed.

Lemma ssafe_execSelect c args : ssafe (execSelect c args).
Proof.
  unfold execSelect. apply ssafe_bind; [apply ssafe_arg|intros a0]. destruct (Atoi (str a0)) as [e|i]; eauto with ssafe.
  intros s Hs. set (x := Conn.SelectDB (PubSub.conn_of (world s) c) i).
  assert (∀ b, b = in_range s i → (s ← go_get id; if in_range s i then _ ← upd_conn c (λ x, Conn.SelectDB x i); mret OkReply else mret out_of_range) s
    = if b then (Ret OkReply, (upd_conn c (λ _, x) s).2) else (Ret out_of_range, s)) as Heq.
  { intros b ->. unfold mbind at 1, gom_bind, go_get, id. by destruct (in_range s i). }
  destruct (in_range s i) eqn:E; rewrite (Heq _ eq_refl); [|by split_and!].
  split_and!; [done| |done]. apply conn_ok_upd; [done..| |apply (so_queue _ Hs)]. unfold in_range in E. apply negb_true_iff, orb_false_iff in E as [? ?].
  simpl. unbool. lia.
Qed.

Lemma ssafe_Auth c args : ssafe (Auth cfg c args).
Proof.
  unfold Auth. destruct args as [|a0 [|]]; eauto with ssafe. destruct (String.eqb _ _); eauto with ssafe. cbv zeta.
  apply ssafe_bind; [by apply ssafe_conn|intros _]. destruct (String.eqb _ _); eauto with ssafe.
Qed.

Lemma ssafe_DbSize c : ssafe (DbSize c).
Proof.
  unfold DbSize, GetDBSize. apply ssafe_bind; [apply ssafe_get|intros x]. apply ssafe_bind; [|eauto with ssafe].
  apply ssafe_bind; [apply ssafe_mustSelect|eauto with ssafe].
Qed.

Lemma ssafe_role f r : ssafe (go_modify (λ s, set_role s r (f s))).
Proof. apply ssafe_modify. intros s [H1 H2 H3 H4 H5 H6]. split; [|done]. by split. Qed.

Lemma ssafe_execSlaveOf args : ssafe (execSlaveOf args).
Proof.
  unfold execSlaveOf, slaveOfNone. do 2 (apply ssafe_bind; [apply ssafe_arg|intros ?]). destruct (_ && _).
  - apply ssafe_bind; [apply ssafe_role|eauto with ssafe].
  - destruct (Atoi _); eauto with ssafe. apply ssafe_bind; [apply ssafe_role|eauto with ssafe].
Qed.

Lemma ssafe_slowlog line : ssafe (on_slowlog line).
Proof.
  intros s [H1 H2 H3 (max & thr & h & Hr) H5 H6]. destruct (SlowLog.command_rep max thr _ h line Hr) as (sl & E & Hr'). unfold on_slowlog. rewrite E.
  split_and!; [done| |done]. split; simpl; eauto.
Qed.

Lemma ssafe_record start line name : ssafe (record_slow start line name).
Proof.
  unfold record_slow. apply ssafe_bind; [apply ssafe_Now|intros now]. intros s [H1 H2 H3 (max & thr & h & Hr) H5 H6].
  destruct (SlowLog.record_rep max thr _ h start now line name Hr) as (sl & E & Hr'). unfold slow_entry. rewrite E.
  split_and!; [done| |done]. split; simpl; eauto.
Qed.

Lemma db_Exec_ok c i db line s : bounded line → server_ok s → db_fine db →
  sat (db_Exec (goTable fuel) cfg c i db line) s.
Proof.
  intros Hb Hs Hdb. unfold sat, db_Exec. set (cl0 := mkClient _ _).
  rewrite (Exec_go fuel line cl0 Hb (take_db_fine _ _ Hdb) (so_queue _ Hs c)).
  destruct (Exec_csafe line Hb cl0 (take_db_fine _ _ Hdb)) as (H1 & H2 & H3 & H4 & H5).
  destruct (Tx.Exec cmdTable line cl0) as [o cl]. simpl in H1, H2, H3, H4, H5.
  destruct (put_db_ok cfg i (cl_db cl) s Hs H2) as [Hs' Hl].
  split; [done|]. split; [|done]. simpl. assert (world (put_db cfg i (cl_db cl) s) = world s) as Ew.
  { unfold put_db. destruct (AppendOnly cfg); [|done]. unfold SaveCmdLine. simpl. by destruct (persister s). }
  apply conn_ok_upd; [done|by rewrite Ew| |apply H5, Hs]. rewrite H4, Hl. apply Hs.
Qed.

Lemma execCommand_ends ord args : execCommand ord (goTable fuel) args ≠ Block.
Proof.
  unfold execCommand. destruct args as [|a0 rest]; [done|]. cbv zeta. repeat (destruct (String.eqb _ _); [try done|]); try done.
  destruct (_ <? _)%nat; [done|]. unfold getKeys, arg_at. destruct (rest !! 0%nat) as [a|]; [|done]. cbn [mbind outcome_bind].
  destruct (goTable fuel !! str a) as [cmd|] eqn:E; [|done]. destruct (negb _); [done|]. destruct (prepare cmd) as [f|] eqn:Ep; [|done].
  pose proof (goTable_prepare _ _ _ _ (drop 1 rest) E Ep) as Hp. by destruct (f (drop 1 rest)).
Qed.

Section services.
Context `{Services}.

#[local] Hint Resolve ssafe_flushAll ssafe_execSelect ssafe_Auth ssafe_DbSize
  ssafe_execSlaveOf ssafe_slowlog ssafe_record : ssafe.

Lemma ssafe_normal c start line : bounded line → ssafe (normal (goTable fuel) cfg c start line).
Proof.
  intros Hb. unfold normal. apply ssafe_bind; [apply ssafe_get|intros x]. cbv zeta.
  apply (ssafe_select _ (λ db, r ← db_Exec (goTable fuel) cfg c (Conn.selectedDB x) db line; _ ← record_slow start line (peer_Name c); mret r) mret);
    [|eauto with ssafe]. intros db s Hs Hdb. apply sat_bind; [by apply db_Exec_ok|]. intros r.
  apply ssafe_bind; [apply ssafe_record|eauto with ssafe].
Qed.

Lemma eqb_listed (l : list string) n m : n ∉ l → bool_decide (m ∈ l) = true → String.eqb n m = false.
Proof. intros Hn Hm. apply String.eqb_neq. intros ->. by apply bool_decide_eq_true in Hm. Qed.

Lemma ssafe_dispatch c start line : command_name line ∉ may_wait → ssafe (dispatch (goTable fuel) cfg c start (command_name line) line).
Proof.
  intros Hn. unfold dispatch, need_aof, BGSaveRDB, BGRewriteAOF, execFlushDB. cbv zeta. apply ssafe_bind; [apply ssafe_get|intros x].
  rewrite !(eqb_listed _ _ "rewriteaof" Hn eq_refl), (eqb_listed _ _ "save" Hn eq_refl), (eqb_listed _ _ "copy" Hn eq_refl),
    (eqb_listed _ _ "replconf" Hn eq_refl), (eqb_listed _ _ "psync" Hn eq_refl).
  repeat match goal with |- ssafe (if ?b then _ else _) => destruct b end; eauto with ssafe.
  - apply (ssafe_pubsub (PubSub.OSubscribe c (drop 1 line))).
  - apply (ssafe_pubsub (PubSub.OPublish (drop 1 line))).
  - apply ssafe_bind; [apply ssafe_Order|intros ord]. apply (ssafe_pubsub (PubSub.OUnSubscribe ord c (drop 1 line))).
  - apply ssafe_bind; [apply ssafe_Save|intros _]. apply ssafe_flushDB.
  - apply ssafe_bind; [apply ssafe_get|intros [p|]]; eauto with ssafe.
  - by apply ssafe_normal, may_wait_bounded.
Qed.

Lemma ssafe_body c line : command_name line ∉ may_wait → ssafe (exec_body (goTable fuel) cfg c line).
Proof.
  intros Hn. unfold exec_body. apply ssafe_bind; [apply ssafe_Now|intros start]. unfold arg. destruct line as [|a0 rest]; [apply ssafe_panic|].
  intros s Hs. rewrite (bind_Ret _ _ s a0 s) by reflexivity. cbv zeta. change (ToLower (str a0)) with (command_name (a0 :: rest)).
  generalize dependent s. match goal with |- ∀ s, _ → (?m s).1 ≠ Block ∧ _ => change (ssafe m) end.
  destruct (String.eqb _ "ping"); eauto with ssafe. destruct (String.eqb _ "auth"); eauto with ssafe.
  apply ssafe_bind; [apply ssafe_get|intros x].
  rewrite (eqb_listed _ _ "info" Hn eq_refl), (eqb_listed _ _ "slaveof" Hn eq_refl).
  repeat match goal with |- ssafe (if ?b then _ else _) => destruct b end; eauto with ssafe.
  - apply ssafe_bind; [apply ssafe_Order|intros ord]. apply ssafe_lift, execCommand_ends.
  - apply ssafe_bind; [apply ssafe_get|intros r]. destruct (_ && _); eauto with ssafe. by apply ssafe_dispatch.
Qed.

(** Every command line that is not in [may_wait] gets a reply. *)
Lemma Exec_replies c line s : command_name line ∉ may_wait → server_ok s →
  ∃ r s', Exec_ (goTable fuel) cfg c line s = (Ret r, s') ∧ server_ok s' ∧ length (dbSet s') = length (dbSet s).
Proof.
  intros Hn Hs. destruct (ssafe_body c line Hn s Hs) as (G1 & G2 & G3). unfold Exec_, recovered.
  destruct (exec_body (goTable fuel) cfg c line s) as [[r|msg|] s1]; simpl in *; [| |done]; eauto.
Qed.
End services.
End commands.

(** ** Reachable servers *)

Section reachable.
Context `{Env} (fuel : nat) (cfg : Config) `{Services}.

(** One command line of some client is answered, or a client has gone. *)
Inductive sstep : Server → Server → Prop :=
  | step_line s c line r s' : command_name line ∉ may_wait → Exec_ (goTable fuel) cfg c line s = (Ret r, s') → sstep s s'
  | step_close s ord c u s' : AfterClientClose ord c s = (Ret u, s') → sstep s s'.

Lemma sstep_ok s s' : server_ok s → sstep s s' → server_ok s' ∧ length (dbSet s') = length (dbSet s).
Proof.
  intros Hs Hst. destruct Hst as [s c line r s' Hn E|s ord c u s' E].
  - destruct (Exec_replies fuel cfg c line s Hn Hs) as (r' & s1 & E1 & Hs1 & Hl). rewrite E in E1. by injection E1 as _ <-.
  - destruct (ssafe_pubsub (PubSub.OUnsubscribeAll ord c) s Hs) as (_ & K2 & K3). unfold AfterClientClose, on_world in *.
    simpl in K2, K3. unfold mbind, gom_bind in K2, K3. destruct (PubSub.UnsubscribeAll ord c (world s)) as [[] w]; try done. by injection E as _ <-.
Qed.

Lemma make_dbs_fine n i : Forall db_fine (make_dbs n i) ∧ length (make_dbs n i) = n.
Proof. revert i. induction n as [|n IH]; intros i; [done|]. destruct (IH (i + 1)). split; [|simpl; congruence]. constructor; [apply makeDB_fine|done]. Qed.

Lemma NewStandaloneServer_ok : 0 < databases cfg → 0 ≤ SlowLogMaxLen cfg →
  ∃ s, NewStandaloneServer cfg = Ret s ∧ server_ok s ∧ dbSet s = make_dbs (Z.to_nat (databases cfg)) 0.
Proof.
  intros Hd Hl. unfold NewStandaloneServer. destruct (_ <? 0) eqn:E; unbool; [lia|].
  destruct PubSub.MakeHub_spec as (h & -> & Hr & Hlk). destruct (SlowLog.new_rep _ (SlowLogSlowerThan cfg) Hl) as (sl & -> & Hsl).
  destruct (make_dbs_fine (Z.to_nat (databases cfg)) 0) as [Hf Hlen].
  eexists. split; [done|]. split; [|done]. split; simpl; [done|eauto|done|eauto|intros c; rewrite Hlen|intros c]; unfold PubSub.conn_of; cbn [PubSub.start PubSub.conns]; rewrite lookup_empty; simpl; [lia|constructor].
Qed.

(** [C7] The server neither hangs nor dies on a command line that is not one of [may_wait] (KEYS,
    SCAN, RANDOMKEY, GEORADIUS, GEORADIUSBYMEMBER, RENAMETO, RENAMENXTO, COPYTO, INFO, SLAVEOF,
    REWRITEAOF, SAVE, COPY, REPLCONF and PSYNC, which may wait for ever or are left to other
    parts): from a new server, after any sequence of other lines of any clients (transactions,
    subscriptions, unknown names, empty and malformed lines) and any clean-ups of clients that
    have gone, every further such line of every client is answered, and the invariant
    holds: the number of databases is the configured one, each database has its
    representation invariant and no lock is held, the channel locks are free, and every
    connection has a database selected that exists. *)
Theorem server_always_replies (s0 s : Server) :
  0 < databases cfg → 0 ≤ SlowLogMaxLen cfg → NewStandaloneServer cfg = Ret s0 → rtc sstep s0 s →
  Z.of_nat (length (dbSet s)) = databases cfg ∧
  Forall (λ db, db_ok db ∧ unlocked (data db)) (dbSet s) ∧
  PubSub.subsLocker (PubSub.hub (world s)) = PubSub.free_locks ∧
  (∀ c, 0 ≤ Conn.selectedDB (PubSub.conn_of (world s) c) < databases cfg) ∧
  (∀ c line, command_name line ∉ may_wait → ∃ r s', Exec_ (goTable fuel) cfg c line s = (Ret r, s')).
Proof.
  intros Hd Hl E Hr. destruct (NewStandaloneServer_ok Hd Hl) as (s1 & E1 & Hok & Hdbs). rewrite E in E1. injection E1 as <-.
  assert (server_ok s ∧ length (dbSet s) = Z.to_nat (databases cfg)) as [Hs Hlen].
  { assert (length (dbSet s0) = Z.to_nat (databases cfg)) as Hl0 by (rewrite Hdbs; apply make_dbs_fine). clear E Hdbs.
    induction Hr as [s0|s0 s1 s2 Hst _ IH]; [done|]. destruct (sstep_ok _ _ Hok Hst) as [Hok1 E1]. apply IH; [done|congruence]. }
  split_and!; [lia|apply Hs|apply Hs| |].
  - intros c. pose proof (so_sel _ Hs c). lia.
  - intros c line Hn. destruct (Exec_replies fuel cfg c line s Hn Hs) as (r & s' & ? & _). eauto.
Qed.
End reachable.

(** A server whose other parts do nothing. *)
Definition idle_services : Services := {|
  GenGodisInfoString n := mret n;
  Rewrite := mret None;
  GenerateRDB _ := mret None;
  execCopy _ _ := mret (IntReply 0);
  execReplConf _ _ := mret OkReply;
  execPSync _ _ := mret OkReply;
  peer_Name _ := "peer"
|}.

Definition demo_config : Config := mkConfig "" true 2 "" 8 0.

(** A client that has sent MULTI gets its answer to EXEC. *)
Lemma server_always_replies_witness :
  ∃ s0 s r s', rtc (sstep (H := demo_env) (H0 := idle_services) 5 demo_config) s0 s ∧
    Exec_ (H := demo_env) (goTable (H := demo_env) 5) (H0 := idle_services) demo_config 7 (ToCmdLine ["EXEC"]) s = (Ret r, s').
Proof.
  destruct (NewStandaloneServer_ok demo_config) as (s0 & E & Hs0 & _); [done..|]. exists s0.
  destruct (Exec_replies (H := demo_env) (H0 := idle_services) 5 demo_config 7 (ToCmdLine ["MULTI"]) s0) as (r1 & s1 & E1 & _); [apply (bool_decide_eq_true_1 (_ ∉ _)); reflexivity|done|].
  exists s1. assert (rtc (sstep (H := demo_env) (H0 := idle_services) 5 demo_config) s0 s1) as Hr.
  { apply rtc_once. eapply step_line; [|exact E1]. apply (bool_decide_eq_true_1 (_ ∉ _)); reflexivity. }
  destruct (proj2 (proj2 (proj2 (proj2 (server_always_replies (H := demo_env) (H0 := idle_services) 5 demo_config s0 s1 eq_refl ltac:(done) E Hr)))) 7%nat
    (ToCmdLine ["EXEC"])) as (r & s' & Er); [apply (bool_decide_eq_true_1 (_ ∉ _)); reflexivity|].
  exists r, s'. by split.
Defined.
