(* ===== verification/ServerSpec.v ===== *)
(** * The server as a list of finite maps

    [server_refines]: for the modelled data commands, SELECT, FLUSHDB, FLUSHALL and PING the
    server gives the replies, the contents and the log of a specification that has a pair
    of finite maps (values, expiry times) per database and a selected database per client. *)

From Stdlib Require Import ZArith Lia Ascii String.
From stdpp Require Import base gmap strings numbers list.
From S2P Require Import Prelude GoStd Dict QuickList LinkedList LockMap Protocol DB Marshal SlowLog StringCmds Conn PubSub Router Exec Tx Server ServerLaws.

Local Open Scope string_scope.
Local Open Scope list_scope.
Local Open Scope Z_scope.
Local Open Scope go_scope.

#[local] Opaque cmdTable storeTable goTable.

Import Server.

(** ** Specification *)

Record Spec := mkSpec {
  sp_dbs : list (gmap string DataEntity * gmap string Z);
  sp_sel : nat → Z;
  sp_log : option (list (Z * CmdLine));
  sp_ticks : nat
}.

Definition spec_log (lines : list CmdLine) (i : Z) (log : option (list (Z * CmdLine))) : option (list (Z * CmdLine)) :=
  (λ l, l ++ ((λ x, (i, x)) <$> lines)) <$> log.

Section spec.
Context `{Env} (cfg : Config).

Definition spec_tick (n : nat) (sp : Spec) : Spec := mkSpec (sp_dbs sp) (sp_sel sp) (sp_log sp) n.

Definition spec_select (c : nat) (line : CmdLine) (sp : Spec) : Reply * Spec :=
  match line with
  | [_; a] =>
      match Atoi (str a) with
      | inl _ => (MakeErrReply "ERR invalid DB index", sp)
      | inr i =>
          if (0 <=? i) && (i <? Z.of_nat (length (sp_dbs sp)))
          then (OkReply, mkSpec (sp_dbs sp) (λ d, if bool_decide (c = d) then i else sp_sel sp d) (sp_log sp) (sp_ticks sp))
          else (out_of_range, sp)
      end
  | _ => (ArgNumErrReply "select", sp)
  end.

Definition spec_flushdb (c : nat) (line : CmdLine) (sp : Spec) : Reply * Spec :=
  match line with
  | [_] => (OkReply, mkSpec (<[Z.to_nat (sp_sel sp c) := (∅, ∅)]> (sp_dbs sp)) (sp_sel sp)
                       (spec_log [ToCmdLine ["FlushDB"]] (sp_sel sp c) (sp_log sp)) (sp_ticks sp))
  | _ => (ArgNumErrReply "flushdb", sp)
  end.

Definition spec_flushall (sp : Spec) : Reply * Spec :=
  (OkReply, mkSpec ((λ _, (∅, ∅)) <$> sp_dbs sp) (sp_sel sp) (spec_log [ToCmdLine ["FlushAll"]] 0 (sp_log sp)) (sp_ticks sp)).

(** A data command on the selected database; the clock is read once more for the slow log,
    if the command does not panic. *)
Definition spec_normal (c : nat) (line : CmdLine) (sp : Spec) : Reply * Spec :=
  let i := sp_sel sp c in
  match sp_dbs sp !! Z.to_nat i with
  | None => (out_of_range, sp)
  | Some m =>
      let r := Command storeTable line (mkView m.1 m.2 [] (sp_ticks sp)) in
      let sp' := mkSpec (<[Z.to_nat i := (v_store r.2, v_ttl r.2)]> (sp_dbs sp)) (sp_sel sp)
                   (if AppendOnly cfg then spec_log (v_aof r.2) i (sp_log sp) else sp_log sp) (v_draws r.2) in
      match r.1 with
      | Ret x => (x, spec_tick (S (v_draws r.2)) sp')
      | _ => (UnknownErrReply, sp')
      end
  end.

Definition spec_exec (c : nat) (line : CmdLine) (sp : Spec) : Reply * Spec :=
  let sp := spec_tick (S (sp_ticks sp)) sp in
  let named n := String.eqb (command_name line) n in
  if named "ping" then (Ping (drop 1 line), sp)
  else if named "select" then spec_select c line sp
  else if named "flushdb" then spec_flushdb c line sp
  else if named "flushall" then spec_flushall sp
  else spec_normal c line sp.

Fixpoint spec_run (cmds : list (nat * CmdLine)) (sp : Spec) : list Reply * Spec :=
  match cmds with
  | [] => ([], sp)
  | x :: cmds' => let r := spec_exec x.1 x.2 sp in let q := spec_run cmds' r.2 in (r.1 :: q.1, q.2)
  end.
End spec.

(** The names [Server.Exec] and [DB.Exec] handle themselves. *)
Definition reserved : list string :=
  ["auth"; "info"; "slowlog"; "dbsize"; "slaveof"; "command"; "subscribe"; "publish"; "unsubscribe"; "bgrewriteaof";
   "rewriteaof"; "save"; "bgsave"; "copy"; "replconf"; "psync"; "multi"; "discard"; "exec"; "watch"].

(** The lines the theorem speaks about. *)
Definition plain (line : CmdLine) : bool :=
  negb (length line =? 0)%nat &&
  (bool_decide (command_name line ∈ ["ping"; "select"; "flushdb"; "flushall"]) ||
   (specified (command_name line) && negb (bool_decide (command_name line ∈ reserved)))).

Fixpoint server_run `{Env} (tbl : Table DB) (cfg : Config) `{Services} (cmds : list (nat * CmdLine)) : GoM Server (list Reply) :=
  match cmds with
  | [] => mret []
  | x :: cmds' => r ← Exec_ tbl cfg x.1 x.2; rs ← server_run tbl cfg cmds'; mret (r :: rs)
  end.

Definition db_is (db : DB) (m : gmap string DataEntity * gmap string Z) : Prop := cd_map (data db) = m.1 ∧ cd_map (ttlMap db) = m.2.

Lemma set_index_is db i m : db_is db m → db_is (set_index db i) m.
Proof. done. Qed.

Lemma view_is db st ttl l n : view db = mkView st ttl l n → db_is db (st, ttl).
Proof. intros E. split; [exact (f_equal v_store E)|exact (f_equal v_ttl E)]. Qed.

Lemma makeDB_is i : db_is (set_index makeDB i) (∅, ∅).
Proof.
  destruct (make_db_ok dataDictSize ttlDictSize) as (_ & _ & Hv); [by compute..|].
  apply set_index_is. unfold makeDB. exact (view_is _ _ _ _ _ Hv).
Qed.

#[local] Opaque makeDB.

Section refinement.
Context `{Env} (fuel : nat) (cfg : Config) `{Services}.
Hypothesis Hpass : RequirePass cfg = "".

Record srv_rep (s : Server) (sp : Spec) : Prop := {
  sr_ok : server_ok s;
  sr_dbs : Forall2 db_is (dbSet s) (sp_dbs sp);
  sr_sel : ∀ c, Conn.selectedDB (PubSub.conn_of (world s) c) = sp_sel sp c;
  sr_multi : ∀ c, Conn.InMultiState (PubSub.conn_of (world s) c) = false;
  sr_log : persister s = sp_log sp;
  sr_ticks : ticks s = sp_ticks sp;
  sr_role : role s = masterRole
}.

Lemma tick_rep s sp n : srv_rep s sp → srv_rep (set_ticks s n) (spec_tick n sp).
Proof. intros [[? ? ? ? ?] ? ? ? ? ? ?]. by split. Qed.

Lemma save_rep s sp i lines : srv_rep s sp →
  srv_rep (SaveCmdLine i lines s).2 (mkSpec (sp_dbs sp) (sp_sel sp) (spec_log lines i (sp_log sp)) (sp_ticks sp)).
Proof.
  intros [H1 H2 H3 H4 H5 H6 H7]. destruct (SaveCmdLine_ok i lines s H1) as [Hok Hd]. unfold SaveCmdLine in *. simpl in *.
  rewrite <-H5. unfold spec_log. destruct (persister s) as [log|] eqn:E; simpl in *; split; try done.
Qed.

Lemma in_range_spec s sp i : srv_rep s sp → in_range s i = (0 <=? i) && (i <? Z.of_nat (length (sp_dbs sp))).
Proof.
  intros Hr. unfold in_range. rewrite (Forall2_length _ _ _ (sr_dbs _ _ Hr)).
  destruct (i >=? _) eqn:E1, (i <? 0) eqn:E2, (0 <=? i) eqn:E3, (i <? Z.of_nat _) eqn:E4; unbool; try done; lia.
Qed.

(** ** SELECT and FLUSH *)

Lemma select_rep c a s sp : srv_rep s sp → ∃ s', execSelect c [a] s = (Ret (spec_select c [None; a] sp).1, s') ∧ srv_rep s' (spec_select c [None; a] sp).2.
Proof.
  intros Hr. unfold execSelect, spec_select. erewrite bind_Ret by reflexivity. destruct (Atoi (str a)) as [e|i]; [by exists s|].
  erewrite bind_Ret by reflexivity. unfold id. rewrite <-(in_range_spec _ _ _ Hr). destruct (in_range s i) eqn:E; [|by exists s].
  erewrite bind_Ret by reflexivity. eexists. split; [done|]. rewrite (in_range_spec _ _ _ Hr) in E. destruct Hr as [H1 H2 H3 H4 H5 H6 H7].
  split; simpl; try done.
  - set (x := Conn.SelectDB (PubSub.conn_of (world s) c) i). apply (conn_ok_upd c x); [done..| |apply (so_queue _ H1)]. simpl.
    rewrite (Forall2_length _ _ _ H2). unbool. lia.
  - intros d. rewrite PubSub.conn_of_insert. case_bool_decide; [done|apply H3].
  - intros d. rewrite PubSub.conn_of_insert. case_bool_decide; [|apply H4]. subst. apply (H4 d).
Qed.

Lemma flushDB_rep i s sp : srv_rep s sp → 0 ≤ i < Z.of_nat (length (sp_dbs sp)) →
  ∃ s', flushDB i s = (Ret OkReply, s') ∧ srv_rep s' (mkSpec (<[Z.to_nat i := (∅, ∅)]> (sp_dbs sp)) (sp_sel sp) (sp_log sp) (sp_ticks sp)).
Proof.
  intros Hr Hi. pose proof (sr_ok _ _ Hr) as Hok. pose proof (in_range_spec s sp i Hr) as E.
  rewrite (proj2 (andb_true_iff _ _)) in E by (split; [apply Z.leb_le|apply Z.ltb_lt]; lia).
  destruct (lookup_lt_is_Some_2 (dbSet s) (Z.to_nat i)) as [db Hdb]; [rewrite (Forall2_length _ _ _ (sr_dbs _ _ Hr)); lia|].
  set (s1 := set_dbSet s (<[Z.to_nat i := set_index makeDB i]> (dbSet s))).
  assert (flushDB i s = (Ret OkReply, s1)) as Hf.
  { assert (mustSelectDB i s = (Ret db, s)) as Em by (unfold mustSelectDB, mbind, gom_bind, selectDB; by rewrite E, Hdb).
    unfold flushDB. erewrite bind_Ret by reflexivity. unfold id. rewrite E. cbn [negb]. erewrite bind_Ret; [reflexivity|].
    unfold loadDB. erewrite bind_Ret by reflexivity. unfold id. rewrite E. cbn [negb]. by erewrite bind_Ret by exact Em. }
  exists s1. split; [done|]. destruct (ssafe_flushDB i s Hok) as (_ & Hok1 & _). rewrite Hf in Hok1.
  destruct Hr as [H1 H2 H3 H4 H5 H6 H7]. split; try done. simpl. apply Forall2_insert; [done|apply makeDB_is].
Qed.

Lemma flush_loop_rep n i s sp : srv_rep s sp → Z.of_nat n + i = Z.of_nat (length (sp_dbs sp)) → 0 ≤ i →
  ∃ s', flush_loop n i s = (Ret tt, s') ∧
    srv_rep s' (mkSpec (take (Z.to_nat i) (sp_dbs sp) ++ replicate n (∅, ∅)) (sp_sel sp) (sp_log sp) (sp_ticks sp)).
Proof.
  revert i s sp. induction n as [|n IH]; intros i s sp Hr Hn Hi; simpl.
  { exists s. split; [done|]. rewrite take_ge, app_nil_r by lia. by destruct sp. }
  destruct (flushDB_rep i s sp Hr) as (s1 & E1 & Hr1); [lia|]. erewrite bind_Ret by exact E1.
  destruct (IH (i + 1) s1 _ Hr1) as (s2 & E2 & Hr2); [simpl; rewrite length_insert; lia|lia|]. exists s2. split; [done|].
  simpl in Hr2. replace (take (Z.to_nat i) (sp_dbs sp) ++ (∅, ∅) :: replicate n (∅, ∅))
    with (take (Z.to_nat (i + 1)) (<[Z.to_nat i:=(∅, ∅)]> (sp_dbs sp)) ++ replicate n (∅, ∅)); [done|].
  replace (Z.to_nat (i + 1)) with (S (Z.to_nat i)) by lia.
  rewrite (take_S_r _ _ (∅, ∅)) by (apply list_lookup_insert_eq; lia). rewrite take_insert_ge, <-app_assoc by lia. done.
Qed.

Lemma flushAll_rep s sp : srv_rep s sp → ∃ s', flushAll s = (Ret OkReply, s') ∧ srv_rep s' (spec_flushall sp).2.
Proof.
  intros Hr. pose proof (Forall2_length _ _ _ (sr_dbs _ _ Hr)) as Hl.
  destruct (flush_loop_rep (length (dbSet s)) 0 s sp Hr) as (s1 & E1 & Hr1); [lia..|].
  unfold flushAll. erewrite bind_Ret by reflexivity. erewrite bind_Ret by exact E1. erewrite bind_Ret by reflexivity.
  eexists. split; [done|]. apply (save_rep _ _ 0 [ToCmdLine ["FlushAll"]]) in Hr1. simpl in Hr1.
  unfold spec_flushall. simpl. rewrite Hl in Hr1.
  replace ((λ _, (∅, ∅)) <$> sp_dbs sp) with (replicate (length (sp_dbs sp)) (∅ : gmap string DataEntity, ∅ : gmap string Z)); [done|].
  clear. induction (sp_dbs sp) as [|m l IH]; [done|]. simpl. by rewrite IH.
Qed.

(** ** Data commands *)

Lemma Exec_normal line cl : line ≠ [] → command_name line ∉ ["multi"; "discard"; "exec"; "watch"] → Conn.InMultiState (cl_conn cl) = false →
  Tx.Exec (goTable fuel) line cl = Tx.on_db (execNormalCommand (goTable fuel) line) cl.
Proof.
  intros Hl Hn Hm. destruct line as [|a0 rest]; [done|]. unfold Tx.Exec. erewrite bind_Ret by reflexivity. cbv zeta.
  change (ToLower (str a0)) with (command_name (a0 :: rest)). set (n := command_name (a0 :: rest)) in *.
  rewrite !not_elem_of_cons in Hn. destruct Hn as (N1 & N2 & N3 & N4 & _).
  rewrite !(proj2 (String.eqb_neq n _)) by done. erewrite bind_Ret by reflexivity. by rewrite Hm.
Qed.

Lemma take_db_view db s m : db_is db m → view (take_db db s) = mkView m.1 m.2 [] (ticks s).
Proof. intros [E1 E2]. unfold view. simpl. by rewrite E1, E2. Qed.

(** What a database leaves goes back into the set. *)
Lemma put_db_rep s sp i db : srv_rep s sp → db_fine db →
  srv_rep (put_db cfg i db s)
    (mkSpec (<[Z.to_nat i := (cd_map (data db), cd_map (ttlMap db))]> (sp_dbs sp)) (sp_sel sp)
       (if AppendOnly cfg then spec_log (aof db) i (sp_log sp) else sp_log sp) (draws db)).
Proof.
  intros Hr Hdb. destruct (put_db_ok cfg i db s (sr_ok _ _ Hr) Hdb) as [Hok _]. destruct Hr as [H1 H2 H3 H4 H5 H6 H7].
  assert (Forall2 db_is (<[Z.to_nat i := set_aof db []]> (dbSet s)) (<[Z.to_nat i := (cd_map (data db), cd_map (ttlMap db))]> (sp_dbs sp))) as Hd
    by (by apply Forall2_insert).
  unfold put_db in *. destruct (AppendOnly cfg); [|by split]. unfold SaveCmdLine in *. simpl in *. rewrite <-H5.
  destruct (persister s) as [log|] eqn:E; split; try done.
Qed.

Lemma put_db_world i db s : world (put_db cfg i db s) = world s.
Proof. unfold put_db, SaveCmdLine. destruct (AppendOnly cfg); [|done]. simpl. by destruct (persister s). Qed.

Lemma same_conn_rep s sp c : srv_rep s sp → srv_rep (upd_conn c (λ _, PubSub.conn_of (world s) c) s).2 sp.
Proof.
  intros [H1 H2 H3 H4 H5 H6 H7]. split; try done; simpl.
  - apply conn_ok_upd; [done..|apply H1|apply H1].
  - intros d. rewrite PubSub.conn_of_insert. case_bool_decide; [by subst|apply H3].
  - intros d. rewrite PubSub.conn_of_insert. case_bool_decide; [by subst|apply H4].
Qed.

Lemma record_server_rep start line name s sp : srv_rep s sp →
  ∃ s', record_slow start line name s = (Ret tt, s') ∧ srv_rep s' (spec_tick (S (sp_ticks sp)) sp).
Proof.
  intros Hr. destruct (ssafe_record start line name s (sr_ok _ _ Hr)) as (_ & Hok & _). revert Hok.
  unfold record_slow. erewrite bind_Ret by reflexivity. destruct (so_slow _ (sr_ok _ _ Hr)) as (max & thr & h & Hsl).
  destruct (SlowLog.record_rep max thr (slogLogger s) h start (time_now (ticks s)) line name Hsl) as (sl & E & _).
  unfold slow_entry. simpl. rewrite E. intros Hok. eexists. split; [done|]. destruct Hr as [H1 H2 H3 H4 H5 H6 H7]. split; try done.
  simpl. by rewrite H6.
Qed.

Lemma normal_rep c start line s sp : srv_rep s sp → line ≠ [] → specified (command_name line) = true →
  command_name line ∉ ["multi"; "discard"; "exec"; "watch"] →
  ∃ s', recovered (normal (goTable fuel) cfg c start line) s = (Ret (spec_normal cfg c line sp).1, s') ∧ srv_rep s' (spec_normal cfg c line sp).2.
Proof.
  intros Hr Hne Hsp Hn. set (i := sp_sel sp c).
  assert (0 ≤ i < Z.of_nat (length (sp_dbs sp))) as Hi.
  { pose proof (so_sel _ (sr_ok _ _ Hr) c) as Hi. rewrite (sr_sel _ _ Hr), (Forall2_length _ _ _ (sr_dbs _ _ Hr)) in Hi. done. }
  destruct (lookup_lt_is_Some_2 (sp_dbs sp) (Z.to_nat i)) as [m Hm]; [lia|].
  destruct (Forall2_lookup_r _ _ _ _ _ (sr_dbs _ _ Hr) Hm) as (db & Hdb & Hdm).
  assert (db_fine db) as Hfine by (pose proof (so_dbs _ (sr_ok _ _ Hr)) as Hf; rewrite Forall_lookup in Hf; by eapply Hf).
  unfold spec_normal. fold i. rewrite Hm. cbv zeta. unfold normal, recovered. erewrite bind_Ret by reflexivity. cbv zeta.
  rewrite (sr_sel _ _ Hr). fold i.
  assert (selectDB i s = (Ret (inr db), s)) as Esel.
  { unfold selectDB. rewrite (in_range_spec _ _ _ Hr), (proj2 (andb_true_iff _ _)), Hdb; [done|]. split; [apply Z.leb_le|apply Z.ltb_lt]; lia. }
  unfold early. erewrite bind_Ret by exact Esel. cbv beta iota.
  destruct (execNormalCommand_refines line (take_db db s) Hsp) as (E1 & E2 & K1 & K2 & K3); [apply take_db_fine, Hfine..|].
  rewrite (take_db_view _ _ _ Hdm), (sr_ticks _ _ Hr) in E1, E2.
  set (r := Command storeTable line _) in *. set (x := PubSub.conn_of (world s) c).
  unfold mbind at 1, gom_bind. unfold db_Exec. fold x.
  rewrite (Exec_normal line (mkClient (take_db db s) x) Hne Hn (sr_multi _ _ Hr c)), (execNormalCommand_go fuel line (specified_bounded _ Hsp)).
  unfold Tx.on_db. cbn [cl_db cl_conn].
  destruct (execNormalCommand cmdTable line (take_db db s)) as [o db1]. simpl in E1, E2, K1, K2, K3. cbn [cl_db cl_conn].
  pose proof (put_db_rep s sp i db1 Hr (conj K1 K2)) as Hr1. unfold x. rewrite <-(put_db_world i db1 s).
  apply (same_conn_rep _ _ c) in Hr1. rewrite <-E1, <-E2. cbn [view v_store v_ttl v_aof v_draws].
  destruct o as [v|msg|]; [|by eexists|done].
  destruct (record_server_rep start line (peer_Name c) _ _ Hr1) as (s2 & Es2 & Hr2). exists s2. by rewrite (bind_Ret _ _ _ _ _ Es2).
Qed.

(** ** Exec *)

Lemma ping_rep c line s sp : srv_rep s sp → command_name line = "ping" → line ≠ [] →
  ∃ s', Exec_ (goTable fuel) cfg c line s = (Ret (spec_exec cfg c line sp).1, s') ∧ srv_rep s' (spec_exec cfg c line sp).2.
Proof.
  intros Hr Hn Hl. destruct line as [|a0 rest]; [done|]. unfold Exec_, recovered, exec_body, spec_exec.
  erewrite bind_Ret by reflexivity. erewrite bind_Ret by reflexivity. cbv zeta.
  change (ToLower (str a0)) with (command_name (a0 :: rest)). rewrite Hn. simpl.
  eexists. split; [done|]. rewrite (sr_ticks _ _ Hr). by apply tick_rep.
Qed.

Lemma eqb_reserved n m : n ∉ reserved → bool_decide (m ∈ reserved) = true → String.eqb n m = false.
Proof. intros Hn Hm. apply String.eqb_neq. intros ->. by apply bool_decide_eq_true in Hm. Qed.

(** A line that is not PING or reserved reaches [dispatch]. *)
Lemma Exec_dispatch c line s sp : srv_rep s sp → line ≠ [] → command_name line ≠ "ping" → command_name line ∉ reserved →
  Exec_ (goTable fuel) cfg c line s = recovered (dispatch (goTable fuel) cfg c (time_now (ticks s)) (command_name line) line) (set_ticks s (S (ticks s))).
Proof.
  intros Hr Hl N0 Hn. destruct line as [|a0 rest]; [done|]. unfold Exec_, recovered, exec_body.
  erewrite bind_Ret by reflexivity. erewrite bind_Ret by reflexivity. cbv zeta.
  change (ToLower (str a0)) with (command_name (a0 :: rest)). set (n := command_name (a0 :: rest)) in *.
  rewrite (proj2 (String.eqb_neq n "ping") N0), (eqb_reserved n "auth" Hn eq_refl), (eqb_reserved n "info" Hn eq_refl),
    (eqb_reserved n "slowlog" Hn eq_refl), (eqb_reserved n "dbsize" Hn eq_refl), (eqb_reserved n "slaveof" Hn eq_refl),
    (eqb_reserved n "command" Hn eq_refl). erewrite bind_Ret by reflexivity.
  unfold isAuthenticated. rewrite Hpass. cbn [negb orb String.eqb]. erewrite bind_Ret by reflexivity. simpl. by rewrite (sr_role _ _ Hr).
Qed.

Lemma Exec_plain c line s sp : srv_rep s sp → plain line = true →
  ∃ s', Exec_ (goTable fuel) cfg c line s = (Ret (spec_exec cfg c line sp).1, s') ∧ srv_rep s' (spec_exec cfg c line sp).2.
Proof.
  intros Hr Hp. unfold plain in Hp. apply andb_true_iff in Hp as [Hl Hp].
  assert (line ≠ []) as Hne by (by destruct line).
  destruct (decide (command_name line = "ping")) as [Hping|Hping]; [by apply ping_rep|].
  assert (command_name line ∉ reserved ∧ (command_name line ∈ ["select"; "flushdb"; "flushall"] ∨ specified (command_name line) = true)) as [Hres Hcase].
  { apply orb_true_iff in Hp as [Hp|Hp].
    - apply bool_decide_eq_true in Hp. rewrite elem_of_cons in Hp. destruct Hp as [Hp|Hp]; [done|]. split; [|by left].
      rewrite !elem_of_cons, elem_of_nil in Hp. destruct Hp as [->|[->|[->|[]]]]; by apply (bool_decide_eq_false_1 (_ ∈ reserved)).
    - apply andb_true_iff in Hp as [H1 H2]. apply negb_true_iff, bool_decide_eq_false in H2. split; [done|by right]. }
  rewrite (Exec_dispatch c line s sp Hr Hne Hping Hres).
  pose proof (tick_rep s sp (S (ticks s)) Hr) as Hr1. set (s1 := set_ticks s (S (ticks s))) in *.
  rewrite (sr_ticks _ _ Hr) in Hr1. unfold spec_exec. cbv zeta. set (sp1 := spec_tick _ sp) in *.
  rewrite (proj2 (String.eqb_neq _ _) Hping). set (n := command_name line) in *. generalize (time_now (ticks s)). intros start.
  clear Hp.
  unfold dispatch, recovered. cbv zeta. erewrite bind_Ret by reflexivity. rewrite (sr_multi _ _ Hr1 c), (sr_sel _ _ Hr1 c).
  rewrite (eqb_reserved n "subscribe" Hres eq_refl), (eqb_reserved n "publish" Hres eq_refl), (eqb_reserved n "unsubscribe" Hres eq_refl), (eqb_reserved n "bgrewriteaof" Hres eq_refl), (eqb_reserved n "rewriteaof" Hres eq_refl), (eqb_reserved n "save" Hres eq_refl), (eqb_reserved n "bgsave" Hres eq_refl), (eqb_reserved n "copy" Hres eq_refl), (eqb_reserved n "replconf" Hres eq_refl), (eqb_reserved n "psync" Hres eq_refl).
  destruct (String.eqb n "select") eqn:E1; [|destruct (String.eqb n "flushdb") eqn:E2; [|destruct (String.eqb n "flushall") eqn:E3]].
  - apply String.eqb_eq in E1. rewrite E1. change ("select" =? "flushall")%string with false. change ("select" =? "flushdb")%string with false.
    destruct line as [|a0 [|a1 [|a2 rest]]]; [done|by eexists| |by eexists].
    destruct (select_rep c a1 s1 sp1 Hr1) as (s2 & E & Hr2). cbn [length Nat.eqb negb drop]. rewrite E. by eexists.
  - apply String.eqb_eq in E2. rewrite E2. change ("flushdb" =? "flushall")%string with false.
    destruct line as [|a0 [|a1 rest]]; [done| |].
    + change (validateArity 1 [a0]) with true. cbn [negb]. unfold execFlushDB.
      rewrite (bind_Ret _ _ s1 tt (SaveCmdLine (sp_sel sp1 c) [ToCmdLine ["FlushDB"]] s1).2) by reflexivity.
      pose proof (save_rep s1 sp1 (sp_sel sp1 c) [ToCmdLine ["FlushDB"]] Hr1) as Hr2.
      destruct (flushDB_rep (sp_sel sp1 c) _ _ Hr2) as (s3 & E & Hr3).
      { pose proof (so_sel _ (sr_ok _ _ Hr1) c) as Hi. rewrite (sr_sel _ _ Hr1), (Forall2_length _ _ _ (sr_dbs _ _ Hr1)) in Hi. done. }
      rewrite E. by eexists.
    + assert (validateArity 1 (a0 :: a1 :: rest) = false) as -> by (apply Z.eqb_neq; cbn [length]; lia).
      cbn [negb]. eexists. split; [|exact Hr1]. done.
  - destruct (flushAll_rep s1 sp1 Hr1) as (s2 & E & Hr2). rewrite E. by eexists.
  - assert (specified n = true) as Hs.
    { destruct Hcase as [Hc|Hc]; [|done]. rewrite !elem_of_cons, elem_of_nil in Hc. apply String.eqb_neq in E1, E2, E3. naive_solver. }
    fold (recovered (normal (goTable fuel) cfg c start line)). apply normal_rep; [done..|]. intros Hin. apply Hres.
    rewrite !elem_of_cons, elem_of_nil in Hin. unfold n.
    destruct Hin as [E|[E|[E|[E|[]]]]]; rewrite E; by apply (bool_decide_eq_true_1 (_ ∈ reserved)).
Qed.

Lemma server_run_rep cmds s sp : srv_rep s sp → Forall (λ x, plain x.2 = true) cmds →
  ∃ s', server_run (goTable fuel) cfg cmds s = (Ret (spec_run cfg cmds sp).1, s') ∧ srv_rep s' (spec_run cfg cmds sp).2.
Proof.
  intros Hr Hc. revert s sp Hr. induction Hc as [|[c line] cmds Hp _ IH]; intros s sp Hr; [by exists s|]. cbn [server_run spec_run fst snd].
  destruct (Exec_plain c line s sp Hr Hp) as (s1 & E1 & Hr1). erewrite bind_Ret by exact E1.
  destruct (IH s1 _ Hr1) as (s2 & E2 & Hr2). erewrite bind_Ret by exact E2. by exists s2.
Qed.

Lemma make_dbs_is n i : Forall2 db_is (make_dbs n i) (replicate n (∅, ∅)).
Proof. revert i. induction n as [|n IH]; intros i; [constructor|]. constructor; [apply makeDB_is|apply IH]. Qed.

Definition spec_start : Spec :=
  mkSpec (replicate (Z.to_nat (databases cfg)) (∅, ∅)) (λ _, 0) (if AppendOnly cfg then Some [] else None) 0.

Lemma start_rep : 0 < databases cfg → 0 ≤ SlowLogMaxLen cfg → ∃ s, NewStandaloneServer cfg = Ret s ∧ srv_rep s spec_start.
Proof.
  intros Hd Hl. destruct (NewStandaloneServer_ok cfg Hd Hl) as (s & E & Hok & Hdbs). exists s. split; [done|].
  unfold NewStandaloneServer in E. destruct (_ <? 0); [done|]. destruct PubSub.MakeHub_spec as (h & Eh & _). rewrite Eh in E.
  destruct (SlowLog.NewSlowLogger _ _) as [sl| |]; try done. injection E as <-. split; try done. apply make_dbs_is.
Qed.
End refinement.

(** [C6] A server without a password is a list of databases, each a pair of finite maps:
    whatever sequence of commands of the table (strings, lists, hashes, sets, sorted sets, positions, keys;
    well formed or not) and unknown names, SELECT, FLUSHDB, FLUSHALL and PING any clients interleave, from a new
    server, but none of KEYS, SCAN, GETVER, RANDOMKEY, GEORADIUS, GEORADIUSBYMEMBER, RENAMETO,
    RENAMENXTO, COPYTO ([specified]) nor of AUTH, INFO, SLOWLOG, DBSIZE, SLAVEOF, COMMAND, the
    publish/subscribe, persistence, replication and transaction commands and COPY ([reserved]), every client gets reply for reply what the maps give, with the command working
    on the database that the client has selected and on no other; afterwards every database
    has the contents of its maps and the append-only log has exactly the lines of the
    specification, each under the index of its database. *)
Theorem server_refines `{Env} (fuel : nat) (cfg : Config) `{Services} (s0 : Server) (cmds : list (nat * CmdLine)) :
  RequirePass cfg = "" → 0 < databases cfg → 0 ≤ SlowLogMaxLen cfg → NewStandaloneServer cfg = Ret s0 →
  Forall (λ x, plain x.2 = true) cmds →
  let r := spec_run cfg cmds (spec_start cfg) in
  ∃ s, server_run (goTable fuel) cfg cmds s0 = (Ret r.1, s) ∧ persister s = sp_log r.2 ∧
    Forall2 (λ db m, cd_map (data db) = m.1 ∧ cd_map (ttlMap db) = m.2) (dbSet s) (sp_dbs r.2).
Proof.
  intros Hpass Hd Hl E Hc. destruct (start_rep cfg Hd Hl) as (s1 & E1 & Hr). rewrite E in E1. injection E1 as <-.
  destruct (server_run_rep fuel cfg Hpass cmds s0 _ Hr Hc) as (s & Es & Hrs). exists s.
  split; [done|]. split; [exact (sr_log _ _ Hrs)|exact (sr_dbs _ _ Hrs)].
Qed.

Lemma server_refines_witness :
  let cmds := [(1%nat, ToCmdLine ["SET"; "k"; "v"]); (2%nat, ToCmdLine ["SELECT"; "1"]); (2%nat, ToCmdLine ["GET"; "k"]);
               (1%nat, ToCmdLine ["FLUSHDB"]); (1%nat, ToCmdLine ["GET"; "k"]); (1%nat, ToCmdLine ["nope"])] in
  ∃ s0 s, server_run (H := demo_env) (goTable (H := demo_env) 5) demo_config (H0 := idle_services) cmds s0 =
    (Ret (spec_run (H := demo_env) demo_config cmds (spec_start demo_config)).1, s).
Proof.
  intros cmds. destruct (NewStandaloneServer_ok demo_config) as (s0 & E & _); [done..|]. exists s0.
  refine (match server_refines (H := demo_env) 5 demo_config (H0 := idle_services) s0 cmds eq_refl eq_refl ltac:(done) E _ with
          | ex_intro _ s P => ex_intro _ s (proj1 P) end).
  repeat constructor.
Defined.

(** ** Authentication and read-only replicas *)

(** The commands answered before the password is checked, and before the role is. *)
Definition before_auth : list string := ["ping"; "auth"].
Definition before_role : list string := before_auth ++ ["info"; "slowlog"; "dbsize"; "slaveof"; "command"].

Lemma refused_without_password `{Env} (tbl : Table DB) (cfg : Config) `{Services} (c : nat) (line : CmdLine) (s : Server) :
  line ≠ [] → RequirePass cfg ≠ "" → Conn.password (PubSub.conn_of (world s) c) ≠ RequirePass cfg → command_name line ∉ before_auth →
  Exec_ tbl cfg c line s = (Ret (MakeErrReply "NOAUTH Authentication required"), set_ticks s (S (ticks s))).
Proof.
  intros Hl Hp Hw Hn. destruct line as [|a0 rest]; [done|]. set (n := command_name (a0 :: rest)) in *.
  unfold Exec_, recovered, exec_body. erewrite bind_Ret by reflexivity. erewrite bind_Ret by reflexivity. cbv zeta.
  change (ToLower (str a0)) with n. unfold before_auth in Hn. rewrite !not_elem_of_cons in Hn. destruct Hn as (N1 & N2 & _).
  rewrite !(proj2 (String.eqb_neq n _)) by done. erewrite bind_Ret by reflexivity.
  unfold isAuthenticated. set (x := PubSub.conn_of (world s) c) in *. change (PubSub.conn_of _ c) with x.
  by rewrite !(proj2 (String.eqb_neq _ _)) by done.
Qed.

(** [C8] Without the password a client can do nothing but PING and AUTH: on a server with a
    password, every other line of a connection that has not given it is answered with an
    error and changes nothing (but the reading of the clock); and on a replica every line
    of a connection that is not the master's is refused in the same way, unless the command
    is marked read-only in the table or is one of INFO, SLOWLOG, DBSIZE, SLAVEOF, COMMAND, PING and
    AUTH, which are answered before that check. *)
Theorem refused_lines_change_nothing `{Env} (fuel : nat) (cfg : Config) `{Services} (c : nat) (line : CmdLine) (s : Server) :
  line ≠ [] →
  let x := PubSub.conn_of (world s) c in
  let n := command_name line in
  (RequirePass cfg ≠ "" → Conn.password x ≠ RequirePass cfg → n ∉ before_auth →
     Exec_ (goTable fuel) cfg c line s = (Ret (MakeErrReply "NOAUTH Authentication required"), set_ticks s (S (ticks s)))) ∧
  (isAuthenticated cfg x = true → role s = slaveRole → Conn.IsMaster x = false → isReadOnlyCommand (goTable fuel) n = false →
     n ∉ before_role →
     Exec_ (goTable fuel) cfg c line s = (Ret (MakeErrReply "READONLY You can't write against a read only slave."), set_ticks s (S (ticks s)))).
Proof.
  intros Hl x n. split; [by apply refused_without_password|]. destruct line as [|a0 rest]; [done|].
  intros Ha Hr Hm Hro Hn. unfold Exec_, recovered, exec_body. erewrite bind_Ret by reflexivity. erewrite bind_Ret by reflexivity. cbv zeta.
  change (ToLower (str a0)) with n. unfold before_role in Hn. cbn [app before_auth] in Hn. rewrite !not_elem_of_cons in Hn. destruct Hn as (N1 & N2 & N3 & N4 & N5 & N6 & N7 & _).
  rewrite !(proj2 (String.eqb_neq n _)) by done. erewrite bind_Ret by reflexivity. change (PubSub.conn_of _ c) with x. rewrite Ha. cbn [negb].
  erewrite bind_Ret by reflexivity. cbn [role set_ticks]. by rewrite Hr, Hm, Hro.
Qed.

(** FLUSHALL without the password, and SET on a replica of another client than the master. *)
Lemma refused_lines_change_nothing_witness :
  let cfg := mkConfig "secret" false 2 "" 8 0 in
  let tbl := goTable (H := demo_env) 5 in
  (∃ s, Exec_ (H := demo_env) tbl cfg (H0 := idle_services) 3 (ToCmdLine ["FLUSHALL"]) s =
    (Ret (MakeErrReply "NOAUTH Authentication required"), set_ticks s (S (ticks s)))) ∧
  (∃ s, role s = slaveRole ∧ Exec_ (H := demo_env) tbl demo_config (H0 := idle_services) 3 (ToCmdLine ["SET"; "k"; "v"]) s =
    (Ret (MakeErrReply "READONLY You can't write against a read only slave."), set_ticks s (S (ticks s)))).
Proof.
  intros cfg tbl. split.
  - destruct (NewStandaloneServer_ok cfg) as (s & E & _); [done..|].
    set (s' := set_world s (PubSub.mkWorld (PubSub.hub (world s)) ∅ [])). exists s'.
    refine (proj1 (refused_lines_change_nothing (H := demo_env) 5 cfg (H0 := idle_services) 3 (ToCmdLine ["FLUSHALL"]) s' _) _ _ _); try done.
    apply (bool_decide_eq_true_1 (_ ∉ _)). reflexivity.
  - destruct (NewStandaloneServer_ok demo_config) as (s & E & _); [done..|].
    set (s' := set_role (set_world s (PubSub.mkWorld (PubSub.hub (world s)) ∅ [])) slaveRole (slave s)). exists s'. split; [done|].
    refine (proj2 (refused_lines_change_nothing (H := demo_env) 5 demo_config (H0 := idle_services) 3 (ToCmdLine ["SET"; "k"; "v"]) s' _) _ _ _ _ _);
      try done. apply (bool_decide_eq_true_1 (_ ∉ _)); reflexivity.
Defined.
