(* ===== verification/Laws.v ===== *)
(** * What the commands mean

    The theorems of this file are about client commands on the real database: each
    runs [execNormalCommand] on a database with its invariant and no lock held, and
    says what the replies are and what is stored, frame conditions included.  The
    proofs run the handlers on the specification and carry the result over with
    the refinement of [execNormalCommand]. *)

From Stdlib Require Import ZArith Lia Ascii String.
From stdpp Require Import base gmap strings numbers list.
From S2P Require Import Prelude GoStd Dict QuickList SetDS Protocol DB Marshal StringCmds KeyCmds ListCmds HashCmds SetCmds Router Exec.

Local Open Scope string_scope.
Local Open Scope list_scope.
Local Open Scope Z_scope.
Local Open Scope go_scope.

(** ** Running one command *)

(** The last registration of a name. *)
Fixpoint last_named {S} (n : string) (cs : list (command S)) (acc : option (command S)) : option (command S) :=
  match cs with
  | [] => acc
  | c :: cs' => last_named n cs' (if String.eqb (name c) n then Some c else acc)
  end.

Lemma register_lookup {S} (t : Table S) cs n : register t cs !! n = last_named n cs (t !! n).
Proof.
  revert t. induction cs as [|c cs IH]; intros t; simpl; [done|]. unfold register in *. simpl. rewrite IH.
  f_equal. destruct (String.eqb (name c) n) eqn:E.
  - apply String.eqb_eq in E as <-. by rewrite lookup_insert_eq.
  - apply String.eqb_neq in E. by rewrite lookup_insert_ne.
Qed.

Section laws.
Context `{Env}.

Definition exec (n : string) (args : list bytes) (db : DB) : outcome Reply * DB :=
  execNormalCommand cmdTable (Some n :: args) db.

(** A database between two commands. *)
Definition ready (db : DB) : Prop := db_ok db ∧ unlocked (data db).

Lemma storeTable_lookup n :
  storeTable (S := View) !! n =
  last_named n init_all None.
Proof. unfold storeTable. by rewrite register_lookup, lookup_empty. Qed.

#[local] Opaque cmdTable storeTable.

(** An accepted command runs its handler. *)
Lemma exec_handler n args db c (f : list bytes → GoM View Reply) :
  storeTable !! ToLower n = Some c → executor c = Some f → specified (ToLower n) = true →
  validateArity (arity c) (Some n :: args) = true →
  (∃ keys, call_prepare c (Some n :: args) = Ret keys) → ready db →
  let r := exec n args db in
  r.1 = (f args (view db)).1 ∧ view r.2 = (f args (view db)).2 ∧ ready r.2.
Proof.
  intros Hc Hf Hs Ha [keys Hp] [Hok Hu].
  destruct (execNormalCommand_refines (Some n :: args) db Hs Hok Hu) as (H1 & H2 & H3 & H4 & _).
  assert (Command storeTable (Some n :: args) (view db) = f args (view db)) as E.
  { rewrite Command_eq. unfold find_command, arg_at. simpl. rewrite Hc, Ha. simpl. rewrite Hp.
    unfold call_executor. by rewrite Hf. }
  rewrite E in H1, H2. split_and!; [exact H1|exact H2|by split].
Qed.
Lemma exec_ready n args db : specified (ToLower n) = true → ready db → ready (exec n args db).2.
Proof.
  intros Hn [Hok Hu]. destruct (execNormalCommand_refines (Some n :: args) db Hn Hok Hu) as (_ & _ & H3 & H4 & _).
  by split.
Qed.
End laws.

#[local] Opaque cmdTable storeTable.

(** Runs the handler of the command [n] on the view. *)
Ltac run_command n args db H1 H2 H3 :=
  match goal with
  | Hr : ready db |- _ =>
      edestruct (exec_handler n args db) as (H1 & H2 & H3);
        [rewrite storeTable_lookup; reflexivity|reflexivity|reflexivity|reflexivity|eexists; reflexivity|exact Hr|]
  end.

(** Forgets how the results of the runs were computed. *)
Ltac seal := repeat match goal with x := _ : outcome _ * _ |- _ => clearbody x end.

Section strings.
Context `{Env}.

Lemma set_run k v w :
  execSet [Some k; Some v] w =
  (Ret OkReply, mkView (<[k := DString (Some v)]> (v_store w)) (delete k (v_ttl w))
     (v_aof w ++ [ToCmdLine ["set"; k; v]]) (v_draws w)).
Proof. reflexivity. Qed.

(** Looking a key up when it has no expiry time. *)
Lemma GetEntity_no_ttl k w : v_ttl w !! k = None → GetEntity k w = (Ret (v_store w !! k), w).
Proof. intros Ht. simpl. unfold ViewOps.GetEntity. rewrite Ht. by destruct (v_store w !! k). Qed.

Lemma getAsString_no_ttl k w : v_ttl w !! k = None →
  getAsString k w = (Ret (match v_store w !! k with
                          | None => inr None
                          | Some (DString b) => inr b
                          | Some _ => inl WrongTypeErrReply
                          end), w).
Proof.
  intros Ht. unfold getAsString, mbind, gom_bind. rewrite (GetEntity_no_ttl _ _ Ht).
  by destruct (v_store w !! k) as [[]|].
Qed.

Lemma get_run k v w :
  v_ttl w !! k = None → v_store w !! k = Some (DString (Some v)) → execGet [Some k] w = (Ret (BulkReply (Some v)), w).
Proof.
  intros Ht Hs. unfold execGet, early, arg, mbind, gom_bind. cbn [lookup list_lookup mret gom_ret].
  change (str (Some k)) with k. by rewrite (getAsString_no_ttl _ _ Ht), Hs.
Qed.

(** GET after SET returns the value that was set, whatever the key held before
    (any type, any expiry time); the key has no expiry time then, the append-only
    file has one more line, the SET itself, and no other key is touched. *)
Theorem set_get (k v : string) (db : DB) :
  ready db →
  let r1 := exec "SET" [Some k; Some v] db in
  let r2 := exec "GET" [Some k] r1.2 in
  r1.1 = Ret OkReply ∧ r2.1 = Ret (BulkReply (Some v)) ∧ ready r2.2 ∧
  view r2.2 = mkView (<[k := DString (Some v)]> (v_store (view db))) (delete k (v_ttl (view db)))
                (v_aof (view db) ++ [ToCmdLine ["set"; k; v]]) (v_draws (view db)).
Proof.
  intros Hr r1 r2. run_command "SET" [Some k; Some v] db H1 H2 H3. rewrite set_run in H1, H2.
  fold r1 in H1, H2, H3. run_command "GET" [Some k] r1.2 G1 G2 G3. fold r2 in G1, G2, G3.
  rewrite H2, (get_run k v) in G1, G2 by (simpl; by rewrite ?lookup_delete_eq, ?lookup_insert_eq).
  seal. by split_and!.
Qed.

(** ** Expiry *)

Lemma set_px_run k v n w :
  0 < n → n * 1000000 ≤ int64_max →
  let t := time_now (v_draws w) + n * 1000000 in
  execSet [Some k; Some v; Some "PX"; Some (FormatInt n)] w =
  (Ret OkReply, mkView (<[k := DString (Some v)]> (v_store w)) (<[k := t]> (v_ttl w))
     (v_aof w ++ [ToCmdLine ["SET"; k; v]; MakeExpireCmd k t]) (S (v_draws w))).
Proof.
  intros Hn Hm t. assert (is_int64 n) by (unfold is_int64, int64_min, int64_max in *; lia).
  assert (is_int64 (n * 1000000)) by (unfold is_int64, int64_min, int64_max in *; lia).
  assert (set_options (drop 2 [Some k; Some v; Some "PX"; Some (FormatInt n)]) upsertPolicy unlimitedTTL
    = inr (upsertPolicy, n)) as E.
  { cbn [drop set_options]. change (str (Some (FormatInt n))) with (FormatInt n).
    rewrite ParseInt_FormatInt by done. simpl. destruct (n <=? 0) eqn:En; unbool; [lia|done]. }
  unfold execSet, arg, mbind, gom_bind. cbn [lookup list_lookup mret gom_ret]. rewrite E.
  assert ((n =? unlimitedTTL) = false) as -> by (apply Z.eqb_neq; unfold unlimitedTTL; lia).
  unfold millis. rewrite int64_id by done. simpl. unfold go_modify. simpl. by rewrite <-app_assoc.
Qed.

Lemma get_ttl_run k v t w :
  v_store w !! k = Some (DString (Some v)) → v_ttl w !! k = Some t →
  execGet [Some k] w =
  if time_now (v_draws w) >? t
  then (Ret NullBulkReply, mkView (delete k (v_store w)) (delete k (v_ttl w)) (v_aof w) (S (v_draws w)))
  else (Ret (BulkReply (Some v)), mkView (v_store w) (v_ttl w) (v_aof w) (S (v_draws w))).
Proof.
  intros Hs Ht. unfold execGet, early, getAsString, arg, mbind, gom_bind. cbn [lookup list_lookup mret gom_ret].
  change (str (Some k)) with k. cbn [GetEntity view_store]. unfold ViewOps.GetEntity. rewrite Hs, Ht.
  cbn [ViewOps.Now]. by destruct (time_now (v_draws w) >? t).
Qed.

(** A value set with PX [n] carries the deadline of [n] milliseconds after the
    clock reading of the SET.  A GET whose clock reading is not after the deadline
    returns the value and changes nothing; one that is returns the null reply and
    has removed the key and its deadline.  The append-only file gets a plain SET
    and a PEXPIREAT with the deadline in milliseconds. *)
Theorem set_px_get (k v : string) (n : Z) (db : DB) :
  ready db → 0 < n → n * 1000000 ≤ int64_max →
  let deadline := time_now (draws db) + n * 1000000 in
  let r1 := exec "SET" [Some k; Some v; Some "PX"; Some (FormatInt n)] db in
  let r2 := exec "GET" [Some k] r1.2 in
  r1.1 = Ret OkReply ∧ v_ttl (view r1.2) !! k = Some deadline ∧
  v_aof (view r1.2) = v_aof (view db) ++ [ToCmdLine ["SET"; k; v]; MakeExpireCmd k deadline] ∧
  if time_now (S (draws db)) >? deadline
  then r2.1 = Ret NullBulkReply ∧ v_store (view r2.2) !! k = None ∧ v_ttl (view r2.2) !! k = None
  else r2.1 = Ret (BulkReply (Some v)) ∧ v_store (view r2.2) = <[k := DString (Some v)]> (v_store (view db)).
Proof.
  intros Hr Hn Hm deadline r1 r2.
  run_command "SET" [Some k; Some v; Some "PX"; Some (FormatInt n)] db H1 H2 H3.
  rewrite (set_px_run k v n (view db) Hn Hm) in H1, H2. fold r1 in H1, H2, H3.
  run_command "GET" [Some k] r1.2 G1 G2 G3. fold r2 in G1, G2, G3. rewrite H2 in G1, G2.
  change (v_draws (view db)) with (draws db) in *. fold deadline in H1, H2, G1, G2.
  erewrite get_ttl_run in G1, G2 by (simpl; apply lookup_insert_eq). cbn [v_draws v_store v_ttl v_aof] in G1, G2.
  seal. split_and!; [done|rewrite H2; simpl; apply lookup_insert_eq|by rewrite H2|].
  destruct (_ >? deadline); split_and!; try done; rewrite G2; simpl; by rewrite ?lookup_delete_eq.
Qed.

(** ** Conditional writes *)

Lemma set_policy_run k v opt pol w :
  (opt = "NX" ∧ pol = insertPolicy) ∨ (opt = "XX" ∧ pol = updatePolicy) →
  execSet [Some k; Some v; Some opt] w =
  if Bool.eqb (present (v_store w !! k)) (bool_decide (pol = updatePolicy))
  then (Ret OkReply, mkView (<[k := DString (Some v)]> (v_store w)) (delete k (v_ttl w))
          (v_aof w ++ [ToCmdLine ["set"; k; v; opt]]) (v_draws w))
  else (Ret NullBulkReply, w).
Proof.
  intros [[-> ->]|[-> ->]]; unfold execSet, arg, mbind, gom_bind; simpl;
    unfold go_modify; destruct (v_store w !! k) eqn:E; simpl; rewrite ?E; by destruct w.
Qed.

(** SET with NX writes exactly when the key is absent from the dictionary, with
    XX exactly when it is present; the reply tells which, and a SET that does not
    write leaves the database as it was. *)
Theorem set_nx_xx (k v : string) (xx : bool) (db : DB) :
  ready db →
  let r := exec "SET" [Some k; Some v; Some (if xx then "XX" else "NX")] db in
  if Bool.eqb (present (v_store (view db) !! k)) xx
  then r.1 = Ret OkReply ∧ v_store (view r.2) = <[k := DString (Some v)]> (v_store (view db)) ∧
       v_ttl (view r.2) = delete k (v_ttl (view db))
  else r.1 = Ret NullBulkReply ∧ view r.2 = view db.
Proof.
  intros Hr r. run_command "SET" [Some k; Some v; Some (if xx then "XX" else "NX")] db H1 H2 H3. fold r in H1, H2.
  rewrite (set_policy_run k v _ (if xx then updatePolicy else insertPolicy)) in H1, H2 by (destruct xx; tauto).
  assert (bool_decide ((if xx then updatePolicy else insertPolicy) = updatePolicy) = xx) as E
    by (by destruct xx). rewrite E in H1, H2.
  seal. destruct (Bool.eqb _ xx); split_and!; try done; by rewrite H2.
Qed.

(** ** Counters *)

Lemma int64_add a b : int64 (int64 a + b) = int64 (a + b).
Proof.
  unfold int64. f_equal.
  replace ((a + 9223372036854775808) mod 18446744073709551616 - 9223372036854775808 + b + 9223372036854775808)
    with ((a + 9223372036854775808) mod 18446744073709551616 + b) by lia.
  rewrite Zplus_mod_idemp_l. f_equal. lia.
Qed.

(** The view after a value was stored under [k] and logged as [line]. *)
Definition stored (k : string) (e : DataEntity) (line : CmdLine) (w : View) : View :=
  mkView (<[k := e]> (v_store w)) (v_ttl w) (v_aof w ++ [line]) (v_draws w).

Abbreviation number n := (DString (Some (FormatInt n))).

Lemma incrby_run k n d w :
  v_ttl w !! k = None → v_store w !! k = Some (number n) → is_int64 n → is_int64 d →
  execIncrBy [Some k; Some (FormatInt d)] w =
  (Ret (IntReply (int64 (n + d))), stored k (number (int64 (n + d))) (ToCmdLine ["incrby"; k; FormatInt d]) w).
Proof.
  intros Ht Hs Hn Hd. unfold execIncrBy, early, arg, mbind, gom_bind. cbn [lookup list_lookup mret gom_ret].
  change (str (Some k)) with k. change (str (Some (FormatInt d))) with (FormatInt d).
  rewrite ParseInt_FormatInt by done. rewrite (getAsString_no_ttl _ _ Ht), Hs.
  rewrite ParseInt_FormatInt by done. reflexivity.
Qed.

Lemma incrby_new_run k d w :
  v_ttl w !! k = None → v_store w !! k = None → is_int64 d →
  execIncrBy [Some k; Some (FormatInt d)] w =
  (Ret (IntReply d), stored k (number d) (ToCmdLine ["incrby"; k; FormatInt d]) w).
Proof.
  intros Ht Hs Hd. unfold execIncrBy, early, arg, mbind, gom_bind. cbn [lookup list_lookup mret gom_ret].
  change (str (Some k)) with k. change (str (Some (FormatInt d))) with (FormatInt d).
  rewrite ParseInt_FormatInt by done. by rewrite (getAsString_no_ttl _ _ Ht), Hs.
Qed.

(** INCRBY by each of [ds] in turn. *)
Definition incr_all (k : string) (ds : list Z) (db : DB) : DB :=
  foldl (λ db d, (exec "INCRBY" [Some k; Some (FormatInt d)] db).2) db ds.

Lemma incr_all_spec k ds n db :
  ready db → v_ttl (view db) !! k = None → v_store (view db) !! k = Some (number n) → is_int64 n →
  Forall is_int64 ds →
  let db' := incr_all k ds db in
  ready db' ∧ v_ttl (view db') = v_ttl (view db) ∧
  v_store (view db') = <[k := number (int64 (n + foldr Z.add 0 ds))]> (v_store (view db)).
Proof.
  intros Hr Ht Hs Hn Hds. revert n db Hr Ht Hs Hn.
  induction Hds as [|d ds Hd _ IH]; intros n db Hr Ht Hs Hn; cbn [incr_all foldl foldr].
  { split_and!; [done..|]. rewrite Z.add_0_r, int64_id by done. by rewrite insert_id. }
  run_command "INCRBY" [Some k; Some (FormatInt d)] db H1 H2 H3.
  rewrite (incrby_run k n d _ Ht Hs Hn Hd) in H1, H2. cbn [snd] in H2.
  specialize (IH (int64 (n + d)) (exec "INCRBY" [Some k; Some (FormatInt d)] db).2 H3).
  rewrite H2 in IH. destruct IH as (I1 & I2 & I3);
    [done|simpl; apply lookup_insert_eq|apply int64_range|].
  fold (incr_all k ds (exec "INCRBY" [Some k; Some (FormatInt d)] db).2). split_and!; [exact I1|exact I2|].
  rewrite I3. simpl. by rewrite insert_insert_eq, int64_add, Z.add_assoc.
Qed.

(** A key that did not exist and is incremented by the numbers [d :: ds] holds
    the decimal form of their sum, reduced to 64 bits the way Go's addition wraps
    around; nothing else changes.  In particular the sum is exact as long as it is
    in range, and an overflow is not reported. *)
Theorem incrby_sums (k : string) (d : Z) (ds : list Z) (db : DB) :
  ready db → v_ttl (view db) !! k = None → v_store (view db) !! k = None →
  Forall is_int64 (d :: ds) →
  let db' := incr_all k (d :: ds) db in
  ready db' ∧ v_store (view db') = <[k := number (int64 (foldr Z.add 0 (d :: ds)))]> (v_store (view db)).
Proof.
  intros Hr Ht Hs Hds db'. apply Forall_cons in Hds as [Hd Hds].
  run_command "INCRBY" [Some k; Some (FormatInt d)] db H1 H2 H3.
  rewrite (incrby_new_run k d _ Ht Hs Hd) in H1, H2. cbn [snd] in H2.
  set (db1 := (exec "INCRBY" [Some k; Some (FormatInt d)] db).2) in *.
  assert (db' = incr_all k ds db1) as -> by done. clearbody db1.
  destruct (incr_all_spec k ds d db1) as (I1 & _ & I3); [done|by rewrite H2|rewrite H2; simpl; apply lookup_insert_eq|done..|].
  split; [done|]. rewrite I3, H2. simpl. by rewrite insert_insert_eq.
Qed.

(** ** Several keys at once *)

Definition pair_args (kvs : list (string * string)) : list bytes := concat ((λ kv : string * string, [Some kv.1; Some kv.2]) <$> kvs).

Lemma arg_pairs_args kvs : arg_pairs (pair_args kvs) = (λ kv : string * string, (kv.1, Some kv.2)) <$> kvs.
Proof. induction kvs as [|[k v] kvs IH]; [done|]. cbn. by rewrite <-IH. Qed.

Lemma pair_args_even kvs : Nat.even (length (pair_args kvs)) = true.
Proof. induction kvs as [|[k v] kvs IH]; [done|exact IH]. Qed.

(** The bindings of [kvs] written in order. *)
Definition put_all (kvs : list (string * string)) (m : gmap string DataEntity) : gmap string DataEntity :=
  foldl (λ m kv, <[kv.1 := DString (Some kv.2)]> m) m kvs.

Lemma put_strings_run kvs w :
  go_for (arg_pairs (pair_args kvs)) put_string w =
  (Ret tt, mkView (put_all kvs (v_store w)) (v_ttl w) (v_aof w) (v_draws w)).
Proof.
  rewrite arg_pairs_args. revert w. induction kvs as [|[k v] kvs IH]; intros w; [by destruct w|].
  cbn [fmap list_fmap go_for]. erewrite bind_Ret by reflexivity. by rewrite IH.
Qed.

Lemma mset_run kvs w :
  execMSet (pair_args kvs) w =
  (Ret OkReply, mkView (put_all kvs (v_store w)) (v_ttl w) (v_aof w ++ [ToCmdLine3 "mset" (pair_args kvs)]) (v_draws w)).
Proof.
  unfold execMSet. rewrite pair_args_even. cbn [negb]. erewrite bind_Ret by apply put_strings_run. reflexivity.
Qed.

Lemma mget_run keys w acc :
  (∀ k, k ∈ keys → v_ttl w !! k = None) →
  mget_loop keys acc w =
  (Ret (MultiBulkReply (acc ++ ((λ k, match v_store w !! k with Some (DString b) => b | _ => None end) <$> keys))), w).
Proof.
  revert acc. induction keys as [|k keys IH]; intros acc Ht; cbn [mget_loop].
  { by rewrite app_nil_r. }
  erewrite bind_Ret by (apply getAsString_no_ttl, Ht; by left).
  assert (∀ b, mget_loop keys (acc ++ [b]) w = (Ret (MultiBulkReply (acc ++ b ::
    ((λ k, match v_store w !! k with Some (DString b) => b | _ => None end) <$> keys))), w)) as E.
  { intros b. rewrite IH by (intros; apply Ht; by right). by rewrite <-app_assoc. }
  cbn [fmap list_fmap]. by destruct (v_store w !! k) as [[]|]; rewrite E.
Qed.

Lemma put_all_other kvs m k : k ∉ kvs.*1 → put_all kvs m !! k = m !! k.
Proof.
  revert m. induction kvs as [|[k' v] kvs IH]; intros m Hk; [done|]. cbn [put_all foldl]. apply not_elem_of_cons in Hk as [Hne Hk].
  rewrite (IH _ Hk : foldl _ _ kvs !! k = _). by rewrite lookup_insert_ne.
Qed.

Lemma put_all_in kvs m : NoDup kvs.*1 →
  (λ k, match put_all kvs m !! k with Some (DString b) => b | _ => None end) <$> kvs.*1 = Some <$> kvs.*2.
Proof.
  revert m. induction kvs as [|[k v] kvs IH]; intros m Hn; [done|]. apply NoDup_cons in Hn as [Hk Hn].
  cbn [fmap list_fmap put_all foldl fst snd]. f_equal; [|by apply IH].
  rewrite (put_all_other kvs _ k Hk : foldl _ _ kvs !! k = _). by rewrite lookup_insert_eq.
Qed.

Lemma validate_some n arity (args : list bytes) :
  arity < 0 → - arity ≤ Z.of_nat (S (length args)) → validateArity arity (Some n :: args) = true.
Proof.
  intros Ha Hl. unfold validateArity. cbn [length]. destruct (arity >=? 0) eqn:E; unbool; [lia|]. by apply Z.geb_le.
Qed.

(** MSET of distinct keys without expiry times, then MGET of them: the values
    come back in order, and every other key keeps what it held. *)
Theorem mset_mget (kvs : list (string * string)) (db : DB) :
  ready db → kvs ≠ [] → NoDup kvs.*1 → (∀ k, k ∈ kvs.*1 → v_ttl (view db) !! k = None) →
  let r1 := exec "MSET" (pair_args kvs) db in
  let r2 := exec "MGET" (Some <$> kvs.*1) r1.2 in
  r1.1 = Ret OkReply ∧ r2.1 = Ret (MultiBulkReply (Some <$> kvs.*2)) ∧ ready r2.2 ∧
  ∀ k, k ∉ kvs.*1 → v_store (view r2.2) !! k = v_store (view db) !! k.
Proof.
  intros Hr Hne Hn Ht r1 r2.
  destruct (exec_handler "MSET" (pair_args kvs) db _ _ (storeTable_lookup "mset") eq_refl eq_refl) as (H1 & H2 & H3).
  { destruct kvs as [|kv kvs]; [done|]. apply validate_some; simpl; lia. }
  { eexists. reflexivity. }
  { done. }
  fold r1 in H1, H2, H3. rewrite mset_run in H1, H2. clearbody r1.
  destruct (exec_handler "MGET" (Some <$> kvs.*1) r1.2 _ _ (storeTable_lookup "mget") eq_refl eq_refl) as (G1 & G2 & G3).
  { destruct kvs as [|kv kvs]; [done|]. apply validate_some; simpl; lia. }
  { eexists. reflexivity. }
  { done. }
  fold r2 in G1, G2, G3. clearbody r2. rewrite H2 in G1, G2. unfold execMGet in G1, G2.
  rewrite <-list_fmap_compose in G1, G2. change (str ∘ Some) with (@id string) in G1, G2. rewrite list_fmap_id in G1, G2.
  rewrite mget_run in G1, G2 by done. cbn [fst snd v_store app] in G1, G2. rewrite put_all_in in G1 by done.
  split_and!; [done..|]. intros k Hk. rewrite G2. simpl. by apply put_all_other.
Qed.

Lemma any_exists_run keys w :
  (∀ k, k ∈ keys → v_ttl w !! k = None) →
  any_exists keys w = (Ret (existsb (λ k, present (v_store w !! k)) keys), w).
Proof.
  induction keys as [|k keys IH]; intros Ht; cbn [any_exists existsb]; [done|].
  erewrite bind_Ret by (apply GetEntity_no_ttl, Ht; by left).
  destruct (v_store w !! k); cbn [present orb]; [done|]. apply IH. intros. apply Ht. by right.
Qed.

(** MSETNX is all or nothing: when one of its keys exists it replies 0 and
    changes nothing, otherwise it replies 1 and has written all of them. *)
Theorem msetnx_all_or_nothing (kvs : list (string * string)) (db : DB) :
  ready db → kvs ≠ [] → (∀ k, k ∈ kvs.*1 → v_ttl (view db) !! k = None) →
  let r := exec "MSETNX" (pair_args kvs) db in
  if existsb (λ k, present (v_store (view db) !! k)) kvs.*1
  then r.1 = Ret (IntReply 0) ∧ view r.2 = view db
  else r.1 = Ret (IntReply 1) ∧ v_store (view r.2) = put_all kvs (v_store (view db)).
Proof.
  intros Hr Hne Ht r.
  destruct (exec_handler "MSETNX" (pair_args kvs) db _ _ (storeTable_lookup "msetnx") eq_refl eq_refl) as (H1 & H2 & H3).
  { destruct kvs as [|kv kvs]; [done|]. apply validate_some; simpl; lia. }
  { eexists. reflexivity. }
  { done. }
  fold r in H1, H2, H3. clearbody r. unfold execMSetNX in H1, H2. rewrite pair_args_even in H1, H2. cbn [negb] in H1, H2.
  assert ((arg_pairs (pair_args kvs)).*1 = kvs.*1) as Ek by (by rewrite arg_pairs_args, <-list_fmap_compose).
  erewrite bind_Ret in H1, H2 by (rewrite Ek; by apply any_exists_run).
  destruct (existsb _ _); [by split|].
  erewrite bind_Ret in H1, H2 by apply put_strings_run. split; [exact H1|]. by rewrite H2.
Qed.

(** ** Renaming *)

Lemma rename_run src dest e w :
  src ≠ dest → v_store w !! src = Some e →
  (∀ t, v_ttl w !! src = Some t → time_now (v_draws w) ≤ t) →
  execRename [Some src; Some dest] w =
  (Ret OkReply, mkView (delete src (<[dest := e]> (v_store w)))
     (match v_ttl w !! src with Some t => <[dest := t]> (delete src (v_ttl w)) | None => delete src (v_ttl w) end)
     (v_aof w ++ [ToCmdLine ["rename"; src; dest]])
     (match v_ttl w !! src with Some _ => S (v_draws w) | None => v_draws w end)).
Proof.
  intros Hne Hs Ht. unfold execRename, arg, mbind, gom_bind. cbn [length Nat.eqb negb lookup list_lookup mret gom_ret].
  change (str (Some src)) with src. change (str (Some dest)) with dest.
  cbn [GetEntity view_store]. unfold ViewOps.GetEntity. rewrite Hs.
  destruct (v_ttl w !! src) as [t|] eqn:E.
  - cbn [ViewOps.Now]. specialize (Ht t eq_refl).
    destruct (time_now (v_draws w) >? t) eqn:Eb; unbool; [lia|].
    cbn [GetTTL view_store]. unfold ViewOps.GetTTL, go_get. cbn [v_ttl]. rewrite E.
    transitivity (Ret OkReply, mkView (delete src (<[dest := e]> (v_store w)))
      (<[dest := t]> (delete dest (delete src (delete src (v_ttl w)))))
      (v_aof w ++ [ToCmdLine ["rename"; src; dest]]) (S (v_draws w))); [reflexivity|].
    by rewrite delete_delete_eq, insert_delete_eq.
  - cbn [GetTTL view_store]. unfold ViewOps.GetTTL, go_get. rewrite E. reflexivity.
Qed.

(** RENAME of a live key to another one moves its value: the new key holds
    what the old one held, the old one is gone, and a deadline of the old key is
    the new key's deadline.  A key without deadline leaves the deadline that the
    target had before in force.  No third key is touched. *)
Theorem rename_moves (src dest : string) (e : DataEntity) (db : DB) :
  ready db → src ≠ dest → v_store (view db) !! src = Some e →
  (∀ t, v_ttl (view db) !! src = Some t → time_now (draws db) ≤ t) →
  let r := exec "RENAME" [Some src; Some dest] db in
  r.1 = Ret OkReply ∧ ready r.2 ∧
  v_store (view r.2) !! dest = Some e ∧ v_store (view r.2) !! src = None ∧ v_ttl (view r.2) !! src = None ∧
  v_ttl (view r.2) !! dest =
    (match v_ttl (view db) !! src with Some t => Some t | None => v_ttl (view db) !! dest end) ∧
  ∀ k, k ≠ src → k ≠ dest →
    v_store (view r.2) !! k = v_store (view db) !! k ∧ v_ttl (view r.2) !! k = v_ttl (view db) !! k.
Proof.
  intros Hr Hne Hs Ht r. run_command "RENAME" [Some src; Some dest] db H1 H2 H3. fold r in H1, H2, H3. clearbody r.
  rewrite (rename_run src dest e) in H1, H2 by done. rewrite H2. cbn [v_store v_ttl snd].
  split_and!; [done|done|by rewrite lookup_delete_ne, lookup_insert_eq|by rewrite lookup_delete_eq|..].
  - destruct (v_ttl (view db) !! src); by rewrite ?lookup_insert_ne, ?lookup_delete_eq by done.
  - destruct (v_ttl (view db) !! src); by rewrite ?lookup_insert_eq, ?lookup_delete_ne by done.
  - intros k Hk1 Hk2. split; [by rewrite lookup_delete_ne, lookup_insert_ne by done|].
    destruct (v_ttl (view db) !! src); by rewrite ?lookup_insert_ne, ?lookup_delete_ne by done.
Qed.

(** ** EXPIRE, PTTL and PERSIST *)

Lemma expire_run k e n w :
  v_ttl w !! k = None → v_store w !! k = Some e → is_int64 n →
  let t := time_now (v_draws w) + int64 (n * 1000000000) in
  execExpire [Some k; Some (FormatInt n)] w =
  (Ret (IntReply 1), mkView (v_store w) (<[k := t]> (v_ttl w)) (v_aof w ++ [MakeExpireCmd k t]) (S (v_draws w))).
Proof.
  intros Ht Hs Hn t. unfold execExpire, arg, mbind, gom_bind. cbn [lookup list_lookup mret gom_ret].
  change (str (Some k)) with k. change (str (Some (FormatInt n))) with (FormatInt n).
  rewrite ParseInt_FormatInt by done. unfold expire_at, mbind, gom_bind.
  rewrite (GetEntity_no_ttl _ _ Ht), Hs. reflexivity.
Qed.

(** Looking up a key that has a deadline draws the clock once. *)
Lemma GetEntity_ttl k e t w :
  v_store w !! k = Some e → v_ttl w !! k = Some t →
  GetEntity k w =
  if time_now (v_draws w) >? t
  then (Ret None, mkView (delete k (v_store w)) (delete k (v_ttl w)) (v_aof w) (S (v_draws w)))
  else (Ret (Some e), mkView (v_store w) (v_ttl w) (v_aof w) (S (v_draws w))).
Proof. intros Hs Ht. cbn [GetEntity view_store]. unfold ViewOps.GetEntity. by rewrite Hs, Ht. Qed.

(** EXPIRE on a live key without deadline replies 1 and sets the deadline, in
    the clock of the server, without touching the value.  PTTL then reports the
    milliseconds left (truncated), or [-2] once the deadline has passed; PERSIST
    removes the deadline and keeps the value, or replies 0 when it comes too late. *)
Theorem expire_pttl_persist (k : string) (e : DataEntity) (n : Z) (db : DB) :
  ready db → v_ttl (view db) !! k = None → v_store (view db) !! k = Some e → is_int64 n →
  let deadline := time_now (draws db) + int64 (n * 1000000000) in
  let r1 := exec "EXPIRE" [Some k; Some (FormatInt n)] db in
  let r2 := exec "PTTL" [Some k] r1.2 in
  let r3 := exec "PERSIST" [Some k] r1.2 in
  r1.1 = Ret (IntReply 1) ∧ v_ttl (view r1.2) !! k = Some deadline ∧ v_store (view r1.2) = v_store (view db) ∧
  if time_now (S (draws db)) >? deadline
  then r2.1 = Ret (IntReply (-2)) ∧ r3.1 = Ret (IntReply 0) ∧ v_store (view r3.2) !! k = None
  else r2.1 = Ret (IntReply (Z.quot (time_sub deadline (time_now (S (S (draws db))))) 1000000)) ∧
       r3.1 = Ret (IntReply 1) ∧ v_ttl (view r3.2) !! k = None ∧ v_store (view r3.2) = v_store (view db).
Proof.
  intros Hr Ht Hs Hn deadline r1 r2 r3. run_command "EXPIRE" [Some k; Some (FormatInt n)] db H1 H2 H3.
  rewrite (expire_run k e n _ Ht Hs Hn) in H1, H2. change (v_draws (view db)) with (draws db) in H1, H2.
  fold deadline in H1, H2. fold r1 in H1, H2, H3. run_command "PTTL" [Some k] r1.2 G1 G2 G3.
  run_command "PERSIST" [Some k] r1.2 P1 P2 P3. fold r2 in G1, G2, G3. fold r3 in P1, P2, P3. seal.
  split_and!; [done|by rewrite H2; simpl; rewrite lookup_insert_eq|by rewrite H2|].
  rewrite H2 in G1, P1, P2. clear G2 G3 P3. cbn [snd] in *.
  unfold execPTTL, report_ttl, arg, mbind, gom_bind in G1. cbn [lookup list_lookup mret gom_ret] in G1.
  change (str (Some k)) with k in G1. erewrite GetEntity_ttl in G1 by (simpl; rewrite ?lookup_insert_eq; done).
  unfold execPersist, arg, mbind, gom_bind in P1, P2. cbn [lookup list_lookup mret gom_ret] in P1, P2.
  change (str (Some k)) with k in P1, P2. erewrite GetEntity_ttl in P1, P2 by (simpl; rewrite ?lookup_insert_eq; done).
  cbn [v_draws v_store v_ttl v_aof] in *. destruct (_ >? deadline).
  - split_and!; [exact G1|exact P1|]. rewrite P2. simpl. apply lookup_delete_eq.
  - cbn [GetTTL view_store] in *. unfold ViewOps.GetTTL, go_get in *. cbn [v_ttl] in *.
    rewrite lookup_insert_eq in G1, P1, P2.
    split_and!; [exact G1|exact P1|rewrite P2; simpl; apply lookup_delete_eq|by rewrite P2].
Qed.

(** ** DEL *)

Definition delete_all (keys : list string) (m : gmap string DataEntity) : gmap string DataEntity :=
  foldl (λ m k, delete k m) m keys.

Lemma delete_all_lookup keys m k : delete_all keys m !! k = if bool_decide (k ∈ keys) then None else m !! k.
Proof.
  revert m. induction keys as [|k' keys IH]; intros m; [done|]. cbn [delete_all foldl].
  rewrite (IH (delete k' m) : foldl _ _ keys !! k = _). destruct (decide (k ∈ keys)) as [Hk|Hk].
  - rewrite !bool_decide_eq_true_2; [done|by right|done].
  - rewrite (bool_decide_eq_false_2 (k ∈ keys)) by done. destruct (decide (k = k')) as [->|Hne].
    + rewrite bool_decide_eq_true_2 by (by left). apply lookup_delete_eq.
    + rewrite bool_decide_eq_false_2 by set_solver. by rewrite lookup_delete_ne.
Qed.

Lemma Removes_run keys n w :
  ∃ w', ViewOps.Removes_loop keys n w =
    (Ret (n + (Z.of_nat (size (v_store w)) - Z.of_nat (size (v_store w')))), w') ∧
    v_store w' = delete_all keys (v_store w) ∧ v_aof w' = v_aof w.
Proof.
  revert n w. induction keys as [|k keys IH]; intros n w; cbn [ViewOps.Removes_loop delete_all foldl].
  { exists w. split_and!; [|done..]. unfold mret, gom_ret. do 2 f_equal. lia. }
  erewrite bind_Ret by reflexivity. destruct (v_store w !! k) as [e|] eqn:E.
  - erewrite bind_Ret by reflexivity. set (w1 := mkView _ _ _ _).
    destruct (IH (n + 1) w1) as (w' & -> & Hs & Ha). exists w'. split_and!; [|by rewrite Hs|done].
    do 2 f_equal. unfold w1. simpl. rewrite (map_size_delete_Some k (v_store w)) by (by rewrite E).
    assert (size (v_store w) ≠ 0%nat) by (intros E0; apply map_size_empty_inv in E0; by rewrite E0, lookup_empty in E).
    lia.
  - destruct (IH n w) as (w' & -> & Hs & Ha). exists w'. split_and!; [done| |done]. by rewrite Hs, delete_id.
Qed.

(** DEL removes exactly the keys it is given, leaves all others as they were,
    and replies with the number of keys that are gone; it is logged exactly when
    that number is positive. *)
Theorem del_removes (keys : list string) (db : DB) :
  ready db → keys ≠ [] →
  let r := exec "DEL" (Some <$> keys) db in
  let gone := Z.of_nat (size (v_store (view db))) - Z.of_nat (size (v_store (view r.2))) in
  r.1 = Ret (IntReply gone) ∧ ready r.2 ∧
  (∀ k, v_store (view r.2) !! k = if bool_decide (k ∈ keys) then None else v_store (view db) !! k) ∧
  v_aof (view r.2) = v_aof (view db) ++ (if gone >? 0 then [ToCmdLine ("del" :: keys)] else []).
Proof.
  intros Hr Hne r.
  destruct (exec_handler "DEL" (Some <$> keys) db _ _ (storeTable_lookup "del") eq_refl eq_refl) as (H1 & H2 & H3).
  { destruct keys as [|k keys]; [done|]. apply validate_some; simpl; lia. }
  { eexists. reflexivity. }
  { done. }
  fold r in H1, H2, H3. clearbody r. cbv zeta. unfold execDel, mbind, gom_bind in H1, H2.
  rewrite <-list_fmap_compose in H1, H2. change (str ∘ Some) with (@id string) in H1, H2. rewrite list_fmap_id in H1, H2.
  cbn [Removes view_store] in H1, H2. unfold ViewOps.Removes in H1, H2.
  destruct (Removes_run keys 0 (view db)) as (w' & E & Hs & Ha). rewrite E in H1, H2. cbn [fst snd] in H1, H2.
  rewrite Z.add_0_l in H1, H2.
  assert (v_store (view r.2) = v_store w') as Es by (rewrite H2; by destruct (_ >? 0)). rewrite Es.
  split_and!; [|done|intros k; rewrite Hs; apply delete_all_lookup|].
  - rewrite H1. by destruct (_ >? 0).
  - rewrite H2. destruct (_ >? 0); simpl; by rewrite Ha, ?app_nil_r.
Qed.
End strings.

(** ** Examples *)

#[local] Existing Instance demo_env.

Lemma ready_empty : ready (make_db 1 1).
Proof. destruct (make_db_ok 1 1) as (? & ? & _); [lia..|]. by split. Qed.

(** A database that holds the string "v" under "k". *)
Definition demo_db : DB := (exec "SET" [Some "k"; Some "v"] (make_db 1 1)).2.

Lemma ready_demo : ready demo_db.
Proof. apply exec_ready; [reflexivity|apply ready_empty]. Qed.

Lemma set_get_witness :
  (exec "GET" [Some "k"] (exec "SET" [Some "k"; Some "w"] demo_db).2).1 = Ret (BulkReply (Some "w")).
Proof. destruct (set_get "k" "w" demo_db ready_demo) as (_ & E & _). exact E. Defined.

Lemma set_px_get_witness :
  (exec "GET" [Some "k"] (exec "SET" [Some "k"; Some "w"; Some "PX"; Some (FormatInt 10)] (make_db 1 1)).2).1
  = Ret NullBulkReply.
Proof.
  destruct (set_px_get "k" "w" 10 (make_db 1 1) ready_empty) as (_ & _ & _ & E & _); [lia|by compute|]. exact E.
Defined.

Lemma set_nx_xx_witness :
  (exec "SET" [Some "k"; Some "w"; Some "NX"] demo_db).1 = Ret NullBulkReply.
Proof. exact (proj1 (set_nx_xx "k" "w" false demo_db ready_demo)). Defined.

Lemma incrby_sums_witness :
  v_store (view (incr_all "n" [9223372036854775807; 1; 5] (make_db 1 1))) =
  <["n" := DString (Some (FormatInt (-9223372036854775803)))]> (v_store (view (make_db 1 1))).
Proof.
  destruct (incrby_sums "n" 9223372036854775807 [1; 5] (make_db 1 1) ready_empty) as [_ E];
    [by vm_compute..|by repeat constructor|]. exact E.
Defined.

Lemma mset_mget_witness :
  (exec "MGET" [Some "a"; Some "b"] (exec "MSET" [Some "a"; Some "1"; Some "b"; Some "2"] (make_db 1 1)).2).1 =
  Ret (MultiBulkReply [Some "1"; Some "2"]).
Proof.
  destruct (mset_mget [("a", "1"); ("b", "2")] (make_db 1 1) ready_empty) as (_ & E & _);
    [done|vm_compute; repeat constructor; set_solver|by vm_compute|]. exact E.
Defined.

Lemma msetnx_all_or_nothing_witness :
  (exec "MSETNX" [Some "a"; Some "1"; Some "k"; Some "2"] demo_db).1 = Ret (IntReply 0).
Proof.
  refine (proj1 (msetnx_all_or_nothing [("a", "1"); ("k", "2")] demo_db ready_demo _ _)); [done|].
  intros k Hk. by assert (v_ttl (view demo_db) = ∅) as -> by (by vm_compute).
Defined.

Lemma rename_moves_witness :
  (exec "RENAME" [Some "k"; Some "l"] demo_db).1 = Ret OkReply.
Proof.
  destruct (rename_moves "k" "l" (DString (Some "v")) demo_db ready_demo) as (E & _);
    [done|by vm_compute|by vm_compute|]. exact E.
Defined.

Lemma expire_pttl_persist_witness :
  (exec "PTTL" [Some "k"] (exec "EXPIRE" [Some "k"; Some (FormatInt 10)] demo_db).2).1 = Ret (IntReply 8000).
Proof.
  refine (proj1 (proj2 (proj2 (proj2 (expire_pttl_persist "k" (DString (Some "v")) 10 demo_db ready_demo _ _ _)))));
    [by vm_compute|by vm_compute|by compute].
Defined.

Lemma del_removes_witness :
  ready (exec "DEL" [Some "k"; Some "x"] demo_db).2 ∧
  v_store (view (exec "DEL" [Some "k"; Some "x"] demo_db).2) !! "k" = None.
Proof.
  destruct (del_removes ["k"; "x"] demo_db ready_demo) as (_ & H1 & H2 & _); [done|].
  split; [exact H1|]. exact (H2 "k").
Defined.
