(* ===== verification/CollLaws.v ===== *)
(** * What the commands on lists, hashes and sets mean

    As in the file on strings and keys, every theorem runs client commands on the
    real database.  A list key is described by the plain list it stands for, a hash
    by its map of fields, a set by its members; an absent key is the empty one. *)

From Stdlib Require Import ZArith Lia Ascii String.
From stdpp Require Import base gmap strings numbers list.
From S2P Require Import Prelude GoStd Dict QuickList SetDS Protocol DB Marshal StringCmds KeyCmds ListCmds HashCmds SetCmds Router Exec Laws.

Local Open Scope string_scope.
Local Open Scope list_scope.
Local Open Scope Z_scope.
Local Open Scope go_scope.

#[local] Opaque cmdTable storeTable.

Section lists.
Context `{Env}.
Implicit Types (xs : list bytes).

(** The key [k] stands for the list [xs]. *)
Definition list_at (w : View) (k : string) xs : Prop :=
  match v_store w !! k with
  | None => xs = []
  | Some (DList l) => QList.ql_wf l ∧ QList.to_list l = xs
  | Some _ => False
  end.

Lemma getAsList_no_ttl k w : v_ttl w !! k = None →
  getAsList k w = (Ret (match v_store w !! k with
                        | None => inr None
                        | Some (DList l) => inr (Some l)
                        | Some _ => inl WrongTypeErrReply
                        end), w).
Proof.
  intros Ht. unfold getAsList, mbind, gom_bind. rewrite (GetEntity_no_ttl _ _ Ht).
  by destruct (v_store w !! k) as [[]|].
Qed.

Lemma getAsList_list k l w : v_ttl w !! k = None → v_store w !! k = Some (DList l) →
  getAsList k w = (Ret (inr (Some l)), w).
Proof. intros Ht Hs. by rewrite getAsList_no_ttl, Hs. Qed.

Lemma getOrInitList_run k xs w : v_ttl w !! k = None → list_at w k xs →
  ∃ l w', getOrInitList k w = (Ret (inr l), w') ∧ QList.ql_wf l ∧ QList.to_list l = xs ∧
    v_store w' = <[k := DList l]> (v_store w) ∧ v_ttl w' = v_ttl w ∧ v_aof w' = v_aof w ∧ v_draws w' = v_draws w.
Proof.
  intros Ht Hl. unfold getOrInitList, early_err, mbind, gom_bind. rewrite (getAsList_no_ttl _ _ Ht).
  unfold list_at in Hl. destruct (v_store w !! k) as [[]|] eqn:E; try done.
  - destruct Hl as [Hw Hx]. eexists _, w. split_and!; try done. by rewrite insert_id.
  - subst. eexists _, (mkView (<[k := DList QList.NewQuickList]> (v_store w)) (v_ttl w) (v_aof w) (v_draws w)).
    by split_and!.
Qed.

(** A push replaces the list under the key and logs the command. *)
Lemma push_tail (l l' : QList.QuickList bytes) k nm args w w' :
  v_store w' = <[k := DList l]> (v_store w) → v_ttl w' = v_ttl w → v_aof w' = v_aof w → v_draws w' = v_draws w →
  (_ ← mutate k (DList l'); _ ← addAof (ToCmdLine3 nm args); mret (IntReply (QList.Len l'))) w' =
  (Ret (IntReply (QList.Len l')), stored k (DList l') (ToCmdLine3 nm args) w).
Proof.
  intros Hs Ht Ha Hd. unfold mbind, gom_bind. cbn. unfold go_modify. cbn. rewrite Hs, lookup_insert_eq. cbn.
  unfold stored, mret, gom_ret. by rewrite insert_insert_eq, Ht, Ha, Hd.
Qed.

Lemma rpush_run k vs xs w : v_ttl w !! k = None → list_at w k xs →
  ∃ l, QList.ql_wf l ∧ QList.to_list l = xs ++ vs ∧
    execRPush (Some k :: vs) w =
    (Ret (IntReply (Z.of_nat (length (xs ++ vs)))), stored k (DList l) (ToCmdLine3 "rpush" (Some k :: vs)) w).
Proof.
  intros Ht Hl. destruct (getOrInitList_run k xs w Ht Hl) as (l & w' & E & Hw & Hx & Hs & Hr).
  destruct (rpush_loop_spec vs l Hw) as [Hw2 Hx2]. exists (rpush_loop l vs). rewrite Hx in Hx2.
  split_and!; [done..|]. unfold execRPush. erewrite bind_Ret by reflexivity. cbv zeta. erewrite early_inr by exact E.
  change (drop 1 (Some k :: vs)) with vs. cbv zeta.
  change (str (Some k)) with k. erewrite push_tail; [|naive_solver..]. unfold QList.Len. by rewrite (proj2 Hw2), Hx2.
Qed.

Lemma lpush_run k vs xs w : v_ttl w !! k = None → list_at w k xs →
  ∃ l, QList.ql_wf l ∧ QList.to_list l = rev vs ++ xs ∧
    execLPush (Some k :: vs) w =
    (Ret (IntReply (Z.of_nat (length (rev vs ++ xs)))), stored k (DList l) (ToCmdLine3 "lpush" (Some k :: vs)) w).
Proof.
  intros Ht Hl. destruct (getOrInitList_run k xs w Ht Hl) as (l & w' & E & Hw & Hx & Hs & Hr).
  destruct (lpush_loop_spec vs l Hw) as (l' & El & Hw2 & Hx2). exists l'. rewrite Hx in Hx2.
  split_and!; [done..|]. unfold execLPush. erewrite bind_Ret by reflexivity. cbv zeta. erewrite early_inr by exact E.
  change (drop 1 (Some k :: vs)) with vs. rewrite El. erewrite bind_Ret by reflexivity.
  change (str (Some k)) with k. erewrite push_tail; [|naive_solver..].
  unfold QList.Len. by rewrite (proj2 Hw2), Hx2.
Qed.

(** RPUSH appends its values to the list at the key in the order given, LPUSH
    puts them in front one after the other (so the last one comes first); the reply
    is the new length, an absent key is the empty list, and only that key changes. *)
Theorem push_appends (k : string) (vs xs : list bytes) (left : bool) (db : DB) :
  ready db → vs ≠ [] → v_ttl (view db) !! k = None → list_at (view db) k xs →
  let r := exec (if left then "LPUSH" else "RPUSH") (Some k :: vs) db in
  let ys := if left then rev vs ++ xs else xs ++ vs in
  r.1 = Ret (IntReply (Z.of_nat (length ys))) ∧ ready r.2 ∧ list_at (view r.2) k ys ∧
  v_ttl (view r.2) = v_ttl (view db) ∧
  ∀ k', k' ≠ k → v_store (view r.2) !! k' = v_store (view db) !! k'.
Proof.
  intros Hr Hvs Ht Hl r ys.
  assert (∃ l nm, QList.ql_wf l ∧ QList.to_list l = ys ∧ r.1 = Ret (IntReply (Z.of_nat (length ys))) ∧ ready r.2 ∧
    view r.2 = stored k (DList l) (ToCmdLine3 nm (Some k :: vs)) (view db)) as (l & nm & Hw & Hx & H1 & H2 & H3).
  { destruct left.
    - destruct (lpush_run k vs xs _ Ht Hl) as (l & Hw & Hx & E). exists l, "lpush".
      destruct (exec_handler "LPUSH" (Some k :: vs) db _ _ (storeTable_lookup "lpush") eq_refl eq_refl) as (H1 & H2 & H3);
        [destruct vs; [done|]; apply validate_some; simpl; lia|by eexists|done|].
      rewrite E in H1, H2. fold r in H1, H2, H3. by split_and!.
    - destruct (rpush_run k vs xs _ Ht Hl) as (l & Hw & Hx & E). exists l, "rpush".
      destruct (exec_handler "RPUSH" (Some k :: vs) db _ _ (storeTable_lookup "rpush") eq_refl eq_refl) as (H1 & H2 & H3);
        [destruct vs; [done|]; apply validate_some; simpl; lia|by eexists|done|].
      rewrite E in H1, H2. fold r in H1, H2, H3. by split_and!. }
  clearbody r. split_and!; [done|done| |by rewrite H3|].
  - unfold list_at. rewrite H3. simpl. by rewrite lookup_insert_eq.
  - intros k' Hk. rewrite H3. simpl. by rewrite lookup_insert_ne.
Qed.

(** ** Pops *)

Lemma store_popped_run nm args k (l : QList.QuickList bytes) reply l0 w :
  v_store w !! k = Some (DList l0) → QList.ql_wf l →
  ∃ w', store_popped nm args k l reply w = (Ret reply, w') ∧
    (v_store w' = match QList.to_list l with
                  | [] => delete k (v_store w)
                  | _ => <[k := DList l]> (v_store w)
                  end) ∧ (∀ k', k' ≠ k → v_ttl w' !! k' = v_ttl w !! k').
Proof.
  intros Hs Hw. unfold store_popped, mbind, gom_bind. cbn. unfold go_modify. cbn. rewrite Hs. cbn.
  unfold QList.Len. rewrite (proj2 Hw). destruct (QList.to_list l) as [|x xs] eqn:E.
  - eexists. split; [reflexivity|]. cbn. split; [apply delete_insert_eq|]. intros. by rewrite lookup_delete_ne.
  - destruct (Z.of_nat (length (x :: xs)) =? 0) eqn:E0; [apply Z.eqb_eq in E0; simpl in E0; lia|].
    eexists. split; [reflexivity|]. by split.
Qed.

Lemma list_at_popped w w' k (l : QList.QuickList bytes) :
  QList.ql_wf l →
  v_store w' = (match QList.to_list l with [] => delete k (v_store w) | _ => <[k := DList l]> (v_store w) end) →
  list_at w' k (QList.to_list l) ∧ (QList.to_list l = [] → v_store w' !! k = None) ∧
  ∀ k', k' ≠ k → v_store w' !! k' = v_store w !! k'.
Proof.
  intros Hw Hs. unfold list_at. rewrite Hs. destruct (QList.to_list l) as [|x xs] eqn:E.
  - rewrite lookup_delete_eq. split_and!; [done..|]. intros. by rewrite lookup_delete_ne.
  - rewrite lookup_insert_eq. split_and!; [done..|]. intros. by rewrite lookup_insert_ne.
Qed.

Lemma list_at_cons w k xs : list_at w k xs → xs ≠ [] →
  ∃ l, v_store w !! k = Some (DList l) ∧ QList.ql_wf l ∧ QList.to_list l = xs.
Proof. unfold list_at. destruct (v_store w !! k) as [[]|]; try done. intros [? ?] _. eauto. Qed.

Lemma lpop_run k x xs w : v_ttl w !! k = None → list_at w k (x :: xs) →
  ∃ w', execLPop [Some k] w = (Ret (BulkReply x), w') ∧ list_at w' k xs ∧ (xs = [] → v_store w' !! k = None) ∧
    ∀ k', k' ≠ k → v_store w' !! k' = v_store w !! k'.
Proof.
  intros Ht Hl. destruct (list_at_cons w k _ Hl) as (l & Hs & Hw & Hx); [done|].
  pose proof (Remove_head l Hw) as Hh. rewrite Hx in Hh. destruct Hh as (l' & El & Hw' & Hx').
  destruct (store_popped_run "lpop" [Some k] k l' (BulkReply x) l w Hs Hw') as (w' & E & Hst & _).
  exists w'. subst xs. split; [|by apply list_at_popped].
  unfold execLPop. erewrite bind_Ret by reflexivity. cbv zeta.
  erewrite early_inr by exact (getAsList_list k l w Ht Hs). cbv beta iota.
  erewrite early_inr by reflexivity. cbv beta iota. rewrite El. erewrite bind_Ret by reflexivity. exact E.
Qed.

Lemma rpop_run k x xs w : v_ttl w !! k = None → list_at w k (xs ++ [x]) →
  ∃ w', execRPop [Some k] w = (Ret (BulkReply x), w') ∧ list_at w' k xs ∧ (xs = [] → v_store w' !! k = None) ∧
    ∀ k', k' ≠ k → v_store w' !! k' = v_store w !! k'.
Proof.
  intros Ht Hl. destruct (list_at_cons w k _ Hl) as (l & Hs & Hw & Hx); [by destruct xs|].
  destruct (QList.RemoveLast_spec l Hw) as (l' & El & Hw' & Hx').
  assert (QList.to_list l' = xs) as Ex by (rewrite Hx', Hx, length_app; simpl; rewrite Nat.add_sub; apply take_app_length).
  assert (last (QList.to_list l) = Some x) as Ela by (rewrite Hx; apply last_snoc). rewrite Ela in El.
  destruct (store_popped_run "rpop" [Some k] k l' (BulkReply x) l w Hs Hw') as (w' & E & Hst & _).
  exists w'. rewrite <-Ex. split; [|by apply list_at_popped].
  unfold execRPop. erewrite bind_Ret by reflexivity. cbv zeta.
  erewrite early_inr by exact (getAsList_list k l w Ht Hs). cbv beta iota.
  erewrite early_inr by reflexivity. cbv beta iota. rewrite El. erewrite bind_Ret by reflexivity. exact E.
Qed.

(** LPOP takes the first element of the list at the key and RPOP the last one:
    the reply is that element, the rest stays in order, a list that becomes empty
    is removed with its key, and no other key changes. *)
Theorem pop_takes_end (k : string) (x : bytes) (xs : list bytes) (left : bool) (db : DB) :
  ready db → v_ttl (view db) !! k = None → list_at (view db) k (if left then x :: xs else xs ++ [x]) →
  let r := exec (if left then "LPOP" else "RPOP") [Some k] db in
  r.1 = Ret (BulkReply x) ∧ ready r.2 ∧ list_at (view r.2) k xs ∧
  (xs = [] → v_store (view r.2) !! k = None) ∧
  ∀ k', k' ≠ k → v_store (view r.2) !! k' = v_store (view db) !! k'.
Proof.
  intros Hr Ht Hl r. destruct left.
  - destruct (lpop_run k x xs _ Ht Hl) as (w' & E & Hw1 & Hw2 & Hw3). run_command "LPOP" [Some k] db H1 H2 H3.
    fold r in H1, H2, H3. clearbody r. rewrite E in H1, H2. cbn [fst snd] in H1, H2. subst w'. by split_and!.
  - destruct (rpop_run k x xs _ Ht Hl) as (w' & E & Hw1 & Hw2 & Hw3). run_command "RPOP" [Some k] db H1 H2 H3.
    fold r in H1, H2, H3. clearbody r. rewrite E in H1, H2. cbn [fst snd] in H1, H2. subst w'. by split_and!.
Qed.

(** ** LRANGE *)

(** The elements from index [start] to index [stop], both included, where negative
    indices count from the end. *)
Definition slice (xs : list bytes) (start stop : Z) : list bytes :=
  let n := Z.of_nat (length xs) in
  let s := Z.max 0 (if start <? 0 then n + start else start) in
  let e := if stop <? 0 then n + stop else stop in
  take (Z.to_nat (e + 1 - s)) (drop (Z.to_nat s) xs).

(** The elements of an array reply. *)
Definition elements_of (r : Reply) : list bytes :=
  match r with MultiBulkReply l => l | _ => [] end.

Lemma lrange_bounds_spec start stop xs : xs ≠ [] →
  match lrange_bounds start stop (Z.of_nat (length xs)) with
  | None => slice xs start stop = []
  | Some (b, e) => 0 ≤ b < Z.of_nat (length xs) ∧ b ≤ e ≤ Z.of_nat (length xs) ∧
      take (Z.to_nat (e - b)) (drop (Z.to_nat b) xs) = slice xs start stop
  end.
Proof.
  intros Hne. assert (0 < Z.of_nat (length xs)) by (destruct xs; [done|simpl; lia]).
  unfold lrange_bounds, slice. set (n := Z.of_nat (length xs)) in *.
  destruct ((0 <=? start) && (start >=? n)) eqn:E0.
  { unbool. rewrite drop_ge by (destruct (start <? 0); lia). by rewrite take_nil. }
  apply andb_false_iff in E0.
  assert (∀ b e s f, b = s → (e = f ∨ (b ≤ e ∧ n ≤ e ∧ n ≤ f) ∨ (e ≤ b ∧ f ≤ b)) → 0 ≤ b →
    take (Z.to_nat (e - b)) (drop (Z.to_nat b) xs) = take (Z.to_nat (f - s)) (drop (Z.to_nat s) xs)) as Hsl.
  { intros b e s f -> Hc Hb. destruct Hc as [->|[(? & ? & ?)|(? & ?)]]; [done|..].
    - rewrite !take_ge; [done|rewrite length_drop; lia..].
    - replace (Z.to_nat (e - s)) with 0%nat by lia. by replace (Z.to_nat (f - s)) with 0%nat by lia. }
  destruct (start <? - n) eqn:E1, (start <? 0) eqn:E2, (stop <? - n) eqn:E3, (stop <? 0) eqn:E4, (stop <? n) eqn:E5;
    unbool; try lia; (match goal with |- context [if ?b then _ else _] => destruct b eqn:E6 end; unbool;
    split_and!; try lia; apply Hsl; lia).
Qed.

Lemma lrange_run k start stop xs w :
  v_ttl w !! k = None → list_at w k xs → xs ≠ [] → is_int64 start → is_int64 stop →
  ∃ r, execLRange [Some k; Some (FormatInt start); Some (FormatInt stop)] w = (Ret r, w) ∧
    elements_of r = slice xs start stop.
Proof.
  intros Ht Hl Hne Hst Hsp. destruct (list_at_cons w k _ Hl Hne) as (l & Hs & Hw & Hx).
  unfold execLRange. erewrite bind_Ret by reflexivity. erewrite bind_Ret by reflexivity.
  change (str (Some (FormatInt start))) with (FormatInt start). rewrite ParseInt_FormatInt by done.
  erewrite bind_Ret by reflexivity.
  change (str (Some (FormatInt stop))) with (FormatInt stop). rewrite ParseInt_FormatInt by done.
  erewrite early_inr by exact (getAsList_list k l w Ht Hs). cbv beta iota.
  unfold QList.Len. rewrite (proj2 Hw), Hx. pose proof (lrange_bounds_spec start stop xs Hne) as Hb.
  destruct (lrange_bounds start stop _) as [[b e]|]; [|by eexists].
  destruct Hb as (Hb1 & Hb2 & Hb3). rewrite QList.Range_spec, Hx by done.
  destruct (_ || _) eqn:E1; [apply orb_true_iff in E1 as [E1|E1]; unbool; lia|].
  destruct ((e <? b) || _) eqn:E2; [apply orb_true_iff in E2 as [E2|E2]; unbool; lia|].
  eexists. split; [reflexivity|exact Hb3].
Qed.

(** LRANGE on a list key replies with the elements between its two indices,
    both included, negative indices counted from the end, indices outside the list
    clipped; the database does not change. *)
Theorem lrange_slice (k : string) (start stop : Z) (xs : list bytes) (db : DB) :
  ready db → v_ttl (view db) !! k = None → list_at (view db) k xs → xs ≠ [] →
  is_int64 start → is_int64 stop →
  let r := exec "LRANGE" [Some k; Some (FormatInt start); Some (FormatInt stop)] db in
  (∃ reply, r.1 = Ret reply ∧ elements_of reply = slice xs start stop) ∧ view r.2 = view db.
Proof.
  intros Hr Ht Hl Hne Hst Hsp r. destruct (lrange_run k start stop xs _ Ht Hl Hne Hst Hsp) as (reply & E & He).
  run_command "LRANGE" [Some k; Some (FormatInt start); Some (FormatInt stop)] db H1 H2 H3.
  fold r in H1, H2, H3. clearbody r. rewrite E in H1, H2. split; [by exists reply|exact H2].
Qed.
End lists.

(** ** Hashes *)

Section hashes.
Context `{Env}.

(** The fields of the hash at [k]. *)
Definition hash_at (w : View) (k : string) (m : gmap string bytes) : Prop :=
  match v_store w !! k with
  | None => m = ∅
  | Some (DHash d) => dict_m d = m
  | Some _ => False
  end.

Lemma getAsDict_no_ttl k w : v_ttl w !! k = None →
  getAsDict k w = (Ret (match v_store w !! k with
                        | None => inr None
                        | Some (DHash d) => inr (Some d)
                        | Some _ => inl WrongTypeErrReply
                        end), w).
Proof.
  intros Ht. unfold getAsDict, mbind, gom_bind. rewrite (GetEntity_no_ttl _ _ Ht).
  by destruct (v_store w !! k) as [[]|].
Qed.

Lemma hset_run k f v m w : v_ttl w !! k = None → hash_at w k m →
  execHSet [Some k; Some f; Some v] w =
  (Ret (IntReply (flag (negb (present (m !! f))))),
   stored k (DHash (mkSimple (<[f := Some v]> m))) (ToCmdLine ["hset"; k; f; v]) w).
Proof.
  intros Ht Hm. unfold hash_at in Hm.
  assert (∃ w', getOrInitDict k w = (Ret (inr (mkSimple m)), w') ∧
    v_store w' = <[k := DHash (mkSimple m)]> (v_store w) ∧ v_ttl w' = v_ttl w ∧ v_aof w' = v_aof w ∧
    v_draws w' = v_draws w) as (w' & E & Hs & Ht' & Ha & Hd).
  { unfold getOrInitDict, early_err, mbind, gom_bind. rewrite (getAsDict_no_ttl _ _ Ht).
    destruct (v_store w !! k) as [[| |[d]| |]|] eqn:Es; try done; simpl in Hm; subst.
    - exists w. split_and!; try done. by rewrite insert_id.
    - eexists (mkView _ _ _ _). by split_and!. }
  unfold execHSet. do 3 (erewrite bind_Ret by reflexivity). cbv zeta. erewrite early_inr by exact E.
  unfold Simple.Put. cbn [dict_m]. change (str (Some f)) with f. change (str (Some k)) with k.
  assert (∀ n, (_ ← mutate k (DHash (mkSimple (<[f := Some v]> m)));
    _ ← addAof (ToCmdLine3 "hset" [Some k; Some f; Some v]); mret (IntReply n)) w' =
    (Ret (IntReply n), stored k (DHash (mkSimple (<[f := Some v]> m))) (ToCmdLine ["hset"; k; f; v]) w)) as Htail.
  { intros n. unfold mbind, gom_bind. cbn. unfold go_modify. cbn. rewrite Hs, lookup_insert_eq. cbn.
    unfold stored, mret, gom_ret. by rewrite insert_insert_eq, Ht', Ha, Hd. }
  destruct (m !! f); apply Htail.
Qed.

Lemma hget_run k f m w : v_ttl w !! k = None → hash_at w k m →
  execHGet [Some k; Some f] w = (Ret (match m !! f with Some v => BulkReply v | None => NullBulkReply end), w).
Proof.
  intros Ht Hm. unfold execHGet. do 2 (erewrite bind_Ret by reflexivity).
  unfold early. change (str (Some k)) with k. change (str (Some f)) with f.
  erewrite bind_Ret by (by apply getAsDict_no_ttl). unfold hash_at in Hm.
  destruct (v_store w !! k) as [[| |[d]| |]|]; try done; simpl in Hm; subst; [|by rewrite lookup_empty].
  unfold Simple.Get. cbn. by destruct (m !! f).
Qed.

(** HSET binds one field: the reply is 1 for a new field and 0 for one that
    was overwritten, HGET of any field afterwards reads the new binding or the old
    one, and no other key changes. *)
Theorem hset_hget (k f v g : string) (m : gmap string bytes) (db : DB) :
  ready db → v_ttl (view db) !! k = None → hash_at (view db) k m →
  let r1 := exec "HSET" [Some k; Some f; Some v] db in
  let r2 := exec "HGET" [Some k; Some g] r1.2 in
  r1.1 = Ret (IntReply (flag (negb (present (m !! f))))) ∧
  r2.1 = Ret (if String.eqb f g then BulkReply (Some v)
              else match m !! g with Some x => BulkReply x | None => NullBulkReply end) ∧
  hash_at (view r2.2) k (<[f := Some v]> m) ∧
  ∀ k', k' ≠ k → v_store (view r2.2) !! k' = v_store (view db) !! k'.
Proof.
  intros Hr Ht Hm r1 r2. run_command "HSET" [Some k; Some f; Some v] db H1 H2 H3.
  rewrite (hset_run k f v m _ Ht Hm) in H1, H2. fold r1 in H1, H2, H3. clearbody r1.
  run_command "HGET" [Some k; Some g] r1.2 G1 G2 G3. fold r2 in G1, G2, G3. clearbody r2.
  assert (hash_at (view r1.2) k (<[f := Some v]> m)) as Hm1.
  { unfold hash_at. rewrite H2. simpl. by rewrite lookup_insert_eq. }
  assert (v_ttl (view r1.2) !! k = None) as Ht1 by (by rewrite H2).
  rewrite (hget_run k g (<[f := Some v]> m) _ Ht1 Hm1) in G1, G2. cbn [fst snd] in G1, G2.
  split_and!; [exact H1| |by rewrite G2|].
  - rewrite G1. destruct (String.eqb f g) eqn:E.
    + apply String.eqb_eq in E as ->. by rewrite lookup_insert_eq.
    + apply String.eqb_neq in E. by rewrite lookup_insert_ne.
  - intros k' Hk. rewrite G2, H2. simpl. by rewrite lookup_insert_ne.
Qed.
End hashes.

(** ** Sets *)

Section sets.
Context `{Env}.
Implicit Types (X : gset string).

(** The members of the set at [k]. *)
Definition set_at (w : View) (k : string) X : Prop :=
  match v_store w !! k with
  | None => X = ∅
  | Some (DSet s) => Sets.members s = X
  | Some _ => False
  end.

Lemma getAsSet_no_ttl k w : v_ttl w !! k = None →
  getAsSet k w = (Ret (match v_store w !! k with
                       | None => inr None
                       | Some (DSet s) => inr (Some s)
                       | Some _ => inl WrongTypeErrReply
                       end), w).
Proof.
  intros Ht. unfold getAsSet, mbind, gom_bind. rewrite (GetEntity_no_ttl _ _ Ht).
  by destruct (v_store w !! k) as [[]|].
Qed.

Lemma simple_set_wf (s : HashSet) : Sets.set_wf s.
Proof. done. Qed.

Lemma sadd_loop_spec (ms : list string) (s : HashSet) n :
  let r := foldl (λ acc m, let '(s', c) := Sets.Add acc.1 m in (s', acc.2 + c)) (s, n) ms in
  Sets.members r.1 = Sets.members s ∪ list_to_set ms ∧
  r.2 = n + Z.of_nat (size (Sets.members r.1)) - Z.of_nat (size (Sets.members s)).
Proof.
  revert s n. induction ms as [|m ms IH]; intros s n; [simpl; split; [set_solver|lia]|].
  cbn [foldl fst snd]. destruct (Sets.set_Add_spec s m (simple_set_wf s)) as (_ & Hm & Hc).
  destruct (Sets.Add s m) as [s' c]. cbn [fst snd] in *. destruct (IH s' (n + c)) as [H1 H2]. cbv zeta in *.
  split; [rewrite H1, Hm; set_solver|]. rewrite H2, Hm, Hc. case_bool_decide as Hin; simpl.
  - rewrite size_union, size_singleton by set_solver. lia.
  - replace ({[m]} ∪ Sets.members s) with (Sets.members s) by set_solver. lia.
Qed.

Lemma sadd_run k (ms : list string) X w : v_ttl w !! k = None → set_at w k X →
  ∃ s, Sets.members s = X ∪ list_to_set ms ∧
    execSAdd (Some k :: (Some <$> ms)) w =
    (Ret (IntReply (Z.of_nat (size (X ∪ list_to_set ms)) - Z.of_nat (size X))),
     stored k (DSet s) (ToCmdLine ("sadd" :: k :: ms)) w).
Proof.
  intros Ht Hx. unfold set_at in Hx.
  assert (∃ s w', getOrInitSet k w = (Ret (inr s), w') ∧ Sets.members s = X ∧
    v_store w' = <[k := DSet s]> (v_store w) ∧ v_ttl w' = v_ttl w ∧ v_aof w' = v_aof w ∧
    v_draws w' = v_draws w) as (s & w' & E & Hm & Hs & Ht' & Ha & Hd).
  { unfold getOrInitSet, early_err, mbind, gom_bind. rewrite (getAsSet_no_ttl _ _ Ht).
    destruct (v_store w !! k) as [[| | |s|]|] eqn:Es; try done; subst.
    - exists s, w. split_and!; try done. by rewrite insert_id.
    - eexists _, (mkView _ _ _ _). by split_and!. }
  destruct (sadd_loop_spec ms s 0) as [H1 H2]. fold (sadd_loop s ms) in H1, H2. exists (sadd_loop s ms).1.
  rewrite Hm in H1, H2. split; [done|]. unfold execSAdd. erewrite bind_Ret by reflexivity. cbv zeta.
  erewrite early_inr by exact E. change (drop 1 (Some k :: (Some <$> ms))) with (Some <$> ms).
  rewrite <-list_fmap_compose. change (str ∘ Some) with (@id string). rewrite list_fmap_id.
  change (str (Some k)) with k. rewrite H1 in H2. rewrite Z.add_0_l in H2. rewrite <-H2.
  destruct (sadd_loop s ms) as [s' c]. cbn [fst snd].
  unfold mbind, gom_bind. cbn. unfold go_modify. cbn. rewrite Hs, lookup_insert_eq. cbn.
  unfold stored, mret, gom_ret. by rewrite insert_insert_eq, Ht', Ha, Hd.
Qed.

Lemma sismember_run k m X w : v_ttl w !! k = None → set_at w k X →
  execSIsMember [Some k; Some m] w = (Ret (IntReply (flag (bool_decide (m ∈ X)))), w).
Proof.
  intros Ht Hx. unfold execSIsMember. do 2 (erewrite bind_Ret by reflexivity).
  unfold early. change (str (Some k)) with k. change (str (Some m)) with m.
  erewrite bind_Ret by (by apply getAsSet_no_ttl). unfold set_at in Hx.
  destruct (v_store w !! k) as [[| | |s|]|]; try done; subst.
  - rewrite (Sets.Has_spec s m (simple_set_wf s)). by case_bool_decide.
  - by rewrite bool_decide_eq_false_2 by set_solver.
Qed.

(** SADD makes the set at the key the union with the given members and replies
    with the number of members that are new; SISMEMBER of any string afterwards
    answers membership in that union, and no other key changes. *)
Theorem sadd_sismember (k : string) (ms : list string) (m : string) (X : gset string) (db : DB) :
  ready db → ms ≠ [] → v_ttl (view db) !! k = None → set_at (view db) k X →
  let r1 := exec "SADD" (Some k :: (Some <$> ms)) db in
  let r2 := exec "SISMEMBER" [Some k; Some m] r1.2 in
  let Y := X ∪ list_to_set ms in
  r1.1 = Ret (IntReply (Z.of_nat (size Y) - Z.of_nat (size X))) ∧
  r2.1 = Ret (IntReply (flag (bool_decide (m ∈ Y)))) ∧ set_at (view r2.2) k Y ∧
  ∀ k', k' ≠ k → v_store (view r2.2) !! k' = v_store (view db) !! k'.
Proof.
  intros Hr Hms Ht Hx r1 r2 Y. destruct (sadd_run k ms X _ Ht Hx) as (s & Hm & E).
  destruct (exec_handler "SADD" (Some k :: (Some <$> ms)) db _ _ (storeTable_lookup "sadd") eq_refl eq_refl) as (H1 & H2 & H3);
    [destruct ms; [done|]; apply validate_some; simpl; lia|by eexists|done|].
  fold r1 in H1, H2, H3. clearbody r1. rewrite E in H1, H2.
  run_command "SISMEMBER" [Some k; Some m] r1.2 G1 G2 G3. fold r2 in G1, G2, G3. clearbody r2.
  assert (set_at (view r1.2) k Y) as Hy.
  { unfold set_at. rewrite H2. simpl. by rewrite lookup_insert_eq. }
  assert (v_ttl (view r1.2) !! k = None) as Ht1 by (by rewrite H2).
  rewrite (sismember_run k m Y _ Ht1 Hy) in G1, G2. cbn [fst snd] in G1, G2.
  split_and!; [exact H1|exact G1|by rewrite G2|]. intros k' Hk. rewrite G2, H2. simpl. by rewrite lookup_insert_ne.
Qed.
End sets.

(** ** Examples *)

#[local] Existing Instance demo_env.

(** A database that holds the list [a, b, c] under "l". *)
Definition demo_list : DB := (exec "RPUSH" (Some "l" :: [Some "a"; Some "b"; Some "c"]) (make_db 1 1)).2.

Lemma ready_list : ready demo_list.
Proof. apply exec_ready; [reflexivity|apply ready_empty]. Qed.

Lemma push_appends_witness :
  (exec "RPUSH" (Some "l" :: [Some "a"; Some "b"; Some "c"]) (make_db 1 1)).1 = Ret (IntReply 3) ∧
  list_at (view demo_list) "l" [Some "a"; Some "b"; Some "c"] ∧ v_ttl (view demo_list) = v_ttl (view (make_db 1 1)).
Proof.
  destruct (push_appends "l" [Some "a"; Some "b"; Some "c"] [] false (make_db 1 1) ready_empty)
    as (H1 & _ & H2 & H3 & _); [done|by vm_compute..|]. split; [exact H1|]. split; [exact H2|exact H3].
Defined.

Lemma demo_list_at : list_at (view demo_list) "l" [Some "a"; Some "b"; Some "c"].
Proof.
  assert (∃ l, v_store (view demo_list) !! "l" = Some (DList l) ∧
    l = QList.mkQuickList [QList.mkPage [Some "a"; Some "b"; Some "c"] 1024] 3) as (l & E & ->)
    by (eexists; split; [vm_compute; reflexivity|reflexivity]).
  unfold list_at. rewrite E. split; [split; [|done]|done]. apply Forall_singleton. unfold QList.page_ok. simpl. lia.
Qed.

Lemma demo_list_ttl : v_ttl (view demo_list) !! "l" = None.
Proof. vm_compute. reflexivity. Qed.

Lemma pop_takes_end_witness : (exec "LPOP" [Some "l"] demo_list).1 = Ret (BulkReply (Some "a")).
Proof.
  destruct (pop_takes_end "l" (Some "a") [Some "b"; Some "c"] true demo_list ready_list demo_list_ttl demo_list_at)
    as (E & _). exact E.
Defined.

Lemma lrange_slice_witness :
  ∃ reply, (exec "LRANGE" [Some "l"; Some (FormatInt (-2)); Some (FormatInt 7)] demo_list).1 = Ret reply ∧
    elements_of reply = [Some "b"; Some "c"].
Proof.
  destruct (lrange_slice "l" (-2) 7 [Some "a"; Some "b"; Some "c"] demo_list ready_list demo_list_ttl demo_list_at)
    as (E & _); [done|by compute|by compute|]. exact E.
Defined.

Lemma hset_hget_witness :
  (exec "HGET" [Some "h"; Some "f"] (exec "HSET" [Some "h"; Some "f"; Some "1"] (make_db 1 1)).2).1
  = Ret (BulkReply (Some "1")).
Proof.
  destruct (hset_hget "h" "f" "1" "f" ∅ (make_db 1 1) ready_empty) as (_ & E & _); [by vm_compute..|]. exact E.
Defined.

Lemma sadd_sismember_witness :
  (exec "SISMEMBER" [Some "s"; Some "b"] (exec "SADD" [Some "s"; Some "a"; Some "b"] (make_db 1 1)).2).1
  = Ret (IntReply 1).
Proof.
  destruct (sadd_sismember "s" ["a"; "b"] "b" ∅ (make_db 1 1) ready_empty) as (_ & E & _); [done|by vm_compute..|].
  exact E.
Defined.
