(* ===== verification/AofServer.v ===== *)
(** * A server and its append-only file

    The server is an instance of the engine of Aof.v.  A restart makes a new server, loads
    the file into it and only then binds the persister. *)

From Stdlib Require Import ZArith Lia Ascii String.
From stdpp Require Import base gmap strings numbers list.
From S2P Require Import Prelude GoStd Dict QuickList SetDS LinkedList LockMap Protocol Parser DB Marshal SlowLog StringCmds KeyCmds HashCmds SetCmds Conn PubSub Aof AofLaws Router Exec Tx Server ServerLaws ServerSpec Laws CollLaws.

Local Open Scope string_scope.
Local Open Scope list_scope.
Local Open Scope Z_scope.
Local Open Scope go_scope.

#[local] Opaque cmdTable storeTable makeDB.

Import Server.

(** ** The engine *)

(** [DB.ForEach] with a callback that continues. *)
Definition db_ForEach (ord : range_order) (db : DB) : list (string * DataEntity * option Z) :=
  (λ kv, (kv.1, kv.2, Concurrent.Get (ttlMap db) kv.1)) <$> Concurrent.ForEach ord (data db).

Section engine.
Context `{Env} (fuel : nat) (cfg : Config) `{Services}.

Definition ForEach (dbIndex : Z) : GoM Server (list (string * DataEntity * option Z)) :=
  db ← mustSelectDB dbIndex;
  ord ← Order;
  mret (db_ForEach ord db).

(** The RDB decoder is an argument. *)
Definition server_engine (loadRDB : string → GoM Server (option Z)) : DBEngine Server := {|
  engine_Exec := Exec_ (goTable fuel) cfg;
  engine_LoadRDB := loadRDB;
  engine_GetDBSize := GetDBSize;
  engine_ForEach := ForEach
|}.

(** [NewStandaloneServer] with a file to load: no persister is bound and there is no slow log
    while the file is read by the connection [c]. *)
Definition restart (loadRDB : string → GoM Server (option Z)) (c : nat) (fsync file : string) : outcome Server :=
  s ← NewStandaloneServer cfg;
  let '(r, (_, s')) := Aof.NewPersister (H := server_engine loadRDB) c true fsync file (set_persister s None) in
  _ ← r;
  Ret (set_persister (set_slog s' (slogLogger s)) (if AppendOnly cfg then Some [] else None)).
End engine.

(** ** Commands whose log line repeats them *)

Section replay.
Context `{Env}.

Lemma command_handler n args c (f : list bytes → GoM View Reply) w :
  last_named (ToLower n) init_all None = Some c → executor c = Some f → validateArity (arity c) (Some n :: args) = true →
  (∃ keys, call_prepare c (Some n :: args) = Ret keys) → Command storeTable (Some n :: args) w = f args w.
Proof.
  intros Hc Hf Ha [keys Hp]. rewrite Command_eq. unfold find_command, arg_at. cbn [lookup list_lookup mbind outcome_bind].
  change (str (Some n)) with n. rewrite storeTable_lookup, Hc, Ha. cbn [negb]. rewrite Hp. unfold call_executor. by rewrite Hf.
Qed.

(** A line of the log, as the loader will execute it. *)
Definition replay_ok (line : CmdLine) : Prop :=
  plain line = true ∧ command_name line ∉ ["ping"; "select"; "flushdb"; "flushall"].

(** Where no key expires: the line answers, and what it writes to the log leads from the same
    contents to the same contents, whatever the log and the draws are. *)
Definition faithful (line : CmdLine) : Prop := ∀ st, ∃ r st' lines,
  (∀ aof d, Command storeTable line (mkView st ∅ aof d) = (Ret r, mkView st' ∅ (aof ++ lines) d)) ∧
  (lines = [] ∧ st' = st ∨
   ∃ n, let l := Some n :: drop 1 line in
     lines = [l] ∧ arg_ok (Some n) ∧ replay_ok l ∧ ∀ aof d, ∃ r' aof', Command storeTable l (mkView st ∅ aof d) = (Ret r', mkView st' ∅ aof' d) ∧ r' ≠ NoReply).

(** A command that writes nothing. *)
Lemma faithful_reads line : (∀ st, ∃ r, ∀ aof d, Command storeTable line (mkView st ∅ aof d) = (Ret r, mkView st ∅ aof d)) → faithful line.
Proof. intros Hl st. destruct (Hl st) as [r Hr]. exists r, st, []. split; [|by left]. intros. by rewrite app_nil_r. Qed.

(** A command that logs itself, or does nothing. *)
Lemma faithful_self line n : let l := Some n :: drop 1 line in arg_ok (Some n) → replay_ok l → (∀ w, Command storeTable l w = Command storeTable line w) →
  (∀ st, ∃ r st' b, (∀ aof d, Command storeTable line (mkView st ∅ aof d) =
     (Ret r, mkView st' ∅ (aof ++ if (b : bool) then [l] else []) d)) ∧ (b = false → st' = st) ∧ r ≠ NoReply) → faithful line.
Proof.
  intros l Hn Hl He Hr st. destruct (Hr st) as (r & st' & b & Hrun & Hb & Hno). exists r, st', (if b then [l] else []). split; [done|].
  destruct b; [right|left; by split; [|apply Hb]]. exists n. split_and!; [done|done|done|]. intros aof d. unfold l in *. rewrite He, Hrun. by eexists _, _.
Qed.

Ltac enter n f := erewrite (command_handler n _ _ f); [|reflexivity|reflexivity|reflexivity|by eexists].

(** Runs a handler on a view without expiry times, given what the key holds. *)
Ltac run_view E :=
  unfold early, early_err, arg, mbind, gom_bind; cbn [lookup list_lookup mret gom_ret];
  rewrite ?getAsString_no_ttl by done; cbn; rewrite ?E; cbn; rewrite ?E, ?delete_empty; try reflexivity.

Lemma faithful_read n f k : (∀ w, Command storeTable [Some n; Some k] w = f [Some k] w) →
  (∀ st o, ∃ r, ∀ aof d, st !! k = o → f [Some k] (mkView st ∅ aof d) = (Ret r, mkView st ∅ aof d)) → faithful [Some n; Some k].
Proof.
  intros Hc Hf. apply faithful_reads. intros st. destruct (Hf st (st !! k)) as [r Hr]. exists r. intros aof d. rewrite Hc. by apply Hr.
Qed.

Lemma faithful_get k : faithful [Some "GET"; Some k].
Proof.
  apply (faithful_read "GET" execGet); [intros w; by enter "GET" execGet|]. intros st [[[s|]| | | |]|]; eexists; intros lg dr E; unfold execGet; by run_view E.
Qed.

Lemma faithful_strlen k : faithful [Some "STRLEN"; Some k].
Proof.
  apply (faithful_read "STRLEN" execStrLen); [intros w; by enter "STRLEN" execStrLen|].
  intros st [[[s|]| | | |]|]; eexists; intros lg dr E; unfold execStrLen; by run_view E.
Qed.

(** A handler that logs the line [l], which runs the same handler. *)
Lemma faithful_writes n n' f args : arg_ok (Some n') → replay_ok (Some n' :: args) →
  (∀ w, Command storeTable (Some n :: args) w = f args w) → (∀ w, Command storeTable (Some n' :: args) w = f args w) →
  (∀ st, ∃ r st' (b : bool), (∀ aof d, f args (mkView st ∅ aof d) = (Ret r, mkView st' ∅ (aof ++ if b then [Some n' :: args] else []) d)) ∧
     (b = false → st' = st) ∧ r ≠ NoReply) → faithful (Some n :: args).
Proof.
  intros Hn Hl H1 H2 Hf. apply (faithful_self (Some n :: args) n'); [done|done|intros w; by rewrite H1; cbn [drop]; rewrite H2|].
  intros st. destruct (Hf st) as (r & st' & b & Hr & Hb). exists r, st', b. split; [|done]. intros aof d. by rewrite H1.
Qed.

Ltac replayable := split; [reflexivity|apply (bool_decide_eq_true_1 (_ ∉ _)); reflexivity].

Ltac logs_line b tac :=
  eexists _, _, b; split; [intros lg dr; rewrite ?app_nil_r; tac|split; [let Hb := fresh in intros Hb; first [discriminate Hb|reflexivity]|discriminate]].

(** Every branch either logs the line or changes nothing. *)
Ltac handlers := unfold execIncr, execDecr, execGetSet, execGetDel, execSetNX, execAppend, execSet, store_int.

Ltac branches E Es :=
  first [logs_line true ltac:(handlers; run_view E; rewrite ?Es; cbn; rewrite ?E; reflexivity)
        |logs_line false ltac:(handlers; run_view E; rewrite ?Es; reflexivity)].

Ltac writes n n' h := apply (faithful_writes n n' h); [done|replayable|intros w; by enter n h|intros w; by enter n' h|]; intros st.

Lemma faithful_incr k : faithful [Some "INCR"; Some k] ∧ faithful [Some "DECR"; Some k].
Proof.
  split; [writes "INCR" "incr" execIncr|writes "DECR" "decr" execDecr];
    (destruct (st !! k) as [[[s|]| | | |]|] eqn:E; [destruct (ParseInt s) eqn:Es|..]).
  all: first [branches E Es|branches E E].
Qed.

(** The two commands with a number for an argument. *)
Ltac run_by v Ev E Es :=
  unfold execIncrBy, execDecrBy, store_int, early, arg, mbind, gom_bind; cbn [lookup list_lookup mret gom_ret];
  change (str (Some v)) with v; rewrite Ev; try reflexivity;
  rewrite getAsString_no_ttl by done; cbn; rewrite E; cbn; rewrite ?Es; cbn [v_store v_ttl v_aof v_draws]; reflexivity.

Ltac branches_by v Ev E Es :=
  first [logs_line true ltac:(run_by v Ev E Es)|logs_line false ltac:(run_by v Ev E Es)].

Lemma faithful_incrby k v : faithful [Some "INCRBY"; Some k; Some v] ∧ faithful [Some "DECRBY"; Some k; Some v].
Proof.
  split; [writes "INCRBY" "incrby" execIncrBy|writes "DECRBY" "decrby" execDecrBy];
    (destruct (ParseInt v) as [e|delta] eqn:Ev; [branches_by v Ev Ev Ev|]);
    (destruct (st !! k) as [[[s|]| | | |]|] eqn:E; [destruct (ParseInt s) eqn:Es|..]).
  all: first [branches_by v Ev E Es|branches_by v Ev E E].
Qed.

Lemma faithful_set k v : faithful [Some "SET"; Some k; Some v].
Proof.
  writes "SET" "set" execSet.
  logs_line true ltac:(handlers; unfold arg, mbind, gom_bind; cbn; rewrite delete_empty; reflexivity).
Qed.

Lemma faithful_setnx k v : faithful [Some "SETNX"; Some k; Some v].
Proof.
  writes "SETNX" "setnx" execSetNX. destruct (st !! k) as [e|] eqn:E.
  - exists (IntReply 0), st, true. split; [|by split]. intros lg dr. handlers. unfold arg, mbind, gom_bind. cbn. unfold ViewOps.PutIfAbsent. cbn. by rewrite E.
  - logs_line true ltac:(handlers; unfold arg, mbind, gom_bind; cbn; unfold ViewOps.PutIfAbsent; cbn; rewrite E; reflexivity).
Qed.

Lemma faithful_append k v : faithful [Some "APPEND"; Some k; Some v].
Proof.
  writes "APPEND" "append" execAppend. destruct (st !! k) as [[[s|]| | | |]|] eqn:E. all: branches E E.
Qed.

(** GETSET logs the SET it performs, and GETDEL the DEL. *)
Lemma faithful_other n n' f args : let l := Some n' :: args in arg_ok (Some n') → replay_ok l → (∀ w, Command storeTable (Some n :: args) w = f args w) →
  (∀ st, ∃ r st' (b : bool), (∀ aof d, f args (mkView st ∅ aof d) = (Ret r, mkView st' ∅ (aof ++ if b then [l] else []) d)) ∧
     (if b then ∀ aof d, ∃ r' aof', Command storeTable l (mkView st ∅ aof d) = (Ret r', mkView st' ∅ aof' d) ∧ r' ≠ NoReply else st' = st)) →
  faithful (Some n :: args).
Proof.
  intros l Hn Hl H1 Hf st. destruct (Hf st) as (r & st' & b & Hr & Hb). exists r, st', (if b then [l] else []).
  split; [intros aof d; by rewrite H1|]. destruct b; [right|by left]. by exists n'.
Qed.

Lemma faithful_getset k v : faithful [Some "GETSET"; Some k; Some v].
Proof.
  apply (faithful_other "GETSET" "set" execGetSet); [done|replayable|intros w; by enter "GETSET" execGetSet|]. intros st.
  assert (∀ aof d, ∃ r' aof', Command storeTable [Some "set"; Some k; Some v] (mkView st ∅ aof d) =
    (Ret r', mkView (<[k := DString (Some v)]> st) ∅ aof' d) ∧ r' ≠ NoReply) as Hset.
  { intros aof d. enter "set" execSet. eexists _, _. handlers. unfold arg, mbind, gom_bind. cbn. rewrite delete_empty. by split. }
  destruct (st !! k) as [[[s|]| | | |]|] eqn:E.
  1, 2, 7: eexists _, _, true; (split; [|exact Hset]); intros lg dr; handlers; run_view E.
  all: eexists _, _, false; (split; [|reflexivity]); intros lg dr; rewrite app_nil_r; handlers; run_view E.
Qed.

Lemma del_run_view n k st : ToLower n = "del" →
  ∀ aof d, Command storeTable [Some n; Some k] (mkView st ∅ aof d) =
    (Ret (IntReply (flag (present (st !! k)))),
     mkView (delete k st) ∅ (aof ++ if present (st !! k) then [[Some "del"; Some k]] else []) d).
Proof.
  intros Hn aof d. erewrite (command_handler n _ _ execDel); [|by rewrite Hn|reflexivity|reflexivity|by eexists].
  unfold execDel. cbn [fmap list_fmap]. change (str (Some k)) with k. destruct (st !! k) as [e|] eqn:E.
  - erewrite bind_Ret; [|cbn [Removes view_store]; unfold ViewOps.Removes; cbn [ViewOps.Removes_loop];
      erewrite bind_Ret by reflexivity; cbn [v_store]; rewrite E; reflexivity].
    cbn. by rewrite delete_empty.
  - erewrite bind_Ret; [|cbn [Removes view_store]; unfold ViewOps.Removes; cbn [ViewOps.Removes_loop];
      erewrite bind_Ret by reflexivity; cbn [v_store]; rewrite E; reflexivity].
    cbn. by rewrite app_nil_r, delete_id.
Qed.

Lemma faithful_del k : faithful [Some "DEL"; Some k].
Proof.
  apply (faithful_self [Some "DEL"; Some k] "del"); [done|replayable| |].
  - intros w. by (enter "del" execDel; enter "DEL" execDel).
  - intros st. eexists _, _, _. split; [intros aof d; by apply del_run_view|].
    split; [|done]. intros Hb. apply delete_id. by destruct (st !! k).
Qed.

Lemma faithful_getdel k : faithful [Some "GETDEL"; Some k].
Proof.
  apply (faithful_other "GETDEL" "del" execGetDel); [done|replayable|intros w; by enter "GETDEL" execGetDel|]. intros st.
  assert (∀ aof d, ∃ r' aof', Command storeTable [Some "del"; Some k] (mkView st ∅ aof d) = (Ret r', mkView (delete k st) ∅ aof' d) ∧ r' ≠ NoReply) as Hdel.
  { intros aof d. rewrite (del_run_view "del") by done. by eexists _, _. }
  destruct (st !! k) as [[[s|]| | | |]|] eqn:E.
  1: eexists _, _, true; (split; [|exact Hdel]); intros lg dr; handlers; run_view E.
  all: eexists _, _, false; (split; [|reflexivity]); intros lg dr; rewrite app_nil_r; handlers; run_view E.
Qed.

Ltac run_hset f E := unfold execHSet, getOrInitDict, early, early_err, arg, mbind, gom_bind; cbn [lookup list_lookup mret gom_ret];
  rewrite getAsDict_no_ttl by done; cbn; rewrite ?E; cbn; change (str (Some f)) with f.

Lemma faithful_hset k f v : faithful [Some "HSET"; Some k; Some f; Some v].
Proof.
  writes "HSET" "hset" execHSet. destruct (st !! k) as [[b|l|h|s|z]|] eqn:E.
  1, 2, 4, 5: logs_line false ltac:(run_hset f E; reflexivity).
  - logs_line true ltac:(rewrite (hset_run k f v (dict_m h)); [unfold stored; cbn [v_store v_ttl v_aof v_draws]; reflexivity|done|unfold hash_at; simpl; by rewrite E]).
  - logs_line true ltac:(rewrite (hset_run k f v ∅); [unfold stored; cbn [v_store v_ttl v_aof v_draws]; reflexivity|done|unfold hash_at; simpl; by rewrite E]).
Qed.
End replay.

(** ** Replaying a log on the specification *)

(** The data commands of the theorem. *)
Inductive data_line : CmdLine → Prop :=
  | data_key n k : n ∈ ["GET"; "STRLEN"; "INCR"; "DECR"; "DEL"; "GETDEL"] → data_line [Some n; Some k]
  | data_value n k v : n ∈ ["SET"; "SETNX"; "GETSET"; "APPEND"; "INCRBY"; "DECRBY"] → data_line [Some n; Some k; Some v]
  | data_hset k f v : data_line [Some "HSET"; Some k; Some f; Some v].

(** What clients send: data commands, and the commands of the server. *)
Inductive client_line : CmdLine → Prop :=
  | client_data line : data_line line → Forall arg_ok line → client_line line
  | client_select v : client_line [Some "SELECT"; Some v]
  | client_flushdb : client_line [Some "FLUSHDB"]
  | client_flushall : client_line [Some "FLUSHALL"]
  | client_ping : client_line [Some "PING"].

Definition to_payload (x : Z * CmdLine) : Aof.payload := Aof.mkPayload x.2 x.1.

Section session.
Context `{Env} (cfg : Config).

Lemma replay_data n args : plain (Some n :: args) = true → bool_decide (ToLower n ∉ ["ping"; "select"; "flushdb"; "flushall"]) = true →
  replay_ok (Some n :: args).
Proof. intros Hp Hn. split; [done|]. by apply bool_decide_eq_true in Hn. Qed.

Lemma data_faithful line : data_line line → faithful line ∧ replay_ok line.
Proof.
  intros [n k Hn|n k v Hn|k f v].
  - split.
    + repeat (apply elem_of_cons in Hn as [->|Hn]); [exact (faithful_get k)|exact (faithful_strlen k)|exact (proj1 (faithful_incr k))
        |exact (proj2 (faithful_incr k))|exact (faithful_del k)|exact (faithful_getdel k)|by apply elem_of_nil in Hn].
    + repeat (apply elem_of_cons in Hn as [->|Hn]); [by apply replay_data..|by apply elem_of_nil in Hn].
  - split.
    + repeat (apply elem_of_cons in Hn as [->|Hn]); [exact (faithful_set k v)|exact (faithful_setnx k v)|exact (faithful_getset k v)
        |exact (faithful_append k v)|exact (proj1 (faithful_incrby k v))|exact (proj2 (faithful_incrby k v))|by apply elem_of_nil in Hn].
    + repeat (apply elem_of_cons in Hn as [->|Hn]); [by apply replay_data..|by apply elem_of_nil in Hn].
  - split; [exact (faithful_hset k f v)|by apply replay_data].
Qed.

(** A line that is no command of the server runs on the selected database. *)
Lemma spec_exec_normal c line sp : replay_ok line →
  spec_exec cfg c line sp = spec_normal cfg c line (spec_tick (S (sp_ticks sp)) sp).
Proof.
  intros [_ Hn]. unfold spec_exec. rewrite !not_elem_of_cons in Hn. destruct Hn as (N1 & N2 & N3 & N4 & _).
  by rewrite !(proj2 (String.eqb_neq _ _)) by done.
Qed.

Definition replayed (c : nat) (lines : list CmdLine) (q : Spec) : Spec := (spec_run cfg (pair c <$> lines) q).2.

Lemma replayed_app c l1 l2 q : replayed c (l1 ++ l2) q = replayed c l2 (replayed c l1 q).
Proof.
  unfold replayed. rewrite fmap_app. generalize (pair c <$> l1) as xs. intros xs. revert q.
  induction xs as [|x xs IH]; intros q; [done|]. cbn [app spec_run]. cbv zeta. cbn [snd]. apply IH.
Qed.

Lemma replayed_select c i q : 0 ≤ i < Z.of_nat (length (sp_dbs q)) → is_int64 i →
  let q' := replayed c [Aof.selectCmd i] q in sp_dbs q' = sp_dbs q ∧ sp_sel q' c = i ∧ sp_log q' = sp_log q.
Proof.
  intros Hi Hi64. unfold replayed. cbn [fmap list_fmap spec_run]. cbv zeta. cbn [snd fst]. unfold spec_exec.
  change (command_name (Aof.selectCmd i)) with "select". cbn [String.eqb Ascii.eqb Bool.eqb]. cbn.
  unfold Itoa, Atoi. rewrite ParseInt_FormatInt by done. cbn.
  rewrite (proj2 (Z.leb_le _ _)), (proj2 (Z.ltb_lt _ _)) by lia. cbn. split_and!; [done| |done].
  by rewrite bool_decide_true.
Qed.

(** A specification without expiry times whose clients have selected a database. *)
Record calm (sp : Spec) : Prop := {
  calm_ttl : Forall (λ m, m.2 = ∅) (sp_dbs sp);
  calm_sel : ∀ x, 0 ≤ sp_sel sp x < Z.of_nat (length (sp_dbs sp));
  calm_size : Z.of_nat (length (sp_dbs sp)) ≤ int64_max
}.

(** The replies that the loader can look at. *)
Definition answers (c : nat) (lines : list CmdLine) (q : Spec) : Prop := Forall (λ r, r ≠ NoReply) (spec_run cfg (pair c <$> lines) q).1.

Lemma answers_app c l1 l2 q : answers c l1 q → answers c l2 (replayed c l1 q) → answers c (l1 ++ l2) q.
Proof.
  unfold answers, replayed. rewrite fmap_app. generalize (pair c <$> l1) as xs. intros xs. revert q.
  induction xs as [|x xs IH]; intros q; [done|]. cbn [app spec_run]. cbv zeta. cbn [fst snd]. intros Hx Hy.
  inversion Hx; subst. apply Forall_cons. split; [done|]. by apply IH.
Qed.

(** What the replay [q] has to do with the run [sp]. *)
Record same_dbs (c : nat) (i : Z) (sp q : Spec) : Prop := {
  sd_dbs : sp_dbs q = sp_dbs sp;
  sd_sel : sp_sel q c = i;
  sd_log : sp_log q = None
}.

(** The replay of one payload: the selection, if it changes, and the line. *)
Lemma replayed_payload c cur i l sp sp' q :
  calm sp → 0 ≤ i < Z.of_nat (length (sp_dbs sp)) → same_dbs c cur sp q →
  (∀ q', same_dbs c i sp q' → let r := spec_exec cfg c l q' in r.1 ≠ NoReply ∧ same_dbs c i sp' r.2) →
  let lines := with_selects cur [Aof.mkPayload l i] in
  same_dbs c i sp' (replayed c lines q) ∧ answers c lines q.
Proof.
  intros Hcalm Hi Hq Hl lines. unfold lines. cbn [with_selects Aof.p_dbIndex Aof.p_cmdLine]. rewrite app_nil_r.
  assert (∀ q', same_dbs c i sp q' → same_dbs c i sp' (replayed c [l] q') ∧ answers c [l] q') as Hone.
  { intros q' Hq'. destruct (Hl q' Hq') as [H1 H2]. split; [exact H2|]. by repeat constructor. }
  destruct (Z.eqb_spec i cur) as [->|Hne]; [by apply Hone|].
  change [Aof.selectCmd i; l] with ([Aof.selectCmd i] ++ [l]).
  destruct (replayed_select c i q) as (S1 & S2 & S3).
  { by rewrite (sd_dbs _ _ _ _ Hq). }
  { pose proof (calm_size _ Hcalm). unfold is_int64, int64_min, int64_max in *. lia. }
  destruct (Hone (replayed c [Aof.selectCmd i] q)) as [H1 H2].
  { split; [by rewrite S1, (sd_dbs _ _ _ _ Hq)|done|by rewrite S3, (sd_log _ _ _ _ Hq)]. }
  rewrite replayed_app. split; [done|]. apply answers_app; [|done].
  constructor; [|constructor]. cbn [fst]. unfold spec_exec. change (command_name (Aof.selectCmd i)) with "select". cbn.
  destruct (Atoi _); [done|]. by destruct (_ && _).
Qed.

Lemma last_db_snoc cur ps x : last_db cur (ps ++ [x]) = Aof.p_dbIndex x.
Proof. unfold last_db. by rewrite last_snoc. Qed.

(** The run [sp] has written a log whose replay from [q0] leads to the same databases. *)
Record tracks (c : nat) (q0 sp : Spec) : Prop := {
  tr_calm : calm sp;
  tr_log : ∃ L, sp_log sp = Some L ∧ let ps := to_payload <$> L in
    same_dbs c (last_db 0 ps) sp (replayed c (with_selects 0 ps) q0) ∧ answers c (with_selects 0 ps) q0 ∧
    Forall (λ x, storable (Aof.p_cmdLine x) ∧ 0 ≤ Aof.p_dbIndex x < Z.of_nat (length (sp_dbs sp)) ∧ plain (Aof.p_cmdLine x) = true ∧
               command_name (Aof.p_cmdLine x) ≠ "select") ps
}.

(** One more line in the log. *)
Lemma tracks_step c q0 sp sp' i l L :
  tracks c q0 sp → calm sp' → sp_log sp = Some L → sp_log sp' = Some (L ++ [(i, l)]) → length (sp_dbs sp') = length (sp_dbs sp) →
  0 ≤ i < Z.of_nat (length (sp_dbs sp)) → storable l → plain l = true → command_name l ≠ "select" →
  (∀ q', same_dbs c i sp q' → let r := spec_exec cfg c l q' in r.1 ≠ NoReply ∧ same_dbs c i sp' r.2) → tracks c q0 sp'.
Proof.
  intros [Hcalm (L' & EL & Hq & Ha & Hf)] Hcalm' HL HL' Hlen Hi Hst Hpl Hns Hl. rewrite HL in EL. injection EL as <-.
  split; [done|]. exists (L ++ [(i, l)]). split; [done|]. cbv zeta. rewrite fmap_app. cbn [fmap list_fmap].
  change (to_payload (i, l)) with (Aof.mkPayload l i).
  destruct (replayed_payload c _ i l sp sp' _ Hcalm Hi Hq Hl) as [H1 H2].
  rewrite last_db_snoc, with_selects_app, replayed_app. split; [exact H1|]. split; [by apply answers_app|].
  rewrite Hlen. apply Forall_app. split; [done|]. by apply Forall_singleton.
Qed.

(** A step that writes nothing and changes no database. *)
Lemma tracks_same c q0 sp sp' : tracks c q0 sp → calm sp' → sp_log sp' = sp_log sp → sp_dbs sp' = sp_dbs sp → tracks c q0 sp'.
Proof.
  intros [_ (L & EL & [H1 H2 H3] & Ha & Hf)] Hc Hl Hd. split; [done|]. exists L. rewrite Hl, Hd. split; [done|].
  split; [|done]. split; [by rewrite Hd|done|done].
Qed.

Hypothesis Haof : AppendOnly cfg = true.

Lemma calm_insert sp sp' i st : calm sp → sp_dbs sp' = <[i := (st, ∅)]> (sp_dbs sp) → sp_sel sp' = sp_sel sp → calm sp'.
Proof.
  intros [H1 H2 H3] Hd Hs. split; rewrite Hd, ?Hs, ?length_insert; [|done|done]. by apply Forall_insert.
Qed.

Lemma storable_data n line : data_line line → Forall arg_ok line → arg_ok (Some n) → storable (Some n :: drop 1 line).
Proof.
  intros Hd Ha Hn. assert (Forall is_Some line ∧ (1 ≤ length line ≤ 4)%nat) as [Hs Hl].
  { destruct Hd; (split; [by repeat constructor|simpl; lia]). }
  split_and!; [done| |split].
  - apply Forall_cons. split; [by eexists|]. by apply Forall_drop.
  - apply Forall_cons. split; [done|]. by apply Forall_drop.
  - cbn [length]. rewrite length_drop. unfold max_alloc. lia.
Qed.

Lemma tracks_data c q0 sp x line : tracks c q0 sp → data_line line → Forall arg_ok line → tracks c q0 (spec_exec cfg x line sp).2.
Proof.
  intros Ht Hd Ha. destruct (data_faithful line Hd) as [Hf Hr]. pose proof (tr_calm _ _ _ Ht) as Hcalm. rewrite spec_exec_normal by done.
  set (sp1 := spec_tick _ sp). unfold spec_normal. change (sp_sel sp1) with (sp_sel sp). change (sp_dbs sp1) with (sp_dbs sp).
  set (i := sp_sel sp x). pose proof (calm_sel _ Hcalm x) as Hi. fold i in Hi.
  destruct (lookup_lt_is_Some_2 (sp_dbs sp) (Z.to_nat i)) as [[st ttl] Hm]; [lia|].
  pose proof (calm_ttl _ Hcalm) as Htt. rewrite Forall_lookup in Htt. pose proof (Htt _ _ Hm) as Hempty. simpl in Hempty. subst ttl. clear Htt.
  rewrite Hm. cbv zeta. cbn [fst snd]. destruct (Hf st) as (r & st' & lines & Hrun & Hcase). rewrite Hrun. cbn [fst snd v_store v_ttl v_aof v_draws app].
  rewrite Haof. destruct (tr_log _ _ _ Ht) as (L & EL & _). change (sp_log sp1) with (sp_log sp). rewrite EL.
  destruct Hcase as [[-> ->]|(n & -> & Hn & Hrl & Hrep)].
  - apply (tracks_same c q0 sp); [done| | |]; cbn.
    + eapply calm_insert; [done|done|done].
    + by rewrite app_nil_r.
    + by apply list_insert_id.
  - set (l := Some n :: drop 1 line) in *. apply (tracks_step c q0 sp _ i l L); [done| |done|done| |done|by apply storable_data|apply Hrl| |].
    + eapply calm_insert; [done|done|done].
    + cbn. by rewrite length_insert.
    + destruct Hrl as [_ Hns]. intros E. rewrite E in Hns. set_solver.
    + intros q' [Q1 Q2 Q3]. rewrite spec_exec_normal by done. unfold spec_normal. cbn [sp_sel sp_dbs spec_tick]. rewrite Q2, Q1, Hm. cbv zeta. cbn [fst snd].
      destruct (Hrep [] (sp_ticks (spec_tick (S (sp_ticks q')) q'))) as (r' & aof' & E & Hno). rewrite E. cbn [fst snd v_store v_ttl v_aof v_draws]. split; [done|].
      split; cbn; [done|done|]. by rewrite Haof, Q3.
Qed.

Lemma tracks_flush c q0 sp sp' i l L :
  tracks c q0 sp → sp_log sp = Some L → sp_log sp' = Some (L ++ [(i, l)]) → 0 ≤ i < Z.of_nat (length (sp_dbs sp)) →
  l = ToCmdLine ["FlushDB"] ∧ sp_dbs sp' = <[Z.to_nat i := (∅, ∅)]> (sp_dbs sp) ∨
  l = ToCmdLine ["FlushAll"] ∧ sp_dbs sp' = (λ _, (∅, ∅)) <$> sp_dbs sp →
  sp_sel sp' = sp_sel sp → tracks c q0 sp'.
Proof.
  intros Ht HL HL' Hi Hl Hs. pose proof (tr_calm _ _ _ Ht) as Hcalm.
  assert (length (sp_dbs sp') = length (sp_dbs sp)) as Hlen by (destruct Hl as [[_ ->]|[_ ->]]; [by rewrite length_insert|by rewrite length_fmap]).
  apply (tracks_step c q0 sp _ i l L); [done| |done|done|done|done| | | |].
  - destruct Hcalm as [H1 H2 H3]. split; rewrite ?Hlen, ?Hs; [|done|done]. destruct Hl as [[_ ->]|[_ ->]]; [by apply Forall_insert|].
    apply Forall_fmap, Forall_true. done.
  - destruct Hl as [[-> _]|[-> _]]; (split_and!; [done|by repeat constructor|split; [by repeat constructor|done]]).
  - by destruct Hl as [[-> _]|[-> _]].
  - by destruct Hl as [[-> _]|[-> _]].
  - intros q' [Q1 Q2 Q3]. destruct Hl as [[-> Hd]|[-> Hd]].
    + cbv zeta. unfold spec_exec. change (command_name (ToCmdLine ["FlushDB"])) with "flushdb". cbn. split; [done|].
      split; cbn; [by rewrite Q2, Q1, Hd|done|by rewrite Q3].
    + cbv zeta. unfold spec_exec. change (command_name (ToCmdLine ["FlushAll"])) with "flushall". cbn. split; [done|].
      split; cbn; [by rewrite Q1, Hd|done|by rewrite Q3].
Qed.

Lemma tracks_tick c q0 sp n : tracks c q0 sp → tracks c q0 (spec_tick n sp).
Proof. intros Ht. apply (tracks_same c q0 sp); [done| |done|done]. by destruct (tr_calm _ _ _ Ht). Qed.

Lemma tracks_exec c q0 sp x line : tracks c q0 sp → client_line line → tracks c q0 (spec_exec cfg x line sp).2.
Proof.
  intros Ht Hl. pose proof (tr_calm _ _ _ Ht) as Hcalm. destruct (tr_log _ _ _ Ht) as (L & EL & _). destruct Hl as [line Hd Ha|v| | |].
  - by apply tracks_data.
  - unfold spec_exec. change (command_name [Some "SELECT"; Some v]) with "select". cbn. destruct (Atoi v) as [|i]; [by apply tracks_tick|].
    destruct ((0 <=? i) && _) eqn:Ei; cbn; [|by apply tracks_tick].
    apply (tracks_same c q0 sp); [done| |done|done]. destruct Hcalm as [H1 H2 H3]. split; [done| |done]. intros y. cbn.
    apply andb_true_iff in Ei as [E1 E2]. apply Z.leb_le in E1. apply Z.ltb_lt in E2. case_bool_decide; [done|apply H2].
  - apply (tracks_flush c q0 sp _ (sp_sel sp x) (ToCmdLine ["FlushDB"]) L); [done|done| |apply (calm_sel _ Hcalm)|by left|done].
    unfold spec_exec. change (command_name [Some "FLUSHDB"]) with "flushdb". cbn. by rewrite EL.
  - apply (tracks_flush c q0 sp _ 0 (ToCmdLine ["FlushAll"]) L); [done|done| | |by right|done].
    + unfold spec_exec. change (command_name [Some "FLUSHALL"]) with "flushall". cbn. by rewrite EL.
    + pose proof (calm_sel _ Hcalm 0%nat). lia.
  - by apply tracks_tick.
Qed.

Lemma tracks_run c q0 cmds sp : tracks c q0 sp → Forall (λ x, client_line x.2) cmds → tracks c q0 (spec_run cfg cmds sp).2.
Proof.
  intros Ht Hc. revert sp Ht. induction Hc as [|[x line] cmds Hx _ IH]; intros sp Ht; [done|]. cbn [spec_run snd fst]. by apply IH, tracks_exec.
Qed.
End session.

(** ** Loading into a server *)

Lemma IsErrorReply_ret r : r ≠ NoReply → ∃ b, IsErrorReply r = Ret b.
Proof.
  intros Hr. unfold IsErrorReply. destruct (ToBytes r) eqn:E; [|by eexists]. exfalso.
  destruct r as [[?|]| | | | | | | | | | | | | | | |]; done.
Qed.

Lemma plain_select i : plain (Aof.selectCmd i) = true.
Proof. reflexivity. Qed.

Section load.
Context `{Env} (fuel : nat) (cfg : Config) `{Services} (loadRDB : string → GoM Server (option Z)).
Hypothesis Hpass : RequirePass cfg = "".

#[local] Instance engine : DBEngine Server := server_engine fuel cfg loadRDB.

(** The lines of a file: selections and data commands. *)
Definition loadable (line : CmdLine) : Prop :=
  plain line = true ∧ (command_name line = "select" → ∃ i, line = Aof.selectCmd i).

Lemma load_line_rep c line p s q : srv_rep s q → loadable line → (spec_exec cfg c line q).1 ≠ NoReply →
  ∃ p' s', Aof.load_line c line (p, s) = (Ret tt, (p', s')) ∧ srv_rep s' (spec_exec cfg c line q).2 ∧ Aof.aofFile p' = Aof.aofFile p.
Proof.
  intros Hr [Hp Hsel] Hno. destruct (Exec_plain fuel cfg Hpass c line s q Hr Hp) as (s1 & E1 & Hr1). unfold Aof.load_line.
  rewrite (bind_Ret (Aof.on_engine (engine_Exec c line)) _ _ (spec_exec cfg c line q).1 (p, s1)); [|unfold Aof.on_engine; cbn; rewrite E1; reflexivity].
  destruct (IsErrorReply_ret _ Hno) as [b Hb]. unfold go_lift. rewrite Hb. erewrite bind_Ret by reflexivity.
  destruct line as [|a0 rest]; [done|]. cbn [arg_at lookup list_lookup]. erewrite bind_Ret by reflexivity.
  change (ToLower (str a0)) with (command_name (a0 :: rest)). destruct (String.eqb_spec (command_name (a0 :: rest)) "select") as [Hn|Hn].
  - destruct (Hsel Hn) as [i E]. unfold Aof.selectCmd, ToCmdLine in E. cbn in E. injection E as -> ->. erewrite bind_Ret by reflexivity.
    destruct (Atoi _); eexists _, s1; by split_and!.
  - by exists p, s1.
Qed.

Lemma exec_lines_rep c lines p s q : srv_rep s q → Forall loadable lines → answers cfg c lines q →
  ∃ p' s', exec_lines c lines (p, s) = (Ret tt, (p', s')) ∧ srv_rep s' (replayed cfg c lines q).
Proof.
  intros Hr Hl. revert p s q Hr. induction Hl as [|line lines Hx _ IH]; intros p s q Hr Ha; [by exists p, s|].
  unfold answers in Ha. cbn [fmap list_fmap spec_run fst snd] in Ha. inversion Ha; subst.
  destruct (load_line_rep c line p s q Hr Hx) as (p1 & s1 & E1 & Hr1 & _); [done|].
  destruct (IH p1 s1 _ Hr1) as (p2 & s2 & E2 & Hr2); [done|]. exists p2, s2. unfold exec_lines. cbn [go_for].
  rewrite (bind_Ret _ _ _ _ _ E1). by split.
Qed.

Hypothesis no_rdb : ∀ s e, HasPrefix s "REDIS" = false → loadRDB s e = (Ret None, e).

(** The specification of a server that loads its file. *)
Definition spec_load : Spec := mkSpec (replicate (Z.to_nat (databases cfg)) (∅, ∅)) (λ _, 0) None 0.

Lemma with_selects_loadable cur ps :
  Forall (λ x, plain (Aof.p_cmdLine x) = true ∧ command_name (Aof.p_cmdLine x) ≠ "select") ps → Forall loadable (with_selects cur ps).
Proof.
  intros Hp. revert cur. induction Hp as [|x ps [H1 H2] _ IH]; intros cur; [constructor|]. cbn [with_selects]. apply Forall_app. split; [|apply IH].
  assert (loadable (Aof.p_cmdLine x)) by done. assert (loadable (Aof.selectCmd (Aof.p_dbIndex x))) by (split; [done|by eexists]).
  destruct (_ =? _); repeat (apply Forall_cons_2; [done|]); apply Forall_nil_2.
Qed.

Lemma restart_rep c fsync ps q : 0 < databases cfg → 0 ≤ SlowLogMaxLen cfg →
  let lines := with_selects 0 ps in
  Forall storable lines → Forall loadable lines → answers cfg c lines spec_load → q = replayed cfg c lines spec_load →
  ∃ s, restart fuel cfg loadRDB c fsync (file_of lines) = Ret s ∧ Forall2 db_is (dbSet s) (sp_dbs q).
Proof.
  intros Hd Hs lines Hst Hl Ha Hq. destruct (start_rep cfg Hd Hs) as (s0 & E0 & Hr0). unfold restart. rewrite E0. cbn [mbind outcome_bind].
  set (s1 := set_persister s0 None). assert (srv_rep s1 spec_load) as Hr1 by (destruct Hr0 as [[] ? ? ? ? ? ?]; by split).
  set (p0 := Aof.mkPersister Aof.NilChan (file_of lines) (ToLower fsync) 0 [] [] [] 0).
  destruct (exec_lines_rep c lines (Aof.set_aofChan p0 Aof.NilChan) s1 spec_load Hr1 Hl Ha) as (p2 & s2 & E2 & Hr2).
  assert (Aof.LoadAof c 0 (p0, s1) = (Ret tt, (Aof.set_aofChan p2 Aof.NilChan, s2))) as El.
  { rewrite (LoadAof_run (H := engine) no_rdb c 0 lines p0 s1); [|done|apply file_no_rdb|done]. unfold go_defer. rewrite E2. done. }
  unfold Aof.NewPersister. fold p0. rewrite (bind_Ret _ _ _ _ _ El). cbn. eexists. split; [done|]. subst q. exact (sr_dbs _ _ Hr2).
Qed.
End load.

Lemma spec_start_tracks `{Env} (cfg : Config) c : AppendOnly cfg = true → 0 < databases cfg → databases cfg ≤ int64_max →
  tracks cfg c (spec_load cfg) (spec_start cfg).
Proof.
  intros Ha Hd Hm. split.
  - split; cbn.
    + apply Forall_replicate. done.
    + intros x. rewrite length_replicate. lia.
    + rewrite length_replicate. lia.
  - exists []. cbn. rewrite Ha. split; [done|]. split; [by split|]. split; constructor.
Qed.

(** [C10] Nothing is lost by a restart: let any clients interleave data commands (GET, STRLEN,
    INCR, DECR, DEL, GETDEL, SET, SETNX, GETSET, APPEND, INCRBY, DECRBY, HSET; on keys of any
    type, with numbers or not), SELECT, FLUSHDB, FLUSHALL and PING on a new server with the
    append-only file on and no password; let the persister write the lines the server hands to it, with any
    fsync setting, and be closed; then a new server that loads the file has, database by
    database, the same values and expiry times. *)
Theorem restart_restores `{Env} (fuel : nat) (cfg : Config) `{Services} (loadRDB : string → GoM Server (option Z))
    (s0 : Server) (cmds : list (nat * CmdLine)) (disk : nat → option nat) (c : nat) (fsync fsync' : string) :
  RequirePass cfg = "" → AppendOnly cfg = true → 0 < databases cfg → databases cfg ≤ int64_max → 0 ≤ SlowLogMaxLen cfg →
  (∀ n, disk n = None) → (∀ s e, HasPrefix s "REDIS" = false → loadRDB s e = (Ret None, e)) →
  NewStandaloneServer cfg = Ret s0 → Forall (λ x, client_line x.2) cmds →
  let ps s := to_payload <$> default [] (persister s) in
  (∀ rs s, server_run (goTable fuel) cfg cmds s0 = (Ret rs, s) → Z.of_nat (length (ps s)) ≤ Aof.aofQueueSize) →
  ∃ rs s1 p s2, server_run (goTable fuel) cfg cmds s0 = (Ret rs, s1) ∧
    (_ ← save_all disk (ps s1); Aof.Close disk) (Aof.mkPersister (Aof.OpenChan []) "" fsync 0 [] [] [] 0) = (Ret tt, p) ∧
    restart fuel cfg loadRDB c fsync' (Aof.aofFile p) = Ret s2 ∧
    Forall2 (λ db2 db1, cd_map (data db2) = cd_map (data db1) ∧ cd_map (ttlMap db2) = cd_map (ttlMap db1)) (dbSet s2) (dbSet s1).
Proof.
  intros Hpass Ha Hd Hm Hs Hdisk Hrdb E Hc ps Hq. destruct (start_rep cfg Hd Hs) as (s1 & E1 & Hr). rewrite E in E1. injection E1 as <-.
  assert (Forall (λ x, plain x.2 = true) cmds) as Hplain.
  { eapply Forall_impl; [exact Hc|]. intros [x line] Hl. cbn [snd] in *. destruct Hl as [line Hl _|v| | |]; [|reflexivity..].
    apply (proj2 (data_faithful line Hl)). }
  destruct (server_run_rep fuel cfg Hpass cmds s0 _ Hr Hplain) as (s1 & Es & Hrs). set (sp := (spec_run cfg cmds (spec_start cfg)).2) in *.
  pose proof (tracks_run cfg Ha c (spec_load cfg) cmds _ (spec_start_tracks cfg c Ha Hd Hm) Hc) as Ht. fold sp in Ht.
  destruct Ht as [Hcalm (L & EL & Hsame & Hans & Hok)].
  assert (ps s1 = to_payload <$> L) as Eps by (unfold ps; by rewrite (sr_log _ _ Hrs), EL).
  specialize (Hq _ _ Es). rewrite Eps in Hq. set (pl := to_payload <$> L) in *.
  destruct (save_and_close disk Hdisk pl (Aof.mkPersister (Aof.OpenChan []) "" fsync 0 [] [] [] 0) eq_refl Hq) as (p & Ep & Hw & _).
  change (Aof.aofFile p = file_of (with_selects 0 pl)) in Hw.
  destruct (restart_rep fuel cfg loadRDB Hpass Hrdb c fsync' pl (replayed cfg c (with_selects 0 pl) (spec_load cfg)) Hd Hs) as (s2 & E2 & Hdbs); [| |exact Hans|reflexivity|].
  { apply with_selects_storable. eapply Forall_impl; [exact Hok|]. intros x (H1 & H2 & _). split; [done|].
    apply storable_select. pose proof (calm_size _ Hcalm). unfold is_int64, int64_min, int64_max in *. lia. }
  { apply with_selects_loadable. eapply Forall_impl; [exact Hok|]. by intros x (_ & _ & ?). }
  exists (spec_run cfg cmds (spec_start cfg)).1, s1, p, s2. split; [done|]. split; [by rewrite Eps|]. split; [by rewrite Hw|].
  rewrite (sd_dbs _ _ _ _ Hsame) in Hdbs. pose proof (sr_dbs _ _ Hrs) as Hdbs1. fold sp in Hdbs1.
  revert Hdbs Hdbs1. generalize (sp_dbs sp) (dbSet s2) (dbSet s1). intros ms l2 l1 F2 F1. revert l1 F1.
  induction F2 as [|db2 m l2 ms [H1 H2] _ IH]; intros l1 F1; inversion F1 as [|db1 ? l1' ? [G1 G2] F1']; subst; [constructor|].
  constructor; [by rewrite H1, H2, G1, G2|by apply IH].
Qed.

(** ** The password *)

Lemma refused_load_line `{Env} (fuel : nat) (cfg : Config) `{Services} loadRDB c line p s :
  RequirePass cfg ≠ "" → Conn.password (PubSub.conn_of (world s) c) ≠ RequirePass cfg →
  line ≠ [] → command_name line ∉ before_auth → (command_name line = "select" → ∃ i, line = Aof.selectCmd i) →
  ∃ p', Aof.load_line (H := server_engine fuel cfg loadRDB) c line (p, s) = (Ret tt, (p', set_ticks s (S (ticks s)))).
Proof.
  intros Hp Hw Hl Hn Hsel. unfold Aof.load_line.
  rewrite (bind_Ret _ _ _ (MakeErrReply "NOAUTH Authentication required") (p, set_ticks s (S (ticks s))));
    [|unfold Aof.on_engine; cbn; by rewrite refused_without_password].
  erewrite bind_Ret by reflexivity. destruct line as [|a0 rest]; [done|]. unfold go_lift. cbn [arg_at lookup list_lookup].
  erewrite bind_Ret by reflexivity. change (ToLower (str a0)) with (command_name (a0 :: rest)).
  destruct (String.eqb_spec (command_name (a0 :: rest)) "select") as [E|E]; [|by eexists].
  destruct (Hsel E) as [i E']. unfold Aof.selectCmd, ToCmdLine in E'. cbn in E'. injection E' as -> ->. erewrite bind_Ret by reflexivity.
  destruct (Atoi _); by eexists.
Qed.

Lemma refused_lines `{Env} (fuel : nat) (cfg : Config) `{Services} loadRDB c lines p s :
  RequirePass cfg ≠ "" → Conn.password (PubSub.conn_of (world s) c) ≠ RequirePass cfg →
  Forall (λ l, l ≠ [] ∧ command_name l ∉ before_auth ∧ (command_name l = "select" → ∃ i, l = Aof.selectCmd i)) lines →
  ∃ p' n, exec_lines (H := server_engine fuel cfg loadRDB) c lines (p, s) = (Ret tt, (p', set_ticks s n)).
Proof.
  intros Hp Hw Hl. revert p s Hw. induction Hl as [|line lines (H1 & H2 & H3) _ IH]; intros p s Hw; [exists p, (ticks s); by destruct s|].
  destruct (refused_load_line fuel cfg loadRDB c line p s Hp Hw H1 H2 H3) as [p1 E1].
  destruct (IH p1 (set_ticks s (S (ticks s))) Hw) as (p2 & n & E2). exists p2, n. unfold exec_lines. cbn [go_for].
  rewrite (bind_Ret _ _ _ _ _ E1). exact E2.
Qed.

(** [C13] A server with a password does not read its own file: the connection that loads the
    file gives no password, so every line but PING and AUTH is refused, and after a restart
    all databases are empty, whatever lines the file has, as long as they are encoded command
    lines without PING and AUTH (which are never logged) whose SELECTs are those the
    persister writes; the file has no RDB preamble. *)
Theorem password_loses_the_file `{Env} (fuel : nat) (cfg : Config) `{Services} (loadRDB : string → GoM Server (option Z))
    (lines : list CmdLine) (c : nat) (fsync : string) :
  RequirePass cfg ≠ "" → 0 < databases cfg → 0 ≤ SlowLogMaxLen cfg →
  (∀ s e, HasPrefix s "REDIS" = false → loadRDB s e = (Ret None, e)) →
  Forall (λ l, storable l ∧ command_name l ∉ before_auth ∧ (command_name l = "select" → ∃ i, l = Aof.selectCmd i)) lines →
  ∃ s, restart fuel cfg loadRDB c fsync (file_of lines) = Ret s ∧
    Forall (λ db, cd_map (data db) = ∅ ∧ cd_map (ttlMap db) = ∅) (dbSet s).
Proof.
  intros Hp Hd Hs Hrdb Hl. destruct (start_rep cfg Hd Hs) as (s0 & E0 & Hr0). unfold restart. rewrite E0. cbn [mbind outcome_bind].
  set (s1 := set_persister s0 None). set (p0 := Aof.mkPersister Aof.NilChan (file_of lines) (ToLower fsync) 0 [] [] [] 0).
  assert (Conn.password (PubSub.conn_of (world s1) c) ≠ RequirePass cfg) as Hw.
  { unfold NewStandaloneServer in E0. destruct (_ <? 0); [done|]. destruct PubSub.MakeHub_spec as (h & Eh & _). rewrite Eh in E0.
    destruct (SlowLog.NewSlowLogger _ _); try done. injection E0 as E0. unfold s1. rewrite <-E0. by apply not_eq_sym. }
  destruct (refused_lines fuel cfg loadRDB c lines (Aof.set_aofChan p0 Aof.NilChan) s1 Hp Hw) as (p2 & n & E2).
  { eapply Forall_impl; [exact Hl|]. by intros l ((? & _) & ? & ?). }
  assert (Aof.LoadAof (H := server_engine fuel cfg loadRDB) c 0 (p0, s1) = (Ret tt, (Aof.set_aofChan p2 Aof.NilChan, set_ticks s1 n))) as El.
  { rewrite (LoadAof_run (H := server_engine fuel cfg loadRDB) Hrdb c 0 lines p0 s1); [|done|apply file_no_rdb|].
    - unfold go_defer. by rewrite E2.
    - eapply Forall_impl; [exact Hl|]. by intros l (? & _). }
  unfold Aof.NewPersister. fold p0. rewrite (bind_Ret _ _ _ _ _ El). cbn. eexists. split; [done|]. cbn.
  pose proof (sr_dbs _ _ Hr0) as Hdbs. cbn in Hdbs. revert Hdbs. generalize (Z.to_nat (databases cfg)) (dbSet s0). intros k l.
  revert l. induction k as [|k IH]; intros l Hf; inversion Hf as [|db ? l' ? [G1 G2] F']; subst; [constructor|]. constructor; [by split|by apply IH].
Qed.

(** ** Examples *)

Definition demo_cmds : list (nat * CmdLine) :=
  [(1%nat, ToCmdLine ["SET"; "k"; "v"]); (2%nat, ToCmdLine ["SELECT"; "1"]); (2%nat, ToCmdLine ["INCR"; "n"]);
   (1%nat, ToCmdLine ["APPEND"; "k"; "w"]); (2%nat, ToCmdLine ["INCR"; "k"])].

Lemma demo_client_lines : Forall (λ x, client_line x.2) demo_cmds.
Proof.
  repeat (apply Forall_cons_2; [cbn [snd]|]); [..|apply Forall_nil_2].
  - apply client_data; [apply data_value; set_solver|by repeat constructor].
  - apply client_select.
  - apply client_data; [apply data_key; set_solver|by repeat constructor].
  - apply client_data; [apply data_value; set_solver|by repeat constructor].
  - apply client_data; [apply data_key; set_solver|by repeat constructor].
Qed.

Lemma demo_log_fits s0 rs s : NewStandaloneServer demo_config = Ret s0 →
  server_run (H := demo_env) (goTable (H := demo_env) 5) demo_config (H0 := idle_services) demo_cmds s0 = (Ret rs, s) →
  Z.of_nat (length (to_payload <$> default [] (persister s))) ≤ Aof.aofQueueSize.
Proof.
  intros E Es. destruct (start_rep demo_config) as (s1 & E1 & Hr); [done..|]. rewrite E in E1. injection E1 as <-.
  destruct (server_run_rep (H := demo_env) 5 demo_config (H0 := idle_services) eq_refl demo_cmds s0 _ Hr) as (s' & Es' & Hrs); [by repeat constructor|].
  rewrite Es in Es'. apply (f_equal snd) in Es'. cbn [snd] in Es'. subst s'.
  rewrite (sr_log _ _ Hrs), length_fmap. clear. vm_compute. discriminate.
Qed.

Lemma restart_restores_witness :
  ∃ s0 rs s1 p s2, server_run (H := demo_env) (goTable (H := demo_env) 5) demo_config (H0 := idle_services) demo_cmds s0 = (Ret rs, s1) ∧
    restart (H := demo_env) 5 demo_config (H0 := idle_services) (λ _ s, (Ret None, s)) 9 "no" (Aof.aofFile p) = Ret s2 ∧
    Forall2 (λ db2 db1, cd_map (data db2) = cd_map (data db1) ∧ cd_map (ttlMap db2) = cd_map (ttlMap db1)) (dbSet s2) (dbSet s1).
Proof.
  destruct (NewStandaloneServer_ok demo_config) as (s0 & E & _); [done..|].
  destruct (restart_restores (H := demo_env) 5 demo_config (H0 := idle_services) (λ _ s, (Ret None, s)) s0 demo_cmds (λ _, None) 9 "everysec" "no"
    eq_refl eq_refl eq_refl ltac:(vm_compute; discriminate) ltac:(vm_compute; discriminate) ltac:(done) ltac:(done) E demo_client_lines (λ rs s, demo_log_fits s0 rs s E))
    as (rs & s1 & p & s2 & H1 & _ & H3 & H4).
  exists s0, rs, s1, p, s2. split; [exact H1|]. split; [exact H3|exact H4].
Defined.

Lemma password_loses_the_file_witness :
  let cfg := mkConfig "secret" true 2 "" 8 0 in
  ∃ s, restart (H := demo_env) 5 cfg (H0 := idle_services) (λ _ s, (Ret None, s)) 9 "no" (file_of [ToCmdLine ["SET"; "k"; "v"]]) = Ret s ∧
    Forall (λ db, cd_map (data db) = ∅ ∧ cd_map (ttlMap db) = ∅) (dbSet s).
Proof.
  apply (password_loses_the_file (H := demo_env) 5 (mkConfig "secret" true 2 "" 8 0) (H0 := idle_services) (λ _ s, (Ret None, s)) [ToCmdLine ["SET"; "k"; "v"]] 9 "no");
    [done|done|done|done|].
  apply Forall_singleton. split; [split_and!; [done|by repeat constructor|split; [by repeat constructor|done]]|].
  split; [apply (bool_decide_eq_true_1 (_ ∉ _)); reflexivity|done].
Defined.
