(* ===== verification/ZCmdLaws.v ===== *)
(** * What the sorted set commands mean

    A sorted set key is described by its map from members to scores; an absent key
    is the empty one.  [zset_session] runs any sequence of sorted set commands on the
    real database, byte for byte, against that map. *)

From Stdlib Require Import ZArith Lia Ascii String.
From Stdlib Require Import Floats.SpecFloat.
From stdpp Require Import base gmap strings numbers list.
From S2P Require Import Prelude GoStd Dict Protocol Border SkipList SkipRep SortedSet SortedFacts ZSetLaws DB Marshal StringCmds HashCmds ZSetCmds Router Exec Laws.

Local Open Scope string_scope.
Local Open Scope list_scope.
Local Open Scope Z_scope.
Local Open Scope go_scope.

#[local] Opaque cmdTable storeTable.

Abbreviation scores := (gmap string float64).

(** The key [k] stands for the map [m]. *)
Definition zset_at (w : View) (k : string) (m : scores) : Prop :=
  match v_store w !! k with
  | None => m = ∅
  | Some (DZSet z) => zset_ok z m
  | Some _ => False
  end.

(** ** Commands and their specification *)

(** Texts of numbers and borders come with what they stand for. *)
Inductive zcmd :=
  | CAdd (pairs : list (string * float64 * string))
  | CIncrBy (text : string) (delta : float64) (member : string)
  | CRem (members : list string)
  | CPopMin (count : Z)
  | CRemRangeByScore (a b : string) (min max : Border)
  | CRemRangeByRank (start stop : Z)
  | CScore (member : string)
  | CCard
  | CRank (desc : bool) (member : string)
  | CRange (desc withScores : bool) (start stop : Z)
  | CCount (a b : string) (min max : Border)
  | CRangeByScore (desc withScores : bool) (a b : string) (min max : Border) (offset limit : Z).

Definition zname (c : zcmd) : string :=
  match c with
  | CAdd _ => "ZADD"
  | CIncrBy _ _ _ => "ZINCRBY"
  | CRem _ => "ZREM"
  | CPopMin _ => "ZPOPMIN"
  | CRemRangeByScore _ _ _ _ => "ZREMRANGEBYSCORE"
  | CRemRangeByRank _ _ => "ZREMRANGEBYRANK"
  | CScore _ => "ZSCORE"
  | CCard => "ZCARD"
  | CRank desc _ => if desc then "ZREVRANK" else "ZRANK"
  | CRange desc _ _ _ => if desc then "ZREVRANGE" else "ZRANGE"
  | CCount _ _ _ _ => "ZCOUNT"
  | CRangeByScore desc _ _ _ _ _ _ _ => if desc then "ZREVRANGEBYSCORE" else "ZRANGEBYSCORE"
  end.

Definition with_scores (withScores : bool) : list string := if withScores then ["WITHSCORES"] else [].

Definition zargs (k : string) (c : zcmd) : list bytes :=
  Some <$> k ::
  match c with
  | CAdd pairs => concat ((λ p : string * float64 * string, [p.1.1; p.2]) <$> pairs)
  | CIncrBy text _ member => [text; member]
  | CRem members => members
  | CPopMin count => [FormatInt count]
  | CRemRangeByScore a b _ _ | CCount a b _ _ => [a; b]
  | CRemRangeByRank start stop => [FormatInt start; FormatInt stop]
  | CScore member | CRank _ member => [member]
  | CCard => []
  | CRange _ withScores start stop => [FormatInt start; FormatInt stop] ++ with_scores withScores
  | CRangeByScore desc withScores a b _ _ offset limit =>
      (if desc then [b; a] else [a; b]) ++ with_scores withScores ++ ["LIMIT"; FormatInt offset; FormatInt limit]
  end.

(** The elements from one index to another, both included, negative ones counted from
    the end. *)
Definition between_ranks (start stop : Z) (l : list Element) : list Element :=
  let n := Z.of_nat (length l) in
  let lo := if start <? 0 then Z.max 0 (n + start) else start in
  let hi := if stop <? 0 then n + stop else stop in
  take (Z.to_nat (hi - lo + 1)) (drop (Z.to_nat lo) l).

Definition add_all (pairs : list (string * float64 * string)) (m : scores) : scores :=
  foldl (λ m p, <[p.2 := p.1.2]> m) m pairs.

Definition remove_all (members : list string) (m : scores) : scores := foldl (λ m k, delete k m) m members.

(** The sum of the score of a member, if it has one, and a number. *)
Definition incremented (m : scores) (member : string) (delta : float64) : float64 :=
  match m !! member with None => delta | Some s => float_add s delta end.

Definition znext (c : zcmd) (m : scores) : scores :=
  match c with
  | CAdd pairs => add_all pairs m
  | CIncrBy _ delta member => <[member := incremented m member delta]> m
  | CRem members => remove_all members m
  | CPopMin count => without (take (Z.to_nat count) (zsorted m)) m
  | CRemRangeByScore _ _ min max => without (between min max (zsorted m)) m
  | CRemRangeByRank start stop => without (between_ranks start stop (zsorted m)) m
  | _ => m
  end.

Section spec.
Context `{Env}.

Definition int_bytes (n : Z) : string := ToBytes (IntReply n).

(** The bytes of the reply. *)
Definition zreply (c : zcmd) (m : scores) : string :=
  let lost := Z.of_nat (size m) - Z.of_nat (size (znext c m)) in
  match c with
  | CAdd _ => int_bytes (- lost)
  | CIncrBy text delta member =>
      ToBytes (BulkReply (Some (if decide (m !! member = None) then text else FormatFloat (incremented m member delta))))
  | CPopMin count => ToBytes (elements_reply true (take (Z.to_nat count) (zsorted m)))
  | CRem _ | CRemRangeByScore _ _ _ _ | CRemRangeByRank _ _ => int_bytes lost
  | CScore member => ToBytes (BulkReply (FormatFloat <$> m !! member))
  | CCard => int_bytes (Z.of_nat (size m))
  | CRank desc member =>
      match list_find (λ e, Member e = member) (listed desc m) with
      | Some (i, _) => int_bytes (Z.of_nat i)
      | None => ToBytes NullBulkReply
      end
  | CRange desc withScores start stop => ToBytes (elements_reply withScores (between_ranks start stop (listed desc m)))
  | CCount _ _ min max => int_bytes (Z.of_nat (length (between min max (zsorted m))))
  | CRangeByScore desc withScores _ _ min max offset limit =>
      ToBytes (elements_reply withScores (window offset limit (between min max (listed desc m))))
  end.

Definition score_text (text : string) (b : Border) : Prop := ParseScoreBorder ParseFloat text = Ret (inr b).

(** When a command is one of the map. *)
Definition zcmd_ok (c : zcmd) (m : scores) : Prop :=
  match c with
  | CAdd pairs => pairs ≠ [] ∧ Forall (λ p, ParseFloat p.1.1 = Some p.1.2 ∧ proper p.1.2) pairs
  | CIncrBy text delta member => ParseFloat text = Some delta ∧ proper delta ∧ proper (incremented m member delta)
  | CRem members => members ≠ []
  | CPopMin count => 0 < count ∧ is_int64 count
  | CRemRangeByScore a b min max => score_text a min ∧ score_text b max ∧ m ≠ ∅
  | CRemRangeByRank start stop => is_int64 start ∧ is_int64 stop
  | CScore _ | CCard => True
  | CRank _ member => member ≠ ""
  | CRange _ _ start stop => is_int64 start ∧ is_int64 stop ∧ m ≠ ∅ ∧ Z.of_nat (size m) ≤ 2 ^ 32
  | CCount a b min max => score_text a min ∧ score_text b max ∧ m ≠ ∅
  | CRangeByScore desc _ a b min max offset limit =>
      score_text a min ∧ score_text b max ∧ fitting min max = true ∧ 0 ≤ offset ∧ is_int64 offset ∧ is_int64 limit ∧
      (offset < Z.of_nat (length (between min max (listed desc m))) ∨ between min max (listed desc m) = [])
  end.

(** ** Sessions *)

Definition wire (o : outcome Reply) : option string := match o with Ret r => Some (ToBytes r) | _ => None end.

Fixpoint zsession (k : string) (cmds : list zcmd) (db : DB) : list (option string) * DB :=
  match cmds with
  | [] => ([], db)
  | c :: cmds' =>
      let r := exec (zname c) (zargs k c) db in
      let rest := zsession k cmds' r.2 in
      (wire r.1 :: rest.1, rest.2)
  end.

Fixpoint zreplies (cmds : list zcmd) (m : scores) : list string :=
  match cmds with [] => [] | c :: cmds' => zreply c m :: zreplies cmds' (znext c m) end.

Fixpoint zcmds_ok (cmds : list zcmd) (m : scores) : Prop :=
  match cmds with [] => True | c :: cmds' => zcmd_ok c m ∧ zcmds_ok cmds' (znext c m) end.

Definition zfinal (cmds : list zcmd) (m : scores) : scores := foldl (λ m c, znext c m) m cmds.
End spec.

(** ** Running the handlers *)

(** What a command on [k] leaves. *)
Definition zleaves (k : string) (m : scores) (w w' : View) : Prop :=
  zset_at w' k m ∧ v_ttl w' = v_ttl w ∧ ∀ k', k' ≠ k → v_store w' !! k' = v_store w !! k'.

Lemma zleaves_refl k m w : zset_at w k m → zleaves k m w w.
Proof. by intros. Qed.

Section runs.
Context `{Env}.
Implicit Types (m : scores) (w : View).

Lemma getAsSortedSet_no_ttl k w : v_ttl w !! k = None →
  getAsSortedSet k w = (Ret (match v_store w !! k with
                             | None => inr None
                             | Some (DZSet z) => inr (Some z)
                             | Some _ => inl WrongTypeErrReply
                             end), w).
Proof.
  intros Ht. unfold getAsSortedSet, mbind, gom_bind. rewrite (GetEntity_no_ttl _ _ Ht).
  by destruct (v_store w !! k) as [[]|].
Qed.

(** A handler that needs the set: the reply for a missing key, or its own run. *)
Lemma with_zset_run k m missing f w : v_ttl w !! k = None → zset_at w k m →
  (m = ∅ ∧ with_zset k missing f w = (Ret missing, w)) ∨
  ∃ z, zset_ok z m ∧ v_store w !! k = Some (DZSet z) ∧ with_zset k missing f w = f z w.
Proof.
  intros Ht Hz. unfold with_zset, early. erewrite bind_Ret by (by apply getAsSortedSet_no_ttl).
  unfold zset_at in Hz. destruct (v_store w !! k) as [[| | | |z]|]; try done; [right; by exists z|by left].
Qed.

Lemma getOrInitSortedSet_run k m w : v_ttl w !! k = None → zset_at w k m →
  ∃ z w', getOrInitSortedSet k w = (Ret (inr z), w') ∧ zset_ok z m ∧ v_store w' !! k = Some (DZSet z) ∧ zleaves k m w w'.
Proof.
  intros Ht Hz. unfold getOrInitSortedSet, early_err. erewrite bind_Ret by (by apply getAsSortedSet_no_ttl).
  pose proof Hz as Hz'. unfold zset_at in Hz'. destruct (v_store w !! k) as [[| | | |z]|] eqn:E; try done.
  - exists z, w. by split_and!.
  - subst m. eexists _, (mkView _ _ _ _). split; [done|]. cbn [v_store]. rewrite lookup_insert_eq.
    split_and!; [apply Make_ok|done|]. split_and!; [unfold zset_at; cbn; rewrite lookup_insert_eq; apply Make_ok|done|].
    intros k' Hk. cbn. by rewrite lookup_insert_ne.
Qed.

(** Writing a set back. *)
Lemma mutate_zset k z z' m w : v_store w !! k = Some (DZSet z) → zset_ok z' m →
  ∃ w', mutate k (DZSet z') w = (Ret tt, w') ∧ v_store w' !! k = Some (DZSet z') ∧ zleaves k m w w'.
Proof.
  intros Hk Hz. eexists. split; [done|]. cbn. rewrite Hk. cbn. rewrite lookup_insert_eq.
  split; [done|]. split_and!; [unfold zset_at; cbn; by rewrite lookup_insert_eq|done|]. intros k' Hne. cbn. by rewrite lookup_insert_ne.
Qed.

Lemma zleaves_trans k m1 m2 w1 w2 w3 : zleaves k m1 w1 w2 → zleaves k m2 w2 w3 → zleaves k m2 w1 w3.
Proof.
  intros (_ & H2 & H3) (H4 & H5 & H6). split_and!; [done|by rewrite H5|]. intros k' Hk. by rewrite H6, H3.
Qed.

Lemma zleaves_ttl k m w w' : zleaves k m w w' → v_ttl w !! k = None → v_ttl w' !! k = None.
Proof. intros (_ & -> & _). done. Qed.

(** Lines of the log leave the keys as they are. *)
Lemma addAof_zset k line m w : zset_at w k m → ∃ w', addAof line w = (Ret tt, w') ∧ zleaves k m w w'.
Proof. intros Hz. by eexists. Qed.

Lemma log_removed_zset k n nm args m w : zset_at w k m → ∃ w', log_removed n nm args w = (Ret tt, w') ∧ zleaves k m w w'.
Proof. intros Hz. unfold log_removed. destruct (n >? 0); [by apply addAof_zset|by exists w]. Qed.

Lemma zadd_run k z m member score w : v_store w !! k = Some (DZSet z) → zset_ok z m → proper score →
  ∃ z' w', zadd k z member score w = (Ret (z', bool_decide (m !! member = None)), w') ∧
    zset_ok z' (<[member := score]> m) ∧ v_store w' !! k = Some (DZSet z') ∧ zleaves k (<[member := score]> m) w w'.
Proof.
  intros Hk Hz Hs. unfold zadd. erewrite bind_Ret by reflexivity.
  destruct (Add_ok z m member score (rand_Uint64 (v_draws w)) Hz Hs) as (z' & E & Hz'). rewrite E.
  erewrite bind_Ret by reflexivity. cbn [fst snd].
  destruct (mutate_zset k z z' (<[member := score]> m) (mkView (v_store w) (v_ttl w) (v_aof w) (S (v_draws w))) Hk Hz')
    as (w' & E' & Hk' & Hl). rewrite (bind_Ret _ _ _ _ _ E'). by exists z', w'.
Qed.

Lemma insert_size m member score :
  Z.of_nat (size (<[member := score]> m)) = Z.of_nat (size m) + (if bool_decide (m !! member = None) then 1 else 0).
Proof.
  case_bool_decide as E; [rewrite map_size_insert_None by done; lia|].
  rewrite map_size_insert_Some; [lia|]. destruct (m !! member); [by eexists|done].
Qed.

Lemma zadd_loop_run k pairs z m i w : v_store w !! k = Some (DZSet z) → zset_ok z m → Forall (λ p, proper p.1.2) pairs →
  ∃ w', zadd_loop k ((λ p : string * float64 * string, mkElement p.2 p.1.2) <$> pairs) z i w =
    (Ret (i + (Z.of_nat (size (add_all pairs m)) - Z.of_nat (size m))), w') ∧ zleaves k (add_all pairs m) w w'.
Proof.
  revert z m i w. induction pairs as [|p pairs IH]; intros z m i w Hk Hz Hp.
  { exists w. simpl. split; [by rewrite Z.sub_diag, Z.add_0_r|]. apply zleaves_refl. unfold zset_at. by rewrite Hk. }
  apply Forall_cons in Hp as [Hp0 Hp]. rewrite fmap_cons. cbn [zadd_loop Member Score].
  destruct (zadd_run k z m p.2 p.1.2 w Hk Hz Hp0) as (z' & w1 & E & Hz' & Hk' & Hl). rewrite (bind_Ret _ _ _ _ _ E). cbn [fst snd].
  destruct (IH z' _ (if bool_decide (m !! p.2 = None) then i + 1 else i) w1 Hk' Hz' Hp) as (w2 & E2 & Hl2).
  exists w2. rewrite E2. split; [|by eapply zleaves_trans]. do 2 f_equal. unfold add_all. simpl. fold (add_all pairs (<[p.2 := p.1.2]> m)).
  rewrite insert_size. case_bool_decide; lia.
Qed.

Lemma zrem_loop_run k ms z m i w : v_store w !! k = Some (DZSet z) → zset_ok z m →
  ∃ w', zrem_loop k ms z i w = (Ret (i + (Z.of_nat (size m) - Z.of_nat (size (remove_all ms m)))), w') ∧
    zleaves k (remove_all ms m) w w'.
Proof.
  revert z m i w. induction ms as [|f ms IH]; intros z m i w Hk Hz.
  { exists w. simpl. split; [by rewrite Z.sub_diag, Z.add_0_r|]. apply zleaves_refl. unfold zset_at. by rewrite Hk. }
  cbn [zrem_loop]. destruct (Remove_ok z m f Hz) as (z' & E & Hz'). rewrite E. erewrite bind_Ret by reflexivity. cbn [fst snd].
  destruct (mutate_zset k z z' (delete f m) w Hk Hz') as (w1 & E' & Hk' & Hl). rewrite (bind_Ret _ _ _ _ _ E').
  destruct (IH z' _ (if bool_decide (is_Some (m !! f)) then i + 1 else i) w1 Hk' Hz') as (w2 & E2 & Hl2).
  exists w2. rewrite E2. split; [|by eapply zleaves_trans]. do 2 f_equal. unfold remove_all. simpl. fold (remove_all ms (delete f m)).
  assert (Z.of_nat (size (delete f m)) = Z.of_nat (size m) - if bool_decide (is_Some (m !! f)) then 1 else 0) as Hsz.
  { case_bool_decide as Ef.
    - destruct Ef as [s Ef]. rewrite map_size_delete, Ef. assert (size m ≠ 0%nat); [|lia].
      intros E0. apply map_size_empty_inv in E0. by rewrite E0, lookup_empty in Ef.
    - rewrite delete_id; [lia|]. destruct (m !! f) eqn:E0; [by destruct Ef; eexists|done]. }
  case_bool_decide; lia.
Qed.

(** The command [c] on the view [w], by its handler [f]. *)
Definition runs_as (f : list bytes → GoM View Reply) (k : string) (c : zcmd) m w : Prop :=
  ∃ r w', f (zargs k c) w = (Ret r, w') ∧ ToBytes r = zreply c m ∧ zleaves k (znext c m) w w'.

Lemma parse_elements_pairs (pairs : list (string * float64 * string)) :
  Forall (λ p, ParseFloat p.1.1 = Some p.1.2 ∧ proper p.1.2) pairs →
  parse_elements (Some <$> concat ((λ p : string * float64 * string, [p.1.1; p.2]) <$> pairs)) =
  inr ((λ p : string * float64 * string, mkElement p.2 p.1.2) <$> pairs).
Proof.
  induction 1 as [|p pairs [Hp _] _ IH]; [done|]. rewrite fmap_cons. cbn [concat app]. rewrite !fmap_cons.
  cbn [parse_elements]. change (str (Some p.1.1)) with p.1.1. by rewrite Hp, IH.
Qed.

Lemma pairs_length (pairs : list (string * float64 * string)) :
  length (concat ((λ p : string * float64 * string, [p.1.1; p.2]) <$> pairs)) = (2 * length pairs)%nat.
Proof. induction pairs as [|p pairs IH]; [done|]. rewrite fmap_cons. cbn [concat app length]. rewrite IH. lia. Qed.

Lemma run_add k pairs m w : v_ttl w !! k = None → zset_at w k m → zcmd_ok (CAdd pairs) m →
  runs_as execZAdd k (CAdd pairs) m w.
Proof.
  intros Ht Hz [_ Hp]. unfold runs_as, execZAdd, zargs. set (l := concat _).
  assert (Z.of_nat (length (Some <$> k :: l)) mod 2 =? 1 = true) as ->.
  { rewrite length_fmap. simpl. unfold l. rewrite pairs_length. apply Z.eqb_eq.
    replace (Z.of_nat (S (2 * length pairs))) with (1 + Z.of_nat (length pairs) * 2) by lia. by rewrite Z.mod_add. }
  cbn [negb]. rewrite fmap_cons. erewrite bind_Ret by reflexivity. cbv zeta. change (str (Some k)) with k.
  change (drop 1 (Some k :: (Some <$> l))) with (Some <$> l). unfold l. rewrite parse_elements_pairs by done.
  destruct (getOrInitSortedSet_run k m w Ht Hz) as (z & w1 & E1 & Hok & Hk & Hl1). erewrite early_inr by exact E1.
  destruct (zadd_loop_run k pairs z m 0 w1 Hk Hok) as (w2 & E2 & Hl2); [by eapply Forall_impl; [exact Hp|]; intros ? []|].
  rewrite (bind_Ret _ _ _ _ _ E2). destruct (addAof_zset k (ToCmdLine3 "zadd" (Some k :: (Some <$> l))) _ w2 (proj1 Hl2)) as (w3 & E3 & Hl3).
  unfold l in E3. rewrite (bind_Ret _ _ _ _ _ E3). eexists _, w3. split; [reflexivity|]. split.
  - unfold zreply, int_bytes. cbn [znext]. do 2 f_equal. lia.
  - eapply zleaves_trans; [exact Hl1|]. by eapply zleaves_trans.
Qed.

Lemma run_incrby k text delta member m w : v_ttl w !! k = None → zset_at w k m → zcmd_ok (CIncrBy text delta member) m →
  runs_as execZIncrBy k (CIncrBy text delta member) m w.
Proof.
  intros Ht Hz (Hp & Hd & Hs). unfold runs_as, execZIncrBy, zargs. rewrite !fmap_cons. do 3 (erewrite bind_Ret by reflexivity).
  cbv zeta. change (str (Some text)) with text. change (str (Some k)) with k. change (str (Some member)) with member. rewrite Hp.
  destruct (getOrInitSortedSet_run k m w Ht Hz) as (z & w1 & E1 & Hok & Hk & Hl1). erewrite early_inr by exact E1.
  unfold ZSet.Get. rewrite (ok_dict _ _ Hok). unfold zreply, incremented in *. cbn [znext]. unfold incremented.
  destruct (m !! member) as [s|] eqn:Es; cbn [fmap option_fmap option_map].
  - cbn [Score]. destruct (zadd_run k z m member (float_add s delta) w1 Hk Hok Hs) as (z' & w2 & E2 & _ & _ & Hl2).
    rewrite (bind_Ret _ _ _ _ _ E2). edestruct (addAof_zset k) as (w3 & E3 & Hl3); [exact (proj1 Hl2)|].
    rewrite (bind_Ret _ _ _ _ _ E3). eexists _, w3. split; [reflexivity|]. rewrite decide_False by done. split; [done|].
    eapply zleaves_trans; [exact Hl1|]. by eapply zleaves_trans.
  - destruct (zadd_run k z m member delta w1 Hk Hok Hd) as (z' & w2 & E2 & _ & _ & Hl2).
    rewrite (bind_Ret _ _ _ _ _ E2). edestruct (addAof_zset k) as (w3 & E3 & Hl3); [exact (proj1 Hl2)|].
    rewrite (bind_Ret _ _ _ _ _ E3). eexists _, w3. split; [reflexivity|]. rewrite decide_True by done. split; [done|].
    eapply zleaves_trans; [exact Hl1|]. by eapply zleaves_trans.
Qed.

Lemma remove_all_empty ms : remove_all ms ∅ = ∅.
Proof. unfold remove_all. induction ms as [|x ms IH]; [done|]. simpl. by rewrite delete_empty. Qed.

Lemma run_rem k ms m w : v_ttl w !! k = None → zset_at w k m → runs_as execZRem k (CRem ms) m w.
Proof.
  intros Ht Hz. unfold runs_as, execZRem, zargs. rewrite fmap_cons. erewrite bind_Ret by reflexivity.
  change (str (Some k)) with k. change (drop 1 (Some k :: (Some <$> ms))) with (Some <$> ms).
  rewrite <-list_fmap_compose. change (str ∘ Some) with (@id string). rewrite list_fmap_id.
  unfold zreply, int_bytes. cbn [znext].
  destruct (with_zset_run k m (IntReply 0) (λ z, deleted ← zrem_loop k ms z 0;
    _ ← log_removed deleted "zrem" (Some k :: (Some <$> ms)); mret (IntReply deleted)) w Ht Hz) as [[-> ->]|(z & Hok & Hk & ->)].
  - eexists _, w. split; [reflexivity|]. rewrite remove_all_empty. split; [by rewrite Z.sub_diag|done].
  - destruct (zrem_loop_run k ms z m 0 w Hk Hok) as (w1 & E1 & Hl1). rewrite (bind_Ret _ _ _ _ _ E1).
    edestruct (log_removed_zset k) as (w2 & E2 & Hl2); [exact (proj1 Hl1)|]. rewrite (bind_Ret _ _ _ _ _ E2).
    eexists _, w2. split; [reflexivity|]. split; [by rewrite Z.add_0_l|by eapply zleaves_trans].
Qed.

Lemma rank_bounds_spec start stop (l : list Element) :
  let n := Z.of_nat (length l) in
  match rank_bounds n start stop with
  | None => between_ranks start stop l = []
  | Some (b, e) => 0 ≤ b ≤ n ∧ (0 < n → b < n) ∧ b ≤ e ≤ n ∧
      take (Z.to_nat (e - b)) (drop (Z.to_nat b) l) = between_ranks start stop l
  end.
Proof.
  intros n. unfold rank_bounds, between_ranks. fold n.
  assert (∀ b e s f, 0 ≤ b → b = s → (e = f + 1 ∨ (n ≤ e ∧ n ≤ f + 1) ∨ (e ≤ b ∧ f + 1 ≤ b)) →
    take (Z.to_nat (e - b)) (drop (Z.to_nat b) l) = take (Z.to_nat (f - s + 1)) (drop (Z.to_nat s) l)) as Hsl.
  { intros b e s f Hb -> Hc. destruct Hc as [->|[(? & ?)|(? & ?)]]; [by rewrite Z.add_sub_swap|..].
    - rewrite !take_ge; [done|rewrite length_drop; lia..].
    - replace (Z.to_nat (e - s)) with 0%nat by lia. by replace (Z.to_nat (f - s + 1)) with 0%nat by lia. }
  replace (-1 * n) with (- n) by lia.
  destruct (start <? - n) eqn:E1, (start <? 0) eqn:E2, (start >=? n) eqn:E3; unbool; try lia;
    try (rewrite drop_ge by lia; by rewrite take_nil).
  all: destruct (stop <? - n) eqn:E4, (stop <? 0) eqn:E5, (stop <? n) eqn:E6; unbool; try lia.
  all: match goal with |- context [if ?b then _ else _] => destruct b eqn:E7 end; unbool; try lia.
  all: split_and!; try lia; apply Hsl; lia.
Qed.

Lemma change_set {A} k z (x : SortedSet * A) m nm args n (r : Reply) w :
  v_store w !! k = Some (DZSet z) → zset_ok x.1 m →
  ∃ w', (_ ← mutate k (DZSet x.1); _ ← log_removed n nm args; mret r) w = (Ret r, w') ∧ zleaves k m w w'.
Proof.
  intros Hk Hz. destruct (mutate_zset k z x.1 m w Hk Hz) as (w1 & E1 & _ & Hl1). rewrite (bind_Ret _ _ _ _ _ E1).
  destruct (log_removed_zset k n nm args m w1 (proj1 Hl1)) as (w2 & E2 & Hl2). rewrite (bind_Ret _ _ _ _ _ E2).
  exists w2. split; [done|by eapply zleaves_trans].
Qed.

Lemma run_popmin k count m w : v_ttl w !! k = None → zset_at w k m → zcmd_ok (CPopMin count) m →
  runs_as execZPopMin k (CPopMin count) m w.
Proof.
  intros Ht Hz [Hc Hi]. unfold runs_as, execZPopMin, zargs. rewrite !fmap_cons. erewrite bind_Ret by reflexivity.
  cbn [pop_count]. change (str (Some k)) with k. change (str (Some (FormatInt count))) with (FormatInt count).
  unfold Atoi. rewrite ParseInt_FormatInt by done. unfold zreply. cbn [znext].
  edestruct (with_zset_run k m EmptyMultiBulkReply) as [[-> E]|(z & Hok & Hk & E)]; [exact Ht|exact Hz|rewrite E..].
  - eexists _, w. split; [reflexivity|]. change (zsorted ∅) with (@nil Element). rewrite take_nil. split; [done|by apply zleaves_refl].
  - destruct (PopMin_ok z m count Hok Hc) as (z' & E' & Hz'). rewrite E'. erewrite bind_Ret by reflexivity.
    edestruct (change_set k z (z', take (Z.to_nat count) (zsorted m))) as (w' & E2 & Hl); [exact Hk|exact Hz'|]. rewrite E2.
    eexists _, w'. by split_and!.
Qed.

Lemma score_text_score a b : score_text a b → ∃ s, b = ScoreB s.
Proof.
  unfold score_text, ParseScoreBorder. intros E. repeat case_match; simplify_eq; eauto.
Qed.

Lemma score_range_run a b min max w : score_text a min → score_text b max →
  score_range (Some a) (Some b) w = (Ret (inr (min, max)), w) ∧ ∀ m, borders_ok min max m.
Proof.
  intros Ha Hb. split; [|by intros m; destruct (score_text_score _ _ Ha) as [? ->], (score_text_score _ _ Hb) as [? ->]].
  unfold score_range, border, early_err. change (str (Some a)) with a. change (str (Some b)) with b. rewrite Ha, Hb. reflexivity.
Qed.

Lemma run_remrangebyscore k a b min max m w : v_ttl w !! k = None → zset_at w k m → zcmd_ok (CRemRangeByScore a b min max) m →
  runs_as execZRemRangeByScore k (CRemRangeByScore a b min max) m w.
Proof.
  intros Ht Hz (Ha & Hb & Hne). unfold runs_as, execZRemRangeByScore, zargs. rewrite !fmap_cons. cbn [length Nat.eqb negb fmap list_fmap].
  do 3 (erewrite bind_Ret by reflexivity). destruct (score_range_run a b min max w Ha Hb) as [Er Hbo].
  erewrite early_inr by exact Er. change (str (Some k)) with k. cbn [fst snd]. unfold zreply, int_bytes. cbn [znext].
  edestruct (with_zset_run k m EmptyMultiBulkReply) as [[-> E]|(z & Hok & Hk & E)]; [exact Ht|exact Hz|done|rewrite E].
  destruct (RemoveRange_ok z m min max Hok (Hbo m)) as (z' & E' & Hz'). rewrite E'. erewrite bind_Ret by reflexivity.
  edestruct (change_set k z (z', Z.of_nat (length (between min max (zsorted m))))) as (w' & E2 & Hl); [exact Hk|exact Hz'|]. rewrite E2.
  eexists _, w'. split_and!; [done| |done]. cbn [snd]. do 2 f_equal.
  destruct (border_falls _ _ (ok_proper _ _ Hok) (proj1 (Hbo m))) as [_ Hmin], (border_falls _ _ (ok_proper _ _ Hok) (proj2 (Hbo m))) as [Hmax _].
  destruct (between_up _ _ _ Hmax Hmin) as (x & y & El & _). apply (size_without m x _ y); [apply Hok|exact El].
Qed.

Lemma run_remrangebyrank k start stop m w : v_ttl w !! k = None → zset_at w k m → zcmd_ok (CRemRangeByRank start stop) m →
  runs_as execZRemRangeByRank k (CRemRangeByRank start stop) m w.
Proof.
  intros Ht Hz (Ha & Hb). unfold runs_as, execZRemRangeByRank, zargs. rewrite !fmap_cons.
  do 3 (erewrite bind_Ret by reflexivity). change (str (Some k)) with k.
  change (str (Some (FormatInt start))) with (FormatInt start). change (str (Some (FormatInt stop))) with (FormatInt stop).
  rewrite !ParseInt_FormatInt by done. unfold zreply, int_bytes. cbn [znext].
  assert (Z.of_nat (length (zsorted m)) = Z.of_nat (size m)) as Hlen by (by rewrite zsorted_length).
  pose proof (rank_bounds_spec start stop (zsorted m)) as Hb'. cbv zeta in Hb'. rewrite Hlen in Hb'.
  edestruct (with_zset_run k m (IntReply 0)) as [[-> E]|(z & Hok & Hk & E)]; [exact Ht|exact Hz|rewrite E..].
  - eexists _, w. split; [reflexivity|]. unfold between_ranks. change (zsorted ∅) with (@nil Element). rewrite drop_nil, take_nil.
    split; [done|by apply zleaves_refl].
  - rewrite (Len_ok _ _ Hok). destruct (rank_bounds _ _ _) as [[b e]|].
    + destruct Hb' as (H1 & H2 & H3 & H4). destruct (RemoveByRank_ok z m b e Hok) as (z' & E' & Hz'); [lia|].
      rewrite H4 in E', Hz'. rewrite E'. erewrite bind_Ret by reflexivity.
      edestruct (change_set k z (z', Z.of_nat (length (between_ranks start stop (zsorted m))))) as (w' & E2 & Hl); [exact Hk|exact Hz'|].
      rewrite E2. eexists _, w'. split_and!; [done| |done]. cbn [snd]. do 2 f_equal. rewrite <-H4.
      apply (size_without m (take (Z.to_nat b) (zsorted m)) _ (drop (Z.to_nat (e - b)) (drop (Z.to_nat b) (zsorted m)))); [apply Hok|].
      by rewrite !take_drop.
    + eexists _, w. split; [reflexivity|]. rewrite Hb'. split; [by rewrite Z.sub_diag|by apply zleaves_refl].
Qed.

Lemma run_score k member m w : v_ttl w !! k = None → zset_at w k m → runs_as execZScore k (CScore member) m w.
Proof.
  intros Ht Hz. unfold runs_as, execZScore, zargs. rewrite !fmap_cons. do 2 (erewrite bind_Ret by reflexivity).
  change (str (Some k)) with k. change (str (Some member)) with member. unfold zreply. cbn [znext].
  edestruct (with_zset_run k m NullBulkReply) as [[-> E]|(z & Hok & Hk & E)]; [exact Ht|exact Hz|rewrite E..].
  - eexists _, w. split; [reflexivity|]. rewrite lookup_empty. by split.
  - eexists _, w. split; [reflexivity|]. unfold ZSet.Get. rewrite (ok_dict _ _ Hok). split; [|by apply zleaves_refl].
    by destruct (m !! member).
Qed.

Lemma run_card k m w : v_ttl w !! k = None → zset_at w k m → runs_as execZCard k CCard m w.
Proof.
  intros Ht Hz. unfold runs_as, execZCard, zargs. rewrite !fmap_cons. erewrite bind_Ret by reflexivity.
  change (str (Some k)) with k. unfold zreply, int_bytes. cbn [znext].
  edestruct (with_zset_run k m (IntReply 0)) as [[-> E]|(z & Hok & Hk & E)]; [exact Ht|exact Hz|rewrite E..].
  - eexists _, w. split; [reflexivity|]. by split.
  - eexists _, w. split; [reflexivity|]. rewrite (Len_ok _ _ Hok). by split.
Qed.

Lemma run_rank k (desc : bool) member m w : v_ttl w !! k = None → zset_at w k m → zcmd_ok (CRank desc member) m →
  runs_as (λ args, rank_reply args desc) k (CRank desc member) m w.
Proof.
  intros Ht Hz Hne. unfold runs_as, rank_reply, zargs. rewrite !fmap_cons. do 2 (erewrite bind_Ret by reflexivity).
  change (str (Some k)) with k. change (str (Some member)) with member. unfold zreply. cbn [znext].
  edestruct (with_zset_run k m NullBulkReply) as [[-> E]|(z & Hok & Hk & E)]; [exact Ht|exact Hz|rewrite E..].
  - eexists _, w. split; [reflexivity|]. split; [|by apply zleaves_refl]. by destruct desc.
  - rewrite (rank_refines z m member desc Hok Hne). erewrite bind_Ret by reflexivity. eexists _, w. split; [reflexivity|].
    split; [|by apply zleaves_refl]. unfold place. destruct (list_find _ _) as [[i e]|]; [|done].
    destruct (Z.of_nat i <? 0) eqn:E0; [apply Z.ltb_lt in E0; lia|done].
Qed.

Lemma run_range k (desc ws : bool) name t start stop m w : v_ttl w !! k = None → zset_at w k m → t "WITHSCORES" = true →
  zcmd_ok (CRange desc ws start stop) m → runs_as (zrange name t desc) k (CRange desc ws start stop) m w.
Proof.
  intros Ht Hz Hws (Ha & Hb & Hne & Hsz). unfold runs_as, zrange, zargs, zreply. cbn [znext].
  assert (∃ r, range0 k start stop ws desc w = (Ret r, w) ∧
    ToBytes r = ToBytes (elements_reply ws (between_ranks start stop (listed desc m)))) as (r & Er & Hr).
  { unfold range0. edestruct (with_zset_run k m EmptyMultiBulkReply) as [[-> E]|(z & Hok & Hk & E)]; [exact Ht|exact Hz|done|rewrite E].
    rewrite (Len_ok _ _ Hok). assert (length (listed desc m) = size m) as Hlen.
    { unfold listed. destruct desc; rewrite ?length_reverse; apply zsorted_length. }
    assert (size m ≠ 0%nat) as Hpos by (intros E0; apply Hne; by apply map_size_empty_inv).
    pose proof (rank_bounds_spec start stop (listed desc m)) as Hb'. cbv zeta in Hb'. rewrite Hlen in Hb'.
    destruct (rank_bounds _ _ _) as [[b e]|].
    - destruct Hb' as (H1 & H2 & H3 & H4). rewrite (RangeByRank_ok z m b e desc Hok), H4 by lia. by eexists.
    - eexists. split; [reflexivity|]. rewrite Hb'. by destruct ws. }
  exists r, w. split; [|by split]. rewrite <-Er. unfold arg.
  destruct ws; cbn [app with_scores length fmap list_fmap Nat.eqb negb orb andb lookup list_lookup default from_option id str];
    rewrite ?Hws; cbn [negb]; do 3 (erewrite bind_Ret by reflexivity);
    change (str (Some (FormatInt start))) with (FormatInt start); change (str (Some (FormatInt stop))) with (FormatInt stop);
    by rewrite !ParseInt_FormatInt.
Qed.

Lemma run_count k a b min max m w : v_ttl w !! k = None → zset_at w k m → zcmd_ok (CCount a b min max) m →
  runs_as execZCount k (CCount a b min max) m w.
Proof.
  intros Ht Hz (Ha & Hb & Hne). unfold runs_as, execZCount, zargs. rewrite !fmap_cons.
  do 3 (erewrite bind_Ret by reflexivity). destruct (score_range_run a b min max w Ha Hb) as [Er Hbo].
  erewrite early_inr by exact Er. change (str (Some k)) with k. cbn [fst snd]. unfold zreply, int_bytes. cbn [znext].
  edestruct (with_zset_run k m (IntReply 0)) as [[-> E]|(z & Hok & Hk & E)]; [exact Ht|exact Hz|done|rewrite E].
  rewrite (RangeCount_ok z m min max Hok (Hbo m) Hne). eexists _, w. split; [reflexivity|]. by split.
Qed.

Lemma score_options_run ws offset limit : is_int64 offset → is_int64 limit →
  score_options (Some <$> with_scores ws ++ ["LIMIT"; FormatInt offset; FormatInt limit]) false 0 (-1) = inr (ws, offset, limit).
Proof.
  intros Ho Hl. destruct ws; simpl; by rewrite !ParseInt_FormatInt.
Qed.

Lemma run_rangebyscore k (desc ws : bool) a b min max offset limit m w : v_ttl w !! k = None → zset_at w k m →
  zcmd_ok (CRangeByScore desc ws a b min max offset limit) m →
  runs_as (if desc then zrangebyscore 2 1 true else zrangebyscore 1 2 false) k (CRangeByScore desc ws a b min max offset limit) m w.
Proof.
  intros Ht Hz (Ha & Hb & Hf & Ho & Hoi & Hli & Hlen). unfold runs_as, zreply. cbn [znext].
  destruct (score_range_run a b min max w Ha Hb) as [Er Hbo].
  assert (∃ r, rangeByScore0 k min max offset limit ws desc w = (Ret r, w) ∧
    ToBytes r = ToBytes (elements_reply ws (window offset limit (between min max (listed desc m))))) as (r & Erun & Hrep).
  { unfold rangeByScore0. edestruct (with_zset_run k m EmptyMultiBulkReply) as [[-> E]|(z & Hok & Hk & E)]; [exact Ht|exact Hz|rewrite E..].
    - eexists. split; [reflexivity|]. replace (between min max (listed desc ∅)) with (@nil Element) by (by destruct desc).
      unfold window. rewrite drop_nil, take_nil. by destruct (limit <? 0), ws.
    - rewrite (Range_ok z m) by (done || apply Hbo). by eexists. }
  exists r, w. split; [|by split]. rewrite <-Erun. pose proof (score_options_run ws offset limit Hoi Hli) as Eo.
  destruct desc; unfold zrangebyscore, zargs; rewrite !fmap_cons;
    cbn [app fmap list_fmap length Nat.ltb Nat.leb]; do 3 (erewrite bind_Ret by reflexivity);
    erewrite early_inr by exact Er; change (str (Some k)) with k; cbn [drop fst snd];
    match goal with |- context [score_options ?l _ _ _] =>
      change l with (Some <$> with_scores ws ++ ["LIMIT"; FormatInt offset; FormatInt limit]) end; by rewrite Eo.
Qed.
End runs.

Section session.
Context `{Env}.

(** One command of a session. *)
Lemma zcmd_step k c m (f : list bytes → GoM View Reply) e db :
  storeTable !! ToLower (zname c) = Some e → executor e = Some f → specified (ToLower (zname c)) = true →
  validateArity (arity e) (Some (zname c) :: zargs k c) = true →
  (∃ keys, call_prepare e (Some (zname c) :: zargs k c) = Ret keys) → ready db →
  runs_as f k c m (view db) →
  let r := exec (zname c) (zargs k c) db in
  ready r.2 ∧ wire r.1 = Some (zreply c m) ∧ zleaves k (znext c m) (view db) (view r.2).
Proof.
  intros He Hf Hs Ha Hp Hr (rep & w' & E & Hb & Hl) r.
  destruct (exec_handler (zname c) (zargs k c) db e f He Hf Hs Ha Hp Hr) as (H1 & H2 & H3). fold r in H1, H2, H3.
  rewrite E in H1, H2. cbn [fst snd] in H1, H2. clearbody r. rewrite H1, H2. cbn [wire]. rewrite Hb.
  exact (conj H3 (conj eq_refl Hl)).
Qed.

Lemma zcmd_refines k c m db : ready db → v_ttl (view db) !! k = None → zset_at (view db) k m → zcmd_ok c m →
  let r := exec (zname c) (zargs k c) db in
  ready r.2 ∧ wire r.1 = Some (zreply c m) ∧ zleaves k (znext c m) (view db) (view r.2).
Proof.
  intros Hr Ht Hz Hc.
  destruct c as [pairs|text delta member|ms|count|a b min max|start stop|member| |[] member|[] ws start stop|a b min max|[] ws a b min max offset limit];
    (eapply zcmd_step; [rewrite storeTable_lookup; reflexivity|reflexivity|reflexivity| |eexists; reflexivity|exact Hr|]); try reflexivity;
    try (by eauto using run_add, run_incrby, run_rem, run_popmin, run_remrangebyscore, run_remrangebyrank, run_score, run_card, run_count).
  - destruct Hc as [Hne _]. apply validate_some; [done|]. unfold zargs. rewrite length_fmap. cbn [length]. rewrite pairs_length.
    destruct pairs; [done|]. cbn [length arity attachCommandExtra registerCommand]. lia.
  - apply validate_some; [done|]. unfold zargs. rewrite length_fmap. cbn [length]. destruct ms; [done|].
    cbn [length arity attachCommandExtra registerCommand]. lia.
  - by apply (run_rank k true).
  - by apply (run_rank k false).
  - apply validate_some; [done|]. unfold zargs. rewrite length_fmap. cbn [length app arity attachCommandExtra registerCommand]. lia.
  - by apply (run_range k true).
  - apply validate_some; [done|]. unfold zargs. rewrite length_fmap. cbn [length app arity attachCommandExtra registerCommand]. lia.
  - by apply (run_range k false).
  - apply validate_some; [done|]. unfold zargs. rewrite length_fmap. cbn [length app arity attachCommandExtra registerCommand]. lia.
  - by apply (run_rangebyscore k true).
  - apply validate_some; [done|]. unfold zargs. rewrite length_fmap. cbn [length app arity attachCommandExtra registerCommand]. lia.
  - by apply (run_rangebyscore k false).
Qed.

(** [C34] A client sends any sequence, admitted by [zcmds_ok], of ZADD, ZINCRBY, ZREM, ZPOPMIN, ZREMRANGEBYSCORE,
    ZREMRANGEBYRANK, ZSCORE, ZCARD, ZRANK, ZREVRANK, ZRANGE, ZREVRANGE, ZCOUNT, ZRANGEBYSCORE and
    ZREVRANGEBYSCORE for one key without expiry time.  It gets, byte for byte, the replies computed
    from a finite map from members to scores, listed by score and then by member; the key stands
    for the final map, no other key and no expiry time changes, and the database is ready
    for the next command.  Admitted are well-formed commands: scores and sums other than NaN and
    -0, borders that parse, numbers of 64 bits; and of these ZPOPMIN of at least 1, ranks of members
    that are not empty, ranges by rank, counts and removals by score on sets that are not empty,
    ranges by score whose borders the disjointness test judges rightly (not to infinity), with an
    offset of at least 0 inside a range that is not empty.  The others panic or
    differ, as shown in ZSetLaws. *)
Theorem zset_session (k : string) (cmds : list zcmd) (m : scores) (db : DB) :
  ready db → v_ttl (view db) !! k = None → zset_at (view db) k m → zcmds_ok cmds m →
  let r := zsession k cmds db in
  r.1 = Some <$> zreplies cmds m ∧ ready r.2 ∧ zleaves k (zfinal cmds m) (view db) (view r.2).
Proof.
  revert m db. induction cmds as [|c cmds IH]; intros m db Hr Ht Hz Hc; [by split_and!|].
  destruct Hc as [Hc Hcs]. cbn [zsession zreplies zcmds_ok]. cbv zeta.
  destruct (zcmd_refines k c m db Hr Ht Hz Hc) as (H1 & H2 & H3). set (r := exec (zname c) (zargs k c) db) in *. clearbody r.
  destruct (IH (znext c m) r.2 H1 (zleaves_ttl _ _ _ _ H3 Ht) (proj1 H3) Hcs) as (G1 & G2 & G3). cbn [fst snd].
  rewrite H2, G1. split_and!; [done|done|]. by eapply zleaves_trans.
Qed.
End session.

(** ** Examples *)

#[local] Existing Instance demo_env.

Definition whole (z : Z) : float64 := binary_normalize 53 1024 z 0 false.

Definition sample_session : list zcmd :=
  [CAdd [("3", whole 3, "c"); ("1", whole 1, "a"); ("2", whole 2, "b")]; CIncrBy "5" (whole 5) "a"; CScore "a"; CCard;
   CRank true "b"; CRange false true 0 (-1); CCount "2" "3" (ScoreB (mkScoreBorder 0 (whole 2) false)) (ScoreB (mkScoreBorder 0 (whole 3) false));
   CRangeByScore true false "(2" "9" (ScoreB (mkScoreBorder 0 (whole 2) true)) (ScoreB (mkScoreBorder 0 (whole 9) false)) 1 5;
   CRemRangeByRank 0 0; CPopMin 1; CRem ["a"; "x"]].

Lemma zset_session_witness :
  zcmds_ok sample_session ∅ ∧
  (zsession "z" sample_session (make_db 1 1)).1 = Some <$> zreplies sample_session ∅ ∧
  zreply (CRange false true 0 (-1)) {["a" := whole 6; "b" := whole 2; "c" := whole 3]} =
    ToBytes (MultiBulkReply [Some "b"; Some "2"; Some "c"; Some "3"; Some "a"; Some "6"]).
Proof.
  assert (zcmds_ok sample_session ∅) as H.
  { unfold sample_session. cbn [zcmds_ok]. split.
    { split; [discriminate|]. repeat (apply Forall_cons; split; [vm_compute; repeat split; (reflexivity || discriminate)|]). by apply Forall_nil. }
    split_and!; cbn [zcmd_ok]; unfold score_text, is_int64, proper; try split_and!;
      vm_compute; first [reflexivity|discriminate|exact I|left; reflexivity]. }
  split; [exact H|]. destruct (zset_session "z" sample_session ∅ (make_db 1 1) ready_empty) as (H1 & _); [reflexivity|reflexivity|exact H|].
  split; [exact H1|]. vm_compute. reflexivity.
Defined.
