(* ===== verification/Rollback.v ===== *)
(** * Rolling a transaction back

    When a queued command fails, [ExecMulti] runs the undo logs of the commands
    before it, last one first.  For the string commands whose undo function is
    [rollbackFirstKey], on a database of strings without expiry times, this leaves
    every key as it was before EXEC.  A command that panics is another matter: the
    panic leaves [ExecMulti] at once, and nothing is undone. *)

From Stdlib Require Import ZArith Lia Ascii String.
From stdpp Require Import base gmap strings numbers list.
From S2P Require Import Prelude GoStd Dict QuickList SetDS Protocol DB Marshal StringCmds KeyCmds ListCmds HashCmds SetCmds Conn Router Exec Tx Laws.

Local Open Scope string_scope.
Local Open Scope list_scope.
Local Open Scope Z_scope.
Local Open Scope go_scope.

(** Strings only, and no expiry times. *)
Record plain (w : View) : Prop := {
  plain_ttl : v_ttl w = ∅;
  plain_strings : ∀ k e, v_store w !! k = Some e → ∃ b, e = DString b
}.

(** The commands of this file, as a client sends them, in upper or lower case. *)
Inductive plain_line : CmdLine → Prop :=
  | plain_key n k : ToLower n ∈ ["incr"; "decr"; "getdel"; "get"; "strlen"] → plain_line [Some n; Some k]
  | plain_value n k v :
      ToLower n ∈ ["set"; "setnx"; "getset"; "append"; "incrby"; "decrby"] → plain_line [Some n; Some k; Some v].

Section rollback.
Context `{Env}.

Lemma plain_no_ttl w k : plain w → v_ttl w !! k = None.
Proof. intros [-> _]. apply lookup_empty. Qed.

Lemma plain_insert w k b aof draws : plain w →
  plain (mkView (<[k := DString b]> (v_store w)) (v_ttl w) aof draws).
Proof.
  intros [Ht Hs]. split; [done|]. simpl. intros k' e. rewrite lookup_insert_Some. naive_solver.
Qed.

Lemma plain_delete w k aof draws : plain w → plain (mkView (delete k (v_store w)) (v_ttl w) aof draws).
Proof. intros [Ht Hs]. split; [done|]. simpl. intros k' e. rewrite lookup_delete_Some. naive_solver. Qed.

Lemma plain_aof w aof : plain w → plain (mkView (v_store w) (v_ttl w) aof (v_draws w)).
Proof. intros [Ht Hs]. by split. Qed.

(** A command that passed the checks, under its caller's locks. *)
Lemma execWithLock_handler n args c (f : list bytes → GoM View Reply) w :
  last_named (ToLower n) init_all None
    = Some c →
  executor c = Some f → validateArity (arity c) (Some n :: args) = true →
  execWithLock storeTable (Some n :: args) w = f args w.
Proof.
  intros Hc Hf Ha. unfold execWithLock, early, go_lift, mbind, gom_bind, find_command, arg_at. cbn [lookup list_lookup].
  unfold mbind, outcome_bind. change (str (Some n)) with n. rewrite storeTable_lookup, Hc, Ha. cbn [negb].
  unfold call_executor. by rewrite Hf.
Qed.

Lemma GetUndoLogs_handler n args c w :
  last_named (ToLower n) init_all None
    = Some c →
  GetUndoLogs storeTable (Some n :: args) w =
  match undo c with None => (Ret [], w) | Some u => u args w end.
Proof.
  intros Hc. unfold GetUndoLogs, arg, mbind, gom_bind. cbn [lookup list_lookup mret gom_ret].
  change (str (Some n)) with n. rewrite storeTable_lookup, Hc. by destruct (undo c).
Qed.

(** ** The undo log of one key *)

Definition undo_log (k : string) (e : option DataEntity) : list CmdLine :=
  match e with
  | Some (DString b) => [ToCmdLine ["DEL"; k]; [Some "SET"; Some k; b]; ToCmdLine ["PERSIST"; k]]
  | _ => [ToCmdLine ["DEL"; k]]
  end.

Lemma rollbackFirstKey_run k args w : plain w →
  rollbackFirstKey (Some k :: args) w = (Ret (undo_log k (v_store w !! k)), w).
Proof.
  intros Hp. unfold rollbackFirstKey. erewrite bind_Ret by reflexivity. cbn [rollbackGivenKeys].
  change (str (Some k)) with k. erewrite bind_Ret by (by apply GetEntity_no_ttl, plain_no_ttl).
  destruct (v_store w !! k) as [e|] eqn:E; [|reflexivity].
  destruct (plain_strings _ Hp k e E) as [b ->].
  unfold EntityToCmd, toTTLCmd, mbind, gom_bind. cbn [mret gom_ret GetTTL view_store].
  unfold ViewOps.GetTTL, go_get. by rewrite (plain_no_ttl _ k Hp).
Qed.

Lemma del_run k w : plain w →
  ∃ reply aof, execWithLock storeTable (ToCmdLine ["DEL"; k]) w =
    (Ret reply, mkView (delete k (v_store w)) (v_ttl w) aof (v_draws w)).
Proof.
  intros Hp. erewrite (execWithLock_handler "DEL" [Some k]); [|reflexivity..].
  unfold execDel. cbn [fmap list_fmap]. change (str (Some k)) with k.
  destruct (v_store w !! k) as [e|] eqn:E.
  - erewrite bind_Ret; [|cbn [Removes view_store]; unfold ViewOps.Removes; cbn [ViewOps.Removes_loop];
      erewrite bind_Ret by reflexivity; rewrite E; reflexivity].
    eexists _, _. cbn. rewrite (plain_ttl _ Hp), delete_empty. reflexivity.
  - erewrite bind_Ret; [|cbn [Removes view_store]; unfold ViewOps.Removes; cbn [ViewOps.Removes_loop];
      erewrite bind_Ret by reflexivity; rewrite E; reflexivity].
    eexists _, (v_aof w). cbn. rewrite delete_id by done. by destruct w.
Qed.

Lemma set_line_run k b w : plain w →
  ∃ reply aof, execWithLock storeTable [Some "SET"; Some k; b] w =
    (Ret reply, mkView (<[k := DString b]> (v_store w)) (v_ttl w) aof (v_draws w)).
Proof.
  intros Hp. erewrite (execWithLock_handler "SET" [Some k; b]); [|reflexivity..].
  eexists _, _. transitivity (Ret OkReply, mkView (<[k := DString b]> (v_store w)) (delete k (v_ttl w))
    (v_aof w ++ [[Some "set"; Some k; b]]) (v_draws w)); [reflexivity|].
  by rewrite (plain_ttl _ Hp), delete_empty.
Qed.

Lemma persist_line_run k e w : plain w → v_store w !! k = Some e →
  execWithLock storeTable (ToCmdLine ["PERSIST"; k]) w = (Ret (IntReply 0), w).
Proof.
  intros Hp Hk. erewrite (execWithLock_handler "PERSIST" [Some k]); [|reflexivity..].
  unfold execPersist. erewrite bind_Ret by reflexivity. cbv zeta. change (str (Some k)) with k.
  erewrite bind_Ret by (by apply GetEntity_no_ttl, plain_no_ttl). rewrite Hk.
  erewrite bind_Ret by reflexivity. by rewrite (plain_no_ttl _ k Hp).
Qed.

Lemma run_lines_cons (line : CmdLine) lines (w : View) r w' :
  execWithLock storeTable line w = (Ret r, w') →
  run_lines storeTable (line :: lines) w = run_lines storeTable lines w'.
Proof.
  intros E. unfold run_lines. cbn [go_for]. erewrite bind_Ret; [reflexivity|]. by erewrite bind_Ret by exact E.
Qed.

(** Running the undo log of [k] puts back what the key held. *)
Lemma undo_log_run k w w2 : plain w → plain w2 →
  (∀ k', k' ≠ k → v_store w2 !! k' = v_store w !! k') →
  ∃ w3, run_lines storeTable (undo_log k (v_store w !! k)) w2 = (Ret tt, w3) ∧ plain w3 ∧ v_store w3 = v_store w.
Proof.
  intros Hp Hp2 Hk. destruct (del_run k w2 Hp2) as (r1 & aof1 & E1). set (w3 := mkView _ _ _ _) in E1.
  assert (plain w3) as Hp3 by (by apply plain_delete).
  destruct (v_store w !! k) as [e|] eqn:E.
  - destruct (plain_strings _ Hp k e E) as [b ->]. destruct (set_line_run k b w3 Hp3) as (r2 & aof2 & E2).
    set (w4 := mkView _ _ _ _) in E2. assert (plain w4) as Hp4 by (by apply plain_insert).
    exists w4. split; [|split; [done|]].
    + cbn [undo_log]. rewrite (run_lines_cons _ _ _ _ _ E1), (run_lines_cons _ _ _ _ _ E2).
      rewrite (run_lines_cons _ _ _ _ _ (persist_line_run k (DString b) w4 Hp4 (lookup_insert_eq _ _ _))). done.
    + unfold w4, w3. simpl. apply map_eq. intros k'. destruct (decide (k' = k)) as [->|Hne].
      * by rewrite lookup_insert_eq.
      * rewrite lookup_insert_ne, lookup_delete_ne by done. by apply Hk.
  - exists w3. split; [|split; [done|]].
    + cbn [undo_log]. by rewrite (run_lines_cons _ _ _ _ _ E1).
    + unfold w3. simpl. apply map_eq. intros k'. destruct (decide (k' = k)) as [->|Hne].
      * by rewrite lookup_delete_eq.
      * rewrite lookup_delete_ne by done. by apply Hk.
Qed.

(** ** One queued command *)

(** What a run of a command on [k] may do: answer, change [k] alone, and change
    nothing if the answer is an error. *)
Record effect (k : string) (w : View) (m : outcome Reply * View) : Prop := {
  eff_ret : ∃ reply err, m.1 = Ret reply ∧ IsErrorReply reply = Ret err ∧ (err = true → v_store m.2 = v_store w);
  eff_plain : plain m.2;
  eff_frame : ∀ k', k' ≠ k → v_store m.2 !! k' = v_store w !! k'
}.

Lemma effect_same k w reply err aof : plain w → IsErrorReply reply = Ret err →
  effect k w (Ret reply, mkView (v_store w) (v_ttl w) aof (v_draws w)).
Proof. intros Hp He. split; [by eexists reply, err|by apply plain_aof|done]. Qed.

Lemma effect_refl k w reply err : plain w → IsErrorReply reply = Ret err → effect k w (Ret reply, w).
Proof. intros Hp He. destruct w. by eapply (effect_same _ (mkView _ _ _ _)). Qed.

Lemma effect_insert k w reply b aof : plain w → IsErrorReply reply = Ret false →
  effect k w (Ret reply, mkView (<[k := DString b]> (v_store w)) (v_ttl w) aof (v_draws w)).
Proof.
  intros Hp He. split; [by eexists reply, false|by apply plain_insert|].
  intros k' Hk. by apply lookup_insert_ne.
Qed.

Lemma effect_delete k w reply aof : plain w → IsErrorReply reply = Ret false →
  effect k w (Ret reply, mkView (delete k (v_store w)) (v_ttl w) aof (v_draws w)).
Proof.
  intros Hp He. split; [by eexists reply, false|by apply plain_delete|].
  intros k' Hk. by apply lookup_delete_ne.
Qed.

Lemma plain_getAsString w k : plain w →
  getAsString k w = (Ret (inr (match v_store w !! k with Some (DString b) => b | _ => None end)), w).
Proof.
  intros Hp. rewrite (getAsString_no_ttl _ _ (plain_no_ttl _ k Hp)).
  destruct (v_store w !! k) as [e|] eqn:E; [|done]. by destruct (plain_strings _ Hp k e E) as [b ->].
Qed.

(** Unfolds a handler up to the store operations of the view. *)
Ltac run_plain Hp :=
  unfold early, arg, mbind, gom_bind; cbn [lookup list_lookup mret gom_ret];
  rewrite ?(plain_getAsString _ _ Hp); cbn.

#[local] Hint Resolve effect_same effect_refl effect_insert effect_delete : core.

Lemma store_int_effect nm args k n w : plain w → effect k w (store_int nm args k n w).
Proof. intros Hp. by apply (effect_insert k w (IntReply n) (Some (FormatInt n)) _ Hp). Qed.

Lemma integer_effect k w : plain w → effect k w (execIncr [Some k] w) ∧ effect k w (execDecr [Some k] w).
Proof.
  intros Hp. unfold execIncr, execDecr. run_plain Hp.
  destruct (v_store w !! k) as [[[s|]| | | |]|]; [destruct (ParseInt s)|..]; split;
    first [by apply store_int_effect|by eapply effect_refl].
Qed.

Lemma integer_by_effect k v w : plain w →
  effect k w (execIncrBy [Some k; Some v] w) ∧ effect k w (execDecrBy [Some k; Some v] w).
Proof.
  intros Hp. split; unfold execIncrBy, execDecrBy; do 2 erewrite bind_Ret by reflexivity; cbv zeta;
    change (str (Some v)) with v; (destruct (ParseInt v) as [e|delta]; [by eapply effect_refl|]); run_plain Hp;
    (destruct (v_store w !! k) as [[[s|]| | | |]|]; [destruct (ParseInt s)|..]);
    first [by apply store_int_effect|by eapply effect_refl
          |by apply (effect_insert k w (IntReply delta) (Some v) _ Hp)].
Qed.

Lemma read_effect k w : plain w →
  (∃ reply err, execGet [Some k] w = (Ret reply, w) ∧ IsErrorReply reply = Ret err) ∧
  (∃ reply err, execStrLen [Some k] w = (Ret reply, w) ∧ IsErrorReply reply = Ret err).
Proof.
  intros Hp. unfold execGet, execStrLen. run_plain Hp.
  destruct (v_store w !! k) as [[[s|]| | | |]|]; split; by eexists _, _.
Qed.

Lemma read_only_entry k w (m : outcome Reply * View) P Q : plain w → (P : Prop) →
  (∃ reply err, m = (Ret reply, w) ∧ IsErrorReply reply = Ret err) → effect k w m ∧ (Q ∨ P ∧ m.2 = w).
Proof. intros Hp HP (reply & err & -> & He). split; [by eapply effect_refl|by right]. Qed.

Lemma getdel_effect k w : plain w → effect k w (execGetDel [Some k] w).
Proof.
  intros Hp. unfold execGetDel. run_plain Hp.
  destruct (v_store w !! k) as [[[s|]| | | |]|]; try by eapply effect_refl.
  pose proof (effect_delete k w (BulkReply (Some s)) (v_aof w ++ [ToCmdLine ["del"; k]]) Hp eq_refl) as He.
  assert (delete k (v_ttl w) = v_ttl w) as Ht by (rewrite (plain_ttl _ Hp); apply delete_empty).
  rewrite <-Ht in He. exact He.
Qed.

Lemma set_effect k v w : plain w →
  effect k w (execSet [Some k; Some v] w) ∧ effect k w (execGetSet [Some k; Some v] w).
Proof.
  intros Hp. pose proof (λ r, effect_insert k w r (Some v) (v_aof w ++ [ToCmdLine ["set"; k; v]]) Hp) as He.
  assert (delete k (v_ttl w) = v_ttl w) as Ht by (rewrite (plain_ttl _ Hp); apply delete_empty).
  rewrite <-Ht in He. split; [exact (He OkReply eq_refl)|].
  unfold execGetSet. run_plain Hp. destruct (v_store w !! k) as [[[s|]| | | |]|]; by apply He.
Qed.

Lemma setnx_effect k v w : plain w → effect k w (execSetNX [Some k; Some v] w).
Proof.
  intros Hp. unfold execSetNX. run_plain Hp. unfold ViewOps.PutIfAbsent.
  destruct (v_store w !! k); [by eapply effect_same|by apply (effect_insert k w (IntReply 1) (Some v) _ Hp)].
Qed.

Lemma append_effect k v w : plain w → effect k w (execAppend [Some k; Some v] w).
Proof.
  intros Hp. unfold execAppend. run_plain Hp.
  by apply (effect_insert k w (IntReply _) _ _ Hp).
Qed.

(** The entry of a command of this file: its handler touches its first argument
    only, and the entry has the undo function for it unless the handler writes
    nothing. *)
Lemma plain_entry line : plain_line line →
  ∃ n k args c f, line = Some n :: Some k :: args ∧ specified (ToLower n) = true ∧
    last_named (ToLower n)
      init_all None = Some c ∧
    executor c = Some f ∧ validateArity (arity c) line = true ∧ (∃ keys, call_prepare c line = Ret keys) ∧
    (∀ w, plain w → effect k w (f (Some k :: args) w) ∧
      (undo c = Some rollbackFirstKey ∨ undo c = None ∧ (f (Some k :: args) w).2 = w)).
Proof.
  intros [n k Hn|n k v Hn]; eexists n, k, _; repeat (apply elem_of_cons in Hn as [Hn|Hn]; [rewrite Hn; clear Hn|]);
    try (by apply not_elem_of_nil in Hn);
    eexists _, _; (split_and!; [reflexivity..|by eexists|]); intros w Hp.
  1, 2: split; [by apply integer_effect|by left].
  - split; [by apply getdel_effect|by left].
  - apply read_only_entry; [done|reflexivity|by apply read_effect].
  - apply read_only_entry; [done|reflexivity|by apply read_effect].
  - split; [by apply set_effect|by left].
  - split; [by apply setnx_effect|by left].
  - split; [by apply set_effect|by left].
  - split; [by apply append_effect|by left].
  - split; [exact (proj1 (integer_by_effect k v w Hp))|by left].
  - split; [exact (proj2 (integer_by_effect k v w Hp))|by left].
Qed.

(** A queued command and its undo log, together. *)
Lemma plain_step line w : plain_line line → plain w →
  ∃ logs reply err w', GetUndoLogs storeTable line w = (Ret logs, w) ∧
    execWithLock storeTable line w = (Ret reply, w') ∧ IsErrorReply reply = Ret err ∧ plain w' ∧
    (err = true → v_store w' = v_store w) ∧
    (∀ w2, plain w2 → v_store w2 = v_store w' →
      ∃ w3, run_lines storeTable logs w2 = (Ret tt, w3) ∧ plain w3 ∧ v_store w3 = v_store w).
Proof.
  intros Hl Hp. destruct (plain_entry line Hl) as (n & k & args & c & f & -> & Hs & Hc & Hf & Ha & Hk & Heff).
  destruct (Heff w Hp) as [[(reply & err & E & He & Herr) Hp' Hfr] Hu].
  rewrite (GetUndoLogs_handler n _ c w Hc), (execWithLock_handler n _ c f w Hc Hf Ha).
  destruct (f (Some k :: args) w) as [o w']. simpl in *. subst o. clear Heff.
  destruct Hu as [Hu|[Hu ->]]; rewrite Hu.
  - rewrite (rollbackFirstKey_run k args w Hp). eexists _, reply, err, w'. split_and!; [done..|].
    intros w2 Hp2 Hst. apply undo_log_run; [done..|]. intros k' Hk'. rewrite Hst. by apply Hfr.
  - eexists [], reply, err, w. split_and!; [done..|]. intros w2 Hp2 Hst. by exists w2.
Qed.

(** ** The loops *)

Lemma undo_loop_snoc logs undos w1 w2 :
  run_lines storeTable logs w1 = (Ret tt, w2) →
  undo_loop storeTable (undos ++ [logs]) w1 = undo_loop storeTable undos w2.
Proof.
  intros E. unfold undo_loop. rewrite rev_app_distr. cbn [rev app go_for]. by erewrite bind_Ret by exact E.
Qed.

(** The undo logs [undos] lead from the contents of [w] back to those of [w0]. *)
Definition leads_back (undos : list (list CmdLine)) (w w0 : View) : Prop :=
  ∀ w2, plain w2 → v_store w2 = v_store w →
    ∃ w3, undo_loop storeTable undos w2 = (Ret tt, w3) ∧ plain w3 ∧ v_store w3 = v_store w0.

Lemma exec_loop_plain lines results undos w w0 :
  Forall plain_line lines → plain w → leads_back undos w w0 →
  ∃ aborted results' undos' w',
    exec_loop storeTable lines results undos w = (Ret (aborted, results', undos'), w') ∧ plain w' ∧
    (if (aborted : bool) then leads_back undos' w' w0
     else ∃ new, results' = results ++ new ∧ length new = length lines ∧ Forall (λ r, IsErrorReply r = Ret false) new).
Proof.
  intros Hl. revert results undos w.
  induction Hl as [|line lines Hl _ IH]; intros results undos w Hp Hb; cbn [exec_loop].
  { exists false, results, undos, w. split_and!; [done..|]. exists []. by rewrite app_nil_r. }
  destruct (plain_step line w Hl Hp) as (logs & reply & err & w' & E1 & E2 & E3 & Hp' & Herr & Hback).
  erewrite bind_Ret by exact E1. erewrite bind_Ret by exact E2.
  erewrite bind_Ret by (unfold go_lift; rewrite E3; reflexivity). destruct err.
  - exists true, results, undos, w'. split_and!; [done..|]. intros w2 Hp2 Hst. apply Hb; [done|].
    rewrite Hst. by apply Herr.
  - destruct (IH (results ++ [reply]) (undos ++ [logs]) w' Hp') as (aborted & results' & undos' & w'' & E & Hp'' & Hr).
    { intros w2 Hp2 Hst. destruct (Hback w2 Hp2 Hst) as (w3 & E & Hp3 & Hst3).
      rewrite (undo_loop_snoc _ _ _ _ E). by apply Hb. }
    exists aborted, results', undos', w''. split_and!; [done..|]. destruct aborted; [done|].
    destruct Hr as (new & -> & Hlen & Hnew). exists (reply :: new). rewrite <-app_assoc. simpl. by split_and!; [|f_equal|constructor].
Qed.

Lemma Transaction_plain lines w : Forall plain_line lines → plain w →
  let r := Transaction storeTable lines w in
  (∃ results, r.1 = Ret (MultiRawReply results) ∧ length results = length lines ∧
     Forall (λ x, IsErrorReply x = Ret false) results) ∨
  (r.1 = Ret execAborted ∧ v_store r.2 = v_store w ∧ v_ttl r.2 = v_ttl w).
Proof.
  intros Hl Hp. unfold Transaction, run_queue.
  destruct (exec_loop_plain lines [] [] w w Hl Hp) as (aborted & results & undos & w' & E & Hp' & Hr).
  { intros w2 Hp2 Hst. by exists w2. }
  erewrite bind_Ret by exact E. cbv beta iota. destruct aborted; cbn [negb].
  - right. destruct (Hr w' Hp' eq_refl) as (w3 & E3 & Hp3 & Hst). erewrite bind_Ret by exact E3.
    split_and!; [done|exact Hst|]. cbn. by rewrite (plain_ttl _ Hp3), (plain_ttl _ Hp).
  - left. destruct Hr as (new & -> & Hlen & Hnew). by exists new.
Qed.

#[local] Opaque cmdTable storeTable.

Lemma plain_collect lines ws rs : Forall plain_line lines →
  ∃ keys, collect_keys cmdTable lines ws rs = Ret keys.
Proof.
  intros Hl. revert ws rs. induction Hl as [|line lines Hl _ IH]; intros ws rs; cbn [collect_keys]; [by eexists|].
  destruct (plain_entry line Hl) as (n & k & args & c & f & -> & Hs & Hc & _ & _ & [keys Hk] & _).
  pose proof (cmdTable_entry _ Hs) as Hr. rewrite storeTable_lookup, Hc in Hr.
  destruct (cmdTable !! ToLower n) as [c'|] eqn:Ec; [|done]. unfold arg_at. cbn [lookup list_lookup].
  unfold mbind at 1, outcome_bind. change (str (Some n)) with n. rewrite Ec.
  rewrite (call_prepare_refines _ _ _ Hr), Hk. apply IH.
Qed.

Lemma plain_log_ok lines : Forall plain_line lines → log_ok lines.
Proof.
  intros Hl. induction Hl as [|line lines Hl _ IH]; [constructor|]. constructor; [|done].
  destruct (plain_entry line Hl) as (n & k & args & c & f & -> & Hs & _). exact Hs.
Qed.

(** EXEC with unchanged watched keys. *)
Lemma ExecMulti_run fuel watching lines db keys :
  log_ok lines → collect_keys cmdTable lines [] [] = Ret keys → ready db → watch_holds db watching →
  let r := ExecMulti (goTable fuel) watching lines db in
  let r' := Transaction storeTable lines (view db) in
  r.1 = r'.1 ∧ view r.2 = r'.2 ∧ (r.1 = Ret execAborted → versionMap r.2 = versionMap db).
Proof.
  intros Hl Hk [Hok Hu] Hw. rewrite ExecMulti_go, ExecMulti_eq, Hk by (done || by apply log_bounded).
  destruct (locked_run watching keys.1 (keys.2 ++ (map_to_list watching).*1) lines db Hok Hu)
    as (dbl & Hokl & Hvl & Hver & H1 & H2 & H3 & _). cbv zeta. rewrite H1, H2, H3, <-Hver, <-Hvl.
  rewrite bool_decide_true by done.
  destruct (run_queue_refines keys.1 lines dbl Hl Hokl) as [R1 R2].
  destruct (run_queue_safe keys.1 lines dbl Hokl) as (_ & _ & _ & Hm).
  split_and!; [done..|]. intros E. by rewrite E in Hm.
Qed.

(** [C3] A transaction of well-formed string commands is all or nothing.  The queue holds any
    sequence of INCR k, DECR k, GETDEL k, GET k, STRLEN k, SET k v, SETNX k v, GETSET k v, APPEND k v,
    INCRBY k v and DECRBY k v, with exactly these arguments and any keys and values; none of
    these commands panics (one that does, such as SETRANGE with a negative offset, is not
    rolled back, [panic_is_not_rolled_back]).  On a database of strings without expiry
    times, if no watched key has changed, EXEC either answers every command of the queue,
    none with an error, or answers EXECABORT with the contents, the expiry times
    and the versions of all keys exactly as they were before. *)
Theorem transaction_rolls_back (fuel : nat) (watching : gmap string Z) (lines : list CmdLine) (db : DB) :
  ready db → plain (view db) → Forall plain_line lines → watch_holds db watching →
  let r := ExecMulti (goTable fuel) watching lines db in
  (∃ results, r.1 = Ret (MultiRawReply results) ∧ length results = length lines ∧
     Forall (λ x, IsErrorReply x = Ret false) results) ∨
  (r.1 = Ret execAborted ∧ v_store (view r.2) = v_store (view db) ∧ v_ttl (view r.2) = v_ttl (view db) ∧
   versionMap r.2 = versionMap db).
Proof.
  intros Hrd Hp Hl Hw r. destruct (plain_collect lines [] [] Hl) as [keys Hk].
  destruct (ExecMulti_run fuel watching lines db keys (plain_log_ok _ Hl) Hk Hrd Hw) as (E1 & E2 & E3).
  fold r in E1, E2, E3.
  destruct (Transaction_plain lines (view db) Hl Hp) as [(results & Hr & Hrest)|(Hr & Hst & Ht)].
  - left. exists results. rewrite E1. by split.
  - right. rewrite E1, E2. split_and!; [done..|]. apply E3. by rewrite E1, Hr.
Qed.
End rollback.

(** ** Examples *)

#[local] Existing Instance demo_env.

(** The last command of this queue fails on the value 10x. *)
Definition demo_rollback : list CmdLine :=
  [ToCmdLine ["SET"; "k"; "7"]; ToCmdLine ["INCRBY"; "k"; "3"]; ToCmdLine ["SETNX"; "j"; "y"];
   ToCmdLine ["APPEND"; "k"; "x"]; ToCmdLine ["INCR"; "k"]].

Lemma demo_db_plain : plain (view demo_db).
Proof.
  assert (v_store (view demo_db) = {["k" := DString (Some "v")]}) as Hs by (vm_compute; reflexivity).
  split; [vm_compute; reflexivity|]. intros k e. rewrite Hs, lookup_singleton_Some. intros [_ <-]. by eexists.
Qed.

Lemma transaction_rolls_back_witness :
  let r := ExecMulti (goTable 5) ∅ demo_rollback demo_db in
  r.1 = Ret execAborted ∧ v_store (view r.2) = v_store (view demo_db).
Proof.
  destruct (transaction_rolls_back 5 ∅ demo_rollback demo_db ready_demo demo_db_plain) as [(results & E & _)|(E & Hst & _)].
  - repeat constructor; set_solver.
  - apply map_Forall_empty.
  - exfalso. vm_compute in E. done.
  - by split.
Defined.

(** Two queues whose second command does not succeed. *)
Definition demo_panic : list CmdLine := [ToCmdLine ["SET"; "k"; "w"]; ToCmdLine ["SETRANGE"; "k"; "-1"; "x"]].
Definition demo_failure : list CmdLine := [ToCmdLine ["SET"; "k"; "w"]; ToCmdLine ["INCR"; "k"]].

(** A command that panics inside a transaction is not rolled back: SETRANGE
    with a negative offset panics in [execSetRange], the panic ends [ExecMulti]
    before the undo loop, and the SET before it stays.  The other way to
    fail, an error reply, takes the SET back. *)
Theorem panic_is_not_rolled_back :
  let panicking := ExecMulti cmdTable ∅ demo_panic demo_db in
  let failing := ExecMulti cmdTable ∅ demo_failure demo_db in
  panicking.1 = Panic "index out of range" ∧
  v_store (view panicking.2) !! "k" = Some (DString (Some "w")) ∧
  failing.1 = Ret execAborted ∧ v_store (view failing.2) !! "k" = Some (DString (Some "v")).
Proof. vm_compute. by split_and!. Qed.
