(* ===== verification/MarshalLaws.v ===== *)
(** * A value and the command that rebuilds it

    [EntityToCmd] (aof/marshal.go) writes a value as one command line.  The rollback of a
    transaction, the rewrite of the append-only file, the dump of a key and the migration of
    a slot all depend on this line: executed where the key does not exist, it makes the same
    value.  [content] is what a value stands for, whatever pages, shards or towers hold it. *)

From Stdlib Require Import ZArith Lia Ascii String.
From Stdlib Require Import Floats.SpecFloat.
From stdpp Require Import base gmap strings numbers sorting list.
From S2P Require Import Prelude GoStd Dict QuickList SetDS Protocol Border SkipList SkipRep SortedSet SortedFacts ZSetLaws DB Marshal StringCmds KeyCmds ListCmds HashCmds SetCmds ZSetCmds Router Exec Tx Laws CollLaws ZCmdLaws Rollback.

Local Open Scope string_scope.
Local Open Scope list_scope.
Local Open Scope Z_scope.
Local Open Scope go_scope.

#[local] Opaque cmdTable storeTable.

Inductive content :=
  | CString (b : bytes)
  | CList (xs : list bytes)
  | CHash (m : gmap string bytes)
  | CSet (X : gset string)
  | CZSet (m : scores).

Definition stands_for (e : DataEntity) (c : content) : Prop :=
  match e, c with
  | DString b, CString b' => b = b'
  | DList l, CList xs => QList.ql_wf l ∧ QList.to_list l = xs
  | DHash d, CHash m => dict_m d = m
  | DSet s, CSet X => Sets.members s = X
  | DZSet z, CZSet m => zset_ok z m
  | _, _ => False
  end.

Section marshal.
Context `{Env}.

(** Collections with a member; scores whose text reads back as the same number. *)
Definition writable (c : content) : Prop :=
  match c with
  | CString _ => True
  | CList xs => xs ≠ []
  | CHash m => m ≠ ∅
  | CSet X => X ≠ ∅
  | CZSet m => m ≠ ∅ ∧ map_Forall (λ _ s, ParseFloat (FormatFloat s) = Some s) m
  end.

(** The command and its arguments behind the key rebuild [c] wherever the key is free. *)
Definition rebuilds (n : string) (rest : list bytes) (c : content) : Prop :=
  ∀ k w, v_store w !! k = None → v_ttl w !! k = None →
  ∃ r e w', execWithLock storeTable (Some n :: Some k :: rest) w = (Ret r, w') ∧ IsErrorReply r = Ret false ∧
    stands_for e c ∧ v_store w' = <[k := e]> (v_store w) ∧ v_ttl w' = v_ttl w.

Lemma rebuilds_string b : rebuilds "SET" [b] (CString b).
Proof.
  intros k w Hk Ht. rewrite (execWithLock_handler "SET" [Some k; b] _ execSet) by reflexivity.
  exists OkReply, (DString b), (mkView (<[k := DString b]> (v_store w)) (delete k (v_ttl w))
    (v_aof w ++ [ToCmdLine3 "set" [Some k; b]]) (v_draws w)).
  split_and!; [reflexivity|done..|]. simpl. by rewrite delete_id.
Qed.

Lemma rebuilds_list xs : xs ≠ [] → rebuilds "RPUSH" xs (CList xs).
Proof.
  intros Hx k w Hk Ht. erewrite (execWithLock_handler "RPUSH" (Some k :: xs) _ execRPush); [|reflexivity..|].
  - destruct (rpush_run k xs [] w Ht) as (l & Hw & Hl & ->); [unfold list_at; by rewrite Hk|].
    by eexists _, (DList l), _.
  - unfold validateArity. simpl. destruct xs; [done|]. cbn [length]. apply Z.geb_le. lia.
Qed.

Lemma rebuilds_set X (ms : list string) : ms ≠ [] → list_to_set ms = X → rebuilds "SADD" (Some <$> ms) (CSet X).
Proof.
  intros Hx Hm k w Hk Ht. erewrite (execWithLock_handler "SADD" (Some k :: (Some <$> ms)) _ execSAdd); [|reflexivity..|].
  - destruct (sadd_run k ms ∅ w Ht) as (s & Hs & ->); [unfold set_at; by rewrite Hk|].
    eexists _, (DSet s), _. split_and!; [done..|simpl; set_solver|done|done].
  - unfold validateArity. simpl. destruct ms; [done|]. cbn [length fmap list_fmap]. apply Z.geb_le. lia.
Qed.

(** [for i := 2; i < len; i += 2] over field and value. *)
Lemma arg_pairs_concat (kvs : list (string * bytes)) :
  arg_pairs (concat ((λ kv : string * bytes, [Some kv.1; kv.2]) <$> kvs)) = kvs.
Proof. induction kvs as [|[f v] kvs IH]; [done|]. rewrite fmap_cons. cbn [concat app]. by rewrite <-IH at 2. Qed.

Lemma concat_pairs_length (kvs : list (string * bytes)) :
  length (concat ((λ kv : string * bytes, [Some kv.1; kv.2]) <$> kvs)) = (2 * length kvs)%nat.
Proof. induction kvs as [|kv kvs IH]; [done|]. rewrite fmap_cons. cbn [concat app length]. rewrite IH. lia. Qed.

Lemma hmset_loop_map (d : Hash) kvs m : NoDup kvs.*1 → dict_m d = m →
  dict_m (hmset_loop d kvs) = list_to_map kvs ∪ m.
Proof.
  unfold hmset_loop. revert d m. induction kvs as [|[f v] kvs IH]; intros d m Hn Hd.
  { by rewrite list_to_map_nil, map_empty_union. }
  inversion Hn as [|? ? Hf Hn']; subst. cbn [foldl fst snd]. rewrite (IH _ (<[f := v]> (dict_m d))); [|done|].
  - rewrite list_to_map_cons, <-insert_union_r by (by apply not_elem_of_list_to_map_1). by rewrite insert_union_l.
  - unfold Simple.Put. by destruct (dict_m d !! f).
Qed.

Lemma rebuilds_hash m (kvs : list (string * bytes)) : m ≠ ∅ → kvs ≡ₚ map_to_list m →
  rebuilds "HMSET" (concat ((λ kv : string * bytes, [Some kv.1; kv.2]) <$> kvs)) (CHash m).
Proof.
  intros Hm Hp k w Hk Ht.
  assert (kvs ≠ []) as Hne by (intros ->; apply Permutation_nil in Hp; by apply map_to_list_empty_iff in Hp).
  assert (NoDup kvs.*1) as Hnd by (rewrite Hp; apply NoDup_fst_map_to_list).
  set (rest := concat _). assert (length rest = 2 * length kvs)%nat as Hlen by apply concat_pairs_length.
  erewrite (execWithLock_handler "HMSET" (Some k :: rest) _ execHMSet); [|reflexivity..|].
  2: { unfold validateArity. simpl. destruct kvs; [done|]. cbn [length] in *. rewrite Hlen. apply Z.geb_le. cbn [length]. lia. }
  unfold execHMSet. cbn [length]. rewrite Nat.even_succ, Hlen, Nat.odd_mul. change (Nat.odd 2) with false. cbn [andb].
  erewrite bind_Ret by reflexivity. cbv zeta. change (str (Some k)) with k. change (drop 1 (Some k :: rest)) with rest.
  assert (getOrInitDict k w = (Ret (inr (mkSimple ∅)), mkView (<[k := DHash (mkSimple ∅)]> (v_store w)) (v_ttl w) (v_aof w) (v_draws w))) as E.
  { unfold getOrInitDict, early_err. erewrite bind_Ret by (by apply getAsDict_no_ttl). by rewrite Hk. }
  erewrite early_inr by exact E. unfold rest. rewrite arg_pairs_concat.
  set (d := hmset_loop (mkSimple ∅) kvs).
  assert (dict_m d = m) as Hd.
  { unfold d. rewrite (hmset_loop_map _ _ ∅) by done. rewrite (right_id_L ∅ (∪)), (list_to_map_proper kvs _ Hnd Hp). apply list_to_map_to_list. }
  clearbody d. eexists OkReply, (DHash d), (mkView _ (v_ttl w) _ (v_draws w)). split_and!; [|done|exact Hd|..].
  - unfold mbind, gom_bind. cbn. unfold go_modify. cbn. rewrite lookup_insert_eq. cbn. rewrite insert_insert_eq. reflexivity.
  - done.
  - done.
Qed.

(** The arguments of ZADD as [CAdd] has them. *)
Definition score_pairs (l : list Element) : list (string * float64 * string) :=
  (λ e, (FormatFloat (Score e), Score e, Member e)) <$> l.

Lemma score_args k l :
  Some k :: concat ((λ e, [Some (FormatFloat (Score e)); Some (Member e)]) <$> l) = zargs k (CAdd (score_pairs l)).
Proof.
  unfold zargs, score_pairs. rewrite fmap_cons, <-list_fmap_compose. f_equal.
  induction l as [|e l IH]; [done|]. rewrite !fmap_cons. cbn [concat]. by rewrite IH, fmap_app.
Qed.

Lemma add_all_elements (l : list Element) (m m0 : scores) :
  (∀ e, e ∈ l → m !! Member e = Some (Score e)) →
  (∀ f, m !! f ≠ None → m0 !! f = m !! f ∨ f ∈ Member <$> l) →
  (∀ f s, m0 !! f = Some s → m !! f = Some s) → add_all (score_pairs l) m0 = m.
Proof.
  revert m0. induction l as [|e l IH]; intros m0 Hl Hc Hs.
  - apply map_eq. intros f. cbn. destruct (m !! f) as [s|] eqn:E.
    + destruct (Hc f) as [->|Hf]; [by rewrite E|done|by apply elem_of_nil in Hf].
    + destruct (m0 !! f) eqn:E0; [|done]. by rewrite (Hs _ _ E0) in E.
  - cbn. apply IH; [set_solver| |].
    + intros f Hf. destruct (decide (f = Member e)) as [->|Hne].
      * left. rewrite lookup_insert_eq. by rewrite (Hl e) by set_solver.
      * rewrite lookup_insert_ne by done. destruct (Hc f Hf) as [?|?]; [by left|right]. set_solver.
    + intros f s. destruct (decide (f = Member e)) as [->|Hne]; [|rewrite lookup_insert_ne by done; apply Hs].
      rewrite lookup_insert_eq. intros [= <-]. apply Hl. set_solver.
Qed.

Lemma rebuilds_zset (m : scores) : m ≠ ∅ → proper_map m → map_Forall (λ _ s, ParseFloat (FormatFloat s) = Some s) m →
  rebuilds "ZADD" (concat ((λ e, [Some (FormatFloat (Score e)); Some (Member e)]) <$> reverse (zsorted m))) (CZSet m).
Proof.
  intros Hm Hpr Hf k w Hk Ht. set (pairs := score_pairs (reverse (zsorted m))).
  assert (zcmd_ok (CAdd pairs) ∅) as Hok.
  { split.
    - unfold pairs, score_pairs. intros E. apply fmap_nil_inv in E. apply (f_equal length) in E.
      rewrite length_reverse, zsorted_length in E. by apply map_size_empty_inv in E.
    - apply Forall_fmap, Forall_forall. intros e He. apply elem_of_reverse, elem_of_zsorted in He.
      split; [by apply (Hf _ _ He)|by apply (Hpr _ _ He)]. }
  assert (Some k :: concat ((λ e, [Some (FormatFloat (Score e)); Some (Member e)]) <$> reverse (zsorted m)) = zargs k (CAdd pairs)) as Eargs.
  { by rewrite score_args. }
  rewrite Eargs. erewrite (execWithLock_handler "ZADD" _ _ execZAdd); [|reflexivity..|].
  - destruct (run_add k pairs ∅ w Ht) as (r & w' & E & Hr & Hz & Htt & Ho); [by unfold zset_at; rewrite Hk|exact Hok|].
    cbn [znext] in Hz.
    assert (add_all pairs ∅ = m) as Em.
    { apply add_all_elements; [intros e He; by apply elem_of_reverse, elem_of_zsorted in He| |done].
      intros f Hfn. right. destruct (m !! f) as [s|] eqn:E0; [|done].
      apply list_elem_of_fmap. exists (mkElement f s). split; [done|]. by apply elem_of_reverse, elem_of_zsorted. }
    rewrite Em in Hz. unfold zset_at in Hz. destruct (v_store w' !! k) as [[| | | |z]|] eqn:Ek; try done.
    exists r, (DZSet z), w'. split_and!; [done| |done| |done].
    + unfold IsErrorReply. rewrite Hr. reflexivity.
    + apply map_eq. intros k'. destruct (decide (k' = k)) as [->|Hne]; [by rewrite lookup_insert_eq|].
      by rewrite lookup_insert_ne, Ho by done.
  - unfold validateArity, zargs. cbn [length]. rewrite length_fmap. cbn [length]. rewrite pairs_length. simpl.
    destruct pairs; [by destruct Hok|]. cbn [length]. apply Z.geb_le. lia.
Qed.

(** ** The line of a value *)

Definition fair : Prop := ∀ n, fair_order (map_order n).

(** The wire carries bytes, not nil. *)
Definition no_nil (c : content) : Prop :=
  match c with
  | CString b => is_Some b
  | CList xs => Forall is_Some xs
  | CHash m => map_Forall (λ _ v, is_Some v) m
  | _ => True
  end.

Lemma pass_args l acc :
  pass (λ e acc, (true, acc ++ [Some (FormatFloat (Score e)); Some (Member e)])) l acc =
  acc ++ concat ((λ e, [Some (FormatFloat (Score e)); Some (Member e)]) <$> l).
Proof.
  revert acc. induction l as [|e l IH]; intros acc; cbn; [by rewrite app_nil_r|]. rewrite IH, <-app_assoc. done.
Qed.

(** The commands that make a value. *)
Definition rebuilders : list string := ["SET"; "RPUSH"; "HMSET"; "SADD"; "ZADD"].

Lemma EntityToCmd_line k e c w : fair → stands_for e c → writable c →
  ∃ n rest draws, (EntityToCmd k e w : outcome CmdLine * View) =
      (Ret (Some n :: Some k :: rest), mkView (v_store w) (v_ttl w) (v_aof w) draws) ∧
    rebuilds n rest c ∧ (no_nil c → Forall is_Some rest) ∧ n ∈ rebuilders.
Proof.
  intros Hfair Hs Hw. destruct e as [b|l|d|s|z], c as [b'|xs|m|X|m]; try done; cbn [stands_for] in Hs; cbn [EntityToCmd].
  - subst b'. exists "SET", [b], (v_draws w). split_and!; [by destruct w|apply rebuilds_string|by repeat constructor|set_solver].
  - destruct Hs as [Hwf Hl]. exists "RPUSH", xs, (v_draws w). split_and!; [|by apply rebuilds_list|done|set_solver].
    unfold go_lift, listToCmd. rewrite QList.ForEach_spec by done. cbn [mbind outcome_bind].
    rewrite fold_until_collect, Hl. by destruct w.
  - exists "HMSET", (concat ((λ kv : string * bytes, [Some kv.1; kv.2]) <$> Simple.ForEach (map_order (v_draws w)) d)), (S (v_draws w)).
    assert (Simple.ForEach (map_order (v_draws w)) d ≡ₚ map_to_list m) as Hp by (rewrite <-Hs; by apply range_map_perm).
    split_and!; [by destruct w|by apply rebuilds_hash| |set_solver].
    intros Hn. apply Forall_concat, Forall_fmap, Forall_forall. intros [f v] Hfv. rewrite Hp in Hfv.
    apply elem_of_map_to_list in Hfv. repeat constructor; [done|]. by apply (Hn _ _ Hfv).
  - set (ms := Sets.ForEach (map_order (v_draws w)) (Some s)). exists "SADD", (Some <$> ms), (S (v_draws w)).
    assert (ms ≡ₚ elements X) as Hp by (rewrite <-Hs; by apply (Sets.ForEach_perm _ (Some s))).
    split_and!; [by destruct w| |intros _; apply Forall_fmap, Forall_true; by intros; eexists|set_solver]. apply rebuilds_set.
    + intros E. rewrite E in Hp. apply Permutation_nil in Hp. by apply elements_empty_inv, leibniz_equiv in Hp.
    + apply leibniz_equiv. intros x. rewrite elem_of_list_to_set, Hp. apply elem_of_elements.
  - destruct Hw as [Hm Hf]. eexists "ZADD", _, (v_draws w).
    split_and!; [|exact (rebuilds_zset m Hm (ok_proper _ _ Hs) Hf)| |set_solver].
    + unfold go_lift, zSetToCmd. assert (0 < Z.of_nat (size m)) as Hsz.
      { destruct (size m) eqn:E; [by apply map_size_empty_inv in E|lia]. }
      rewrite (Len_ok _ _ Hs), (ForEachByRank_ok _ _ m) by (done || lia). cbn [mbind outcome_bind].
      rewrite pass_args. change (drop (Z.to_nat 0) (listed true m)) with (reverse (zsorted m)). cbn [app].
      rewrite take_ge by (rewrite length_reverse, zsorted_length; lia). by destruct w.
    + intros _. apply Forall_concat, Forall_fmap, Forall_true. intros e. by repeat constructor.
Qed.
End marshal.
