(* ===== verification/DumpLaws.v ===== *)
(** * Moving a key to another node

    The cluster moves a key by DUMPKEY on one node and RENAMETO (or COPYTO) on another:
    the value travels as the bytes of two command lines.  The theorem runs both commands,
    with their locks, on two databases. *)

From Stdlib Require Import ZArith Lia Ascii String.
From stdpp Require Import base gmap strings numbers list.
From S2P Require Import Prelude GoStd Dict QuickList SetDS Protocol Parser DB Marshal StringCmds KeyCmds ClusterHelper Router Exec Tx Laws CollLaws Rollback MarshalLaws.

Local Open Scope string_scope.
Local Open Scope list_scope.
Local Open Scope Z_scope.
Local Open Scope go_scope.

#[local] Opaque cmdTable storeTable.

(** ** One line over the wire *)

Lemma ParseOne_line (line : CmdLine) : line ≠ [] → Forall is_Some line → sendable (MultiBulkReply line) →
  ParseOne (ToBytes (MultiBulkReply line)) = Ret (inr (MultiBulkReply line)).
Proof.
  intros Hne Hs Hok. unfold ParseOne, parse0.
  assert (encode_all [MultiBulkReply line] = ToBytes (MultiBulkReply line)) as E by (unfold encode_all; simpl; by rewrite string_app_nil_r).
  rewrite <-E, parse0_loop_replies by (lia || by constructor).
  cbn [mbind outcome_bind fst]. rewrite bind_singleton, as_received_line by done. done.
Qed.

Section load.
Context `{Env} {S : Type} `{Store S}.

(** RENAMETO behind the parsing of its arguments. *)
Definition load (run : CmdLine → GoM S Reply) (key : string) (dumpCmd ttlCmd : CmdLine) : GoM S Reply :=
  _ ← Remove key;
  dumpResult ← run dumpCmd;
  isErr ← go_lift (IsErrorReply dumpResult);
  if (isErr : bool) then mret dumpResult
  else
    ttlResult ← run ttlCmd;
    isErr ← go_lift (IsErrorReply ttlResult);
    if (isErr : bool) then mret ttlResult else mret OkReply.

Lemma parse_dump_run what n k0 rest k (s : S) :
  Forall is_Some rest → sendable (MultiBulkReply (Some n :: Some k0 :: rest)) →
  parse_dump what (Some (ToBytes (MultiBulkReply (Some n :: Some k0 :: rest)))) (Some k) s =
  (Ret (inr (Some n :: Some k :: rest)), s).
Proof.
  intros Hr Hs. unfold parse_dump, go_lift, mbind, gom_bind. set (line := Some n :: _) in *.
  assert (ParseOne (str (Some (ToBytes (MultiBulkReply line)))) = Ret (inr (MultiBulkReply line))) as ->; [|done].
  apply ParseOne_line; [done| |done]. by repeat constructor.
Qed.

Lemma execRenameTo_load run n k0 rest n' rest' k (s : S) :
  Forall is_Some rest → sendable (MultiBulkReply (Some n :: Some k0 :: rest)) →
  Forall is_Some rest' → sendable (MultiBulkReply (Some n' :: Some k0 :: rest')) →
  execRenameTo run [Some k; Some (ToBytes (MultiBulkReply (Some n :: Some k0 :: rest)));
                    Some (ToBytes (MultiBulkReply (Some n' :: Some k0 :: rest')))] s =
  load run k (Some n :: Some k :: rest) (Some n' :: Some k :: rest') s.
Proof.
  intros H1 H2 H3 H4. unfold execRenameTo. do 2 (erewrite bind_Ret by reflexivity).
  erewrite early_inr by (by apply parse_dump_run). erewrite bind_Ret by reflexivity.
  erewrite early_inr by (by apply parse_dump_run). reflexivity.
Qed.
End load.

(** ** The tables *)

Definition nested : list string := ["renameto"; "renamenxto"; "copyto"; "georadius"; "georadiusbymember"].

Lemma fullTable_lookup `{Env} {S : Type} `{Store S} (base : Table S) fuel n : n ∉ nested → fullTable base fuel !! n = base !! n.
Proof.
  intros Hn. unfold nested in Hn. rewrite !not_elem_of_cons in Hn. destruct Hn as (H1 & H2 & H3 & H4 & H5 & _).
  destruct fuel; cbn [fullTable]; unfold register, init_nested; cbn [foldl]; rewrite !lookup_insert_ne; done || by apply not_eq_sym.
Qed.

Lemma execWithLock_full `{Env} {S : Type} `{Store S} (base : Table S) fuel line : command_name line ∉ nested →
  execWithLock (fullTable base fuel) line = execWithLock base line.
Proof.
  intros Hn. unfold execWithLock. do 2 f_equal. unfold find_command, arg_at. unfold command_name in Hn.
  destruct (line !! 0%nat); [|done]. cbn [mbind outcome_bind]. by rewrite fullTable_lookup.
Qed.

(** ** The specification *)

Section runs.
Context `{Env}.

(** The expiry time behind a trip through milliseconds. *)
Definition millis_of (t : Z) : Z := Z.quot (Z.quot t 1000) 1000.

Definition moved_ttl (k : string) (o : option Z) (m : gmap string Z) : gmap string Z :=
  match o with None => delete k m | Some t => <[k := millis_of t * 1000000]> m end.

Lemma persist_run k w e : v_store w !! k = Some e → v_ttl w !! k = None →
  execWithLock storeTable [Some "PERSIST"; Some k] w = (Ret (IntReply 0), w).
Proof.
  intros Hk Ht. erewrite (execWithLock_handler "PERSIST" [Some k] _ execPersist) by reflexivity.
  unfold execPersist. erewrite bind_Ret by reflexivity. cbv zeta. change (str (Some k)) with k.
  erewrite bind_Ret by (by apply GetEntity_no_ttl). rewrite Hk. unfold mbind, gom_bind. cbn. by rewrite Ht.
Qed.

Lemma pexpireat_run k w e ms : v_store w !! k = Some e → v_ttl w !! k = None → is_int64 ms → is_int64 (ms * 1000000) →
  ∃ w', execWithLock storeTable [Some "PEXPIREAT"; Some k; Some (FormatInt ms)] w = (Ret (IntReply 1), w') ∧
    v_store w' = v_store w ∧ v_ttl w' = <[k := ms * 1000000]> (v_ttl w).
Proof.
  intros Hk Ht H1 H2. erewrite (execWithLock_handler "PEXPIREAT" _ _ execPExpireAt) by reflexivity.
  unfold execPExpireAt. do 2 (erewrite bind_Ret by reflexivity). change (str (Some (FormatInt ms))) with (FormatInt ms).
  rewrite ParseInt_FormatInt by done. change (str (Some k)) with k. unfold expire_at.
  erewrite bind_Ret by (by apply GetEntity_no_ttl). rewrite Hk. rewrite int64_id by done.
  eexists. split; [reflexivity|]. done.
Qed.

(** The line of [toTTLCmd]. *)
Definition ttl_line (k : string) (o : option Z) : CmdLine :=
  match o with
  | None => [Some "PERSIST"; Some k]
  | Some t => [Some "PEXPIREAT"; Some k; Some (FormatInt (millis_of t))]
  end.

Definition time_ok (o : option Z) : Prop := match o with Some t => is_int64 t | None => True end.

Lemma millis_int64 t : is_int64 t → is_int64 (millis_of t) ∧ is_int64 (millis_of t * 1000000).
Proof.
  unfold is_int64, int64_min, int64_max, millis_of. intros Ht. rewrite Z.quot_quot by lia. change (1000 * 1000) with 1000000.
  Z.to_euclidean_division_equations. lia.
Qed.

Lemma load_run n rest c k o w : rebuilds n rest c → time_ok o →
  ∃ e w', load (execWithLock storeTable) k (Some n :: Some k :: rest) (ttl_line k o) w = (Ret OkReply, w') ∧
    stands_for e c ∧ v_store w' = <[k := e]> (v_store w) ∧ v_ttl w' = moved_ttl k o (v_ttl w).
Proof.
  intros Hr Ho. unfold load. set (w1 := mkView (delete k (v_store w)) (delete k (v_ttl w)) (v_aof w) (v_draws w)).
  erewrite (bind_Ret _ _ _ _ w1) by reflexivity.
  destruct (Hr k w1) as (r & e & w2 & E2 & He & Hc & Hs2 & Ht2); [apply lookup_delete_eq..|].
  erewrite bind_Ret by exact E2. unfold go_lift. rewrite He. erewrite bind_Ret by reflexivity. cbv iota.
  assert (v_store w2 !! k = Some e) as Hk by (rewrite Hs2; apply lookup_insert_eq).
  assert (v_ttl w2 !! k = None) as Hn by (rewrite Ht2; apply lookup_delete_eq).
  assert (<[k := e]> (v_store w1) = <[k := e]> (v_store w)) as Ei by apply insert_delete_eq.
  exists e. destruct o as [t|]; cbn [ttl_line moved_ttl].
  - destruct (millis_int64 t Ho) as [H1 H2]. destruct (pexpireat_run k w2 e _ Hk Hn H1 H2) as (w3 & E3 & Hs3 & Ht3).
    exists w3. erewrite bind_Ret by exact E3. split_and!; [reflexivity|done|by rewrite Hs3, Hs2|].
    rewrite Ht3, Ht2. apply insert_delete_eq.
  - exists w2. erewrite bind_Ret by (by eapply persist_run). split_and!; [reflexivity|done|by rewrite Hs2|done].
Qed.

(** ** The databases *)

Lemma refines_load run run' k dl tl : refines any (run dl) (run' dl) → refines any (run tl) (run' tl) →
  refines any (load run k dl tl : GoM DB Reply) (load run' k dl tl : GoM View Reply).
Proof.
  intros H1 H2. unfold load. eapply refines_bind; [apply refines_Remove|]. intros _ _.
  eapply refines_bind; [exact H1|]. intros r _. eapply refines_bind; [apply refines_lift, IsErrorReply_post|].
  intros [] _; [by apply refines_ret|]. eapply refines_bind; [exact H2|]. intros r' _.
  eapply refines_bind; [apply refines_lift, IsErrorReply_post|]. intros [] _; by apply refines_ret.
Qed.

Lemma dump_run k e c w : fair → v_store w !! k = Some e → stands_for e c → writable c → no_nil c →
  time_ok (v_ttl w !! k) → (∀ t, v_ttl w !! k = Some t → time_now (v_draws w) ≤ t) →
  ∃ n rest w1 w', execDumpKey [Some k] w =
      (Ret (MultiBulkReply [Some (ToBytes (MultiBulkReply (Some n :: Some k :: rest)));
                            Some (ToBytes (MultiBulkReply (ttl_line k (v_ttl w !! k))))]), w') ∧
    (EntityToCmd k e w1).1 = Ret (Some n :: Some k :: rest) ∧ rebuilds n rest c ∧ Forall is_Some rest ∧ n ∈ rebuilders ∧
    v_store w' = v_store w ∧ v_ttl w' = v_ttl w.
Proof.
  intros Hf Hk Hs Hw Hn Ht Hlive. unfold execDumpKey. erewrite bind_Ret by reflexivity. cbv zeta. change (str (Some k)) with k.
  assert (∃ w1, GetEntity k w = (Ret (Some e), w1) ∧ v_store w1 = v_store w ∧ v_ttl w1 = v_ttl w) as (w1 & E1 & Hs1 & Ht1).
  { simpl. unfold ViewOps.GetEntity. rewrite Hk. destruct (v_ttl w !! k) as [t|] eqn:Et; [|by exists w].
    cbn. rewrite Z.gtb_ltb, (proj2 (Z.ltb_ge _ _)) by (by apply Hlive). by eexists. }
  erewrite bind_Ret by exact E1. destruct (EntityToCmd_line k e c w1 Hf Hs Hw) as (n & rest & draws & E2 & Hr & Hsome & Hin).
  erewrite bind_Ret by exact E2. set (w2 := mkView _ _ _ draws).
  exists n, rest, w1, w2. split_and!; [|by rewrite E2|done|by apply Hsome|done|done|done].
  erewrite (bind_Ret (toTTLCmd k) _ w2 (ttl_line k (v_ttl w !! k)) w2); [done|].
  unfold toTTLCmd, mbind, gom_bind. cbn. rewrite Ht1. destruct (v_ttl w !! k) as [t|]; [|done]. by rewrite int64_id.
Qed.

Lemma execWithLock_base fuel line : log_line line → execWithLock (register cmdTable (init_scans ++ init_random fuel)) line = execWithLock cmdTable line.
Proof.
  intros Hl%specified_bounded. unfold execWithLock, find_command, arg_at. unfold command_name in Hl. destruct (line !! 0%nat) as [a|]; [|done].
  cbn [mbind outcome_bind]. unfold register, init_scans, init_random. cbn [app foldl].
  rewrite !lookup_insert_ne; [done|..]; intros E; apply Hl; simpl; rewrite <-E; by apply (bool_decide_eq_true_1 (_ ∈ _)).
Qed.

Lemma fullTable_renameto {S} `{Store S} (base : Table S) fuel :
  fullTable base (Datatypes.S fuel) !! "renameto" =
  Some (registerCommand "RenameTo" (execRenameTo (execWithLock (fullTable base fuel))) writeFirstKey (Some rollbackFirstKey) 4 flagWrite).
Proof.
  cbn [fullTable]. unfold register, init_nested. cbn [foldl]. rewrite !lookup_insert_ne by done. by rewrite lookup_insert_eq.
Qed.

(** [C11] A key moves to another node as it is: DUMPKEY on one database and RENAMETO, under any
    name, on another leave there a value with the same content, for every type of value
    (strings, lists, hashes, sets and sorted sets), whatever was under that name before, with
    the expiry time of the source to the millisecond, or none; no other key changes, and both
    databases are ready for the next command.  The value is one that the wire can carry:
    collections are not empty, no element is nil, scores read back from their text, and the
    lines fit the parser's buffers. *)
Theorem dump_restores (k k' : string) (e : DataEntity) (c : content) (src dst : DB) (fuel : nat) :
  ready src → ready dst → fair → v_store (view src) !! k = Some e → stands_for e c → writable c → no_nil c →
  time_ok (v_ttl (view src) !! k) → (∀ t, v_ttl (view src) !! k = Some t → time_now (v_draws (view src)) ≤ t) →
  (∀ w line, (EntityToCmd k e (w : View)).1 = Ret line → sendable (MultiBulkReply line)) →
  sendable (MultiBulkReply (ttl_line k (v_ttl (view src) !! k))) →
  let r1 := exec "DUMPKEY" [Some k] src in
  ∃ d t, r1.1 = Ret (MultiBulkReply [Some d; Some t]) ∧ ready r1.2 ∧ v_store (view r1.2) = v_store (view src) ∧
    let r2 := execNormalCommand (goTable (S fuel)) [Some "RENAMETO"; Some k'; Some d; Some t] dst in
    r2.1 = Ret OkReply ∧ ready r2.2 ∧
    ∃ e', stands_for e' c ∧ v_store (view r2.2) = <[k' := e']> (v_store (view dst)) ∧
      v_ttl (view r2.2) = moved_ttl k' (v_ttl (view src) !! k) (v_ttl (view dst)).
Proof.
  intros Hr [Hok2 Hu2] Hf Hk Hs Hw Hn Ht Hlive Hsend Hsendt r1. set (o := v_ttl (view src) !! k) in *.
  run_command "DUMPKEY" [Some k] src H1 H2 H3. fold r1 in H1, H2, H3. clearbody r1.
  destruct (dump_run k e c (view src) Hf Hk Hs Hw Hn Ht Hlive) as (n & rest & w1 & w' & E & El & Hreb & Hsome & Hin & Hs' & _).
  fold o in E. rewrite E in H1, H2. cbn [fst snd] in H1, H2. apply Hsend in El.
  set (dl := Some n :: Some k :: rest) in *. eexists _, _. split; [exact H1|]. split; [done|]. split; [by rewrite H2|].
  assert (∃ n' rest', ttl_line k o = Some n' :: Some k :: rest' ∧ ttl_line k' o = Some n' :: Some k' :: rest' ∧ Forall is_Some rest')
    as (n' & rest' & Et & Et' & Hsome') by (destruct o; eexists _, _; split_and!; try reflexivity; by repeat constructor).
  rewrite Et in Hsendt |- *. cbv zeta. rewrite execNormalCommand_eq.
  set (base := register cmdTable (init_scans ++ init_random (S fuel))). set (run := execWithLock (fullTable base fuel)).
  set (cmd := registerCommand "RenameTo" (execRenameTo run) writeFirstKey (Some rollbackFirstKey) 4 flagWrite).
  set (line := [Some "RENAMETO"; Some k'; _; _]).
  assert (find_command (goTable (S fuel)) line = Ret (inr cmd)) as ->.
  { unfold goTable. fold base. unfold find_command, arg_at. change (line !! 0%nat) with (Some (Some "RENAMETO")). cbn [mbind outcome_bind].
    change (ToLower (str (Some "RENAMETO"))) with "renameto". by rewrite fullTable_renameto. }
  change (call_prepare cmd line) with (Ret ([k'], @nil string)). cbn [fst snd].
  assert (command_name (Some n :: Some k' :: rest) ∉ nested ∧ log_line (Some n :: Some k' :: rest)) as [Hn1 Hn2].
  { unfold rebuilders in Hin. repeat (apply elem_of_cons in Hin as [->|Hin]; [split; [set_solver|done]|]). by apply elem_of_nil in Hin. }
  assert (command_name (ttl_line k' o) ∉ nested ∧ log_line (ttl_line k' o)) as [Hn3 Hn4] by (destruct o; (split; [set_solver|done])).
  destruct (load_run n rest c k' o (view dst) Hreb Ht) as (e' & w2 & E2 & Hc & Hs2 & Ht2).
  assert (∀ db, call_executor cmd line db = load run k' (Some n :: Some k' :: rest) (ttl_line k' o) db) as Ecall.
  { intros db. rewrite Et'. by apply execRenameTo_load. }
  assert (refines any (call_executor cmd line) (load (execWithLock storeTable) k' (Some n :: Some k' :: rest) (ttl_line k' o))) as Hload.
  { intros db Hdb. rewrite Ecall. revert db Hdb. apply refines_load; unfold run; rewrite execWithLock_full by done; unfold base; rewrite execWithLock_base by done; by apply execWithLock_refines. }
  destruct (locked_effect (call_executor cmd line) [k'] [] dst Hok2 Hu2 (refines_safe _ _ _ Hload))
    as (dbl & Hokl & Hvl & G1 & G2 & G3 & G4 & _ & _).
  destruct (Hload dbl Hokl) as (F1 & F2 & _). rewrite Hvl, E2 in F1, F2. cbn [fst snd] in F1, F2.
  split; [by rewrite G1|]. split; [by split|]. exists e'. rewrite G2, F2. split; [exact Hc|]. split; [exact Hs2|exact Ht2].
Qed.
End runs.

(** ** Example *)

#[local] Existing Instance demo_env.

Lemma demo_list_entity : ∃ e, v_store (view demo_list) !! "l" = Some e ∧ stands_for e (CList [Some "a"; Some "b"; Some "c"]).
Proof.
  pose proof demo_list_at as Hl. unfold list_at in Hl. destruct (v_store (view demo_list) !! "l") as [[]|]; try done. by eexists.
Qed.

(** The list moves from one database to the name "m" of another. *)
Lemma dump_restores_witness :
  ∃ d t, (exec "DUMPKEY" [Some "l"] demo_list).1 = Ret (MultiBulkReply [Some d; Some t]) ∧
    let r2 := execNormalCommand (goTable 1) [Some "RENAMETO"; Some "m"; Some d; Some t] demo_db in
    r2.1 = Ret OkReply ∧ list_at (view r2.2) "m" [Some "a"; Some "b"; Some "c"].
Proof.
  destruct demo_list_entity as (e & Hk & Hs).
  destruct (dump_restores "l" "m" e (CList [Some "a"; Some "b"; Some "c"]) demo_list demo_db 0 ready_list ready_demo)
    as (d & t & H1 & _ & _ & H2 & _ & e' & Hc & Hs' & _); [by intros n ks|done|done|done|by repeat constructor|..].
  - rewrite demo_list_ttl. exact I.
  - intros t. rewrite demo_list_ttl. intros Hx. discriminate Hx.
  - intros w line. destruct e as [|l| | |]; [destruct Hs| |destruct Hs..]. destruct Hs as [Hwf Hl]. cbn. unfold listToCmd.
    rewrite QList.ForEach_spec, fold_until_collect, Hl by done. intros [= <-]. split; [by repeat constructor|done].
  - rewrite demo_list_ttl. split; [by repeat constructor|done].
  - exists d, t. split; [exact H1|]. split; [exact H2|]. unfold list_at. rewrite Hs', lookup_insert_eq. by destruct e'.
Defined.
