(* ===== verification/Cluster.v ===== *)
(** * cluster/core: nodes, routing and the execution of a command line

    A network is a set of nodes.  A node has a storage engine, its copy of the raft state
    machine, the table of its slots and the transactions it takes part in.  A command line
    that arrives at a node is executed there, or relayed to the node that hosts its key; a
    relayed line is executed by the other node before the call returns, as with the
    connections of connection_inmem.go.  A call that needs more relays than its fuel, or
    waits for a lock, is [Block].

    The engine is known by the class [Engine], the part of the interface
    [database.DBEngine] that the cluster uses.  Handlers may write into the command line
    they are given, and the slow log keeps the line after that, so a handler returns the line
    beside its reply. *)

From Stdlib Require Import ZArith Lia Ascii String.
From stdpp Require Import base gmap strings numbers list.
From S2P Require Import Prelude GoStd Dict SetDS Protocol DB SlowLog StringCmds Conn RaftFSM.

Local Open Scope string_scope.
Local Open Scope list_scope.
Local Open Scope Z_scope.
Local Open Scope go_scope.

(** ** crc32 *)

(** [crc32.ChecksumIEEE], bit by bit. *)
Definition crc_bit (crc : Z) : Z :=
  if Z.odd crc then Z.lxor (Z.shiftr crc 1) 3988292384 else Z.shiftr crc 1.

Definition crc_byte (crc : Z) (b : ascii) : Z :=
  let x := Z.lxor crc (byte_val b) in
  crc_bit (crc_bit (crc_bit (crc_bit (crc_bit (crc_bit (crc_bit (crc_bit x))))))).

Definition ChecksumIEEE (s : string) : Z :=
  Z.lxor (foldl crc_byte 4294967295 (list_ascii_of_string s)) 4294967295.

Module Cluster.

Definition nil_deref : string := "invalid memory address or nil pointer dereference".

(** A call that never returns. *)
Definition wait_for_ever {S A} : GoM S A := λ s, (Block, s).

(** ** Data *)

Record TCC := mkTCC {
  realCmdLine : CmdLine;
  undoLogs : list CmdLine;
  writeKeys : list string;
  readKeys : list string;
  hasLock : bool
}.

Definition slotStateHosting : Z := 0.
Definition slotStateImporting : Z := 1.
Definition slotStateExporting : Z := 2.

(** [mu] says that a call holds the mutex of the slot. *)
Record slotStatus := mkSlot {
  mu : bool;
  state : Z;
  keys : Sets.SimpleSet;
  exportSnapshot : option Sets.SimpleSet;
  dirtyKeys : option Sets.SimpleSet
}.

Record slotsManager_ := mkSlots {
  slots : gmap Z slotStatus;
  importingTask : option (Raft.MigratingTask Raft.Slice)
}.

(** What the handlers start in the background: the import of a task, and the removal of
    slots that were exported. *)
Inductive Job :=
  | Import (task : Raft.MigratingTask Raft.Slice)
  | DropSlots (indexes : list Z).

(** The engine that a node embeds.  A connection is a number; the engine keeps its state.
    The key events are those that the callbacks of the engine have not been called for. *)
Class Engine (E : Type) := {
  eng_Exec : nat → CmdLine → GoM E Reply;
  eng_ExecWithLock : nat → CmdLine → GoM E Reply;
  eng_GetRelatedKeys : CmdLine → outcome (list string * list string);
  eng_GetUndoLogs : Z → CmdLine → GoM E (list CmdLine);
  eng_RWLocks : Z → list string → list string → GoM E unit;
  eng_RWUnLocks : Z → list string → list string → GoM E unit;
  eng_GetEntity : Z → string → GoM E (option DataEntity);
  eng_GetExpiration : Z → string → GoM E (option Z);
  eng_GetDBSize : Z → GoM E (Z * Z);
  eng_Auth : nat → list bytes → GoM E Reply;
  eng_Info : option (list bytes → GoM E Reply);
  eng_conn : E → nat → Conn.Connection;
  eng_Name : nat → string;
  eng_events : E → list KeyEvent * E
}.

Section cluster.
Context `{Env} {E : Type} `{Engine E}.

Record Node := mkNode {
  db : E;
  fsm : Raft.FSM;
  slotsManager : slotsManager_;
  transactions : gmap string TCC;
  deadlines : list string;
  masterHeartbeats : gmap string Z;
  slogLogger : SlowLog.SlowLogger
}.

Definition set_db (n : Node) (x : E) : Node :=
  mkNode x (fsm n) (slotsManager n) (transactions n) (deadlines n) (masterHeartbeats n) (slogLogger n).
Definition set_fsm (n : Node) (x : Raft.FSM) : Node :=
  mkNode (db n) x (slotsManager n) (transactions n) (deadlines n) (masterHeartbeats n) (slogLogger n).
Definition set_slots (n : Node) (x : slotsManager_) : Node :=
  mkNode (db n) (fsm n) x (transactions n) (deadlines n) (masterHeartbeats n) (slogLogger n).
Definition set_txs (n : Node) (x : gmap string TCC) : Node :=
  mkNode (db n) (fsm n) (slotsManager n) x (deadlines n) (masterHeartbeats n) (slogLogger n).
Definition set_deadlines (n : Node) (x : list string) : Node :=
  mkNode (db n) (fsm n) (slotsManager n) (transactions n) x (masterHeartbeats n) (slogLogger n).
Definition set_heartbeats (n : Node) (x : gmap string Z) : Node :=
  mkNode (db n) (fsm n) (slotsManager n) (transactions n) (deadlines n) x (slogLogger n).
Definition set_slog (n : Node) (x : SlowLog.SlowLogger) : Node :=
  mkNode (db n) (fsm n) (slotsManager n) (transactions n) (deadlines n) (masterHeartbeats n) x.

(** [ticks] counts the readings of the clock, the orders of map iterations and the random
    numbers; [next_conn] is the number of the next connection between nodes, [written] what
    was written to them, and [background] the goroutines that have not run yet. *)
Record Net := mkNet {
  nodes : gmap string Node;
  ticks : nat;
  next_conn : nat;
  written : gmap nat string;
  background : list (string * Job)
}.

Definition set_nodes (w : Net) (x : gmap string Node) : Net := mkNet x (ticks w) (next_conn w) (written w) (background w).
Definition tick (w : Net) : Net := mkNet (nodes w) (S (ticks w)) (next_conn w) (written w) (background w).

Definition Now : GoM Net Z := λ w, (Ret (time_now (ticks w)), tick w).
Definition Order : GoM Net range_order := λ w, (Ret (map_order (ticks w)), tick w).
Definition Intn (n : Z) : GoM Net Z := λ w, (Ret (rand_Uint64 (ticks w) mod n), tick w).

(** [connection.NewFakeConn()]. *)
Definition NewFakeConn : GoM Net nat := λ w, (Ret (next_conn w), mkNet (nodes w) (ticks w) (S (next_conn w)) (written w) (background w)).

(** [c.Write(b)]. *)
Definition Write (c : nat) (b : string) : GoM Net unit :=
  go_modify (λ w, mkNet (nodes w) (ticks w) (next_conn w) (<[c := default "" (written w !! c) +:+ b]> (written w)) (background w)).

(** [go func() { ... }()] at a node. *)
Definition spawn (self : string) (j : Job) : GoM Net unit :=
  go_modify (λ w, mkNet (nodes w) (ticks w) (next_conn w) (written w) (background w ++ [(self, j)])).

(** ** Random names *)

Definition letters : string := "abcdefghijklmnopqrstuvwxyzABCDEFGHIJKLMNOPQRSTUVWXYZ0123456789".

Fixpoint RandString (n : nat) : GoM Net string :=
  match n with
  | O => mret ""
  | S n' =>
      i ← Intn (slen letters);
      s ← RandString n';
      mret (substr letters i (i + 1) +:+ s)
  end.

(** ** Access to a node *)

(** A computation on the fields of the node; a peer that is not in the map is a nil pointer. *)
Definition at_node {A} (self : string) (m : GoM Node A) : GoM Net A := λ w,
  match nodes w !! self with
  | None => (Panic nil_deref, w)
  | Some n => let '(o, n') := m n in (o, set_nodes w (<[self := n']> (nodes w)))
  end.

(** *** Slots *)

Section routing.
(** [cluster.getSlotImpl] and [cluster.pickNodeImpl]. *)
Context (getSlotImpl : string → outcome Z) (pickNodeImpl : Node → Z → string).

Definition fresh_slot : slotStatus := mkSlot false slotStateHosting (Sets.Make []) None None.

Definition put_slot (index : Z) (s : slotStatus) : GoM slotsManager_ unit :=
  go_modify (λ ssm, mkSlots (<[index := s]> (slots ssm)) (importingTask ssm)).

(** [getSlot]: the status of a slot, made when it is missing. *)
Definition getSlot (index : Z) : GoM slotsManager_ slotStatus :=
  slot ← go_get (λ ssm, slots ssm !! index);
  match slot with
  | Some s => mret s
  | None => _ ← put_slot index fresh_slot; mret fresh_slot
  end.

Definition set_mu (s : slotStatus) (b : bool) : slotStatus := mkSlot b (state s) (keys s) (exportSnapshot s) (dirtyKeys s).

(** [slotManager.mu.Lock()]. *)
Definition slot_Lock (index : Z) : GoM slotsManager_ unit :=
  s ← getSlot index;
  if mu s then wait_for_ever else put_slot index (set_mu s true).

Definition slot_Unlock (index : Z) : GoM slotsManager_ unit :=
  s ← getSlot index;
  if mu s then put_slot index (set_mu s false)
  else go_panic "sync: unlock of unlocked mutex".

Definition set_keys (s : slotStatus) (k : Sets.SimpleSet) : slotStatus :=
  mkSlot (mu s) (state s) k (exportSnapshot s) (dirtyKeys s).

(** [slotManager.dirtyKeys.Add(key)] while the slot is exported. *)
Definition mark_dirty (s : slotStatus) (key : string) : outcome slotStatus :=
  if state s =? slotStateExporting then
    match dirtyKeys s with
    | None => Panic nil_deref
    | Some d => Ret (mkSlot (mu s) (state s) (keys s) (exportSnapshot s) (Some (Sets.Add d key).1))
    end
  else Ret s.

(** The callbacks of [injectInsertCallback] and [injectDeleteCallback]. *)
Definition key_callback (key : string) (change : Sets.SimpleSet → Sets.SimpleSet) : GoM slotsManager_ unit :=
  slotIndex ← go_lift (getSlotImpl key);
  _ ← getSlot slotIndex;
  _ ← slot_Lock slotIndex;
  go_defer (slot_Unlock slotIndex)
    (s ← getSlot slotIndex;
     _ ← put_slot slotIndex (set_keys s (change (keys s)));
     s' ← go_lift (mark_dirty (set_keys s (change (keys s))) key);
     put_slot slotIndex s').

Definition on_event (e : KeyEvent) : GoM slotsManager_ unit :=
  match e with
  | KeyInserted _ key _ => key_callback key (λ s, (Sets.Add s key).1)
  | KeyDeleted _ key _ => key_callback key (λ s, (Sets.Remove s key).1)
  end.

(** *** The engine *)

(** A call of the engine, and the callbacks of the keys it inserted and deleted.  The engine
    does not read the table of the slots, so it makes no difference that they follow. *)
Definition with_callbacks {A} (m : GoM E A) : GoM (E * slotsManager_) A := λ p,
  let '(o, x) := m p.1 in
  let '(es, x') := eng_events x in
  match go_for es on_event p.2 with
  | (Ret _, ssm) => (o, (x', ssm))
  | (Panic msg, ssm) => (match o with Block => Block | _ => Panic msg end, (x', ssm))
  | (Block, ssm) => (Block, (x', ssm))
  end.

Definition on_engine {A} (m : GoM E A) : GoM Node A := λ n,
  let '(o, p) := with_callbacks m (db n, slotsManager n) in (o, set_slots (set_db n p.1) p.2).

Definition on_slots {A} (m : GoM slotsManager_ A) : GoM Node A := λ n,
  let '(o, ssm) := m (slotsManager n) in (o, set_slots n ssm).

Definition at_db {A} (self : string) (m : GoM E A) : GoM Net A := at_node self (on_engine m).

Definition LocalExec (self : string) (c : nat) (cmdLine : CmdLine) : GoM Net Reply := at_db self (eng_Exec c cmdLine).
Definition LocalExecWithinLock (self : string) (c : nat) (cmdLine : CmdLine) : GoM Net Reply :=
  at_db self (eng_ExecWithLock c cmdLine).

(** [LocalExists]: the ones of [ks] that the node has. *)
Fixpoint LocalExists (self : string) (ks : list string) : GoM Net (list string) :=
  match ks with
  | [] => mret []
  | key :: ks' =>
      e ← at_db self (eng_GetEntity 0 key);
      rest ← LocalExists self ks';
      mret (match e with Some _ => key :: rest | None => rest end)
  end.

(** *** Routes *)

Definition GetSlot (key : string) : GoM Net Z := go_lift (getSlotImpl key).
Definition PickNode (self : string) (slotID : Z) : GoM Net string := at_node self (go_get (λ n, pickNodeImpl n slotID)).

Definition SlotCount : Z := 1024.

(** The hash tag of a key.  A closing brace before the opening one makes the slice
    expression panic. *)
Definition GetPartitionKey (key : string) : outcome string :=
  let beg := Index key "{" in
  if beg =? -1 then Ret key
  else
    let end_ := Index key "}" in
    if (end_ =? -1) || (end_ =? beg + 1) then Ret key
    else if beg + 1 <=? end_ then Ret (substr key (beg + 1) end_)
    else Panic "slice bounds out of range".

Definition defaultGetSlotImpl (key : string) : outcome Z :=
  partitionKey ← GetPartitionKey key;
  Ret (ChecksumIEEE partitionKey mod SlotCount).

Definition defaultPickNodeImpl (n : Node) (slotID : Z) : string := Raft.PickNode (fsm n) slotID.

(** ** Executing a line *)

(** The execution of a line at a node: the handlers get it as an argument. *)
Definition Executor : Type := string → nat → CmdLine → GoM Net (Reply * CmdLine).
Definition CmdFunc : Type := Executor → Executor.

(** A handler that leaves its line as it is. *)
Definition keeps_line (h : string → nat → CmdLine → GoM Net Reply) : string → nat → CmdLine → GoM Net (Reply * CmdLine) :=
  λ self c cmdLine, r ← h self c cmdLine; mret (r, cmdLine).

(** [InMemClient.Send]. *)
Definition Send (exec : Executor) (peer : string) (args : CmdLine) : GoM Net (Reply * CmdLine) :=
  c ← NewFakeConn; exec peer c args.

Definition Relay (exec : Executor) (self : string) (peerId : string) (c : nat) (cmdLine : CmdLine) : GoM Net (Reply * CmdLine) :=
  if String.eqb peerId self then exec self c cmdLine else Send exec peerId cmdLine.

(** The reply alone. *)
Definition Relay_ (exec : Executor) (self peerId : string) (c : nat) (cmdLine : CmdLine) : GoM Net Reply :=
  r ← Relay exec self peerId c cmdLine; mret r.1.

Definition DefaultFunc : CmdFunc := λ exec self c args,
  a1 ← arg args 1;
  slotId ← GetSlot (str a1);
  peer ← PickNode self slotId;
  if String.eqb peer self then keeps_line LocalExec self c args
  else Relay exec self peer c args.

(** [config.Properties.RequirePass]. *)
Context (RequirePass : string).

Definition isAuthenticated (x : Conn.Connection) : bool :=
  String.eqb RequirePass "" || String.eqb (Conn.password x) RequirePass.

Definition on_slowlog (cmdLine : CmdLine) : GoM Node Reply := λ n,
  match SlowLog.HandleSlowlogCommand (slogLogger n) cmdLine with
  | Ret (l, r) => (Ret r, set_slog n l)
  | Panic m => (Panic m, n)
  | Block => (Block, n)
  end.

Definition slow_entry (start now : Z) (cmdLine : CmdLine) (name : string) : GoM Node unit := λ n,
  match SlowLog.Record_ (slogLogger n) start now cmdLine name with
  | Ret l => (Ret tt, set_slog n l)
  | Panic m => (Panic m, n)
  | Block => (Block, n)
  end.

(** [database.Ping]. *)
Definition Ping (args : list bytes) : Reply :=
  match args with
  | [] => PongReply
  | [a0] => StatusReply (str a0)
  | _ => MakeErrReply "ERR wrong number of arguments for 'ping' command"
  end.

Section exec.
(** [commands]: the handlers by their names. *)
Context (commands : gmap string CmdFunc).

Definition exec_command (exec : Executor) (self : string) (c : nat) (start : Z) (cmdName : string) (cmdLine : CmdLine)
    : GoM Net (Reply * CmdLine) :=
  x ← at_node self (go_get (λ n, eng_conn (db n) c));
  if negb (isAuthenticated x) then mret (MakeErrReply "NOAUTH Authentication required", cmdLine)
  else
    match (commands !! cmdName : option CmdFunc) with
    | None => mret (MakeErrReply ("ERR unknown command '" +:+ cmdName +:+ "', or not supported in cluster mode"), cmdLine)
    | Some cmdFunc =>
        r ← cmdFunc exec self c cmdLine;
        now ← Now;
        _ ← at_node self (slow_entry start now r.2 (eng_Name c));
        mret r
    end.

Definition exec_body (exec : Executor) (self : string) (c : nat) (cmdLine : CmdLine) : GoM Net (Reply * CmdLine) :=
  start ← Now;
  a0 ← arg cmdLine 0;
  let cmdName := ToLower (str a0) in
  let args := drop 1 cmdLine in
  let named n := String.eqb cmdName n in
  let reply (m : GoM Net Reply) := r ← m; mret (r, cmdLine) in
  if named "auth" then reply (at_db self (eng_Auth c args))
  else if named "ping" then reply (mret (Ping args))
  else if named "dbsize" then reply (n ← at_db self (eng_GetDBSize 0); mret (IntReply n.1))
  else
    match (if named "info" then eng_Info else None) with
    | Some info => reply (at_db self (info args))
    | None =>
        if named "slowlog" then reply (at_node self (on_slowlog cmdLine))
        else exec_command exec self c start cmdName cmdLine
    end.

(** The deferred [recover]. *)
Definition recovering (cmdLine : CmdLine) (m : GoM Net (Reply * CmdLine)) : GoM Net (Reply * CmdLine) := λ w,
  match m w with
  | (Panic _, w') => (Ret (UnknownErrReply, cmdLine), w')
  | r => r
  end.

(** [Cluster.Exec].  The fuel bounds the depth of the relays. *)
Fixpoint Exec (fuel : nat) : Executor := λ self c cmdLine,
  match fuel with
  | O => wait_for_ever
  | S fuel' => recovering cmdLine (exec_body (Exec fuel') self c cmdLine)
  end.
End exec.
End routing.
End cluster.
Arguments Node E : clear implicits.
Arguments Net E : clear implicits.
End Cluster.
