(* ===== verification/ClusterTcc.v ===== *)
(** * cluster/core/tcc.go and cluster/commands: transactions over several nodes

    A command whose keys live on several nodes is run as a transaction: every node locks its
    keys and notes how to undo its part (PREPARE), then executes it (COMMIT), or undoes it
    (ROLLBACK).  The file has the three commands a node answers, and the commands MSET, MGET,
    MSETNX, DEL, RENAME and RENAMENX that send them. *)

From Stdlib Require Import ZArith Lia Ascii String.
From stdpp Require Import base gmap strings numbers list.
From S2P Require Import Prelude GoStd Dict SetDS Protocol DB SlowLog StringCmds Conn RaftFSM Cluster.

Local Open Scope string_scope.
Local Open Scope list_scope.
Local Open Scope Z_scope.
Local Open Scope go_scope.

Module Tcc.
Import Cluster.

Section tcc.
Context `{Env} {E : Type} `{Engine E} (getSlotImpl : string → outcome Z) (pickNodeImpl : Node E → Z → string).

Abbreviation at_db := (at_db getSlotImpl).
Abbreviation LocalExec := (LocalExec getSlotImpl).
Abbreviation LocalExecWithinLock := (LocalExecWithinLock getSlotImpl).
Abbreviation LocalExists := (LocalExists getSlotImpl).

(** ** The side of a node *)

Definition get_tx (self txId : string) : GoM (Net E) (option TCC) := at_node self (go_get (λ n, transactions n !! txId)).

(** The transaction is shared with the table, so writing its fields changes the table. *)
Definition put_tx (self txId : string) (tx : TCC) : GoM (Net E) unit :=
  at_node self (go_modify (λ n, set_txs n (<[txId := tx]> (transactions n)))).

Definition delete_tx (self txId : string) : GoM (Net E) unit :=
  at_node self (go_modify (λ n, set_txs n (delete txId (transactions n)))).

Definition set_hasLock (tx : TCC) (b : bool) : TCC := mkTCC (realCmdLine tx) (undoLogs tx) (writeKeys tx) (readKeys tx) b.

Definition PrepareFunc : Type := string → nat → CmdLine → GoM (Net E) Reply.

Definition execPrepare (prepareFuncs : gmap string PrepareFunc) (self : string) (c : nat) (cmdLine : CmdLine) : GoM (Net E) Reply :=
  if (length cmdLine <? 3)%nat then mret (ArgNumErrReply "prepare")
  else
    a1 ← arg cmdLine 1;
    let txId := str a1 in
    let real := drop 2 cmdLine in
    tx ← get_tx self txId;
    match tx with
    | Some _ => mret (MakeErrReply "transaction existed")
    | None =>
        _ ← put_tx self txId (mkTCC [] [] [] [] false);
        ks ← go_lift (eng_GetRelatedKeys real);
        _ ← put_tx self txId (mkTCC [] [] ks.1 ks.2 false);
        _ ← at_db self (eng_RWLocks 0 ks.1 ks.2);
        undo ← at_db self (eng_GetUndoLogs 0 real);
        let tx := mkTCC real undo ks.1 ks.2 true in
        _ ← put_tx self txId tx;
        a0 ← arg real 0;
        result ← match (prepareFuncs !! ToLower (str a0) : option PrepareFunc) with
                 | Some prepareFunc => prepareFunc self c real
                 | None => mret OkReply
                 end;
        isErr ← go_lift (IsErrorReply result);
        if (isErr : bool) then
          _ ← at_db self (eng_RWUnLocks 0 ks.1 ks.2);
          _ ← put_tx self txId (set_hasLock tx false);
          mret result
        else mret result
    end.

(** [timewheel.At(..., txId, ...)]: the task that will forget the transaction. *)
Definition add_deadline (self txId : string) : GoM (Net E) unit :=
  _ ← Now;
  at_node self (go_modify (λ n, set_deadlines n (deadlines n ++ [txId]))).

(** The task, when its time has come. *)
Definition deadline (self txId : string) : GoM (Net E) unit :=
  _ ← at_node self (go_modify (λ n, set_deadlines n (filter (λ x, x ≠ txId) (deadlines n))));
  delete_tx self txId.

Definition execCommit (self : string) (c : nat) (cmdLine : CmdLine) : GoM (Net E) Reply :=
  if negb (length cmdLine =? 2)%nat then mret (ArgNumErrReply "commit")
  else
    a1 ← arg cmdLine 1;
    let txId := str a1 in
    t ← get_tx self txId;
    match t with
    | None => mret (MakeErrReply "transaction not found")
    | Some tx =>
        resp ← LocalExecWithinLock self c (realCmdLine tx);
        _ ← at_db self (eng_RWUnLocks 0 (writeKeys tx) (readKeys tx));
        _ ← put_tx self txId (set_hasLock tx false);
        isErr ← go_lift (IsErrorReply resp);
        if (isErr : bool) then mret resp
        else _ ← add_deadline self txId; mret resp
    end.

Definition execRollback (self : string) (c : nat) (cmdLine : CmdLine) : GoM (Net E) Reply :=
  if negb (length cmdLine =? 2)%nat then mret (ArgNumErrReply "rollback")
  else
    a1 ← arg cmdLine 1;
    let txId := str a1 in
    t ← get_tx self txId;
    match t with
    | None => mret (MakeErrReply "transaction not found")
    | Some tx =>
        _ ← (if hasLock tx then mret tt
             else
               _ ← at_db self (eng_RWLocks 0 (writeKeys tx) (readKeys tx));
               put_tx self txId (set_hasLock tx true));
        _ ← go_for (rev (undoLogs tx)) (λ cmdline, _ ← LocalExecWithinLock self c cmdline; mret tt);
        _ ← at_db self (eng_RWUnLocks 0 (writeKeys tx) (readKeys tx));
        _ ← delete_tx self txId;
        mret OkReply
    end.

(** ** The side of the node that runs the command *)

Abbreviation RouteMap := (gmap string (list string)).

Fixpoint getRouteMap (self : string) (ks : list string) (m : RouteMap) : GoM (Net E) RouteMap :=
  match ks with
  | [] => mret m
  | key :: ks' =>
      slot ← GetSlot getSlotImpl key;
      node ← PickNode pickNodeImpl self slot;
      getRouteMap self ks' (<[node := default [] (m !! node) ++ [key]]> m)
  end.

Record TccTx := mkTx {
  rawCmdLine : CmdLine;
  routeMap : RouteMap;
  cmdLines : gmap string CmdLine
}.

Section relays.
Context (exec : @Executor E) (self : string) (c : nat).

Definition relay (peer : string) (cmdLine : CmdLine) : GoM (Net E) Reply := Relay_ exec self peer c cmdLine.

Definition requestRollback (txId : string) (rm : RouteMap) : GoM (Net E) unit :=
  ord ← Order;
  go_for (range_map ord rm) (λ p, _ ← relay p.1 (ToCmdLine ["rollback"; txId]); mret tt).

(** The first error of a series of prepare requests. *)
Fixpoint prepare_loop (txId : string) (l : list (string * CmdLine)) : GoM (Net E) (option string) :=
  match l with
  | [] => mret None
  | (node, cmdLine) :: l' =>
      reply ← relay node (ToCmdLine ["prepare"; txId] ++ cmdLine);
      match Try2ErrorReply reply with
      | Some err => mret (Some err)
      | None => prepare_loop txId l'
      end
  end.

(** The same for the commits, with the replies so far. *)
Fixpoint commit_loop (txId : string) (l : list (string * list string)) (result : gmap string Reply)
    : GoM (Net E) (string + gmap string Reply) :=
  match l with
  | [] => mret (inr result)
  | (node, _) :: l' =>
      reply ← relay node (ToCmdLine ["commit"; txId]);
      match Try2ErrorReply reply with
      | Some err => mret (inl err)
      | None => commit_loop txId l' (<[node := reply]> result)
      end
  end.

Definition doTcc (tx : TccTx) : GoM (Net E) (Reply + gmap string Reply) :=
  txId ← RandString 6;
  ord ← Order;
  err ← prepare_loop txId (range_map ord (cmdLines tx));
  match err with
  | Some e => _ ← requestRollback txId (routeMap tx); mret (inl (MakeErrReply ("prepare failed: " +:+ e)))
  | None =>
      ord' ← Order;
      r ← commit_loop txId (range_map ord' (routeMap tx)) ∅;
      match r with
      | inl e => _ ← requestRollback txId (routeMap tx); mret (inl (MakeErrReply ("commit failed: " +:+ e)))
      | inr result => mret (inr result)
      end
  end.
End relays.

(** [cmdLine[0] = []byte(name)]. *)
Definition renamed (name : string) (cmdLine : CmdLine) : CmdLine := <[0%nat := Some name]> cmdLine.

(** A command for this node alone. *)
Definition in_local (name : string) (least : nat) : @CmdFunc E := λ exec self c cmdLine,
  if (length cmdLine <? least)%nat then mret (ArgNumErrReply name, cmdLine)
  else r ← LocalExec self c (renamed name cmdLine); mret (r, renamed name cmdLine).

Definition execMSetInLocal : CmdFunc := in_local "mset" 3.
Definition execMGetInLocal : CmdFunc := in_local "mget" 2.
Definition execMSetNxInLocal : CmdFunc := in_local "msetnx" 3.
Definition execDelInLocal : CmdFunc := in_local "del" 2.

(** [cmdLine[0] = ...] panics on an empty line. *)
Definition execRenameInLocal : CmdFunc := λ exec self c cmdLine,
  _ ← arg cmdLine 0; r ← LocalExec self c (renamed "rename" cmdLine); mret (r, renamed "rename" cmdLine).
Definition execRenameNxInLocal : CmdFunc := λ exec self c cmdLine,
  _ ← arg cmdLine 0; r ← LocalExec self c (renamed "renamenx" cmdLine); mret (r, renamed "renamenx" cmdLine).

(** The keys and values behind the command name. *)
Fixpoint pairs_of (args : list bytes) : list (string * bytes) :=
  match args with
  | k :: v :: rest => (str k, v) :: pairs_of rest
  | _ => []
  end.

(** [keyValues[key] = value] for all of them. *)
Definition value_map (l : list (string * bytes)) : gmap string bytes := foldl (λ m p, <[p.1 := p.2]> m) ∅ l.

(** When all keys are on one node the line is relayed as [local]; otherwise [many] runs. *)
Definition routed (exec : Executor) (self : string) (c : nat) (cmdLine : CmdLine) (local : string) (ks : list string)
    (many : RouteMap → GoM (Net E) Reply) : GoM (Net E) (Reply * CmdLine) :=
  rm ← getRouteMap self ks ∅;
  match map_to_list rm with
  | [(node, _)] => Relay exec self node c (renamed local cmdLine)
  | _ => r ← many rm; mret (r, cmdLine)
  end.

(** The part of a node in MSET or MSETNX. *)
Definition mset_line (name : string) (keyValues : gmap string bytes) (ks : list string) : CmdLine :=
  Some name :: concat ((λ k, [Some k; default None (keyValues !! k)]) <$> ks).

Definition mset_with (name local : string) (finish : Reply + gmap string Reply → Reply) : CmdFunc := λ exec self c cmdLine,
  if ((length cmdLine <? 3) || negb (length cmdLine mod 2 =? 1))%nat then mret (ArgNumErrReply "mset", cmdLine)
  else
    let kvs := pairs_of (drop 1 cmdLine) in
    routed exec self c cmdLine local (kvs.*1) (λ rm,
      r ← doTcc exec self c (mkTx cmdLine rm (mset_line name (value_map kvs) <$> rm));
      mret (finish r)).

Definition execMSet : CmdFunc := mset_with "mset" "mset_" (λ r, match r with inl err => err | inr _ => OkReply end).

Definition someKeysExistsErr : string := "Some Keys Exists".

(** [strings.Contains(s, sub)]. *)
Fixpoint Contains (s sub : string) : bool :=
  String.prefix sub s || match s with "" => false | String _ s' => Contains s' sub end.

(** Not registered: "msetnx" is bound to [execMSet]. *)
Definition execMSetNx : CmdFunc := mset_with "msetnx" "msetnx_" (λ r,
  match r with
  | inl err => if Contains (default "" (Error err)) someKeysExistsErr then IntReply 0 else err
  | inr _ => IntReply 1
  end).

Definition msetNxPrecheck : PrepareFunc := λ self c cmdLine,
  exists_ ← LocalExists self ((pairs_of (drop 1 cmdLine)).*1);
  mret (if (0 <? length exists_)%nat then MakeErrReply someKeysExistsErr else OkReply).

(** The values a node sent, under their keys; [None] when their number is wrong. *)
Definition collect_values (nodeCmdLine : CmdLine) (args : list bytes) (m : gmap string bytes) : option (gmap string bytes) :=
  if (length args =? length nodeCmdLine - 1)%nat
  then Some (foldl (λ m p, <[str p.1 := p.2]> m) m (zip (drop 1 nodeCmdLine) args))
  else None.

Fixpoint mget_results (cmdLineMap : gmap string CmdLine) (l : list (string * Reply)) (m : gmap string bytes)
    : outcome (Reply + gmap string bytes) :=
  match l with
  | [] => Ret (inr m)
  | (node, MultiBulkReply args) :: l' =>
      match collect_values (default [] (cmdLineMap !! node)) args m with
      | None => Ret (inl (MakeErrReply ("wrong response from node " +:+ node)))
      | Some m' => mget_results cmdLineMap l' m'
      end
  | _ :: _ => Panic "interface conversion"
  end.

Definition execMGet : CmdFunc := λ exec self c cmdLine,
  if (length cmdLine <? 2)%nat then mret (ArgNumErrReply "mget", cmdLine)
  else
    let ks := str <$> drop 1 cmdLine in
    routed exec self c cmdLine "mget_" ks (λ rm,
      let cmdLineMap := ToCmdLine2 "mget" <$> rm in
      r ← doTcc exec self c (mkTx cmdLine rm cmdLineMap);
      match r with
      | inl err => mret err
      | inr nodeResults =>
          ord ← Order;
          r' ← go_lift (mget_results cmdLineMap (range_map ord nodeResults) ∅);
          mret (match r' with
                | inl err => err
                | inr keyValues => MultiBulkReply ((λ k, default None (keyValues !! k)) <$> ks)
                end)
      end).

(** The sum of the integer replies. *)
Definition del_count (l : list (string * Reply)) : Z :=
  foldl (λ n p, match p.2 with IntReply code => int64 (n + code) | _ => n end) 0 l.

Definition execDel : CmdFunc := λ exec self c cmdLine,
  if (length cmdLine <? 2)%nat then mret (ArgNumErrReply "del", cmdLine)
  else
    routed exec self c cmdLine "del_" (str <$> drop 1 cmdLine) (λ rm,
      r ← doTcc exec self c (mkTx cmdLine rm (ToCmdLine2 "del" <$> rm));
      match r with
      | inl err => mret err
      | inr results => ord ← Order; mret (IntReply (del_count (range_map ord results)))
      end).

(** ** RENAME *)

Definition keyExistsErr : string := "key exists".

(** The commits of a RENAME. *)
Definition rename_commit (exec : Executor) (self : string) (c : nat) (txID : string) (rm : RouteMap) (ok : Reply) : GoM (Net E) Reply :=
  ord ← Order;
  r ← commit_loop exec self c txID (range_map ord rm) ∅;
  match r with
  | inl e => _ ← requestRollback exec self c txID rm; mret (MakeErrReply ("commit failed: " +:+ e))
  | inr _ => mret ok
  end.

(** What RENAME and RENAMENX share: [to] is the command for the node of the target,
    [refused] what they answer when it does not prepare, [ok] their reply. *)
Definition rename_with (to : string) (failed : Reply → GoM (Net E) (option Reply)) (ok : Reply) : CmdFunc := λ exec self c cmdLine,
  if negb (length cmdLine =? 3)%nat then mret (ArgNumErrReply "rename", cmdLine)
  else
    a1 ← arg cmdLine 1;
    a2 ← arg cmdLine 2;
    let src := str a1 in
    let target := str a2 in
    srcSlot ← GetSlot getSlotImpl src;
    srcNode ← PickNode pickNodeImpl self srcSlot;
    targetSlot ← GetSlot getSlotImpl target;
    targetNode ← PickNode pickNodeImpl self targetSlot;
    if String.eqb srcNode targetNode then Relay exec self srcNode c (renamed "rename" cmdLine)
    else
      let rm : RouteMap := <[srcNode := [src]]> {[targetNode := [target]]} in
      let srcOnly : RouteMap := {[srcNode := [src]]} in
      let reply (m : GoM (Net E) Reply) := r ← m; mret (r, cmdLine) in
      txID ← RandString 10;
      srcPrepareResp ← Relay_ exec self srcNode c (ToCmdLine ["Prepare"; txID; "RenameFrom"; src]);
      isErr ← go_lift (IsErrorReply srcPrepareResp);
      if (isErr : bool) then reply (_ ← requestRollback exec self c txID srcOnly; mret srcPrepareResp)
      else
        match srcPrepareResp with
        | MultiBulkReply (d0 :: d1 :: _) =>
            targetPrepareResp ← Relay_ exec self targetNode c
              (ToCmdLine3 "Prepare" [Some txID; Some to; Some target; d0; d1]);
            err ← failed targetPrepareResp;
            match err with
            | Some e => reply (_ ← requestRollback exec self c txID rm; mret e)
            | None => reply (rename_commit exec self c txID rm ok)
            end
        | _ => reply (_ ← requestRollback exec self c txID srcOnly; mret (MakeErrReply "ERR invalid prepare response"))
        end.

Definition execRename : CmdFunc := rename_with "RenameTo"
  (λ r, isErr ← go_lift (IsErrorReply r); mret (if (isErr : bool) then Some r else None)) OkReply.

Definition execRenameNx : CmdFunc := rename_with "RenameNxTo"
  (λ r, mret (match Error r with
              | Some e => Some (if String.eqb e keyExistsErr then IntReply 0 else r)
              | None => None
              end)) (IntReply 1).

Definition prepareRenameFrom : PrepareFunc := λ self c cmdLine,
  if negb (length cmdLine =? 2)%nat then mret (ArgNumErrReply "RenameFrom")
  else
    a1 ← arg cmdLine 1;
    let key := str a1 in
    existResp ← LocalExec self c (ToCmdLine ["Exists"; key]);
    isErr ← go_lift (IsErrorReply existResp);
    if (isErr : bool) then mret existResp
    else
      match existResp with
      | IntReply code =>
          if code =? 0 then mret (MakeErrReply "ERR no such key")
          else LocalExecWithinLock self c (ToCmdLine2 "DumpKey" [key])
      | _ => go_panic "interface conversion"
      end.

Definition prepareRenameNxTo : PrepareFunc := λ self c cmdLine,
  if negb (length cmdLine =? 4)%nat then mret (ArgNumErrReply "RenameNxTo")
  else
    a1 ← arg cmdLine 1;
    exists_ ← LocalExists self [str a1];
    mret (if (0 <? length exists_)%nat then MakeErrReply keyExistsErr else OkReply).

(** ** The tables *)

(** [RegisterCmd] and [RegisterPrepareFunc] lower the name. *)
Definition table_of {A} (l : list (string * A)) : gmap string A :=
  foldl (λ m p, <[ToLower p.1 := p.2]> m) ∅ l.

Definition prepareFuncs : gmap string PrepareFunc := table_of [
  ("msetnx", msetNxPrecheck); ("RenameFrom", prepareRenameFrom); ("RenameNxTo", prepareRenameNxTo)].

(** default.go. *)
Definition defaultCmds : list string := [
  "expire"; "expireAt"; "pExpire"; "pExpireAt"; "ttl"; "PTtl"; "persist"; "exists"; "type"; "set"; "setNx"; "setEx"; "pSetEx";
  "get"; "getEx"; "getSet"; "getDel"; "incr"; "incrBy"; "incrByFloat"; "decr"; "decrBy"; "lPush"; "lPushX"; "rPush"; "rPushX";
  "LPop"; "RPop"; "LRem"; "LLen"; "LIndex"; "LSet"; "LRange"; "HSet"; "HSetNx"; "HGet"; "HExists"; "HDel"; "HLen"; "HStrLen";
  "HMGet"; "HMSet"; "HKeys"; "HVals"; "HGetAll"; "HIncrBy"; "HIncrByFloat"; "HRandField"; "SAdd"; "SIsMember"; "SRem"; "SPop";
  "SCard"; "SMembers"; "SInter"; "SInterStore"; "SUnion"; "SUnionStore"; "SDiff"; "SDiffStore"; "SRandMember"; "ZAdd"; "ZScore";
  "ZIncrBy"; "ZRank"; "ZCount"; "ZRevRank"; "ZCard"; "ZRange"; "ZRevRange"; "ZRangeByScore"; "ZRevRangeByScore"; "ZRem";
  "ZRemRangeByScore"; "ZRemRangeByRank"; "GeoAdd"; "GeoPos"; "GeoDist"; "GeoHash"; "GeoRadius"; "GeoRadiusByMember"; "GetVer";
  "DumpKey"].

(** The registrations of tcc.go and of cluster/commands. *)
Definition tcc_commands : list (string * CmdFunc) := [
  ("prepare", λ _, keeps_line (execPrepare prepareFuncs)); ("commit", λ _, keeps_line execCommit);
  ("rollback", λ _, keeps_line execRollback)].

Definition key_commands : list (string * CmdFunc) :=
  ((λ name, (name, DefaultFunc getSlotImpl pickNodeImpl)) <$> defaultCmds) ++ [
  ("del_", execDelInLocal); ("del", execDel); ("mset_", execMSetInLocal); ("mset", execMSet); ("mget_", execMGetInLocal);
  ("mget", execMGet); ("msetnx_", execMSetNxInLocal); ("msetnx", execMSet); ("rename_", execRenameInLocal);
  ("renamenx_", execRenameNxInLocal); ("rename", execRename); ("renamenx", execRenameNx)].
End tcc.
End Tcc.
