(* ===== verification/Migration.v ===== *)
(** * cluster/core: migrations, membership and failover

    migration.go, node_manager.go, replica_manager.go and cron.go.  The leader moves slots
    between nodes: the target asks the source for the data of the slots, the source dumps them
    and notes the keys that change meanwhile, sends these in a second round, and has the
    leader change the route.

    The raft library is not part of the repository: what the code calls of it is the class
    [RaftLib].  A goroutine that a handler starts is a [Job] and runs later, as a step of its
    own.  The loops that wait for a log entry see the same state in every round, as nothing
    else runs meanwhile, so they read it once. *)

From Stdlib Require Import ZArith Lia Ascii String.
From stdpp Require Import base gmap strings numbers list.
From S2P Require Import Prelude GoStd Dict SetDS Protocol Parser DB Marshal SlowLog StringCmds Conn RaftFSM Rebalance Cluster ClusterTcc.

Local Open Scope string_scope.
Local Open Scope list_scope.
Local Open Scope Z_scope.
Local Open Scope go_scope.

Module Migration.
Import Cluster.

(** github.com/hashicorp/raft, at the node with the given name: whether it is the leader, the
    name of the leader, the statistics, the configuration, and a proposal, which gives an
    error or the index of the entry. *)
Class RaftLib (E : Type) := {
  inner_leading : string → GoM (Net E) bool;
  inner_LeaderWithID : string → GoM (Net E) string;
  inner_commit_index : string → GoM (Net E) string;
  inner_Configuration : string → GoM (Net E) (string + list string);
  inner_AddVoter : string → string → string → GoM (Net E) (option string);
  inner_Apply : string → Raft.LogEntry → GoM (Net E) (string + Z)
}.

Section migration.
Context `{Env} {E : Type} `{Engine E} `{RaftLib E}.
Context (getSlotImpl : string → outcome Z) (pickNodeImpl : Node E → Z → string).

Abbreviation at_db := (at_db getSlotImpl).
Abbreviation at_slots self m := (at_node (E := E) self (on_slots m)).
Abbreviation Task := (Raft.MigratingTask Raft.Slice).

(** ** cluster/raft: raft.go and utils.go *)

Definition Propose (self : string) (event : Raft.LogEntry) : GoM (Net E) (string + Z) :=
  r ← inner_Apply self event;
  mret (match r with inl e => inl ("raft propose failed: " +:+ e) | inr i => inr i end).

Definition CommittedIndex (self : string) : GoM (Net E) (NumError + Z) :=
  t ← inner_commit_index self; mret (ParseUint t).

Definition AddToRaft (self redisAddr raftAddr : string) : GoM (Net E) (option string) :=
  conf ← inner_Configuration self;
  match conf with
  | inl e => mret (Some ("failed to get raft configuration: " +:+ e))
  | inr servers =>
      if bool_decide (redisAddr ∈ servers) then mret (Some "already in cluster")
      else inner_AddVoter self redisAddr raftAddr
  end.

Definition GetMigratingTask (self taskId : string) : GoM (Net E) (option Task) :=
  at_node self (go_get (λ n, Raft.GetMigratingTask (fsm n) taskId)).

(** [task.Slots]. *)
Definition task_slots (self : string) (t : Task) : GoM (Net E) (list Z) :=
  at_node self (go_get (λ n, Raft.read (fsm n) (Raft.Slots t))).

Definition migrate_event (self : string) (event : Z) (t : Task) : GoM (Net E) Raft.LogEntry :=
  l ← task_slots self t;
  mret (Raft.mkEntry event (Some (Raft.mkTask (Raft.ID t) (Raft.SrcNode t) (Raft.TargetNode t) l)) None None None).

(** ** Slots *)

Definition startExporting (index : Z) (ord : range_order) : GoM slotsManager_ (option Reply) :=
  _ ← getSlot index;
  _ ← slot_Lock index;
  go_defer (slot_Unlock index)
    (s ← getSlot index;
     if negb (state s =? slotStateHosting) then mret (Some (MakeErrReply "slot host is not hosting"))
     else
       _ ← put_slot index (mkSlot (mu s) slotStateExporting (keys s) (Some (Sets.ShallowCopy ord (Some (keys s)))) (Some (Sets.Make [])));
       mret None).

Definition finishExportingWithinLock (index : Z) : GoM slotsManager_ unit :=
  s ← getSlot index;
  put_slot index (mkSlot (mu s) slotStateHosting (keys s) None None).

Definition delete_slot (index : Z) : GoM slotsManager_ unit :=
  go_modify (λ ssm, mkSlots (delete index (slots ssm)) (importingTask ssm)).

(** The keys are deleted under the lock of the slot, which the callback of the deletion takes
    as well. *)
Definition dropSlot (self : string) (index : Z) : GoM (Net E) unit :=
  s ← at_slots self (go_get (λ ssm, slots ssm !! index));
  match s with
  | None => mret tt
  | Some slot =>
      _ ← at_slots self (slot_Lock index);
      go_defer (at_slots self (slot_Unlock index))
        (c ← NewFakeConn;
         ord ← Order;
         _ ← go_for (Sets.ForEach ord (Some (keys slot)))
               (λ key, _ ← LocalExec getSlotImpl self c (ToCmdLine ["del"; key]); mret tt);
         at_slots self (delete_slot index))
  end.

(** [aof.EntityToCmd(key, entity)]. *)
Definition entity_line (key : string) (entity : DataEntity) : GoM (Net E) CmdLine := λ w,
  ((EntityToCmd key entity (mkView ∅ ∅ [] (ticks w))).1, tick w).

Definition write_line (c : nat) (line : CmdLine) : GoM (Net E) unit := Write c (ToBytes (MultiBulkReply line)).

Definition dump_key (self : string) (c : nat) (key : string) : GoM (Net E) unit :=
  e ← at_db self (eng_GetEntity 0 key);
  match e with
  | None => mret tt
  | Some entity =>
      line ← entity_line key entity;
      _ ← write_line c line;
      expire ← at_db self (eng_GetExpiration 0 key);
      match expire with
      | None => mret tt
      | Some t => write_line c (MakeExpireCmd key t)
      end
  end.

Definition dumpDataThroughConnection (self : string) (c : nat) (keyset : option Sets.SimpleSet) : GoM (Net E) unit :=
  ord ← Order;
  go_for (Sets.ForEach ord keyset) (dump_key self c).

(** ** The commands of the source *)

Definition exportCommand : string := "cluster.migration.export".
Definition migrationDoneCommand : string := "cluster.migration.done".
Definition startMigrationCommand : string := "cluster.migration.start".
Definition joinClusterCommand : string := "cluster.join".
Definition migrationChangeRouteCommand : string := "cluster.migration.changeroute".
Definition getCommittedIndexCommand : string := "raft.committedindex".
Definition heartbeatCommand : string := "cluster.heartbeat".

Definition task_timeout : Reply := MakeErrReply "ERR get migrating task timeout".

Definition set_importing (self : string) (t : Task) : GoM (Net E) unit :=
  at_slots self (go_modify (λ ssm, mkSlots (slots ssm) (Some t))).

Fixpoint export_loop (self : string) (c : nat) (l : list Z) : GoM (Net E) (option Reply) :=
  match l with
  | [] => mret None
  | slotId :: l' =>
      ord ← Order;
      err ← at_slots self (startExporting slotId ord);
      match err with
      | Some e => mret (Some e)
      | None =>
          s ← at_slots self (getSlot slotId);
          _ ← dumpDataThroughConnection self c (exportSnapshot s);
          export_loop self c l'
      end
  end.

Definition execExport (self : string) (c : nat) (cmdLine : CmdLine) : GoM (Net E) Reply :=
  if negb (length cmdLine =? 2)%nat then mret (ArgNumErrReply exportCommand)
  else
    a1 ← arg cmdLine 1;
    t ← GetMigratingTask self (str a1);
    match t with
    | None => mret task_timeout
    | Some task =>
        importing ← at_slots self (go_get importingTask);
        match importing with
        | Some _ => mret (MakeErrReply "ERR another migrating task in progress")
        | None =>
            _ ← set_importing self task;
            l ← task_slots self task;
            err ← export_loop self c l;
            match err with
            | Some e => mret e
            | None => _ ← Write c (ToBytes OkReply); mret NoReply
            end
        end
    end.

(** The second round for the slots [l]; gives the slots that were locked. *)
Definition finish_slot (self : string) (c : nat) (slotId : Z) : GoM (Net E) unit :=
  s ← at_slots self (getSlot slotId);
  _ ← dumpDataThroughConnection self c (dirtyKeys s);
  at_slots self (finishExportingWithinLock slotId).

(** [defer] unlocks, in reverse order, whatever was locked: nested defers. *)
Fixpoint with_slots (self : string) (c : nat) (l : list Z) (body : GoM (Net E) Reply) : GoM (Net E) Reply :=
  match l with
  | [] => body
  | slotId :: l' =>
      _ ← at_slots self (getSlot slotId);
      _ ← at_slots self (slot_Lock slotId);
      go_defer (at_slots self (slot_Unlock slotId)) (_ ← finish_slot self c slotId; with_slots self c l' body)
  end.

Definition execFinishExport : @CmdFunc E := λ exec, keeps_line (λ self c cmdLine,
  if negb (length cmdLine =? 2)%nat then mret (ArgNumErrReply exportCommand)
  else
    a1 ← arg cmdLine 1;
    let taskId := str a1 in
    t ← GetMigratingTask self taskId;
    match t with
    | None => mret task_timeout
    | Some task =>
        l ← task_slots self task;
        with_slots self c l
          (leader ← inner_LeaderWithID self;
           reply ← Send exec leader (ToCmdLine [migrationChangeRouteCommand; taskId]);
           match reply.1 with
           | StatusReply _ | OkReply => mret OkReply
           | _ =>
               l' ← task_slots self task;
               _ ← spawn self (DropSlots l');
               _ ← Write c (ToBytes OkReply);
               mret NoReply
           end)
    end).

(** ** The target *)

Definition execStartMigration (self : string) (c : nat) (cmdLine : CmdLine) : GoM (Net E) Reply :=
  if negb (length cmdLine =? 2)%nat then mret (ArgNumErrReply startMigrationCommand)
  else
    a1 ← arg cmdLine 1;
    t ← GetMigratingTask self (str a1);
    match t with
    | None => mret task_timeout
    | Some task =>
        _ ← set_importing self task;
        _ ← spawn self (Import task);
        mret OkReply
    end.

(** [InMemConnectionFactory.NewStream]: what the peer wrote, its reply last. *)
Definition NewStream (exec : Executor) (peerAddr : string) (cmdLine : CmdLine) : GoM (Net E) string :=
  conn ← NewFakeConn;
  reply ← exec peerAddr conn cmdLine;
  _ ← Write conn (ToBytes reply.1);
  go_get (λ w, default "" (written w !! conn)).

(** [recvLoop]: executes the lines it receives up to an OK; gives an error text, and waits for
    ever when the stream ends before. *)
Fixpoint recv_loop (self : string) (c : nat) (ps : list Payload) : GoM (Net E) (option string) :=
  match ps with
  | [] => wait_for_ever
  | PErr EOF :: _ => wait_for_ever
  | PErr _ :: _ => mret (Some "export error: <nil>")
  | PData (MultiBulkReply args) :: ps' => _ ← at_db self (eng_Exec c args); recv_loop self c ps'
  | PData (StatusReply t) :: _ =>
      if IsOKReply (StatusReply t) then mret None else mret (Some ("migrate error: " +:+ ToBytes (StatusReply t)))
  | PData OkReply :: _ => mret None
  | PData r :: ps' =>
      match Error r with
      | Some e => mret (Some ("migrate error: " +:+ e))
      | None => recv_loop self c ps'
      end
  end.

Definition receive (self : string) (c : nat) (stream : string) : GoM (Net E) (option string) :=
  r ← go_lift (parse0 stream);
  recv_loop self c r.1.

Definition doImports (exec : Executor) (self : string) (task : Task) : GoM (Net E) (option string) :=
  stream ← NewStream exec (Raft.SrcNode task) (ToCmdLine [exportCommand; Raft.ID task]);
  fakeConn ← NewFakeConn;
  err ← receive self fakeConn stream;
  match err with
  | Some e => mret (Some e)
  | None =>
      stream2 ← NewStream exec (Raft.SrcNode task) (ToCmdLine [migrationDoneCommand; Raft.ID task]);
      receive self fakeConn stream2
  end.

(** ** The leader: node_manager.go *)

(** A request that only the leader serves. *)
Definition at_leader (exec : Executor) (self : string) (cmdLine : CmdLine) (m : GoM (Net E) Reply) : GoM (Net E) Reply :=
  leading ← inner_leading self;
  if negb leading then
    leader ← inner_LeaderWithID self;
    r ← Send exec leader cmdLine;
    mret r.1
  else m.

Definition execJoin : @CmdFunc E := λ exec, keeps_line (λ self c cmdLine,
  if (length cmdLine <? 3)%nat then mret (ArgNumErrReply joinClusterCommand)
  else
    at_leader exec self cmdLine
      (a1 ← arg cmdLine 1;
       a2 ← arg cmdLine 2;
       err ← AddToRaft self (str a1) (str a2);
       match err with
       | Some e => mret (MakeErrReply e)
       | None =>
           let master := match cmdLine with [_; _; _; a3] => str a3 | _ => "" end in
           r ← Propose self (Raft.mkEntry Raft.EventJoin None None None (Some (Raft.mkJoin (str a1) master)));
           mret (match r with inl e => MakeErrReply e | inr _ => OkReply end)
       end)).

Definition execRaftCommittedIndex (self : string) (c : nat) (cmdLine : CmdLine) : GoM (Net E) Reply :=
  t ← inner_commit_index self;
  mret (match ParseUint t with
        | inl e => MakeErrReply (num_error_text "ParseUint" t e)
        | inr index => IntReply (int64 index)
        end).

(** The rounds of [waitCommitted] for one peer; whether it reached the entry. *)
Fixpoint wait_loop (exec : Executor) (n : nat) (peer : string) (logIndex : Z) : GoM (Net E) bool :=
  match n with
  | O => mret false
  | S n' =>
      reply ← Send exec peer (ToCmdLine [getCommittedIndexCommand]);
      match reply.1 with
      | IntReply code => if logIndex <=? code mod 18446744073709551616 then mret true else wait_loop exec n' peer logIndex
      | _ => wait_loop exec n' peer logIndex
      end
  end.

Definition waitCommitted (exec : Executor) (peer : string) (logIndex : Z) : GoM (Net E) (option string) :=
  ok ← wait_loop exec 50 peer logIndex;
  mret (if (ok : bool) then None else Some "wait committed timeout").

Definition execMigrationChangeRoute : @CmdFunc E := λ exec, keeps_line (λ self c cmdLine,
  if negb (length cmdLine =? 2)%nat then mret (ArgNumErrReply migrationChangeRouteCommand)
  else
    at_leader exec self cmdLine
      (a1 ← arg cmdLine 1;
       t ← GetMigratingTask self (str a1);
       match t with
       | None => mret (MakeErrReply "ERR task not found")
       | Some task =>
           ev ← migrate_event self Raft.EventFinishMigrate task;
           r ← Propose self ev;
           match r with
           | inl e => mret (MakeErrReply ("ERR " +:+ e))
           | inr logIndex =>
               err ← waitCommitted exec (Raft.SrcNode task) logIndex;
               match err with
               | Some e => mret (MakeErrReply ("ERR " +:+ e))
               | None =>
                   err ← waitCommitted exec (Raft.TargetNode task) logIndex;
                   mret (match err with Some e => MakeErrReply ("ERR " +:+ e) | None => OkReply end)
               end
           end
       end)).

Definition triggerMigrationTask (exec : Executor) (self : string) (task : Rebalance.Task) : GoM (Net E) (option string) :=
  r ← Propose self (Raft.mkEntry Raft.EventStartMigrate (Some task) None None None);
  match r with
  | inl e => mret (Some ("propose EventStartMigrate  " +:+ Raft.ID task +:+ " failed: " +:+ e))
  | inr _ =>
      reply ← Send exec (Raft.TargetNode task) (ToCmdLine [startMigrationCommand; Raft.ID task]);
      mret (if IsOKReply reply.1 then None else Some "")
  end.

(** The names of the tasks are random strings of 20 letters. *)
Fixpoint task_names (n : nat) : GoM (Net E) (list string) :=
  match n with O => mret [] | S n' => x ← RandString 20; rest ← task_names n'; mret (x :: rest) end.

Definition makeRebalancePlan (self : string) : GoM (Net E) (list Rebalance.Task) :=
  ord ← Order;
  f ← at_node self (go_get fsm);
  names ← task_names (2 * size (Raft.MasterSlaves f));
  go_lift (Rebalance.makeRebalancePlan (λ i, default "" (names !! i)) (range_map ord (Raft.MasterSlaves f)) f).

Definition doRebalance (exec : Executor) (self : string) : GoM (Net E) unit :=
  tasks ← makeRebalancePlan self;
  go_for tasks (λ task, _ ← triggerMigrationTask exec self task; mret tt).

(** ** replica_manager.go *)

Definition execHeartbeat (self : string) (c : nat) (cmdLine : CmdLine) : GoM (Net E) Reply :=
  if negb (length cmdLine =? 2)%nat then mret (ArgNumErrReply heartbeatCommand)
  else
    a1 ← arg cmdLine 1;
    now ← Now;
    _ ← at_node self (go_modify (λ n, set_heartbeats n (<[str a1 := now]> (masterHeartbeats n))));
    mret OkReply.

Definition sendHearbeat (exec : Executor) (self : string) : GoM (Net E) unit :=
  leader ← inner_LeaderWithID self;
  _ ← Send exec leader (ToCmdLine [heartbeatCommand; self]);
  mret tt.

Definition second : Z := 1000000000.
Definition followerTimeout : Z := 10 * second.

(** [t.Second()]: the seconds within the minute. *)
Definition Second (t : Z) : Z := t / second mod 60.

(** The masters whose last sign is too old, of those that have slaves. *)
Fixpoint timeout_loop (self : string) (ddl : Z) (l : list (string * Z)) : GoM (Net E) (list Raft.MasterSlave) :=
  match l with
  | [] => mret []
  | (masterId, lastTime) :: l' =>
      _ ← (if Second lastTime =? 0
           then now ← Now; at_node self (go_modify (λ n, set_heartbeats n (<[masterId := now]> (masterHeartbeats n))))
           else mret tt);
      slaves ← at_node self (go_get (λ n, Raft.GetSlaves (fsm n) masterId));
      rest ← timeout_loop self ddl l';
      mret (match slaves with
            | Some ms => if (lastTime <? ddl) && (0 <? length (Raft.Slaves ms))%nat then ms :: rest else rest
            | None => rest
            end)
  end.

Definition triggerFailover (exec : Executor) (self : string) (failed : Raft.MasterSlave) : GoM (Net E) (option string) :=
  match Raft.Slaves failed with
  | [] => go_panic "index out of range"
  | newMaster :: _ =>
      id ← RandString 20;
      reply ← Send exec newMaster (ToCmdLine ["slaveof"; "no"; "one"]);
      match Try2ErrorReply reply.1 with
      | Some e => mret (Some e)
      | None =>
          r ← Propose self (Raft.mkEntry Raft.EventFinishFailover None None
                (Some (Raft.mkFailover id (Raft.MasterId failed) newMaster)) None);
          mret (match r with inl e => Some e | inr _ => None end)
      end
  end.

Definition doFailoverCheck (exec : Executor) (self : string) : GoM (Net E) unit :=
  now ← Now;
  let ddl := now - followerTimeout in
  hb ← at_node self (go_get masterHeartbeats);
  ord ← Order;
  failed ← timeout_loop self ddl (range_map ord hb);
  go_for failed (λ ms, _ ← triggerFailover exec self ms; mret tt).

(** One tick of [clusterCron]. *)
Definition cron_tick (exec : Executor) (self : string) : GoM (Net E) unit :=
  leading ← inner_leading self;
  if (leading : bool) then _ ← doFailoverCheck exec self; doRebalance exec self
  else sendHearbeat exec self.

(** ** The commands of a node *)

Definition core_commands : list (string * @CmdFunc E) := [
  (exportCommand, λ _, keeps_line execExport); (migrationDoneCommand, execFinishExport);
  (startMigrationCommand, λ _, keeps_line execStartMigration); (joinClusterCommand, execJoin);
  (migrationChangeRouteCommand, execMigrationChangeRoute); (heartbeatCommand, λ _, keeps_line execHeartbeat);
  (getCommittedIndexCommand, λ _, keeps_line execRaftCommittedIndex)].

Definition commands : gmap string CmdFunc :=
  Tcc.table_of (core_commands ++ Tcc.tcc_commands getSlotImpl ++ Tcc.key_commands getSlotImpl pickNodeImpl).

Definition Exec (RequirePass : string) : nat → Executor := Cluster.Exec getSlotImpl RequirePass commands.

(** A goroutine runs; a panic in it is recovered. *)
Definition run_job (exec : Executor) (self : string) (j : Job) : GoM (Net E) unit := λ w,
  let m := match j with
           | Import task => _ ← doImports exec self task; mret tt
           | DropSlots l => go_for l (dropSlot self)
           end in
  match m w with
  | (Panic _, w') => (Ret tt, w')
  | r => r
  end.

(** The oldest of the goroutines. *)
Definition run_background (exec : Executor) : GoM (Net E) unit := λ w,
  match background w with
  | [] => (Ret tt, w)
  | (self, j) :: l => run_job exec self j (mkNet (nodes w) (ticks w) (next_conn w) (written w) l)
  end.
End migration.
End Migration.
