(* ===== verification/ClusterServer.v ===== *)
(** * A cluster of servers

    The server of Server.v as the engine of a node, with the full table of commands, and the
    test cluster of cluster/core/tests.go. *)

From Stdlib Require Import ZArith Lia Ascii String.
From stdpp Require Import base gmap strings numbers list.
From S2P Require Import Prelude GoStd Dict SetDS Protocol Parser DB Marshal SlowLog StringCmds Conn PubSub Router Exec Tx Server ServerLaws RaftFSM Cluster ClusterTcc Migration.

Local Open Scope string_scope.
Local Open Scope list_scope.
Local Open Scope Z_scope.
Local Open Scope go_scope.

Module Node.
Import Cluster.

Section engine.
Context `{Env} (tbl : Table DB) (cfg : Server.Config) `{Server.Services}.

Definition clear_events (db : DB) : DB :=
  mkDB (index db) (data db) (ttlMap db) (versionMap db) (aof db) (insertCallback db) (deleteCallback db) [] (timers db) (draws db).

(** The key events of all databases. *)
Definition server_events (s : Server.Server) : list KeyEvent * Server.Server :=
  (concat (events <$> Server.dbSet s), Server.set_dbSet s (clear_events <$> Server.dbSet s)).

Definition server_engine : Engine Server.Server := {|
  eng_Exec := Server.Exec_ tbl cfg;
  eng_ExecWithLock := Server.ExecWithLock tbl cfg;
  eng_GetRelatedKeys := Tx.GetRelatedKeys tbl;
  eng_GetUndoLogs := Server.GetUndoLogs_ tbl cfg;
  eng_RWLocks := Server.RWLocks cfg;
  eng_RWUnLocks := Server.RWUnLocks cfg;
  eng_GetEntity := Server.GetEntity_ cfg;
  eng_GetExpiration := Server.GetExpiration;
  eng_GetDBSize := Server.GetDBSize;
  eng_Auth := Server.Auth cfg;
  eng_Info := Some Server.Info;
  eng_conn s c := PubSub.conn_of (Server.world s) c;
  eng_Name := Server.peer_Name;
  eng_events := server_events
|}.

(** ** tests.go *)

(** [pickNodeImpl] and [getSlotImpl] of a test cluster: a key that is a number is its own
    slot, and the slots go round the nodes. *)
Definition test_pickNode (ids : list string) {E} (_ : Cluster.Node E) (slotID : Z) : string :=
  default "" (ids !! Z.to_nat (slotID mod Z.of_nat (length ids))).

Definition test_getSlot (key : string) : outcome Z :=
  match Atoi key with
  | inr i => if i <? SlotCount then Ret (uint32 i) else defaultGetSlotImpl key
  | inl _ => defaultGetSlotImpl key
  end.

(** A node: a new server with the callbacks of the cluster. *)
Definition test_node : outcome (Cluster.Node Server.Server) :=
  s ← Server.NewStandaloneServer cfg;
  let '(r, s') := (_ ← Server.SetKeyInsertedCallback; Server.SetKeyDeletedCallback) s in
  _ ← r;
  Ret (mkNode s' Raft.new_FSM (mkSlots ∅ None) ∅ [] ∅ (SlowLog.mkLogger [] 0 0 0 0 1)).

Fixpoint add_nodes (ids : list string) (m : gmap string (Cluster.Node Server.Server)) : outcome (gmap string (Cluster.Node Server.Server)) :=
  match ids with
  | [] => Ret m
  | id :: ids' => n ← test_node; add_nodes ids' (<[id := n]> m)
  end.

Definition MakeTestCluster (ids : list string) : outcome (Net Server.Server) :=
  ns ← add_nodes ids ∅;
  Ret (mkNet ns 0 0 ∅ []).
End engine.
End Node.
