(* ===== verification/ClusterLaws.v ===== *)
(** * The cluster, over any engine

    What holds whatever the engine of the nodes is: the effect of a relayed command on the
    nodes, transactions over several nodes, a RENAME that never returns and a failover that is
    never proposed. *)

From Stdlib Require Import ZArith Lia Ascii String.
From stdpp Require Import base gmap strings numbers list.
From S2P Require Import Prelude GoStd Dict SetDS Protocol DB SlowLog StringCmds Conn RaftFSM Cluster ClusterTcc Migration.

Local Open Scope string_scope.
Local Open Scope list_scope.
Local Open Scope Z_scope.
Local Open Scope go_scope.

Import Cluster.

Section laws.
Context `{Env} {E : Type} `{Engine E} `{!Migration.RaftLib E}.
Context (getSlotImpl : string → outcome Z) (pickNodeImpl : Node E → Z → string).

Abbreviation commands := (Migration.commands getSlotImpl pickNodeImpl).
Abbreviation Exec := (Migration.Exec getSlotImpl pickNodeImpl "").

(** ** Running on a node *)

Lemma at_node_run {A} self (m : GoM (Node E) A) w n o n' :
  nodes w !! self = Some n → m n = (o, n') → at_node self m w = (o, set_nodes w (<[self := n']> (nodes w))).
Proof. intros Hn Hm. unfold at_node. by rewrite Hn, Hm. Qed.

Lemma at_node_get {A} self (f : Node E → A) w n :
  nodes w !! self = Some n → at_node self (go_get f) w = (Ret (f n), w).
Proof.
  intros Hn. rewrite (at_node_run _ _ _ _ (Ret (f n)) n) by done. f_equal. unfold set_nodes. rewrite insert_id by done. by destruct w.
Qed.

(** A line whose name is registered. *)
Definition served (start : Z) (h : CmdFunc) (exec : Executor) (self : string) (c : nat) (cmdLine : CmdLine) : GoM (Net E) (Reply * CmdLine) :=
  r ← h exec self c cmdLine;
  now ← Cluster.Now;
  _ ← at_node self (slow_entry start now r.2 (eng_Name c));
  mret r.

Definition own_commands : list string := ["auth"; "ping"; "dbsize"; "info"; "slowlog"].

Lemma Exec_eq fuel self c a0 args h w n :
  let line := a0 :: args in let cmdName := ToLower (str a0) in
  cmdName ∉ own_commands → commands !! cmdName = Some h → nodes w !! self = Some n →
  Exec (S fuel) self c line w = recovering line (served (time_now (ticks w)) h (Exec fuel) self c line) (tick w).
Proof.
  intros line cmdName Hown Hh Hn. change (Exec (S fuel)) with (λ self c l, recovering l (exec_body getSlotImpl "" commands (Exec fuel) self c l)).
  cbv beta. unfold recovering. enough (exec_body getSlotImpl "" commands (Exec fuel) self c line w = served (time_now (ticks w)) h (Exec fuel) self c line (tick w)) as -> by done.
  unfold exec_body. erewrite bind_Ret by reflexivity. erewrite bind_Ret by reflexivity. fold cmdName. cbv zeta.
  unfold own_commands in Hown. rewrite !not_elem_of_cons in Hown. destruct Hown as (N1 & N2 & N3 & N4 & N5 & _).
  do 5 (rewrite (proj2 (String.eqb_neq _ _)) by done). unfold exec_command.
  rewrite (bind_Ret _ _ _ _ _ (at_node_get self _ (tick w) n Hn)). change (isAuthenticated "" _) with true. cbn [negb].
  by rewrite Hh.
Qed.

(** ** A RENAME within one node *)

Lemma commands_rename cmdName : cmdName ∈ ["rename"; "renamenx"] →
  ∃ to failed ok, commands !! cmdName = Some (Tcc.rename_with getSlotImpl pickNodeImpl to failed ok) ∧ cmdName ∉ own_commands.
Proof.
  rewrite !elem_of_cons. intros [->|[->|Hn]]; [| |by apply elem_of_nil in Hn]; eexists _, _, _; (split; [reflexivity|]); apply (bool_decide_eq_true_1 (_ ∉ _)); reflexivity.
Qed.

Definition routes_to (w : Net E) (self : string) (key node : string) : Prop :=
  ∃ n s, nodes w !! self = Some n ∧ getSlotImpl key = Ret s ∧ pickNodeImpl n s = node.

Lemma GetSlot_run key s w : getSlotImpl key = Ret s → GetSlot getSlotImpl (E := E) key w = (Ret s, w).
Proof. intros Hs. unfold GetSlot, go_lift. by rewrite Hs. Qed.

Lemma bind_Block {S A B} (m : GoM S A) (k : A → GoM S B) s : (m s).1 = Block → ((m ≫= k) s).1 = Block.
Proof. unfold mbind, gom_bind. by destruct (m s) as [[] s']. Qed.

(** [C18] A RENAME or RENAMENX whose two keys are on one node never returns, whatever node
    it is sent to: that node relays the line to itself, for ever (the command that would run it
    on the node alone has another name).  No bound on the depth of the calls is enough. *)
Theorem rename_within_node_never_returns (w : Net E) (self node : string) (c fuel : nat) (name src target : string) :
  ToLower name ∈ ["rename"; "renamenx"] →
  routes_to w self src node → routes_to w self target node → routes_to w node src node → routes_to w node target node →
  (Exec fuel self c [Some name; Some src; Some target] w).1 = Block.
Proof.
  revert w self c name. induction fuel as [|fuel IH]; intros w self c name Hname Hs Ht Hs' Ht'; [done|].
  destruct (commands_rename _ Hname) as (to & failed & ok & Hc & Hown). destruct Hs as (n & s & Hn & Es & Ps), Ht as (n1 & t & Hn1 & Et & Pt).
  assert (n1 = n) as -> by congruence.
  rewrite (Exec_eq fuel self c (Some name) _ _ w n Hown Hc Hn). unfold recovering.
  enough ((served (time_now (ticks w)) (Tcc.rename_with getSlotImpl pickNodeImpl to failed ok) (Exec fuel) self c [Some name; Some src; Some target] (tick w)).1 = Block)
    as Hb by (destruct (served _ _ _ _ _ _ _) as [[] w']; done).
  unfold served. apply bind_Block. unfold Tcc.rename_with. cbn [length Nat.eqb negb].
  erewrite bind_Ret by reflexivity. erewrite bind_Ret by reflexivity. cbv zeta. change (str (Some src)) with src. change (str (Some target)) with target.
  rewrite (bind_Ret _ _ _ _ _ (GetSlot_run src s _ Es)). unfold PickNode.
  rewrite (bind_Ret _ _ _ _ _ (at_node_get self _ (tick w) n Hn)), (bind_Ret _ _ _ _ _ (GetSlot_run target t _ Et)).
  rewrite (bind_Ret _ _ _ _ _ (at_node_get self _ (tick w) n Hn)), Ps, Pt, String.eqb_refl. unfold Relay, Send.
  assert (ToLower "rename" ∈ ["rename"; "renamenx"]) as Hr by (apply (bool_decide_eq_true_1 (_ ∈ _)); reflexivity).
  destruct (String.eqb_spec node self) as [->|Hne]; [|erewrite bind_Ret by reflexivity]; apply IH; try done.
Qed.

(** ** Failover *)

Lemma RandString_run k (w : Net E) : ∃ s, RandString k w = (Ret s, mkNet (nodes w) (k + ticks w) (next_conn w) (written w) (background w)).
Proof.
  revert w. induction k as [|k IH]; intros w; [exists ""; by destruct w|]. cbn [RandString]. erewrite bind_Ret by reflexivity.
  destruct (IH (tick w)) as [s E1]. rewrite (bind_Ret _ _ _ _ _ E1). eexists. simpl. f_equal. f_equal. lia.
Qed.

(** The slave that takes over: the first one, if it is a node of the network. *)
Definition takes_over (w : Net E) (failed : Raft.MasterSlave) (newMaster : string) : Prop :=
  head (Raft.Slaves failed) = Some newMaster ∧ is_Some (nodes w !! newMaster).

(** A failover is never proposed: the leader first sends SLAVEOF NO ONE to the slave
    it has chosen, which is no command of the cluster, so the slave answers with an error and
    the call ends there.  No entry reaches raft, and no node changes. *)
Theorem failover_never_proposed (w : Net E) (self newMaster : string) (failed : Raft.MasterSlave) (fuel : nat) :
  takes_over w failed newMaster →
  ∃ e w', Migration.triggerFailover (Exec (S fuel)) self failed w = (Ret (Some e), w') ∧ nodes w' = nodes w.
Proof.
  intros [Hf [n Hn]]. unfold Migration.triggerFailover. destruct (Raft.Slaves failed) as [|x others]; [done|]. injection Hf as ->. destruct (RandString_run 20 w) as [id E1].
  rewrite (bind_Ret _ _ _ _ _ E1). set (w1 := mkNet _ _ _ _ _). set (w2 := mkNet (nodes w) (S (20 + ticks w)) (S (next_conn w)) (written w) (background w)).
  assert (∃ l, Send (Exec (S fuel)) newMaster (ToCmdLine ["slaveof"; "no"; "one"]) w1 =
    (Ret (MakeErrReply "ERR unknown command 'slaveof', or not supported in cluster mode", l), w2)) as [l E2].
  { eexists. unfold Send. erewrite bind_Ret by reflexivity.
    change (Exec (S fuel)) with (λ self c l, recovering l (exec_body getSlotImpl "" commands (Exec fuel) self c l)). cbv beta. unfold recovering, exec_body.
    erewrite bind_Ret by reflexivity. erewrite bind_Ret by reflexivity. change (ToLower (str _)) with "slaveof". cbv zeta. cbn [String.eqb Ascii.eqb Bool.eqb].
    unfold exec_command. erewrite bind_Ret by (apply at_node_get; exact Hn). reflexivity. }
  rewrite (bind_Ret _ _ _ _ _ E2). by eexists _, _.
Qed.
End laws.

(** ** Examples *)

(** An engine that stores nothing, and a raft without a leader. *)
Definition null_engine : Engine unit := {|
  eng_Exec _ _ := mret NullBulkReply;
  eng_ExecWithLock _ _ := mret OkReply;
  eng_GetRelatedKeys _ := Ret ([], []);
  eng_GetUndoLogs _ _ := mret [];
  eng_RWLocks _ _ _ := mret tt;
  eng_RWUnLocks _ _ _ := mret tt;
  eng_GetEntity _ _ := mret None;
  eng_GetExpiration _ _ := mret None;
  eng_GetDBSize _ := mret (0, 0);
  eng_Auth _ _ := mret OkReply;
  eng_Info := None;
  eng_conn _ _ := Conn.zero_conn;
  eng_Name _ := "";
  eng_events e := ([], e)
|}.

Definition idle_raft {E} : Migration.RaftLib E := {|
  Migration.inner_leading _ := mret false;
  Migration.inner_LeaderWithID _ := mret "";
  Migration.inner_commit_index _ := mret "0";
  Migration.inner_Configuration _ := mret (inr []);
  Migration.inner_AddVoter _ _ _ := mret None;
  Migration.inner_Apply _ _ := mret (inl "no leader")
|}.

Definition null_node : Node unit := mkNode tt Raft.new_FSM (mkSlots ∅ None) ∅ [] ∅ (SlowLog.mkLogger [] 0 0 0 0 1).
Definition null_net : Net unit := mkNet {["a" := null_node; "b" := null_node]} 0 0 ∅ [].

#[local] Existing Instances demo_env null_engine idle_raft.

Lemma rename_within_node_never_returns_witness :
  (Migration.Exec defaultGetSlotImpl (λ _ _, "b") "" 100%nat "a" 5%nat (ToCmdLine ["RENAME"; "{k}1"; "{k}2"]) null_net).1 = Block.
Proof.
  apply (rename_within_node_never_returns defaultGetSlotImpl (λ _ _, "b") null_net "a" "b" 5%nat 100%nat "RENAME" "{k}1" "{k}2").
  - apply (bool_decide_eq_true_1 (_ ∈ _)). reflexivity.
  - by eexists null_node, _.
  - by eexists null_node, _.
  - by eexists null_node, _.
  - by eexists null_node, _.
Defined.

Lemma failover_never_proposed_witness : ∃ e w',
  Migration.triggerFailover (Migration.Exec defaultGetSlotImpl defaultPickNodeImpl "" 1%nat) "a" (Raft.mkMasterSlave "c" ["b"]) null_net = (Ret (Some e), w').
Proof.
  destruct (failover_never_proposed defaultGetSlotImpl defaultPickNodeImpl null_net "a" "b" (Raft.mkMasterSlave "c" ["b"]) 0%nat) as (e & w' & E & _);
    [by split; [|eexists]|]. by exists e, w'.
Defined.
