(* ===== verification/TccLaws.v ===== *)
(** * Transactions over several nodes, over any engine

    [takes_part] is what one node does for a transaction, by itself: lock, note the undo
    log, execute, unlock.  [doTcc_commits]: when every node can take its part, the two rounds
    of requests have exactly this effect on every node, and give every node's reply. *)

From Stdlib Require Import ZArith Lia Ascii String.
From stdpp Require Import base gmap strings numbers list.
From S2P Require Import Prelude GoStd Dict SetDS Protocol DB SlowLog StringCmds Conn RaftFSM Cluster ClusterTcc Migration ClusterLaws.

Local Open Scope string_scope.
Local Open Scope list_scope.
Local Open Scope Z_scope.
Local Open Scope go_scope.

Import Cluster.

Section laws.
Context `{Env} {E : Type} `{Engine E} `{!Migration.RaftLib E}.
Context (getSlotImpl : string → outcome Z) (pickNodeImpl : Node E → Z → string).

Abbreviation commands := (Migration.commands getSlotImpl pickNodeImpl).
Abbreviation Exec := (Migration.Exec getSlotImpl pickNodeImpl "").
Abbreviation call m := (with_callbacks getSlotImpl m).
Abbreviation prepareFuncs := (Tcc.prepareFuncs getSlotImpl).

(** ** The part of one node *)

Definition local_prepare (real : CmdLine) : GoM (E * slotsManager_) (list string * list string * list CmdLine) :=
  ks ← go_lift (eng_GetRelatedKeys real);
  _ ← call (eng_RWLocks 0 ks.1 ks.2);
  undo ← call (eng_GetUndoLogs 0 real);
  mret (ks, undo).

Definition local_commit (c : nat) (real : CmdLine) (ks : list string * list string) : GoM (E * slotsManager_) Reply :=
  r ← call (eng_ExecWithLock c real);
  _ ← call (eng_RWUnLocks 0 ks.1 ks.2);
  mret r.

Definition takes_part (c : nat) (real : CmdLine) : GoM (E * slotsManager_) Reply :=
  p ← local_prepare real;
  local_commit c real p.1.

(** The way back, from the locks that PREPARE took. *)
Definition local_rollback (c : nat) (undo : list CmdLine) (ks : list string * list string) : GoM (E * slotsManager_) unit :=
  _ ← go_for (rev undo) (λ line, _ ← call (eng_ExecWithLock c line); mret tt);
  call (eng_RWUnLocks 0 ks.1 ks.2).

Definition slow_ok (n : Node E) : Prop := ∃ max thr h, SlowLog.rep max thr (slogLogger n) h.

(** A node after a transaction has moved its engine to [p]. *)
Record moved (p : E * slotsManager_) (txs : gmap string TCC) (n n' : Node E) : Prop := {
  mv_db : (db n', slotsManager n') = p;
  mv_txs : transactions n' = txs;
  mv_fsm : fsm n' = fsm n;
  mv_hb : masterHeartbeats n' = masterHeartbeats n;
  mv_slow : slow_ok n'
}.

(** The connection that a node gets a relayed line from. *)
Definition usable (w : Net E) (self : string) (c : nat) (node : string) (c' : nat) : Prop :=
  if String.eqb node self then c' = c else (next_conn w ≤ c')%nat.

(** Two networks that may differ in the nodes, the counters and no more. *)
Definition later (w w' : Net E) : Prop :=
  (next_conn w ≤ next_conn w')%nat ∧ written w' = written w ∧ background w' = background w.

Lemma later_trans w1 w2 w3 : later w1 w2 → later w2 w3 → later w1 w3.
Proof. intros (K1 & K2 & K3) (G1 & G2 & G3). split_and!; [lia|congruence|congruence]. Qed.

Lemma usable_later w w' self c node c' : later w w' → usable w' self c node c' → usable w self c node c'.
Proof. intros (Hl & _). unfold usable. destruct (String.eqb _ _); [done|lia]. Qed.

(** ** A relayed line *)

Lemma slow_entry_run (n : Node E) start now line name : slow_ok n →
  ∃ sl, slow_entry start now line name n = (Ret tt, set_slog n sl) ∧ slow_ok (set_slog n sl).
Proof.
  intros (max & thr & h & Hr). destruct (SlowLog.record_rep max thr _ h start now line name Hr) as (sl & E1 & Hr').
  exists sl. unfold slow_entry. rewrite E1. split; [done|]. by eexists _, _, _.
Qed.

Lemma served_run start (h : string → nat → CmdLine → GoM (Net E) Reply) exec node c line w r w2 n2 :
  h node c line w = (Ret r, w2) → nodes w2 !! node = Some n2 → slow_ok n2 →
  ∃ sl w3, served start (λ _, keeps_line h) exec node c line w = (Ret (r, line), w3) ∧ nodes w3 = <[node := set_slog n2 sl]> (nodes w2) ∧
    slow_ok (set_slog n2 sl) ∧ later w2 w3.
Proof.
  intros Hh Hn Hs. unfold served, keeps_line. erewrite bind_Ret by (rewrite (bind_Ret _ _ _ _ _ Hh); reflexivity). erewrite bind_Ret by reflexivity.
  destruct (slow_entry_run n2 start (time_now (ticks w2)) line (eng_Name c) Hs) as (sl & E1 & Hs').
  erewrite bind_Ret by (eapply at_node_run; [exact Hn|exact E1]). eexists _, _. split; [reflexivity|]. done.
Qed.

Lemma Exec_served fuel node c a0 args h w n r w2 n2 :
  let line := a0 :: args in
  ToLower (str a0) ∉ own_commands → commands !! ToLower (str a0) = Some (λ _, keeps_line h) → nodes w !! node = Some n →
  h node c line (tick w) = (Ret r, w2) → nodes w2 !! node = Some n2 → slow_ok n2 →
  ∃ sl w3, Exec (S fuel) node c line w = (Ret (r, line), w3) ∧ nodes w3 = <[node := set_slog n2 sl]> (nodes w2) ∧ slow_ok (set_slog n2 sl) ∧ later w2 w3.
Proof.
  intros line Hown Hc Hn Hr Hn2 Hs. subst line.
  destruct (served_run (time_now (ticks w)) h (Exec fuel) node c (a0 :: args) (tick w) r w2 n2 Hr Hn2 Hs) as (sl & w3 & E1 & HH).
  exists sl, w3. split; [|exact HH]. rewrite (Exec_eq _ _ fuel node c a0 args _ w n Hown Hc Hn). unfold recovering. by rewrite E1.
Qed.

Lemma relay_run fuel self c node a0 args h w n :
  let line := a0 :: args in
  ToLower (str a0) ∉ own_commands → commands !! ToLower (str a0) = Some (λ _, keeps_line h) → nodes w !! node = Some n →
  ∃ c' w1, usable w self c node c' ∧ nodes w1 = nodes w ∧ later w w1 ∧
    ∀ r w2 n2, h node c' line w1 = (Ret r, w2) → nodes w2 !! node = Some n2 → slow_ok n2 →
      ∃ sl w3, Tcc.relay (Exec (S fuel)) self c node line w = (Ret r, w3) ∧ nodes w3 = <[node := set_slog n2 sl]> (nodes w2) ∧
        slow_ok (set_slog n2 sl) ∧ later w2 w3.
Proof.
  intros line Hown Hc Hn. subst line. unfold Tcc.relay, Relay_, Relay, usable. destruct (String.eqb_spec node self) as [->|Hne].
  - exists c, (tick w). split_and!; [done|done|by split_and!|]. intros r w2 n2 Hr Hn2 Hs.
    destruct (Exec_served fuel self c a0 args h w n r w2 n2 Hown Hc Hn Hr Hn2 Hs) as (sl & w3 & E1 & HH).
    exists sl, w3. split; [|exact HH]. by rewrite (bind_Ret _ _ _ _ _ E1).
  - set (w0 := mkNet (nodes w) (ticks w) (S (next_conn w)) (written w) (background w)).
    exists (next_conn w), (tick w0). split_and!; [done|done|split_and!; [simpl; lia|done|done]|]. intros r w2 n2 Hr Hn2 Hs.
    destruct (Exec_served fuel node (next_conn w) a0 args h w0 n r w2 n2 Hown Hc Hn Hr Hn2 Hs) as (sl & w3 & E1 & HH).
    exists sl, w3. split; [|exact HH]. unfold Send. erewrite bind_Ret by (erewrite bind_Ret by reflexivity; exact E1). reflexivity.
Qed.

(** ** The requests *)

Lemma at_db_run {A} self (m : GoM E A) w n o p :
  nodes w !! self = Some n → call m (db n, slotsManager n) = (o, p) →
  at_db getSlotImpl self m w = (o, set_nodes w (<[self := set_slots (set_db n p.1) p.2]> (nodes w))).
Proof. intros Hn Hm. apply at_node_run with n; [done|]. unfold on_engine. by rewrite Hm. Qed.

Lemma get_tx_run self id (w : Net E) n : nodes w !! self = Some n → Tcc.get_tx self id w = (Ret (transactions n !! id), w).
Proof. intros Hn. unfold Tcc.get_tx. by rewrite (at_node_get _ _ _ n). Qed.

Lemma put_tx_run self id tx (w : Net E) n : nodes w !! self = Some n →
  Tcc.put_tx self id tx w = (Ret tt, set_nodes w (<[self := set_txs n (<[id := tx]> (transactions n))]> (nodes w))).
Proof. intros Hn. unfold Tcc.put_tx. by rewrite (at_node_run _ _ _ n (Ret tt) (set_txs n (<[id := tx]> (transactions n)))). Qed.

(** A line that PREPARE needs no check for. *)
Definition unchecked (real : CmdLine) : Prop := ∃ a0 rest, real = a0 :: rest ∧ prepareFuncs !! ToLower (str a0) = None.

Ltac on_nodes := simpl; rewrite ?insert_insert_eq, ?lookup_insert_eq; try reflexivity.

Lemma execPrepare_run self c id real w n ks undo p :
  nodes w !! self = Some n → transactions n !! id = None → unchecked real → slow_ok n →
  local_prepare real (db n, slotsManager n) = (Ret (ks, undo), p) →
  ∃ w' n', Tcc.execPrepare getSlotImpl prepareFuncs self c (ToCmdLine ["prepare"; id] ++ real) w = (Ret OkReply, w') ∧
    nodes w' = <[self := n']> (nodes w) ∧ moved p (<[id := mkTCC real undo ks.1 ks.2 true]> (transactions n)) n n' ∧
    deadlines n' = deadlines n ∧ later w w'.
Proof.
  intros Hn Hid (a0 & rest & -> & Hf) Hs Hl. unfold local_prepare in Hl.
  apply bind_inv in Hl as (ks' & s0 & Ek & Hl). unfold go_lift in Ek. injection Ek as Ek <-.
  apply bind_inv in Hl as (u & p1 & Elock & Hl). apply bind_inv in Hl as (undo' & p2 & Eundo & Hl). injection Hl as <- <- <-.
  unfold Tcc.execPrepare. cbn [length app ToCmdLine fmap list_fmap Nat.ltb Nat.leb].
  erewrite bind_Ret by reflexivity. cbv zeta. change (str (Some id)) with id. cbn [drop].
  rewrite (bind_Ret _ _ _ _ _ (get_tx_run self id w n Hn)), Hid. rewrite (bind_Ret _ _ _ _ _ (put_tx_run self id _ w n Hn)).
  erewrite bind_Ret by (unfold go_lift; rewrite Ek; reflexivity).
  erewrite bind_Ret by (eapply put_tx_run; on_nodes). erewrite bind_Ret by (eapply at_db_run; [on_nodes|exact Elock]).
  erewrite bind_Ret by (eapply at_db_run; [on_nodes|]; simpl; rewrite <-surjective_pairing; exact Eundo).
  erewrite bind_Ret by (eapply put_tx_run; on_nodes). erewrite bind_Ret by reflexivity. rewrite Hf.
  erewrite bind_Ret by reflexivity. erewrite bind_Ret by reflexivity. eexists _, _. split; [reflexivity|]. on_nodes.
  split; [reflexivity|]. split; [|by split_and!]. split; simpl; rewrite ?insert_insert_eq; try done. by destruct p2.
Qed.

Lemma no_error r : Try2ErrorReply r = None → IsErrorReply r = Ret false.
Proof. unfold Try2ErrorReply, IsErrorReply. destruct (ToBytes r) as [|a b]; [done|]. by destruct (Ascii.eqb a "-"). Qed.

Lemma execCommit_run self c id tx r w n p :
  nodes w !! self = Some n → transactions n !! id = Some tx → slow_ok n → Try2ErrorReply r = None →
  local_commit c (realCmdLine tx) (writeKeys tx, readKeys tx) (db n, slotsManager n) = (Ret r, p) →
  ∃ w' n', Tcc.execCommit getSlotImpl self c (ToCmdLine ["commit"; id]) w = (Ret r, w') ∧
    nodes w' = <[self := n']> (nodes w) ∧ moved p (<[id := Tcc.set_hasLock tx false]> (transactions n)) n n' ∧ later w w'.
Proof.
  intros Hn Hid Hs Hr Hl. unfold local_commit in Hl. apply bind_inv in Hl as (r' & p1 & Eexec & Hl).
  apply bind_inv in Hl as (u & p2 & Eunlock & Hl). injection Hl as -> <-. unfold Tcc.execCommit. cbn [length ToCmdLine fmap list_fmap Nat.eqb negb].
  erewrite bind_Ret by reflexivity. cbv zeta. change (str (Some id)) with id. rewrite (bind_Ret _ _ _ _ _ (get_tx_run self id w n Hn)), Hid.
  erewrite bind_Ret by (eapply at_db_run; [exact Hn|exact Eexec]).
  erewrite bind_Ret by (eapply at_db_run; [on_nodes|]; simpl; rewrite <-surjective_pairing; exact Eunlock).
  erewrite bind_Ret by (eapply put_tx_run; on_nodes). erewrite bind_Ret by (unfold go_lift; rewrite (no_error r Hr); reflexivity).
  cbv iota. unfold Tcc.add_deadline. erewrite bind_Ret by (erewrite bind_Ret by reflexivity; eapply at_node_run; [on_nodes|reflexivity]).
  eexists _, _. split; [reflexivity|]. on_nodes. split; [reflexivity|]. split; [|by split_and!]. split; simpl; try done. by destruct p2.
Qed.

Lemma undo_lines_run self c lines w n p : nodes w !! self = Some n →
  go_for lines (λ line, _ ← call (eng_ExecWithLock c line); mret tt) (db n, slotsManager n) = (Ret tt, p) →
  ∃ w', go_for lines (λ line, _ ← LocalExecWithinLock getSlotImpl self c line; mret tt) w = (Ret tt, w') ∧
    nodes w' = <[self := set_slots (set_db n p.1) p.2]> (nodes w) ∧ later w w'.
Proof.
  revert w n. induction lines as [|line lines IH]; intros w n Hn Hp; cbn [go_for] in *.
  { injection Hp as <-. exists w. split_and!; [done| |by split_and!]. cbn. rewrite insert_id; [done|]. rewrite Hn. by destruct n. }
  apply bind_inv in Hp as (u & p1 & Hp1 & Hp). apply bind_inv in Hp1 as (r & p2 & Hr & Hp1). injection Hp1 as _ <-.
  erewrite bind_Ret by (erewrite bind_Ret by (eapply at_db_run; [exact Hn|exact Hr]); reflexivity).
  set (n1 := set_slots (set_db n p2.1) p2.2). destruct (IH (set_nodes w (<[self := n1]> (nodes w))) n1) as (w' & E1 & N1 & L1);
    [by cbn; rewrite lookup_insert_eq|by cbn; rewrite <-surjective_pairing|].
  exists w'. split_and!; [exact E1|by rewrite N1; cbn; rewrite insert_insert_eq|done].
Qed.

Lemma execRollback_run self c id tx w n p :
  nodes w !! self = Some n → transactions n !! id = Some tx → slow_ok n → hasLock tx = true →
  local_rollback c (undoLogs tx) (writeKeys tx, readKeys tx) (db n, slotsManager n) = (Ret tt, p) →
  ∃ w' n', Tcc.execRollback getSlotImpl self c (ToCmdLine ["rollback"; id]) w = (Ret OkReply, w') ∧
    nodes w' = <[self := n']> (nodes w) ∧ moved p (delete id (transactions n)) n n' ∧ later w w'.
Proof.
  intros Hn Hid Hs Hlock Hl. unfold local_rollback in Hl. apply bind_inv in Hl as (u & p1 & Hundo & Hunlock). destruct u.
  unfold Tcc.execRollback. cbn [length ToCmdLine fmap list_fmap Nat.eqb negb].
  erewrite bind_Ret by reflexivity. cbv zeta. change (str (Some id)) with id. rewrite (bind_Ret _ _ _ _ _ (get_tx_run self id w n Hn)), Hid, Hlock.
  erewrite bind_Ret by reflexivity. destruct (undo_lines_run self c (rev (undoLogs tx)) w n p1 Hn Hundo) as (w1 & E1 & N1 & L1). rewrite (bind_Ret _ _ _ _ _ E1).
  erewrite bind_Ret by (eapply at_db_run; [by rewrite N1, lookup_insert_eq|]; simpl; rewrite <-surjective_pairing; exact Hunlock).
  erewrite bind_Ret by (unfold Tcc.delete_tx; eapply at_node_run; [simpl; apply lookup_insert_eq|reflexivity]).
  eexists _, _. split; [reflexivity|]. simpl. rewrite N1, !insert_insert_eq. split; [reflexivity|]. split; [|done]. split; simpl; try done. by destruct p.
Qed.

(** ** The two rounds *)

Section rounds.
Context (self : string) (c fuel : nat) (id : string) (w0 : Net E).

(** A node that can take its part in the transaction, with the reply it will give and the
    state it will have. *)
Definition participant (node : string) (real : CmdLine) (r : Reply) (p : E * slotsManager_) (n : Node E) : Prop :=
  unchecked real ∧ slow_ok n ∧ transactions n !! id = None ∧ Try2ErrorReply r = None ∧
  ∀ c', usable w0 self c node c' → takes_part c' real (db n, slotsManager n) = (Ret r, p).

(** The same node after its PREPARE. *)
Definition prepared (node : string) (r : Reply) (p : E * slotsManager_) (n n1 : Node E) : Prop :=
  ∃ tx, transactions n1 = <[id := tx]> (transactions n) ∧ fsm n1 = fsm n ∧ masterHeartbeats n1 = masterHeartbeats n ∧ slow_ok n1 ∧
    Try2ErrorReply r = None ∧
    ∀ c', usable w0 self c node c' → local_commit c' (realCmdLine tx) (writeKeys tx, readKeys tx) (db n1, slotsManager n1) = (Ret r, p).

(** And after its COMMIT. *)
Definition committed (p : E * slotsManager_) (n n2 : Node E) : Prop :=
  ∃ tx, hasLock tx = false ∧ moved p (<[id := tx]> (transactions n)) n n2.

Lemma some_usable w node : ∃ c', usable w self c node c'.
Proof. unfold usable. destruct (String.eqb node self); [by exists c|]. by exists (next_conn w). Qed.

Lemma relay_prepare w node real r p n : later w0 w → nodes w !! node = Some n → participant node real r p n →
  ∃ w1 n1, Tcc.relay (Exec (S fuel)) self c node (ToCmdLine ["prepare"; id] ++ real) w = (Ret OkReply, w1) ∧
    nodes w1 = <[node := n1]> (nodes w) ∧ prepared node r p n n1 ∧ later w w1.
Proof.
  intros Hw Hn (Hu & Hs & Hid & Hr & Ht). destruct (some_usable w0 node) as [c0 Hc0].
  pose proof (Ht c0 Hc0) as E0. apply bind_inv in E0 as ([ks undo] & p1 & Ep & _).
  destruct (relay_run fuel self c node (Some "prepare") (Some id :: real) (Tcc.execPrepare getSlotImpl prepareFuncs) w n) as (c1 & w1 & Hc1 & Hn1 & Hl1 & Hrun);
    [apply (bool_decide_eq_true_1 (_ ∉ _)); reflexivity|reflexivity|done|]. rewrite <-Hn1 in Hn.
  destruct (execPrepare_run node c1 id real w1 n ks undo p1 Hn Hid Hu Hs Ep) as (w2 & n2 & E2 & N2 & M2 & _ & L2).
  destruct (Hrun OkReply w2 n2) as (sl & w3 & E3 & N3 & S3 & L3); [exact E2|by rewrite N2, lookup_insert_eq|apply M2|].
  exists w3, (set_slog n2 sl). split_and!; [exact E3|by rewrite N3, N2, insert_insert_eq, Hn1| |by eapply later_trans; [|eapply later_trans]].
  destruct M2 as [D2 T2 F2 B2 _]. eexists. split_and!; [exact T2|done|done|done|done|]. intros c' Hc'. simpl. rewrite D2.
  specialize (Ht c' Hc'). unfold takes_part in Ht. rewrite (bind_Ret _ _ _ _ _ Ep) in Ht. by destruct ks.
Qed.

Lemma relay_commit w node r p n n1 : later w0 w → nodes w !! node = Some n1 → prepared node r p n n1 →
  ∃ w2 n2, Tcc.relay (Exec (S fuel)) self c node (ToCmdLine ["commit"; id]) w = (Ret r, w2) ∧
    nodes w2 = <[node := n2]> (nodes w) ∧ committed p n n2 ∧ later w w2.
Proof.
  intros Hw Hn (tx & Ht & Hf & Hb & Hs & Hr & Hl).
  destruct (relay_run fuel self c node (Some "commit") [Some id] (Tcc.execCommit getSlotImpl) w n1) as (c1 & w1 & Hc1 & Hn1 & Hl1 & Hrun);
    [apply (bool_decide_eq_true_1 (_ ∉ _)); reflexivity|reflexivity|done|]. rewrite <-Hn1 in Hn.
  destruct (execCommit_run node c1 id tx r w1 n1 p Hn) as (w2 & n2 & E2 & N2 & M2 & L2);
    [by rewrite Ht, lookup_insert_eq|done|done|by apply Hl, (usable_later _ _ _ _ _ _ Hw)|].
  destruct (Hrun r w2 n2) as (sl & w3 & E3 & N3 & S3 & L3); [exact E2|by rewrite N2, lookup_insert_eq|apply M2|].
  exists w3, (set_slog n2 sl). split_and!; [exact E3|by rewrite N3, N2, insert_insert_eq, Hn1| |by eapply later_trans; [|eapply later_trans]].
  exists (Tcc.set_hasLock tx false). split; [done|]. destruct M2 as [D2 T2 F2 B2 _]. split; simpl; [done|by rewrite T2, Ht, insert_insert_eq|congruence|congruence|done].
Qed.

(** Every node of a list is visited once: [P] says what a node was like before, [Q] after. *)
Definition visited_all {A} (l : list (string * A)) (Q : string → A → Node E → Node E → Prop) (w w' : Net E) : Prop :=
  (∀ x, x ∉ l.*1 → nodes w' !! x = nodes w !! x) ∧
  (∀ x a, (x, a) ∈ l → ∃ n n', nodes w !! x = Some n ∧ nodes w' !! x = Some n' ∧ Q x a n n').

Lemma met_cons {A} x (a : A) l Q w w1 w' n n1 : x ∉ l.*1 → nodes w !! x = Some n → nodes w1 = <[x := n1]> (nodes w) → Q x a n n1 →
  visited_all l Q w1 w' → visited_all ((x, a) :: l) Q w w'.
Proof.
  intros Hx Hn Hw1 HQ [V1 V2]. split.
  - intros y Hy. cbn [fmap list_fmap fst] in Hy. apply not_elem_of_cons in Hy as [Hy Hl]. rewrite V1 by done. by rewrite Hw1, lookup_insert_ne.
  - intros y b [[= -> ->]|Hin]%elem_of_cons.
    + exists n, n1. split_and!; [done| |done]. rewrite V1 by done. by rewrite Hw1, lookup_insert_eq.
    + destruct (V2 y b Hin) as (m & m' & G1 & G2 & G3). exists m, m'. split_and!; [|done|done].
      rewrite Hw1, lookup_insert_ne in G1; [done|]. intros ->. apply Hx. by apply (list_elem_of_fmap_2 fst) in Hin.
Qed.

(** The two loops. *)
Lemma prepare_loop_run (R : string → Reply) (P : string → E * slotsManager_) l w : later w0 w → NoDup l.*1 →
  (∀ x real, (x, real) ∈ l → ∃ n, nodes w !! x = Some n ∧ participant x real (R x) (P x) n) →
  ∃ w', Tcc.prepare_loop (Exec (S fuel)) self c id l w = (Ret None, w') ∧ later w w' ∧
    visited_all l (λ x _, prepared x (R x) (P x)) w w'.
Proof.
  revert w. induction l as [|[x real] l IH]; intros w Hw Hd Hl.
  { exists w. split_and!; [done|by split_and!|]. split; [done|]. by intros x a Hin%elem_of_nil. }
  cbn [fmap list_fmap fst] in Hd. apply NoDup_cons in Hd as [Hx Hd]. cbn [Tcc.prepare_loop].
  destruct (Hl x real) as (n & Hn & Hp); [by apply elem_of_cons; left|].
  destruct (relay_prepare w x real _ _ n Hw Hn Hp) as (w1 & n1 & E1 & N1 & Q1 & L1). rewrite (bind_Ret _ _ _ _ _ E1).
  change (Try2ErrorReply OkReply) with (@None string). cbv iota. destruct (IH w1) as (w' & E2 & L2 & V); [by eapply later_trans|done| |].
  - intros y b Hin. destruct (Hl y b) as (m & Hm & Hpm); [by apply elem_of_cons; right|]. exists m. split; [|done].
    rewrite N1, lookup_insert_ne; [done|]. intros ->. apply Hx. by apply (list_elem_of_fmap_2 fst) in Hin.
  - exists w'. split_and!; [done|by eapply later_trans|]. by eapply met_cons.
Qed.

Lemma commit_loop_run (R : string → Reply) (P : string → E * slotsManager_) (l : list (string * list string)) (acc : gmap string Reply) w :
  later w0 w → NoDup l.*1 →
  (∀ x, x ∈ l.*1 → Try2ErrorReply (R x) = None ∧ ∃ n n1, nodes w0 !! x = Some n ∧ nodes w !! x = Some n1 ∧ prepared x (R x) (P x) n n1) →
  ∃ w', Tcc.commit_loop (Exec (S fuel)) self c id l acc w = (Ret (inr (foldl (λ m x, <[x := R x]> m) acc l.*1)), w') ∧ later w w' ∧
    visited_all l (λ x _ _ n2, ∀ n, nodes w0 !! x = Some n → committed (P x) n n2) w w'.
Proof.
  revert acc w. induction l as [|[x ks] l IH]; intros acc w Hw Hd Hl.
  { exists w. split_and!; [done|by split_and!|]. split; [done|]. by intros x a Hin%elem_of_nil. }
  cbn [fmap list_fmap fst] in Hd, Hl. apply NoDup_cons in Hd as [Hx Hd]. cbn [Tcc.commit_loop].
  destruct (Hl x) as (Hr & n & n1 & Hn0 & Hn & Hp); [by apply elem_of_cons; left|].
  destruct (relay_commit w x _ _ n n1 Hw Hn Hp) as (w1 & n2 & E1 & N1 & Q1 & L1). rewrite (bind_Ret _ _ _ _ _ E1), Hr. cbv iota.
  destruct (IH (<[x := R x]> acc) w1) as (w' & E2 & L2 & V); [by eapply later_trans|done| |].
  - intros y Hin. destruct (Hl y) as (Hry & m & m1 & Hm0 & Hm & Hpm); [by apply elem_of_cons; right|]. split; [done|]. exists m, m1. split_and!; [done| |done].
    rewrite N1, lookup_insert_ne; [done|]. by intros ->.
  - exists w'. split_and!; [done|by eapply later_trans|]. eapply met_cons; [done|exact Hn|exact N1| |exact V]. intros m Hm. by simplify_eq.
Qed.
End rounds.

(** The random name of a transaction. *)
Definition tx_name (w : Net E) : string := match (RandString 6 w).1 with Ret s => s | _ => "" end.

Lemma RandString_name w : ∃ w1, RandString 6 w = (Ret (tx_name w), w1) ∧ nodes w1 = nodes w ∧ later w w1.
Proof. destruct (RandString_run 6 w) as [s E1]. unfold tx_name. rewrite E1. by eexists. Qed.

Lemma results_lookup (R : string → Reply) (ks : list string) x :
  foldl (λ m x, <[x := R x]> m) (∅ : gmap string Reply) ks !! x = if bool_decide (x ∈ ks) then Some (R x) else None.
Proof.
  assert (∀ acc : gmap string Reply, foldl (λ m x, <[x := R x]> m) acc ks !! x = if bool_decide (x ∈ ks) then Some (R x) else acc !! x) as Hacc.
  { induction ks as [|k ks IH]; intros acc; cbn [foldl]; [by rewrite bool_decide_eq_false_2 by apply not_elem_of_nil|].
    rewrite IH. destruct (decide (x ∈ ks)) as [Hin|Hn]; [by rewrite !bool_decide_eq_true_2 by (rewrite ?elem_of_cons; auto)|].
    rewrite bool_decide_eq_false_2 by done. destruct (decide (x = k)) as [->|Hne].
    - by rewrite lookup_insert_eq, bool_decide_eq_true_2 by (apply elem_of_cons; auto).
    - rewrite lookup_insert_ne by done. rewrite bool_decide_eq_false_2; [done|]. rewrite elem_of_cons. naive_solver. }
  by rewrite Hacc.
Qed.

Lemma range_map_keys {V} ord (m : gmap string V) : fair_order ord →
  NoDup (range_map ord m).*1 ∧ (∀ x, x ∈ (range_map ord m).*1 ↔ x ∈ dom m) ∧ (∀ x v, (x, v) ∈ range_map ord m ↔ m !! x = Some v).
Proof.
  intros Ho. pose proof (range_map_perm ord m Ho) as Hp. split_and!.
  - rewrite Hp. apply NoDup_fst_map_to_list.
  - intros x. rewrite Hp, list_elem_of_fmap, elem_of_dom. split.
    + intros ([y v] & -> & Hin%elem_of_map_to_list). eauto.
    + intros [v Hv]. exists (x, v). split; [done|]. by apply elem_of_map_to_list.
  - intros x v. rewrite Hp. apply elem_of_map_to_list.
Qed.

Lemma doTcc_run (w : Net E) (self : string) (c fuel : nat) (tx : Tcc.TccTx) (R : string → Reply) (P : string → E * slotsManager_) :
  (∀ t, fair_order (map_order t)) → dom (Tcc.cmdLines tx) = dom (Tcc.routeMap tx) →
  (∀ x real, Tcc.cmdLines tx !! x = Some real → ∃ n, nodes w !! x = Some n ∧ participant self c (tx_name w) w x real (R x) (P x) n) →
  ∃ results w', Tcc.doTcc (Exec (S fuel)) self c tx w = (Ret (inr results), w') ∧ later w w' ∧
    (∀ x, results !! x = if bool_decide (x ∈ dom (Tcc.routeMap tx)) then Some (R x) else None) ∧
    (∀ x, x ∉ dom (Tcc.routeMap tx) → nodes w' !! x = nodes w !! x) ∧
    (∀ x n, x ∈ dom (Tcc.routeMap tx) → nodes w !! x = Some n → ∃ n', nodes w' !! x = Some n' ∧ committed (tx_name w) (P x) n n').
Proof.
  intros Hfair Hdom Hpart. unfold Tcc.doTcc. destruct (RandString_name w) as (w1 & E1 & N1 & L1). rewrite (bind_Ret _ _ _ _ _ E1).
  erewrite bind_Ret by reflexivity. set (l := range_map (map_order (ticks w1)) (Tcc.cmdLines tx)).
  destruct (range_map_keys (map_order (ticks w1)) (Tcc.cmdLines tx) (Hfair _)) as (Hd & Hk & Hkv). fold l in Hd, Hk, Hkv.
  destruct (prepare_loop_run self c fuel (tx_name w) w R P l (tick w1)) as (w2 & E2 & L2 & V2a & V2b); [done|done| |].
  { intros x real Hin%Hkv. change (nodes (tick w1)) with (nodes w1). rewrite N1. by apply Hpart. }
  rewrite (bind_Ret _ _ _ _ _ E2). cbv iota. erewrite bind_Ret by reflexivity. set (l' := range_map (map_order (ticks w2)) (Tcc.routeMap tx)).
  destruct (range_map_keys (map_order (ticks w2)) (Tcc.routeMap tx) (Hfair _)) as (Hd' & Hk' & _). fold l' in Hd', Hk'.
  assert (later w (tick w2)) as L02 by (eapply later_trans; [exact L1|]; eapply later_trans; [|exact L2]; done).
  destruct (commit_loop_run self c fuel (tx_name w) w R P l' ∅ (tick w2)) as (w3 & E3 & L3 & V3a & V3b); [done|done| |].
  { intros x Hx%Hk'. rewrite <-Hdom in Hx. apply Hk in Hx as Hx'. apply list_elem_of_fmap in Hx' as ([y real] & -> & Hin).
    destruct (V2b y real Hin) as (n & n1 & Hn & Hn1 & Hp). apply Hkv in Hin. destruct (Hpart y real Hin) as (m & Hm & Hpm).
    split; [by destruct Hpm as (_ & _ & _ & ? & _)|]. exists n, n1. change (nodes (tick w1)) with (nodes w1) in Hn. rewrite N1 in Hn. done. }
  rewrite (bind_Ret _ _ _ _ _ E3). cbv iota. eexists _, w3. split; [reflexivity|]. split; [by eapply later_trans|]. split_and!.
  - intros x. rewrite results_lookup. by rewrite (bool_decide_ext _ _ (Hk' x)).
  - intros x Hx. rewrite V3a by (by rewrite Hk'). change (nodes (tick w2)) with (nodes w2). rewrite V2a by (by rewrite Hk, Hdom). by change (nodes (tick w1)) with (nodes w1); rewrite N1.
  - intros x n Hx Hn. apply Hk' in Hx as Hx'. apply list_elem_of_fmap in Hx' as ([y ks] & -> & Hin). destruct (V3b y ks Hin) as (n1 & n2 & _ & Hn2 & HQ). eauto.
Qed.
End laws.
