(* ===== verification/ServerPart.v ===== *)
(** * The part of a server in a transaction of several nodes

    A server at rest that gets a PREPARE and a COMMIT for a line that is specified on finite
    maps answers as the specification, holds what the specification says, and is at rest
    again ([server_part]); the callbacks of the cluster find a slot for every key.  MSET is
    such a line ([mset_runs]). *)

From Stdlib Require Import ZArith Lia Ascii String.
From stdpp Require Import base gmap strings numbers list.
From S2P Require Import Prelude GoStd Dict QuickList SetDS Protocol DB Marshal SlowLog StringCmds KeyCmds Conn PubSub Router Exec Tx Server ServerLaws Laws RaftFSM Cluster ClusterTcc Migration ClusterServer ClusterLaws TccLaws.

Local Open Scope string_scope.
Local Open Scope list_scope.
Local Open Scope Z_scope.
Local Open Scope go_scope.

Lemma cmdTable_lookup `{Env} n : cmdTable !! n = last_named n init_transaction (last_named n init_all None).
Proof. unfold cmdTable, storeTable. by rewrite !register_lookup, lookup_empty. Qed.

Lemma makeDB_events : events makeDB = [].
Proof. reflexivity. Qed.

#[local] Opaque cmdTable storeTable makeDB.

Import Cluster.

(** ** The keys a computation reports *)

Definition event_key (e : KeyEvent) : string := match e with KeyInserted _ k _ | KeyDeleted _ k _ => k end.

Section emits.
Context `{Env} (P : string → Prop).

Definition emits {A} (m : GoM DB A) : Prop := ∀ db, ∃ es, events (m db).2 = events db ++ es ∧ Forall (λ e, P (event_key e)) es.

Lemma emits_none {A} (m : GoM DB A) : (∀ db, events (m db).2 = events db) → emits m.
Proof. intros Hm db. exists []. by rewrite Hm, app_nil_r. Qed.

Lemma emits_ret {A} (a : A) : emits (mret a).
Proof. by apply emits_none. Qed.

Lemma emits_panic {A} msg : emits (go_panic msg : GoM DB A).
Proof. by apply emits_none. Qed.

Lemma emits_lift {A} (o : outcome A) : emits (go_lift o).
Proof. by apply emits_none. Qed.

Lemma emits_get {A} (f : DB → A) : emits (go_get f).
Proof. by apply emits_none. Qed.

Lemma emits_bind {A B} (m : GoM DB A) (k : A → GoM DB B) : emits m → (∀ a, emits (k a)) → emits (m ≫= k).
Proof.
  intros Hm Hk db. destruct (Hm db) as (es & E1 & H1). unfold mbind, gom_bind. destruct (m db) as [[a| |] db1]; simpl in *; [|by exists es..].
  destruct (Hk a db1) as (es' & E2 & H2). exists (es ++ es'). rewrite E2, E1, app_assoc. split; [done|]. by apply Forall_app.
Qed.

Lemma emits_ext {A} (m m' : GoM DB A) : (∀ db, m db = m' db) → emits m' → emits m.
Proof. intros He Hm db. rewrite He. apply Hm. Qed.

Lemma emits_for {A} (xs : list A) (f : A → GoM DB unit) : Forall (λ x, emits (f x)) xs → emits (go_for xs f).
Proof. induction 1 as [|x xs Hx _ IH]; [apply emits_ret|]. by apply emits_bind. Qed.

Lemma emits_modify f : (∀ db, events (f db) = events db) → emits (go_modify f).
Proof. intros Hf. by apply emits_none. Qed.

Create HintDb emits.
#[local] Hint Resolve emits_ret emits_panic emits_lift emits_get : emits.
Ltac emit := repeat first [solve [eauto with emits] | apply emits_bind; [|intros ?] | by apply emits_modify | case_match].

Lemma emits_Remove k : P k → emits (DBOps.Remove k).
Proof.
  intros Hk. unfold DBOps.Remove. emit; intros db; (eexists [_]; split; [reflexivity|]; by constructor).
Qed.
#[local] Hint Resolve emits_Remove : emits.

Lemma emits_Now : emits DBOps.Now.
Proof. by apply emits_none. Qed.
Lemma emits_Order : emits DBOps.Order.
Proof. by apply emits_none. Qed.
#[local] Hint Resolve emits_Now emits_Order : emits.

Lemma emits_GetEntity k : P k → emits (DBOps.GetEntity k).
Proof. intros Hk. unfold DBOps.GetEntity, DBOps.IsExpired. emit. Qed.

Lemma emits_PutEntity k e : P k → emits (DBOps.PutEntity k e).
Proof.
  intros Hk. unfold DBOps.PutEntity, DBOps.inserted. emit; intros db; (eexists [_]; split; [reflexivity|]; by constructor).
Qed.
#[local] Hint Resolve emits_GetEntity emits_PutEntity : emits.

Lemma emits_EntityToCmd k e : emits (EntityToCmd (S := DB) k e).
Proof. unfold EntityToCmd. emit. Qed.
#[local] Hint Resolve emits_EntityToCmd : emits.

Lemma emits_rollback ks : Forall P ks → emits (rollbackGivenKeys (S := DB) ks).
Proof.
  induction 1 as [|k ks Hk _ IH]; cbn [rollbackGivenKeys]; [apply emits_ret|]. apply emits_bind; [by apply emits_GetEntity|intros e].
  apply emits_bind; [|intros cmds; emit]. destruct e; [|apply emits_ret]. unfold toTTLCmd. emit.
Qed.

Lemma emits_Removes ks : Forall P ks → emits (DBOps.Removes ks).
Proof.
  intros Hk. unfold DBOps.Removes. generalize 0. induction Hk as [|k ks Hk _ IH]; intros n; cbn [DBOps.Removes_loop]; [apply emits_ret|].
  apply emits_bind; [apply emits_get|intros [e|]; [|apply IH]]. apply emits_bind; [by apply emits_Remove|intros _; apply IH].
Qed.

Lemma emits_Del k : P k → emits (KeyCmds.execDel (S := DB) [Some k]).
Proof.
  intros Hk. unfold KeyCmds.execDel. apply emits_bind; [apply emits_Removes; by repeat constructor|intros n]. destruct (n >? 0); emit.
Qed.

Lemma emits_Persist k : P k → emits (KeyCmds.execPersist (S := DB) [Some k]).
Proof.
  intros Hk. eapply emits_ext; [intros db; unfold KeyCmds.execPersist; erewrite bind_Ret by reflexivity; cbv zeta; change (str (Some k)) with k; reflexivity|].
  apply emits_bind; [by apply emits_GetEntity|intros [e|]; [|emit]]. cbn [GetTTL Persist addAof db_store]. unfold DBOps.GetTTL, DBOps.Persist, DBOps.addAof, DBOps.timewheel_Cancel. emit.
Qed.

Lemma emits_Set k b : P k → emits (StringCmds.execSet (S := DB) [Some k; b]).
Proof.
  intros Hk. eapply emits_ext; [intros db; unfold StringCmds.execSet; do 2 erewrite bind_Ret by reflexivity; cbv zeta; change (str (Some k)) with k; reflexivity|].
  cbn [drop set_options]. apply emits_bind; [apply emits_bind; [by apply emits_PutEntity|intros; apply emits_ret]|intros n].
  cbn [PutEntity Persist addAof db_store]. unfold DBOps.Persist, DBOps.addAof, DBOps.timewheel_Cancel. destruct (n >? 0); [|emit]. change (unlimitedTTL =? unlimitedTTL) with true.
  cbn [negb]. emit.
Qed.

Lemma emits_MSet args : Forall P (arg_pairs args).*1 → emits (StringCmds.execMSet (S := DB) args).
Proof.
  intros Hk. unfold StringCmds.execMSet. emit. apply emits_for. rewrite Forall_fmap in Hk. eapply Forall_impl; [exact Hk|].
  intros [k v] Hkv. unfold put_string. apply emits_bind; [by apply emits_PutEntity|intros; apply emits_ret].
Qed.
End emits.

(** ** The callbacks *)

(** No slot is locked, and a slot that is exported has a set for the keys that change. *)
Definition slots_ok (sm : slotsManager_) : Prop := ∀ i s, slots sm !! i = Some s →
  mu s = false ∧ (state s = slotStateExporting → is_Some (dirtyKeys s)).

Section callbacks.
Context (getSlotImpl : string → outcome Z).

Lemma getSlot_run i sm : let s := default fresh_slot (slots sm !! i) in
  getSlot i sm = (Ret s, mkSlots (<[i := s]> (slots sm)) (importingTask sm)).
Proof.
  unfold getSlot, go_get, mbind, gom_bind. destruct sm as [m t]. cbn. destruct (m !! i) as [s|] eqn:E; cbn; [|done]. by rewrite insert_id.
Qed.

Lemma getSlot_at i s m t : getSlot i (mkSlots (<[i := s]> m) t) = (Ret s, mkSlots (<[i := s]> m) t).
Proof. rewrite getSlot_run. cbn. by rewrite lookup_insert_eq, insert_insert_eq. Qed.

Lemma put_slot_at i s s' m t : put_slot i s' (mkSlots (<[i := s]> m) t) = (Ret tt, mkSlots (<[i := s']> m) t).
Proof. unfold put_slot, go_modify. cbn. by rewrite insert_insert_eq. Qed.

Lemma default_ok sm i : slots_ok sm → let s := default fresh_slot (slots sm !! i) in
  mu s = false ∧ (state s = slotStateExporting → is_Some (dirtyKeys s)).
Proof. intros Hs. cbn. destruct (slots sm !! i) as [s|] eqn:E; [by apply (Hs i)|]. done. Qed.

Lemma slots_ok_insert sm i s t : slots_ok sm → mu s = false → (state s = slotStateExporting → is_Some (dirtyKeys s)) →
  slots_ok (mkSlots (<[i := s]> (slots sm)) t).
Proof.
  intros Hs H1 H2 j s' Hj. cbn in Hj. destruct (decide (j = i)) as [->|Hne]; [rewrite lookup_insert_eq in Hj; by simplify_eq|].
  rewrite lookup_insert_ne in Hj by done. by apply (Hs j).
Qed.

Lemma mark_dirty_run s k : (state s = slotStateExporting → is_Some (dirtyKeys s)) →
  ∃ s', mark_dirty s k = Ret s' ∧ mu s' = mu s ∧ state s' = state s ∧ (is_Some (dirtyKeys s) → is_Some (dirtyKeys s')).
Proof.
  intros Hd. unfold mark_dirty. destruct (state s =? slotStateExporting) eqn:E; unbool; [|by exists s].
  destruct (Hd E) as [d ->]. eexists. split; [reflexivity|]. done.
Qed.

Lemma on_event_run e i sm : getSlotImpl (event_key e) = Ret i → slots_ok sm →
  ∃ sm', on_event getSlotImpl e sm = (Ret tt, sm') ∧ slots_ok sm'.
Proof.
  intros Hi Hs. assert (∃ ch, on_event getSlotImpl e = key_callback getSlotImpl (event_key e) ch) as [ch ->] by (destruct e; by eexists).
  unfold key_callback. erewrite bind_Ret by (unfold go_lift; rewrite Hi; reflexivity). rewrite (bind_Ret _ _ _ _ _ (getSlot_run i sm)).
  destruct (default_ok sm i Hs) as [Hm Hd]. cbn zeta in *. set (s := default fresh_slot (slots sm !! i)) in *.
  unfold slot_Lock at 1. erewrite bind_Ret by (rewrite (bind_Ret _ _ _ _ _ (getSlot_at i s _ _)), Hm; apply put_slot_at).
  set (s1 := set_mu s true). set (s2 := set_keys s1 (ch (keys s1))).
  destruct (mark_dirty_run s2 (event_key e)) as (s3 & E3 & M3 & T3 & D3); [done|].
  unfold go_defer. rewrite (bind_Ret _ _ _ _ _ (getSlot_at i s1 _ _)), (bind_Ret _ _ _ _ _ (put_slot_at i s1 s2 _ _)).
  erewrite bind_Ret by (unfold go_lift; fold s1 s2; rewrite E3; reflexivity). rewrite put_slot_at. unfold slot_Unlock.
  rewrite (bind_Ret _ _ _ _ _ (getSlot_at i s3 _ _)), M3. change (mu s2) with true. cbv iota. rewrite put_slot_at.
  eexists. split; [reflexivity|]. apply slots_ok_insert; [done|done|]. cbn. rewrite T3. intros Hx. apply D3. by apply Hd.
Qed.

Lemma on_events_run es sm : Forall (λ e, ∃ i, getSlotImpl (event_key e) = Ret i) es → slots_ok sm →
  ∃ sm', go_for es (on_event getSlotImpl) sm = (Ret tt, sm') ∧ slots_ok sm'.
Proof.
  intros He. revert sm. induction He as [|e es [i Hi] _ IH]; intros sm Hs; [by exists sm|]. cbn [go_for].
  destruct (on_event_run e i sm Hi Hs) as (sm1 & E1 & Hs1). rewrite (bind_Ret _ _ _ _ _ E1). by apply IH.
Qed.
End callbacks.

(** ** Calls of the server *)

Section server.
Context `{Env} (tbl : Table DB) (cfg : Server.Config) `{Server.Services} (getSlotImpl : string → outcome Z).

#[local] Instance engine : Engine Server.Server := Node.server_engine tbl cfg.

(** The callbacks of all keys have been called. *)
Definition quiet (s : Server.Server) : Prop := Forall (λ d, events d = []) (Server.dbSet s).

(** Two servers that agree on everything but the first database, the log and the counter. *)
Record others (s s' : Server.Server) : Prop := {
  ot_world : Server.world s' = Server.world s;
  ot_slog : Server.slogLogger s' = Server.slogLogger s;
  ot_role : Server.role s' = Server.role s;
  ot_len : length (Server.dbSet s') = length (Server.dbSet s);
  ot_dbs : ∀ i, i ≠ 0%nat → Server.dbSet s' !! i = Server.dbSet s !! i
}.

Lemma others_trans s1 s2 s3 : others s1 s2 → others s2 s3 → others s1 s3.
Proof. intros [A1 A2 A3 A4 A5] [B1 B2 B3 B4 B5]. split; try congruence. intros i Hi. by rewrite B5, A5. Qed.

Definition has_slot (k : string) : Prop := ∃ i, getSlotImpl k = Ret i.

Lemma concat_quiet (l : list DB) : Forall (λ d, events d = []) l → concat (events <$> l) = [].
Proof. induction 1 as [|d l Hd _ IH]; [done|]. cbn. by rewrite Hd, IH. Qed.

Lemma clear_quiet (l : list DB) : Forall (λ d, events d = []) l → Node.clear_events <$> l = l.
Proof. induction 1 as [|d l Hd _ IH]; [done|]. cbn. rewrite IH. f_equal. unfold Node.clear_events. rewrite <-Hd. by destruct d. Qed.

(** The server after a computation has left [d'] in its first database. *)
Definition after_db (s : Server.Server) (d' : DB) : Server.Server := (Node.server_events (Server.put_db cfg 0 d' s)).2.

Lemma server_events_put s d d' : Server.dbSet s !! 0%nat = Some d → quiet s →
  Node.server_events (Server.put_db cfg 0 d' s) = (events d', after_db s d') ∧
  Server.dbSet (after_db s d') !! 0%nat = Some (Node.clear_events (set_aof d' [])) ∧ quiet (after_db s d') ∧ others s (after_db s d').
Proof.
  intros Hd Hq. set (s1 := Server.put_db cfg 0 d' s).
  assert (Server.dbSet s1 = <[0%nat := set_aof d' []]> (Server.dbSet s) ∧ Server.world s1 = Server.world s ∧ Server.slogLogger s1 = Server.slogLogger s ∧ Server.role s1 = Server.role s)
    as (E1 & E2 & E3 & E4).
  { unfold s1, Server.put_db. destruct (Server.AppendOnly cfg); [|done]. unfold Server.SaveCmdLine, go_modify. cbn. by destruct (Server.persister s). }
  unfold quiet in Hq. destruct (Server.dbSet s) as [|d0 l] eqn:El; [done|]. apply Forall_cons in Hq as [Hq0 Hql].
  unfold after_db. fold s1. unfold Node.server_events. cbn [snd]. rewrite E1. cbn [list_insert fmap list_fmap concat].
  assert (Node.clear_events <$> l = l) as Ec by by apply clear_quiet. 
  split_and!.
  - f_equal. change (@fmap list _ DB (list KeyEvent) events (insert 0%nat (set_aof d' []) (d0 :: l))) with (events d' :: (events <$> l)). cbn [concat]. by rewrite concat_quiet, app_nil_r.
  - done.
  - unfold quiet. cbn. constructor; [done|]. rewrite <-Ec in Hql. apply Forall_fmap, Forall_true. done.
  - split; cbn; try done; [by rewrite El; cbn; rewrite length_fmap|]. intros [|i] Hi; [done|]. rewrite El. cbn. change (list_fmap _ _ Node.clear_events l) with (Node.clear_events <$> l). by rewrite Ec.
Qed.

Lemma mustSelect_run s d : Server.dbSet s !! 0%nat = Some d → Server.mustSelectDB 0 s = (Ret d, s).
Proof.
  intros Hd. assert (Server.in_range s 0 = true) as Hi.
  { unfold Server.in_range. apply lookup_lt_Some in Hd. rewrite Z.geb_leb, (proj2 (Z.leb_gt _ _)) by lia. done. }
  unfold Server.mustSelectDB, Server.selectDB, mbind, gom_bind. rewrite Hi. change (Z.to_nat 0) with 0%nat. by rewrite Hd.
Qed.

Lemma call_db {A} (m : GoM DB A) s sm d : Server.dbSet s !! 0%nat = Some d → quiet s → slots_ok sm →
  let r := m (Server.take_db d s) in Forall (λ e, has_slot (event_key e)) (events r.2) →
  ∃ sm', with_callbacks getSlotImpl (db ← Server.mustSelectDB 0; Server.on_db cfg 0 db m) (s, sm) = (r.1, (after_db s r.2, sm')) ∧ slots_ok sm'.
Proof.
  intros Hd Hq Hs r Hr. destruct (server_events_put s d r.2 Hd Hq) as (E1 & _).
  destruct (on_events_run getSlotImpl (events r.2) sm Hr Hs) as (sm' & E2 & Hs').
  exists sm'. split; [|done]. unfold with_callbacks. cbn [fst snd]. rewrite (bind_Ret _ _ _ _ _ (mustSelect_run s d Hd)).
  unfold Server.on_db. fold r. destruct r as [o d']. cbn [fst snd] in *. change (eng_events (Server.put_db cfg 0 d' s)) with (Node.server_events (Server.put_db cfg 0 d' s)).
  by rewrite E1, E2.
Qed.

(** ** The part of a server in a transaction *)

(** The first database of [s] is [d], with the values [st] and no expiry times. *)
Record stores (s : Server.Server) (d : DB) (st : gmap string DataEntity) : Prop := {
  st_db : Server.dbSet s !! 0%nat = Some d;
  st_ok : db_ok d;
  st_store : cd_map (data d) = st;
  st_ttl : cd_map (ttlMap d) = ∅;
  st_quiet : quiet s
}.

(** A server at rest. *)
Record holds (s : Server.Server) (st : gmap string DataEntity) : Prop := {
  ho_ok : server_ok s;
  ho_zero : ∀ c, Conn.selectedDB (PubSub.conn_of (Server.world s) c) = 0;
  ho_db : ∃ d, stores s d st
}.

Lemma after_stores s d d' st : Server.dbSet s !! 0%nat = Some d → quiet s → db_ok d' → cd_map (data d') = st → cd_map (ttlMap d') = ∅ →
  stores (after_db s d') (Node.clear_events (set_aof d' [])) st ∧ others s (after_db s d').
Proof.
  intros Hd Hq [K1 K2 K3 K4] Hst Ht. destruct (server_events_put s d d' Hd Hq) as (_ & E2 & E3 & E4). split; [|done]. by split.
Qed.

(** A computation of the database that is specified on finite maps. *)
Lemma call_refines {A} Q (m : GoM DB A) (m' : GoM View A) a s sm d st st' al' dr' : stores s d st → slots_ok sm → refines Q m m' → emits has_slot m →
  m' (mkView st ∅ [] (Server.ticks s)) = (Ret a, mkView st' ∅ al' dr') →
  ∃ s1 sm1 d1, with_callbacks getSlotImpl (db ← Server.mustSelectDB 0; Server.on_db cfg 0 db m) (s, sm) = (Ret a, (s1, sm1)) ∧
    stores s1 d1 st' ∧ mutex <$> table (data d1) = mutex <$> table (data d) ∧ others s s1 ∧ slots_ok sm1.
Proof.
  intros [Hd Hok Hst Ht Hq] Hs Hr He Hm. set (d0 := Server.take_db d s).
  assert (db_ok d0) as Hok0 by (destruct Hok; by split). destruct (Hr d0 Hok0) as (R1 & R2 & R3 & R4 & _).
  assert (view d0 = mkView st ∅ [] (Server.ticks s)) as Ev by (unfold view; cbn; by rewrite Hst, Ht).
  rewrite Ev, Hm in R1, R2. cbn [fst snd] in R1, R2. destruct (He d0) as (es & E1 & H1). assert (events d0 = []) as E0.
  { unfold quiet in Hq. rewrite Forall_lookup in Hq. exact (Hq _ _ Hd). }
  destruct (call_db m s sm d Hd Hq Hs) as (sm1 & E2 & Hs1); [fold d0; by rewrite E1, E0|]. fold d0 in E2. rewrite R1 in E2.
  injection R2 as R2a R2b _ _. destruct (after_stores s d (m d0).2 st' Hd Hq R3 R2a R2b) as [G1 G2].
  eexists _, _, _. split_and!; [exact E2|exact G1| |done|done]. injection R4 as R4 _. cbn. by rewrite R4.
Qed.

Lemma with_callbacks_ext {A} (m m' : GoM Server.Server A) s sm : m s = m' s → with_callbacks getSlotImpl m (s, sm) = with_callbacks getSlotImpl m' (s, sm).
Proof. intros Hm. unfold with_callbacks. cbn [fst snd]. by rewrite Hm. Qed.

Lemma on_db_ext {A} (m m' : GoM DB A) s d : Server.dbSet s !! 0%nat = Some d → (∀ x, m x = m' x) →
  (db ← Server.mustSelectDB 0; Server.on_db cfg 0 db m) s = (db ← Server.mustSelectDB 0; Server.on_db cfg 0 db m') s.
Proof. intros Hd Hm. rewrite !(bind_Ret _ _ _ _ _ (mustSelect_run s d Hd)). unfold Server.on_db. by rewrite Hm. Qed.

Lemma ExecWithLock_zero c line s d : Conn.selectedDB (PubSub.conn_of (Server.world s) c) = 0 → Server.dbSet s !! 0%nat = Some d →
  Server.ExecWithLock tbl cfg c line s = (db ← Server.mustSelectDB 0; Server.on_db cfg 0 db (execWithLock tbl line)) s.
Proof.
  intros Hc Hd. unfold Server.ExecWithLock. erewrite bind_Ret by reflexivity. rewrite Hc. rewrite (bind_Ret _ _ _ _ _ (mustSelect_run s d Hd)).
  pose proof (mustSelect_run s d Hd) as Hm. unfold Server.mustSelectDB in Hm. unfold early.
  assert (Server.selectDB 0 s = (Ret (inr d), s)) as Hsel.
  { unfold mbind, gom_bind in Hm. destruct (Server.selectDB 0 s) as [[[e|x]| |] s1]; try done. cbn in Hm. by injection Hm as -> ->. }
  by rewrite (bind_Ret _ _ _ _ _ Hsel).
Qed.

(** A line that leads from [st] to [st'] on finite maps. *)
Record line_runs (line : CmdLine) (st st' : gmap string DataEntity) : Prop := {
  lr_line : specified (command_name line) = true;
  lr_exec : ∀ d, execWithLock tbl line d = execWithLock cmdTable line d;
  lr_emits : emits has_slot (execWithLock cmdTable line);
  lr_run : ∀ dr, ∃ r al' dr', execWithLock storeTable line (mkView st ∅ [] dr) = (Ret r, mkView st' ∅ al' dr')
}.

(** The server runs such a line, under whatever locks. *)
Lemma call_line line s sm d st st' : (∀ c, Conn.selectedDB (PubSub.conn_of (Server.world s) c) = 0) → stores s d st → slots_ok sm → line_runs line st st' →
  ∃ r s1 sm1 d1, (∀ c, with_callbacks getSlotImpl (Server.ExecWithLock tbl cfg c line) (s, sm) = (Ret r, (s1, sm1))) ∧
    stores s1 d1 st' ∧ mutex <$> table (data d1) = mutex <$> table (data d) ∧ others s s1 ∧ slots_ok sm1.
Proof.
  intros Hz Hst Hs [Hl He Hem Hr]. destruct (Hr (Server.ticks s)) as (r & al & dr & V).
  destruct (call_refines _ _ _ r s sm d st st' al dr Hst Hs (execWithLock_refines line Hl) Hem V) as (s1 & sm1 & d1 & E1 & G).
  exists r, s1, sm1, d1. split; [|exact G]. intros c. etransitivity; [|exact E1]. apply with_callbacks_ext.
  etransitivity; [eapply ExecWithLock_zero; [apply Hz|apply Hst]|]. apply (on_db_ext _ _ _ d); [apply Hst|exact He].
Qed.

Inductive lines_run : list CmdLine → gmap string DataEntity → gmap string DataEntity → Prop :=
  | lines_nil st : lines_run [] st st
  | lines_cons line lines st st1 st2 : line_runs line st st1 → lines_run lines st1 st2 → lines_run (line :: lines) st st2.

Lemma lines_app l1 l2 st st1 st2 : lines_run l1 st st1 → lines_run l2 st1 st2 → lines_run (l1 ++ l2) st st2.
Proof. induction 1; intros Hl; [done|]. econstructor; eauto. Qed.

Lemma call_lines lines s sm d st st' : (∀ c, Conn.selectedDB (PubSub.conn_of (Server.world s) c) = 0) → stores s d st → slots_ok sm → lines_run lines st st' →
  ∃ s1 sm1 d1, (∀ c, go_for lines (λ line, _ ← with_callbacks getSlotImpl (Server.ExecWithLock tbl cfg c line); mret tt) (s, sm) = (Ret tt, (s1, sm1))) ∧
    stores s1 d1 st' ∧ mutex <$> table (data d1) = mutex <$> table (data d) ∧ others s s1 ∧ slots_ok sm1.
Proof.
  intros Hz Hst Hs Hl. revert s sm d Hz Hst Hs. induction Hl as [st|line lines st st1 st2 Hline _ IH]; intros s sm d Hz Hst Hs.
  { exists s, sm, d. split_and!; [done|done|done|by split|done]. }
  destruct (call_line line s sm d st st1 Hz Hst Hs Hline) as (r & s1 & sm1 & d1 & E1 & S1 & M1 & O1 & P1).
  destruct (IH s1 sm1 d1) as (s2 & sm2 & d2 & E2 & S2 & M2 & O2 & P2); [intros c; rewrite (ot_world _ _ O1); apply Hz|done|done|].
  exists s2, sm2, d2. split_and!; [|done|congruence|by eapply others_trans|done]. intros c. cbn [go_for].
  erewrite bind_Ret by (erewrite bind_Ret by apply E1; reflexivity). apply E2.
Qed.

(** A line that runs on finite maps from [st] to [st'] with the reply [r]. *)
Record runs (real : CmdLine) (ks : list string * list string) (st st' : gmap string DataEntity) (r : Reply) : Prop := {
  ru_line : specified (command_name real) = true;
  ru_keys : Tx.GetRelatedKeys tbl real = Ret ks;
  ru_undo : ∀ d, Tx.GetUndoLogs tbl real d = Tx.GetUndoLogs cmdTable real d;
  ru_exec : ∀ d, execWithLock tbl real d = execWithLock cmdTable real d;
  ru_undo_emits : emits has_slot (Tx.GetUndoLogs cmdTable real);
  ru_exec_emits : emits has_slot (execWithLock cmdTable real);
  ru_undo_run : ∀ dr, ∃ undo dr', Tx.GetUndoLogs storeTable real (mkView st ∅ [] dr) = (Ret undo, mkView st ∅ [] dr');
  ru_exec_run : ∀ dr, ∃ al' dr', execWithLock storeTable real (mkView st ∅ [] dr) = (Ret r, mkView st' ∅ al' dr')
}.

Lemma call_locks wks rks s sm d st : stores s d st → unlocked (data d) → slots_ok sm →
  ∃ s1 sm1 d1, with_callbacks getSlotImpl (Server.RWLocks cfg 0 wks rks) (s, sm) = (Ret tt, (s1, sm1)) ∧
    stores s1 d1 st ∧ held (data d1) wks rks ∧ others s s1 ∧ slots_ok sm1.
Proof.
  intros [Hd Hok Hst Ht Hq] Hu Hs. destruct (RWLocks_held (data d) wks rks) as (dl & E1 & Hsame & Hh); [apply Hok|done|].
  assert (DBOps.RWLocks wks rks (Server.take_db d s) = (Ret tt, set_data (Server.take_db d s) dl)) as Em by (unfold DBOps.RWLocks; change (data (Server.take_db d s)) with (data d); by rewrite E1).
  destruct (call_db (DBOps.RWLocks wks rks) s sm d Hd Hq Hs) as (sm1 & E2 & Hs1).
  { rewrite Em. cbn. unfold quiet in Hq. rewrite Forall_lookup in Hq. by rewrite (Hq _ _ Hd). }
  rewrite Em in E2. cbn [fst snd] in E2.
  destruct (after_stores s d (set_data (Server.take_db d s) dl) st Hd Hq) as [G1 G2];
    [apply same_maps_ok; [done|by destruct Hok]|cbn; by rewrite (same_maps_shards (data d) dl)|done|].
  eexists _, _, _. split_and!; [exact E2|exact G1|exact Hh|done|done].
Qed.

Lemma call_unlocks wks rks s sm d st : stores s d st → held (data d) wks rks → slots_ok sm →
  ∃ s1 sm1 d1, with_callbacks getSlotImpl (Server.RWUnLocks cfg 0 wks rks) (s, sm) = (Ret tt, (s1, sm1)) ∧
    stores s1 d1 st ∧ unlocked (data d1) ∧ others s s1 ∧ slots_ok sm1.
Proof.
  intros [Hd Hok Hst Ht Hq] Hh Hs. destruct (RWUnLocks_held (data d) wks rks) as (dl & E1 & Hsame & Hu); [apply Hok|done|].
  assert (DBOps.RWUnLocks wks rks (Server.take_db d s) = (Ret tt, set_data (Server.take_db d s) dl)) as Em
    by (unfold DBOps.RWUnLocks; change (data (Server.take_db d s)) with (data d); by rewrite E1).
  destruct (call_db (DBOps.RWUnLocks wks rks) s sm d Hd Hq Hs) as (sm1 & E2 & Hs1).
  { rewrite Em. cbn. unfold quiet in Hq. rewrite Forall_lookup in Hq. by rewrite (Hq _ _ Hd). }
  rewrite Em in E2. cbn [fst snd] in E2.
  destruct (after_stores s d (set_data (Server.take_db d s) dl) st Hd Hq) as [G1 G2];
    [apply same_maps_ok; [done|by destruct Hok]|cbn; by rewrite (same_maps_shards (data d) dl)|done|].
  eexists _, _, _. split_and!; [exact E2|exact G1|exact Hu|done|done].
Qed.

(** A server that is at rest again. *)
Lemma holds_again s s' d st st' : holds s st → others s s' → stores s' d st' → unlocked (data d) → holds s' st'.
Proof.
  intros [[K1 K2 K3 K4 K5] Hz _] [A1 A2 A3 A4 A5] Hst Hu. split; [|intros c; by rewrite A1|by exists d]. split; rewrite ?A1, ?A2, ?A4; try done.
  apply Forall_lookup. intros [|i] x Hx.
  - rewrite (st_db _ _ _ Hst) in Hx. injection Hx as <-. split; [apply Hst|done].
  - rewrite A5 in Hx by done. rewrite Forall_lookup in K1. by eapply K1.
Qed.

(** The part of a server: it answers [r] and then holds [st']. *)
Lemma server_part real ks st st' r s sm : runs real ks st st' r → holds s st → slots_ok sm →
  ∃ s' sm', (∀ c, takes_part getSlotImpl c real (s, sm) = (Ret r, (s', sm'))) ∧ holds s' st' ∧ slots_ok sm'.
Proof.
  intros Hr Hh Hs. pose proof Hh as [Hok Hz [d Hd]].
  assert (unlocked (data d)) as Hu. { pose proof (so_dbs _ Hok) as Hf. rewrite Forall_lookup in Hf. apply (Hf _ _ (st_db _ _ _ Hd)). }
  destruct (call_locks ks.1 ks.2 s sm d st Hd Hu Hs) as (s1 & sm1 & d1 & E1 & S1 & L1 & O1 & P1).
  destruct (ru_undo_run _ _ _ _ _ Hr (Server.ticks s1)) as (undo & dr2 & V2).
  destruct (call_refines _ _ _ undo s1 sm1 d1 st st [] dr2 S1 P1 (GetUndoLogs_refines real (ru_line _ _ _ _ _ Hr)) (ru_undo_emits _ _ _ _ _ Hr) V2)
    as (s2 & sm2 & d2 & E2 & S2 & M2 & O2 & P2).
  destruct (ru_exec_run _ _ _ _ _ Hr (Server.ticks s2)) as (al3 & dr3 & V3).
  destruct (call_refines _ _ _ r s2 sm2 d2 st st' al3 dr3 S2 P2 (execWithLock_refines real (ru_line _ _ _ _ _ Hr)) (ru_exec_emits _ _ _ _ _ Hr) V3)
    as (s3 & sm3 & d3 & E3 & S3 & M3 & O3 & P3).
  destruct (call_unlocks ks.1 ks.2 s3 sm3 d3 st' S3) as (s4 & sm4 & d4 & E4 & S4 & U4 & O4 & P4); [|done|].
  { eapply held_mutexes; [exact M3|]. by eapply held_mutexes. }
  pose proof (others_trans _ _ _ O1 O2) as O12. exists s4, sm4. split; [|split; [|done]].
  - intros c. unfold takes_part, local_prepare, local_commit. erewrite bind_Ret; [|erewrite bind_Ret by (unfold go_lift; cbn; rewrite (ru_keys _ _ _ _ _ Hr); reflexivity);
      erewrite bind_Ret by exact E1; erewrite bind_Ret; [reflexivity|]; etransitivity; [|exact E2]; apply with_callbacks_ext, (on_db_ext _ _ _ d1); [apply S1|apply Hr]].
    cbn [fst]. erewrite bind_Ret; [|etransitivity; [|exact E3]; apply with_callbacks_ext; etransitivity;
      [eapply ExecWithLock_zero; [rewrite (ot_world _ _ O12); apply Hz|apply S2]|apply (on_db_ext _ _ _ d2); [apply S2|apply Hr]]].
    by erewrite bind_Ret by exact E4.
  - eapply holds_again; [exact Hh| |exact S4|done]. eapply others_trans; [exact O12|]. by eapply others_trans.
Qed.

(** PREPARE and ROLLBACK of a line whose undo log leads from [st] to [st']. *)
Lemma server_undo real ks undo st st' s sm : specified (command_name real) = true → Tx.GetRelatedKeys tbl real = Ret ks →
  (∀ d, Tx.GetUndoLogs tbl real d = Tx.GetUndoLogs cmdTable real d) → emits has_slot (Tx.GetUndoLogs cmdTable real) →
  (∀ dr, ∃ dr', Tx.GetUndoLogs storeTable real (mkView st ∅ [] dr) = (Ret undo, mkView st ∅ [] dr')) →
  lines_run (rev undo) st st' → holds s st → slots_ok sm →
  ∃ p1 s' sm', local_prepare getSlotImpl real (s, sm) = (Ret (ks, undo), p1) ∧
    (∀ c, local_rollback getSlotImpl c undo ks p1 = (Ret tt, (s', sm'))) ∧ holds s' st' ∧ slots_ok sm'.
Proof.
  intros Hl Hkeys Hundo Hemit Hrun Hlines Hh Hs. pose proof Hh as [Hok Hz [d Hd]].
  assert (unlocked (data d)) as Hu. { pose proof (so_dbs _ Hok) as Hf. rewrite Forall_lookup in Hf. apply (Hf _ _ (st_db _ _ _ Hd)). }
  destruct (call_locks ks.1 ks.2 s sm d st Hd Hu Hs) as (s1 & sm1 & d1 & E1 & S1 & L1 & O1 & P1).
  destruct (Hrun (Server.ticks s1)) as (dr2 & V2).
  destruct (call_refines _ _ _ undo s1 sm1 d1 st st [] dr2 S1 P1 (GetUndoLogs_refines real Hl) Hemit V2) as (s2 & sm2 & d2 & E2 & S2 & M2 & O2 & P2).
  pose proof (others_trans _ _ _ O1 O2) as O12.
  destruct (call_lines (rev undo) s2 sm2 d2 st st') as (s3 & sm3 & d3 & E3 & S3 & M3 & O3 & P3);
    [intros c; rewrite (ot_world _ _ O12); apply Hz|done..|].
  destruct (call_unlocks ks.1 ks.2 s3 sm3 d3 st' S3) as (s4 & sm4 & d4 & E4 & S4 & U4 & O4 & P4); [|done|].
  { eapply held_mutexes; [exact M3|]. by eapply held_mutexes. }
  exists (s2, sm2), s4, sm4. split_and!; [| | |done].
  - unfold local_prepare. erewrite bind_Ret by (unfold go_lift; cbn; rewrite Hkeys; reflexivity). erewrite bind_Ret by exact E1.
    erewrite bind_Ret; [reflexivity|]. etransitivity; [|exact E2]. apply with_callbacks_ext, (on_db_ext _ _ _ d1); [apply S1|exact Hundo].
  - intros c. unfold local_rollback. by erewrite bind_Ret by apply E3.
  - eapply holds_again; [exact Hh| |exact S4|done]. eapply others_trans; [exact O12|]. by eapply others_trans.
Qed.
End server.

(** ** MSET *)


Lemma last_named_none {S} (n : string) (cmds : list (command S)) o : n ∉ (name <$> cmds) → last_named n cmds o = o.
Proof.
  revert o. induction cmds as [|c cmds IH]; intros o Hn; [done|]. cbn [fmap list_fmap] in Hn. apply not_elem_of_cons in Hn as [H1 H2].
  cbn [last_named]. rewrite (proj2 (String.eqb_neq _ _)) by congruence. by apply IH.
Qed.

Section mset.
Context `{Env} (fuel : nat) (cfg : Server.Config) `{Server.Services} (getSlotImpl : string → outcome Z).

Abbreviation tbl := (goTable fuel).

(** A key that holds a string or nothing. *)
Definition textual (st : gmap string DataEntity) (k : string) : Prop :=
  match st !! k with None | Some (DString _) => True | _ => False end.

Lemma rollback_textual ks st dr : Forall (textual st) ks →
  ∃ undo, rollbackGivenKeys ks (mkView st ∅ [] dr) = (Ret undo, mkView st ∅ [] dr).
Proof.
  induction 1 as [|k ks Hk _ [undo IH]]; cbn [rollbackGivenKeys]; [by eexists|]. unfold textual in Hk.
  erewrite bind_Ret by (by apply GetEntity_no_ttl). cbn [v_store]. destruct (st !! k) as [[b| | | |]|]; try done.
  - erewrite bind_Ret by reflexivity. rewrite (bind_Ret _ _ _ _ _ IH). by eexists.
  - erewrite bind_Ret by reflexivity. rewrite (bind_Ret _ _ _ _ _ IH). by eexists.
Qed.

(** The handler of a line on a table that has it. *)
Lemma part_exec_handler {S} (t : Table S) n args c f :
  t !! ToLower n = Some c → executor c = Some f → validateArity (arity c) (Some n :: args) = true →
  ∀ s, execWithLock t (Some n :: args) s = f args s.
Proof.
  intros Hc Hf Ha s. assert (find_command t (Some n :: args) = Ret (inr c)) as Hfind.
  { unfold find_command, arg_at. cbn [lookup list_lookup mbind outcome_bind]. change (str (Some n)) with n. by rewrite Hc, Ha. }
  unfold execWithLock. rewrite (early_inr _ _ s c s) by (unfold go_lift; by rewrite Hfind). unfold call_executor. by rewrite Hf.
Qed.

Lemma part_undo_handler {S} (t : Table S) n args c f :
  t !! ToLower n = Some c → undo c = Some f → ∀ s, Tx.GetUndoLogs t (Some n :: args) s = f args s.
Proof. intros Hc Hf s. unfold Tx.GetUndoLogs. erewrite bind_Ret by reflexivity. change (str (Some n)) with n. by rewrite Hc, Hf. Qed.

Lemma mset_runs kvs st : kvs ≠ [] → Forall (has_slot getSlotImpl) kvs.*1 → Forall (textual st) kvs.*1 →
  runs tbl getSlotImpl (Some "mset" :: pair_args kvs) (kvs.*1, []) st (put_all kvs st) OkReply.
Proof.
  intros Hne Hslot Htext.
  assert ((arg_pairs (pair_args kvs)).*1 = kvs.*1) as Hkeys by (rewrite arg_pairs_args, <-list_fmap_compose; done).
  assert (ToLower "mset" ∉ unbounded) as Hn by (apply (bool_decide_eq_true_1 (_ ∉ _)); reflexivity).
  assert (validateArity (-3) (Some "mset" :: pair_args kvs) = true) as Ha.
  { apply validate_some; [lia|]. destruct kvs as [|[k v] kvs]; [done|]. cbn [pair_args fmap list_fmap concat app length]. lia. }
  assert (∃ c, cmdTable !! "mset" = Some c ∧ executor c = Some execMSet ∧ undo c = Some undoMSet ∧ arity c = -3) as (c & Hc & He & Hu & Har)
    by (rewrite cmdTable_lookup; by eexists).
  assert (∃ c, storeTable (S := View) !! "mset" = Some c ∧ executor c = Some execMSet ∧ undo c = Some undoMSet ∧ arity c = -3) as (c' & Hc' & He' & Hu' & Har')
    by (rewrite storeTable_lookup; by eexists).
  assert (tbl !! "mset" = Some c) as Ht by (by rewrite goTable_lookup). rewrite <-Har in Ha. assert (validateArity (arity c') (Some "mset" :: pair_args kvs) = true) as Ha' by congruence.
  split.
  - reflexivity.
  - unfold Tx.GetRelatedKeys, arg_at. cbn [lookup list_lookup mbind outcome_bind]. change (str (Some "mset")) with "mset".
    rewrite goTable_lookup, cmdTable_lookup by done. transitivity (prepareMSet (pair_args kvs)); [reflexivity|]. unfold prepareMSet. by rewrite Hkeys.
  - intros d. by rewrite !(part_undo_handler _ "mset" _ c undoMSet).
  - intros d. by rewrite !(part_exec_handler _ "mset" _ c execMSet).
  - eapply emits_ext; [intros d; by apply (part_undo_handler _ "mset" _ c undoMSet)|].
    eapply emits_ext; [intros d; unfold undoMSet; erewrite bind_Ret by reflexivity; reflexivity|]. apply emits_rollback. cbn [fst]. by rewrite Hkeys.
  - eapply emits_ext; [intros d; by apply (part_exec_handler _ "mset" _ c execMSet)|]. apply emits_MSet. by rewrite Hkeys.
  - intros dr. destruct (rollback_textual kvs.*1 st dr Htext) as [ul Eu]. exists ul, dr.
    rewrite (part_undo_handler _ "mset" _ c' undoMSet) by done. unfold undoMSet. erewrite bind_Ret by reflexivity. cbn [fst]. by rewrite Hkeys.
  - intros dr. eexists _, _. rewrite (part_exec_handler _ "mset" _ c' execMSet) by done. by rewrite mset_run.
Qed.

(** *** The undo log of a MSET *)

Definition undo_of (st : gmap string DataEntity) (k : string) : list CmdLine :=
  match st !! k with
  | Some (DString b) => [ToCmdLine ["DEL"; k]; stringToCmd k b; ToCmdLine ["PERSIST"; k]]
  | _ => [ToCmdLine ["DEL"; k]]
  end.

Lemma rollback_lines ks st dr : Forall (textual st) ks →
  rollbackGivenKeys ks (mkView st ∅ [] dr) = (Ret (concat (undo_of st <$> ks)), mkView st ∅ [] dr).
Proof.
  induction 1 as [|k ks Hk _ IH]; cbn [rollbackGivenKeys]; [done|]. unfold textual in Hk.
  erewrite bind_Ret by (by apply GetEntity_no_ttl). cbn [v_store fmap list_fmap concat]. unfold undo_of at 1. destruct (st !! k) as [[b| | | |]|]; try done.
  - erewrite bind_Ret by reflexivity. by rewrite (bind_Ret _ _ _ _ _ IH).
  - erewrite bind_Ret by reflexivity. by rewrite (bind_Ret _ _ _ _ _ IH).
Qed.

Lemma mset_undo kvs st dr : Forall (textual st) kvs.*1 →
  Tx.GetUndoLogs storeTable (Some "mset" :: pair_args kvs) (mkView st ∅ [] dr) = (Ret (concat (undo_of st <$> kvs.*1)), mkView st ∅ [] dr).
Proof.
  intros Htext. assert (∃ c, storeTable (S := View) !! ToLower "mset" = Some c ∧ undo c = Some undoMSet) as (c & Hc & Hu) by (rewrite storeTable_lookup; by eexists).
  rewrite (part_undo_handler _ "mset" _ c undoMSet) by done. unfold undoMSet. erewrite bind_Ret by reflexivity. cbn [fst].
  rewrite arg_pairs_args, <-list_fmap_compose. by apply rollback_lines.
Qed.

(** A line of a command of the table. *)
Lemma line_of n args c c' f f' st st' : specified (ToLower n) = true → ToLower n ∉ unbounded →
  cmdTable !! ToLower n = Some c → executor c = Some f → validateArity (arity c) (Some n :: args) = true →
  storeTable (S := View) !! ToLower n = Some c' → executor c' = Some f' → validateArity (arity c') (Some n :: args) = true →
  emits (has_slot getSlotImpl) (f args) → (∀ dr, ∃ r al' dr', f' args (mkView st ∅ [] dr) = (Ret r, mkView st' ∅ al' dr')) →
  line_runs tbl getSlotImpl (Some n :: args) st st'.
Proof.
  intros Hs Hn Hc Hf Ha Hc' Hf' Ha' He Hr. split; [exact Hs| | |].
  - intros d. by rewrite !(part_exec_handler _ n args c f) by (by rewrite ?goTable_lookup).
  - eapply emits_ext; [intros d; by apply (part_exec_handler _ n args c f)|done].
  - intros dr. destruct (Hr dr) as (r & al & dr' & E). exists r, al, dr'. by rewrite (part_exec_handler _ n args c' f').
Qed.

Ltac table_line := eapply line_of; [reflexivity|apply (bool_decide_eq_true_1 (_ ∉ _)); reflexivity
  |rewrite cmdTable_lookup; reflexivity|reflexivity|reflexivity|rewrite storeTable_lookup; reflexivity|reflexivity|reflexivity| |].

Lemma del_line k st : has_slot getSlotImpl k → line_runs tbl getSlotImpl (ToCmdLine ["DEL"; k]) st (delete k st).
Proof.
  intros Hk. table_line; [by apply emits_Del|]. intros dr. unfold KeyCmds.execDel. cbn [Removes view_store fmap list_fmap]. unfold ViewOps.Removes. change (str (Some k)) with k.
  set (v := mkView st ∅ [] dr).
  assert (ViewOps.Removes_loop [k] 0 v = (Ret (if st !! k then 1 else 0), mkView (delete k st) (delete k ∅) [] dr)) as E1.
  { cbn [ViewOps.Removes_loop]. erewrite bind_Ret by reflexivity. cbn [v_store v]. destruct (st !! k) eqn:E; [reflexivity|].
    rewrite delete_id, delete_empty by done. reflexivity. }
  rewrite (bind_Ret _ _ _ _ _ E1), delete_empty. destruct (st !! k); by eexists _, _, _.
Qed.

Lemma set_line k b st : has_slot getSlotImpl k → line_runs tbl getSlotImpl (stringToCmd k b) st (<[k := DString b]> st).
Proof. intros Hk. table_line; [by apply emits_Set|]. intros dr. exists OkReply, [ToCmdLine3 "set" [Some k; b]], dr. rewrite <-(delete_empty (K := string) (A := Z) k) at 2. reflexivity. Qed.

Lemma persist_line k st : has_slot getSlotImpl k → line_runs tbl getSlotImpl (ToCmdLine ["PERSIST"; k]) st st.
Proof.
  intros Hk. table_line; [by apply emits_Persist|]. intros dr. unfold KeyCmds.execPersist. erewrite bind_Ret by reflexivity. cbv zeta. change (str (Some k)) with k.
  erewrite bind_Ret by (by apply GetEntity_no_ttl). cbn [v_store]. destruct (st !! k); by eexists _, _, _.
Qed.

(** Backwards, the undo log ends with the deletion of the key. *)
Lemma undo_deletes ks st0 st : Forall (has_slot getSlotImpl) ks →
  lines_run tbl getSlotImpl (rev (concat (undo_of st0 <$> ks))) st (foldr delete st ks).
Proof.
  induction 1 as [|k ks Hk _ IH]; [constructor|]. cbn [fmap list_fmap concat foldr]. rewrite rev_app_distr. eapply lines_app; [exact IH|]. clear IH.
  generalize (foldr delete st ks). clear st. intros st. unfold undo_of. destruct (st0 !! k) as [[b| | | |]|]; cbn [rev app].
  - econstructor; [by apply persist_line|]. econstructor; [by apply set_line|]. econstructor; [by apply del_line|]. rewrite delete_insert_eq. constructor.
  - econstructor; [by apply del_line|]. constructor.
  - econstructor; [by apply del_line|]. constructor.
  - econstructor; [by apply del_line|]. constructor.
  - econstructor; [by apply del_line|]. constructor.
  - econstructor; [by apply del_line|]. constructor.
Qed.
End mset.
