(* ===== verification/ClusterSpec.v ===== *)
(** * A cluster of servers as finite maps

    A MSET whose keys live on several nodes writes every key on its node, as one MSET on one
    map would ([mset_over_nodes]). *)

From Stdlib Require Import ZArith Lia Ascii String.
From stdpp Require Import base gmap strings numbers list.
From S2P Require Import Prelude GoStd Dict QuickList SetDS Protocol DB Marshal SlowLog StringCmds KeyCmds Conn PubSub Router Exec Tx Server ServerLaws Laws RaftFSM Cluster ClusterTcc Migration ClusterServer ClusterLaws TccLaws ServerPart.

Local Open Scope string_scope.
Local Open Scope list_scope.
Local Open Scope Z_scope.
Local Open Scope go_scope.

#[local] Opaque cmdTable storeTable makeDB.

Import Cluster.

(** ** Routing *)

Section routes.
Context (route : string → string).

Definition group_step (m : gmap string (list string)) (k : string) : gmap string (list string) :=
  <[route k := default [] (m !! route k) ++ [k]]> m.

Definition group (ks : list string) (x : string) : list string := filter (λ k, route k = x) ks.

Lemma route_map_lookup ks m x : foldl group_step m ks !! x =
  match group ks x with [] => m !! x | l => Some (default [] (m !! x) ++ l) end.
Proof.
  revert m. induction ks as [|k ks IH]; intros m; cbn [foldl]; [done|]. rewrite IH. unfold group at 2. rewrite filter_cons. fold (group ks x).
  unfold group_step. case_decide as Hx.
  - subst x. rewrite lookup_insert_eq. destruct (group ks (route k)); cbn; [done|]. by rewrite <-app_assoc.
  - by rewrite lookup_insert_ne.
Qed.

Lemma elem_of_group ks x k : k ∈ group ks x ↔ route k = x ∧ k ∈ ks.
Proof. unfold group. by rewrite list_elem_of_filter. Qed.

Lemma route_map_some ks x l : foldl group_step ∅ ks !! x = Some l ↔ l = group ks x ∧ l ≠ [].
Proof. rewrite route_map_lookup, lookup_empty. destruct (group ks x) as [|k l']; cbn; naive_solver. Qed.

(** Keys on two nodes are not a request for one node. *)
Lemma route_map_many ks k1 k2 : k1 ∈ ks → k2 ∈ ks → route k1 ≠ route k2 → ∀ x l, map_to_list (foldl group_step ∅ ks) ≠ [(x, l)].
Proof.
  intros G1 G2 Hne x l Hl. assert (∀ k, k ∈ ks → route k = x) as Hall.
  { intros k Hk. destruct (foldl group_step ∅ ks !! route k) as [l'|] eqn:El.
    - apply elem_of_map_to_list in El. rewrite Hl in El. apply list_elem_of_singleton in El. by simplify_eq.
    - rewrite route_map_lookup in El. destruct (group ks (route k)) eqn:Eg; [|done]. assert (k ∈ group ks (route k)) as Hin by by apply elem_of_group.
      rewrite Eg in Hin. by apply elem_of_nil in Hin. }
  by rewrite (Hall k1 G1), (Hall k2 G2) in Hne.
Qed.
End routes.

Lemma getRouteMap_run `{Env} {E} `{Engine E} (getSlotImpl : string → outcome Z) (pickNodeImpl : Node E → Z → string) route self ks m w : Forall (λ k, routes_to getSlotImpl pickNodeImpl w self k (route k)) ks →
  Tcc.getRouteMap getSlotImpl pickNodeImpl self ks m w = (Ret (foldl (group_step route) m ks), w).
Proof.
  intros Hk. revert m. induction Hk as [|k ks (n & i & Hn & Hi & Hp) _ IH]; intros m; cbn [Tcc.getRouteMap foldl]; [done|].
  rewrite (bind_Ret _ _ _ _ _ (GetSlot_run getSlotImpl k i w Hi)). unfold PickNode. rewrite (bind_Ret _ _ _ _ _ (at_node_get self _ w n Hn)), Hp. apply IH.
Qed.

(** ** Values *)

Lemma value_map_snoc l k v : Tcc.value_map (l ++ [(k, v)]) = <[k := v]> (Tcc.value_map l).
Proof. unfold Tcc.value_map. by rewrite foldl_app. Qed.

Lemma value_map_dom l k : is_Some (Tcc.value_map l !! k) ↔ k ∈ l.*1.
Proof.
  induction l as [|[k' v] l IH] using rev_ind; [rewrite elem_of_nil; cbn; rewrite lookup_empty; split; [by intros [? ?]|done]|].
  rewrite value_map_snoc, fmap_app. cbn [fmap list_fmap fst]. rewrite elem_of_app, list_elem_of_singleton, lookup_insert_is_Some, IH. destruct (decide (k' = k)); naive_solver.
Qed.

Lemma value_map_filter (route : string → string) x (l : list (string * bytes)) k : route k = x →
  Tcc.value_map (filter (λ p, route p.1 = x) l) !! k = Tcc.value_map l !! k.
Proof.
  intros Hk. induction l as [|[k' v] l IH] using rev_ind; [done|]. rewrite filter_app, filter_cons, filter_nil, value_map_snoc. cbn [fst].
  case_decide as Hf.
  - rewrite value_map_snoc. destruct (decide (k' = k)) as [->|Hne]; [by rewrite !lookup_insert_eq|by rewrite !lookup_insert_ne].
  - rewrite app_nil_r, lookup_insert_ne by congruence. done.
Qed.

Definition args_of (kvs : list (string * string)) : list (string * bytes) := (λ kv, (kv.1, Some kv.2)) <$> kvs.

Lemma put_all_lookup kvs m k : put_all kvs m !! k =
  match Tcc.value_map (args_of kvs) !! k with Some v => Some (DString v) | None => m !! k end.
Proof.
  induction kvs as [|[k' v] kvs IH] using rev_ind; [done|]. unfold put_all, args_of in *. rewrite foldl_app, fmap_app. cbn [fmap list_fmap foldl fst snd].
  rewrite value_map_snoc. destruct (decide (k' = k)) as [->|Hne]; [by rewrite !lookup_insert_eq|]. by rewrite !lookup_insert_ne.
Qed.

Lemma args_of_keys kvs : (args_of kvs).*1 = kvs.*1.
Proof. unfold args_of. by rewrite <-list_fmap_compose. Qed.

Lemma pairs_of_args kvs : Tcc.pairs_of (pair_args kvs) = args_of kvs.
Proof. induction kvs as [|[k v] kvs IH]; [done|]. cbn. by f_equal. Qed.

(** The part of a node: its keys with their last values. *)
Definition last_values (kvs : list (string * string)) (ks : list string) : list (string * string) :=
  (λ k, (k, str (default None (Tcc.value_map (args_of kvs) !! k)))) <$> ks.

Lemma last_value kvs k : k ∈ kvs.*1 → ∃ v, Tcc.value_map (args_of kvs) !! k = Some (Some v).
Proof.
  induction kvs as [|[k' v] kvs IH] using rev_ind; [by intros ?%elem_of_nil|]. unfold args_of in *. rewrite !fmap_app. cbn [fmap list_fmap fst snd].
  rewrite elem_of_app, list_elem_of_singleton, value_map_snoc. destruct (decide (k' = k)) as [->|Hne]; [rewrite lookup_insert_eq; eauto|].
  rewrite lookup_insert_ne by done. intros [Hin| ->]; [by apply IH|done].
Qed.

Lemma mset_line_eq kvs ks : Forall (λ k, k ∈ kvs.*1) ks →
  Tcc.mset_line "mset" (Tcc.value_map (args_of kvs)) ks = Some "mset" :: pair_args (last_values kvs ks).
Proof.
  intros Hk. unfold Tcc.mset_line, pair_args, last_values. f_equal. f_equal. rewrite <-list_fmap_compose. apply list_fmap_ext.
  intros i k Hi. cbn. rewrite Forall_lookup in Hk. destruct (last_value kvs k (Hk _ _ Hi)) as [v ->]. done.
Qed.

Lemma last_values_lookup kvs ks k : Forall (λ k, k ∈ kvs.*1) ks →
  Tcc.value_map (args_of (last_values kvs ks)) !! k = if bool_decide (k ∈ ks) then Tcc.value_map (args_of kvs) !! k else None.
Proof.
  intros Hk. induction ks as [|k' ks IH] using rev_ind; [by rewrite bool_decide_eq_false_2 by apply not_elem_of_nil|].
  apply Forall_app in Hk as [Hk [Hk' _]%Forall_cons]. unfold args_of, last_values in *. rewrite !fmap_app. cbn [fmap list_fmap fst snd].
  rewrite value_map_snoc. destruct (last_value kvs k' Hk') as [v Hv]. destruct (decide (k' = k)) as [->|Hne].
  - rewrite lookup_insert_eq, Hv, bool_decide_eq_true_2 by (rewrite elem_of_app, list_elem_of_singleton; auto). unfold args_of in Hv. by rewrite Hv.
  - rewrite lookup_insert_ne, IH by done. rewrite (bool_decide_ext (k ∈ ks) (k ∈ ks ++ [k'])); [done|].
    rewrite elem_of_app, list_elem_of_singleton. naive_solver.
Qed.

(** Writing the last values of the keys of a node is writing its share of the request. *)
Lemma put_last_values (route : string → string) kvs x m :
  put_all (last_values kvs (group route kvs.*1 x)) m = put_all (filter (λ kv, route kv.1 = x) kvs) m.
Proof.
  apply map_eq. intros k. rewrite !put_all_lookup. rewrite last_values_lookup.
  2: { apply Forall_forall. intros k' Hk'. by apply elem_of_group in Hk' as [_ ?]. }
  assert (args_of (filter (λ kv, route kv.1 = x) kvs) = filter (λ p, route p.1 = x) (args_of kvs)) as ->.
  { unfold args_of. induction kvs as [|[k' v] kvs IH]; [done|]. rewrite filter_cons. cbn [fmap list_fmap fst snd]. rewrite filter_cons. cbn [fst].
    case_decide; cbn [fmap list_fmap fst snd]; [by rewrite IH|done]. }
  destruct (decide (route k = x)) as [Hx|Hx].
  - rewrite value_map_filter by done. case_bool_decide as Hin; [done|].
    assert (Tcc.value_map (args_of kvs) !! k = None) as ->; [|done]. apply eq_None_not_Some. rewrite value_map_dom, args_of_keys.
    intros Hk. apply Hin, elem_of_group. done.
  - rewrite bool_decide_eq_false_2 by (rewrite elem_of_group; naive_solver).
    assert (Tcc.value_map (filter (λ p, route p.1 = x) (args_of kvs)) !! k = None) as ->; [|done]. apply eq_None_not_Some. rewrite value_map_dom.
    intros ([k' v] & -> & [Hr _]%list_elem_of_filter)%list_elem_of_fmap. done.
Qed.

Lemma filter_nil_none (route : string → string) (kvs : list (string * string)) x : x ∉ route <$> kvs.*1 → filter (λ kv, route kv.1 = x) kvs = [].
Proof.
  intros Hx. destruct (filter (λ kv, route kv.1 = x) kvs) as [|[k v] l] eqn:Ef; [done|]. exfalso. apply Hx.
  assert ((k, v) ∈ filter (λ kv, route kv.1 = x) kvs) as [Hr Hin]%list_elem_of_filter by (rewrite Ef; apply elem_of_cons; auto).
  apply list_elem_of_fmap. exists k. split; [done|]. apply list_elem_of_fmap. by exists (k, v).
Qed.

(** ** MSET over several nodes *)

Section mset.
Context `{Env} (fuel : nat) (cfg : Server.Config) `{Server.Services}.
Context `{!Migration.RaftLib Server.Server} (getSlotImpl : string → outcome Z) (pickNodeImpl : Node Server.Server → Z → string).

#[local] Instance engine : Engine Server.Server := Node.server_engine (goTable fuel) cfg.

Abbreviation Exec := (Migration.Exec getSlotImpl pickNodeImpl "").

(** Every node [x] of the network is at rest and holds the values [M x]. *)
Definition cluster_holds (w : Net Server.Server) (M : string → gmap string DataEntity) : Prop :=
  ∀ x n, nodes w !! x = Some n → holds (db n) (M x) ∧ slots_ok (slotsManager n) ∧ slow_ok n.

Lemma length_pair_args kvs : length (pair_args kvs) = (2 * length kvs)%nat.
Proof. induction kvs as [|[k v] kvs IH]; [done|]. cbn [pair_args fmap list_fmap concat app length]. unfold pair_args in IH. rewrite IH. lia. Qed.

Lemma elem_of_routes (route : string → string) ks x : x ∈ dom (foldl (group_step route) ∅ ks) ↔ x ∈ route <$> ks.
Proof.
  rewrite elem_of_dom, list_elem_of_fmap. split.
  - intros [l [-> Hl]%route_map_some]. destruct (group route ks x) as [|k l] eqn:Eg; [done|]. exists k.
    assert (k ∈ group route ks x) as [? ?]%elem_of_group by (rewrite Eg; apply elem_of_cons; auto). by split.
  - intros (k & -> & Hin). exists (group route ks (route k)). apply route_map_some. split; [done|]. intros E0.
    assert (k ∈ group route ks (route k)) as Hg by by apply elem_of_group. rewrite E0 in Hg. by apply elem_of_nil in Hg.
Qed.

(** The line of a node and what it leads to. *)
Definition node_line (route : string → string) (kvs : list (string * string)) (x : string) : CmdLine :=
  Some "mset" :: pair_args (last_values kvs (group route kvs.*1 x)).

Lemma mset_part route kvs x s sm st : x ∈ route <$> kvs.*1 → holds s st → slots_ok sm →
  (∀ k, k ∈ kvs.*1 → route k = x → has_slot getSlotImpl k ∧ textual st k) →
  ∃ p, (∀ c', takes_part getSlotImpl c' (node_line route kvs x) (s, sm) = (Ret OkReply, p)) ∧
    holds p.1 (put_all (filter (λ kv, route kv.1 = x) kvs) st) ∧ slots_ok p.2.
Proof.
  intros Hx Hh Hs Hk. set (l := last_values kvs (group route kvs.*1 x)).
  assert (l.*1 = group route kvs.*1 x) as Hkeys by (unfold l, last_values; rewrite <-list_fmap_compose; apply list_fmap_id).
  assert (runs (goTable fuel) getSlotImpl (Some "mset" :: pair_args l) (l.*1, []) st (put_all l st) OkReply) as Hr.
  { apply mset_runs.
    - intros E0. apply list_elem_of_fmap in Hx as (k & -> & Hin). assert (k ∈ group route kvs.*1 (route k)) as Hg by by apply elem_of_group.
      rewrite <-Hkeys, E0 in Hg. by apply elem_of_nil in Hg.
    - rewrite Hkeys. apply Forall_forall. intros k [Hr Hin]%elem_of_group. by apply Hk.
    - rewrite Hkeys. apply Forall_forall. intros k [Hr Hin]%elem_of_group. by apply Hk. }
  destruct (server_part (goTable fuel) cfg getSlotImpl _ _ _ _ _ s sm Hr Hh Hs) as (s' & sm' & Ht & Hh' & Hs').
  exists (s', sm'). split_and!; [exact Ht| |done]. cbn. by rewrite <-put_last_values.
Qed.

(** The engine of a node after its part, with [p0] for a node that is not there. *)
Definition part_of (w : Net Server.Server) route kvs p0 x : Server.Server * slotsManager_ :=
  match nodes w !! x with
  | Some n => (takes_part getSlotImpl 0 (node_line route kvs x) (db n, slotsManager n)).2
  | None => p0
  end.

(** What the request needs of the network: the keys have a node each, where they hold strings or
    nothing, and no node knows the name of the transaction. *)
Record mset_ready (w : Net Server.Server) (M : string → gmap string DataEntity) (self : string) (route : string → string)
    (kvs : list (string * string)) : Prop := {
  mr_holds : cluster_holds w M;
  mr_self : is_Some (nodes w !! self);
  mr_routes : ∀ k, k ∈ kvs.*1 → routes_to getSlotImpl pickNodeImpl w self k (route k);
  mr_nodes : ∀ k, k ∈ kvs.*1 → is_Some (nodes w !! route k);
  mr_text : ∀ k, k ∈ kvs.*1 → textual (M (route k)) k
}.

Lemma part_of_spec w M self route kvs p0 x : mset_ready w M self route kvs → x ∈ route <$> kvs.*1 →
  ∃ n, nodes w !! x = Some n ∧
    (∀ c', takes_part getSlotImpl c' (node_line route kvs x) (db n, slotsManager n) = (Ret OkReply, part_of w route kvs p0 x)) ∧
    holds (part_of w route kvs p0 x).1 (put_all (filter (λ kv, route kv.1 = x) kvs) (M x)) ∧ slots_ok (part_of w route kvs p0 x).2.
Proof.
  intros [Hw _ Hr Hn Ht] Hx. apply list_elem_of_fmap in Hx as Hx'. destruct Hx' as (k0 & -> & Hin0). destruct (Hn k0 Hin0) as [n En].
  exists n. split; [done|]. destruct (Hw _ n En) as (Hh & Hs & _).
  destruct (mset_part route kvs (route k0) (db n) (slotsManager n) (M (route k0))) as (p & Hp & Hp'); [done..| |].
  - intros k Hin Hroute. destruct (Hr k Hin) as (n' & i & _ & Hi & _). specialize (Ht k Hin). rewrite Hroute in Ht. split; [by exists i|done].
  - assert (part_of w route kvs p0 (route k0) = p) as -> by (unfold part_of; rewrite En; by rewrite Hp). done.
Qed.

Lemma mset_nodes w M self c f kvs (route : string → string) cmdLine :
  (∀ t, fair_order (map_order t)) → mset_ready w M self route kvs →
  (∀ x n, nodes w !! x = Some n → transactions n !! tx_name w = None) →
  let rm := foldl (group_step route) ∅ kvs.*1 in
  ∃ results w', Tcc.doTcc (Exec (S f)) self c (Tcc.mkTx cmdLine rm (Tcc.mset_line "mset" (Tcc.value_map (args_of kvs)) <$> rm)) w = (Ret (inr results), w') ∧
    cluster_holds w' (λ x, put_all (filter (λ kv, route kv.1 = x) kvs) (M x)) ∧ (∀ x, is_Some (nodes w' !! x) ↔ is_Some (nodes w !! x)) ∧
    (∀ id x n', id ≠ tx_name w → nodes w' !! x = Some n' → (∀ n, nodes w !! x = Some n → transactions n !! id = None) → transactions n' !! id = None).
Proof.
  intros Hfair Hready Htx rm. destruct (mr_self _ _ _ _ _ Hready) as [n0 _]. set (p0 := (db n0, slotsManager n0)).
  pose proof (λ x, part_of_spec w M self route kvs p0 x Hready) as HP. set (P := part_of w route kvs p0) in HP.
  pose proof (elem_of_routes route kvs.*1) as Hdom. fold rm in Hdom.
  destruct (doTcc_run getSlotImpl pickNodeImpl w self c f (Tcc.mkTx cmdLine rm (Tcc.mset_line "mset" (Tcc.value_map (args_of kvs)) <$> rm)) (λ _, OkReply) P Hfair)
    as (results & w' & E1 & _ & _ & N1 & N2).
  - cbn. by rewrite dom_fmap_L.
  - intros x real Hreal. cbn in Hreal. rewrite lookup_fmap in Hreal. destruct (rm !! x) as [l|] eqn:El; [|done]. injection Hreal as <-.
    assert (x ∈ route <$> kvs.*1) as Hx by (apply Hdom; by eapply elem_of_dom_2). apply route_map_some in El as [-> Hl].
    destruct (HP x Hx) as (n & Hn & Ht & _). exists n. split; [done|]. rewrite mset_line_eq.
    2: { apply Forall_forall. by intros k [_ Hin]%elem_of_group. }
    split_and!; [by eexists _, _|apply (mr_holds _ _ _ _ _ Hready x n Hn)|by eapply Htx|done|]. intros c' _. apply Ht.
  - eexists _, w'. split; [exact E1|]. cbn [Tcc.routeMap] in N1, N2. split_and!.
    + intros x n' Hn'. destruct (decide (x ∈ dom rm)) as [Hx|Hx].
      * destruct (HP x) as (n & Hn & _ & Hh' & Hs'); [by apply Hdom|]. destruct (N2 x n Hx Hn) as (n2 & Hn2 & tx & _ & [Hdb _ _ _ Hslow]).
        assert (n2 = n') as -> by congruence. rewrite <-Hdb in Hh', Hs'. done.
      * rewrite N1 in Hn' by done. rewrite (filter_nil_none route kvs x) by (by rewrite <-Hdom). by apply (mr_holds _ _ _ _ _ Hready).
    + intros x. destruct (decide (x ∈ dom rm)) as [Hx|Hx]; [|by rewrite N1]. destruct (HP x) as (n & Hn & _); [by apply Hdom|].
      destruct (N2 x n Hx Hn) as (n2 & Hn2 & _). by rewrite Hn, Hn2.
    + intros id x n' Hid Hn' Hnone. destruct (decide (x ∈ dom rm)) as [Hx|Hx]; [|rewrite N1 in Hn' by done; by apply Hnone].
      destruct (HP x) as (n & Hn & _); [by apply Hdom|]. destruct (N2 x n Hx Hn) as (n2 & Hn2 & tx & _ & [_ Htxs _ _ _]).
      assert (n2 = n') as -> by congruence. rewrite Htxs, lookup_insert_ne by done. by apply Hnone.
Qed.

(** [C16] MSET over several nodes: sent to any node of a network at rest, whose keys belong
    to more than one node and hold strings or nothing there, it answers OK and leaves a network
    at rest in which every node has, besides what it had, exactly the given values of the keys
    that belong to it (the last one, where a key is given twice): together the nodes hold
    what one MSET would have made of one map.  The name of the transaction is one that no
    node knows yet. *)
Theorem mset_over_nodes (w : Net Server.Server) (M : string → gmap string DataEntity) (self name : string) (c f : nat)
    (kvs : list (string * string)) (route : string → string) (k1 k2 : string) :
  (∀ t, fair_order (map_order t)) → ToLower name = "mset" → mset_ready w M self route kvs →
  k1 ∈ kvs.*1 → k2 ∈ kvs.*1 → route k1 ≠ route k2 →
  (∀ x n, nodes w !! x = Some n → transactions n !! tx_name (tick w) = None) →
  ∃ line w', Exec (S (S f)) self c (Some name :: pair_args kvs) w = (Ret (OkReply, line), w') ∧
    cluster_holds w' (λ x, put_all (filter (λ kv, route kv.1 = x) kvs) (M x)) ∧ (∀ x, is_Some (nodes w' !! x) ↔ is_Some (nodes w !! x)).
Proof.
  intros Hfair Hname Hready G1 G2 Hne Htx. destruct (mr_self _ _ _ _ _ Hready) as [n Hn].
  assert (mset_ready (tick w) M self route kvs) as Hready' by (destruct Hready; by split).
  destruct (mset_nodes (tick w) M self c f kvs route (Some name :: pair_args kvs) Hfair Hready' Htx) as (results & w1 & E1 & Hh & Hn1 & _).
  destruct (proj2 (Hn1 self)) as [n1 Hs1]; [by eexists|].
  assert (∃ l, Tcc.execMSet getSlotImpl pickNodeImpl (Exec (S f)) self c (Some name :: pair_args kvs) (tick w) = (Ret (OkReply, l), w1)) as [l E2].
  { exists (Some name :: pair_args kvs). unfold Tcc.execMSet, Tcc.mset_with. cbn [length]. rewrite length_pair_args.
    assert (((S (2 * length kvs) <? 3) || negb (S (2 * length kvs) mod 2 =? 1))%nat = false) as ->.
    { apply orb_false_iff. split; [apply Nat.ltb_ge; destruct kvs; [by apply elem_of_nil in G1|cbn; lia]|].
      apply negb_false_iff, Nat.eqb_eq. rewrite <-Nat.add_1_r, (Nat.mul_comm 2), Nat.add_comm, Nat.Div0.mod_add. done. }
    cbv zeta. change (drop 1 (Some name :: pair_args kvs)) with (pair_args kvs). rewrite pairs_of_args, args_of_keys. unfold Tcc.routed.
    erewrite bind_Ret by (eapply getRouteMap_run, Forall_forall; apply Hready').
    pose proof (route_map_many route kvs.*1 k1 k2 G1 G2 Hne) as Hmany. destruct (map_to_list _) as [|[x lx] [|? ?]]; [|by destruct (Hmany x lx)|];
      (erewrite bind_Ret by (rewrite (bind_Ret _ _ _ _ _ E1); reflexivity); reflexivity). }
  rewrite (Exec_eq getSlotImpl pickNodeImpl (S f) self c (Some name) (pair_args kvs) (Tcc.execMSet getSlotImpl pickNodeImpl) w n).
  2: { change (str (Some name)) with name. rewrite Hname. apply (bool_decide_eq_true_1 (_ ∉ _)). reflexivity. }
  2: { change (str (Some name)) with name. rewrite Hname. reflexivity. }
  2: done.
  destruct (slow_entry_run n1 (time_now (ticks w)) (time_now (ticks w1)) l (eng_Name c)) as (sl & E3 & Hsl); [apply (Hh self n1 Hs1)|].
  exists l. eexists. split.
  { unfold recovering, served. rewrite (bind_Ret _ _ _ _ _ E2). erewrite bind_Ret by reflexivity.
    erewrite bind_Ret by (eapply at_node_run; [exact Hs1|exact E3]). reflexivity. }
  cbn [nodes set_nodes tick]. split.
  - intros x n' Hx. cbn [nodes set_nodes tick] in Hx. destruct (decide (x = self)) as [->|Hx']; [rewrite lookup_insert_eq in Hx; injection Hx as <-|by rewrite lookup_insert_ne in Hx; [apply Hh|]].
    destruct (Hh self n1 Hs1) as (K1 & K2 & _). done.
  - intros x. destruct (decide (x = self)) as [->|Hx']; [rewrite lookup_insert_eq, Hn; split; by eexists|]. rewrite lookup_insert_ne by done. apply Hn1.
Qed.

(** [C17] A rollback deletes the keys of the transaction: a node that has prepared its part of
    a MSET, whose keys hold strings or nothing, and then gets the ROLLBACK because another node
    failed, answers OK to both, is at rest again, and none of the keys exists any more.  The
    undo log (DEL, SET, PERSIST for every key that existed) is executed from its end. *)
Theorem rollback_deletes_keys (w : Net Server.Server) (M : string → gmap string DataEntity) (x id : string) (c c' f : nat) (kvs : list (string * string)) :
  cluster_holds w M → kvs ≠ [] → Forall (has_slot getSlotImpl) kvs.*1 → Forall (textual (M x)) kvs.*1 →
  (∃ n, nodes w !! x = Some n ∧ transactions n !! id = None) →
  ∃ l l' w1 w2, Exec (S f) x c (ToCmdLine ["prepare"; id] ++ Some "mset" :: pair_args kvs) w = (Ret (OkReply, l), w1) ∧
    Exec (S f) x c' (ToCmdLine ["rollback"; id]) w1 = (Ret (OkReply, l'), w2) ∧
    cluster_holds w2 (λ y, if String.eqb y x then foldr delete (M x) kvs.*1 else M y).
Proof.
  intros Hw Hne Hslot Htext (n & Hn & Hid). destruct (Hw x n Hn) as (Hh & Hs & Hslow).
  pose proof (mset_runs fuel getSlotImpl kvs (M x) Hne Hslot Htext) as Hr. set (real := Some "mset" :: pair_args kvs) in *.
  destruct (server_undo (goTable fuel) cfg getSlotImpl real (kvs.*1, []) (concat (undo_of (M x) <$> kvs.*1)) (M x) (foldr delete (M x) kvs.*1)
    (db n) (slotsManager n)) as (p1 & s' & sm' & E1 & E2 & Hh' & Hs'); [apply Hr..| | |done|done|].
  { intros dr. exists dr. by apply mset_undo. }
  { by apply undo_deletes. }
  destruct (execPrepare_run getSlotImpl x c id real (tick w) n (kvs.*1, []) (concat (undo_of (M x) <$> kvs.*1)) p1 Hn Hid) as (w1 & n1 & G1 & N1 & [D1 T1 F1 B1 S1] & _); [by eexists _, _|done|exact E1|].
  destruct (Exec_served getSlotImpl pickNodeImpl f x c (Some "prepare") (Some id :: real) (Tcc.execPrepare getSlotImpl (Tcc.prepareFuncs getSlotImpl)) w n OkReply w1 n1) as (sl1 & w2 & X1 & N2 & S2 & _);
    [apply (bool_decide_eq_true_1 (_ ∉ _)); reflexivity|reflexivity|done|exact G1|by rewrite N1, lookup_insert_eq|done|].
  assert (nodes w2 !! x = Some (set_slog n1 sl1)) as Hn2 by (by rewrite N2, lookup_insert_eq).
  destruct (execRollback_run getSlotImpl x c' id (mkTCC real (concat (undo_of (M x) <$> kvs.*1)) kvs.*1 [] true) (tick w2) (set_slog n1 sl1) (s', sm'))
    as (w3 & n3 & G3 & N3 & [D3 T3 F3 B3 S3] & _); [done|by cbn; rewrite T1, lookup_insert_eq|done|done|cbn; rewrite D1; apply E2|].
  destruct (Exec_served getSlotImpl pickNodeImpl f x c' (Some "rollback") [Some id] (Tcc.execRollback getSlotImpl) w2 (set_slog n1 sl1) OkReply w3 n3) as (sl3 & w4 & X3 & N4 & S4 & _);
    [apply (bool_decide_eq_true_1 (_ ∉ _)); reflexivity|reflexivity|done|exact G3|by rewrite N3, lookup_insert_eq|done|].
  eexists _, _, w2, w4. split_and!; [exact X1|exact X3|]. intros y m Hy. rewrite N4, N3, insert_insert_eq in Hy. cbn [nodes tick] in Hy. rewrite N2, N1, !insert_insert_eq in Hy.
  destruct (String.eqb_spec y x) as [->|Hyx]; [|by rewrite lookup_insert_ne in Hy; [apply Hw|]]. rewrite lookup_insert_eq in Hy. injection Hy as <-.
  injection D3 as D3a D3b. cbn. rewrite D3a, D3b. done.
Qed.
End mset.

(** ** A test cluster is at rest *)

Section start.
Context `{Env} (cfg : Server.Config).

Lemma mustSelect_at s (i : nat) d : Server.dbSet s !! i = Some d → Server.mustSelectDB (Z.of_nat i) s = (Ret d, s).
Proof.
  intros Hd. assert (Server.in_range s (Z.of_nat i) = true) as Hi.
  { unfold Server.in_range. apply lookup_lt_Some in Hd. rewrite Z.geb_leb, (proj2 (Z.leb_gt _ _)), (proj2 (Z.ltb_ge _ _)) by lia. done. }
  unfold Server.mustSelectDB, Server.selectDB, mbind, gom_bind. rewrite Hi, Nat2Z.id. by rewrite Hd.
Qed.

Lemma callback_loop_run k (i : nat) f s : (i + k)%nat = length (Server.dbSet s) →
  Server.callback_loop k (Z.of_nat i) f s = (Ret tt, Server.set_dbSet s (take i (Server.dbSet s) ++ (f <$> drop i (Server.dbSet s)))).
Proof.
  revert i s. induction k as [|k IH]; intros i s Hk; cbn [Server.callback_loop].
  { rewrite drop_ge, take_ge by lia. cbn. rewrite app_nil_r. by destruct s. }
  destruct (lookup_lt_is_Some_2 (Server.dbSet s) i) as [d Hd]; [lia|]. rewrite (bind_Ret _ _ _ _ _ (mustSelect_at s i d Hd)).
  erewrite bind_Ret by reflexivity. set (l := <[Z.to_nat (Z.of_nat i) := f d]> (Server.dbSet s)). replace (Z.of_nat i + 1) with (Z.of_nat (S i)) by lia.
  rewrite IH by (cbn; unfold l; rewrite length_insert; lia). cbn. do 2 f_equal. unfold l. rewrite Nat2Z.id.
  rewrite (drop_S _ d i Hd). cbn [fmap list_fmap]. rewrite (take_S_r _ i (f d)) by (rewrite list_lookup_insert_eq; [done|lia]).
  rewrite take_insert_ge, drop_insert_lt, <-app_assoc by lia. done.
Qed.

Lemma set_callback_loop f s : (n ← go_get (λ s, length (Server.dbSet s)); Server.callback_loop n 0 f) s = (Ret tt, Server.set_dbSet s (f <$> Server.dbSet s)).
Proof. erewrite bind_Ret by reflexivity. exact (callback_loop_run (length (Server.dbSet s)) 0 f s eq_refl). Qed.

(** A database with both callbacks. *)
Definition called_back (d : DB) : DB := Server.set_deleteCallback true (Server.set_insertCallback true d).

Lemma called_back_fine d : db_fine d → db_fine (called_back d).
Proof. intros [[? ? ? ?] ?]. by split. Qed.

Lemma called_back_index_ok d i : db_ok d → db_ok (called_back (Server.set_index d i)).
Proof. intros [? ? ? ?]. by split. Qed.

Lemma make_dbs_quiet k i : Forall (λ d, events d = []) (called_back <$> Server.make_dbs k i).
Proof. revert i. induction k as [|k IH]; intros i; constructor; [exact makeDB_events|apply IH]. Qed.

Lemma test_node_holds : 0 < Server.databases cfg → 0 ≤ Server.SlowLogMaxLen cfg →
  ∃ n, Node.test_node cfg = Ret n ∧ holds (db n) ∅ ∧ slots_ok (slotsManager n) ∧ slow_ok n ∧ transactions n = ∅.
Proof.
  intros Hd Hl. destruct (NewStandaloneServer_ok cfg Hd Hl) as (s & E & [K1 K2 K3 K4 K5] & Hdbs). unfold Node.test_node. rewrite E. cbn [mbind outcome_bind].
  unfold Server.SetKeyInsertedCallback. rewrite (bind_Ret _ _ _ _ _ (set_callback_loop _ s)). unfold Server.SetKeyDeletedCallback. rewrite set_callback_loop. cbn [mbind outcome_bind].
  eexists. split; [reflexivity|]. split; [|split; [by intros i x; cbn; rewrite lookup_empty|split; [|done]]].
  2: { destruct (SlowLog.new_rep 0 0) as (sl & Esl & Hsl); [done|]. injection Esl as <-. by eexists _, _, _. }
  cbn [db]. assert (∀ l, Server.set_deleteCallback true <$> (Server.set_insertCallback true <$> l) = called_back <$> l) as Ecb by (intros l; by rewrite <-list_fmap_compose).
  split; cbn [Server.dbSet Server.world Server.set_dbSet].
  - rewrite Ecb. split; cbn [Server.dbSet Server.world Server.set_dbSet Server.slogLogger]; try done; [|by rewrite length_fmap].
    rewrite Forall_fmap. eapply Forall_impl; [exact K1|]. apply called_back_fine.
  - intros c. assert (PubSub.conns (Server.world s) = ∅) as Hc.
    { unfold Server.NewStandaloneServer in E. destruct (_ <? 0); [done|]. destruct PubSub.MakeHub as [h| |]; try done. cbn [mbind outcome_bind] in E.
      destruct (SlowLog.NewSlowLogger _ _); try done. by injection E as <-. }
    unfold PubSub.conn_of. by rewrite Hc, lookup_empty.
  - rewrite Ecb, Hdbs. destruct (Z.to_nat (Server.databases cfg)) as [|k] eqn:Ek; [lia|].
    destruct (make_db_ok dataDictSize ttlDictSize) as (Hok & Hu & Hv); [by compute..|]. change (make_db dataDictSize ttlDictSize) with makeDB in *.
    pose proof (f_equal v_store Hv) as V1. pose proof (f_equal v_ttl Hv) as V2. cbn [v_store v_ttl view] in V1, V2. clear Hv.
    exists (called_back (Server.set_index makeDB 0)). split; [reflexivity|by apply called_back_index_ok|exact V1|exact V2|]. apply make_dbs_quiet.
Qed.

Lemma MakeTestCluster_holds ids : 0 < Server.databases cfg → 0 ≤ Server.SlowLogMaxLen cfg →
  ∃ w, Node.MakeTestCluster cfg ids = Ret w ∧ cluster_holds w (λ _, ∅) ∧ (∀ x, is_Some (nodes w !! x) ↔ x ∈ ids) ∧
    (∀ x n, nodes w !! x = Some n → transactions n = ∅).
Proof.
  intros Hd Hl. destruct (test_node_holds Hd Hl) as (n0 & E0 & H1 & H2 & H3 & H4). unfold Node.MakeTestCluster.
  assert (∀ m, Node.add_nodes cfg ids m = Ret (foldl (λ m x, <[x := n0]> m) m ids)) as ->.
  { induction ids as [|x ids IH]; intros m; cbn [Node.add_nodes foldl]; [done|]. rewrite E0. apply IH. }
  eexists. split; [reflexivity|]. cbn [nodes].
  assert (∀ x, foldl (λ m x, <[x := n0]> m) (∅ : gmap string (Node Server.Server)) ids !! x = if bool_decide (x ∈ ids) then Some n0 else None) as Hlook.
  { intros x. induction ids as [|y ids IH] using rev_ind; [by rewrite bool_decide_eq_false_2 by apply not_elem_of_nil|].
    rewrite foldl_app. cbn [foldl]. destruct (decide (y = x)) as [->|Hne].
    - rewrite lookup_insert_eq, bool_decide_eq_true_2 by (rewrite elem_of_app, list_elem_of_singleton; auto). done.
    - rewrite lookup_insert_ne, IH by done. rewrite (bool_decide_ext (x ∈ ids) (x ∈ ids ++ [y])); [done|]. rewrite elem_of_app, list_elem_of_singleton. naive_solver. }
  split_and!.
  - intros x n. rewrite Hlook. case_bool_decide; [|done]. by intros [= <-].
  - intros x. rewrite Hlook. case_bool_decide; split; try done; by intros [? ?].
  - intros x n. rewrite Hlook. case_bool_decide; [|done]. by intros [= <-].
Qed.
End start.

Definition two_nodes : Server.Config := Server.mkConfig "" true 2 "" 8 0.

Lemma mset_over_nodes_witness : ∃ w line w', Node.MakeTestCluster two_nodes ["1"; "2"] = Ret w ∧
  Migration.Exec (H := demo_env) (H0 := @engine demo_env 0%nat two_nodes idle_services) (H1 := idle_raft) Node.test_getSlot (Node.test_pickNode ["1"; "2"])
    "" 2%nat "1" 7%nat (Some "MSET" :: pair_args [("1", "a"); ("2", "b"); ("1", "c")]) w = (Ret (OkReply, line), w') ∧
  cluster_holds w' (λ x, if String.eqb x "2" then {["1" := DString (Some "c")]} else if String.eqb x "1" then {["2" := DString (Some "b")]} else ∅).
Proof.
  destruct (MakeTestCluster_holds two_nodes ["1"; "2"]) as (w & Ew & Hw & Hn & Htx); [done..|]. exists w.
  assert (is_Some (nodes w !! "1")) as [n1 N1] by (apply Hn, elem_of_cons; auto).
  assert (is_Some (nodes w !! "2")) as [n2 N2] by (apply Hn, elem_of_cons; right; apply elem_of_cons; auto).
  set (route := λ k, if String.eqb k "1" then "2" else "1").
  destruct (mset_over_nodes (H := demo_env) 0%nat two_nodes (H0 := idle_services) (H1 := idle_raft) Node.test_getSlot (Node.test_pickNode ["1"; "2"])
    w (λ _, ∅) "1" "MSET" 7%nat 0%nat [("1", "a"); ("2", "b"); ("1", "c")] route "1" "2") as (line & w' & E & Hh & _).
  - intros t ks. reflexivity.
  - reflexivity.
  - split; [done|by exists n1| | |by intros k _].
    + intros k [->|[->|[->|Hk%elem_of_nil]%elem_of_cons]%elem_of_cons]%elem_of_cons; [..|done]; eexists n1, _; (split; [done|split; [reflexivity|reflexivity]]).
    + intros k [->|[->|[->|Hk%elem_of_nil]%elem_of_cons]%elem_of_cons]%elem_of_cons; [..|done]; by eexists.
  - apply elem_of_cons; auto.
  - apply elem_of_cons; right; apply elem_of_cons; auto.
  - done.
  - intros x n Hx. by rewrite (Htx x n Hx).
  - exists line, w'. split; [done|]. split; [exact E|]. intros x n Hx. destruct (Hh x n Hx) as (G1 & G2 & G3). split; [|done].
    destruct (String.eqb_spec x "2") as [->|H2]; [exact G1|]. destruct (String.eqb_spec x "1") as [->|H1]; [exact G1|].
    rewrite filter_nil_none in G1; [exact G1|]. intros [->|[->|[->|Hk%elem_of_nil]%elem_of_cons]%elem_of_cons]%elem_of_cons; done.
Defined.

Lemma rollback_deletes_keys_witness : ∃ w M id l l' w1 w2,
  let exec := Migration.Exec (H := demo_env) (H0 := @engine demo_env 0%nat two_nodes idle_services) (H1 := idle_raft) Node.test_getSlot (Node.test_pickNode ["1"; "2"]) "" in
  cluster_holds w M ∧ M "2" = {["1" := DString (Some "a")]} ∧
  exec 1%nat "2" 7%nat (ToCmdLine ["prepare"; id] ++ Some "mset" :: pair_args [("1", "b")]) w = (Ret (OkReply, l), w1) ∧
  exec 1%nat "2" 8%nat (ToCmdLine ["rollback"; id]) w1 = (Ret (OkReply, l'), w2) ∧
  cluster_holds w2 (λ y, if String.eqb y "2" then ∅ else M y).
Proof.
  destruct (MakeTestCluster_holds two_nodes ["1"; "2"]) as (w & Ew & Hw & Hn & Htx); [done..|].
  assert (is_Some (nodes w !! "2")) as [n2 N2] by (apply Hn, elem_of_cons; right; apply elem_of_cons; auto).
  destruct (mset_nodes (H := demo_env) 0%nat two_nodes (H0 := idle_services) (H1 := idle_raft) Node.test_getSlot (Node.test_pickNode ["1"; "2"])
    w (λ _, ∅) "2" 7%nat 0%nat [("1", "a")] (λ _, "2") []) as (results & w' & _ & Hh & Hn' & Hid).
  - intros t ks. reflexivity.
  - split; [done|by exists n2| | |by intros k _].
    + intros k [->|Hk%elem_of_nil]%elem_of_cons; [|done]. eexists n2, _. split; [done|split; [reflexivity|reflexivity]].
    + intros k _. by exists n2.
  - intros x n Hx. by rewrite (Htx x n Hx).
  - assert (∀ s : string, ∃ id, id ≠ s) as Hother by (intros s; destruct (decide (s = "t")) as [->|]; [by exists "u"|by exists "t"]). destruct (Hother (tx_name (H := demo_env) w)) as [id Hne].
    destruct (proj2 (Hn' "2")) as [n2' N2']; [by exists n2|].
    destruct (rollback_deletes_keys (H := demo_env) 0%nat two_nodes (H0 := idle_services) (H1 := idle_raft) Node.test_getSlot (Node.test_pickNode ["1"; "2"])
      w' (λ x, put_all (filter (λ kv, "2" = x) [("1", "a")]) ∅) "2" id 7%nat 8%nat 0%nat [("1", "b")]) as (l & l' & w1 & w2 & E1 & E2 & H2).
    + done.
    + done.
    + constructor; [by eexists|constructor].
    + by repeat constructor.
    + exists n2'. split; [done|]. apply (Hid id "2" n2'); [done..|intros n Hx; by rewrite (Htx _ _ Hx)].
    + eexists w', _, id, l, l', w1, w2. split; [exact Hh|]. split; [reflexivity|]. split; [exact E1|]. split; [exact E2|exact H2].
Defined.
