(* ===== verification/Threads.v ===== *)
(** * Goroutines

    A goroutine is a tree of atomic steps on a shared state: a step returns the rest of the
    goroutine, panics, or cannot be made now ([Block]: a mutex is held).  Goroutines that
    loop for ever are unrolled as far as a claim needs.  [alone] runs one goroutine without
    interruption, [schedule] runs several in the order a scheduler gives. *)

From Stdlib Require Import ZArith Lia String.
From stdpp Require Import base strings numbers list.
From S2P Require Import Prelude.

Local Open Scope string_scope.
Local Open Scope list_scope.
Local Open Scope go_scope.

Inductive Thread (S A : Type) : Type :=
  | Done (a : A)
  | Act (step : S → outcome (Thread S A) * S).
Arguments Done {S A} a.
Arguments Act {S A} step.

#[export] Instance thread_ret {S} : MRet (Thread S) := λ A a, Done a.

Fixpoint thread_bind_ {S A B} (k : A → Thread S B) (t : Thread S A) : Thread S B :=
  match t with
  | Done a => k a
  | Act f => Act (λ s, match f s with
                       | (Ret t', s') => (Ret (thread_bind_ k t'), s')
                       | (Panic msg, s') => (Panic msg, s')
                       | (Block, s') => (Block, s')
                       end)
  end.
#[export] Instance thread_bind {S} : MBind (Thread S) := λ A B k t, thread_bind_ k t.

Section threads.
Context {S : Type}.

(** A computation as one step. *)
Definition atomic {A} (m : GoM S A) : Thread S A := Act (λ s,
  match m s with
  | (Ret a, s') => (Ret (Done a), s')
  | (Panic msg, s') => (Panic msg, s')
  | (Block, s') => (Block, s')
  end).

Definition t_panic {A} (msg : string) : Thread S A := atomic (go_panic msg).

(** [for _, x := range xs { body(x) }]. *)
Fixpoint t_for {A} (xs : list A) (body : A → Thread S unit) : Thread S unit :=
  match xs with
  | [] => Done tt
  | x :: xs' => _ ← body x; t_for xs' body
  end.

(** [defer d(); t]. *)
Fixpoint t_defer {A} (d : GoM S unit) (t : Thread S A) : Thread S A :=
  match t with
  | Done a => _ ← atomic d; Done a
  | Act f => Act (λ s,
      match f s with
      | (Ret t', s') => (Ret (t_defer d t'), s')
      | (Panic msg, s') => match d s' with (Ret _, s'') => (Panic msg, s'') | (Panic m, s'') => (Panic m, s'') | (Block, s'') => (Block, s'') end
      | (Block, s') => (Block, s')
      end)
  end.

(** A deferred [recover]: a panic ends the goroutine quietly. *)
Fixpoint t_recover (t : Thread S unit) : Thread S unit :=
  match t with
  | Done a => Done a
  | Act f => Act (λ s,
      match f s with
      | (Ret t', s') => (Ret (t_recover t'), s')
      | (Panic _, s') => (Ret (Done tt), s')
      | (Block, s') => (Block, s')
      end)
  end.

(** ** One goroutine without interruption *)

Fixpoint alone {A} (t : Thread S A) : GoM S A := λ s,
  match t with
  | Done a => (Ret a, s)
  | Act f => match f s with
             | (Ret t', s') => alone t' s'
             | (Panic msg, s') => (Panic msg, s')
             | (Block, s') => (Block, s')
             end
  end.

Lemma alone_atomic {A} (m : GoM S A) : ∀ s, alone (atomic m) s = m s.
Proof. intros s. cbn. destruct (m s) as [[a|msg|] s']; done. Qed.

(** Induction on a goroutine: what can be left of it after a step. *)
Lemma thread_ind {A} (P : Thread S A → Prop) : (∀ a, P (Done a)) →
  (∀ f, (∀ s t s', f s = (Ret t, s') → P t) → P (Act f)) → ∀ t, P t.
Proof.
  intros HD HA. fix IH 1. intros [a|f]; [apply HD|]. apply HA. intros s t s'. destruct (f s) as [[t0|msg|] s0]; [|discriminate..].
  intros [= <- <-]. apply IH.
Qed.

Lemma alone_bind {A B} (t : Thread S A) (k : A → Thread S B) s : alone (t ≫= k) s = (alone t ≫= λ a, alone (k a)) s.
Proof.
  revert s. induction t as [a|f IH] using thread_ind; intros s; [done|]. unfold mbind, gom_bind, thread_bind. cbn [thread_bind_ alone].
  destruct (f s) as [[t'|msg|] s'] eqn:E; [|done..]. exact (IH s t' s' E s').
Qed.

Lemma alone_step {A B} (t : Thread S A) (k : A → Thread S B) s a s' : alone t s = (Ret a, s') → alone (t ≫= k) s = alone (k a) s'.
Proof. intros E. rewrite alone_bind. by rewrite (bind_Ret _ _ _ _ _ E). Qed.

Lemma alone_waits {A B} (t : Thread S A) (k : A → Thread S B) s s' : alone t s = (Block, s') → alone (t ≫= k) s = (Block, s').
Proof. intros E. rewrite alone_bind. unfold mbind at 1, gom_bind. by rewrite E. Qed.

Lemma alone_panics {A B} (t : Thread S A) (k : A → Thread S B) s msg s' : alone t s = (Panic msg, s') → alone (t ≫= k) s = (Panic msg, s').
Proof. intros E. rewrite alone_bind. unfold mbind at 1, gom_bind. by rewrite E. Qed.

Lemma alone_defer {A} d (t : Thread S A) s : alone (t_defer d t) s = go_defer d (alone t) s.
Proof.
  revert s. induction t as [a|f IH] using thread_ind; intros s.
  - unfold go_defer. cbn. destruct (d s) as [[u|msg|] s']; done.
  - unfold go_defer. cbn [t_defer alone]. destruct (f s) as [[t'|msg|] s'] eqn:E; [exact (IH s t' s' E s')| |done].
    destruct (d s') as [[u|m|] s'']; done.
Qed.

Lemma alone_recover t s : alone (t_recover t) s = match alone t s with (Panic _, s') => (Ret tt, s') | r => r end.
Proof.
  revert s. induction t as [a|f IH] using thread_ind; intros s; [done|]. cbn [t_recover alone].
  destruct (f s) as [[t'|msg|] s'] eqn:E; [exact (IH s t' s' E s')|done..].
Qed.

(** ** Several goroutines *)

(** One step of a goroutine; a panic that nobody recovers ends the process. *)
Definition step_thread (i : nat) (ts : list (Thread S unit)) : GoM S (list (Thread S unit)) := λ s,
  match ts !! i with
  | Some (Act f) =>
      match f s with
      | (Ret t, s') => (Ret (<[i := t]> ts), s')
      | (Panic msg, s') => (Panic msg, s')
      | (Block, _) => (Ret ts, s)
      end
  | _ => (Ret ts, s)
  end.

Fixpoint schedule (sch : list nat) (ts : list (Thread S unit)) : GoM S (list (Thread S unit)) :=
  match sch with
  | [] => mret ts
  | i :: sch' => ts' ← step_thread i ts; schedule sch' ts'
  end.

Definition blocked (t : Thread S unit) (s : S) : bool :=
  match t with Done _ => false | Act f => match f s with (Block, _) => true | _ => false end end.

(** No goroutine can make a step, and none of them has ended. *)
Definition deadlocked (ts : list (Thread S unit)) (s : S) : bool := forallb (λ t, blocked t s) ts.

(** Deadlocked goroutines stay where they are, whatever the scheduler tries. *)
Lemma deadlocked_stays sch ts s : deadlocked ts s = true → schedule sch ts s = (Ret ts, s).
Proof.
  intros Hd. induction sch as [|i sch IH]; [done|]. cbn [schedule]. erewrite bind_Ret; [exact IH|].
  unfold step_thread. destruct (ts !! i) as [[a|f]|] eqn:Ei; [done| |done].
  assert (blocked (Act f) s = true) as Hb.
  { unfold deadlocked in Hd. rewrite forallb_forall in Hd. apply Hd, list_elem_of_In. by eapply list_elem_of_lookup_2. }
  cbn in Hb. by destruct (f s) as [[]].
Qed.
End threads.

(** Run the first step of a goroutine, whose result is known. *)
Ltac thread_step E := rewrite (alone_step (atomic _) _ _ _ _ (eq_trans (alone_atomic _ _) E)); cbv beta.
