(* ===== verification/Repl.v ===== *)
(** * database/replication_master.go: the master side of replication

    A master keeps the bytes that followed its last RDB file in a backlog and sends them to
    its online slaves.  The work is spread over goroutines: the one that writes the
    append-only file calls the listeners, the cron pings the slaves, PSYNC starts a
    background save or a partial synchronisation, and a backlog that has grown too long
    starts a new save.  Every function is a [Thread]; its steps are the critical sections of
    the mutex and the single reads and writes outside them.

    Objects that are shared through pointers (backlogs, slaves, listeners, files) are numbers
    with a table of contents.  The persister is what replication sees of it: its lock, the lines
    it has written and its listeners; an RDB file is a function of those lines. *)

From Stdlib Require Import ZArith Lia Ascii String.
From stdpp Require Import base gmap strings numbers list.
From S2P Require Import Prelude GoStd Protocol Parser DB StringCmds Threads.

Local Open Scope string_scope.
Local Open Scope list_scope.
Local Open Scope Z_scope.
Local Open Scope go_scope.

Module Repl.

(** ** Data *)

Definition slaveStateHandShake : Z := 0.
Definition slaveStateWaitSaveEnd : Z := 1.
Definition slaveStateSendingRDB : Z := 2.
Definition slaveStateOnline : Z := 3.

Definition bgSaveIdle : Z := 0.
Definition bgSaveRunning : Z := 1.
Definition bgSaveFinish : Z := 2.

(** The address and the capacity that a slave could announce are never stored. *)
Record slaveClient := mkSlave { conn : nat; state : Z; offset : Z; lastAckTime : Z }.

Record replBacklog := mkBacklog { buf : string; beginOffset : Z; currentOffset : Z }.

Definition new_backlog : replBacklog := mkBacklog "" 0 0.

(** [s[i:]]. *)
Definition slice_from (s : string) (i : Z) : outcome string :=
  if (i <? 0) || (slen s <? i) then Panic "slice bounds out of range" else Ret (substr s i (slen s)).

Definition appendBytes (b : replBacklog) (bin : string) : replBacklog :=
  mkBacklog (buf b +:+ bin) (beginOffset b) (int64 (currentOffset b + slen bin)).

Definition getSnapshot (b : replBacklog) : string * Z := (buf b, currentOffset b).

Definition getSnapshotAfter (b : replBacklog) (begin : Z) : outcome (string * Z) :=
  s ← slice_from (buf b) (int64 (begin - beginOffset b)); Ret (s, currentOffset b).

Definition isValidOffset (b : replBacklog) (offset : Z) : bool :=
  (beginOffset b <=? offset) && (offset <? currentOffset b).

Record replAofListener := mkListener { lbacklog : nat; readyToSend : bool }.

(** [mu]: a goroutine keeps the mutex over several steps.  [waitSlaves] can be a nil map. *)
Record masterStatus := mkMaster {
  mu : bool;
  replId : string;
  backlog : nat;
  slaveMap : gmap nat nat;
  waitSlaves : option (gset nat);
  onlineSlaves : gset nat;
  bgSaveState : Z;
  rdbFilename : option nat;
  aofListener : option nat;
  rewriting : bool
}.

(** What replication sees of the persister.  [appendOnly] says whether there is one. *)
Record Persister := mkPersister {
  appendOnly : bool;
  pausingAof : bool;
  currentDB : Z;
  aofLines : list CmdLine;
  listeners : gset nat
}.

(** Goroutines that were started and have not run yet. *)
Inductive Job :=
  | BgSave
  | PartialSync (slave : nat) (id : string) (slaveOffset : Z)
  | RewriteRDB.

(** [written]: the bytes on each connection; [closed]: the connections that are closed;
    [slaveConns]: those marked by [SetSlave]. *)
Record World := mkWorld {
  master : masterStatus;
  backlogs : gmap nat replBacklog;
  slaveClients : gmap nat slaveClient;
  aofListeners : gmap nat replAofListener;
  persister : Persister;
  files : gmap nat string;
  written : gmap nat string;
  closed : gset nat;
  slaveConns : gset nat;
  jobs : list Job;
  fresh : nat;
  ticks : nat
}.

Definition set_mu (m : masterStatus) (x : bool) : masterStatus := mkMaster x (replId m) (backlog m) (slaveMap m) (waitSlaves m) (onlineSlaves m) (bgSaveState m) (rdbFilename m) (aofListener m) (rewriting m).
Definition set_replId (m : masterStatus) (x : string) : masterStatus := mkMaster (mu m) x (backlog m) (slaveMap m) (waitSlaves m) (onlineSlaves m) (bgSaveState m) (rdbFilename m) (aofListener m) (rewriting m).
Definition set_backlog (m : masterStatus) (x : nat) : masterStatus := mkMaster (mu m) (replId m) x (slaveMap m) (waitSlaves m) (onlineSlaves m) (bgSaveState m) (rdbFilename m) (aofListener m) (rewriting m).
Definition set_slaveMap (m : masterStatus) (x : gmap nat nat) : masterStatus := mkMaster (mu m) (replId m) (backlog m) x (waitSlaves m) (onlineSlaves m) (bgSaveState m) (rdbFilename m) (aofListener m) (rewriting m).
Definition set_waitSlaves (m : masterStatus) (x : option (gset nat)) : masterStatus := mkMaster (mu m) (replId m) (backlog m) (slaveMap m) x (onlineSlaves m) (bgSaveState m) (rdbFilename m) (aofListener m) (rewriting m).
Definition set_onlineSlaves (m : masterStatus) (x : gset nat) : masterStatus := mkMaster (mu m) (replId m) (backlog m) (slaveMap m) (waitSlaves m) x (bgSaveState m) (rdbFilename m) (aofListener m) (rewriting m).
Definition set_bgSaveState (m : masterStatus) (x : Z) : masterStatus := mkMaster (mu m) (replId m) (backlog m) (slaveMap m) (waitSlaves m) (onlineSlaves m) x (rdbFilename m) (aofListener m) (rewriting m).
Definition set_rdbFilename (m : masterStatus) (x : option nat) : masterStatus := mkMaster (mu m) (replId m) (backlog m) (slaveMap m) (waitSlaves m) (onlineSlaves m) (bgSaveState m) x (aofListener m) (rewriting m).
Definition set_aofListener (m : masterStatus) (x : option nat) : masterStatus := mkMaster (mu m) (replId m) (backlog m) (slaveMap m) (waitSlaves m) (onlineSlaves m) (bgSaveState m) (rdbFilename m) x (rewriting m).
Definition set_rewriting (m : masterStatus) (x : bool) : masterStatus := mkMaster (mu m) (replId m) (backlog m) (slaveMap m) (waitSlaves m) (onlineSlaves m) (bgSaveState m) (rdbFilename m) (aofListener m) x.

Definition set_pausingAof (p : Persister) (x : bool) : Persister := mkPersister (appendOnly p) x (currentDB p) (aofLines p) (listeners p).
Definition set_currentDB (p : Persister) (x : Z) : Persister := mkPersister (appendOnly p) (pausingAof p) x (aofLines p) (listeners p).
Definition set_aofLines (p : Persister) (x : list CmdLine) : Persister := mkPersister (appendOnly p) (pausingAof p) (currentDB p) x (listeners p).
Definition set_listeners (p : Persister) (x : gset nat) : Persister := mkPersister (appendOnly p) (pausingAof p) (currentDB p) (aofLines p) x.

Definition set_master (w : World) (x : masterStatus) : World := mkWorld x (backlogs w) (slaveClients w) (aofListeners w) (persister w) (files w) (written w) (closed w) (slaveConns w) (jobs w) (fresh w) (ticks w).
Definition set_backlogs (w : World) (x : gmap nat replBacklog) : World := mkWorld (master w) x (slaveClients w) (aofListeners w) (persister w) (files w) (written w) (closed w) (slaveConns w) (jobs w) (fresh w) (ticks w).
Definition set_slaveClients (w : World) (x : gmap nat slaveClient) : World := mkWorld (master w) (backlogs w) x (aofListeners w) (persister w) (files w) (written w) (closed w) (slaveConns w) (jobs w) (fresh w) (ticks w).
Definition set_aofListeners (w : World) (x : gmap nat replAofListener) : World := mkWorld (master w) (backlogs w) (slaveClients w) x (persister w) (files w) (written w) (closed w) (slaveConns w) (jobs w) (fresh w) (ticks w).
Definition set_persister (w : World) (x : Persister) : World := mkWorld (master w) (backlogs w) (slaveClients w) (aofListeners w) x (files w) (written w) (closed w) (slaveConns w) (jobs w) (fresh w) (ticks w).
Definition set_files (w : World) (x : gmap nat string) : World := mkWorld (master w) (backlogs w) (slaveClients w) (aofListeners w) (persister w) x (written w) (closed w) (slaveConns w) (jobs w) (fresh w) (ticks w).
Definition set_written (w : World) (x : gmap nat string) : World := mkWorld (master w) (backlogs w) (slaveClients w) (aofListeners w) (persister w) (files w) x (closed w) (slaveConns w) (jobs w) (fresh w) (ticks w).
Definition set_closed (w : World) (x : gset nat) : World := mkWorld (master w) (backlogs w) (slaveClients w) (aofListeners w) (persister w) (files w) (written w) x (slaveConns w) (jobs w) (fresh w) (ticks w).
Definition set_slaveConns (w : World) (x : gset nat) : World := mkWorld (master w) (backlogs w) (slaveClients w) (aofListeners w) (persister w) (files w) (written w) (closed w) x (jobs w) (fresh w) (ticks w).
Definition set_jobs (w : World) (x : list Job) : World := mkWorld (master w) (backlogs w) (slaveClients w) (aofListeners w) (persister w) (files w) (written w) (closed w) (slaveConns w) x (fresh w) (ticks w).
Definition set_fresh (w : World) (x : nat) : World := mkWorld (master w) (backlogs w) (slaveClients w) (aofListeners w) (persister w) (files w) (written w) (closed w) (slaveConns w) (jobs w) x (ticks w).
Definition set_ticks (w : World) (x : nat) : World := mkWorld (master w) (backlogs w) (slaveClients w) (aofListeners w) (persister w) (files w) (written w) (closed w) (slaveConns w) (jobs w) (fresh w) x.

(** The disk: whether an operation fails, the RDB file made of the lines of an append-only
    file; and the order in which the slaves of a map are visited. *)
Class Disk := {
  disk_error : nat → option string;
  rdb_of : list CmdLine → string;
  slave_order : nat → list nat → list nat
}.

Section repl.
Context `{Env} `{Disk}.

Abbreviation M := (GoM World).
Abbreviation T := (Thread World).

(** ** Pointers *)

Definition upd_master (f : masterStatus → masterStatus) : M unit := go_modify (λ w, set_master w (f (master w))).
Definition upd_persister (f : Persister → Persister) : M unit := go_modify (λ w, set_persister w (f (persister w))).

Definition new_pointer : M nat := λ w, (Ret (fresh w), set_fresh w (S (fresh w))).
Definition tick : M nat := λ w, (Ret (ticks w), set_ticks w (S (ticks w))).
Definition spawn (j : Job) : M unit := go_modify (λ w, set_jobs w (jobs w ++ [j])).

Definition nil_deref {A} : M A := go_panic "invalid memory address or nil pointer dereference".

Definition deref {A} (o : option A) : M A := match o with Some a => mret a | None => nil_deref end.

Definition get_backlog (p : nat) : M replBacklog := o ← go_get (λ w, backlogs w !! p); deref o.
Definition put_backlog (p : nat) (b : replBacklog) : M unit := go_modify (λ w, set_backlogs w (<[p := b]> (backlogs w))).
Definition get_slave (p : nat) : M slaveClient := o ← go_get (λ w, slaveClients w !! p); deref o.
Definition put_slave (p : nat) (s : slaveClient) : M unit := go_modify (λ w, set_slaveClients w (<[p := s]> (slaveClients w))).
Definition get_listener (p : nat) : M replAofListener := o ← go_get (λ w, aofListeners w !! p); deref o.
Definition put_listener (p : nat) (l : replAofListener) : M unit := go_modify (λ w, set_aofListeners w (<[p := l]> (aofListeners w))).

Definition set_slave_state (p : nat) (x : Z) : M unit := s ← get_slave p; put_slave p (mkSlave (conn s) x (offset s) (lastAckTime s)).
Definition set_slave_offset (p : nat) (x : Z) : M unit := s ← get_slave p; put_slave p (mkSlave (conn s) (state s) x (lastAckTime s)).

(** [server.masterStatus.backlog]. *)
Definition the_backlog : M replBacklog := p ← go_get (λ w, backlog (master w)); get_backlog p.

(** [c.Write(b)]: an error on a closed connection. *)
Definition conn_Write (c : nat) (b : string) : M (option string) := λ w,
  if bool_decide (c ∈ closed w) then (Ret (Some "use of closed network connection"), w)
  else (Ret None, set_written w (<[c := default "" (written w !! c) +:+ b]> (written w))).

(** An operation of the disk. *)
Definition io : M (option string) := t ← tick; mret (disk_error t).

(** ** Locks *)

(** A critical section of [masterStatus.mu] that takes no other lock. *)
Definition locked {A} (m : M A) : T A := atomic (λ w, if mu (master w) then (Block, w) else m w).

Definition lock_mu : M unit := λ w, if mu (master w) then (Block, w) else upd_master (λ m, set_mu m true) w.
Definition unlock_mu : M unit := upd_master (λ m, set_mu m false).

Definition lock_aof : M unit := λ w, if pausingAof (persister w) then (Block, w) else upd_persister (λ p, set_pausingAof p true) w.
Definition unlock_aof : M unit := upd_persister (λ p, set_pausingAof p false).

(** ** Slaves *)

(** [waitSlaves[slave] = struct{}{}]. *)
Definition add_waiting (p : nat) : M unit :=
  ws ← go_get (λ w, waitSlaves (master w));
  match ws with
  | None => go_panic "assignment to entry in nil map"
  | Some s => upd_master (λ m, set_waitSlaves m (Some (s ∪ {[p]})))
  end.

Definition forget_slave (p : nat) : M unit :=
  s ← get_slave p;
  _ ← go_modify (λ w, set_closed w (closed w ∪ {[conn s]}));
  upd_master (λ m, set_onlineSlaves (set_waitSlaves (set_slaveMap m (delete (conn s) (slaveMap m)))
    ((λ ws, ws ∖ {[p]}) <$> waitSlaves m)) (onlineSlaves m ∖ {[p]})).

Definition removeSlave (p : nat) : T unit := locked (forget_slave p).

Definition setSlaveOnline (p : nat) (current : Z) : T unit := locked (
  _ ← set_slave_state p slaveStateOnline;
  _ ← set_slave_offset p current;
  upd_master (λ m, set_onlineSlaves m (onlineSlaves m ∪ {[p]}))).

(** ** Sending *)

(** An error of a write, with what was being done. *)
Definition failed_with (what : string) (err : option string) (k : T (option string)) : T (option string) :=
  match err with
  | Some e => Done (Some (what +:+ ": " +:+ e))
  | None => k
  end.

Definition write_to (p : nat) (b : string) : T (option string) := atomic (s ← get_slave p; conn_Write (conn s) b).

Definition masterFullReSyncWithSlave (p : nat) : T (option string) :=
  header ← atomic (id ← go_get (λ w, replId (master w)); b ← the_backlog;
                   mret ("+FULLRESYNC " +:+ id +:+ " " +:+ FormatInt (beginOffset b) +:+ CRLF));
  err ← write_to p header;
  failed_with "write replication header to slave failed" err (
  rdbFile ← atomic (go_get (λ w, rdbFilename (master w) ≫= λ f, files w !! f));
  match rdbFile with
  | None => Done (Some "open rdb file for replication error")
  | Some content =>
      _ ← atomic (set_slave_state p slaveStateSendingRDB);
      rdbInfo ← atomic (o ← go_get (λ w, rdbFilename (master w) ≫= λ f, files w !! f); deref o);
      err ← write_to p ("$" +:+ FormatInt (slen rdbInfo) +:+ CRLF);
      failed_with "write rdb header to slave failed" err (
      err ← write_to p content;
      failed_with "write rdb file to slave failed" err (
      snap ← locked (b ← the_backlog; mret (getSnapshot b));
      err ← write_to p snap.1;
      failed_with "full resync write backlog to slave failed" err (
      _ ← setSlaveOnline p snap.2;
      Done None)))
  end).

Definition cannotPartialSync : string := "cannot do partial sync".

Definition masterTryPartialSyncWithSlave (p : nat) (id : string) (slaveOffset : Z) : T (option string) :=
  snap ← locked (
    id' ← go_get (λ w, replId (master w));
    if negb (String.eqb id id') then mret None
    else
      b ← the_backlog;
      if negb (isValidOffset b slaveOffset) then mret None
      else s ← go_lift (getSnapshotAfter b slaveOffset); mret (Some s));
  match snap with
  | None => Done (Some cannotPartialSync)
  | Some (data, current) =>
      header ← atomic (id' ← go_get (λ w, replId (master w)); mret ("+CONTINUE " +:+ id' +:+ CRLF));
      err ← write_to p header;
      failed_with "write replication header to slave failed" err (
      err ← write_to p data;
      failed_with "partial resync write backlog to slave failed" err (
      _ ← setSlaveOnline p current;
      Done None))
  end.

(** The update of one slave: the position is read, the bytes are written, the position is
    changed, outside the mutex. *)
Definition send_updates (data : string) (begin current : Z) (p : nat) : T unit :=
  off ← atomic (s ← get_slave p; mret (offset s));
  err ← atomic (s ← get_slave p; d ← go_lift (slice_from data (int64 (off - begin))); conn_Write (conn s) d);
  match (err : option string) with
  | Some _ => removeSlave p
  | None => atomic (set_slave_offset p current)
  end.

Definition masterSendUpdatesToSlave : T unit :=
  snap ← locked (b ← the_backlog; l ← go_get (λ w, elements (onlineSlaves (master w)));
                 t ← tick; mret (beginOffset b, getSnapshot b, slave_order t l));
  let '(begin, (data, current), l) := snap in
  t_for l (send_updates data begin current).

(** ** The commands *)

Definition execPSync (c : nat) (args : list bytes) : T Reply :=
  a0 ← atomic (arg args 0);
  a1 ← atomic (arg args 1);
  match ParseInt (str a1) with
  | inl _ => Done (MakeErrReply "ERR value is not an integer or out of range")
  | inr replOffset => locked (
      o ← go_get (λ w, slaveMap (master w) !! c);
      p ← (match o with
           | Some p => mret p
           | None =>
               p ← new_pointer;
               _ ← put_slave p (mkSlave c slaveStateHandShake 0 0);
               _ ← go_modify (λ w, set_slaveConns w (slaveConns w ∪ {[c]}));
               _ ← upd_master (λ m, set_slaveMap m (<[c := p]> (slaveMap m)));
               mret p
           end);
      st ← go_get (λ w, bgSaveState (master w));
      _ ← (if st =? bgSaveIdle then
             _ ← set_slave_state p slaveStateWaitSaveEnd; _ ← add_waiting p; spawn BgSave
           else if st =? bgSaveRunning then
             _ ← set_slave_state p slaveStateWaitSaveEnd; add_waiting p
           else if st =? bgSaveFinish then spawn (PartialSync p (str a0) replOffset)
           else mret tt);
      mret NoReply)
  end.

(** The loop of REPLCONF; [slave] is nil for a connection that has sent no PSYNC. *)
Fixpoint replconf_loop (slave : option nat) (args : list bytes) : T Reply :=
  match args with
  | k :: v :: rest =>
      if String.eqb (ToLower (str k)) "ack" then
        match ParseInt (str v) with
        | inl _ => Done (MakeErrReply "ERR value is not an integer or out of range")
        | inr off =>
            p ← atomic (deref slave);
            _ ← atomic (set_slave_offset p off);
            _ ← atomic (t ← tick; s ← get_slave p; put_slave p (mkSlave (conn s) (state s) (offset s) (time_now t)));
            Done NoReply
        end
      else replconf_loop slave rest
  | _ => Done OkReply
  end.

Definition execReplConf (c : nat) (args : list bytes) : T Reply :=
  if Nat.odd (length args) then Done SyntaxErrReply
  else
    slave ← locked (go_get (λ w, slaveMap (master w) !! c));
    replconf_loop slave args.

(** ** Saving *)

(** [persister.GenerateRDBForReplication]: the lines so far are what goes into the file, the
    listener gets the ones that follow. *)
Definition startGenerateRDB (listener : nat) (hook : option (M unit)) : T (string + nat) :=
  _ ← atomic lock_aof;
  t_defer unlock_aof (
    e ← atomic io;
    match e with
    | Some err => Done (inl err)
    | None =>
        filesize ← atomic (go_get (λ w, length (aofLines (persister w))));
        e ← atomic io;
        match e with
        | Some err => Done (inl err)
        | None =>
            _ ← atomic (upd_persister (λ p, set_listeners p (listeners p ∪ {[listener]})));
            _ ← (match hook with Some h => locked h | None => Done tt end);
            Done (inr filesize)
        end
    end).

Definition GenerateRDBForReplication (filename listener : nat) (hook : option (M unit)) : T (option string) :=
  has ← atomic (go_get (λ w, appendOnly (persister w)));
  if negb has then atomic nil_deref
  else
    ctx ← startGenerateRDB listener hook;
    match ctx with
    | inl err => Done (Some err)
    | inr filesize =>
        e ← atomic io;
        match e with
        | Some err => Done (Some err)
        | None =>
            _ ← atomic (go_modify (λ w, set_files w (<[filename := rdb_of (take filesize (aofLines (persister w)))]> (files w))));
            Done None
        end
    end.

(** [ioutil.TempFile]. *)
Definition TempFile : M (string + nat) :=
  e ← io;
  match e with
  | Some err => mret (inl ("create temp rdb failed: " +:+ err))
  | None => p ← new_pointer; _ ← go_modify (λ w, set_files w (<[p := ""]> (files w))); mret (inr p)
  end.

Definition saveForReplication : T (option string) :=
  f ← atomic TempFile;
  match f with
  | inl err => Done (Some err)
  | inr filename =>
      l ← locked (
        _ ← upd_master (λ m, set_rdbFilename (set_bgSaveState m bgSaveRunning) (Some filename));
        l ← new_pointer;
        b ← go_get (λ w, backlog (master w));
        _ ← put_listener l (mkListener b false);
        _ ← upd_master (λ m, set_aofListener m (Some l));
        mret l);
      err ← GenerateRDBForReplication filename l None;
      match (err : option string) with
      | Some e => Done (Some e)
      | None =>
          _ ← atomic (x ← get_listener l; put_listener l (mkListener (lbacklog x) true));
          ws ← locked (
            _ ← upd_master (λ m, set_bgSaveState m bgSaveFinish);
            ws ← go_get (λ w, default ∅ (waitSlaves (master w)));
            _ ← upd_master (λ m, set_waitSlaves m None);
            t ← tick;
            mret (slave_order t (elements ws)));
          _ ← t_for ws (λ p,
            e ← masterFullReSyncWithSlave p;
            match (e : option string) with Some _ => removeSlave p | None => Done tt end);
          Done None
      end
  end.

(** [persister.RemoveListener]; a nil listener is in no map. *)
Definition RemoveListener (l : option nat) : T unit :=
  _ ← atomic lock_aof;
  atomic (_ ← upd_persister (λ p, set_listeners p (match l with Some x => listeners p ∖ {[x]} | None => listeners p end)); unlock_aof).

Definition rewriteRDB : T (option string) :=
  f ← atomic TempFile;
  match f with
  | inl err => Done (Some err)
  | inr filename =>
      p ← atomic (p ← new_pointer; l ← new_pointer; _ ← put_backlog p new_backlog; _ ← put_listener l (mkListener p false); mret (p, l));
      let '(newBacklog, l) := p in
      let hook := (b ← the_backlog; nb ← get_backlog newBacklog;
                   put_backlog newBacklog (mkBacklog (buf nb) (currentOffset b) (currentOffset nb))) in
      err ← GenerateRDBForReplication filename l (Some hook);
      match (err : option string) with
      | Some e => Done (Some e)
      | None =>
          _ ← atomic lock_mu;
          _ ← atomic (upd_master (λ m, set_backlog (set_rdbFilename m (Some filename)) newBacklog));
          old ← atomic (go_get (λ w, aofListener (master w)));
          _ ← RemoveListener old;
          _ ← atomic (upd_master (λ m, set_aofListener m (Some l)));
          _ ← atomic unlock_mu;
          _ ← atomic (x ← get_listener l; put_listener l (mkListener (lbacklog x) true));
          Done None
      end
  end.

(** ** The cron *)

Definition pingBytes : string := ToBytes (MultiBulkReply (ToCmdLine ["ping"])).

Definition maxBacklogSize : Z := 10 * 1024 * 1024.

Definition masterCron : T unit :=
  size ← locked (
    sm ← go_get (λ w, slaveMap (master w));
    if bool_decide (sm = ∅) then mret None
    else
      st ← go_get (λ w, bgSaveState (master w));
      _ ← (if st =? bgSaveFinish then
             p ← go_get (λ w, backlog (master w)); b ← get_backlog p; put_backlog p (appendBytes b pingBytes)
           else mret tt);
      b ← the_backlog;
      mret (Some (slen (buf b))));
  match (size : option Z) with
  | None => Done tt
  | Some backlogSize =>
      _ ← masterSendUpdatesToSlave;
      rw ← atomic (go_get (λ w, rewriting (master w)));
      if (maxBacklogSize <? backlogSize) && negb rw then atomic (spawn RewriteRDB) else Done tt
  end.

(** ** The listener of the append-only file *)

Definition Callback (cmdLines : list CmdLine) (l : nat) : T unit :=
  _ ← locked (
    x ← get_listener l;
    b ← get_backlog (lbacklog x);
    put_backlog (lbacklog x) (foldl (λ b line, appendBytes b (ToBytes (MultiBulkReply line))) b cmdLines));
  ready ← atomic (x ← get_listener l; mret (readyToSend x));
  if (ready : bool) then masterSendUpdatesToSlave else Done tt.

(** The lines that go to the append-only file, and are told to the listeners: none when the
    SELECT cannot be written. *)
Definition write_lines (dbIndex : Z) (cmdLine : CmdLine) : M (option (list CmdLine)) :=
  current ← go_get (λ w, currentDB (persister w));
  buffer ← (if dbIndex =? current then mret (Some [])
            else
              let selectCmd := ToCmdLine ["SELECT"; Itoa dbIndex] in
              err ← io;
              match (err : option string) with
              | Some _ => mret None
              | None => _ ← upd_persister (λ p, set_currentDB (set_aofLines p (aofLines p ++ [selectCmd])) dbIndex); mret (Some [selectCmd])
              end);
  match (buffer : option (list CmdLine)) with
  | None => mret None
  | Some buffer =>
      err ← io;
      _ ← (match (err : option string) with
           | Some _ => mret tt
           | None => upd_persister (λ p, set_aofLines p (aofLines p ++ [cmdLine]))
           end);
      mret (Some (buffer ++ [cmdLine]))
  end.

Definition writeAof (dbIndex : Z) (cmdLine : CmdLine) : T unit :=
  _ ← atomic lock_aof;
  t_defer unlock_aof (
    buffer ← atomic (write_lines dbIndex cmdLine);
    match (buffer : option (list CmdLine)) with
    | None => Done tt
    | Some lines =>
        order ← atomic (l ← go_get (λ w, elements (listeners (persister w))); t ← tick; mret (slave_order t l));
        t_for order (Callback lines)
    end).

(** ** Start and end *)

(** [id] is the random string. *)
Definition initMasterStatus (id : string) : M unit :=
  p ← new_pointer;
  _ ← put_backlog p new_backlog;
  go_modify (λ w, set_master w (mkMaster false id p ∅ (Some ∅) ∅ bgSaveIdle None None false)).

Definition stopMaster : T unit :=
  _ ← atomic lock_mu;
  t_defer unlock_mu (
    _ ← atomic (l ← go_get (λ w, (map_to_list (slaveMap (master w))).*2); go_for l forget_slave);
    has ← atomic (go_get (λ w, (appendOnly (persister w), aofListener (master w))));
    _ ← (if (has.1 : bool) then RemoveListener has.2 else Done tt);
    atomic (f ← go_get (λ w, rdbFilename (master w));
            _ ← go_modify (λ w, set_files w (match f with Some x => delete x (files w) | None => files w end));
            p ← new_pointer;
            _ ← put_backlog p new_backlog;
            upd_master (λ m, mkMaster (mu m) "" p ∅ (Some ∅) ∅ bgSaveIdle None (aofListener m) (rewriting m)))).

(** ** Goroutines *)

Definition job_thread (j : Job) : T unit :=
  match j with
  | BgSave => t_recover (_ ← saveForReplication; Done tt)
  | PartialSync p id off => t_recover (
      err ← masterTryPartialSyncWithSlave p id off;
      match (err : option string) with
      | None => Done tt
      | Some e =>
          if negb (String.eqb e cannotPartialSync) then removeSlave p
          else
            err ← masterFullReSyncWithSlave p;
            match (err : option string) with Some _ => removeSlave p | None => Done tt end
      end)
  | RewriteRDB =>
      _ ← atomic (upd_master (λ m, set_rewriting m true));
      t_defer (upd_master (λ m, set_rewriting m false)) (
        err ← rewriteRDB;
        match (err : option string) with
        | Some _ => atomic (upd_master (λ m, set_rewriting m false))
        | None => Done tt
        end)
  end.

(** The oldest goroutine that waits to run, without interruption. *)
Definition run_job : M unit := λ w,
  match jobs w with
  | [] => (Ret tt, w)
  | j :: js => alone (job_thread j) (set_jobs w js)
  end.
End repl.
End Repl.
