(* ===== verification/ReplLaws.v ===== *)
(** * What a master sends to its slaves

    A slave that is in step with its master gets every line that is written to the
    append-only file, and every ping, once and in order. *)

From Stdlib Require Import ZArith Lia Ascii String.
From stdpp Require Import base gmap strings numbers list.
From S2P Require Import Prelude GoStd Protocol Parser DB StringCmds Threads Repl.

Local Open Scope string_scope.
Local Open Scope list_scope.
Local Open Scope Z_scope.
Local Open Scope go_scope.

Import Repl.

(** The bytes of command lines. *)
Definition lines_bytes (lines : list CmdLine) : string := encode_all (MultiBulkReply <$> lines).

Lemma lines_bytes_app l k : lines_bytes (l ++ k) = lines_bytes l +:+ lines_bytes k.
Proof.
  unfold lines_bytes, encode_all. rewrite !fmap_app. induction (ToBytes <$> (MultiBulkReply <$> l)) as [|x xs IH]; [done|].
  cbn [app]. by rewrite !concat_strings_cons, IH, string_app_assoc.
Qed.

(** ** Backlogs *)

(** A backlog whose offsets tell the truth. *)
Definition backlog_ok (b : replBacklog) : Prop := 0 ≤ beginOffset b ∧ currentOffset b = beginOffset b + slen (buf b) ∧ currentOffset b ≤ int64_max.

Definition extended (b : replBacklog) (d : string) : replBacklog := mkBacklog (buf b +:+ d) (beginOffset b) (currentOffset b + slen d).

Lemma extended_ok b d : backlog_ok b → currentOffset b + slen d ≤ int64_max → backlog_ok (extended b d).
Proof. intros (H1 & H2 & H3) Hd. unfold backlog_ok. cbn. rewrite slen_app. lia. Qed.

Lemma appendBytes_run b d : 0 ≤ currentOffset b → currentOffset b + slen d ≤ int64_max → appendBytes b d = extended b d.
Proof.
  intros Hb Hd. unfold appendBytes, extended. rewrite int64_id; [done|]. pose proof (slen_nonneg d). unfold is_int64, int64_min, int64_max in *. lia.
Qed.

Lemma append_lines_run lines b : 0 ≤ currentOffset b → currentOffset b + slen (lines_bytes lines) ≤ int64_max →
  foldl (λ b line, appendBytes b (ToBytes (MultiBulkReply line))) b lines = extended b (lines_bytes lines).
Proof.
  revert b. induction lines as [|line lines IH]; intros b Hb Hl.
  { unfold extended. cbn. rewrite string_app_nil_r, Z.add_0_r. by destruct b. }
  change (line :: lines) with ([line] ++ lines) in *. rewrite lines_bytes_app, slen_app in Hl. set (d := lines_bytes [line]) in *.
  assert (d = ToBytes (MultiBulkReply line)) as Ed by (unfold d, lines_bytes, encode_all; cbn [fmap list_fmap concat_strings foldr]; by rewrite string_app_nil_r).
  pose proof (slen_nonneg (lines_bytes lines)). pose proof (slen_nonneg d). cbn [app foldl]. rewrite <-Ed, appendBytes_run by (done || lia).
  rewrite IH by (unfold extended; cbn [currentOffset]; lia). change (line :: lines) with ([line] ++ lines).
  rewrite lines_bytes_app. unfold extended. cbn [buf beginOffset currentOffset]. fold d. rewrite string_app_assoc, slen_app. f_equal. lia.
Qed.

Lemma backlog_ok_pos b : backlog_ok b → 0 ≤ currentOffset b.
Proof. intros (H1 & H2 & _). pose proof (slen_nonneg (buf b)). lia. Qed.

(** What is written for a line: a SELECT before it when the database changes. *)
Definition aof_batch (dbIndex current : Z) (cmdLine : CmdLine) : list CmdLine :=
  if dbIndex =? current then [cmdLine] else [ToCmdLine ["SELECT"; Itoa dbIndex]; cmdLine].

(** ** Sending *)

Section laws.
Context `{Env} `{Disk}.

Lemma alone_locked {A} (m : GoM World A) w : mu (master w) = false → alone (locked m) w = m w.
Proof. intros Hm. unfold locked. by rewrite alone_atomic, Hm. Qed.
Hypothesis order_perm : ∀ t l, slave_order t l ≡ₚ l.
Hypothesis disk_works : ∀ t, disk_error t = None.

Lemma io_run w : io w = (Ret None, set_ticks w (S (ticks w))).
Proof. unfold io, tick. unfold mbind, gom_bind, mret, gom_ret. by rewrite disk_works. Qed.


(** The bytes [d] go to one slave, which is at [current] then. *)
Definition sent_to (d : string) (current : Z) (w : World) (p : nat) : World :=
  match slaveClients w !! p with
  | None => w
  | Some s => set_slaveClients (set_written w (<[conn s := default "" (written w !! conn s) +:+ d]> (written w)))
                (<[p := mkSlave (conn s) (state s) current (lastAckTime s)]> (slaveClients w))
  end.

(** A slave at [off] that can be written to. *)
Definition reachable (w : World) (off : Z) (p : nat) : Prop :=
  ∃ s, slaveClients w !! p = Some s ∧ offset s = off ∧ conn s ∉ closed w.

Lemma send_updates_run w p pre d begin current : reachable w (begin + slen pre) p → 0 ≤ begin → begin + slen pre ≤ int64_max →
  alone (send_updates (pre +:+ d) begin current p) w = (Ret tt, sent_to d current w p).
Proof.
  intros (s & Hs & Ho & Hc) Hb Hm. pose proof (slen_nonneg pre). pose proof (slen_nonneg d). unfold send_updates.
  assert (∀ w', slaveClients w' = slaveClients w → get_slave p w' = (Ret s, w')) as Hget.
  { intros w' E. unfold get_slave. erewrite bind_Ret by reflexivity. by rewrite E, Hs. }
  assert ((s ← get_slave p; mret (offset s)) w = (Ret (offset s), w)) as Ho' by by rewrite (bind_Ret _ _ _ _ _ (Hget w eq_refl)).
  thread_step Ho'.
  assert (slice_from (pre +:+ d) (int64 (offset s - begin)) = Ret d) as Hslice.
  { rewrite Ho. replace (begin + slen pre - begin) with (slen pre) by lia. rewrite int64_id by (unfold is_int64, int64_min, int64_max in *; lia).
    unfold slice_from. rewrite slen_app, (proj2 (Z.ltb_ge _ _)), (proj2 (Z.ltb_ge _ _)) by lia. cbn. f_equal. rewrite <-slen_app. apply substr_app_r. }
  set (w1 := set_written w (<[conn s := default "" (written w !! conn s) +:+ d]> (written w))).
  assert ((s0 ← get_slave p; d0 ← go_lift (slice_from (pre +:+ d) (int64 (offset s - begin))); conn_Write (conn s0) d0) w = (Ret None, w1)) as Hw.
  { rewrite (bind_Ret _ _ _ _ _ (Hget w eq_refl)). erewrite bind_Ret; [|unfold go_lift; by rewrite Hslice]. unfold conn_Write. by rewrite bool_decide_eq_false_2. }
  thread_step Hw. rewrite alone_atomic. unfold set_slave_offset.
  rewrite (bind_Ret _ _ _ _ _ (Hget w1 eq_refl)). unfold sent_to. by rewrite Hs.
Qed.

Definition at_offset (current : Z) (s : slaveClient) : slaveClient := mkSlave (conn s) (state s) current (lastAckTime s).

(** What sending [d] to the slaves of [l] does, and all that it does. *)
Record sent (d : string) (current : Z) (l : list nat) (w w' : World) : Prop := {
  se_same : w' = set_slaveClients (set_written w (written w')) (slaveClients w');
  se_slaves : ∀ p, slaveClients w' !! p = if bool_decide (p ∈ l) then at_offset current <$> slaveClients w !! p else slaveClients w !! p;
  se_written : ∀ p s, p ∈ l → slaveClients w !! p = Some s → default "" (written w' !! conn s) = default "" (written w !! conn s) +:+ d;
  se_others : ∀ c, (∀ p s, p ∈ l → slaveClients w !! p = Some s → conn s ≠ c) → written w' !! c = written w !! c
}.

(** The slaves of [l] have a connection each. *)
Definition own_conns (w : World) (l : list nat) : Prop :=
  ∀ p q s t, p ∈ l → q ∈ l → slaveClients w !! p = Some s → slaveClients w !! q = Some t → conn s = conn t → p = q.

Lemma sent_cons d current p l w w' s : p ∉ l → slaveClients w !! p = Some s → own_conns w (p :: l) →
  sent d current l (sent_to d current w p) w' → sent d current (p :: l) w w'.
Proof.
  intros Hp Hs Hown [S1 S2 S3 S4]. unfold sent_to in *. rewrite Hs in *. cbn [slaveClients set_slaveClients written set_written] in *. split.
  - rewrite S1. reflexivity.
  - intros q. rewrite S2. destruct (decide (q = p)) as [->|Hq].
    + rewrite bool_decide_eq_false_2, bool_decide_eq_true_2, lookup_insert_eq, Hs by (done || apply elem_of_cons; auto). done.
    + rewrite lookup_insert_ne by done. rewrite (bool_decide_ext (q ∈ l) (q ∈ p :: l)); [done|]. rewrite elem_of_cons. naive_solver.
  - intros q t [->|Hq]%elem_of_cons Ht.
    + assert (s = t) as -> by congruence. rewrite (S4 (conn t)); [by rewrite lookup_insert_eq|].
      intros q' t' Hq' Ht' Hc. assert (q' ≠ p) as Hne by (by intros ->). rewrite lookup_insert_ne in Ht' by done.
      apply Hne, (Hown q' p t' t); [apply elem_of_cons; auto..|done|done|done].
    + assert (q ≠ p) as Hne by (by intros ->). rewrite (S3 q t Hq) by (by rewrite lookup_insert_ne). rewrite lookup_insert_ne; [done|].
      intros Hc. apply Hne, (Hown q p t s); [apply elem_of_cons; auto..|done|done|done].
  - intros c Hc. rewrite S4.
    + apply lookup_insert_ne. apply (Hc p s); [apply elem_of_cons; auto|done].
    + intros q t Hq Ht. assert (q ≠ p) as Hne by (by intros ->). rewrite lookup_insert_ne in Ht by done. apply (Hc q t); [apply elem_of_cons; auto|done].
Qed.

Lemma reachable_sent w off d current p q : q ≠ p → reachable w off q → reachable (sent_to d current w p) off q.
Proof.
  intros Hne (s & Hs & Ho & Hc). unfold sent_to, reachable. destruct (slaveClients w !! p) as [t|]; [|by exists s].
  exists s. cbn. by rewrite lookup_insert_ne.
Qed.

Lemma send_loop_run l w pre d begin current : NoDup l → own_conns w l → Forall (reachable w (begin + slen pre)) l →
  0 ≤ begin → begin + slen pre ≤ int64_max →
  ∃ w', alone (t_for l (send_updates (pre +:+ d) begin current)) w = (Ret tt, w') ∧ sent d current l w w'.
Proof.
  intros Hd. revert w. induction Hd as [|p l Hp Hd IH]; intros w Hown Hall Hb Hm.
  { exists w. split; [done|]. split; [by destruct w| | |done]; intros p; [|intros s]; by (rewrite ?bool_decide_eq_false_2 by apply not_elem_of_nil) || intros ?%elem_of_nil. }
  apply Forall_cons in Hall as [Hr Hall]. destruct Hr as (s & Hs & Hr). cbn [t_for].
  destruct (IH (sent_to d current w p)) as (w' & E & Hsent).
  - intros q q' t t' Hq Hq' Ht Ht'. unfold sent_to in Ht, Ht'. rewrite Hs in Ht, Ht'. cbn in Ht, Ht'.
    rewrite lookup_insert_ne in Ht, Ht' by (intros ->; done). apply (Hown q q' t t'); [apply elem_of_cons; auto..|done|done].
  - eapply Forall_impl; [apply Forall_and; split; [exact Hall|]|]; [apply Forall_forall; intros q Hq; instantiate (1 := λ q, q ≠ p); cbn; intros ->; done|].
    intros q [Hq Hne]. by apply reachable_sent.
  - done.
  - done.
  - exists w'. split; [|by eapply sent_cons]. erewrite alone_step; [exact E|]. apply send_updates_run; [by exists s|done|done].
Qed.

(** ** A master whose slaves are in step *)

(** [paused] says whether the append-only file is being written. *)
Record in_step_ (paused : bool) (w : World) (l : nat) (b : replBacklog) : Prop := {
  is_mu : mu (master w) = false;
  is_aof : pausingAof (persister w) = paused;
  is_finish : bgSaveState (master w) = bgSaveFinish;
  is_slave : slaveMap (master w) ≠ ∅;
  is_backlog : backlogs w !! backlog (master w) = Some b;
  is_ok : backlog_ok b;
  is_listeners : listeners (persister w) = {[l]};
  is_listener : aofListeners w !! l = Some (mkListener (backlog (master w)) true);
  is_slaves : ∀ p, p ∈ onlineSlaves (master w) → reachable w (currentOffset b) p;
  is_conns : own_conns w (elements (onlineSlaves (master w)))
}.
Definition in_step := in_step_ false.

Lemma sent_perm d current l k w w' : l ≡ₚ k → sent d current l w w' → sent d current k w w'.
Proof.
  intros Hlk [S1 S2 S3 S4]. assert (∀ p, p ∈ k ↔ p ∈ l) as He by (intros p; by rewrite Hlk). split; [done| | |].
  - intros p. rewrite S2. by rewrite (bool_decide_ext (p ∈ k) (p ∈ l)).
  - intros p s0 Hp%He. by apply S3.
  - intros c Hc. apply S4. intros p s0 Hp. by apply Hc, He.
Qed.

(** The bytes [d] behind the position of the slaves go to them. *)
Lemma send_run w pre d begin current : mu (master w) = false → backlogs w !! backlog (master w) = Some (mkBacklog (pre +:+ d) begin current) →
  0 ≤ begin → begin + slen pre ≤ int64_max →
  (∀ p, p ∈ onlineSlaves (master w) → reachable w (begin + slen pre) p) → own_conns w (elements (onlineSlaves (master w))) →
  ∃ w', alone masterSendUpdatesToSlave w = (Ret tt, w') ∧
    sent d current (elements (onlineSlaves (master w))) (set_ticks w (S (ticks w))) w'.
Proof.
  intros Hmu Hb Hb1 Hb2 Hr Hown. unfold masterSendUpdatesToSlave, locked. set (l := elements (onlineSlaves (master w))) in *.
  set (w1 := set_ticks w (S (ticks w))). set (order := slave_order (ticks w) l). assert (order ≡ₚ l) as Hperm by apply order_perm.
  match goal with |- context [atomic ?m] => assert (m w = (Ret (begin, (pre +:+ d, current), order), w1)) as E1 end.
  { rewrite Hmu. unfold the_backlog, get_backlog. erewrite bind_Ret by (erewrite bind_Ret by reflexivity; erewrite bind_Ret by reflexivity; rewrite Hb; reflexivity). reflexivity. }
  thread_step E1. cbv iota. destruct (send_loop_run order w1 pre d begin current) as (w' & E & Hs).
  - rewrite Hperm. apply NoDup_elements.
  - intros p q s t Hp Hq. apply Hown; by rewrite <-Hperm.
  - apply Forall_forall. intros p Hp. rewrite Hperm in Hp. by apply elem_of_elements, Hr in Hp.
  - done.
  - done.
  - exists w'. split; [exact E|]. by eapply sent_perm.
Qed.

(** The bytes [d] that the backlog got go to the slaves that were at its end. *)
Lemma send_extended w b d : mu (master w) = false → backlogs w !! backlog (master w) = Some (extended b d) → backlog_ok b →
  (∀ p, p ∈ onlineSlaves (master w) → reachable w (currentOffset b) p) → own_conns w (elements (onlineSlaves (master w))) →
  ∃ w', alone masterSendUpdatesToSlave w = (Ret tt, w') ∧
    sent d (currentOffset b + slen d) (elements (onlineSlaves (master w))) (set_ticks w (S (ticks w))) w'.
Proof. intros Hmu Hb (Hb1 & Hb2 & Hb3) Hr Hown. apply (send_run w (buf b) d (beginOffset b)); try done; [lia|]. by rewrite <-Hb2. Qed.

(** [w'] is [w] with the backlog extended and its bytes sent. *)
Record advanced (d : string) (w w' : World) : Prop := {
  ad_master : master w' = master w;
  ad_closed : closed w' = closed w;
  ad_conns : ∀ p, conn <$> slaveClients w' !! p = conn <$> slaveClients w !! p;
  ad_written : ∀ p s, p ∈ onlineSlaves (master w) → slaveClients w !! p = Some s →
    default "" (written w' !! conn s) = default "" (written w !! conn s) +:+ d;
  ad_others : ∀ c, (∀ p s, p ∈ onlineSlaves (master w) → slaveClients w !! p = Some s → conn s ≠ c) → written w' !! c = written w !! c
}.

Lemma advanced_trans d e w1 w2 w3 : advanced d w1 w2 → advanced e w2 w3 → advanced (d +:+ e) w1 w3.
Proof.
  intros [A1 A2 A3 A4 A5] [B1 B2 B3 B4 B5].
  assert (∀ p s, slaveClients w2 !! p = Some s → ∃ s1, slaveClients w1 !! p = Some s1 ∧ conn s1 = conn s) as Hback.
  { intros p s Hs. specialize (A3 p). rewrite Hs in A3. destruct (slaveClients w1 !! p) as [s1|]; [|done]. injection A3 as A3. by exists s1. }
  split; [congruence|congruence|congruence| |].
  - intros p s Hp Hs. assert (∃ s2, slaveClients w2 !! p = Some s2 ∧ conn s2 = conn s) as (s2 & Hs2 & Hc).
    { specialize (A3 p). rewrite Hs in A3. destruct (slaveClients w2 !! p) as [s2|]; [|done]. injection A3 as A3. by exists s2. }
    rewrite <-Hc, (B4 p s2), Hc, (A4 p s) by congruence. apply string_app_assoc.
  - intros c Hc. rewrite B5; [by apply A5|]. rewrite A1. intros p s Hp Hs. destruct (Hback p s Hs) as (s1 & Hs1 & <-). by apply (Hc p).
Qed.

(** A state in which the master and the online slaves are as in [w]. *)
Record kept (w w1 : World) : Prop := {
  ke_master : master w1 = master w;
  ke_closed : closed w1 = closed w;
  ke_slaves : slaveClients w1 = slaveClients w;
  ke_written : written w1 = written w
}.

Lemma sent_advanced d current w w1 w' : kept w w1 → sent d current (elements (onlineSlaves (master w))) w1 w' → advanced d w w'.
Proof.
  intros [K1 K2 K3 K4] [S1 S2 S3 S4]. rewrite K3 in S2, S3, S4. rewrite K4 in S3, S4.
  split; [rewrite S1; by cbn|rewrite S1; by cbn| | |].
  - intros p. rewrite S2. case_bool_decide; [|done]. by destruct (slaveClients w !! p).
  - intros p s Hp Hs. apply (S3 p s); [by apply elem_of_elements|done].
  - intros c Hc. apply S4. intros p s Hp%elem_of_elements. by apply Hc.
Qed.

(** The backlog got [d], which has been sent: the slaves are in step again. *)
Lemma sent_in_step a a' w l b d w1 w' : in_step_ a w l b → currentOffset b + slen d ≤ int64_max → kept w w1 →
  backlogs w1 = <[backlog (master w) := extended b d]> (backlogs w) → aofListeners w1 = aofListeners w →
  pausingAof (persister w1) = a' → listeners (persister w1) = {[l]} →
  sent d (currentOffset b + slen d) (elements (onlineSlaves (master w))) w1 w' → in_step_ a' w' l (extended b d).
Proof.
  intros [I1 I2 I3 I4 I5 I6 I7 I8 I9 I10] Hd [K1 K2 K3 K4] Hb Hl Hp1 Hp2 [S1 S2 S3 S4].
  assert (master w' = master w) as Em by (rewrite S1; by cbn). assert (persister w' = persister w1) as Ep by (by rewrite S1).
  split; rewrite ?Em, ?Ep; try done.
  - rewrite S1. cbn. rewrite Hb. apply lookup_insert_eq.
  - by apply extended_ok.
  - rewrite S1. cbn. by rewrite Hl.
  - intros p Hp. destruct (I9 p Hp) as (s & Hs & Ho & Hc). exists (at_offset (currentOffset b + slen d) s). split_and!; [|done|].
    + rewrite S2, bool_decide_eq_true_2, K3, Hs by (by apply elem_of_elements). done.
    + rewrite S1. cbn. by rewrite K2.
  - intros p q s t Hp Hq Hs Ht Hc. rewrite S2, bool_decide_eq_true_2, K3 in Hs, Ht by done.
    destruct (slaveClients w !! p) as [s0|] eqn:E1; [|done]. destruct (slaveClients w !! q) as [t0|] eqn:E2; [|done].
    injection Hs as <-. injection Ht as <-. by apply (I10 p q s0 t0).
Qed.

(** ** The operations *)

(** A ping of the cron, or a line written in a database. *)
Inductive Event := Line (dbIndex : Z) (cmdLine : CmdLine) | Cron.

Definition event_thread (e : Event) : Thread World unit :=
  match e with Line dbIndex cmdLine => writeAof dbIndex cmdLine | Cron => masterCron end.

(** The lines of events, [current] being the database selected last. *)
Definition event_lines (current : Z) (e : Event) : list CmdLine :=
  match e with Line dbIndex cmdLine => aof_batch dbIndex current cmdLine | Cron => [ToCmdLine ["ping"]] end.

Definition next_db (current : Z) (e : Event) : Z := match e with Line dbIndex _ => dbIndex | Cron => current end.

Fixpoint stream (current : Z) (es : list Event) : list CmdLine :=
  match es with [] => [] | e :: es' => event_lines current e ++ stream (next_db current e) es' end.

Lemma pingBytes_eq : pingBytes = lines_bytes [ToCmdLine ["ping"]].
Proof. reflexivity. Qed.

Lemma cron_run w l b : in_step w l b → currentOffset b + slen pingBytes ≤ int64_max →
  ∃ w', alone masterCron w = (Ret tt, w') ∧ in_step w' l (extended b pingBytes) ∧ advanced pingBytes w w' ∧ currentDB (persister w') = currentDB (persister w) ∧
    (slen (buf b) + slen pingBytes ≤ maxBacklogSize → jobs w' = jobs w).
Proof.
  intros Hi Hd. pose proof Hi as [I1 I2 I3 I4 I5 I6 I7 I8 I9 I10]. unfold masterCron, locked.
  set (w1 := set_backlogs w (<[backlog (master w) := extended b pingBytes]> (backlogs w))).
  match goal with |- context [atomic ?m] => assert (m w = (Ret (Some (slen (buf (extended b pingBytes)))), w1)) as E1 end.
  { rewrite I1. erewrite bind_Ret by reflexivity. rewrite bool_decide_eq_false_2 by done. erewrite bind_Ret by reflexivity. rewrite I3, Z.eqb_refl.
    unfold the_backlog, get_backlog. erewrite bind_Ret.
    2: { erewrite bind_Ret by reflexivity. erewrite bind_Ret; [|erewrite bind_Ret by reflexivity; rewrite I5; reflexivity]. rewrite appendBytes_run by (done || by apply backlog_ok_pos). reflexivity. }
    fold w1. erewrite bind_Ret; [reflexivity|]. erewrite bind_Ret by reflexivity. erewrite bind_Ret by reflexivity. cbn [backlogs set_backlogs w1 master]. by rewrite lookup_insert_eq. }
  thread_step E1. cbv iota. destruct (send_extended w1 b pingBytes) as (w2 & E2 & Hs); [done|apply lookup_insert_eq|done| |done|].
  { intros p Hp. destruct (I9 p Hp) as (s & Hs). by exists s. }
  rewrite (alone_step _ _ _ _ _ E2). assert (kept w (set_ticks w1 (S (ticks w1)))) as Hk by done.
  erewrite alone_step; [|rewrite alone_atomic; reflexivity]. pose proof (sent_advanced _ _ _ _ _ Hk Hs) as Ha.
  assert (jobs w2 = jobs w) as Ej by (by rewrite (se_same _ _ _ _ _ Hs)).
  assert (∃ js, alone (if (maxBacklogSize <? slen (buf (extended b pingBytes))) && negb (rewriting (master w2)) then atomic (spawn RewriteRDB) else Done tt) w2 = (Ret tt, set_jobs w2 js) ∧
    (slen (buf b) + slen pingBytes ≤ maxBacklogSize → js = jobs w)) as (js & E3 & Hjs).
  { destruct (maxBacklogSize <? _) eqn:Em; cbn [andb].
    - assert (¬ slen (buf b) + slen pingBytes ≤ maxBacklogSize) by (apply Z.ltb_lt in Em; unfold extended in Em; cbn [buf] in Em; rewrite slen_app in Em; lia).
      destruct (negb _); [eexists; by split|]. exists (jobs w2). split; [by destruct w2|done].
    - exists (jobs w2). split; [by destruct w2|done]. }
  rewrite E3. eexists. split; [reflexivity|]. assert (in_step w2 l (extended b pingBytes)) as Hi2 by (by eapply sent_in_step).
  split_and!.
  - destruct Hi2 as [? ? ? ? ? ? ? ? ? ?]. by split.
  - destruct Ha. by split.
  - cbn. by rewrite (se_same _ _ _ _ _ Hs).
  - exact Hjs.
Qed.

(** The lines reach the backlog of the listener before they are sent. *)
Lemma callback_sends w l b lines ready : mu (master w) = false → backlogs w !! backlog (master w) = Some b →
  aofListeners w !! l = Some (mkListener (backlog (master w)) ready) →
  alone (Callback lines l) w = alone (if ready then masterSendUpdatesToSlave else Done tt)
    (set_backlogs w (<[backlog (master w) := foldl (λ b line, appendBytes b (ToBytes (MultiBulkReply line))) b lines]> (backlogs w))).
Proof.
  intros Hmu Hb Hl. unfold Callback. assert (∀ w', aofListeners w' = aofListeners w → get_listener l w' = (Ret (mkListener (backlog (master w)) ready), w')) as Hget.
  { intros w' E. unfold get_listener. erewrite bind_Ret by reflexivity. by rewrite E, Hl. }
  erewrite (alone_step (locked _)); [|rewrite alone_locked by done; rewrite (bind_Ret _ _ _ _ _ (Hget w eq_refl)); cbn [lbacklog]; unfold get_backlog;
    erewrite bind_Ret; [|erewrite bind_Ret by reflexivity; rewrite Hb; reflexivity]; reflexivity]. cbv beta.
  erewrite alone_step; [|rewrite alone_atomic; rewrite (bind_Ret _ _ _ _ _ (Hget (set_backlogs w _) eq_refl)); reflexivity]. reflexivity.
Qed.
Lemma callback_run a w l b lines : in_step_ a w l b → currentOffset b + slen (lines_bytes lines) ≤ int64_max →
  ∃ w', alone (Callback lines l) w = (Ret tt, w') ∧ in_step_ a w' l (extended b (lines_bytes lines)) ∧ advanced (lines_bytes lines) w w' ∧
    persister w' = persister w ∧ jobs w' = jobs w.
Proof.
  intros Hi Hd. pose proof Hi as [I1 I2 I3 I4 I5 I6 I7 I8 I9 I10]. rewrite (callback_sends w l b lines true), append_lines_run by (done || by apply backlog_ok_pos).
  set (w1 := set_backlogs w (<[backlog (master w) := extended b (lines_bytes lines)]> (backlogs w))).
  destruct (send_extended w1 b (lines_bytes lines)) as (w2 & E3 & Hs); [done|apply lookup_insert_eq|done| |done|].
  { intros p Hp. destruct (I9 p Hp) as (s & Hs). by exists s. }
  exists w2. assert (kept w (set_ticks w1 (S (ticks w1)))) as Hk by done. split_and!; [exact E3| | | |].
  - by eapply sent_in_step.
  - by eapply sent_advanced.
  - by rewrite (se_same _ _ _ _ _ Hs).
  - by rewrite (se_same _ _ _ _ _ Hs).
Qed.

(** A line with one listener: its callback, between the lock and the unlock of the file. *)
Definition noting (w : World) (dbIndex : Z) (lines : list CmdLine) : World :=
  set_ticks (set_persister w (set_aofLines (set_currentDB (set_pausingAof (persister w) true) dbIndex) (aofLines (persister w) ++ lines)))
    (S (length lines + ticks w)).

Lemma write_lines_run w dbIndex cmdLine : let lines := aof_batch dbIndex (currentDB (persister w)) cmdLine in
  write_lines dbIndex cmdLine w = (Ret (Some lines),
    set_ticks (set_persister w (set_aofLines (set_currentDB (persister w) dbIndex) (aofLines (persister w) ++ lines))) (length lines + ticks w)).
Proof.
  intros lines. unfold write_lines. erewrite bind_Ret by reflexivity. cbv beta. unfold lines, aof_batch. destruct (dbIndex =? currentDB (persister w)) eqn:E.
  - apply Z.eqb_eq in E as ->. erewrite bind_Ret by reflexivity. cbv beta iota. rewrite (bind_Ret _ _ _ _ _ (io_run w)). destruct w as [? ? ? ? []]. reflexivity.
  - erewrite bind_Ret; [|cbv zeta; rewrite (bind_Ret _ _ _ _ _ (io_run w)); reflexivity]. cbv beta iota.
    match goal with |- context [mbind _ io ?x] => rewrite (bind_Ret _ _ _ _ _ (io_run x)) end.
    destruct w as [? ? ? ? []]. unfold mbind, gom_bind, mret, gom_ret, upd_persister, go_modify. cbn. by rewrite <-app_assoc.
Qed.

Lemma write_calls w l dbIndex cmdLine : let lines := aof_batch dbIndex (currentDB (persister w)) cmdLine in
  pausingAof (persister w) = false → listeners (persister w) = {[l]} →
  alone (writeAof dbIndex cmdLine) w = go_defer unlock_aof (alone (Callback lines l)) (noting w dbIndex lines).
Proof.
  intros lines Hp Hl. unfold writeAof. set (w1 := set_persister w (set_pausingAof (persister w) true)).
  assert (lock_aof w = (Ret tt, w1)) as E1 by (unfold lock_aof; by rewrite Hp). thread_step E1. rewrite alone_defer. unfold go_defer.
  thread_step (write_lines_run w1 dbIndex cmdLine). cbv iota. change (aof_batch _ _ _) with lines. match goal with |- context [alone _ ?x] => set (w2 := x) end.
  match goal with |- context [atomic ?m] => assert (m w2 = (Ret [l], noting w dbIndex lines)) as E2 end.
  { assert (slave_order (ticks w2) (elements (listeners (persister w))) = [l]) as El.
    { apply Permutation_singleton_r. rewrite order_perm, Hl. by rewrite elements_singleton. }
    erewrite bind_Ret by reflexivity. cbv beta. erewrite bind_Ret by reflexivity. unfold mret, gom_ret. do 2 f_equal. exact El. }
  thread_step E2. cbn [t_for]. rewrite alone_bind. unfold mbind, gom_bind. by destruct (alone (Callback lines l) _) as [[[]| |] ?].
Qed.

Lemma write_run w l b dbIndex cmdLine : let lines := aof_batch dbIndex (currentDB (persister w)) cmdLine in
  in_step w l b → currentOffset b + slen (lines_bytes lines) ≤ int64_max →
  ∃ w', alone (writeAof dbIndex cmdLine) w = (Ret tt, w') ∧ in_step w' l (extended b (lines_bytes lines)) ∧ advanced (lines_bytes lines) w w' ∧
    currentDB (persister w') = dbIndex ∧ jobs w' = jobs w.
Proof.
  intros lines Hi Hd. pose proof Hi as [I1 I2 I3 I4 I5 I6 I7 I8 I9 I10]. rewrite (write_calls w l) by done. fold lines. unfold go_defer.
  set (w2 := noting w dbIndex lines). assert (in_step_ true w2 l b) as Hi2 by by split.
  destruct (callback_run true w2 l b lines Hi2 Hd) as (w3 & E3 & Hi3 & Ha & Hp & Hj). rewrite E3.
  eexists. split; [reflexivity|]. split_and!.
  - destruct Hi3 as [? ? ? ? ? ? ? ? ? ?]. by split.
  - destruct Ha. by split.
  - cbn. by rewrite Hp.
  - cbn. by rewrite Hj.
Qed.

Lemma event_run w l b e : let lines := event_lines (currentDB (persister w)) e in
  in_step w l b → currentOffset b + slen (lines_bytes lines) ≤ int64_max →
  ∃ w', alone (event_thread e) w = (Ret tt, w') ∧ in_step w' l (extended b (lines_bytes lines)) ∧ advanced (lines_bytes lines) w w' ∧
    currentDB (persister w') = next_db (currentDB (persister w)) e ∧ (slen (buf b) + slen (lines_bytes lines) ≤ maxBacklogSize → jobs w' = jobs w).
Proof.
  destruct e; cbn zeta; [intros Hi Hd; destruct (write_run w l b dbIndex cmdLine Hi Hd) as (w' & ? & ? & ? & ? & ?); exists w'; by split_and!|]. cbn [event_lines event_thread next_db]. rewrite <-pingBytes_eq. apply cron_run.
Qed.

Definition run_events (es : list Event) : GoM World unit := go_for es (λ e, alone (event_thread e)).

Lemma events_run es w l b : let d := lines_bytes (stream (currentDB (persister w)) es) in
  in_step w l b → currentOffset b + slen d ≤ int64_max →
  ∃ w', run_events es w = (Ret tt, w') ∧ in_step w' l (extended b d) ∧ advanced d w w' ∧
    (slen (buf b) + slen d ≤ maxBacklogSize → jobs w' = jobs w).
Proof.
  revert w b. induction es as [|e es IH]; intros w b d Hi Hd.
  { exists w. split; [done|]. split; [|split; [split; try done; intros p s _ _; by rewrite string_app_nil_r|done]].
    replace (extended b d) with b; [done|]. unfold extended, d. cbn. rewrite string_app_nil_r, Z.add_0_r. by destruct b. }
  subst d. cbn [stream] in *. rewrite lines_bytes_app in *. rewrite slen_app in Hd. set (d1 := lines_bytes (event_lines _ e)) in *.
  match goal with H : currentOffset b + (_ + slen ?x) ≤ _ |- _ => set (d2 := x) in *; pose proof (slen_nonneg d2) end.
  destruct (event_run w l b e Hi) as (w1 & E1 & Hi1 & Ha1 & Hdb & Hj1); [fold d1; lia|]. fold d1 in Hj1. destruct (IH w1 (extended b d1) Hi1) as (w2 & E2 & Hi2 & Ha2 & Hj2).
  { rewrite Hdb. fold d2. unfold extended. cbn [currentOffset]. lia. }
  rewrite Hdb in Hi2, Ha2, Hj2. fold d2 in Hi2, Ha2, Hj2. exists w2. split; [|split; [|split]].
  - unfold run_events. cbn [go_for]. by rewrite (bind_Ret _ _ _ _ _ E1).
  - replace (extended b (d1 +:+ d2)) with (extended (extended b d1) d2); [done|]. unfold extended. cbn [buf beginOffset currentOffset].
    rewrite string_app_assoc, slen_app. f_equal. lia.
  - by eapply advanced_trans.
  - intros Hsz. rewrite slen_app in Hsz. rewrite Hj2, Hj1; [done|lia|]. unfold extended. cbn [buf]. rewrite slen_app. lia.
Qed.

(** ** Full synchronisation *)

Definition put_bytes (w : World) (c : nat) (d : string) : World := set_written w (<[c := default "" (written w !! c) +:+ d]> (written w)).

Lemma put_bytes_twice w c d e : put_bytes (put_bytes w c d) c e = put_bytes w c (d +:+ e).
Proof. unfold put_bytes. cbn. rewrite lookup_insert_eq, insert_insert_eq. cbn. by rewrite string_app_assoc. Qed.

Lemma write_to_run w p s d : slaveClients w !! p = Some s → conn s ∉ closed w → alone (write_to p d) w = (Ret None, put_bytes w (conn s) d).
Proof.
  intros Hs Hc. unfold write_to. rewrite alone_atomic. unfold get_slave. erewrite bind_Ret; [|erewrite bind_Ret by reflexivity; rewrite Hs; reflexivity].
  unfold conn_Write. by rewrite bool_decide_eq_false_2.
Qed.

(** What a slave gets first: the header, the RDB file and the backlog. *)
Definition resync_header (id : string) (begin : Z) : string := "+FULLRESYNC " +:+ id +:+ " " +:+ FormatInt begin +:+ CRLF.
Definition rdb_bytes (content : string) : string := "$" +:+ FormatInt (slen content) +:+ CRLF +:+ content.

Definition online_slave (w : World) (p : nat) (s : slaveClient) (current : Z) : World :=
  set_master (set_slaveClients w (<[p := mkSlave (conn s) slaveStateOnline current (lastAckTime s)]> (slaveClients w)))
    (set_onlineSlaves (master w) (onlineSlaves (master w) ∪ {[p]})).

Lemma full_resync_run w p s f content b : mu (master w) = false → slaveClients w !! p = Some s → conn s ∉ closed w →
  rdbFilename (master w) = Some f → files w !! f = Some content → backlogs w !! backlog (master w) = Some b →
  alone (masterFullReSyncWithSlave p) w = (Ret None, online_slave (put_bytes w (conn s)
    (resync_header (replId (master w)) (beginOffset b) +:+ rdb_bytes content +:+ buf b)) p s (currentOffset b)).
Proof.
  intros Hmu Hs Hc Hf Hfile Hb. unfold masterFullReSyncWithSlave.
  assert (∀ w', backlogs w' = backlogs w → master w' = master w → the_backlog w' = (Ret b, w')) as Hthe.
  { intros w' E1 E2. unfold the_backlog, get_backlog. erewrite bind_Ret by reflexivity. erewrite bind_Ret by reflexivity. by rewrite E1, E2, Hb. }
  match goal with |- context [alone (mbind ?k (atomic ?m)) w] => assert (m w = (Ret (resync_header (replId (master w)) (beginOffset b)), w)) as E1 end.
  { erewrite bind_Ret by reflexivity. cbv beta. by rewrite (bind_Ret _ _ _ _ _ (Hthe w eq_refl eq_refl)). }
  thread_step E1. rewrite (alone_step _ _ _ _ _ (write_to_run w p s _ Hs Hc)). cbv beta. cbn [failed_with]. set (w1 := put_bytes w (conn s) _).
  assert ((rdbFilename (master w1) ≫= λ f, files w1 !! f) = Some content) as Hopen by (cbn; by rewrite Hf).
  match goal with |- context [alone (mbind ?k (atomic ?m)) w1] => assert (m w1 = (Ret (Some content), w1)) as E2 by (unfold go_get; by rewrite Hopen) end.
  thread_step E2. set (s2 := mkSlave (conn s) slaveStateSendingRDB (offset s) (lastAckTime s)). set (w2 := set_slaveClients w1 (<[p := s2]> (slaveClients w1))).
  assert (set_slave_state p slaveStateSendingRDB w1 = (Ret tt, w2)) as E3.
  { unfold set_slave_state, get_slave. erewrite bind_Ret; [|erewrite bind_Ret by reflexivity; cbn; rewrite Hs; reflexivity]. reflexivity. }
  thread_step E3. match goal with |- context [alone (mbind ?k (atomic ?m)) w2] => assert (m w2 = (Ret content, w2)) as E4 end.
  { erewrite bind_Ret by reflexivity. cbn. rewrite Hf. cbn. by rewrite Hfile. }
  thread_step E4. assert (slaveClients w2 !! p = Some s2) as Hs2 by apply lookup_insert_eq.
  rewrite (alone_step _ _ _ _ _ (write_to_run w2 p s2 _ Hs2 Hc)). cbv beta. cbn [failed_with conn s2]. set (w3 := put_bytes w2 (conn s) _).
  rewrite (alone_step _ _ _ _ _ (write_to_run w3 p s2 content Hs2 Hc)). cbv beta. cbn [failed_with conn s2]. set (w4 := put_bytes w3 (conn s) _).
  unfold locked at 1. match goal with |- context [alone (mbind ?k (atomic ?m)) w4] => assert (m w4 = (Ret (buf b, currentOffset b), w4)) as E5 end.
  { cbn [master w4 w3 w2 w1 put_bytes set_written set_slaveClients]. rewrite Hmu. by rewrite (bind_Ret _ _ _ _ _ (Hthe w4 eq_refl eq_refl)). }
  thread_step E5. cbn [fst snd]. rewrite (alone_step _ _ _ _ _ (write_to_run w4 p s2 (buf b) Hs2 Hc)). cbv beta. cbn [failed_with conn s2]. set (w5 := put_bytes w4 (conn s) _).
  unfold setSlaveOnline, locked. match goal with |- context [alone (mbind ?k (atomic ?m)) w5] => assert (m w5 = (Ret tt, online_slave w5 p s2 (currentOffset b))) as E6 end.
  { cbn [master w5 w4 w3 w2 w1 put_bytes set_written set_slaveClients]. rewrite Hmu. unfold set_slave_state, set_slave_offset, get_slave.
    erewrite bind_Ret; [|erewrite bind_Ret; [|erewrite bind_Ret by reflexivity; rewrite (Hs2 : slaveClients w5 !! p = _); reflexivity]; reflexivity].
    erewrite bind_Ret; [|erewrite bind_Ret; [|erewrite bind_Ret by reflexivity; cbn; rewrite lookup_insert_eq; reflexivity]; reflexivity].
    unfold online_slave. cbn. unfold upd_master, go_modify. cbn. by rewrite !insert_insert_eq. }
  thread_step E6. cbn [alone]. f_equal. unfold online_slave. cbn [conn lastAckTime s2].
  assert (put_bytes w (conn s) (resync_header (replId (master w)) (beginOffset b) +:+ rdb_bytes content +:+ buf b) =
    set_slaveClients w5 (slaveClients w)) as ->.
  { unfold w5, w4, w3, w2, w1, rdb_bytes, put_bytes. cbn. rewrite !lookup_insert_eq. cbn. rewrite !insert_insert_eq, !string_app_assoc. by destruct w. }
  cbn. by rewrite insert_insert_eq.
Qed.

(** ** The first slave *)

(** A master that has had no slaves, with an append-only file that nobody listens to. *)
Record idle (w : World) (id : string) : Prop := {
  id_master : ∃ bp al, master w = mkMaster false id bp ∅ (Some ∅) ∅ bgSaveIdle None al false ∧ backlogs w !! bp = Some new_backlog;
  id_appendOnly : appendOnly (persister w) = true;
  id_free : pausingAof (persister w) = false;
  id_listeners : listeners (persister w) = ∅;
  id_jobs : jobs w = []
}.

(** [hook] changes the backlogs at most; it runs while the append-only file is paused. *)
Lemma generate_run w filename listener hook bls : appendOnly (persister w) = true → pausingAof (persister w) = false →
  (let paused := set_persister (set_ticks w (S (S (ticks w)))) (set_listeners (set_pausingAof (persister w) true) (listeners (persister w) ∪ {[listener]})) in
   alone (match hook with Some h => locked h | None => Done tt end) paused = (Ret tt, set_backlogs paused bls)) →
  ∃ t, alone (GenerateRDBForReplication filename listener hook) w = (Ret None,
    set_ticks (set_files (set_persister (set_backlogs w bls) (set_listeners (persister w) (listeners (persister w) ∪ {[listener]})))
      (<[filename := rdb_of (aofLines (persister w))]> (files w))) t).
Proof.
  intros Ha Hp Hhook. unfold GenerateRDBForReplication. erewrite alone_step; [|rewrite alone_atomic; reflexivity]. rewrite Ha. cbn [negb]. unfold startGenerateRDB.
  set (ps := persister w) in *. set (w1 := set_persister w (set_pausingAof ps true)). assert (lock_aof w = (Ret tt, w1)) as E1 by (unfold lock_aof; fold ps; by rewrite Hp).
  set (w3 := set_persister (set_ticks (set_backlogs w bls) (S (S (ticks w)))) (set_listeners ps (listeners ps ∪ {[listener]}))).
  match goal with |- context [alone (mbind ?k ?t) w] => assert (alone t w = (Ret (inr (length (aofLines ps))), w3)) as E2 end.
  { thread_step E1. rewrite alone_defer. unfold go_defer. erewrite (alone_step (atomic io)); [|rewrite alone_atomic; apply io_run]. cbv iota.
    erewrite alone_step; [|rewrite alone_atomic; reflexivity]. erewrite (alone_step (atomic io)); [|rewrite alone_atomic; apply io_run]. cbv iota.
    erewrite alone_step; [|rewrite alone_atomic; reflexivity]. rewrite (alone_step _ _ _ _ _ Hhook). cbn. do 2 f_equal. unfold w3, set_persister, set_ticks. cbn. f_equal.
    unfold ps in *. destruct (persister w); cbn in *. by rewrite Hp. }
  rewrite (alone_step _ _ _ _ _ E2). cbv beta iota. erewrite (alone_step (atomic io)); [|rewrite alone_atomic; apply io_run]. cbv iota.
  erewrite alone_step; [|rewrite alone_atomic; reflexivity]. cbn [alone]. eexists (S (S (S (ticks w)))). f_equal. cbn. rewrite take_ge by done. done.
Qed.

Lemma first_psync w id c sid off z : idle w id → ParseInt off = inr z → c ∉ closed w →
  ∃ w' l, (_ ← alone (execPSync c [Some sid; Some off]); run_job) w = (Ret tt, w') ∧ in_step w' l new_backlog ∧
    (∃ p s, onlineSlaves (master w') = {[p]} ∧ slaveClients w' !! p = Some s ∧ conn s = c) ∧
    written w' = <[c := default "" (written w !! c) +:+ resync_header id 0 +:+ rdb_bytes (rdb_of (aofLines (persister w)))]> (written w) ∧
    currentDB (persister w') = currentDB (persister w) ∧ closed w' = closed w ∧ jobs w' = [].
Proof.
  intros [(bp & al & Hm & Hb) Ha Hp Hl Hj] Hz Hc. destruct w as [m bls scs als ps fs wr cl scn js p tk]. cbn in Hm, Hb, Ha, Hp, Hl, Hj, Hc. subst m js.
  set (s := mkSlave c slaveStateWaitSaveEnd 0 0).
  set (w1 := mkWorld (mkMaster false id bp {[c := p]} (Some (∅ ∪ {[p]})) ∅ bgSaveIdle None al false) bls (<[p := s]> scs) als ps fs wr cl (scn ∪ {[c]}) [BgSave] (S p) tk).
  assert (alone (execPSync c [Some sid; Some off]) (mkWorld (mkMaster false id bp ∅ (Some ∅) ∅ bgSaveIdle None al false) bls scs als ps fs wr cl scn [] p tk) = (Ret NoReply, w1)) as E1.
  { unfold execPSync. do 2 (erewrite alone_step; [|rewrite alone_atomic; reflexivity]). cbv beta. change (str (Some off)) with off. rewrite Hz. unfold locked. rewrite alone_atomic. cbn [mu master].
    erewrite bind_Ret by reflexivity. cbv beta. cbn [slaveMap master]. rewrite lookup_empty. erewrite bind_Ret by reflexivity. erewrite bind_Ret by reflexivity. cbv beta.
    match goal with |- context [mbind _ _ ?w0] => set (w0' := w0) end.
    assert (set_slave_state p slaveStateWaitSaveEnd w0' = (Ret tt, set_slaveClients w0' (<[p := s]> scs))) as E0.
    { unfold set_slave_state, get_slave. erewrite bind_Ret; [|erewrite bind_Ret by reflexivity; cbn [slaveClients w0' set_master set_slaveConns set_slaveClients]; rewrite lookup_insert_eq; reflexivity].
      unfold put_slave, go_modify. cbn [slaveClients w0' set_master set_slaveConns set_slaveClients conn offset lastAckTime]. by rewrite insert_insert_eq. }
    match goal with |- mbind ?k ?m w0' = _ => assert (m w0' = (Ret tt, w1)) as E0' end.
    { change (bgSaveState (master w0')) with bgSaveIdle. change (bgSaveIdle =? bgSaveIdle) with true. cbv iota. cbn [fresh]. rewrite (bind_Ret _ _ _ _ _ E0). reflexivity. }
    by rewrite (bind_Ret _ _ _ _ _ E0'). }
  erewrite bind_Ret by exact E1. unfold run_job, w1. cbn [jobs job_thread]. rewrite alone_recover. unfold saveForReplication.
  match goal with |- context [alone _ ?w0] => set (w2 := w0) end.
  set (w3 := set_files (set_fresh (set_ticks w2 (S tk)) (S (S p))) (<[S p := ""]> fs)).
  assert (TempFile w2 = (Ret (inr (S p)), w3)) as E2 by (unfold TempFile; by rewrite (bind_Ret _ _ _ _ _ (io_run w2))).
  match goal with |- context [alone (mbind ?k ?t) w2] => assert (∃ w', alone t w2 = (Ret None, w') ∧ in_step w' (S (S p)) new_backlog ∧
    (∃ p s, onlineSlaves (master w') = {[p]} ∧ slaveClients w' !! p = Some s ∧ conn s = c) ∧
    written w' = <[c := default "" (wr !! c) +:+ resync_header id 0 +:+ rdb_bytes (rdb_of (aofLines ps))]> wr ∧
    currentDB (persister w') = currentDB ps ∧ closed w' = cl ∧ jobs w' = []) as (w' & E3 & Hw') end.
  2: { exists w', (S (S p)). split; [|exact Hw']. by rewrite (alone_step _ _ _ _ _ E3). }
  thread_step E2. cbv iota.
  set (w4 := mkWorld (mkMaster false id bp {[c := p]} (Some (∅ ∪ {[p]})) ∅ bgSaveRunning (Some (S p)) (Some (S (S p))) false) bls (<[p := s]> scs)
    (<[S (S p) := mkListener bp false]> als) ps (<[S p := ""]> fs) wr cl (scn ∪ {[c]}) [] (S (S (S p))) (S tk)).
  match goal with |- context [alone (mbind ?k (locked ?m)) w3] => assert (m w3 = (Ret (S (S p)), w4)) as E4 by reflexivity end.
  rewrite (alone_step (locked _) _ _ _ _ (eq_trans (alone_locked _ w3 eq_refl) E4)). cbv beta.
  destruct (generate_run w4 (S p) (S (S p)) None bls Ha Hp eq_refl) as (t & E5). rewrite (alone_step _ _ _ _ _ E5). cbv beta iota. cbn [w4 persister files] in *.
  match goal with |- context [alone _ ?w0] => set (w5 := w0) end.
  set (w6 := set_aofListeners w5 (<[S (S p) := mkListener bp true]> als)).
  match goal with |- context [alone (mbind ?k (atomic ?m)) w5] => assert (m w5 = (Ret tt, w6)) as E6 end.
  { unfold get_listener. erewrite bind_Ret; [|erewrite bind_Ret by reflexivity; change (aofListeners w5) with (<[S (S p) := mkListener bp false]> als); rewrite lookup_insert_eq; reflexivity].
    unfold put_listener, go_modify. change (aofListeners w5) with (<[S (S p) := mkListener bp false]> als). cbn [lbacklog]. by rewrite insert_insert_eq. }
  thread_step E6.
  set (w7 := mkWorld (mkMaster false id bp {[c := p]} None ∅ bgSaveFinish (Some (S p)) (Some (S (S p))) false) bls (<[p := s]> scs)
    (<[S (S p) := mkListener bp true]> als) (persister w6) (files w6) wr cl (scn ∪ {[c]}) [] (S (S (S p))) (S t)).
  match goal with |- context [alone (mbind ?k (locked ?m)) w6] => assert (m w6 = (Ret [p], w7)) as E7 end.
  { assert (slave_order t (elements (default ∅ (Some (∅ ∪ {[p]} : gset nat)))) = [p]) as El.
    { apply Permutation_singleton_r. rewrite order_perm. change (default ∅ _) with (∅ ∪ {[p]} : gset nat). by rewrite (left_id_L ∅ (∪)), elements_singleton. }
    transitivity (Ret (slave_order t (elements (default ∅ (Some (∅ ∪ {[p]} : gset nat))))), w7); [reflexivity|by rewrite El]. }
  rewrite (alone_step (locked _) _ _ _ _ (eq_trans (alone_locked _ w6 eq_refl) E7)). cbv beta. cbn [t_for]. assert (slaveClients w7 !! p = Some s) as Hs7 by apply lookup_insert_eq.
  pose proof (full_resync_run w7 p s (S p) (rdb_of (aofLines ps)) new_backlog eq_refl Hs7 Hc eq_refl (lookup_insert_eq _ _ _) Hb) as E8.
  set (w8 := online_slave _ _ _ _) in E8.
  match goal with |- context [alone (mbind ?k ?t) w7] => assert (alone t w7 = (Ret tt, w8)) as E9 end.
  { rewrite alone_bind. erewrite bind_Ret; [reflexivity|]. by rewrite (alone_step _ _ _ _ _ E8). }
  rewrite (alone_step _ _ _ _ _ E9). exists w8. split; [done|].
  assert (onlineSlaves (master w8) = {[p]}) as Hon by (cbn; apply (left_id_L ∅ (∪))).
  assert (slaveClients w8 !! p = Some (mkSlave c slaveStateOnline 0 0)) as Hs8 by apply lookup_insert_eq.
  split_and!; [|by eexists p, _| |done|done|done].
  - split; try done.
    + cbn. rewrite Hl. apply (left_id_L ∅ (∪)).
    + apply lookup_insert_eq.
    + rewrite Hon. intros q ->%elem_of_singleton. by eexists.
    + rewrite Hon, elements_singleton. by intros q r t1 t2 ->%list_elem_of_singleton ->%list_elem_of_singleton.
  - cbn. by rewrite string_app_nil_r.
Qed.

(** ** A second RDB file *)

(** A master with a backlog that starts at [begin] but counts from 0. *)
Record miscounted (w : World) (l : nat) (data : string) (begin at_ : Z) : Prop := {
  mi_mu : mu (master w) = false;
  mi_aof : pausingAof (persister w) = false;
  mi_backlog : backlogs w !! backlog (master w) = Some (mkBacklog data begin (slen data));
  mi_listeners : listeners (persister w) = {[l]};
  mi_listener : aofListeners w !! l = Some (mkListener (backlog (master w)) true);
  mi_slaves : ∀ p, p ∈ onlineSlaves (master w) → reachable w at_ p;
  mi_conns : own_conns w (elements (onlineSlaves (master w)))
}.

(** Pointers that are in use are not handed out again. *)
Definition allocated (w : World) : Prop :=
  (backlog (master w) < fresh w)%nat ∧ ∀ l, l ∈ listeners (persister w) → (l < fresh w)%nat.

Lemma rewrite_run w l b : in_step w l b → appendOnly (persister w) = true → allocated w → aofListener (master w) = Some l →
  ∃ w1 l1, alone rewriteRDB w = (Ret None, w1) ∧ miscounted w1 l1 "" (currentOffset b) (currentOffset b) ∧
    onlineSlaves (master w1) = onlineSlaves (master w) ∧ currentDB (persister w1) = currentDB (persister w).
Proof.
  intros [I1 I2 I3 I4 I5 I6 I7 I8 I9 I10] Ha [Hal1 Hal2] Hl. destruct w as [m bls scs als ps fs wr cl scn js p tk].
  cbn in I1, I2, I3, I4, I5, I7, I8, I9, I10, Ha, Hal1, Hal2, Hl. unfold rewriteRDB.
  set (w0 := mkWorld m bls scs als ps fs wr cl scn js p tk). set (fs1 := <[p := ""]> fs). set (w1 := mkWorld m bls scs als ps fs1 wr cl scn js (S p) (S tk)).
  assert (TempFile w0 = (Ret (inr p), w1)) as E1 by (unfold TempFile; by rewrite (bind_Ret _ _ _ _ _ (io_run w0))). thread_step E1. cbv iota.
  set (np := S p). set (nl := S (S p)). set (als1 := <[nl := mkListener np false]> als).
  set (w2 := mkWorld m (<[np := new_backlog]> bls) scs als1 ps fs1 wr cl scn js (S nl) (S tk)).
  match goal with |- context [alone (mbind ?k (atomic ?x)) w1] => assert (x w1 = (Ret (np, nl), w2)) as E2 by reflexivity end. thread_step E2. cbv iota zeta.
  set (bls2 := <[np := mkBacklog "" (currentOffset b) 0]> bls). assert (backlog m ≠ np ∧ l ≠ nl) as [Hb1 Hl1].
  { split; [lia|]. specialize (Hal2 l). rewrite I7 in Hal2. specialize (Hal2 ltac:(set_solver)). lia. }
  match goal with |- context [GenerateRDBForReplication _ _ ?h] => destruct (generate_run w2 p nl h bls2 Ha I2) as (t & E3) end.
  { cbn zeta. rewrite alone_locked by exact I1. unfold the_backlog, get_backlog.
    erewrite bind_Ret; [|erewrite bind_Ret by reflexivity; erewrite bind_Ret by reflexivity; cbn; rewrite lookup_insert_ne, I5 by done; reflexivity].
    erewrite bind_Ret; [|erewrite bind_Ret by reflexivity; cbn; rewrite lookup_insert_eq; reflexivity]. unfold put_backlog, go_modify. cbn. unfold bls2. by rewrite insert_insert_eq. }
  rewrite (alone_step _ _ _ _ _ E3). cbv beta iota. match goal with |- context [alone _ ?x] => set (w3 := x) end.
  erewrite alone_step; [|rewrite alone_atomic; unfold lock_mu; rewrite (I1 : mu (master w3) = false); reflexivity]. cbv beta.
  erewrite alone_step; [|rewrite alone_atomic; reflexivity]. erewrite alone_step; [|rewrite alone_atomic; reflexivity]. cbv beta.
  unfold RemoveListener. match goal with |- context [alone _ ?x] => set (w4 := x) end.
  match goal with |- context [alone (mbind ?k ?x) w4] => assert (alone x w4 = (Ret tt,
    set_persister w4 (set_pausingAof (set_listeners (persister w4) (listeners (persister w4) ∖ {[l]})) false))) as E5 end.
  { erewrite alone_step; [|rewrite alone_atomic; unfold lock_aof; rewrite (I2 : pausingAof (persister w4) = false); reflexivity]. cbv beta.
    rewrite alone_atomic. cbn. rewrite Hl. reflexivity. }
  rewrite (alone_step _ _ _ _ _ E5). cbv beta. do 2 (erewrite alone_step; [|rewrite alone_atomic; reflexivity]; cbv beta).
  match goal with |- context [alone (mbind ?k (atomic ?x)) ?y] => set (w5 := y); assert (x w5 = (Ret tt, set_aofListeners w5 (<[nl := mkListener np true]> als))) as E6 end.
  { unfold get_listener. erewrite bind_Ret; [|erewrite bind_Ret by reflexivity; change (aofListeners w5) with als1; unfold als1; rewrite lookup_insert_eq; reflexivity].
    unfold put_listener, go_modify. change (aofListeners w5) with als1. unfold als1. cbn [lbacklog]. by rewrite insert_insert_eq. }
  thread_step E6. cbn [alone]. eexists _, nl. split; [reflexivity|]. split_and!; [|done|done]. split; try done.
  - cbn. unfold bls2. apply lookup_insert_eq.
  - cbn. rewrite I7. set_solver.
  - cbn. apply lookup_insert_eq.
Qed.

(** A position before the start of the backlog makes the slice expression panic. *)
Lemma send_panics w data begin current at_ : mu (master w) = false → backlogs w !! backlog (master w) = Some (mkBacklog data begin current) →
  onlineSlaves (master w) ≠ ∅ → (∀ p, p ∈ onlineSlaves (master w) → reachable w at_ p) → 0 ≤ at_ < begin → begin ≤ int64_max →
  ∃ w', alone masterSendUpdatesToSlave w = (Panic "slice bounds out of range", w').
Proof.
  intros Hmu Hb Hne Hr Hat Hmax. unfold masterSendUpdatesToSlave, locked. set (l := elements (onlineSlaves (master w))) in *.
  set (w1 := set_ticks w (S (ticks w))). set (order := slave_order (ticks w) l). assert (order ≡ₚ l) as Hperm by apply order_perm.
  match goal with |- context [atomic ?m] => assert (m w = (Ret (begin, (data, current), order), w1)) as E1 end.
  { rewrite Hmu. unfold the_backlog, get_backlog. erewrite bind_Ret by (erewrite bind_Ret by reflexivity; erewrite bind_Ret by reflexivity; rewrite Hb; reflexivity). reflexivity. }
  thread_step E1. cbv iota. destruct order as [|p order'].
  { exfalso. apply Permutation_nil_l in Hperm. unfold l in Hperm. symmetry in Hperm. apply elements_empty_inv in Hperm. by apply Hne, leibniz_equiv. }
  assert (p ∈ onlineSlaves (master w)) as Hp by (apply elem_of_elements; fold l; rewrite <-Hperm; apply elem_of_cons; auto).
  destruct (Hr p Hp) as (s & Hs & Ho & Hc). exists w1. cbn [t_for]. apply alone_panics. unfold send_updates.
  assert (get_slave p w1 = (Ret s, w1)) as Hget by (unfold get_slave; erewrite bind_Ret by reflexivity; cbn; by rewrite Hs).
  assert ((s ← get_slave p; mret (offset s)) w1 = (Ret at_, w1)) as E2 by (by rewrite (bind_Ret _ _ _ _ _ Hget), Ho). thread_step E2.
  apply alone_panics. rewrite alone_atomic, (bind_Ret _ _ _ _ _ Hget). apply bind_Panic. unfold go_lift, slice_from.
  rewrite int64_id by (unfold is_int64, int64_min, int64_max in *; lia). by rewrite (proj2 (Z.ltb_lt _ _)) by lia.
Qed.


Lemma miscounted_write w l begin dbIndex cmdLine : let d := lines_bytes (aof_batch dbIndex (currentDB (persister w)) cmdLine) in
  miscounted w l "" begin begin → 0 ≤ begin ≤ int64_max → slen d ≤ int64_max →
  ∃ w', alone (writeAof dbIndex cmdLine) w = (Ret tt, w') ∧ miscounted w' l d begin (slen d) ∧ onlineSlaves (master w') = onlineSlaves (master w) ∧
    currentDB (persister w') = dbIndex.
Proof.
  intros d [M1 M2 M3 M4 M5 M6 M7] Hb Hd. rewrite (write_calls w l) by done. set (lines := aof_batch _ _ _) in *. unfold go_defer. set (w1 := noting w dbIndex lines).
  rewrite (callback_sends w1 l (mkBacklog "" begin 0) lines true), append_lines_run by done. set (w2 := set_backlogs w1 _). fold d in w2.
  destruct (send_run w2 "" d begin (slen d)) as (w3 & E3 & [S1 S2 S3 S4]); [done|apply lookup_insert_eq|lia|change (slen "") with 0; lia| |done|].
  { intros p Hp. change (slen "") with 0. rewrite Z.add_0_r. destruct (M6 p Hp) as (s & Hs). by exists s. }
  rewrite E3. eexists. split; [reflexivity|]. assert (master w3 = master w) as Em by by rewrite S1.
  split_and!; [|cbn; by rewrite Em|cbn; by rewrite S1]. split; cbn; rewrite ?Em; try done.
  - rewrite S1. cbn. apply lookup_insert_eq.
  - rewrite S1. done.
  - rewrite S1. done.
  - intros p Hp. destruct (M6 p Hp) as (s & Hs & Ho & Hc). exists (at_offset (slen d) s). split_and!; [|done|rewrite S1; done].
    cbn. rewrite S2, bool_decide_eq_true_2 by (by apply elem_of_elements). change (slaveClients (set_ticks w2 _)) with (slaveClients w). by rewrite Hs.
  - intros p q s t Hp Hq. cbn. rewrite !S2, !bool_decide_eq_true_2 by done. change (slaveClients (set_ticks w2 _)) with (slaveClients w).
    destruct (slaveClients w !! p) as [s0|] eqn:E1; [|done]. destruct (slaveClients w !! q) as [t0|] eqn:E2; [|done].
    intros [= <-] [= <-]. by apply (M7 p q s0 t0).
Qed.

(** A second RDB file breaks replication: when the backlog has grown too long the master
    makes a new RDB file and a new backlog, whose start is set to the current offset but whose
    current offset is left at 0.  The next line is still sent, and puts every online slave at a
    position before the start of the backlog; the line after that makes the slice expression
    in the goroutine that writes the append-only file panic. *)
Theorem second_rdb_breaks_updates (w : World) (l : nat) (b : replBacklog) (d1 d2 : Z) (line1 line2 : CmdLine) :
  let bytes1 := lines_bytes (aof_batch d1 (currentDB (persister w)) line1) in
  let bytes2 := lines_bytes (aof_batch d2 d1 line2) in
  in_step w l b → appendOnly (persister w) = true → allocated w → aofListener (master w) = Some l → onlineSlaves (master w) ≠ ∅ →
  slen bytes1 < currentOffset b → slen bytes1 + slen bytes2 ≤ int64_max →
  ∃ w1 w2 w3, alone rewriteRDB w = (Ret None, w1) ∧ alone (writeAof d1 line1) w1 = (Ret tt, w2) ∧
    alone (writeAof d2 line2) w2 = (Panic "slice bounds out of range", w3).
Proof.
  intros bytes1 bytes2 Hi Ha Hal Hl Hne Hlt Hmax. pose proof (is_ok _ _ _ _ Hi) as Hok. pose proof (backlog_ok_pos _ Hok) as Hpos. destruct Hok as (_ & _ & Hbm).
  pose proof (slen_nonneg bytes1). pose proof (slen_nonneg bytes2).
  destruct (rewrite_run w l b Hi Ha Hal Hl) as (w1 & l1 & E1 & Hm1 & Hon1 & Hdb1).
  destruct (miscounted_write w1 l1 (currentOffset b) d1 line1 Hm1) as (w2 & E2 & Hm2 & Hon2 & Hdb2); [lia|rewrite Hdb1; fold bytes1; lia|].
  rewrite Hdb1 in Hm2. fold bytes1 in Hm2.
  destruct Hm2 as [M1 M2 M3 M4 M5 M6 M7].
  assert (∃ w3, alone (writeAof d2 line2) w2 = (Panic "slice bounds out of range", w3)) as [w3 E3].
  { rewrite (write_calls w2 l1), Hdb2 by done. unfold go_defer. set (w4 := noting w2 d2 _).
    rewrite (callback_sends w4 l1 (mkBacklog bytes1 (currentOffset b) (slen bytes1)) _ true), append_lines_run by (done || cbn [currentOffset]; fold bytes2; lia).
    fold bytes2. set (w5 := set_backlogs w4 _).
    destruct (send_panics w5 (bytes1 +:+ bytes2) (currentOffset b) (slen bytes1 + slen bytes2) (slen bytes1)) as (w6 & E6); [done|apply lookup_insert_eq| | |lia|lia|].
    - change (onlineSlaves (master w5)) with (onlineSlaves (master w2)). by rewrite Hon2, Hon1.
    - intros p Hp. destruct (M6 p Hp) as (s & Hs). by exists s.
    - rewrite E6. by eexists. }
  by exists w1, w2, w3.
Qed.
End laws.

(** A disk that works and an RDB file for every append-only file. *)
Definition demo_disk : Disk := {| disk_error := λ _, None; rdb_of := λ _, "REDIS0003"; slave_order := λ _ l, l |}.

#[local] Existing Instance demo_env.
#[local] Existing Instance demo_disk.

Definition demo_set : CmdLine := ToCmdLine ["set"; "a"; "1"].

(** A master with one slave, to which two lines were sent. *)
Definition demo_backlog : replBacklog := mkBacklog (lines_bytes [demo_set; demo_set]) 0 (slen (lines_bytes [demo_set; demo_set])).

Definition demo_master : World :=
  mkWorld (mkMaster false "id" 0 {[7%nat := 1%nat]} None {[1%nat]} bgSaveFinish (Some 2%nat) (Some 3%nat) false)
    {[0%nat := demo_backlog]} {[1%nat := mkSlave 7 slaveStateOnline (currentOffset demo_backlog) 0]} {[3%nat := mkListener 0 true]}
    (mkPersister true false 0 [demo_set; demo_set] {[3%nat]}) {[2%nat := "REDIS0003"]} ∅ ∅ {[7%nat]} [] 4 0.

Lemma demo_master_in_step : in_step demo_master 3 demo_backlog.
Proof.
  split; try done.
  - change (onlineSlaves _) with ({[1%nat]} : gset nat). intros p ->%elem_of_singleton. eexists. split; [done|]. by split.
  - intros p q s t. change (onlineSlaves _) with ({[1%nat]} : gset nat). rewrite elements_singleton. by intros ->%list_elem_of_singleton ->%list_elem_of_singleton.
Qed.

Lemma second_rdb_breaks_updates_witness : ∃ w1 w2 w3, alone rewriteRDB demo_master = (Ret None, w1) ∧
  alone (writeAof 0 demo_set) w1 = (Ret tt, w2) ∧ alone (writeAof 1 demo_set) w2 = (Panic "slice bounds out of range", w3).
Proof.
  apply second_rdb_breaks_updates with (l := 3%nat) (b := demo_backlog); try done; [apply demo_master_in_step|].
  split; [by apply Nat.ltb_lt|]. change (listeners _) with ({[3%nat]} : gset nat). by intros l ->%elem_of_singleton; apply Nat.ltb_lt.
Defined.

(** The goroutine that makes a second RDB file keeps the mutex of the master while it waits for
    the append-only file, and the one that writes the file waits for that mutex with the file
    paused: in this order of their steps both wait for ever. *)
Lemma rewrite_deadlocks : ∃ sch ts w', schedule sch [job_thread RewriteRDB; writeAof 0 demo_set] demo_master = (Ret ts, w') ∧
  deadlocked ts w' = true ∧ ∀ sch', schedule sch' ts w' = (Ret ts, w').
Proof.
  set (sch := replicate 14 0%nat ++ replicate 3 1%nat ++ replicate 2 0%nat). set (ts0 := [_; _]).
  assert (match schedule sch ts0 demo_master with (Ret ts, w') => deadlocked ts w' | _ => false end = true) as Hd by (vm_compute; reflexivity).
  destruct (schedule sch ts0 demo_master) as [[ts|msg|] w'] eqn:Hs; [|done..]. exists sch, ts, w'. split_and!; [done..|].
  intros sch'. by apply deadlocked_stays.
Qed.
