(* ===== verification/ReplSlave.v ===== *)
(** * database/replication_slave.go: the slave side of replication

    A slave connects to its master, shakes hands, loads the RDB file of a full
    synchronisation and then executes the lines it receives.  As in Repl.v every
    function is a [Thread].  The mutex of the status is modelled with the steps that wait
    while they hold it; [running] is the counter of the wait group.

    A connection is a number with the payloads that [parser.ParseStream] has put on its
    channel and the bytes that were sent; the channel is closed with the connection. *)

From Stdlib Require Import ZArith Lia Ascii String.
From stdpp Require Import base gmap strings numbers list.
From S2P Require Import Prelude GoStd Protocol Parser DB StringCmds Threads.

Local Open Scope string_scope.
Local Open Scope list_scope.
Local Open Scope Z_scope.
Local Open Scope go_scope.

Module ReplSlave.

Definition masterRole : Z := 0.
Definition slaveRole : Z := 1.

(** [ctx] and [cancel] are one number: the context that [cancel] ends. *)
Record slaveStatus := mkStatus {
  mutex : bool;
  cancel : option nat;
  configVersion : Z;
  masterHost : string;
  masterPort : Z;
  masterConn : option nat;
  masterChan : option nat;
  replId : string;
  replOffset : Z;
  lastRecvTime : Z;
  running : nat
}.

Definition initReplSlaveStatus : slaveStatus := mkStatus false None 0 "" 0 None None "" 0 0 0.

(** config.Properties. *)
Record Properties := mkProps {
  MasterAuth : string;
  SlaveAnnouncePort : Z;
  Port : Z;
  SlaveAnnounceIP : string;
  ReplTimeout : Z;
  AppendOnly : bool
}.

(** What the slave uses of the network and of the server it belongs to: dialling, the
    execution of a line on the connection to the master, the making of a temporary append-only file
    with a persister, the decoding of an RDB file into databases (with the loader that
    [makeRdbLoader] makes for it), their installation, and the change to the append-only file written
    while loading. *)
Class Host (E : Type) := {
  Dial : nat → string → option string;
  select_done : nat → bool;
  eng_Exec : option nat → CmdLine → GoM E Reply;
  rdb : Type;
  new_aof_error : nat → option string;
  LoadRDB : bytes → string + rdb;
  install : rdb → GoM E unit;
  use_new_aof : rdb → GoM E (option string)
}.

Section slave.
Context `{Env} {E : Type} `{Host E} (props : Properties).

(** [jobs]: calls of [go server.setupMaster()] that have not started. *)
Record World := mkWorld {
  status : slaveStatus;
  role : Z;
  engine : E;
  incoming : gmap nat (list Payload);
  sent : gmap nat string;
  closed : gset nat;
  cancelled : gset nat;
  jobs : nat;
  fresh : nat;
  ticks : nat
}.

Definition set_mutex (s : slaveStatus) (x : bool) : slaveStatus := mkStatus x (cancel s) (configVersion s) (masterHost s) (masterPort s) (masterConn s) (masterChan s) (replId s) (replOffset s) (lastRecvTime s) (running s).
Definition set_cancel (s : slaveStatus) (x : option nat) : slaveStatus := mkStatus (mutex s) x (configVersion s) (masterHost s) (masterPort s) (masterConn s) (masterChan s) (replId s) (replOffset s) (lastRecvTime s) (running s).
Definition set_configVersion (s : slaveStatus) (x : Z) : slaveStatus := mkStatus (mutex s) (cancel s) x (masterHost s) (masterPort s) (masterConn s) (masterChan s) (replId s) (replOffset s) (lastRecvTime s) (running s).
Definition set_masterHost (s : slaveStatus) (x : string) : slaveStatus := mkStatus (mutex s) (cancel s) (configVersion s) x (masterPort s) (masterConn s) (masterChan s) (replId s) (replOffset s) (lastRecvTime s) (running s).
Definition set_masterPort (s : slaveStatus) (x : Z) : slaveStatus := mkStatus (mutex s) (cancel s) (configVersion s) (masterHost s) x (masterConn s) (masterChan s) (replId s) (replOffset s) (lastRecvTime s) (running s).
Definition set_masterConn (s : slaveStatus) (x : option nat) : slaveStatus := mkStatus (mutex s) (cancel s) (configVersion s) (masterHost s) (masterPort s) x (masterChan s) (replId s) (replOffset s) (lastRecvTime s) (running s).
Definition set_masterChan (s : slaveStatus) (x : option nat) : slaveStatus := mkStatus (mutex s) (cancel s) (configVersion s) (masterHost s) (masterPort s) (masterConn s) x (replId s) (replOffset s) (lastRecvTime s) (running s).
Definition set_replId (s : slaveStatus) (x : string) : slaveStatus := mkStatus (mutex s) (cancel s) (configVersion s) (masterHost s) (masterPort s) (masterConn s) (masterChan s) x (replOffset s) (lastRecvTime s) (running s).
Definition set_replOffset (s : slaveStatus) (x : Z) : slaveStatus := mkStatus (mutex s) (cancel s) (configVersion s) (masterHost s) (masterPort s) (masterConn s) (masterChan s) (replId s) x (lastRecvTime s) (running s).
Definition set_lastRecvTime (s : slaveStatus) (x : Z) : slaveStatus := mkStatus (mutex s) (cancel s) (configVersion s) (masterHost s) (masterPort s) (masterConn s) (masterChan s) (replId s) (replOffset s) x (running s).
Definition set_running (s : slaveStatus) (x : nat) : slaveStatus := mkStatus (mutex s) (cancel s) (configVersion s) (masterHost s) (masterPort s) (masterConn s) (masterChan s) (replId s) (replOffset s) (lastRecvTime s) x.

Definition set_status (w : World) (x : slaveStatus) : World := mkWorld x (role w) (engine w) (incoming w) (sent w) (closed w) (cancelled w) (jobs w) (fresh w) (ticks w).
Definition set_role (w : World) (x : Z) : World := mkWorld (status w) x (engine w) (incoming w) (sent w) (closed w) (cancelled w) (jobs w) (fresh w) (ticks w).
Definition set_engine (w : World) (x : E) : World := mkWorld (status w) (role w) x (incoming w) (sent w) (closed w) (cancelled w) (jobs w) (fresh w) (ticks w).
Definition set_incoming (w : World) (x : gmap nat (list Payload)) : World := mkWorld (status w) (role w) (engine w) x (sent w) (closed w) (cancelled w) (jobs w) (fresh w) (ticks w).
Definition set_sent (w : World) (x : gmap nat string) : World := mkWorld (status w) (role w) (engine w) (incoming w) x (closed w) (cancelled w) (jobs w) (fresh w) (ticks w).
Definition set_closed (w : World) (x : gset nat) : World := mkWorld (status w) (role w) (engine w) (incoming w) (sent w) x (cancelled w) (jobs w) (fresh w) (ticks w).
Definition set_cancelled (w : World) (x : gset nat) : World := mkWorld (status w) (role w) (engine w) (incoming w) (sent w) (closed w) x (jobs w) (fresh w) (ticks w).
Definition set_jobs (w : World) (x : nat) : World := mkWorld (status w) (role w) (engine w) (incoming w) (sent w) (closed w) (cancelled w) x (fresh w) (ticks w).
Definition set_fresh (w : World) (x : nat) : World := mkWorld (status w) (role w) (engine w) (incoming w) (sent w) (closed w) (cancelled w) (jobs w) x (ticks w).
Definition set_ticks (w : World) (x : nat) : World := mkWorld (status w) (role w) (engine w) (incoming w) (sent w) (closed w) (cancelled w) (jobs w) (fresh w) x.

Abbreviation M := (GoM World).
Abbreviation T := (Thread World).

Definition upd_status (f : slaveStatus → slaveStatus) : M unit := go_modify (λ w, set_status w (f (status w))).
Definition new_pointer : M nat := λ w, (Ret (fresh w), set_fresh w (S (fresh w))).
Definition tick : M nat := λ w, (Ret (ticks w), set_ticks w (S (ticks w))).

Definition nil_deref {A} : M A := go_panic "invalid memory address or nil pointer dereference".
Definition deref {A} (o : option A) : M A := match o with Some a => mret a | None => nil_deref end.

Definition wait_for_ever {A} : M A := λ w, (Block, w).

Definition Lock : M unit := λ w, if mutex (status w) then (Block, w) else upd_status (λ s, set_mutex s true) w.
Definition Unlock : M unit := λ w,
  if mutex (status w) then upd_status (λ s, set_mutex s false) w else (Panic "sync: unlock of unlocked mutex", w).

(** [conn.Write(b)]. *)
Definition conn_Write (c : nat) (b : string) : M (option string) := λ w,
  if bool_decide (c ∈ closed w) then (Ret (Some "use of closed network connection"), w)
  else (Ret None, set_sent w (<[c := default "" (sent w !! c) +:+ b]> (sent w))).

(** [<-ch]: waits while the channel is empty; a closed channel gives nil. *)
Definition recv (c : nat) : M (option Payload) := λ w,
  match default [] (incoming w !! c) with
  | p :: ps => (Ret (Some p), set_incoming w (<[c := ps]> (incoming w)))
  | [] => if bool_decide (c ∈ closed w) then (Ret None, w) else (Block, w)
  end.

(** Receiving from a nil channel never ends. *)
Definition recv_chan (c : option nat) : M (option Payload) := match c with Some c => recv c | None => wait_for_ever end.

Definition err_text (e : ReadErr) : string :=
  match e with EOF => "EOF" | ErrUnexpectedEOF => "unexpected EOF" | ErrText msg => msg end.

(** ** Stopping *)

(** [stopSlaveWithMutex]: called with the mutex held. *)
Definition stopSlaveWithMutex : T unit :=
  _ ← atomic (upd_status (λ s, set_configVersion s (int32 (configVersion s + 1))));
  c ← atomic (go_get (λ w, cancel (status w)));
  _ ← (match c with
       | Some ctx =>
           _ ← atomic (go_modify (λ w, set_cancelled w (cancelled w ∪ {[ctx]})));
           atomic (λ w, if (running (status w) =? 0)%nat then (Ret tt, w) else (Block, w))
       | None => Done tt
       end);
  atomic (_ ← upd_status (λ s, set_cancel s None);
          o ← go_get (λ w, masterConn (status w));
          _ ← (match o with Some x => go_modify (λ w, set_closed w (closed w ∪ {[x]})) | None => mret tt end);
          upd_status (λ s, set_masterChan (set_masterConn s None) None)).

Definition slaveOfNone : T unit :=
  _ ← atomic Lock;
  t_defer Unlock (
    _ ← atomic (upd_status (λ s, set_replOffset (set_replId (set_masterPort (set_masterHost s "") 0) "") (-1)));
    _ ← stopSlaveWithMutex;
    atomic (go_modify (λ w, set_role w masterRole))).

Definition close : T unit :=
  _ ← atomic Lock; t_defer Unlock stopSlaveWithMutex.

Definition execSlaveOf (args : list bytes) : T Reply :=
  a0 ← atomic (arg args 0);
  a1 ← atomic (arg args 1);
  if String.eqb (ToLower (str a0)) "no" && String.eqb (ToLower (str a1)) "one" then _ ← slaveOfNone; Done OkReply
  else
    match Atoi (str a1) with
    | inl _ => Done (MakeErrReply "ERR value is not an integer or out of range")
    | inr port =>
        _ ← atomic Lock;
        _ ← atomic (_ ← go_modify (λ w, set_role w slaveRole);
                    _ ← upd_status (λ s, set_configVersion (set_masterPort (set_masterHost s (str a0)) port) (int32 (configVersion s + 1)));
                    Unlock);
        _ ← atomic (go_modify (λ w, set_jobs w (S (jobs w))));
        Done OkReply
    end.

(** ** The handshake *)

Definition request (cmdLine : CmdLine) : string := ToBytes (MultiBulkReply cmdLine).

Definition sendCmdToMaster (c : nat) (cmdLine : CmdLine) : T (option string) :=
  err ← atomic (conn_Write c (request cmdLine));
  match (err : option string) with
  | Some e => _ ← slaveOfNone; Done (Some ("send failed " +:+ e))
  | None =>
      resp ← atomic (p ← recv c; deref p);
      match resp with
      | PErr e => _ ← slaveOfNone; Done (Some ("read response failed: " +:+ err_text e))
      | PData r =>
          if negb (IsOKReply r) then _ ← slaveOfNone; Done (Some ("unexpected auth response: " +:+ ToBytes r))
          else Done None
      end
  end.

(** [if err != nil { return err }] after one of several commands. *)
Fixpoint send_all (c : nat) (cmdLines : list CmdLine) : T (option string) :=
  match cmdLines with
  | [] => Done None
  | l :: ls =>
      err ← sendCmdToMaster c l;
      match (err : option string) with Some e => Done (Some e) | None => send_all c ls end
  end.

Definition handshake_lines : list CmdLine :=
  (if String.eqb (MasterAuth props) "" then [] else [ToCmdLine ["auth"; MasterAuth props]]) ++
  [ToCmdLine ["REPLCONF"; "listening-port"; Itoa (if SlaveAnnouncePort props =? 0 then Port props else SlaveAnnouncePort props)]] ++
  (if String.eqb (SlaveAnnounceIP props) "" then [] else [ToCmdLine ["REPLCONF"; "ip-address"; SlaveAnnounceIP props]]) ++
  [ToCmdLine ["REPLCONF"; "capa"; "psync2"]].

(** The number that [strconv.ParseInt] returns beside an error. *)
Definition value_on_error (s : string) (e : NumError) : Z :=
  match e with
  | ErrSyntax => 0
  | ErrRange => if String.prefix "-" s then -9223372036854775808 else 9223372036854775807
  end.

Definition parsePsyncHandshake : T (string + bool) :=
  ch ← atomic (go_get (λ w, masterChan (status w)));
  resp ← atomic (p ← recv_chan ch; deref p);
  match resp with
  | PErr e => Done (inl ("read response failed: " +:+ err_text e))
  | PData (StatusReply header) =>
      let headers := Split header " " in
      if negb (length headers =? 3)%nat && negb (length headers =? 2)%nat then Done (inl ("illegal payload header: " +:+ header))
      else if String.eqb (default "" (headers !! 0%nat)) "FULLRESYNC" then
        _ ← atomic (upd_status (λ s, set_replId s (default "" (headers !! 1%nat))));
        match headers !! 2%nat with
        | None => t_panic "index out of range"
        | Some off =>
            match ParseInt off with
            | inl e =>
                _ ← atomic (upd_status (λ s, set_replOffset s (value_on_error off e)));
                Done (inl ("get illegal repl offset: " +:+ off))
            | inr z => _ ← atomic (upd_status (λ s, set_replOffset s z)); Done (inr true)
            end
        end
      else if String.eqb (default "" (headers !! 0%nat)) "CONTINUE" then
        _ ← atomic (upd_status (λ s, set_replId s (default "" (headers !! 1%nat)))); Done (inr false)
      else Done (inl ("illegal psync resp: " +:+ header))
  | PData r => Done (inl ("illegal payload header not a status reply: " +:+ ToBytes r))
  end.

Definition psyncHandshake : T (string + bool) :=
  s ← atomic (go_get status);
  let '(id, off) := if String.eqb (replId s) "" then ("?", -1) else (replId s, replOffset s) in
  err ← atomic (c ← deref (masterConn s); conn_Write c (request (ToCmdLine ["psync"; id; FormatInt off])));
  match (err : option string) with
  | Some e => Done (inl ("send failed " +:+ e))
  | None => parsePsyncHandshake
  end.

Definition HasPrefix (s p : string) : bool := String.prefix p s.

(** An error reply to PING that is no refusal for want of a password. *)
Definition ping_fails (r : Reply) : bool :=
  match r with
  | StandardErrReply e => negb (HasPrefix e "NOAUTH") && negb (HasPrefix e "NOPERM") && negb (HasPrefix e "ERR operation not permitted")
  | _ => false
  end.

Definition configChangedErr : string := "slaveStatus config changed".

Definition connectWithMaster (version : Z) : T (string + bool) :=
  d ← atomic (s ← go_get status; t ← tick;
              match Dial t (masterHost s +:+ ":" +:+ Itoa (masterPort s)) with
              | Some e => mret (inl e)
              | None => c ← new_pointer; mret (inr c)
              end);
  match (d : string + nat) with
  | inl e => _ ← slaveOfNone; Done (inl ("connect master failed " +:+ e))
  | inr c =>
      err ← atomic (conn_Write c (request (ToCmdLine ["ping"])));
      match (err : option string) with
      | Some e => Done (inl ("send failed " +:+ e))
      | None =>
          resp ← atomic (p ← recv c; deref p);
          match resp with
          | PErr e => Done (inl ("read response failed: " +:+ err_text e))
          | PData r =>
              if ping_fails r then _ ← slaveOfNone; Done (inr false)
              else
                err ← send_all c handshake_lines;
                match (err : option string) with
                | Some e => Done (inl e)
                | None =>
                    _ ← atomic Lock;
                    t_defer Unlock (
                      v ← atomic (go_get (λ w, configVersion (status w)));
                      if negb (v =? version) then Done (inl configChangedErr)
                      else
                        _ ← atomic (t ← tick; upd_status (λ s, set_lastRecvTime (set_masterChan (set_masterConn s (Some c)) (Some c)) (time_now t)));
                        psyncHandshake)
                end
          end
      end
  end.

(** ** Full synchronisation *)

(** Why there is no loader, if there is none. *)
Definition makeRdbLoader (upgradeAof : bool) : M (option string) :=
  if negb upgradeAof then mret None else t ← tick; mret (new_aof_error t).

Definition loadMasterRDB (version : Z) : T (option string) :=
  ch ← atomic (go_get (λ w, masterChan (status w)));
  resp ← atomic (p ← recv_chan ch; deref p);
  match resp with
  | PErr e => Done (Some ("read response failed: " +:+ err_text e))
  | PData (BulkReply arg) =>
      err ← atomic (makeRdbLoader (AppendOnly props));
      match err, LoadRDB arg with
      | Some e, _ => Done (Some e)
      | None, inl e => Done (Some ("dump rdb failed: " +:+ e))
      | None, inr dbs =>
          _ ← atomic Lock;
          t_defer Unlock (
            v ← atomic (go_get (λ w, configVersion (status w)));
            if negb (v =? version) then Done (Some configChangedErr)
            else
              atomic (λ w, let '(o, e) := (_ ← install dbs; if AppendOnly props then use_new_aof dbs else mret None) (engine w) in (o, set_engine w e)))
      end
  | PData r => Done (Some ("illegal payload header: " +:+ ToBytes r))
  end.

(** ** Receiving *)

Definition exec_line (c : option nat) (cmdLine : CmdLine) : M unit := λ w,
  match eng_Exec c cmdLine (engine w) with
  | (Ret _, e) => (Ret tt, set_engine w e)
  | (Panic msg, e) => (Panic msg, set_engine w e)
  | (Block, e) => (Block, set_engine w e)
  end.

(** What [select] takes: a payload ([inl], nil when the channel is closed), or the end of
    the context.  When both are there the choice is free. *)
Definition select (ch : option nat) (ctx : nat) : M (option Payload + unit) := λ w,
  let ready := match ch with
               | Some c => bool_decide (c ∈ closed w) || match default [] (incoming w !! c) with [] => false | _ => true end
               | None => false
               end in
  let ended := bool_decide (ctx ∈ cancelled w) in
  if ended && (negb ready || select_done (ticks w)) then (Ret (inr tt), set_ticks w (S (ticks w)))
  else if ready then (p ← recv_chan ch; mret (inl p)) (set_ticks w (S (ticks w)))
  else (Block, w).

(** The loop, for [n] payloads.  [c] is nil for a slave that was stopped before. *)
Fixpoint receive_loop (n : nat) (c : option nat) (ctx : nat) (version : Z) : T (option string) :=
  match n with
  | O => atomic wait_for_ever
  | S n' =>
      ch ← atomic (go_get (λ w, masterChan (status w)));
      x ← atomic (select ch ctx);
      match (x : option Payload + unit) with
      | inr _ => _ ← atomic (go_modify (λ w, set_closed w (match c with Some x => closed w ∪ {[x]} | None => closed w end))); Done None
      | inl None => Done (Some "master channel unexpected close")
      | inl (Some (PErr e)) => Done (Some (err_text e))
      | inl (Some (PData (MultiBulkReply args))) =>
          _ ← atomic Lock;
          v ← atomic (go_get (λ w, configVersion (status w)));
          if negb (v =? version) then Done (Some configChangedErr)
          else
            _ ← atomic (exec_line c args);
            _ ← atomic (t ← tick; upd_status (λ s, set_lastRecvTime (set_replOffset s
                  (int64 (replOffset s + slen (ToBytes (MultiBulkReply args))))) (time_now t)));
            _ ← atomic Unlock;
            receive_loop n' c ctx version
      | inl (Some (PData r)) => Done (Some ("unexpected payload: " +:+ ToBytes r))
      end
  end.

Definition receiveAOF (n : nat) (ctx : nat) (version : Z) : T (option string) :=
  c ← atomic (go_get (λ w, masterConn (status w)));
  _ ← atomic (upd_status (λ s, set_running s (S (running s))));
  t_defer (upd_status (λ s, set_running s (pred (running s)))) (receive_loop n c ctx version).

Definition setupMaster (n : nat) : T unit := t_recover (
  ctx ← atomic new_pointer;
  _ ← atomic Lock;
  version ← atomic (_ ← upd_status (λ s, set_cancel s (Some ctx)); v ← go_get (λ w, configVersion (status w)); _ ← Unlock; mret v);
  r ← connectWithMaster version;
  match (r : string + bool) with
  | inl _ => slaveOfNone
  | inr isFullReSync =>
      err ← (if isFullReSync then loadMasterRDB version else Done None);
      match (err : option string) with
      | Some _ => slaveOfNone
      | None => _ ← receiveAOF n ctx version; Done tt
      end
  end).

(** ** The cron *)

Definition sendAck2Master : T (option string) :=
  atomic (s ← go_get status; c ← deref (masterConn s);
          conn_Write c (request (ToCmdLine ["REPLCONF"; "ACK"; FormatInt (replOffset s)]))).

Definition reconnectWithMaster : T unit :=
  _ ← atomic Lock;
  t_defer Unlock (_ ← stopSlaveWithMutex; atomic (go_modify (λ w, set_jobs w (S (jobs w))))).

Definition second : Z := 1000000000.

Definition slaveCron : T unit :=
  c ← atomic (go_get (λ w, masterConn (status w)));
  match (c : option nat) with
  | None => Done tt
  | Some _ =>
      late ← atomic (t ← tick; s ← go_get status;
        let replTimeout := if ReplTimeout props =? 0 then 60 * second else ReplTimeout props * second in
        mret (lastRecvTime s <? time_now t - replTimeout));
      if (late : bool) then reconnectWithMaster else _ ← sendAck2Master; Done tt
  end.
End slave.
Arguments World E : clear implicits.
End ReplSlave.
