(* ===== verification/ReplSlaveLaws.v ===== *)
(** * What a slave does with what it receives

    A slave that meets a willing master loads the RDB file and executes the lines it gets, and
    counts their bytes; but a change of the master during that leaves its mutex locked. *)

From Stdlib Require Import ZArith Lia Ascii String.
From stdpp Require Import base gmap strings numbers list.
From S2P Require Import Prelude GoStd Protocol Parser DB StringCmds Threads ReplSlave ReplLaws.

Local Open Scope string_scope.
Local Open Scope list_scope.
Local Open Scope Z_scope.
Local Open Scope go_scope.

Import ReplSlave.

Section laws.
Context `{Env} {E : Type} `{Host E} (props : Properties).

Abbreviation W := (World E).

(** The engine executes the lines that come on the connection [c]. *)
Definition exec_all (c : nat) (lines : list CmdLine) : GoM E unit := go_for lines (λ l, _ ← eng_Exec (Some c) l; mret tt).

(** A slave that waits for lines on [c]. *)
Record receiving (w : W) (c ctx : nat) (version : Z) (ps : list Payload) : Prop := {
  re_mutex : mutex (status w) = false;
  re_version : configVersion (status w) = version;
  re_chan : masterChan (status w) = Some c;
  re_conn : masterConn (status w) = Some c;
  re_incoming : default [] (incoming w !! c) = ps;
  re_open : c ∉ closed w;
  re_ctx : ctx ∉ cancelled w
}.

(** The lines were executed and counted; nothing else that matters has changed. *)
Record received (w w' : W) (e : E) (n : Z) : Prop := {
  rd_engine : engine w' = e;
  rd_offset : replOffset (status w') = replOffset (status w) + n;
  rd_id : replId (status w') = replId (status w);
  rd_role : role w' = role w;
  rd_sent : sent w' = sent w;
  rd_running : running (status w') = running (status w)
}.

Lemma select_waits w c ctx v : receiving w c ctx v [] → select (Some c) ctx w = (Block, w).
Proof.
  intros [R1 R2 R3 R4 R5 R6 R7]. unfold select. rewrite R5, (bool_decide_eq_false_2 _ R6), (bool_decide_eq_false_2 _ R7). done.
Qed.

Lemma select_takes w c ctx v p ps : receiving w c ctx v (p :: ps) →
  select (Some c) ctx w = (Ret (inl (Some p)), set_incoming (set_ticks w (S (ticks w))) (<[c := ps]> (incoming w))).
Proof.
  intros [R1 R2 R3 R4 R5 R6 R7]. unfold select. rewrite R5, (bool_decide_eq_false_2 _ R6), (bool_decide_eq_false_2 _ R7). cbn.
  unfold mbind, gom_bind, recv. cbn. by rewrite R5.
Qed.

Lemma receive_run lines n w c ctx v e : receiving w c ctx v ((λ l, PData (MultiBulkReply l)) <$> lines) → (length lines ≤ n)%nat →
  exec_all c lines (engine w) = (Ret tt, e) →
  0 ≤ replOffset (status w) → replOffset (status w) + slen (lines_bytes lines) ≤ int64_max →
  ∃ w', alone (receive_loop n (Some c) ctx v) w = (Block, w') ∧ receiving w' c ctx v [] ∧ received w w' e (slen (lines_bytes lines)).
Proof.
  revert n w. induction lines as [|l lines IH]; intros n w Hr Hn He Hoff Hmax.
  { exists w. injection He as He. split_and!; [|done|split; try done; change (slen (lines_bytes [])) with 0; lia]. destruct n as [|n]; [done|]. cbn [receive_loop].
    erewrite alone_step; [|rewrite alone_atomic; reflexivity]. rewrite (re_chan _ _ _ _ _ Hr). apply alone_waits. rewrite alone_atomic.
    by rewrite (select_waits _ _ _ _ Hr). }
  destruct n as [|n]; [cbn in Hn; lia|]. cbn in Hn. cbn [receive_loop]. erewrite alone_step; [|rewrite alone_atomic; reflexivity]. rewrite (re_chan _ _ _ _ _ Hr).
  thread_step (select_takes _ _ _ _ _ _ Hr). cbv iota. pose proof Hr as [R1 R2 R3 R4 R5 R6 R7].
  set (w1 := set_incoming _ _). set (w2 := set_status w1 (set_mutex (status w1) true)).
  assert (Lock w1 = (Ret tt, w2)) as E1 by (unfold Lock; cbn [status w1 set_incoming set_ticks]; by rewrite R1). thread_step E1.
  erewrite alone_step; [|rewrite alone_atomic; reflexivity]. cbn [configVersion status w2 w1 set_status set_mutex set_incoming set_ticks]. rewrite R2, Z.eqb_refl. cbn [negb].
  unfold exec_all in He. cbn [go_for] in He. apply bind_inv in He as ([] & e1 & He1 & He).
  assert (∃ r, eng_Exec (Some c) l (engine w) = (Ret r, e1)) as [r Er].
  { apply bind_inv in He1 as (r & e' & Er & [= <-]). by exists r. }
  set (w3 := set_engine w2 e1). assert (exec_line (Some c) l w2 = (Ret tt, w3)) as E2 by (unfold exec_line; cbn [engine w2 w1 set_status set_incoming set_ticks]; by rewrite Er). thread_step E2.
  change (l :: lines) with ([l] ++ lines) in Hmax |- *. rewrite lines_bytes_app, slen_app in *. set (k := slen (lines_bytes [l])) in *.
  assert (slen (ToBytes (MultiBulkReply l)) = k) as Ek by (unfold k, lines_bytes, encode_all; cbn [fmap list_fmap concat_strings foldr]; by rewrite string_app_nil_r).
  pose proof (slen_nonneg (lines_bytes lines)). assert (0 ≤ k) by (unfold k; apply slen_nonneg).
  erewrite alone_step; [|rewrite alone_atomic; reflexivity]. match goal with |- context [alone _ ?x] => set (w4 := x) end.
  set (w5 := set_status w4 (set_mutex (status w4) false)). assert (Unlock w4 = (Ret tt, w5)) as E3 by done. thread_step E3.
  assert (replOffset (status w5) = replOffset (status w) + k) as Ho.
  { change (int64 (replOffset (status w) + slen (ToBytes (MultiBulkReply l))) = replOffset (status w) + k). rewrite Ek. apply int64_id. unfold is_int64, int64_min, int64_max in *. lia. }
  destruct (IH n w5) as (w' & E4 & Hr' & [D1 D2 D3 D4 D5 D6]); [|lia|exact He|lia|lia|].
  - split; try done. cbn. by rewrite lookup_insert_eq.
  - exists w'. split_and!; [exact E4|done|]. split; try done. rewrite D2. lia.
Qed.

(** ** The handshake *)

(** Only the network has changed; [ps] is left to read on [c]. *)
Record talked (c : nat) (ps : list Payload) (w w' : W) : Prop := {
  ta_incoming : default [] (incoming w' !! c) = ps;
  ta_status : status w' = status w;
  ta_role : role w' = role w;
  ta_engine : engine w' = engine w;
  ta_closed : closed w' = closed w;
  ta_cancelled : cancelled w' = cancelled w;
  ta_fresh : fresh w' = fresh w
}.

Lemma talked_trans c ps qs w1 w2 w3 : talked c ps w1 w2 → talked c qs w2 w3 → talked c qs w1 w3.
Proof. intros [] []. split; congruence. Qed.

Lemma conn_write_run c w b : c ∉ closed w → ∃ w', conn_Write c b w = (Ret None, w') ∧ talked c (default [] (incoming w !! c)) w w'.
Proof. intros Hc. unfold conn_Write. rewrite bool_decide_eq_false_2 by done. by eexists. Qed.

Lemma recv_run c w p ps : default [] (incoming w !! c) = p :: ps → ∃ w', (x ← recv c; deref x) w = (Ret p, w') ∧ talked c ps w w'.
Proof.
  intros Hp. unfold mbind, gom_bind, recv. rewrite Hp. eexists. split; [reflexivity|]. split; try done. cbn. by rewrite lookup_insert_eq.
Qed.

(** A command of the handshake that the master answers with OK. *)
Lemma sendCmd_run c l w ps : c ∉ closed w → default [] (incoming w !! c) = PData (StatusReply "OK") :: ps →
  ∃ w', alone (sendCmdToMaster c l) w = (Ret None, w') ∧ talked c ps w w'.
Proof.
  intros Hc Hp. unfold sendCmdToMaster. destruct (conn_write_run c w (request l) Hc) as (w1 & E1 & T1). thread_step E1. cbv iota.
  rewrite Hp in T1. destruct (recv_run c w1 _ _ (ta_incoming _ _ _ _ T1)) as (w2 & E2 & T2). thread_step E2. cbv iota. exists w2. split; [done|]. by eapply talked_trans.
Qed.

Lemma send_all_run c ls w ps : c ∉ closed w → default [] (incoming w !! c) = replicate (length ls) (PData (StatusReply "OK")) ++ ps →
  ∃ w', alone (send_all c ls) w = (Ret None, w') ∧ talked c ps w w'.
Proof.
  revert w. induction ls as [|l ls IH]; intros w Hc Hp; [by exists w|]. cbn [send_all].
  destruct (sendCmd_run c l w _ Hc Hp) as (w1 & E1 & T1). rewrite (alone_step _ _ _ _ _ E1). cbv beta iota.
  destruct (IH w1) as (w2 & E2 & T2); [by rewrite (ta_closed _ _ _ _ T1)|apply T1|]. exists w2. split; [done|]. by eapply talked_trans.
Qed.

(** The words of the answer to PSYNC. *)
Definition resync_words (header id : string) (off : Z) : Prop := ∃ text, Split header " " = ["FULLRESYNC"; id; text] ∧ ParseInt text = inr off.

Lemma handshake_run (w : W) c id off header ps : masterConn (status w) = Some c → masterChan (status w) = Some c → c ∉ closed w →
  default [] (incoming w !! c) = PData (StatusReply header) :: ps → resync_words header id off →
  ∃ w', alone psyncHandshake w = (Ret (inr true), w') ∧ status w' = set_replOffset (set_replId (status w) id) off ∧
    default [] (incoming w' !! c) = ps ∧ role w' = role w ∧ engine w' = engine w ∧ closed w' = closed w ∧ cancelled w' = cancelled w ∧ fresh w' = fresh w.
Proof.
  intros Hconn Hchan Hc Hp (text & Hsplit & Htext). unfold psyncHandshake. erewrite alone_step; [|rewrite alone_atomic; reflexivity]. cbv beta.
  destruct (if String.eqb _ _ then _ else _) as [pid poff]. rewrite Hconn.
  match goal with |- context [request ?l] => destruct (conn_write_run c w (request l) Hc) as (w1 & E1 & T1) end.
  match goal with |- context [alone (mbind ?k (atomic ?m)) w] => assert (m w = (Ret None, w1)) as E1' by exact E1 end. thread_step E1'. cbv iota.
  rewrite Hp in T1. destruct T1 as [A1 A2 A3 A4 A5 A6 A7]. unfold parsePsyncHandshake. erewrite alone_step; [|rewrite alone_atomic; reflexivity]. rewrite A2, Hchan. cbn [recv_chan].
  destruct (recv_run c w1 _ _ A1) as (w2 & E2 & [B1 B2 B3 B4 B5 B6 B7]). thread_step E2. cbv iota zeta. rewrite Hsplit. cbn [length Nat.eqb negb andb].
  change (default "" (["FULLRESYNC"; id; text] !! 0%nat)) with "FULLRESYNC". change (default "" (["FULLRESYNC"; id; text] !! 1%nat)) with id.
  change (["FULLRESYNC"; id; text] !! 2%nat) with (Some text). rewrite String.eqb_refl.
  erewrite alone_step; [|rewrite alone_atomic; reflexivity]. cbv iota. rewrite Htext. erewrite alone_step; [|rewrite alone_atomic; reflexivity]. cbn [alone].
  eexists. split; [reflexivity|]. cbn. rewrite B2, A2. split_and!; try done; congruence.
Qed.

Lemma connect_run w c id off header ps version : mutex (status w) = false → configVersion (status w) = version → c = fresh w → c ∉ closed w →
  (∀ t addr, Dial t addr = None) →
  default [] (incoming w !! c) = PData (StatusReply "PONG") :: replicate (length (handshake_lines props)) (PData (StatusReply "OK")) ++ PData (StatusReply header) :: ps →
  resync_words header id off →
  ∃ w', alone (connectWithMaster props version) w = (Ret (inr true), w') ∧ default [] (incoming w' !! c) = ps ∧
    (∃ t, status w' = set_replOffset (set_replId (set_lastRecvTime (set_masterChan (set_masterConn (status w) (Some c)) (Some c)) t) id) off) ∧
    role w' = role w ∧ engine w' = engine w ∧ closed w' = closed w ∧ cancelled w' = cancelled w.
Proof.
  intros Hm Hv Hcf Hc Hdial Hp Hw. unfold connectWithMaster. set (w1 := set_fresh (set_ticks w (S (ticks w))) (S (fresh w))).
  match goal with |- context [alone (mbind ?k (atomic ?m)) w] => assert (m w = (Ret (inr c), w1)) as E1 end.
  { do 2 (erewrite bind_Ret by reflexivity; cbv beta). rewrite Hdial. erewrite bind_Ret by reflexivity. by rewrite Hcf. }
  thread_step E1. cbv iota. destruct (conn_write_run c w1 (request (ToCmdLine ["ping"])) Hc) as (w2 & E2 & T2). thread_step E2. cbv iota. change (incoming w1) with (incoming w) in T2. rewrite Hp in T2.
  destruct (recv_run c w2 _ _ (ta_incoming _ _ _ _ T2)) as (w3 & E3 & T3). thread_step E3. cbv iota. change (ping_fails (StatusReply "PONG")) with false. cbv iota.
  pose proof (talked_trans _ _ _ _ _ _ T2 T3) as T13. destruct (send_all_run c (handshake_lines props) w3 _ ltac:(by rewrite (ta_closed _ _ _ _ T13)) (ta_incoming _ _ _ _ T13)) as (w4 & E4 & T4).
  rewrite (alone_step _ _ _ _ _ E4). cbv beta iota. pose proof (talked_trans _ _ _ _ _ _ T13 T4) as [A1 A2 A3 A4 A5 A6 A7].
  cbn [status role engine closed cancelled fresh w1 set_fresh set_ticks] in A2, A3, A4, A5, A6.
  set (w5 := set_status w4 (set_mutex (status w4) true)). assert (Lock w4 = (Ret tt, w5)) as E5 by (unfold Lock; by rewrite A2, Hm). thread_step E5.
  rewrite alone_defer. unfold go_defer. erewrite alone_step; [|rewrite alone_atomic; reflexivity]. cbn [configVersion status w5 set_status set_mutex]. rewrite A2, Hv, Z.eqb_refl. cbn [negb].
  erewrite alone_step; [|rewrite alone_atomic; reflexivity]. match goal with |- context [alone psyncHandshake ?x] => set (w6 := x) end.
  destruct (handshake_run w6 c id off header ps) as (w7 & E7 & B1 & B2 & B3 & B4 & B5 & B6 & B7); [done|done| |done|done|].
  { change (closed w6) with (closed w4). by rewrite A5. }
  rewrite E7. cbv beta. set (w8 := set_status w7 (set_mutex (status w7) false)). assert (Unlock w7 = (Ret tt, w8)) as -> by (unfold Unlock; by rewrite B1).
  exists w8. split; [done|]. cbn. split; [done|]. rewrite B1, B3, B4, B5, B6. cbn. rewrite A2, A3, A4, A5, A6.
  split; [|by split_and!]. exists (time_now (ticks w4)). destruct (status w); cbn in *. by rewrite Hm.
Qed.

(** Only the network and the engine have changed. *)
Record loaded (c : nat) (ps : list Payload) (e : E) (w w' : W) : Prop := {
  lo_incoming : default [] (incoming w' !! c) = ps;
  lo_status : status w' = status w;
  lo_role : role w' = role w;
  lo_engine : engine w' = e;
  lo_closed : closed w' = closed w;
  lo_cancelled : cancelled w' = cancelled w
}.

Lemma load_rdb_run w c file dbs ps version e : mutex (status w) = false → configVersion (status w) = version → masterChan (status w) = Some c →
  default [] (incoming w !! c) = PData (BulkReply (Some file)) :: ps → (∀ t, new_aof_error t = None) → LoadRDB (Some file) = inr dbs →
  (_ ← install dbs; if AppendOnly props then use_new_aof dbs else mret None) (engine w) = (Ret None, e) →
  ∃ w', alone (loadMasterRDB props version) w = (Ret None, w') ∧ loaded c ps e w w'.
Proof.
  intros Hm Hv Hch Hp Hnew Hload He. unfold loadMasterRDB. erewrite alone_step; [|rewrite alone_atomic; reflexivity]. rewrite Hch. cbn [recv_chan].
  destruct (recv_run c w _ _ Hp) as (w0 & E1 & [B1 B2 B3 B4 B5 B6 B7]). thread_step E1. cbv iota.
  assert (∃ t, makeRdbLoader (AppendOnly props) w0 = (Ret None, set_ticks w0 t)) as [t E0].
  { unfold makeRdbLoader. destruct (AppendOnly props); cbn [negb]; [|exists (ticks w0); by destruct w0]. eexists. erewrite bind_Ret by reflexivity. by rewrite Hnew. }
  thread_step E0. cbv iota. rewrite Hload. set (w1 := set_ticks w0 t).
  set (w2 := set_status w1 (set_mutex (status w1) true)). assert (Lock w1 = (Ret tt, w2)) as E2 by (unfold Lock; cbn [status w1 set_ticks]; by rewrite B2, Hm). thread_step E2.
  rewrite alone_defer. unfold go_defer. erewrite alone_step; [|rewrite alone_atomic; reflexivity]. cbn [configVersion status w1 w2 set_status set_mutex set_ticks].
  rewrite B2, Hv, Z.eqb_refl. cbn [negb]. rewrite alone_atomic. cbn [engine w1 w2 set_status set_ticks]. rewrite B4, He. unfold Unlock. cbn. eexists. split; [reflexivity|].
  split; try done. cbn. rewrite B2. destruct (status w). cbn in *. by rewrite Hm.
Qed.

Lemma receiveAOF_run w c ctx v lines n e : receiving w c ctx v ((λ l, PData (MultiBulkReply l)) <$> lines) → (length lines ≤ n)%nat →
  exec_all c lines (engine w) = (Ret tt, e) → 0 ≤ replOffset (status w) → replOffset (status w) + slen (lines_bytes lines) ≤ int64_max →
  ∃ w', alone (receiveAOF n ctx v) w = (Block, w') ∧ engine w' = e ∧ replId (status w') = replId (status w) ∧
    replOffset (status w') = replOffset (status w) + slen (lines_bytes lines) ∧ mutex (status w') = false ∧ role w' = role w ∧
    running (status w') = S (running (status w)).
Proof.
  intros Hr Hn He Hoff Hmax. unfold receiveAOF.
  match goal with |- context [alone (mbind ?k (atomic ?m)) w] => assert (m w = (Ret (Some c), w)) as E1 by (unfold go_get; by rewrite (re_conn _ _ _ _ _ Hr)) end.
  thread_step E1. erewrite alone_step; [|rewrite alone_atomic; reflexivity]. rewrite alone_defer. unfold go_defer. match goal with |- context [alone _ ?x] => set (w1 := x) end.
  destruct (receive_run lines n w1 c ctx v e) as (w' & E2 & [] & []); [by destruct Hr|done|done|done|done|]. rewrite E2. by exists w'.
Qed.

(** What becomes of the engine: the databases of the RDB file, then the lines. *)
Definition follow (c : nat) (dbs : rdb) (lines : list CmdLine) : GoM E unit :=
  e ← (_ ← install dbs; if AppendOnly props then use_new_aof dbs else mret None);
  match (e : option string) with None => exec_all c lines | Some err => go_panic err end.

Lemma setup_run w id off header rdbfile dbs lines n e : mutex (status w) = false → S (fresh w) ∉ closed w → fresh w ∉ cancelled w →
  (∀ t addr, Dial t addr = None) → (∀ t, new_aof_error t = None) → resync_words header id off → LoadRDB (Some rdbfile) = inr dbs → (length lines ≤ n)%nat →
  0 ≤ off → off + slen (lines_bytes lines) ≤ int64_max →
  default [] (incoming w !! S (fresh w)) = PData (StatusReply "PONG") :: replicate (length (handshake_lines props)) (PData (StatusReply "OK")) ++
    PData (StatusReply header) :: PData (BulkReply (Some rdbfile)) :: ((λ l, PData (MultiBulkReply l)) <$> lines) →
  follow (S (fresh w)) dbs lines (engine w) = (Ret tt, e) →
  ∃ w', alone (setupMaster props n) w = (Block, w') ∧ engine w' = e ∧ replId (status w') = id ∧ replOffset (status w') = off + slen (lines_bytes lines) ∧
    mutex (status w') = false ∧ role w' = role w ∧ running (status w') = S (running (status w)).
Proof.
  intros Hm Hc Hctx Hdial Hnew Hw Hload Hn Hoff Hmax Hp He. unfold follow in He. apply bind_inv in He as (o & e2 & He2 & He).
  destruct o as [err|]; [done|]. unfold setupMaster. rewrite alone_recover. set (c := S (fresh w)) in *. set (ctx := fresh w) in *.
  set (w1 := set_fresh w (S (fresh w))). set (w2 := set_status w1 (set_mutex (status w1) true)). set (v := configVersion (status w)).
  erewrite alone_step; [|rewrite alone_atomic; reflexivity]. cbv beta. fold w1. assert (Lock w1 = (Ret tt, w2)) as E1 by (unfold Lock; cbn [status w1 set_fresh]; by rewrite Hm). thread_step E1.
  set (w3 := set_status w1 (set_cancel (status w) (Some ctx))).
  match goal with |- context [alone (mbind ?k (atomic ?m)) w2] => assert (m w2 = (Ret v, w3)) as E2 end.
  { erewrite bind_Ret by reflexivity. erewrite bind_Ret by reflexivity. erewrite bind_Ret by reflexivity. cbn. unfold mret, gom_ret. do 2 f_equal. unfold w3. f_equal. destruct (status w); cbn in *. by rewrite Hm. }
  thread_step E2. destruct (connect_run w3 c id off header (PData (BulkReply (Some rdbfile)) :: ((λ l, PData (MultiBulkReply l)) <$> lines)) v)
    as (w4 & E4 & A1 & (t & A2) & A3 & A4 & A5 & A6); [exact Hm|done|done|exact Hc|done|exact Hp|done|].
  rewrite (alone_step _ _ _ _ _ E4). cbv beta iota. set (st := set_replOffset _ _) in A2. cbn [role engine closed cancelled w3 w1 set_status set_fresh] in A3, A4, A5, A6.
  destruct (load_rdb_run w4 c rdbfile dbs ((λ l, PData (MultiBulkReply l)) <$> lines) v e2) as (w5 & E5 & [B1 B2 B3 B4 B5 B6]); rewrite ?A2, ?A4; [done..|].
  rewrite (alone_step _ _ _ _ _ E5). cbv beta iota. rewrite A2 in B2. assert (replId st = id ∧ replOffset st = off ∧ running st = running (status w)) as (S1 & S2 & S3) by done.
  destruct (receiveAOF_run w5 c ctx v lines n e) as (w' & E6 & C1 & C2 & C3 & C4 & C5 & C6).
  - split; rewrite ?B2; try done; [by rewrite B5, A5|by rewrite B6, A6].
  - done.
  - by rewrite B4.
  - by rewrite B2, S2.
  - by rewrite B2, S2.
  - exists w'. split; [by rewrite (alone_waits _ _ _ _ E6)|]. rewrite B2 in *. rewrite S1, S2, S3 in *. split_and!; try done. by rewrite C5, B3.
Qed.

(** ** A change of the master *)

Definition waits {A} (t : Thread W A) (w : W) : Prop := ∃ w', alone t w = (Block, w').

(** SLAVEOF with an address, from its first step that uses the status. *)
Lemma slaveof_starts host text port (w : W) : ToLower host ≠ "no" → Atoi text = inr port →
  alone (execSlaveOf [Some host; Some text]) w = alone (
    _ ← atomic Lock;
    _ ← atomic (_ ← go_modify (λ w, set_role w slaveRole);
                _ ← upd_status (λ s, set_configVersion (set_masterPort (set_masterHost s host) port) (int32 (configVersion s + 1)));
                Unlock);
    _ ← atomic (go_modify (λ w, set_jobs w (S (jobs w))));
    Done OkReply) w.
Proof.
  intros Hno%String.eqb_neq Hport. unfold execSlaveOf. do 2 (erewrite alone_step; [|rewrite alone_atomic; reflexivity]). cbv beta.
  change (str (Some host)) with host. change (str (Some text)) with text. by rewrite Hno, Hport.
Qed.

Lemma slaveOfNone_waits (w : W) : mutex (status w) = true → waits (execSlaveOf [Some "no"; Some "one"]) w.
Proof.
  intros Hm. exists w. unfold execSlaveOf. do 2 (erewrite alone_step; [|rewrite alone_atomic; reflexivity]). cbv beta.
  apply alone_waits. unfold slaveOfNone. apply alone_waits. rewrite alone_atomic. unfold Lock. by rewrite Hm.
Qed.

(** SLAVEOF of another master breaks a slave that receives lines: the command answers OK,
    the goroutine that receives finds at the next line that the configuration has changed and
    ends without releasing the mutex, and from then on every SLAVEOF, also the one of NO ONE, and
    the setup of the new master wait for ever. *)
Theorem changed_master_blocks (w : W) (c ctx n : nat) (version port : Z) (line : CmdLine) (ps : list Payload) (host text : string) :
  receiving w c ctx version (PData (MultiBulkReply line) :: ps) → ToLower host ≠ "no" → Atoi text = inr port → -2147483648 ≤ version < 2147483648 →
  ∃ w1 w2, alone (execSlaveOf [Some host; Some text]) w = (Ret OkReply, w1) ∧
    alone (receive_loop (S n) (Some c) ctx version) w1 = (Ret (Some configChangedErr), w2) ∧
    waits (execSlaveOf [Some "no"; Some "one"]) w2 ∧ waits (execSlaveOf [Some host; Some text]) w2 ∧ waits (setupMaster props n) w2.
Proof.
  intros Hr Hno Hport Hv. pose proof Hr as [R1 R2 R3 R4 R5 R6 R7]. pose proof (λ w, slaveof_starts host text port w Hno Hport) as Hstart.
  set (st := set_configVersion (set_masterPort (set_masterHost (status w) host) port) (int32 (configVersion (status w) + 1))).
  set (w1 := set_jobs (set_status (set_role w slaveRole) st) (S (jobs w))).
  assert (alone (execSlaveOf [Some host; Some text]) w = (Ret OkReply, w1)) as E1.
  { rewrite Hstart. erewrite alone_step; [|rewrite alone_atomic; unfold Lock; rewrite R1; reflexivity]. cbv beta.
    erewrite alone_step; [|rewrite alone_atomic; reflexivity]. erewrite alone_step; [|rewrite alone_atomic; reflexivity]. cbn [alone]. f_equal.
    unfold w1, st. cbn. destruct (status w). cbn in *. by rewrite R1. }
  assert (receiving w1 c ctx (int32 (version + 1)) (PData (MultiBulkReply line) :: ps)) as Hr1 by (rewrite <-R2; by split).
  exists w1. eexists. split; [exact E1|]. split.
  { cbn [receive_loop]. erewrite alone_step; [|rewrite alone_atomic; reflexivity]. rewrite (re_chan _ _ _ _ _ Hr1). thread_step (select_takes _ _ _ _ _ _ Hr1). cbv iota.
    erewrite alone_step; [|rewrite alone_atomic; unfold Lock; cbn [status set_incoming set_ticks]; rewrite (re_mutex _ _ _ _ _ Hr1); reflexivity]. cbv beta.
    erewrite alone_step; [|rewrite alone_atomic; reflexivity]. cbn [configVersion status set_status set_mutex set_incoming set_ticks]. rewrite (re_version _ _ _ _ _ Hr1).
    assert (int32 (version + 1) ≠ version) as Hne%Z.eqb_neq.
    { destruct (decide (version + 1 < 2147483648)); [rewrite int32_id by lia; lia|]. replace version with 2147483647 by lia. done. }
    rewrite Hne. reflexivity. }
  match goal with |- waits _ ?x ∧ _ => assert (mutex (status x) = true) as Hm by done end. split_and!.
  - by apply slaveOfNone_waits.
  - eexists. rewrite Hstart. apply alone_waits. rewrite alone_atomic. unfold Lock. by rewrite Hm.
  - eexists. unfold setupMaster. rewrite alone_recover. erewrite alone_step; [|rewrite alone_atomic; reflexivity]. cbv beta.
    erewrite alone_waits; [reflexivity|]. rewrite alone_atomic. unfold Lock. cbn [status set_fresh]. by rewrite Hm.
Qed.
End laws.

(** An engine that notes what it executes; every address can be dialled. *)
Definition demo_host : Host (list CmdLine) := {|
  Dial := λ _ _, None;
  select_done := λ _, false;
  eng_Exec := λ _ line e, (Ret OkReply, e ++ [line]);
  rdb := bytes;
  new_aof_error := λ _, None;
  LoadRDB := inr;
  install := λ _, mret tt;
  use_new_aof := λ _, mret None
|}.

#[local] Existing Instance demo_env.
#[local] Existing Instance demo_host.

Definition demo_props : Properties := mkProps "" 0 6399 "" 60 true.

(** A slave to which its master has sent a line. *)
Definition demo_slave : World (list CmdLine) :=
  mkWorld (mkStatus false (Some 0%nat) 1 "m1" 6379 (Some 1%nat) (Some 1%nat) "id" 0 0 1) slaveRole []
    {[1%nat := [PData (MultiBulkReply demo_set)]]} ∅ ∅ ∅ 0 2 0.

Lemma changed_master_blocks_witness : ∃ w1 w2, alone (execSlaveOf [Some "m2"; Some "6379"]) demo_slave = (Ret OkReply, w1) ∧
  alone (receive_loop 1 (Some 1%nat) 0 1) w1 = (Ret (Some configChangedErr), w2) ∧
  waits (execSlaveOf [Some "no"; Some "one"]) w2 ∧ waits (execSlaveOf [Some "m2"; Some "6379"]) w2 ∧ waits (setupMaster demo_props 0) w2.
Proof. by apply (changed_master_blocks demo_props demo_slave 1 0 0 1 6379 demo_set []). Defined.
