(* ===== verification/ReplSpec.v ===== *)
(** * A slave follows its master

    What a master writes to a slave, read by the parser of the slave, loads the RDB file and
    executes the lines of the master's append-only file in their order; both sides count the
    same offset. *)

From Stdlib Require Import ZArith Lia Ascii String.
From stdpp Require Import base gmap strings numbers list.
From S2P Require Import Prelude GoStd Protocol Parser DB StringCmds Threads Repl ReplSlave ReplLaws ReplSlaveLaws.

Local Open Scope string_scope.
Local Open Scope list_scope.
Local Open Scope Z_scope.
Local Open Scope go_scope.

(** ** Reading a stream *)

(** The parser makes [ps] of [s], and waits for more. *)
Definition parses (s : string) (ps : list Payload) : Prop :=
  ∀ fuel, (String.length s < fuel)%nat → parse0_loop fuel s = Ret (ps ++ [PErr EOF], ChanClosed).

Lemma parses_nil : parses "" [].
Proof. intros [|fuel]; [cbn; lia|done]. Qed.

(** A line and what the parser takes with it. *)
Lemma parses_line s t rest ps qs : no_char LF s = true → s ≠ "" → parse_line s t = (qs, SOk rest) →
  parses rest ps → parses (s +:+ CRLF +:+ t) (qs ++ ps).
Proof.
  intros Hs Hne Hl Hp fuel Hf. destruct fuel as [|fuel]; [lia|]. rewrite parse0_header, Hl by done.
  pose proof (parse_line_shrinks s t) as Hsh. unfold shrinks in Hsh. rewrite Hl in Hsh. cbn in Hsh.
  rewrite Hp; [|rewrite !length_string_app in Hf; cbn in Hf; lia]. cbn. by rewrite app_assoc.
Qed.

Lemma parses_reply r rest ps : sendable r → r ≠ NoReply → parses rest ps → parses (ToBytes r +:+ rest) ((PData <$> as_received r) ++ ps).
Proof.
  intros Hr Hn Hp. destruct (reply_step r rest Hr Hn) as (s & t & E & Hs & Hs' & Hl). rewrite E. by eapply parses_line.
Qed.

Lemma parses_replies rs rest ps : Forall (λ r, sendable r ∧ r ≠ NoReply) rs → parses rest ps →
  parses (encode_all rs +:+ rest) ((PData <$> (rs ≫= as_received)) ++ ps).
Proof.
  intros Hrs Hp. induction Hrs as [|r rs [Hr Hn] _ IH]; [done|]. unfold encode_all in *. rewrite fmap_cons, concat_strings_cons, string_app_assoc.
  cbn [mbind list_bind]. rewrite fmap_app, <-app_assoc. by apply parses_reply.
Qed.

(** The header of a full synchronisation and the RDB file. *)
Lemma parses_resync id begin content rest ps : no_char LF id = true → content ≠ "" → slen content ≤ max_alloc → parses rest ps →
  parses (resync_header id begin +:+ rdb_bytes content +:+ rest)
    (PData (StatusReply ("FULLRESYNC " +:+ id +:+ " " +:+ FormatInt begin)) :: PData (BulkReply (Some content)) :: ps).
Proof.
  intros Hid Hne Hlen Hp. set (header := "FULLRESYNC " +:+ id +:+ " " +:+ FormatInt begin).
  assert (resync_header id begin +:+ rdb_bytes content +:+ rest = String "+" header +:+ CRLF +:+ (rdb_bytes content +:+ rest)) as ->
    by (change (String "+" header) with ("+" +:+ header); unfold resync_header, header; rewrite !string_app_assoc; reflexivity).
  change (?a :: ?b :: ps) with ([a; b] ++ ps). apply parses_line with (rest := rest); [|done| |done].
  - cbn [no_char]. unfold header. rewrite !no_char_app, Hid, FormatInt_no_char; done.
  - unfold parse_line. rewrite byte_at_app_l, tail_from_cons. cbn [Ascii.eqb Bool.eqb]. change (HasPrefix header "FULLRESYNC") with true. cbv iota.
    unfold parseRDBBulkString, rdb_bytes. rewrite !string_app_assoc. change ("$" +:+ ?x) with (String "$" x). rewrite <-string_app_cons.
    assert (0 < slen content) by (destruct content as [|a s]; [done|rewrite slen_cons; pose proof (slen_nonneg s); lia]).
    rewrite ReadBytes_spec by (cbn [no_char]; by rewrite FormatInt_no_char). rewrite TrimCRLF_spec, slen_cons. pose proof (slen_nonneg (FormatInt (slen content))).
    rewrite (proj2 (Z.eqb_neq _ _)) by lia. rewrite tail_from_cons, ParseInt_FormatInt by (apply int64_small; lia). rewrite (proj2 (Z.leb_gt _ _)) by lia.
    unfold read_body. rewrite make_slice_ok by lia. by rewrite ReadFull_app.
Qed.

(** Lines that can be sent. *)
Definition plain_line (line : CmdLine) : Prop := line ≠ [] ∧ Forall is_Some line ∧ sendable (MultiBulkReply line).

Lemma parses_lines lines : Forall plain_line lines → parses (lines_bytes lines) ((λ l, PData (MultiBulkReply l)) <$> lines).
Proof.
  intros Hl. rewrite <-(string_app_nil_r (lines_bytes lines)), <-(app_nil_r (_ <$> lines)).
  replace ((λ l, PData (MultiBulkReply l)) <$> lines) with (PData <$> ((MultiBulkReply <$> lines) ≫= as_received)).
  - apply parses_replies; [|apply parses_nil]. rewrite Forall_fmap. eapply Forall_impl; [exact Hl|]. by intros l (_ & _ & ?).
  - induction Hl as [|l ls (H1 & H2 & _) _ IH]; [done|]. cbn [fmap list_fmap mbind list_bind]. rewrite as_received_line, fmap_app by done. cbn. by f_equal.
Qed.

(** [strings.Split] of words without spaces. *)
Lemma split_word c s rest cur : no_char c s = true → split_on c (s +:+ String c rest) cur = (cur +:+ s) :: split_on c rest "".
Proof.
  revert cur. induction s as [|a s IH]; intros cur Hs.
  - change ("" +:+ String c rest) with (String c rest). cbn [split_on]. rewrite Ascii.eqb_refl. by rewrite string_app_nil_r.
  - cbn in Hs. apply andb_true_iff in Hs as [Ha Hs]. apply negb_true_iff in Ha. rewrite string_app_cons. cbn [split_on]. rewrite Ha, IH by done.
    by rewrite string_app_assoc.
Qed.

Lemma split_last c s cur : no_char c s = true → split_on c s cur = [cur +:+ s].
Proof.
  revert cur. induction s as [|a s IH]; intros cur Hs; [cbn; by rewrite string_app_nil_r|].
  cbn in Hs. apply andb_true_iff in Hs as [Ha Hs]. apply negb_true_iff in Ha. cbn [split_on]. rewrite Ha, IH by done. by rewrite string_app_assoc.
Qed.

Lemma resync_words_ok id : no_char " " id = true → resync_words ("FULLRESYNC " +:+ id +:+ " " +:+ FormatInt 0) id 0.
Proof.
  intros Hid. exists "0". split; [|done]. unfold Split. change ("FULLRESYNC " +:+ ?x) with ("FULLRESYNC" +:+ String " " x).
  rewrite split_word by done. change (" " +:+ FormatInt 0) with (String " " "0"). rewrite split_word, split_last by done. done.
Qed.

(** ** The two sides together *)

Section both.
Context `{Env} `{Repl.Disk} {E : Type} `{ReplSlave.Host E} (props : ReplSlave.Properties).

(** The answers of a master to the handshake. *)
Definition greeting : list Reply := PongReply :: replicate (length (ReplSlave.handshake_lines props)) OkReply.

(** A master that nobody follows, and has greeted the connection [c]; its name and its RDB file
    can be sent. *)
Record ready_master (w : Repl.World) (id : string) (c : nat) : Prop := {
  rm_idle : idle w id;
  rm_id : no_char LF id = true ∧ no_char " " id = true;
  rm_open : c ∉ Repl.closed w;
  rm_greeted : default "" (Repl.written w !! c) = encode_all greeting;
  rm_rdb : let file := Repl.rdb_of (Repl.aofLines (Repl.persister w)) in file ≠ "" ∧ slen file ≤ max_alloc
}.

(** A slave that is about to connect, with [ps] to come. *)
Record ready_slave (w : ReplSlave.World E) (ps : list Payload) : Prop := {
  rs_mutex : ReplSlave.mutex (ReplSlave.status w) = false;
  rs_open : S (ReplSlave.fresh w) ∉ ReplSlave.closed w;
  rs_ctx : ReplSlave.fresh w ∉ ReplSlave.cancelled w;
  rs_incoming : default [] (ReplSlave.incoming w !! S (ReplSlave.fresh w)) = ps
}.

(** PSYNC from [c], the background save it starts, and then the events. *)
Definition serve (c : nat) (sid off : string) (es : list Event) : GoM Repl.World unit :=
  _ ← alone (Repl.execPSync c [Some sid; Some off]); _ ← Repl.run_job; run_events es.

Lemma greeting_parses rest ps : parses rest ps →
  parses (encode_all greeting +:+ rest)
    (PData (StatusReply "PONG") :: replicate (length (ReplSlave.handshake_lines props)) (PData (StatusReply "OK")) ++ ps).
Proof.
  intros Hp. pose proof (parses_replies greeting rest ps) as HH. unfold greeting in HH |- *. cbn [mbind list_bind as_received fmap list_fmap app] in HH.
  set (k := length _) in *. assert (PData <$> (replicate k OkReply ≫= as_received) = replicate k (PData (StatusReply "OK"))) as Ek.
  { clear. induction k as [|k IH]; [done|]. cbn. by f_equal. }
  rewrite Ek in HH. apply HH; [|done]. constructor; [done|]. by apply Forall_replicate.
Qed.

End both.

#[local] Existing Instance demo_env.
#[local] Existing Instance demo_disk.
#[local] Existing Instance demo_host.

(** A server just started, which has greeted the connection 7. *)
Definition demo_start : Repl.World :=
  (Repl.initMasterStatus "4f2a" (Repl.mkWorld (Repl.mkMaster false "" 0 ∅ None ∅ 0 None None false) ∅ ∅ ∅
    (Repl.mkPersister true false 0 [demo_set] ∅) ∅ {[7%nat := encode_all (greeting demo_props)]} ∅ ∅ [] 0 0)).2.

Definition demo_events : list Event := [Line 0 demo_set; Cron; Line 3 demo_set].

Definition demo_payloads : list Payload :=
  match serve 7 "?" "-1" demo_events demo_start with
  | (Ret _, w) => match parse0 (default "" (Repl.written w !! 7%nat)) with Ret (ps, _) => take (length ps - 1) ps | _ => [] end
  | _ => []
  end.

Definition demo_follower : ReplSlave.World (list CmdLine) :=
  ReplSlave.mkWorld (ReplSlave.mkStatus false None 1 "m1" 6379 None None "" 0 0 0) ReplSlave.slaveRole [] {[1%nat := demo_payloads]} ∅ ∅ ∅ 0 0 0.

Lemma demo_payloads_parsed : parse0 (default "" (Repl.written (serve 7 "?" "-1" demo_events demo_start).2 !! 7%nat)) = Ret (demo_payloads ++ [PErr EOF], ChanClosed).
Proof. vm_compute. reflexivity. Qed.

Lemma demo_follower_ready wm ps : serve 7 "?" "-1" demo_events demo_start = (Ret tt, wm) →
  parse0 (default "" (Repl.written wm !! 7%nat)) = Ret (ps ++ [PErr EOF], ChanClosed) → ready_slave demo_follower ps.
Proof.
  intros Ew Ep. assert (wm = (serve 7 "?" "-1" demo_events demo_start).2) as -> by by rewrite Ew.
  rewrite demo_payloads_parsed in Ep. assert (demo_payloads ++ [PErr EOF] = ps ++ [PErr EOF]) as [<- _]%app_inj_tail by congruence.
  clear. unfold demo_follower. generalize demo_payloads. intros ps. by split.
Qed.

