(* ===== verification/TimeWheel.v ===== *)
(** * lib/timewheel: jobs that run after a delay

    A ring of slots, each a list of tasks; every tick of the ticker scans one slot, in a
    goroutine of its own.  A task that is more than one turn away waits for [circle] more turns.
    The loop of [start] serves ticks, additions and removals one at a time; the scan of a
    slot, and the removal of the scanned keys from the table, are steps of a goroutine that may
    come later.

    Elements of the lists have an identity, as *list.Element has: removing an element that is
    no longer in the list does nothing. *)

From Stdlib Require Import ZArith Lia Ascii String SpecFloat.
From stdpp Require Import base gmap strings numbers list.
From S2P Require Import Prelude GoStd.

Local Open Scope string_scope.
Local Open Scope list_scope.
Local Open Scope Z_scope.
Local Open Scope go_scope.

Module TimeWheel.

(** ** Durations *)

Definition second : Z := 1000000000.

Definition float_of (z : Z) : spec_float := binary_normalize 53 1024 z 0 false.

(** [int(f)]: towards zero. *)
Definition int_of (f : spec_float) : Z :=
  match f with
  | S754_finite s m e => (if s then Z.opp else id) (Z.shiftr (Z.shiftl (Zpos m) (Z.max e 0)) (Z.max (- e) 0))
  | _ => 0
  end.

(** [int(d.Seconds())]: whole seconds and the rest, added as floats. *)
Definition Seconds (d : Z) : Z :=
  int_of (SFadd 53 1024 (float_of (Z.quot d second)) (SFdiv 53 1024 (float_of (Z.rem d second)) (float_of second))).

(** ** Data *)

Section wheel.
Context {J : Type}.

Record task := mkTask { delay : Z; circle : Z; key : string; job : J }.

Record location := mkLocation { slot : Z; etask : nat }.

Record TimeWheel := mkWheel {
  interval : Z;
  slots : list (list (nat * task));
  timer : gmap string location;
  currentPos : Z;
  slotNum : Z;
  elements : nat
}.

(** Goroutines of [scanAndRunTask]: before the scan, and before the removal of the keys. *)
Inductive Scan := ToScan (slot : Z) | ToForget (keys : list string).

(** [jobs]: those that were started, in order; [loops]: the goroutines that run [start]. *)
Record World := mkWorld { wheel : TimeWheel; scans : list Scan; jobs : list J; loops : nat }.

Definition set_slots (tw : TimeWheel) x := mkWheel (interval tw) x (timer tw) (currentPos tw) (slotNum tw) (elements tw).
Definition set_timer (tw : TimeWheel) x := mkWheel (interval tw) (slots tw) x (currentPos tw) (slotNum tw) (elements tw).
Definition set_currentPos (tw : TimeWheel) x := mkWheel (interval tw) (slots tw) (timer tw) x (slotNum tw) (elements tw).
Definition set_elements (tw : TimeWheel) x := mkWheel (interval tw) (slots tw) (timer tw) (currentPos tw) (slotNum tw) x.

Definition set_wheel (w : World) x := mkWorld x (scans w) (jobs w) (loops w).
Definition set_scans (w : World) x := mkWorld (wheel w) x (jobs w) (loops w).
Definition set_jobs (w : World) x := mkWorld (wheel w) (scans w) x (loops w).
Definition set_loops (w : World) x := mkWorld (wheel w) (scans w) (jobs w) x.

Abbreviation M := (GoM World).

Definition upd_wheel (f : TimeWheel → TimeWheel) : M unit := go_modify (λ w, set_wheel w (f (wheel w))).

(** [tw.slots[i]]. *)
Definition slot_at (i : Z) : M (list (nat * task)) :=
  tw ← go_get wheel;
  match (if i <? 0 then None else slots tw !! Z.to_nat i) with
  | Some l => mret l
  | None => go_panic "index out of range"
  end.

Definition put_slot (i : Z) (l : list (nat * task)) : M unit :=
  upd_wheel (λ tw, set_slots tw (<[Z.to_nat i := l]> (slots tw))).

(** ** Start and stop *)

Definition initSlots (slotNum : Z) : list (list (nat * task)) := replicate (Z.to_nat slotNum) [].

(** nil for a wheel that could not turn. *)
Definition New (interval slotNum : Z) : option TimeWheel :=
  if (interval <=? 0) || (slotNum <=? 0) then None
  else Some (mkWheel interval (initSlots slotNum) ∅ 0 slotNum 0).

Definition Start : M unit := go_modify (λ w, set_loops w (S (loops w))).

(** Sending on a channel that no loop reads never ends. *)
Definition send (m : M unit) : M unit := λ w, match loops w with O => (Block, w) | S _ => m w end.

Definition Stop : M unit := send (go_modify (λ w, set_loops w (pred (loops w)))).

(** ** Tasks *)

(** [l.Remove(e)]. *)
Definition list_remove (e : nat) (l : list (nat * task)) : list (nat * task) := filter (λ x, x.1 ≠ e) l.

Definition removeTaskInternal (key : string) : M unit :=
  tw ← go_get wheel;
  match timer tw !! key with
  | None => mret tt
  | Some pos =>
      l ← slot_at (slot pos);
      _ ← put_slot (slot pos) (list_remove (etask pos) l);
      upd_wheel (λ tw, set_timer tw (delete key (timer tw)))
  end.

Definition removeTask (key : string) : M unit := removeTaskInternal key.

Definition getPositionAndCircle (d : Z) : M (Z * Z) :=
  tw ← go_get wheel;
  let delaySeconds := Seconds d in
  let intervalSeconds := Seconds (interval tw) in
  if intervalSeconds =? 0 then go_panic "integer divide by zero"
  else
    let circle := Z.quot (Z.quot delaySeconds intervalSeconds) (slotNum tw) in
    let pos := Z.rem (int64 (currentPos tw + Z.quot delaySeconds intervalSeconds)) (slotNum tw) in
    mret (pos, circle).

Definition addTask (t : task) : M unit :=
  p ← getPositionAndCircle (delay t);
  let '(pos, circle) := p in
  let t := mkTask (delay t) circle (key t) (job t) in
  tw ← go_get wheel;
  _ ← (if negb (String.eqb (key t) "") && bool_decide (is_Some (timer tw !! key t)) then removeTaskInternal (key t) else mret tt);
  l ← slot_at pos;
  e ← go_get (λ w, elements (wheel w));
  _ ← put_slot pos (l ++ [(e, t)]);
  upd_wheel (λ tw, set_timer (set_elements tw (S e)) (<[key t := mkLocation pos e]> (timer tw))).

Definition AddJob (delay : Z) (key : string) (job : J) : M unit :=
  if delay <? 0 then mret tt else send (addTask (mkTask delay 0 key job)).

Definition RemoveJob (key : string) : M unit :=
  if String.eqb key "" then mret tt else send (removeTask key).

(** ** Ticks *)

Definition tickHandler : M unit :=
  tw ← go_get wheel;
  let pos := currentPos tw in
  _ ← slot_at pos;
  _ ← upd_wheel (λ tw, set_currentPos tw (if currentPos tw =? slotNum tw - 1 then 0 else currentPos tw + 1));
  go_modify (λ w, set_scans w (scans w ++ [ToScan pos])).

(** The scan of a list: what stays of it, the jobs to start and the keys to forget. *)
Fixpoint scan (l : list (nat * task)) : list (nat * task) * list J * list string :=
  match l with
  | [] => ([], [], [])
  | (e, t) :: l' =>
      let '(stay, started, keys) := scan l' in
      if circle t >? 0 then ((e, mkTask (delay t) (circle t - 1) (key t) (job t)) :: stay, started, keys)
      else (stay, job t :: started, if String.eqb (key t) "" then keys else key t :: keys)
  end.

(** The two critical sections of [scanAndRunTask]. *)
Definition scan_slot (i : Z) : M (list string) :=
  l ← slot_at i;
  let '(stay, started, keys) := scan l in
  _ ← put_slot i stay;
  _ ← go_modify (λ w, set_jobs w (jobs w ++ started));
  mret keys.

Definition forget (keys : list string) : M unit :=
  upd_wheel (λ tw, set_timer tw (foldl (λ m k, delete k m) (timer tw) keys)).

(** One step of the [i]-th goroutine that scans. *)
Definition step_scan (i : nat) : M unit :=
  ss ← go_get scans;
  match ss !! i with
  | None => mret tt
  | Some (ToScan p) => keys ← scan_slot p; go_modify (λ w, set_scans w (<[i := ToForget keys]> (scans w)))
  | Some (ToForget keys) => _ ← forget keys; go_modify (λ w, set_scans w (take i (scans w) ++ drop (S i) (scans w)))
  end.

Definition scanAndRunTask (i : Z) : M unit := keys ← scan_slot i; forget keys.

(** ** Runs *)

(** What the loop of [start] takes from its channels. *)
Inductive Event := Tick | Add (delay : Z) (key : string) (job : J) | Cancel (key : string).

(** A tick whose goroutine runs before the next event. *)
Definition tick_scan : M unit := _ ← tickHandler; _ ← step_scan 0; step_scan 0.

Definition run_event (e : Event) : M unit :=
  match e with Tick => tick_scan | Add d k j => AddJob d k j | Cancel k => RemoveJob k end.

Fixpoint run (es : list Event) : M unit :=
  match es with [] => mret tt | e :: es' => _ ← run_event e; run es' end.
End wheel.
Arguments task J : clear implicits.
Arguments TimeWheel J : clear implicits.
Arguments World J : clear implicits.
Arguments Event J : clear implicits.

(** lib/timewheel/delay.go. *)
Definition tw {J} : option (TimeWheel J) := New second 3600.

Section delay.
Context {J : Type}.
Definition Delay (duration : Z) (key : string) (job : J) : GoM (World J) unit := AddJob duration key job.
(** [at.Sub(now)], which saturates; [now] is what [time.Now()] gives. *)
Definition At (at_ now : Z) (key : string) (job : J) : GoM (World J) unit :=
  AddJob (Z.max int64_min (Z.min int64_max (at_ - now))) key job.
Definition CancelJob (key : string) : GoM (World J) unit := RemoveJob key.
End delay.
End TimeWheel.
