(* ===== verification/TimeWheelLaws.v ===== *)
(** * The wheel is a list of countdowns

    Whatever the number of slots, a wheel whose scans are prompt starts the jobs that a plain
    list of countdowns starts, at the same ticks and in the same order. *)

From Stdlib Require Import ZArith Lia Ascii String.
From stdpp Require Import base gmap strings numbers list.
From S2P Require Import Prelude GoStd TimeWheel.

Local Open Scope string_scope.
Local Open Scope list_scope.
Local Open Scope Z_scope.
Local Open Scope go_scope.

Import TimeWheel.

Lemma filter_ext_in {A} (P Q : A → Prop) `{∀ x, Decision (P x), ∀ x, Decision (Q x)} (l : list A) :
  (∀ x, x ∈ l → P x ↔ Q x) → filter P l = filter Q l.
Proof.
  induction l as [|x l IH]; intros HPQ; [done|]. rewrite !filter_cons, IH by (intros y Hy; apply HPQ, elem_of_cons; auto).
  specialize (HPQ x ltac:(apply elem_of_cons; auto)). destruct (decide (P x)), (decide (Q x)); tauto.
Qed.

Lemma filter_fmap {A B} (f : A → B) (P : B → Prop) `{∀ x, Decision (P x)} (l : list A) : filter P (f <$> l) = f <$> filter (λ x, P (f x)) l.
Proof. induction l as [|x l IH]; [done|]. cbn [fmap list_fmap]. rewrite !filter_cons, IH. by destruct (decide (P (f x))). Qed.

Section laws.
Context {J : Type}.

(** ** The reference *)

(** A job that is started at the tick after [left] more ones. *)
Record Pending := mkPending { left : Z; pdelay : Z; pkey : string; pjob : J }.

Definition dec (p : Pending) : Pending := mkPending (left p - 1) (pdelay p) (pkey p) (pjob p).

(** A key stands for one job; the empty key for none. *)
Definition drop_key (k : string) (ps : list Pending) : list Pending :=
  if String.eqb k "" then ps else filter (λ p, pkey p ≠ k) ps.

(** The ticks of a delay. *)
Definition ticks_of (interval d : Z) : Z := Seconds d / Seconds interval.

Definition spec_event (interval : Z) (e : Event J) (ps : list Pending) : list Pending * list J :=
  match e with
  | Tick => (dec <$> filter (λ p, left p ≠ 0) ps, pjob <$> filter (λ p, left p = 0) ps)
  | Add d k j => (if d <? 0 then ps else drop_key k ps ++ [mkPending (ticks_of interval d) d k j], [])
  | Cancel k => (drop_key k ps, [])
  end.

Fixpoint spec_run (interval : Z) (es : list (Event J)) (ps : list Pending) : list Pending * list J :=
  match es with
  | [] => (ps, [])
  | e :: es' => let '(ps1, js1) := spec_event interval e ps in let '(ps2, js2) := spec_run interval es' ps1 in (ps2, js1 ++ js2)
  end.

(** ** The representation *)

Section rep.
Context (N : Z).

(** The slot of a job when [cur] is the position of the wheel, and its element. *)
Definition pos_of (cur : Z) (x : nat * Pending) : Z := (cur + left x.2) mod N.
Definition element (x : nat * Pending) : nat * task J := (x.1, mkTask (pdelay x.2) (left x.2 / N) (pkey x.2) (pjob x.2)).

Record wheel_rep (tw : TimeWheel J) (es : list (nat * Pending)) : Prop := {
  wr_num : slotNum tw = N ∧ 0 < N;
  wr_cur : 0 ≤ currentPos tw < N;
  wr_length : length (slots tw) = Z.to_nat N;
  wr_slots : ∀ s, 0 ≤ s < N → slots tw !! Z.to_nat s = Some (element <$> filter (λ x, pos_of (currentPos tw) x = s) es);
  wr_left : ∀ x, x ∈ es → 0 ≤ left x.2;
  wr_ids : NoDup es.*1;
  wr_fresh : ∀ x, x ∈ es → (x.1 < elements tw)%nat;
  wr_keys : ∀ x y, x ∈ es → y ∈ es → pkey x.2 = pkey y.2 → pkey x.2 ≠ "" → x = y;
  wr_timer : ∀ k loc, k ≠ "" → timer tw !! k = Some loc ↔ ∃ x, x ∈ es ∧ pkey x.2 = k ∧ loc = mkLocation (pos_of (currentPos tw) x) x.1
}.

Lemma rep_id_inj tw es x y : wheel_rep tw es → x ∈ es → y ∈ es → x.1 = y.1 → x = y.
Proof.
  intros R [i Hi]%list_elem_of_lookup [j Hj]%list_elem_of_lookup E. assert (i = j) as ->; [|congruence].
  apply (NoDup_lookup _ i j x.1 (wr_ids _ _ R)); rewrite list_lookup_fmap; [by rewrite Hi|rewrite Hj; cbn; by rewrite E].
Qed.

Lemma pos_of_range cur x : 0 < N → 0 ≤ pos_of cur x < N.
Proof. intros HN. apply Z.mod_pos_bound. lia. Qed.

Lemma slot_at_run (w : World J) es s : wheel_rep (wheel w) es → 0 ≤ s < N →
  slot_at s w = (Ret (element <$> filter (λ x, pos_of (currentPos (wheel w)) x = s) es), w).
Proof.
  intros R Hs. unfold slot_at. erewrite bind_Ret by reflexivity. rewrite (proj2 (Z.ltb_ge _ _)) by lia. by rewrite (wr_slots _ _ R).
Qed.

(** The slots after one of them has been replaced. *)
Lemma put_slot_lookup (tw : TimeWheel J) l s t : length (slots tw) = Z.to_nat N → 0 ≤ s < N → 0 ≤ t < N →
  <[Z.to_nat s := l]> (slots tw) !! Z.to_nat t = if decide (t = s) then Some l else slots tw !! Z.to_nat t.
Proof.
  intros Hl Hs Ht. destruct (decide (t = s)) as [->|Hne]; [apply list_lookup_insert_eq; lia|apply list_lookup_insert_ne; lia].
Qed.

Lemma remove_run (w : World J) es k : wheel_rep (wheel w) es → k ≠ "" →
  ∃ tw, removeTaskInternal k w = (Ret tt, set_wheel w tw) ∧ wheel_rep tw (filter (λ x, pkey x.2 ≠ k) es) ∧
    interval tw = interval (wheel w) ∧ currentPos tw = currentPos (wheel w) ∧ timer tw !! k = None.
Proof.
  intros R Hk. unfold removeTaskInternal. erewrite bind_Ret by reflexivity. destruct (timer (wheel w) !! k) as [loc|] eqn:Et.
  - pose proof Et as (x & Hx & Hxk & ->)%(wr_timer _ _ R); [|done]. cbn [slot etask]. set (cur := currentPos (wheel w)) in *.
    pose proof (proj2 (wr_num _ _ R)) as HN. pose proof (pos_of_range cur x HN) as Hp.
    rewrite (bind_Ret _ _ _ _ _ (slot_at_run w es _ R Hp)). fold cur. erewrite bind_Ret by reflexivity. cbv beta.
    eexists. split; [unfold upd_wheel, go_modify; cbn; reflexivity|]. split; [|cbn; by rewrite lookup_delete_eq].
    assert (∀ y, y ∈ es → pkey y.2 = k ↔ y = x) as Huniq.
    { intros y Hy. split; [|by intros ->]. intros Hyk. apply (wr_keys _ _ R); congruence. }
    destruct R as [R1 R2 R3 R4 R5 R6 R7 R8 R9]. fold cur in R2, R4, R9. split; cbn; fold cur; try done.
    + by rewrite length_insert.
    + intros s Hs. rewrite put_slot_lookup by done. unfold list_remove. rewrite list_filter_filter. destruct (decide (s = pos_of cur x)) as [->|Hne].
      * f_equal. rewrite filter_fmap, list_filter_filter. f_equal. apply filter_ext_in. intros y Hy. cbn. rewrite (Huniq y Hy).
        enough (y.1 = x.1 ↔ y = x) by tauto. split; [|by intros ->]. intros E.
        by apply (rep_id_inj (wheel w) es); [split|..].
      * rewrite R4 by done. f_equal. f_equal. apply filter_ext_in. intros y Hy. rewrite (Huniq y Hy). split; [|tauto]. intros <-. split; [done|]. by intros ->.
    + intros y [_ Hy]%list_elem_of_filter. by apply R5.
    + apply (sublist_NoDup _ es.*1); [done|]. apply fmap_sublist, sublist_filter.
    + intros y [_ Hy]%list_elem_of_filter. by apply R7.
    + intros y z [_ Hy]%list_elem_of_filter [_ Hz]%list_elem_of_filter. by apply R8.
    + intros k' loc Hk'. destruct (decide (k' = k)) as [->|Hne].
      * rewrite lookup_delete_eq. split; [done|]. intros (y & [Hyk _]%list_elem_of_filter & Hyk' & _). done.
      * rewrite lookup_delete_ne, (R9 k' loc Hk') by done. split; intros (y & Hy & Hyk & Hloc); exists y; rewrite list_elem_of_filter in *; naive_solver.
  - exists (wheel w). split; [by destruct w|]. split; [|done]. rewrite filter_all; [done|].
    apply Forall_forall. intros x Hx Hxk. destruct (timer (wheel w) !! k) eqn:E; [done|]. assert (timer (wheel w) !! k = Some (mkLocation (pos_of (currentPos (wheel w)) x) x.1)) as E'; [|congruence].
    apply (wr_timer _ _ R); [done|]. by exists x.
Qed.

(** What [drop_key] does to the list with identities. *)
Definition drop_id (k : string) (es : list (nat * Pending)) : list (nat * Pending) :=
  if String.eqb k "" then es else filter (λ x, pkey x.2 ≠ k) es.

Lemma drop_id_spec k es : (drop_id k es).*2 = drop_key k es.*2.
Proof. unfold drop_id, drop_key. destruct (String.eqb k ""); [done|]. by rewrite filter_fmap. Qed.

(** A delay that is measured, by the clock of the wheel, without overflow. *)
Definition measured (d : Z) : Prop := 0 ≤ Seconds d ≤ 4611686018427387904.

Lemma position_run (w : World J) es d : wheel_rep (wheel w) es → measured d → 1 ≤ Seconds (interval (wheel w)) → N ≤ 4611686018427387904 →
  let n := ticks_of (interval (wheel w)) d in 0 ≤ n ∧ getPositionAndCircle d w = (Ret ((currentPos (wheel w) + n) mod N, n / N), w).
Proof.
  intros R [Hd1 Hd2] Hi HN n. destruct (wr_num _ _ R) as [En HN0]. pose proof (wr_cur _ _ R) as Hc. unfold getPositionAndCircle. erewrite bind_Ret by reflexivity.
  cbv zeta. rewrite (proj2 (Z.eqb_neq _ _)) by lia. rewrite En. unfold n, ticks_of. rewrite (Z.quot_div_nonneg (Seconds d)) by lia.
  assert (0 ≤ Seconds d / Seconds (interval (wheel w)) ≤ Seconds d) as Hq.
  { split; [apply Z.div_pos; lia|]. apply Z.div_le_upper_bound; nia. }
  split; [lia|]. rewrite int64_id by (unfold is_int64, int64_min, int64_max; lia). by rewrite Z.quot_div_nonneg, Z.rem_mod_nonneg by lia.
Qed.

(** A new job at the end of its slot. *)
Lemma rep_add tw es p : wheel_rep tw es → 0 ≤ left p → (pkey p = "" ∨ timer tw !! pkey p = None) →
  let e := elements tw in let s := pos_of (currentPos tw) (e, p) in
  wheel_rep (set_timer (set_elements (set_slots tw (<[Z.to_nat s := (element <$> filter (λ x, pos_of (currentPos tw) x = s) es) ++ [element (e, p)]]> (slots tw))) (S e))
      (<[pkey p := mkLocation s e]> (timer tw))) (es ++ [(e, p)]).
Proof.
  intros [R1 R2 R3 R4 R5 R6 R7 R8 R9] Hp Hk e s. pose proof (pos_of_range (currentPos tw) (e, p) (proj2 R1)) as Hs. fold s in Hs.
  assert (pkey p = "" ∨ ∀ x, x ∈ es → pkey x.2 ≠ pkey p) as Hnew.
  { destruct (decide (pkey p = "")) as [E|E]; [by left|right]. destruct Hk as [Hk|Hk]; [done|]. intros x Hx Hxp.
    assert (timer tw !! pkey p = Some (mkLocation (pos_of (currentPos tw) x) x.1)) as Ht; [|congruence]. apply R9; [done|]. by exists x. }
  split; cbn; try done.
  - by rewrite length_insert.
  - intros t Ht. rewrite put_slot_lookup by done. rewrite filter_app, fmap_app, filter_cons. change (pos_of _ (e, p)) with s. destruct (decide (t = s)) as [->|Hne].
    + by rewrite decide_True by done.
    + rewrite decide_False by done. cbn. rewrite app_nil_r. by apply R4.
  - intros x [Hx| ->%list_elem_of_singleton]%elem_of_app; [by apply R5|done].
  - rewrite fmap_app. apply NoDup_app. split_and!; [done| |apply NoDup_singleton]. intros y (x & -> & Hx)%list_elem_of_fmap Hy%list_elem_of_singleton.
    specialize (R7 x Hx). cbn in Hy. fold e in R7. lia.
  - intros x [Hx| ->%list_elem_of_singleton]%elem_of_app; [specialize (R7 x Hx)|cbn]; fold e in R7; fold e; lia.
  - intros x y [Hx| ->%list_elem_of_singleton]%elem_of_app [Hy| ->%list_elem_of_singleton]%elem_of_app Hxy Hne; [by apply R8| | |done]; cbn in *;
      (destruct Hnew as [Hnew|Hnew]; [congruence|]); exfalso; by eapply Hnew.
  - intros k loc Hkne. destruct (decide (k = pkey p)) as [->|Hne].
    + rewrite lookup_insert_eq. split; [intros [= <-]; exists (e, p); split_and!; [set_solver|done|done]|].
      intros (x & [Hx| ->%list_elem_of_singleton]%elem_of_app & Hxk & ->); [|done]. destruct Hnew as [Hnew|Hnew]; [done|]. by apply Hnew in Hxk.
    + rewrite lookup_insert_ne, R9 by done. split; intros (x & Hx & Hxk & ->); exists x; [split_and!; [set_solver|done|done]|].
      apply elem_of_app in Hx as [Hx| ->%list_elem_of_singleton]; [done|]. by cbn in Hxk.
Qed.

Lemma add_run (w : World J) es d k j : wheel_rep (wheel w) es → measured d → 1 ≤ Seconds (interval (wheel w)) → N ≤ 4611686018427387904 →
  let p := mkPending (ticks_of (interval (wheel w)) d) d k j in
  ∃ tw e, addTask (mkTask d 0 k j) w = (Ret tt, set_wheel w tw) ∧ wheel_rep tw (drop_id k es ++ [(e, p)]) ∧ interval tw = interval (wheel w).
Proof.
  intros R Hd Hi HN p. destruct (position_run w es d R Hd Hi HN) as [Hp Epos]. unfold addTask. rewrite (bind_Ret _ _ _ _ _ Epos). cbv beta iota zeta. cbn [delay key job].
  erewrite bind_Ret by reflexivity. cbv beta. set (cur := currentPos (wheel w)) in *.
  assert (∃ tw, (if negb (String.eqb k "") && bool_decide (is_Some (timer (wheel w) !! k)) then removeTaskInternal k else mret tt) w = (Ret tt, set_wheel w tw) ∧
    wheel_rep tw (drop_id k es) ∧ interval tw = interval (wheel w) ∧ currentPos tw = cur ∧ (k = "" ∨ timer tw !! k = None)) as (tw & E1 & R1 & Ei & Ec & Ht).
  { unfold drop_id. destruct (String.eqb_spec k "") as [Hk|Hk]; cbn [negb andb]; [exists (wheel w); split; [by destruct w|by split_and!; try left]|].
    destruct (remove_run w es k R Hk) as (tw & E & R1 & Ei & Ec & Et). case_bool_decide as Hs; [exists tw; by split_and!; try right|].
    exists (wheel w). split; [by destruct w|]. split_and!; [|done|done|right; by apply eq_None_not_Some]. rewrite filter_all; [done|].
    apply Forall_forall. intros x Hx Hxk. apply Hs. eexists. apply (wr_timer _ _ R); [done|]. by exists x. }
  rewrite (bind_Ret _ _ _ _ _ E1). cbv beta. set (w1 := set_wheel w tw). set (e := elements tw).
  assert (pos_of cur (e, p) = (cur + ticks_of (interval (wheel w)) d) mod N) as Epp by done. pose proof (pos_of_range cur (e, p) (proj2 (wr_num _ _ R))) as Hr.
  rewrite <-Epp. rewrite <-Ec in Hr, Epp |- *. rewrite (bind_Ret _ _ _ _ _ (slot_at_run w1 _ _ R1 Hr)). cbv beta. erewrite bind_Ret by reflexivity. cbv beta. erewrite bind_Ret by reflexivity.
  eexists _, e. split; [unfold upd_wheel, go_modify; cbn; reflexivity|]. split; [exact (rep_add tw _ p R1 Hp Ht)|done].
Qed.

(** ** Ticks *)

Definition dec_id (x : nat * Pending) : nat * Pending := (x.1, dec x.2).

(** The scan of a slot: its jobs are a whole number of turns away. *)
Lemma scan_spec l : 0 < N → (∀ x, x ∈ l → 0 ≤ left x.2 ∧ left x.2 mod N = 0) →
  scan (element <$> l) = (element <$> (dec_id <$> filter (λ x, left x.2 ≠ 0) l), pjob <$> (filter (λ x, left x.2 = 0) l).*2,
    filter (λ k, k ≠ "") (pkey <$> (filter (λ x, left x.2 = 0) l).*2)).
Proof.
  intros HN. induction l as [|x l IH]; intros Hl; [done|]. destruct (Hl x ltac:(apply elem_of_cons; auto)) as [H1 H2].
  cbn [fmap list_fmap scan element]. rewrite IH by (intros y Hy; apply Hl, elem_of_cons; auto). rewrite !filter_cons. cbn [circle key delay job].
  destruct (decide (left x.2 = 0)) as [E|E].
  - rewrite decide_False by naive_solver. rewrite E, Z.div_0_l by lia. cbn [Z.gtb Z.compare]. cbn [fmap list_fmap]. rewrite filter_cons.
    destruct (String.eqb_spec (pkey x.2) ""); [by rewrite decide_False by naive_solver|by rewrite decide_True by done].
  - rewrite decide_True by done. pose proof (Z.div_mod (left x.2) N ltac:(lia)) as Hdm.
    assert (1 ≤ left x.2 / N) as Hd by (pose proof (Z.div_pos (left x.2) N H1 HN); assert (left x.2 / N ≠ 0) by (intros E0; rewrite E0 in Hdm; lia); lia).
    rewrite (proj2 (Z.gtb_lt _ _)) by lia. cbn [fmap list_fmap]. change (element (dec_id x)) with (x.1, mkTask (pdelay x.2) ((left x.2 - 1) / N) (pkey x.2) (pjob x.2)).
    replace ((left x.2 - 1) / N) with (left x.2 / N - 1); [done|]. apply (Z.div_unique _ _ _ (N - 1)); lia.
Qed.

Lemma next_pos cur : 0 ≤ cur < N → (if cur =? N - 1 then 0 else cur + 1) = (cur + 1) mod N.
Proof.
  intros Hc. destruct (Z.eqb_spec cur (N - 1)) as [->|]; [|by rewrite Z.mod_small by lia].
  replace (N - 1 + 1) with N by lia. by rewrite Z.mod_same by lia.
Qed.

Lemma pos_dec cur x : 0 < N → pos_of ((cur + 1) mod N) (dec_id x) = pos_of cur x.
Proof. intros HN. unfold pos_of. cbn. rewrite Zplus_mod_idemp_l. f_equal. lia. Qed.

(** A job is in the current slot when it is a whole number of turns away. *)
Lemma pos_current cur x : 0 ≤ cur < N → pos_of cur x = cur ↔ left x.2 mod N = 0.
Proof.
  intros Hc. unfold pos_of. split; intros E.
  - pose proof (Z.div_mod (cur + left x.2) N ltac:(lia)) as Hd. rewrite E in Hd. replace (left x.2) with ((cur + left x.2) / N * N) by lia. apply Z.mod_mul. lia.
  - rewrite Z.add_mod, E, Z.add_0_r, Z.mod_mod, Z.mod_small by lia. done.
Qed.

Lemma element_dec x : 0 < N → 0 ≤ left x.2 → left x.2 mod N ≠ 0 → element (dec_id x) = element x.
Proof.
  intros HN H1 H2. unfold element. cbn. do 2 f_equal. symmetry. apply (Z.div_unique _ _ _ (left x.2 mod N - 1)); pose proof (Z.mod_pos_bound (left x.2) N); pose proof (Z.div_mod (left x.2) N); lia.
Qed.

Lemma forget_lookup (keys : list string) (m : gmap string location) k : foldl (λ m k, delete k m) m keys !! k = if decide (k ∈ keys) then None else m !! k.
Proof.
  revert m. induction keys as [|k' keys IH]; intros m; [done|]. cbn [foldl]. rewrite IH.
  destruct (decide (k = k')) as [->|Hne]; [rewrite (decide_True (P := k' ∈ k' :: keys)), lookup_delete_eq by (apply elem_of_cons; auto); by destruct (decide _)|].
  rewrite lookup_delete_ne by done. destruct (decide (k ∈ keys)) as [Hk|Hk]; [by rewrite decide_True by (apply elem_of_cons; auto)|].
  rewrite decide_False; [done|]. rewrite elem_of_cons. tauto.
Qed.

(** The wheel after a tick whose slot has been scanned. *)
Definition ticked (tw : TimeWheel J) (stay : list (nat * task J)) (keys : list string) : TimeWheel J :=
  set_timer (set_slots (set_currentPos tw ((currentPos tw + 1) mod N)) (<[Z.to_nat (currentPos tw) := stay]> (slots tw))) (foldl (λ m k, delete k m) (timer tw) keys).

Lemma rep_tick tw es : wheel_rep tw es →
  let due := filter (λ x, left x.2 = 0) es in
  let l := filter (λ x, pos_of (currentPos tw) x = currentPos tw) es in
  wheel_rep (ticked tw (element <$> (dec_id <$> filter (λ x, left x.2 ≠ 0) l)) (filter (λ k, k ≠ "") (pkey <$> due.*2))) (dec_id <$> filter (λ x, left x.2 ≠ 0) es).
Proof.
  intros [R1 R2 R3 R4 R5 R6 R7 R8 R9] due l. set (cur := currentPos tw) in *. destruct R1 as [En HN].
  assert (∀ y, y ∈ (dec_id <$> filter (λ x, left x.2 ≠ 0) es) → ∃ x, y = dec_id x ∧ x ∈ es ∧ left x.2 ≠ 0) as Hin.
  { intros y (x & -> & [Hx1 Hx2]%list_elem_of_filter)%list_elem_of_fmap. by exists x. }
  split; cbn; fold cur; try done.
  - by apply Z.mod_pos_bound.
  - by rewrite length_insert.
  - intros s Hs. rewrite put_slot_lookup by done. rewrite filter_fmap. destruct (decide (s = cur)) as [->|Hne].
    + unfold l. rewrite !list_filter_filter. do 3 f_equal. apply filter_ext_in. intros x Hx. rewrite pos_dec by done. tauto.
    + rewrite R4 by done. f_equal. rewrite list_filter_filter, <-list_fmap_compose.
      rewrite (filter_ext_in (λ x, pos_of cur x = s) (λ x, pos_of ((cur + 1) mod N) (dec_id x) = s ∧ left x.2 ≠ 0)).
      * apply list_fmap_ext. intros i x Hx%list_elem_of_lookup_2%list_elem_of_filter. destruct Hx as [[Hx1 Hx2] Hx3]. rewrite pos_dec in Hx1 by done.
        cbn. rewrite element_dec; [done..|by apply R5|]. intros E. apply (pos_current cur x R2) in E. congruence.
      * intros x Hx. rewrite pos_dec by done. split; [|tauto]. intros E. split; [done|]. intros E0. apply Hne. rewrite <-E. apply pos_current; [done|]. by rewrite E0.
  - intros y (x & -> & Hx & Hne)%Hin. cbn. specialize (R5 x Hx). lia.
  - rewrite <-list_fmap_compose. change (fst ∘ dec_id) with (fst : nat * Pending → nat). apply (sublist_NoDup _ es.*1); [done|]. apply fmap_sublist, sublist_filter.
  - intros y (x & -> & Hx & _)%Hin. cbn. by apply R7.
  - intros y z (x & -> & Hx & _)%Hin (x' & -> & Hx' & _)%Hin Hxx Hne. cbn in *. by rewrite (R8 x x').
  - intros k loc Hk. rewrite forget_lookup. destruct (decide _) as [Hin'|Hin'].
    + split; [done|]. intros (y & (x & -> & Hx & Hne)%Hin & Hxk & _). cbn in Hxk.
      apply list_elem_of_filter in Hin' as [_ (p & Ep & (z & -> & [Hz0 Hz]%list_elem_of_filter)%list_elem_of_fmap)%list_elem_of_fmap].
      assert (x = z) as -> by (apply R8; congruence). done.
    + rewrite R9 by done. split.
      * intros (x & Hx & Hxk & ->). exists (dec_id x). rewrite pos_dec by done. split_and!; [|done|done]. apply list_elem_of_fmap_2, list_elem_of_filter. split; [|done].
        intros E0. apply Hin'. rewrite list_elem_of_filter. split; [done|]. rewrite <-Hxk. apply list_elem_of_fmap_2, list_elem_of_fmap_2, list_elem_of_filter. done.
      * intros (y & (x & -> & Hx & Hne)%Hin & Hxk & ->). exists x. by rewrite pos_dec.
Qed.

Lemma tick_run (w : World J) es : wheel_rep (wheel w) es → scans w = [] →
  ∃ tw, tick_scan w = (Ret tt, mkWorld tw [] (jobs w ++ (pjob <$> (filter (λ x, left x.2 = 0) es).*2)) (loops w)) ∧
    wheel_rep tw (dec_id <$> filter (λ x, left x.2 ≠ 0) es) ∧ interval tw = interval (wheel w).
Proof.
  intros R Hsc. pose proof (wr_num _ _ R) as [En HN]. pose proof (wr_cur _ _ R) as Hc. pose proof (rep_tick _ _ R) as R'. cbv zeta in R'.
  set (cur := currentPos (wheel w)) in *. set (l := filter (λ x, pos_of cur x = cur) es) in *. unfold tick_scan.
  set (tw1 := set_currentPos (wheel w) ((cur + 1) mod N)). set (w1 := mkWorld tw1 [ToScan cur] (jobs w) (loops w)).
  assert (tickHandler w = (Ret tt, w1)) as E1.
  { unfold tickHandler. erewrite bind_Ret by reflexivity. cbv zeta. fold cur. rewrite (bind_Ret _ _ _ _ _ (slot_at_run w es cur R Hc)). erewrite bind_Ret by reflexivity.
    unfold go_modify, w1, tw1. cbn. by rewrite Hsc, En, next_pos. }
  rewrite (bind_Ret _ _ _ _ _ E1). assert (slot_at cur w1 = (Ret (element <$> l), w1)) as E2.
  { unfold slot_at. erewrite bind_Ret by reflexivity. rewrite (proj2 (Z.ltb_ge _ _)) by lia. cbn [wheel w1 tw1 slots set_currentPos]. by rewrite (wr_slots _ _ R). }
  assert (∀ x, x ∈ l → 0 ≤ left x.2 ∧ left x.2 mod N = 0) as Hl.
  { intros x [Hx1 Hx2]%list_elem_of_filter. split; [by apply (wr_left _ _ R)|by apply (pos_current cur)]. }
  assert (filter (λ x, left x.2 = 0) l = filter (λ x, left x.2 = 0) es) as Hdue.
  { unfold l. rewrite list_filter_filter. apply filter_ext_in. intros x Hx. split; [tauto|]. intros E0. split; [done|]. apply pos_current; [done|]. by rewrite E0. }
  pose proof (scan_spec l HN Hl) as Esc. rewrite Hdue in Esc. erewrite bind_Ret; cycle 1.
  { unfold step_scan. erewrite bind_Ret by reflexivity. cbn [scans w1 lookup list_lookup]. unfold scan_slot. erewrite bind_Ret.
    2: { rewrite (bind_Ret _ _ _ _ _ E2). rewrite Esc. erewrite bind_Ret by reflexivity. erewrite bind_Ret by reflexivity. reflexivity. }
    reflexivity. }
  eexists. split; [unfold step_scan, forget, upd_wheel, go_modify; cbn; reflexivity|]. split; [exact R'|done].
Qed.
End rep.

(** ** Runs *)

Definition served (w : World J) : Prop := scans w = [] ∧ loops w ≠ O.

Definition ok_event (e : Event J) : Prop := match e with Add d _ _ => d < 0 ∨ measured d | _ => True end.

Definition max_slots : Z := 4611686018427387904.

Lemma wheel_event_run N (w : World J) es e : wheel_rep N (wheel w) es → served w → 1 ≤ Seconds (interval (wheel w)) → N ≤ max_slots → ok_event e →
  ∃ w' es', run_event e w = (Ret tt, w') ∧ wheel_rep N (wheel w') es' ∧ served w' ∧ interval (wheel w') = interval (wheel w) ∧
    (es'.*2, jobs w') = let '(ps, js) := spec_event (interval (wheel w)) e es.*2 in (ps, jobs w ++ js).
Proof.
  intros R [Hs Hl] Hi HN He. assert (∀ m, send m w = m w) as Hsend by (intros m; unfold send; by destruct (loops w)).
  destruct e as [|d k j|k]; cbn [run_event spec_event].
  - destruct (tick_run N w es R Hs) as (tw & E & R' & Ei). eexists _, _. split; [exact E|]. split_and!; [exact R'|done|done|].
    cbn [jobs]. f_equal; [|by rewrite filter_fmap]. by rewrite filter_fmap, <-!list_fmap_compose.
  - unfold AddJob. destruct (Z.ltb_spec d 0) as [Hd|Hd]; [exists w, es; split_and!; try done; by rewrite app_nil_r|].
    destruct He as [He|He]; [lia|]. rewrite Hsend. destruct (add_run N w es d k j R He Hi HN) as (tw & e & E & R' & Ei).
    eexists _, _. split; [exact E|]. split_and!; [exact R'|done|done|]. cbn [jobs set_wheel]. by rewrite fmap_app, drop_id_spec, app_nil_r.
  - unfold RemoveJob, drop_key. destruct (String.eqb_spec k "") as [->|Hk]; [exists w, es; split_and!; try done; by rewrite app_nil_r|].
    rewrite Hsend. destruct (remove_run N w es k R Hk) as (tw & E & R' & Ei & _). eexists _, _. split; [exact E|]. split_and!; [exact R'|done|done|].
    cbn [jobs set_wheel]. by rewrite filter_fmap, app_nil_r.
Qed.

Lemma wheel_events_run N evs (w : World J) es : wheel_rep N (wheel w) es → served w → 1 ≤ Seconds (interval (wheel w)) → N ≤ max_slots → Forall ok_event evs →
  ∃ w' es', run evs w = (Ret tt, w') ∧ wheel_rep N (wheel w') es' ∧ served w' ∧ interval (wheel w') = interval (wheel w) ∧
    (es'.*2, jobs w') = let '(ps, js) := spec_run (interval (wheel w)) evs es.*2 in (ps, jobs w ++ js).
Proof.
  intros R Hs Hi HN Hok. revert w es R Hs Hi. induction Hok as [|e evs He _ IH]; intros w es R Hs Hi.
  { exists w, es. split_and!; try done. cbn. by rewrite app_nil_r. }
  destruct (wheel_event_run N w es e R Hs Hi HN He) as (w1 & es1 & E1 & R1 & Hs1 & Ei1 & Esp1). cbn [run spec_run]. rewrite (bind_Ret _ _ _ _ _ E1).
  destruct (spec_event _ e _) as [ps1 js1] eqn:Ee. injection Esp1 as <- Ej1. destruct (IH w1 es1 R1 Hs1 ltac:(by rewrite Ei1)) as (w2 & es2 & E2 & R2 & Hs2 & Ei2 & Esp2).
  exists w2, es2. split_and!; [done|done|done|congruence|]. rewrite Ei1 in Esp2. destruct (spec_run _ evs _) as [ps2 js2]. rewrite Esp2, Ej1. by rewrite app_assoc.
Qed.

Lemma new_wheel_rep i n : 0 < i → 0 < n → ∃ tw, New i n = Some tw ∧ wheel_rep n tw [] ∧ interval tw = i.
Proof.
  intros Hi Hn. unfold New. rewrite !(proj2 (Z.leb_gt _ _)) by lia. cbn [orb]. eexists. split; [done|]. split; [|done].
  split; cbn; try done; try lia; try (by intros x ?%elem_of_nil).
  - unfold initSlots. by rewrite length_replicate.
  - intros s Hs. unfold initSlots. apply lookup_replicate_2. lia.
  - constructor.
  - by intros x y ?%elem_of_nil.
  - intros k loc _. rewrite lookup_empty. split; [done|]. by intros (x & ?%elem_of_nil & _).
Qed.

(** [C23] The time wheel is a list of countdowns: let a wheel with at least one and at most 2^62 slots
    and an interval of at least one second (a shorter one makes the division of its seconds
    panic) be started and serve any sequence of ticks, additions (negative delays included, which
    are dropped; others have at most 2^62 seconds) and cancellations, every scan finishing
    before the next of them.  It never fails, and it starts exactly the jobs, in the same
    order, of a list in which every job is noted with the whole number of intervals in its
    delay, a tick starts those that have none left and counts down the others, and a job
    replaces the one with the same key, the empty key excepted. *)
Theorem timewheel_refines (i n : Z) (evs : list (Event J)) : 0 < i → 1 ≤ Seconds i → 0 < n ≤ max_slots → Forall ok_event evs →
  ∃ tw w, New i n = Some tw ∧ (_ ← Start; run evs) (mkWorld tw [] [] 0) = (Ret tt, w) ∧ jobs w = (spec_run i evs []).2.
Proof.
  intros Hi Hs Hn Hok. destruct (new_wheel_rep i n Hi ltac:(lia)) as (tw & E & R & Ei).
  destruct (wheel_events_run n evs (mkWorld tw [] [] 1) [] R) as (w & es & Er & _ & _ & _ & Esp); [done|by rewrite <-Ei in Hs|lia|done|].
  exists tw, w. split; [done|]. split; [exact Er|]. cbn in Esp. rewrite Ei in Esp. destruct (spec_run i evs []) as [ps js]. by injection Esp.
Qed.
End laws.
Arguments Pending J : clear implicits.

Definition demo_events : list (Event nat) :=
  [Add (4 * second) "a" 1%nat; Add 500000000 "b" 2%nat; Tick; Add second "a" 3%nat; Tick; Tick; Cancel "b"; Tick; Tick].

Lemma timewheel_refines_witness : ∃ tw w, New second 3 = Some tw ∧ (_ ← Start; run demo_events) (mkWorld tw [] [] 0) = (Ret tt, w) ∧ jobs w = [2; 3]%nat.
Proof.
  apply (timewheel_refines second 3 demo_events); [done|done|done|]. unfold demo_events. rewrite !Forall_cons. split_and!; try done; right; by vm_compute.
Defined.

(** A scan that is late forgets the wrong job: between its two steps a new job with the same
    key was added, and can no longer be cancelled. *)
Example late_scan_forgets : ∃ tw, New second 3 = Some tw ∧
  jobs ((_ ← AddJob 0 "a" 1%nat; _ ← tickHandler; _ ← step_scan 0; _ ← AddJob 0 "a" 2%nat; _ ← step_scan 0; _ ← RemoveJob "a"; tick_scan)
    (mkWorld tw [] [] 1)).2 = [1; 2]%nat.
Proof. eexists. split; [reflexivity|]. vm_compute. reflexivity. Qed.
