(* ===== verification/Expiry.v ===== *)
(** * Keys that expire: database.go with the time wheel

    [Expire] leaves a job in the wheel that removes the key when its time has come.  The wheel
    counts whole seconds, so that the job comes up to a second too early, finds the key alive,
    and does not come again. *)

From Stdlib Require Import ZArith Lia Ascii String.
From stdpp Require Import base gmap strings numbers list.
From S2P Require Import Prelude GoStd Dict DB Exec TimeWheel TimeWheelLaws.

Local Open Scope string_scope.
Local Open Scope list_scope.
Local Open Scope Z_scope.
Local Open Scope go_scope.

Import TimeWheel.

Section expiry.
Context `{Env}.

(** Before its time a key is left alone. *)
Lemma early_job_does_nothing db key e : cd_shape (data db) → unlocked (data db) → Concurrent.Get (ttlMap db) key = Some e →
  time_now (draws db) ≤ e → DBOps.expireTask key db = (Ret tt, set_draws db (S (draws db))).
Proof.
  intros Hd Hu Ht He. destruct (rwlocks_roundtrip (data db) [key] [] Hd Hu) as (d' & E1 & _ & E2). unfold DBOps.expireTask.
  set (db1 := set_data db d'). assert (DBOps.RWLocks [key] [] db = (Ret tt, db1)) as EL by (unfold DBOps.RWLocks; by rewrite E1).
  rewrite (bind_Ret _ _ _ _ _ EL). unfold go_defer. set (db2 := set_draws db1 (S (draws db))).
  match goal with |- context [mbind ?k ?m db1] => assert (mbind k m db1 = (Ret tt, db2)) as -> end.
  { erewrite bind_Ret by reflexivity. change (ttlMap db1) with (ttlMap db). rewrite Ht. erewrite bind_Ret by reflexivity.
    change (time_now (draws db1)) with (time_now (draws db)). rewrite Z.gtb_ltb, (proj2 (Z.ltb_ge _ _)) by done. done. }
  unfold DBOps.RWUnLocks. change (data db2) with d'. rewrite E2. by destruct db.
Qed.

(** ** Ticks alone *)

Definition ticks (m : nat) : list (Event string) := replicate m Tick.

Lemma spec_ticks i m ps : (∀ p, p ∈ ps → 0 ≤ left p) →
  (∀ j, j ∈ (spec_run i (ticks m) ps).2 ↔ ∃ p, p ∈ ps ∧ pjob p = j ∧ left p < Z.of_nat m) ∧
  (∀ j, j ∈ pjob <$> (spec_run i (ticks m) ps).1 ↔ ∃ p, p ∈ ps ∧ pjob p = j ∧ Z.of_nat m ≤ left p).
Proof.
  revert ps. induction m as [|m IH]; intros ps Hps.
  { split; intros j; cbn.
    - split; [by intros ?%elem_of_nil|]. intros (p & Hp & _ & Hl). specialize (Hps p Hp). lia.
    - rewrite list_elem_of_fmap. split; [intros (p & -> & Hp)|intros (p & Hp & <- & _)]; [|eauto]. exists p. split_and!; [done|done|by apply Hps]. }
  cbn [ticks replicate spec_run spec_event]. fold (ticks m). specialize (IH (dec <$> filter (λ p, left p ≠ 0) ps)). destruct (spec_run i (ticks m) _) as [ps2 js2].
  assert (∀ q, q ∈ dec <$> filter (λ p, left p ≠ 0) ps ↔ ∃ p, q = dec p ∧ left p ≠ 0 ∧ p ∈ ps) as Hq.
  { intros q. rewrite list_elem_of_fmap. by setoid_rewrite list_elem_of_filter. }
  destruct IH as [IH1 IH2]. { intros q (p & -> & Hne & Hp)%Hq. specialize (Hps p Hp). cbn. lia. }
  cbn [fst snd] in *. split; intros j.
  - rewrite elem_of_app, IH1, list_elem_of_fmap. setoid_rewrite list_elem_of_filter. setoid_rewrite Hq. split.
    + intros [(p & -> & Hl & Hp)|(q & (p & -> & Hne & Hp) & <- & Hl)]; exists p; split_and!; try done; cbn in *; lia.
    + intros (p & Hp & <- & Hl). destruct (decide (left p = 0)); [left; by exists p|right]. exists (dec p). split_and!; [by exists p|done|cbn; lia].
  - rewrite IH2. setoid_rewrite Hq. split.
    + intros (q & (p & -> & Hne & Hp) & <- & Hl). exists p. split_and!; try done; cbn in *; lia.
    + intros (p & Hp & <- & Hl). exists (dec p). split_and!; [exists p; split_and!; [done|lia|done]|done|cbn; lia].
Qed.

Lemma spec_run_app {J} i (es1 es2 : list (Event J)) ps : spec_run i (es1 ++ es2) ps =
  let '(ps1, js1) := spec_run i es1 ps in let '(ps2, js2) := spec_run i es2 ps1 in (ps2, js1 ++ js2).
Proof.
  revert ps. induction es1 as [|e es1 IH]; intros ps; cbn; [by destruct (spec_run i es2 ps)|]. destruct (spec_event i e ps) as [ps1 js1]. rewrite IH.
  destruct (spec_run i es1 ps1) as [ps2 js2]. destruct (spec_run i es2 ps2) as [ps3 js3]. by rewrite app_assoc.
Qed.

Lemma Forall_filter_keep {A} (P Q : A → Prop) `{∀ x, Decision (Q x)} (l : list A) : Forall P l → Forall P (filter Q l).
Proof. rewrite !Forall_forall. intros Hl x [_ Hx]%list_elem_of_filter. by apply Hl. Qed.

(** A job under the name of the task of its key. *)
Definition named (p : Pending string) : Prop := pkey p = DBOps.genExpireTask (pjob p).

Lemma spec_ticks_named i m ps : Forall named ps → Forall named (spec_run i (ticks m) ps).1.
Proof.
  revert ps. induction m as [|m IH]; intros ps Hps; [done|]. cbn [ticks replicate spec_run spec_event]. fold (ticks m).
  specialize (IH (dec <$> filter (λ p, left p ≠ 0) ps)). destruct (spec_run i (ticks m) _) as [ps2 js2]. apply IH.
  rewrite Forall_fmap. by apply Forall_filter_keep.
Qed.

(** ** A key with a time to live *)

(** The jobs of the wheel are those of keys, under the names of their tasks. *)
Definition expiry_wheel (N : Z) (w : World string) (es : list (nat * Pending string)) : Prop :=
  wheel_rep N (wheel w) es ∧ served w ∧ interval (wheel w) = second ∧ N ≤ max_slots ∧ Forall named es.*2.

(** The measurement of a delay agrees with the division of its nanoseconds. *)
Definition exact (d : Z) : Prop := Seconds d = d / second.

Lemma ttl_ticks (n : nat) t0 t1 : (0 < n)%nat → t0 < t1 ≤ t0 + second → (Z.of_nat n * second - (t1 - t0)) / second = Z.of_nat n - 1.
Proof. intros Hn Ht. symmetry. apply (Z.div_unique _ _ _ (second - (t1 - t0))); unfold second in *; lia. Qed.

(** [C24] The timer never removes a key with a time to live of whole seconds.  A client gives a
    key [n] seconds at the time [t0]; [Expire] reaches the wheel at [t1], a little later,
    and the next ticks come at [u], [u] + 1 s and so on, [u] being at most a second after [t0].
    Whatever else is pending, the job of the key starts at the [n]-th tick and is gone then.  That tick
    comes at [u] + ([n] - 1) s, not after the expiry time, so the job finds the key alive and
    changes nothing: the key stays until somebody asks for it. *)
Theorem timer_misses_expiry (N : Z) (w : World string) (es : list (nat * Pending string)) (key : string) (n : nat) (t0 t1 u : Z) (db : DB) :
  let expireTime := t0 + Z.of_nat n * second in
  expiry_wheel N w es → (0 < n)%nat → expireTime - t1 ≤ int64_max → t0 < t1 ≤ u → u ≤ t0 + second → exact (expireTime - t1) →
  cd_shape (data db) → unlocked (data db) → Concurrent.Get (ttlMap db) key = Some expireTime → time_now (draws db) = u + (Z.of_nat n - 1) * second →
  ∃ w1 w2 w3 es3 early late, At expireTime t1 (DBOps.genExpireTask key) key w = (Ret tt, w1) ∧
    run (ticks (n - 1)) w1 = (Ret tt, w2) ∧ jobs w2 = jobs w ++ early ∧ key ∉ early ∧
    run (ticks 1) w2 = (Ret tt, w3) ∧ jobs w3 = jobs w2 ++ late ∧ key ∈ late ∧
    expiry_wheel N w3 es3 ∧ key ∉ pjob <$> es3.*2 ∧
    DBOps.expireTask key db = (Ret tt, set_draws db (S (draws db))).
Proof.
  intros e (R & Hs & Hi & HN & Hk) Hn Hmax Ht Hu Hex Hd Hun Hget Hnow. set (d := e - t1) in *.
  assert (d = Z.of_nat n * second - (t1 - t0)) as Ed by (unfold d, e; lia). assert (Seconds d = Z.of_nat n - 1) as Hsec by (rewrite Hex, Ed; apply ttl_ticks; [done|lia]).
  assert (0 ≤ d) as Hd0 by (rewrite Ed; unfold second in *; lia). set (task := DBOps.genExpireTask key). set (p := mkPending (Z.of_nat n - 1) d task key).
  assert (ok_event (Add d task key)) as Hok by (right; unfold measured; rewrite Hsec; unfold second, int64_max in *; lia).
  destruct (wheel_event_run N w es (Add d task key) R Hs ltac:(by rewrite Hi) HN Hok) as (w1 & es1 & E1 & R1 & Hs1 & Hi1 & Esp1). rewrite Hi in Hi1, Esp1.
  cbn [spec_event] in Esp1. rewrite (proj2 (Z.ltb_ge _ _)) in Esp1 by done. unfold ticks_of in Esp1. rewrite Hsec in Esp1. change (Seconds second) with 1 in Esp1.
  rewrite Z.div_1_r in Esp1. fold p in Esp1. injection Esp1 as Eps1 Ej1. rewrite app_nil_r in Ej1.
  assert (∀ q, q ∈ es1.*2 → pjob q = key → q = p) as Honly.
  { intros q Hq Hqk. rewrite Eps1 in Hq. apply elem_of_app in Hq as [Hq| ->%list_elem_of_singleton]; [|done]. exfalso.
    unfold drop_key in Hq. change (String.eqb task "") with false in Hq. cbv iota in Hq. apply list_elem_of_filter in Hq as [Hne Hq]. rewrite Forall_forall in Hk. specialize (Hk q Hq).
    apply Hne. rewrite Hk. by rewrite Hqk. }
  assert (p ∈ es1.*2) as Hp by (rewrite Eps1; set_solver). assert (Forall named es1.*2) as Hk1.
  { rewrite Eps1. apply Forall_app. split; [|by apply Forall_singleton]. unfold drop_key. change (String.eqb task "") with false. by apply Forall_filter_keep. }
  assert (∀ q, q ∈ es1.*2 → 0 ≤ left q) as Hl1 by (intros q (x & -> & Hx)%list_elem_of_fmap; by apply (wr_left _ _ _ R1)).
  assert (∀ m, Forall ok_event (ticks m)) as Hokt by (intros m; by apply Forall_replicate).
  destruct (wheel_events_run N (ticks (n - 1)) w1 es1 R1 Hs1 ltac:(by rewrite Hi1) HN (Hokt _)) as (w2 & es2 & E2 & R2 & Hs2 & Hi2 & Esp2). rewrite Hi1 in Hi2, Esp2.
  destruct (wheel_events_run N (ticks 1) w2 es2 R2 Hs2 ltac:(by rewrite Hi2) HN (Hokt _)) as (w3 & es3 & E3 & R3 & Hs3 & Hi3 & Esp3). rewrite Hi2 in Hi3, Esp3.
  destruct (spec_ticks second (n - 1) es1.*2 Hl1) as [Hn1 _]. destruct (spec_ticks second n es1.*2 Hl1) as [Hn2 Hn3]. pose proof (spec_ticks_named second n es1.*2 Hk1) as Hk3.
  replace (ticks n) with (ticks (n - 1) ++ ticks 1) in Hn2, Hn3, Hk3 by (unfold ticks; rewrite <-replicate_add; f_equal; lia). rewrite spec_run_app in Hn2, Hn3, Hk3.
  destruct (spec_run second (ticks (n - 1)) es1.*2) as [ps2 early]. injection Esp2 as <- Ej2. destruct (spec_run second (ticks 1) es2.*2) as [ps3 late]. injection Esp3 as <- Ej3.
  cbn [fst snd] in Hn1, Hn2, Hn3, Hk3. assert (key ∉ early) as Hearly.
  { intros (q & Hq & Hqk & Hl)%Hn1. rewrite (Honly q Hq Hqk) in Hl. cbn in Hl. lia. }
  exists w1, w2, w3, es3, early, late. split_and!; try done.
  - unfold At. fold d. rewrite Z.min_r, Z.max_r by (unfold int64_min in *; lia). exact E1.
  - by rewrite Ej2, Ej1.
  - assert (key ∈ early ++ late) as Hin by (apply Hn2; exists p; split_and!; [done|done|cbn; lia]). apply elem_of_app in Hin as [Hin|Hin]; done.
  - intros (q & Hq & Hqk & Hl)%Hn3. rewrite (Honly q Hq Hqk) in Hl. cbn in Hl. lia.
  - apply early_job_does_nothing with (e := e); [done..|]. rewrite Hnow. unfold e. lia.
Qed.
End expiry.

#[local] Existing Instance demo_env.

(** The wheel of delay.go, just started, and a database with a key that expires at 10.5 s. *)
Definition demo_wheel : World string := mkWorld (mkWheel second (initSlots 3600) ∅ 0 3600 0) [] [] 1.

Definition demo_db : DB := set_draws (set_ttlMap (make_db 1 1) (Concurrent.Put (ttlMap (make_db 1 1)) "k" 10500000000).1) 10.

Lemma demo_wheel_rep : expiry_wheel 3600 demo_wheel [].
Proof.
  destruct (new_wheel_rep (J := string) second 3600) as (tw & E & R & Ei); [done|done|]. injection E as <-. by split_and!.
Qed.

Lemma demo_db_shape : cd_shape (data demo_db) ∧ unlocked (data demo_db).
Proof.
  split; [split; [change (length (table (data demo_db))) with 1%nat; lia|]|].
  - intros [|i] s k Hi Hs; [done|by destruct i].
  - intros [|i] s Hi; [by injection Hi as <-|by destruct i].
Qed.

Lemma timer_misses_expiry_witness : ∃ w1 w2 w3 es3 early late, At 10500000000 500001000 "expire:k" "k" demo_wheel = (Ret tt, w1) ∧
  run (ticks 9) w1 = (Ret tt, w2) ∧ jobs w2 = early ∧ "k" ∉ early ∧ run (ticks 1) w2 = (Ret tt, w3) ∧ jobs w3 = jobs w2 ++ late ∧ "k" ∈ late ∧
  expiry_wheel 3600 w3 es3 ∧ "k" ∉ pjob <$> es3.*2 ∧ DBOps.expireTask "k" demo_db = (Ret tt, set_draws demo_db 11).
Proof.
  apply (timer_misses_expiry 3600 demo_wheel [] "k" 10 500000000 500001000 1000000000 demo_db); try done; try apply demo_db_shape; [apply demo_wheel_rep|lia].
Defined.
