(* ===== verification/ConsistentHash.v ===== *)
(** * lib/consistenthash: nodes on a circle of hash codes

    Every node has several points on the circle; a key belongs to the node of the first
    point at or after its own hash code.  A new node takes keys, and moves none between the
    others. *)

From Stdlib Require Import ZArith Lia Ascii String.
From stdpp Require Import base gmap strings numbers list sorting.
From S2P Require Import Prelude GoStd Cluster.

Local Open Scope string_scope.
Local Open Scope list_scope.
Local Open Scope Z_scope.
Local Open Scope go_scope.

(** [sort.Search(n, f)], with fuel for the interval that is left. *)
Fixpoint search_loop (fuel : nat) (f : Z → bool) (i j : Z) : Z :=
  match fuel with
  | O => i
  | S fuel' =>
      if i <? j then
        let h := (i + j) / 2 in
        if negb (f h) then search_loop fuel' f (h + 1) j else search_loop fuel' f i h
      else i
  end.

Definition Search (n : Z) (f : Z → bool) : Z := search_loop (Z.to_nat n) f 0 n.

Module ConsistentHash.

Record Map := mkMap {
  hashFunc : string → Z;
  replicas : Z;
  keys : list Z;
  hashMap : gmap Z string
}.

Definition New (replicas : Z) (fn : option (string → Z)) : Map := mkMap (default ChecksumIEEE fn) replicas [] ∅.

Definition IsEmpty (m : Map) : bool := Nat.eqb (length (keys m)) 0.

(** The point of one replica of a node. *)
Definition add_replica (key : string) (m : Map) (i : Z) : Map :=
  let hash := hashFunc m (Itoa i +:+ key) in
  mkMap (hashFunc m) (replicas m) (keys m ++ [hash]) (<[hash := key]> (hashMap m)).

Definition add_key (m : Map) (key : string) : Map :=
  if String.eqb key "" then m else foldl (add_replica key) m (seqZ 0 (replicas m)).

(** [sort.Ints]. *)
Definition sort_keys (m : Map) : Map := mkMap (hashFunc m) (replicas m) (merge_sort Z.le (keys m)) (hashMap m).

Definition AddNode (m : Map) (ks : list string) : Map := sort_keys (foldl add_key m ks).

Definition getPartitionKey (key : string) : outcome string :=
  let beg := Index key "{" in
  if beg =? -1 then Ret key
  else
    let end_ := Index key "}" in
    if (end_ =? -1) || (end_ =? beg + 1) then Ret key
    else if beg + 1 <=? end_ then Ret (substr key (beg + 1) end_)
    else Panic "slice bounds out of range".

(** The node of a hash code. *)
Definition pick_hash (m : Map) (hash : Z) : outcome string :=
  let n := Z.of_nat (length (keys m)) in
  let idx := Search n (λ i, match keys m !! Z.to_nat i with Some k => hash <=? k | None => false end) in
  let idx := if idx =? n then 0 else idx in
  match keys m !! Z.to_nat idx with
  | Some k => Ret (default "" (hashMap m !! k))
  | None => Panic "index out of range"
  end.

Definition PickNode (m : Map) (key : string) : outcome string :=
  if IsEmpty m then Ret ""
  else partitionKey ← getPartitionKey key; pick_hash m (hashFunc m partitionKey).

(** ** Laws *)

Lemma search_loop_spec fuel f i j : 0 ≤ i ≤ j → (Z.to_nat (j - i) ≤ fuel)%nat → (∀ a b, 0 ≤ a ≤ b → f a = true → f b = true) →
  let r := search_loop fuel f i j in i ≤ r ≤ j ∧ (∀ a, i ≤ a < r → f a = false) ∧ (∀ a, r ≤ a < j → f a = true).
Proof.
  intros Hij Hf Hmono. revert i j Hij Hf. induction fuel as [|fuel IH]; intros i j Hij Hf; cbn [search_loop].
  { assert (i = j) as -> by lia. split_and!; try lia; intros; lia. }
  destruct (Z.ltb_spec i j) as [Hlt|Hge]; [|assert (i = j) as -> by lia; split_and!; try lia; intros; lia].
  assert (i ≤ (i + j) / 2 < j) as Hh by (split; [apply Z.div_le_lower_bound|apply Z.div_lt_upper_bound]; lia). set (h := (i + j) / 2) in *.
  destruct (f h) eqn:E; cbn [negb].
  - destruct (IH i h) as (H1 & H2 & H3); [lia|lia|]. split_and!; [lia|lia|done|]. intros a Ha. destruct (decide (a < h)); [apply H3; lia|]. apply (Hmono h a); [lia|done].
  - destruct (IH (h + 1) j) as (H1 & H2 & H3); [lia|lia|]. split_and!; [lia|lia| |done]. intros a Ha. destruct (decide (h < a)); [apply H2; lia|].
    destruct (f a) eqn:Ea; [|done]. rewrite (Hmono a h) in E by (done || lia). done.
Qed.

(** The first of [l] on the circle at or after [h]. *)
Definition is_next (l : list Z) (h x : Z) : Prop :=
  x ∈ l ∧ ((h ≤ x ∧ ∀ y, y ∈ l → h ≤ y → x ≤ y) ∨ ((∀ y, y ∈ l → y < h) ∧ ∀ y, y ∈ l → x ≤ y)).

Lemma is_next_unique l h x y : is_next l h x → is_next l h y → x = y.
Proof.
  intros [Hx [[H1 H2]|[H1 H2]]] [Hy [[H3 H4]|[H3 H4]]].
  - specialize (H2 y Hy H3). specialize (H4 x Hx H1). lia.
  - specialize (H3 x Hx). lia.
  - specialize (H1 y Hy). lia.
  - specialize (H2 y Hy). specialize (H4 x Hx). lia.
Qed.

Record map_ok (m : Map) : Prop := {
  mo_sorted : StronglySorted Z.le (keys m);
  mo_dom : ∀ k, k ∈ keys m ↔ is_Some (hashMap m !! k)
}.

Lemma New_ok n fn : map_ok (New n fn).
Proof. split; [constructor|]. intros k. cbn. rewrite lookup_empty, elem_of_nil, is_Some_alt. done. Qed.

Lemma sorted_keys_lookup (l : list Z) i j a b : StronglySorted Z.le l → (i ≤ j)%nat → l !! i = Some a → l !! j = Some b → a ≤ b.
Proof.
  intros Hl. revert i j. induction Hl as [|x l Hl IH Hx]; intros i j Hij Hi Hj; [done|]. destruct i as [|i], j as [|j]; cbn in Hi, Hj; simplify_eq; try lia.
  - rewrite Forall_forall in Hx. by apply Hx, (list_elem_of_lookup_2 _ j).
  - apply (IH i j); [lia|done|done].
Qed.

(** The binary search finds the node of the next point. *)
Lemma pick_hash_spec m h : map_ok m → keys m ≠ [] →
  ∃ x, is_next (keys m) h x ∧ pick_hash m h = Ret (default "" (hashMap m !! x)).
Proof.
  intros [Hs Hd] Hne. unfold pick_hash. set (l := keys m) in *. set (n := Z.of_nat (length l)). set (f := λ i, match l !! Z.to_nat i with Some k => h <=? k | None => false end).
  assert (0 < n) as Hn by (unfold n; destruct l; [done|cbn; lia]).
  assert (∀ i, 0 ≤ i < n → ∃ a, l !! Z.to_nat i = Some a) as Hin by (intros i Hi; apply lookup_lt_is_Some_2; unfold n in Hi; lia).
  assert (∀ a b, 0 ≤ a ≤ b → b < n → f a = true → f b = true) as Hmono.
  { intros a b Hab Hb Ha. unfold f in *. cbv beta in Ha |- *. destruct (Hin a ltac:(lia)) as [x Ex]. destruct (Hin b ltac:(lia)) as [y Ey]. rewrite Ex in Ha. rewrite Ey.
    apply Z.leb_le in Ha. apply Z.leb_le. pose proof (sorted_keys_lookup l (Z.to_nat a) (Z.to_nat b) x y Hs ltac:(lia) Ex Ey). lia. }
  set (g := λ i, if i <? n then f i else true).
  assert (∀ fuel i j, 0 ≤ i → j ≤ n → search_loop fuel f i j = search_loop fuel g i j) as Eg.
  { induction fuel as [|fuel IH]; intros i j Hi Hj; [done|]. cbn [search_loop]. destruct (Z.ltb_spec i j); [|done].
    assert (i ≤ (i + j) / 2 < j) as Hh by (split; [apply Z.div_le_lower_bound|apply Z.div_lt_upper_bound]; lia).
    unfold g at 1. rewrite (proj2 (Z.ltb_lt _ n)) by lia. by rewrite !IH by lia. }
  assert (∀ a b, 0 ≤ a ≤ b → g a = true → g b = true) as Hg.
  { intros a b Hab Ha. unfold g in *. destruct (Z.ltb_spec b n); [|done]. rewrite (proj2 (Z.ltb_lt a n)) in Ha by lia. by apply (Hmono a). }
  unfold Search. rewrite Eg by lia. destruct (search_loop_spec (Z.to_nat n) g 0 n ltac:(lia) ltac:(lia) Hg) as (H1 & H2 & H3). set (r := search_loop _ g 0 n) in *.
  assert (∀ y, y ∈ l → ∃ i, 0 ≤ i < n ∧ l !! Z.to_nat i = Some y) as Hpos.
  { intros y [i Hi]%list_elem_of_lookup. exists (Z.of_nat i). rewrite Nat2Z.id. split; [|done]. apply lookup_lt_Some in Hi. unfold n. lia. }
  destruct (Z.eqb_spec r n) as [Er|Er].
  - destruct (Hin 0 ltac:(lia)) as [x Ex]. rewrite Ex. exists x. split; [|done]. split; [by apply (list_elem_of_lookup_2 _ (Z.to_nat 0))|right]. split.
    + intros y (i & Hi & Ey)%Hpos. specialize (H2 i ltac:(lia)). unfold g, f in H2. cbv beta in H2. rewrite (proj2 (Z.ltb_lt i n)), Ey in H2 by lia. by apply Z.leb_gt.
    + intros y (i & Hi & Ey)%Hpos. apply (sorted_keys_lookup l (Z.to_nat 0) (Z.to_nat i)); [done|lia|done|done].
  - destruct (Hin r ltac:(lia)) as [x Ex]. rewrite Ex. exists x. split; [|done]. split; [by apply (list_elem_of_lookup_2 _ (Z.to_nat r))|left].
    specialize (H3 r ltac:(lia)). unfold g, f in H3. cbv beta in H3. rewrite (proj2 (Z.ltb_lt r n)), Ex in H3 by lia. split; [by apply Z.leb_le|].
    intros y (i & Hi & Ey)%Hpos Hy. destruct (decide (i < r)) as [Hir|Hir]; [|apply (sorted_keys_lookup l (Z.to_nat r) (Z.to_nat i)); [done|lia|done|done]].
    specialize (H2 i ltac:(lia)). unfold g, f in H2. cbv beta in H2. rewrite (proj2 (Z.ltb_lt i n)), Ey in H2 by lia. apply Z.leb_gt in H2. lia.
Qed.

(** ** Adding a node *)

(** [m'] is [m] with points of [key] added. *)
Record added (key : string) (m m' : Map) : Prop := {
  ad_func : hashFunc m' = hashFunc m;
  ad_keys : ∀ k, k ∈ keys m → k ∈ keys m';
  ad_map : ∀ k, k ∈ keys m' → hashMap m' !! k = Some key ∨ (k ∈ keys m ∧ hashMap m' !! k = hashMap m !! k);
  ad_dom : (∀ k, k ∈ keys m ↔ is_Some (hashMap m !! k)) → ∀ k, k ∈ keys m' ↔ is_Some (hashMap m' !! k)
}.

Lemma add_replicas_spec key l m : added key m (foldl (add_replica key) m l).
Proof.
  revert m. induction l as [|i l IH]; intros m; [split; [done|done|auto|done]|]. cbn [foldl]. destruct (IH (add_replica key m i)) as [A1 A2 A3 A4]. cbn in *.
  set (h := hashFunc m (Itoa i +:+ key)) in *. split; [done| | |].
  - intros k Hk. apply A2, elem_of_app. by left.
  - intros k Hk. destruct (A3 k Hk) as [E|[Hk' E]]; [by left|]. destruct (decide (k = h)) as [->|Hne]; [left; by rewrite E, lookup_insert_eq|].
    right. rewrite E, lookup_insert_ne by done. split; [|done]. apply elem_of_app in Hk' as [?|?%list_elem_of_singleton]; done.
  - intros Hd. apply A4. intros k. rewrite elem_of_app, list_elem_of_singleton, Hd. destruct (decide (k = h)) as [->|Hne]; [rewrite lookup_insert_eq|rewrite lookup_insert_ne by done]; naive_solver.
Qed.

Lemma AddNode_added m key : map_ok m → map_ok (AddNode m [key]) ∧ added key m (AddNode m [key]).
Proof.
  intros [Hs Hd]. set (m1 := add_key m key). assert (added key m m1) as [A1 A2 A3 A4].
  { unfold m1, add_key. destruct (String.eqb key ""); [split; [done|done|auto|done]|apply add_replicas_spec]. }
  assert (∀ k, k ∈ merge_sort Z.le (keys m1) ↔ k ∈ keys m1) as Hp by (intros k; by rewrite merge_sort_Permutation).
  unfold AddNode. cbn [foldl]. fold m1. split; split; cbn; try done.
  - apply (StronglySorted_merge_sort Z.le).
  - intros k. rewrite Hp. by apply A4.
  - intros k Hk. by apply Hp, A2.
  - intros k Hk%Hp. by apply A3.
  - intros _ k. rewrite Hp. by apply A4.
Qed.

(** A new node takes keys; no key moves between the nodes that were there. *)
Theorem new_node_only_takes m node key old new : map_ok m →
  PickNode m key = Ret old → PickNode (AddNode m [node]) key = Ret new → new = old ∨ new = node.
Proof.
  intros Hok Ho Hn. destruct (AddNode_added m node Hok) as [Hok' [A1 A2 A3 A4]]. set (m' := AddNode m [node]) in *. unfold PickNode in Ho, Hn. unfold IsEmpty in *.
  assert (∀ h x, is_next (keys m') h x → hashMap m' !! x = Some node ∨ (is_next (keys m) h x ∧ hashMap m' !! x = hashMap m !! x)) as Hnext.
  { intros h x [Hx Hcase]. destruct (A3 x Hx) as [E|[Hx' E]]; [by left|right]. split; [|done]. split; [done|]. destruct Hcase as [[H1 H2]|[H1 H2]]; [left|right]; auto. }
  destruct (keys m') as [|k0 ks'] eqn:Ek'; [|rewrite <-Ek' in *].
  { cbn in Hn. injection Hn as <-. left. destruct (keys m) as [|k ks]; [cbn in Ho; by injection Ho|]. by assert (k ∈ ([] : list Z)) as ?%elem_of_nil by (apply A2, elem_of_cons; auto). }
  replace (Nat.eqb (length (keys m')) 0) with false in Hn by (by rewrite Ek'). rewrite A1 in Hn.
  destruct (getPartitionKey key) as [pk|msg|]; cbn in Hn; [|done|done]. set (h := hashFunc m pk) in *. destruct (pick_hash_spec m' h Hok' ltac:(by rewrite Ek')) as (x & Hx & E).
  assert (new = default "" (hashMap m' !! x)) as -> by congruence. destruct (Hnext h x Hx) as [->|[Hx' ->]]; [by right|left].
  destruct (keys m) as [|k ks] eqn:Ek; [by destruct Hx' as [?%elem_of_nil _]|]. rewrite <-Ek in *. replace (Nat.eqb (length (keys m)) 0) with false in Ho by (by rewrite Ek). cbn in Ho. fold h in Ho.
  destruct (pick_hash_spec m h Hok ltac:(by rewrite Ek)) as (y & Hy & E'). assert (old = default "" (hashMap m !! y)) as -> by congruence. by rewrite (is_next_unique _ _ _ _ Hx' Hy).
Qed.
End ConsistentHash.
