(* ===== verification/Snowflake.v ===== *)
(** * lib/idgenerator: 64-bit numbers that are not repeated

    A number is a time in milliseconds, the code of the node and a sequence number.  The
    numbers of one generator increase, and the numbers of nodes with different codes differ, until
    the time needs more than 41 bits. *)

From Stdlib Require Import ZArith Lia Ascii String.
From stdpp Require Import base gmap strings numbers list sorting.
From S2P Require Import Prelude GoStd.

Local Open Scope string_scope.
Local Open Scope list_scope.
Local Open Scope Z_scope.
Local Open Scope go_scope.

Module Snowflake.

Definition timeLeft : Z := 22.
Definition nodeLeft : Z := 10.
Definition maxSequence : Z := Z.lxor (-1) (Z.shiftl (-1) nodeLeft).
Definition nodeMask : Z := Z.lxor (-1) (Z.shiftl (-1) (timeLeft - nodeLeft)).

(** [fnv.New64], with its 64-bit multiplication. *)
Definition uint64 (z : Z) : Z := z mod 18446744073709551616.

Fixpoint fnv64 (node : string) (hash : Z) : Z :=
  match node with
  | EmptyString => hash
  | String c rest => fnv64 rest (Z.lxor (uint64 (hash * 1099511628211)) (Z.of_nat (nat_of_ascii c)))
  end.

Definition Sum64 (node : string) : Z := fnv64 node 14695981039346656037.

(** [clock]: the milliseconds since the epoch that the next reading gives. *)
Record IDGenerator := mkGenerator { lastStamp : Z; nodeID : Z; sequence : Z; readings : nat }.

Definition MakeGenerator (node : string) : IDGenerator := mkGenerator (-1) (Z.land (int64 (Sum64 node)) nodeMask) 1 0.

Section generator.
Context (clock : nat → Z).

Abbreviation M := (GoM IDGenerator).

Definition Since : M Z := λ w, (Ret (clock (readings w)), mkGenerator (lastStamp w) (nodeID w) (sequence w) (S (readings w))).

Definition still_waiting : M Z := λ w, (Block, w).

(** The loop that waits for the next millisecond, for at most [fuel] readings. *)
Fixpoint wait_loop (fuel : nat) (timestamp : Z) : M Z :=
  w ← go_get lastStamp;
  if timestamp <=? w then
    match fuel with O => still_waiting | S fuel' => t ← Since; wait_loop fuel' t end
  else mret timestamp.

(** [log.Fatal] ends the process. *)
Definition NextID (fuel : nat) : M Z :=
  timestamp ← Since;
  last ← go_get lastStamp;
  if timestamp <? last then go_panic "can not generate id"
  else
    timestamp ← (if last =? timestamp then
                   _ ← go_modify (λ w, mkGenerator (lastStamp w) (nodeID w) (Z.land (sequence w + 1) maxSequence) (readings w));
                   s ← go_get sequence;
                   if s =? 0 then wait_loop fuel timestamp else mret timestamp
                 else
                   _ ← go_modify (λ w, mkGenerator (lastStamp w) (nodeID w) 0 (readings w));
                   mret timestamp);
    _ ← go_modify (λ w, mkGenerator timestamp (nodeID w) (sequence w) (readings w));
    w ← go_get id;
    mret (Z.lor (Z.lor (int64 (Z.shiftl timestamp timeLeft)) (int64 (Z.shiftl (nodeID w) nodeLeft))) (sequence w)).

(** ** Laws *)

(** The parts of a number. *)
Definition compose (time node seq : Z) : Z := time * 4194304 + node * 1024 + seq.

Lemma lor_parts t n s : 0 ≤ t < 2199023255552 → 0 ≤ n < 4096 → 0 ≤ s < 1024 →
  Z.lor (Z.lor (int64 (Z.shiftl t timeLeft)) (int64 (Z.shiftl n nodeLeft))) s = compose t n s.
Proof.
  intros Ht Hn Hs. unfold timeLeft, nodeLeft. rewrite !Z.shiftl_mul_pow2 by lia. rewrite !int64_id by (unfold is_int64, int64_min, int64_max; lia).
  assert (∀ a b k, 0 ≤ k → 0 ≤ b < 2 ^ k → Z.lor (a * 2 ^ k) b = a * 2 ^ k + b) as Hlor.
  { intros a b k Hk Hb. destruct (decide (b = 0)) as [->|Hb0]; [by rewrite Z.lor_0_r, Z.add_0_r|].
    assert (Z.land (a * 2 ^ k) b = 0) as Hz.
    { apply Z.bits_inj_0. intros i. rewrite Z.land_spec. destruct (decide (i < k)); [by rewrite Z.mul_pow2_bits_low|].
      rewrite (Z.bits_above_log2 b i), andb_false_r; [done|lia|]. apply Z.log2_lt_pow2; [lia|]. apply Z.lt_le_trans with (2 ^ k); [lia|]. apply Z.pow_le_mono_r; lia. }
    by rewrite <-Z.lxor_lor, Z.add_nocarry_lxor. }
  rewrite (Hlor t (n * 2 ^ 10) 22) by lia. replace (t * 2 ^ 22 + n * 2 ^ 10) with ((t * 4096 + n) * 2 ^ 10) by lia. rewrite Hlor by lia. unfold compose. lia.
Qed.

(** [last] is the number given before, or -1. *)
Record generator_ok (last : Z) (w : IDGenerator) : Prop := {
  go_node : 0 ≤ nodeID w < 4096;
  go_seq : 0 ≤ sequence w < 1024;
  go_last : lastStamp w = -1 ∧ last = -1 ∨ 0 ≤ lastStamp w ∧ last = compose (lastStamp w) (nodeID w) (sequence w);
  go_clock : lastStamp w ≤ clock (readings w)
}.

Lemma MakeGenerator_ok node : 0 ≤ clock 0 → generator_ok (-1) (MakeGenerator node).
Proof.
  intros Hc. split; cbn; [|lia|by left|lia]. change nodeMask with (Z.ones 12). rewrite Z.land_ones by lia. apply Z.mod_pos_bound. lia.
Qed.

(** The clock does not run backwards and fits its 41 bits. *)
Hypothesis clock_mono : ∀ i, clock i ≤ clock (S i).
Hypothesis clock_range : ∀ i, 0 ≤ clock i < 2199023255552.

Lemma wait_run fuel w t : (∃ k, (k ≤ fuel)%nat ∧ lastStamp w < (match k with O => t | S k' => clock (readings w + k') end)) → t ≤ clock (readings w) →
  (∃ i, t = clock i) → ∃ t' r, wait_loop fuel t w = (Ret t', mkGenerator (lastStamp w) (nodeID w) (sequence w) r) ∧ lastStamp w < t' ∧ t' ≤ clock r ∧ ∃ i, t' = clock i.
Proof.
  revert w t. induction fuel as [|fuel IH]; intros w t (k & Hk & Hlt) Ht Hi; cbn [wait_loop]; erewrite bind_Ret by reflexivity; cbv beta; destruct (Z.leb_spec t (lastStamp w)) as [Hle|Hgt].
  - assert (k = 0%nat) as -> by lia. lia.
  - exists t, (readings w). split_and!; [by destruct w|done|done|done].
  - destruct k as [|k]; [lia|]. erewrite bind_Ret by reflexivity. set (w1 := mkGenerator _ _ _ _). destruct (IH w1 (clock (readings w))) as (t' & r & E & H1 & H2 & H3).
    + exists k. split; [lia|]. cbn [lastStamp readings w1]. destruct k as [|k]; [by rewrite Nat.add_0_r in Hlt|]. by rewrite Nat.add_succ_comm.
    + apply clock_mono.
    + by exists (readings w).
    + exists t', r. split_and!; [exact E|done|done|done].
  - exists t, (readings w). split_and!; [by destruct w|done|done|done].
Qed.

(** The next number is larger, when the clock moves within the readings that are allowed. *)
Theorem NextID_increases fuel w last : generator_ok last w → (∃ k, (k ≤ fuel)%nat ∧ lastStamp w < clock (readings w + k)) →
  ∃ id w', NextID fuel w = (Ret id, w') ∧ last < id ∧ generator_ok id w' ∧ nodeID w' = nodeID w ∧ (id / 1024) mod 4096 = nodeID w.
Proof.
  intros [G1 G2 G3 G4] (k & Hk & Hlt). destruct w as [ls nd sq rd]. cbn in *. set (t := clock rd) in *. pose proof (clock_range rd) as Ht. fold t in Ht.
  assert (∃ t' s r, 0 ≤ s < 1024 ∧ (∃ i, t' = clock i) ∧ (ls < t' ∨ ls = t' ∧ sq < s) ∧ t' ≤ clock r ∧
    NextID fuel (mkGenerator ls nd sq rd) = (Ret (Z.lor (Z.lor (int64 (Z.shiftl t' timeLeft)) (int64 (Z.shiftl nd nodeLeft))) s), mkGenerator t' nd s r)) as (t' & s & r & Hs & [i Hi] & Hord & Hr & E).
  { unfold NextID. erewrite bind_Ret by reflexivity. erewrite bind_Ret by reflexivity. cbn [lastStamp readings]. fold t. rewrite (proj2 (Z.ltb_ge _ _)) by done.
    destruct (Z.eqb_spec ls t) as [Els|Els].
    - destruct (decide (sq = 1023)) as [->|Hsq].
      + destruct (wait_run fuel (mkGenerator ls nd 0 (S rd)) t) as (t' & r & E & H1 & H2 & H3).
        { exists k. split; [done|]. cbn. destruct k as [|k]; [by rewrite Nat.add_0_r in Hlt|]. by rewrite Nat.add_succ_r in Hlt. }
        { apply clock_mono. } { by exists rd. }
        exists t', 0, r. split_and!; [lia|lia|done|by left|done|]. erewrite bind_Ret.
        2: { erewrite bind_Ret by reflexivity. erewrite bind_Ret by reflexivity. cbn [sequence lastStamp nodeID readings]. change (Z.land (1023 + 1) maxSequence) with 0. cbv iota. exact E. }
        reflexivity.
      + exists t, (sq + 1), (S rd). assert ((sq + 1) mod 2 ^ 10 = sq + 1) as Em by (apply Z.mod_small; lia).
        split_and!; [lia|lia|by exists rd|lia|apply clock_mono|]. erewrite bind_Ret.
        2: { erewrite bind_Ret by reflexivity. erewrite bind_Ret by reflexivity. cbn [sequence lastStamp nodeID readings]. change maxSequence with (Z.ones 10). rewrite Z.land_ones, Em, (proj2 (Z.eqb_neq _ _)) by lia. reflexivity. }
        reflexivity.
    - exists t, 0, (S rd). split_and!; [lia|lia|by exists rd|lia|apply clock_mono|]. reflexivity. }
  pose proof (clock_range i) as Hti. rewrite <-Hi in Hti. rewrite lor_parts in E by lia. eexists _, _. split; [exact E|]. split_and!; [| |done|].
  - unfold compose in *. destruct G3 as [[-> ->]|[H1 ->]]; nia.
  - split; cbn; [done|done|by right; split; [lia|]|done].
  - unfold compose. replace (t' * 4194304 + nd * 1024 + s) with (s + (t' * 4096 + nd) * 1024) by lia. rewrite Z.div_add, (Z.div_small s) by lia.
    replace (0 + (t' * 4096 + nd)) with (nd + t' * 4096) by lia. rewrite Z.mod_add, Z.mod_small by lia. done.
Qed.

(** Any number of numbers, one after the other. *)
Fixpoint NextIDs (fuel n : nat) : M (list Z) :=
  match n with O => mret [] | S n' => i ← NextID fuel; l ← NextIDs fuel n'; mret (i :: l) end.

(** A generator whose clock always moves on within [fuel] readings never repeats itself: its
    numbers increase, and carry the code of their node. *)
Theorem ids_increase fuel n w last : generator_ok last w → (∀ i, ∃ k, (k ≤ fuel)%nat ∧ clock i < clock (i + k)) →
  ∃ l w', NextIDs fuel n w = (Ret l, w') ∧ StronglySorted Z.lt (last :: l) ∧ Forall (λ i, (i / 1024) mod 4096 = nodeID w) l.
Proof.
  intros Hok Hclock. revert w last Hok. induction n as [|n IH]; intros w last Hok.
  { exists [], w. split_and!; [done| |done]. repeat constructor. }
  destruct (NextID_increases fuel w last Hok) as (i & w1 & E1 & Hlt & Hok1 & Hnd & Hcode).
  { destruct (Hclock (readings w)) as (k & Hk & Hl). exists k. split; [done|]. pose proof (go_clock _ _ Hok). lia. }
  destruct (IH w1 i Hok1) as (l & w2 & E2 & Hsort & Hall). exists (i :: l), w2. split_and!.
  - cbn [NextIDs]. rewrite (bind_Ret _ _ _ _ _ E1). by rewrite (bind_Ret _ _ _ _ _ E2).
  - constructor; [done|]. apply StronglySorted_inv in Hsort as [Hs Hf]. constructor; [done|]. eapply Forall_impl; [exact Hf|]. cbn. lia.
  - constructor; [done|]. by rewrite Hnd in Hall.
Qed.
End generator.
End Snowflake.
