(* ===== verification/Client.v ===== *)
(** * redis/client: a client that sends requests without waiting for the replies before them

    Callers put their requests on a channel; one goroutine writes them to the connection and
    puts them on a second channel, another reads the replies and gives each to the oldest request
    of that channel.  When the connection breaks, the reader opens a new one.

    The goroutines are a state machine: every action is a part of a function between two
    accesses to what is shared, and gives [Block] when it cannot happen.  What the network and the
    server do are actions too.  A connection keeps the requests that the server has not
    answered and the replies that were not read; [answers] notes what the server answered to each
    request. *)

From Stdlib Require Import ZArith Lia Ascii String.
From stdpp Require Import base gmap strings numbers list.
From S2P Require Import Prelude GoStd Protocol.

Local Open Scope string_scope.
Local Open Scope list_scope.
Local Open Scope Z_scope.
Local Open Scope go_scope.

Module Client.

Definition created : Z := 0.
Definition running : Z := 1.
Definition closed : Z := 2.

Definition chanSize : nat := 256.

(** [waiting] is the counter of the wait group. *)
Record request := mkRequest { args : list bytes; reply : option Reply; heartbeat : bool; waiting : Z; err : option string }.

Record Client := mkClient {
  conn : nat;
  pendingReqs : list nat;
  pending_closed : bool;
  waitingReqs : list nat;
  waiting_closed : bool;
  status : Z;
  working : Z
}.

(** The two directions of a connection. *)
Record Conn := mkConn { out : list nat; inn : list (nat * Reply); conn_closed : bool }.

(** Where the goroutines of [handleWrite] and [handleRead] are. *)
Inductive Writer := Taking | Pushing (req : nat).
Inductive Reader :=
  | Reading (conn : nat)
  | Finishing (conn req : nat) (reply : Reply)
  | Redialing
  | Draining
  | Renewing
  | Stopped.

Record World := mkWorld {
  client : Client;
  conns : gmap nat Conn;
  requests : gmap nat request;
  answers : gmap nat Reply;
  results : gmap nat Reply;
  writer : Writer;
  reader : Reader;
  fresh : nat
}.

Definition set_conn (c : Client) x := mkClient x (pendingReqs c) (pending_closed c) (waitingReqs c) (waiting_closed c) (status c) (working c).
Definition set_pendingReqs (c : Client) x := mkClient (conn c) x (pending_closed c) (waitingReqs c) (waiting_closed c) (status c) (working c).
Definition set_pending_closed (c : Client) x := mkClient (conn c) (pendingReqs c) x (waitingReqs c) (waiting_closed c) (status c) (working c).
Definition set_waitingReqs (c : Client) x := mkClient (conn c) (pendingReqs c) (pending_closed c) x (waiting_closed c) (status c) (working c).
Definition set_waiting_closed (c : Client) x := mkClient (conn c) (pendingReqs c) (pending_closed c) (waitingReqs c) x (status c) (working c).
Definition set_status (c : Client) x := mkClient (conn c) (pendingReqs c) (pending_closed c) (waitingReqs c) (waiting_closed c) x (working c).
Definition set_working (c : Client) x := mkClient (conn c) (pendingReqs c) (pending_closed c) (waitingReqs c) (waiting_closed c) (status c) x.

Definition set_client (w : World) x := mkWorld x (conns w) (requests w) (answers w) (results w) (writer w) (reader w) (fresh w).
Definition set_conns (w : World) x := mkWorld (client w) x (requests w) (answers w) (results w) (writer w) (reader w) (fresh w).
Definition set_requests (w : World) x := mkWorld (client w) (conns w) x (answers w) (results w) (writer w) (reader w) (fresh w).
Definition set_answers (w : World) x := mkWorld (client w) (conns w) (requests w) x (results w) (writer w) (reader w) (fresh w).
Definition set_results (w : World) x := mkWorld (client w) (conns w) (requests w) (answers w) x (writer w) (reader w) (fresh w).
Definition set_writer (w : World) x := mkWorld (client w) (conns w) (requests w) (answers w) (results w) x (reader w) (fresh w).
Definition set_reader (w : World) x := mkWorld (client w) (conns w) (requests w) (answers w) (results w) (writer w) x (fresh w).
Definition set_fresh (w : World) x := mkWorld (client w) (conns w) (requests w) (answers w) (results w) (writer w) (reader w) x.

Abbreviation M := (GoM World).

Definition upd_client (f : Client → Client) : M unit := go_modify (λ w, set_client w (f (client w))).
Definition upd_request (id : nat) (f : request → request) : M unit := go_modify (λ w, set_requests w (alter f id (requests w))).
Definition upd_conn (c : nat) (f : Conn → Conn) : M unit := go_modify (λ w, set_conns w (alter f c (conns w))).
Definition goto_writer (x : Writer) : M unit := go_modify (λ w, set_writer w x).
Definition goto_reader (x : Reader) : M unit := go_modify (λ w, set_reader w x).
Definition never {A} : M A := λ w, (Block, w).

(** ** Start *)

(** [MakeClient] and [Start] on the connection 0. *)
Definition MakeClient : Client := mkClient 0 [] false [] false created 0.
Definition Start (c : Client) : World :=
  mkWorld (set_status c running) {[0%nat := mkConn [] [] false]} ∅ ∅ ∅ Taking (Reading 0) 0.

(** ** Sending *)

(** A new request on [pendingReqs]: [Send] and [doHeartbeat] up to their wait. *)
Definition enqueue (args : list bytes) (heartbeat : bool) : M nat :=
  id ← go_get fresh;
  _ ← go_modify (λ w, set_fresh (set_requests w (<[id := mkRequest args None heartbeat 1 None]> (requests w))) (S id));
  _ ← upd_client (λ c, set_working c (working c + 1));
  c ← go_get client;
  if pending_closed c then go_panic "send on closed channel"
  else if (chanSize <=? length (pendingReqs c))%nat then never
  else _ ← upd_client (λ c, set_pendingReqs c (pendingReqs c ++ [id])); mret id.

(** The reply, or the number of the request whose reply is waited for. *)
Definition Send (args : list bytes) : M (Reply + nat) :=
  st ← go_get (λ w, status (client w));
  if negb (st =? running) then mret (inl (StandardErrReply "client closed"))
  else id ← enqueue args false; mret (inr id).

Definition doHeartbeat : M nat := enqueue [Some "PING"] true.

(** The end of [Send]: after a time out, or when the counter is 0. *)
Definition Send_end (id : nat) (timeout : bool) : M unit :=
  o ← go_get (λ w, requests w !! id);
  match o with
  | None => never
  | Some r =>
      if negb timeout && negb (waiting r =? 0) then never
      else
        _ ← upd_client (λ c, set_working c (working c - 1));
        go_modify (λ w, set_results w (<[id :=
          if timeout then StandardErrReply "server time out"
          else match err r with
               | Some e => StandardErrReply ("request failed " +:+ e)
               | None => default NoReply (reply r)
               end]> (results w)))
  end.

(** ** Writing *)

Definition Contains (s sub : string) : bool := match String.index 0 sub s with Some _ => true | None => false end.

(** The attempts to write, with what the network says to each. *)
Fixpoint try_write (n : nat) (last : option string) (attempts : list (option string)) : option string :=
  match n, attempts with
  | S n', Some e :: attempts' => if Contains e "timeout" || Contains e "deadline exceeded" then try_write n' (Some e) attempts' else Some e
  | S n', _ => None
  | O, _ => last
  end.

Definition done (r : request) : request := mkRequest (args r) (reply r) (heartbeat r) (waiting r - 1) (err r).

(** [handleWrite] takes a request; [doRequest] up to the second channel. *)
Definition doRequest (attempts : list (option string)) : M unit :=
  w ← go_get id;
  match writer w, pendingReqs (client w) with
  | Taking, id :: rest =>
      _ ← upd_client (λ c, set_pendingReqs c rest);
      match requests w !! id with
      | None => mret tt
      | Some r =>
          match args r with
          | [] => mret tt
          | _ =>
              let c := conn (client w) in
              let closed := match conns w !! c with Some x => conn_closed x | None => true end in
              match (if closed then Some "use of closed network connection" else try_write 3 None attempts) with
              | None => _ ← upd_conn c (λ x, mkConn (out x ++ [id]) (inn x) (conn_closed x)); goto_writer (Pushing id)
              | Some e => upd_request id (λ r, done (mkRequest (args r) (reply r) (heartbeat r) (waiting r) (Some e)))
              end
          end
      end
  | _, _ => never
  end.

(** [client.waitingReqs <- req]. *)
Definition push : M unit :=
  w ← go_get id;
  match writer w with
  | Taking => never
  | Pushing id =>
      if waiting_closed (client w) then go_panic "send on closed channel"
      else if (chanSize <=? length (waitingReqs (client w)))%nat then never
      else _ ← upd_client (λ c, set_waitingReqs c (waitingReqs c ++ [id])); goto_writer Taking
  end.

(** ** The server *)

(** The oldest request of a connection is answered. *)
Definition serve (c : nat) (r : Reply) : M unit :=
  w ← go_get id;
  match conns w !! c with
  | Some x =>
      match out x with
      | id :: rest =>
          _ ← upd_conn c (λ x, mkConn rest (inn x ++ [(id, r)]) (conn_closed x));
          go_modify (λ w, set_answers w (<[id := r]> (answers w)))
      | [] => never
      end
  | None => never
  end.

(** ** Reading *)

(** A payload with data arrives at [handleRead]. *)
Definition handleRead : M unit :=
  w ← go_get id;
  match reader w with
  | Reading c =>
      match conns w !! c with
      | Some (mkConn o ((id, r) :: rest) cl) => _ ← upd_conn c (λ _, mkConn o rest cl); goto_reader (Finishing c id r)
      | _ => never
      end
  | _ => never
  end.

(** [finishRequest]: the oldest request that waits gets the reply.  The number that came with
    the reply is not used. *)
Definition finishRequest : M unit :=
  w ← go_get id;
  match reader w with
  | Finishing c _ r =>
      match waitingReqs (client w) with
      | id :: rest =>
          _ ← upd_client (λ c, set_waitingReqs c rest);
          _ ← upd_request id (λ q, done (mkRequest (args q) (Some r) (heartbeat q) (waiting q) (err q)));
          goto_reader (Reading c)
      | [] => if waiting_closed (client w) then goto_reader (Reading c) else never
      end
  | _ => never
  end.

(** A payload with an error: the end of the connection. *)
Definition read_error : M unit :=
  w ← go_get id;
  match reader w with
  | Reading c => goto_reader (if status (client w) =? closed then Stopped else Redialing)
  | _ => never
  end.

(** [Close], up to its wait for the requests, and after it. *)
Definition Close_start : M unit :=
  _ ← upd_client (λ c, set_status c closed);
  c ← go_get client;
  if pending_closed c then go_panic "close of closed channel" else upd_client (λ c, set_pending_closed c true).

Definition Close_end : M unit :=
  c ← go_get client;
  if negb (working c =? 0) then never
  else
    _ ← upd_conn (conn c) (λ x, mkConn (out x) (inn x) true);
    if waiting_closed c then go_panic "close of closed channel" else upd_client (λ c, set_waiting_closed c true).

(** [reconnect]: a new connection, or none after three attempts. *)
Definition redial (ok : bool) : M unit :=
  w ← go_get id;
  match reader w with
  | Redialing =>
      _ ← upd_conn (conn (client w)) (λ x, mkConn (out x) (inn x) true);
      if ok then
        n ← go_get fresh;
        _ ← go_modify (λ w, set_fresh (set_conns w (<[n := mkConn [] [] false]> (conns w))) (S n));
        _ ← upd_client (λ c, set_conn c n);
        goto_reader Draining
      else _ ← goto_reader Stopped; Close_start
  | _ => never
  end.

(** The requests that wait get an error. *)
Definition drain : M unit :=
  w ← go_get id;
  match reader w with
  | Draining =>
      if waiting_closed (client w) then go_panic "close of closed channel"
      else
        _ ← upd_client (λ c, set_waitingReqs (set_waiting_closed c true) []);
        _ ← go_for (waitingReqs (client w)) (λ id, upd_request id (λ q, done (mkRequest (args q) (reply q) (heartbeat q) (waiting q) (Some "connection closed"))));
        goto_reader Renewing
  | _ => never
  end.

Definition renew : M unit :=
  w ← go_get id;
  match reader w with
  | Renewing => _ ← upd_client (λ c, set_waitingReqs (set_waiting_closed c false) []); goto_reader (Reading (conn (client w)))
  | _ => never
  end.

(** ** Runs *)

Inductive Action :=
  | DoSend (args : list bytes)
  | DoHeartbeat
  | EndSend (id : nat) (timeout : bool)
  | DoWrite (attempts : list (option string))
  | DoPush
  | DoServe (conn : nat) (reply : Reply)
  | DoRead
  | DoFinish
  | ReadError
  | Redial (ok : bool)
  | Drain
  | Renew
  | CloseStart
  | CloseEnd.

Definition act (a : Action) : M unit :=
  match a with
  | DoSend args => _ ← Send args; mret tt
  | DoHeartbeat => _ ← doHeartbeat; mret tt
  | EndSend id timeout => Send_end id timeout
  | DoWrite attempts => doRequest attempts
  | DoPush => push
  | DoServe c r => serve c r
  | DoRead => handleRead
  | DoFinish => finishRequest
  | ReadError => read_error
  | Redial ok => redial ok
  | Drain => drain
  | Renew => renew
  | CloseStart => Close_start
  | CloseEnd => Close_end
  end.

(** What the goroutines can do, one action after the other. *)
Inductive steps : World → list Action → World → Prop :=
  | steps_refl w : steps w [] w
  | steps_act w a w1 l w2 : act a w = (Ret tt, w1) → steps w1 l w2 → steps w (a :: l) w2.
End Client.
