(* ===== verification/ClientLaws.v ===== *)
(** * Every request gets its own reply

    Along every run of the goroutines of a client that does not reconnect; a reconnection
    can give a request the reply of another. *)

From Stdlib Require Import ZArith Lia Ascii String.
From stdpp Require Import base gmap strings numbers list.
From S2P Require Import Prelude GoStd Protocol Client.

Local Open Scope string_scope.
Local Open Scope list_scope.
Local Open Scope Z_scope.
Local Open Scope go_scope.

Import Client.

(** The request whose reply is being handed over, and the one written but not pushed yet. *)
Definition unread (r : Reader) : list nat := match r with Finishing _ id _ => [id] | _ => [] end.
Definition unpushed (wr : Writer) : list nat := match wr with Pushing id => [id] | Taking => [] end.

(** The requests that were written and whose reply was not handed over, oldest first. *)
Definition unfinished (w : World) (x : Conn) : list nat := unread (reader w) ++ (inn x).*1 ++ out x.

Definition fresh_request (q : request) : Prop := waiting q = 1 ∧ reply q = None ∧ err q = None.

(** A request that has its reply, or an error. *)
Definition finished (w : World) (id : nat) (q : request) : Prop :=
  waiting q = 0 ∧ ((∃ r, reply q = Some r ∧ err q = None ∧ answers w !! id = Some r) ∨ (reply q = None ∧ is_Some (err q))).

Record inv (w : World) (x : Conn) : Prop := {
  in_conn : conn (client w) = 0%nat ∧ conns w = {[0%nat := x]};
  in_reader : match reader w with Reading c | Finishing c _ _ => c = 0%nat | Draining | Renewing => False | _ => True end;
  in_waiting : waitingReqs (client w) `prefix_of` unfinished w x;
  in_pushed : waiting_closed (client w) = false → unfinished w x = waitingReqs (client w) ++ unpushed (writer w);
  in_nodup : NoDup (pendingReqs (client w) ++ unfinished w x);
  in_fresh : ∀ id, id ∈ pendingReqs (client w) ++ unfinished w x → ∃ q, requests w !! id = Some q ∧ fresh_request q;
  in_requests : ∀ id q, requests w !! id = Some q → (id < fresh w)%nat ∧ (fresh_request q ∨ finished w id q);
  in_answers : ∀ id r, answers w !! id = Some r → id ∉ pendingReqs (client w) ++ out x ∧ (id < fresh w)%nat;
  in_inn : ∀ id r, (id, r) ∈ inn x → answers w !! id = Some r;
  in_reading : ∀ c id r, reader w = Finishing c id r → answers w !! id = Some r;
  in_results : ∀ id r, results w !! id = Some r → r = StandardErrReply "server time out" ∨ (∃ e, r = StandardErrReply ("request failed " +:+ e)) ∨ answers w !! id = Some r
}.

(** Actions that open no new connection. *)
Definition keeps_conn (a : Action) : Prop := a ≠ Redial true.

Lemma start_inv : inv (Start MakeClient) (mkConn [] [] false).
Proof.
  split; cbn; try done.
  - apply NoDup_nil_2.
  - by intros id ?%elem_of_nil.
  - by intros id r ?%elem_of_nil.
Qed.

Lemma enqueue_inv w x args hb id w' : inv w x → enqueue args hb w = (Ret id, w') → inv w' x.
Proof.
  intros I. unfold enqueue. do 4 (erewrite bind_Ret by reflexivity; cbv beta). cbn [client set_client set_fresh set_requests set_working pending_closed pendingReqs].
  destruct (pending_closed (client w)); [done|]. destruct (chanSize <=? _)%nat; [done|]. cbn. intros [= <- <-]. set (n := fresh w).
  assert (n ∉ pendingReqs (client w) ++ unfinished w x) as Hn.
  { intros (q & Hq & _)%(in_fresh _ _ I). apply (in_requests _ _ I) in Hq as [Hq _]. unfold n in Hq. lia. }
  destruct I as [I1 I2 I3 I4 I5 I6 I7 I8 I9 I10 I11].
  assert ((pendingReqs (client w) ++ [n]) ++ unfinished w x ≡ₚ n :: (pendingReqs (client w) ++ unfinished w x)) as Hperm by (rewrite <-app_assoc; symmetry; apply Permutation_middle).
  split; try done; cbn; change (unfinished _ x) with (unfinished w x).
  - rewrite Hperm. by constructor.
  - intros i. rewrite Hperm, elem_of_cons. intros [->|Hi]; [exists (mkRequest args None hb 1 None); by rewrite lookup_insert_eq|].
    rewrite lookup_insert_ne by (intros <-; done). by apply I6.
  - intros i q. destruct (decide (i = n)) as [->|Hne]; [rewrite lookup_insert_eq; intros [= <-]; split; [lia|by left]|].
    rewrite lookup_insert_ne by done. intros [H1 H2]%I7. split; [unfold n; lia|done].
  - intros i r [H1 H2]%I8. split; [|unfold n; lia]. rewrite <-app_assoc. rewrite elem_of_app in H1 |- *. rewrite elem_of_app, list_elem_of_singleton.
    intros [?|[->|?]]; [by apply H1; left|unfold n in H2; lia|by apply H1; right].
Qed.

Lemma Send_end_inv w x id timeout w' : inv w x → Send_end id timeout w = (Ret tt, w') → inv w' x.
Proof.
  intros I. unfold Send_end. erewrite bind_Ret by reflexivity. destruct (requests w !! id) as [q|] eqn:Eq; [|done].
  destruct (negb timeout && negb (waiting q =? 0)) eqn:Eg; [done|]. cbn. intros [= <-]. pose proof (in_requests _ _ I id q Eq) as [_ Hq].
  destruct I as [I1 I2 I3 I4 I5 I6 I7 I8 I9 I10 I11]. split; try done; cbn.
  intros i r. destruct (decide (i = id)) as [->|Hne]; [rewrite lookup_insert_eq|rewrite lookup_insert_ne by done; apply I11]. intros [= <-].
  destruct timeout; [by left|right]. cbn in Eg. apply negb_false_iff, Z.eqb_eq in Eg. destruct Hq as [(Hw & _)|(_ & [(r & -> & -> & Ha)|(_ & [e ->])])]; [lia| |]; [right; done|left; by exists e].
Qed.

Lemma doRequest_inv w x attempts w' : inv w x → doRequest attempts w = (Ret tt, w') → ∃ x', inv w' x'.
Proof.
  intros I. pose proof I as [I1 I2 I3 I4 I5 I6 I7 I8 I9 I10 I11]. unfold doRequest. erewrite bind_Ret by reflexivity. cbn [Datatypes.id].
  destruct (writer w) eqn:Ew; [|done]. rewrite <-Ew in I4. destruct (pendingReqs (client w)) as [|id rest] eqn:Ep; [done|]. erewrite bind_Ret by reflexivity. cbv beta.
  destruct (I6 id) as (q & Eq & Hq); [apply elem_of_cons; auto|]. rewrite Eq. set (w1 := set_client w (set_pendingReqs (client w) rest)).
  cbn [app] in I5. apply NoDup_cons in I5 as [Hid Hnd].
  assert (inv w1 x) as I1'.
  { split; try done; cbn; change (unfinished w1 x) with (unfinished w x).
    - intros i Hi. apply I6, elem_of_cons. auto.
    - intros i r [H1 H2]%I8. split; [|done]. contradict H1. cbn. apply elem_of_cons. auto. }
  destruct (args q) as [|a0 as0]; [intros [= <-]; by exists x|]. destruct I1 as [Ec Ex]. rewrite Ec, Ex, lookup_singleton_eq.
  destruct (if conn_closed x then _ else _) as [e|] eqn:Etry.
  - cbn. intros [= <-]. exists x. split; try done; cbn; change (unfinished _ x) with (unfinished w x).
    + intros i Hi. rewrite lookup_alter_ne by (intros <-; done). apply I6, elem_of_cons. auto.
    + intros i q'. destruct (decide (i = id)) as [->|Hne].
      * rewrite lookup_alter_eq, Eq. intros [= <-]. split; [by apply (I7 id q)|]. right. destruct Hq as (H1 & H2 & H3). split; [cbn; lia|]. right. cbn. by split.
      * rewrite lookup_alter_ne by done. apply I7.
    + apply (in_answers _ _ I1').
  - cbn. intros [= <-]. set (x' := mkConn (out x ++ [id]) (inn x) (conn_closed x)). exists x'.
    assert (∀ w', reader w' = reader w → unfinished w' x' = unfinished w x ++ [id]) as Hun by (intros w' E; unfold unfinished; rewrite E; cbn; by rewrite !app_assoc).
    split; cbn; rewrite ?Hun by done; try done.
    + by rewrite Ex, alter_singleton_eq.
    + by apply prefix_app_r.
    + intros Hcl. by rewrite I4, Ew, app_nil_r.
    + rewrite app_assoc. apply NoDup_app. split_and!; [done| |apply NoDup_singleton]. by intros i Hi ->%list_elem_of_singleton.
    + intros i. rewrite app_assoc, elem_of_app, list_elem_of_singleton. intros [Hi| ->]; [apply I6, elem_of_cons; auto|by exists q].
    + intros i r [H1 H2]%I8. split; [|done]. contradict H1. rewrite app_assoc, elem_of_app, list_elem_of_singleton in H1. cbn. rewrite elem_of_cons. tauto.
Qed.

Lemma push_inv w x w' : inv w x → push w = (Ret tt, w') → inv w' x.
Proof.
  intros [I1 I2 I3 I4 I5 I6 I7 I8 I9 I10 I11]. unfold push. erewrite bind_Ret by reflexivity. cbn [Datatypes.id]. destruct (writer w) as [|id] eqn:Ew; [done|].
  destruct (waiting_closed (client w)) eqn:Ecl; [done|]. destruct (chanSize <=? _)%nat; [done|]. cbn. intros [= <-].
  specialize (I4 eq_refl). cbn in I4. split; try done; cbn; change (unfinished _ x) with (unfinished w x).
  - by rewrite I4.
  - intros _. by rewrite app_nil_r.
Qed.

Lemma serve_inv w x c r w' : inv w x → serve c r w = (Ret tt, w') → ∃ x', inv w' x'.
Proof.
  intros [[Ec Ex] I2 I3 I4 I5 I6 I7 I8 I9 I10 I11]. unfold serve. erewrite bind_Ret by reflexivity. cbn [Datatypes.id]. rewrite Ex. destruct (decide (c = 0%nat)) as [->|Hc]; [|by rewrite lookup_singleton_ne].
  rewrite lookup_singleton_eq. destruct (out x) as [|id rest] eqn:Eo; [done|]. cbn. intros [= <-]. set (x' := mkConn rest (inn x ++ [(id, r)]) (conn_closed x)). exists x'.
  assert (∀ w', reader w' = reader w → unfinished w' x' = unfinished w x) as Hun.
  { intros w' E. unfold unfinished. rewrite E, Eo. cbn. rewrite fmap_app, <-!app_assoc. done. }
  assert (answers w !! id = None) as Hnone.
  { destruct (answers w !! id) as [r'|] eqn:E; [|done]. apply I8 in E as [E _]. exfalso. apply E, elem_of_app. right. apply elem_of_cons. auto. }
  assert (∀ i r', answers w !! i = Some r' → <[id:=r]> (answers w) !! i = Some r') as Hkeep by (intros i r' E; rewrite lookup_insert_ne by congruence; done).
  assert (id ∈ unfinished w x) as Hid by (unfold unfinished; rewrite Eo, !elem_of_app, elem_of_cons; auto).
  assert (id ∉ pendingReqs (client w) ++ rest) as Hnot.
  { unfold unfinished in I5. rewrite Eo in I5. rewrite !app_assoc in I5. rewrite elem_of_app. apply NoDup_app in I5 as (_ & Hd & [Hr _]%NoDup_cons).
    intros [Hp|Hp]; [|done]. apply (Hd id); [rewrite <-app_assoc, elem_of_app; auto|apply elem_of_cons; auto]. }
  split; cbn; rewrite ?Hun by done; try done.
  - by rewrite Ex, alter_singleton_eq.
  - intros i q [H1 H2]%I7. split; [done|]. destruct H2 as [H2|[H2 [(r' & H3 & H4 & H5)|H3]]]; [by left|right; split; [done|left]|right; split; [done|by right]].
    exists r'. split_and!; [done|done|by apply Hkeep].
  - intros i r'. destruct (decide (i = id)) as [->|Hne].
    + intros _. split; [done|]. destruct (I6 id) as (q & Hq & _); [apply elem_of_app; auto|]. by apply (I7 id q).
    + rewrite lookup_insert_ne by done. intros [H1 H2]%I8. split; [|done]. contradict H1. rewrite elem_of_app in H1 |- *. rewrite elem_of_cons. tauto.
  - intros i r' [Hi|[= -> ->]%list_elem_of_singleton]%elem_of_app; [by apply Hkeep, I9|by rewrite lookup_insert_eq].
  - intros c i r' E. by apply Hkeep, (I10 c).
  - intros i r' [H1|[H1|H1]]%I11; [by left|by right; left|right; right; by apply Hkeep].
Qed.

Lemma handleRead_inv w x w' : inv w x → handleRead w = (Ret tt, w') → ∃ x', inv w' x'.
Proof.
  intros [[Ec Ex] I2 I3 I4 I5 I6 I7 I8 I9 I10 I11]. unfold handleRead. erewrite bind_Ret by reflexivity. cbn [Datatypes.id]. destruct (reader w) as [c|c i r| | | |] eqn:Er; try done.
  subst c. rewrite Ex, lookup_singleton_eq. destruct x as [o [|[id r] rest] cl]; [done|]. cbn. intros [= <-]. set (x' := mkConn o rest cl). exists x'.
  assert (unfinished w (mkConn o ((id, r) :: rest) cl) = id :: rest.*1 ++ o) as E by (unfold unfinished; by rewrite Er). rewrite E in I3, I4, I5, I6.
  split; cbn; try done.
  - by rewrite Ex, alter_singleton_eq.
  - intros i r' Hi. apply I9, elem_of_cons. auto.
  - intros c i r' [= <- <- <-]. apply I9, elem_of_cons. auto.
Qed.

Lemma finishRequest_inv w x w' : inv w x → finishRequest w = (Ret tt, w') → inv w' x.
Proof.
  intros [[Ec Ex] I2 I3 I4 I5 I6 I7 I8 I9 I10 I11]. unfold finishRequest. erewrite bind_Ret by reflexivity. cbn [Datatypes.id]. destruct (reader w) as [c|c i r| | | |] eqn:Er; try done. subst c.
  set (w0 := set_reader w (Reading 0)). assert (unfinished w x = i :: unfinished w0 x) as E0 by (unfold unfinished; by rewrite Er). rewrite E0 in I3, I4, I5, I6.
  destruct (waitingReqs (client w)) as [|id rest] eqn:Ewt.
  - destruct (waiting_closed (client w)) eqn:Ecl; [|done]. intros [= <-]. change (set_reader w (Reading 0)) with w0. split; cbn; try done.
    + rewrite Ewt. apply prefix_nil.
    + by rewrite Ecl.
    + apply (sublist_NoDup _ _ I5). apply sublist_app; [done|]. by apply sublist_cons.
    + intros j Hj. apply I6. rewrite elem_of_app, elem_of_cons in *. tauto.
  - apply prefix_cons_inv_1 in I3 as Hi. subst id. apply prefix_cons_inv_2 in I3. cbn. intros [= <-]. pose proof I5 as Hperm. rewrite (symmetry (Permutation_middle _ _ _)) in Hperm. apply NoDup_cons in Hperm as [Hi Hnd].
    assert (answers w !! i = Some r) as Hans by by apply (I10 0%nat).
    split; cbn; try done; change (unfinished _ x) with (unfinished w0 x).
    + intros Hcl. specialize (I4 Hcl). by injection I4.
    + intros j Hj. rewrite lookup_alter_ne by (intros <-; done). apply I6. rewrite elem_of_app, elem_of_cons in *. tauto.
    + intros j q. destruct (decide (j = i)) as [->|Hne]; [|rewrite lookup_alter_ne by done; apply I7].
      destruct (I6 i) as (q0 & Hq0 & H1 & H2 & H3); [rewrite elem_of_app, elem_of_cons; auto|]. rewrite lookup_alter_eq, Hq0. intros [= <-].
      split; [by apply (I7 i q0)|]. right. split; [cbn; lia|]. left. exists r. by split_and!.
Qed.

(** What neither [unfinished] nor the requests depend on. *)
Lemma close_inv w x : inv w x → inv (set_client w (set_pending_closed (set_status (client w) closed) true)) x.
Proof. intros []. by split. Qed.

Lemma stopped_inv w x : inv w x → unread (reader w) = [] → inv (set_reader w Stopped) x.
Proof.
  intros [I1 I2 I3 I4 I5 I6 I7 I8 I9 I10 I11] Hr. assert (unfinished (set_reader w Stopped) x = unfinished w x) as E by (unfold unfinished; by rewrite Hr).
  by split; rewrite ?E.
Qed.

Lemma conn_closed_inv w x : inv w x → inv (set_conns w (alter (λ x, mkConn (out x) (inn x) true) (conn (client w)) (conns w))) (mkConn (out x) (inn x) true).
Proof. intros [[Ec Ex] I2 I3 I4 I5 I6 I7 I8 I9 I10 I11]. split; try done; cbn. by rewrite Ec, Ex, alter_singleton_eq. Qed.

Lemma act_inv a w x w' : inv w x → keeps_conn a → act a w = (Ret tt, w') → ∃ x', inv w' x'.
Proof.
  intros I Ha E. destruct a as [args0| |id timeout|attempts| |c r| | | |ok| | | |]; cbn [act] in E.
  - unfold Send in E. apply bind_inv in E as (r & w1 & E & [= <-]). unfold mbind, gom_bind, go_get in E. destruct (negb (_ =? _)); [injection E as _ <-; eauto|].
    destruct (enqueue args0 false w) as [[id|msg|] w2] eqn:E2; [injection E as _ <-|done..]. exists x. by eapply enqueue_inv.
  - apply bind_inv in E as (r & w1 & E & [= <-]). exists x. by eapply enqueue_inv.
  - exists x. by eapply Send_end_inv.
  - by eapply doRequest_inv.
  - exists x. by eapply push_inv.
  - by eapply serve_inv.
  - by eapply handleRead_inv.
  - exists x. by eapply finishRequest_inv.
  - exists x. unfold read_error in E. unfold mbind, gom_bind, go_get, Datatypes.id in E. destruct (reader w) as [c| | | | |] eqn:Er; try done. destruct I as [I1 I2 I3 I4 I5 I6 I7 I8 I9 I10 I11].
    injection E as <-. set (rd := if status (client w) =? closed then Stopped else Redialing). assert (unfinished (set_reader w rd) x = unfinished w x) as Eu by (unfold unfinished, rd; rewrite Er; cbn; by destruct (_ =? _)).
    split; rewrite ?Eu; try done; cbn; unfold rd; by destruct (_ =? _).
  - destruct ok; [done|]. unfold redial, Close_start, mbind, gom_bind, upd_conn, upd_client, goto_reader, go_modify, go_get, Datatypes.id in E.
    destruct (reader w) eqn:Er; try done. cbn in E. destruct (pending_closed (client w)); [done|].
    injection E as <-. eexists. pose proof (close_inv _ _ (stopped_inv _ _ (conn_closed_inv w x I) ltac:(cbn; by rewrite Er))) as I'. exact I'.
  - pose proof (in_reader _ _ I) as Hr. unfold drain, mbind, gom_bind, go_get, Datatypes.id in E. by destruct (reader w).
  - pose proof (in_reader _ _ I) as Hr. unfold renew, mbind, gom_bind, go_get, Datatypes.id in E. by destruct (reader w).
  - unfold Close_start, mbind, gom_bind, upd_client, go_modify, go_get in E. cbn in E. destruct (pending_closed (client w)); [done|]. injection E as <-. exists x. exact (close_inv w x I).
  - unfold Close_end, mbind, gom_bind, upd_client, go_modify, go_get in E. destruct (negb _); [done|]. cbn in E. destruct (waiting_closed (client w)); [done|]. injection E as <-.
    eexists. destruct (conn_closed_inv w x I) as [I1 I2 I3 I4 I5 I6 I7 I8 I9 I10 I11]. split; try done.
Qed.

(** [C25] The client does not mix up replies: let any callers send requests, the two goroutines
    of the client, the heart beat, the server and the network go on in any interleaving, with
    failing writes, time outs, connections that break and [Close], only without a new connection.
    What a call of [Send] returns is then the reply that the server gave to that very request, or
    an error that says that the request failed or timed out. *)
Theorem replies_match (l : list Action) (w : World) : steps (Start MakeClient) l w → Forall keeps_conn l →
  ∀ id r, results w !! id = Some r →
    r = StandardErrReply "server time out" ∨ (∃ e, r = StandardErrReply ("request failed " +:+ e)) ∨ answers w !! id = Some r.
Proof.
  intros Hs Hl. assert (∃ x, inv w x) as [x I]; [|exact (in_results _ _ I)].
  assert (∃ x, inv (Start MakeClient) x) as I0 by (eexists; apply start_inv). revert I0 Hl. induction Hs as [w|w a w1 l w2 Ha _ IH]; [done|].
  intros [x I] [Hk Hl]%Forall_cons. by apply IH; [eapply act_inv|].
Qed.

(** The actions of a run. *)
Fixpoint run (l : list Action) (w : World) : option World :=
  match l with [] => Some w | a :: l' => match act a w with (Ret _, w1) => run l' w1 | _ => None end end.

Lemma run_steps l w w' : run l w = Some w' → steps w l w'.
Proof.
  revert w. induction l as [|a l IH]; intros w E; cbn in E; [injection E as <-; constructor|].
  destruct (act a w) as [[[]|msg|] w1] eqn:Ea; [|done..]. by econstructor; [|apply IH].
Qed.

Definition demo_run : list Action :=
  [DoSend [Some "GET"; Some "a"]; DoSend [Some "GET"; Some "b"]; DoWrite [Some "i/o timeout"; None]; DoServe 0 (StatusReply "x"); DoRead; DoPush; DoWrite [None];
   DoFinish; DoServe 0 (StatusReply "y"); DoPush; EndSend 1 true; DoRead; DoFinish; EndSend 0 false].

Definition demo_world : World := default (Start MakeClient) (run demo_run (Start MakeClient)).

Lemma demo_steps : steps (Start MakeClient) demo_run demo_world.
Proof. apply run_steps. vm_compute. reflexivity. Qed.

Lemma demo_result : results demo_world !! 0%nat = Some (StatusReply "x").
Proof. vm_compute. reflexivity. Qed.

Lemma replies_match_witness : steps (Start MakeClient) demo_run demo_world ∧ results demo_world !! 0%nat = Some (StatusReply "x") ∧
  (StatusReply "x" = StandardErrReply "server time out" ∨ (∃ e, StatusReply "x" = StandardErrReply ("request failed " +:+ e)) ∨ answers demo_world !! 0%nat = Some (StatusReply "x")).
Proof.
  split; [exact demo_steps|]. split; [exact demo_result|]. apply (replies_match demo_run demo_world demo_steps); [|exact demo_result].
  unfold demo_run, keeps_conn. rewrite !Forall_cons. split_and!; try discriminate. constructor.
Defined.

(** A request that was written to the old connection and comes on the channel of the new one gets the
    reply to the request after it. *)
Example reconnect_mixes_replies : ∃ w, run
    [DoSend [Some "GET"; Some "a"]; DoWrite [None]; ReadError; Redial true; Drain; Renew; DoPush;
     DoSend [Some "GET"; Some "b"]; DoWrite [None]; DoPush; DoServe 1 (StatusReply "value of b"); DoRead; DoFinish; EndSend 0 false]
    (Start MakeClient) = Some w ∧ results w !! 0%nat = Some (StatusReply "value of b") ∧ answers w !! 0%nat = None.
Proof. eexists. split; [vm_compute; reflexivity|]. by vm_compute. Qed.
