(* ===== verification/Pool.v ===== *)
(** * lib/pool: a pool of connections

    [Get] takes an idle object, makes a new one, or waits for one to be returned; [Put] hands
    an object to the oldest caller that waits, keeps it idle or destroys it.  Called one at a time
    they keep the count of the objects right; their interleavings can lose it. *)

From Stdlib Require Import ZArith Lia Ascii String.
From stdpp Require Import base gmap strings numbers list.
From S2P Require Import Prelude GoStd Threads.

Local Open Scope string_scope.
Local Open Scope list_scope.
Local Open Scope Z_scope.
Local Open Scope go_scope.

Module Pool.

Definition ErrClosed : string := "pool closed".
Definition ErrMax : string := "reach max connection limit".

Record Config := mkConfig { MaxIdle : nat; MaxActive : Z }.

(** Objects and requests are numbers.  [requests]: the channels of those that wait, with what was
    sent.  [made] and [destroyed]: the objects the factory made and the finalizer got. *)
Record Pool := mkPool {
  idles : list nat;
  waitingReqs : list nat;
  activeCount : Z;
  mu : bool;
  closed : bool;
  requests : gmap nat nat;
  made : list nat;
  destroyed : list nat;
  fresh : nat
}.

Definition New : Pool := mkPool [] [] 0 false false ∅ [] [] 0.

Definition set_idles (p : Pool) x := mkPool x (waitingReqs p) (activeCount p) (mu p) (closed p) (requests p) (made p) (destroyed p) (fresh p).
Definition set_waitingReqs (p : Pool) x := mkPool (idles p) x (activeCount p) (mu p) (closed p) (requests p) (made p) (destroyed p) (fresh p).
Definition set_activeCount (p : Pool) x := mkPool (idles p) (waitingReqs p) x (mu p) (closed p) (requests p) (made p) (destroyed p) (fresh p).
Definition set_mu (p : Pool) x := mkPool (idles p) (waitingReqs p) (activeCount p) x (closed p) (requests p) (made p) (destroyed p) (fresh p).
Definition set_closed (p : Pool) x := mkPool (idles p) (waitingReqs p) (activeCount p) (mu p) x (requests p) (made p) (destroyed p) (fresh p).
Definition set_requests (p : Pool) x := mkPool (idles p) (waitingReqs p) (activeCount p) (mu p) (closed p) x (made p) (destroyed p) (fresh p).
Definition set_made (p : Pool) x := mkPool (idles p) (waitingReqs p) (activeCount p) (mu p) (closed p) (requests p) x (destroyed p) (fresh p).
Definition set_destroyed (p : Pool) x := mkPool (idles p) (waitingReqs p) (activeCount p) (mu p) (closed p) (requests p) (made p) x (fresh p).
Definition set_fresh (p : Pool) x := mkPool (idles p) (waitingReqs p) (activeCount p) (mu p) (closed p) (requests p) (made p) (destroyed p) x.

Definition uint64 (z : Z) : Z := z mod 18446744073709551616.

Section pool.
(** [factory_error]: why the factory makes no object at its n-th call. *)
Context (cfg : Config) (factory_error : nat → option string).

Abbreviation M := (GoM Pool).
Abbreviation T := (Thread Pool).

(** A critical section of [pool.mu] that ends before anything else happens. *)
Definition locked {A} (m : M A) : T A := atomic (λ p, if mu p then (Block, p) else m p).

Definition fresh_number : M nat := λ p, (Ret (fresh p), set_fresh p (S (fresh p))).

Definition factory : M (string + nat) :=
  x ← fresh_number;
  match factory_error x with
  | Some e => mret (inl e)
  | None => _ ← go_modify (λ p, set_made p (made p ++ [x])); mret (inr x)
  end.

Definition finalizer (x : nat) : M unit := go_modify (λ p, set_destroyed p (destroyed p ++ [x])).

(** An error, or an object, which can be nil. *)
Abbreviation Result := (string + option nat)%type.

Definition getOnNoIdle : T Result :=
  r ← locked (
    p ← go_get id;
    if MaxActive cfg <=? activeCount p then
      req ← fresh_number; _ ← go_modify (λ p, set_waitingReqs p (waitingReqs p ++ [req])); mret (Some req)
    else _ ← go_modify (λ p, set_activeCount p (uint64 (activeCount p + 1))); mret None);
  match (r : option nat) with
  | Some req =>
      x ← atomic (λ p, match requests p !! req with Some x => (Ret x, p) | None => (Block, p) end);
      Done (inr (Some x))
  | None =>
      x ← atomic factory;
      match x with
      | inl e => _ ← locked (go_modify (λ p, set_activeCount p (uint64 (activeCount p - 1)))); Done (inl e)
      | inr x => Done (inr (Some x))
      end
  end.

(** Receiving from the closed channel of idle objects gives nil. *)
Definition Get : T Result :=
  c ← locked (go_get closed);
  if (c : bool) then Done (inl ErrClosed)
  else
    o ← atomic (p ← go_get id;
                match idles p with
                | x :: rest => _ ← go_modify (λ p, set_idles p rest); mret (Some (Some x))
                | [] => mret (if closed p then Some None else None)
                end);
    match (o : option (option nat)) with
    | Some item => Done (inr item)
    | None => getOnNoIdle
    end.

(** What is left to do after the critical section of [Put]: nothing, to finalize, or to
    lower the count first. *)
Inductive Rest := Nothing | Finalize | Discard.

Definition Put (x : nat) : T unit :=
  r ← locked (
    p ← go_get id;
    if closed p then mret Finalize
    else
      match waitingReqs p with
      | req :: rest => _ ← go_modify (λ p, set_requests (set_waitingReqs p rest) (<[req := x]> (requests p))); mret Nothing
      | [] =>
          if (length (idles p) <? MaxIdle cfg)%nat then _ ← go_modify (λ p, set_idles p (idles p ++ [x])); mret Nothing
          else mret Discard
      end);
  match r with
  | Nothing => Done tt
  | Finalize => atomic (finalizer x)
  | Discard =>
      n ← atomic (go_get activeCount);
      _ ← atomic (go_modify (λ p, set_activeCount p (uint64 (n - 1))));
      atomic (finalizer x)
  end.

Definition Close : T unit :=
  first ← locked (p ← go_get id; if closed p then mret false else _ ← go_modify (λ p, set_closed p true); mret true);
  if negb first then Done tt
  else atomic (p ← go_get id; _ ← go_for (idles p) finalizer; go_modify (λ p, set_idles p [])).

(** ** Calls one at a time *)

(** [held]: the objects that callers have. *)
Record pool_ok (p : Pool) (held : list nat) : Prop := {
  po_free : mu p = false ∧ closed p = false ∧ waitingReqs p = [];
  po_idle : (length (idles p) ≤ MaxIdle cfg)%nat;
  po_count : activeCount p = Z.of_nat (length (held ++ idles p));
  po_max : activeCount p ≤ MaxActive cfg;
  po_nodup : NoDup (held ++ idles p);
  po_fresh : ∀ x, x ∈ held ++ idles p → (x < fresh p)%nat;
  po_requests : requests p !! fresh p = None
}.

Hypothesis max_small : MaxActive cfg < 18446744073709551616.

Lemma New_pool_ok : 0 ≤ MaxActive cfg → pool_ok New [].
Proof. intros Hm. split; cbn; try done; try lia; [apply NoDup_nil_2|]. by intros x ?%elem_of_nil. Qed.

Lemma run_locked {A} (m : M A) p : mu p = false → alone (locked m) p = m p.
Proof. intros Hm. unfold locked. by rewrite alone_atomic, Hm. Qed.

Lemma uint64_small z : 0 ≤ z < 18446744073709551616 → uint64 z = z.
Proof. apply Z.mod_small. Qed.

(** An object that nobody else has, an error of the factory, or a wait when all the objects
    allowed are in use. *)
Lemma Get_ok p held : pool_ok p held → match alone Get p with
  | (Ret (inr (Some x)), p') => x ∉ held ∧ ((∀ r, requests p !! r = None) → pool_ok p' (x :: held))
  | (Ret (inr None), _) => False
  | (Ret (inl e), p') => (∃ n, factory_error n = Some e) ∧ ((∀ r, requests p !! r = None) → pool_ok p' held)
  | (Block, _) => idles p = [] ∧ Z.of_nat (length held) = MaxActive cfg
  | (Panic _, _) => False
  end.
Proof.
  intros [(Hm & Hc & Hw) H2 H3 H4 H5 H6 H7]. unfold Get. erewrite alone_step; [|rewrite run_locked by done; reflexivity]. rewrite Hc.
  destruct (idles p) as [|x rest] eqn:Ei.
  - erewrite alone_step; [|rewrite alone_atomic; erewrite bind_Ret by reflexivity; cbn [Datatypes.id]; rewrite Ei, Hc; reflexivity]. cbv iota.
    rewrite app_nil_r in *. unfold getOnNoIdle. destruct (Z.leb_spec (MaxActive cfg) (activeCount p)) as [Hle|Hlt].
    + erewrite alone_step.
      2: { rewrite run_locked by done. erewrite bind_Ret by reflexivity. cbn [Datatypes.id]. rewrite (proj2 (Z.leb_le _ _)) by done. reflexivity. }
      cbn. rewrite H7. split; [done|lia].
    + assert (uint64 (activeCount p + 1) = activeCount p + 1) as Ea by (apply uint64_small; lia).
      erewrite alone_step.
      2: { rewrite run_locked by done. erewrite bind_Ret by reflexivity. cbn [Datatypes.id]. rewrite (proj2 (Z.leb_gt _ _)) by done. reflexivity. }
      cbv iota. rewrite Ea. set (p1 := set_activeCount p (activeCount p + 1)). destruct (factory_error (fresh p)) as [e|] eqn:Ef.
      * assert (factory p1 = (Ret (inl e), set_fresh p1 (S (fresh p)))) as E1 by (unfold factory; erewrite bind_Ret by reflexivity; cbn [fresh p1 set_activeCount]; by rewrite Ef).
        thread_step E1. erewrite alone_step; [|rewrite run_locked by done; reflexivity]. cbn. rewrite uint64_small by lia. split; [by exists (fresh p)|]. intros Hr. split; cbn; rewrite ?Ei, ?app_nil_r; try done; try lia.
        intros x Hx. specialize (H6 x Hx). lia.
      * assert (factory p1 = (Ret (inr (fresh p)), set_made (set_fresh p1 (S (fresh p))) (made p ++ [fresh p]))) as E1 by (unfold factory; erewrite bind_Ret by reflexivity; cbn [fresh p1 set_activeCount]; by rewrite Ef).
        thread_step E1. cbn. assert (fresh p ∉ held) as Hn by (intros Hx%H6; lia). split; [done|]. intros Hr. split; cbn; rewrite ?Ei, ?app_nil_r; try done; try lia.
        -- by constructor.
        -- intros x [->|Hx]%elem_of_cons; [lia|]. specialize (H6 x Hx). lia.
  - erewrite alone_step; [|rewrite alone_atomic; erewrite bind_Ret by reflexivity; cbn [Datatypes.id]; rewrite Ei; reflexivity]. cbn.
    assert (held ++ x :: rest ≡ₚ x :: (held ++ rest)) as Hp by (symmetry; apply Permutation_middle). rewrite Hp in H5. apply NoDup_cons in H5 as [Hx Hnd].
    split; [rewrite elem_of_app in Hx; tauto|]. intros Hr. rewrite Hp in H3. cbn in H2. split; cbn; try done; try lia.
    + by constructor.
    + intros y Hy. apply H6. by rewrite Hp.
Qed.

(** An object that is returned is idle again, or destroyed. *)
Lemma Put_ok p held x : pool_ok p (x :: held) → ∃ p', alone (Put x) p = (Ret tt, p') ∧ pool_ok p' held ∧
  (idles p' = idles p ++ [x] ∨ destroyed p' = destroyed p ++ [x]).
Proof.
  intros [(Hm & Hc & Hw) H2 H3 H4 H5 H6 H7]. cbn in H5. apply NoDup_cons in H5 as [Hx Hnd]. unfold Put. destruct (Nat.ltb_spec (length (idles p)) (MaxIdle cfg)) as [Hlt|Hge].
  - erewrite alone_step.
    2: { rewrite run_locked by done. erewrite bind_Ret by reflexivity. cbn [Datatypes.id]. rewrite Hc, Hw, (proj2 (Nat.ltb_lt _ _)) by done. reflexivity. }
    cbn. eexists. split; [reflexivity|]. split; [|by left].
    assert (held ++ idles p ++ [x] ≡ₚ x :: (held ++ idles p)) as Hp by (rewrite app_assoc; symmetry; apply Permutation_cons_append).
    split; cbn; try done.
    + rewrite length_app. cbn. lia.
    + by rewrite Hp.
    + rewrite Hp. by constructor.
    + intros y. rewrite Hp. apply H6.
  - erewrite alone_step.
    2: { rewrite run_locked by done. erewrite bind_Ret by reflexivity. cbn [Datatypes.id]. rewrite Hc, Hw, (proj2 (Nat.ltb_ge _ _)) by done. reflexivity. }
    cbn. eexists. split; [reflexivity|]. split; [|by right]. cbn in H3.
    assert (uint64 (activeCount p - 1) = activeCount p - 1) as Ea by (apply uint64_small; lia). rewrite Ea. split; cbn; try done; try lia.
    intros y Hy. apply H6, elem_of_cons. auto.
Qed.
End pool.

(** ** Interleavings *)

Definition no_error (n : nat) : option string := None.

(** [activeCount--] of [Put] is outside the lock: a [Get] between its read and its write is not
    counted, and the pool makes more objects than it may. *)
Example lost_count : let cfg := mkConfig 0 2 in
  match (ts ← schedule [0; 0; 1; 1; 1; 1; 0; 2; 2; 2; 2; 3; 3; 3; 3; 0]%nat
    [Put cfg 7; (_ ← Get cfg no_error; Done tt); (_ ← Get cfg no_error; Done tt); (_ ← Get cfg no_error; Done tt)]; mret ts)
    (mkPool [] [] 1 false false ∅ [] [] 8) with
  | (Ret _, p) => length (made p) = 3%nat ∧ destroyed p = [7%nat] ∧ activeCount p = 2
  | _ => False
  end.
Proof. by vm_compute. Qed.

(** A [Get] that found the pool open while it is being closed returns nil without an error. *)
Example closing_get_gives_nil : let cfg := mkConfig 1 2 in
  (schedule [0; 1; 1; 0; 0]%nat
    [(r ← Get cfg no_error; match r with inr None => t_panic "nil object" | _ => Done tt end); Close] New).1 = Panic "nil object".
Proof. by vm_compute. Qed.

(** When the factory fails the place becomes free, but the callers that wait are not woken. *)
Example failed_factory_wakes_nobody : let cfg := mkConfig 1 1 in let fails (n : nat) := Some "refused" in
  match schedule (replicate 3 0 ++ replicate 4 1 ++ replicate 3 0)%nat [(_ ← Get cfg fails; Done tt); (_ ← Get cfg fails; Done tt)] New with
  | (Ret [t0; t1], p) => activeCount p = 0 ∧ blocked t0 p = false ∧ blocked t1 p = true
  | _ => False
  end.
Proof. by vm_compute. Qed.
End Pool.
