(* ===== verification/Handler.v ===== *)
(** * redis/server: connections

    redis/server/std: one goroutine per connection takes what the parser makes of the bytes of its
    client, executes it and writes the reply.  A step is the treatment of one payload; a schedule
    is the sequence of connections whose goroutines make a step.
    redis/server/gnet: an event loop calls [OnTraffic] when bytes have come. *)

From Stdlib Require Import ZArith Lia Ascii String.
From stdpp Require Import base gmap strings numbers list.
From S2P Require Import Prelude GoStd Protocol Parser DB StringCmds Conn PubSub Router Exec Server ServerLaws ServerSpec ReplLaws ReplSpec.

Local Open Scope string_scope.
Local Open Scope list_scope.
Local Open Scope Z_scope.
Local Open Scope go_scope.

(** interface/database/db.go: what a server of connections uses of a database, and what it
    does to the connection object it shares with it.  A nil reply is [None]. *)
Class Backend (E : Type) := {
  db_Exec : nat → CmdLine → GoM E (option Reply);
  db_AfterClientClose : nat → GoM E unit;
  db_NewConn : nat → GoM E unit;
  db_CloseConn : nat → GoM E unit;
  db_Close : GoM E unit
}.

Module Handler.

Section handler.
Context {E : Type} `{Backend E}.

Definition unknownErrReplyBytes : string := "-ERR unknown" +:+ CRLF.

Record Handler := mkHandler { activeConn : gset nat; db : E; closing : bool }.

(** [chans]: what the parser has put on the channel of each goroutine of [Handle] that runs;
    [written] and [closed]: the sockets. *)
Record World := mkWorld {
  handler : Handler;
  chans : gmap nat (list Payload * channel_end);
  written : gmap nat string;
  closed : gset nat
}.

Abbreviation M := (GoM World).

Definition upd_handler (f : Handler → Handler) : M unit := go_modify (λ w, mkWorld (f (handler w)) (chans w) (written w) (closed w)).
Definition put_chan (c : nat) (o : option (list Payload * channel_end)) : M unit :=
  go_modify (λ w, mkWorld (handler w) (partial_alter (λ _, o) c (chans w)) (written w) (closed w)).
Definition close_socket (c : nat) : M unit := go_modify (λ w, mkWorld (handler w) (chans w) (written w) (closed w ∪ {[c]})).

Definition on_db {A} (m : GoM E A) : M A := λ w,
  let '(o, e) := m (db (handler w)) in
  (o, mkWorld (mkHandler (activeConn (handler w)) e (closing (handler w))) (chans w) (written w) (closed w)).

(** [client.Write]: nothing for no bytes, an error on a closed socket. *)
Definition Write (c : nat) (b : string) : M (option string) := λ w,
  if String.eqb b "" then (Ret None, w)
  else if bool_decide (c ∈ closed w) then (Ret (Some "use of closed network connection"), w)
  else (Ret None, mkWorld (handler w) (chans w) (<[c := default "" (written w !! c) +:+ b]> (written w)) (closed w)).

Definition closeClient (c : nat) : M unit :=
  _ ← close_socket c;
  _ ← on_db (db_CloseConn c);
  _ ← on_db (db_AfterClientClose c);
  upd_handler (λ h, mkHandler (activeConn h ∖ {[c]}) (db h) (closing h)).

(** An error that means the end of the connection. *)
Definition Contains (s sub : string) : bool := match String.index 0 sub s with Some _ => true | None => false end.

Definition is_end (e : ReadErr) : bool :=
  match e with EOF | ErrUnexpectedEOF => true | ErrText msg => Contains msg "use of closed network connection" end.

Definition err_text (e : ReadErr) : string :=
  match e with EOF => "EOF" | ErrUnexpectedEOF => "unexpected EOF" | ErrText msg => msg end.

(** [Handle], up to its loop; [stream] is all that the client will send. *)
Definition Handle (c : nat) (stream : string) : M unit :=
  h ← go_get handler;
  if closing h then close_socket c
  else
    _ ← on_db (db_NewConn c);
    _ ← upd_handler (λ h, mkHandler (activeConn h ∪ {[c]}) (db h) (closing h));
    ch ← go_lift (parse0 stream);
    put_chan c (Some ch).

(** The body of its loop: [true] when the goroutine goes on. *)
Definition handle_payload (c : nat) (p : Payload) : M bool :=
  match p with
  | PErr e =>
      if is_end e then _ ← closeClient c; mret false
      else
        err ← Write c (ToBytes (StandardErrReply (err_text e)));
        match (err : option string) with
        | Some _ => _ ← closeClient c; mret false
        | None => mret true
        end
  | PData (MultiBulkReply args) =>
      result ← on_db (db_Exec c args);
      _ ← Write c (match (result : option Reply) with Some r => ToBytes r | None => unknownErrReplyBytes end);
      mret true
  | PData _ => mret true
  end.

(** One step of the goroutine of [c]. *)
Definition handle_step (c : nat) : M unit :=
  o ← go_get (λ w, chans w !! c);
  match o with
  | None => mret tt
  | Some ([], ChanClosed) => put_chan c None
  | Some ([], ChanOpen) => λ w, (Block, w)
  | Some (p :: ps, fin) =>
      _ ← put_chan c (Some (ps, fin));
      go_on ← handle_payload c p;
      if (go_on : bool) then mret tt else put_chan c None
  end.

Definition serve (sch : list nat) : M unit := go_for sch handle_step.

Definition Close (ord : list nat → list nat) : M unit :=
  _ ← upd_handler (λ h, mkHandler (activeConn h) (db h) true);
  h ← go_get handler;
  _ ← go_for (ord (elements (activeConn h))) (λ c, _ ← close_socket c; on_db (db_CloseConn c));
  on_db db_Close.
End handler.
Arguments Handler E : clear implicits.
Arguments World E : clear implicits.

(** ** gnet *)

Section gnet.
Context {E : Type} `{Backend E}.

Record GnetServer := mkGnet { connected : Z; gdb : E; gwritten : gmap nat string }.

Inductive Action := GnetNone | GnetClose.

Definition on_gdb {A} (m : GoM E A) : GoM GnetServer A := λ s, let '(o, e) := m (gdb s) in (o, mkGnet (connected s) e (gwritten s)).

Definition NewGnetServer (e : E) : GnetServer := mkGnet 0 e ∅.

Definition OnOpen (c : nat) : GoM GnetServer unit :=
  _ ← on_gdb (db_NewConn c); go_modify (λ s, mkGnet (int32 (connected s + 1)) (gdb s) (gwritten s)).

Definition OnClose (c : nat) : GoM GnetServer unit :=
  _ ← go_modify (λ s, mkGnet (int32 (connected s - 1)) (gdb s) (gwritten s)); on_gdb (db_AfterClientClose c).

(** [buffer]: the bytes that have come and were not read; what is left of them is returned. *)
Definition OnTraffic (c : nat) (buffer : string) : GoM GnetServer (Action * string) :=
  let '(o, rest) := ParseV2 buffer in
  cmdLine ← go_lift o;
  match (cmdLine : ReadErr + list bytes) with
  | inl _ => mret (GnetClose, rest)
  | inr [] => mret (GnetNone, rest)
  | inr line =>
      result ← on_gdb (db_Exec c line);
      match (result : option Reply) with
      | None => go_panic "invalid memory address or nil pointer dereference"
      | Some r =>
          let b := ToBytes r in
          _ ← (if (0 <? String.length b)%nat then go_modify (λ s, mkGnet (connected s) (gdb s) (<[c := default "" (gwritten s !! c) +:+ b]> (gwritten s))) else mret tt);
          mret (GnetNone, rest)
      end
  end.
End gnet.
Arguments GnetServer E : clear implicits.
End Handler.

(** ** The server behind the handler *)

Section server.
(** [close_server]: [Server.Close], which stops the persister and replication. *)
Context `{Env} (fuel : nat) (cfg : Server.Config) `{Server.Services} (close_server : GoM Server.Server unit).

Definition server_backend : Backend Server.Server := {|
  db_Exec c line := r ← Server.Exec_ (goTable fuel) cfg c line; mret (Some r);
  db_AfterClientClose c := ord ← Server.Order; Server.AfterClientClose ord c;
  db_NewConn c := mret tt;
  db_CloseConn c := Server.upd_conn c Conn.Close;
  db_Close := close_server
|}.
End server.
