(* ===== verification/HandlerLaws.v ===== *)
(** * From the bytes of requests to the bytes of replies

    Clients that send encoded command lines to a server read the encodings of the replies that
    finite maps give, whatever the interleaving of their connections. *)

From Stdlib Require Import ZArith Lia Ascii String.
From stdpp Require Import base gmap strings numbers list.
From S2P Require Import Prelude GoStd Protocol Parser DB StringCmds Conn PubSub Router Exec Server ServerLaws ServerSpec ReplLaws ReplSpec Handler.

Local Open Scope string_scope.
Local Open Scope list_scope.
Local Open Scope Z_scope.
Local Open Scope go_scope.

Import Handler.

(** The lines in the order in which a schedule takes them, if it takes no more than there are. *)
Fixpoint merged (sch : list nat) (q : nat → list CmdLine) : option (list (nat * CmdLine)) :=
  match sch with
  | [] => Some []
  | c :: sch' =>
      match q c with
      | [] => None
      | l :: ls => cons (c, l) <$> merged sch' (λ d, if bool_decide (d = c) then ls else q d)
      end
  end.

(** The bytes of the replies to one client. *)
Definition replies_to (c : nat) (cmds : list (nat * CmdLine)) (rs : list Reply) : string :=
  concat_strings (ToBytes <$> (filter (λ x, x.1.1 = c) (zip cmds rs)).*2).

Section wire.
Context `{Env} (fuel : nat) (cfg : Server.Config) `{Server.Services} (close_server : GoM Server.Server unit).
Hypothesis no_password : Server.RequirePass cfg = "".

#[local] Instance backend : Backend Server.Server := server_backend fuel cfg close_server.

(** Goroutines that have the lines of [q] before them. *)
Record serving (w : World Server.Server) (clients : gset nat) (q : nat → list CmdLine) (sp : Spec) : Prop := {
  sv_rep : srv_rep (db (handler w)) sp;
  sv_chans : ∀ c, c ∈ clients → chans w !! c = Some (((λ l, PData (MultiBulkReply l)) <$> q c) ++ [PErr EOF], ChanClosed);
  sv_others : ∀ c, c ∉ clients → q c = [];
  sv_open : closed w = ∅;
  sv_active : activeConn (handler w) = clients;
  sv_closing : closing (handler w) = false
}.

Lemma line_step w clients q sp c l ls : serving w clients q sp → q c = l :: ls → plain l = true →
  let r := spec_exec cfg c l sp in
  ∃ w', handle_step c w = (Ret tt, w') ∧ serving w' clients (λ d, if bool_decide (d = c) then ls else q d) r.2 ∧
    ∀ d, default "" (written w' !! d) = default "" (written w !! d) +:+ (if bool_decide (d = c) then ToBytes r.1 else "").
Proof.
  intros [S1 S2 S3 S4 S5 S6] Hq Hl r. assert (c ∈ clients) as Hc by (destruct (decide (c ∈ clients)); [done|]; rewrite S3 in Hq by done; done).
  unfold handle_step. erewrite bind_Ret by reflexivity. rewrite (S2 c Hc), Hq. cbn [fmap list_fmap app]. erewrite bind_Ret by reflexivity. cbv beta.
  destruct (Exec_plain fuel cfg no_password c l (db (handler w)) sp S1 Hl) as (s' & E & Hr). fold r in E, Hr. set (w1 := mkWorld (handler w) _ (written w) (closed w)).
  set (h2 := mkHandler (activeConn (handler w)) s' (closing (handler w))). set (w2 := mkWorld h2 (chans w1) (written w) (closed w)).
  set (w3 := mkWorld h2 (chans w1) (if String.eqb (ToBytes r.1) "" then written w else <[c := default "" (written w !! c) +:+ ToBytes r.1]> (written w)) (closed w)).
  assert (handle_payload c (PData (MultiBulkReply l)) w1 = (Ret true, w3)) as E2.
  { unfold handle_payload. erewrite bind_Ret; [|unfold on_db; cbn [db_Exec backend server_backend]; change (db (handler w1)) with (db (handler w)); rewrite (bind_Ret _ _ _ _ _ E); reflexivity]. cbv beta iota.
    change (mkWorld _ _ _ _) with w2. assert (Write c (ToBytes r.1) w2 = (Ret None, w3)) as EW; [|by rewrite (bind_Ret _ _ _ _ _ EW)].
    unfold Write. change (closed w2) with (closed w). rewrite bool_decide_eq_false_2 by (rewrite S4; set_solver). unfold w3, w2. by destruct (String.eqb (ToBytes r.1) ""). }
  rewrite (bind_Ret _ _ _ _ _ E2). exists w3. split; [done|]. split; [split; try done|].
  - intros d Hd. cbn. case_bool_decide as Hdc; [subst d; by rewrite lookup_partial_alter_eq|]. rewrite lookup_partial_alter_ne by congruence. by apply S2.
  - intros d Hd. case_bool_decide as Hdc; [subst d; done|by apply S3].
  - intros d. cbn. case_bool_decide as Hdc.
    + subst d. destruct (String.eqb_spec (ToBytes r.1) "") as [->|Hb]; [by rewrite string_app_nil_r|by rewrite lookup_insert_eq].
    + rewrite string_app_nil_r. destruct (String.eqb _ _); [done|]. by rewrite lookup_insert_ne.
Qed.

Lemma serve_run sch w clients q sp cmds : serving w clients q sp → (∀ c l, l ∈ q c → plain l = true) → merged sch q = Some cmds →
  ∃ w' q', serve sch w = (Ret tt, w') ∧ serving w' clients q' (spec_run cfg cmds sp).2 ∧
    ∀ d, default "" (written w' !! d) = default "" (written w !! d) +:+ replies_to d cmds (spec_run cfg cmds sp).1.
Proof.
  revert w q sp cmds. induction sch as [|c sch IH]; intros w q sp cmds Hs Hp Hm.
  { injection Hm as <-. exists w, q. split_and!; [done|done|]. intros d. by rewrite string_app_nil_r. }
  cbn [merged] in Hm. destruct (q c) as [|l ls] eqn:Hq; [done|]. destruct (merged sch _) as [cmds'|] eqn:Hm'; [|done]. injection Hm as <-.
  destruct (line_step w clients q sp c l ls Hs Hq) as (w1 & E1 & Hs1 & Hw1); [apply (Hp c); rewrite Hq; apply elem_of_cons; auto|].
  destruct (IH w1 _ _ cmds' Hs1) as (w2 & q2 & E2 & Hs2 & Hw2); [|done|].
  { intros d l' Hl'. case_bool_decide as Hd; [subst d|by apply (Hp d)]. apply (Hp c). rewrite Hq. apply elem_of_cons. auto. }
  exists w2, q2. split_and!; [unfold serve; cbn [go_for]; by rewrite (bind_Ret _ _ _ _ _ E1)|done|].
  intros d. rewrite Hw2, Hw1, string_app_assoc. f_equal. unfold replies_to. cbn [spec_run fst snd zip zip_with]. rewrite filter_cons. cbn [fst].
  case_bool_decide as Hd; [subst d; rewrite decide_True by done|rewrite decide_False by congruence; done].
  cbn [fmap list_fmap]. by rewrite concat_strings_cons.
Qed.

(** ** Connecting *)

Definition start_world (s : Server.Server) : World Server.Server := mkWorld (mkHandler ∅ s false) ∅ ∅ ∅.

(** The clients of [l] connect, each with its lines to come. *)
Definition connect (l : list nat) (q : nat → list CmdLine) : GoM (World Server.Server) unit := go_for l (λ c, Handle c (lines_bytes (q c))).

Lemma Handle_run w c lines : closing (handler w) = false → Forall plain_line lines →
  Handle c (lines_bytes lines) w = (Ret tt, mkWorld (mkHandler (activeConn (handler w) ∪ {[c]}) (db (handler w)) false)
    (partial_alter (λ _, Some (((λ l, PData (MultiBulkReply l)) <$> lines) ++ [PErr EOF], ChanClosed)) c (chans w)) (written w) (closed w)).
Proof.
  intros Hc Hl. pose proof (parses_lines lines Hl _ (Nat.lt_succ_diag_r _)) as Hp. change (parse0_loop _ _) with (parse0 (lines_bytes lines)) in Hp.
  unfold Handle. erewrite bind_Ret by reflexivity. rewrite Hc. erewrite bind_Ret by reflexivity. erewrite bind_Ret by reflexivity.
  erewrite bind_Ret; [|unfold go_lift; rewrite Hp; reflexivity]. destruct w as [[a e cl] ch wr cd]. cbn in *. by rewrite Hc.
Qed.

Lemma connect_clients l q w : closing (handler w) = false → (∀ c, Forall plain_line (q c)) →
  ∃ w', connect l q w = (Ret tt, w') ∧ db (handler w') = db (handler w) ∧ written w' = written w ∧ closed w' = closed w ∧ closing (handler w') = false ∧
    activeConn (handler w') = activeConn (handler w) ∪ list_to_set l ∧
    (∀ c, c ∈ l → chans w' !! c = Some (((λ l, PData (MultiBulkReply l)) <$> q c) ++ [PErr EOF], ChanClosed)) ∧ (∀ c, c ∉ l → chans w' !! c = chans w !! c).
Proof.
  revert w. induction l as [|c l IH]; intros w Hc Hq.
  { exists w. split_and!; try done; [cbn; set_solver|by intros c ?%elem_of_nil]. }
  unfold connect. cbn [go_for]. rewrite (bind_Ret _ _ _ _ _ (Handle_run w c (q c) Hc (Hq c))). fold (connect l q).
  match goal with |- context [connect l q ?x] => destruct (IH x eq_refl Hq) as (w' & E & I1 & I2 & I3 & I4 & I5 & I6 & I7) end.
  exists w'. split_and!; try done.
  - rewrite I5. cbn. set_solver.
  - intros d Hd. destruct (decide (d ∈ l)) as [Hdl|Hdl]; [by apply I6|]. rewrite I7 by done. apply elem_of_cons in Hd as [->|]; [|done]. cbn. by rewrite lookup_partial_alter_eq.
  - intros d [Hne Hdl]%not_elem_of_cons. rewrite I7 by done. cbn. by rewrite lookup_partial_alter_ne.
Qed.

(** [C9] From bytes to bytes: any number of clients connect to a new server and send encoded
    command lines: commands of the table and unknown names, SELECT, FLUSHDB, FLUSHALL and PING, well
    formed or not, but none of KEYS, SCAN, GETVER, RANDOMKEY, GEORADIUS, GEORADIUSBYMEMBER, RENAMETO,
    RENAMENXTO, COPYTO nor of the commands of [reserved] (AUTH, INFO, SLOWLOG, DBSIZE, SLAVEOF,
    COMMAND, COPY, publish/subscribe, persistence, replication, transactions).  There is no password.
    Whatever the order in which their goroutines are served, the server ends no connection and waits for
    nothing, and every client reads exactly the encodings of the replies that a list of pairs
    of finite maps gives to the lines in that order; so does the log. *)
Theorem wire_refines (s0 : Server.Server) (l : list nat) (q : nat → list CmdLine) (sch : list nat) (cmds : list (nat * CmdLine)) :
  0 < Server.databases cfg → 0 ≤ Server.SlowLogMaxLen cfg → Server.NewStandaloneServer cfg = Ret s0 →
  (∀ c, Forall plain_line (q c)) → (∀ c line, line ∈ q c → plain line = true) → (∀ c, c ∉ l → q c = []) → merged sch q = Some cmds →
  let r := spec_run cfg cmds (spec_start cfg) in
  ∃ w, (_ ← connect l q; serve sch) (start_world s0) = (Ret tt, w) ∧
    (∀ c, default "" (written w !! c) = replies_to c cmds r.1) ∧ closed w = ∅ ∧ Server.persister (db (handler w)) = sp_log r.2.
Proof.
  intros Hd Hl E Hq Hp Ho Hm r. destruct (start_rep cfg Hd Hl) as (s1 & E1 & Hr). rewrite E in E1. injection E1 as <-.
  destruct (connect_clients l q (start_world s0) eq_refl Hq) as (w1 & Ec & I1 & I2 & I3 & I4 & I5 & I6 & I7).
  assert (serving w1 (list_to_set l) q (spec_start cfg)) as Hs.
  { split; [by rewrite I1|intros c Hc; apply I6; by apply elem_of_list_to_set in Hc|intros c Hc; apply Ho; by rewrite elem_of_list_to_set in Hc|done|rewrite I5; cbn; set_solver|done]. }
  destruct (serve_run sch w1 _ q _ cmds Hs Hp Hm) as (w2 & q2 & E2 & Hs2 & Hw2). exists w2. rewrite (bind_Ret _ _ _ _ _ Ec). split_and!; [done| |by apply (sv_open _ _ _ _ Hs2)|by apply (sr_log _ _ (sv_rep _ _ _ _ Hs2))].
  intros c. rewrite Hw2, I2. done.
Qed.
End wire.

Definition demo_lines (c : nat) : list CmdLine :=
  match c with
  | 1%nat => [ToCmdLine ["SET"; "k"; "v"]; ToCmdLine ["GET"; "k"]]
  | 2%nat => [ToCmdLine ["SELECT"; "1"]; ToCmdLine ["GET"; "k"]]
  | _ => []
  end.

Definition demo_cmds : list (nat * CmdLine) :=
  [(1%nat, ToCmdLine ["SET"; "k"; "v"]); (2%nat, ToCmdLine ["SELECT"; "1"]); (2%nat, ToCmdLine ["GET"; "k"]); (1%nat, ToCmdLine ["GET"; "k"])].

Lemma wire_refines_witness : ∃ s0 w,
  (_ ← connect (H := demo_env) (H0 := idle_services) 5 demo_config (mret tt) [1; 2]%nat demo_lines;
   serve (H := server_backend (H := demo_env) (H0 := idle_services) 5 demo_config (mret tt)) [1; 2; 2; 1]%nat) (start_world s0) = (Ret tt, w) ∧
  (∀ c, default "" (written w !! c) = replies_to c demo_cmds (spec_run (H := demo_env) demo_config demo_cmds (spec_start demo_config)).1).
Proof.
  destruct (NewStandaloneServer_ok demo_config) as (s0 & E & _); [done..|]. exists s0.
  destruct (wire_refines (H := demo_env) 5 demo_config (H0 := idle_services) (mret tt) eq_refl s0 [1; 2]%nat demo_lines [1; 2; 2; 1]%nat demo_cmds) as (w & Ew & Hw & _); [done|done|done| | | |done|].
  - intros [|[|[|c]]]; repeat constructor; try done; by eexists.
  - intros [|[|[|c]]] line Hl; cbn [demo_lines] in Hl; rewrite ?elem_of_cons, ?elem_of_nil in Hl; by destruct_or? Hl; subst.
  - intros [|[|[|c]]] Hc; [done| | |done]; exfalso; apply Hc; set_solver.
  - by exists w.
Defined.

(** The first client reads OK and the value; the second, in another database, OK and nil. *)
Example demo_replies : let r := (spec_run (H := demo_env) demo_config demo_cmds (spec_start demo_config)).1 in
  replies_to 1 demo_cmds r = "+OK" +:+ CRLF +:+ "$1" +:+ CRLF +:+ "v" +:+ CRLF ∧ replies_to 2 demo_cmds r = "+OK" +:+ CRLF +:+ "$-1" +:+ CRLF.
Proof. vm_compute. by split. Qed.

(** ** The event loop *)

(** Of two requests that come together only the first is executed; the second waits for
    more bytes to come. *)
Lemma OnTraffic_takes_one {E} `{Backend E} c l1 l2 (s : GnetServer E) : Forall arg_ok l1 → Z.of_nat (length l1) * 24 ≤ max_alloc → l1 ≠ [] →
  ∀ r e, db_Exec c l1 (gdb s) = (Ret (Some r), e) →
  ∃ s', OnTraffic c (ToBytes (MultiBulkReply l1) +:+ ToBytes (MultiBulkReply l2)) s = (Ret (GnetNone, ToBytes (MultiBulkReply l2)), s') ∧ gdb s' = e.
Proof.
  intros H1 H2 Hne r e Hr. unfold OnTraffic.
  assert (ParseV2 (ToBytes (MultiBulkReply l1) +:+ ToBytes (MultiBulkReply l2)) = (Ret (inr l1), ToBytes (MultiBulkReply l2))) as ->.
  { unfold ParseV2, ToBytes at 1. rewrite !string_app_assoc. erewrite early_err_inr by (by apply (ReadFull_app "*")). simpl.
    erewrite early_err_inr by (apply readInteger_spec, int64_small; unfold max_alloc in *; lia). rewrite (proj2 (Z.ltb_ge _ _)) by lia.
    erewrite bind_Ret by (unfold go_lift; by rewrite make_slice_ok by lia). rewrite Nat2Z.id. by apply readArgs_spec. }
  erewrite bind_Ret by reflexivity. cbv beta iota. destruct l1 as [|a l1]; [done|]. erewrite bind_Ret; [|unfold on_gdb; rewrite Hr; reflexivity]. cbv beta iota zeta.
  destruct (0 <? String.length (ToBytes r))%nat; eexists; (split; [reflexivity|done]).
Qed.

(** A request that comes in two parts closes the connection. *)
Example OnTraffic_closes_on_half {E} `{Backend E} c (s : GnetServer E) : OnTraffic c ("*1" +:+ CRLF +:+ "$4" +:+ CRLF +:+ "PI") s = (Ret (GnetClose, ""), s).
Proof. reflexivity. Qed.
