(* ===== verification/Rdb.v ===== *)
(** * aof/rdb.go and database/persistence.go: RDB files

    [generateRDB] loads the append-only file into a server of its own and hands every value
    to the encoder; [LoadRDB] takes the objects of the decoder and puts them into the
    databases.  Encoder and decoder are those of github.com/hdt3213/rdb: here a file is
    what [Encode] makes of the calls of the encoder, and [encoder_err] says which call fails;
    [Parse] gives the objects that the callback sees, and how the parse ends: with an error,
    or with the number of bytes that were read. *)

From Stdlib Require Import ZArith Lia Ascii String.
From stdpp Require Import base gmap strings numbers list.
From S2P Require Import Prelude GoStd Dict QuickList SetDS Protocol Parser Border SortedSet ZSetShape DB Marshal StringCmds Conn PubSub Aof Router Exec Tx SlowLog Server AofServer.

Local Open Scope string_scope.
Local Open Scope list_scope.
Local Open Scope Z_scope.
Local Open Scope go_scope.

(** ** The library *)

(** The objects of package model: the values of a file. *)
Inductive Value :=
  | StringObject (b : bytes)
  | ListObject (values : list bytes)
  | SetObject (members : list bytes)
  | HashObject (hash : gmap string bytes)
  | ZSetObject (entries : list (string * float64)).

(** The calls of the encoder; [ttl] is the option [WithTTL]. *)
Inductive Call :=
  | WriteHeader
  | WriteAux (key value : string)
  | WriteDBHeader (dbIndex keyCount ttlCount : Z)
  | WriteObject (key : string) (value : Value) (ttl : option Z)
  | WriteEnd.

(** What the callback of the decoder gets. *)
Record RedisObject := mkObject {
  GetDBIndex : Z;
  GetKey : string;
  GetValue : Value;
  GetExpiration : option Z
}.

Class RdbLib := {
  Encode : list Call → string;
  encoder_err : list Call → Call → option string;
  Parse : string → list RedisObject * (string + Z)
}.

Module Rdb.

Definition uint64 (z : Z) : Z := z mod 18446744073709551616.

(** ** Writing *)

Section encode.
Context `{Env} `{RdbLib}.

Abbreviation M := (GoM (list Call)).

(** One call of the encoder. *)
Definition call (x : Call) : M (option string) := λ l,
  match encoder_err l x with
  | Some err => (Ret (Some err), l)
  | None => (Ret None, l ++ [x])
  end.

(** The calls of a loop, up to the first error. *)
Fixpoint calls {A} (f : A → M (option string)) (xs : list A) : M (option string) :=
  match xs with
  | [] => mret None
  | x :: xs' =>
      err ← f x;
      match (err : option string) with Some e => mret (Some e) | None => calls f xs' end
  end.

(** The value as the encoder takes it; the visit of an empty sorted set panics. *)
Definition value_of (ord : range_order) (entity : DataEntity) : outcome Value :=
  match entity with
  | DString b => Ret (StringObject b)
  | DList l =>
      vals ← QList.ForEach l (λ _ v acc, (true, acc ++ [v])) [];
      Ret (ListObject vals)
  | DSet s => Ret (SetObject (Some <$> Sets.ForEach ord (Some s)))
  | DHash h => Ret (HashObject (foldl (λ m kv, <[kv.1 := kv.2]> m) ∅ (Simple.ForEach ord h)))
  | DZSet z =>
      entries ← ZSet.ForEachByRank (λ e acc, (true, acc ++ [(Member e, Score e)])) z 0 (ZSet.Len z) true [];
      Ret (ZSetObject entries)
  end.

(** [WithTTL(uint64(expiration.UnixNano()/1e6))]. *)
Definition with_ttl (expiration : option Z) : option Z := (λ t, uint64 (unix_millis t)) <$> expiration.

Definition dump_key (draws : nat) (x : string * DataEntity * option Z) : M (option string) :=
  v ← go_lift (value_of (map_order draws) x.1.2);
  call (WriteObject x.1.1 v (with_ttl x.2)).

(** Every key with the number of the iteration over its value. *)
Fixpoint numbered {A} (n : nat) (l : list A) : list (nat * A) :=
  match l with [] => [] | x :: l' => (n, x) :: numbered (S n) l' end.

Definition auxMap (now : Z) (aofUseRdbPreamble : bool) : gmap string string :=
  <["aof-preamble" := if aofUseRdbPreamble then "1" else "0"]>
    (<["ctime" := FormatInt (now / 1000000000)]> (<["redis-bits" := "64"]> {["redis-ver" := "6.0.0"]})).

Context {E : Type} `{DBEngine E}.

(** [n] databases from [i] on. *)
Fixpoint dump_dbs (draws n : nat) (i : Z) (e : E) : M (option string) :=
  match n with
  | O => mret None
  | S n' =>
      let '(r, e) := engine_GetDBSize i e in
      size ← go_lift r;
      let '(keyCount, ttlCount) := size in
      if keyCount =? 0 then dump_dbs draws n' (i + 1) e
      else
        err ← call (WriteDBHeader i (uint64 keyCount) (uint64 ttlCount));
        match (err : option string) with
        | Some err => mret (Some err)
        | None =>
            let '(r, e) := engine_ForEach i e in
            l ← go_lift r;
            err2 ← calls (λ x, dump_key x.1 x.2) (numbered draws l);
            match (err2 : option string) with
            | Some err => mret (Some err)
            | None => dump_dbs (draws + length l) n' (i + 1) e
            end
        end
  end.

(** The calls for an engine that has loaded the file; the clock and the order of [auxMap]
    take the first two draws. *)
Definition encode_engine (draws databases : nat) (aofUseRdbPreamble : bool) (e : E) : M (option string) :=
  let then_ (err : option string) (k : M (option string)) : M (option string) := match err with Some x => mret (Some x) | None => k end in
  err ← call WriteHeader;
  then_ err (
    err ← calls (λ kv, call (WriteAux kv.1 kv.2)) (range_map (map_order (S draws)) (auxMap (time_now draws) aofUseRdbPreamble));
    then_ err (
      err ← dump_dbs (S (S draws)) databases 0 e;
      then_ err (call WriteEnd))).

(** The error, or the contents of the temporary file. *)
Definition generateRDB (c draws databases : nat) (aofUseRdbPreamble : bool) (tmpDB : E) (fileSize : Z) (p : Aof.Persister) : outcome (string + string) :=
  let '(r, (_, e)) := Aof.LoadAof c fileSize (Aof.newRewriteHandler p, tmpDB) in
  _ ← r;
  let '(r, l) := encode_engine draws databases aofUseRdbPreamble e [] in
  err ← r;
  Ret (match (err : option string) with Some x => inl x | None => inr (Encode l) end).

(** [startGenerateRDB] without a listener and a hook: the size of the file. *)
Definition startGenerateRDB (syncErr createErr : option string) (p : Aof.Persister) : string + Z :=
  match syncErr, createErr with
  | Some e, _ => inl e
  | None, Some e => inl e
  | None, None => inr (slen (Aof.aofFile p))
  end.

(** The file that gets the name asked for, or an error; [closeErr] and [renameErr] are those
    of the last two steps. *)
Definition GenerateRDB (syncErr createErr closeErr renameErr : option string)
    (c draws databases : nat) (aofUseRdbPreamble : bool) (tmpDB : E) (p : Aof.Persister) : outcome (string + string) :=
  match startGenerateRDB syncErr createErr p with
  | inl err => Ret (inl err)
  | inr fileSize =>
      r ← generateRDB c draws databases aofUseRdbPreamble tmpDB fileSize p;
      Ret (match r, closeErr, renameErr with
           | inl err, _, _ => inl err
           | inr _, Some err, _ => inl err
           | inr _, None, Some err => inl err
           | inr file, None, None => inr file
           end)
  end.
End encode.

(** ** Reading *)

Section object.
Context `{Env} {S : Type} `{Store S}.

Fixpoint add_entries (z : SortedSet) (entries : list (string * float64)) : GoM S SortedSet :=
  match entries with
  | [] => mret z
  | (member, score) :: entries' =>
      r ← Rand;
      x ← go_lift (ZSet.Add z member score r);
      add_entries x.1 entries'
  end.

Definition entity_of (v : Value) : GoM S DataEntity :=
  match v with
  | StringObject b => mret (DString b)
  | ListObject values => mret (DList (foldl QList.Add QList.NewQuickList values))
  | HashObject hash =>
      ord ← Order;
      mret (DHash (foldl (λ d kv, (Simple.Put d kv.1 kv.2).1) Simple.MakeSimple (range_map ord hash)))
  | SetObject members => mret (DSet (foldl (λ s m, (Sets.Add s (str m)).1) (Sets.Make []) members))
  | ZSetObject entries => z ← add_entries ZSet.Make entries; mret (DZSet z)
  end.

(** The callback of [LoadRDB] on the database of the object. *)
Definition load_object (o : RedisObject) : GoM S unit :=
  entity ← entity_of (GetValue o);
  _ ← PutEntity (GetKey o) entity;
  _ ← match GetExpiration o with None => mret tt | Some t => Expire (GetKey o) t end;
  cmd ← EntityToCmd (GetKey o) entity;
  addAof cmd.
End object.

Section server.
Context `{Env} `{RdbLib} (cfg : Server.Config).

Definition LoadRDB (file : string) : GoM Server.Server (string + Z) :=
  let '(objects, result) := Parse file in
  _ ← go_for objects (λ o,
        db ← Server.mustSelectDB (GetDBIndex o);
        Server.on_db cfg (GetDBIndex o) db (load_object o));
  mret result.

(** What [LoadAof] sees of it. *)
Definition load_preamble (file : string) : GoM Server.Server (option Z) :=
  r ← LoadRDB file; mret (match r with inl _ => None | inr n => Some n end).

(** [file] is [None] when it cannot be opened. *)
Definition loadRdbFile (file : option string) : GoM Server.Server (option string) :=
  match file with
  | None => mret (Some "open rdb file failed")
  | Some file =>
      r ← LoadRDB file;
      mret (match r with inl err => Some ("load rdb file failed " +:+ err) | inr _ => None end)
  end.

(** No hub, no slow log and no persister in Go; the hub and the slow log are empty ones
    here, which no line of a file reaches. *)
Definition MakeAuxiliaryServer (h : PubSub.Hub) (sl : SlowLog.SlowLogger) : outcome Server.Server :=
  if Server.databases cfg <? 0 then Panic "makeslice: len out of range"
  else Ret (Server.mkServer (replicate (Z.to_nat (Server.databases cfg)) makeBasicDB) (PubSub.start h) None
              Server.masterRole (Server.mkSlave "" 0 "" 0 0 0) sl 0).

(** [NewStandaloneServer] where no append-only file is found. *)
Definition start_from_rdb (file : option string) : outcome Server.Server :=
  s ← Server.NewStandaloneServer cfg;
  if String.eqb (Server.RDBFilename cfg) "" then Ret s
  else let '(r, s') := loadRdbFile file s in _ ← r; Ret s'.
End server.
End Rdb.
