(* ===== verification/RdbLaws.v ===== *)
(** * What an RDB file keeps

    A value goes through the calls of the encoder and the objects of the decoder; [carries]
    says what an object stands for.  The theorem composes the generation of a file from the
    append-only file with the start of a server from it. *)

From Stdlib Require Import ZArith Lia Ascii String.
From Stdlib Require Import Floats.SpecFloat.
From stdpp Require Import base gmap strings numbers sorting list countable.
From S2P Require Import Prelude GoStd Dict QuickList SetDS Protocol Parser Border SkipList SkipRep SortedSet ZSetShape SortedFacts ZSetLaws DB Marshal StringCmds ListCmds Conn PubSub Aof AofLaws Router Exec Tx SlowLog Server ServerLaws ServerSpec Laws CollLaws ZCmdLaws AofServer MarshalLaws Rdb.

Local Open Scope string_scope.
Local Open Scope list_scope.
Local Open Scope Z_scope.
Local Open Scope go_scope.

#[local] Opaque cmdTable storeTable makeDB.

Import Rdb.

(** ** The documented behaviour of the library *)

(** The same object: members of a set and of a sorted set may come in another order. *)
Definition same_value (v v' : Value) : Prop :=
  match v, v' with
  | StringObject b, StringObject b' => b = b'
  | ListObject l, ListObject l' => l = l'
  | SetObject l, SetObject l' => l ≡ₚ l'
  | HashObject h, HashObject h' => h = h'
  | ZSetObject l, ZSetObject l' => l ≡ₚ l'
  | _, _ => False
  end.

Definition decoded (o o' : RedisObject) : Prop :=
  GetDBIndex o = GetDBIndex o' ∧ GetKey o = GetKey o' ∧ same_value (GetValue o) (GetValue o') ∧ GetExpiration o = GetExpiration o'.

(** The objects of a list of calls, the times in nanoseconds. *)
Fixpoint objects_of (cur : Z) (cs : list Call) : list RedisObject :=
  match cs with
  | [] => []
  | WriteDBHeader i _ _ :: cs' => objects_of i cs'
  | WriteObject k v ttl :: cs' => mkObject cur k v ((λ ms, ms * 1000000) <$> ttl) :: objects_of cur cs'
  | _ :: cs' => objects_of cur cs'
  end.

Section library.
Context `{Env}.

(** No nil, no empty collection, scores whose text reads back. *)
Definition encodable (v : Value) : Prop :=
  match v with
  | StringObject b => is_Some b
  | ListObject l => l ≠ [] ∧ Forall is_Some l
  | SetObject l => l ≠ [] ∧ Forall is_Some l ∧ NoDup l
  | HashObject h => h ≠ ∅ ∧ map_Forall (λ _ b, is_Some b) h
  | ZSetObject l => l ≠ [] ∧ NoDup l.*1 ∧ Forall (λ e, ParseFloat (FormatFloat e.2) = Some e.2) l
  end.

Definition call_ok (x : Call) : Prop :=
  match x with
  | WriteDBHeader i _ _ => 0 ≤ i
  | WriteObject _ v ttl => encodable v ∧ from_option (λ ms, 0 ≤ ms * 1000000 ≤ int64_max) True ttl
  | _ => False
  end.

Definition is_aux (x : Call) : Prop := match x with WriteAux _ _ => True | _ => False end.

Definition headed (cs : list Call) : Prop := match cs with [] => True | x :: _ => match x with WriteDBHeader _ _ _ => True | _ => False end end.

(** A whole file. *)
Definition complete (cs : list Call) : Prop :=
  ∃ aux body, cs = WriteHeader :: aux ++ body ++ [WriteEnd] ∧ Forall is_aux aux ∧ Forall call_ok body ∧ headed body.

(** The decoder gives what was encoded, and refuses what does not start like an RDB file. *)
Class RdbLaws `{RdbLib} := {
  parse_encode cs : complete cs → ∃ os n, Parse (Encode cs) = (os, inr n) ∧ Forall2 decoded (objects_of 0 cs) os;
  parse_other s : HasPrefix s "REDIS" = false → ∃ err, Parse s = ([], inl err)
}.

(** ** Values *)

(** What an object stands for. *)
Definition carries (v : Value) (c : content) : Prop :=
  match v, c with
  | StringObject b, CString b' => b = b'
  | ListObject l, CList xs => l = xs
  | SetObject l, CSet X => list_to_set (str <$> l) = X
  | HashObject h, CHash m => h = m
  | ZSetObject l, CZSet m => NoDup l.*1 ∧ list_to_map l = m
  | _, _ => False
  end.

Lemma carries_same v v' c : carries v c → same_value v v' → carries v' c.
Proof.
  destruct v as [b|l|l|h|l], v' as [b'|l'|l'|h'|l'], c as [b''|xs|m|X|m]; try done; cbn; try by (intros <- <-).
  intros [Hn Hm] Hp. split; [by rewrite <-Hp|]. rewrite <-Hm. symmetry. by apply list_to_map_proper.
Qed.

(** The fields of a Go map, written one by one. *)
Lemma foldl_insert_map {A} (l : list (string * A)) (m : gmap string A) : NoDup l.*1 → l ≡ₚ map_to_list m →
  foldl (λ m kv, <[kv.1 := kv.2]> m) ∅ l = m.
Proof.
  intros Hn Hp. rewrite <-(list_to_map_to_list m), <-(list_to_map_proper l _ Hn Hp). clear Hp.
  assert (∀ m0 : gmap string A, foldl (λ m kv, <[kv.1 := kv.2]> m) m0 l = list_to_map l ∪ m0) as E; [|by rewrite E, map_union_empty].
  induction l as [|[k x] l IH]; intros m0; cbn; [by rewrite map_empty_union|].
  inversion Hn as [|? ? Hk Hn']; subst. rewrite IH by done.
  rewrite <-insert_union_r by (by apply not_elem_of_list_to_map_1). by rewrite insert_union_l.
Qed.

Lemma pass_pairs l (acc : list (string * float64)) :
  pass (λ e acc, (true, acc ++ [(Member e, Score e)])) l acc = acc ++ ((λ e, (Member e, Score e)) <$> l).
Proof.
  revert acc. induction l as [|e l IH]; intros acc; cbn; [by rewrite app_nil_r|]. rewrite IH, <-app_assoc. done.
Qed.

Lemma sorted_pairs (m : scores) : (λ e, (Member e, Score e)) <$> zsorted m ≡ₚ map_to_list m.
Proof.
  unfold zsorted. rewrite merge_sort_Permutation. unfold to_elems. rewrite <-list_fmap_compose.
  rewrite (list_fmap_ext _ id); [by rewrite list_fmap_id|]. by intros _ [k s] _.
Qed.

Lemma value_of_carries ord e c : fair_order ord → stands_for e c → writable c → no_nil c →
  ∃ v, value_of ord e = Ret v ∧ carries v c ∧ encodable v.
Proof.
  intros Ho Hs Hw Hn. destruct e as [b|l|d|s|z], c as [b'|xs|m|X|m]; try done; cbn [stands_for writable no_nil] in *; cbn [value_of].
  - subst b'. by eexists.
  - destruct Hs as [Hwf Hl]. rewrite QList.ForEach_spec by done. cbn [mbind outcome_bind]. rewrite fold_until_collect, Hl. by eexists (ListObject xs).
  - eexists. split; [done|]. assert (Simple.ForEach ord d ≡ₚ map_to_list m) as Hp by (rewrite <-Hs; by apply range_map_perm).
    rewrite (foldl_insert_map _ m); [by split|rewrite Hp; apply NoDup_fst_map_to_list|done].
  - eexists. split; [done|]. assert (Sets.ForEach ord (Some s) ≡ₚ elements X) as Hp by (rewrite <-Hs; by apply (Sets.ForEach_perm _ (Some s))).
    revert Hp. generalize (Sets.ForEach ord (Some s)). intros ms Hp. cbn [carries encodable]. assert (str <$> (Some <$> ms) = ms) as -> by (clear; induction ms as [|x ms IH]; [done|]; cbn; by f_equal). split_and!.
    + apply leibniz_equiv. intros x. rewrite elem_of_list_to_set, Hp. apply elem_of_elements.
    + intros E. apply fmap_nil_inv in E. rewrite E in Hp. apply Permutation_nil in Hp. by apply elements_empty_inv, leibniz_equiv in Hp.
    + apply Forall_fmap, Forall_true. by intros; eexists.
    + apply NoDup_fmap_2; [by intros ?? [=]|]. rewrite Hp. apply NoDup_elements.
  - destruct Hw as [Hm Hf]. assert (0 < Z.of_nat (size m)) as Hsz.
    { destruct (size m) eqn:E; [by apply map_size_empty_inv in E|lia]. }
    rewrite (Len_ok _ _ Hs), (ForEachByRank_ok _ _ m) by (done || lia). cbn [mbind outcome_bind]. rewrite pass_pairs.
    change (drop (Z.to_nat 0) (listed true m)) with (reverse (zsorted m)). cbn [app].
    rewrite take_ge by (rewrite length_reverse, zsorted_length; lia). eexists. split; [done|].
    set (l := _ <$> reverse (zsorted m)).
    assert (l ≡ₚ map_to_list m) as Hp by (unfold l; by rewrite reverse_Permutation, sorted_pairs).
    assert (NoDup l.*1) as Hl by (rewrite Hp; apply NoDup_fst_map_to_list). cbn. split_and!; [done| | |done|].
    + by rewrite (list_to_map_proper l _ Hl Hp), list_to_map_to_list.
    + intros E. rewrite E in Hp. apply Permutation_nil in Hp. by apply map_to_list_empty_iff in Hp.
    + rewrite Hp. apply Forall_forall. intros [k s] Hk. apply list_elem_of_In, elem_of_map_to_list in Hk. apply (Hf _ _ Hk).
Qed.
End library.

(** ** An object into a database *)

Section object.
Context `{Env}.

Definition with_draws (w : View) (n : nat) : View := mkView (v_store w) (v_ttl w) (v_aof w) n.

Definition proper_content (c : content) : Prop := match c with CZSet m => proper_map m | _ => True end.

Lemma stands_for_proper e c : stands_for e c → proper_content c.
Proof. destruct e, c; try done. apply ok_proper. Qed.

Lemma add_entries_run es z m w : zset_ok z m → Forall (λ e, proper e.2) es →
  ∃ z' n, add_entries z es w = (Ret z', with_draws w n) ∧ zset_ok z' (foldl (λ m kv, <[kv.1 := kv.2]> m) m es).
Proof.
  revert z m w. induction es as [|[k s] es IH]; intros z m w Hz Hp; [exists z, (v_draws w); by destruct w|].
  inversion Hp as [|? ? Hs Hp']; subst. cbn [add_entries]. erewrite bind_Ret by reflexivity.
  match goal with |- context [ZSet.Add z k s ?r] => destruct (Add_ok z m k s r Hz Hs) as (z' & -> & Hz') end.
  unfold go_lift. erewrite bind_Ret by reflexivity. cbn [fst].
  match goal with |- context [add_entries z' es ?w1] => destruct (IH z' _ w1 Hz' Hp') as (z2 & n & -> & H2) end. by exists z2, n.
Qed.

Lemma sets_add_loop (ms : list string) (s : Set_ (SimpleDict unit)) :
  Sets.members (foldl (λ s m, (Sets.Add s m).1) s ms) = Sets.members s ∪ list_to_set ms.
Proof.
  revert s. induction ms as [|m ms IH]; intros s; cbn [foldl list_to_set]; [set_solver|]. rewrite IH.
  destruct (Sets.set_Add_spec s m) as (_ & -> & _); [done|]. set_solver.
Qed.

Lemma entity_of_run v c w : fair → carries v c → proper_content c →
  ∃ e n, entity_of v w = (Ret e, with_draws w n) ∧ stands_for e c.
Proof.
  intros Hfair Hc Hp. destruct v as [b|l|l|h|l], c as [b'|xs|m|X|m]; try done; cbn [carries proper_content] in *; cbn [entity_of].
  - subst b'. exists (DString b), (v_draws w). by destruct w.
  - subst xs. destruct (rpush_loop_spec l QList.NewQuickList (proj1 QList.NewQuickList_wf)) as [Hw Hl].
    exists (DList (rpush_loop QList.NewQuickList l)), (v_draws w). destruct w. by split.
  - exists (DSet (foldl (λ s m, (Sets.Add s (str m)).1) (Sets.Make []) l)), (v_draws w). destruct w. split; [done|]. cbn [stands_for].
    rewrite <-(foldl_fmap (λ s m, (Sets.Add s m).1)), sets_add_loop. rewrite Hc. by rewrite (proj2 Sets.Make_nil_spec), (left_id_L ∅ (∪)).
  - subst h. erewrite bind_Ret by reflexivity. eexists _, (S (v_draws w)). split; [reflexivity|]. cbn [stands_for].
    pose proof (range_map_perm (map_order (v_draws w)) m (Hfair _)) as Hr.
    transitivity (foldl (λ m kv, <[kv.1 := kv.2]> m) (dict_m (Simple.MakeSimple : SimpleDict bytes)) (range_map (map_order (v_draws w)) m));
      [|by apply foldl_insert_map; [rewrite Hr; apply NoDup_fst_map_to_list|]]. generalize (Simple.MakeSimple : SimpleDict bytes).
    generalize (range_map (map_order (v_draws w)) m). clear. intros l. induction l as [|[k x] l IH]; intros d; [done|]. cbn [foldl fst snd].
    rewrite IH. f_equal. unfold Simple.Put. by destruct (dict_m d !! k).
  - destruct Hc as [Hn Hm]. assert (l ≡ₚ map_to_list m) as Hl by (rewrite <-Hm; symmetry; by apply map_to_list_to_map).
    destruct (add_entries_run l ZSet.Make ∅ w Make_ok) as (z & n & E & Hz).
    { rewrite Hl. apply Forall_forall. intros [k s] Hk. apply list_elem_of_In, elem_of_map_to_list in Hk. exact (Hp _ _ Hk). }
    rewrite (foldl_insert_map l m) in Hz by done. exists (DZSet z), n. rewrite (bind_Ret _ _ _ _ _ E). by split.
Qed.

Definition put_ttl (k : string) (o : option Z) (m : gmap string Z) : gmap string Z := match o with None => m | Some t => <[k := t]> m end.

Lemma load_object_run o c w : fair → carries (GetValue o) c → proper_content c → writable c →
  ∃ e line n, load_object o w = (Ret tt, mkView (<[GetKey o := e]> (v_store w)) (put_ttl (GetKey o) (GetExpiration o) (v_ttl w)) (v_aof w ++ [line]) n) ∧
    stands_for e c.
Proof.
  intros Hf Hc Hp Hw. destruct (entity_of_run _ c w Hf Hc Hp) as (e & n & E & He). unfold load_object. rewrite (bind_Ret _ _ _ _ _ E).
  erewrite bind_Ret by reflexivity. cbn [v_store v_ttl v_aof v_draws with_draws ViewOps.on_store go_modify snd].
  match goal with |- context [mbind _ (match GetExpiration o with None => _ | Some _ => _ end) ?x] => set (w1 := x) end.
  set (w2 := mkView (v_store w1) (put_ttl (GetKey o) (GetExpiration o) (v_ttl w1)) (v_aof w1) (v_draws w1)).
  rewrite (bind_Ret _ _ w1 tt w2) by (by destruct (GetExpiration o)).
  destruct (EntityToCmd_line (GetKey o) e c w2 Hf He Hw) as (nm & rest & draws & E2 & _). rewrite (bind_Ret _ _ _ _ _ E2).
  by eexists e, _, draws.
Qed.

Lemma refines_add_entries es z : zset_shaped z → refines zset_shaped (add_entries z es) (add_entries z es).
Proof.
  revert z. induction es as [|[k s] es IH]; intros z Hz; cbn [add_entries]; [by apply refines_ret|].
  apply (refines_bind any); [apply refines_Rand|]. intros r _. destruct (Add_shape z k s r Hz) as (z' & b & -> & Hz').
  eapply refines_bind; [by apply (refines_lift (λ x, zset_shaped x.1))|]. intros x Hx. by apply IH.
Qed.

Lemma refines_entity_of v : refines entity_ok (entity_of v) (entity_of v).
Proof.
  destruct v as [b|l|l|h|l]; cbn [entity_of]; try by apply refines_ret.
  - apply refines_ret. apply (rpush_loop_spec l QList.NewQuickList (proj1 QList.NewQuickList_wf)).
  - apply (refines_bind any); [apply refines_Order|]. intros ord _. by apply refines_ret.
  - eapply refines_bind; [apply refines_add_entries, Make_shape|]. intros z Hz. by apply refines_ret.
Qed.

Lemma refines_load_object o : refines any (load_object o) (load_object o).
Proof.
  unfold load_object. eapply refines_bind; [apply refines_entity_of|]. intros e He.
  apply (refines_bind any); [by apply refines_PutEntity|]. intros _ _.
  apply (refines_bind any); [destruct (GetExpiration o); [apply refines_Expire|by apply refines_ret]|]. intros _ _.
  apply (refines_bind any); [eapply refines_weaken; [|by apply refines_EntityToCmd]; done|]. intros line _. apply refines_addAof.
Qed.
End object.

(** ** Objects into a server *)

(** What a database stands for: contents and expiry times. *)
Abbreviation Contents := (gmap string content * gmap string Z)%type.

Definition db_holds (m : gmap string DataEntity * gmap string Z) (a : Contents) : Prop :=
  (∀ k, option_Forall2 stands_for (m.1 !! k) (a.1 !! k)) ∧ m.2 = a.2.

(** A key of a file, with the index of its database. *)
Abbreviation Entry := (Z * (string * content * option Z))%type.

Definition put (x : string * content * option Z) (a : Contents) : Contents :=
  (<[x.1.1 := x.1.2]> a.1, put_ttl x.1.1 x.2 a.2).

Definition put_entry (l : list Contents) (x : Entry) : list Contents := alter (put x.2) (Z.to_nat x.1) l.

Definition shows (o : RedisObject) (x : Entry) : Prop :=
  GetDBIndex o = x.1 ∧ GetKey o = x.2.1.1 ∧ carries (GetValue o) x.2.1.2 ∧ GetExpiration o = x.2.2.

Definition loads `{Env} (n : nat) (x : Entry) : Prop := 0 ≤ x.1 < Z.of_nat n ∧ proper_content x.2.1.2 ∧ writable x.2.1.2.

Lemma shows_decoded o o' x : shows o x → decoded o o' → shows o' x.
Proof.
  intros (H1 & H2 & H3 & H4) (G1 & G2 & G3 & G4). unfold shows. rewrite <-G1, <-G2, <-G4. split_and!; try done.
  by eapply carries_same.
Qed.

Lemma unlocked_kept {V} (d d' : ConcurrentDict V) : mutex <$> table d' = mutex <$> table d → unlocked d → unlocked d'.
Proof.
  intros E Hu i s Hs. apply (f_equal (lookup i)) in E. rewrite !list_lookup_fmap, Hs in E. destruct (table d !! i) as [s'|] eqn:Es; [|done].
  cbn in E. injection E as ->. exact (Hu _ _ Es).
Qed.

Section load.
Context `{Env} (cfg : Server.Config).
Hypothesis Hfair : fair.

Lemma db_holds_put m a e x : db_holds m a → stands_for e x.1.2 →
  db_holds (<[x.1.1 := e]> m.1, put_ttl x.1.1 x.2 m.2) (put x a).
Proof.
  intros [H1 H2] He. split; cbn.
  - intros k. destruct (decide (k = x.1.1)) as [->|Hne]; [rewrite !lookup_insert_eq; by constructor|]. by rewrite !lookup_insert_ne.
  - by rewrite H2.
Qed.

Lemma load_one o x s sp l : srv_rep s sp → Forall2 db_holds (sp_dbs sp) l → shows o x → loads (length l) x →
  ∃ s' sp', (db ← Server.mustSelectDB (GetDBIndex o); Server.on_db cfg (GetDBIndex o) db (load_object o)) s = (Ret tt, s') ∧
    srv_rep s' sp' ∧ Forall2 db_holds (sp_dbs sp') (put_entry l x).
Proof.
  intros Hr Hl (S1 & S2 & S3 & S4) (Hi & Hp & Hw). destruct x as [i [[k c] t]]. cbn [fst snd] in *. rewrite S1.
  destruct (lookup_lt_is_Some_2 l (Z.to_nat i)) as [a Ha]; [lia|].
  destruct (Forall2_lookup_r _ _ _ _ _ Hl Ha) as (m & Hm & Hma).
  destruct (Forall2_lookup_r _ _ _ _ _ (sr_dbs _ _ Hr) Hm) as (db & Hdb & Hdm).
  assert (db_fine db) as Hfine by (pose proof (so_dbs _ (sr_ok _ _ Hr)) as Hf; rewrite Forall_lookup in Hf; by eapply Hf).
  assert (length (Server.dbSet s) = length l) as Hlen by (by rewrite (Forall2_length (sr_dbs _ _ Hr)), (Forall2_length Hl)).
  assert (Server.mustSelectDB i s = (Ret db, s)) as Esel.
  { unfold Server.mustSelectDB, Server.selectDB, mbind, gom_bind, Server.in_range.
    rewrite Z.geb_leb, (proj2 (Z.leb_gt _ _)), (proj2 (Z.ltb_ge _ _)) by lia. cbn. by rewrite Hdb. }
  rewrite (bind_Ret _ _ _ _ _ Esel). unfold Server.on_db.
  destruct (refines_load_object o (Server.take_db db s)) as (E1 & E2 & K1 & K2 & _); [apply take_db_fine, Hfine|].
  rewrite (take_db_view _ _ _ Hdm) in E1, E2.
  destruct (load_object_run o c (mkView m.1 m.2 [] (Server.ticks s)) Hfair S3 Hp Hw) as (e & line & n & E & He). rewrite E in E1, E2.
  destruct (load_object o (Server.take_db db s)) as [r db1]. cbn [fst snd] in *. subst r.
  assert (db_fine db1) as Hf1.
  { split; [done|]. apply (unlocked_kept (data (Server.take_db db s))); [by injection K2|apply take_db_fine, Hfine]. }
  eexists _, _. split; [reflexivity|]. split; [by apply put_db_rep|]. cbn [sp_dbs].
  unfold put_entry. cbn [fst snd]. assert (alter (put (k, c, t)) (Z.to_nat i) l = <[Z.to_nat i := put (k, c, t) a]> l) as ->
    by (rewrite list_insert_alter; apply list_alter_ext; [intros y Hy; congruence|done]). apply Forall2_insert; [done|].
  injection E2 as V1 V2 _ _. rewrite V1, V2, S2, S4. exact (db_holds_put m a e (k, c, t) Hma He).
Qed.

Lemma put_entry_length l x : length (put_entry l x) = length l.
Proof. apply length_alter. Qed.

Lemma load_all os xs s sp l : srv_rep s sp → Forall2 db_holds (sp_dbs sp) l → Forall2 shows os xs → Forall (loads (length l)) xs →
  ∃ s' sp', go_for os (λ o, db ← Server.mustSelectDB (GetDBIndex o); Server.on_db cfg (GetDBIndex o) db (load_object o)) s = (Ret tt, s') ∧
    srv_rep s' sp' ∧ Forall2 db_holds (sp_dbs sp') (foldl put_entry l xs).
Proof.
  intros Hr Hl Hos. revert s sp l Hr Hl. induction Hos as [|o x os xs Ho _ IH]; intros s sp l Hr Hl Hx; [by exists s, sp|].
  inversion Hx as [|? ? Hx1 Hx2]; subst. destruct (load_one o x s sp l Hr Hl Ho Hx1) as (s1 & sp1 & E1 & Hr1 & Hl1).
  destruct (IH s1 sp1 _ Hr1 Hl1) as (s2 & sp2 & E2 & Hr2 & Hl2); [by rewrite put_entry_length|]. exists s2, sp2.
  cbn [go_for foldl]. rewrite (bind_Ret _ _ _ _ _ E1). by split.
Qed.
End load.

(** ** A file as the entries of its databases *)

Definition rounded (t : Z) : Z := t / 1000000 * 1000000.

(** The keys of a database; the expiry times lose what is below a millisecond. *)
Definition listing (a : Contents) : list (string * content * option Z) :=
  (λ kc, (kc.1, kc.2, rounded <$> a.2 !! kc.1)) <$> map_to_list a.1.

Definition saved (a : Contents) : Contents :=
  (a.1, rounded <$> filter (λ kt, is_Some (a.1 !! kt.1)) a.2).

Fixpoint entries (i : Z) (segs : list (list (string * content * option Z))) : list Entry :=
  match segs with [] => [] | seg :: segs' => (pair i <$> seg) ++ entries (i + 1) segs' end.

Lemma put_all_listing seg a : seg ≡ₚ listing a → foldl (λ a x, put x a) (∅, ∅) seg = saved a.
Proof.
  intros Hp. assert (NoDup (seg.*1.*1)) as Hn.
  { rewrite Hp. unfold listing. rewrite <-!list_fmap_compose. apply NoDup_fst_map_to_list. }
  assert (∀ k c t, (k, c, t) ∈ seg ↔ a.1 !! k = Some c ∧ t = rounded <$> a.2 !! k) as Hin.
  { intros k c t. rewrite Hp. unfold listing. rewrite list_elem_of_fmap. split.
    - intros ([k' c'] & [= -> -> ->] & Hk). by apply elem_of_map_to_list in Hk.
    - intros [Hk ->]. exists (k, c). split; [done|]. by apply elem_of_map_to_list. }
  assert (∀ a0, (∀ k, k ∈ seg.*1.*1 → a0.1 !! k = None ∧ a0.2 !! k = None) →
    let r := foldl (λ a x, put x a) a0 seg in
    (∀ k, k ∉ seg.*1.*1 → r.1 !! k = a0.1 !! k ∧ r.2 !! k = a0.2 !! k) ∧
    (∀ k c t, (k, c, t) ∈ seg → r.1 !! k = Some c ∧ r.2 !! k = t)) as Hr.
  { clear Hp Hin. induction seg as [|[[k c] t] seg IH]; intros a0 H0 r; [split; [done|by intros ? ? ? ?%elem_of_nil]|].
    cbn [fmap list_fmap fst snd] in *. inversion Hn as [|? ? Hk Hn']; subst.
    destruct (IH Hn' (put (k, c, t) a0)) as [I1 I2].
    { intros k' Hk'. assert (k' ≠ k) by congruence. destruct (H0 k') as [G1 G2]; [by right|]. cbn. rewrite lookup_insert_ne by done.
      split; [done|]. destruct t; cbn; [by rewrite lookup_insert_ne|done]. }
    assert ((put (k, c, t) a0).1 !! k = Some c ∧ (put (k, c, t) a0).2 !! k = t) as [P1 P2].
    { cbn. rewrite lookup_insert_eq. split; [done|]. destruct t; cbn; [by rewrite lookup_insert_eq|]. apply H0. by left. }
    split.
    - intros k' [Hne Hk']%not_elem_of_cons. unfold r. cbn [foldl]. destruct (I1 k' Hk') as [-> ->]. cbn. rewrite lookup_insert_ne by done.
      split; [done|]. destruct t; cbn; [by rewrite lookup_insert_ne|done].
    - intros k' c' t' [[= -> -> ->]|Hin]%elem_of_cons; [|by apply I2]. unfold r. cbn [foldl]. destruct (I1 k Hk) as [-> ->]. by split. }
  destruct (Hr (∅, ∅)) as [R1 R2]; [by intros|]. set (r := foldl _ _ seg) in *.
  assert (∀ k, a.1 !! k = None → k ∉ seg.*1.*1) as Hout.
  { intros k Hk Hkin. apply list_elem_of_fmap in Hkin as ([k1 c1] & -> & Hkin). apply list_elem_of_fmap in Hkin as ([[k2 c2] t2] & E & Hkin).
    cbn in E. injection E as -> ->. apply Hin in Hkin as [Hkin _]. cbn in Hk. congruence. }
  assert (r.1 = a.1 ∧ r.2 = rounded <$> filter (λ kt, is_Some (a.1 !! kt.1)) a.2) as [E1 E2]; [|unfold saved; rewrite <-E2, <-E1; by destruct r].
  split; apply map_eq; intros k; rewrite ?lookup_fmap, ?map_lookup_filter; destruct (a.1 !! k) as [c|] eqn:Hk.
  - destruct (R2 k c (rounded <$> a.2 !! k)) as [-> _]; [by apply Hin|done].
  - destruct (R1 k (Hout k Hk)) as [-> _]. apply lookup_empty.
  - destruct (R2 k c (rounded <$> a.2 !! k)) as [_ ->]; [by apply Hin|]. destruct (a.2 !! k); cbn; [|done]. by rewrite option_guard_True by (by rewrite Hk).
  - destruct (R1 k (Hout k Hk)) as [_ ->]. transitivity (None : option Z); [apply lookup_empty|]. destruct (a.2 !! k); cbn; [|done]. rewrite option_guard_False; [done|]. rewrite Hk. by intros [? ?].
Qed.

Lemma put_segment i seg (pre post : list Contents) a : Z.to_nat i = length pre →
  foldl put_entry (pre ++ a :: post) (pair i <$> seg) = pre ++ foldl (λ a x, put x a) a seg :: post.
Proof.
  intros Hi. revert a. induction seg as [|x seg IH]; intros a; [done|]. cbn [fmap list_fmap foldl]. rewrite <-IH. f_equal.
  unfold put_entry. cbn [fst snd]. rewrite Hi, alter_app_r_alt by lia. by rewrite Nat.sub_diag.
Qed.

Lemma put_entries segs l (pre : list Contents) : Forall2 (λ a seg, seg ≡ₚ listing a) l segs →
  foldl put_entry (pre ++ replicate (length l) (∅, ∅)) (entries (Z.of_nat (length pre)) segs) = pre ++ (saved <$> l).
Proof.
  intros Hl. revert pre. induction Hl as [|a seg l segs Ha _ IH]; intros pre; [done|]. cbn [length replicate entries].
  rewrite foldl_app, put_segment by lia. rewrite (put_all_listing _ _ Ha).
  specialize (IH (pre ++ [saved a])). rewrite length_app in IH. cbn [length] in IH. rewrite Nat2Z.inj_add in IH. change (Z.of_nat 1) with 1 in IH.
  rewrite <-!app_assoc in IH. cbn [app] in IH. rewrite IH. done.
Qed.

(** ** Values into a file *)

(** A database that can be saved: values without nil and empty collections, times since 1970. *)
Record savable `{Env} (db : DB) (a : Contents) : Prop := {
  sv_fine : db_fine db;
  sv_holds : db_holds (cd_map (data db), cd_map (ttlMap db)) a;
  sv_contents : map_Forall (λ _ c, writable c ∧ no_nil c) a.1;
  sv_times : map_Forall (λ _ t, 0 ≤ t ≤ int64_max) a.2;
  sv_size : Z.of_nat (size a.1) < 2147483648
}.

Definition is_object (x : Call) : Prop := match x with WriteObject _ _ _ => True | _ => False end.

Lemma objects_app i cs cs' : Forall is_object cs → objects_of i (cs ++ cs') = objects_of i cs ++ objects_of i cs'.
Proof. intros Hc. induction Hc as [|x cs Hx _ IH]; [done|]. destruct x; try done. cbn. by rewrite IH. Qed.

Lemma with_ttl_rounded o : from_option (λ t, 0 ≤ t ≤ int64_max) True o →
  (λ ms, ms * 1000000) <$> with_ttl o = rounded <$> o ∧ from_option (λ ms, 0 ≤ ms * 1000000 ≤ int64_max) True (with_ttl o).
Proof.
  destruct o as [t|]; [|done]. cbn [from_option]. intros Ht. unfold with_ttl. cbn [fmap option_fmap option_map from_option].
  assert (uint64 (unix_millis t) = t / 1000000) as ->.
  { unfold unix_millis, rounded. rewrite int64_id by (unfold is_int64, int64_min, int64_max in *; lia).
    rewrite Z.quot_div_nonneg by lia. unfold uint64. apply Z.mod_small. unfold int64_max in Ht. split; [apply Z.div_pos; lia|].
    apply Z.div_lt_upper_bound; lia. }
  split; [done|]. pose proof (Z.div_pos t 1000000). pose proof (Z.mul_div_le t 1000000). lia.
Qed.

Section dump.
Context `{Env} `{RdbLib} (fuel : nat) (cfg : Server.Config) `{Server.Services}.
Hypothesis Hfair : fair.
Hypothesis no_error : ∀ l x, encoder_err l x = None.

Lemma encoder_call_run x l : call x l = (Ret None, l ++ [x]).
Proof. unfold call. by rewrite no_error. Qed.

Lemma calls_run {A} (R : A → Call → Prop) (f : A → GoM (list Call) (option string)) xs l :
  Forall (λ x, ∃ c, R x c ∧ ∀ l, f x l = (Ret None, l ++ [c])) xs →
  ∃ cs, calls f xs l = (Ret None, l ++ cs) ∧ Forall2 R xs cs.
Proof.
  intros Hx. revert l. induction Hx as [|x xs (c & Hc & Ef) _ IH]; intros l; [exists []; by rewrite app_nil_r|].
  destruct (IH (l ++ [c])) as (cs & E & Hcs). exists (c :: cs). cbn [calls]. rewrite (bind_Ret _ _ _ _ _ (Ef l)), E, <-app_assoc.
  split; [done|]. by constructor.
Qed.

Lemma dump_key_run n k e t c : stands_for e c → writable c → no_nil c →
  ∃ v, (∀ l, dump_key n (k, e, t) l = (Ret None, l ++ [WriteObject k v (with_ttl t)])) ∧ carries v c ∧ encodable v.
Proof.
  intros Hs Hw Hn. destruct (value_of_carries (map_order n) e c (Hfair n) Hs Hw Hn) as (v & E & Hc & He). exists v. split; [|done].
  intros l. unfold dump_key, go_lift. cbn [fst snd]. rewrite E. erewrite bind_Ret by reflexivity. apply encoder_call_run.
Qed.

(** The entry of a key. *)
Definition entry_of (a : Contents) (k : string) : string * content * option Z :=
  (k, default (CString None) (a.1 !! k), rounded <$> a.2 !! k).

Lemma entries_listing db a (ks : list string) : savable db a → ks ≡ₚ (map_to_list (cd_map (data db))).*1 → entry_of a <$> ks ≡ₚ listing a.
Proof.
  intros [_ [Hh _] _ _ _] Hk. cbn [fst] in Hh.
  assert (ks ≡ₚ (map_to_list a.1).*1) as Hp.
  { rewrite Hk. apply NoDup_Permutation; [apply NoDup_fst_map_to_list..|]. intros k.
    assert (∀ A (m : gmap string A), k ∈ (map_to_list m).*1 ↔ is_Some (m !! k)) as Hin.
    { intros A m. rewrite list_elem_of_fmap. split; [intros ([k' x] & -> & Hx); apply elem_of_map_to_list in Hx; by eexists|].
      intros [x Hx]. exists (k, x). split; [done|]. by apply elem_of_map_to_list. }
    rewrite !Hin. specialize (Hh k). by destruct Hh; split; intros [? ?]; eauto. }
  rewrite Hp. unfold listing. rewrite <-list_fmap_compose. apply reflexive_eq, list_fmap_ext. intros i [k c] Hi.
  apply list_elem_of_lookup_2, elem_of_map_to_list in Hi. unfold entry_of. cbn. by rewrite Hi.
Qed.

Lemma numbered_lookup {A} n (l : list A) i : numbered n l !! i = pair (n + i)%nat <$> l !! i.
Proof.
  revert n i. induction l as [|x l IH]; intros n [|i]; cbn; [done|done|by rewrite Nat.add_0_r|]. rewrite IH. by rewrite <-Nat.add_succ_comm.
Qed.

(** The keys of one database. *)
Lemma dump_db_run draws ord db a acc : fair_order ord → savable db a →
  let l := db_ForEach ord db in
  ∃ cs seg, calls (λ x, dump_key x.1 x.2) (numbered draws l) acc = (Ret None, acc ++ cs) ∧ seg ≡ₚ listing a ∧
    Forall is_object cs ∧ Forall call_ok cs ∧ ∀ i, Forall2 shows (objects_of i cs) (pair i <$> seg).
Proof.
  intros Ho Hs l. pose proof Hs as [[Hok _] [Hh Ht] Hc Htimes _]. cbn [fst snd] in Hh, Ht.
  pose proof (law_for_each (D := ConcurrentDict DataEntity) ord (data db) (ok_data _ Hok) Ho) as Hp.
  change (Concurrent.ForEach ord (data db) ≡ₚ map_to_list (cd_map (data db))) in Hp.
  destruct (calls_run (λ x c, ∃ v, c = WriteObject x.2.1.1 v (with_ttl (a.2 !! x.2.1.1)) ∧ encodable v ∧ carries v (entry_of a x.2.1.1).1.2)
    (λ x, dump_key x.1 x.2) (numbered draws l) acc) as (cs & E & Hcs).
  { apply Forall_lookup. intros i [n [[k e] t]] Hi. rewrite numbered_lookup in Hi. destruct (l !! i) as [y|] eqn:Hy; [|done]. cbn in Hi. injection Hi as _ ->.
    unfold l, db_ForEach in Hy. rewrite list_lookup_fmap in Hy. destruct (_ !! i) as [[k' e']|] eqn:Hi; [|done]. cbn [fmap option_fmap option_map fst snd] in Hy. injection Hy as -> -> <-.
    apply list_elem_of_lookup_2 in Hi. rewrite Hp in Hi. apply elem_of_map_to_list in Hi. rewrite cd_Get, Ht by apply Hok.
    pose proof (Hh k) as Hk. rewrite Hi in Hk. inversion Hk as [? c Hec Ec Ec'|]; subst. destruct (Hc k c) as [Hw Hn]; [done|].
    destruct (dump_key_run n k e (a.2 !! k) c Hec Hw Hn) as (v & Ev & Hv & Hen). eexists. split; [|exact Ev]. exists v. cbn. rewrite <-Ec'. by split. }
  set (ks := l.*1.*1). assert (ks ≡ₚ (map_to_list (cd_map (data db))).*1) as Hks.
  { unfold ks, l, db_ForEach. rewrite <-Hp, <-!list_fmap_compose. done. }
  assert (Forall2 (λ k c, ∃ v, c = WriteObject k v (with_ttl (a.2 !! k)) ∧ encodable v ∧ carries v (entry_of a k).1.2) ks cs) as Hcs'.
  { assert ((λ x, x.2.1.1) <$> numbered draws l = ks) as <-; [|by apply Forall2_fmap_l].
    apply list_eq. intros i. unfold ks. rewrite !list_lookup_fmap, numbered_lookup. by destruct (l !! i). }
  exists cs, (entry_of a <$> ks). split; [done|]. split; [by eapply entries_listing|]. clear E Hcs Hks. clearbody ks.
  assert (∀ k, from_option (λ t, 0 ≤ t ≤ int64_max) True (a.2 !! k)) as Htk by (intros k; destruct (a.2 !! k) eqn:Ek; [by apply (Htimes k)|done]).
  induction Hcs' as [|k c ks cs (v & -> & Hen & Hv) _ (I1 & I2 & I3)]; [by split_and!|]. destruct (with_ttl_rounded _ (Htk k)) as [W1 W2]. split_and!.
  - by constructor.
  - by constructor.
  - intros i. cbn [objects_of fmap list_fmap]. constructor; [|apply I3]. by split_and!.
Qed.

Lemma rdb_dbs_run n draws i e acc l : 0 ≤ i → length l = n → Forall2 savable (drop (Z.to_nat i) (Server.dbSet e)) l →
  ∃ cs segs, dump_dbs (H1 := server_engine fuel cfg (load_preamble cfg)) draws n i e acc = (Ret None, acc ++ cs) ∧
    Forall2 (λ a seg, seg ≡ₚ listing a) l segs ∧ Forall call_ok cs ∧ headed cs ∧
    ∀ cur, Forall2 shows (objects_of cur cs) (entries i segs).
Proof.
  intros Hi Hn. revert n draws i e acc Hi Hn. induction l as [|a l IH]; intros n draws i e acc Hi Hn Hl.
  { subst n. exists [], []. cbn. rewrite app_nil_r. split_and!; by constructor. }
  destruct n as [|n]; [done|]. injection Hn as Hn. cbn [dump_dbs engine_GetDBSize engine_ForEach server_engine].
  inversion Hl as [|db ? rest ? Hdb Hrest Edrop]; subst. symmetry in Edrop.
  assert (Server.dbSet e !! Z.to_nat i = Some db) as Hlook.
  { rewrite <-(Nat.add_0_r (Z.to_nat i)), <-lookup_drop, Edrop. done. }
  assert (∀ e', Server.dbSet e' = Server.dbSet e → Server.mustSelectDB i e' = (Ret db, e')) as Esel.
  { intros e' He'. pose proof (lookup_lt_Some _ _ _ Hlook). unfold Server.mustSelectDB, Server.selectDB, mbind, gom_bind, Server.in_range. rewrite He'.
    rewrite Z.geb_leb, (proj2 (Z.leb_gt _ _)), (proj2 (Z.ltb_ge _ _)) by lia. cbn. by rewrite Hlook. }
  assert (drop (Z.to_nat (i + 1)) (Server.dbSet e) = rest) as Edrop'.
  { replace (Z.to_nat (i + 1)) with (S (Z.to_nat i)) by lia. rewrite (drop_S _ _ _ Hlook) in Edrop. by injection Edrop. }
  unfold Server.GetDBSize. rewrite (bind_Ret _ _ _ _ _ (Esel e eq_refl)). cbn [mret gom_ret go_lift].
  pose proof Hdb as [[Hok _] [Hh _] _ _ Hsize]. cbn [fst] in Hh.
  assert (∀ k, is_Some (cd_map (data db) !! k) ↔ is_Some (a.1 !! k)) as Hdom by (intros k; specialize (Hh k); by destruct Hh; split; intros [? ?]; eauto).
  assert (size (cd_map (data db)) = size a.1) as Esize.
  { rewrite <-!size_dom. f_equal. apply leibniz_equiv. intros k. by rewrite !elem_of_dom. }
  pose proof (law_len (D := ConcurrentDict DataEntity) (data db) (ok_data _ Hok)) as Hlen. change (to_map (data db)) with (cd_map (data db)) in Hlen.
  rewrite Esize in Hlen. specialize (Hlen Hsize). change (Concurrent.Len (data db) = Z.of_nat (size a.1)) in Hlen. rewrite Hlen.
  erewrite bind_Ret by reflexivity. cbv beta iota. destruct (Z.eqb_spec (Z.of_nat (size a.1)) 0) as [Hz|Hz].
  - destruct (IH (length l) draws (i + 1) e acc) as (cs & segs & E & H1' & H2' & H3' & H4'); [lia|done|by rewrite Edrop'|].
    exists cs, ([] :: segs). split; [done|]. split_and!; [|done|done|exact H4'].
    constructor; [|done]. unfold listing. assert (a.1 = ∅) as -> by (apply map_size_empty_inv; lia). by rewrite map_to_list_empty.
  - rewrite (bind_Ret _ _ _ _ _ (encoder_call_run _ acc)). unfold ForEach. rewrite (bind_Ret _ _ _ _ _ (Esel e eq_refl)).
    erewrite bind_Ret by reflexivity. cbn [mret gom_ret go_lift]. erewrite bind_Ret by reflexivity.
    set (acc1 := acc ++ [WriteDBHeader i _ _]).
    destruct (dump_db_run draws (map_order (Server.ticks e)) db a acc1 (Hfair _) Hdb) as (cs & seg & E & P1 & P2 & P3 & P4).
    rewrite (bind_Ret _ _ _ _ _ E).
    match goal with |- context [dump_dbs ?d (length l) (i + 1) ?e1 ?x] => destruct (IH (length l) d (i + 1) e1 x) as (cs' & segs & E' & H1' & H2' & _ & H4') end;
      [lia|done|cbn [Server.dbSet Server.set_ticks]; by rewrite Edrop'|].
    rewrite E'. eexists (_ :: cs ++ cs'), (seg :: segs). split; [unfold acc1; rewrite <-!app_assoc; reflexivity|]. split_and!.
    + by constructor.
    + constructor; [done|]. by apply Forall_app.
    + done.
    + intros cur. cbn [objects_of entries]. rewrite objects_app by done. by apply Forall2_app.
Qed.
End dump.

(** ** From the append-only file to a new server *)

Section restore.
Context `{Env} `{Lib : RdbLib} `{!RdbLaws} (fuel : nat) (cfg : Server.Config) `{Server.Services}.
Hypothesis Hfair : fair.

#[local] Instance rdb_engine : DBEngine Server.Server := server_engine fuel cfg (load_preamble cfg).

Lemma load_preamble_other s e : HasPrefix s "REDIS" = false → load_preamble cfg s e = (Ret None, e).
Proof.
  intros Hs. destruct (parse_other s Hs) as [err E]. unfold load_preamble, LoadRDB. rewrite E. reflexivity.
Qed.

Lemma auxes_run draws pre l : (∀ l x, encoder_err l x = None) →
  ∃ cs, calls (λ kv, call (WriteAux kv.1 kv.2)) (range_map (map_order (S draws)) (auxMap (time_now draws) pre)) l = (Ret None, l ++ cs) ∧ Forall is_aux cs.
Proof.
  intros Hno. destruct (calls_run (λ _ c, is_aux c) (λ kv, call (WriteAux kv.1 kv.2)) (range_map (map_order (S draws)) (auxMap (time_now draws) pre)) l) as (cs & E & Hcs).
  - apply Forall_true. intros [k v]. exists (WriteAux k v). split; [done|]. intros l0. by apply encoder_call_run.
  - exists cs. split; [done|]. clear E. induction Hcs; by constructor.
Qed.

Lemma encode_engine_run draws pre e l : (∀ l x, encoder_err l x = None) → Forall2 savable (Server.dbSet e) l →
  ∃ cs segs, encode_engine draws (length l) pre e [] = (Ret None, cs) ∧ complete cs ∧
    Forall2 (λ a seg, seg ≡ₚ listing a) l segs ∧ Forall2 shows (objects_of 0 cs) (entries 0 segs).
Proof.
  intros Hno Hl. destruct (auxes_run draws pre [WriteHeader] Hno) as (aux & Ea & Haux).
  destruct (rdb_dbs_run fuel cfg Hfair Hno (length l) (S (S draws)) 0 e ([WriteHeader] ++ aux) l) as (cs & segs & E & G1 & G2 & G3 & G4); [lia|done|done|].
  exists (WriteHeader :: aux ++ cs ++ [WriteEnd]), segs. split_and!.
  - unfold encode_engine. cbv zeta. rewrite (bind_Ret _ _ _ _ _ (encoder_call_run Hno _ _)). change ([] ++ [WriteHeader]) with [WriteHeader].
    rewrite (bind_Ret _ _ _ _ _ Ea), (bind_Ret _ _ _ _ _ E), encoder_call_run by done. cbn [app]. by rewrite <-app_assoc.
  - by exists aux, cs.
  - done.
  - assert (∀ cs', objects_of 0 (WriteHeader :: aux ++ cs') = objects_of 0 cs') as ->.
    { intros cs'. cbn [objects_of]. clear Ea E. induction Haux as [|x aux Hx _ IH]; [done|]. destruct x; try done. }
    assert (∀ cur, objects_of cur (cs ++ [WriteEnd]) = objects_of cur cs) as ->; [|apply G4].
    clear. induction cs as [|x cs IH]; intros cur; [done|]. destruct x; cbn; by rewrite IH.
Qed.

Lemma listing_loads a seg n i : Forall (λ x, loads n (i, x)) (listing a) → seg ≡ₚ listing a → Forall (loads n) (pair i <$> seg).
Proof. intros Hl ->. by apply Forall_fmap. Qed.

Lemma entries_load l segs n i : 0 ≤ i → i + Z.of_nat (length l) ≤ Z.of_nat n →
  Forall (λ a : Contents, map_Forall (λ _ c, proper_content c ∧ writable c) a.1) l →
  Forall2 (λ a seg, seg ≡ₚ listing a) l segs → Forall (loads n) (entries i segs).
Proof.
  intros Hi Hn Hl Hs. revert i Hi Hn. induction Hs as [|a seg l segs Ha _ IH]; intros i Hi Hn; [constructor|]. cbn [length] in Hn.
  inversion Hl as [|? ? Hla Hl']; subst. cbn [entries]. apply Forall_app. split; [|apply IH; (done || lia)].
  apply (listing_loads a seg n i); [|done]. unfold listing. apply Forall_fmap, Forall_forall. intros [k c] Hk.
  apply list_elem_of_In, elem_of_map_to_list in Hk. destruct (Hla _ _ Hk). split; [cbn; lia|done].
Qed.

Lemma savable_loads db a : savable db a → map_Forall (λ _ c, proper_content c ∧ writable c) a.1.
Proof.
  intros [_ [Hh _] Hc _ _] k c Hk. destruct (Hc k c Hk) as [Hw _]. split; [|done]. specialize (Hh k). rewrite Hk in Hh.
  inversion Hh; subst. by eapply stands_for_proper.
Qed.

Lemma load_encoded l segs os n : Z.of_nat (length l) = Server.databases cfg → 0 < Server.databases cfg → 0 ≤ Server.SlowLogMaxLen cfg →
  Forall (λ a : Contents, map_Forall (λ _ c, proper_content c ∧ writable c) a.1) l →
  Forall2 (λ a seg, seg ≡ₚ listing a) l segs → Forall2 shows os (entries 0 segs) → Server.RDBFilename cfg ≠ "" →
  ∀ file, Parse file = (os, inr n) → ∃ s, start_from_rdb cfg (Some file) = Ret s ∧
    Forall2 (λ db a, db_holds (cd_map (data db), cd_map (ttlMap db)) a) (Server.dbSet s) (saved <$> l).
Proof.
  intros Hlen Hd Hs Hl Hsegs Hos Hname file Hf. destruct (start_rep cfg Hd Hs) as (s0 & E0 & Hr0). set (empty := replicate (length l) (∅, ∅) : list Contents).
  assert (Forall2 db_holds (sp_dbs (spec_start cfg)) empty) as Hempty.
  { cbn. rewrite <-Hlen, Nat2Z.id. apply Forall2_replicate. split; [|done]. intros k. cbn. rewrite !lookup_empty. constructor. }
  destruct (load_all cfg Hfair os (entries 0 segs) s0 _ empty Hr0 Hempty Hos) as (s & sp & E & Hr & Hh).
  { unfold empty. rewrite length_replicate. by apply (entries_load l); [lia|lia|..]. }
  exists s. unfold start_from_rdb, loadRdbFile, LoadRDB. rewrite E0. cbn [mbind outcome_bind]. rewrite (proj2 (String.eqb_neq _ _)) by done.
  rewrite Hf. unfold mbind, gom_bind in *. rewrite E. cbn. split; [done|].
  pose proof (put_entries segs l [] Hsegs) as Ep. change (foldl put_entry empty (entries 0 segs) = saved <$> l) in Ep. rewrite Ep in Hh.
  revert Hh. generalize (saved <$> l). pose proof (sr_dbs _ _ Hr) as Hdbs. clear -Hdbs. intros l2 Hh. revert l2 Hh.
  induction Hdbs as [|db m dbs ms [M1 M2] _ IH]; intros l2 Hh; inversion Hh as [|? a ? l2' Hma Hrest]; subst; [constructor|].
  constructor; [|by apply IH]. rewrite M1, M2. by destruct m.
Qed.

(** [C14] An RDB file keeps everything but fractions of milliseconds: the append-only file holds any
    lines, which the auxiliary server executes, ending with values of every type and expiry times
    in all databases.  SAVE then writes a file without error, and a server that starts from that
    file has, database by database, the same keys with the same values, and their expiry
    times cut to milliseconds.  (Values are not nil, collections not empty.) *)
Theorem rdb_restores (lines : list CmdLine) (p q : Aof.Persister) (h : PubSub.Hub) (sl : SlowLog.SlowLogger) (aux e : Server.Server)
    (c draws : nat) (pre : bool) (l : list Contents) :
  0 < Server.databases cfg → 0 ≤ Server.SlowLogMaxLen cfg → Server.RDBFilename cfg ≠ "" → (∀ l x, encoder_err l x = None) →
  Aof.aofFile p = file_of lines → Forall storable lines → MakeAuxiliaryServer cfg h sl = Ret aux →
  exec_lines c lines (Aof.newRewriteHandler p, aux) = (Ret tt, (q, e)) →
  Forall2 savable (Server.dbSet e) l → Z.of_nat (length l) = Server.databases cfg →
  ∃ file s, GenerateRDB None None None None c draws (length l) pre aux p = Ret (inr file) ∧ start_from_rdb cfg (Some file) = Ret s ∧
    Forall2 (λ db a, db_holds (cd_map (data db), cd_map (ttlMap db)) a) (Server.dbSet s) (saved <$> l).
Proof.
  intros Hd Hs Hname Hno Hfile Hst _ Hexec Hl Hlen. destruct (encode_engine_run draws pre e l Hno Hl) as (cs & segs & E & Hc & Hsegs & Hshow).
  destruct (parse_encode cs Hc) as (os & n & Hp & Hdec).
  assert (Forall2 shows os (entries 0 segs)) as Hos.
  { clear -Hdec Hshow. revert os Hdec. induction Hshow as [|o x os1 xs Ho _ IH]; intros os Hdec; inversion Hdec; subst; constructor; [by eapply shows_decoded|by apply IH]. }
  destruct (load_encoded l segs os n Hlen Hd Hs) with (file := Encode cs) as (s & Es & Hh); [|done|done|done|done|].
  { clear -Hl. induction Hl; constructor; [by eapply savable_loads|done]. }
  exists (Encode cs), s. split; [|done]. unfold GenerateRDB, startGenerateRDB, generateRDB.
  rewrite (LoadAof_run (H := rdb_engine) load_preamble_other c _ lines); [|cbn; rewrite Hfile|cbn; rewrite Hfile; apply file_no_rdb|done].
  - unfold go_defer. change (Aof.set_aofChan (Aof.newRewriteHandler p) Aof.NilChan) with (Aof.newRewriteHandler p). rewrite Hexec. cbn [go_modify Aof.on_persister fst snd mbind outcome_bind].
    by rewrite E.
  - unfold Aof.reader. destruct (slen (file_of lines) >? 0) eqn:Ez; [|done]. pose proof (substr_app_l (file_of lines) "") as Hsub. by rewrite string_app_nil_r in Hsub.
Qed.
End restore.

(** ** Examples *)

(** A library that satisfies the laws: a file is the number of the list of calls. *)
#[local] Instance float_eq : EqDecision spec_float.
Proof. solve_decision. Defined.

#[local] Instance float_countable : Countable spec_float :=
  inj_countable'
    (λ f, match f with
          | S754_zero s => inl (inl s)
          | S754_infinity s => inl (inr s)
          | S754_nan => inr (inl tt)
          | S754_finite s m e => inr (inr (s, m, e))
          end)
    (λ x, match x with
          | inl (inl s) => S754_zero s
          | inl (inr s) => S754_infinity s
          | inr (inl _) => S754_nan
          | inr (inr (s, m, e)) => S754_finite s m e
          end) ltac:(by intros []).

#[local] Instance value_eq : EqDecision Value.
Proof. solve_decision. Defined.

#[local] Instance value_countable : Countable Value :=
  inj_countable'
    (λ v, match v with
          | StringObject b => inl (inl b)
          | ListObject l => inl (inr l)
          | SetObject l => inr (inl l)
          | HashObject h => inr (inr (inl h))
          | ZSetObject l => inr (inr (inr l))
          end)
    (λ x, match x with
          | inl (inl b) => StringObject b
          | inl (inr l) => ListObject l
          | inr (inl l) => SetObject l
          | inr (inr (inl h)) => HashObject h
          | inr (inr (inr l)) => ZSetObject l
          end) ltac:(by intros []).

#[local] Instance call_eq : EqDecision Call.
Proof. solve_decision. Defined.

#[local] Instance call_countable : Countable Call :=
  inj_countable'
    (λ c, match c with
          | WriteHeader => inl (inl tt)
          | WriteAux k v => inl (inr (k, v))
          | WriteDBHeader i k t => inr (inl (i, k, t))
          | WriteObject k v t => inr (inr (inl (k, v, t)))
          | WriteEnd => inr (inr (inr tt))
          end)
    (λ x, match x with
          | inl (inl _) => WriteHeader
          | inl (inr (k, v)) => WriteAux k v
          | inr (inl (i, k, t)) => WriteDBHeader i k t
          | inr (inr (inl (k, v, t))) => WriteObject k v t
          | inr (inr (inr _)) => WriteEnd
          end) ltac:(by intros []).

Fixpoint bits (p : positive) : string :=
  match p with xH => "" | xO p' => String "0" (bits p') | xI p' => String "1" (bits p') end.

Fixpoint of_bits (s : string) : positive :=
  match s with
  | EmptyString => xH
  | String c s' => if bool_decide (c = "0"%char) then xO (of_bits s') else xI (of_bits s')
  end.

Lemma of_bits_bits p : of_bits (bits p) = p.
Proof. induction p as [p IH|p IH|]; cbn; [by rewrite IH..|done]. Qed.

Fixpoint sdrop (n : nat) (s : string) : string :=
  match n, s with S n', String _ s' => sdrop n' s' | _, _ => s end.

Definition small_lib : RdbLib := {|
  Encode := λ cs, "REDIS" +:+ bits (encode cs);
  encoder_err := λ _ _, None;
  Parse := λ s,
    if HasPrefix s "REDIS" then
      match decode (of_bits (sdrop 5 s)) with
      | Some cs => (objects_of 0 cs, inr (slen s))
      | None => ([], inl "unexpected end of file")
      end
    else ([], inl "file is not a RDB file")
|}.

Lemma small_lib_laws `{Env} : RdbLaws (H0 := small_lib).
Proof.
  split.
  - intros cs _. exists (objects_of 0 cs), (slen (Encode (RdbLib := small_lib) cs)). split.
    { unfold Parse, Encode, small_lib. set (b := bits (encode cs)). change (sdrop 5 ("REDIS" +:+ b)) with b.
      assert (∀ b, HasPrefix ("REDIS" +:+ b) "REDIS" = true) as -> by (by intros []). unfold b. by rewrite of_bits_bits, decode_encode. }
    induction (objects_of 0 cs) as [|o os IH]; constructor; [|done]. split_and!; try done. destruct (GetValue o); cbn; reflexivity.
  - intros s Hs. cbn [Parse small_lib]. rewrite Hs. by eexists.
Qed.

Lemma aux_rep cfg : 0 < Server.databases cfg → 0 ≤ Server.SlowLogMaxLen cfg →
  ∃ h sl aux, MakeAuxiliaryServer cfg h sl = Ret aux ∧ srv_rep aux (spec_load cfg).
Proof.
  intros Hd Hl. destruct PubSub.MakeHub_spec as (h & _ & Hr & Hlk). destruct (SlowLog.new_rep _ (Server.SlowLogSlowerThan cfg) Hl) as (sl & _ & Hsl).
  exists h, sl. unfold MakeAuxiliaryServer. rewrite (proj2 (Z.ltb_ge _ _)) by lia. eexists. split; [done|].
  destruct (make_db_ok dataDictSize ttlDictSize) as (Hok & Hu & Hv); [by compute..|]. change (make_db dataDictSize ttlDictSize) with makeBasicDB in *.
  assert (∀ c, Conn.selectedDB (PubSub.conn_of (PubSub.start h) c) = 0) as Hsel by (intros c; unfold PubSub.conn_of; cbn [PubSub.start PubSub.conns]; by rewrite lookup_empty).
  split; cbn; [split; cbn| |done|intros c; unfold PubSub.conn_of; cbn [PubSub.start PubSub.conns]; by rewrite lookup_empty|done|done|done].
  - apply Forall_replicate. exact (conj Hok Hu).
  - eauto.
  - done.
  - eauto.
  - intros c. rewrite Hsel, length_replicate. lia.
  - intros c. unfold PubSub.conn_of. cbn [PubSub.start PubSub.conns]. rewrite lookup_empty. constructor.
  - apply Forall2_replicate. exact (view_is _ _ _ _ _ Hv).
Qed.

Definition rdb_config : Server.Config := Server.mkConfig "" true 2 "dump.rdb" 8 0.

Definition demo_lines : list CmdLine :=
  [ToCmdLine ["SET"; "k"; "v"]; ToCmdLine ["PEXPIREAT"; "k"; "5000000"]; Aof.selectCmd 1; ToCmdLine ["SADD"; "s"; "x"]].

Definition demo_contents : list Contents :=
  [({["k" := CString (Some "v")]}, {["k" := 5000000000000]}); ({["s" := CSet {["x"]}]}, ∅)].

Lemma demo_storable : Forall storable demo_lines.
Proof. repeat (apply Forall_cons_2; [split_and!; [done|by repeat constructor|split; [by repeat constructor|done]]|]). apply Forall_nil_2. Qed.

Lemma demo_loadable : Forall loadable demo_lines.
Proof.
  repeat (apply Forall_cons_2; [split; [reflexivity|]|]); [done|done|by exists 1|done|]. apply Forall_nil_2.
Qed.

(** What the lines leave. *)
Lemma demo_replayed : sp_dbs (replayed (H := demo_env) rdb_config 9 demo_lines (spec_load rdb_config)) =
  [({["k" := DString (Some "v")]}, {["k" := 5000000000000]});
   ({["s" := DSet (Sets.Add (Sets.Make []) "x").1]}, ∅)].
Proof. vm_compute. reflexivity. Qed.

Lemma demo_answers : answers (H := demo_env) rdb_config 9 demo_lines (spec_load rdb_config).
Proof. vm_compute. by repeat constructor. Qed.

Lemma map_holds (m : gmap string DataEntity) (a : gmap string content) k e c :
  m = {[k := e]} → a = {[k := c]} → stands_for e c → ∀ j, option_Forall2 stands_for (m !! j) (a !! j).
Proof.
  intros -> -> Hs j. destruct (decide (j = k)) as [->|Hne]; [rewrite !lookup_singleton_eq; by constructor|].
  rewrite !lookup_singleton_ne by done. constructor.
Qed.

Lemma rdb_restores_witness :
  ∃ (p : Aof.Persister) aux file s,
    GenerateRDB (H := demo_env) (H0 := small_lib) (H1 := server_engine (H := demo_env) 5 rdb_config (H0 := idle_services) (load_preamble (H := demo_env) (H0 := small_lib) rdb_config))
      None None None None 9 0 2 false aux p = Ret (inr file) ∧
    start_from_rdb (H := demo_env) (H0 := small_lib) rdb_config (Some file) = Ret s ∧
    Forall2 (λ db a, db_holds (cd_map (data db), cd_map (ttlMap db)) a) (Server.dbSet s) (saved <$> demo_contents).
Proof.
  destruct (aux_rep rdb_config) as (h & sl & aux & Eaux & Haux); [done..|].
  set (p := Aof.mkPersister Aof.NilChan (file_of demo_lines) "no" 0 [] [] [] 0).
  destruct (exec_lines_rep (H := demo_env) 5 rdb_config (H0 := idle_services) (load_preamble (H := demo_env) (H0 := small_lib) rdb_config) eq_refl 9 demo_lines
    (Aof.newRewriteHandler p) aux _ Haux demo_loadable demo_answers) as (q & e & Ee & He).
  assert (Forall2 (savable (H := demo_env)) (Server.dbSet e) demo_contents) as Hsav.
  { pose proof (so_dbs _ (sr_ok _ _ He)) as Hfine. pose proof (sr_dbs _ _ He) as Hdbs. rewrite demo_replayed in Hdbs.
    inversion Hdbs as [|db1 ? dbs ? [A1 A2] Hrest]; subst. inversion Hrest as [|db2 ? dbs' ? [B1 B2] Hnil]; subst. inversion Hnil; subst. rewrite <-H in Hfine.
    inversion Hfine as [|? ? F1 Hfine2]; subst. inversion Hfine2 as [|? ? F2 _]; subst. unfold demo_contents. constructor; [|constructor; [|constructor]].
    - split; [done|split; [by eapply map_holds|exact A2]|apply map_Forall_singleton; split; [done|by eexists]|by apply map_Forall_singleton|by vm_compute].
    - split; [done|split; [by eapply map_holds|exact B2]|apply map_Forall_singleton; split; [|done]; apply (bool_decide_eq_true_1 (_ ≠ _)); by vm_compute|apply map_Forall_empty|by vm_compute]. }
  destruct (rdb_restores (H := demo_env) (Lib := small_lib) (H0 := small_lib_laws (H := demo_env)) 5 rdb_config (H1 := idle_services) ltac:(by intros ? ?)
    demo_lines p q h sl aux e 9 0 false demo_contents ltac:(done) ltac:(done) ltac:(done) ltac:(done) eq_refl demo_storable Eaux Ee Hsav eq_refl) as (file & s & E1 & E2 & E3).
  exists p, aux, file, s. split; [exact E1|]. split; [exact E2|exact E3].
Defined.
